(* ===== verification/_CoqProject ===== *)
-Q . S2P
Prelude.v
TimeSpec.v
Trigger.v
Regulators.v
Activity.v
ActivityManager.v
States.v
StatusTree.v
Dusime.v
Entities.v
CyclicInt.v
Bytes.v
Amorph.v
MessageBuffer.v
Transport.v
FillPack.v
FillUnpack.v
Packer.v
NetPeer.v
BulkStream.v
DataLink.v
TransportErrors.v
Containers.v
DiffPack.v
Msgpack.v
MsgpackVisit.v
MsgpackRead.v
MsgpackTrip.v
ChannelEntry.v
ChannelInv.v
ChannelFrame.v
ChannelQueues.v
ChannelTimed.v
ChannelMsg.v
ChannelMaster.v
ConfigChanges.v
ChannelEnd.v
EntryPack.v
PackSteps.v
EntryMessage.v
EntryMirror.v
EntryLink.v
ChannelFollow.v
ChannelClean.v
LockFree.v
AsyncQueue.v
DdffFile.v
DdffStream.v
DdffBlock.v
DdffWrite.v
DdffHandler.v
DdffRead.v
DdffLoad.v
DdffRecord.v
DdffErrors.v
