(* ===== verification/Prelude.v ===== *)
(** * DUECA: a verification library

    DUECA is a middleware for real-time simulation.  Modules on several nodes
    exchange time-tagged data over channels and are activated when the data
    they wait for are complete; the data are packed into byte streams between
    nodes and recorded in files.  This library models the parts that carry
    that core logic, as the C++ under [src/dueca], [src/dusime], [src/udpcom] and
    [src/ddff] has it, and proves what makes them correct.  The file is the root of the library: this
    header, and the prelude the other files share.

    ** How the model is made

    Machine integers are [Z] with their wrap-around written out ([u32], [s64]
    and so on below).  A method of an object is a function [M S A]: it returns a
    value, throws a C++ exception ([Exn]) or has no defined result ([Stuck]:
    an array overrun, a null or freed pointer, signed overflow, a failed
    assertion, fuel run out), and hands back the state of the object, also
    after an exception.  Assertions are checked or not as [ASSERT_ACTIVE] of
    [dassert.h.in] says, and the byte order of the host is a parameter
    ([BuildConfig]); theorems hold for all four builds.  Loops that are not
    structural run on fuel, and the theorems say how much is enough.

    ** The parts

    - Logical time, [dueca/TimeSpec.*], [DataTimeSpecExtra.*] and
      [CyclicInt.*]: files [TimeSpec], [CyclicInt].  Spans of 32 bit ticks,
      periodic time specifications.  The advance to a tick lands on the period
      grid ([forceAdvance_floor]); the cyclic integer computes modulo its limit
      and its loops end ([cyclic_arithmetic]).
    - Triggering, [dueca/Trigger.*], [TriggerAtom.*]: file [Trigger].  Module
      [PD] is the list of spans a puller has reported, [Conditions] the time
      logic of Or and And, [Net] the graph of pullers and targets.  An And
      condition passes on ordered spans, only time every puller reported
      ([and_run_correct]), and all of it when the reports have no gaps
      ([and_run_complete]); two theorems show where that fails.
    - Time driven triggering, [dueca/TriggerRegulator*.cxx] and the two alarms:
      file [Regulators].
    - Activities, [dueca/Activity.*], [CriticalActivity.*] and
      [ActivityManager.*]: file [Activity] has the run states and what a
      despatch does in each ([Act], [CA]), for callbacks that call anything on
      their activity and may throw; [ActivityManager] the doubly linked queue,
      its order of importance and the loop.  From trigger to callback the run
      period is exact ([run_period]), so is the work period of a critical
      activity ([work_period]), and a critical error is final
      ([node_error_final]).
    - States of modules and of the simulation, [dueca/ModuleStateExtra.cxx],
      [SimulationStateExtra.cxx], [StatusT1.*]: file [States], the tables that
      combine states.  [dueca/ModuleId.*], [Summary.*], [StatusKeeper.*]: file
      [StatusTree], the registry of names and the tree that combines the
      statuses of modules lazily; it agrees with a tree without caches, whatever
      checks in, reports and asks ([status_keeper_correct]).
    - [dueca/Module.cxx], [Entity.cxx], [EntityManager.cxx]: file [Entities].
      What node 0 confirms is the combination of what the modules reported
      ([confirmed_state_correct]), reports of all modules being on are confirmed
      ([on_is_confirmed]), commands are in order ([entity_command_times]).
    - [dusime/SimulationModule.cxx], [HardwareModule.cxx], the snapshot state of
      [DusimeModule.cxx], and [DusimeController.cxx]: file [Dusime].  The
      commands of the controller ([controlModel_correct]) are followed by the
      modules ([command_followed]) and published when all have confirmed
      ([confirmed_by_all]); a safety stop holds ([safety_stop_holds]); a snapshot
      is taken once ([snapshot_once]).
    - Byte stores, [dueca/AmorphStore.*]: files [Bytes] (host and network
      order) and [Amorph].  Packing and unpacking of every type, marks, choke
      handling: round trip, exact outcome of a pack, safety on arbitrary bytes.
    - Transport between nodes, [dueca/MessageBuffer.*], [GenericPacker.*],
      [FillPacker.*], [FillUnpacker.*], [Packer.*], [Unpacker.*],
      [udpcom/PacketCommunicator.*] and the payload in
      [udpcom/DuecaNetPeer.cxx]: [MessageBuffer] has the buffers, their claims
      and the pool, [Transport] the interfaces to the channels as classes with
      laws, [FillPack] and [FillUnpack] the packer that cuts bulk data to the
      room in a message and its counterpart, [Packer] the regular data,
      [NetPeer] the payload of a message.  [BulkStream] and [DataLink] put them
      together: two nodes with an ordered network between them are two queues,
      whatever the order of their steps ([data_link_prefix]), and a bounded
      number of messages empties them ([data_link_delivers]).
      [TransportErrors] shows what data does that is too large.
    - Difference packing, [dueca/PackUnpackTemplates.hxx]: file [DiffPack].  The
      template families are classes with laws, proved once for each family; the
      composition is a round trip for any object, and a sequence of difference
      packets keeps a receiver in step ([incremental_transmission]).
    - MessagePack reading, [dueca/msgpack-unstream-iter.*]: file [Msgpack],
      against a class of byte iterators with laws.
    - MessagePack packing and visitors, [dueca/msgpack.hxx], [msgpack.cxx] and
      the code generated for DCO classes: [MsgpackVisit] has the adaptors that
      pack and the nested visitors that fill objects, [MsgpackRead] shows that
      the visitors compute a reading by recursion on the type
      ([visitors_read_values]), [MsgpackTrip] that what is packed is read back
      ([pack_visit_roundtrip]), DCO objects by the names of their members
      ([members_by_name]), and where visitors fail ([map_of_objects_refused],
      [nil_element_loses_vector]).
    - Containers for communication objects, [dueca/limvector.hxx],
      [varvector.hxx], [fixvector.hxx], [fix_optional.hxx]: file [Containers],
      refinements of lists.
    - Channel entries, [dueca/UChannelEntry.*], [UChannelEntryData.*] and the
      client part of [UCClientHandle.*]: [ChannelEntry] has the store of cells
      and every operation, [ChannelInv] the invariant and the run of each
      operation, [ChannelQueues] the contract (an entry with n sequential
      readers implements n queues, [channel_fifo]), [ChannelTimed] the reading
      by time.  Each member function is one atomic step.
    - Transport of an entry, the packing part of [UChannelEntry.cxx] and
      [unPackData] of [UnifiedChannel.cxx]: [EntryPack] has the operations, on an
      entry with the objects of its data; the [DataSetConverter] of a class is
      generated code, an interface with laws in [EntryMessage].  [ChannelFrame]
      shows what a write leaves of times and older data, [PackSteps] a packer as a
      reader, [EntryMessage] the bytes of a message, [EntryMirror] one message
      sent and one received, and [EntryLink] the whole: the entry at the other
      node is a copy ([entry_mirrored]), except where a store is full with a
      gap right ahead ([retry_after_gap]).
    - Channel configuration, [dueca/UChannelCommRequest.dco],
      [UnifiedChannelMaster.*], [UCEntryConfigurationChange.*],
      [UCClientHandle.*], [UnifiedChannel.*] and the parents of classes in
      [DataClassRegistry.cxx]: [ChannelMsg] has the messages and the classes,
      [ChannelMaster] (Module [MA]) the end that decides on entries, ids and
      reservations, [ConfigChanges] ([CL]) the list by which the readers of
      an end learn of entries, [ChannelEnd] ([UC]) everything one end does: tokens, links,
      the commands of the master, its service.  What the master sends is a
      protocol that an end can follow ([master_commands]), the list is one
      queue for each reader ([readers_see_all_changes]), a reader follows
      that queue as a fold ([ChannelFollow], [refresh_follows]).  Cleaning
      goes by rounds ([cleaning_round]), each command for it ends
      ([ChannelClean], [clean_command]); [stray_deletion] and
      [unclean_entry_stuck] show where following and cleaning go wrong.
    - Between threads, [dueca/LockFreeLIFO.hxx] and [AsyncQueueMT.hxx]: files
      [LockFree] and [AsyncQueue].  Each atomic access is a step and any schedule
      interleaves the threads.  The stack is linearizable under the bound that
      its 16 bit counter sets; the queue uses the stack through a class.
    - Recording files, [ddff/ControlBlock.*], [DDFFMessageBuffer.*],
      [FileStreamWrite.*], [FileStreamRead.*], [FileHandler.*]: [DdffFile]
      (file, buffers, block headers), [DdffStream] (streams and handler),
      [DdffBlock] (the bytes of a block), [DdffWrite] and [DdffHandler] (the
      invariant of writing: the file is a list of blocks, each stream a linked
      chain of them), [DdffRead] and [DdffLoad] (scanning, loading, iterating),
      [DdffRecord] (recording and playing back is the identity from the first
      mark on), [DdffErrors] (damaged files, and the uses that lose data).

    ** How the parts meet

    A writer of a channel appends to an entry; the entry pulls its triggers,
    which is [Net.pull] of a puller in the graph of [Trigger], and notifies its
    transport through a list of service requests.  A link of
    [ChannelEnd] is a client of an entry of [ChannelEntry], and the service of
    the end with the master runs [MA.process] and [MA.sweep] and
    carries out what they send.  A packer takes
    the notifications as a queue, and the data from the entry through the class
    [ChannelEntries]; [EntryLink] takes the same calls with the entry itself, and
    a queue of messages for the way between the nodes.  The entries pack with
    [AmorphStore] or difference packing.  Regulators stand in the graph as
    pullers whose spans come from [Regulators].  The atoms of a pull reach
    [Activity] through the manager's trigger queue, and its items keep the
    spans they are despatched with.  Recording files use
    [AmorphStore] for block headers and links, and hold their buffers in
    [AsyncQueueMT] lists, which [DdffFile.BL] takes with one thread.  Spares of
    [AsyncQueueMT] are kept in a [LockFreeLIFO].  The entity manager and the Dusime
    controller share the status keeper of [StatusTree]; the controller asks the
    manager whether the modules are on.  A critical error ([Activity.CA]) calls
    [setSafetyStop] of its module, which for a hardware module is that of
    [Dusime.HW].

    ** Bounds and fuel

    [CyclicInt]: [plus_assign_fuel] covers the distance to the limit.
    [Regulators]: the number of periods in the span.  [Msgpack] and [DiffPack]
    recurse on the announced size, on fuel that covers the bytes at hand.
    [StatusTree]: the new nodes for a name are at most its parts; entities have
    one name and modules two.  [Entities], [Dusime]: the order of commands needs
    a clock that does not overflow within a command interval and lead.
    [ChannelEntry]: the number of cells.  [ChannelMsg]: one more than the number of
    classes, as no class is its own ancestor.  [ConfigChanges], [ChannelEnd]: one
    more than the nodes of the list of changes.  [EntryLink]: fewer than 2^32
    operations, times before the last tick, spans of streams that are not empty.  [ActivityManager]: the search for a place takes at
    most the number of items, the loop one turn for each item; items can be
    compared when a hundred times their distance fits an [int].  [DdffStream]:
    [write] at most the number of bytes, [checkIndices], [runLoads] and reading at most the length
    of the file.  [LockFree]: no thread sleeps through 65536 pops, the count of
    the top word; with more the stack can break, and an example shows it.
    [FillPack], [Packer]: a turn for each notification.  [FillUnpack],
    [Packer.UP]: a turn for each byte, of which a message has at least three.
    [DataLink]: fewer than 2^32 buffers in use; the rounds until all is delivered
    are bounded by the number of regular messages and of bulk bytes.
    [DdffRecord]: at most 65536 streams (16 bit numbers), blocks and single
    writes below 2^32 bytes, files below 2^63 - 1 bytes.

    ** Not modelled, and why

    Floating point conversions of time and value (no decision depends on
    them).  The ticker and clocks, and what the activity manager does with threads,
    operating system time and activity logs.  [ChannelManager] and the
    object and node managers (their protocol between nodes runs over
    many message types that the build generates).  Of [UnifiedChannel] the
    set-up of the first channels ([serviceLocal1], [serviceLocal2]), the information
    stashes, counts and warnings; in [ChannelEnd] what the data kept for an entry
    do when they are unpacked is a parameter.  The creation of modules from
    scripts, and what a user's module does in the functions it overrides.  The IP,
    shared memory and reflective accessors (sockets and devices), and of the
    network communicators the control block, the cycles of messages with their
    resends and the joining of peers: [DataLink] takes from them a network that
    keeps the order and loses nothing.  The packers see the channel entries
    through an interface that promises a retry after a full store; the
    entries fulfil it except at a gap ([retry_after_gap]), so [EntryLink]
    states what holds of them and is no instance.  Inventory, segments and the recorder on top of
    recording files.  The contents of snapshots, replay and initial conditions
    of Dusime, web sockets, HDF5, logging, scripting,
    graphical interfaces, code generation, tests and everything under
    [3rdparty] and [extra].  Values of types that a library supplies ([boost],
    [pthread], the checksum) are parameters with what the code relies on. *)

From stdpp Require Export base gmap sets list strings option numbers.
From Stdlib Require Export ZArith Lia.

#[local] Open Scope Z_scope.

(** * Machine integers

    A C++ integer of a fixed width is a [Z]; every operation that can leave
    the width is followed by one of these wrapping functions.  Division by
    the literal modulus (rather than [2 ^ n]) keeps the terms in the fragment
    that [lia] decides. *)

Definition u8 (z : Z) : Z := z mod 256.
Definition u16 (z : Z) : Z := z mod 65536.
Definition u32 (z : Z) : Z := z mod 4294967296.
Definition u64 (z : Z) : Z := z mod 18446744073709551616.
Definition s8 (z : Z) : Z := (z + 128) mod 256 - 128.
Definition s16 (z : Z) : Z := (z + 32768) mod 65536 - 32768.
Definition s32 (z : Z) : Z := (z + 2147483648) mod 4294967296 - 2147483648.
Definition s64 (z : Z) : Z :=
  (z + 9223372036854775808) mod 18446744073709551616 - 9223372036854775808.

Definition is_u8 (z : Z) : Prop := 0 <= z < 256.
Definition is_u16 (z : Z) : Prop := 0 <= z < 65536.
Definition is_u32 (z : Z) : Prop := 0 <= z < 4294967296.
Definition is_u64 (z : Z) : Prop := 0 <= z < 18446744073709551616.
Definition is_s8 (z : Z) : Prop := -128 <= z < 128.
Definition is_s16 (z : Z) : Prop := -32768 <= z < 32768.
Definition is_s32 (z : Z) : Prop := -2147483648 <= z < 2147483648.
Definition is_s64 (z : Z) : Prop :=
  -9223372036854775808 <= z < 9223372036854775808.

(** [width] opens the wrapping functions and the range predicates and hands
    the quotients to [lia]. *)
Ltac open_width :=
  unfold is_u8, is_u16, is_u32, is_u64, is_s8, is_s16, is_s32, is_s64,
    u8, u16, u32, u64, s8, s16, s32, s64 in *.
Ltac width := open_width; Z.to_euclidean_division_equations; lia.

Lemma u8_id z : is_u8 z -> u8 z = z.
Proof. width. Qed.
Lemma u16_id z : is_u16 z -> u16 z = z.
Proof. width. Qed.
Lemma u32_id z : is_u32 z -> u32 z = z.
Proof. width. Qed.
Lemma u64_id z : is_u64 z -> u64 z = z.
Proof. width. Qed.
Lemma s8_id z : is_s8 z -> s8 z = z.
Proof. width. Qed.
Lemma s16_id z : is_s16 z -> s16 z = z.
Proof. width. Qed.
Lemma s32_id z : is_s32 z -> s32 z = z.
Proof. width. Qed.
Lemma s64_id z : is_s64 z -> s64 z = z.
Proof. width. Qed.

Lemma u8_range z : is_u8 (u8 z).
Proof. width. Qed.
Lemma u16_range z : is_u16 (u16 z).
Proof. width. Qed.
Lemma u32_range z : is_u32 (u32 z).
Proof. width. Qed.
Lemma u64_range z : is_u64 (u64 z).
Proof. width. Qed.
Lemma s32_range z : is_s32 (s32 z).
Proof. width. Qed.

Lemma u32_add_l a b : u32 (u32 a + b) = u32 (a + b).
Proof. unfold u32. apply Zplus_mod_idemp_l. Qed.
Lemma u32_add_r a b : u32 (a + u32 b) = u32 (a + b).
Proof. unfold u32. apply Zplus_mod_idemp_r. Qed.
Lemma s8_u8 z : is_s8 z -> s8 (u8 z) = z.
Proof. width. Qed.
Lemma s16_u16 z : is_s16 z -> s16 (u16 z) = z.
Proof. width. Qed.
Lemma s32_u32 z : is_s32 z -> s32 (u32 z) = z.
Proof. width. Qed.
Lemma s64_u64 z : is_s64 z -> s64 (u64 z) = z.
Proof. width. Qed.

Create HintDb width discriminated.
#[export] Hint Resolve u8_range u16_range u32_range u64_range s32_range : width.

(** * Build configuration

    Two facts the sources leave to the build: [ASSERT_ACTIVE] of
    [dassert.h.in] (an [assert] is either checked or expands to nothing) and
    the byte order of the host, which [htons] and friends, the unions over
    [char] arrays and [boost::endian::order::native] all depend on. *)

Class BuildConfig := {
  ASSERT_ACTIVE : bool;
  host_little : bool
}.

(** A build with assertions on a little endian host, for the examples. *)
Definition test_config : BuildConfig :=
  {| ASSERT_ACTIVE := true; host_little := true |}.

(** * Results, exceptions and faults *)

(** The C++ exceptions the modelled code throws. *)
Inductive exn :=
  | AmorphStoreBoundary
  | AmorphReStoreEmpty
  | MarkRange
  | UnpackMismatch (msg : string)
  | TimeSpecSubtractFailed
  | IndexException
  | OutOfRange
  | StringSizeExceeded
  | EntryInvalid
  | BufferBoundary
  | BufferTooSmall
  | BlockCrcError (offset fill : Z)
  | IncorrectInit
  | FileLogicError
  | FileReadError (offset : Z)
  | FileWrongStreamid
  | FileInconsistentBufsize
  | FileAlreadyOpened
  | FileExists
  | FileMissing
  | FileReadonlyNoWrite
  | EntryNotFound
  | EntryExists
  | DuplicateFileStreamRead
  | WeaverKeyInvalid
  | DataObjectClassNotFound
  | ChannelConfigException
  | NotFound
  | ContainerSizeOverflow
  | ObjModeMismatch (operation : string)
  | DcoKeyTooLong
  | ExcessArrayMembers (dconame : string).

(** Executions the language gives no meaning to, or that abort. *)
Inductive fault :=
  | AssertFailed
  | OutOfBounds
  | NullDeref
  | DanglingDeref
  | DivByZero
  | SignedOverflow
  | OutOfFuel.

Inductive outcome (A : Type) :=
  | Val (a : A)
  | Exn (e : exn)
  | Stuck (f : fault).
Arguments Val {A} a.
Arguments Exn {A} e.
Arguments Stuck {A} f.

#[export] Instance exn_eq_dec : EqDecision exn.
Proof. solve_decision. Defined.
#[export] Instance fault_eq_dec : EqDecision fault.
Proof. solve_decision. Defined.
#[export] Instance outcome_eq_dec `{EqDecision A} : EqDecision (outcome A).
Proof. solve_decision. Defined.

(** A method of an object of type [S]: the object's state survives an
    exception, as it does in C++. *)
Definition M (S A : Type) : Type := S -> outcome A * S.

#[export] Instance outcome_ret : MRet outcome := fun A a => Val a.
#[export] Instance outcome_bind : MBind outcome := fun A B k m =>
  match m with Val a => k a | Exn e => Exn e | Stuck f => Stuck f end.

#[export] Instance outcome_fmap : FMap outcome := fun A B f m =>
  match m with Val a => Val (f a) | Exn e => Exn e | Stuck x => Stuck x end.

(** [assert(b)] where no object state is at hand. *)
Definition passert `{BuildConfig} (b : bool) : outcome unit :=
  if ASSERT_ACTIVE && negb b then Stuck AssertFailed else Val tt.

Lemma passert_true `{BuildConfig} b : b = true -> passert b = Val tt.
Proof. intros ->. unfold passert. by rewrite andb_false_r. Qed.

(** [int] addition and subtraction: overflow has no meaning. *)
Definition iadd (a b : Z) : outcome Z :=
  if bool_decide (is_s32 (a + b)) then Val (a + b) else Stuck SignedOverflow.
Definition isub (a b : Z) : outcome Z :=
  if bool_decide (is_s32 (a - b)) then Val (a - b) else Stuck SignedOverflow.

Lemma iadd_val a b : is_s32 (a + b) -> iadd a b = Val (a + b).
Proof. intros. unfold iadd. by rewrite bool_decide_true. Qed.
Lemma isub_val a b : is_s32 (a - b) -> isub a b = Val (a - b).
Proof. intros. unfold isub. by rewrite bool_decide_true. Qed.

#[export] Instance M_ret {S} : MRet (M S) := fun A a s => (Val a, s).
#[export] Instance M_bind {S} : MBind (M S) := fun A B k m s =>
  match m s with
  | (Val a, s') => k a s'
  | (Exn e, s') => (Exn e, s')
  | (Stuck f, s') => (Stuck f, s')
  end.
#[export] Instance M_fmap {S} : FMap (M S) := fun A B f m s =>
  match m s with
  | (Val a, s') => (Val (f a), s')
  | (Exn e, s') => (Exn e, s')
  | (Stuck f, s') => (Stuck f, s')
  end.

Section Ops.
Context {S : Type}.

Definition throw {A} (e : exn) : M S A := fun s => (Exn e, s).
Definition stuck {A} (f : fault) : M S A := fun s => (Stuck f, s).
Definition get : M S S := fun s => (Val s, s).
Definition put (s : S) : M S unit := fun _ => (Val tt, s).
Definition gets {A} (f : S -> A) : M S A := fun s => (Val (f s), s).
Definition modify (f : S -> S) : M S unit := fun s => (Val tt, f s).
Definition of_option {A} (f : fault) (o : option A) : M S A :=
  match o with Some a => mret a | None => stuck f end.
(** [catch m h] is [try { m } catch (exception e) { h e }]. *)
Definition catch {A} (m : M S A) (h : exn -> M S A) : M S A := fun s =>
  match m s with
  | (Exn e, s') => h e s'
  | r => r
  end.
(** [assert(b)], under the build's [ASSERT_ACTIVE]. *)
Definition dassert `{BuildConfig} (b : bool) : M S unit :=
  if ASSERT_ACTIVE && negb b then stuck AssertFailed else mret tt.
Definition when (b : bool) (m : M S unit) : M S unit :=
  if b then m else mret tt.

Lemma mret_bind {A B} (a : A) (k : A -> M S B) : (mret a ≫= k) = k a.
Proof. reflexivity. Qed.
Lemma bind_val {A B} (m : M S A) (k : A -> M S B) s a s' :
  m s = (Val a, s') -> (m ≫= k) s = k a s'.
Proof. intros E. unfold mbind, M_bind. by rewrite E. Qed.
Lemma bind_exn {A B} (m : M S A) (k : A -> M S B) s e s' :
  m s = (Exn e, s') -> (m ≫= k) s = (Exn e, s').
Proof. intros E. unfold mbind, M_bind. by rewrite E. Qed.
Lemma bind_inv {A B} (m : M S A) (k : A -> M S B) s b s2 :
  (m ≫= k) s = (Val b, s2) ->
  exists a s1, m s = (Val a, s1) /\ k a s1 = (Val b, s2).
Proof.
  unfold mbind, M_bind. destruct (m s) as [[a|e|f] s1]; intros; [|done..].
  by exists a, s1.
Qed.
Lemma dassert_true `{BuildConfig} b s :
  b = true -> dassert b s = (Val tt, s).
Proof. intros ->. unfold dassert. by rewrite andb_false_r. Qed.
End Ops.

Lemma bind_assoc {S A B C} (m : M S A) (f : A -> M S B) (g : B -> M S C) s :
  (m ≫= (fun a => f a ≫= g)) s = ((m ≫= f) ≫= g) s.
Proof. unfold mbind, M_bind. by destruct (m s) as [[]]. Qed.

(** [mrun] steps through the head of a method body. *)
Ltac mrun :=
  repeat (cbn [mret M_ret get put gets modify throw stuck of_option when];
    unfold mret, M_ret, get, put, gets, modify, throw, stuck, of_option, when,
      mbind, M_bind).

(** * Byte buffers *)

(** A C array of [char] is a list of byte values; an access outside the list
    is an access outside the object. *)
Definition bytes_ok (l : list Z) : Prop := Forall is_u8 l.

Definition write_at (i : Z) (bs buf : list Z) : option (list Z) :=
  if decide (0 <= i /\ i + Z.of_nat (length bs) <= Z.of_nat (length buf))
  then Some (take (Z.to_nat i) buf ++ bs ++ drop (Z.to_nat i + length bs) buf)
  else None.

Definition read_at (i : Z) (n : nat) (buf : list Z) : option (list Z) :=
  if decide (0 <= i /\ i + Z.of_nat n <= Z.of_nat (length buf))
  then Some (take n (drop (Z.to_nat i) buf))
  else None.

Lemma write_at_length i bs buf buf' :
  write_at i bs buf = Some buf' -> length buf' = length buf.
Proof.
  unfold write_at. case_decide; intros; simplify_eq.
  rewrite !length_app, length_take, length_drop. lia.
Qed.

Lemma write_at_some i bs buf :
  0 <= i -> i + Z.of_nat (length bs) <= Z.of_nat (length buf) ->
  write_at i bs buf =
    Some (take (Z.to_nat i) buf ++ bs ++ drop (Z.to_nat i + length bs) buf).
Proof. intros. unfold write_at. by rewrite decide_True. Qed.

Lemma read_at_some i n buf :
  0 <= i -> i + Z.of_nat n <= Z.of_nat (length buf) ->
  read_at i n buf = Some (take n (drop (Z.to_nat i) buf)).
Proof. intros. unfold read_at. by rewrite decide_True. Qed.

Lemma read_at_length i n buf bs : read_at i n buf = Some bs -> length bs = n.
Proof.
  unfold read_at. case_decide; intros; simplify_eq.
  rewrite length_take, length_drop. lia.
Qed.

Lemma read_at_bytes_ok i n buf bs :
  bytes_ok buf -> read_at i n buf = Some bs -> bytes_ok bs.
Proof.
  unfold read_at, bytes_ok. intros. case_decide; simplify_eq.
  by apply Forall_take, Forall_drop.
Qed.

Lemma write_at_bytes_ok i bs buf buf' :
  bytes_ok buf -> bytes_ok bs -> write_at i bs buf = Some buf' -> bytes_ok buf'.
Proof.
  unfold write_at, bytes_ok. intros. case_decide; simplify_eq.
  apply Forall_app; split; [by apply Forall_take|].
  apply Forall_app; split; [done|by apply Forall_drop].
Qed.

(** What a write leaves in front of it. *)
Lemma write_at_take i bs buf buf' j :
  write_at i bs buf = Some buf' -> (j <= Z.to_nat i)%nat -> take j buf' = take j buf.
Proof.
  unfold write_at. intros. case_decide; simplify_eq.
  rewrite take_app_le by (rewrite length_take; lia).
  by rewrite take_take, Nat.min_l by lia.
Qed.

(** The prefix up to the end of a write. *)
Lemma write_at_take_end i bs buf buf' :
  write_at i bs buf = Some buf' ->
  take (Z.to_nat i + length bs) buf' = take (Z.to_nat i) buf ++ bs.
Proof.
  unfold write_at. intros. case_decide; simplify_eq.
  rewrite app_assoc, take_app_le by (rewrite length_app, length_take; lia).
  rewrite take_ge; [done|]. rewrite length_app, length_take. lia.
Qed.

(** * Counting the occurrences of an address *)

Definition occ (p : nat) (l : list nat) : Z := Z.of_nat (length (filter (eq p) l)).

Lemma occ_app p l1 l2 : occ p (l1 ++ l2) = occ p l1 + occ p l2.
Proof. unfold occ. rewrite list.filter_app, length_app. lia. Qed.
Lemma occ_cons p q l : occ p (q :: l) = (if decide (p = q) then 1 else 0) + occ p l.
Proof. unfold occ. rewrite filter_cons. by case_decide; cbn; lia. Qed.
Lemma occ_nonneg p l : 0 <= occ p l.
Proof. unfold occ. lia. Qed.
Lemma occ_perm p l1 l2 : l1 ≡ₚ l2 -> occ p l1 = occ p l2.
Proof. intros E. unfold occ. by rewrite E. Qed.
Lemma occ_zero p l : occ p l = 0 -> p ∉ l.
Proof.
  intros E Hp. apply list_elem_of_split in Hp as (l1 & l2 & ->).
  rewrite occ_app, occ_cons, decide_True in E by done.
  pose proof (occ_nonneg p l1). pose proof (occ_nonneg p l2). lia.
Qed.
Lemma occ_pos p l : p ∈ l -> 1 <= occ p l.
Proof.
  intros Hp. pose proof (occ_nonneg p l). destruct (decide (occ p l = 0)) as [E|]; [|lia].
  by apply occ_zero in E.
Qed.
Lemma occ_notin p l : p ∉ l -> occ p l = 0.
Proof.
  induction l as [|q l IH]; [done|]. rewrite occ_cons, not_elem_of_cons. intros [Hn Hl].
  by rewrite decide_False, IH by done.
Qed.
Lemma occ_le p l : occ p l <= Z.of_nat (length l).
Proof. unfold occ. pose proof (length_filter (eq p) l). lia. Qed.
