(* ===== verification/TimeSpec.v ===== *)
(** Logical time: [TimeSpec], [DataTimeSpec] and [PeriodicTimeSpec] of
    [dueca/TimeSpec.hxx], [dueca/TimeSpec.cxx] and
    [dueca/DataTimeSpecExtra.hxx].

    A tick is a [uint32_t]; sums and differences wrap.  The constructors and
    operators that convert from seconds (floating point) are not modelled. *)

From S2P Require Import Prelude.
#[local] Open Scope Z_scope.

Definition MAX_TIMETICK : Z := 4294967295.

(** The helper that rounds a time up to a multiple of a period, in unsigned
    arithmetic; the period is not zero. *)
Definition round_upwards (tgt period : Z) : Z := u32 (u32 (u32 (tgt - 1) / period + 1) * period).

Lemma round_upwards_spec t p :
  0 < p -> 1 <= t -> t + p <= 4294967296 ->
  (p | round_upwards t p) /\ t <= round_upwards t p < t + p.
Proof.
  intros Hp Ht Hw. unfold round_upwards.
  pose proof (Z.div_mod (t - 1) p ltac:(lia)) as E.
  pose proof (Z.mod_pos_bound (t - 1) p Hp) as Hm.
  assert (0 <= (t - 1) / p) by (apply Z.div_pos; lia).
  assert ((t - 1) / p <= t - 1) by (apply Z.div_le_upper_bound; nia).
  rewrite (u32_id (t - 1)) by width. rewrite (u32_id (_ + 1)) by width.
  rewrite u32_id by (unfold is_u32; nia).
  split; [by eexists|nia].
Qed.

(** At zero the subtraction wraps, and the result is no multiple of the period. *)
Example round_upwards_zero : round_upwards 0 10 = 4.
Proof. done. Qed.

Definition subtractTicks (t1 t2 : Z) : outcome Z :=
  if t2 <? t1 then Val (s32 (u32 (t1 - t2)))
  else
    let d := s32 (u32 (t2 - t1)) in
    if d =? -2147483648 then Stuck SignedOverflow else Val (- d).

(** ** TimeSpec and DataTimeSpec

    Both hold the same two ticks; [DataTimeSpec] is the variant without a
    virtual table that is stored with channel data. *)

Record TimeSpec := mkTS { validity_start : Z; validity_end : Z }.

#[export] Instance TimeSpec_eq_dec : EqDecision TimeSpec.
Proof. solve_decision. Defined.

Module TS.
Section WithBuild.
Context `{BuildConfig}.

(** [TimeSpec(TimeTickType, TimeTickType)], with its [TESTSPAN]. *)
Definition make (s e : Z) : outcome TimeSpec :=
  _ ← passert (s <=? e); Val (mkTS s e).

(** [TimeSpec(int, int)]: the arguments are converted to ticks; the parameters
    shadow the members, so [TESTSPAN] compares the signed arguments. *)
Definition make_int (s e : Z) : outcome TimeSpec :=
  _ ← passert (s <=? e); Val (mkTS (u32 s) (u32 e)).

Definition make_point (s : Z) : TimeSpec := mkTS s s.

Definition make_default : TimeSpec := mkTS 0 0.

(** [TimeSpec(const DataTimeSpec&)] *)
Definition of_data (o : TimeSpec) : outcome TimeSpec :=
  _ ← passert (validity_start o <=? validity_end o);
  Val (mkTS (validity_start o) (validity_end o)).

Definition getValiditySpan (t : TimeSpec) : Z :=
  u32 (validity_end t - validity_start t).

Definition eqb (t o : TimeSpec) : bool :=
  (validity_start t =? validity_start o) && (validity_end t =? validity_end o).

Definition neqb (t o : TimeSpec) : bool :=
  negb (validity_start t =? validity_start o)
  || negb (validity_end t =? validity_end o).

(** [advance] returns whether the specification moved. *)
Definition advance (t a : TimeSpec) : bool * TimeSpec :=
  if (validity_start t =? validity_start a)
     && (validity_end t =? validity_end a)
  then (false, t) else (true, a).

Definition advance_data (t a : TimeSpec) : bool * TimeSpec :=
  if (validity_start t =? validity_start a)
     && (validity_end t =? validity_end a)
  then (false, t) else (true, mkTS (validity_start a) (validity_end a)).

Definition advance_tick (t : TimeSpec) (e : Z) : bool * TimeSpec :=
  if validity_end t =? e then (false, t)
  else (true, mkTS (validity_end t) e).

Definition forceAdvance (t : TimeSpec) (point : Z) : bool * TimeSpec :=
  (true, mkTS point point).

Definition forceAdvance_data (t a : TimeSpec) : bool * TimeSpec :=
  (true, mkTS (validity_start a) (validity_end a)).

Definition plus_int (t : TimeSpec) (delta : Z) : outcome TimeSpec :=
  make (u32 (validity_start t + delta)) (u32 (validity_end t + delta)).

Definition plus_unsigned (t : TimeSpec) (delta : Z) : outcome TimeSpec :=
  make (u32 (validity_start t + delta)) (u32 (validity_end t + delta)).

Definition minus_int (t : TimeSpec) (delta : Z) : outcome TimeSpec :=
  make (u32 (validity_start t - delta)) (u32 (validity_end t - delta)).

Definition minus_unsigned (t : TimeSpec) (delta : Z) : outcome TimeSpec :=
  make (u32 (validity_start t - delta)) (u32 (validity_end t - delta)).

(** [int operator- (const TimeSpec& to)] *)
Definition minus (t to : TimeSpec) : outcome Z :=
  if negb (getValiditySpan to =? getValiditySpan t)
  then Exn TimeSpecSubtractFailed
  else
    let d := s32 (validity_start t) - s32 (validity_start to) in
    if bool_decide (is_s32 d) then Val d else Stuck SignedOverflow.

Definition assign_data (t other : TimeSpec) : TimeSpec :=
  mkTS (validity_start other) (validity_end other).

End WithBuild.
End TS.

(** The [DataTimeSpec] members of [DataTimeSpecExtra]. *)
Module DTS.
Section WithBuild.
Context `{BuildConfig}.

Definition of_ts (t : TimeSpec) : outcome TimeSpec :=
  _ ← passert (validity_start t <=? validity_end t);
  Val (mkTS (validity_start t) (validity_end t)).

Definition make_point (s : Z) : TimeSpec := mkTS s s.

Definition getValiditySpan (t : TimeSpec) : Z :=
  u32 (validity_end t - validity_start t).

Definition extendsOrIsAfter (t : TimeSpec) (ts : Z) : bool :=
  ts <? validity_end t.

Definition modifyToAfter (t : TimeSpec) (ts : Z) : TimeSpec :=
  mkTS (Z.max ts (validity_start t)) (validity_end t).

Definition plus_int (t : TimeSpec) (delta : Z) : TimeSpec :=
  mkTS (u32 (validity_start t + delta)) (u32 (validity_end t + delta)).

Definition plus_unsigned (t : TimeSpec) (delta : Z) : TimeSpec :=
  mkTS (u32 (validity_start t + delta)) (u32 (validity_end t + delta)).

Definition minus_int (t : TimeSpec) (delta : Z) : TimeSpec :=
  mkTS (u32 (validity_start t - delta)) (u32 (validity_end t - delta)).

Definition minus_unsigned (t : TimeSpec) (delta : Z) : TimeSpec :=
  mkTS (u32 (validity_start t - delta)) (u32 (validity_end t - delta)).

(** [operator+=] on an unsigned delta *)
Definition shift_up (t : TimeSpec) (delta : Z) : TimeSpec :=
  mkTS (u32 (validity_start t + delta)) (u32 (validity_end t + delta)).

(** [operator-=] on an unsigned delta *)
Definition shift_down (t : TimeSpec) (delta : Z) : TimeSpec :=
  mkTS (u32 (validity_start t - delta)) (u32 (validity_end t - delta)).

(** [operator+=] on an int: [-delta] overflows for the smallest one. *)
Definition shift_up_int (t : TimeSpec) (delta : Z) : outcome TimeSpec :=
  if 0 <=? delta then Val (shift_up t (u32 delta))
  else if delta =? -2147483648 then Stuck SignedOverflow
  else Val (shift_down t (u32 (- delta))).

(** [operator-=] on an int *)
Definition shift_down_int (t : TimeSpec) (delta : Z) : outcome TimeSpec :=
  if 0 <=? delta then Val (shift_down t (u32 delta))
  else if delta =? -2147483648 then Stuck SignedOverflow
  else Val (shift_up t (u32 (- delta))).

Definition setSpanToZero (t : TimeSpec) : TimeSpec :=
  mkTS (validity_start t) (validity_start t).

Definition assign_ts (other : TimeSpec) : outcome TimeSpec :=
  _ ← passert (validity_start other <=? validity_end other);
  Val (mkTS (validity_start other) (validity_end other)).

End WithBuild.
End DTS.

(** ** PeriodicTimeSpec *)

Record PeriodicTimeSpec := mkPTS { pts : TimeSpec; period : Z }.

#[export] Instance PeriodicTimeSpec_eq_dec : EqDecision PeriodicTimeSpec.
Proof. solve_decision. Defined.

Abbreviation pstart p := (validity_start (pts p)).
Abbreviation pend p := (validity_end (pts p)).

Module PTS.
Section WithBuild.
Context `{BuildConfig}.

Definition make (s per : Z) : outcome PeriodicTimeSpec :=
  t ← TS.make s (u32 (s + per)); Val (mkPTS t per).

(** [PeriodicTimeSpec(const TimeSpec&)]: an empty span becomes period 1, the
    end tick stays. *)
Definition of_ts (t : TimeSpec) : PeriodicTimeSpec :=
  let per := u32 (validity_end t - validity_start t) in
  if per <=? 0 then mkPTS t 1 else mkPTS t per.

Definition complete (p : PeriodicTimeSpec) : bool * PeriodicTimeSpec :=
  (true, mkPTS (mkTS (pstart p) (u32 (pstart p + period p))) (period p)).

(** The common body of the advance methods: one period on. *)
Definition step (p : PeriodicTimeSpec) : PeriodicTimeSpec :=
  let s := u32 (pstart p + period p) in
  mkPTS (mkTS s (u32 (s + period p))) (period p).

Definition advance (p : PeriodicTimeSpec) (a : TimeSpec)
    : bool * PeriodicTimeSpec :=
  if u32 (pend p + period p) <=? validity_end a then (true, step p)
  else (false, p).

Definition advance_data (p : PeriodicTimeSpec) (a : TimeSpec)
    : bool * PeriodicTimeSpec :=
  if u32 (pend p + period p) <=? validity_end a then (true, step p)
  else (false, p).

Definition advance_tick (p : PeriodicTimeSpec) (e : Z)
    : bool * PeriodicTimeSpec :=
  if u32 (pend p + period p) <=? e then (true, step p)
  else (false, p).

Definition greedyAdvance (p : PeriodicTimeSpec) (a : TimeSpec)
    : bool * PeriodicTimeSpec :=
  if pend p <? validity_end a then (true, step p)
  else (false, p).

(** The jump is computed in [int]: the difference is reinterpreted as signed
    and divided with truncation. *)
Definition forceAdvance (p : PeriodicTimeSpec) (point : Z)
    : outcome (bool * PeriodicTimeSpec) :=
  if point <? pstart p then Val (false, p)
  else
    let jump := s32 (u32 (point - pstart p)) in
    let iper := s32 (period p) in
    if iper =? 0 then Stuck DivByZero
    else if (jump =? -2147483648) && (iper =? -1) then Stuck SignedOverflow
    else
      let jump := Z.quot jump iper in
      let jump := jump * iper in
      let s := u32 (pstart p + jump) in
      Val (true, mkPTS (mkTS s (u32 (s + period p))) (period p)).

Definition forceAdvance_data (p : PeriodicTimeSpec) (t : TimeSpec)
    : outcome (bool * PeriodicTimeSpec) :=
  forceAdvance p (validity_start t).

Definition slideAdvance (p : PeriodicTimeSpec) (t : Z) : PeriodicTimeSpec :=
  mkPTS (mkTS (u32 (pstart p + t)) (u32 (pend p + t))) (period p).

(** [setPeriod(TimeTickType)], the public setter: only the period changes. *)
Definition setPeriod (p : PeriodicTimeSpec) (per : Z) : PeriodicTimeSpec :=
  mkPTS (pts p) per.

(** [setStart(const int&)] of the parameter table *)
Definition setStart (p : PeriodicTimeSpec) (i : Z)
    : outcome (bool * PeriodicTimeSpec) :=
  if i <? 0 then Val (false, p)
  else
    let s := u32 i in
    let e := u32 (s + period p) in
    _ ← passert (s <=? e);
    Val (true, mkPTS (mkTS s e) (period p)).

(** [setPeriod(const int&)] of the parameter table *)
Definition setPeriod_int (p : PeriodicTimeSpec) (i : Z)
    : bool * PeriodicTimeSpec :=
  if i <=? 0 then (false, p)
  else (true, mkPTS (mkTS (pstart p) (u32 (pstart p + u32 i))) (u32 i)).

(** [operator+ (const PeriodicTimeSpec&, const int&)] *)
Definition plus (p : PeriodicTimeSpec) (dt : Z) : outcome TimeSpec :=
  TS.make (u32 (pstart p + u32 (u32 dt * period p)))
          (u32 (pend p + u32 (u32 dt * period p))).

End WithBuild.
End PTS.

(** ** Lemmas *)

Definition ts_ok (t : TimeSpec) : Prop :=
  is_u32 (validity_start t) /\ is_u32 (validity_end t)
  /\ validity_start t <= validity_end t.

(** A periodic specification that has not run into the end of time. *)
Definition pts_ok (p : PeriodicTimeSpec) : Prop :=
  0 <= pstart p /\ 0 < period p /\ pend p = pstart p + period p
  /\ is_u32 (pend p).

Lemma step_ok p :
  pts_ok p -> is_u32 (pend p + period p) ->
  pts_ok (PTS.step p)
  /\ pstart (PTS.step p) = pend p
  /\ period (PTS.step p) = period p
  /\ pend (PTS.step p) = pend p + period p.
Proof.
  intros (Hs & Hp & He & Hu) Hn. unfold PTS.step; cbn.
  rewrite (u32_id (pstart p + period p)) by (rewrite <- He; done).
  rewrite <- He, u32_id by done. unfold pts_ok; cbn. width.
Qed.

Lemma advance_tick_ok p e b p' :
  pts_ok p -> is_u32 (pend p + period p) ->
  PTS.advance_tick p e = (b, p') ->
  pts_ok p' /\ period p' = period p
  /\ (b = true -> pstart p' = pend p /\ pend p' <= e)
  /\ (b = false -> p' = p /\ e < pend p + period p).
Proof.
  intros Hp Hn. unfold PTS.advance_tick. rewrite u32_id by done.
  destruct (Z.leb_spec (pend p + period p) e); intros; simplify_eq.
  - destruct (step_ok p Hp Hn) as (? & ? & ? & ->). split_and!; done.
  - split_and!; auto; done.
Qed.

Lemma forceAdvance_jump p point :
  pts_ok p -> period p < 2147483648 -> is_u32 point ->
  0 <= point - pstart p < 2147483648 ->
  is_u32 (point + period p) ->
  exists p', PTS.forceAdvance p point = Val (true, p')
    /\ pts_ok p' /\ period p' = period p
    /\ pstart p' = pstart p + (point - pstart p) / period p * period p.
Proof.
  intros (Hs & Hp & He & Hu) Hb Hpt Hd Hn. unfold PTS.forceAdvance.
  destruct (Z.ltb_spec point (pstart p)); [lia|].
  rewrite (u32_id (point - pstart p)), !s32_id by width.
  destruct (Z.eqb_spec (period p) 0); [lia|].
  destruct (Z.eqb_spec (point - pstart p) (-2147483648)); [lia|].
  cbn [andb]. rewrite Z.quot_div_nonneg by lia.
  set (q := (point - pstart p) / period p).
  assert (0 <= q * period p <= point - pstart p) as Hq.
  { unfold q. pose proof (Z.div_pos (point - pstart p) (period p)).
    pose proof (Z.mul_div_le (point - pstart p) (period p)). nia. }
  eexists; split; [reflexivity|]. cbn.
  rewrite (u32_id (pstart p + q * period p)) by width.
  unfold pts_ok; cbn. rewrite u32_id by width. width.
Qed.

(** * Properties *)

(** jumping to a point lands on the period grid: the new span starts at
    the last grid point at or before the requested tick, keeps the phase and
    the period, and covers the tick. *)
Theorem forceAdvance_floor p point :
  pts_ok p -> period p < 2147483648 -> is_u32 point ->
  0 <= point - pstart p < 2147483648 ->
  is_u32 (point + period p) ->
  exists p', PTS.forceAdvance p point = Val (true, p')
    /\ pts_ok p' /\ period p' = period p
    /\ pstart p' <= point < pend p'
    /\ (pstart p' - pstart p) mod period p = 0.
Proof.
  intros Hok Hb Hpt Hd Hn.
  destruct (forceAdvance_jump p point Hok Hb Hpt Hd Hn)
    as (p' & -> & Hok' & Hper & Hs).
  exists p'. split_and!; try done.
  - rewrite Hs. pose proof (Z.mul_div_le (point - pstart p) (period p)).
    destruct Hok; lia.
  - destruct Hok as (_ & ? & _), Hok' as (_ & _ & -> & _). rewrite Hs, Hper.
    pose proof (Z.mod_pos_bound (point - pstart p) (period p)).
    pose proof (Z.div_mod (point - pstart p) (period p)). lia.
  - rewrite Hs. replace (pstart p + _ - pstart p)
      with ((point - pstart p) / period p * period p) by lia.
    apply Z_mod_mult.
Qed.

Lemma forceAdvance_floor_witness :
  exists p', PTS.forceAdvance (mkPTS (mkTS 5 15) 10) 47 = Val (true, p')
    /\ pstart p' <= 47 < pend p'.
Proof.
  destruct (forceAdvance_floor (mkPTS (mkTS 5 15) 10) 47)
    as (p' & E & _ & _ & Hb & _);
    [unfold pts_ok; cbn; width|cbn; lia|width|cbn; lia|cbn; width|].
  exists p'. split; [exact E|exact Hb].
Defined.
