(* ===== verification/Trigger.v ===== *)
(** Triggering: [dueca/Trigger.cxx] and [dueca/TriggerAtom.cxx].

    [Module PD] is [TriggerTarget::PullerData], the spans one puller has
    reported; [Module Conditions] is the time logic of [ConditionOr] and
    [ConditionAnd]; [Module Net] is the graph of pullers and targets with the
    wiring calls, in which a pull becomes atoms for the activity managers. *)

From S2P Require Import Prelude TimeSpec.
#[local] Open Scope Z_scope.

(** One stretch of triggering: [ts] is the first (remaining) span, repeated
    without a gap until [endtime]. *)
Record TimingList := mkTL { tl_ts : TimeSpec; endtime : Z }.

Abbreviation tlstart e := (validity_start (tl_ts e)).
Abbreviation tlend e := (validity_end (tl_ts e)).

(** [TimingList(ts, prev)] *)
Definition new_TimingList (ts : TimeSpec) : TimingList :=
  mkTL ts (validity_end ts).

(** The linked list from [time_head] to [time_tail] is never empty; [None]
    are pointers to nodes that have been deleted. *)
Record PullerData := mkPD {
  puller : option nat;
  times : option (TimingList * list TimingList)
}.

Module PD.

(** [PullerData(p)] *)
Definition make (p : option nat) : PullerData :=
  mkPD p (Some (new_TimingList (DTS.make_point 0), [])).

(** The copy constructor rebuilds the list from the spans; the extensions in
    [endtime] are not copied. *)
Definition copy (o : PullerData) : outcome PullerData :=
  match times o with
  | None => Stuck DanglingDeref
  | Some (h, rest) =>
      Val (mkPD (puller o)
        (Some (new_TimingList (tl_ts h),
               (fun e => new_TimingList (tl_ts e)) <$> rest)))
  end.

Definition time_tail (h : TimingList) (rest : list TimingList) : TimingList :=
  default h (list.last rest).

(** Assignment through the tail pointer. *)
Definition set_tail_endtime (h : TimingList) (rest : list TimingList) (e : Z)
    : TimingList * list TimingList :=
  match list.last rest with
  | None => (mkTL (tl_ts h) e, [])
  | Some t => (h, take (length rest - 1) rest ++ [mkTL (tl_ts t) e])
  end.

Definition newSpan (pd : PullerData) (tsext : TimeSpec) (previous_tick : Z)
    : outcome (bool * PullerData) :=
  match times pd with
  | None => Stuck DanglingDeref
  | Some (h, rest) =>
    let tail := time_tail h rest in
    if (validity_start tsext =? endtime tail)
       && (DTS.getValiditySpan tsext =? DTS.getValiditySpan (tl_ts tail))
    then
      let e := validity_end tsext in
      Val ((e =? u32 (DTS.getValiditySpan (tl_ts tail) + previous_tick))
           && (previous_tick <? e),
           mkPD (puller pd) (Some (set_tail_endtime h rest e)))
    else if DTS.extendsOrIsAfter tsext (endtime tail) then
      let previous_end := endtime tail in
      let t := new_TimingList (DTS.modifyToAfter tsext (endtime tail)) in
      Val ((previous_end <=? previous_tick) && (previous_tick <? endtime t),
           mkPD (puller pd) (Some (h, rest ++ [t])))
    else Val (false, pd)
  end.

(** The deletion loop of [cleanUpTimingList]. *)
Fixpoint clean_total (h : TimingList) (rest : list TimingList) (previous_tick : Z)
    : bool * (TimingList * list TimingList) :=
  match rest with
  | h' :: rest' =>
      if endtime h <=? previous_tick
      then (true, snd (clean_total h' rest' previous_tick))
      else (false, (h, rest))
  | [] => (false, (h, []))
  end.

Definition cleanUpTimingList (pd : PullerData) (previous_tick : Z)
    : outcome (bool * PullerData) :=
  match times pd with
  | None => Stuck DanglingDeref
  | Some (h, rest) =>
    let '(didclean, (h, rest)) := clean_total h rest previous_tick in
    let done ts := mkPD (puller pd) (Some (mkTL ts (endtime h), rest)) in
    if previous_tick <? endtime h then
      let span := DTS.getValiditySpan (tl_ts h) in
      if tlend h =? previous_tick then
        Val (true, done (DTS.shift_up (tl_ts h) span))
      else if tlend h <? previous_tick then
        if span =? 0 then Stuck DivByZero
        else Val (true, done (DTS.shift_up (tl_ts h)
               (u32 (u32 (previous_tick - tlstart h) / span * span))))
      else Val (didclean, mkPD (puller pd) (Some (h, rest)))
    else Val (didclean, mkPD (puller pd) (Some (h, rest)))
  end.

End PD.

Module Conditions.

(** [ConditionOr::trigger]: the span pulled, if any, and [previous_tick]. *)
Definition or_trigger (previous_tick : Z) (ts : TimeSpec) : list TimeSpec * Z :=
  if previous_tick <? validity_end ts
  then ([mkTS (Z.max (validity_start ts) previous_tick) (validity_end ts)],
        validity_end ts)
  else ([], previous_tick).

(** The [for] loop of [ConditionAnd::trigger]: clean each puller and intersect
    the heads. *)
Fixpoint and_scan (ps : list PullerData) (previous_tick tstart tend : Z)
    : outcome (list PullerData * Z * Z) :=
  match ps with
  | [] => Val ([], tstart, tend)
  | p :: ps =>
      '(_, p) ← PD.cleanUpTimingList p previous_tick;
      match times p with
      | None => Stuck DanglingDeref
      | Some (h, _) =>
          '(ps, s, e) ← and_scan ps previous_tick
             (Z.max tstart (tlstart h)) (Z.min tend (tlend h));
          Val (p :: ps, s, e)
      end
  end.

(** The [do ... while (moretriggers)] loop. *)
Fixpoint and_loop (fuel : nat) (ps : list PullerData) (previous_tick tstart : Z)
    : outcome (list TimeSpec * list PullerData * Z) :=
  match fuel with
  | O => Stuck OutOfFuel
  | S fuel =>
      '(ps, tstart, tend) ← and_scan ps previous_tick tstart MAX_TIMETICK;
      if (tstart <? tend) || ((tend =? tstart) && (previous_tick <? tstart)) then
        '(out, ps, prev) ← and_loop fuel ps tend tend;
        Val (mkTS tstart tend :: out, ps, prev)
      else if previous_tick <? tstart then and_loop fuel ps tstart tstart
      else Val ([], ps, previous_tick)
  end.

(** [ConditionAnd::trigger] *)
Definition and_trigger (fuel : nat) (ps : list PullerData) (previous_tick : Z)
    (ts : TimeSpec) (idx : nat) : outcome (list TimeSpec * list PullerData * Z) :=
  match ps !! idx with
  | None => Stuck OutOfBounds
  | Some p =>
      '(tips, p) ← PD.newSpan p ts previous_tick;
      let ps := <[idx:=p]> ps in
      if tips : bool then and_loop fuel ps previous_tick previous_tick
      else Val ([], ps, previous_tick)
  end.

(** A history of calls. *)
Fixpoint or_run (previous_tick : Z) (l : list TimeSpec) : list TimeSpec * Z :=
  match l with
  | [] => ([], previous_tick)
  | ts :: l =>
      let '(o, p) := or_trigger previous_tick ts in
      let '(os, p) := or_run p l in (o ++ os, p)
  end.

Fixpoint and_run (fuel : nat) (ps : list PullerData) (previous_tick : Z)
    (l : list (TimeSpec * nat)) : outcome (list TimeSpec * list PullerData * Z) :=
  match l with
  | [] => Val ([], ps, previous_tick)
  | (ts, idx) :: l =>
      '(o, ps, prev) ← and_trigger fuel ps previous_tick ts idx;
      '(os, ps, prev) ← and_run fuel ps prev l;
      Val (o ++ os, ps, prev)
  end.

End Conditions.

(** ** The graph of pullers and targets

    Objects are nodes of a store.  A [TargetData]'s smart pointer and a
    [PullerData]'s plain pointer are node numbers; a managed pointer that was
    reset, and a puller that was forgotten, are [None]. *)
Module Net.

(** An activity manager, as far as triggering uses it. *)
Record ActivityManager := mkAM { am_id : nat; getPrio : Z }.

#[export] Instance ActivityManager_eq_dec : EqDecision ActivityManager.
Proof. solve_decision. Defined.

(** [TriggerAtom] with the manager it is queued at. *)
Record TriggerAtom := mkAtom {
  at_manager : ActivityManager; at_target : option nat; at_id : Z; at_ts : TimeSpec
}.

Record TargetData := mkTD {
  td_target : option nat; td_id : Z; td_manager : option ActivityManager
}.

(** The classes: a bare puller (a clock, a channel entry), a bare target (an
    activity), and the combining conditions, which are both. *)
Inductive Kind :=
  | PullerOnly
  | TargetOnly
  | ConditionOr (previous_tick : Z)
  | ConditionAnd (previous_tick : Z).

Record Node := mkNode {
  kind : Kind;
  targets : list TargetData;
  activitylevels : gset Z;
  manager : option ActivityManager;
  pullers : list PullerData
}.

Definition is_puller (n : Node) : bool :=
  match kind n with TargetOnly => false | _ => true end.
Definition is_target (n : Node) : bool :=
  match kind n with PullerOnly => false | _ => true end.

(** The store, the atoms queued so far and the levels of the calling manager. *)
Record World := mkWorld {
  nodes : gmap nat Node;
  triggerq : list TriggerAtom;
  triggeredlevels : gset Z
}.

Definition upd_nodes (f : gmap nat Node -> gmap nat Node) (w : World) : World :=
  mkWorld (f (nodes w)) (triggerq w) (triggeredlevels w).

Definition node (i : nat) : M World Node := fun w =>
  match nodes w !! i with
  | Some n => (Val n, w)
  | None => (Stuck DanglingDeref, w)
  end.
Definition update (i : nat) (f : Node -> Node) : M World unit :=
  modify (upd_nodes (alter f i)).

Definition set_targets (f : list TargetData -> list TargetData) (n : Node) : Node :=
  mkNode (kind n) (f (targets n)) (activitylevels n) (manager n) (pullers n).
Definition set_levels (f : gset Z -> gset Z) (n : Node) : Node :=
  mkNode (kind n) (targets n) (f (activitylevels n)) (manager n) (pullers n).
Definition set_manager (m : option ActivityManager) (n : Node) : Node :=
  mkNode (kind n) (targets n) (activitylevels n) m (pullers n).
Definition set_pullers (f : list PullerData -> list PullerData) (n : Node) : Node :=
  mkNode (kind n) (targets n) (activitylevels n) (manager n) (f (pullers n)).
Definition set_kind (k : Kind) (n : Node) : Node :=
  mkNode k (targets n) (activitylevels n) (manager n) (pullers n).

Section Wiring.
Context `{BuildConfig} (MAX_MANAGERS : Z).

(** [for] over the positions of a list, with an accumulator. *)
Fixpoint for_each {A B} (l : list A) (f : A -> B -> M World B) (b : B) : M World B :=
  match l with
  | [] => mret b
  | a :: l => b ← f a b; for_each l f b
  end.

(** [bitset::set] checks the position. *)
Definition set_level (this : nat) (prio : Z) : M World unit :=
  if bool_decide (0 <= prio < MAX_MANAGERS)
  then update this (set_levels (fun s => {[prio]} ∪ s))
  else throw OutOfRange.

(** One pass of the loop in [TriggerPuller::setManager]. *)
Definition setManager_step (this : nat) (mgr oldmgr : option ActivityManager)
    (t : nat) (k : nat) (setcorrect : Z) : M World Z :=
  n ← node this;
  td ← of_option OutOfBounds (targets n !! k);
  let hit := bool_decide (td_target td = Some t) in
  let td' := if hit then mkTD (td_target td) (td_id td) mgr else td in
  update this (set_targets (<[k:=td']>));;
  (match td_manager td' with
   | Some m => set_level this (getPrio m)
   | None => mret tt
   end);;
  mret (if hit then
          if bool_decide (td_manager td = oldmgr) || bool_decide (oldmgr = None)
          then 1 else 2
        else setcorrect).

Definition puller_setManager (this : nat) (mgr oldmgr : option ActivityManager)
    (t : nat) : M World bool :=
  update this (set_levels (fun _ => ∅));;
  n ← node this;
  setcorrect ← for_each (seq 0 (length (targets n)))
    (setManager_step this mgr oldmgr t) 0;
  dassert (negb (setcorrect =? 0));;
  mret (setcorrect =? 1).

(** The virtual [setManager]; a [TargetAndPuller] goes on to its own pullers
    with [TriggerTarget::passManager].  The conditions form a finite acyclic
    graph; [fuel] bounds its depth. *)
Fixpoint setManager (fuel : nat) (this : nat) (mgr oldmgr : option ActivityManager)
    (t : nat) : M World bool :=
  match fuel with
  | O => stuck OutOfFuel
  | S fuel =>
    ok ← puller_setManager this mgr oldmgr t;
    n ← node this;
    if ok && is_target n then
      update this (set_manager mgr);;
      n ← node this;
      for_each (pullers n) (fun pd res =>
        if res : bool then
          match puller pd with
          | Some p => setManager fuel p mgr oldmgr this
          | None => stuck NullDeref
          end
        else mret false) true
    else mret ok
  end.

Definition passManager (fuel : nat) (this : nat) (mgr oldmgr : option ActivityManager)
    : M World bool :=
  update this (set_manager mgr);;
  n ← node this;
  for_each (pullers n) (fun pd res =>
    if res : bool then
      match puller pd with
      | Some p => setManager fuel p mgr oldmgr this
      | None => stuck NullDeref
      end
    else mret false) true.

Definition addTarget (this t : nat) (id : Z) : M World unit :=
  update this (set_targets (fun l => l ++ [mkTD (Some t) id None])).

(** The position of the entry [removeTarget] resets. *)
Definition find_target (t : nat) (l : list TargetData) : option nat :=
  fst <$> list_find (fun td => td_target td = Some t) l.

Definition removeTarget (this t : nat) : M World unit :=
  n ← node this;
  match find_target t (targets n) with
  | Some k =>
      update this (set_targets (alter (fun td => mkTD None (td_id td) None) k))
  | None => dassert false
  end.

(** [vector<PullerData>::push_back]: a reallocation copies the elements. *)
Definition push_puller (realloc : bool) (this : nat) (p : nat) : M World unit :=
  n ← node this;
  old ← (if realloc
         then fun w => (foldr (fun pd l => pd ← PD.copy pd; l ← l; Val (pd :: l))
                          (Val []) (pullers n), w)
         else mret (pullers n));
  update this (set_pullers (fun _ => old ++ [PD.make (Some p)])).

(** [TriggerTarget::setTrigger], for both kinds of puller; a refused manager is
    only reported. *)
Definition setTrigger (fuel : nat) (this p : nat) : M World unit :=
  n ← node this;
  match pullers n with
  | _ :: _ => mret tt
  | [] =>
      push_puller false this p;;
      addTarget p this 0;;
      n ← node this;
      _ ← setManager fuel p (manager n) None this;
      mret tt
  end.

(** [TargetAndPuller::addTerm] *)
Definition addTerm (fuel : nat) (realloc : bool) (this p : nat) : M World unit :=
  push_puller realloc this p;;
  n ← node this;
  addTarget p this (Z.of_nat (length (pullers n)) - 1);;
  _ ← setManager fuel p (manager n) None this;
  mret tt.

Definition forgetTrigger (this p : nat) : M World unit :=
  update this (set_pullers (fmap (fun pd =>
    if bool_decide (puller pd = Some p) then mkPD None (times pd) else pd))).

Definition clearTriggers (this : nat) : M World unit :=
  n ← node this;
  for_each (pullers n) (fun pd _ =>
    match puller pd with
    | Some p => removeTarget p this
    | None => stuck NullDeref
    end) tt;;
  update this (set_pullers (fun _ => [])).

(** [vector<PullerData>::erase]: the elements behind move up by the implicit
    copy assignment, which shares the time list, and the last one is destroyed
    with its time list. *)
Definition erase (i : nat) (l : list PullerData) : list PullerData :=
  let l' := delete i l in
  if bool_decide (S i < length l)%nat
  then alter (fun pd => mkPD (puller pd) None) (Nat.pred (length l')) l'
  else l'.

(** [TargetAndPuller::removeTerm] *)
Definition removeTerm (this p : nat) : M World bool :=
  n ← node this;
  match list_find (fun pd => puller pd = Some p) (pullers n) with
  | Some (i, _) =>
      removeTarget p this;;
      update this (set_pullers (erase i));;
      mret true
  | None => mret false
  end.

(** [ActivityManager::addAtom] *)
Definition addAtom (m : ActivityManager) (target : option nat) (id : Z)
    (ts : TimeSpec) : M World unit :=
  dassert (bool_decide (is_Some target));;
  modify (fun w => mkWorld (nodes w) (triggerq w ++ [mkAtom m target id ts])
    (triggeredlevels w)).

(** [TriggerPuller::pull]: one [ActivityManager::addAtom] per managed target,
    then [ActivityManager::triggeredLevels]. *)
Definition pull (this : nat) (ts : TimeSpec) : M World unit :=
  n ← node this;
  for_each (targets n) (fun td _ =>
    match td_manager td with
    | None => mret tt
    | Some m => addAtom m (td_target td) (td_id td) ts
    end) tt;;
  modify (fun w => mkWorld (nodes w) (triggerq w)
    (triggeredlevels w ∪ activitylevels n)).

(** The virtual [trigger] of the conditions; an activity's own [trigger] is
    the business of its manager. *)
Definition trigger (fuel : nat) (this : nat) (ts : TimeSpec) (idx : nat)
    : M World unit :=
  n ← node this;
  match kind n with
  | ConditionOr prev =>
      let '(out, prev') := Conditions.or_trigger prev ts in
      for_each out (fun o _ => pull this o) tt;;
      update this (set_kind (ConditionOr prev'))
  | ConditionAnd prev =>
      '(out, ps, prev') ← (fun w => (Conditions.and_trigger fuel (pullers n) prev ts idx, w));
      for_each out (fun o _ => pull this o) tt;;
      update this (fun n => set_pullers (fun _ => ps) (set_kind (ConditionAnd prev') n))
  | _ => mret tt
  end.

(** [TriggerAtom::propagate] *)
Definition propagate (fuel : nat) (a : TriggerAtom) : M World unit :=
  match at_target a with
  | Some t => trigger fuel t (at_ts a) (Z.to_nat (at_id a))
  | None => stuck NullDeref
  end.

End Wiring.
End Net.

(** Smoke tests on the example of the class comment in [Trigger.hxx]. *)
Example and_doc_example :
  (fun r => match r with Val (o, _, p) => Some (o, p) | _ => None end)
    (Conditions.and_run 20 [PD.make (Some 0%nat); PD.make (Some 1%nat)] 0
      [(mkTS 10 20, 0%nat); (mkTS 8 12, 1%nat); (mkTS 12 16, 1%nat);
       (mkTS 20 30, 0%nat); (mkTS 16 20, 1%nat); (mkTS 20 24, 1%nat)])
  = Some ([mkTS 10 12; mkTS 12 16; mkTS 16 20; mkTS 20 24], 24).
Proof. reflexivity. Qed.

Example and_events :
  (fun r => match r with Val (o, _, p) => Some (o, p) | _ => None end)
    (Conditions.and_run 20 [PD.make (Some 0%nat); PD.make (Some 1%nat)] 0
      [(mkTS 0 20, 0%nat); (mkTS 14 14, 1%nat); (mkTS 20 30, 0%nat);
       (mkTS 27 27, 1%nat)])
  = Some ([mkTS 14 14], 27).
Proof. reflexivity. Qed.

(** * Invariant of the recorded spans *)

Definition tl_wf (e : TimingList) : Prop :=
  ts_ok (tl_ts e) /\ is_u32 (endtime e)
  /\ exists k, 0 <= k /\ endtime e = tlend e + k * (tlend e - tlstart e).

(** Each entry starts where the previous one ends ([R] is [eq]), or later
    ([R] is [Z.le]). *)
Fixpoint linked (R : Z -> Z -> Prop) (l : list TimingList) : Prop :=
  match l with
  | [] => True
  | a :: l =>
      match l with b :: _ => R (endtime a) (tlstart b) | [] => True end
      /\ linked R l
  end.

Definition pd_wf (p : PullerData) : Prop :=
  exists h rest, times p = Some (h, rest)
    /\ Forall tl_wf (h :: rest) /\ linked Z.le (h :: rest).

(** The last tick a puller has reported. *)
Definition pd_end (p : PullerData) : Z :=
  match times p with
  | Some (h, rest) => endtime (PD.time_tail h rest)
  | None => 0
  end.

Lemma tl_wf_le e : tl_wf e -> tlstart e <= tlend e <= endtime e.
Proof. intros ((?&?&?)&?&k&?&->). nia. Qed.

Lemma new_TimingList_wf ts : ts_ok ts -> tl_wf (new_TimingList ts).
Proof. intros H. split; [done|]. split; [apply H|]. exists 0. cbn; lia. Qed.

Lemma modifyToAfter_ok ts x :
  ts_ok ts -> is_u32 x -> x < validity_end ts -> ts_ok (DTS.modifyToAfter ts x).
Proof. intros (?&?&?) ??. unfold ts_ok, DTS.modifyToAfter; cbn. width. Qed.

Lemma make_wf i : pd_wf (PD.make i).
Proof.
  eexists _, _. split; [reflexivity|]. split; [|by cbn].
  constructor; [|done]. apply new_TimingList_wf. unfold ts_ok; cbn; width.
Qed.

Lemma span_ok t : ts_ok t -> DTS.getValiditySpan t = validity_end t - validity_start t.
Proof. intros (?&?&?). unfold DTS.getValiditySpan. apply u32_id. width. Qed.

(** [x] lies in a recorded stretch; [c] tells whether its end point counts. *)
Definition in_span (c : bool) (s e x : Z) : Prop :=
  s <= x /\ if c then x <= e /\ 0 < x else x < e.
Definition seen (c : bool) (p : PullerData) (x : Z) : Prop :=
  exists h rest, times p = Some (h, rest) /\
    Exists (fun e => in_span c (tlstart e) (endtime e) x) (h :: rest).

(** What the operations do to the list from head to tail. *)
Lemma set_tail_spec h rest e h' rest' :
  PD.set_tail_endtime h rest e = (h', rest') ->
  exists l, h :: rest = l ++ [PD.time_tail h rest]
    /\ h' :: rest' = l ++ [mkTL (tl_ts (PD.time_tail h rest)) e].
Proof.
  unfold PD.set_tail_endtime, PD.time_tail.
  destruct rest as [|t l _] using rev_ind; cbn.
  - intros. simplify_eq. by exists [].
  - rewrite last_snoc, length_app. cbn. intros. simplify_eq.
    rewrite Nat.add_sub, take_app_length. by exists (h' :: l).
Qed.

Lemma time_tail_snoc h rest t : PD.time_tail h (rest ++ [t]) = t.
Proof. unfold PD.time_tail. by rewrite last_snoc. Qed.

Lemma tail_app h rest l t : h :: rest = l ++ [t] -> PD.time_tail h rest = t.
Proof.
  destruct l as [|a l]; cbn; intros; simplify_eq; [done|]. apply time_tail_snoc.
Qed.

Lemma linked_snoc R l e :
  linked R (l ++ [e]) <-> linked R l
    /\ match list.last l with Some a => R (endtime a) (tlstart e) | None => True end.
Proof.
  induction l as [|a l IH]; [cbn; tauto|].
  cbn [app linked]. rewrite IH. rewrite last_cons.
  destruct l as [|b l]; cbn [app]; [cbn; tauto|].
  destruct (list.last (b :: l)) eqn:E; [tauto|].
  by apply last_None in E.
Qed.

Lemma linked_tail_snoc R h rest e :
  linked R (h :: rest ++ [e]) <->
    linked R (h :: rest) /\ R (endtime (PD.time_tail h rest)) (tlstart e).
Proof.
  rewrite app_comm_cons, linked_snoc, last_cons. unfold PD.time_tail.
  by destruct (list.last rest).
Qed.

Lemma tail_elem h rest : PD.time_tail h rest ∈ h :: rest.
Proof.
  destruct rest as [|t l _] using rev_ind; [left|].
  rewrite time_tail_snoc. set_solver.
Qed.

Lemma tail_wf h rest : Forall tl_wf (h :: rest) -> tl_wf (PD.time_tail h rest).
Proof. intros H. eapply list.Forall_forall in H; [exact H|apply tail_elem]. Qed.

Lemma seen_intro c p h rest x :
  times p = Some (h, rest) -> (exists e, e ∈ h :: rest /\
    in_span c (tlstart e) (endtime e) x) -> seen c p x.
Proof. intros E H. exists h, rest. split; [done|]. by apply list.Exists_exists. Qed.

(** Extending the tail. *)
Lemma extend_spec R h rest e h' rest' :
  PD.set_tail_endtime h rest e = (h', rest') ->
  (linked R (h :: rest) -> linked R (h' :: rest'))
  /\ PD.time_tail h' rest' = mkTL (tl_ts (PD.time_tail h rest)) e
  /\ tlstart h' = tlstart h
  /\ (forall a, a ∈ h' :: rest' ->
        a ∈ h :: rest \/ a = mkTL (tl_ts (PD.time_tail h rest)) e).
Proof.
  intros (l & E1 & E2)%set_tail_spec. split_and!.
  - rewrite E2. intros HL. rewrite E1, linked_snoc in HL.
    by apply linked_snoc.
  - by eapply tail_app.
  - destruct l as [|a l]; cbn in *; simplify_eq; done.
  - rewrite E2. intros a [Ha | ->%list_elem_of_singleton]%elem_of_app; [|by right].
    left. rewrite E1. set_solver.
Qed.

(** Reporting a span keeps the record in order, and records nothing but what
    was known and the span itself. *)
Lemma newSpan_spec p ts prev :
  pd_wf p -> ts_ok ts ->
  exists b p', PD.newSpan p ts prev = Val (b, p')
    /\ pd_wf p' /\ puller p' = puller p
    /\ pd_end p <= pd_end p' <= Z.max (pd_end p) (validity_end ts)
    /\ (forall c x, seen c p' x ->
          seen c p x \/ in_span c (validity_start ts) (validity_end ts) x).
Proof.
  intros (h & rest & E & Hwf & HL) Hts. unfold PD.newSpan. rewrite E.
  pose proof (tail_wf _ _ Hwf) as Ht. pose proof (tl_wf_le _ Ht) as Hle.
  destruct ((validity_start ts =? _) && _) eqn:Hrep; [|case_match eqn:Hx].
  - apply andb_prop in Hrep as [Hs Hsp].
    apply Z.eqb_eq in Hs. apply Z.eqb_eq in Hsp.
    rewrite !span_ok in Hsp by (apply Hts || apply Ht).
    destruct (PD.set_tail_endtime h rest (validity_end ts)) as [h' rest'] eqn:Es.
    destruct (extend_spec Z.le _ _ _ _ _ Es) as (HL' & Htl & _ & Hel).
    eexists _, _. split; [reflexivity|]. split_and!; [|done| | |].
    + exists h', rest'. split; [done|]. split; [|by apply HL'].
      apply list.Forall_forall. intros a [Ha| ->]%Hel.
      { by eapply list.Forall_forall in Hwf. }
      destruct Ht as (Ht1 & Ht2 & k & Hk & Hend). split; [done|]. cbn.
      split; [apply Hts|]. exists (k + 1). lia.
    + unfold pd_end; cbn. rewrite E, Htl. cbn. destruct Hts; lia.
    + unfold pd_end; cbn. rewrite E, Htl. cbn. lia.
    + intros c x (?&?&?&Hx). cbn in *. simplify_eq.
      apply list.Exists_exists in Hx as (a & [Ha| ->]%Hel & Hin).
      { left. eapply seen_intro; eauto. }
      unfold in_span in Hin. cbn in Hin.
      destruct (decide (endtime (PD.time_tail h rest) <= x)).
      { right. unfold in_span. destruct c; lia. }
      left. eapply seen_intro; [done|]. exists (PD.time_tail h rest).
      split; [apply tail_elem|]. unfold in_span. destruct c; lia.
  - unfold DTS.extendsOrIsAfter in Hx. apply Z.ltb_lt in Hx.
    eexists _, _. split; [reflexivity|]. split_and!; [|done| | |].
    + exists h, (rest ++ [new_TimingList (DTS.modifyToAfter ts
        (endtime (PD.time_tail h rest)))]). split; [done|]. split.
      * rewrite app_comm_cons. apply Forall_app. split; [done|].
        constructor; [|done]. apply new_TimingList_wf, modifyToAfter_ok; try done.
        apply Ht.
      * apply linked_tail_snoc. split; [done|]. cbn. lia.
    + unfold pd_end. cbn. rewrite E, time_tail_snoc. cbn. lia.
    + unfold pd_end. cbn. rewrite E, time_tail_snoc. cbn. lia.
    + intros c x (?&?&?&Hx'). cbn in *. simplify_eq.
      apply list.Exists_exists in Hx' as (a & Ha & Hin).
      rewrite app_comm_cons in Ha. apply elem_of_app in Ha as [Ha|Ha].
      * left. eapply seen_intro; eauto.
      * apply list_elem_of_singleton in Ha as ->. right.
        unfold in_span in *; cbn in *. destruct c; lia.
  - eexists _, _. split; [reflexivity|]. split_and!; [|done|lia|lia|tauto].
    by exists h, rest.
Qed.

Lemma linked_app_r R l1 l2 : linked R (l1 ++ l2) -> linked R l2.
Proof. induction l1; cbn; tauto. Qed.

Lemma clean_total_spec h rest prev :
  exists pre h' rest', snd (PD.clean_total h rest prev) = (h', rest')
    /\ h :: rest = pre ++ h' :: rest'
    /\ PD.time_tail h' rest' = PD.time_tail h rest
    /\ (endtime h' <= prev -> rest' = [])
    /\ (linked eq (h :: rest) -> tlstart h <= prev -> tlstart h' <= prev).
Proof.
  revert h. induction rest as [|a rest IH]; intros h; cbn.
  { by exists [], h, []. }
  destruct (Z.leb_spec (endtime h) prev).
  - destruct (IH a) as (pre & h' & rest' & -> & E & Ht & Hd & Hl).
    exists (h :: pre), h', rest'. split_and!; try done.
    + cbn. by rewrite E.
    + rewrite Ht. unfold PD.time_tail. rewrite last_cons. by destruct (list.last rest).
    + intros (He & HL) ?. apply Hl; [done|lia].
  - exists [], h, (a :: rest). split_and!; try done. lia.
Qed.

Definition cleaned (prev : Z) (p p' : PullerData) : Prop :=
  pd_wf p' /\ puller p' = puller p /\ pd_end p' = pd_end p
  /\ (forall c x, seen c p' x -> seen c p x)
  /\ exists h rest, times p' = Some (h, rest)
       /\ (endtime h <= prev -> rest = [])
       /\ (prev < endtime h -> prev < tlend h).

(** Without gaps, and with its head in reach of [prev]. *)
Definition contiguous (prev : Z) (p : PullerData) : Prop :=
  exists h rest, times p = Some (h, rest)
    /\ linked eq (h :: rest) /\ tlstart h <= prev.

Lemma shift_up_head h d :
  tl_wf h -> 0 <= d -> tlend h + d <= endtime h ->
  (exists k, 0 <= k /\ endtime h = tlend h + d + k * (tlend h - tlstart h)) ->
  let h' := mkTL (DTS.shift_up (tl_ts h) d) (endtime h) in
  tl_wf h' /\ tlstart h' = tlstart h + d /\ tlend h' = tlend h + d.
Proof.
  intros ((?&?&?)&?&?) ?? (k & Hk & He). cbn.
  rewrite !u32_id by width. split_and!; try done.
  split; [split_and!; cbn; rewrite ?u32_id by width; width|].
  split; [done|]. exists k. cbn. rewrite !u32_id by width. lia.
Qed.

(** Replacing the head by a later part of it. *)
Lemma replace_head h h' rest :
  endtime h' = endtime h -> tlstart h <= tlstart h' ->
  Forall tl_wf (h :: rest) -> tl_wf h' -> linked Z.le (h :: rest) ->
  Forall tl_wf (h' :: rest) /\ linked Z.le (h' :: rest)
  /\ (linked eq (h :: rest) -> linked eq (h' :: rest))
  /\ endtime (PD.time_tail h' rest) = endtime (PD.time_tail h rest)
  /\ forall c x, Exists (fun e => in_span c (tlstart e) (endtime e) x) (h' :: rest) ->
       Exists (fun e => in_span c (tlstart e) (endtime e) x) (h :: rest).
Proof.
  intros He Hs Hwf Hh HL. inversion_clear Hwf as [|? ? _ Hwf2]. split_and!.
  - by constructor.
  - cbn in *. by rewrite He.
  - cbn. by rewrite He.
  - unfold PD.time_tail. by destruct (list.last rest).
  - intros c x Hx. apply Exists_cons in Hx as [Hx|Hx]; apply Exists_cons; [|by right].
    left. unfold in_span in *. rewrite He in Hx. destruct c; lia.
Qed.

(** The three outcomes of the period update in one: the head moves up by a
    multiple of its span, just past [prev] when there is anything left. *)
Lemma period_update h rest prev pl b :
  tl_wf h -> is_u32 prev ->
  exists b' h', 
    (let done ts := mkPD pl (Some (mkTL ts (endtime h), rest)) in
     if prev <? endtime h then
       let span := DTS.getValiditySpan (tl_ts h) in
       if tlend h =? prev then Val (true, done (DTS.shift_up (tl_ts h) span))
       else if tlend h <? prev then
         if span =? 0 then Stuck DivByZero
         else Val (true, done (DTS.shift_up (tl_ts h)
                (u32 (u32 (prev - tlstart h) / span * span))))
       else Val (b, mkPD pl (Some (h, rest)))
     else Val (b, mkPD pl (Some (h, rest))))
    = Val (b', mkPD pl (Some (h', rest)))
    /\ tl_wf h' /\ endtime h' = endtime h /\ tlstart h <= tlstart h'
    /\ (prev < endtime h -> prev < tlend h')
    /\ (tlstart h <= prev -> tlstart h' <= prev).
Proof.
  intros Hh Hp. pose proof Hh as ((?&?&?)&?&k&?&He). cbn zeta.
  destruct (Z.ltb_spec prev (endtime h)).
  2:{ exists b, h. split_and!; try done; lia. }
  rewrite span_ok by done.
  destruct (Z.eqb_spec (tlend h) prev) as [Heq|].
  - assert (1 <= k) by nia.
    destruct (shift_up_head h (tlend h - tlstart h)) as (?&?&?); [done|nia..| |].
    { exists (k - 1). lia. }
    eexists _, _. split; [reflexivity|]. cbn in *. split_and!; try done; nia.
  - destruct (Z.ltb_spec (tlend h) prev).
    2:{ exists b, h. split_and!; try done; lia. }
    set (span := tlend h - tlstart h) in *.
    assert (0 < span) by (subst span; nia).
    destruct (Z.eqb_spec span 0); [lia|].
    rewrite (u32_id (prev - tlstart h)) by width.
    set (q := (prev - tlstart h) / span).
    assert (q * span <= prev - tlstart h < q * span + span) as Hq.
    { subst q. pose proof (Z.div_mod (prev - tlstart h) span ltac:(lia)).
      pose proof (Z.mod_pos_bound (prev - tlstart h) span). lia. }
    assert (1 <= q <= k). { subst span. nia. }
    rewrite u32_id by (subst span; width || nia).
    destruct (shift_up_head h (q * span)) as (?&?&?); [done|nia|nia| |].
    { exists (k - q). subst span. lia. }
    eexists _, _. split; [reflexivity|]. cbn in *.
    split_and!; try done; nia.
Qed.

Lemma cleanup_spec p prev :
  pd_wf p -> is_u32 prev ->
  exists b p', PD.cleanUpTimingList p prev = Val (b, p')
    /\ cleaned prev p p' /\ (contiguous prev p -> contiguous prev p').
Proof.
  intros (h0 & rest0 & E & Hwf & HL) Hp. unfold PD.cleanUpTimingList. rewrite E.
  destruct (clean_total_spec h0 rest0 prev)
    as (pre & h & rest & Ec & Epre & Et & Hd & Hc).
  destruct (PD.clean_total h0 rest0 prev) as [b0 hr]. cbn in Ec. subst hr.
  assert (Forall tl_wf (h :: rest)) as Hwf1.
  { rewrite Epre in Hwf. by apply Forall_app in Hwf as [_ ?]. }
  assert (linked Z.le (h :: rest)) as HL1.
  { rewrite Epre in HL. by eapply linked_app_r. }
  assert (tl_wf h) as Hh by by inversion Hwf1.
  destruct (period_update h rest prev (puller p) b0 Hh Hp)
    as (b' & h' & Eu & Hh' & He & Hs & Hgt & Hle).
  cbv beta iota. cbn zeta in Eu |- *. rewrite Eu.
  eexists _, _. split; [reflexivity|].
  destruct (replace_head h h' rest He Hs Hwf1 Hh' HL1)
    as (Hwf2 & HL2 & Hc2 & Ht2 & Hx2).
  split.
  - split_and!; [by exists h', rest|done| | |].
    + unfold pd_end. cbn. by rewrite E, Ht2, Et.
    + intros c x (?&?&?&Hx). cbn in *. simplify_eq. apply Hx2 in Hx.
      exists h0, rest0. split; [done|]. rewrite Epre.
      apply Exists_app. by right.
    + exists h', rest. split_and!; [done| |].
      * rewrite He. done.
      * rewrite He. done.
  - intros (?&?&?&HL'&Hst). simplify_eq. exists h', rest. split_and!; [done| |].
    + apply Hc2. rewrite Epre in HL'. by eapply linked_app_r.
    + by apply Hle, Hc.
Qed.

(** The head of a puller's record. *)
Definition head_is (p : PullerData) (h : TimingList) : Prop :=
  exists rest, times p = Some (h, rest).

Lemma and_scan_spec ps prev s0 e0 :
  Forall pd_wf ps -> is_u32 prev ->
  exists ps' s e, Conditions.and_scan ps prev s0 e0 = Val (ps', s, e)
    /\ Forall2 (cleaned prev) ps ps'
    /\ s0 <= s /\ e <= e0
    /\ Forall (fun p => forall h, head_is p h -> tlstart h <= s /\ e <= tlend h) ps'
    /\ (s = s0 \/ Exists (fun p => exists h, head_is p h /\ s = tlstart h) ps')
    /\ (e = e0 \/ Exists (fun p => exists h, head_is p h /\ e = tlend h) ps')
    /\ (Forall (contiguous prev) ps -> Forall (contiguous prev) ps').
Proof.
  intros Hwf Hp. revert s0 e0. induction Hwf as [|p ps Hpw Hwf IH]; intros s0 e0.
  { exists [], s0, e0. split_and!; try done; auto; lia. }
  cbn. destruct (cleanup_spec p prev Hpw Hp) as (b & p' & -> & Hc & Hcont).
  pose proof Hc as (_ & _ & _ & _ & h & rest & Eh & _).
  cbn [mbind outcome_bind]. rewrite Eh.
  destruct (IH (Z.max s0 (tlstart h)) (Z.min e0 (tlend h)))
    as (ps' & s & e & -> & H2 & Hs & He & Hall & Hsx & Hex & Hct).
  cbn [mbind outcome_bind]. exists (p' :: ps'), s, e.
  assert (head_is p' h) as Hh by by exists rest.
  split_and!; [done|by constructor|lia|lia| | | |].
  - constructor; [|done]. intros h' (?&?). simplify_eq. lia.
  - destruct Hsx as [->|?]; [|by right; right].
    destruct (Z.max_spec s0 (tlstart h)) as [[_ ->]|[_ ->]]; [|by left].
    right. left. eauto.
  - destruct Hex as [->|?]; [|by right; right].
    destruct (Z.min_spec e0 (tlend h)) as [[_ ->]|[_ ->]]; [by left|].
    right. left. eauto.
  - intros Hall2. inversion Hall2; subst. constructor; auto.
Qed.

(** ** Outputs in order *)

(** Spans that follow each other from [prev] to [prev'], possibly with gaps;
    each one ends later than everything before it. *)
Fixpoint in_order (prev : Z) (out : list TimeSpec) (prev' : Z) : Prop :=
  match out with
  | [] => prev <= prev'
  | o :: out =>
      prev <= validity_start o /\ validity_start o <= validity_end o
      /\ prev < validity_end o /\ in_order (validity_end o) out prev'
  end.

(** The same without gaps. *)
Fixpoint tile (prev : Z) (out : list TimeSpec) (prev' : Z) : Prop :=
  match out with
  | [] => prev = prev'
  | o :: out =>
      validity_start o = prev /\ prev < validity_end o
      /\ tile (validity_end o) out prev'
  end.

Lemma in_order_app a l1 b l2 c :
  in_order a l1 b -> in_order b l2 c -> in_order a (l1 ++ l2) c.
Proof.
  revert a. induction l1 as [|o l1 IH]; intros a; cbn.
  - destruct l2 as [|o l2]; cbn; [lia|]. intros ? (?&?&?&?). split_and!; try done; lia.
  - intros (?&?&?&?) ?. eauto.
Qed.

Lemma in_order_weaken a a' l b : a' <= a -> in_order a l b -> in_order a' l b.
Proof. destruct l; cbn; [lia|]. intros ? (?&?&?&?). split_and!; try done; lia. Qed.

Lemma in_order_le a l b : in_order a l b -> a <= b.
Proof.
  revert a. induction l as [|o l IH]; intros a; cbn; [done|].
  intros (?&?&?&?%IH). lia.
Qed.

Lemma in_order_after a l b :
  in_order a l b -> Forall (fun o => a < validity_end o) l.
Proof.
  revert a. induction l as [|o l IH]; intros a; cbn; [constructor|].
  intros (?&?&?&HF%IH). constructor; [done|].
  eapply list.Forall_impl; [exact HF|]. cbn. lia.
Qed.

Lemma in_order_starts a l b :
  in_order a l b -> Forall (fun o => a <= validity_start o) l.
Proof.
  revert a. induction l as [|o l IH]; intros a; cbn; [constructor|].
  intros (?&?&?&HF%IH). constructor; [done|].
  eapply list.Forall_impl; [exact HF|]. cbn. lia.
Qed.

Lemma tile_app a l1 b l2 c : tile a l1 b -> tile b l2 c -> tile a (l1 ++ l2) c.
Proof.
  revert a. induction l1 as [|o l1 IH]; intros a; cbn; [by intros ->|].
  intros (?&?&?) ?. eauto.
Qed.

(** Every tick of an output was reported by every puller. *)
Definition supported (ps : list PullerData) (o : TimeSpec) : Prop :=
  Forall (fun p => forall c x,
    in_span c (validity_start o) (validity_end o) x -> seen c p x) ps.

(** The last tick any puller has reported. *)
Definition horizon (ps : list PullerData) : Z := foldr (fun p => Z.max (pd_end p)) 0 ps.

Lemma horizon_le ps p : p ∈ ps -> pd_end p <= horizon ps.
Proof.
  unfold horizon. induction 1 as [? ?|? q ? ? IH]; cbn; [lia|].
  etrans; [exact IH|]. apply Z.le_max_r.
Qed.

Lemma horizon_cleaned prev ps ps' :
  Forall2 (cleaned prev) ps ps' -> horizon ps' = horizon ps.
Proof.
  unfold horizon. induction 1 as [|p p' ps ps' Hc ? IH]; [done|]. cbn.
  destruct Hc as (_ & _ & -> & _). by rewrite IH.
Qed.

Lemma supported_cleaned prev ps ps' o :
  Forall2 (cleaned prev) ps ps' -> supported ps' o -> supported ps o.
Proof.
  unfold supported. induction 1 as [|p p' ps ps' Hc ? IH]; [done|].
  intros Hs. inversion_clear Hs as [|? ? Hp Hps]. constructor; [|auto].
  intros c x Hx. destruct Hc as (_ & _ & _ & Hs & _). eauto.
Qed.

Lemma head_end_le p h : pd_wf p -> head_is p h -> tlstart h <= tlend h <= endtime h
  /\ endtime h <= pd_end p.
Proof.
  intros (h' & rest & E & Hwf & HL) (rest' & E').
  rewrite E in E'. injection E' as -> _.
  assert (tl_wf h) as Hh by by inversion Hwf.
  pose proof (tl_wf_le _ Hh) as Hle0. split; [done|].
  unfold pd_end. rewrite E. clear E. clear Hle0. revert h Hh Hwf HL.
  induction rest as [|a rest IH]; intros h Hh Hwf HL; [cbn; lia|].
  assert (PD.time_tail h (a :: rest) = PD.time_tail a rest) as ->.
  { unfold PD.time_tail. rewrite last_cons. by destruct (list.last rest). }
  inversion_clear Hwf as [|? ? _ Hwf1]. destruct HL as [Hlk HL].
  assert (tl_wf a) as Ha by by inversion Hwf1.
  pose proof (tl_wf_le _ Ha). etrans; [|apply IH; done]. cbn in Hlk. lia.
Qed.

(** What one call of [ConditionAnd::trigger] establishes. *)
Record and_result (ps : list PullerData) (prev : Z)
    (out : list TimeSpec) (ps' : list PullerData) (prev' : Z) : Prop := {
  ar_wf : Forall pd_wf ps';
  ar_len : length ps' = length ps;
  ar_prev : is_u32 prev';
  ar_ends : pd_end <$> ps' = pd_end <$> ps;
  ar_seen : forall i p', ps' !! i = Some p' ->
    exists p, ps !! i = Some p /\ puller p' = puller p
      /\ forall c x, seen c p' x -> seen c p x;
  ar_order : in_order prev out prev';
  ar_support : Forall (supported ps) out
}.

Lemma cleaned_result prev ps ps' out ps2 prev1 prev2 :
  Forall2 (cleaned prev) ps ps' ->
  and_result ps' prev1 out ps2 prev2 -> and_result ps prev1 out ps2 prev2.
Proof.
  intros H2 []. split; try done.
  - rewrite ar_len0. symmetry. by eapply Forall2_length.
  - rewrite ar_ends0. clear -H2. induction H2 as [|???? Hc ? IH]; cbn; [done|].
    destruct Hc as (_&_&->&_). by f_equal.
  - intros i p2 Hp2. destruct (ar_seen0 i p2 Hp2) as (p1 & Hp1 & Hpl & Hs).
    destruct (Forall2_lookup_r _ _ _ _ _ H2 Hp1) as (p & Hp & _ & Hq & _ & Hc & _).
    exists p. split_and!; [done|congruence|eauto].
  - eapply list.Forall_impl; [exact ar_support0|]. intros o.
    by apply supported_cleaned with prev.
Qed.

Lemma result_cons ps prev o out ps' prev' :
  and_result ps (validity_end o) out ps' prev' -> supported ps o ->
  prev <= validity_start o <= validity_end o -> prev < validity_end o ->
  and_result ps prev (o :: out) ps' prev'.
Proof. intros []. split; try done; [cbn; split_and!; try done; lia|by constructor]. Qed.

Lemma result_weaken ps prev prev1 out ps' prev' :
  prev <= prev1 -> and_result ps prev1 out ps' prev' ->
  and_result ps prev out ps' prev'.
Proof. intros ? []. split; try done. by eapply in_order_weaken. Qed.

Lemma in_Forall {A} (P : A -> Prop) l x : Forall P l -> x ∈ l -> P x.
Proof. intros H Hx. eapply list.Forall_forall in H; eauto. Qed.

Lemma result_refl ps prev : Forall pd_wf ps -> is_u32 prev -> and_result ps prev [] ps prev.
Proof. intros. split; try done; [|cbn; lia]. intros i p Hp. by exists p. Qed.

Lemma contiguous_weaken prev prev' p :
  prev <= prev' -> contiguous prev p -> contiguous prev' p.
Proof. intros ? (h & rest & ? & ? & ?). exists h, rest. split_and!; try done. lia. Qed.

Lemma cleaned_ends prev ps ps' k :
  Forall2 (cleaned prev) ps ps' -> Forall (fun p => k <= pd_end p) ps ->
  Forall (fun p => k <= pd_end p) ps'.
Proof.
  induction 1 as [|p p' ps ps' Hc ? IH]; [done|].
  intros HF. inversion_clear HF. constructor; [|auto].
  destruct Hc as (_ & _ & -> & _). done.
Qed.

(** What the scan knows of each head, with the invariant unfolded. *)
Lemma scan_heads prev ps ps1 s e :
  Forall2 (cleaned prev) ps ps1 ->
  Forall (fun p => forall h, head_is p h -> tlstart h <= s /\ e <= tlend h) ps1 ->
  forall p, p ∈ ps1 -> exists h, head_is p h
    /\ tlstart h <= s /\ e <= tlend h /\ tlstart h <= tlend h <= endtime h
    /\ endtime h <= pd_end p /\ pd_end p <= horizon ps
    /\ (endtime h <= prev -> pd_end p = endtime h)
    /\ (prev < endtime h -> prev < tlend h).
Proof.
  intros H2 Hall p Hin. pose proof (horizon_le _ _ Hin) as Hhor.
  rewrite (horizon_cleaned _ _ _ H2) in Hhor. pose proof (in_Forall _ _ _ Hall Hin) as Hd.
  apply list_elem_of_lookup in Hin as (i & Hi).
  destruct (Forall2_lookup_r _ _ _ _ _ H2 Hi)
    as (p0 & _ & Hpw & _ & _ & _ & h & rest & E & Hr & Hgt).
  assert (head_is p h) as Hh by by exists rest.
  pose proof (head_end_le p h Hpw Hh). specialize (Hd h Hh).
  exists h. split_and!; try lia; [done|].
  intros Hx. unfold pd_end. rewrite E, (Hr Hx). done.
Qed.

Lemma supported_heads ps1 s e :
  (forall p, p ∈ ps1 -> exists h, head_is p h
    /\ tlstart h <= s /\ e <= tlend h /\ tlstart h <= tlend h <= endtime h) ->
  supported ps1 (mkTS s e).
Proof.
  intros Hh. apply list.Forall_forall. intros p Hin c x Hx. cbn in Hx.
  destruct (Hh p Hin) as (h & (rest & E) & ?&?&?).
  eapply seen_intro; [exact E|]. exists h. split; [left|].
  unfold in_span in *. destruct c; lia.
Qed.

(** With contiguous records the scan starts where the last one ended. *)
Lemma scan_contiguous prev s ps1 :
  prev <= s -> Forall (contiguous prev) ps1 ->
  (s = prev \/ Exists (fun p => exists h, head_is p h /\ s = tlstart h) ps1) ->
  s = prev.
Proof.
  intros Hs Hc [?|(p & Hin & h & (r & E) & ->)%list.Exists_exists]; [done|].
  destruct (in_Forall _ _ _ Hc Hin) as (h' & r' & E' & _ & Hle).
  rewrite E in E'. injection E' as <- _. lia.
Qed.

Lemma cleaned_wf prev ps ps' : Forall2 (cleaned prev) ps ps' -> Forall pd_wf ps'.
Proof. induction 1 as [|???? [? _]]; by constructor. Qed.

(** The loop comes to an end, and delivers ordered, supported spans; without
    gaps it delivers everything. *)
Lemma and_loop_spec fuel ps prev :
  Forall pd_wf ps -> ps <> [] -> is_u32 prev ->
  (Z.to_nat (horizon ps - prev) < fuel)%nat -> horizon ps <= MAX_TIMETICK ->
  exists out ps' prev', Conditions.and_loop fuel ps prev prev = Val (out, ps', prev')
    /\ and_result ps prev out ps' prev'
    /\ (Forall (contiguous prev) ps -> Forall (fun p => prev <= pd_end p) ps ->
        tile prev out prev' /\ Forall (contiguous prev') ps'
        /\ Forall (fun p => prev' <= pd_end p) ps'
        /\ Exists (fun p => pd_end p = prev') ps').
Proof.
  revert ps prev. induction fuel as [|fuel IH]; intros ps prev Hwf Hne Hp Hf Hh; [lia|].
  cbn [Conditions.and_loop].
  destruct (and_scan_spec ps prev prev MAX_TIMETICK Hwf Hp)
    as (ps1 & s & e & -> & H2 & Hs & He & Hall & Hsx & Hex & Hct).
  cbn [mbind outcome_bind].
  pose proof (cleaned_wf _ _ _ H2) as Hwf1.
  assert (exists q, q ∈ ps1) as (q & Hq).
  { destruct H2; [done|]. eexists; left. }
  pose proof (horizon_cleaned _ _ _ H2) as Hhor.
  pose proof (scan_heads _ _ _ _ _ H2 Hall) as Hhead.
  assert (s <= horizon ps \/ s = prev) as Hsb.
  { destruct Hsx as [->|(p & Hin & h & Hd & ->)%list.Exists_exists]; [by right|].
    left. destruct (Hhead p Hin) as (h' & Hd' & ?).
    destruct Hd as (? & E), Hd' as (? & E'). rewrite E in E'. injection E' as <- _. lia. }
  destruct (Hhead q Hq) as (hq & _ & Hqb).
  destruct ((s <? e) || ((e =? s) && (prev <? s))) eqn:Hpull;
    [|destruct (Z.ltb_spec prev s)].
  - assert (prev < e /\ s <= e) as [Hpe Hse].
    { apply orb_prop in Hpull as [?%Z.ltb_lt|[?%Z.eqb_eq ?%Z.ltb_lt]%andb_prop]; lia. }
    assert (is_u32 e) as Heu by (unfold MAX_TIMETICK in *; width).
    destruct (IH ps1 e) as (out & ps2 & prev2 & -> & Hres & Htile);
      [done|by intros ->; inversion Hq|done|rewrite Hhor; lia|rewrite Hhor; lia|].
    eexists _, _, _. split; [reflexivity|]. split.
    + eapply cleaned_result; [exact H2|]. apply result_cons; cbn; [done| |lia|lia].
      apply supported_heads. intros p Hin.
      destruct (Hhead p Hin) as (h & ?&?&?&?&_). by exists h.
    + intros Hc Hend. pose proof (Hct Hc) as Hc1.
      pose proof (scan_contiguous _ _ _ Hs Hc1 Hsx) as ->.
      destruct Htile as (Ht1 & Ht2).
      * eapply list.Forall_impl; [exact Hc1|]. intros p.
        apply contiguous_weaken. lia.
      * apply list.Forall_forall. intros p Hin. destruct (Hhead p Hin) as (h & ?). lia.
      * split; [|done]. cbn. split_and!; try done. 
  - destruct (IH ps1 s) as (out & ps2 & prev2 & -> & Hres & Htile);
      [done|by intros ->; inversion Hq|unfold MAX_TIMETICK, is_u32 in *; lia
      |rewrite Hhor; lia|rewrite Hhor; lia|].
    eexists _, _, _. split; [reflexivity|]. split.
    + eapply cleaned_result; [exact H2|]. by eapply result_weaken; [|exact Hres].
    + intros Hc _. pose proof (scan_contiguous _ _ _ Hs (Hct Hc) Hsx). lia.
  - eexists _, _, _. split; [reflexivity|]. split.
    { eapply cleaned_result; [exact H2|]. by apply result_refl. }
    intros Hc Hend. pose proof (cleaned_ends _ _ _ _ H2 Hend) as Hend1.
    split_and!; [done|by apply Hct|done|].
    apply orb_false_elim in Hpull as [He1%Z.ltb_ge _].
    apply list.Exists_exists.
    destruct Hex as [->|(p & Hin & h & Hd & ->)%list.Exists_exists].
    + exists q. split; [done|]. pose proof (in_Forall _ _ _ Hend1 Hq). cbn in *. lia.
    + exists p. split; [done|]. pose proof (in_Forall _ _ _ Hend1 Hin) as Hx. cbn in Hx.
      destruct (Hhead p Hin) as (h' & Hd' & ?).
      destruct Hd as (? & E), Hd' as (? & E'). rewrite E in E'. injection E' as <- _. lia.
Qed.

(** ** One call and a history of calls *)

Lemma newSpan_contiguous p ts prev :
  pd_wf p -> contiguous prev p -> ts_ok ts ->
  validity_start ts = pd_end p -> validity_start ts < validity_end ts ->
  prev <= pd_end p ->
  exists p', PD.newSpan p ts prev = Val (pd_end p =? prev, p')
    /\ contiguous prev p' /\ pd_end p' = validity_end ts.
Proof.
  intros (h0 & rest0 & E0 & Hwf & _) (h & rest & E & HL & Hle) Hts Hs Hlt Hp.
  rewrite E in E0. injection E0 as <- <-.
  unfold PD.newSpan. rewrite E. unfold pd_end in *. rewrite E in *.
  pose proof (tail_wf _ _ Hwf) as Ht.
  rewrite <- Hs, Z.eqb_refl. cbn [andb].
  rewrite !span_ok by (apply Hts || apply Ht).
  destruct (Z.eqb_spec (validity_end ts - validity_start ts)
    (tlend (PD.time_tail h rest) - tlstart (PD.time_tail h rest))) as [Heq|_].
  - destruct (PD.set_tail_endtime h rest (validity_end ts)) as [h' rest'] eqn:Es.
    destruct (extend_spec eq _ _ _ _ _ Es) as (HL' & Htl & Hst & _).
    assert (0 <= prev).
    { inversion_clear Hwf as [|? ? ((?&_)&_) _]. unfold is_u32 in *. lia. }
    eexists. rewrite <- Heq, u32_id by (destruct Hts as (?&?&?); unfold is_u32 in *; lia).
    split; [|split].
    + f_equal. f_equal.
      destruct (Z.eqb_spec (validity_start ts) prev), (Z.ltb_spec prev (validity_end ts));
        destruct (Z.eqb_spec (validity_end ts)
          (validity_end ts - validity_start ts + prev)); try lia; done.
    + exists h', rest'. split_and!; [done|by apply HL'|by rewrite Hst].
    + cbn. by rewrite Htl.
  - unfold DTS.extendsOrIsAfter.
    destruct (Z.ltb_spec (validity_start ts) (validity_end ts)); [|lia].
    eexists. split; [|split].
    + cbn. f_equal. f_equal. destruct (Z.leb_spec (validity_start ts) prev),
        (Z.ltb_spec prev (validity_end ts)), (Z.eqb_spec (validity_start ts) prev);
        try lia; done.
    + exists h. eexists. split_and!; [reflexivity| |done].
      apply linked_tail_snoc. split; [done|]. cbn. lia.
    + cbn. by rewrite time_tail_snoc.
Qed.

(** The span [x] lies in was reported by puller [i]. *)
Definition reported (l : list (TimeSpec * nat)) (i : nat) (c : bool) (x : Z) : Prop :=
  exists t, (t, i) ∈ l /\ in_span c (validity_start t) (validity_end t) x.

Definition from_history (l : list (TimeSpec * nat)) (ps : list PullerData) : Prop :=
  forall i p, ps !! i = Some p -> forall c x, seen c p x -> reported l i c x.

Definition call_ok (n : nat) (bound : Z) (c : TimeSpec * nat) : Prop :=
  ts_ok c.1 /\ (c.2 < n)%nat /\ validity_end c.1 <= bound.

Lemma horizon_bound ps b :
  0 <= b -> horizon ps <= b <-> Forall (fun p => pd_end p <= b) ps.
Proof.
  intros Hb. unfold horizon. induction ps as [|p ps IH]; cbn; [by split|].
  rewrite Z.max_lub_iff, IH. split.
  - intros []. by constructor.
  - intros H. by inversion_clear H.
Qed.

Lemma horizon_ends ps ps' :
  pd_end <$> ps' = pd_end <$> ps -> horizon ps' = horizon ps.
Proof.
  assert (forall l, horizon l = foldr Z.max 0 (pd_end <$> l)) as E.
  { intros l. unfold horizon. induction l as [|a l IH]; [done|]. cbn. by rewrite IH. }
  intros H. by rewrite !E, H.
Qed.

Lemma Forall_set {A} (P : A -> Prop) l i x :
  Forall P l -> P x -> Forall P (<[i:=x]> l).
Proof. intros. by apply Forall_insert. Qed.

Lemma and_trigger_spec fuel ps prev ts idx hist bound :
  Forall pd_wf ps -> is_u32 prev -> call_ok (length ps) bound (ts, idx) ->
  horizon ps <= bound -> 0 <= bound <= MAX_TIMETICK ->
  (Z.to_nat bound < fuel)%nat -> from_history hist ps ->
  exists out ps' prev', Conditions.and_trigger fuel ps prev ts idx = Val (out, ps', prev')
    /\ Forall pd_wf ps' /\ length ps' = length ps /\ is_u32 prev'
    /\ horizon ps' <= bound /\ from_history ((ts, idx) :: hist) ps'
    /\ in_order prev out prev'
    /\ Forall (fun o => forall i, (i < length ps)%nat -> forall c x,
         in_span c (validity_start o) (validity_end o) x ->
         reported ((ts, idx) :: hist) i c x) out.
Proof.
  intros Hwf Hp (Hts & Hi & Hb) Hh Hbd Hf Hhist. cbn in Hts, Hi, Hb.
  unfold Conditions.and_trigger.
  destruct (lookup_lt_is_Some_2 ps idx Hi) as (p & Ep). rewrite Ep.
  pose proof (Forall_lookup_1 _ _ _ _ Hwf Ep) as Hpw.
  destruct (newSpan_spec p ts prev Hpw Hts) as (b & p' & -> & Hpw' & _ & He & Hseen).
  cbn [mbind outcome_bind].
  assert (Forall pd_wf (<[idx:=p']> ps)) as Hwf1 by by apply Forall_set.
  assert (horizon (<[idx:=p']> ps) <= bound) as Hh1.
  { apply horizon_bound; [lia|]. apply horizon_bound in Hh; [|lia].
    apply Forall_set; [done|]. pose proof (Forall_lookup_1 _ _ _ _ Hh Ep). cbn in *. lia. }
  assert (from_history ((ts, idx) :: hist) (<[idx:=p']> ps)) as Hhist1.
  { intros i q Hq c x Hx. destruct (decide (i = idx)) as [->|Hne].
    - rewrite list_lookup_insert_eq in Hq by done. simplify_eq.
      destruct (Hseen c x Hx) as [Hx'|Hx'].
      + destruct (Hhist _ _ Ep c x Hx') as (t & ? & ?). exists t. split; [by right|done].
      + exists ts. split; [left|done].
    - rewrite list_lookup_insert_ne in Hq by done.
      destruct (Hhist _ _ Hq c x Hx) as (t & ? & ?). exists t. split; [by right|done]. }
  destruct b.
  - destruct (and_loop_spec fuel (<[idx:=p']> ps) prev)
      as (out & ps' & prev' & -> & [] & _); [done| |done| |lia|].
    { intros E. apply (f_equal length) in E. rewrite length_insert in E. cbn in E. lia. }
    { red in Hp. lia. }
    rewrite length_insert in ar_len0.
    eexists _, _, _. split; [reflexivity|]. split_and!; try done.
    + by rewrite (horizon_ends _ _ ar_ends0).
    + intros i q Hq c x Hx. destruct (ar_seen0 _ _ Hq) as (q0 & Hq0 & _ & Hs). eauto.
    + eapply list.Forall_impl; [exact ar_support0|]. intros o Ho i Hil c x Hx.
      destruct (lookup_lt_is_Some_2 (<[idx:=p']> ps) i) as (q & Hq).
      { by rewrite length_insert. }
      eapply Hhist1; [exact Hq|]. by eapply (Forall_lookup_1 _ _ _ _ Ho Hq).
  - eexists _, _, _. split; [reflexivity|]. rewrite length_insert.
    split_and!; try done. cbn; lia.
Qed.

Lemma reported_app_l l1 l2 i c x : reported l1 i c x -> reported (l2 ++ l1) i c x.
Proof. intros (t & ? & ?). exists t. split; [set_solver|done]. Qed.

Lemma and_run_spec fuel l ps prev hist bound :
  Forall pd_wf ps -> is_u32 prev -> Forall (call_ok (length ps) bound) l ->
  horizon ps <= bound -> 0 <= bound <= MAX_TIMETICK ->
  (Z.to_nat bound < fuel)%nat -> from_history hist ps ->
  exists out ps' prev', Conditions.and_run fuel ps prev l = Val (out, ps', prev')
    /\ in_order prev out prev'
    /\ Forall (fun o => forall i, (i < length ps)%nat -> forall c x,
         in_span c (validity_start o) (validity_end o) x ->
         reported (reverse l ++ hist) i c x) out.
Proof.
  intros Hwf Hp Hl Hh Hb Hf. revert ps prev hist Hwf Hp Hl Hh.
  induction l as [|[ts idx] l IH]; intros ps prev hist Hwf Hp Hl Hh Hhist;
    cbn [Conditions.and_run].
  { eexists [], ps, prev. split_and!; try done. cbn. lia. }
  inversion_clear Hl as [|? ? Hc Hl'].
  destruct (and_trigger_spec fuel ps prev ts idx hist bound)
    as (o1 & ps1 & prev1 & -> & Hwf1 & Hlen & Hp1 & Hh1 & Hhist1 & Ho1 & Hs1); try done.
  cbn [mbind outcome_bind].
  destruct (IH ps1 prev1 ((ts, idx) :: hist)) as (o2 & ps2 & prev2 & -> & Ho2 & Hs2);
    try done; [by rewrite Hlen|].
  cbn [mbind outcome_bind]. eexists _, _, _. split; [reflexivity|].
  rewrite Hlen in Hs2. split; [by eapply in_order_app|].
  rewrite reverse_cons, <- app_assoc. cbn. apply Forall_app. split; [|done].
  eapply list.Forall_impl; [exact Hs1|]. intros o Ho i Hi c x Hx.
  apply reported_app_l. eauto.
Qed.

(** Every record has a history. *)
Lemma some_history ps : exists hist, from_history hist ps.
Proof.
  exists (mjoin (imap (fun i p => match times p with
    | Some (h, rest) => (fun e => (mkTS (tlstart e) (endtime e), i)) <$> h :: rest
    | None => []
    end) ps)).
  intros i p Hp c x (h & rest & E & (e & He & Hx)%list.Exists_exists).
  exists (mkTS (tlstart e) (endtime e)). split; [|done].
  apply list_elem_of_join. exists ((fun e => (mkTS (tlstart e) (endtime e), i)) <$> h :: rest).
  split; [apply list_elem_of_fmap; by exists e|].
  apply elem_of_lookup_imap. exists i, p. by rewrite E.
Qed.

(** ** Without gaps *)

(** Each span starts where the last one of its puller ended. *)
Fixpoint gapless (ends : list Z) (l : list (TimeSpec * nat)) : Prop :=
  match l with
  | [] => True
  | (t, i) :: l =>
      ends !! i = Some (validity_start t) /\ validity_start t < validity_end t
      /\ gapless (<[i:=validity_end t]> ends) l
  end.

Definition last_ends (ends : list Z) (l : list (TimeSpec * nat)) : list Z :=
  foldl (fun es c => <[c.2:=validity_end c.1]> es) ends l.

(** Everything all pullers have reported has been delivered. *)
Definition caught_up (prev : Z) (ps : list PullerData) : Prop :=
  Forall (contiguous prev) ps /\ Forall (fun p => prev <= pd_end p) ps
  /\ Exists (fun p => pd_end p = prev) ps.

Lemma and_trigger_gapless fuel ps prev ts idx p bound :
  Forall pd_wf ps -> is_u32 prev -> caught_up prev ps ->
  ps !! idx = Some p -> ts_ok ts ->
  validity_start ts = pd_end p -> validity_start ts < validity_end ts ->
  validity_end ts <= bound -> horizon ps <= bound -> 0 <= bound <= MAX_TIMETICK ->
  (Z.to_nat bound < fuel)%nat ->
  exists out ps' prev', Conditions.and_trigger fuel ps prev ts idx = Val (out, ps', prev')
    /\ Forall pd_wf ps' /\ is_u32 prev' /\ caught_up prev' ps'
    /\ pd_end <$> ps' = <[idx:=validity_end ts]> (pd_end <$> ps)
    /\ horizon ps' <= bound /\ tile prev out prev'.
Proof.
  intros Hwf Hp (Hc & Hle & Hex) Ep Hts Hs Hlt Hb Hh Hbd Hf.
  unfold Conditions.and_trigger. rewrite Ep.
  pose proof (Forall_lookup_1 _ _ _ _ Hwf Ep) as Hpw.
  pose proof (Forall_lookup_1 _ _ _ _ Hc Ep) as Hpc.
  pose proof (Forall_lookup_1 _ _ _ _ Hle Ep) as Hpl. cbn in Hpl.
  destruct (newSpan_contiguous p ts prev Hpw Hpc Hts Hs Hlt Hpl) as (p' & E & Hpc' & He).
  destruct (newSpan_spec p ts prev Hpw Hts) as (b & p2 & E2 & Hpw' & _ & _ & _).
  rewrite E in E2. injection E2 as <- <-. rewrite E. cbn [mbind outcome_bind].
  assert (Forall pd_wf (<[idx:=p']> ps)) as Hwf1 by by apply Forall_set.
  assert (Forall (contiguous prev) (<[idx:=p']> ps)) as Hc1 by by apply Forall_set.
  assert (Forall (fun p => prev <= pd_end p) (<[idx:=p']> ps)) as Hle1.
  { apply Forall_set; [done|]. lia. }
  assert (pd_end <$> <[idx:=p']> ps = <[idx:=validity_end ts]> (pd_end <$> ps)) as Hends.
  { by rewrite list_fmap_insert, He. }
  assert (horizon (<[idx:=p']> ps) <= bound) as Hh1.
  { apply horizon_bound; [lia|]. apply horizon_bound in Hh; [|lia].
    apply Forall_set; [done|]. cbn. lia. }
  destruct (Z.eqb_spec (pd_end p) prev) as [Heq|Hne].
  - destruct (and_loop_spec fuel (<[idx:=p']> ps) prev)
      as (out & ps' & prev' & -> & [] & Ht); [done| |done| |lia|].
    { intros Hx. apply (f_equal length) in Hx. rewrite length_insert in Hx.
      apply lookup_lt_Some in Ep. cbn in Hx. lia. }
    { red in Hp. lia. }
    destruct (Ht Hc1 Hle1) as (Ht1 & Hc2 & Hle2 & Hex2).
    eexists _, _, _. split; [reflexivity|]. split_and!; try done.
    + by rewrite ar_ends0.
    + by rewrite (horizon_ends _ _ ar_ends0).
  - eexists _, _, _. split; [reflexivity|]. split_and!; try done.
    split_and!; try done.
    apply list.Exists_exists in Hex as (q & Hq & Hqe).
    apply list_elem_of_lookup in Hq as (j & Hj).
    apply list.Exists_exists. exists q. split; [|done].
    apply list_elem_of_lookup. exists j.
    rewrite list_lookup_insert_ne; [done|]. intros ->. simplify_eq.
Qed.

Lemma and_run_gapless_spec fuel l ps prev bound :
  Forall pd_wf ps -> is_u32 prev -> caught_up prev ps ->
  gapless (pd_end <$> ps) l -> Forall (call_ok (length ps) bound) l ->
  horizon ps <= bound -> 0 <= bound <= MAX_TIMETICK ->
  (Z.to_nat bound < fuel)%nat ->
  exists out ps' prev', Conditions.and_run fuel ps prev l = Val (out, ps', prev')
    /\ tile prev out prev' /\ caught_up prev' ps'
    /\ pd_end <$> ps' = last_ends (pd_end <$> ps) l.
Proof.
  intros Hwf Hp Hc Hg Hl Hh Hb Hf. revert ps prev Hwf Hp Hc Hg Hl Hh.
  induction l as [|[ts idx] l IH]; intros ps prev Hwf Hp Hc Hg Hl Hh;
    cbn [Conditions.and_run].
  { eexists [], ps, prev. by split_and!. }
  destruct Hg as (Hs & Hlt & Hg). inversion_clear Hl as [|? ? (Hts & Hi & Hbd) Hl'].
  rewrite list_lookup_fmap in Hs. apply fmap_Some in Hs as (p & Ep & Hs).
  destruct (and_trigger_gapless fuel ps prev ts idx p bound)
    as (o1 & ps1 & prev1 & -> & Hwf1 & Hp1 & Hc1 & He1 & Hh1 & Ht1); try done.
  cbn [mbind outcome_bind].
  destruct (IH ps1 prev1) as (o2 & ps2 & prev2 & -> & Ht2 & Hc2 & He2); try done.
  - by rewrite He1.
  - apply (f_equal length) in He1. rewrite length_insert, !length_fmap in He1.
    by rewrite He1.
  - cbn [mbind outcome_bind]. eexists _, _, _. split; [reflexivity|].
    split_and!; [by eapply tile_app|done|]. rewrite He2, He1. done.
Qed.

(** ** Regular streams out of phase *)

Definition tail_span (p : PullerData) : Z :=
  match times p with
  | Some (h, rest) => DTS.getValiditySpan (tl_ts (PD.time_tail h rest))
  | None => 0
  end.

(** Each puller goes on with spans of its own fixed length, without gaps. *)
Fixpoint steady (spans ends : list Z) (l : list (TimeSpec * nat)) : Prop :=
  match l with
  | [] => True
  | (t, i) :: l => exists w e, spans !! i = Some w /\ ends !! i = Some e
      /\ t = mkTS e (e + w) /\ is_u32 (e + w) /\ steady spans (<[i:=e + w]> ends) l
  end.

(** The puller's spans will not end at [prev] any more. *)
Definition misses (prev : Z) (p : PullerData) : Prop :=
  is_u32 (prev + tail_span p) /\ 0 < tail_span p
  /\ (prev < pd_end p \/ (prev - pd_end p) mod tail_span p <> 0).

Lemma newSpan_misses p prev :
  misses prev p -> is_u32 (pd_end p + tail_span p) ->
  is_Some (times p) ->
  exists p', PD.newSpan p (mkTS (pd_end p) (pd_end p + tail_span p)) prev = Val (false, p')
    /\ misses prev p' /\ is_Some (times p')
    /\ pd_end p' = pd_end p + tail_span p /\ tail_span p' = tail_span p.
Proof.
  intros (Hu & Hw & Hm) He [[h rest] E]. unfold PD.newSpan.
  unfold misses, pd_end, tail_span in *. rewrite E in *.
  set (w := DTS.getValiditySpan (tl_ts (PD.time_tail h rest))) in *.
  set (e := endtime (PD.time_tail h rest)) in *.
  assert (DTS.getValiditySpan (mkTS e (e + w)) = w) as ->.
  { unfold DTS.getValiditySpan; cbn.
    replace (e + w - e) with w by lia. unfold w, DTS.getValiditySpan.
    unfold u32. by rewrite Zmod_mod. }
  cbn. rewrite !Z.eqb_refl. cbn [andb].
  rewrite u32_id by (rewrite Z.add_comm; done).
  destruct (PD.set_tail_endtime h rest (e + w)) as [h' rest'] eqn:Es.
  destruct (extend_spec eq _ _ _ _ _ Es) as (_ & Htl & _ & _).
  assert (e <> prev) as Hne.
  { intros ->. destruct Hm as [?|Hm]; [lia|]. by rewrite Z.sub_diag, Zmod_0_l in Hm. }
  exists (mkPD (puller p) (Some (h', rest'))). cbn [times]. rewrite Htl.
  cbn [tl_ts endtime]. fold w. split; [|split_and!; try done].
  - destruct (Z.eqb_spec (e + w) (w + prev)); [lia|]. reflexivity.
  - destruct Hm as [?|Hm]; [left; lia|right].
    replace (prev - (e + w)) with (prev - e + (-1) * w) by lia.
    by rewrite Z_mod_plus_full.
Qed.

Lemma and_run_stalls fuel l ps prev :
  Forall (fun p => misses prev p /\ is_Some (times p)) ps ->
  steady (tail_span <$> ps) (pd_end <$> ps) l ->
  exists ps', Conditions.and_run fuel ps prev l = Val ([], ps', prev).
Proof.
  revert ps. induction l as [|[t i] l IH]; intros ps Hm; cbn [Conditions.and_run].
  { by eexists. }
  intros (w & e & Hw & He & -> & Hu & Hst).
  rewrite list_lookup_fmap in Hw, He. apply fmap_Some in Hw as (p & Ep & ->).
  rewrite Ep in He. cbn in He. injection He as <-.
  destruct (Forall_lookup_1 _ _ _ _ Hm Ep) as [Hmp Hs].
  destruct (newSpan_misses p prev Hmp Hu Hs) as (p' & E & Hmp' & Hs' & He' & Hw').
  unfold Conditions.and_trigger. rewrite Ep, E. cbn [mbind outcome_bind].
  destruct (IH (<[i:=p']> ps)) as (ps' & ->).
  - apply Forall_set; [done|]. done.
  - rewrite !list_fmap_insert, He', Hw'.
    rewrite (list_insert_id (tail_span <$> ps)); [done|].
    by rewrite list_lookup_fmap, Ep.
  - by eexists.
Qed.

(** ** Or *)

Definition newest (prev : Z) (l : list TimeSpec) : Z :=
  foldl (fun m t => Z.max m (validity_end t)) prev l.

Lemma or_run_spec prev l :
  Forall ts_ok l ->
  exists out, Conditions.or_run prev l = (out, newest prev l)
    /\ in_order prev out (newest prev l)
    /\ Forall (fun o => exists t, t ∈ l /\ validity_end o = validity_end t
         /\ validity_start t <= validity_start o) out.
Proof.
  revert prev. induction l as [|t l IH]; intros prev Hl; cbn [Conditions.or_run].
  { eexists. split; [reflexivity|]. split; [cbn; lia|constructor]. }
  inversion_clear Hl as [|? ? Ht Hl']. unfold Conditions.or_trigger.
  destruct (Z.ltb_spec prev (validity_end t)).
  - destruct (IH (validity_end t) Hl') as (out & E & Ho & Hs). rewrite E.
    assert (newest prev (t :: l) = newest (validity_end t) l) as ->.
    { unfold newest. cbn. by rewrite Z.max_r by lia. }
    eexists. split; [reflexivity|]. destruct Ht as (?&?&?). split.
    + cbn. split_and!; try done; lia.
    + constructor; [exists t; cbn; split_and!; [left|done|lia]|].
      eapply list.Forall_impl; [exact Hs|]. intros o (u & ? & ?).
      exists u. split; [by right|done].
  - destruct (IH prev Hl') as (out & E & Ho & Hs). rewrite E.
    assert (newest prev (t :: l) = newest prev l) as ->.
    { unfold newest. cbn. by rewrite Z.max_l by lia. }
    eexists. split; [reflexivity|]. split; [done|].
    eapply list.Forall_impl; [exact Hs|]. intros o (u & ? & ?).
    exists u. split; [by right|done].
Qed.

(** ** An event ahead of the other puller's current span *)

Lemma cleanup_current p h rest prev :
  times p = Some (h, rest) -> prev < tlend h -> prev < endtime h ->
  PD.cleanUpTimingList p prev = Val (false, p).
Proof.
  intros E H1 H2. unfold PD.cleanUpTimingList. rewrite E.
  assert (PD.clean_total h rest prev = (false, (h, rest))) as ->.
  { destruct rest; cbn; [done|]. destruct (Z.leb_spec (endtime h) prev); [lia|done]. }
  destruct (Z.ltb_spec prev (endtime h)); [|lia].
  destruct (Z.eqb_spec (tlend h) prev); [lia|].
  destruct (Z.ltb_spec (tlend h) prev); [lia|]. destruct p. cbn in E. by subst.
Qed.

Lemma event_gap a h rest b hb prev x fuel :
  times a = Some (h, rest) -> pd_wf a ->
  times b = Some (hb, []) -> endtime hb <= prev ->
  prev < tlend h -> tlend h < x -> x <= MAX_TIMETICK ->
  Conditions.and_trigger (S fuel) [a; b] prev (mkTS x x) 1
  = Conditions.and_loop fuel
      [a; mkPD (puller b) (Some (new_TimingList (mkTS x x), []))] x x.
Proof.
  intros Ea Hwf Eb Hb H1 H2 Hx.
  assert (tlstart h <= tlend h <= endtime h) as Hle.
  { destruct Hwf as (h' & r' & E & Hwf & _). rewrite Ea in E. injection E as <- <-.
    apply tl_wf_le. by inversion Hwf. }
  unfold Conditions.and_trigger, PD.newSpan. cbn [lookup list_lookup]. rewrite Eb.
  unfold PD.time_tail, DTS.extendsOrIsAfter, DTS.modifyToAfter; cbn.
  destruct (Z.eqb_spec x (endtime hb)); [lia|]. cbn [andb].
  destruct (Z.ltb_spec (endtime hb) x); [|lia]. rewrite Z.max_r by lia. cbn.
  destruct (Z.leb_spec (endtime hb) prev); [|lia].
  destruct (Z.ltb_spec prev x); [|lia]. cbn [andb Conditions.and_loop].
  cbn [Conditions.and_scan].
  rewrite (cleanup_current a h rest prev Ea) by lia. cbn [mbind outcome_bind].
  rewrite Ea.
  unfold new_TimingList; cbn.
  destruct (Z.ltb_spec prev x); [|lia].
  destruct (Z.eqb_spec x prev); [lia|].
  destruct (Z.ltb_spec x prev); [lia|]. cbn.
  rewrite (Z.max_r _ x) by lia. rewrite (Z.min_r MAX_TIMETICK) by lia.
  rewrite (Z.min_l _ x) by lia.
  destruct (Z.ltb_spec x (tlend h)); [lia|].
  destruct (Z.eqb_spec (tlend h) x); [lia|]. cbn.
  destruct (Z.ltb_spec prev x); [done|lia].
Qed.

(** ** The wiring between pullers and targets *)

(** What the wiring consists of: whom a node triggers under which number, and
    which pullers it has slots for. *)
Definition view (n : Net.Node) : list (option nat * Z) * list (option nat) :=
  ((fun td => (Net.td_target td, Net.td_id td)) <$> Net.targets n,
   puller <$> Net.pullers n).

Definition V (w : Net.World) : gmap nat (list (option nat * Z) * list (option nat)) :=
  view <$> Net.nodes w.

(** Every link of a puller leads to a slot that belongs to this puller. *)
Definition wired (w : Net.World) : Prop :=
  forall p ts ps t id, V w !! p = Some (ts, ps) -> (Some t, id) ∈ ts ->
    0 <= id /\ exists ts' ps', V w !! t = Some (ts', ps')
      /\ ps' !! Z.to_nat id = Some (Some p).

(** A method that leaves the wiring alone. *)
Definition keeps {A} (m : M Net.World A) : Prop :=
  forall w r w', m w = (r, w') -> V w' = V w.

Lemma keeps_ret {A} (a : A) : keeps (mret a).
Proof. by intros w r w' [= <- <-]. Qed.
Lemma keeps_stuck {A} f : keeps (stuck (A := A) f).
Proof. by intros w r w' [= <- <-]. Qed.
Lemma keeps_throw {A} e : keeps (throw (A := A) e).
Proof. by intros w r w' [= <- <-]. Qed.
Lemma keeps_of_option {A} f (o : option A) : keeps (of_option f o).
Proof. destruct o; [apply keeps_ret|apply keeps_stuck]. Qed.
Lemma keeps_dassert `{BuildConfig} b : keeps (dassert b).
Proof. unfold dassert. case_match; [apply keeps_stuck|apply keeps_ret]. Qed.
Lemma keeps_node i : keeps (Net.node i).
Proof. intros w r w'. unfold Net.node. by case_match; intros [= <- <-]. Qed.
Lemma keeps_pure {A} (o : outcome A) : keeps (fun w : Net.World => (o, w)).
Proof. by intros w r w' [= <- <-]. Qed.
Lemma keeps_bind {A B} (m : M Net.World A) (k : A -> M Net.World B) :
  keeps m -> (forall a, keeps (k a)) -> keeps (m ≫= k).
Proof.
  intros Hm Hk w r w'. unfold mbind, M_bind.
  destruct (m w) as [[a|e|f] w1] eqn:E; [|by intros [= <- <-]; eauto..].
  intros Hr. rewrite (Hk _ _ _ _ Hr). eauto.
Qed.
Lemma keeps_for_each {A B} (l : list A) (f : A -> B -> M Net.World B) b :
  (forall a b, keeps (f a b)) -> keeps (Net.for_each l f b).
Proof.
  intros Hf. revert b. induction l as [|a l IH]; intros b; [apply keeps_ret|].
  apply keeps_bind; auto.
Qed.

(** An update is invisible when the node's view stays the same. *)
Lemma V_update i f w :
  V (Net.upd_nodes (alter f i) w)
  = match Net.nodes w !! i with
    | Some n => <[i:=view (f n)]> (V w)
    | None => V w
    end.
Proof.
  unfold V; cbn. apply map_eq. intros j. destruct (decide (i = j)) as [->|Hne].
  - rewrite lookup_fmap, lookup_alter_eq.
    destruct (Net.nodes w !! j) eqn:E; cbn.
    + by rewrite lookup_insert_eq.
    + by rewrite lookup_fmap, E.
  - rewrite lookup_fmap, lookup_alter_ne by done.
    destruct (Net.nodes w !! i); [by rewrite lookup_insert_ne, lookup_fmap|].
    by rewrite lookup_fmap.
Qed.

Lemma V_update_same i f w n :
  Net.nodes w !! i = Some n -> view (f n) = view n ->
  V (Net.upd_nodes (alter f i) w) = V w.
Proof.
  intros E Hv. rewrite V_update, E, Hv. apply insert_id.
  unfold V. by rewrite lookup_fmap, E.
Qed.

Lemma keeps_update i f : (forall n, view (f n) = view n) -> keeps (Net.update i f).
Proof.
  intros Hf w r w' [= <- <-]. destruct (Net.nodes w !! i) as [n|] eqn:E.
  - by eapply V_update_same.
  - by rewrite V_update, E.
Qed.

Create HintDb wiring discriminated.
#[export] Hint Resolve keeps_ret keeps_stuck keeps_throw keeps_of_option
  keeps_dassert keeps_node keeps_pure keeps_bind keeps_for_each : wiring.

(** [wire] discharges [keeps] for a method body. *)
Ltac wire :=
  repeat (match goal with
  | |- keeps (_ ≫= _) => apply keeps_bind; [|intros ?]
  | |- keeps (Net.for_each _ _ _) => apply keeps_for_each; intros ? ?
  | |- keeps (match ?x with _ => _ end) => destruct x
  | |- keeps (Net.update _ (Net.set_manager _)) => by apply keeps_update
  | |- keeps (Net.update _ (Net.set_levels _)) => by apply keeps_update
  | |- keeps (Net.update _ (Net.set_kind _)) => by apply keeps_update
  | |- keeps (modify _) => by intros ? ? ? [= <- <-]
  | |- keeps _ => solve [auto with wiring]
  end).

Section Keeps.
Context `{BuildConfig} (MAX_MANAGERS : Z).

Lemma keeps_set_level this p : keeps (Net.set_level MAX_MANAGERS this p).
Proof. unfold Net.set_level. wire. Qed.

Lemma keeps_setManager_step this mgr oldmgr t k sc :
  keeps (Net.setManager_step MAX_MANAGERS this mgr oldmgr t k sc).
Proof.
  unfold Net.setManager_step. intros w r w'.
  unfold mbind at 1, M_bind at 1. unfold Net.node at 1.
  destruct (Net.nodes w !! this) as [n|] eqn:En; [|by intros [= <- <-]].
  destruct (Net.targets n !! k) as [td|] eqn:Etd; [|by intros [= <- <-]].
  cbn [of_option]. rewrite mret_bind. cbn zeta.
  set (td' := if bool_decide (Net.td_target td = Some t) then _ else td).
  rewrite (bind_val _ _ _ tt (Net.upd_nodes (alter (Net.set_targets <[k:=td']>) this) w))
    by reflexivity.
  intros Hr. etrans.
  - revert Hr. match goal with |- ?m _ = _ -> _ => enough (keeps m) as Hk end.
    { intros Hr. exact (Hk _ _ _ Hr). }
    pose proof keeps_set_level. wire.
  - apply V_update_same with n; [done|]. unfold view. cbn. f_equal.
    rewrite list_fmap_insert. apply list_insert_id.
    rewrite list_lookup_fmap, Etd. cbn. unfold td'. by case_bool_decide.
Qed.
#[local] Hint Resolve keeps_set_level keeps_setManager_step : wiring.

Lemma keeps_puller_setManager this mgr oldmgr t :
  keeps (Net.puller_setManager MAX_MANAGERS this mgr oldmgr t).
Proof. unfold Net.puller_setManager. wire. Qed.
#[local] Hint Resolve keeps_puller_setManager : wiring.

Lemma keeps_setManager fuel this mgr oldmgr t :
  keeps (Net.setManager MAX_MANAGERS fuel this mgr oldmgr t).
Proof.
  revert this mgr oldmgr t. induction fuel as [|fuel IH]; intros; cbn [Net.setManager];
    wire; auto.
Qed.
#[local] Hint Resolve keeps_setManager : wiring.

Lemma keeps_passManager fuel this mgr oldmgr :
  keeps (Net.passManager MAX_MANAGERS fuel this mgr oldmgr).
Proof. unfold Net.passManager. wire. Qed.

Lemma keeps_pull this ts : keeps (Net.pull this ts).
Proof. unfold Net.pull, Net.addAtom. wire. Qed.
End Keeps.
#[export] Hint Resolve keeps_setManager keeps_passManager keeps_pull : wiring.

(** The time logic leaves the slots to their pullers. *)
Lemma newSpan_puller p ts prev b p' :
  PD.newSpan p ts prev = Val (b, p') -> puller p' = puller p.
Proof. unfold PD.newSpan. intros. repeat case_match; by simplify_eq. Qed.

Lemma cleanUp_puller p prev b p' :
  PD.cleanUpTimingList p prev = Val (b, p') -> puller p' = puller p.
Proof. unfold PD.cleanUpTimingList. intros. repeat case_match; by simplify_eq. Qed.

Lemma outcome_bind_inv {A B} (m : outcome A) (k : A -> outcome B) b :
  (m ≫= k) = Val b -> exists a, m = Val a /\ k a = Val b.
Proof. destruct m; cbn; intros; [eauto|done..]. Qed.

Lemma and_scan_pullers ps prev s e ps' s' e' :
  Conditions.and_scan ps prev s e = Val (ps', s', e') -> puller <$> ps' = puller <$> ps.
Proof.
  revert s e ps' s' e'. induction ps as [|p ps IH]; intros s e ps' s' e'; cbn [Conditions.and_scan].
  { by intros [= <- <- <-]. }
  intros ([b p1] & Hc & H)%outcome_bind_inv. cbv beta iota in H.
  apply cleanUp_puller in Hc. destruct (times p1) as [[h r]|]; [|done].
  apply outcome_bind_inv in H as ([[ps1 s1] e1] & Hs & H).
  injection H as <- <- <-. cbn. rewrite Hc. f_equal. by eapply IH.
Qed.

Lemma and_loop_pullers fuel ps prev s out ps' prev' :
  Conditions.and_loop fuel ps prev s = Val (out, ps', prev') ->
  puller <$> ps' = puller <$> ps.
Proof.
  revert ps prev s out ps' prev'.
  induction fuel as [|fuel IH]; intros ps prev s out ps' prev'; cbn [Conditions.and_loop];
    [done|].
  intros ([[ps1 s1] e1] & Hs & H)%outcome_bind_inv. cbv beta iota in H.
  apply and_scan_pullers in Hs. rewrite <- Hs. repeat case_match.
  - apply outcome_bind_inv in H as ([[o2 ps2] p2] & H2 & H). injection H as <- <- <-.
    by eapply IH.
  - by eapply IH.
  - by injection H as <- <- <-.
Qed.

Lemma and_trigger_pullers fuel ps prev ts idx out ps' prev' :
  Conditions.and_trigger fuel ps prev ts idx = Val (out, ps', prev') ->
  puller <$> ps' = puller <$> ps.
Proof.
  unfold Conditions.and_trigger. destruct (ps !! idx) as [p|] eqn:E; [|done].
  intros ([b p1] & Hn & H)%outcome_bind_inv. cbv beta iota zeta in H.
  apply newSpan_puller in Hn.
  assert (puller <$> <[idx:=p1]> ps = puller <$> ps) as Hset.
  { rewrite list_fmap_insert, Hn. apply list_insert_id.
    by rewrite list_lookup_fmap, E. }
  destruct b; [by rewrite (and_loop_pullers _ _ _ _ _ _ _ H)|].
  by injection H as <- <- <-.
Qed.

Lemma nodes_for_each_pull `{BuildConfig} this (out : list TimeSpec) w r w' :
  Net.for_each out (fun o _ => Net.pull this o) tt w = (r, w') -> Net.nodes w' = Net.nodes w.
Proof.
  assert (forall (l : list Net.TargetData) ts w r w',
    Net.for_each l (fun td _ => match Net.td_manager td with
      | Some m => Net.addAtom m (Net.td_target td) (Net.td_id td) ts
      | None => mret tt end) tt w = (r, w') -> Net.nodes w' = Net.nodes w) as Hatoms.
  { induction l as [|td l IH]; intros ts w0 r0 w1; cbn [Net.for_each].
    { by intros [= <- <-]. }
    unfold mbind, M_bind. destruct (Net.td_manager td); [|apply IH].
    unfold Net.addAtom, mbind, M_bind, dassert.
    destruct (ASSERT_ACTIVE && _); cbn; [by intros [= <- <-]|].
    intros Hr. by apply IH in Hr. }
  revert w. induction out as [|o out IH]; intros w; cbn [Net.for_each].
  { by intros [= <- <-]. }
  unfold mbind at 1, M_bind at 1.
  destruct (Net.pull this o w) as [r1 w1] eqn:Ep.
  assert (Net.nodes w1 = Net.nodes w) as Hw1.
  { revert Ep. unfold Net.pull, mbind, M_bind, Net.node.
    destruct (Net.nodes w !! this) as [n|]; [|by intros [= <- <-]].
    match goal with |- context [Net.for_each ?l ?f ?b ?w] =>
      destruct (Net.for_each l f b w) as [r2 w2] eqn:Ef end.
    apply Hatoms in Ef. rewrite <- Ef. destruct r2; by intros [= <- <-]. }
  destruct r1 as [[]|e|f]; [|by intros [= <- <-]..].
  intros Hr. by rewrite (IH _ Hr).
Qed.

Lemma keeps_trigger `{BuildConfig} fuel this ts idx : keeps (Net.trigger fuel this ts idx).
Proof.
  intros w r w'. unfold Net.trigger, mbind at 1, M_bind at 1. unfold Net.node at 1.
  destruct (Net.nodes w !! this) as [n|] eqn:En; [|by intros [= <- <-]].
  destruct (Net.kind n) as [| |prev|prev];
    [by intros [= <- <-]|by intros [= <- <-]| |].
  - destruct (Conditions.or_trigger prev ts) as [out prev'].
    match goal with |- ?m w = _ -> _ => enough (keeps m) as Hk by apply Hk end. wire.
  - unfold mbind, M_bind.
    destruct (Conditions.and_trigger fuel (Net.pullers n) prev ts idx)
      as [[[out ps] prev']|e|f] eqn:Ea; [|by intros [= <- <-]..].
    destruct (Net.for_each out _ tt w) as [r1 w1] eqn:Ef.
    pose proof (nodes_for_each_pull _ _ _ _ _ Ef) as Hn.
    assert (V w1 = V w) as HV by (unfold V; by rewrite Hn).
    destruct r1 as [[]|e|f]; [|by intros [= <- <-]..].
    intros [= <- <-]. rewrite <- HV. apply V_update_same with n.
    + by rewrite Hn.
    + unfold view. cbn. by rewrite (and_trigger_pullers _ _ _ _ _ _ _ _ Ea).
Qed.

Lemma V_lookup w i n : Net.nodes w !! i = Some n -> V w !! i = Some (view n).
Proof. intros E. unfold V. by rewrite lookup_fmap, E. Qed.

(** Linking a fresh last slot. *)
Definition link (this p : nat) (id : Z)
    (m : gmap nat (list (option nat * Z) * list (option nat)))
    : gmap nat (list (option nat * Z) * list (option nat)) :=
  alter (fun v => (v.1 ++ [(Some this, id)], v.2)) p
    (alter (fun v => (v.1, v.2 ++ [Some p])) this m).

Lemma link_lookup this p id m i :
  link this p id m !! i =
    (fun v => (v.1 ++ (if decide (i = p) then [(Some this, id)] else []),
               v.2 ++ (if decide (i = this) then [Some p] else []))) <$> m !! i.
Proof.
  unfold link.
  destruct (decide (i = p)) as [<-|Hp], (decide (i = this)) as [<-|Ht];
    rewrite ?lookup_alter_eq, ?lookup_alter_ne, ?lookup_alter_eq, ?lookup_alter_ne
      by done;
    destruct (m !! _) as [[]|]; cbn; by rewrite ?app_nil_r.
Qed.

Lemma link_wired w w' this p ts0 ps0 :
  V w !! this = Some (ts0, ps0) -> wired w ->
  V w' = link this p (Z.of_nat (length ps0)) (V w) -> wired w'.
Proof.
  intros E0 Hw E' q ts ps t id. rewrite E', link_lookup.
  intros Hq Hin. apply fmap_Some in Hq as ([ts1 ps1] & Hq & Heq).
  injection Heq as -> ->. cbn in Hin. apply elem_of_app in Hin as [Hin|Hin].
  - destruct (Hw _ _ _ _ _ Hq Hin) as (Hid & ts2 & ps2 & Et & Hps).
    split; [done|]. eexists _, _. rewrite link_lookup, Et. split; [reflexivity|].
    cbn. rewrite lookup_app_l; [done|by eapply lookup_lt_Some].
  - case_decide as Hd; [|by apply not_elem_of_nil in Hin]. subst q.
    apply list_elem_of_singleton in Hin. injection Hin as -> ->.
    split; [lia|]. eexists _, _. rewrite link_lookup, E0. split; [reflexivity|].
    cbn. rewrite decide_True by done. rewrite lookup_app_r by lia.
    rewrite Nat2Z.id, Nat.sub_diag. done.
Qed.

Lemma copy_puller pd pd' : PD.copy pd = Val pd' -> puller pd' = puller pd.
Proof. unfold PD.copy. intros. repeat case_match; by simplify_eq. Qed.

Lemma push_puller_V realloc this p w r w' :
  Net.push_puller realloc this p w = (r, w') ->
  (exists n, Net.nodes w !! this = Some n /\ r = Val tt
    /\ V w' = alter (fun v => (v.1, v.2 ++ [Some p])) this (V w)
    /\ exists n', Net.nodes w' !! this = Some n'
         /\ length (Net.pullers n') = S (length (Net.pullers n)))
  \/ (V w' = V w /\ r <> Val tt).
Proof.
  unfold Net.push_puller, mbind at 1, M_bind at 1. unfold Net.node at 1.
  destruct (Net.nodes w !! this) as [n|] eqn:En; [|intros [= <- <-]; by right].
  unfold mbind, M_bind.
  assert (forall old, puller <$> old = puller <$> Net.pullers n ->
    V (Net.upd_nodes (alter (Net.set_pullers (fun _ => old ++ [PD.make (Some p)])) this) w)
    = alter (fun v => (v.1, v.2 ++ [Some p])) this (V w)) as HV.
  { intros old Hold. rewrite V_update, En.
    apply map_eq. intros i. destruct (decide (this = i)) as [->|Hne].
    - rewrite lookup_insert_eq, lookup_alter_eq, (V_lookup _ _ _ En). cbn.
      unfold view. cbn. by rewrite fmap_app, Hold.
    - by rewrite lookup_insert_ne, lookup_alter_ne. }
  assert (forall l old, foldr (fun pd l => pd ← PD.copy pd; l ← l; Val (pd :: l))
    (Val []) l = Val old -> puller <$> old = puller <$> l) as Hcopy.
  { induction l as [|pd l IH]; intros old; cbn; [by intros [= <-]|].
    destruct (PD.copy pd) as [pd'|e|f] eqn:Ec; cbn; [|done..].
    apply copy_puller in Ec.
    destruct (foldr _ (Val []) l) as [l'|e|f]; cbn; [|done..].
    intros [= <-]. cbn. f_equal; [done|]. by apply IH. }
  destruct realloc.
  - destruct (foldr _ (Val []) (Net.pullers n)) as [old|e|f] eqn:Ef;
      intros [= <- <-]; [left|by right..].
    apply Hcopy in Ef. exists n. split_and!; [done|done|by apply HV|].
    eexists. cbn. rewrite lookup_alter_eq, En. split; [reflexivity|]. cbn.
    apply (f_equal length) in Ef. rewrite !length_fmap in Ef.
    rewrite length_app, Ef. cbn. lia.
  - intros [= <- <-]. left. exists n. split_and!; [done|done|by apply HV|].
    eexists. cbn. rewrite lookup_alter_eq, En. split; [reflexivity|]. cbn.
    rewrite length_app. cbn. lia.
Qed.

Lemma addTarget_V this t id w :
  exists w', Net.addTarget this t id w = (Val tt, w')
    /\ V w' = alter (fun v => (v.1 ++ [(Some t, id)], v.2)) this (V w).
Proof.
  eexists. split; [reflexivity|]. rewrite V_update.
  apply map_eq. intros i. destruct (Net.nodes w !! this) as [n|] eqn:En.
  - destruct (decide (this = i)) as [->|Hne].
    + rewrite lookup_insert_eq, lookup_alter_eq, (V_lookup _ _ _ En). cbn.
      unfold view. cbn. by rewrite fmap_app.
    + by rewrite lookup_insert_ne, lookup_alter_ne.
  - destruct (decide (this = i)) as [->|Hne].
    + rewrite lookup_alter_eq. unfold V. by rewrite lookup_fmap, En.
    + by rewrite lookup_alter_ne.
Qed.

Lemma wired_keeps {A} (m : M Net.World A) w r w' :
  keeps m -> m w = (r, w') -> wired w -> wired w'.
Proof. intros Hk Hm Hw p ts ps t id. rewrite (Hk _ _ _ Hm). apply Hw. Qed.

Lemma wired_bind {A B} (m : M Net.World A) (k : A -> M Net.World B) w :
  wired (snd (m w)) ->
  (forall a w1, m w = (Val a, w1) -> wired (snd (k a w1))) ->
  wired (snd ((m ≫= k) w)).
Proof.
  intros Hm Hk. unfold mbind, M_bind. destruct (m w) as [[a|e|f] w1]; [|done..].
  by apply Hk.
Qed.

Lemma wired_tail {A} (m : M Net.World A) w :
  keeps m -> wired w -> wired (snd (m w)).
Proof.
  intros Hk Hw. destruct (m w) as [r w'] eqn:E. by eapply wired_keeps.
Qed.

Section WiringSteps.
Context `{BuildConfig} (MAX_MANAGERS : Z).

Lemma addTerm_wired fuel realloc this p w :
  wired w -> wired (snd (Net.addTerm MAX_MANAGERS fuel realloc this p w)).
Proof.
  intros Hw. unfold Net.addTerm. unfold mbind at 1, M_bind at 1.
  destruct (Net.push_puller realloc this p w) as [r w1] eqn:Ep.
  apply push_puller_V in Ep
    as [(n & En & -> & HV & n' & En' & Hlen)|[HV Hr]].
  2:{ assert (wired w1) as Hw1 by (intros ?????; rewrite HV; apply Hw).
      by destruct r as [[]|e|f]. }
  unfold mbind at 1, M_bind at 1. unfold Net.node at 1. rewrite En'.
  unfold mbind at 1, M_bind at 1.
  destruct (addTarget_V p this (Z.of_nat (length (Net.pullers n')) - 1) w1)
    as (w2 & -> & HV2).
  apply wired_tail; [wire|].
  eapply (link_wired w); [by apply V_lookup|done|].
  rewrite HV2, HV. unfold link. rewrite length_fmap, Hlen.
  by replace (Z.of_nat (S (length (Net.pullers n))) - 1)
    with (Z.of_nat (length (Net.pullers n))) by lia.
Qed.

Lemma setTrigger_wired fuel this p w :
  wired w -> wired (snd (Net.setTrigger MAX_MANAGERS fuel this p w)).
Proof.
  intros Hw. unfold Net.setTrigger. unfold mbind at 1, M_bind at 1. unfold Net.node at 1.
  destruct (Net.nodes w !! this) as [n|] eqn:En; [|done].
  destruct (Net.pullers n) eqn:Epl; [|done].
  unfold mbind at 1, M_bind at 1.
  destruct (Net.push_puller false this p w) as [r w1] eqn:Ep.
  apply push_puller_V in Ep
    as [(n0 & En0 & -> & HV & n' & En' & Hlen)|[HV Hr]].
  2:{ assert (wired w1) as Hw1 by (intros ?????; rewrite HV; apply Hw).
      by destruct r as [[]|e|f]. }
  unfold mbind at 1, M_bind at 1.
  destruct (addTarget_V p this 0 w1) as (w2 & -> & HV2).
  apply wired_tail; [wire|].
  eapply (link_wired w); [by apply V_lookup|done|].
  rewrite En in En0. injection En0 as <-.
  rewrite HV2, HV. unfold link. by rewrite length_fmap, Epl.
Qed.

(** The operations that build the graph and run it. *)
Inductive op :=
  | AddTerm (realloc : bool) (this p : nat)
  | SetTrigger (this p : nat)
  | PassManager (this : nat) (mgr oldmgr : option Net.ActivityManager)
  | Pull (this : nat) (ts : TimeSpec)
  | Propagate (a : Net.TriggerAtom).

Definition perform (fuel : nat) (o : op) : M Net.World unit :=
  match o with
  | AddTerm realloc this p => Net.addTerm MAX_MANAGERS fuel realloc this p
  | SetTrigger this p => Net.setTrigger MAX_MANAGERS fuel this p
  | PassManager this mgr oldmgr =>
      _ ← Net.passManager MAX_MANAGERS fuel this mgr oldmgr; mret tt
  | Pull this ts => Net.pull this ts
  | Propagate a => Net.propagate fuel a
  end.

(** A history of calls; one that throws is abandoned, the state remains. *)
Definition history (fuel : nat) (l : list op) (w : Net.World) : Net.World :=
  foldl (fun w o => snd (perform fuel o w)) w l.

Lemma perform_wired fuel o w : wired w -> wired (snd (perform fuel o w)).
Proof.
  intros Hw. destruct o; cbn [perform].
  - by apply addTerm_wired.
  - by apply setTrigger_wired.
  - apply wired_tail; [wire|done].
  - apply wired_tail; [wire|done].
  - apply wired_tail; [|done]. unfold Net.propagate.
    destruct (Net.at_target a); [apply keeps_trigger|wire].
Qed.

Lemma history_wired fuel l w : wired w -> wired (history fuel l w).
Proof.
  revert w. induction l as [|o l IH]; intros w Hw; cbn; [done|].
  by apply IH, perform_wired.
Qed.

(** The atoms of one pull. *)
Lemma pull_atoms this ts n w :
  Net.nodes w !! this = Some n ->
  Forall (fun td => Net.td_manager td = None \/ is_Some (Net.td_target td)) (Net.targets n) ->
  exists atoms, Net.pull this ts w
      = (Val tt, Net.mkWorld (Net.nodes w) (Net.triggerq w ++ atoms)
                   (Net.triggeredlevels w ∪ Net.activitylevels n))
    /\ atoms = omap (fun td => m ← Net.td_manager td;
                  Some (Net.mkAtom m (Net.td_target td) (Net.td_id td) ts)) (Net.targets n).
Proof.
  intros En Hm. eexists. split; [|reflexivity].
  unfold Net.pull. rewrite (bind_val _ _ _ n w) by (unfold Net.node; by rewrite En).
  rewrite (bind_val _ _ _ tt (Net.mkWorld (Net.nodes w)
    (Net.triggerq w ++ omap (fun td => m ← Net.td_manager td;
       Some (Net.mkAtom m (Net.td_target td) (Net.td_id td) ts)) (Net.targets n))
    (Net.triggeredlevels w))); [done|]. clear En.
  revert w. induction Hm as [|td l Hx Hm IH]; intros w; cbn [Net.for_each].
  { destruct w. cbn. by rewrite app_nil_r. }
  destruct (Net.td_manager td) as [m|] eqn:Em.
  - destruct Hx as [?|[t Et]]; [done|]. unfold Net.addAtom.
    rewrite (bind_val _ _ _ tt (Net.mkWorld (Net.nodes w)
      (Net.triggerq w ++ [Net.mkAtom m (Net.td_target td) (Net.td_id td) ts])
      (Net.triggeredlevels w))).
    + rewrite IH. cbn. rewrite Em. cbn. by rewrite <- app_assoc.
    + rewrite (bind_val _ _ _ tt w); [done|]. apply dassert_true.
      by rewrite Et, bool_decide_true by eauto.
  - rewrite (bind_val _ _ _ tt w) by done. rewrite IH. cbn. by rewrite Em.
Qed.
End WiringSteps.

(** * Properties *)

(** C24: whatever the pullers of an And condition report, the calls come to an
    end without a fault, the spans it passes on follow each other in time, and
    every tick and every end point of a span it passes on was reported by each
    of its pullers. *)
Theorem and_run_correct n l fuel bound :
  Forall (call_ok n bound) l -> 0 <= bound <= MAX_TIMETICK ->
  (Z.to_nat bound < fuel)%nat ->
  exists out ps' prev',
    Conditions.and_run fuel ((fun i => PD.make (Some i)) <$> seq 0 n) 0 l
      = Val (out, ps', prev')
    /\ in_order 0 out prev'
    /\ Forall (fun o => forall i, (i < n)%nat -> forall c x,
         in_span c (validity_start o) (validity_end o) x -> reported l i c x) out.
Proof.
  intros Hl Hb Hf.
  assert (Forall (fun p => exists i, p = PD.make (Some i))
    ((fun i => PD.make (Some i)) <$> seq 0 n)) as Hmk.
  { apply list.Forall_forall. intros p (i & -> & _)%list_elem_of_fmap. eauto. }
  assert (length ((fun i => PD.make (Some i)) <$> seq 0 n) = n) as Hlen
    by by rewrite length_fmap, length_seq.
  destruct (and_run_spec fuel l ((fun i => PD.make (Some i)) <$> seq 0 n) 0 [] bound)
    as (out & ps' & prev' & E & Ho & Hs); try done.
  - eapply list.Forall_impl; [exact Hmk|]. intros p (i & ->). apply make_wf.
  - by rewrite Hlen.
  - apply horizon_bound; [lia|]. eapply list.Forall_impl; [exact Hmk|].
    intros p (i & ->). cbn. lia.
  - intros i p Hp c x (h & rest & E & Hx).
    pose proof (Forall_lookup_1 _ _ _ _ Hmk Hp) as (j & ->). injection E as <- <-.
    apply Exists_cons in Hx as [Hx|Hx]; [|by inversion Hx].
    unfold in_span in Hx. cbn in Hx. destruct c; lia.
  - rewrite Hlen in Hs. exists out, ps', prev'. split_and!; [done|done|].
    eapply list.Forall_impl; [exact Hs|]. intros o Hx i Hi c x Hin.
    destruct (Hx i Hi c x Hin) as (t & Ht & ?). exists t. split; [|done].
    rewrite app_nil_r in Ht. by rewrite elem_of_reverse in Ht.
Qed.

Lemma and_run_correct_witness :
  exists out ps' prev',
    Conditions.and_run 25 [PD.make (Some 0%nat); PD.make (Some 1%nat)] 0
      [(mkTS 10 20, 0%nat); (mkTS 8 12, 1%nat); (mkTS 12 16, 1%nat)]
      = Val (out, ps', prev') /\ in_order 0 out prev'.
Proof.
  destruct (and_run_correct 2
    [(mkTS 10 20, 0%nat); (mkTS 8 12, 1%nat); (mkTS 12 16, 1%nat)] 25 20)
    as (out & ps' & prev' & E & Ho & _).
  - repeat constructor; cbn; lia || (unfold is_u32; lia).
  - unfold MAX_TIMETICK. lia.
  - vm_compute. lia.
  - exists out, ps', prev'. split; [exact E|exact Ho].
Defined.

(** C25: when each puller of an And condition reports spans without gaps, the
    condition passes on the whole of time up to the puller that is furthest
    behind: its spans tile the time line, and afterwards [previous_tick] is
    the smallest of the last reported ticks. *)
Theorem and_run_complete n l fuel bound :
  (0 < n)%nat -> gapless (replicate n 0) l ->
  Forall (call_ok n bound) l -> 0 <= bound <= MAX_TIMETICK ->
  (Z.to_nat bound < fuel)%nat ->
  exists out ps' prev',
    Conditions.and_run fuel (replicate n (PD.make None)) 0 l = Val (out, ps', prev')
    /\ tile 0 out prev'
    /\ prev' ∈ last_ends (replicate n 0) l
    /\ Forall (fun e => prev' <= e) (last_ends (replicate n 0) l).
Proof.
  intros Hn Hg Hl Hb Hf.
  assert (pd_end <$> replicate n (PD.make None) = replicate n 0) as He
    by by rewrite fmap_replicate.
  assert (forall P : PullerData -> Prop, P (PD.make None) ->
    Forall P (replicate n (PD.make None))) as Hrep.
  { intros P HP. by apply Forall_replicate. }
  destruct (and_run_gapless_spec fuel l (replicate n (PD.make None)) 0 bound)
    as (out & ps' & prev' & E & Ht & (_ & Hle & Hex) & Hends); try done.
  - apply Hrep, make_wf.
  - split_and!; [apply Hrep|apply Hrep; cbn; lia|].
    + eexists _, _. split; [reflexivity|]. cbn. split_and!; done.
    + apply list.Exists_exists. exists (PD.make None). split; [|done].
      apply list_elem_of_lookup. exists 0%nat. by apply lookup_replicate.
  - by rewrite He.
  - by rewrite length_replicate.
  - apply horizon_bound; [lia|]. apply Hrep. cbn. lia.
  - exists out, ps', prev'. rewrite He in Hends. rewrite <- Hends.
    split_and!; [done|done| |].
    + apply list.Exists_exists in Hex as (p & Hp & <-). by apply list_elem_of_fmap_2.
    + apply list.Forall_forall. intros e (p & -> & Hp)%list_elem_of_fmap.
      exact (in_Forall _ _ _ Hle Hp).
Qed.

Lemma and_run_complete_witness :
  exists out ps' prev',
    Conditions.and_run 25 (replicate 2 (PD.make None)) 0
      [(mkTS 0 10, 0%nat); (mkTS 0 4, 1%nat); (mkTS 4 8, 1%nat); (mkTS 10 20, 0%nat);
       (mkTS 8 12, 1%nat)] = Val (out, ps', prev') /\ tile 0 out prev'.
Proof.
  destruct (and_run_complete 2
    [(mkTS 0 10, 0%nat); (mkTS 0 4, 1%nat); (mkTS 4 8, 1%nat); (mkTS 10 20, 0%nat);
     (mkTS 8 12, 1%nat)] 25 20) as (out & ps' & prev' & E & Ho & _).
  - lia.
  - cbn. split_and!; lia || done.
  - repeat constructor; cbn; lia || (unfold is_u32; lia).
  - unfold MAX_TIMETICK. lia.
  - vm_compute. lia.
  - exists out, ps', prev'. split; [exact E|exact Ho].
Defined.

(** an Or condition passes on spans that follow each other in time, each
    the later part of a span that came in, and always gets up to the newest
    tick reported. *)
Theorem or_run_correct prev l :
  Forall ts_ok l ->
  exists out, Conditions.or_run prev l = (out, newest prev l)
    /\ in_order prev out (newest prev l)
    /\ Forall (fun o => exists t, t ∈ l /\ validity_end o = validity_end t
         /\ validity_start t <= validity_start o) out.
Proof. apply or_run_spec. Qed.

Lemma or_run_correct_witness :
  exists out, Conditions.or_run 0 [mkTS 10 20; mkTS 5 8; mkTS 15 30]
      = (out, 30) /\ in_order 0 out 30.
Proof.
  destruct (or_run_correct 0 [mkTS 10 20; mkTS 5 8; mkTS 15 30]) as (out & E & Ho & _).
  - repeat constructor; cbn; lia || (unfold is_u32; lia).
  - exists out. split; [exact E|exact Ho].
Defined.

(** two regular streams that start out of phase stall an And condition:
    once [previous_tick] has been moved past a puller's last span by a gap to
    a tick that is not on that puller's grid, no span of the same length that
    the pullers go on reporting tips the condition again.  The repeat branch
    of [newSpan] asks for a span ending exactly one span after
    [previous_tick]. *)
Theorem and_out_of_phase_stalls fuel l ps prev :
  Forall (fun p => misses prev p /\ is_Some (times p)) ps ->
  steady (tail_span <$> ps) (pd_end <$> ps) l ->
  exists ps', Conditions.and_run fuel ps prev l = Val ([], ps', prev).
Proof. apply and_run_stalls. Qed.

(** One puller reports (0,10), (10,20), ..., the other (13,23), (23,33), ... *)
Lemma and_out_of_phase_stalls_witness :
  exists ps ps',
    Conditions.and_run 10 [PD.make (Some 0%nat); PD.make (Some 1%nat)] 0
      [(mkTS 0 10, 0%nat); (mkTS 13 23, 1%nat)] = Val ([], ps, 13)
    /\ Conditions.and_run 10 ps 13
      [(mkTS 10 20, 0%nat); (mkTS 23 33, 1%nat); (mkTS 20 30, 0%nat);
       (mkTS 33 43, 1%nat); (mkTS 30 40, 0%nat); (mkTS 40 50, 0%nat)]
      = Val ([], ps', 13).
Proof.
  eexists. destruct (and_out_of_phase_stalls 10
      [(mkTS 10 20, 0%nat); (mkTS 23 33, 1%nat); (mkTS 20 30, 0%nat);
       (mkTS 33 43, 1%nat); (mkTS 30 40, 0%nat); (mkTS 40 50, 0%nat)]
      [mkPD (Some 0%nat) (Some (mkTL (mkTS 0 10) 10, []));
       mkPD (Some 1%nat) (Some (mkTL (mkTS 13 23) 23, []))] 13) as (ps' & E).
  - constructor; [|constructor; [|constructor]]; (split; [|by eexists]); unfold misses.
    + change (tail_span _) with 10; change (pd_end _) with 10. unfold is_u32.
      split_and!; [lia..|by right].
    + change (tail_span _) with 10; change (pd_end _) with 23. unfold is_u32.
      split_and!; [lia..|left; lia].
  - exists 10, 10; split_and!; [done..|unfold is_u32; lia|].
    exists 10, 23; split_and!; [done..|unfold is_u32; lia|].
    exists 10, 20; split_and!; [done..|unfold is_u32; lia|].
    exists 10, 33; split_and!; [done..|unfold is_u32; lia|].
    exists 10, 30; split_and!; [done..|unfold is_u32; lia|].
    exists 10, 40; split_and!; [done..|unfold is_u32; lia|done].
  - exists ps'. split; [vm_compute; reflexivity|exact E].
Defined.

(** An event of one puller that lies past the end of the span the other
    puller is at is lost, however much more that puller has reported already:
    nothing the And condition passes on, then or later, starts or ends at it
    or before it. *)
Theorem and_event_ahead_lost fuel l a h rest b hb prev x bound :
  times a = Some (h, rest) -> pd_wf a -> times b = Some (hb, []) -> pd_wf b ->
  endtime hb <= prev -> prev < tlend h -> tlend h < x -> 0 <= prev ->
  pd_end a <= bound -> x <= bound -> bound <= MAX_TIMETICK ->
  Forall (call_ok 2 bound) l -> (Z.to_nat bound < fuel)%nat ->
  exists out ps' prev',
    Conditions.and_run (S fuel) [a; b] prev ((mkTS x x, 1%nat) :: l) = Val (out, ps', prev')
    /\ Forall (fun o => x <= validity_start o /\ x < validity_end o) out.
Proof.
  intros Ea Hwa Eb Hwb H1 H2 H3 H4 H5 H6 H7 Hl Hf.
  cbn [Conditions.and_run]. rewrite (event_gap a h rest b hb) by (done || lia).
  set (b' := mkPD (puller b) (Some (new_TimingList (mkTS x x), []))).
  assert (ts_ok (mkTS x x)) as Hx.
  { unfold ts_ok, MAX_TIMETICK, is_u32 in *; cbn. lia. }
  assert (pd_wf b') as Hwb'.
  { eexists _, _. split; [reflexivity|]. split; [|by cbn].
    constructor; [|done]. by apply new_TimingList_wf. }
  assert (horizon [a; b'] <= bound) as Hh by (unfold horizon; cbn; lia).
  destruct (and_loop_spec fuel [a; b'] x) as (o1 & ps1 & prev1 & E1 & [] & _);
    [by repeat constructor|done|apply Hx|lia|lia|].
  rewrite E1. cbn [mbind outcome_bind].
  destruct (some_history ps1) as (hist & Hhist).
  destruct (and_run_spec (S fuel) l ps1 prev1 hist bound)
    as (o2 & ps2 & prev2 & E2 & Ho2 & _); try done; [by rewrite ar_len0| |lia|lia|].
  { by rewrite (horizon_ends _ _ ar_ends0). }
  rewrite E2. cbn [mbind outcome_bind]. eexists _, _, _. split; [reflexivity|].
  pose proof (in_order_app _ _ _ _ _ ar_order0 Ho2) as Hall.
  apply list.Forall_and. split; [|by eapply in_order_after].
  by eapply in_order_starts.
Qed.

Lemma and_event_ahead_lost_witness :
  exists out ps' prev',
    Conditions.and_run 51
      [mkPD (Some 0%nat) (Some (mkTL (mkTS 10 20) 30, []));
       mkPD (Some 1%nat) (Some (mkTL (mkTS 14 14) 14, []))] 14
      [(mkTS 27 27, 1%nat); (mkTS 30 40, 0%nat)] = Val (out, ps', prev')
    /\ Forall (fun o => 27 <= validity_start o /\ 27 < validity_end o) out.
Proof.
  apply (and_event_ahead_lost 50 [(mkTS 30 40, 0%nat)] _ (mkTL (mkTS 10 20) 30) []
    _ (mkTL (mkTS 14 14) 14) 14 27 40); try reflexivity; unfold MAX_TIMETICK; cbn; try lia.
  - eexists _, _. split; [reflexivity|]. split; [|by cbn].
    constructor; [|constructor]. unfold tl_wf, ts_ok, is_u32; cbn.
    split_and!; try lia. exists 1. lia.
  - eexists _, _. split; [reflexivity|]. split; [|by cbn].
    constructor; [|constructor]. unfold tl_wf, ts_ok, is_u32; cbn.
    split_and!; try lia. exists 0. lia.
  - repeat constructor; cbn; unfold is_u32; lia.
Defined.

(** The atoms [a] queued for node [this] lead to a slot for [this]. *)
Definition addressed (w : Net.World) (this : nat) (a : Net.TriggerAtom) : Prop :=
  exists t nt pd, Net.at_target a = Some t /\ Net.nodes w !! t = Some nt
    /\ 0 <= Net.at_id a
    /\ Net.pullers nt !! Z.to_nat (Net.at_id a) = Some pd /\ puller pd = Some this.

(** C26: in a graph built with [addTerm] and [setTrigger], and with any amount
    of triggering and passing of managers in between, a pull queues one atom
    for each managed target, in order, and each atom's number is the slot this
    puller has in that target. *)
Theorem pull_reaches_its_slot `{BuildConfig} mm fuel l w0 this ts n :
  let w := history mm fuel l w0 in
  wired w0 -> Net.nodes w !! this = Some n ->
  Forall (fun td => Net.td_manager td = None \/ is_Some (Net.td_target td))
    (Net.targets n) ->
  exists atoms, Net.pull this ts w
      = (Val tt, Net.mkWorld (Net.nodes w) (Net.triggerq w ++ atoms)
                   (Net.triggeredlevels w ∪ Net.activitylevels n))
    /\ length atoms = length (filter (fun td => is_Some (Net.td_manager td)) (Net.targets n))
    /\ Forall (fun a => Net.at_ts a = ts /\ addressed w this a) atoms.
Proof.
  intros w Hw En Hm.
  pose proof (history_wired mm fuel l w0 Hw) as Hw'. fold w in Hw'.
  destruct (pull_atoms this ts n w En Hm) as (atoms & -> & ->).
  eexists. split; [reflexivity|]. split.
  { clear. induction (Net.targets n) as [|td tds IH]; [done|].
    rewrite filter_cons. destruct (Net.td_manager td) as [m|] eqn:E.
    - rewrite decide_True by eauto. cbn. rewrite E. cbn. by rewrite IH.
    - rewrite decide_False by (by intros []). cbn. by rewrite E. }
  apply list.Forall_forall. intros a (td & Htd & Ha)%list_elem_of_omap.
  apply bind_Some in Ha as (m & Em & [= <-]). split; [done|]. cbn.
  pose proof (in_Forall _ _ _ Hm Htd) as [?|[t Et]]; [congruence|].
  destruct (Hw' this (view n).1 (view n).2 t (Net.td_id td))
    as (Hid & ts' & ps' & HV & Hps).
  { by rewrite (V_lookup _ _ _ En), <- surjective_pairing. }
  { unfold view. cbn. rewrite <- Et.
    by apply (list_elem_of_fmap_2 (fun td => (Net.td_target td, Net.td_id td))). }
  unfold V in HV. rewrite lookup_fmap in HV.
  apply fmap_Some in HV as (nt & Ent & [= -> ->]).
  rewrite list_lookup_fmap in Hps. apply fmap_Some in Hps as (pd & Epd & ?).
  exists t, nt, pd. cbn. split_and!; done.
Qed.

Definition example_net : Net.World :=
  let puller_node := Net.mkNode Net.PullerOnly [] ∅ None [] in
  Net.mkWorld
    {[ 0%nat := puller_node; 1%nat := puller_node; 4%nat := puller_node;
       2%nat := Net.mkNode (Net.ConditionAnd 0) [] ∅ None [];
       3%nat := Net.mkNode Net.TargetOnly [] ∅ (Some (Net.mkAM 0 1)) [] ]} [] ∅.

Lemma unlinked_wired w :
  map_Forall (fun _ n => length (Net.targets n) = 0%nat) (Net.nodes w) -> wired w.
Proof.
  intros Hl p ts ps t id Hp Hin. exfalso. unfold V in Hp. rewrite lookup_fmap in Hp.
  apply fmap_Some in Hp as (n & En & [= -> ->]). apply Hl in En. cbn in En.
  apply nil_length_inv in En. rewrite En in Hin. by apply not_elem_of_nil in Hin.
Qed.

Lemma example_net_wired : wired example_net.
Proof. apply unlinked_wired. apply (bool_decide_unpack _). by vm_compute. Qed.

(** Two pullers into an And condition, which triggers an activity. *)
Definition example_build : list op :=
  [AddTerm true 2 0; AddTerm true 2 1; SetTrigger 3 2].

Lemma pull_reaches_its_slot_witness :
  let w := history (H := test_config) 10 5 example_build example_net in
  exists atoms, fst (Net.pull (H := test_config) 1 (mkTS 0 10) w) = Val tt
    /\ length atoms = 1%nat
    /\ Forall (fun a => Net.at_ts a = mkTS 0 10 /\ addressed w 1 a) atoms.
Proof.
  destruct (Net.nodes (history (H := test_config) 10 5 example_build example_net)
    !! 1%nat) as [n|] eqn:En; [|vm_compute in En; discriminate].
  destruct (@pull_reaches_its_slot test_config 10 5 example_build example_net 1 (mkTS 0 10) n)
    as (atoms & E & Hl & Ha).
  - exact example_net_wired.
  - exact En.
  - vm_compute in En. injection En as <-. constructor; [|constructor].
    right. by eexists.
  - exists atoms. rewrite E. split; [done|]. split; [|exact Ha]. rewrite Hl.
    vm_compute in En. by injection En as <-.
Defined.

(** taking a term other than the last out of a condition leaves the last
    remaining slot with the time list of the destroyed element, and the terms
    behind the removed one keep numbers that are one too high: the next
    report of the last term lands outside the vector, and a report for the
    last slot reads freed memory. *)
Theorem removeTerm_dangling `{BuildConfig} fuel w this n prev p i pd w' ts :
  Net.nodes w !! this = Some n -> Net.kind n = Net.ConditionAnd prev ->
  list_find (fun pd => puller pd = Some p) (Net.pullers n) = Some (i, pd) ->
  (S i < length (Net.pullers n))%nat -> p <> this ->
  Net.removeTerm this p w = (Val true, w') ->
  let l := length (Net.pullers n) in
  fst (Net.trigger fuel this ts (l - 2) w') = Stuck DanglingDeref
  /\ fst (Net.trigger fuel this ts (l - 1) w') = Stuck OutOfBounds.
Proof.
  intros En Hk Hfind Hi Hne Hr l.
  assert (exists n', Net.nodes w' !! this = Some n' /\ Net.kind n' = Net.kind n
    /\ Net.pullers n' = Net.erase i (Net.pullers n)) as (n' & En' & Hk' & Hp').
  { revert Hr. unfold Net.removeTerm, mbind at 1, M_bind at 1. unfold Net.node at 1.
    rewrite En, Hfind. unfold mbind at 1, M_bind at 1.
    destruct (Net.removeTarget p this w) as [r1 w1] eqn:Et.
    assert (Net.nodes w1 !! this = Some n) as En1.
    { revert Et. unfold Net.removeTarget, mbind, M_bind, Net.node.
      destruct (Net.nodes w !! p); [|by intros [= _ <-]].
      destruct (Net.find_target _ _).
      - intros [= _ <-]. cbn. by rewrite lookup_alter_ne.
      - unfold dassert. destruct (_ && _); by intros [= _ <-]. }
    destruct r1 as [[]|e|f]; [|done..]. intros [= <-].
    eexists. cbn. rewrite lookup_alter_eq, En1. split; [reflexivity|done]. }
  assert (length (delete i (Net.pullers n)) = (l - 1)%nat) as Hlen.
  { rewrite length_delete; [done|]. apply lookup_lt_is_Some_2. lia. }
  assert (forall idx, fst (Net.trigger fuel this ts idx w') =
    match Conditions.and_trigger fuel (Net.pullers n') prev ts idx with
    | Stuck f => Stuck f | _ => fst (Net.trigger fuel this ts idx w') end) as Hrun.
  { intros idx. unfold Net.trigger, mbind, M_bind, Net.node. rewrite En', Hk', Hk.
    destruct (Conditions.and_trigger _ _ _ _ _); done. }
  unfold Net.erase in Hp'. rewrite bool_decide_true in Hp' by done.
  rewrite Hlen in Hp'. split; rewrite Hrun; unfold Conditions.and_trigger.
  - rewrite Hp'. replace (Nat.pred (l - 1)) with (l - 2)%nat by lia.
    rewrite list_lookup_alter_eq.
    destruct (lookup_lt_is_Some_2 (delete i (Net.pullers n)) (l - 2)) as (q & ->);
      [lia|done].
  - rewrite Hp'. rewrite lookup_ge_None_2; [done|]. rewrite length_alter. lia.
Qed.

Lemma removeTerm_dangling_witness :
  let w := history (H := test_config) 10 5 example_build example_net in
  let w' := snd (Net.removeTerm (H := test_config) 2 0 w) in
  fst (Net.trigger (H := test_config) 10 2 (mkTS 0 10) 0 w') = Stuck DanglingDeref
  /\ fst (Net.trigger (H := test_config) 10 2 (mkTS 0 10) 1 w') = Stuck OutOfBounds.
Proof.
  destruct (Net.nodes (history (H := test_config) 10 5 example_build example_net)
    !! 2%nat) as [n|] eqn:En; [|vm_compute in En; discriminate].
  pose proof En as En2. vm_compute in En2. injection En2 as <-.
  pose proof (fun prev p i pd w' => removeTerm_dangling (H := test_config) 10 _ 2 _
    prev p i pd w' (mkTS 0 10) En) as Hx.
  eapply (Hx 0 0%nat 0%nat); try (vm_compute; reflexivity); cbn; lia || done.
Defined.
