(* ===== verification/Regulators.v ===== *)
(** Time driven triggering: [dueca/TriggerRegulator.cxx],
    [dueca/TriggerRegulatorGreedy.cxx], [dueca/PeriodicAlarm.cxx] and
    [dueca/AperiodicAlarm.cxx].

    Each [trigger] returns the spans pulled, in order, and the new state; how
    a pull reaches the targets is [Trigger.Net.pull].  The advance loops run
    on fuel. *)

From Stdlib Require Import Sorted.
From S2P Require Import Prelude TimeSpec Trigger.
#[local] Open Scope Z_scope.

(** ** TriggerRegulator and TriggerRegulatorGreedy *)

(** Both classes hold the same members. *)
Record TriggerRegulator := mkReg {
  ts : PeriodicTimeSpec; prev_end : Z; new_ts : option TimeSpec
}.

Module REG.
Section WithBuild.
Context `{BuildConfig}.

(** The constructor; [PeriodicTimeSpec ts] is made from a [TimeSpec]. *)
Definition make (t : TimeSpec) : TriggerRegulator := mkReg (PTS.of_ts t) 0 None.

Definition changePeriodAndOffset (r : TriggerRegulator) (t : TimeSpec)
    : outcome (bool * TriggerRegulator) :=
  match new_ts r with
  | Some _ => Val (false, r)
  | None => d ← DTS.of_ts t; Val (true, mkReg (ts r) (prev_end r) (Some d))
  end.

Definition setPeriodAndOffset (r : TriggerRegulator) (t : TimeSpec) : TriggerRegulator :=
  mkReg (PTS.of_ts t) (prev_end r) (new_ts r).

(** The start of the new time span. *)
Definition newstart (p : PeriodicTimeSpec) (n : TimeSpec) : outcome Z :=
  let per := DTS.getValiditySpan n in
  if per =? 0 then Stuck DivByZero
  else Val (u32 (u32 (1 + u32 (u32 (pend p - 1) - validity_start n) / per) * per)).

(** The switch to the time specification in [n].  [wait] is the test on the
    incoming span that postpones it; the result tells whether the switch was
    made, the patch span and the new specification. *)
Definition switch (wait : Z -> bool) (p : PeriodicTimeSpec) (n : TimeSpec)
    : outcome (bool * list TimeSpec * PeriodicTimeSpec) :=
  let per := DTS.getValiditySpan n in
  if validity_start n <? pend p then
    ns ← newstart p n;
    if pend p <? ns then
      if wait ns then Val (false, [], p)
      else
        p' ← PTS.make (u32 (ns - per)) per;
        Val (true, [mkTS (pend p) ns], p')
    else
      p' ← PTS.make (u32 (ns - per)) per;
      Val (true, [], p')
  else
    t ← TS.of_data n;
    Val (true, [], PTS.of_ts t).

(** [while (ts.advance(t.getValidityEnd())) pull(ts)], with the advance as an
    argument; the pull converts to a [DataTimeSpec]. *)
Fixpoint advance_loop (fuel : nat)
    (adv : PeriodicTimeSpec -> bool * PeriodicTimeSpec) (p : PeriodicTimeSpec)
    : outcome (list TimeSpec * PeriodicTimeSpec) :=
  match fuel with
  | O => Stuck OutOfFuel
  | S fuel =>
      let '(more, p) := adv p in
      if more : bool then
        d ← DTS.of_ts (pts p);
        '(out, p) ← advance_loop fuel adv p;
        Val (d :: out, p)
      else Val ([], p)
  end.

(** The jump over a gap in the incoming triggering; [late] tells whether the
    short span is passed on. *)
Definition jump_gap (late : PeriodicTimeSpec -> bool) (p : PeriodicTimeSpec) (t : TimeSpec)
    : outcome (list TimeSpec * PeriodicTimeSpec) :=
  '(_, p) ← PTS.forceAdvance p (u32 (validity_start t - TS.getValiditySpan (pts p)));
  Val (if late p then [mkTS (validity_start t) (pend p)] else [], p).

Definition trigger_with (fuel : nat) (wait : Z -> bool)
    (late : PeriodicTimeSpec -> bool)
    (adv : PeriodicTimeSpec -> bool * PeriodicTimeSpec)
    (r : TriggerRegulator) (t : TimeSpec)
    : outcome (list TimeSpec * TriggerRegulator) :=
  '(go, o1, p, n) ←
    (match new_ts r with
     | None => Val (true, [], ts r, None)
     | Some n =>
         '(done, o, p) ← switch wait (ts r) n;
         Val (done, o, p, if done : bool then None else Some n)
     end);
  if negb go then Val (o1, mkReg p (validity_end t) n)
  else
    '(o2, p) ← (if prev_end r <? validity_start t then jump_gap late p t else Val ([], p));
    '(o3, p) ← advance_loop fuel adv p;
    Val (o1 ++ o2 ++ o3, mkReg p (validity_end t) n).

(** [TriggerRegulator::trigger] *)
Definition trigger (fuel : nat) (r : TriggerRegulator) (t : TimeSpec)
    : outcome (list TimeSpec * TriggerRegulator) :=
  trigger_with fuel (fun ns => validity_end t <? ns)
    (fun p => pend p <? validity_start t)
    (fun p => PTS.advance_tick p (validity_end t)) r t.

(** [TriggerRegulatorGreedy::trigger] *)
Definition trigger_greedy (fuel : nat) (r : TriggerRegulator) (t : TimeSpec)
    : outcome (list TimeSpec * TriggerRegulator) :=
  trigger_with fuel (fun ns => validity_start t <=? ns)
    (fun p => pend p <? validity_end t)
    (fun p => PTS.greedyAdvance p t) r t.

End WithBuild.
End REG.

(** ** PeriodicAlarm *)

Record ModifyAlarm := mkMA { ma_offset : Z; ma_period : Z }.

Record PeriodicAlarm := mkPA { pspec : PeriodicTimeSpec; new_period : list ModifyAlarm }.

Module PA.
Section WithBuild.
Context `{BuildConfig}.

(** The constructor; [now] is [SimTime::getTimeTick()]. *)
Definition make (t : TimeSpec) (now : Z) : outcome PeriodicAlarm :=
  '(_, p) ← PTS.forceAdvance (PTS.of_ts t) now; Val (mkPA p []).

Definition make_clock (increment now : Z) : outcome PeriodicAlarm :=
  p ← PTS.make 0 increment;
  '(_, p) ← PTS.forceAdvance p now; Val (mkPA p []).

Definition changePeriod (a : PeriodicAlarm) (interval : Z) : PeriodicAlarm :=
  mkPA (pspec a) (new_period a ++ [mkMA MAX_TIMETICK interval]).

Definition changePeriodAndOffset (a : PeriodicAlarm) (t : TimeSpec) : PeriodicAlarm :=
  mkPA (pspec a) (new_period a ++ [mkMA (validity_start t) (TS.getValiditySpan t)]).

(** The body of [if (new_period.notEmpty())]; [None] is the early return. *)
Definition pick_up (p : PeriodicTimeSpec) (m : ModifyAlarm) (rest : list ModifyAlarm)
    : outcome (option PeriodicAlarm) :=
  let span := TS.getValiditySpan (pts p) in
  if span =? 0 then Stuck DivByZero
  else
    let current_offset := pstart p mod span in
    let new_offset := if ma_offset m =? MAX_TIMETICK then current_offset else ma_offset m in
    let new_span := ma_period m in
    if pstart p <? new_offset then Val None
    else if new_span =? 0 then Stuck DivByZero
    else
      let remaining := u32 (pstart p - new_offset) mod new_span in
      if remaining / span =? 0 then
        Val (Some (mkPA (PTS.slideAdvance (PTS.setPeriod p new_span) (remaining mod span)) rest))
      else Val (Some (mkPA p (m :: rest))).

Fixpoint trigger (fuel : nat) (a : PeriodicAlarm) (t : TimeSpec)
    : outcome (list TimeSpec * PeriodicAlarm) :=
  match fuel with
  | O => Stuck OutOfFuel
  | S fuel =>
      let '(more, p) := PTS.greedyAdvance (pspec a) t in
      if more : bool then
        d ← DTS.of_ts (pts p);
        next ← (match new_period a with
                | [] => Val (Some (mkPA p []))
                | m :: rest => pick_up p m rest
                end);
        match next with
        | None => Val ([d], mkPA p (new_period a))
        | Some a => '(out, a) ← trigger fuel a t; Val (d :: out, a)
        end
      else Val ([], a)
  end.

End WithBuild.
End PA.

(** ** AperiodicAlarm *)

Record AperiodicAlarm := mkAA { ticks : list Z; newest_tick : Z }.

Module AA.

Definition make : AperiodicAlarm := mkAA [] 0.

Definition requestAlarm (a : AperiodicAlarm) (time : Z) : bool * AperiodicAlarm :=
  if newest_tick a <? time then (true, mkAA (ticks a ++ [time]) time)
  else (false, a).

Definition requestAlarm_next (a : AperiodicAlarm) : AperiodicAlarm :=
  let n := u32 (newest_tick a + 1) in mkAA (ticks a ++ [n]) n.

(** The [while] loop pops from the front. *)
Fixpoint sound (l : list Z) (start : Z) : list TimeSpec * list Z :=
  match l with
  | [] => ([], [])
  | x :: l' =>
      if x <=? start then let '(out, r) := sound l' start in (mkTS x x :: out, r)
      else ([], l)
  end.

Definition trigger (a : AperiodicAlarm) (t : TimeSpec) : list TimeSpec * AperiodicAlarm :=
  let '(out, l) := sound (ticks a) (validity_start t) in (out, mkAA l (newest_tick a)).

End AA.

(** The documented example: the regulator is said to deliver (150,160),
    (160,180), (180,200). *)
Example regulator_doc :
  REG.trigger (H := test_config) 20 (REG.make (mkTS 0 20)) (mkTS 150 200)
  = Val ([mkTS 150 140; mkTS 140 160; mkTS 160 180; mkTS 180 200],
         mkReg (mkPTS (mkTS 180 200) 20) 200 None).
Proof. reflexivity. Qed.

(** * Lemmas *)

(** An advance that moves one period on while the end, [k] ticks further, is
    still within [e]. *)
Definition advances (k e : Z) (adv : PeriodicTimeSpec -> bool * PeriodicTimeSpec) : Prop :=
  forall p, pts_ok p -> is_u32 (pend p + period p) ->
    (pend p + k <= e /\ adv p = (true, PTS.step p))
    \/ (e < pend p + k /\ adv p = (false, p)).

Lemma advance_tick_advances per e :
  forall p, pts_ok p -> period p = per -> is_u32 (pend p + period p) ->
    (pend p + per <= e /\ PTS.advance_tick p e = (true, PTS.step p))
    \/ (e < pend p + per /\ PTS.advance_tick p e = (false, p)).
Proof.
  intros p Hp <- Hu. unfold PTS.advance_tick. rewrite u32_id by done.
  destruct (Z.leb_spec (pend p + period p) e); [left|right]; split; try done.
Qed.

Lemma greedyAdvance_advances t :
  forall p, (pend p + 1 <= validity_end t /\ PTS.greedyAdvance p t = (true, PTS.step p))
    \/ (validity_end t < pend p + 1 /\ PTS.greedyAdvance p t = (false, p)).
Proof.
  intros p. unfold PTS.greedyAdvance.
  destruct (Z.ltb_spec (pend p) (validity_end t)); [left|right]; split; try done; lia.
Qed.

(** Spans of the given length. *)
Definition regular (per : Z) (out : list TimeSpec) : Prop :=
  Forall (fun o => validity_end o = validity_start o + per) out.

Section Loop.
Context `{BuildConfig}.

Lemma of_ts_ok t : ts_ok t -> DTS.of_ts t = Val t.
Proof.
  intros (_ & _ & Hle). unfold DTS.of_ts. rewrite passert_true by lia.
  by destruct t.
Qed.

Lemma pts_ts_ok p : pts_ok p -> ts_ok (pts p).
Proof. intros (?&?&?&?). unfold ts_ok, is_u32 in *. lia. Qed.

Lemma advance_loop_spec per k e adv fuel p :
  1 <= k <= per ->
  (forall p, pts_ok p -> period p = per -> is_u32 (pend p + period p) ->
    (pend p + k <= e /\ adv p = (true, PTS.step p))
    \/ (e < pend p + k /\ adv p = (false, p))) ->
  pts_ok p -> period p = per -> is_u32 (pend p + per) -> is_u32 (e + per + per) ->
  (Z.to_nat (e - pend p) < fuel)%nat ->
  exists out p', REG.advance_loop fuel adv p = Val (out, p')
    /\ pts_ok p' /\ period p' = per /\ tile (pend p) out (pend p')
    /\ regular per out /\ e < pend p' + k
    /\ (pend p' = pend p \/ pend p' <= e + per - k).
Proof.
  intros Hk Hadv. revert p. induction fuel as [|fuel IH]; intros p Hp Hper Hu He Hf; [lia|].
  cbn [REG.advance_loop].
  assert (is_u32 (pend p + period p)) as Hu' by by rewrite Hper.
  destruct (Hadv p Hp Hper Hu') as [[Hle ->]|[Hlt ->]].
  2:{ exists [], p. split_and!; try done; [by constructor|by left]. }
  destruct (step_ok p Hp Hu') as (Hp' & Hs' & Hper' & He').
  rewrite of_ts_ok by by apply pts_ts_ok. cbn [mbind outcome_bind].
  destruct (IH (PTS.step p)) as (out & p' & -> & Hok & Hpr & Ht & Hr & Hlt & Hb);
    [done|congruence|unfold is_u32 in *; lia|done|rewrite He', Hper; lia|].
  cbn [mbind outcome_bind]. exists (pts (PTS.step p) :: out), p'.
  split_and!; try done.
  - cbn [tile]. rewrite Hs', He'. rewrite He' in Ht. split_and!; try done. lia.
  - constructor; [|done]. rewrite Hs', He', Hper. done.
  - right. destruct Hb as [->|?]; lia.
Qed.

(** The trigger bodies when no change is pending and there is no gap. *)
Lemma trigger_with_spec per k wait late adv fuel r t :
  1 <= k <= per ->
  (forall p, pts_ok p -> period p = per -> is_u32 (pend p + period p) ->
    (pend p + k <= validity_end t /\ adv p = (true, PTS.step p))
    \/ (validity_end t < pend p + k /\ adv p = (false, p))) ->
  pts_ok (ts r) -> period (ts r) = per -> new_ts r = None ->
  validity_start t <= prev_end r ->
  is_u32 (pend (ts r) + per) -> is_u32 (validity_end t + per + per) ->
  (Z.to_nat (validity_end t - pend (ts r)) < fuel)%nat ->
  exists out p', REG.trigger_with fuel wait late adv r t
      = Val (out, mkReg p' (validity_end t) None)
    /\ pts_ok p' /\ period p' = per /\ tile (pend (ts r)) out (pend p')
    /\ regular per out /\ validity_end t < pend p' + k
    /\ (pend p' = pend (ts r) \/ pend p' <= validity_end t + per - k).
Proof.
  intros Hk Hadv Hp Hper Hn Hg Hu He Hf. unfold REG.trigger_with. rewrite Hn.
  cbn [mbind outcome_bind negb].
  destruct (Z.ltb_spec (prev_end r) (validity_start t)); [lia|]. cbn [mbind outcome_bind].
  destruct (advance_loop_spec per k (validity_end t) adv fuel (ts r) Hk Hadv Hp Hper Hu He Hf)
    as (out & p' & -> & ?). by exists out, p'.
Qed.

(** After a jump over a gap the specification ends at or before the incoming
    span, on the grid. *)
Lemma jump_gap_spec late p t :
  pts_ok p -> period p < 2147483648 -> is_u32 (validity_start t + period p) ->
  pend p <= validity_start t < pstart p + 2147483648 ->
  exists p', REG.jump_gap late p t
      = Val (if late p' then [mkTS (validity_start t) (pend p')] else [], p')
    /\ pts_ok p' /\ period p' = period p
    /\ validity_start t - period p < pend p' <= validity_start t
    /\ (pend p' - pend p) mod period p = 0.
Proof.
  intros Hp Hb Hu Ht. unfold REG.jump_gap. pose proof Hp as (Hs & Hper & He & Hpu).
  assert (TS.getValiditySpan (pts p) = period p) as ->.
  { unfold TS.getValiditySpan. rewrite He, u32_id; unfold is_u32 in *; lia. }
  rewrite u32_id by (unfold is_u32 in *; lia).
  destruct (forceAdvance_jump p (validity_start t - period p))
    as (p' & -> & Hok & Hpr & Hst); [done|done|unfold is_u32 in *; lia|lia
    |unfold is_u32 in *; lia|].
  cbn [mbind outcome_bind]. exists p'. split_and!; try done.
  - destruct Hok as (_ & _ & -> & _). rewrite Hpr, Hst.
    pose proof (Z.div_mod (validity_start t - period p - pstart p) (period p) ltac:(lia)).
    pose proof (Z.mod_pos_bound (validity_start t - period p - pstart p) (period p) Hper).
    lia.
  - destruct Hok as (_ & _ & -> & _). rewrite Hpr, Hst.
    pose proof (Z.div_mod (validity_start t - period p - pstart p) (period p) ltac:(lia)).
    pose proof (Z.mod_pos_bound (validity_start t - period p - pstart p) (period p) Hper).
    lia.
  - destruct Hok as (_ & _ & -> & _). rewrite Hpr, Hst, He.
    replace (_ - _) with ((validity_start t - period p - pstart p) / period p * period p)
      by lia. apply Z_mod_mult.
Qed.
End Loop.

(** * Properties *)

(** without gaps in the incoming triggering a regulator passes on time as
    spans of exactly its period that tile the time line from where it was.
    The plain regulator waits until the incoming triggering covers a period,
    the greedy one passes a period on as soon as it is touched. *)
Theorem regulator_regular `{BuildConfig} fuel r t :
  pts_ok (ts r) -> new_ts r = None -> validity_start t <= prev_end r ->
  is_u32 (pend (ts r) + period (ts r)) ->
  is_u32 (validity_end t + period (ts r) + period (ts r)) ->
  (Z.to_nat (validity_end t - pend (ts r)) < fuel)%nat ->
  (exists out p', REG.trigger fuel r t = Val (out, mkReg p' (validity_end t) None)
    /\ pts_ok p' /\ period p' = period (ts r)
    /\ tile (pend (ts r)) out (pend p') /\ regular (period (ts r)) out
    /\ validity_end t < pend p' + period (ts r)
    /\ pend p' <= Z.max (pend (ts r)) (validity_end t))
  /\ (exists out p', REG.trigger_greedy fuel r t = Val (out, mkReg p' (validity_end t) None)
    /\ pts_ok p' /\ period p' = period (ts r)
    /\ tile (pend (ts r)) out (pend p') /\ regular (period (ts r)) out
    /\ validity_end t <= pend p'
    /\ pend p' < Z.max (pend (ts r) + 1) (validity_end t + period (ts r))).
Proof.
  intros Hp Hn Hg Hu He Hf. pose proof Hp as (_ & Hper & _). split.
  - destruct (trigger_with_spec (period (ts r)) (period (ts r))
      (fun ns => validity_end t <? ns) (fun p => pend p <? validity_start t)
      (fun p => PTS.advance_tick p (validity_end t)) fuel r t)
      as (out & p' & E & ? & ? & ? & ? & ? & Hb); try done; [lia| |].
    + intros p. apply advance_tick_advances.
    + exists out, p'. split_and!; try done. lia.
  - destruct (trigger_with_spec (period (ts r)) 1
      (fun ns => validity_start t <=? ns) (fun p => pend p <? validity_end t)
      (fun p => PTS.greedyAdvance p t) fuel r t)
      as (out & p' & E & ? & ? & ? & ? & ? & Hb); try done; [lia| |].
    + intros p _ _ _. apply greedyAdvance_advances.
    + exists out, p'. split_and!; try done; lia.
Qed.

Lemma regulator_regular_witness :
  exists out p', REG.trigger (H := test_config) 60
      (mkReg (mkPTS (mkTS 140 160) 20) 150 None) (mkTS 150 205)
      = Val (out, mkReg p' 205 None) /\ tile 160 out (pend p') /\ regular 20 out.
Proof.
  destruct (regulator_regular (H := test_config) 60
      (mkReg (mkPTS (mkTS 140 160) 20) 150 None) (mkTS 150 205)) as [(out & p' & E & _ & _ & Ht & Hr & _) _].
  - unfold pts_ok, is_u32; cbn. lia.
  - reflexivity.
  - cbn; lia.
  - unfold is_u32; cbn; lia.
  - unfold is_u32; cbn; lia.
  - vm_compute. lia.
  - exists out, p'. split; [exact E|]. split; [exact Ht|exact Hr].
Defined.

Lemma advance_loop_first `{BuildConfig} fuel adv p out p' :
  (forall p, adv p = (true, PTS.step p) \/ adv p = (false, p)) ->
  pts_ok p -> is_u32 (pend p + period p) ->
  REG.advance_loop fuel adv p = Val (out, p') ->
  forall o rest, out = o :: rest -> validity_start o = pend p.
Proof.
  intros Hadv Hp Hu. destruct fuel as [|fuel]; cbn [REG.advance_loop]; [done|].
  destruct (Hadv p) as [->| ->]; [|by intros [= <- _]].
  destruct (step_ok p Hp Hu) as (Hp' & Hs' & _ & _).
  rewrite of_ts_ok by by apply pts_ts_ok. cbn [mbind outcome_bind].
  destruct (REG.advance_loop fuel adv (PTS.step p)) as [[o2 p2]|e|f]; [|done..].
  cbn [mbind outcome_bind]. intros [= <- _] o rest [= <- _]. done.
Qed.

Lemma trigger_with_gap `{BuildConfig} wait late adv fuel r t out r' :
  (forall p, adv p = (true, PTS.step p) \/ adv p = (false, p)) ->
  (forall p, pend p < validity_start t -> late p = true) ->
  pts_ok (ts r) -> period (ts r) < 2147483648 -> new_ts r = None ->
  prev_end r < validity_start t ->
  is_u32 (validity_start t + period (ts r) + period (ts r)) ->
  pend (ts r) <= validity_start t < pstart (ts r) + 2147483648 ->
  (validity_start t - pend (ts r)) mod period (ts r) <> 0 ->
  REG.trigger_with fuel wait late adv r t = Val (out, r') ->
  exists o rest, out = o :: rest /\ validity_start o = validity_start t
    /\ validity_end o < validity_start o
    /\ forall o2 rest2, rest = o2 :: rest2 -> validity_start o2 = validity_end o.
Proof.
  intros Hadv Hlate Hp Hb Hn Hg Hu Ht Hm. unfold REG.trigger_with. rewrite Hn.
  cbn [mbind outcome_bind negb]. pose proof Hp as (Hps & Hper & Hpe & Hpu).
  destruct (Z.ltb_spec (prev_end r) (validity_start t)); [|lia].
  destruct (jump_gap_spec late (ts r) t) as (p & -> & Hok & Hpr & Hbd & Hmod);
    [done|done|unfold is_u32 in *; lia|done|].
  assert (pend p <> validity_start t) as Hne.
  { intros E. rewrite E in Hmod. done. }
  rewrite Hlate by lia. cbn [mbind outcome_bind].
  destruct (REG.advance_loop fuel adv p) as [[o3 p3]|e|f] eqn:El; [|done..].
  cbn [mbind outcome_bind]. intros [= <- _]. eexists _, _.
  split; [reflexivity|]. cbn. split_and!; [done|lia|].
  intros o2 rest2 ->. eapply advance_loop_first; [exact Hadv|exact Hok| |exact El|done].
  rewrite Hpr. unfold is_u32 in *. destruct Hok as (?&?&?&?). lia.
Qed.

(** After a gap in the incoming triggering a regulator does not pass on
    the short span up to its grid: unless the gap ends on the grid, the first
    span it pulls starts where the gap ends and ends before that, and the span
    after it starts at that earlier tick, inside the gap. *)
Theorem regulator_gap_inverted `{BuildConfig} fuel r t out r' :
  pts_ok (ts r) -> period (ts r) < 2147483648 -> new_ts r = None ->
  prev_end r < validity_start t -> validity_start t < validity_end t ->
  is_u32 (validity_start t + period (ts r) + period (ts r)) ->
  pend (ts r) <= validity_start t < pstart (ts r) + 2147483648 ->
  (validity_start t - pend (ts r)) mod period (ts r) <> 0 ->
  REG.trigger fuel r t = Val (out, r') \/ REG.trigger_greedy fuel r t = Val (out, r') ->
  exists o rest, out = o :: rest /\ validity_start o = validity_start t
    /\ validity_end o < validity_start o
    /\ forall o2 rest2, rest = o2 :: rest2 -> validity_start o2 = validity_end o.
Proof.
  intros Hp Hb Hn Hg Ht Hu Hr Hm [Hx|Hx];
    (eapply trigger_with_gap; [| |exact Hp|exact Hb|exact Hn|exact Hg|exact Hu
      |exact Hr|exact Hm|exact Hx]); intros p.
  - unfold PTS.advance_tick. case_match; auto.
  - intros. by apply Z.ltb_lt.
  - unfold PTS.greedyAdvance. case_match; auto.
  - intros. apply Z.ltb_lt. lia.
Qed.

Lemma regulator_gap_inverted_witness :
  REG.trigger (H := test_config) 20 (REG.make (mkTS 0 20)) (mkTS 150 200)
    = Val ([mkTS 150 140; mkTS 140 160; mkTS 160 180; mkTS 180 200],
           mkReg (mkPTS (mkTS 180 200) 20) 200 None)
  /\ exists o rest, [mkTS 150 140; mkTS 140 160; mkTS 160 180; mkTS 180 200] = o :: rest
     /\ validity_end o < validity_start o.
Proof.
  split; [reflexivity|].
  destruct (regulator_gap_inverted (H := test_config) 20
    (mkReg (mkPTS (mkTS 0 20) 20) 0 None) (mkTS 150 200)
    [mkTS 150 140; mkTS 140 160; mkTS 160 180; mkTS 180 200]
    (mkReg (mkPTS (mkTS 180 200) 20) 200 None)) as (o & rest & E & _ & Ho & _);
    try (unfold pts_ok, is_u32; cbn; lia).
  - reflexivity.
  - cbn. discriminate.
  - left. reflexivity.
  - exists o, rest. split; [exact E|exact Ho].
Defined.

(** the switch to a new period leaves the offset of the new specification
    out of the new start: with an offset of at least one period the regulator
    goes back in time and pulls spans that it has pulled before. *)
Theorem regulator_change_goes_back `{BuildConfig} fuel r t n :
  pts_ok (ts r) -> new_ts r = Some n -> ts_ok n ->
  let per := validity_end n - validity_start n in
  0 < per <= validity_start n -> validity_start n < pend (ts r) ->
  validity_start t <= prev_end r ->
  pend (ts r) + per <= validity_end t -> is_u32 (validity_end t + per + per) ->
  (Z.to_nat (validity_end t) < fuel)%nat ->
  exists o rest r', REG.trigger fuel r t = Val (o :: rest, r')
    /\ validity_start o < pend (ts r) /\ validity_end o = validity_start o + per.
Proof.
  intros Hp Hn Hnok per Hper Hst Hg Ht Hu Hf. pose proof Hp as (Hs & Hpp & He & Hpu).
  unfold REG.trigger, REG.trigger_with. rewrite Hn. unfold REG.switch.
  rewrite (span_ok n Hnok). fold per.
  destruct (Z.ltb_spec (validity_start n) (pend (ts r))); [|lia].
  unfold REG.newstart. rewrite (span_ok n Hnok). fold per.
  destruct (Z.eqb_spec per 0); [lia|].
  set (q := (pend (ts r) - 1 - validity_start n) / per).
  assert (0 <= q * per <= pend (ts r) - 1 - validity_start n) as Hq.
  { unfold q. pose proof (Z.div_pos (pend (ts r) - 1 - validity_start n) per).
    pose proof (Z.mul_div_le (pend (ts r) - 1 - validity_start n) per). nia. }
  assert (0 <= q) as Hq0 by nia.
  assert (q <= pend (ts r) - 1 - validity_start n) as Hq1 by nia.
  rewrite (u32_id (pend (ts r) - 1)) by (unfold is_u32 in *; lia).
  rewrite (u32_id (pend (ts r) - 1 - validity_start n)) by (unfold is_u32 in *; lia).
  fold q. rewrite (u32_id (1 + q)) by (unfold is_u32 in *; lia).
  rewrite (u32_id ((1 + q) * per)) by (unfold is_u32 in *; lia).
  cbn [mbind outcome_bind]. set (ns := (1 + q) * per).
  assert (per <= ns < pend (ts r)) as Hns by (unfold ns; lia).
  destruct (Z.ltb_spec (pend (ts r)) ns); [lia|].
  unfold PTS.make, TS.make. rewrite (u32_id (ns - per)) by (unfold is_u32 in *; lia).
  replace (ns - per + per) with ns by lia. rewrite (u32_id ns) by (unfold is_u32 in *; lia).
  rewrite passert_true by lia. cbn [mbind outcome_bind negb].
  destruct (Z.ltb_spec (prev_end r) (validity_start t)); [lia|]. cbn [mbind outcome_bind].
  assert (pts_ok (mkPTS (mkTS (ns - per) ns) per)) as Hok.
  { unfold pts_ok, is_u32 in *; cbn. lia. }
  destruct (advance_loop_spec per per (validity_end t)
    (fun p => PTS.advance_tick p (validity_end t)) fuel (mkPTS (mkTS (ns - per) ns) per))
    as (out & p' & -> & Hok' & Hpr' & Htile & Hreg & Hlt & _);
    [lia|intros; by apply advance_tick_advances|done|done
    |unfold is_u32 in *; cbn; lia|done|cbn; lia|].
  cbn [mbind outcome_bind]. cbn in Htile.
  destruct out as [|o rest]; [cbn in Htile; lia|].
  destruct Htile as (Ho & _). inversion_clear Hreg as [|? ? Hoe _].
  exists o, rest. eexists. split; [reflexivity|]. split; [lia|done].
Qed.

(** At tick 30 the period is changed to 10 with offset 25. *)
Lemma regulator_change_goes_back_witness :
  exists o rest r', REG.trigger (H := test_config) 50
      (mkReg (mkPTS (mkTS 10 30) 20) 30 (Some (mkTS 25 35))) (mkTS 30 40)
      = Val (o :: rest, r') /\ validity_start o < 30.
Proof.
  destruct (regulator_change_goes_back (H := test_config) 50
      (mkReg (mkPTS (mkTS 10 30) 20) 30 (Some (mkTS 25 35))) (mkTS 30 40) (mkTS 25 35))
    as (o & rest & r' & E & Ho & _);
    try (unfold pts_ok, ts_ok, is_u32; cbn; lia); try reflexivity.
  exists o, rest, r'. split; [exact E|exact Ho].
Defined.

Lemma alarm_steps `{BuildConfig} fuel p t :
  pts_ok p -> is_u32 (pend p + period p) ->
  is_u32 (validity_end t + period p + period p) ->
  (Z.to_nat (validity_end t - pend p) < fuel)%nat ->
  exists out p', PA.trigger fuel (mkPA p []) t = Val (out, mkPA p' [])
    /\ pts_ok p' /\ period p' = period p /\ tile (pend p) out (pend p')
    /\ regular (period p) out /\ validity_end t <= pend p'
    /\ (pend p' = pend p \/ pend p' < validity_end t + period p).
Proof.
  revert p. induction fuel as [|fuel IH]; intros p Hp Hu He Hf; [lia|].
  cbn [PA.trigger pspec new_period].
  destruct (greedyAdvance_advances t p) as [[Hle ->]|[Hlt ->]].
  2:{ exists [], p. split_and!; try done; [by constructor|lia|by left]. }
  destruct (step_ok p Hp Hu) as (Hp' & Hs' & Hper' & He').
  rewrite of_ts_ok by by apply pts_ts_ok. cbn [mbind outcome_bind].
  destruct (IH (PTS.step p)) as (out & p' & -> & Hok & Hpr & Ht & Hr & Hlt & Hb);
    [done|rewrite He', Hper'; unfold is_u32 in *; destruct Hp as (?&?&?&?); lia
    |by rewrite Hper'|rewrite He'; destruct Hp as (?&?&?&?); lia|].
  cbn [mbind outcome_bind]. exists (pts (PTS.step p) :: out), p'.
  rewrite He' in *. rewrite Hper' in *.
  split_and!; try done.
  - cbn [tile]. rewrite Hs', He'. split_and!; try done. destruct Hp as (?&?&?&?); lia.
  - constructor; [|done]. by rewrite Hs', He'.
  - right. destruct Hb as [->|?]; destruct Hp as (?&?&?&?); lia.
Qed.

(** with no change pending a periodic alarm delivers spans of its period
    that tile the time line, far enough to cover the incoming time and no
    further than the period that does. *)
Theorem alarm_periodic `{BuildConfig} fuel p t :
  pts_ok p -> is_u32 (pend p + period p) ->
  is_u32 (validity_end t + period p + period p) ->
  (Z.to_nat (validity_end t - pend p) < fuel)%nat ->
  exists out p', PA.trigger fuel (mkPA p []) t = Val (out, mkPA p' [])
    /\ pts_ok p' /\ period p' = period p /\ tile (pend p) out (pend p')
    /\ regular (period p) out /\ validity_end t <= pend p'
    /\ (pend p' = pend p \/ pend p' < validity_end t + period p).
Proof. apply alarm_steps. Qed.

Lemma alarm_periodic_witness :
  exists out p', PA.trigger (H := test_config) 60 (mkPA (mkPTS (mkTS 5 15) 10) []) (mkTS 40 50)
      = Val (out, mkPA p' []) /\ tile 15 out (pend p') /\ regular 10 out.
Proof.
  destruct (alarm_periodic (H := test_config) 60 (mkPTS (mkTS 5 15) 10) (mkTS 40 50))
    as (out & p' & E & _ & _ & Ht & Hr & _);
    try (unfold pts_ok, is_u32; cbn; lia).
  exists out, p'. split; [exact E|]. split; [exact Ht|exact Hr].
Defined.

(** When a periodic alarm switches to a new period, the phase it continues
    with is the requested offset plus twice the ticks that had passed since
    the last point of the new grid: [remaining] counts those ticks, not the
    ones still to go, so the requested offset is met only if it is zero or
    half the new period. *)
Theorem alarm_change_phase `{BuildConfig} p m rest p' :
  pts_ok p -> is_u32 (ma_offset m) -> ma_offset m <> MAX_TIMETICK ->
  0 < ma_period m -> is_u32 (pend p + pend p + ma_period m + ma_period m) ->
  PA.pick_up p m rest = Val (Some (mkPA p' rest)) -> period p' = ma_period m ->
  let passed := (pstart p - ma_offset m) mod ma_period m in
  passed < period p -> 
  pstart (PTS.step p') = pstart p + passed + ma_period m
  /\ (pstart (PTS.step p') - ma_offset m) mod ma_period m = (2 * passed) mod ma_period m.
Proof.
  intros Hp Ho Hne Hm Hu. pose proof Hp as (Hs & Hper & He & Hpu).
  unfold PA.pick_up.
  assert (TS.getValiditySpan (pts p) = period p) as ->.
  { unfold TS.getValiditySpan. rewrite He, u32_id; unfold is_u32 in *; lia. }
  destruct (Z.eqb_spec (period p) 0); [lia|].
  destruct (Z.eqb_spec (ma_offset m) MAX_TIMETICK); [done|].
  destruct (Z.ltb_spec (pstart p) (ma_offset m)); [done|].
  destruct (Z.eqb_spec (ma_period m) 0); [lia|].
  rewrite (u32_id (pstart p - ma_offset m)) by (unfold is_u32 in *; lia).
  cbn zeta. set (r := (pstart p - ma_offset m) mod ma_period m).
  pose proof (Z.mod_pos_bound (pstart p - ma_offset m) (ma_period m) Hm) as Hr. fold r in Hr.
  intros E Hper' Hlt. rewrite (Z.div_small r) in E by lia.
  rewrite (Z.mod_small r) in E by lia. cbn in E. injection E as <-.
  assert (pstart (PTS.step (PTS.slideAdvance (PTS.setPeriod p (ma_period m)) r))
    = pstart p + r + ma_period m) as ->.
  { unfold PTS.step, PTS.slideAdvance, PTS.setPeriod. cbn.
    rewrite u32_add_l, u32_id; unfold is_u32 in *; lia. }
  split; [done|].
  replace (pstart p + r + ma_period m - ma_offset m)
    with ((pstart p - ma_offset m) + r + 1 * ma_period m) by lia.
  rewrite Z_mod_plus_full, <- Zplus_mod_idemp_l. fold r. f_equal. lia.
Qed.

(** Period 10, offset 5, changed to period 20, offset 0: the alarm goes on at
    70, 90, ... *)
Lemma alarm_change_phase_witness :
  exists p', PA.pick_up (mkPTS (mkTS 45 55) 10) (mkMA 0 20) [] = Val (Some (mkPA p' []))
    /\ pstart (PTS.step p') = 70 /\ (pstart (PTS.step p') - 0) mod 20 = 10.
Proof.
  exists (mkPTS (mkTS 50 60) 20). split; [reflexivity|].
  apply (alarm_change_phase (H := test_config) (mkPTS (mkTS 45 55) 10) (mkMA 0 20) []);
    try (unfold pts_ok, is_u32; cbn; lia); try reflexivity.
  cbn. discriminate.
Defined.

(** ** Alarms at requested ticks *)

(** The pending ticks increase, up to the newest one. *)
Definition alarms_ok (a : AperiodicAlarm) : Prop :=
  Sorted Z.lt (ticks a) /\ Forall (fun x => x <= newest_tick a) (ticks a)
  /\ is_u32 (newest_tick a).

Lemma Sorted_snoc l x :
  Sorted Z.lt l -> Forall (fun y => y < x) l -> Sorted Z.lt (l ++ [x]).
Proof.
  induction 1 as [|a l Hs IH Hd]; intros HF; cbn; [by repeat constructor|].
  inversion_clear HF as [|? ? Ha Hl]. constructor; [auto|].
  destruct l as [|b l]; cbn; constructor; [done|by inversion Hd].
Qed.

Lemma filter_keeps (P : Z -> Prop) start l :
  Forall P l -> Forall P (filter (fun x => start < x) l).
Proof.
  induction 1 as [|x l Hx Hl IH]; [by constructor|]. rewrite filter_cons.
  case_decide; [by constructor|done].
Qed.

Lemma filter_sorted start l :
  Sorted Z.lt l -> Sorted Z.lt (filter (fun x => start < x) l).
Proof.
  intros Hs. apply StronglySorted_Sorted.
  apply Sorted_StronglySorted in Hs; [|intros ???; lia].
  induction Hs as [|x l Hs IH Hx]; [by constructor|].
  rewrite filter_cons. case_decide; [|done]. constructor; [done|].
  by apply filter_keeps.
Qed.

Lemma sound_spec l start :
  Sorted Z.lt l ->
  AA.sound l start = ((fun x => mkTS x x) <$> filter (fun x => x <= start) l,
                      filter (fun x => start < x) l).
Proof.
  intros Hl. apply Sorted_StronglySorted in Hl; [|intros ???; lia].
  induction Hl as [|x l Hs IH Hx]; [done|]. cbn [AA.sound]. rewrite !filter_cons.
  destruct (Z.leb_spec x start).
  - rewrite IH, decide_True, decide_False by lia. done.
  - rewrite decide_False, decide_True by lia.
    assert (filter (fun x => x <= start) l = []) as ->.
    { clear IH Hs. induction Hx as [|y l Hy Hl IH]; [done|].
      rewrite filter_cons, decide_False by lia. done. }
    assert (filter (fun x => start < x) l = l) as ->; [|done].
    { clear IH Hs. induction Hx as [|y l Hy Hl IH]; [done|].
      rewrite filter_cons, decide_True by lia. by rewrite IH. }
Qed.

(** an aperiodic alarm takes requests for ever later ticks only, and a
    trigger at some time delivers, in order and once, exactly the requested
    ticks that are due, and keeps the others. *)
Theorem aperiodic_alarms a time t :
  alarms_ok a -> is_u32 time ->
  (fst (AA.requestAlarm a time) = bool_decide (newest_tick a < time))
  /\ ticks (snd (AA.requestAlarm a time))
     = ticks a ++ (if bool_decide (newest_tick a < time) then [time] else [])
  /\ alarms_ok (snd (AA.requestAlarm a time))
  /\ (is_u32 (newest_tick a + 1) -> alarms_ok (AA.requestAlarm_next a)
      /\ ticks (AA.requestAlarm_next a) = ticks a ++ [newest_tick a + 1])
  /\ AA.trigger a t
     = ((fun x => mkTS x x) <$> filter (fun x => x <= validity_start t) (ticks a),
        mkAA (filter (fun x => validity_start t < x) (ticks a)) (newest_tick a))
  /\ alarms_ok (snd (AA.trigger a t)).
Proof.
  intros (Hs & HF & Hu) Ht.
  assert (forall x, newest_tick a < x -> is_u32 x ->
    alarms_ok (mkAA (ticks a ++ [x]) x)) as Hpush.
  { intros x Hx Hux. split_and!; cbn; [|apply Forall_app; split|done].
    - apply Sorted_snoc; [done|]. eapply list.Forall_impl; [exact HF|]. cbn. lia.
    - eapply list.Forall_impl; [exact HF|]. cbn. lia.
    - by repeat constructor. }
  assert (AA.trigger a t
     = ((fun x => mkTS x x) <$> filter (fun x => x <= validity_start t) (ticks a),
        mkAA (filter (fun x => validity_start t < x) (ticks a)) (newest_tick a))) as Etr.
  { unfold AA.trigger. by rewrite sound_spec. }
  assert (alarms_ok a) as Hok by done.
  refine (conj _ (conj _ (conj _ (conj _ (conj Etr _))))).
  - unfold AA.requestAlarm. destruct (Z.ltb_spec (newest_tick a) time);
      [by rewrite bool_decide_true|by rewrite bool_decide_false by lia].
  - unfold AA.requestAlarm. destruct (Z.ltb_spec (newest_tick a) time);
      [by rewrite bool_decide_true|by rewrite bool_decide_false, app_nil_r by lia].
  - unfold AA.requestAlarm. destruct (Z.ltb_spec (newest_tick a) time); [by apply Hpush|done].
  - intros Hn. unfold AA.requestAlarm_next. cbn zeta. rewrite u32_id by done.
    split; [apply Hpush; [lia|done]|done].
  - rewrite Etr. cbn [snd]. split_and!; cbn;
      [by apply filter_sorted|by apply filter_keeps|done].
Qed.

Lemma aperiodic_alarms_witness :
  AA.trigger (mkAA [10; 25; 40] 40) (mkTS 25 30) = ([mkTS 10 10; mkTS 25 25], mkAA [40] 40).
Proof.
  destruct (aperiodic_alarms (mkAA [10; 25; 40] 40) 50 (mkTS 25 30))
    as (_ & _ & _ & _ & E & _).
  - split_and!; [repeat constructor; lia|repeat constructor; cbn; lia|].
    unfold is_u32; cbn; lia.
  - unfold is_u32; lia.
  - rewrite E. reflexivity.
Defined.
