(* ===== verification/Activity.v ===== *)
(** Activities: [dueca/Activity.hxx]/[.cxx] and
    [dueca/CriticalActivity.hxx]/[.cxx], the state machines that decide when a
    module's callback runs.

    What a callback does to its own activity is a list of calls, and whether it
    ends in an exception; the theorems hold for any such behaviour.  The record
    [log] keeps what was run, which the code does not have.  Timing checks
    ([TimingCheck]) are left out. *)

From S2P Require Import Prelude.
From S2P Require Import TimeSpec.
From S2P Require Import Trigger.
#[local] Open Scope Z_scope.

(** The build option [GREEDY_PERIODIC]. *)
Class ActivityConfig := { GREEDY_PERIODIC : bool }.

Lemma tile_snoc a l1 t l2 c :
  tile a (l1 ++ t :: l2) c ->
  tile a (l1 ++ [t]) (validity_end t) /\ tile (validity_end t) l2 c.
Proof.
  revert a. induction l1 as [|o l1 IH]; intros a; cbn.
  - by intros (?&?&?).
  - intros (?&?&[? ?]%IH). done.
Qed.

(** * Activity *)

Module Act.

Inductive RunState :=
  | Off | Last | Ready | Braking | Running
  | ReadyWork | FirstWork | RunningWork | BrakingWork | LastWork.

#[export] Instance RunState_eq_dec : EqDecision RunState.
Proof. solve_decision. Defined.

(** The order of the enumeration. *)
Definition rank (s : RunState) : Z :=
  match s with
  | Off => 0 | Last => 1 | Ready => 2 | Braking => 3 | Running => 4
  | ReadyWork => 5 | FirstWork => 6 | RunningWork => 7 | BrakingWork => 8 | LastWork => 9
  end.

Record Activity := mk {
  order : Z;
  run_state : RunState;
  switch_on : Z;
  switch_off : Z;
  time_spec : option PeriodicTimeSpec;
  no_schedules : Z;
  no_despatches : Z
}.

Definition make (order : Z) : Activity := mk order Off MAX_TIMETICK 0 None 0 0.

Definition set_run_state (s : RunState) (a : Activity) : Activity :=
  mk (order a) s (switch_on a) (switch_off a) (time_spec a) (no_schedules a) (no_despatches a).
Definition set_on (t : Z) (a : Activity) : Activity :=
  mk (order a) (run_state a) t (switch_off a) (time_spec a) (no_schedules a) (no_despatches a).
Definition set_off (t : Z) (a : Activity) : Activity :=
  mk (order a) (run_state a) (switch_on a) t (time_spec a) (no_schedules a) (no_despatches a).
Definition set_time_spec (p : option PeriodicTimeSpec) (a : Activity) : Activity :=
  mk (order a) (run_state a) (switch_on a) (switch_off a) p (no_schedules a) (no_despatches a).
Definition set_counts (s d : Z) (a : Activity) : Activity :=
  mk (order a) (run_state a) (switch_on a) (switch_off a) (time_spec a) s d.

Definition isInRunPeriod (a : Activity) (ts : TimeSpec) : bool :=
  (switch_on a <? switch_off a) && (validity_start ts <? switch_off a)
  && ((switch_on a <? validity_end ts)
      || ((DTS.getValiditySpan ts =? 0) && (switch_on a <=? validity_end ts))).

Definition trimToRunPeriod (a : Activity) (ts : TimeSpec) : TimeSpec :=
  mkTS (if switch_on a <? validity_start ts then validity_start ts else switch_on a)
    (if validity_end ts <? switch_off a then validity_end ts else switch_off a).

Definition firstCycle (a : Activity) : bool := bool_decide (run_state a = Ready).
Definition lastCycle (a : Activity) : bool := bool_decide (run_state a = Last).
Definition isBraking (a : Activity) : bool := bool_decide (run_state a = Braking).
Definition numScheduledBehind (a : Activity) : Z := no_schedules a - no_despatches a.

Section Act.
Context {BC : BuildConfig} {AC : ActivityConfig}.

Definition switchOn (t : Z) : M Activity unit :=
  a ← get;
  (match time_spec a with
   | Some p =>
       if period p <=? t then
         match PTS.forceAdvance p (u32 (t - period p)) with
         | Val (_, p) => put (set_on (pstart p) (set_time_spec (Some p) a))
         | Exn e => throw e
         | Stuck f => stuck f
         end
       else put (set_on t a)
   | None => put (set_on t a)
   end) ;;
  modify (fun a => set_run_state Ready (set_off MAX_TIMETICK a)).

Definition switchOff (t : Z) : M Activity unit :=
  modify (fun a => set_run_state Braking (set_off t a)).

Definition setTimeSpec (ts : TimeSpec) : M Activity unit := fun a =>
  match PTS.make (validity_start ts) (TS.getValiditySpan ts) with
  | Val p => (Val tt, set_time_spec (Some p) a)
  | Exn e => (Exn e, a)
  | Stuck f => (Stuck f, a)
  end.

(** [trigger]; [schedule] is [my_manager->schedule(this, ...)]. *)
Section Trigger.
Context {Q : Type} (schedule : TimeSpec -> M (Activity * Q) unit).

Definition advance (p : PeriodicTimeSpec) (t : TimeSpec) : bool * PeriodicTimeSpec :=
  if GREEDY_PERIODIC then PTS.greedyAdvance p t else PTS.advance_data p t.

Fixpoint schedule_periods (fuel : nat) (tsched : TimeSpec) : M (Activity * Q) unit :=
  s ← get;
  match time_spec (fst s) with
  | None => stuck NullDeref
  | Some p =>
      let '(b, p) := advance p tsched in
      if b then
        match fuel with
        | O => stuck OutOfFuel
        | S fuel =>
            modify (fun s => (set_time_spec (Some p) (fst s), snd s)) ;;
            match DTS.of_ts (pts p) with
            | Val t => schedule t ;; schedule_periods fuel tsched
            | Exn e => throw e
            | Stuck f => stuck f
            end
        end
      else mret tt
  end.

Definition trigger (fuel : nat) (t : TimeSpec) : M (Activity * Q) unit :=
  s ← get;
  let a := fst s in
  if (rank Running <=? rank (run_state a))
     || ((rank Ready <=? rank (run_state a)) && isInRunPeriod a t)
  then
    let tsched := trimToRunPeriod a t in
    match time_spec a with
    | None => schedule tsched
    | Some _ => schedule_periods fuel tsched
    end
  else mret tt.
End Trigger.

(** ** ActivityCallback *)

(** The calls a callback can make on its activity. *)
Inductive Call :=
  | SwitchOn (t : Z)
  | SwitchOff (t : Z)
  | SetTimeSpec (ts : TimeSpec).

Definition call (c : Call) : M Activity unit :=
  match c with
  | SwitchOn t => switchOn t
  | SwitchOff t => switchOff t
  | SetTimeSpec ts => setTimeSpec ts
  end.
Fixpoint calls (l : list Call) : M Activity unit :=
  match l with [] => mret tt | c :: l => call c ;; calls l end.

(** What an activation does: its calls, and whether it throws. *)
Record Behaviour := mkBehaviour { bh_calls : list Call; bh_throws : bool }.

(** The end of [ActivityCallback::despatch]: the callback in its [try]. *)
Definition run_callback (f : TimeSpec -> Behaviour) (t : TimeSpec)
    : M Activity (option (TimeSpec * bool)) :=
  a ← get;
  if validity_end t <=? switch_off a then
    calls (bh_calls (f t)) ;;
    (if bh_throws (f t) then switchOff 0
     else a ← get;
          if decide (run_state a = Ready) then modify (set_run_state Running) else mret tt) ;;
    mret (Some (t, lastCycle a))
  else mret None.

(** Its [case Braking], and what follows. *)
Definition brake (f : TimeSpec -> Behaviour) (t : TimeSpec)
    : M Activity (option (TimeSpec * bool)) :=
  a ← get;
  when (switch_off a <=? validity_end t) (modify (set_run_state Last)) ;;
  run_callback f t.

(** [ActivityCallback::despatch]; the result is the span the callback ran with,
    and whether that was marked as the last cycle. *)
Definition despatch (f : TimeSpec -> Behaviour) (t : TimeSpec)
    : M Activity (option (TimeSpec * bool)) :=
  a ← get;
  match run_state a with
  | Off | Last => mret None
  | Ready => if (validity_start t <? switch_on a) && (validity_end t <=? switch_on a)
             then mret None else brake f t
  | Braking => brake f t
  | _ => run_callback f t
  end.
End Act.
End Act.

(** * CriticalActivity *)

Module CA.
Export Act.

(** What the model records: the calls of the two callbacks, and of the owner's
    [setSafetyStop]. *)
Inductive Event :=
  | Safe (t : TimeSpec)
  | Work (t : TimeSpec)
  | SafetyStop.

#[export] Instance Event_eq_dec : EqDecision Event.
Proof. solve_decision. Defined.

(** A [CriticalActivity] with the static [node_safe] of its node. *)
Record CriticalActivity := mkCA {
  base : Activity;
  work_on : Z;
  work_off : Z;
  stopped_by_error : bool;
  node_safe : bool;
  log : list Event
}.

Definition make (order : Z) : CriticalActivity :=
  mkCA (Act.make order) MAX_TIMETICK 0 false true [].

Abbreviation state s := (run_state (base s)).

Definition set_base (a : Activity) (s : CriticalActivity) : CriticalActivity :=
  mkCA a (work_on s) (work_off s) (stopped_by_error s) (node_safe s) (log s).
Definition set_state (r : RunState) (s : CriticalActivity) : CriticalActivity :=
  set_base (set_run_state r (base s)) s.
Definition set_work_on (t : Z) (s : CriticalActivity) : CriticalActivity :=
  mkCA (base s) t (work_off s) (stopped_by_error s) (node_safe s) (log s).
Definition set_work_off (t : Z) (s : CriticalActivity) : CriticalActivity :=
  mkCA (base s) (work_on s) t (stopped_by_error s) (node_safe s) (log s).
Definition set_stopped (b : bool) (s : CriticalActivity) : CriticalActivity :=
  mkCA (base s) (work_on s) (work_off s) b (node_safe s) (log s).
Definition set_node_safe (b : bool) (s : CriticalActivity) : CriticalActivity :=
  mkCA (base s) (work_on s) (work_off s) (stopped_by_error s) b (log s).
Definition add_log (e : Event) (s : CriticalActivity) : CriticalActivity :=
  mkCA (base s) (work_on s) (work_off s) (stopped_by_error s) (node_safe s) (log s ++ [e]).

Definition isWorking (s : CriticalActivity) : bool :=
  node_safe s && (rank FirstWork <=? rank (state s)).
Definition trimToWorkPeriod (s : CriticalActivity) (ts : TimeSpec) : TimeSpec :=
  mkTS (if work_on s <? validity_start ts then validity_start ts else work_on s)
    (if validity_end ts <? work_off s then validity_end ts else work_off s).
Definition stoppedByError (s : CriticalActivity) : bool :=
  stopped_by_error s || negb (node_safe s).
Definition firstWorkCycle (s : CriticalActivity) : bool :=
  bool_decide (state s = FirstWork).
Definition lastWorkCycle (s : CriticalActivity) : bool :=
  bool_decide (state s = LastWork).

Section Critical.
Context {BC : BuildConfig}.

Abbreviation W := CriticalActivity.

(** The methods inherited from [Activity]. *)
Definition on_base {A} (m : M Activity A) : M W A := fun s =>
  let '(o, a) := m (base s) in (o, set_base a s).

Definition setSafetyStop : M W unit := modify (add_log SafetyStop).

(** Back to the safe mode; an activity that is off stays off. *)
Definition force_safe : M W unit :=
  s ← get;
  if rank Running <? rank (state s) then modify (set_state Running)
  else if decide (state s = Ready) then modify (set_state Off)
  else mret tt.

Definition readyForWork : M W unit := modify (set_state Running).

Definition switchWork (time : TimeSpec) : M W unit :=
  s ← get;
  if negb (bool_decide (state s = Running)) then mret tt
  else if negb (stopped_by_error s) then
    modify (set_work_on (validity_start time)) ;;
    modify (set_work_off MAX_TIMETICK) ;;
    modify (set_state ReadyWork)
  else setSafetyStop.

(** The test on [ReadyWork] only issues a warning. *)
Definition switchSafe (time : TimeSpec) : M W unit :=
  s ← get;
  if negb (stopped_by_error s) then
    modify (set_work_off (validity_start time)) ;;
    modify (set_state BrakingWork)
  else mret tt.

Definition criticalError : M W unit :=
  s ← get;
  if negb (stopped_by_error s) then
    setSafetyStop ;;
    modify (set_stopped true) ;;
    setSafetyStop ;;
    force_safe
  else mret tt.

Definition criticalErrorNodeWide : M W bool :=
  s ← get;
  if node_safe s then modify (set_node_safe false) ;; mret true else mret false.

Definition resetErrorCondition : M W unit := modify (set_stopped false).

Inductive Call :=
  | Base (c : Act.Call)
  | ReadyForWork
  | SwitchWork (t : TimeSpec)
  | SwitchSafe (t : TimeSpec)
  | CriticalError
  | CriticalErrorNodeWide
  | ResetErrorCondition.

Definition call (c : Call) : M W unit :=
  match c with
  | Base c => on_base (Act.call c)
  | ReadyForWork => readyForWork
  | SwitchWork t => switchWork t
  | SwitchSafe t => switchSafe t
  | CriticalError => criticalError
  | CriticalErrorNodeWide => criticalErrorNodeWide ;; mret tt
  | ResetErrorCondition => resetErrorCondition
  end.
Fixpoint calls (l : list Call) : M W unit :=
  match l with [] => mret tt | c :: l => call c ;; calls l end.

Record Behaviour := mkBehaviour { bh_calls : list Call; bh_throws : bool }.

(** A callback that leaves its activity alone. *)
Definition idle (t : TimeSpec) : Behaviour := mkBehaviour [] false.

(** A callback inside a [try]; the result tells whether it threw. *)
Definition invoke (ev : TimeSpec -> Event) (f : TimeSpec -> Behaviour)
    (t : TimeSpec) : M W bool :=
  modify (add_log (ev t)) ;; calls (bh_calls (f t)) ;; mret (bh_throws (f t)).

Definition timespec (a b : Z) : M W TimeSpec := fun s =>
  match TS.make a b with
  | Val t => (Val t, s)
  | Exn e => (Exn e, s)
  | Stuck f => (Stuck f, s)
  end.

Section Despatch.
Context (fsafe fwork : TimeSpec -> Behaviour).

(** The reaction to a node-wide error. *)
Definition node_error : M W unit :=
  s ← get;
  when (negb (node_safe s) && negb (stopped_by_error s))
    (modify (set_stopped true) ;; setSafetyStop ;; force_safe).

(** The [switch]; [false] is its return. *)
Definition enter (t : TimeSpec) : M W bool :=
  s ← get;
  let brake :=
    when (switch_off (base s) <=? validity_end t) (modify (set_state Last)) ;;
    mret true in
  match state s with
  | Off | Last => modify (set_state Off) ;; mret false
  | Ready =>
      if (validity_start t <? switch_on (base s))
         && (validity_end t <=? switch_on (base s)) then mret false
      else brake
  | Braking => brake
  | ReadyWork =>
      when ((work_on s <=? validity_start t) || (work_on s <? validity_end t))
        (modify (set_state FirstWork)) ;; mret true
  | BrakingWork =>
      when (work_off s <=? validity_end t) (modify (set_state LastWork)) ;;
      mret true
  | _ => mret true
  end.

Definition safe_cycle (t : TimeSpec) : M W unit :=
  threw ← invoke Safe fsafe t;
  if (threw : bool) then modify (set_node_safe false)
  else s ← get;
       if decide (state s = Ready) then modify (set_state Running) else mret tt.

Definition work_cycle (t : TimeSpec) : M W unit :=
  threw ← invoke Work fwork t;
  if (threw : bool) then criticalError
  else s ← get;
       if decide (state s = LastWork) then modify (set_state Running) else mret tt.

Definition first_work (t : TimeSpec) : M W unit :=
  threw ← invoke Work fwork t;
  if (threw : bool) then criticalError else modify (set_state RunningWork).

Definition first_cycle (t : TimeSpec) : M W unit :=
  s ← get;
  dassert (bool_decide (state s = FirstWork)) ;;
  if validity_start t <? work_on s then
    t1 ← timespec (validity_start t) (work_on s);
    threw ← invoke Safe fsafe t1;
    if (threw : bool) then modify (set_node_safe false)
    else s ← get;
         t2 ← timespec (work_on s) (validity_end t);
         first_work t2
  else first_work t.

Definition despatch (t : TimeSpec) : M W unit :=
  node_error ;;
  go ← enter t;
  if (go : bool) then
    s ← get;
    if rank (state s) <? rank FirstWork then safe_cycle t
    else if rank FirstWork <? rank (state s) then work_cycle t
    else first_cycle t
  else mret tt.
End Despatch.

(** What happens to the activity: it is despatched, or the module (or another
    activity of the node) makes a call outside of its callbacks. *)
Inductive Op :=
  | Despatch (fsafe fwork : TimeSpec -> Behaviour) (t : TimeSpec)
  | Outside (c : Call).

Definition exec (o : Op) : M W unit :=
  match o with
  | Despatch fs fw t => despatch fs fw t
  | Outside c => call c
  end.
Fixpoint run (l : list Op) : M W unit :=
  match l with [] => mret tt | o :: l => exec o ;; run l end.

(** ** Staying in the safe mode *)

(** The spans the work callback was called with. *)
Definition works (l : list Event) : list TimeSpec :=
  omap (fun e => match e with Work t => Some t | _ => None end) l.

Lemma works_app l1 l2 : works (l1 ++ l2) = works l1 ++ works l2.
Proof. apply omap_app. Qed.
Lemma works_stop l : works (l ++ [SafetyStop]) = works l.
Proof. rewrite works_app. apply app_nil_r. Qed.
#[local] Arguments works : simpl never.

(** An activity stopped by an error is not in a working state. *)
Definition sound (s : W) : Prop :=
  stopped_by_error s = true -> rank (state s) <= rank Running.

(** The calls without the one that lifts the error condition. *)
Definition no_reset_call (c : Call) : Prop := c <> ResetErrorCondition.
Definition no_reset_behaviour (f : TimeSpec -> Behaviour) : Prop :=
  forall t, Forall no_reset_call (bh_calls (f t)).
Definition no_reset (o : Op) : Prop :=
  match o with
  | Despatch fs fw t => no_reset_behaviour fs
  | Outside c => no_reset_call c
  end.

(** In the safe mode for good: either the node is no longer safe, or the
    activity was stopped and ([keep]) nothing will lift that. *)
Definition held (keep : bool) (s : W) : Prop :=
  sound s /\ if keep then stopped_by_error s = true else node_safe s = false.

Definition allowed (keep : bool) (l : list Call) : Prop :=
  keep = true -> Forall no_reset_call l.

Lemma on_base_same {A} (m : M Activity A) s o s' :
  on_base m s = (o, s') ->
  exists a, m (base s) = (o, a) /\ s' = set_base a s.
Proof. unfold on_base. destruct (m (base s)). intros [= <- <-]. eauto. Qed.

Lemma base_call_rank c a o a' :
  Act.call c a = (o, a') ->
  run_state a' = run_state a \/ rank (run_state a') <= rank Running.
Proof.
  destruct c; cbn [Act.call]; unfold switchOn, switchOff, setTimeSpec; mrun;
    repeat case_match; intros; simplify_eq/=; auto; right; cbn; lia.
Qed.

Lemma call_sound c s o s' :
  sound s -> call c s = (o, s') -> sound s' /\ works (log s') = works (log s).
Proof.
  intros Hs. destruct c; cbn [call].
  - intros (a & E & ->)%on_base_same. cbn. split; [|done].
    destruct (base_call_rank _ _ _ _ E) as [Er|?]; unfold sound; cbn; [|done].
    by rewrite Er.
  - unfold readyForWork, sound. mrun. intros [= <- <-]. cbn. split; [lia|done].
  - unfold switchWork, setSafetyStop, sound in *. mrun.
    repeat case_match; intros; simplify_eq/=; rewrite ?works_stop; auto.
    split; [|done]. intros. by destruct (stopped_by_error _).
  - unfold switchSafe, sound in *. mrun.
    repeat case_match; intros; simplify_eq/=; auto.
    split; [|done]. intros. by destruct (stopped_by_error _).
  - unfold criticalError, force_safe, setSafetyStop, sound in *. mrun.
    repeat case_match; intros; simplify_eq/=; rewrite ?works_stop; auto; split; try done; intros; try lia.
  - unfold criticalErrorNodeWide, sound in *. mrun.
    repeat case_match; intros; simplify_eq/=; auto.
  - unfold resetErrorCondition, sound. mrun. intros [= <- <-]. by cbn.
Qed.

Lemma call_held keep c s o s' :
  held keep s -> (keep = true -> no_reset_call c) -> call c s = (o, s') ->
  held keep s' /\ works (log s') = works (log s).
Proof.
  intros [Hs Hk] Hc E. destruct (call_sound _ _ _ _ Hs E) as [Hs' Hw].
  split; [split; [done|]|done]. destruct c; cbn [call] in E.
  - apply on_base_same in E as (a & _ & ->). by destruct keep.
  - unfold readyForWork in E. revert E. mrun. intros [= <- <-]. by destruct keep.
  - unfold switchWork, setSafetyStop in E. revert E. mrun.
    destruct keep; repeat case_match; intros; simplify_eq/=; auto.
  - unfold switchSafe in E. revert E. mrun.
    destruct keep; repeat case_match; intros; simplify_eq/=; auto.
  - unfold criticalError, force_safe, setSafetyStop in E. revert E. mrun.
    destruct keep; repeat case_match; intros; simplify_eq/=; auto.
  - unfold criticalErrorNodeWide in E. revert E. mrun.
    destruct keep; repeat case_match; intros; simplify_eq/=; auto.
  - unfold resetErrorCondition in E. revert E. mrun. intros [= <- <-].
    destruct keep; [|done]. by destruct Hc.
Qed.

Lemma calls_sound l s o s' :
  sound s -> calls l s = (o, s') -> sound s' /\ works (log s') = works (log s).
Proof.
  revert s. induction l as [|c l IH]; intros s Hs; cbn [calls].
  { mrun. by intros [= <- <-]. }
  unfold mbind, M_bind. destruct (call c s) as [o1 s1] eqn:E.
  destruct (call_sound _ _ _ _ Hs E) as [Hs1 <-].
  destruct o1; [by apply IH|by intros [= <- <-]..].
Qed.

Lemma calls_held keep l s o s' :
  held keep s -> allowed keep l -> calls l s = (o, s') ->
  held keep s' /\ works (log s') = works (log s).
Proof.
  revert s. induction l as [|c l IH]; intros s Hs Hl; cbn [calls].
  { mrun. by intros [= <- <-]. }
  unfold mbind, M_bind. destruct (call c s) as [o1 s1] eqn:E.
  destruct (call_held keep c s o1 s1 Hs) as [Hs1 <-]; [|done|].
  { intros k. specialize (Hl k). by inversion Hl. }
  assert (allowed keep l) by (intros k; specialize (Hl k); by inversion Hl).
  destruct o1; [by apply IH|by intros [= <- <-]..].
Qed.

Lemma invoke_held keep ev f t s o s' :
  held keep s -> allowed keep (bh_calls (f t)) -> invoke ev f t s = (o, s') ->
  held keep s' /\ works (log s') = works (log s) ++ works [ev t].
Proof.
  intros Hs Hf. unfold invoke.
  rewrite (bind_val _ _ _ tt (add_log (ev t) s)) by done.
  unfold mbind, M_bind. destruct (calls _ _) as [o1 s1] eqn:E.
  destruct (calls_held keep _ (add_log (ev t) s) _ _ Hs Hf E) as [Hs1 Hw].
  rewrite <- works_app.
  destruct o1; intros [= <- <-]; split; try done; by rewrite Hw.
Qed.

Lemma node_error_held keep s :
  held keep s -> exists s1, node_error s = (Val tt, s1) /\ held keep s1
    /\ rank (state s1) <= rank Running /\ works (log s1) = works (log s).
Proof.
  intros [Hs Hk]. unfold node_error, setSafetyStop, force_safe, held, sound in *. mrun.
  destruct (stopped_by_error s) eqn:E.
  - rewrite andb_false_r. cbn. eexists. split_and!; auto.
    by destruct keep; rewrite ?E.
  - destruct keep; [done|]. rewrite Hk. cbn.
    repeat case_match; cbn in *; eexists; split_and!; try done;
      cbn; intros; rewrite ?works_stop; try done; try lia.
Qed.

Lemma enter_low t s :
  rank (state s) <= rank Running ->
  exists b s1, enter t s = (Val b, s1) /\ rank (state s1) <= rank Running
    /\ stopped_by_error s1 = stopped_by_error s /\ node_safe s1 = node_safe s
    /\ log s1 = log s.
Proof.
  intros Hr. unfold enter. mrun.
  destruct (state s) eqn:E; try (cbn in Hr; lia); repeat case_match; cbn in *;
    simplify_eq/=; eexists _, _; split_and!; try done; cbn; rewrite ?E; cbn; lia.
Qed.

Lemma safe_cycle_held keep fs t s o s' :
  held keep s -> allowed keep (bh_calls (fs t)) -> safe_cycle fs t s = (o, s') ->
  held keep s' /\ works (log s') = works (log s).
Proof.
  intros Hs Hf. unfold safe_cycle, mbind at 1, M_bind.
  destruct (invoke _ _ _ _) as [o1 s1] eqn:E.
  destruct (invoke_held keep _ _ _ _ _ _ Hs Hf E) as [[Hs1 Hk1] Hw].
  cbn in Hw. rewrite app_nil_r in Hw. rewrite <- Hw.
  destruct o1 as [[]|?|?]; [| |by intros [= <- <-]..].
  - mrun. intros [= <- <-]. split; [|done]. by destruct keep.
  - mrun. destruct (decide (state s1 = Ready)); intros [= <- <-]; [|done].
    split; [|done]. split; [unfold sound; cbn; lia|]. by destruct keep.
Qed.

Lemma despatch_held keep fs fw t s o s' :
  held keep s -> (keep = true -> no_reset_behaviour fs) ->
  despatch fs fw t s = (o, s') ->
  held keep s' /\ works (log s') = works (log s).
Proof.
  intros Hs Hf. unfold despatch.
  destruct (node_error_held keep s Hs) as (s1 & E1 & [Hs1 Hk1] & Hr1 & <-).
  rewrite (bind_val _ _ _ _ _ E1).
  destruct (enter_low t s1 Hr1) as (b & s2 & E2 & Hr2 & Es2 & En2 & <-).
  rewrite (bind_val _ _ _ _ _ E2).
  assert (held keep s2) as Hs2.
  { split; [by intros _|]. destruct keep; congruence. }
  destruct b; [|by intros [= <- <-]].
  erewrite bind_val by reflexivity.
  rewrite (proj2 (Z.ltb_lt (rank (state s2)) (rank FirstWork))) by (cbn in *; lia).
  apply (safe_cycle_held keep); [done|]. intros k. by apply Hf.
Qed.

Lemma run_held keep l s o s' :
  held keep s -> (keep = true -> Forall no_reset l) -> run l s = (o, s') ->
  held keep s' /\ works (log s') = works (log s).
Proof.
  revert s. induction l as [|op l IH]; intros s Hs Hl; cbn [run].
  { mrun. by intros [= <- <-]. }
  unfold mbind, M_bind. destruct (exec op s) as [o1 s1] eqn:E.
  assert (held keep s1 /\ works (log s1) = works (log s)) as [Hs1 <-].
  { destruct op; cbn [exec] in E.
    - eapply (despatch_held keep) in E; [done..|].
      intros k. specialize (Hl k). by inversion Hl.
    - eapply (call_held keep) in E; [done..|].
      intros k. specialize (Hl k). by inversion Hl. }
  assert (keep = true -> Forall no_reset l) as Hl'.
  { intros k. specialize (Hl k). by inversion Hl. }
  destruct o1; [by apply IH|by intros [= <- <-]..].
Qed.


(** ** Errors of the work callback *)

Lemma invoke_sound ev f t s o s' :
  sound s -> invoke ev f t s = (o, s') ->
  sound s' /\ works (log s') = works (log s) ++ works [ev t]
  /\ forall b, o = Val b -> b = bh_throws (f t).
Proof.
  intros Hs. unfold invoke.
  rewrite (bind_val _ _ _ tt (add_log (ev t) s)) by done.
  unfold mbind, M_bind. destruct (calls _ _) as [o1 s1] eqn:E.
  destruct (calls_sound _ (add_log (ev t) s) _ _ Hs E) as [Hs1 Hw].
  rewrite <- works_app. cbn in Hw.
  destruct o1; intros [= <- <-]; split_and!; try done; congruence.
Qed.

Lemma node_error_sound s :
  sound s -> exists s1, node_error s = (Val tt, s1) /\ sound s1
    /\ works (log s1) = works (log s).
Proof.
  intros Hs. destruct (node_safe s) eqn:En.
  - exists s. unfold node_error. mrun. by rewrite En.
  - destruct (node_error_held false s) as (s1 & E & [? _] & _ & ?); [done|].
    by exists s1.
Qed.

Lemma enter_sound t s :
  sound s -> exists b s1, enter t s = (Val b, s1) /\ sound s1 /\ log s1 = log s.
Proof.
  intros Hs. unfold enter, sound in *. mrun.
  destruct (state s) eqn:E; repeat case_match; cbn in *; simplify_eq/=;
    eexists _, _; split_and!; try done; cbn; rewrite ?E; cbn; intros;
    try (specialize (Hs ltac:(done))); lia.
Qed.

Lemma criticalError_stops s :
  sound s -> exists s1, criticalError s = (Val tt, s1) /\ held true s1
    /\ works (log s1) = works (log s).
Proof.
  intros Hs. destruct (criticalError s) as [o s1] eqn:E.
  destruct (call_sound CriticalError _ _ _ Hs E) as [Hs1 Hw]. revert E.
  unfold criticalError, setSafetyStop, force_safe. mrun.
  destruct (stopped_by_error s) eqn:Es; cbn.
  - intros [= <- <-]. by eexists.
  - repeat case_match; intros [= <- <-]; eexists; by split_and!.
Qed.

Lemma throwing_cycle fw t s o s' :
  sound s -> bh_throws (fw t) = true ->
  work_cycle fw t s = (o, s') \/ first_work fw t s = (o, s') ->
  forall x, o = Val x -> held true s'.
Proof.
  intros Hs Hf E x ->. unfold work_cycle, first_work, mbind, M_bind in E.
  destruct (invoke Work fw t s) as [o1 s1] eqn:Ei.
  destruct (invoke_sound _ _ _ _ _ _ Hs Ei) as (Hs1 & _ & Hb).
  destruct (criticalError_stops s1 Hs1) as (s2 & Ec & Hh & _).
  destruct o1 as [b| |]; [|by destruct E..].
  rewrite (Hb b eq_refl), Hf, Ec in E. by destruct E as [[= _ <-]|[= _ <-]].
Qed.

Lemma throwing_despatch fs fw t s s' :
  sound s -> (forall t, bh_throws (fw t) = true) ->
  despatch fs fw t s = (Val tt, s') ->
  works (log s') = works (log s) \/ held true s'.
Proof.
  intros Hs Hf. unfold despatch.
  destruct (node_error_sound s Hs) as (s1 & E1 & Hs1 & <-).
  rewrite (bind_val _ _ _ _ _ E1).
  destruct (enter_sound t s1 Hs1) as (b & s2 & E2 & Hs2 & <-).
  rewrite (bind_val _ _ _ _ _ E2).
  destruct b; [|intros [= <-]; by left].
  erewrite bind_val by reflexivity. destruct (_ <? _); [|destruct (_ <? _)].
  - intros E. left. unfold safe_cycle, mbind at 1, M_bind in E.
    destruct (invoke _ _ _ _) as [o3 s3] eqn:Ei.
    destruct (invoke_sound _ _ _ _ _ _ Hs2 Ei) as (Hs3 & Hw & _).
    cbn in Hw. rewrite app_nil_r in Hw. rewrite <- Hw.
    destruct o3 as [[]| |]; [| |done..]; revert E; mrun; [by intros [= <-]|].
    destruct (decide (state s3 = Ready)); by intros [= <-].
  - intros E. right. by eapply throwing_cycle; eauto.
  - unfold first_cycle. erewrite bind_val by reflexivity.
    unfold mbind at 1, M_bind at 1. destruct (dassert _ _) as [od s3] eqn:Ed.
    assert (s3 = s2) as ->.
    { revert Ed. unfold dassert. mrun. case_match; by intros [= _ <-]. }
    destruct od; [|done..]. destruct (_ <? _).
    + unfold timespec, mbind, M_bind. destruct (TS.make _ _); [|done..].
      destruct (invoke _ _ _ _) as [o3 s3] eqn:Ei.
      destruct (invoke_sound _ _ _ _ _ _ Hs2 Ei) as (Hs3 & Hw & _).
      cbn in Hw. rewrite app_nil_r in Hw. rewrite <- Hw.
      destruct o3 as [[]| |]; [| |done..]; cbn.
      * intros [= <-]. by left.
      * destruct (TS.make _ _); [|done..]. intros E. right.
        by eapply throwing_cycle; eauto.
    + intros E. right. by eapply throwing_cycle; eauto.
Qed.

(** An uncaught exception of the work callback ends the work mode: in a
    despatch whose work callback was called and threw, the activity is put
    back to its safe mode, and the work callback is not called again by
    anything that follows, as long as [resetErrorCondition] is not. *)
Theorem work_exception_stops fs fw t s s1 l o s2 :
  sound s -> (forall t, bh_throws (fw t) = true) ->
  despatch fs fw t s = (Val tt, s1) -> works (log s1) <> works (log s) ->
  Forall no_reset l -> run l s1 = (o, s2) ->
  stopped_by_error s1 = true /\ rank (state s1) <= rank Running
  /\ works (log s2) = works (log s1).
Proof.
  intros Hs Hf E Hn Hl Er.
  destruct (throwing_despatch _ _ _ _ _ Hs Hf E) as [?|Hh]; [done|].
  split_and!; [apply Hh|apply Hh, Hh|].
  by apply (run_held true) in Er as [_ ->].
Qed.

(** ** The work period *)

(** The activity after cycles that only moved its state. *)
Definition upd (r : RunState) (es : list Event) (s : W) : W :=
  mkCA (set_run_state r (base s)) (work_on s) (work_off s) (stopped_by_error s)
    (node_safe s) (log s ++ es).

Lemma upd_then r1 es1 r2 es2 s : upd r2 es2 (upd r1 es1 s) = upd r2 (es1 ++ es2) s.
Proof. unfold upd. cbn. by rewrite <- (assoc_L (++)). Qed.

Lemma upd_same r s : state s = r -> upd r [] s = s.
Proof. intros <-. destruct s as [[] ? ? ? ? ?]. unfold upd. cbn. by rewrite app_nil_r. Qed.

Definition cycles (l : list TimeSpec) : list Op := map (Despatch idle idle) l.

(** No error was met yet; or the node's error was already taken over. *)
Definition no_news (s : W) : Prop := node_safe s = true \/ stopped_by_error s = true.

Lemma ops_app l1 l2 s s1 :
  run l1 s = (Val tt, s1) -> run (l1 ++ l2) s = run l2 s1.
Proof.
  revert s. induction l1 as [|op l1 IH]; intros s; cbn [run app].
  - mrun. by intros [= <-].
  - intros ([] & s2 & E & Er)%bind_inv. erewrite bind_val by done. by apply IH.
Qed.

Lemma ops_cons op l s s1 : exec op s = (Val tt, s1) -> run (op :: l) s = run l s1.
Proof. intros E. cbn [run]. by erewrite bind_val by done. Qed.

Lemma node_error_none s : no_news s -> node_error s = (Val tt, s).
Proof.
  intros [E|E]; unfold node_error; mrun; rewrite E; rewrite ?andb_false_r; done.
Qed.

Ltac one_cycle Es :=
  unfold despatch; erewrite bind_val by (by apply node_error_none);
  unfold enter, safe_cycle, work_cycle, first_cycle, first_work, invoke, timespec,
    TS.make, dassert; mrun; rewrite Es.

Section Idle.
Context (s : W) (t : TimeSpec) (Hn : no_news s).

Lemma idle_running :
  state s = Running -> despatch idle idle t s = (Val tt, upd Running [Safe t] s).
Proof. intros Es. one_cycle Es. cbn. rewrite Es. by destruct s as [[] ????? ]; cbn in *; subst. Qed.

Lemma idle_running_work :
  state s = RunningWork -> despatch idle idle t s = (Val tt, upd RunningWork [Work t] s).
Proof.
  intros Es. one_cycle Es. cbn. rewrite Es. cbn. rewrite Es.
  by destruct s as [[] ?????]; cbn in *; subst.
Qed.

Lemma idle_ready_work :
  state s = ReadyWork -> validity_start t < work_on s -> validity_end t <= work_on s ->
  despatch idle idle t s = (Val tt, upd ReadyWork [Safe t] s).
Proof.
  intros Es H1 H2. one_cycle Es.
  rewrite (proj2 (Z.leb_gt _ _) H1), (proj2 (Z.ltb_ge _ _) H2). cbn. rewrite Es. cbn.
  rewrite Es. by destruct s as [[] ?????]; cbn in *; subst.
Qed.

Lemma idle_first_work :
  state s = ReadyWork -> work_on s <= validity_start t ->
  despatch idle idle t s = (Val tt, upd RunningWork [Work t] s).
Proof.
  intros Es H1. one_cycle Es. rewrite (proj2 (Z.leb_le _ _) H1).
  cbn. rewrite andb_false_r. cbn. by rewrite (proj2 (Z.ltb_ge _ _) H1).
Qed.

Lemma idle_straddle :
  state s = ReadyWork -> validity_start t < work_on s < validity_end t ->
  despatch idle idle t s
  = (Val tt, upd RunningWork [Safe (mkTS (validity_start t) (work_on s));
                              Work (mkTS (work_on s) (validity_end t))] s).
Proof.
  intros Es [H1 H2]. one_cycle Es.
  rewrite (proj2 (Z.ltb_lt (work_on s) _) H2), orb_true_r. cbn.
  rewrite andb_false_r. cbn. rewrite (proj2 (Z.ltb_lt _ _) H1).
  do 2 (rewrite passert_true by lia; cbn). unfold upd, set_state, set_base. cbn.
  by rewrite <- (assoc_L (++)).
Qed.

Lemma idle_braking_work :
  state s = BrakingWork ->
  despatch idle idle t s
  = (Val tt, upd (if work_off s <=? validity_end t then Running else BrakingWork)
               [Work t] s).
Proof.
  intros Es. one_cycle Es. destruct (work_off s <=? validity_end t) eqn:E.
  - done.
  - cbn. rewrite Es. cbn. rewrite Es. by destruct s as [[] ?????]; cbn in *; subst.
Qed.
End Idle.

Lemma cycles_running ts s :
  no_news s -> state s = Running ->
  run (cycles ts) s = (Val tt, upd Running (map Safe ts) s).
Proof.
  revert s. induction ts as [|t ts IH]; intros s Hn Es; cbn [cycles map].
  - cbn. by rewrite upd_same.
  - erewrite ops_cons by (by apply idle_running). rewrite (IH (upd _ _ _)) by done.
    by rewrite upd_then.
Qed.

Lemma cycles_working ts s :
  no_news s -> state s = RunningWork ->
  run (cycles ts) s = (Val tt, upd RunningWork (map Work ts) s).
Proof.
  revert s. induction ts as [|t ts IH]; intros s Hn Es; cbn [cycles map].
  - cbn. by rewrite upd_same.
  - erewrite ops_cons by (by apply idle_running_work).
    rewrite (IH (upd _ _ _)) by done. by rewrite upd_then.
Qed.

Lemma cycles_to_work ts a b s :
  no_news s -> state s = ReadyWork -> tile a ts b -> a <= work_on s < b ->
  exists ss ws, run (cycles ts) s
    = (Val tt, upd RunningWork (map Safe ss ++ map Work ws) s)
    /\ tile a ss (work_on s) /\ tile (work_on s) ws b.
Proof.
  revert a s. induction ts as [|t ts IH]; intros a s Hn Es; cbn [cycles map tile]; [lia|].
  intros (<- & Hlt & Ht) Hw.
  destruct (decide (validity_end t <= work_on s)) as [He|He];
    [|destruct (decide (work_on s <= validity_start t)) as [Hb|Hb]].
  - erewrite ops_cons by (apply idle_ready_work; [done..|lia|done]).
    destruct (IH (validity_end t) (upd ReadyWork [Safe t] s)) as (ss & ws & Er & H1 & H2);
      [done..|cbn; lia|].
    exists (t :: ss), ws. cbn [tile map app]. split_and!; try done.
    fold (cycles ts). rewrite Er, upd_then. done.
  - erewrite ops_cons by (by apply idle_first_work).
    rewrite cycles_working by done. rewrite upd_then.
    exists [], (t :: ts). cbn [tile map app]. split_and!; try done; lia.
  - erewrite ops_cons by (apply idle_straddle; [done..|lia]).
    rewrite cycles_working by done. rewrite upd_then.
    exists [mkTS (validity_start t) (work_on s)],
      (mkTS (work_on s) (validity_end t) :: ts).
    cbn. split_and!; try done; lia.
Qed.

Lemma cycles_to_safe ts1 t ts2 s :
  no_news s -> state s = BrakingWork ->
  Forall (fun t => validity_end t < work_off s) ts1 -> work_off s <= validity_end t ->
  run (cycles (ts1 ++ t :: ts2)) s
  = (Val tt, upd Running (map Work (ts1 ++ [t]) ++ map Safe ts2) s).
Proof.
  revert s. induction ts1 as [|t1 ts1 IH]; intros s Hn Es H1 H2; cbn [cycles map app].
  - erewrite ops_cons by (by apply idle_braking_work).
    rewrite (proj2 (Z.leb_le _ _) H2).
    rewrite cycles_running by done. by rewrite upd_then.
  - inversion H1 as [|? ? H11 H12]; subst.
    erewrite ops_cons by (by apply idle_braking_work).
    rewrite (proj2 (Z.leb_gt _ _) H11).
    fold (cycles (ts1 ++ t :: ts2)). rewrite IH by done. by rewrite upd_then.
Qed.

(** C31: The work period is exact: on gapless activations of a running
    activity, [switchWork w] gives the safe callback the time up to [w] and the
    work callback the time from [w] on, splitting the span in which [w] falls;
    [switchSafe v] lets the work callback finish with the first span that
    reaches [v], and the safe callback continues from there. *)
Theorem work_period s a b c w v ts1 ts2 t ts3 :
  node_safe s = true -> stopped_by_error s = false -> state s = Running ->
  tile a ts1 b -> a <= w < b -> tile b (ts2 ++ t :: ts3) c ->
  Forall (fun t => validity_end t < v) ts2 -> v <= validity_end t ->
  exists ss ws s',
    run (Outside (SwitchWork (mkTS w w)) :: cycles ts1
         ++ Outside (SwitchSafe (mkTS v v)) :: cycles (ts2 ++ t :: ts3)) s
      = (Val tt, s')
    /\ log s' = log s ++ map Safe ss ++ map Work (ws ++ ts2 ++ [t]) ++ map Safe ts3
    /\ tile a ss w /\ tile w (ws ++ ts2 ++ [t]) (validity_end t)
    /\ tile (validity_end t) ts3 c /\ state s' = Running.
Proof.
  intros Hn Hs Es Ht1 Hw Ht2 Hv1 Hv2.
  erewrite ops_cons.
  2: { cbn [exec call]. unfold switchWork. mrun. by rewrite bool_decide_true, Hs. }
  destruct (cycles_to_work ts1 a b (set_state ReadyWork (set_work_off MAX_TIMETICK
    (set_work_on w s)))) as (ss & ws & Er & H1 & H2); [by left|done..|].
  cbn [validity_start]. erewrite ops_app by exact Er.
  erewrite ops_cons.
  2: { cbn [exec call]. unfold switchSafe. mrun. cbn. by rewrite Hs. }
  rewrite cycles_to_safe by (done || by left).
  apply tile_snoc in Ht2 as (Ht2 & Ht3).
  exists ss, ws. eexists. split_and!; [done|..]; try done.
  - cbn. rewrite !map_app, <- !(assoc_L (++)). done.
  - by eapply tile_app.
Qed.

(** ** Where the error handling fails *)

(** [criticalError] called by the work callback in its first cycle is
    undone: the activity is flagged as stopped, the module is told so, and the
    end of the despatch overwrites the state with [RunningWork].  The work
    callback keeps being called, and a node-wide error no longer stops it. *)
Theorem error_in_first_cycle_overruled fs fw s t ts :
  node_safe s = true -> stopped_by_error s = false -> state s = ReadyWork ->
  work_on s <= validity_start t -> fw t = mkBehaviour [CriticalError] false ->
  exists s', run (Despatch fs fw t :: Outside CriticalErrorNodeWide :: cycles ts) s
      = (Val tt, s')
    /\ log s' = log s ++ [Work t; SafetyStop; SafetyStop] ++ map Work ts
    /\ stopped_by_error s' = true /\ node_safe s' = false.
Proof.
  intros Hn Hs Es Hw Hf.
  assert (despatch fs fw t s = (Val tt,
    upd RunningWork [Work t; SafetyStop; SafetyStop] (set_stopped true s))) as E.
  { assert (no_news s) by (by left). one_cycle Es. rewrite (proj2 (Z.leb_le _ _) Hw). cbn.
    rewrite andb_false_r. cbn. rewrite (proj2 (Z.ltb_ge _ _) Hw), Hf. cbn.
    unfold criticalError, setSafetyStop, force_safe. mrun. cbn. rewrite Hs. cbn.
    unfold upd, set_state, set_base, add_log. cbn. by rewrite <- !(assoc_L (++)). }
  erewrite ops_cons by exact E.
  erewrite ops_cons.
  2: { cbn [exec call]. unfold criticalErrorNodeWide. mrun. cbn. by rewrite Hn. }
  rewrite cycles_working by (done || by right).
  eexists. split_and!; [done|..]; try done. cbn. by rewrite <- (assoc_L (++)).
Qed.

(** [switchSafe] on an activity that is not working makes it work: the
    test issues a warning and does not return, so the next despatch, of an
    activity that may be switched off, calls the work callback. *)
Theorem switchSafe_starts_work s v t :
  node_safe s = true -> stopped_by_error s = false -> rank (state s) < rank ReadyWork ->
  exists s', run [Outside (SwitchSafe v); Despatch idle idle t] s = (Val tt, s')
    /\ log s' = log s ++ [Work t].
Proof.
  intros Hn Hs _. erewrite ops_cons.
  2: { cbn [exec call]. unfold switchSafe. mrun. by rewrite Hs. }
  erewrite ops_cons by (apply idle_braking_work; [by left|done]).
  by eexists.
Qed.
End Critical.

(** ** Instances *)

Definition t_ (a b : Z) : TimeSpec := mkTS a b.
Definition throwing (t : TimeSpec) : Behaviour := mkBehaviour [] true.
Definition failing (t : TimeSpec) : Behaviour := mkBehaviour [CriticalError] false.
Definition working : CriticalActivity :=
  set_state RunningWork (make 10).
Definition ready : CriticalActivity :=
  set_work_on 20 (set_state ReadyWork (make 10)).


Definition after_throw : CriticalActivity :=
  Eval vm_compute in (despatch (BC := test_config) idle throwing (t_ 0 10) working).2.
Definition later : list Op :=
  [Despatch idle idle (t_ 10 20); Outside (SwitchWork (t_ 20 20));
   Despatch idle idle (t_ 20 30)].

Lemma work_exception_stops_witness :
  despatch (BC := test_config) idle throwing (t_ 0 10) working = (Val tt, after_throw)
  /\ works (log after_throw) = [t_ 0 10]
  /\ stopped_by_error after_throw = true /\ rank (state after_throw) <= rank Running
  /\ works (log (run (BC := test_config) later after_throw).2) = works (log after_throw).
Proof.
  split; [vm_compute; reflexivity|]. split; [reflexivity|].
  apply (work_exception_stops (BC := test_config) idle throwing (t_ 0 10) working
    after_throw later (Val tt)).
  - done.
  - intros; reflexivity.
  - vm_compute. reflexivity.
  - vm_compute. congruence.
  - unfold later. repeat constructor; done.
  - vm_compute. reflexivity.
Defined.

Lemma work_period_witness :
  exists ss ws s',
    run (BC := test_config) (Outside (SwitchWork (t_ 15 15))
         :: cycles [t_ 0 10; t_ 10 20]
         ++ Outside (SwitchSafe (t_ 35 35)) :: cycles ([t_ 20 30] ++ t_ 30 40 :: [t_ 40 50]))
        (set_state Running (make 10)) = (Val tt, s')
    /\ log s' = [] ++ map Safe ss ++ map Work (ws ++ [t_ 20 30] ++ [t_ 30 40])
                  ++ map Safe [t_ 40 50]
    /\ tile 0 ss 15 /\ tile 15 (ws ++ [t_ 20 30] ++ [t_ 30 40]) (validity_end (t_ 30 40))
    /\ tile (validity_end (t_ 30 40)) [t_ 40 50] 50 /\ state s' = Running.
Proof.
  eapply (work_period (BC := test_config) (set_state Running (make 10)) 0 20 50 15 35);
    cbn; try done; try lia; repeat constructor; cbn; lia.
Defined.

Lemma error_in_first_cycle_overruled_witness :
  exists s', run (BC := test_config)
      (Despatch idle failing (t_ 20 30) :: Outside CriticalErrorNodeWide
       :: cycles [t_ 30 40; t_ 40 50]) ready = (Val tt, s')
    /\ log s' = [] ++ [Work (t_ 20 30); SafetyStop; SafetyStop]
                  ++ map Work [t_ 30 40; t_ 40 50]
    /\ stopped_by_error s' = true /\ node_safe s' = false.
Proof.
  apply (error_in_first_cycle_overruled (BC := test_config)); cbn; done || lia.
Defined.

Lemma switchSafe_starts_work_witness :
  exists s', run (BC := test_config) [Outside (SwitchSafe (t_ 5 5));
      Despatch idle idle (t_ 0 10)] (make 10) = (Val tt, s')
    /\ log s' = [] ++ [Work (t_ 0 10)].
Proof.
  apply (switchSafe_starts_work (BC := test_config)); cbn; done || lia.
Defined.

(** The straddled span, evaluated. *)
Example straddle :
  log (run (BC := test_config) (Outside (SwitchWork (t_ 15 15))
         :: cycles [t_ 0 10; t_ 10 20; t_ 20 30]) (set_state Running (make 10))).2
  = [Safe (t_ 0 10); Safe (t_ 10 15); Work (t_ 15 20); Work (t_ 20 30)].
Proof. by vm_compute. Qed.
End CA.
