(* ===== verification/ActivityManager.v ===== *)
(** The activity manager: [dueca/ActivityManager.hxx]/[.cxx], the queue in
    which scheduled activities wait and the loop that runs them.

    The [ActivityItem]s are nodes of a doubly linked list between the sentinels
    [head] and [tail]; a pointer is the key of a node in the store [items].
    The trigger queue is the list of its atoms ([AsyncQueue.v] has the queue
    itself).  What a callback does is a parameter: its calls on its activity,
    whether it throws, and the trigger atoms its channel writes cause.  The
    counters are unbounded; timing, logging and waking are left out. *)

From S2P Require Import Prelude.
From S2P Require Import TimeSpec.
From S2P Require Import Trigger.
From S2P Require Import Activity.
From stdpp Require Import gmap sorting.
#[local] Open Scope Z_scope.

Module AM.
Export Act.

Definition ptr := nat.

Record ActivityItem := mkItem {
  activity : option nat;
  item_ts : TimeSpec;
  prev : option ptr;
  next : option ptr
}.

Definition new_item (a : option nat) (t : TimeSpec) : ActivityItem := mkItem a t None None.
Definition set_prev (p : ptr) (x : ActivityItem) : ActivityItem :=
  mkItem (activity x) (item_ts x) (Some p) (next x).
Definition set_next (p : ptr) (x : ActivityItem) : ActivityItem :=
  mkItem (activity x) (item_ts x) (prev x) (Some p).

Definition time_weight : Z := 100.

(** A manager with the activities that point to it; [ran] records the
    callbacks that were run, with the span and the last-cycle mark. *)
Record ActivityManager := mkMgr {
  items : gmap ptr ActivityItem;
  brk : ptr;
  head : ptr;
  tail : ptr;
  to_do : ptr;
  prio : Z;
  qsize : Z;
  triggerq : list (nat * TimeSpec);
  acts : gmap nat Activity;
  ran : list (nat * (TimeSpec * bool))
}.

Definition set_items (s : gmap ptr ActivityItem) (m : ActivityManager) : ActivityManager :=
  mkMgr s (brk m) (head m) (tail m) (to_do m) (prio m) (qsize m) (triggerq m) (acts m) (ran m).
Definition set_to_do (p : ptr) (m : ActivityManager) : ActivityManager :=
  mkMgr (items m) (brk m) (head m) (tail m) p (prio m) (qsize m) (triggerq m) (acts m) (ran m).
Definition set_qsize (z : Z) (m : ActivityManager) : ActivityManager :=
  mkMgr (items m) (brk m) (head m) (tail m) (to_do m) (prio m) z (triggerq m) (acts m) (ran m).
Definition set_triggerq (q : list (nat * TimeSpec)) (m : ActivityManager) : ActivityManager :=
  mkMgr (items m) (brk m) (head m) (tail m) (to_do m) (prio m) (qsize m) q (acts m) (ran m).
Definition set_acts (a : gmap nat Activity) (m : ActivityManager) : ActivityManager :=
  mkMgr (items m) (brk m) (head m) (tail m) (to_do m) (prio m) (qsize m) (triggerq m) a (ran m).
Definition set_ran (r : list (nat * (TimeSpec * bool))) (m : ActivityManager)
    : ActivityManager :=
  mkMgr (items m) (brk m) (head m) (tail m) (to_do m) (prio m) (qsize m) (triggerq m) (acts m) r.

(** [int] multiplication. *)
Definition imul (a b : Z) : outcome Z :=
  if bool_decide (is_s32 (a * b)) then Val (a * b) else Stuck SignedOverflow.

Section Manager.
Context {BC : BuildConfig} {AC : ActivityConfig}.
Abbreviation W := ActivityManager.

Definition lift {A} (o : outcome A) : M W A := fun s =>
  match o with
  | Val a => (Val a, s)
  | Exn e => (Exn e, s)
  | Stuck f => (Stuck f, s)
  end.

Definition item (p : ptr) : M W ActivityItem :=
  m ← get; of_option DanglingDeref (items m !! p).
Definition update (p : ptr) (f : ActivityItem -> ActivityItem) : M W unit :=
  x ← item p; modify (fun m => set_items (<[p := f x]> (items m)) m).
Definition act (a : option nat) : M W Activity :=
  i ← of_option NullDeref a;
  m ← get; of_option DanglingDeref (acts m !! i).
Definition put_act (i : nat) (a : Activity) : M W unit :=
  modify (fun m => set_acts (<[i := a]> (acts m)) m).

(** [new ActivityItem(activity, time_spec)] *)
Definition alloc (a : option nat) (t : TimeSpec) : M W ptr :=
  m ← get;
  put (mkMgr (<[brk m := new_item a t]> (items m)) (S (brk m)) (head m) (tail m)
         (to_do m) (prio m) (qsize m) (triggerq m) (acts m) (ran m)) ;;
  (match a with
   | Some i =>
       x ← act a;
       put_act i (set_counts (no_schedules x + 1) (no_despatches x) x)
   | None => mret tt
   end) ;;
  mret (brk m).

(** The manager starts with its sentinels, connected, and a dummy to do. *)
Definition make (p : Z) (a : gmap nat Activity) : ActivityManager :=
  mkMgr (<[2%nat := new_item None (mkTS 0 0)]>
         (<[1%nat := set_prev 0%nat (new_item None (mkTS 0 0))]>
         (<[0%nat := set_next 1%nat (new_item None (mkTS 0 0))]> ∅)))
    3%nat 0%nat 1%nat 2%nat p 0 [] a [].

(** [ActivityItem::operator<] *)
Definition less (x y : ActivityItem) : M W bool :=
  ax ← act (activity x);
  ay ← act (activity y);
  let sx := validity_start (item_ts x) in
  let sy := validity_start (item_ts y) in
  d ← lift (isub (order ax) (order ay));
  if sy <? sx then
    w ← lift (imul time_weight (s32 (u32 (sx - sy))));
    r ← lift (isub d w); mret (r <? 0)
  else
    w ← lift (imul time_weight (s32 (u32 (sy - sx))));
    r ← lift (iadd d w); mret (r <? 0).

Definition getPrevious (p : ptr) : M W ptr :=
  x ← item p; of_option NullDeref (prev x).
Definition getNext (p : ptr) : M W ptr :=
  x ← item p; of_option NullDeref (next x).

Definition insertBefore (this to_insert : ptr) : M W unit :=
  x ← item this;
  dassert (bool_decide (prev x <> None)) ;;
  update to_insert (set_next this) ;;
  p ← getPrevious this;
  update to_insert (set_prev p) ;;
  update p (set_next to_insert) ;;
  update this (set_prev to_insert).

Definition insertAfter (this to_insert : ptr) : M W unit :=
  x ← item this;
  dassert (bool_decide (next x <> None)) ;;
  update to_insert (set_prev this) ;;
  n ← getNext this;
  update to_insert (set_next n) ;;
  update n (set_prev to_insert) ;;
  update this (set_next to_insert).

Definition popAfter (this : ptr) : M W ptr :=
  x ← item this;
  dassert (bool_decide (next x <> None)) ;;
  tmp ← getNext this;
  y ← item tmp;
  dassert (bool_decide (next y <> None)) ;;
  n ← getNext tmp;
  update this (set_next n) ;;
  update n (set_prev this) ;;
  mret tmp.

(** The loop of [schedule], from [tmp] towards the head; the fuel is the number
    of nodes. *)
Fixpoint find_place (fuel : nat) (tmp it : ptr) : M W ptr :=
  m ← get;
  if decide (tmp = head m) then mret tmp
  else
    x ← item tmp;
    y ← item it;
    b ← less x y;
    if (b : bool) then
      match fuel with
      | O => stuck OutOfFuel
      | S fuel => p ← getPrevious tmp; find_place fuel p it
      end
    else mret tmp.

Definition schedule (i : nat) (model_time : TimeSpec) : M W unit :=
  t ← lift (TS.of_data model_time);
  it ← alloc (Some i) t;
  m ← get;
  (if negb (prio m =? 0) then
     tmp ← getPrevious (tail m);
     tmp ← find_place (size (items m)) tmp it;
     insertAfter tmp it
   else insertBefore (tail m) it) ;;
  modify (fun m => set_qsize (qsize m + 1) m).

(** [Activity::trigger] on the activity in the store, scheduling here. *)
Definition act_schedule (i : nat) (t : TimeSpec) : M (Activity * W) unit := fun '(a, m) =>
  let '(o, m') := schedule i t (set_acts (<[i := a]> (acts m)) m) in
  (o, (default a (acts m' !! i), m')).

Definition trigger (fuel : nat) (i : nat) (t : TimeSpec) : M W unit := fun m =>
  match acts m !! i with
  | None => (Stuck DanglingDeref, m)
  | Some a =>
      let '(o, (a', m')) := Act.trigger (act_schedule i) fuel t (a, m) in
      (o, set_acts (<[i := a']> (acts m')) m')
  end.

Definition addAtom (i : nat) (t : TimeSpec) : M W unit :=
  modify (fun m => set_triggerq (triggerq m ++ [(i, t)]) m).

(** [propagateTriggers]: one turn for each atom in the queue. *)
Fixpoint propagate_atoms (fuel : nat) (q : list (nat * TimeSpec)) : M W unit :=
  match q with
  | [] => mret tt
  | (i, t) :: q =>
      modify (set_triggerq q) ;; trigger fuel i t ;; propagate_atoms fuel q
  end.

Definition propagateTriggers (fuel : nat) : M W bool :=
  m ← get;
  propagate_atoms fuel (triggerq m) ;;
  m ← get;
  n ← getNext (head m);
  mret (negb (bool_decide (n = tail m))).

(** The next item becomes [to_do]; the one before it is deleted. *)
Definition take_next : M W ptr :=
  m ← get;
  item (to_do m) ;;
  modify (fun m => set_items (delete (to_do m) (items m)) m) ;;
  p ← popAfter (head m);
  modify (set_to_do p) ;;
  modify (fun m => set_qsize (qsize m - 1) m) ;;
  mret p.

(** What the callbacks do. *)
Section Run.
Context (f : nat -> TimeSpec -> Behaviour)
  (writes : nat -> TimeSpec -> list (nat * TimeSpec)).

Fixpoint add_atoms (l : list (nat * TimeSpec)) : M W unit :=
  match l with
  | [] => mret tt
  | (i, t) :: l => addAtom i t ;; add_atoms l
  end.

(** [ActivityItem::despatch] *)
Definition despatch (p : ptr) : M W unit :=
  x ← item p;
  i ← of_option NullDeref (activity x);
  a ← act (activity x);
  let '(o, a') :=
    Act.despatch (f i) (item_ts x)
      (set_counts (no_schedules a) (no_despatches a + 1) a) in
  put_act i a' ;;
  r ← lift o;
  match r with
  | Some sp =>
      modify (fun m => set_ran (ran m ++ [(i, sp)]) m) ;;
      add_atoms (writes i (item_ts x))
  | None => mret tt
  end.

(** One turn of [doActivities]. *)
Definition do_one (fuel : nat) : M W unit :=
  p ← take_next;
  despatch p ;;
  propagateTriggers fuel ;;
  mret tt.

Fixpoint doActivities (turns fuel : nat) : M W unit :=
  m ← get;
  n ← getNext (head m);
  if decide (n = tail m) then mret tt
  else
    match turns with
    | O => stuck OutOfFuel
    | S turns => do_one fuel ;; doActivities turns fuel
    end.
End Run.

(** ** The list of items *)

Definition linked (s : gmap ptr ActivityItem) (x y : ptr) : Prop :=
  exists a b, s !! x = Some a /\ next a = Some y /\ s !! y = Some b /\ prev b = Some x.

Fixpoint links (s : gmap ptr ActivityItem) (l : list ptr) : Prop :=
  match l with
  | x :: ((y :: _) as l) => linked s x y /\ links s l
  | _ => True
  end.

Lemma links_app s l1 x l2 :
  links s (l1 ++ x :: l2) <-> links s (l1 ++ [x]) /\ links s (x :: l2).
Proof.
  induction l1 as [|a l1 IH]; [cbn; tauto|].
  destruct l1 as [|b l1]; [cbn in *; tauto|].
  cbn [app links] in *. rewrite IH. tauto.
Qed.

Lemma links_ext s s' l :
  links s l -> (forall p, p ∈ l -> s' !! p = s !! p) -> links s' l.
Proof.
  induction l as [|x [|y l] IH]; [done..|]. intros [(a & b & ?) Hl] Hs. split.
  - exists a, b. rewrite !Hs by (repeat constructor). done.
  - apply IH; [done|]. intros p Hp. apply Hs. by right.
Qed.

Lemma links_left s s' l x a a' :
  links s (l ++ [x]) -> (forall p, p ∈ l -> s' !! p = s !! p) ->
  s !! x = Some a -> s' !! x = Some a' -> prev a' = prev a ->
  links s' (l ++ [x]).
Proof.
  intros Hl Hs Ha Ha' Hp. induction l as [|p l IH]; [done|].
  assert (links s' (l ++ [x])) as Hl'.
  { apply IH; [by destruct l; [|apply Hl]|]. intros y Hy. apply Hs. by right. }
  destruct l as [|q l]; cbn [app links] in *.
  - split; [|done]. destruct Hl as [(c & d & Hc & Hn & Hd & Hpd) _].
    exists c, a'. rewrite (Hs p) by left. split_and!; congruence.
  - split; [|done]. destruct Hl as [(c & d & ?) _].
    exists c, d. rewrite (Hs p), (Hs q) by (repeat constructor). done.
Qed.

Lemma links_right s s' l x a a' :
  links s (x :: l) -> (forall p, p ∈ l -> s' !! p = s !! p) ->
  s !! x = Some a -> s' !! x = Some a' -> next a' = next a ->
  links s' (x :: l).
Proof.
  revert x a a'. induction l as [|y l IH]; intros x a a'; [done|].
  intros [(c & d & Hc & Hn & Hd & Hp) Hl] Hs Ha Ha' Hx. split.
  - exists a', d. rewrite (Hs y) by left. split_and!; congruence.
  - apply (IH y d d); [done| |done| |done].
    + intros p Hin. apply Hs. by right.
    + rewrite (Hs y) by left. done.
Qed.

(** A node spliced in between two neighbours. *)
Lemma links_splice s s' l1 x y l2 it a b c :
  links s (l1 ++ x :: y :: l2) ->
  (forall p, p ∈ l1 \/ p ∈ l2 -> s' !! p = s !! p) ->
  s !! x = Some a -> s !! y = Some b ->
  s' !! x = Some (set_next it a) -> s' !! y = Some (set_prev it b) ->
  s' !! it = Some c -> prev c = Some x -> next c = Some y ->
  links s' (l1 ++ x :: it :: y :: l2).
Proof.
  rewrite links_app. intros [H1 [_ H2]] Hs Ha Hb Ha' Hb' Hc Hpc Hnc.
  rewrite links_app. split; [|split; [|split]].
  - eapply links_left; eauto.
  - by exists (set_next it a), c.
  - by exists c, (set_prev it b).
  - eapply links_right; eauto.
Qed.

(** What the items carry, which relinking leaves alone. *)
Definition pay (s : gmap ptr ActivityItem) : gmap ptr (option nat * TimeSpec) :=
  (fun x => (activity x, item_ts x)) <$> s.

Lemma pay_insert s p x y :
  s !! p = Some x -> activity y = activity x -> item_ts y = item_ts x ->
  pay (<[p := y]> s) = pay s.
Proof.
  intros Hp Ha Ht. unfold pay. rewrite fmap_insert, Ha, Ht.
  apply insert_id. by rewrite lookup_fmap, Hp.
Qed.

Lemma pay_lookup s p v :
  pay s !! p = Some v ->
  exists x, s !! p = Some x /\ activity x = v.1 /\ item_ts x = v.2.
Proof.
  unfold pay. rewrite lookup_fmap. destruct (s !! p) as [x|]; [|done].
  intros [= <-]. by exists x.
Qed.

Lemma pay_same_dom s s' p : pay s' = pay s -> is_Some (s' !! p) -> is_Some (s !! p).
Proof.
  intros E [x Hx]. assert (pay s' !! p = Some (activity x, item_ts x)) as H.
  { unfold pay. by rewrite lookup_fmap, Hx. }
  rewrite E in H. apply pay_lookup in H as (y & ? & _). by exists y.
Qed.

Record rep (m : ActivityManager) (ids : list ptr) (q : list (nat * TimeSpec)) : Prop := {
  rep_nodup : NoDup (head m :: ids ++ [tail m]);
  rep_links : links (items m) (head m :: ids ++ [tail m]);
  rep_pay : Forall2 (fun p e => pay (items m) !! p = Some (Some e.1, e.2)) ids q;
  rep_to_do : to_do m ∉ head m :: ids ++ [tail m];
  rep_done : is_Some (items m !! to_do m);
  rep_brk : forall p, is_Some (items m !! p) -> (p < brk m)%nat;
  rep_acts : Forall (fun e => is_Some (acts m !! e.1)) q;
  rep_qsize : qsize m = Z.of_nat (length q)
}.

Lemma item_run p m x : items m !! p = Some x -> item p m = (Val x, m).
Proof. intros E. unfold item. mrun. by rewrite E. Qed.

Lemma update_run p f m x :
  items m !! p = Some x ->
  update p f m = (Val tt, set_items (<[p := f x]> (items m)) m).
Proof. intros E. unfold update. by erewrite bind_val by by apply item_run. Qed.

Lemma getPrevious_run p m x q :
  items m !! p = Some x -> prev x = Some q -> getPrevious p m = (Val q, m).
Proof.
  intros E Eq. unfold getPrevious. erewrite bind_val by by apply item_run.
  by rewrite Eq.
Qed.

Lemma getNext_run p m x q :
  items m !! p = Some x -> next x = Some q -> getNext p m = (Val q, m).
Proof.
  intros E Eq. unfold getNext. erewrite bind_val by by apply item_run.
  by rewrite Eq.
Qed.

Lemma set_items_same m : set_items (items m) m = m.
Proof. by destruct m. Qed.

(** Both insertions splice; they differ in the order of their assignments. *)
Section Insert.
Context (m : ActivityManager) (l1 : list ptr) (x y : ptr) (l2 : list ptr) (it : ptr)
  (c : ActivityItem)
  (Hl : links (items m) (l1 ++ x :: y :: l2))
  (Hnd : NoDup (it :: l1 ++ x :: y :: l2))
  (Hit : items m !! it = Some c).

Lemma insert_facts :
  x <> it /\ y <> it /\ x <> y
  /\ (forall p, p ∈ l1 \/ p ∈ l2 -> p <> it /\ p <> x /\ p <> y)
  /\ exists a b, items m !! x = Some a /\ next a = Some y
      /\ items m !! y = Some b /\ prev b = Some x.
Proof.
  apply NoDup_cons in Hnd as [Hn1 Hnd'].
  apply NoDup_app in Hnd' as (Hl1 & Hd & Hnd').
  apply NoDup_cons in Hnd' as [Hn2 Hnd']. apply NoDup_cons in Hnd' as [Hn3 Hl2].
  apply links_app in Hl as [_ [(a & b & Ha) _]].
  rewrite !elem_of_app, !elem_of_cons in Hn1. rewrite !elem_of_cons in Hn2.
  split_and!; [naive_solver..| |by exists a, b].
  intros p [Hp|Hp].
  - specialize (Hd p Hp). rewrite !elem_of_cons in Hd. naive_solver.
  - naive_solver.
Qed.

Lemma insert_done a b s' c' :
  items m !! x = Some a -> items m !! y = Some b ->
  s' = <[x := set_next it a]> (<[y := set_prev it b]> (<[it := c']> (items m))) ->
  activity c' = activity c -> item_ts c' = item_ts c ->
  prev c' = Some x -> next c' = Some y ->
  links s' (l1 ++ x :: it :: y :: l2) /\ pay s' = pay (items m).
Proof.
  destruct insert_facts as (H1 & H2 & H3 & H4 & _). intros Ha Hb -> Hac Htc Hp Hn.
  split.
  - eapply (links_splice _ _ _ _ _ _ it a b c'); [done| |done|done|..];
      rewrite ?lookup_insert_eq; try done.
    + intros p (Hp1 & Hp2 & Hp3)%H4. by rewrite !lookup_insert_ne by done.
    + rewrite lookup_insert_ne by done. by rewrite lookup_insert_eq.
    + rewrite !lookup_insert_ne by done. by rewrite lookup_insert_eq.
  - erewrite (pay_insert _ x a); [|by rewrite !lookup_insert_ne by done|done..].
    erewrite (pay_insert _ y b); [|by rewrite !lookup_insert_ne by done|done..].
    by erewrite (pay_insert _ it c).
Qed.

Lemma insertAfter_run :
  exists s', insertAfter x it m = (Val tt, set_items s' m)
    /\ links s' (l1 ++ x :: it :: y :: l2) /\ pay s' = pay (items m).
Proof.
  destruct insert_facts as (H1 & H2 & H3 & H4 & a & b & Ha & Hna & Hb & Hpb).
  unfold insertAfter. erewrite bind_val by by apply item_run.
  rewrite Hna. erewrite bind_val by by apply dassert_true.
  erewrite bind_val by by apply update_run.
  erewrite bind_val.
  2: { apply (getNext_run _ _ a); [|done]. cbn. by rewrite lookup_insert_ne by done. }
  erewrite bind_val.
  2: { apply update_run. cbn. by rewrite lookup_insert_eq. }
  erewrite bind_val.
  2: { apply (update_run _ _ _ b). cbn. by rewrite !lookup_insert_ne by done. }
  erewrite (update_run _ _ _ a).
  2: { cbn. by rewrite !lookup_insert_ne by done. }
  eexists. split; [done|]. cbn. eapply (insert_done a b); [done|done| |..].
  { rewrite insert_insert_eq. done. }
  all: done.
Qed.

Lemma insertBefore_run :
  exists s', insertBefore y it m = (Val tt, set_items s' m)
    /\ links s' (l1 ++ x :: it :: y :: l2) /\ pay s' = pay (items m).
Proof.
  destruct insert_facts as (H1 & H2 & H3 & H4 & a & b & Ha & Hna & Hb & Hpb).
  unfold insertBefore. erewrite bind_val by by apply item_run.
  rewrite Hpb. erewrite bind_val by by apply dassert_true.
  erewrite bind_val by by apply update_run.
  erewrite bind_val.
  2: { apply (getPrevious_run _ _ b); [|done]. cbn. by rewrite lookup_insert_ne by done. }
  erewrite bind_val.
  2: { apply update_run. cbn. by rewrite lookup_insert_eq. }
  erewrite bind_val.
  2: { apply (update_run _ _ _ a). cbn. by rewrite !lookup_insert_ne by done. }
  erewrite (update_run _ _ _ b).
  2: { cbn. by rewrite !lookup_insert_ne by done. }
  eexists. split; [done|]. cbn. eapply (insert_done a b); [done|done| |..].
  { rewrite insert_insert_eq. by rewrite insert_insert_ne by done. }
  all: done.
Qed.
End Insert.

Lemma popAfter_run m h t n l :
  links (items m) (h :: t :: n :: l) -> NoDup (h :: t :: n :: l) ->
  exists s', popAfter h m = (Val t, set_items s' m)
    /\ links s' (h :: n :: l) /\ pay s' = pay (items m).
Proof.
  intros [(a & b & Ha & Hna & Hb & Hpb) [(b' & c & Hb' & Hnb & Hc & Hpc) Hl]] Hnd.
  simplify_eq. apply NoDup_cons in Hnd as [N1 [N2 [N3 Hnd]%NoDup_cons]%NoDup_cons].
  rewrite !elem_of_cons in N1. rewrite !elem_of_cons in N2.
  assert (h <> t /\ h <> n /\ t <> n) as (D1 & D2 & D3) by naive_solver.
  unfold popAfter. erewrite bind_val by by apply item_run.
  rewrite Hna. erewrite bind_val by by apply dassert_true.
  erewrite bind_val by by eapply getNext_run.
  erewrite bind_val by by apply item_run.
  rewrite Hnb. erewrite bind_val by by apply dassert_true.
  erewrite bind_val by by eapply getNext_run.
  erewrite bind_val by by apply update_run.
  erewrite bind_val.
  2: { apply (update_run _ _ _ c). cbn. by rewrite lookup_insert_ne by done. }
  eexists. split; [done|]. cbn [items set_items]. split; [split|].
  - exists (set_next n a), (set_prev h c).
    rewrite lookup_insert_ne, !lookup_insert_eq by done. done.
  - eapply links_right; [exact Hl| |exact Hc|by rewrite lookup_insert_eq|done].
    intros p Hp. rewrite !lookup_insert_ne; [done|naive_solver..].
  - erewrite (pay_insert _ n c); [|by rewrite !lookup_insert_ne by done|done..].
    by erewrite (pay_insert _ h a).
Qed.

(** ** The importance of an item *)

Definition order_of (a : gmap nat Activity) (i : nat) : Z := default 0 (order <$> a !! i).

(** Its order less its start, weighed: the value the items are compared by. *)
Definition importance (a : gmap nat Activity) (e : nat * TimeSpec) : Z :=
  order_of a e.1 - time_weight * validity_start e.2.

(** Two items the comparison can handle: no intermediate overflows. *)
Definition comparable (a : gmap nat Activity) (x y : nat * TimeSpec) : Prop :=
  is_u32 (validity_start x.2) /\ is_u32 (validity_start y.2)
  /\ is_s32 (order_of a x.1 - order_of a y.1)
  /\ is_s32 (time_weight * (validity_start x.2 - validity_start y.2))
  /\ is_s32 (importance a x - importance a y).

Lemma act_run i m a : acts m !! i = Some a -> act (Some i) m = (Val a, m).
Proof. intros E. unfold act. mrun. by rewrite E. Qed.

Lemma lift_run {A} (o : outcome A) (m : W) a : o = Val a -> lift o m = (Val a, m).
Proof. by intros ->. Qed.

Lemma less_run m x y e f :
  activity x = Some e.1 -> item_ts x = e.2 -> activity y = Some f.1 -> item_ts y = f.2 ->
  is_Some (acts m !! e.1) -> is_Some (acts m !! f.1) -> comparable (acts m) e f ->
  less x y m = (Val (importance (acts m) e <? importance (acts m) f), m).
Proof.
  intros Hx1 Hx2 Hy1 Hy2 [ax Hax] [ay Hay] (Hs1 & Hs2 & Ho & Hw & Hi).
  unfold less. rewrite Hx1, Hx2, Hy1, Hy2.
  erewrite bind_val by by apply act_run. erewrite bind_val by by apply act_run.
  unfold importance, order_of in *. rewrite Hax, Hay in *. cbn in Ho, Hi |- *.
  cbv zeta. erewrite bind_val by (apply lift_run; by apply isub_val).
  unfold time_weight in *.
  destruct (_ <? _) eqn:Et;
    rewrite (u32_id (_ - _)) by (open_width; lia);
    rewrite (s32_id (_ - _)) by (open_width; lia).
  - erewrite bind_val.
    2: { apply lift_run. unfold imul. rewrite bool_decide_true; [done|]. open_width; lia. }
    erewrite bind_val.
    2: { apply lift_run, isub_val. open_width; lia. }
    unfold mret, M_ret. do 2 f_equal. apply eq_true_iff_eq. rewrite !Z.ltb_lt. lia.
  - erewrite bind_val.
    2: { apply lift_run. unfold imul. rewrite bool_decide_true; [done|]. open_width; lia. }
    erewrite bind_val.
    2: { apply lift_run, iadd_val. open_width; lia. }
    unfold mret, M_ret. do 2 f_equal. apply eq_true_iff_eq. rewrite !Z.ltb_lt. lia.
Qed.

Lemma last_node (h : ptr) l : exists k, h :: l = k ++ [List.last l h].
Proof.
  induction l as [|p l _] using rev_ind; [by exists []|].
  exists (h :: l). by rewrite last_last.
Qed.

Definition carries (m : ActivityManager) (p : ptr) (e : nat * TimeSpec) : Prop :=
  pay (items m) !! p = Some (Some e.1, e.2).

(** The loop stops at the last item that is at least as important. *)
Lemma find_place_run m it e ids q fuel :
  links (items m) (head m :: ids) -> NoDup (head m :: ids) ->
  Forall2 (carries m) ids q -> carries m it e ->
  is_Some (acts m !! e.1) -> Forall (fun y => is_Some (acts m !! y.1)) q ->
  Forall (fun y => comparable (acts m) y e) q -> (length ids <= fuel)%nat ->
  exists ids1 ids2 q1 q2, ids = ids1 ++ ids2 /\ q = q1 ++ q2
    /\ Forall2 (carries m) ids1 q1 /\ Forall2 (carries m) ids2 q2
    /\ find_place fuel (List.last ids (head m)) it m
       = (Val (List.last ids1 (head m)), m)
    /\ Forall (fun y => importance (acts m) y < importance (acts m) e) q2
    /\ forall y, last q1 = Some y -> importance (acts m) e <= importance (acts m) y.
Proof.
  intros Hl Hnd Hq Hit Hae. revert q fuel Hl Hnd Hq.
  induction ids as [|p ids IH] using rev_ind; intros q fuel Hl Hnd Hq Ha Hc Hf.
  { inversion Hq; subst. exists [], [], [], []. split_and!; try done.
    destruct fuel; cbn [find_place]; mrun; by rewrite decide_True. }
  apply Forall2_app_inv_l in Hq as (q0 & qy & Hq0 & Hqy & ->).
  inversion Hqy as [|? y ? l Hy Hnil]; subst. inversion Hnil; subst.
  apply Forall_app in Ha as [Ha0 Hay]. apply Forall_app in Hc as [Hc0 Hcy].
  inversion Hay as [|? ? Hay' _]; subst. inversion Hcy as [|? ? Hcy' _]; subst.
  rewrite last_last.
  destruct (pay_lookup _ _ _ Hy) as (x & Hx & Hx1 & Hx2).
  destruct (pay_lookup _ _ _ Hit) as (z & Hz & Hz1 & Hz2).
  assert (p <> head m) as Hp.
  { apply NoDup_cons in Hnd as [Hn _]. intros ->. apply Hn. set_solver. }
  rewrite length_app in Hf. cbn in Hf.
  destruct fuel as [|fuel]; [lia|]. cbn [find_place].
  erewrite bind_val by reflexivity. rewrite decide_False by done.
  erewrite bind_val by by apply item_run. erewrite bind_val by by apply item_run.
  erewrite bind_val by (by apply (less_run m x z y e)).
  destruct (_ <? _) eqn:Et.
  - rewrite app_comm_cons in Hl, Hnd.
    destruct (last_node (head m) ids) as [k Hk].
    assert (linked (items m) (List.last ids (head m)) p) as (a & b & _ & _ & Hb & Hpb).
    { rewrite Hk, <- (assoc_L (++)) in Hl. apply links_app in Hl as [_ [? _]]. done. }
    simplify_eq. erewrite bind_val by by eapply getPrevious_run.
    apply NoDup_app in Hnd as (Hnd & _ & _).
    assert (links (items m) (head m :: ids)) as Hl'.
    { rewrite Hk in Hl |- *. rewrite <- (assoc_L (++)) in Hl.
      by apply links_app in Hl as [? _]. }
    destruct (IH q0 fuel Hl' Hnd Hq0 Ha0 Hc0) as
      (ids1 & ids2 & q1 & q2 & -> & -> & H1 & H2 & Hr & H3 & H4); [lia|].
    exists ids1, (ids2 ++ [p]), q1, (q2 ++ [y]).
    rewrite <- !(assoc_L (++)). split_and!; try done.
    + by apply Forall2_app.
    + apply Forall_app. split; [done|]. constructor; [lia|constructor].
  - exists (ids ++ [p]), [], (q0 ++ [y]), []. rewrite !app_nil_r, last_last.
    split_and!; try done.
    + apply Forall2_app; [done|]. by constructor.
    + intros y'. rewrite last_snoc. intros [= <-]. lia.
Qed.

(** ** Scheduling *)

Definition counted (a : Activity) : Activity :=
  set_counts (no_schedules a + 1) (no_despatches a) a.

(** The activities keep their orders. *)
Definition same_orders (a a' : gmap nat Activity) : Prop :=
  forall i, order <$> a' !! i = order <$> a !! i.

Lemma same_orders_insert (a : gmap nat Activity) i x y :
  a !! i = Some x -> order y = order x -> same_orders a (<[i := y]> a).
Proof.
  intros Hx Ho j. destruct (decide (j = i)) as [->|].
  - rewrite lookup_insert_eq, Hx. cbn. by rewrite Ho.
  - by rewrite lookup_insert_ne by done.
Qed.

Lemma same_orders_importance a a' e :
  same_orders a a' -> importance a' e = importance a e.
Proof. intros H. unfold importance, order_of. by rewrite H. Qed.

Lemma same_orders_some a a' i : same_orders a a' -> is_Some (a !! i) -> is_Some (a' !! i).
Proof.
  intros H [x Hx]. specialize (H i). rewrite Hx in H.
  destruct (a' !! i); [done|]. by cbn in H.
Qed.

Lemma same_orders_comparable a a' x y :
  same_orders a a' -> comparable a x y -> comparable a' x y.
Proof.
  intros H. unfold comparable. rewrite !(same_orders_importance a a') by done.
  unfold order_of. by rewrite !H.
Qed.

Definition allocated (m : ActivityManager) (i : nat) (a : Activity) (t : TimeSpec)
    : ActivityManager :=
  mkMgr (<[brk m := new_item (Some i) t]> (items m)) (S (brk m)) (head m) (tail m)
    (to_do m) (prio m) (qsize m) (triggerq m) (<[i := counted a]> (acts m)) (ran m).

Lemma alloc_run m i a t :
  acts m !! i = Some a -> alloc (Some i) t m = (Val (brk m), allocated m i a t).
Proof.
  intros Ha. unfold alloc. erewrite bind_val by reflexivity.
  erewrite bind_val by reflexivity. erewrite bind_val.
  2: { erewrite bind_val by by apply act_run. reflexivity. }
  done.
Qed.

Lemma rep_fresh m ids q p : rep m ids q -> p ∈ head m :: ids ++ [tail m] -> p <> brk m.
Proof.
  intros H Hp ->. destruct H as [_ Hl _ _ _ Hb _ _].
  assert (is_Some (items m !! brk m)) as Hs; [|specialize (Hb _ Hs); lia].
  apply list_elem_of_split in Hp as (k1 & k2 & E). rewrite E in Hl.
  destruct k2 as [|y k2].
  - destruct k1 as [|x k1 _] using rev_ind.
    { destruct ids; discriminate. }
    rewrite <- (assoc_L (++)) in Hl. apply links_app in Hl as [_ [(a & b & ? & ? & ? & ?) _]].
    by exists b.
  - apply links_app in Hl as [_ [(a & b & ? & ? & ? & ?) _]]. by exists a.
Qed.

Lemma carries_size m ids q :
  NoDup ids -> Forall2 (carries m) ids q -> (length ids <= size (items m))%nat.
Proof.
  intros Hnd Hq. rewrite <- size_dom.
  assert (list_to_set ids ⊆ dom (items m)) as Hsub%subseteq_size.
  { intros p. rewrite elem_of_list_to_set. intros [k Hk]%list_elem_of_lookup.
    destruct (Forall2_lookup_l _ _ _ _ _ Hq Hk) as (e & _ & He).
    apply pay_lookup in He as (x & Hx & _). apply elem_of_dom. by exists x. }
  by rewrite size_list_to_set in Hsub.
Qed.

(** A new item, allocated but not linked yet. *)
Lemma allocated_facts m i a t ids q :
  rep m ids q -> acts m !! i = Some a ->
  let m1 := allocated m i a t in
  links (items m1) (head m :: ids ++ [tail m])
  /\ NoDup (brk m :: head m :: ids ++ [tail m])
  /\ Forall2 (carries m1) ids q /\ carries m1 (brk m) (i, t)
  /\ same_orders (acts m) (acts m1).
Proof.
  intros Hr Ha m1. pose proof (rep_fresh _ _ _ (brk m) Hr) as Hfr.
  assert (forall p, p ∈ head m :: ids ++ [tail m] -> items m1 !! p = items m !! p) as Hsame.
  { intros p Hp. cbn. rewrite lookup_insert_ne; [done|]. intros E.
    by apply (rep_fresh _ _ _ p Hr Hp). }
  destruct Hr as [Hnd Hl Hq Htd [xd Hxd] Hb Hac Hqs]. split_and!.
  - by eapply links_ext.
  - constructor; [|done]. intros Hin. by apply Hfr.
  - eapply Forall2_impl; [exact Hq|]. intros p e Hp. unfold carries, pay in *.
    rewrite lookup_fmap in *. destruct (items m !! p) as [x|] eqn:Ep; [|done].
    assert (p <> brk m) by (intros ->; specialize (Hb (brk m) (ex_intro _ _ Ep)); lia).
    cbn. rewrite lookup_insert_ne by done. by rewrite Ep.
  - unfold carries, pay. cbn. by rewrite lookup_fmap, lookup_insert_eq.
  - by eapply same_orders_insert.
Qed.

(** What scheduling leaves alone. *)
Record untouched (m m' : ActivityManager) : Prop := {
  un_head : head m' = head m;
  un_tail : tail m' = tail m;
  un_to_do : to_do m' = to_do m;
  un_prio : prio m' = prio m;
  un_triggerq : triggerq m' = triggerq m;
  un_ran : ran m' = ran m
}.

Lemma rep_inserted m i a t ids1 ids2 q1 q2 s' :
  rep m (ids1 ++ ids2) (q1 ++ q2) -> acts m !! i = Some a ->
  Forall2 (carries (allocated m i a t)) ids1 q1 ->
  Forall2 (carries (allocated m i a t)) ids2 q2 ->
  links s' (head m :: ids1 ++ brk m :: ids2 ++ [tail m]) ->
  pay s' = pay (items (allocated m i a t)) ->
  rep (set_qsize (qsize m + 1) (set_items s' (allocated m i a t)))
    (ids1 ++ brk m :: ids2) (q1 ++ (i, t) :: q2).
Proof.
  intros Hr Ha H1 H2 Hl Hp.
  destruct (allocated_facts _ _ _ t _ _ Hr Ha) as (_ & Hnd & _ & Hit & Hso).
  destruct Hr as [_ _ _ Htd [xd Hxd] Hb Hac Hqs].
  assert (head m :: (ids1 ++ brk m :: ids2) ++ [tail m]
          ≡ₚ brk m :: head m :: (ids1 ++ ids2) ++ [tail m]) as HP.
  { rewrite <- !(assoc_L (++)). cbn. rewrite <- Permutation_middle. apply perm_swap. }
  assert (to_do m <> brk m) as Hne.
  { intros E. specialize (Hb (to_do m) (ex_intro _ _ Hxd)). lia. }
  split; cbn [set_qsize set_items allocated items head tail to_do brk acts qsize].
  - by rewrite HP.
  - by rewrite <- (assoc_L (++)).
  - apply Forall2_app; [|constructor].
    + eapply Forall2_impl; [exact H1|]. intros ??. unfold carries. by rewrite Hp.
    + rewrite Hp. exact Hit.
    + eapply Forall2_impl; [exact H2|]. intros ??. unfold carries. by rewrite Hp.
  - rewrite HP, elem_of_cons. tauto.
  - assert (pay s' !! to_do m = Some (activity xd, item_ts xd)) as E.
    { rewrite Hp. unfold pay. cbn. by rewrite lookup_fmap, lookup_insert_ne, Hxd. }
    apply pay_lookup in E as (x & -> & _). done.
  - intros p Hs%(pay_same_dom (items (allocated m i a t))); [|done].
    cbn in Hs. destruct (decide (p = brk m)) as [->|]; [lia|].
    rewrite lookup_insert_ne in Hs by done. specialize (Hb _ Hs). lia.
  - apply Forall_app in Hac as [Hac1 Hac2].
    apply Forall_app; split; [|constructor].
    + eapply list.Forall_impl; [exact Hac1|]. intros y. by apply same_orders_some.
    + cbn. rewrite lookup_insert_eq. done.
    + eapply list.Forall_impl; [exact Hac2|]. intros y. by apply same_orders_some.
  - rewrite Hqs, !length_app. cbn. lia.
Qed.

Definition place (m : ActivityManager) (e : nat * TimeSpec)
    (q1 q2 : list (nat * TimeSpec)) : Prop :=
  if prio m =? 0 then q2 = []
  else Forall (fun y => importance (acts m) y < importance (acts m) e) q2
       /\ forall y, last q1 = Some y -> importance (acts m) e <= importance (acts m) y.

(** Linking the new item, in each of the two disciplines. *)
Section Link.
Context (m : ActivityManager) (ids : list ptr) (q : list (nat * TimeSpec))
  (i : nat) (a : Activity) (t : TimeSpec)
  (Hr : rep m ids q) (Ha : acts m !! i = Some a).
Let m1 := allocated m i a t.

Definition linked_in (c : W -> outcome unit * W) (q1 q2 : list (nat * TimeSpec)) : Prop :=
  exists s' ids1 ids2, c m1 = (Val tt, set_items s' m1)
    /\ ids = ids1 ++ ids2
    /\ Forall2 (carries m1) ids1 q1 /\ Forall2 (carries m1) ids2 q2
    /\ links s' (head m :: ids1 ++ brk m :: ids2 ++ [tail m])
    /\ pay s' = pay (items m1).

Lemma link_last : linked_in (insertBefore (tail m) (brk m)) q [].
Proof.
  destruct (allocated_facts _ _ _ t _ _ Hr Ha) as (Hl & Hnd & Hq & Hit & Hso).
  pose proof Hit as (c & Hc & _)%pay_lookup.
  destruct (last_node (head m) ids) as [k Hk].
  assert (head m :: ids ++ [tail m] = k ++ List.last ids (head m) :: tail m :: [])
    as En by (rewrite app_comm_cons, Hk, <- (assoc_L (++)); done).
  rewrite En in Hl, Hnd.
  destruct (insertBefore_run m1 _ _ _ _ _ c Hl Hnd Hc) as (s' & Hi & Hl' & Hp').
  exists s', ids, []. rewrite app_nil_r. split_and!; try done.
  by rewrite app_comm_cons, Hk, <- (assoc_L (++)).
Qed.

Lemma nodes_prefix :
  links (items m1) (head m :: ids) /\ NoDup (head m :: ids)
  /\ exists y, items m1 !! tail m = Some y /\ prev y = Some (List.last ids (head m)).
Proof.
  destruct (allocated_facts _ _ _ t _ _ Hr Ha) as (Hl & Hnd & _).
  destruct (last_node (head m) ids) as [k Hk].
  fold m1 in Hl. rewrite app_comm_cons in Hl, Hnd. split_and!.
  - rewrite Hk in Hl |- *. rewrite <- (assoc_L (++)) in Hl. by apply links_app in Hl as [? _].
  - apply NoDup_cons in Hnd as [_ Hnd]. by apply NoDup_app in Hnd as [? _].
  - rewrite Hk, <- (assoc_L (++)) in Hl.
    apply links_app in Hl as [_ [(x & y & ? & ? & ? & ?) _]]. by exists y.
Qed.

Lemma link_by_importance :
  Forall (fun y => comparable (acts m) y (i, t)) q ->
  exists q1 q2, q = q1 ++ q2
    /\ linked_in (tmp ← getPrevious (tail m);
                  tmp ← find_place (size (items m1)) tmp (brk m);
                  insertAfter tmp (brk m)) q1 q2
    /\ Forall (fun y => importance (acts m) y < importance (acts m) (i, t)) q2
    /\ forall y, last q1 = Some y ->
         importance (acts m) (i, t) <= importance (acts m) y.
Proof.
  intros Hc.
  destruct (allocated_facts _ _ _ t _ _ Hr Ha) as (Hl & Hnd & Hq & Hit & Hso).
  pose proof Hit as (c & Hc' & _)%pay_lookup.
  destruct nodes_prefix as (Hl0 & Hnd0 & y & Hy & Hpy).
  destruct (find_place_run m1 (brk m) (i, t) ids q (size (items m1))) as
    (ids1 & ids2 & q1 & q2 & Ei & -> & Hq1 & Hq2 & Hf & Hlt & Hge); try done.
  { cbn. by rewrite lookup_insert_eq. }
  { eapply list.Forall_impl; [apply Hr|]. intros e. by apply same_orders_some. }
  { eapply list.Forall_impl; [apply Hc|]. intros e. by apply same_orders_comparable. }
  { eapply carries_size; [|exact Hq]. by apply NoDup_cons in Hnd0 as [_ ?]. }
  exists q1, q2. split; [done|]. split; [|split].
  - destruct (last_node (head m) ids1) as [k1 Hk1].
    destruct (ids2 ++ [tail m]) as [|z l2] eqn:Ez; [by destruct ids2|].
    assert (head m :: ids ++ [tail m] = k1 ++ List.last ids1 (head m) :: z :: l2) as En.
    { by rewrite Ei, <- (assoc_L (++)), app_comm_cons, Hk1, Ez, <- (assoc_L (++)). }
    rewrite En in Hl, Hnd.
    destruct (insertAfter_run m1 _ _ _ _ _ c Hl Hnd Hc') as (s' & Hi & Hl' & Hp').
    exists s', ids1, ids2. split_and!; try done.
    + erewrite bind_val by by eapply getPrevious_run.
      by erewrite bind_val by exact Hf.
    + by rewrite app_comm_cons, Hk1, Ez, <- (assoc_L (++)).
  - eapply list.Forall_impl; [exact Hlt|]. intros e.
    by rewrite !(same_orders_importance (acts m) (acts m1)).
  - intros e He. specialize (Hge e He).
    by rewrite !(same_orders_importance (acts m) (acts m1)) in Hge.
Qed.
End Link.

Lemma schedule_run m ids q i a t :
  rep m ids q -> acts m !! i = Some a -> validity_start t <= validity_end t ->
  (prio m <> 0 -> Forall (fun y => comparable (acts m) y (i, t)) q) ->
  exists m' ids' q1 q2,
    schedule i t m = (Val tt, m') /\ q = q1 ++ q2
    /\ rep m' ids' (q1 ++ (i, t) :: q2) /\ place m (i, t) q1 q2
    /\ untouched m m' /\ acts m' = <[i := counted a]> (acts m).
Proof.
  intros Hr Ha Ht Hc. unfold schedule. erewrite bind_val.
  2: { apply lift_run. unfold TS.of_data. rewrite passert_true by lia. reflexivity. }
  replace (mkTS (validity_start t) (validity_end t)) with t by (by destruct t).
  erewrite bind_val by by apply alloc_run. erewrite bind_val by reflexivity.
  change (prio (allocated m i a t)) with (prio m).
  change (tail (allocated m i a t)) with (tail m). unfold place.
  destruct (prio m =? 0) eqn:Ep; cbn [negb].
  - destruct (link_last m ids q i a t Hr Ha) as (s' & ids1 & ids2 & Hi & -> & H1 & H2 & ?).
    erewrite bind_val by exact Hi. eexists _, (ids1 ++ brk m :: ids2), q, [].
    split_and!; [reflexivity|by rewrite app_nil_r| |done|done|done].
    apply (rep_inserted m); try done; [by rewrite app_nil_r|naive_solver..].
  - destruct (link_by_importance m ids q i a t Hr Ha) as
      (q1 & q2 & -> & (s' & ids1 & ids2 & Hi & -> & H1 & H2 & ? & ?) & H3 & H4).
    { apply Hc. lia. }
    erewrite bind_val by exact Hi. eexists _, (ids1 ++ brk m :: ids2), q1, q2.
    split_and!; [reflexivity|done|by apply (rep_inserted m)|done..].
Qed.

(** ** Taking the next item *)

Lemma pay_ext s s' ids (q : list (nat * TimeSpec)) :
  Forall2 (fun p e => pay s !! p = Some (Some e.1, e.2)) ids q ->
  (forall p, p ∈ ids -> s' !! p = s !! p) ->
  Forall2 (fun p e => pay s' !! p = Some (Some e.1, e.2)) ids q.
Proof.
  induction 1 as [|p e ids q Hp Hq IH]; intros Hs; constructor.
  - unfold pay in *. rewrite lookup_fmap in *. by rewrite Hs by left.
  - apply IH. intros r Hr. apply Hs. by right.
Qed.

Lemma take_next_run m ids q i t :
  rep m ids ((i, t) :: q) ->
  exists p m' ids', take_next m = (Val p, m') /\ rep m' ids' q
    /\ carries m' p (i, t) /\ acts m' = acts m /\ prio m' = prio m
    /\ triggerq m' = triggerq m /\ ran m' = ran m
    /\ head m' = head m /\ tail m' = tail m.
Proof.
  intros [Hnd Hl Hq Htd [xd Hxd] Hb Hac Hqs].
  destruct ids as [|p ids]; [by inversion Hq|].
  assert (forall r, r ∈ head m :: (p :: ids) ++ [tail m] ->
    delete (to_do m) (items m) !! r = items m !! r) as Hsame.
  { intros r Hr. rewrite lookup_delete_ne; [done|]. intros E. by rewrite E in Htd. }
  eapply (links_ext _ (delete (to_do m) (items m))) in Hl; [|exact Hsame].
  eapply (pay_ext _ (delete (to_do m) (items m))) in Hq.
  2: { intros r Hr. apply Hsame. right. apply elem_of_app. by left. }
  apply list.Forall2_cons in Hq as [Hp Hq]. apply list.Forall_cons in Hac as [_ Hac].
  unfold take_next. erewrite bind_val by reflexivity.
  erewrite bind_val by by apply item_run. erewrite bind_val by reflexivity.
  set (m1 := set_items (delete (to_do m) (items m)) m).
  destruct (ids ++ [tail m]) as [|n l] eqn:En; [by destruct ids|].
  cbn [app] in Hl, Hnd. rewrite En in Hl, Hnd.
  destruct (popAfter_run m1 (head m) p n l Hl Hnd) as (s' & Hpop & Hl' & Hp').
  change (items m1) with (delete (to_do m) (items m)) in Hp'.
  erewrite bind_val by exact Hpop. do 2 erewrite bind_val by reflexivity.
  apply NoDup_cons in Hnd as [Hn1 [Hn2 Hnd]%NoDup_cons].
  rewrite elem_of_cons in Hn1.
  eexists p, _, ids. split; [reflexivity|]. split_and!; try done.
  - split; cbn [set_qsize set_to_do set_items items head tail to_do brk acts qsize m1].
    + rewrite En. constructor; [tauto|done].
    + by rewrite En.
    + by rewrite Hp'.
    + rewrite En, elem_of_cons. naive_solver.
    + rewrite <- Hp' in Hp. apply pay_lookup in Hp as (x & -> & _). done.
    + intros r Hr%(pay_same_dom (delete (to_do m) (items m))); [|done].
      apply Hb. destruct Hr as [x [_ Hx]%lookup_delete_Some]. by exists x.
    + done.
    + rewrite Hqs. cbn [length]. lia.
  - unfold carries. cbn [set_qsize set_to_do set_items items]. by rewrite Hp'.
Qed.

(** The bookkeeping survives what a callback does. *)
Definition same_books (a a' : Activity) : Prop :=
  order a' = order a /\ no_schedules a' = no_schedules a
  /\ no_despatches a' = no_despatches a.

Lemma calls_books l a o a' : Act.calls l a = (o, a') -> same_books a a'.
Proof.
  revert a. induction l as [|c l IH]; intros a; cbn [Act.calls].
  { mrun. by intros [= <- <-]. }
  unfold mbind, M_bind. destruct (Act.call c a) as [o1 a1] eqn:E.
  assert (same_books a a1) as (H1 & H2 & H3).
  { destruct c; revert E; cbn [Act.call]; unfold switchOn, switchOff, setTimeSpec; mrun;
      repeat case_match; intros; by simplify_eq/=. }
  destruct o1.
  - intros (? & ? & ?)%IH. unfold same_books. by rewrite <- H1, <- H2, <- H3.
  - by intros [= <- <-].
  - by intros [= <- <-].
Qed.

Lemma run_callback_books f t a o a' : run_callback f t a = (o, a') -> same_books a a'.
Proof.
  unfold run_callback. erewrite bind_val by reflexivity.
  destruct (_ <=? _); [|by intros [= <- <-]].
  unfold mbind at 1, M_bind at 1. destruct (Act.calls _ a) as [o1 a1] eqn:E.
  apply calls_books in E as (H1 & H2 & H3). unfold same_books.
  destruct o1; unfold switchOff; mrun; [|by intros [= <- <-]..].
  destruct (bh_throws _); [by intros [= <- <-]|].
  destruct (decide _); by intros [= <- <-].
Qed.

Lemma brake_books f t a o a' : brake f t a = (o, a') -> same_books a a'.
Proof.
  unfold brake. erewrite bind_val by reflexivity. unfold when.
  destruct (_ <=? _); erewrite bind_val by reflexivity; apply run_callback_books.
Qed.

Lemma despatch_books f t a o a' : Act.despatch f t a = (o, a') -> same_books a a'.
Proof.
  unfold Act.despatch. erewrite bind_val by reflexivity.
  destruct (run_state a); try apply run_callback_books; try apply brake_books;
    try (by intros [= <- <-]).
  destruct (_ && _); [by intros [= <- <-]|apply brake_books].
Qed.

(** ** The invariant *)

Definition sorted (a : gmap nat Activity) (q : list (nat * TimeSpec)) : Prop :=
  StronglySorted (fun x y => importance a y <= importance a x) q.

Definition behind (i : nat) (q : list (nat * TimeSpec)) : Z :=
  Z.of_nat (length (filter (fun e => e.1 = i) q)).

(** The items are linked both ways and carry the queue [q]; unless the priority
    is 0 the queue is ordered by importance; and every activity's counters tell
    how many of its items wait. *)
Record ok (m : ActivityManager) (q : list (nat * TimeSpec)) : Prop := {
  ok_rep : exists ids, rep m ids q;
  ok_sorted : prio m <> 0 -> sorted (acts m) q;
  ok_behind : forall i a, acts m !! i = Some a -> numScheduledBehind a = behind i q
}.

Lemma same_orders_sorted a a' q : same_orders a a' -> sorted a q -> sorted a' q.
Proof.
  intros H Hs. induction Hs as [|x q Hs IH Hx]; constructor; [done|].
  eapply list.Forall_impl; [exact Hx|]. intros y. cbn.
  by rewrite !(same_orders_importance a a' _ H).
Qed.

Lemma sorted_insert a e q1 q2 :
  sorted a (q1 ++ q2) ->
  (forall y, last q1 = Some y -> importance a e <= importance a y) ->
  Forall (fun y => importance a y < importance a e) q2 ->
  Forall (fun y => importance a e <= importance a y) q1 /\ sorted a (q1 ++ e :: q2).
Proof.
  intros Hs Hl H2.
  assert (Forall (fun y => importance a e <= importance a y) q1) as H1.
  { destruct q1 as [|y q1 _] using rev_ind; [constructor|].
    specialize (Hl y (last_snoc _ _)). apply Forall_app. split; [|by constructor].
    apply list.Forall_forall. intros z Hz. rewrite <- (assoc_L (++)) in Hs.
    apply StronglySorted_app in Hs as [Hs _]. specialize (Hs z y Hz ltac:(left)).
    cbn in Hs. lia. }
  split; [done|]. induction q1 as [|y q1 IH]; cbn in *.
  - constructor; [done|]. eapply list.Forall_impl; [exact H2|]. cbn. lia.
  - inversion Hs as [|? ? Hs' Hy]; subst. inversion H1 as [|? ? Hye H1']; subst.
    constructor.
    + apply IH; [done| |done]. intros z Hz. apply Hl. rewrite last_cons, Hz. done.
    + apply Forall_app in Hy as [? ?]. apply Forall_app. split; [done|].
      constructor; done.
Qed.

Lemma behind_insert i j t q1 q2 :
  behind j (q1 ++ (i, t) :: q2) = behind j (q1 ++ q2) + (if decide (i = j) then 1 else 0).
Proof.
  unfold behind. rewrite !filter_app, filter_cons. cbn [fst].
  destruct (decide (i = j)); rewrite !length_app; cbn [length]; lia.
Qed.

Definition placed (m : ActivityManager) (e : nat * TimeSpec)
    (q1 q2 : list (nat * TimeSpec)) : Prop :=
  if prio m =? 0 then q2 = []
  else Forall (fun y => importance (acts m) e <= importance (acts m) y) q1
       /\ Forall (fun y => importance (acts m) y < importance (acts m) e) q2.

Lemma schedule_ok m q i a t :
  ok m q -> acts m !! i = Some a -> validity_start t <= validity_end t ->
  (prio m <> 0 -> Forall (fun y => comparable (acts m) y (i, t)) q) ->
  exists m' q1 q2,
    schedule i t m = (Val tt, m') /\ q = q1 ++ q2 /\ ok m' (q1 ++ (i, t) :: q2)
    /\ placed m (i, t) q1 q2 /\ untouched m m' /\ acts m' = <[i := counted a]> (acts m).
Proof.
  intros [[ids Hr] Hs Hb] Ha Ht Hc.
  destruct (schedule_run m ids q i a t) as
    (m' & ids' & q1 & q2 & E & -> & Hr' & Hpl & Hu & Hacts); try done.
  exists m', q1, q2. split_and!; try done; [split; [by exists ids'| |]|].
  - rewrite (un_prio _ _ Hu). intros Hp. unfold place in Hpl.
    rewrite (proj2 (Z.eqb_neq (prio m) 0) Hp) in Hpl. destruct Hpl as [H2 Hl].
    destruct (sorted_insert (acts m) (i, t) q1 q2) as [_ Hs']; [by apply Hs|done..|].
    eapply same_orders_sorted; [|exact Hs']. rewrite Hacts. by eapply same_orders_insert.
  - intros j b. rewrite behind_insert, Hacts. intros [[<- <-]|[Hne Hj]]%lookup_insert_Some.
    + rewrite decide_True by done. rewrite <- (Hb _ _ Ha). unfold numScheduledBehind. cbn. lia.
    + rewrite decide_False by done. rewrite (Hb _ _ Hj). lia.
  - unfold place, placed in *. destruct (prio m =? 0) eqn:Ep; [done|].
    destruct Hpl as [H2 Hl]. split; [|done].
    apply (sorted_insert (acts m) (i, t) q1 q2); [|done..]. apply Hs. lia.
Qed.


Lemma rep_set_acts m ids q a :
  rep m ids q -> same_orders (acts m) a -> rep (set_acts a m) ids q.
Proof.
  intros [? ? ? ? ? ? Hac ?] Hs. split; try done.
  eapply list.Forall_impl; [exact Hac|]. intros e. by apply same_orders_some.
Qed.

Lemma rep_set_triggerq m ids q l : rep m ids q -> rep (set_triggerq l m) ids q.
Proof. by intros []. Qed.
Lemma rep_set_ran m ids q l : rep m ids q -> rep (set_ran l m) ids q.
Proof. by intros []. Qed.

(** The atoms a callback adds. *)
Lemma add_atoms_run l m :
  add_atoms l m = (Val tt, set_triggerq (triggerq m ++ l) m).
Proof.
  revert m. induction l as [|[i t] l IH]; intros m; cbn [add_atoms].
  - rewrite app_nil_r. by destruct m.
  - unfold addAtom. erewrite bind_val by reflexivity. rewrite IH. cbn.
    by rewrite <- (assoc_L (++)).
Qed.

(** An activity when its item is taken up. *)
Definition taken (a : Activity) : Activity :=
  set_counts (no_schedules a) (no_despatches a + 1) a.

Section Next.
Context (f : nat -> TimeSpec -> Behaviour) (writes : nat -> TimeSpec -> list (nat * TimeSpec)).

Definition next_state (m : ActivityManager) (i : nat) (t : TimeSpec) (a' : Activity)
    (r : option (TimeSpec * bool)) (m' : ActivityManager) : Prop :=
  acts m' = <[i := a']> (acts m) /\ prio m' = prio m
  /\ ran m' = ran m ++ (match r with Some sp => [(i, sp)] | None => [] end)
  /\ triggerq m' = triggerq m ++ (match r with Some _ => writes i t | None => [] end).

Lemma despatch_run m p i t a r a' ids q :
  rep m ids q -> carries m p (i, t) -> acts m !! i = Some a ->
  Act.despatch (f i) t (taken a) = (Val r, a') ->
  exists m', despatch f writes p m = (Val tt, m') /\ rep m' ids q
    /\ next_state m i t a' r m' /\ head m' = head m /\ tail m' = tail m.
Proof.
  intros Hr Hp Ha Hd. destruct (pay_lookup _ _ _ Hp) as (x & Hx & Hx1 & Hx2).
  cbn in Hx1, Hx2. unfold despatch.
  erewrite bind_val by by apply item_run. rewrite Hx1, Hx2.
  erewrite bind_val by reflexivity. erewrite bind_val by by apply act_run.
  fold (taken a). rewrite Hd.
  erewrite bind_val by reflexivity. erewrite bind_val by reflexivity.
  pose proof (despatch_books _ _ _ _ _ Hd) as (Ho & _).
  assert (rep (set_acts (<[i := a']> (acts m)) m) ids q) as Hr'.
  { apply rep_set_acts; [done|]. by eapply same_orders_insert. }
  destruct r as [sp|].
  - erewrite bind_val by reflexivity. rewrite add_atoms_run.
    eexists. split; [reflexivity|]. split; [|done].
    by apply rep_set_triggerq, rep_set_ran.
  - eexists. split; [reflexivity|]. split; [done|]. unfold next_state. cbn.
    by rewrite !app_nil_r.
Qed.

Definition run_next : M W unit := p ← take_next; despatch f writes p.

Lemma run_next_ok m q i t a r a' :
  ok m ((i, t) :: q) -> acts m !! i = Some a ->
  Act.despatch (f i) t (taken a) = (Val r, a') ->
  exists m', run_next m = (Val tt, m') /\ ok m' q /\ next_state m i t a' r m'.
Proof.
  intros [[ids Hr] Hs Hb] Ha Hd.
  destruct (take_next_run _ _ _ _ _ Hr) as
    (p & m1 & ids1 & Et & Hr1 & Hc & Ea & Ep & Eq & Ern & _).
  rewrite <- Ea in Ha.
  destruct (despatch_run m1 p i t a r a' ids1 q Hr1 Hc Ha Hd) as
    (m' & Ed & Hr' & (H1 & H2 & H3 & H4) & _).
  pose proof (despatch_books _ _ _ _ _ Hd) as (Ho & Hn1 & Hn2).
  exists m'. unfold run_next. erewrite bind_val by exact Et. split; [done|].
  rewrite Ea in *. split; [|unfold next_state; split_and!; congruence].
  split; [by exists ids1| |].
  - rewrite H2, Ep. intros Hp. specialize (Hs Hp).
    apply StronglySorted_cons in Hs as [_ Hs].
    eapply same_orders_sorted; [|exact Hs]. rewrite H1. by eapply same_orders_insert.
  - intros j b. rewrite H1. intros [[<- <-]|[Hne Hj]]%lookup_insert_Some.
    + specialize (Hb _ _ Ha). unfold behind in *. rewrite filter_cons_True in Hb by done.
      cbn [length] in Hb. unfold numScheduledBehind in *. cbn in Hn1, Hn2. lia.
    + rewrite (Hb _ _ Hj). unfold behind. by rewrite filter_cons_False by (cbn; congruence).
Qed.
End Next.

Lemma head_next m ids q :
  rep m ids q -> exists n, getNext (head m) m = (Val n, m) /\ (n = tail m <-> q = []).
Proof.
  intros [Hnd Hl Hq _ _ _ _ _]. destruct Hq as [|p e ids q Hp Hq]; cbn [app] in *.
  - destruct Hl as [(a & b & Ha & Hn & _) _]. exists (tail m).
    by erewrite getNext_run by done.
  - destruct Hl as [(a & b & Ha & Hn & _) _]. exists p. split; [by eapply getNext_run|].
    split; [|done]. intros ->. apply NoDup_cons in Hnd as [_ [Hn2 _]%NoDup_cons].
    destruct Hn2. apply elem_of_app. right. by left.
Qed.

(** A callback whose calls on its activity are all defined. *)
Definition tame (f : nat -> TimeSpec -> Behaviour) : Prop :=
  forall i t a, exists r a', Act.despatch (f i) t a = (Val r, a').

(** The manager always takes up the most important of the waiting items,
    despatches exactly that one, with its span, and is left in its invariant
    with the others still queued, whatever the callback does. *)
Theorem next_most_important f writes m q i t :
  ok m ((i, t) :: q) -> prio m <> 0 -> tame f ->
  exists m' r a',
    run_next f writes m = (Val tt, m') /\ ok m' q /\ next_state writes m i t a' r m'
    /\ Forall (fun y => importance (acts m) y <= importance (acts m) (i, t)) q
    /\ no_despatches a' = no_despatches (default (Act.make 0) (acts m !! i)) + 1.
Proof.
  intros Hok Hp Hf. pose proof Hok as [[ids Hr] Hs _].
  pose proof (rep_acts _ _ _ Hr) as Hac. apply list.Forall_cons in Hac as [[a Ha] _].
  cbn in Ha. destruct (Hf i t (taken a)) as (r & a' & Hd).
  destruct (run_next_ok f writes m q i t a r a' Hok Ha Hd) as (m' & E & Hok' & Hn).
  exists m', r, a'. split_and!; try done.
  - by apply StronglySorted_cons in Hs as [? _].
  - rewrite Ha. cbn. by apply despatch_books in Hd as (_ & _ & ->).
Qed.

(** ** Any sequence of scheduling and running *)

Inductive Op :=
  | Schedule (i : nat) (t : TimeSpec)
  | Next (f : nat -> TimeSpec -> Behaviour)
      (writes : nat -> TimeSpec -> list (nat * TimeSpec)).

(** [Next] is the loop's turn, when the queue is not empty. *)
Definition exec (o : Op) : M W unit :=
  match o with
  | Schedule i t => schedule i t
  | Next f writes =>
      m ← get;
      n ← getNext (head m);
      if decide (n = tail m) then mret tt else run_next f writes
  end.
Fixpoint run (l : list Op) : M W unit :=
  match l with [] => mret tt | o :: l => exec o ;; run l end.

(** Orders and starts within which the comparison cannot overflow. *)
Definition order_ok (a : Activity) : Prop := 0 <= order a <= 1000000000.
Definition start_ok (lo : Z) (t : TimeSpec) : Prop :=
  lo <= validity_start t < lo + 10000000.
Definition op_ok (a : gmap nat Activity) (lo : Z) (o : Op) : Prop :=
  match o with
  | Schedule i t => is_Some (a !! i) /\ start_ok lo t /\ validity_start t <= validity_end t
  | Next f _ => tame f
  end.

Lemma window_comparable a lo x y :
  0 <= lo -> lo + 10000000 <= 4294967296 ->
  (forall i b, a !! i = Some b -> order_ok b) ->
  start_ok lo x.2 -> start_ok lo y.2 -> comparable a x y.
Proof.
  intros H1 H2 Ho Hx Hy.
  assert (forall i, 0 <= order_of a i <= 1000000000) as Hr.
  { intros i. unfold order_of. destruct (a !! i) eqn:E; cbn; [|lia]. by apply Ho in E. }
  pose proof (Hr x.1). pose proof (Hr y.1).
  unfold comparable, importance, start_ok, time_weight in *. open_width. lia.
Qed.

Record in_window (a : gmap nat Activity) (lo : Z) (m : ActivityManager)
    (q : list (nat * TimeSpec)) : Prop := {
  win_ok : ok m q;
  win_orders : same_orders a (acts m);
  win_starts : Forall (fun e => start_ok lo e.2) q
}.

Lemma exec_in_window a lo m q o :
  0 <= lo -> lo + 10000000 <= 4294967296 ->
  (forall i b, a !! i = Some b -> order_ok b) ->
  in_window a lo m q -> op_ok a lo o ->
  exists m' q', exec o m = (Val tt, m') /\ in_window a lo m' q'.
Proof.
  intros H1 H2 Ho [Hok Hso Hst] Hop. destruct o as [i t|f writes]; cbn [exec op_ok] in *.
  - destruct Hop as (Hi & Ht & Hle). apply (same_orders_some _ _ _ Hso) in Hi as [b Hb].
    destruct (schedule_ok m q i b t Hok Hb Hle) as
      (m' & q1 & q2 & E & -> & Hok' & _ & _ & Ea).
    { intros _. eapply list.Forall_impl; [exact Hst|]. intros e He. cbn in He.
      apply (same_orders_comparable _ _ _ _ Hso). by eapply window_comparable. }
    exists m', (q1 ++ (i, t) :: q2). split; [done|]. split; [done| |].
    + rewrite Ea. intros j. rewrite <- (Hso j).
      by apply (same_orders_insert (acts m) i b (counted b)).
    + apply Forall_app in Hst as [? ?]. apply Forall_app. split; [done|].
      by constructor.
  - pose proof Hok as [[ids Hr] _ _]. destruct (head_next _ _ _ Hr) as (n & En & Hn).
    erewrite bind_val by reflexivity. erewrite bind_val by exact En.
    destruct (decide (n = tail m)) as [|Hne]; [by exists m, q|].
    destruct q as [|[i t] q]; [by destruct Hne; apply Hn|].
    pose proof (rep_acts _ _ _ Hr) as Hac. apply list.Forall_cons in Hac as [[b Hb] _].
    cbn in Hb. destruct (Hop i t (taken b)) as (r & b' & Hd).
    destruct (run_next_ok f writes m q i t b r b' Hok Hb Hd) as (m' & E & Hok' & Ea & _).
    exists m', q. split; [done|]. split; [done| |by apply list.Forall_cons in Hst as [_ ?]].
    rewrite Ea. intros j. rewrite <- (Hso j).
    apply (same_orders_insert (acts m) i b b'); [done|].
    by apply despatch_books in Hd as (-> & _).
Qed.

Lemma make_ok p a :
  (forall i b, a !! i = Some b -> no_schedules b = no_despatches b) -> ok (make p a) [].
Proof.
  intros Hb. split.
  - exists []. split; cbn; try done.
    + repeat constructor; set_solver.
    + split; [|done]. by exists (set_next 1%nat (new_item None (mkTS 0 0))),
        (set_prev 0%nat (new_item None (mkTS 0 0))).
    + rewrite !elem_of_cons. intros [|[|?%elem_of_nil]]; done.
    + intros k [x Hx]. rewrite !lookup_insert_Some, lookup_empty in Hx. naive_solver lia.
  - intros _. constructor.
  - intros i b E. apply Hb in E. unfold numScheduledBehind, behind. rewrite filter_nil. cbn. lia.
Qed.


(** ** The loop *)

Section Loop.
Context (f : nat -> TimeSpec -> Behaviour) (writes : nat -> TimeSpec -> list (nat * TimeSpec)).

(** A turn in which the callback causes no triggers. *)
Lemma do_one_quiet fuel m q i t a r a' :
  ok m ((i, t) :: q) -> triggerq m = [] -> writes i t = [] -> acts m !! i = Some a ->
  Act.despatch (f i) t (taken a) = (Val r, a') ->
  exists m', do_one f writes fuel m = (Val tt, m') /\ ok m' q /\ triggerq m' = []
    /\ next_state writes m i t a' r m'.
Proof.
  intros Hok Hq Hw Ha Hd.
  destruct (run_next_ok f writes m q i t a r a' Hok Ha Hd) as (m' & E & Hok' & Hn).
  assert (triggerq m' = []) as Hq'.
  { destruct Hn as (_ & _ & _ & ->). rewrite Hq, Hw. by destruct r. }
  exists m'. split; [|done]. unfold run_next in E.
  apply bind_inv in E as (p & m1 & E1 & E2).
  unfold do_one. erewrite bind_val by exact E1. erewrite bind_val by exact E2.
  pose proof (ok_rep _ _ Hok') as [ids Hr]. destruct (head_next _ _ _ Hr) as (n & En & _).
  unfold propagateTriggers. erewrite bind_val; [reflexivity|].
  erewrite bind_val by reflexivity. rewrite Hq'. cbn [propagate_atoms].
  do 2 erewrite bind_val by reflexivity. by erewrite bind_val by exact En.
Qed.

Lemma doActivities_turn turns fuel m q :
  ok m q ->
  doActivities f writes turns fuel m
  = if decide (q = []) then (Val tt, m)
    else match turns with
         | O => (Stuck OutOfFuel, m)
         | S turns => (do_one f writes fuel ;; doActivities f writes turns fuel) m
         end.
Proof.
  intros [[ids Hr] _ _]. destruct (head_next _ _ _ Hr) as (n & En & Hn).
  destruct turns; cbn [doActivities]; (erewrite bind_val by reflexivity);
    (erewrite bind_val by exact En);
    destruct (decide (n = tail m)), (decide (q = [])); try done; tauto.
Qed.
End Loop.

(** No trigger atoms come of what the callbacks do. *)
Definition no_writes (i : nat) (t : TimeSpec) : list (nat * TimeSpec) := [].


(** ** From trigger to callback *)

Definition wants (a : Activity) (t : TimeSpec) : bool :=
  (rank Running <=? rank (run_state a))
  || ((rank Ready <=? rank (run_state a)) && isInRunPeriod a t).

Lemma set_acts_same m i a : acts m !! i = Some a -> set_acts (<[i := a]> (acts m)) m = m.
Proof. intros Ha. rewrite insert_id by done. by destruct m. Qed.

Lemma trigger_wants fuel m i a t m' b :
  acts m !! i = Some a -> time_spec a = None -> wants a t = true ->
  schedule i (trimToRunPeriod a t) m = (Val tt, m') -> acts m' !! i = Some b ->
  trigger fuel i t m = (Val tt, m').
Proof.
  intros Ha Ht Hw E Hb. unfold trigger. rewrite Ha. unfold Act.trigger.
  erewrite bind_val by reflexivity. cbn [fst]. unfold wants in Hw. rewrite Hw, Ht.
  unfold act_schedule. rewrite set_acts_same by done. rewrite E, Hb. cbn.
  by rewrite set_acts_same.
Qed.

Lemma trigger_refuses fuel m i a t :
  acts m !! i = Some a -> wants a t = false -> trigger fuel i t m = (Val tt, m).
Proof.
  intros Ha Hw. unfold trigger. rewrite Ha. unfold Act.trigger.
  erewrite bind_val by reflexivity. cbn [fst]. unfold wants in Hw. rewrite Hw. cbn.
  by rewrite set_acts_same.
Qed.

(** A trigger atom arrives and the manager works until it has nothing to do. *)
Definition feed (f : nat -> TimeSpec -> Behaviour) (i : nat) (t : TimeSpec) : M W unit :=
  addAtom i t ;; propagateTriggers 0 ;; doActivities f no_writes 1 0.

Record idle_at (m : ActivityManager) (i : nat) (a : Activity) : Prop := {
  ia_ok : ok m [];
  ia_triggerq : triggerq m = [];
  ia_act : acts m !! i = Some a
}.

Lemma propagate_one fuel m i t m' q :
  triggerq m = [] -> trigger fuel i t m = (Val tt, m') -> ok m' q ->
  exists b, (addAtom i t ;; propagateTriggers fuel) m = (Val b, m').
Proof.
  intros Hq E [[ids Hr] _ _]. destruct (head_next _ _ _ Hr) as (n & En & _).
  unfold addAtom, propagateTriggers. erewrite bind_val by reflexivity.
  erewrite bind_val by reflexivity. cbn [triggerq set_triggerq]. rewrite Hq.
  cbn [propagate_atoms app]. eexists. erewrite bind_val.
  2: { erewrite bind_val by reflexivity. erewrite bind_val; [reflexivity|].
       replace (set_triggerq [] _) with m by (destruct m; cbn in *; by subst). exact E. }
  erewrite bind_val by reflexivity. by erewrite bind_val by exact En.
Qed.

Lemma feed_refused f m i a t :
  idle_at m i a -> wants a t = false -> feed f i t m = (Val tt, m).
Proof.
  intros [Hok Hq Ha] Hw.
  destruct (propagate_one 0 m i t m [] Hq) as [b E]; [by eapply trigger_refuses|done|].
  unfold feed. apply bind_inv in E as (u & m1 & E1 & E2).
  erewrite bind_val by exact E1. erewrite bind_val by exact E2.
  by rewrite (doActivities_turn _ _ _ _ _ []).
Qed.

Lemma feed_run f m i a t r a' :
  idle_at m i a -> time_spec a = None -> wants a t = true ->
  validity_start (trimToRunPeriod a t) <= validity_end (trimToRunPeriod a t) ->
  Act.despatch (f i) (trimToRunPeriod a t) (taken (counted a)) = (Val r, a') ->
  exists m', feed f i t m = (Val tt, m') /\ idle_at m' i a'
    /\ ran m' = ran m ++ (match r with Some sp => [(i, sp)] | None => [] end).
Proof.
  intros [Hok Hq Ha] Ht Hw Hle Hd.
  destruct (schedule_ok m [] i a _ Hok Ha Hle) as
    (m1 & q1 & q2 & E & Eq & Hok1 & _ & Hu & Ea); [constructor|].
  symmetry in Eq. apply app_nil in Eq as [-> ->]. cbn [app] in Hok1.
  assert (acts m1 !! i = Some (counted a)) as Ha1 by (rewrite Ea; by rewrite lookup_insert_eq).
  destruct (propagate_one 0 m i t m1 [(i, trimToRunPeriod a t)] Hq) as [b Eb];
    [by eapply trigger_wants|done|].
  apply bind_inv in Eb as (u & m0 & E1 & E2).
  destruct (do_one_quiet f no_writes 0 m1 [] i _ (counted a) r a' Hok1) as
    (m2 & E3 & Hok2 & Hq2 & (Ha2 & _ & Hr2 & _)); [|done..|].
  { by rewrite (un_triggerq _ _ Hu). }
  exists m2. unfold feed. erewrite bind_val by exact E1. erewrite bind_val by exact E2.
  rewrite (doActivities_turn _ _ _ _ _ _ Hok1), decide_False by done.
  erewrite bind_val by exact E3. rewrite (doActivities_turn _ _ _ _ _ _ Hok2).
  split; [done|]. split.
  - split; [done|done|]. rewrite Ha2. by rewrite lookup_insert_eq.
  - by rewrite Hr2, (un_ran _ _ Hu).
Qed.

(** A callback that leaves its activity alone. *)
Definition calm (i : nat) (t : TimeSpec) : Behaviour := mkBehaviour [] false.

Fixpoint feeds (i : nat) (l : list TimeSpec) : M W unit :=
  match l with [] => mret tt | t :: l => feed calm i t ;; feeds i l end.

(** The activity, at rest, in one of the phases of its run. *)
Record at_phase (m : ActivityManager) (i : nat) (r : RunState) (on off : Z) : Prop := {
  ph_act : exists a, idle_at m i a /\ run_state a = r /\ switch_on a = on
    /\ switch_off a = off /\ time_spec a = None
}.

Definition good_span (t : TimeSpec) : Prop :=
  0 <= validity_start t < validity_end t /\ validity_end t < MAX_TIMETICK.

Lemma span_pos t : good_span t -> (DTS.getValiditySpan t =? 0) = false.
Proof.
  intros [? ?]. unfold DTS.getValiditySpan, MAX_TIMETICK in *. apply Z.eqb_neq.
  rewrite u32_id by (open_width; lia). lia.
Qed.

Lemma feed_phase m i r r' on off t t' lc :
  at_phase m i r on off ->
  (forall a, run_state a = r -> switch_on a = on -> switch_off a = off ->
    wants a t = true /\ trimToRunPeriod a t = t'
    /\ Act.despatch (calm i) t' a = (Val (Some (t', lc)), set_run_state r' a)) ->
  validity_start t' <= validity_end t' ->
  exists m', feed calm i t m = (Val tt, m') /\ at_phase m' i r' on off
    /\ ran m' = ran m ++ [(i, (t', lc))].
Proof.
  intros [(a & Hi & Hr & Hon & Hoff & Hts)] Hd Hle.
  destruct (Hd a Hr Hon Hoff) as (Hw & Htr & _).
  destruct (Hd (taken (counted a)) Hr Hon Hoff) as (_ & _ & Hdes).
  destruct (feed_run calm m i a t (Some (t', lc)) (set_run_state r' (taken (counted a))))
    as (m' & E & Hi' & Hran); try done; try by rewrite Htr.
  exists m'. split; [done|]. split; [|done]. split.
  exists (set_run_state r' (taken (counted a))). by destruct a.
Qed.

Lemma feed_skip m i r on off t :
  at_phase m i r on off ->
  (forall a, run_state a = r -> switch_on a = on -> switch_off a = off ->
    wants a t = false) ->
  feed calm i t m = (Val tt, m).
Proof.
  intros [(a & Hi & Hr & Hon & Hoff & Hts)] Hd. eapply feed_refused; [done|by apply Hd].
Qed.

Ltac by_phase :=
  intros [o r s1 s2 ts n1 n2]; cbn [run_state switch_on switch_off]; intros -> -> ->;
  unfold wants, isInRunPeriod, trimToRunPeriod, Act.despatch, brake, run_callback;
  cbn [run_state switch_on switch_off].

(** The spans that end by the switch-on time are ignored. *)
Lemma feed_before m i on t :
  at_phase m i Ready on MAX_TIMETICK -> good_span t -> validity_end t <= on ->
  feed calm i t m = (Val tt, m).
Proof.
  intros Hp Hg Ht. eapply feed_skip; [exact Hp|]. by_phase. rewrite span_pos by done.
  rewrite (proj2 (Z.ltb_ge on (validity_end t))) by done. cbn. by rewrite andb_false_r.
Qed.

Lemma feed_first m i on t :
  at_phase m i Ready on MAX_TIMETICK -> good_span t -> 0 <= on < validity_end t ->
  exists m', feed calm i t m = (Val tt, m') /\ at_phase m' i Running on MAX_TIMETICK
    /\ ran m' = ran m ++ [(i, (mkTS (Z.max on (validity_start t)) (validity_end t), false))].
Proof.
  intros Hp [Hg1 Hg2] Hon. eapply feed_phase; [exact Hp| |cbn; lia]. by_phase.
  rewrite (proj2 (Z.ltb_lt on MAX_TIMETICK)), (proj2 (Z.ltb_lt on (validity_end t))),
    (proj2 (Z.ltb_lt _ MAX_TIMETICK)), (proj2 (Z.ltb_lt (validity_end t) MAX_TIMETICK))
    by lia.
  split; [done|]. split.
  { f_equal. destruct (Z.ltb_spec on (validity_start t)); lia. }
  cbn [validity_start validity_end]. mrun. cbn [run_state switch_on switch_off].
  rewrite (proj2 (Z.leb_gt (validity_end t) on)) by lia. rewrite andb_false_r.
  cbn [switch_off]. rewrite (proj2 (Z.leb_gt MAX_TIMETICK _)) by lia.
  cbn. by rewrite (proj2 (Z.leb_le (validity_end t) MAX_TIMETICK)) by lia.
Qed.

Lemma feed_running m i on t :
  at_phase m i Running on MAX_TIMETICK -> good_span t -> on <= validity_start t ->
  exists m', feed calm i t m = (Val tt, m') /\ at_phase m' i Running on MAX_TIMETICK
    /\ ran m' = ran m ++ [(i, (t, false))].
Proof.
  intros Hp [Hg1 Hg2] Hon. eapply feed_phase; [exact Hp| |lia]. by_phase.
  split; [done|]. split.
  { rewrite (proj2 (Z.ltb_lt (validity_end t) MAX_TIMETICK)) by lia.
    destruct t as [a b]; cbn in *. f_equal. destruct (Z.ltb_spec on a); lia. }
  mrun. cbn. by rewrite (proj2 (Z.leb_le (validity_end t) MAX_TIMETICK)) by lia.
Qed.

Lemma feed_braking m i on off t :
  at_phase m i Braking on off -> good_span t -> on <= validity_start t < off ->
  let last := off <=? validity_end t in
  exists m', feed calm i t m = (Val tt, m')
    /\ at_phase m' i (if last then Last else Braking) on off
    /\ ran m' = ran m ++ [(i, (mkTS (validity_start t) (Z.min (validity_end t) off), last))].
Proof.
  intros Hp [Hg1 Hg2] Hon l. eapply feed_phase; [exact Hp| |cbn; lia]. by_phase.
  rewrite (proj2 (Z.ltb_lt on off)), (proj2 (Z.ltb_lt (validity_start t) off)),
    (proj2 (Z.ltb_lt on (validity_end t))) by lia.
  split; [done|]. split.
  { f_equal.
    - destruct (Z.ltb_spec on (validity_start t)); lia.
    - destruct (Z.ltb_spec (validity_end t) off); lia. }
  mrun. cbn [run_state switch_off validity_end].
  replace (off <=? Z.min (validity_end t) off) with l.
  2: { unfold l. destruct (Z.leb_spec off (validity_end t)); symmetry;
       rewrite ?Z.leb_le, ?Z.leb_gt; lia. }
  destruct l; cbn; by rewrite (proj2 (Z.leb_le _ off)) by lia.
Qed.

Lemma feed_after m i on off t :
  at_phase m i Last on off -> feed calm i t m = (Val tt, m).
Proof. intros Hp. eapply feed_skip; [exact Hp|]. by by_phase. Qed.

(** ** The run period *)

Lemma tile_order a l b : tile a l b -> a <= b.
Proof.
  revert a. induction l as [|o l IH]; intros a; cbn; [by intros ->; lia|].
  intros (_ & ? & ?%IH). lia.
Qed.

(** The spans the callback of activity [i] ran with. *)
Definition ranwith (i : nat) (l : list TimeSpec) : list (nat * (TimeSpec * bool)) :=
  map (fun t => (i, (t, false))) l.

Lemma good_tile a t l b :
  tile a (t :: l) b -> 0 <= a -> b < MAX_TIMETICK -> good_span t.
Proof.
  intros (<- & ? & ?%tile_order) ? ?. unfold good_span. lia.
Qed.

Lemma feeds_running m i on a l b :
  at_phase m i Running on MAX_TIMETICK -> tile a l b -> 0 <= a -> on <= a ->
  b < MAX_TIMETICK ->
  exists m', feeds i l m = (Val tt, m') /\ at_phase m' i Running on MAX_TIMETICK
    /\ ran m' = ran m ++ ranwith i l.
Proof.
  revert m a. induction l as [|t l IH]; intros m a Hp Ht H0 Hon Hb; cbn [feeds ranwith map].
  - exists m. by rewrite app_nil_r.
  - pose proof (good_tile _ _ _ _ Ht H0 Hb) as Hg. destruct Ht as (<- & Hlt & Ht).
    destruct (feed_running m i on t Hp Hg Hon) as (m1 & E1 & Hp1 & Hr1).
    destruct (IH m1 _ Hp1 Ht) as (m' & E & Hp' & Hr'); [lia..|].
    exists m'. erewrite bind_val by exact E1. split_and!; [done..|].
    rewrite Hr', Hr1. by rewrite <- (assoc_L (++)).
Qed.

Lemma feeds_ready m i on a l b :
  at_phase m i Ready on MAX_TIMETICK -> tile a l b -> 0 <= a -> a <= on < b ->
  b < MAX_TIMETICK ->
  exists m' ws, feeds i l m = (Val tt, m') /\ at_phase m' i Running on MAX_TIMETICK
    /\ ran m' = ran m ++ ranwith i ws /\ tile on ws b.
Proof.
  revert m a. induction l as [|t l IH]; intros m a Hp Ht H0 Hon Hb; cbn [feeds].
  - cbn in Ht. lia.
  - pose proof (good_tile _ _ _ _ Ht H0 Hb) as Hg. destruct Ht as (Ha & Hlt & Ht).
    destruct (decide (validity_end t <= on)) as [Hle|Hgt].
    + erewrite bind_val by (by eapply feed_before). eapply IH; try done; lia.
    + destruct (feed_first m i on t Hp Hg) as (m1 & E1 & Hp1 & Hr1); [lia|].
      destruct (feeds_running m1 i on _ l b Hp1 Ht) as (m' & E & Hp' & Hr'); [lia..|].
      exists m', (mkTS (Z.max on (validity_start t)) (validity_end t) :: l).
      erewrite bind_val by exact E1. split_and!; [done..| |].
      * rewrite Hr', Hr1. by rewrite <- (assoc_L (++)).
      * cbn. split_and!; [lia..|done].
Qed.

Lemma feeds_last m i on off l :
  at_phase m i Last on off -> feeds i l m = (Val tt, m).
Proof.
  intros Hp. induction l as [|t l IH]; cbn [feeds]; [done|].
  by erewrite bind_val by (by eapply feed_after).
Qed.

Lemma feeds_braking m i on off a l b :
  at_phase m i Braking on off -> tile a l b -> 0 <= a -> on <= a < off -> off <= b ->
  b < MAX_TIMETICK ->
  exists m' ws t, feeds i l m = (Val tt, m') /\ at_phase m' i Last on off
    /\ ran m' = ran m ++ ranwith i ws ++ [(i, (t, true))] /\ tile a (ws ++ [t]) off.
Proof.
  revert m a. induction l as [|t l IH]; intros m a Hp Ht H0 Hon Hoff Hb; cbn [feeds].
  { cbn in Ht. lia. }
  pose proof (good_tile _ _ _ _ Ht H0 Hb) as Hg. destruct Ht as (Ha & Hlt & Ht).
  destruct (feed_braking m i on off t Hp Hg) as (m1 & E1 & Hp1 & Hr1); [lia|].
  erewrite bind_val by exact E1.
  destruct (Z.leb_spec off (validity_end t)) as [Hle|Hgt].
  - exists m1, [], (mkTS (validity_start t) off). rewrite Z.min_r in Hr1 by done.
    split_and!; [by eapply feeds_last|done|by rewrite Hr1|cbn; split_and!; lia].
  - destruct (IH m1 (validity_end t) Hp1 Ht) as (m' & ws & tl & E & Hp' & Hr' & Ht'); [lia..|].
    exists m', (t :: ws), tl. rewrite Z.min_l in Hr1 by lia. split_and!; [done..| |].
    + rewrite Hr', Hr1, <- (assoc_L (++)). by destruct t.
    + cbn. split_and!; [lia..|done].
Qed.

(** A call the module makes on its activity. *)
Definition module_call (i : nat) (c : Act.Call) : M W unit :=
  a ← act (Some i);
  let '(o, a') := Act.call c a in
  put_act i a' ;; lift o.

Lemma switch_off_phase m i r on off v :
  at_phase m i r on off ->
  exists m', module_call i (SwitchOff v) m = (Val tt, m') /\ at_phase m' i Braking on v
    /\ ran m' = ran m.
Proof.
  intros [(a & [Hok Hq Ha] & Hr & Hon & Hoff & Hts)].
  unfold module_call. erewrite bind_val by by apply act_run.
  cbn [Act.call]. unfold switchOff, modify, put_act, lift.
  eexists. split; [reflexivity|]. split; [|done].
  split. exists (set_run_state Braking (set_off v a)). split; [|by destruct a].
  destruct Hok as [[ids Hrep] Hs Hb].
  pose proof (same_orders_insert (acts m) i a (set_run_state Braking (set_off v a)) Ha eq_refl)
    as Hso.
  split; [split| |]; cbn [acts set_acts triggerq prio].
  - exists ids. by apply rep_set_acts.
  - intros Hp. eapply same_orders_sorted; [exact Hso|by apply Hs].
  - intros j b [[<- <-]|[_ Hj]]%lookup_insert_Some; [|by apply Hb].
    by apply (Hb i a).
  - done.
  - by rewrite lookup_insert_eq.
Qed.

(** C27: From trigger to callback, the run period is exact: an activity that is
    switched on at [on] and triggered by gapless spans has its callback run on
    spans that tile the time from [on], cut at [on]; once switched off at
    [off], the last span is cut at [off] and marked as the last cycle, and
    nothing runs after it. *)
Theorem run_period m i on off a l1 b l2 c :
  at_phase m i Ready on MAX_TIMETICK ->
  tile a l1 b -> tile b l2 c -> 0 <= a <= on -> on < b < off -> off <= c < MAX_TIMETICK ->
  exists m' ws t,
    (feeds i l1 ;; module_call i (SwitchOff off) ;; feeds i l2) m = (Val tt, m')
    /\ ran m' = ran m ++ ranwith i ws ++ [(i, (t, true))]
    /\ tile on (ws ++ [t]) off /\ at_phase m' i Last on off.
Proof.
  intros Hp H1 H2 Ha Hb Hc.
  destruct (feeds_ready m i on a l1 b Hp H1) as (m1 & w1 & E1 & Hp1 & Hr1 & Ht1); [lia..|].
  destruct (switch_off_phase m1 i _ _ _ off Hp1) as (m2 & E2 & Hp2 & Hr2).
  destruct (feeds_braking m2 i on off b l2 c Hp2 H2) as
    (m3 & w2 & t & E3 & Hp3 & Hr3 & Ht3); [lia..|].
  exists m3, (w1 ++ w2), t. erewrite bind_val by exact E1. erewrite bind_val by exact E2.
  split_and!; [done| | |done].
  - rewrite Hr3, Hr2, Hr1. unfold ranwith. by rewrite map_app, <- !(assoc_L (++)).
  - rewrite <- (assoc_L (++)). by eapply tile_app.
Qed.
End Manager.

(** ** Instances *)

Section Instances.
#[local] Existing Instance test_config.
#[local] Instance no_greed : ActivityConfig := {| GREEDY_PERIODIC := false |}.

Lemma calm_callback i t a : exists r a', run_callback (calm i) t a = (Val r, a').
Proof.
  unfold run_callback. erewrite bind_val by reflexivity.
  destruct (_ <=? _); [|by eexists _, _]. cbn [calm bh_calls bh_throws Act.calls].
  mrun. destruct (decide _); by eexists _, _.
Qed.

Lemma calm_tame : tame calm.
Proof.
  intros i t a. unfold Act.despatch, brake. erewrite bind_val by reflexivity.
  destruct (run_state a); try (by eexists _, _); try apply calm_callback;
    try (destruct (_ && _); [by eexists _, _|]);
    (erewrite bind_val by reflexivity); unfold when;
    destruct (_ <=? _); (erewrite bind_val by reflexivity); apply calm_callback.
Qed.

Definition two : gmap nat Activity :=
  <[1%nat := Act.make 50]> (<[2%nat := Act.make 10]> ∅).
Definition start : ActivityManager := make 1 two.
Definition e1 : nat * TimeSpec := (1%nat, mkTS 0 10).
Definition e2 : nat * TimeSpec := (2%nat, mkTS 0 10).
Definition one_item : ActivityManager :=
  Eval vm_compute in (schedule 1 (mkTS 0 10) start).2.
Definition two_items : ActivityManager :=
  Eval vm_compute in (schedule 2 (mkTS 0 10) one_item).2.

Lemma two_some i b :
  two !! i = Some b -> order_ok b /\ no_schedules b = no_despatches b.
Proof.
  unfold two.
  intros [[<- <-]|[_ [[<- <-]|[_ H]]%lookup_insert_Some]]%lookup_insert_Some.
  - done.
  - done.
  - by rewrite lookup_empty in H.
Qed.

Lemma one_item_ok : ok one_item [e1].
Proof.
  destruct (schedule_ok start [] 1 (Act.make 50) (mkTS 0 10)) as
    (m' & q1 & q2 & E & Eq & Hok & _).
  - apply make_ok. by intros i b [_ ?]%two_some.
  - done.
  - done.
  - constructor.
  - assert (one_item = m') as ->.
    { assert (schedule 1 (mkTS 0 10) start = (Val tt, one_item)) as E'
        by (vm_compute; reflexivity). congruence. }
    symmetry in Eq. by apply app_nil in Eq as [-> ->].
Qed.

Lemma e1_e2 : Forall (fun y => comparable (acts one_item) y e2) [e1].
Proof. repeat constructor; vm_compute; done. Qed.

Lemma two_items_ok : ok two_items [e1; e2].
Proof.
  destruct (schedule_ok one_item [e1] 2 (Act.make 10) (mkTS 0 10)) as
    (m' & q1 & q2 & E & Eq & Hok & Hpl & _).
  - apply one_item_ok.
  - vm_compute. reflexivity.
  - done.
  - intros _. apply e1_e2.
  - assert (two_items = m') as ->.
    { assert (schedule 2 (mkTS 0 10) one_item = (Val tt, two_items)) as E'
        by (vm_compute; reflexivity). congruence. }
    unfold placed in Hpl. cbn [prio one_item Z.eqb] in Hpl. destruct Hpl as [_ H2].
    destruct q1 as [|x q1]; cbn in Eq.
    + subst q2. inversion H2 as [|? ? Hbad _]. vm_compute in Hbad. done.
    + injection Eq as <- Eq. symmetry in Eq. by apply app_nil in Eq as [-> ->].
Qed.


Lemma next_most_important_witness :
  exists m' r a',
    run_next calm no_writes two_items = (Val tt, m') /\ ok m' [e2]
    /\ next_state no_writes two_items 1 (mkTS 0 10) a' r m'
    /\ Forall (fun y => importance (acts two_items) y <= importance (acts two_items) e1) [e2]
    /\ no_despatches a' = no_despatches (default (Act.make 0) (acts two_items !! 1%nat)) + 1.
Proof.
  apply (next_most_important calm no_writes two_items [e2] 1 (mkTS 0 10)).
  - apply two_items_ok.
  - done.
  - apply calm_tame.
Defined.

Definition some_ops : list Op :=
  [Schedule 2 (mkTS 0 10); Schedule 1 (mkTS 0 10); Next calm no_writes;
   Schedule 1 (mkTS 10 20); Next calm no_writes; Next calm no_writes; Next calm no_writes].



Definition on_at_5 : gmap nat Activity :=
  <[1%nat := set_run_state Ready (set_off MAX_TIMETICK (set_on 5 (Act.make 50)))]> ∅.

Lemma run_period_witness :
  exists m' ws t,
    (feeds 1 [mkTS 0 10; mkTS 10 20] ;; module_call 1 (SwitchOff 25) ;;
     feeds 1 [mkTS 20 30; mkTS 30 40]) (make 1 on_at_5) = (Val tt, m')
    /\ ran m' = [] ++ ranwith 1 ws ++ [(1%nat, (t, true))]
    /\ tile 5 (ws ++ [t]) 25 /\ at_phase m' 1 Last 5 25.
Proof.
  apply (run_period (make 1 on_at_5) 1 5 25 0 _ 20 _ 40); try (cbn; lia).
  - split. exists (set_run_state Ready (set_off MAX_TIMETICK (set_on 5 (Act.make 50)))).
    split; [|done]. split; [|done|done].
    apply make_ok. unfold on_at_5.
    intros i b [[<- <-]|[_ H]]%lookup_insert_Some; [done|].
    by rewrite lookup_empty in H.
  - done.
Defined.

Definition running (order : Z) : Activity :=
  set_off MAX_TIMETICK (set_run_state Running (Act.make order)).

(** Age counts for more than order: a hundred points weigh as much as one tick. *)
Example by_age_and_order :
  map (fun e => (e.1, e.2.1)) (ran (run
    [Schedule 2 (mkTS 1 2); Schedule 1 (mkTS 1 2); Schedule 2 (mkTS 0 1);
     Next calm no_writes; Next calm no_writes; Next calm no_writes; Next calm no_writes]
    (make 1 (<[1%nat := running 50]> (<[2%nat := running 10]> ∅)))).2)
  = [(2%nat, mkTS 0 1); (1%nat, mkTS 1 2); (2%nat, mkTS 1 2)].
Proof. by vm_compute. Qed.

(** Starts that lie more than 21474836 ticks apart: the weighing overflows. *)
Example far_apart :
  (run [Schedule 1 (mkTS 21474837 21474838); Schedule 2 (mkTS 0 1)] (make 1 two)).1
  = Stuck SignedOverflow.
Proof. by vm_compute. Qed.
End Instances.
End AM.
