(* ===== verification/States.v ===== *)
(** The states of modules and of the simulation: [dueca/ModuleState.dco] and
    [ModuleStateExtra.*], [SimulationState.dco] and [SimulationStateExtra.*],
    the combination of both in [StatusT1.*], and the snapshot states.  The
    tables are those of the source, looked up by the number of the state. *)

From S2P Require Import Prelude.
From S2P Require Import TimeSpec.
#[local] Open Scope Z_scope.

(** ** ModuleState *)

Module MS.

Inductive Type_ :=
  | UnPrepared | InitialPrep | Safe | Prepared | On | Neutral | Undefined.

#[export] Instance Type_eq_dec : EqDecision Type_.
Proof. solve_decision. Defined.

Definition index (t : Type_) : nat :=
  match t with
  | UnPrepared => 0 | InitialPrep => 1 | Safe => 2 | Prepared => 3 | On => 4
  | Neutral => 5 | Undefined => 6
  end.

Definition ttable : list (list Type_) :=
  [[UnPrepared; UnPrepared; UnPrepared; UnPrepared; Undefined; UnPrepared; Undefined];
   [UnPrepared; InitialPrep; InitialPrep; InitialPrep; Undefined; InitialPrep; Undefined];
   [Undefined; Undefined; Safe; Safe; Undefined; Safe; Undefined];
   [UnPrepared; InitialPrep; Safe; Prepared; Undefined; Prepared; Undefined];
   [Undefined; Undefined; Undefined; Undefined; On; On; Undefined];
   [UnPrepared; InitialPrep; Safe; Prepared; On; Neutral; Undefined];
   [Undefined; Undefined; Undefined; Undefined; Undefined; Undefined; Undefined]].

(** [operator &=]; an element past the end of a row would be out of bounds. *)
Definition and_assign (t o : Type_) : outcome Type_ :=
  match ttable !! index t with
  | Some row => match row !! index o with Some r => Val r | None => Stuck OutOfBounds end
  | None => Stuck OutOfBounds
  end.

(** The table as a function. *)
Definition and_ (t o : Type_) : Type_ :=
  match and_assign t o with Val r => r | _ => Undefined end.

Lemma module_and_val t o : and_assign t o = Val (and_ t o).
Proof. by destruct t, o. Qed.
End MS.

(** ** SimulationState *)

Module SS.

Inductive Type_ :=
  | HoldCurrent | Advance | Replay | Inactive
  | Inactive_HoldCurrent | Calibrate_HoldCurrent | Advance_HoldCurrent
  | Replay_HoldCurrent | HoldCurrent_Inactive | Neutral | Undefined.

#[export] Instance Type_eq_dec : EqDecision Type_.
Proof. solve_decision. Defined.

Definition index (t : Type_) : nat :=
  match t with
  | HoldCurrent => 0 | Advance => 1 | Replay => 2 | Inactive => 3
  | Inactive_HoldCurrent => 4 | Calibrate_HoldCurrent => 5 | Advance_HoldCurrent => 6
  | Replay_HoldCurrent => 7 | HoldCurrent_Inactive => 8 | Neutral => 9 | Undefined => 10
  end.

Definition transitions : list Type_ :=
  [HoldCurrent; Advance; Replay; Inactive; HoldCurrent; HoldCurrent; HoldCurrent;
   HoldCurrent; Inactive; Neutral; Undefined].

Definition transitionFinal (t : Type_) : Type_ :=
  match transitions !! index t with Some r => r | None => Undefined end.

(** The lower triangle; the elements a row leaves out are zero, which is
    [HoldCurrent]. *)
Definition ttable : list (list Type_) :=
  [[];
   [Undefined];
   [Undefined; Undefined];
   [Undefined; Undefined; Undefined];
   [Inactive_HoldCurrent; Undefined; Undefined; Undefined];
   [Calibrate_HoldCurrent; Undefined; Undefined; Undefined; Undefined];
   [Advance_HoldCurrent; Undefined; Undefined; Undefined; Undefined; Undefined];
   [Replay_HoldCurrent; Undefined; Undefined; Undefined; Undefined; Undefined; Undefined];
   [Undefined; Undefined; Undefined; HoldCurrent_Inactive; Undefined; Undefined; Undefined;
    Undefined];
   [HoldCurrent; Advance; Replay; Inactive; Inactive_HoldCurrent; Calibrate_HoldCurrent;
    Advance_HoldCurrent; Replay_HoldCurrent; HoldCurrent_Inactive];
   [Undefined; Undefined; Undefined; Undefined; Undefined; Undefined; Undefined; Undefined;
    Undefined; Undefined]].

Definition table_at (i j : nat) : outcome Type_ :=
  match ttable !! i with
  | Some row => Val (default HoldCurrent (row !! j))
  | None => Stuck OutOfBounds
  end.

(** [operator &=] *)
Definition and_assign (t o : Type_) : outcome Type_ :=
  if bool_decide (o = t) then Val t
  else if (index o <? index t)%nat then table_at (index t) (index o)
  else table_at (index o) (index t).

Definition and_ (t o : Type_) : Type_ :=
  match and_assign t o with Val r => r | _ => Undefined end.

Definition betterOrSame (t o : Type_) : bool :=
  if bool_decide (t = o) then true
  else match t with Inactive => bool_decide (o = HoldCurrent) | _ => false end.

Lemma sim_and_val t o : and_assign t o = Val (and_ t o).
Proof. by destruct t, o. Qed.

(** Only elements the source spells out are used. *)
Lemma table_complete t o :
  t <> o -> (index o < index t)%nat ->
  exists row r, ttable !! index t = Some row /\ row !! index o = Some r.
Proof. destruct t, o; cbn; intros; try lia; by eexists _, _. Qed.

Lemma and_comm t o : and_ t o = and_ o t.
Proof. by destruct t, o. Qed.
Lemma and_assoc a b c : and_ a (and_ b c) = and_ (and_ a b) c.
Proof. by destruct a, b, c. Qed.
Lemma and_idem t : and_ t t = t.
Proof. by destruct t. Qed.
Lemma and_neutral t : and_ Neutral t = t.
Proof. by destruct t. Qed.

#[export] Instance and_comm_inst : Comm (=) and_ := and_comm.
#[export] Instance and_assoc_inst : Assoc (=) and_ := and_assoc.

Lemma final_idem t : transitionFinal (transitionFinal t) = transitionFinal t.
Proof. by destruct t. Qed.
End SS.

#[export] Existing Instances MS.Type_eq_dec SS.Type_eq_dec.

(** ** StatusT1 *)

Module ST.

Record StatusT1 := mk {
  mstate : MS.Type_;
  sstate : SS.Type_;
  m_actualised_at : Z;
  s_actualised_at : Z
}.

#[export] Instance StatusT1_eq_dec : EqDecision StatusT1.
Proof. solve_decision. Defined.

(** The constructor, which is also [clear]. *)
Definition clear : StatusT1 := mk MS.Neutral SS.Neutral MAX_TIMETICK MAX_TIMETICK.

Definition haveSState (s : StatusT1) : bool := negb (bool_decide (sstate s = SS.Neutral)).

Definition setModuleState (m : MS.Type_) (tick : Z) (s : StatusT1) : StatusT1 :=
  mk m (sstate s) tick (s_actualised_at s).
Definition setSimulationState (x : SS.Type_) (tick : Z) (s : StatusT1) : StatusT1 :=
  mk (mstate s) x (m_actualised_at s) tick.

Definition and_assign (s o : StatusT1) : outcome StatusT1 :=
  m ← MS.and_assign (mstate s) (mstate o);
  x ← SS.and_assign (sstate s) (sstate o);
  Val (mk m x (Z.min (m_actualised_at s) (m_actualised_at o))
         (Z.min (s_actualised_at s) (s_actualised_at o))).

Definition equiv (s o : StatusT1) : bool :=
  bool_decide (mstate s = mstate o) && bool_decide (sstate s = sstate o).

Definition and_ (s o : StatusT1) : StatusT1 :=
  mk (MS.and_ (mstate s) (mstate o)) (SS.and_ (sstate s) (sstate o))
    (Z.min (m_actualised_at s) (m_actualised_at o))
    (Z.min (s_actualised_at s) (s_actualised_at o)).

Lemma status_and_val s o : and_assign s o = Val (and_ s o).
Proof. unfold and_assign. by rewrite MS.module_and_val, SS.sim_and_val. Qed.

(** The combination of a list of statuses, as a node forms it. *)
Definition combine (l : list StatusT1) : StatusT1 := foldl and_ clear l.

Lemma sstate_fold s l :
  sstate (foldl and_ s l) = foldl SS.and_ (sstate s) (map sstate l).
Proof. revert s. induction l as [|o l IH]; intros s; [done|]. cbn. by rewrite IH. Qed.

Lemma mstate_fold s l :
  mstate (foldl and_ s l) = foldl MS.and_ (mstate s) (map mstate l).
Proof. revert s. induction l as [|o l IH]; intros s; [done|]. cbn. by rewrite IH. Qed.
End ST.

(** ** Snapshots *)

Inductive SnapshotState :=
  | SnapClear | SnapPrepared | SnapNow | SnapTaken | SnapSendNotApplicable
  | SnapSent | SnapLoaded | SnapNotFilled | TooLateForSnap.

#[export] Instance SnapshotState_eq_dec : EqDecision SnapshotState.
Proof. solve_decision. Defined.

(** ** What the combinations amount to *)

(** The states that are not transitions. *)
Definition settled (r : SS.Type_) : Prop :=
  r = SS.HoldCurrent \/ r = SS.Advance \/ r = SS.Replay \/ r = SS.Inactive.

Lemma and_settled a b r :
  settled r -> SS.and_ a b = r ->
  (a = r \/ a = SS.Neutral) /\ (b = r \/ b = SS.Neutral) /\ (a = r \/ b = r).
Proof. intros [->|[->|[->| ->]]]; destruct a, b; cbn; intros; auto; discriminate. Qed.

Lemma fold_settled l x r :
  settled r -> foldl SS.and_ x l = r ->
  (x = r \/ x = SS.Neutral) /\ Forall (fun y => y = r \/ y = SS.Neutral) l
  /\ (x = r \/ r ∈ l).
Proof.
  intros Hr. revert x. induction l as [|y l IH]; intros x; cbn.
  - intros ->. auto.
  - intros (Hxy & Hl & Hin)%IH. destruct Hxy as [Hxy|Hxy].
    + destruct (and_settled x y r Hr Hxy) as (? & ? & [->| ->]);
        (split_and!; [auto..|]); [by left|by right; left].
    + assert (x = SS.Neutral /\ y = SS.Neutral) as [-> ->] by (destruct x, y; done).
      split_and!; auto. destruct Hin as [Hin|Hin]; [|by right; right].
      destruct Hr as [->|[->|[->| ->]]]; done.
Qed.

Lemma fold_perm l1 l2 x :
  l1 ≡ₚ l2 -> foldl SS.and_ x l1 = foldl SS.and_ x l2.
Proof.
  intros HP. revert x. induction HP as [|y l1 l2 _ IH|y z l|l1 l2 l3 _ IH1 _ IH2]; intros x; cbn.
  - done.
  - apply IH.
  - f_equal. by rewrite <- !SS.and_assoc, (SS.and_comm y z).
  - by rewrite IH1.
Qed.

(** The combined simulation state of any number of modules does not depend
    on their order or grouping: [&=] is a commutative, associative and
    idempotent operation with [Neutral] as unit; the result is a settled state
    [HoldCurrent], [Advance], [Replay] or [Inactive] only if every module that
    takes part is in exactly that state. *)
Theorem simulation_state_combination (l1 l2 : list SS.Type_) (r : SS.Type_) :
  l1 ≡ₚ l2 -> settled r -> foldl SS.and_ SS.Neutral l1 = r ->
  foldl SS.and_ SS.Neutral l2 = r
  /\ Forall (fun x => x = r \/ x = SS.Neutral) l2 /\ r ∈ l2.
Proof.
  intros HP Hr E. rewrite (fold_perm l1 l2) in E by done. split; [done|].
  destruct (fold_settled _ _ _ Hr E) as (_ & ? & [<-|?]); [|done].
  by destruct Hr as [?|[?|[?|?]]].
Qed.

(** Module states: the combination depends on the order.  A module that is safe
    beside one that is not yet prepared gives [Undefined], and the other way
    round the lower of the two. *)
Lemma module_state_order :
  MS.and_ MS.InitialPrep MS.Safe = MS.InitialPrep
  /\ MS.and_ MS.Safe MS.InitialPrep = MS.Undefined
  /\ MS.and_ MS.UnPrepared MS.Safe = MS.UnPrepared
  /\ MS.and_ MS.Safe MS.UnPrepared = MS.Undefined.
Proof. done. Qed.

(** Those are the only two pairs. *)
Lemma module_state_comm a b :
  ~ (a = MS.Safe /\ (b = MS.UnPrepared \/ b = MS.InitialPrep)) ->
  ~ (b = MS.Safe /\ (a = MS.UnPrepared \/ a = MS.InitialPrep)) ->
  MS.and_ a b = MS.and_ b a.
Proof. destruct a, b; intros H1 H2; try done; exfalso; tauto. Qed.

Lemma module_fold_on x l :
  foldl MS.and_ x l = MS.On ->
  (x = MS.On \/ x = MS.Neutral) /\ Forall (fun y => y = MS.On \/ y = MS.Neutral) l
  /\ (x = MS.On \/ MS.On ∈ l).
Proof.
  revert x. induction l as [|y l IH]; intros x; cbn; [by intros ->; auto|].
  intros (Hxy & Hl & Hin)%IH.
  assert ((x = MS.On \/ x = MS.Neutral) /\ (y = MS.On \/ y = MS.Neutral)
          /\ (MS.and_ x y = MS.On -> x = MS.On \/ y = MS.On)) as (Hx & Hy & Hor).
  { destruct Hxy as [E|E]; destruct x, y; cbn in *; try done; auto. }
  split_and!; auto. destruct Hin as [Hin|Hin]; [|by right; right].
  destruct (Hor Hin) as [?| ->]; [by left|right; left].
Qed.

(** The combined module state is [On] only if every module that takes part
    is on. *)
Theorem modules_on l :
  foldl MS.and_ MS.Neutral l = MS.On ->
  Forall (fun y => y = MS.On \/ y = MS.Neutral) l /\ MS.On ∈ l.
Proof. intros (_ & ? & [|])%module_fold_on; done. Qed.

Lemma simulation_state_combination_witness :
  foldl SS.and_ SS.Neutral [SS.HoldCurrent; SS.Neutral] = SS.HoldCurrent
  /\ Forall (fun x => x = SS.HoldCurrent \/ x = SS.Neutral) [SS.HoldCurrent; SS.Neutral]
  /\ SS.HoldCurrent ∈ [SS.HoldCurrent; SS.Neutral].
Proof.
  apply (simulation_state_combination [SS.Neutral; SS.HoldCurrent]);
    [constructor|by left|done].
Defined.

Lemma modules_on_witness :
  Forall (fun y => y = MS.On \/ y = MS.Neutral) [MS.On; MS.Neutral; MS.On]
  /\ MS.On ∈ [MS.On; MS.Neutral; MS.On].
Proof. apply (modules_on [MS.On; MS.Neutral; MS.On]). done. Defined.
