(* ===== verification/StatusTree.v ===== *)
(** The tree of statuses: [dueca/ModuleId.*], the names of modules as indices,
    [Summary.*], the tree that combines the statuses of its branches, and
    [StatusKeeper.*], its root.

    A node owns its branches and points to its parent; here the parent is the
    node that contains it, and the walk of [setDirty] up the parents is the way
    back out of a recursion.  A [ModuleId] is a value; the static index from
    global ids to names is part of [Registry].  The link to the graphical
    view is left out. *)

From S2P Require Import Prelude.
From S2P Require Import TimeSpec.
From S2P Require Import States.
From stdpp Require Import gmap strings.
#[local] Open Scope Z_scope.

(** ** ModuleId *)

Module MId.

(** Location and object numbers; [None] is the [GlobalId()] that is not set. *)
Definition GlobalId := option (nat * nat).

Record ModuleId := mk { name_idx : list nat; global_id : GlobalId }.

#[export] Instance ModuleId_eq_dec : EqDecision ModuleId.
Proof. solve_decision. Defined.

(** The static members. *)
Record Registry := mkReg {
  names : list string;
  module_id_map : gmap (nat * nat) ModuleId
}.

Definition empty : Registry := mkReg [] ∅.

Fixpoint index_of (n : string) (l : list string) : option nat :=
  match l with
  | [] => None
  | m :: l => if decide (n = m) then Some O else S <$> index_of n l
  end.

(** [name_map] is the inverse of [names]: both grow together. *)
Definition findOrAddName (n : string) : M Registry nat :=
  r ← get;
  match index_of n (names r) with
  | Some i => mret i
  | None =>
      put (mkReg (names r ++ [n]) (module_id_map r)) ;;
      mret (length (names r))
  end.

Fixpoint find_names (l : list string) : M Registry (list nat) :=
  match l with
  | [] => mret []
  | n :: l => i ← findOrAddName n; ix ← find_names l; mret (i :: ix)
  end.

(** The test for an earlier entry only gives a warning. *)
Definition indexGlobalId (m : ModuleId) : M Registry unit :=
  match global_id m with
  | Some g => modify (fun r => mkReg (names r) (<[g := m]> (module_id_map r)))
  | None => mret tt
  end.

(** The constructor. *)
Definition construct (parts : list string) (g : GlobalId) : M Registry ModuleId :=
  ix ← find_names parts;
  let m := mk ix g in
  indexGlobalId m ;;
  mret m.

Definition find (g : GlobalId) : M Registry (option ModuleId) :=
  r ← get;
  mret (match g with Some g => module_id_map r !! g | None => None end).

Fixpoint same_names (parts : list string) (ix : list nat) (names : list string) : bool :=
  match parts, ix with
  | [], [] => true
  | n :: parts, i :: ix => bool_decide (names !! i = Some n) && same_names parts ix names
  | _, _ => false
  end.

(** [create(nameparts, id)]; [None] is the exception [NotFound]. *)
Definition create (parts : list string) (g : GlobalId) : M Registry (option ModuleId) :=
  o ← find g;
  match o with
  | None => m ← construct parts g; mret (Some m)
  | Some m =>
      r ← get;
      mret (if same_names parts (name_idx m) (names r) then Some m else None)
  end.

(** [create(ns, id)], with the parts of a [NameSet]. *)
Definition parts_of (entity cls part : string) : list string :=
  if decide (cls = EmptyString) then [entity]
  else if decide (part = EmptyString) then [entity; cls]
  else [entity; (cls ++ ":" ++ part)%string].

(** [create(id, nparts)]: the new object has names that exist, and no global
    id; [None] is [NotFound]. *)
Definition create_prefix (m : ModuleId) (n : nat) : option ModuleId :=
  if decide (length (name_idx m) = n) then Some m
  else if decide (length (name_idx m) < n)%nat then None
  else Some (mk (take n (name_idx m)) None).

Fixpoint isPrefix (l k : list nat) : bool :=
  match l, k with
  | [], _ => true
  | x :: l, y :: k => (x =? y)%nat && isPrefix l k
  | _ :: _, [] => false
  end.

Definition isMeOrDescendant (m o : ModuleId) : bool :=
  if decide (length (name_idx o) < length (name_idx m))%nat then false
  else isPrefix (name_idx m) (name_idx o).

Definition isMe (m o : ModuleId) : bool :=
  bool_decide (length (name_idx o) = length (name_idx m)) && isMeOrDescendant m o.
End MId.

(** ** Summary *)

Module SUM.
Export MId.
Export ST.

Inductive Summary :=
  | Node (link_id : ModuleId) (status : StatusT1) (dirty : bool) (branches : list Summary).

Definition link (t : Summary) : ModuleId := let '(Node l _ _ _) := t in l.
Definition getStatus (t : Summary) : StatusT1 := let '(Node _ s _ _) := t in s.
Definition isDirty (t : Summary) : bool := let '(Node _ _ d _) := t in d.
Definition branches (t : Summary) : list Summary := let '(Node _ _ _ b) := t in b.
Definition isLeaf (t : Summary) : bool := match branches t with [] => true | _ => false end.

(** [getOrCalculateStatus] *)
Fixpoint getOrCalculateStatus (t : Summary) : outcome (StatusT1 * Summary) :=
  let '(Node l s d bs) := t in
  if d then
    match bs with
    | [] => Val (s, Node l s false bs)
    | _ :: _ =>
        '(s, bs) ← (fix loop (s : StatusT1) (bs : list Summary)
            : outcome (StatusT1 * list Summary) :=
          match bs with
          | [] => Val (s, [])
          | b :: bs =>
              '(sb, b) ← getOrCalculateStatus b;
              s ← and_assign s sb;
              '(s, bs) ← loop s bs;
              Val (s, b :: bs)
          end) clear bs;
        Val (s, Node l s false bs)
    end
  else Val (s, t).

(** [updateStatus]: whether the node was found, whether its status changed
    (so that [setDirty] went up to the root), and the tree. *)
Fixpoint updateStatus (id : ModuleId) (new : StatusT1) (t : Summary)
    : bool * bool * Summary :=
  let '(Node l s d bs) := t in
  if isMe l id then
    if bool_decide (s = new) then (true, false, t) else (true, true, Node l new true bs)
  else
    match bs with
    | [] => (false, false, t)
    | _ :: _ =>
        if isMeOrDescendant l id then
          let '(found, touched, bs) :=
            (fix loop (bs : list Summary) : bool * bool * list Summary :=
              match bs with
              | [] => (false, false, [])
              | b :: bs =>
                  let '(found, touched, b) := updateStatus id new b in
                  if found then (true, touched, b :: bs)
                  else let '(found, touched, bs) := loop bs in (found, touched, b :: bs)
              end) bs in
          (found, touched, Node l s (d || touched) bs)
        else (false, false, t)
    end.

(** [findSummary]; [None] is the exception [NotFound].  [existsSummary] is the
    same walk. *)
Fixpoint findSummary (id : ModuleId) (t : Summary) : option Summary :=
  let '(Node l s d bs) := t in
  if isMe l id then Some t
  else
    match bs with
    | [] => None
    | _ :: _ =>
        if isMeOrDescendant l id then
          (fix loop (bs : list Summary) : option Summary :=
            match bs with
            | [] => None
            | b :: bs =>
                if isMeOrDescendant (link b) id then findSummary id b else loop bs
            end) bs
        else None
    end.

Definition existsSummary (id : ModuleId) (t : Summary) : bool :=
  bool_decide (is_Some (findSummary id t)).

(** [findSummary(id).getOrCalculateStatus()]: the node is brought up to date
    in place; [None] is the exception [NotFound]. *)
Fixpoint findSummary_status (id : ModuleId) (t : Summary)
    : outcome (option StatusT1 * Summary) :=
  let '(Node l s d bs) := t in
  if isMe l id then '(r, t) ← getOrCalculateStatus t; Val (Some r, t)
  else
    match bs with
    | [] => Val (None, t)
    | _ :: _ =>
        if isMeOrDescendant l id then
          '(r, bs) ← (fix loop (bs : list Summary) : outcome (option StatusT1 * list Summary) :=
            match bs with
            | [] => Val (None, [])
            | b :: bs =>
                if isMeOrDescendant (link b) id then
                  '(r, b) ← findSummary_status id b; Val (r, b :: bs)
                else '(r, bs) ← loop bs; Val (r, b :: bs)
            end) bs;
          Val (r, Node l s d bs)
        else Val (None, t)
    end.

(** The nodes that [insertLinkAndStatus] adds below a node with [n] names: one
    for each further name.  [None] is the exception [NotFound]. *)
Fixpoint chain (fuel : nat) (id : ModuleId) (s : StatusT1) (n : nat) : option (list Summary) :=
  match fuel with
  | O => Some []
  | S fuel =>
      l ← create_prefix id (S n);
      bs ← chain fuel id s (S n);
      Some [Node l s true bs]
  end.

(** [insertLinkAndStatus] *)
Fixpoint insertLinkAndStatus (id : ModuleId) (new : StatusT1) (t : Summary)
    : option (bool * Summary) :=
  let '(Node l s d bs) := t in
  if negb (isMeOrDescendant l id) then Some (false, t)
  else if isMe l id then Some (true, t)
  else
    '(found, bs) ← (fix loop (bs : list Summary) : option (bool * list Summary) :=
      match bs with
      | [] => Some (false, [])
      | b :: bs =>
          '(found, b) ← insertLinkAndStatus id new b;
          if found : bool then Some (true, b :: bs)
          else '(found, bs) ← loop bs; Some (found, b :: bs)
      end) bs;
    if found : bool then Some (true, Node l s d bs)
    else
      let n := length (name_idx l) in
      c ← chain (length (name_idx id) - n) id new n;
      Some (true, Node l s d (bs ++ c)).

(** ** StatusKeeper *)

Definition root : Summary := Node (MId.mk [] None) clear true [].
Definition addNode : ModuleId -> StatusT1 -> Summary -> option (bool * Summary) :=
  insertLinkAndStatus.

(** ** Equations *)

Fixpoint calc_all (s : StatusT1) (bs : list Summary) : outcome (StatusT1 * list Summary) :=
  match bs with
  | [] => Val (s, [])
  | b :: bs =>
      '(sb, b) ← getOrCalculateStatus b;
      s ← and_assign s sb;
      '(s, bs) ← calc_all s bs;
      Val (s, b :: bs)
  end.

Definition update_all (id : ModuleId) (new : StatusT1) :=
  fix loop (bs : list Summary) : bool * bool * list Summary :=
  match bs with
  | [] => (false, false, [])
  | b :: bs =>
      let '(found, touched, b) := updateStatus id new b in
      if found then (true, touched, b :: bs)
      else let '(found, touched, bs) := loop bs in (found, touched, b :: bs)
  end.

Definition insert_all (id : ModuleId) (new : StatusT1) :=
  fix loop (bs : list Summary) : option (bool * list Summary) :=
  match bs with
  | [] => Some (false, [])
  | b :: bs =>
      '(found, b) ← insertLinkAndStatus id new b;
      if found : bool then Some (true, b :: bs)
      else '(found, bs) ← loop bs; Some (found, b :: bs)
  end.

Definition find_all (id : ModuleId) :=
  fix loop (bs : list Summary) : option Summary :=
  match bs with
  | [] => None
  | b :: bs => if isMeOrDescendant (link b) id then findSummary id b else loop bs
  end.

Definition find_status_all (id : ModuleId) :=
  fix loop (bs : list Summary) : outcome (option StatusT1 * list Summary) :=
  match bs with
  | [] => Val (None, [])
  | b :: bs =>
      if isMeOrDescendant (link b) id then
        '(r, b) ← findSummary_status id b; Val (r, b :: bs)
      else '(r, bs) ← loop bs; Val (r, b :: bs)
  end.

Lemma find_node id l s d bs :
  findSummary id (Node l s d bs)
  = if isMe l id then Some (Node l s d bs)
    else match bs with
         | [] => None
         | _ => if isMeOrDescendant l id then find_all id bs else None
         end.
Proof. cbn [findSummary]. by destruct bs. Qed.

Lemma find_status_node id l s d bs :
  findSummary_status id (Node l s d bs)
  = if isMe l id then
      '(r, t) ← getOrCalculateStatus (Node l s d bs); Val (Some r, t)
    else match bs with
         | [] => Val (None, Node l s d bs)
         | _ =>
             if isMeOrDescendant l id then
               '(r, bs) ← find_status_all id bs; Val (r, Node l s d bs)
             else Val (None, Node l s d bs)
         end.
Proof. cbn [findSummary_status]. by destruct bs. Qed.

Lemma calc_node l s bs :
  getOrCalculateStatus (Node l s true bs)
  = match bs with
    | [] => Val (s, Node l s false bs)
    | _ => '(s, bs) ← calc_all clear bs; Val (s, Node l s false bs)
    end.
Proof.
  cbn [getOrCalculateStatus]. destruct bs as [|b bs]; [done|]. f_equal.
Qed.

Lemma update_node id new l s d bs :
  updateStatus id new (Node l s d bs)
  = if isMe l id then
      if bool_decide (s = new) then (true, false, Node l s d bs)
      else (true, true, Node l new true bs)
    else match bs with
         | [] => (false, false, Node l s d bs)
         | _ =>
             if isMeOrDescendant l id then
               let '(found, touched, bs) := update_all id new bs in
               (found, touched, Node l s (d || touched) bs)
             else (false, false, Node l s d bs)
         end.
Proof. cbn [updateStatus]. by destruct bs. Qed.

Lemma insert_node id new l s d bs :
  insertLinkAndStatus id new (Node l s d bs)
  = if negb (isMeOrDescendant l id) then Some (false, Node l s d bs)
    else if isMe l id then Some (true, Node l s d bs)
    else
      '(found, bs) ← insert_all id new bs;
      if found : bool then Some (true, Node l s d bs)
      else
        let n := length (name_idx l) in
        c ← chain (length (name_idx id) - n) id new n;
        Some (true, Node l s d (bs ++ c)).
Proof. reflexivity. Qed.

Section Ind.
Context (P : Summary -> Prop)
  (HP : forall l s d bs, Forall P bs -> P (Node l s d bs)).

Fixpoint Summary_nested (t : Summary) : P t :=
  match t with
  | Node l s d bs =>
      HP l s d bs ((fix go bs : Forall P bs :=
        match bs with
        | [] => List.Forall_nil P
        | b :: bs => @List.Forall_cons _ P b bs (Summary_nested b) (go bs)
        end) bs)
  end.
End Ind.

(** ** The reference: no status of a branch is kept *)

(** The status from scratch. *)
Fixpoint total (t : Summary) : StatusT1 :=
  let '(Node l s d bs) := t in
  match bs with
  | [] => s
  | _ :: _ => foldl and_ clear (map total bs)
  end.

(** The leaf of that name gets another status. *)
Fixpoint alter_leaf (id : ModuleId) (f : StatusT1 -> StatusT1) (t : Summary) : Summary :=
  let '(Node l s d bs) := t in
  match bs with
  | [] => Node l (if isMe l id then f s else s) d []
  | _ :: _ => Node l s d (map (alter_leaf id f) bs)
  end.

Abbreviation set_leaf id new := (alter_leaf id (fun _ => new)).

(** What counts of a tree: the names, and the statuses of the leaves. *)
Fixpoint erase (t : Summary) : Summary :=
  let '(Node l s d bs) := t in
  Node l (match bs with [] => s | _ :: _ => clear end) true (map erase bs).

Lemma total_erase t : total (erase t) = total t.
Proof.
  induction t as [l s d bs IH] using Summary_nested. destruct bs as [|b bs]; [done|].
  cbn [erase total map]. f_equal. inversion IH as [|? ? Hb Hbs]; subst. cbn [map].
  f_equal; [done|]. clear IH Hb. induction Hbs as [|c bs Hc Hbs IH]; [done|]. cbn. by f_equal.
Qed.

Lemma total_same t u : erase t = erase u -> total t = total u.
Proof. intros E. by rewrite <- (total_erase t), E, total_erase. Qed.

Lemma totals_same bs cs : map erase bs = map erase cs -> map total bs = map total cs.
Proof.
  revert cs. induction bs as [|b bs IH]; intros [|c cs]; [done..|].
  cbn. intros [= Hb Hbs]. f_equal; [by apply total_same|by apply IH].
Qed.

(** The leaves, with their names. *)
Fixpoint leaf_list (t : Summary) : list (ModuleId * StatusT1) :=
  let '(Node l s d bs) := t in
  match bs with [] => [(l, s)] | _ :: _ => mjoin (map leaf_list bs) end.

Lemma join_map_same {A} (f g : Summary -> list A) bs :
  Forall (fun b => f b = g b) bs -> mjoin (map f bs) = mjoin (map g bs).
Proof. induction 1 as [|b bs Hb _ IH]; [done|]. cbn. f_equal; [done|exact IH]. Qed.

Lemma join_map_map {A} (h : A -> A) (f g : Summary -> list A) bs :
  Forall (fun b => f b = map h (g b)) bs -> mjoin (map f bs) = map h (mjoin (map g bs)).
Proof.
  induction 1 as [|b bs Hb _ IH]; [done|]. cbn. rewrite map_app. f_equal; [done|exact IH].
Qed.

Lemma leaf_list_erase t : leaf_list (erase t) = leaf_list t.
Proof.
  induction t as [l s d bs IH] using Summary_nested. destruct bs as [|b bs]; [done|].
  cbn [erase leaf_list map]. change (leaf_list (erase b) :: map leaf_list (map erase bs))
    with (map leaf_list (map erase (b :: bs))).
  rewrite map_map. by apply (join_map_same (fun x => leaf_list (erase x)) leaf_list (b :: bs)).
Qed.

Lemma leaf_list_same t u : erase t = erase u -> leaf_list t = leaf_list u.
Proof. intros E. by rewrite <- (leaf_list_erase t), E, leaf_list_erase. Qed.

Lemma leaf_list_alter id f t :
  leaf_list (alter_leaf id f t)
  = map (fun '(l, s) => (l, if isMe l id then f s else s)) (leaf_list t).
Proof.
  induction t as [l s d bs IH] using Summary_nested. destruct bs as [|b bs]; [done|].
  cbn [alter_leaf leaf_list map].
  change (leaf_list (alter_leaf id f b) :: map leaf_list (map (alter_leaf id f) bs))
    with (map leaf_list (map (alter_leaf id f) (b :: bs))).
  change (leaf_list b :: map leaf_list bs) with (map leaf_list (b :: bs)).
  rewrite map_map.
  by apply (join_map_map _ (fun x => leaf_list (alter_leaf id f x)) leaf_list (b :: bs)).
Qed.

Lemma Forall_mjoin {A} (P : A -> Prop) ls : Forall P (mjoin ls) <-> Forall (Forall P) ls.
Proof.
  split; [|apply list.Forall_join]. induction ls as [|l ls IH]; [done|].
  intros [? ?]%list.Forall_app. constructor; auto.
Qed.

Lemma leaf_list_node P l s d bs :
  Forall P (leaf_list (Node l s d bs)) <->
  (bs = [] /\ P (l, s)) \/ (bs <> [] /\ Forall (fun b => Forall P (leaf_list b)) bs).
Proof.
  destruct bs as [|b bs].
  - cbn [leaf_list]. rewrite list.Forall_singleton. split; [by left|]. by intros [[_ ?]|[? _]].
  - cbn [leaf_list]. rewrite Forall_mjoin, Forall_map. split; [by right|].
    by intros [[? _]|[_ ?]].
Qed.

(** A clean node keeps the combined status of its branches. *)
Fixpoint coherent (t : Summary) : Prop :=
  let '(Node l s d bs) := t in
  (fix all bs := match bs with [] => True | b :: bs => coherent b /\ all bs end) bs
  /\ (d = false -> s = total t).

Lemma coherent_node l s d bs :
  coherent (Node l s d bs) <->
  Forall coherent bs /\ (d = false -> s = total (Node l s d bs)).
Proof.
  cbn [coherent]. split; intros [H1 H2]; (split; [|done]).
  - clear H2. induction bs as [|b bs IH]; [constructor|]. destruct H1. constructor; auto.
  - clear H2. induction H1; auto.
Qed.

Lemma calc_all_spec bs s :
  Forall (fun t => coherent t -> exists t', getOrCalculateStatus t = Val (total t, t')
    /\ coherent t' /\ erase t' = erase t) bs ->
  Forall coherent bs ->
  exists bs', calc_all s bs = Val (foldl and_ s (map total bs), bs')
    /\ Forall coherent bs' /\ map erase bs' = map erase bs.
Proof.
  intros H. revert s. induction H as [|b bs Hb _ IH]; intros s Hc; cbn [calc_all].
  - exists []. split_and!; try constructor; done.
  - inversion Hc as [|? ? Hcb Hcbs]; subst. destruct (Hb Hcb) as (b' & E & Hb1 & Hb2).
    rewrite E. cbn [mbind outcome_bind]. rewrite status_and_val. cbn [mbind outcome_bind].
    destruct (IH (and_ s (total b)) Hcbs) as (bs' & E' & H1 & H2). rewrite E'.
    exists (b' :: bs'). split_and!; [done|by constructor|].
    cbn. by rewrite Hb2, H2.
Qed.

(** A query gives the status from scratch and leaves the tree coherent. *)
Lemma calc_spec t :
  coherent t -> exists t', getOrCalculateStatus t = Val (total t, t')
    /\ coherent t' /\ erase t' = erase t.
Proof.
  induction t as [l s d bs IH] using Summary_nested. rewrite coherent_node. intros [Hc Hd].
  destruct d.
  - rewrite calc_node. destruct bs as [|b bs].
    + eexists. split; [done|]. rewrite coherent_node. by split_and!.
    + destruct (calc_all_spec _ clear IH Hc) as (bs' & E & H1 & H2). rewrite E.
      eexists. split; [reflexivity|].
      assert (total (Node l s true (b :: bs)) = foldl and_ clear (map total bs')) as Ht.
      { cbn [total]. f_equal. symmetry. by apply totals_same. }
      destruct bs' as [|b' bs']; [done|]. rewrite coherent_node. split_and!; [done| |].
      * intros _. cbn [total] in Ht |- *. done.
      * cbn [erase]. by rewrite H2.
  - pose proof (Hd eq_refl) as Hs. cbn [getOrCalculateStatus]. rewrite <- Hs.
    eexists. split; [done|]. rewrite coherent_node. by split_and!.
Qed.

(** ** Names *)

Abbreviation path t := (name_idx (link t)).

Lemma isPrefix_spec l k : isPrefix l k = true <-> l `prefix_of` k.
Proof.
  revert k. induction l as [|x l IH]; intros [|y k]; cbn.
  - split; [intros _; by exists []|done].
  - split; [intros _; by exists (y :: k)|done].
  - split; [done|]. by intros [z Hz].
  - rewrite andb_true_iff, Nat.eqb_eq, IH. split.
    + intros [-> [z ->]]. by exists z.
    + intros [z [= -> ->]]. split; [done|]. by exists z.
Qed.

Lemma descendant_spec m o :
  isMeOrDescendant m o = true <-> name_idx m `prefix_of` name_idx o.
Proof.
  unfold isMeOrDescendant. rewrite <- isPrefix_spec. destruct (decide _) as [Hl|]; [|done].
  split; [done|]. rewrite isPrefix_spec. intros Hp%prefix_length. lia.
Qed.

Lemma isMe_spec m o : isMe m o = true <-> name_idx m = name_idx o.
Proof.
  unfold isMe. rewrite andb_true_iff, bool_decide_eq_true, descendant_spec. split.
  - intros [Hl [z Hz]]. rewrite Hz, length_app in Hl. destruct z; [|cbn in Hl; lia].
    by rewrite app_nil_r in Hz.
  - intros ->. by split.
Qed.

Lemma isMe_false m o : isMe m o = false <-> name_idx m <> name_idx o.
Proof. rewrite <- isMe_spec. by destruct (isMe m o). Qed.

Lemma isMe_descendant m o : isMe m o = true -> isMeOrDescendant m o = true.
Proof. rewrite isMe_spec, descendant_spec. by intros ->. Qed.

(** Each branch has one name more than its parent, and a name of its own. *)
Fixpoint wf (t : Summary) : Prop :=
  let '(Node l s d bs) := t in
  Forall (fun b => exists x, path b = name_idx l ++ [x]) bs
  /\ NoDup (map (fun b => path b) bs)
  /\ (fix all bs := match bs with [] => True | b :: bs => wf b /\ all bs end) bs.

Lemma wf_node l s d bs :
  wf (Node l s d bs) <->
  Forall (fun b => exists x, path b = name_idx l ++ [x]) bs
  /\ NoDup (map (fun b => path b) bs) /\ Forall wf bs.
Proof.
  cbn [wf]. split; intros (H1 & H2 & H3); (split_and!; [done..|]); clear H1 H2.
  - induction bs as [|b bs IH]; [constructor|]. destruct H3. constructor; auto.
  - induction H3; auto.
Qed.

Lemma erase_link t : link (erase t) = link t.
Proof. by destruct t. Qed.

Lemma wf_erase t : wf (erase t) <-> wf t.
Proof.
  induction t as [l s d bs IH] using Summary_nested. cbn [erase]. rewrite !wf_node.
  rewrite map_map. setoid_rewrite erase_link.
  assert (Forall wf (map erase bs) <-> Forall wf bs) as ->.
  { rewrite list.Forall_fmap. induction IH as [|b bs Hb _ IH]; [done|]. rewrite !list.Forall_cons.
    by rewrite IH, <- Hb. }
  assert (Forall (fun b => exists x, path b = name_idx l ++ [x]) (map erase bs)
          <-> Forall (fun b => exists x, path b = name_idx l ++ [x]) bs) as ->; [|done].
  clear IH. induction bs as [|b bs IH]; [done|]. cbn [map].
  by rewrite !list.Forall_cons, erase_link, IH.
Qed.

Lemma wf_same t u : erase t = erase u -> wf t -> wf u.
Proof. intros E. by rewrite <- (wf_erase t), E, wf_erase. Qed.

Definition under (id : ModuleId) (t : Summary) : Prop := path t `prefix_of` name_idx id.

#[export] Instance under_dec id t : Decision (under id t).
Proof. unfold under. apply _. Defined.

(** At most one branch leads to a name. *)
Lemma under_unique l id (b c : Summary) x y :
  path b = l ++ [x] -> path c = l ++ [y] -> under id b -> under id c -> path b = path c.
Proof.
  unfold under. intros -> -> [k1 H1] [k2 H2]. rewrite H1 in H2.
  rewrite <- !(assoc_L (++)) in H2. apply app_inv_head in H2. by injection H2 as ->.
Qed.

Lemma update_other id new t : ~ under id t -> updateStatus id new t = (false, false, t).
Proof.
  destruct t as [l s d bs]. unfold under. cbn [link]. intros Hu.
  assert (isMeOrDescendant l id = false) as Hd.
  { apply not_true_iff_false. by rewrite descendant_spec. }
  assert (isMe l id = false) as Hm.
  { apply not_true_iff_false. intros H%isMe_descendant. congruence. }
  rewrite update_node, Hm, Hd. by destruct bs.
Qed.

Lemma under_child id l b x : path b = l ++ [x] -> under id b -> l `prefix_of` name_idx id.
Proof. unfold under. intros ->. intros [k Hk]. exists ([x] ++ k). by rewrite (assoc_L (++)). Qed.

Lemma alter_other id f t : wf t -> ~ under id t -> alter_leaf id f t = t.
Proof.
  induction t as [l s d bs IH] using Summary_nested. rewrite wf_node.
  intros (Hp & _ & Hw) Hu. destruct bs as [|b bs].
  - cbn. rewrite (proj2 (isMe_false l id)); [done|]. intros E. apply Hu. unfold under.
    cbn [link]. by rewrite E.
  - cbn [alter_leaf]. f_equal. rewrite <- (map_id (b :: bs)) at 2. apply map_ext_in.
    intros c Hc%list_elem_of_In. rewrite list.Forall_forall in IH, Hp, Hw.
    apply IH; [done|by apply Hw|]. destruct (Hp c Hc) as [x Hx]. intros Hcu.
    apply Hu. unfold under. cbn [link]. by eapply under_child.
Qed.

(** ** updateStatus *)

Record updated (id : ModuleId) (new : StatusT1) (t : Summary)
    (r : bool * bool * Summary) : Prop := {
  up_link : link r.2 = link t;
  up_wf : wf r.2;
  up_coherent : coherent r.2;
  up_erase : erase r.2 = erase (set_leaf id new t);
  up_untouched : r.1.2 = false -> erase r.2 = erase t;
  up_found : r.1.1 = true -> under id t;
  up_missed : r.1.1 = false -> r.1.2 = false
}.

Lemma updated_other id new t :
  wf t -> coherent t -> ~ under id t -> updated id new t (updateStatus id new t).
Proof.
  intros Hw Hc Hu. rewrite update_other by done. split; cbn; try done.
  - by rewrite alter_other.
Qed.

Lemma alter_rest id f l bs :
  Forall (fun b => exists x, path b = l ++ [x]) bs -> Forall wf bs ->
  Forall (fun b => ~ under id b) bs -> map (alter_leaf id f) bs = bs.
Proof.
  intros _ Hw Hu. rewrite <- (map_id bs) at 2. apply map_ext_in.
  intros c Hc%list_elem_of_In. rewrite list.Forall_forall in Hw, Hu.
  apply alter_other; auto.
Qed.

Lemma update_all_spec id new l bs :
  Forall (fun b => wf b -> coherent b -> updated id new b (updateStatus id new b)) bs ->
  Forall (fun b => exists x, path b = l ++ [x]) bs -> NoDup (map (fun b => path b) bs) ->
  Forall wf bs -> Forall coherent bs ->
  let r := update_all id new bs in
  Forall wf r.2 /\ Forall coherent r.2 /\ map (fun b => link b) r.2 = map (fun b => link b) bs
  /\ map erase r.2 = map erase (map (set_leaf id new) bs)
  /\ (r.1.2 = false -> map erase r.2 = map erase bs)
  /\ (r.1.1 = false -> r.1.2 = false).
Proof.
  induction 1 as [|b bs Hb _ IH]; intros Hp Hn Hw Hc.
  { cbn. split_and!; try done; constructor. }
  apply list.Forall_cons in Hp as [[x Hx] Hp]. apply NoDup_cons in Hn as [Hnb Hn].
  apply list.Forall_cons in Hw as [Hwb Hw]. apply list.Forall_cons in Hc as [Hcb Hc].
  specialize (Hb Hwb Hcb). specialize (IH Hp Hn Hw Hc).
  change (update_all id new (b :: bs)) with
    (let '(found, touched, b') := updateStatus id new b in
     if found then (true, touched, b' :: bs)
     else let '(found, touched, bs') := update_all id new bs in (found, touched, b' :: bs')).
  destruct (updateStatus id new b) as [[f tc] b'].
  destruct Hb as [H1 H2 H3 H4 H6 H7 H8]. cbn in H1, H2, H3, H4, H6, H7, H8.
  destruct f.
  - cbn. split_and!; [by constructor..|by rewrite H1| | |].
    + rewrite (alter_rest id _ l) at 1; [by rewrite H4|done..|].
      apply list.Forall_forall. intros c Hcin Hcu.
      rewrite list.Forall_forall in Hp. destruct (Hp c Hcin) as [y Hy].
      apply Hnb. rewrite (under_unique l id b c x y Hx Hy (H7 eq_refl) Hcu).
      by apply (list_elem_of_fmap_2 (fun b => path b)).
    + intros ->. by rewrite H6.
    + done.
  - destruct (update_all id new bs) as [[f2 tc2] bs']. cbn in IH |- *.
    destruct IH as (I1 & I2 & I3 & I4 & I5 & I6). specialize (H8 eq_refl). subst tc.
    split_and!; [by constructor..|by rewrite H1, I3|by rewrite H4, I4| |done].
    intros Ht. by rewrite (I5 Ht), H6.
Qed.

Lemma links_paths bs cs :
  map (fun b => link b) cs = map (fun b => link b) bs ->
  map (fun b => path b) cs = map (fun b => path b) bs.
Proof.
  intros E. rewrite <- !(map_map (fun b => link b) name_idx). by rewrite E.
Qed.

Lemma links_extend l bs cs :
  map (fun b => link b) cs = map (fun b => link b) bs ->
  Forall (fun b => exists x, path b = l ++ [x]) bs ->
  Forall (fun b => exists x, path b = l ++ [x]) cs.
Proof.
  revert cs. induction bs as [|b bs IH]; intros [|c cs]; cbn; [constructor|done..|].
  intros [= Hc Hcs] [Hb Hbs]%list.Forall_cons. constructor; [by rewrite Hc|by apply IH].
Qed.

Lemma alter_me id f l s d b bs :
  wf (Node l s d (b :: bs)) -> isMe l id = true ->
  map (alter_leaf id f) (b :: bs) = b :: bs.
Proof.
  rewrite wf_node, isMe_spec. intros (Hp & _ & Hw) E.
  eapply alter_rest; [exact Hp|done|].
  eapply list.Forall_impl; [exact Hp|]. intros c [x Hx]. unfold under. rewrite Hx, E.
  intros Hl%prefix_length. rewrite length_app in Hl. cbn in Hl. lia.
Qed.

Lemma update_me id new l s d bs :
  isMe l id = true -> wf (Node l s d bs) -> coherent (Node l s d bs) ->
  updated id new (Node l s d bs) (updateStatus id new (Node l s d bs)).
Proof.
  intros Em Hwf Hco. rewrite update_node, Em.
  assert (under id (Node l s d bs)) as Hu.
  { unfold under. cbn [link]. rewrite isMe_spec in Em. by rewrite Em. }
  assert (erase (Node l new true bs) = erase (set_leaf id new (Node l s d bs))) as He.
  { destruct bs as [|b bs]; cbn [alter_leaf]; [by rewrite Em|].
    by erewrite alter_me. }
  case_bool_decide as Hs; split; cbn [fst snd link isDirty]; try done.
  - subst new. by rewrite <- He.
  - apply coherent_node in Hco as [? _]. by apply coherent_node.
Qed.

Lemma update_spec id new t :
  wf t -> coherent t -> updated id new t (updateStatus id new t).
Proof.
  induction t as [l s d bs IH] using Summary_nested. intros Hwf Hco.
  destruct (decide (under id (Node l s d bs))) as [Hu|Hu]; [|by apply updated_other].
  destruct (isMe l id) eqn:Em; [by apply update_me|]. rewrite update_node, Em.
  destruct bs as [|b bs].
  { split; cbn; try done. by rewrite Em. }
  rewrite (proj2 (descendant_spec l id) Hu).
  pose proof Hwf as (Hp & Hn & Hw)%wf_node. pose proof Hco as [Hc Hd]%coherent_node.
  pose proof (update_all_spec id new (name_idx l) (b :: bs) IH Hp Hn Hw Hc) as Hall.
  destruct (update_all id new (b :: bs)) as [[f tc] cs]. cbn [fst snd] in Hall.
  destruct Hall as (H1 & H2 & H3 & H4 & H5 & H6).
  assert (exists c cs', cs = c :: cs') as (c & cs' & ->) by (destruct cs; [done|eauto]).
  split; cbn [fst snd link isDirty]; try done.
  - apply wf_node. split_and!; [by eapply links_extend|by rewrite (links_paths (b :: bs))|done].
  - apply coherent_node. split; [done|]. intros [Hdf Htf]%orb_false_iff.
    rewrite (Hd Hdf). cbn [total]. f_equal. pose proof (H5 Htf) as Hsame.
    symmetry. by apply totals_same.
  - cbn [alter_leaf erase map] in *. by rewrite H4.
  - intros Htf. pose proof (H5 Htf) as Hsame. cbn [erase map] in *. by rewrite Hsame.
Qed.

(** ** findSummary *)

Lemma calc_link t r t' : getOrCalculateStatus t = Val (r, t') -> link t' = link t.
Proof.
  destruct t as [l s d bs]. destruct d; [|by intros [= _ <-]].
  rewrite calc_node. destruct bs as [|b bs]; [by intros [= _ <-]|].
  destruct (calc_all clear (b :: bs)) as [[s' bs']| |]; cbn; [by intros [= _ <-]|done..].
Qed.

(** What a query leaves: the same names and leaves. *)
Record queried (t t' : Summary) : Prop := {
  qu_link : link t' = link t;
  qu_coherent : coherent t';
  qu_erase : erase t' = erase t
}.

Lemma queried_refl t : coherent t -> queried t t.
Proof. by split. Qed.

Lemma calc_queried t : coherent t ->
  exists t', getOrCalculateStatus t = Val (total t, t') /\ queried t t'.
Proof.
  intros (t' & E & H1 & H2)%calc_spec. exists t'. split; [done|]. split; try done.
  by eapply calc_link.
Qed.

Lemma find_status_all_spec id bs :
  Forall (fun b => coherent b -> exists b',
    findSummary_status id b = Val (total <$> findSummary id b, b') /\ queried b b') bs ->
  Forall coherent bs ->
  exists bs', find_status_all id bs = Val (total <$> find_all id bs, bs')
    /\ Forall2 queried bs bs'.
Proof.
  induction 1 as [|b bs Hb _ IH]; intros Hc; cbn [find_status_all find_all].
  { by exists []. }
  apply list.Forall_cons in Hc as [Hcb Hc]. destruct (isMeOrDescendant (link b) id).
  - destruct (Hb Hcb) as (b' & -> & Hq). exists (b' :: bs). split; [done|].
    constructor; [done|]. clear -Hc. induction Hc; constructor; [by apply queried_refl|done].
  - destruct (IH Hc) as (bs' & -> & Hq). exists (b :: bs'). split; [done|].
    by constructor; [apply queried_refl|].
Qed.

Lemma queried_all l s d bs bs' :
  coherent (Node l s d bs) -> Forall2 queried bs bs' ->
  queried (Node l s d bs) (Node l s d bs').
Proof.
  rewrite coherent_node. intros [_ Hd] Hq.
  assert (map erase bs' = map erase bs) as He.
  { clear Hd. induction Hq as [|b b' bs bs' [] _ IH]; cbn; congruence. }
  assert (erase (Node l s d bs') = erase (Node l s d bs)) as Hn.
  { cbn [erase]. rewrite He. by destruct Hq. }
  split; [done| |done..]. rewrite coherent_node. split.
  - clear -Hq. induction Hq as [|b b' bs bs' [] _ IH]; by constructor.
  - intros Hdf. etrans; [exact (Hd Hdf)|]. by apply total_same.
Qed.

Lemma find_status_spec id t : coherent t ->
  exists t', findSummary_status id t = Val (total <$> findSummary id t, t') /\ queried t t'.
Proof.
  induction t as [l s d bs IH] using Summary_nested. intros Hco.
  rewrite find_status_node, find_node. destruct (isMe l id).
  { destruct (calc_queried _ Hco) as (t' & -> & Hq). by exists t'. }
  destruct bs as [|b bs]; [by eexists; split; [|apply queried_refl]|].
  destruct (isMeOrDescendant l id); [|by eexists; split; [|apply queried_refl]].
  pose proof Hco as [Hc _]%coherent_node.
  destruct (find_status_all_spec id (b :: bs) IH Hc) as (bs' & -> & Hq).
  eexists. split; [done|]. by apply queried_all.
Qed.

(** ** insertLinkAndStatus *)

Fixpoint all_dirty (t : Summary) : bool :=
  let '(Node _ _ d bs) := t in d && forallb all_dirty bs.

Lemma all_dirty_coherent t : all_dirty t = true -> coherent t.
Proof.
  induction t as [l s d bs IH] using Summary_nested. cbn [all_dirty].
  intros [-> Hb]%andb_true_iff. rewrite coherent_node. split; [|done].
  induction IH as [|b bs Hbb _ IH]; [done|]. cbn in Hb. apply andb_true_iff in Hb as [? ?].
  constructor; auto.
Qed.

Definition known (id : ModuleId) (t : Summary) : Prop := is_Some (findSummary id t).
Definition known_all (id : ModuleId) (bs : list Summary) : Prop := is_Some (find_all id bs).

Lemma known_node id l s d bs :
  known id (Node l s d bs) <->
  name_idx l = name_idx id \/ name_idx l `prefix_of` name_idx id /\ known_all id bs.
Proof.
  unfold known, known_all. rewrite find_node. destruct (isMe l id) eqn:Em.
  - apply isMe_spec in Em. split; [by left|by eexists].
  - apply isMe_false in Em. rewrite <- descendant_spec. destruct bs as [|b bs].
    + split; [by intros [? ?]|]. intros [?|[_ [? ?]]]; done.
    + destruct (isMeOrDescendant l id).
      * split; [by right|]. intros [?|[_ ?]]; done.
      * split; [by intros [? ?]|]. intros [?|[? _]]; done.
Qed.

Lemma known_all_app id bs cs : known_all id bs -> known_all id (bs ++ cs).
Proof.
  unfold known_all. induction bs as [|b bs IH]; cbn [find_all app]; [by intros [? ?]|].
  destruct (isMeOrDescendant (link b) id); auto.
Qed.

Lemma known_all_skip id bs cs :
  Forall (fun b => ~ under id b) bs -> known_all id cs -> known_all id (bs ++ cs).
Proof.
  unfold known_all. intros H Hc. induction H as [|b bs Hb _ IH]; [done|].
  cbn [find_all app]. destruct (isMeOrDescendant (link b) id) eqn:E; [|done].
  by apply descendant_spec in E.
Qed.

Lemma known_all_one id b cs : under id b -> known id b -> known_all id (b :: cs).
Proof.
  unfold known_all, under. cbn [find_all]. intros Hu Hk.
  by rewrite (proj2 (descendant_spec _ _) Hu).
Qed.

Lemma known_all_change id bs b b' cs :
  link b' = link b -> (known id b -> known id b') ->
  known_all id (bs ++ b :: cs) -> known_all id (bs ++ b' :: cs).
Proof.
  unfold known_all. intros Hl Hk. induction bs as [|c bs IH]; cbn [find_all app].
  - rewrite Hl. by destruct (isMeOrDescendant (link b) id).
  - by destruct (isMeOrDescendant (link c) id).
Qed.

Lemma chain_spec id s fuel n :
  (n + S fuel = length (name_idx id))%nat ->
  exists b, chain (S fuel) id s n = Some [b] /\ path b = take (S n) (name_idx id)
    /\ wf b /\ all_dirty b = true /\ known id b
    /\ leaf_list b = [(id, s)] /\ (s = clear -> total b = clear).
Proof.
  revert n. induction fuel as [|fuel IH]; intros n Hn.
  - exists (Node id s true []). change (chain 1 id s n) with
      (l ← create_prefix id (S n); Some [Node l s true []]).
    unfold create_prefix. rewrite decide_True by lia. cbn [mbind option_bind link].
    split_and!; [done|by rewrite take_ge by lia|by apply wf_node; split_and!; constructor|done| |done..].
    apply known_node. by left.
  - destruct (IH (S n)) as (b & E & H1 & H2 & H3 & H4 & H5 & H6); [lia|].
    set (l := MId.mk (take (S n) (name_idx id)) None). exists (Node l s true [b]).
    change (chain (S (S fuel)) id s n) with
      (l ← create_prefix id (S n); bs ← chain (S fuel) id s (S n); Some [Node l s true bs]).
    unfold create_prefix. rewrite decide_False, decide_False by lia.
    cbn [mbind option_bind]. rewrite E. cbn [mbind option_bind link].
    assert (under id b) as Hu.
    { unfold under. rewrite H1. apply prefix_take. }
    split_and!; [done..| |cbn; by rewrite H3| |cbn; by rewrite H5|].
    + apply wf_node. split_and!; [|by constructor; [apply not_elem_of_nil|constructor]|by constructor].
      constructor; [|done]. rewrite H1. cbn [l name_idx].
      destruct (lookup_lt_is_Some_2 (name_idx id) (S n)) as [x Hx]; [lia|].
      exists x. by apply take_S_r.
    + apply known_node. right. split; [apply prefix_take|]. by apply known_all_one.
    + intros Hs. cbn. by rewrite (H6 Hs).
Qed.

(** The leaves above a name have no status of their own. *)
Definition seed (id : ModuleId) : ModuleId * StatusT1 -> Prop := fun '(l, s) =>
  name_idx l `prefix_of` name_idx id -> name_idx l <> name_idx id -> s = clear.

Record inserted (id : ModuleId) (new : StatusT1) (t t' : Summary) : Prop := {
  in_link : link t' = link t;
  in_wf : wf t';
  in_dirty : all_dirty t = true -> all_dirty t' = true;
  in_found : known id t';
  in_kept : forall k, known k t -> known k t';
  in_leaves : forall P : ModuleId * StatusT1 -> Prop,
    Forall P (leaf_list t) -> P (id, new) -> Forall P (leaf_list t');
  in_total : new = clear -> Forall (seed id) (leaf_list t) -> total t' = total t;
  in_coherent : new = clear -> Forall (seed id) (leaf_list t) -> coherent t -> coherent t'
}.

Lemma insert_other id new t :
  ~ under id t -> insertLinkAndStatus id new t = Some (false, t).
Proof.
  destruct t as [l s d bs]. unfold under. cbn [link]. intros Hu. rewrite insert_node.
  destruct (isMeOrDescendant l id) eqn:E; [|done]. by apply descendant_spec in E.
Qed.

Lemma insert_all_spec id new bs :
  Forall (fun b => wf b -> under id b ->
    exists b', insertLinkAndStatus id new b = Some (true, b') /\ inserted id new b b') bs ->
  Forall wf bs ->
  insert_all id new bs = Some (false, bs) /\ Forall (fun b => ~ under id b) bs
  \/ exists pre b b' post, bs = pre ++ b :: post /\ Forall (fun b => ~ under id b) pre
      /\ under id b /\ insert_all id new bs = Some (true, pre ++ b' :: post)
      /\ inserted id new b b'.
Proof.
  induction 1 as [|b bs Hb _ IH]; intros Hw; [by left|].
  apply list.Forall_cons in Hw as [Hwb Hw].
  change (insert_all id new (b :: bs)) with
    ('(found, b) ← insertLinkAndStatus id new b;
     if found : bool then Some (true, b :: bs)
     else '(found, bs) ← insert_all id new bs; Some (found, b :: bs)).
  destruct (decide (under id b)) as [Hu|Hu].
  - destruct (Hb Hwb Hu) as (b' & -> & Hi). right. exists [], b, b', bs. by split_and!.
  - rewrite insert_other by done. cbn [mbind option_bind].
    destruct (IH Hw) as [[-> Hf]|(pre & c & c' & post & -> & Hf & Huc & -> & Hi)].
    + left. split; [done|by constructor].
    + right. exists (b :: pre), c, c', post. split_and!; try done. by constructor.
Qed.

Lemma fold_bound l s :
  m_actualised_at s <= MAX_TIMETICK -> s_actualised_at s <= MAX_TIMETICK ->
  m_actualised_at (foldl and_ s l) <= MAX_TIMETICK
  /\ s_actualised_at (foldl and_ s l) <= MAX_TIMETICK.
Proof.
  revert s. induction l as [|o l IH]; intros s H1 H2; [done|].
  cbn. apply IH; cbn; lia.
Qed.

Lemma and_clear l : and_ (foldl and_ clear l) clear = foldl and_ clear l.
Proof.
  destruct (fold_bound l clear) as [H1 H2]; [cbn; lia..|].
  destruct (foldl and_ clear l) as [m x a b]. cbn in H1, H2. unfold and_. cbn.
  f_equal; [by destruct m|by destruct x|lia..].
Qed.

Lemma total_branches l s d bs :
  bs <> [] -> total (Node l s d bs) = foldl and_ clear (map total bs).
Proof. by destruct bs. Qed.

Lemma total_append id l s d bs c :
  name_idx l `prefix_of` name_idx id -> name_idx l <> name_idx id -> total c = clear ->
  Forall (seed id) (leaf_list (Node l s d bs)) ->
  total (Node l s d (bs ++ [c])) = total (Node l s d bs).
Proof.
  intros Hl Hn Hc [[-> Hs]|[Hb _]]%leaf_list_node.
  - cbn. rewrite Hc, (Hs Hl Hn). exact (and_clear []).
  - rewrite !total_branches by (try done; by destruct bs).
    rewrite map_app, foldl_app. cbn. by rewrite Hc, and_clear.
Qed.

Lemma total_inside l s d pre b b' post :
  total b' = total b ->
  total (Node l s d (pre ++ b' :: post)) = total (Node l s d (pre ++ b :: post)).
Proof.
  intros H. rewrite !total_branches by (by destruct pre). by rewrite !map_app; cbn; rewrite H.
Qed.

Lemma coherent_retotal l s d bs bs' :
  coherent (Node l s d bs) -> Forall coherent bs' ->
  total (Node l s d bs') = total (Node l s d bs) -> coherent (Node l s d bs').
Proof. rewrite !coherent_node. intros [_ Hd] Hc Ht. split; [done|]. intros E. by rewrite Ht, <- Hd. Qed.

Lemma inserted_append id new l s d bs c x :
  wf (Node l s d bs) -> name_idx l `prefix_of` name_idx id ->
  Forall (fun b => ~ under id b) bs ->
  path c = name_idx l ++ [x] -> under id c -> wf c -> all_dirty c = true -> known id c ->
  leaf_list c = [(id, new)] -> (new = clear -> total c = clear) ->
  inserted id new (Node l s d bs) (Node l s d (bs ++ [c])).
Proof.
  rewrite wf_node. intros (Hp & Hn & Hw) Hl Hf Hx Hu Hwc Hd Hk Hlc Htc.
  assert (name_idx l <> name_idx id) as Hln.
  { unfold under in Hu. rewrite Hx in Hu. intros E. rewrite <- E in Hu.
    apply prefix_length in Hu. rewrite length_app in Hu. cbn in Hu. lia. }
  split; [done|..].
  - apply wf_node. rewrite map_app. split_and!.
    + apply list.Forall_app_2; [done|]. constructor; [by exists x|done].
    + apply NoDup_app. split_and!; [done| |by apply NoDup_singleton].
      intros p (b & -> & Hb)%list_elem_of_fmap Hpc%list_elem_of_singleton.
      rewrite list.Forall_forall in Hf. apply (Hf b Hb). unfold under. by rewrite Hpc.
    + apply list.Forall_app_2; [done|]. by constructor.
  - cbn [all_dirty]. rewrite forallb_app. cbn. rewrite Hd. by rewrite andb_true_r.
  - apply known_node. right. split; [done|]. apply known_all_skip; [done|]. by apply known_all_one.
  - intros k. rewrite !known_node. intros [?|[? ?]]; [by left|right].
    split; [done|]. by apply known_all_app.
  - intros P HP Hnew. apply leaf_list_node. right. split; [by destruct bs|].
    apply list.Forall_app_2; [|by rewrite list.Forall_singleton, Hlc, list.Forall_singleton].
    apply leaf_list_node in HP as [[-> _]|[_ HP]]; [constructor|done].
  - intros Hnew Hseed. apply (total_append id); auto.
  - intros Hnew Hseed Hco. eapply coherent_retotal; [exact Hco| |apply (total_append id); auto].
    apply coherent_node in Hco as [Hco _]. apply list.Forall_app_2; [done|].
    constructor; [by apply all_dirty_coherent|done].
Qed.

Lemma leaf_list_inside P l s d pre b post :
  Forall P (leaf_list (Node l s d (pre ++ b :: post))) -> Forall P (leaf_list b).
Proof.
  intros [[? _]|[_ HP]]%leaf_list_node; [by destruct pre|].
  by apply list.Forall_app in HP as [_ [? _]%list.Forall_cons].
Qed.

Lemma inserted_inside id new l s d pre b b' post :
  wf (Node l s d (pre ++ b :: post)) -> name_idx l `prefix_of` name_idx id ->
  Forall (fun b => ~ under id b) pre -> under id b -> inserted id new b b' ->
  inserted id new (Node l s d (pre ++ b :: post)) (Node l s d (pre ++ b' :: post)).
Proof.
  rewrite wf_node. intros (Hp & Hn & Hw) Hl Hf Hu [H1 H2 H3 H4 H5 H6 H7 H8]. split; [done|..].
  - assert (map (fun c => link c) (pre ++ b' :: post) = map (fun c => link c) (pre ++ b :: post))
      as Hs by (rewrite !map_app; cbn; by rewrite H1).
    apply wf_node. split_and!; [by eapply links_extend|by rewrite (links_paths _ _ Hs)|].
    apply list.Forall_app in Hw as [Hw1 [Hw2 Hw3]%list.Forall_cons].
    apply list.Forall_app_2; [done|]. by constructor.
  - cbn [all_dirty]. rewrite !forallb_app. cbn [forallb].
    destruct d, (forallb all_dirty pre), (all_dirty b); try done. by rewrite H3.
  - apply known_node. right. split; [done|]. apply known_all_skip; [done|].
    apply known_all_one; [|done]. unfold under in *. by rewrite H1.
  - intros k. rewrite !known_node. intros [?|[? ?]]; [by left|right].
    split; [done|]. eapply known_all_change; [done|apply H5|done].
  - intros P HP Hnew. apply leaf_list_node. right. split; [by destruct pre|].
    apply leaf_list_node in HP as [[? _]|[_ HP]]; [by destruct pre|].
    apply list.Forall_app in HP as [HP1 [HP2 HP3]%list.Forall_cons].
    apply list.Forall_app_2; [done|]. constructor; auto.
  - intros Hnew Hseed. apply total_inside, H7; [done|].
    by apply (leaf_list_inside (seed id) l s d pre b post).
  - intros Hnew Hseed Hco.
    pose proof (leaf_list_inside (seed id) l s d pre b post Hseed) as Hsb.
    eapply coherent_retotal; [exact Hco| |by apply total_inside, H7].
    apply coherent_node in Hco as [Hco _].
    apply list.Forall_app in Hco as [Hc1 [Hc2 Hc3]%list.Forall_cons].
    apply list.Forall_app_2; [done|]. constructor; auto.
Qed.

Lemma insert_spec id new t : wf t -> under id t ->
  exists t', insertLinkAndStatus id new t = Some (true, t') /\ inserted id new t t'.
Proof.
  induction t as [l s d bs IH] using Summary_nested. intros Hwf Hu.
  unfold under in Hu. cbn [link] in Hu.
  rewrite insert_node, (proj2 (descendant_spec l id) Hu). cbn [negb].
  destruct (isMe l id) eqn:Em.
  { eexists. split; [done|]. apply isMe_spec in Em. split; try done. apply known_node. by left. }
  pose proof Hwf as (Hp & Hn & Hw)%wf_node.
  destruct (insert_all_spec id new bs IH Hw)
    as [[-> Hf]|(pre & b & b' & post & -> & Hf & Hub & -> & Hi)].
  - cbn [mbind option_bind]. apply isMe_false in Em. destruct Hu as [z Hz].
    destruct z as [|x z]; [rewrite app_nil_r in Hz; congruence|].
    destruct (chain_spec id new (length z) (length (name_idx l))) as (c & E & H1 & H2 & H3 & H4 & H5 & H6).
    { rewrite Hz, length_app. cbn. lia. }
    replace (length (name_idx id) - length (name_idx l))%nat with (S (length z))
      by (rewrite Hz, length_app; cbn; lia).
    rewrite E. cbn [mbind option_bind]. eexists. split; [done|].
    apply (inserted_append id new l s d bs c x); try done.
    + by eexists.
    + rewrite H1, Hz, take_app_ge by lia.
      by replace (S (length (name_idx l)) - length (name_idx l))%nat with 1%nat by lia.
    + unfold under. rewrite H1. apply prefix_take.
  - cbn [mbind option_bind]. eexists. split; [done|]. by apply inserted_inside.
Qed.

(** ** The events of the entity manager and the Dusime controller *)

(** [EntityUpdate::Created]: a name that exists is only reported. *)
Definition created (id : ModuleId) (t : Summary) : option Summary :=
  match findSummary id t with
  | Some _ => Some t
  | None => '(_, t) ← addNode id clear t; Some t
  end.

(** A copy of the status of the node is changed and put back; a name that is
    not there gives a warning. *)
Definition change (f : StatusT1 -> StatusT1) (id : ModuleId) (t : Summary) : outcome Summary :=
  '(r, t) ← findSummary_status id t;
  match r with
  | None => Val t
  | Some c => Val (updateStatus id (f c) t).2
  end.

(** [EntityUpdate::Report], and [DusimeController::processConfirm] *)
Definition reported (m : MS.Type_) (tick : Z) := change (setModuleState m tick).
Definition confirm (x : SS.Type_) (tick : Z) := change (setSimulationState x tick).

Inductive event :=
  | CheckIn (id : ModuleId)
  | Report (id : ModuleId) (m : MS.Type_) (tick : Z)
  | Confirm (id : ModuleId) (x : SS.Type_) (tick : Z)
  | Query.

(** The answers to the queries of the root, and the tree. *)
Fixpoint events (es : list event) (t : Summary) : outcome (list StatusT1 * Summary) :=
  match es with
  | [] => Val ([], t)
  | CheckIn id :: es =>
      match created id t with
      | Some t => events es t
      | None => Exn NotFound
      end
  | Report id m tick :: es => t ← reported m tick id t; events es t
  | Confirm id x tick :: es => t ← confirm x tick id t; events es t
  | Query :: es =>
      '(s, t) ← getOrCalculateStatus t;
      '(l, t) ← events es t; Val (s :: l, t)
  end.

(** The reference: a status counts only in a leaf, and is set there. *)
Definition effect (e : event) (t : Summary) : Summary :=
  match e with
  | CheckIn id => default t (created id t)
  | Report id m tick => alter_leaf id (setModuleState m tick) t
  | Confirm id x tick => alter_leaf id (setSimulationState x tick) t
  | Query => t
  end.

Fixpoint answers (es : list event) (t : Summary) : list StatusT1 :=
  match es with
  | [] => []
  | e :: es =>
      match e with Query => [total t] | _ => [] end ++ answers es (effect e t)
  end.

(** Entities have one name, modules two; only modules report. *)
Definition two_levels (e : event) : Prop :=
  match e with
  | CheckIn id => (length (name_idx id) <= 2)%nat
  | Report id _ _ | Confirm id _ _ => length (name_idx id) = 2%nat
  | Query => True
  end.

(** A leaf that can still get branches has no status of its own. *)
Definition bare : ModuleId * StatusT1 -> Prop := fun '(l, s) =>
  (length (name_idx l) <= 1)%nat -> s = clear.

(** What is true of the tree from the first check-in to the last query. *)
Record kept (t : Summary) : Prop := {
  kp_root : path t = [];
  kp_wf : wf t;
  kp_coherent : coherent t;
  kp_bare : Forall bare (leaf_list t)
}.

Lemma kept_root : kept root.
Proof.
  split; [done| | |].
  - apply wf_node. split_and!; constructor.
  - by apply all_dirty_coherent.
  - by constructor.
Qed.

Lemma under_root id t : path t = [] -> under id t.
Proof. unfold under. intros ->. apply prefix_nil. Qed.

Lemma bare_seed id p : (length (name_idx id) <= 2)%nat -> bare p -> seed id p.
Proof.
  destruct p as [l s]. unfold bare, seed. intros Hid Hb [z Hz] Hne. apply Hb.
  destruct z as [|x z]; [by rewrite app_nil_r in Hz|].
  rewrite Hz, length_app in Hid. cbn in Hid. lia.
Qed.

Lemma created_spec id t : kept t -> (length (name_idx id) <= 2)%nat ->
  exists u, created id t = Some u /\ kept u /\ known id u /\ (forall k, known k t -> known k u).
Proof.
  intros [Hp Hw Hc Hb] Hid. unfold created, addNode.
  destruct (findSummary id t) as [c|] eqn:E.
  - exists t. split_and!; try done. unfold known. by rewrite E.
  - destruct (insert_spec id clear t Hw (under_root id t Hp))
      as (u & -> & [I1 I2 _ I4 I5 I6 _ I8]).
    assert (Forall (seed id) (leaf_list t)) as Hs.
    { eapply list.Forall_impl; [exact Hb|]. intros p. by apply bare_seed. }
    exists u. cbn. split_and!; auto. split; auto; [by rewrite I1|]. by apply I6.
Qed.

(** ** The reference does not look at what is erased *)

Lemma erase_erase t : erase (erase t) = erase t.
Proof.
  induction t as [l s d bs IH] using Summary_nested. cbn [erase]. rewrite map_map. f_equal.
  - by destruct bs.
  - induction IH as [|b bs Hb _ IH]; [done|]. cbn. by rewrite Hb, IH.
Qed.

Lemma find_erase id t : findSummary id (erase t) = erase <$> findSummary id t.
Proof.
  induction t as [l s d bs IH] using Summary_nested. cbn [erase]. rewrite !find_node.
  destruct (isMe l id); [done|]. destruct bs as [|b bs]; [done|]. cbn [map].
  destruct (isMeOrDescendant l id); [|done].
  change (erase b :: map erase bs) with (map erase (b :: bs)).
  induction IH as [|c cs Hc _ IH]; [done|]. cbn [map find_all]. rewrite erase_link.
  by destruct (isMeOrDescendant (link c) id).
Qed.

Lemma known_erase id t : known id (erase t) <-> known id t.
Proof. unfold known. rewrite find_erase. by rewrite fmap_is_Some. Qed.

Definition same_insert (o o' : option (bool * Summary)) : Prop :=
  match o, o' with
  | Some (b, u), Some (b', u') => b' = b /\ erase u' = erase u
  | None, None => True
  | _, _ => False
  end.

Definition same_inserts (o o' : option (bool * list Summary)) : Prop :=
  match o, o' with
  | Some (b, u), Some (b', u') => b' = b /\ map erase u' = map erase u
  | None, None => True
  | _, _ => False
  end.

Lemma insert_all_erase id new bs :
  Forall (fun b => same_insert (insertLinkAndStatus id new b)
                     (insertLinkAndStatus id new (erase b))) bs ->
  same_inserts (insert_all id new bs) (insert_all id new (map erase bs)).
Proof.
  induction 1 as [|b bs Hb _ IH]; [done|]. cbn [map insert_all].
  destruct (insertLinkAndStatus id new b) as [[f u]|],
    (insertLinkAndStatus id new (erase b)) as [[f' u']|]; cbn in Hb |- *; try done.
  destruct Hb as [-> Hu]. destruct f; cbn.
  - split; [done|]. rewrite Hu, map_map. f_equal.
    apply map_ext. intros. apply erase_erase.
  - destruct (insert_all id new bs) as [[g v]|],
      (insert_all id new (map erase bs)) as [[g' v']|]; cbn in IH |- *; try done.
    destruct IH as [-> Hv]. by rewrite Hu, Hv.
Qed.

Lemma insert_all_length id new bs f u :
  insert_all id new bs = Some (f, u) -> length u = length bs.
Proof.
  revert f u. induction bs as [|b bs IH]; intros f u; cbn [insert_all]; [by intros [= _ <-]|].
  destruct (insertLinkAndStatus id new b) as [[[] v]|]; cbn; [by intros [= _ <-]| |done].
  destruct (insert_all id new bs) as [[g w]|]; cbn; [|done].
  intros [= _ <-]. cbn. by rewrite (IH g w).
Qed.

Lemma erase_node l s s' d d' bs bs' :
  map erase bs' = map erase bs -> bs <> [] ->
  erase (Node l s' d' bs') = erase (Node l s d bs).
Proof. intros E Hb. destruct bs, bs'; try done. cbn [erase]. by rewrite E. Qed.

Lemma insert_erase id new t :
  same_insert (insertLinkAndStatus id new t) (insertLinkAndStatus id new (erase t)).
Proof.
  induction t as [l s d bs IH] using Summary_nested. cbn [erase]. rewrite !insert_node.
  pose proof (erase_erase (Node l s d bs)) as He. cbn [erase] in He.
  destruct (negb (isMeOrDescendant l id)); [by split|]. destruct (isMe l id); [by split|].
  pose proof (insert_all_erase id new bs IH) as Hall.
  destruct bs as [|b bs].
  { cbn. destruct (chain _ id new _) as [c|]; cbn; [|done]. split; [done|]. by destruct c. }
  destruct (insert_all id new (b :: bs)) as [[f u]|] eqn:Eu,
    (insert_all id new (map erase (b :: bs))) as [[f' u']|]; cbn in Hall |- *; try done.
  apply insert_all_length in Eu. destruct Hall as [-> Hu]. destruct f; cbn.
  - split; [done|]. apply (erase_node l s clear d true u u'); [done|by destruct u].
  - destruct (chain _ id new _) as [c|]; cbn; [|done]. split; [done|].
    apply (erase_node l s clear d true (u ++ c) (u' ++ c)); [by rewrite !map_app, Hu|].
    by destruct u.
Qed.

Lemma created_erase id t :
  match created id t, created id (erase t) with
  | Some u, Some u' => erase u' = erase u
  | None, None => True
  | _, _ => False
  end.
Proof.
  unfold created, addNode. rewrite find_erase. destruct (findSummary id t); cbn.
  - apply erase_erase.
  - pose proof (insert_erase id clear t) as H.
    destruct (insertLinkAndStatus id clear t) as [[f u]|],
      (insertLinkAndStatus id clear (erase t)) as [[f' u']|]; cbn in H |- *; try done.
    by destruct H.
Qed.

Lemma alter_found_all id f l bs :
  Forall (fun b => wf b -> alter_leaf id f b
    = match findSummary id b with Some n => set_leaf id (f (total n)) b | None => b end) bs ->
  Forall (fun b => exists x, path b = l ++ [x]) bs -> NoDup (map (fun b => path b) bs) ->
  Forall wf bs ->
  map (alter_leaf id f) bs
  = match find_all id bs with Some n => map (set_leaf id (f (total n))) bs | None => bs end.
Proof.
  induction 1 as [|b bs Hb _ IH]; intros Hp Hn Hw; [done|]. cbn [map find_all].
  apply list.Forall_cons in Hp as [[x Hx] Hp]. apply NoDup_cons in Hn as [Hnb Hn].
  apply list.Forall_cons in Hw as [Hwb Hw]. specialize (IH Hp Hn Hw). specialize (Hb Hwb).
  destruct (isMeOrDescendant (link b) id) eqn:E.
  - apply descendant_spec in E. rewrite Hb.
    assert (Forall (fun c => ~ under id c) bs) as Hr.
    { apply list.Forall_forall. intros c Hc Hcu. rewrite list.Forall_forall in Hp.
      destruct (Hp c Hc) as [y Hy]. apply Hnb.
      rewrite (under_unique l id b c x y Hx Hy E Hcu).
      by apply (list_elem_of_fmap_2 (fun b => path b)). }
    rewrite (alter_rest id f l) by done.
    destruct (findSummary id b) as [n|]; [|done]. by rewrite (alter_rest id _ l).
  - assert (~ under id b) as Hu by (by intros H%descendant_spec; rewrite E in H).
    rewrite alter_other, IH by done. destruct (find_all id bs) as [n|]; [|done].
    by rewrite alter_other.
Qed.

Lemma alter_found id f t :
  wf t -> alter_leaf id f t
  = match findSummary id t with Some n => set_leaf id (f (total n)) t | None => t end.
Proof.
  induction t as [l s d bs IH] using Summary_nested. intros Hwf. rewrite find_node.
  destruct (isMe l id) eqn:Em.
  - destruct bs as [|b bs]; cbn [alter_leaf]; [by rewrite Em|].
    f_equal. by erewrite !alter_me.
  - destruct bs as [|b bs]; [cbn [alter_leaf]; by rewrite Em|].
    destruct (isMeOrDescendant l id) eqn:E.
    + apply wf_node in Hwf as (Hp & Hn & Hw). cbn [alter_leaf].
      rewrite (alter_found_all id f (name_idx l)) by done.
      destruct (find_all id (b :: bs)) as [n|]; [|done]. done.
    + apply alter_other; [done|]. unfold under. cbn [link].
      intros H%descendant_spec. congruence.
Qed.

Lemma alter_leaf_erase id f t : erase (alter_leaf id f (erase t)) = erase (alter_leaf id f t).
Proof.
  induction t as [l s d bs IH] using Summary_nested. destruct bs as [|b bs]; [done|].
  cbn [erase map alter_leaf]. f_equal. inversion IH as [|? ? Hb Hbs]; subst. f_equal; [done|].
  clear IH Hb. induction Hbs as [|c bs Hc _ IH]; [done|]. cbn. by f_equal.
Qed.

Lemma effect_erase e t : erase (effect e (erase t)) = erase (effect e t).
Proof.
  destruct e as [id|id m tick|id x tick|]; cbn [effect].
  - pose proof (created_erase id t) as H.
    destruct (created id t), (created id (erase t)); try done. cbn. apply erase_erase.
  - apply alter_leaf_erase.
  - apply alter_leaf_erase.
  - apply erase_erase.
Qed.

Lemma effect_same e t u : erase t = erase u -> erase (effect e t) = erase (effect e u).
Proof. intros E. by rewrite <- (effect_erase e t), E, effect_erase. Qed.

Lemma answers_same es t u : erase t = erase u -> answers es t = answers es u.
Proof.
  revert t u. induction es as [|e es IH]; intros t u E; [done|]. cbn [answers]. f_equal.
  - destruct e; try done. by rewrite (total_same t u).
  - by apply IH, effect_same.
Qed.

Lemma kept_same t u :
  kept t -> coherent u -> link u = link t -> erase u = erase t -> kept u.
Proof.
  intros [H1 H2 _ H4] Hc Hl He. split; [by rewrite Hl|by apply (wf_same t)|done|].
  by rewrite (leaf_list_same u t).
Qed.

Lemma bare_alter id f t :
  length (name_idx id) = 2%nat -> Forall bare (leaf_list t) ->
  Forall bare (leaf_list (alter_leaf id f t)).
Proof.
  intros Hid H. rewrite leaf_list_alter, Forall_map. eapply list.Forall_impl; [exact H|].
  intros [l s] Hb. cbn in *. destruct (isMe l id) eqn:E; [|done].
  apply isMe_spec in E. rewrite E, Hid. lia.
Qed.

Lemma change_spec f id t : kept t -> length (name_idx id) = 2%nat ->
  exists t', change f id t = Val t' /\ kept t' /\ erase t' = erase (alter_leaf id f t).
Proof.
  intros [Hp Hw Hc Hb] Hid. unfold change.
  destruct (find_status_spec id t Hc) as (u & -> & [Q1 Q2 Q3]). cbn [mbind outcome_bind].
  assert (wf u) as Hwu by (by apply (wf_same t)).
  pose proof (bare_alter id f t Hid Hb) as Hb'. revert Hb'.
  rewrite (alter_found id f t Hw). destruct (findSummary id t) as [n|]; intros Hb'; cbn.
  - destruct (update_spec id (f (total n)) u Hwu Q2) as [U1 U2 U3 U4 _ _ _].
    assert (erase (updateStatus id (f (total n)) u).2 = erase (set_leaf id (f (total n)) t)) as He.
    { by rewrite U4, <- alter_leaf_erase, Q3, alter_leaf_erase. }
    eexists. split; [done|]. split; [|done]. split; [by rewrite U1, Q1|done..|].
    by rewrite (leaf_list_same _ _ He).
  - exists u. split_and!; [done| |done]. by apply (kept_same t).
Qed.

Lemma find_alter k id f t :
  findSummary k (alter_leaf id f t) = alter_leaf id f <$> findSummary k t.
Proof.
  induction t as [l s d bs IH] using Summary_nested. destruct bs as [|b bs].
  { cbn [alter_leaf]. rewrite !find_node. by destruct (isMe l k). }
  cbn [alter_leaf]. rewrite !find_node. destruct (isMe l k); [done|]. cbn [map].
  destruct (isMeOrDescendant l k); [|done].
  change (alter_leaf id f b :: map (alter_leaf id f) bs) with (map (alter_leaf id f) (b :: bs)).
  induction IH as [|c cs Hc _ IH]; [done|]. cbn [map find_all].
  replace (link (alter_leaf id f c)) with (link c) by (by destruct c as [? ? ? []]).
  by destruct (isMeOrDescendant (link c) k).
Qed.

(** One event, in the keeper and in the reference. *)
Lemma event_spec e t : kept t -> two_levels e ->
  exists u, kept u /\ erase u = erase (effect e t) /\ (forall k, known k t -> known k u)
    /\ (match e with CheckIn id => known id u | _ => True end)
    /\ forall es, events (e :: es) t
         = '(l, w) ← events es u; Val (match e with Query => total t :: l | _ => l end, w).
Proof.
  intros Hk He.
  assert (forall f id, length (name_idx id) = 2%nat -> exists u, change f id t = Val u
    /\ kept u /\ erase u = erase (alter_leaf id f t) /\ (forall k, known k t -> known k u))
    as Hch.
  { intros f id Hid. destruct (change_spec f id t Hk Hid) as (u & E & Hu & Ee).
    exists u. split_and!; try done. intros k. rewrite <- (known_erase k u), Ee, known_erase.
    unfold known. by rewrite find_alter, fmap_is_Some. }
  destruct e as [id|id m tick|id x tick|]; cbn [effect events].
  - destruct (created_spec id t Hk He) as (u & E & Hu & Hid & Hkn). exists u.
    rewrite E. split_and!; try done. intros es. by destruct (events es u) as [[]| |].
  - destruct (Hch (setModuleState m tick) id He) as (u & E & Hu & Ee & Hkn). exists u.
    split_and!; try done. intros es. unfold reported. rewrite E. cbn.
    by destruct (events es u) as [[]| |].
  - destruct (Hch (setSimulationState x tick) id He) as (u & E & Hu & Ee & Hkn). exists u.
    split_and!; try done. intros es. unfold confirm. rewrite E. cbn.
    by destruct (events es u) as [[]| |].
  - pose proof Hk as [_ _ Hc _].
    destruct (calc_queried t Hc) as (u & E & [Q1 Q2 Q3]). exists u. rewrite E.
    split_and!; [by apply (kept_same t)|done| |done|].
    + intros k. by rewrite <- (known_erase k u), Q3, known_erase.
    + intros es. cbn. by destruct (events es u) as [[]| |].
Qed.

Definition checked_in (es : list event) : list ModuleId :=
  omap (fun e => match e with CheckIn id => Some id | _ => None end) es.

Lemma events_spec es t : kept t -> Forall two_levels es ->
  exists t', events es t = Val (answers es t, t') /\ kept t'
    /\ (forall k, known k t -> known k t') /\ Forall (fun id => known id t') (checked_in es).
Proof.
  intros Hk Hes. revert t Hk. induction Hes as [|e es He _ IH]; intros t Hk.
  { exists t. split_and!; try done. }
  destruct (event_spec e t Hk He) as (u & Hu & Ee & Hkn & Hid & ->).
  destruct (IH u Hu) as (t' & -> & Ht' & Hkn' & Hall). exists t'.
  rewrite (answers_same es u (effect e t) Ee).
  split_and!; [|done|by auto|].
  - cbn. by destruct e.
  - destruct e; try done. constructor; auto.
Qed.

(** C33: The status keeper agrees with a tree without caches.  Modules check in,
    report and confirm, and the root is queried, in any order: each query
    returns the combination, from scratch, of the states last reported for the
    leaves, so no node that is marked clean is out of date; and every name that
    checked in is found from then on.  (Reports may be for names that do not
    exist.) *)
Theorem status_keeper_correct es :
  Forall two_levels es ->
  exists t, events es root = Val (answers es root, t)
    /\ Forall (fun id => existsSummary id t = true) (checked_in es).
Proof.
  intros Hes. destruct (events_spec es root kept_root Hes) as (t & E & _ & _ & Hall).
  exists t. split; [done|]. eapply list.Forall_impl; [exact Hall|].
  intros id Hk. by apply bool_decide_eq_true.
Qed.

(** ** What a combined state says of the leaves *)

Fixpoint leaves (t : Summary) : list StatusT1 :=
  let '(Node l s d bs) := t in
  match bs with [] => [s] | _ :: _ => mjoin (map leaves bs) end.

Section Agree.
Context {A} (op : A -> A -> A) (N r : A) (g : StatusT1 -> A).
Context (g_and : forall s o, g (and_ s o) = op (g s) (g o)) (g_clear : g clear = N).
Context (op_both : forall a b, op a b = r \/ op a b = N ->
  (a = r \/ a = N) /\ (b = r \/ b = N)).
Context (op_one : forall a b, op a b = r -> a = r \/ b = r) (rN : r <> N).

Lemma fold_both l s :
  g (foldl and_ s l) = r \/ g (foldl and_ s l) = N ->
  (g s = r \/ g s = N) /\ Forall (fun o => g o = r \/ g o = N) l.
Proof.
  revert s. induction l as [|o l IH]; intros s H; [done|].
  destruct (IH _ H) as [Hso Hl]. rewrite g_and in Hso. apply op_both in Hso as [? ?].
  split; [done|by constructor].
Qed.

Lemma fold_one l s :
  g (foldl and_ s l) = r -> g s = r \/ Exists (fun o => g o = r) l.
Proof.
  revert s. induction l as [|o l IH]; intros s H; [by left|].
  destruct (IH _ H) as [Hso|Hl]; [|by right; right]. rewrite g_and in Hso.
  apply op_one in Hso as [?|?]; [by left|by right; left].
Qed.

Lemma leaves_both t :
  g (total t) = r \/ g (total t) = N -> Forall (fun o => g o = r \/ g o = N) (leaves t).
Proof.
  induction t as [l s d bs IH] using Summary_nested. destruct bs as [|b bs]; cbn [total leaves].
  - by constructor.
  - intros [_ H]%fold_both. apply list.Forall_join. rewrite Forall_map in H |- *.
    eapply list.Forall_impl; [exact (List.Forall_and IH H)|]. by intros c [Hc ?]; apply Hc.
Qed.

Lemma leaves_one t : g (total t) = r -> Exists (fun o => g o = r) (leaves t).
Proof.
  induction t as [l s d bs IH] using Summary_nested. destruct bs as [|b bs]; cbn [total leaves].
  - by constructor.
  - intros [H|H]%fold_one; [congruence|].
    apply Exists_exists in H as (o & (c & -> & Hc)%list_elem_of_fmap & Ho).
    rewrite list.Forall_forall in IH. pose proof (IH c Hc Ho) as (x & Hx & E)%Exists_exists.
    apply Exists_exists. exists x. split; [|done]. apply list_elem_of_join.
    exists (leaves c). split; [done|]. by apply list_elem_of_fmap_2.
Qed.
End Agree.

Lemma on_leaves t :
  mstate (total t) = MS.On ->
  Forall (fun s => mstate s = MS.On \/ mstate s = MS.Neutral) (leaves t)
  /\ Exists (fun s => mstate s = MS.On) (leaves t).
Proof.
  intros E. split.
  - eapply (leaves_both MS.and_); [done| |by left].
    intros [] []; cbn; intros [|]; try done; auto.
  - eapply (leaves_one MS.and_); [done|done| |done|done].
    intros [] []; cbn; intros; try done; auto.
Qed.

(** The other way round, for [On]. *)
Lemma fold_on l x :
  x = MS.On \/ x = MS.Neutral -> Forall (fun y => y = MS.On \/ y = MS.Neutral) l ->
  let r := foldl MS.and_ x l in
  (r = MS.On \/ r = MS.Neutral) /\ (x = MS.On \/ Exists (fun y => y = MS.On) l -> r = MS.On).
Proof.
  intros Hx Hl. revert x Hx. induction Hl as [|y l Hy _ IH]; intros x Hx; cbn.
  { split; [done|]. intros [?|H]; [done|by apply Exists_nil in H]. }
  destruct (IH (MS.and_ x y)) as [H1 H2].
  { by destruct Hx as [->| ->], Hy as [->| ->]; [left|left|left|right]. }
  split; [done|]. intros H. apply H2. rewrite Exists_cons in H.
  destruct H as [->|[->|H]]; [left|left|by right]; by destruct Hx, Hy; subst.
Qed.

Lemma leaves_on t :
  Forall (fun s => mstate s = MS.On \/ mstate s = MS.Neutral) (leaves t) ->
  (mstate (total t) = MS.On \/ mstate (total t) = MS.Neutral)
  /\ (Exists (fun s => mstate s = MS.On) (leaves t) -> mstate (total t) = MS.On).
Proof.
  induction t as [l s d bs IH] using Summary_nested. destruct bs as [|b bs].
  { cbn. rewrite list.Forall_singleton, Exists_cons, Exists_nil. intros ?. split; [done|].
    by intros [?|?]. }
  cbn [leaves]. rewrite Forall_mjoin, Forall_map. intros Hl.
  rewrite total_branches by done. rewrite mstate_fold.
  assert (Forall (fun y => y = MS.On \/ y = MS.Neutral) (map mstate (map total (b :: bs)))) as Ht.
  { rewrite !Forall_map. eapply list.Forall_impl; [exact (List.Forall_and IH Hl)|].
    intros c [Hc Hcl]. by apply Hc. }
  destruct (fold_on (map mstate (map total (b :: bs))) MS.Neutral) as [H1 H2]; [by right|done|].
  split; [done|]. intros Hx. apply H2. right. rewrite !Exists_map.
  apply Exists_exists in Hx as (x & Hx & E).
  apply list_elem_of_join in Hx as (ls & Hx & (c & -> & Hc)%list_elem_of_fmap).
  apply Exists_exists. exists c. split; [done|].
  pose proof (List.Forall_and IH Hl) as Hal. rewrite list.Forall_forall in Hal.
  destruct (Hal c Hc) as [Hc1 Hc2]. apply (Hc1 Hc2). apply Exists_exists. by exists x.
Qed.

Lemma leaves_list t : leaves t = map snd (leaf_list t).
Proof.
  induction t as [l s d bs IH] using Summary_nested. destruct bs as [|b bs]; [done|].
  cbn [leaves leaf_list]. induction IH as [|c cs Hc _ IH]; [done|].
  cbn. rewrite map_app. f_equal; [done|exact IH].
Qed.

Lemma settled_leaves r t :
  settled r -> sstate (total t) = r ->
  Forall (fun s => sstate s = r \/ sstate s = SS.Neutral) (leaves t)
  /\ Exists (fun s => sstate s = r) (leaves t).
Proof.
  intros Hr E. split.
  - eapply (leaves_both SS.and_); [done| |by left].
    destruct Hr as [->|[->|[->| ->]]]; intros [] []; cbn; intros [|]; try done; auto.
  - eapply (leaves_one SS.and_); [done|done| | |done];
      destruct Hr as [->|[->|[->| ->]]]; try done;
      intros [] []; cbn; intros; try done; auto.
Qed.

Lemma fold_time l s :
  let m := s_actualised_at (foldl and_ s l) in
  m <= s_actualised_at s /\ Forall (fun o => m <= s_actualised_at o) l.
Proof.
  revert s. induction l as [|o l IH]; intros s; [by split|].
  destruct (IH (and_ s o)) as [H1 H2]. cbn in *. split; [lia|]. constructor; [lia|done].
Qed.

(** The time of the combined status is not after that of any leaf. *)
Lemma leaves_time t : Forall (fun o => s_actualised_at (total t) <= s_actualised_at o) (leaves t).
Proof.
  induction t as [l s d bs IH] using Summary_nested. destruct bs as [|b bs]; cbn [total leaves].
  - by constructor.
  - destruct (fold_time (map total (b :: bs)) clear) as [_ H].
    revert IH H. generalize (s_actualised_at (foldl and_ clear (map total (b :: bs)))).
    intros m IH H. apply list.Forall_join. rewrite Forall_map in H |- *.
    eapply list.Forall_impl; [exact (List.Forall_and IH H)|]. cbn. intros c [Hc Hm].
    eapply list.Forall_impl; [exact Hc|]. cbn. lia.
Qed.

(** What the combined status of the root says of the modules: when it is
    [On], every module that takes part is on, and there is one; when it is a
    settled simulation state, every module that takes part is in that state,
    and there is one; and no module's state is older than the combined time. *)
Theorem combined_status (t : Summary) :
  (mstate (total t) = MS.On ->
     Forall (fun s => mstate s = MS.On \/ mstate s = MS.Neutral) (leaves t)
     /\ Exists (fun s => mstate s = MS.On) (leaves t))
  /\ (forall r, settled r -> sstate (total t) = r ->
       Forall (fun s => sstate s = r \/ sstate s = SS.Neutral) (leaves t)
       /\ Exists (fun s => sstate s = r) (leaves t))
  /\ Forall (fun s => s_actualised_at (total t) <= s_actualised_at s) (leaves t).
Proof.
  split_and!; [apply on_leaves|intros r; apply settled_leaves|apply leaves_time].
Qed.

(** [insertLinkAndStatus] does not mark the nodes above it: were a module
    entered with a status of its own after a query, the root would keep its
    status until something below it changes.  The entity manager only enters
    modules with the cleared status. *)
Definition late : outcome (list StatusT1) :=
  let m n := MId.mk [n] (Some (0%nat, n)) in
  '(_, t) ← events [CheckIn (m 1%nat); Report (m 1%nat) MS.On 5] root;
  '(a, t) ← getOrCalculateStatus t;
  match insertLinkAndStatus (m 2%nat) (mk MS.Undefined SS.Neutral 0 0) t with
  | Some (_, t) => '(b, t) ← getOrCalculateStatus t; Val [a; b; total t]
  | None => Exn NotFound
  end.

Example insert_does_not_mark : exists a c,
  late = Val [a; a; c] /\ mstate a = MS.On /\ mstate c = MS.Undefined.
Proof. by eexists _, _. Qed.

(** ** Witness *)

(** An entity of two modules; one of them reports to be on, then the other. *)
Definition ident (l : list nat) : ModuleId := MId.mk l None.
Definition story : list event :=
  [CheckIn (ident [0%nat]); CheckIn (ident [0%nat; 1%nat]); Query;
   CheckIn (ident [0%nat; 2%nat]); Report (ident [0%nat; 1%nat]) MS.On 5;
   Report (ident [0%nat; 2%nat]) MS.Safe 5; Query;
   Report (ident [0%nat; 2%nat]) MS.On 7; Query].

Lemma status_keeper_correct_witness :
  exists t, events story root = Val (answers story root, t)
    /\ map mstate (answers story root) = [MS.Neutral; MS.Undefined; MS.On].
Proof.
  destruct (status_keeper_correct story) as (t & E & _).
  { unfold story. repeat constructor. }
  exists t. split; [exact E|reflexivity].
Defined.
End SUM.
