(* ===== verification/Dusime.v ===== *)
(** Dusime: the modules that follow the state of the simulation,
    [dusime/DusimeModule.cxx] (its snapshot state), [SimulationModule.cxx] and
    [HardwareModule.cxx], and the controller that commands it,
    [DusimeController.cxx].

    [future_states] is a queue between two threads, here a list; the channel
    tokens are what is visible in them, or the messages written.  The warnings
    and the refreshes of the graphical interface are left out, and so are the
    functions of the user's module ([fillSnapshot]) beyond the fact that they
    are called. *)

From S2P Require Import Prelude.
From S2P Require Import TimeSpec.
From S2P Require Import States.
From S2P Require Import StatusTree.
From Stdlib Require Import Sorted.
#[local] Open Scope Z_scope.

(** ** Messages *)

Inductive EntityCommandType :=
  | NewState | PrepareSnapshot | SendSnapshot | SendIncoSnapshot | ConfirmState.

#[export] Instance EntityCommandType_eq_dec : EqDecision EntityCommandType.
Proof. solve_decision. Defined.

(** An [EntityCommand] with the time tag it is written with. *)
Record EntityCommand := mkCommand {
  at_time : Z;
  command : EntityCommandType;
  new_state : SS.Type_
}.

(** What a module writes: an [EntityConfirm] (its [origin] is the module), or
    a snapshot. *)
Inductive output :=
  | EntityConfirm (current_state : SS.Type_) (snap_state : SnapshotState) (last_check : Z)
  | Snapshot (at_ : TimeSpec) (from_trim : bool).

Record StateChange := mkChange { time : Z; state : SS.Type_ }.

(** ** Snapshots: the part of [DusimeModule] *)

Module DM.

Record DusimeModule := mk { snap_state : SnapshotState; future_snap_time : Z }.

Definition init : DusimeModule := mk SnapClear MAX_TIMETICK.

(** [localSendSnapshot]; [can_send] is [state_size && t_snapshot_send->isValid()]. *)
Definition localSendSnapshot (can_send : bool) (ts : TimeSpec) (from_trim : bool)
    : DusimeModule * list output :=
  (mk SnapSent MAX_TIMETICK, if can_send then [Snapshot ts from_trim] else []).

Definition snapshotNow (m : DusimeModule) : bool := bool_decide (snap_state m = SnapNow).

(** [PrepareSnapshot], in both kinds of module. *)
Definition prepare (t : Z) (m : DusimeModule) : DusimeModule := mk SnapPrepared t.

(** The end of [getAndCheckState], in both kinds of module. *)
Definition check_snap (t : Z) (m : DusimeModule) : DusimeModule :=
  let s := if decide (snap_state m = SnapNow) then SnapTaken else snap_state m in
  if bool_decide (s = SnapPrepared) && (future_snap_time m <=? t)
  then mk SnapNow (future_snap_time m) else mk s (future_snap_time m).
End DM.

(** The environment of a module: whether its tokens are valid. *)
Record Tokens := mkTokens {
  commands_valid : bool;
  confirm_valid : bool;
  can_send : bool
}.

(** ** SimulationModule *)

Module SIM.
Export DM.

Record SimulationModule := mk {
  current_state : SS.Type_;
  current_report_state : SS.Type_;
  last_check : Z;
  future_states : list StateChange;
  snap : DusimeModule
}.

Definition init : SimulationModule := mk SS.Inactive SS.Inactive 0 [] DM.init.

Definition transitionComplete (m : SimulationModule) : SimulationModule :=
  mk (current_state m) (SS.transitionFinal (current_report_state m)) (last_check m)
    (future_states m) (snap m).

(** An inactive module reports [HoldCurrent] to the client code. *)
Definition getCurrentState (m : SimulationModule) : SS.Type_ :=
  if decide (current_state m = SS.Inactive) then SS.HoldCurrent else current_state m.

Definition getAndCheckState (ts : TimeSpec) (confirm_transition : bool)
    (m : SimulationModule) : SS.Type_ * SimulationModule :=
  let t := validity_start ts in
  let m := mk (current_state m) (current_report_state m) t (future_states m) (snap m) in
  let m :=
    match future_states m with
    | c :: l =>
        if time c <=? t then
          let m := mk (SS.transitionFinal (state c)) (state c) t l (snap m) in
          if confirm_transition then transitionComplete m else m
        else m
    | [] => m
    end in
  let m := mk (current_state m) (current_report_state m) (last_check m)
             (future_states m) (check_snap t (snap m)) in
  (getCurrentState m, m).

Definition with_snap (s : DusimeModule) (m : SimulationModule) : SimulationModule :=
  mk (current_state m) (current_report_state m) (last_check m) (future_states m) s.

(** One turn of the loop of [processEntityCommands]. *)
Definition process (k : Tokens) (ts : TimeSpec) (c : EntityCommand) (m : SimulationModule)
    : SimulationModule * list output :=
  match command c with
  | NewState =>
      (mk (current_state m) (current_report_state m) (last_check m)
         (future_states m ++ [mkChange (at_time c) (new_state c)]) (snap m), [])
  | SendSnapshot | SendIncoSnapshot =>
      let '(s, out) :=
        localSendSnapshot (can_send k) ts (bool_decide (command c = SendIncoSnapshot)) in
      (with_snap s m, out)
  | PrepareSnapshot => (with_snap (prepare (at_time c) (snap m)) m, [])
  | ConfirmState =>
      (m, if confirm_valid k
          then [EntityConfirm (current_report_state m) (snap_state (snap m)) (last_check m)]
          else [])
  end.

Fixpoint process_all (k : Tokens) (ts : TimeSpec) (cs : list EntityCommand)
    (m : SimulationModule) : SimulationModule * list output :=
  match cs with
  | [] => (m, [])
  | c :: cs =>
      let '(m, o1) := process k ts c m in
      let '(m, o2) := process_all k ts cs m in (m, o1 ++ o2)
  end.

(** [processEntityCommands], with the commands that are visible. *)
Definition processEntityCommands (k : Tokens) (ts : TimeSpec) (cs : list EntityCommand)
    (m : SimulationModule) : SimulationModule * list output :=
  if commands_valid k then process_all k ts cs m else (m, []).
End SIM.

(** ** HardwareModule *)

Module HW.
Export DM.

Record HardwareModule := mk {
  current_state : SS.Type_;
  last_check : Z;
  future_states : list StateChange;
  snap : DusimeModule;
  module_state : MS.Type_
}.

Definition init : HardwareModule := mk SS.Inactive 0 [] DM.init MS.UnPrepared.

(** Which commands a module accepts in its present state. *)
Definition consistent (trystate current : SS.Type_) : bool :=
  match trystate with
  | SS.Inactive_HoldCurrent => bool_decide (current = SS.Inactive)
  | SS.Calibrate_HoldCurrent => bool_decide (current = SS.HoldCurrent)
  | SS.Advance_HoldCurrent => bool_decide (current = SS.Advance)
  | SS.HoldCurrent_Inactive | SS.Advance | SS.Replay =>
      bool_decide (current = SS.HoldCurrent) || bool_decide (current = SS.Replay)
  | SS.Replay_HoldCurrent => bool_decide (current = SS.Replay)
  | _ => false
  end.

Definition getAndCheckState (ts : TimeSpec) (m : HardwareModule) : SS.Type_ * HardwareModule :=
  let t := validity_start ts in
  let m := mk (current_state m) t (future_states m) (snap m) (module_state m) in
  let m :=
    match future_states m with
    | c :: l =>
        if time c <=? t then
          mk (if consistent (state c) (current_state m) then state c else current_state m)
            t l (snap m) (module_state m)
        else m
    | [] => m
    end in
  let m := mk (current_state m) (last_check m) (future_states m)
             (check_snap t (snap m)) (module_state m) in
  (current_state m, m).

Definition transitionComplete (m : HardwareModule) : HardwareModule :=
  mk (SS.transitionFinal (current_state m)) (last_check m) (future_states m)
    (snap m) (module_state m).

Definition getCurrentState (m : HardwareModule) : SS.Type_ := current_state m.

(** [setSafetyStop], with that of [Module]. *)
Definition setSafetyStop (m : HardwareModule) : HardwareModule :=
  mk SS.Inactive (last_check m) [] (snap m) MS.UnPrepared.

Definition with_snap (s : DusimeModule) (m : HardwareModule) : HardwareModule :=
  mk (current_state m) (last_check m) (future_states m) s (module_state m).

(** One turn of the loop of [processEntityCommands]; a snapshot that is not yet
    taken only gives a warning. *)
Definition process (k : Tokens) (ts : TimeSpec) (c : EntityCommand) (m : HardwareModule)
    : HardwareModule * list output :=
  match command c with
  | NewState =>
      (mk (current_state m) (last_check m)
         (future_states m ++ [mkChange (at_time c) (new_state c)]) (snap m)
         (module_state m), [])
  | SendSnapshot | SendIncoSnapshot =>
      let '(s, out) :=
        localSendSnapshot (can_send k) ts (bool_decide (command c = SendIncoSnapshot)) in
      (with_snap s m, out)
  | PrepareSnapshot => (with_snap (prepare (at_time c) (snap m)) m, [])
  | ConfirmState =>
      (m, if confirm_valid k
          then [EntityConfirm (current_state m) (snap_state (snap m)) (last_check m)]
          else [])
  end.

Fixpoint process_all (k : Tokens) (ts : TimeSpec) (cs : list EntityCommand)
    (m : HardwareModule) : HardwareModule * list output :=
  match cs with
  | [] => (m, [])
  | c :: cs =>
      let '(m, o1) := process k ts c m in
      let '(m, o2) := process_all k ts cs m in (m, o1 ++ o2)
  end.

Definition processEntityCommands (k : Tokens) (ts : TimeSpec) (cs : list EntityCommand)
    (m : HardwareModule) : HardwareModule * list output :=
  if commands_valid k then process_all k ts cs m else (m, []).
End HW.

(** ** DusimeController *)

Module DC.

Record DusimeController := mk {
  commanded_state : SS.Type_;
  confirmed_state : SS.Type_;
  previous_confirmed_state : SS.Type_;
  state_has_changed : bool;
  calibrated : bool;
  waiting_for_emanager : bool;
  state_dirty : bool;
  earliest_change : Z;
  min_interval : Z;
  min_notification : Z;
  block_advance : bool;
  confirm_divisor : Z
}.

(** The constructor; the command interval and lead are from the environment. *)
Definition init (interval lead : Z) : DusimeController :=
  mk SS.Inactive SS.Neutral SS.Neutral true false true true 0 interval lead true 2.

Definition setMinInterval (i : Z) (c : DusimeController) : bool * DusimeController :=
  if i <=? 0 then (false, c)
  else (true, mk (commanded_state c) (confirmed_state c) (previous_confirmed_state c)
    (state_has_changed c) (calibrated c) (waiting_for_emanager c) (state_dirty c)
    (earliest_change c) (u32 i) (min_notification c) (block_advance c) (confirm_divisor c)).

Definition startModule (c : DusimeController) : DusimeController :=
  mk (commanded_state c) (confirmed_state c) SS.Undefined
    (state_has_changed c) (calibrated c) (waiting_for_emanager c) (state_dirty c)
    (earliest_change c) (min_interval c) (min_notification c) (block_advance c)
    (confirm_divisor c).

(** The switch of [controlModel]: the state to command, [Undefined] if none. *)
Definition derive (confirmed req : SS.Type_) : SS.Type_ :=
  match req with
  | SS.Advance =>
      if decide (confirmed = SS.HoldCurrent \/ confirmed = SS.Replay)
      then SS.Advance else SS.Undefined
  | SS.Replay => if decide (confirmed = SS.HoldCurrent) then SS.Replay else SS.Undefined
  | SS.HoldCurrent =>
      if decide (confirmed = SS.Advance) then SS.Advance_HoldCurrent
      else if decide (confirmed = SS.Replay) then SS.Replay_HoldCurrent
      else if decide (confirmed = SS.Inactive) then SS.Inactive_HoldCurrent
      else SS.Undefined
  | SS.Inactive =>
      if decide (confirmed = SS.HoldCurrent \/ confirmed = SS.Undefined)
      then SS.HoldCurrent_Inactive else SS.Undefined
  | SS.Calibrate_HoldCurrent =>
      if decide (confirmed = SS.HoldCurrent) then SS.Calibrate_HoldCurrent else SS.Undefined
  | _ => SS.Undefined
  end.

(** The time for the command: an integer multiple of the interval. *)
Definition command_time (now req_time : Z) (c : DusimeController) : Z :=
  let req_time := round_upwards req_time (min_interval c) in
  if req_time <? u32 (now + min_notification c)
  then round_upwards (u32 (now + min_notification c)) (min_interval c)
  else req_time.

(** [controlModel]: whether the request is honoured, and the command sent.
    [em] is the state the entity manager has confirmed, [now] the tick. *)
Definition controlModel (em : MS.Type_) (now : Z) (req_state : SS.Type_) (req_time : Z)
    (c : DusimeController) : bool * DusimeController * list EntityCommand :=
  if req_time <? earliest_change c then (false, c, [])
  else if negb (bool_decide (em = MS.On)) then (false, c, [])
  else
    let n := derive (confirmed_state c) req_state in
    let cal := if bool_decide (n = SS.Calibrate_HoldCurrent) then true else calibrated c in
    let n := if decide (commanded_state c = req_state) then req_state else n in
    if decide (n = SS.Undefined) then
      (false, mk (commanded_state c) (confirmed_state c) (previous_confirmed_state c)
        (state_has_changed c) cal (waiting_for_emanager c) (state_dirty c)
        (earliest_change c) (min_interval c) (min_notification c) (block_advance c)
        (confirm_divisor c), [])
    else
      let earliest := command_time now req_time c in
      (true, mk (SS.transitionFinal n) (confirmed_state c) (previous_confirmed_state c)
        true cal (waiting_for_emanager c) (state_dirty c)
        (u32 (earliest + 1)) (min_interval c) (min_notification c) (block_advance c) 1,
       [mkCommand earliest NewState n]).

Definition modelHolding (c : DusimeController) : bool :=
  bool_decide (confirmed_state c = SS.HoldCurrent)
  && negb (bool_decide (commanded_state c = SS.Advance)
           || bool_decide (commanded_state c = SS.Replay)).

(** [applicationStateChange], with the request that is read; [None] when
    reading throws, which is only logged. *)
Definition applicationStateChange (em : MS.Type_) (now : Z) (ts : TimeSpec)
    (r : option SS.Type_) (c : DusimeController) : DusimeController * list EntityCommand :=
  match r with
  | None => (c, [])
  | Some req =>
      if bool_decide (req = SS.Advance) && block_advance c then (c, [])
      else
        let '(_, c, out) := controlModel em now req (Z.max (validity_start ts) now) c in
        (c, out)
  end.

Definition snapCollect (ts : TimeSpec) : EntityCommand :=
  mkCommand (validity_start ts) SendSnapshot SS.Undefined.

(** [takeSnapshot]: the command, and the time of the alarm for [snapCollect];
    [incr] is the compatible increment of the ticker. *)
Definition takeSnapshot (now incr : Z) (c : DusimeController) : EntityCommand * Z :=
  let tick := u32 (u32 (u32 (now + min_notification c) / incr + 1) * incr) in
  (mkCommand tick PrepareSnapshot SS.Undefined, u32 (tick + 2 * min_notification c)).

(** *** With the status keeper *)

Definition set_dirty (b : bool) (c : DusimeController) : DusimeController :=
  mk (commanded_state c) (confirmed_state c) (previous_confirmed_state c)
    (state_has_changed c) (calibrated c) (waiting_for_emanager c) b
    (earliest_change c) (min_interval c) (min_notification c) (block_advance c)
    (confirm_divisor c).

(** [processConfirm], with the confirmation that is read; [ModuleId::find] and
    [findSummary] throw for an unknown origin, which is only logged. *)
Definition processConfirm (origin : option MId.ModuleId) (current : SS.Type_) (last_check : Z)
    (c : DusimeController) (t : SUM.Summary) : outcome (DusimeController * SUM.Summary) :=
  match origin with
  | None => Val (c, t)
  | Some id =>
      '(r, t) ← SUM.findSummary_status id t;
      match r with
      | None => Val (c, t)
      | Some s =>
          let t := (SUM.updateStatus id (ST.setSimulationState current last_check s) t).2 in
          Val (set_dirty (state_dirty c || SUM.isDirty t) c, t)
      end
  end.

(** What the controller writes. *)
Inductive message :=
  | Confirmed (s : SS.Type_)
  | Command (c : EntityCommand).

(** The comparison of times and states in the middle of [sendQuery]. *)
Definition publish (status_time : Z) (c : DusimeController) : DusimeController * list message :=
  if status_time <? earliest_change c then (c, [])
  else if (state_has_changed c && bool_decide (confirmed_state c = commanded_state c))
          || negb (bool_decide (confirmed_state c = previous_confirmed_state c)) then
    if decide (confirmed_state c <> previous_confirmed_state c) then
      (mk (commanded_state c) (confirmed_state c) (confirmed_state c)
        (state_has_changed c) (calibrated c) (waiting_for_emanager c) (state_dirty c)
        (earliest_change c) (min_interval c) (min_notification c) (block_advance c)
        (confirm_divisor c), [Confirmed (confirmed_state c)])
    else
      (mk (commanded_state c) (confirmed_state c) (previous_confirmed_state c)
        false (calibrated c) (waiting_for_emanager c) (state_dirty c)
        (earliest_change c) (min_interval c) (min_notification c) (block_advance c)
        (confirm_divisor c), [])
  else (c, []).

(** Its end: a request for confirmation, often while the model changes. *)
Definition ask (valid : bool) (t : Z) (c : DusimeController)
    : outcome (DusimeController * list message) :=
  let set d := mk (commanded_state c) (confirmed_state c) (previous_confirmed_state c)
    (state_has_changed c) (calibrated c) (waiting_for_emanager c) (state_dirty c)
    (earliest_change c) (min_interval c) (min_notification c) (block_advance c) d in
  let q := Command (mkCommand t ConfirmState (commanded_state c)) in
  if decide (commanded_state c = confirmed_state c) then
    d ← isub (confirm_divisor c) 1;
    if bool_decide (d = 0) && valid then Val (set 10, [q]) else Val (set d, [])
  else if valid then Val (set 2, [q])
  else Val (c, []).

(** [sendQuery]; [valid] is [t_entity_commands.isValid()]. *)
Definition sendQuery (em : MS.Type_) (valid : bool) (ts : TimeSpec)
    (c : DusimeController) (t : SUM.Summary)
    : outcome (DusimeController * SUM.Summary * list message) :=
  '(s1, t) ← SUM.getOrCalculateStatus t;
  '(s2, t) ← SUM.getOrCalculateStatus t;
  let c := mk (commanded_state c) (ST.sstate s1) (previous_confirmed_state c)
    (state_has_changed c) (calibrated c) (waiting_for_emanager c) false
    (earliest_change c) (min_interval c) (min_notification c) (block_advance c)
    (confirm_divisor c) in
  let '(c, o1) := publish (ST.s_actualised_at s2) c in
  let c := mk (commanded_state c) (confirmed_state c) (previous_confirmed_state c)
    (state_has_changed c) (calibrated c)
    (waiting_for_emanager c && negb (bool_decide (em = MS.On))) (state_dirty c)
    (earliest_change c) (min_interval c) (min_notification c) (block_advance c)
    (confirm_divisor c) in
  '(c, o2) ← ask valid (validity_start ts) c;
  Val (c, t, o1 ++ o2).
End DC.

(** ** Snapshots *)

Module DMFacts.
Import DM.

(** Whether each check of a series is the moment of the snapshot. *)
Fixpoint moments (ts : list Z) (m : DusimeModule) : list bool :=
  match ts with
  | [] => []
  | t :: ts => let m := check_snap t m in snapshotNow m :: moments ts m
  end.

(** The first time that is not before [T], and no other. *)
Fixpoint first_from (T : Z) (ts : list Z) : list bool :=
  match ts with
  | [] => []
  | t :: ts => if T <=? t then true :: map (fun _ => false) ts else false :: first_from T ts
  end.

Lemma moments_after ts m :
  snap_state m <> SnapPrepared -> moments ts m = map (fun _ => false) ts.
Proof.
  revert m. induction ts as [|t ts IH]; intros m Hm; [done|]. cbn [moments map].
  unfold check_snap. destruct (decide (snap_state m = SnapNow)) as [E|E].
  - cbn. f_equal. by apply IH.
  - rewrite bool_decide_false by done. cbn [andb]. f_equal; [|by apply IH].
    unfold snapshotNow. cbn [snap_state]. by apply bool_decide_false.
Qed.

(** A snapshot that is prepared for time [T] is taken exactly once: among
    the checks that follow, [snapshotNow] holds in the first that is not before
    [T] and in no other, however the checks are spaced. *)
Theorem snapshot_once ts T m : moments ts (prepare T m) = first_from T ts.
Proof.
  unfold prepare. induction ts as [|t ts IH]; [done|]. cbn [moments first_from].
  unfold check_snap. cbn [snap_state future_snap_time]. rewrite decide_False by done.
  rewrite bool_decide_true by done. cbn [andb]. destruct (T <=? t).
  - cbn. f_equal. by apply moments_after.
  - f_equal. exact IH.
Qed.
End DMFacts.

(** ** A hardware module over time *)

Module HWFacts.
Import HW.

Inductive op :=
  | Check (ts : TimeSpec)
  | Complete
  | Stop
  | Commands (k : Tokens) (ts : TimeSpec) (cs : list EntityCommand).

Definition step (o : op) (m : HardwareModule) : HardwareModule :=
  match o with
  | Check ts => (getAndCheckState ts m).2
  | Complete => transitionComplete m
  | Stop => setSafetyStop m
  | Commands k ts cs => (processEntityCommands k ts cs m).1
  end.

Definition run (ops : list op) (m : HardwareModule) : HardwareModule :=
  foldl (fun m o => step o m) m ops.

(** The commands for a new state in a list of commands. *)
Fixpoint changes (cs : list EntityCommand) : list StateChange :=
  match cs with
  | [] => []
  | c :: cs =>
      if decide (command c = NewState) then mkChange (at_time c) (new_state c) :: changes cs
      else changes cs
  end.

Lemma process_all_state k ts cs m :
  let m' := (process_all k ts cs m).1 in
  current_state m' = current_state m /\ last_check m' = last_check m
  /\ future_states m' = future_states m ++ changes cs.
Proof.
  revert m. induction cs as [|c cs IH]; intros m; cbn [process_all changes].
  { by rewrite app_nil_r. }
  destruct (process k ts c m) as [m1 o1] eqn:E1. specialize (IH m1). cbn zeta in IH.
  destruct (process_all k ts cs m1) as [m2 o2]. cbn [fst] in *.
  destruct IH as (-> & -> & ->). unfold process in E1.
  destruct (command c); injection E1 as <- _; cbn; [|done..]. by rewrite <- (assoc_L (++)).
Qed.

Lemma commands_state k ts cs m :
  let m' := (processEntityCommands k ts cs m).1 in
  current_state m' = current_state m
  /\ (future_states m' = future_states m \/ future_states m' = future_states m ++ changes cs).
Proof.
  unfold processEntityCommands. destruct (commands_valid k); [|by auto].
  destruct (process_all_state k ts cs m) as (-> & _ & ->). auto.
Qed.

(** No command to leave the inactive state. *)
Definition no_start (o : op) : Prop :=
  match o with
  | Commands _ _ cs => Forall (fun c => state c <> SS.Inactive_HoldCurrent) (changes cs)
  | _ => True
  end.

Definition held (m : HardwareModule) : Prop :=
  current_state m = SS.Inactive
  /\ Forall (fun c => state c <> SS.Inactive_HoldCurrent) (future_states m).

Lemma consistent_inactive s :
  s <> SS.Inactive_HoldCurrent -> consistent s SS.Inactive = false.
Proof. by destruct s. Qed.

Lemma held_step o m : no_start o -> held m -> held (step o m).
Proof.
  intros Ho [Hc Hf]. destruct o as [ts| | |k ts cs]; cbn [step].
  - unfold getAndCheckState. cbn [snd current_state future_states].
    destruct (future_states m) as [|c l] eqn:El; [by split|].
    destruct (time c <=? validity_start ts); cbn; [|by split].
    apply list.Forall_cons in Hf as [Hs Hl]. by rewrite Hc, consistent_inactive.
  - split; [|done]. cbn. by rewrite Hc.
  - by split.
  - destruct (commands_state k ts cs m) as [H1 H2]. split; [by rewrite H1|].
    destruct H2 as [->| ->]; [done|]. by apply list.Forall_app_2.
Qed.

(** C37: After a safety stop the hardware stays inactive: whatever commands were
    waiting or come in, in any order with checks, completions and further
    stops, the module leaves [Inactive] only for an [Inactive_HoldCurrent]
    command received after the stop. *)
Theorem safety_stop_holds ops m :
  Forall no_start ops -> current_state (run ops (setSafetyStop m)) = SS.Inactive.
Proof.
  intros Ho. assert (held (setSafetyStop m)) as Hh by by split.
  revert Hh. generalize (setSafetyStop m). clear m. induction Ho as [|o ops H1 _ IH]; intros m Hh.
  - apply Hh.
  - cbn. apply IH. by apply held_step.
Qed.

(** The states a module can be in. *)
Definition proper (s : SS.Type_) : Prop := s <> SS.Neutral /\ s <> SS.Undefined.

Lemma proper_step o m : proper (current_state m) -> proper (current_state (step o m)).
Proof.
  intros Hp. destruct o as [ts| | |k ts cs]; cbn [step].
  - unfold getAndCheckState. cbn [snd current_state future_states].
    destruct (future_states m) as [|c l]; [done|].
    destruct (time c <=? validity_start ts); cbn; [|done].
    destruct (consistent (state c) (current_state m)) eqn:E; [|done].
    by destruct (state c).
  - cbn. by destruct (current_state m), Hp.
  - by split.
  - by destruct (commands_state k ts cs m) as [-> _].
Qed.
End HWFacts.

(** ** A commanded change in the modules *)

Section Follow.
Context (r q n : SS.Type_) (T : Z).
Context (Hr : settled r) (Hn : DC.derive r q = n) (Hok : n <> SS.Undefined).

(** What the controller derives from a settled state, the hardware accepts in
    that state. *)
Lemma derived_consistent : HW.consistent n r = true.
Proof using Hr Hn Hok.
  subst n. destruct Hr as [->|[->|[->| ->]]]; destruct q; done.
Qed.

Lemma hw_waits ts m :
  HW.current_state m = r -> HW.future_states m = [mkChange T n] ->
  Forall (fun t => validity_start t < T) ts ->
  let m' := HWFacts.run (map HWFacts.Check ts) m in
  HW.current_state m' = r /\ HW.future_states m' = [mkChange T n].
Proof using.
  intros Hc Hf Hts. revert m Hc Hf. induction Hts as [|t ts Ht _ IH]; intros m Hc Hf; [done|].
  cbn. apply IH; unfold HW.getAndCheckState; cbn; rewrite Hf; cbn;
    by rewrite (proj2 (Z.leb_gt _ _) Ht).
Qed.

Lemma hw_changes t m :
  HW.current_state m = r -> HW.future_states m = [mkChange T n] -> T <= validity_start t ->
  HW.getAndCheckState t m
  = (n, HW.mk n (validity_start t) [] (DM.check_snap (validity_start t) (HW.snap m))
          (HW.module_state m)).
Proof using Hr Hn Hok.
  intros Hc Hf Ht. unfold HW.getAndCheckState. cbn. rewrite Hf. cbn.
  rewrite (proj2 (Z.leb_le _ _) Ht). cbn. by rewrite Hc, derived_consistent.
Qed.

Lemma sim_waits ts b m :
  SIM.future_states m = [mkChange T n] ->
  Forall (fun t => validity_start t < T) ts ->
  let m' := foldl (fun m t => (SIM.getAndCheckState t b m).2) m ts in
  SIM.current_state m' = SIM.current_state m
  /\ SIM.current_report_state m' = SIM.current_report_state m
  /\ SIM.future_states m' = [mkChange T n].
Proof using.
  intros Hf Hts. revert m Hf. induction Hts as [|t ts Ht _ IH]; intros m Hf; [done|].
  cbn [foldl].
  assert (let m' := (SIM.getAndCheckState t b m).2 in
    SIM.current_state m' = SIM.current_state m
    /\ SIM.current_report_state m' = SIM.current_report_state m
    /\ SIM.future_states m' = [mkChange T n]) as (<- & <- & H3).
  { unfold SIM.getAndCheckState. cbn. rewrite Hf. cbn.
    by rewrite (proj2 (Z.leb_gt _ _) Ht). }
  by apply IH.
Qed.
End Follow.


(** Pressing a button again: the command is then the requested state itself,
    which a hardware module never accepts for [HoldCurrent] and [Inactive]. *)
Lemma repeated_command_refused current :
  HW.consistent SS.HoldCurrent current = false /\ HW.consistent SS.Inactive current = false.
Proof. done. Qed.

(** ** The commands of the controller *)

Module DCFacts.
Import DC.

(** The state that is commanded: repeating a request commands the state itself. *)
Definition target (c : DusimeController) (req : SS.Type_) : SS.Type_ :=
  if decide (commanded_state c = req) then req else derive (confirmed_state c) req.

(** No overflow of the clock. *)
Definition in_time (c : DusimeController) (now req_time : Z) : Prop :=
  0 < min_interval c /\ 0 <= now /\ 0 < min_notification c /\ 1 <= req_time
  /\ now + min_notification c + min_interval c < 4294967296
  /\ req_time + min_interval c < 4294967296.

Lemma command_time_spec now t c : in_time c now t ->
  let T := command_time now t c in
  (min_interval c | T) /\ t <= T /\ now + min_notification c <= T
  /\ (T < t + min_interval c \/ T < now + min_notification c + min_interval c).
Proof.
  intros (Hi & Hn & Hl & Ht & Hw1 & Hw2). unfold command_time.
  destruct (round_upwards_spec t (min_interval c)) as [Hd Hb]; [lia..|].
  destruct (round_upwards_spec (now + min_notification c) (min_interval c))
    as [Hd2 Hb2]; [lia..|].
  rewrite (u32_id (now + min_notification c)) by width.
  destruct (Z.ltb_spec (round_upwards t (min_interval c)) (now + min_notification c));
    split_and!; try done; lia.
Qed.

Lemma earliest_next now t c : in_time c now t ->
  u32 (command_time now t c + 1) = command_time now t c + 1.
Proof.
  intros Hc. pose proof (command_time_spec now t c Hc) as (_ & ? & ? & ?).
  destruct Hc as (Hi & Hn & Hl & Ht & Hw1 & Hw2). apply u32_id. width.
Qed.

(** C36: [controlModel] on every branch.  A request is honoured exactly when no
    earlier command is pending, the modules are on, and the request fits the
    confirmed state (or repeats the commanded one).  It then sends one command,
    at the first multiple of the interval that leaves the lead, or the first
    from the requested time if that is later; the next command cannot have the
    same time or an earlier one.  A request that is not honoured sends nothing
    and leaves the commanded state and the times as they were. *)
Theorem controlModel_correct em now req t c :
  in_time c now t ->
  let '(ok, c', out) := controlModel em now req t c in
  (ok = true <-> earliest_change c <= t /\ em = MS.On /\ target c req <> SS.Undefined)
  /\ (if ok then
        exists T, out = [mkCommand T NewState (target c req)]
          /\ (min_interval c | T) /\ t <= T /\ now + min_notification c <= T
          /\ (T < t + min_interval c \/ T < now + min_notification c + min_interval c)
          /\ commanded_state c' = SS.transitionFinal (target c req)
          /\ earliest_change c' = T + 1
      else out = [] /\ commanded_state c' = commanded_state c
           /\ earliest_change c' = earliest_change c)
  /\ confirmed_state c' = confirmed_state c
  /\ min_interval c' = min_interval c /\ min_notification c' = min_notification c.
Proof.
  intros Hc. unfold controlModel. fold (target c req).
  destruct (Z.ltb_spec t (earliest_change c)) as [He|He].
  { split_and!; try done. split; [done|lia]. }
  case_bool_decide as Hem; cbn [negb].
  2: { split_and!; try done. split; [done|]. by intros (_ & ? & _). }
  destruct (decide (target c req = SS.Undefined)) as [Hu|Hu].
  { split_and!; try done. by split; [|intros (_ & _ & ?)]. }
  destruct (command_time_spec now t c Hc) as (H1 & H2 & H3 & H4).
  split_and!; try done. exists (command_time now t c). split_and!; try done.
  by apply earliest_next.
Qed.

(** A series of requests, each with the tick at which it comes in. *)
Fixpoint requests (l : list (MS.Type_ * Z * SS.Type_ * Z)) (c : DusimeController)
    : DusimeController * list EntityCommand :=
  match l with
  | [] => (c, [])
  | (em, now, req, t) :: l =>
      let '(_, c, o1) := controlModel em now req t c in
      let '(c, o2) := requests l c in (c, o1 ++ o2)
  end.

Lemma request_step em now req t c : in_time c now t ->
  let '(_, c', out) := controlModel em now req t c in
  min_interval c' = min_interval c /\ min_notification c' = min_notification c
  /\ (out = [] /\ earliest_change c' = earliest_change c
      \/ exists T, map at_time out = [T] /\ earliest_change c <= T
         /\ earliest_change c' = T + 1 /\ (min_interval c | T)).
Proof.
  intros Hc. unfold controlModel. destruct (Z.ltb_spec t (earliest_change c)) as [He|He]; [by auto|].
  case_bool_decide; cbn [negb]; [|by auto].
  destruct (decide (_ = SS.Undefined)); [by auto|]. split_and!; [done..|]. right.
  pose proof (command_time_spec now t c Hc) as (? & ? & _ & _).
  exists (command_time now t c). cbn [map at_time earliest_change].
  rewrite earliest_next by done. split_and!; try done. lia.
Qed.

(** The commands of a controller are in order: whatever requests come in,
    at whatever times (short of an overflow of the clock), the times of the
    commands that result increase strictly, and all are multiples of the
    interval, so that the queues of the modules are in the order of time. *)
Theorem commands_in_order l c :
  Forall (fun '(em, now, req, t) => in_time c now t) l ->
  let times := map at_time (requests l c).2 in
  StronglySorted Z.lt times
  /\ Forall (fun T => earliest_change c <= T /\ (min_interval c | T)) times.
Proof.
  revert c. induction l as [|[[[em now] req] t] l IH]; intros c Hl; [by split; constructor|].
  apply list.Forall_cons in Hl as [H1 Hl]. cbn [requests].
  pose proof (request_step em now req t c H1) as Hc.
  destruct (controlModel em now req t c) as [[ok c'] o1].
  destruct Hc as (Hi & Hn & Hc). destruct (IH c') as [Hs Hf].
  { eapply list.Forall_impl; [exact Hl|]. intros [[[? ?] ?] ?]. unfold in_time.
    by rewrite Hi, Hn. }
  destruct (requests l c') as [c'' o2]. cbn [snd] in *. rewrite map_app, Hi in *.
  destruct Hc as [[-> He]|(T & -> & HT & He & Hd)]; rewrite He in Hf; [done|]. cbn [app].
  split.
  - constructor; [done|]. eapply list.Forall_impl; [exact Hf|]. cbn. lia.
  - constructor; [done|]. eapply list.Forall_impl; [exact Hf|]. cbn. intros x [? ?].
    split; [lia|done].
Qed.

(** A confirmation is an event of the status keeper. *)
Lemma processConfirm_confirm id x k c t c' t' :
  processConfirm (Some id) x k c t = Val (c', t') -> SUM.confirm x k id t = Val t'.
Proof.
  unfold processConfirm, SUM.confirm, SUM.change.
  destruct (SUM.findSummary_status id t) as [[[s|] u]| |]; cbn; [|by intros [= _ <-]|done..].
  by intros [= _ <-].
Qed.

Lemma publish_spec tm c :
  let '(c', out) := publish tm c in
  confirmed_state c' = confirmed_state c /\ commanded_state c' = commanded_state c
  /\ earliest_change c' = earliest_change c /\ confirm_divisor c' = confirm_divisor c
  /\ state_dirty c' = state_dirty c
  /\ (out = [] /\ previous_confirmed_state c' = previous_confirmed_state c
        /\ (earliest_change c <= tm -> confirmed_state c = previous_confirmed_state c)
      \/ out = [Confirmed (confirmed_state c)]
         /\ confirmed_state c <> previous_confirmed_state c
         /\ previous_confirmed_state c' = confirmed_state c /\ earliest_change c <= tm).
Proof.
  unfold publish. destruct (Z.ltb_spec tm (earliest_change c)) as [Ht|Ht].
  { split_and!; try done. left. split_and!; try done. lia. }
  destruct (decide (confirmed_state c = previous_confirmed_state c)) as [E|E].
  - rewrite (bool_decide_true _ E). rewrite orb_false_r.
    destruct (state_has_changed c && _); [rewrite decide_False by tauto|];
      (split_and!; try done; left; by split_and!).
  - rewrite (bool_decide_false _ E). rewrite orb_true_r, decide_True by done.
    split_and!; try done. right. by split_and!.
Qed.

Lemma ask_spec valid t c :
  is_s32 (confirm_divisor c - 1) ->
  exists c' out, ask valid t c = Val (c', out)
    /\ confirmed_state c' = confirmed_state c /\ commanded_state c' = commanded_state c
    /\ previous_confirmed_state c' = previous_confirmed_state c
    /\ (out = [] \/ out = [Command (mkCommand t ConfirmState (commanded_state c))])
    /\ (commanded_state c <> confirmed_state c -> valid = true -> out <> []).
Proof.
  intros Hd. unfold ask. destruct (decide (commanded_state c = confirmed_state c)) as [E|E].
  - rewrite isub_val by done. cbn [mbind outcome_bind].
    destruct (bool_decide _ && valid); eexists _, _; split_and!; try done; auto.
  - destruct valid; eexists _, _; split_and!; try done; auto.
Qed.

Lemma query_twice t : SUM.kept t -> exists t1 t2,
  SUM.getOrCalculateStatus t = Val (SUM.total t, t1)
  /\ SUM.getOrCalculateStatus t1 = Val (SUM.total t, t2) /\ SUM.kept t2.
Proof.
  intros Hk. destruct (SUM.calc_queried t (SUM.kp_coherent t Hk)) as (t1 & E1 & [Q1 Q2 Q3]).
  destruct (SUM.calc_queried t1 Q2) as (t2 & E2 & [R1 R2 R3]). exists t1, t2.
  split_and!; [done|by rewrite E2, (SUM.total_same t1 t)|].
  apply (SUM.kept_same t); [done..|by rewrite R1, Q1|by rewrite R3, Q3].
Qed.

(** C36: The query cycle.  [sendQuery] takes the combined state of the tree as
    the confirmed state; it publishes that state exactly when it differs from
    the one published before and no module reported before the time of the last
    command.  A settled state that is published is the state of every Dusime
    module, each reported at or after that time.  While the confirmed state is
    not the commanded one, every cycle asks the modules for confirmation. *)
Theorem confirmed_by_all em ts c t :
  SUM.kept t -> is_s32 (confirm_divisor c - 1) ->
  exists c' t' out, sendQuery em true ts c t = Val (c', t', out)
  /\ SUM.kept t' /\ confirmed_state c' = ST.sstate (SUM.total t)
  /\ (forall r, Confirmed r ∈ out <->
        r = ST.sstate (SUM.total t) /\ r <> previous_confirmed_state c
        /\ earliest_change c <= ST.s_actualised_at (SUM.total t))
  /\ (forall r, Confirmed r ∈ out -> settled r ->
        previous_confirmed_state c' = r
        /\ Exists (fun s => ST.sstate s = r) (SUM.leaves t)
        /\ Forall (fun s => (ST.sstate s = r \/ ST.sstate s = SS.Neutral)
             /\ earliest_change c <= ST.s_actualised_at s) (SUM.leaves t))
  /\ (commanded_state c <> ST.sstate (SUM.total t) ->
        Command (mkCommand (validity_start ts) ConfirmState (commanded_state c)) ∈ out).
Proof.
  intros Hk Hd. destruct (query_twice t Hk) as (t1 & t2 & E1 & E2 & Hk2).
  unfold sendQuery. rewrite E1. cbn [mbind outcome_bind]. rewrite E2. cbn [mbind outcome_bind].
  set (c1 := mk _ (ST.sstate (SUM.total t)) _ _ _ _ _ _ _ _ _ _).
  pose proof (publish_spec (ST.s_actualised_at (SUM.total t)) c1) as Hp.
  destruct (publish _ c1) as [c2 o1]. destruct Hp as (H1 & H2 & H3 & H4 & _ & Hout).
  set (c3 := mk _ _ _ _ _ (_ && _) _ _ _ _ _ _).
  destruct (ask_spec true (validity_start ts) c3) as (c4 & o2 & -> & A1 & A2 & A3 & A4 & A5).
  { cbn [c3 confirm_divisor]. by rewrite H4. }
  cbn [mbind outcome_bind]. exists c4, t2, (o1 ++ o2).
  cbn [c1 c3 confirmed_state commanded_state previous_confirmed_state earliest_change] in *.
  assert (forall r, Confirmed r ∈ o1 ++ o2 <-> Confirmed r ∈ o1) as Hin.
  { intros r. rewrite elem_of_app. split; [|by left]. intros [?|Hr]; [done|].
    destruct A4 as [->| ->]; [by apply elem_of_nil in Hr|].
    by apply list_elem_of_singleton in Hr. }
  split_and!; [done|done|by rewrite A1, H1| | |].
  - intros r. rewrite Hin. destruct Hout as [(-> & _ & Hsame)|(-> & Hne & _ & Ht)].
    + split; [by intros ?%elem_of_nil|]. intros (-> & Hne & Ht). by destruct Hne, (Hsame Ht).
    + rewrite list_elem_of_singleton. split; [by intros [= ->]|]. by intros (-> & _).
  - intros r Hr Hs. apply Hin in Hr. destruct Hout as [(-> & _)|(-> & _ & Hpc & Ht)].
    { by apply elem_of_nil in Hr. }
    apply list_elem_of_singleton in Hr as [= ->].
    destruct (SUM.settled_leaves _ t Hs eq_refl) as [Hall Hex].
    split_and!; [by rewrite A3|done|]. pose proof (SUM.leaves_time t) as Htm.
    eapply list.Forall_impl; [exact (List.Forall_and Hall Htm)|].
    intros s [? ?]. split; [done|]. cbn in Ht. lia.
  - intros Hne. apply elem_of_app. right. cbn [commanded_state] in A4, A5.
    destruct A4 as [->| ->]; [|rewrite H2; by left].
    destruct A5; [|done..]. cbn. by rewrite H1, H2.
Qed.
End DCFacts.

(** ** Witnesses *)

Definition valid_tokens : Tokens := mkTokens true true true.

Lemma safety_stop_holds_witness :
  HW.current_state (HWFacts.run
    [HWFacts.Commands valid_tokens (mkTS 0 0) [mkCommand 5 NewState SS.Advance];
     HWFacts.Check (mkTS 10 11)] (HW.setSafetyStop HW.init)) = SS.Inactive.
Proof.
  apply HWFacts.safety_stop_holds. constructor; [|constructor; [exact I|constructor]].
  cbn. constructor; [|constructor]. cbn. discriminate.
Defined.

Definition holding_hw : HW.HardwareModule := HW.mk SS.HoldCurrent 90 [] DM.init MS.On.
Definition holding_sim : SIM.SimulationModule :=
  SIM.mk SS.HoldCurrent SS.HoldCurrent 90 [] DM.init.


(** A controller that has seen all modules hold. *)
Definition holding : DC.DusimeController :=
  DC.mk SS.HoldCurrent SS.HoldCurrent SS.HoldCurrent false false false false 0 100 20 true 10.

Lemma controlModel_correct_witness :
  let '(ok, c', out) := DC.controlModel MS.On 950 SS.Advance 1000 holding in
  ok = true /\ out = [mkCommand 1000 NewState SS.Advance].
Proof.
  pose proof (DCFacts.controlModel_correct MS.On 950 SS.Advance 1000 holding) as H.
  destruct H as [[_ H] _]; [unfold DCFacts.in_time; cbn; lia|].
  split; [|reflexivity]. apply H. cbn. split_and!; [lia|reflexivity|discriminate].
Defined.

Lemma commands_in_order_witness :
  StronglySorted Z.lt (map at_time (DCFacts.requests
    [(MS.On, 950, SS.Advance, 1000); (MS.On, 960, SS.HoldCurrent, 1000);
     (MS.On, 1100, SS.Advance, 1130)] holding).2).
Proof.
  refine (proj1 (DCFacts.commands_in_order _ holding _)).
  repeat constructor; cbn; lia.
Defined.

(** The tree of an entity with two modules that hold, reported at ticks 1200 and
    1210. *)
Definition two_modules : SUM.Summary :=
  let leaf n t := SUM.Node (MId.mk [0%nat; n] (Some (0%nat, n)))
    (ST.mk MS.On SS.HoldCurrent t t) true [] in
  SUM.Node (MId.mk [] None) ST.clear true
    [SUM.Node (MId.mk [0%nat] None) ST.clear true [leaf 1%nat 1200; leaf 2%nat 1210]].

Lemma two_modules_kept : SUM.kept two_modules.
Proof.
  split; [done| |by apply SUM.all_dirty_coherent|].
  - apply SUM.wf_node. split_and!; [by constructor; [eexists|]|by apply list.NoDup_singleton|].
    constructor; [|done]. apply SUM.wf_node. split_and!.
    + repeat constructor; by eexists.
    + apply list.NoDup_cons. split; [|apply list.NoDup_singleton].
      by intros H%list_elem_of_singleton.
    + repeat constructor; apply SUM.wf_node; split_and!; constructor.
  - repeat constructor; cbn; lia.
Qed.

Definition waiting : DC.DusimeController :=
  DC.mk SS.HoldCurrent SS.Neutral SS.Advance true false false true 1101 100 20 true 1.

Lemma confirmed_by_all_witness :
  exists c' t' out, DC.sendQuery MS.On true (mkTS 1250 1250) waiting two_modules
    = Val (c', t', out) /\ DC.Confirmed SS.HoldCurrent ∈ out.
Proof.
  destruct (DCFacts.confirmed_by_all MS.On (mkTS 1250 1250) waiting two_modules two_modules_kept)
    as (c' & t' & out & E & _ & _ & H & _).
  { cbv; split; congruence. }
  exists c', t', out. split; [exact E|]. apply H. split_and!; [done|discriminate|].
  vm_compute. congruence.
Defined.
