(* ===== verification/Entities.v ===== *)
(** Modules, entities and the entity manager: [dueca/Module.cxx], [Entity.cxx]
    and [EntityManager.cxx].

    A [Module] is its names, its id and its state; what a user's module decides
    in [isInitialPrepared] and [isPrepared] is a parameter, [None] when it
    throws.  The messages over the update and confirm channels are lists; the
    static registry of names and the status keeper of node 0 are part of the
    manager's state.  The creation of modules from scripts, the warnings and the
    graphical view are left out. *)

From S2P Require Import Prelude.
From S2P Require Import TimeSpec.
From S2P Require Import States.
From S2P Require Import StatusTree.
From stdpp Require Import gmap strings.
From Stdlib Require Import Sorted.
#[local] Open Scope Z_scope.

(** ** Module and Entity *)

Module ENT.

Record NameSet := mkNames { entity : string; class : string; part : string }.

Record Module_ := mkModule {
  name_set : NameSet;
  id : nat * nat;
  state : MS.Type_
}.

(** The virtual functions that [setState] calls. *)
Inductive call := FinalStopModule | InitialStartModule | StopModule | StartModule.

(** [Module::setState]: an exception in the function called only gives a
    warning. *)
Definition setState (nstate : MS.Type_) (m : Module_) : Module_ * option call :=
  (mkModule (name_set m) (id m) nstate,
   match nstate with
   | MS.InitialPrep => Some FinalStopModule
   | MS.Safe => Some InitialStartModule
   | MS.Prepared => Some StopModule
   | MS.On => Some StartModule
   | _ => None
   end).

Definition setSafetyStop (m : Module_) : Module_ := mkModule (name_set m) (id m) MS.UnPrepared.

Section Hooks.
(** What the user's modules answer. *)
Context (isInitialPrepared isPrepared : nat * nat -> option bool).

Definition getState (m : Module_) : Module_ :=
  match state m with
  | MS.UnPrepared =>
      match isInitialPrepared (id m) with
      | Some true => mkModule (name_set m) (id m) MS.InitialPrep
      | _ => m
      end
  | MS.Safe =>
      match isPrepared (id m) with
      | Some true => mkModule (name_set m) (id m) MS.Prepared
      | _ => m
      end
  | _ => m
  end.

(** An entity is its [local_modules]; [reportStatus] gives what is reported. *)
Definition reportStatus (e : list Module_) : list Module_ * list (nat * nat * MS.Type_) :=
  let e := map getState e in (e, map (fun m => (id m, state m)) e).
End Hooks.

Definition controlEntity (s : MS.Type_) (e : list Module_) : list Module_ :=
  map (fun m => (setState s m).1) e.

Definition completeModule (m : Module_) (e : list Module_) : list Module_ := e ++ [m].
End ENT.

(** ** EntityManager *)

Module EM.
Import ENT.
Export MId.

Inductive EntityUpdateType := Created | Report | Command | Query.

#[export] Instance EntityUpdateType_eq_dec : EqDecision EntityUpdateType.
Proof. solve_decision. Defined.

(** An [EntityUpdate] with its time tag. *)
Record EntityUpdate := mkUpdate {
  at_time : Z;
  names_of : NameSet;
  global : option (nat * nat);
  t : EntityUpdateType;
  mstate : MS.Type_
}.

Record EntityManager := mk {
  changed : bool;
  command_interval : Z;
  command_lead : Z;
  last_command_time : Z;
  command_state : MS.Type_;
  confirmed_state : MS.Type_;
  previous_confirmed_state : MS.Type_;
  emergency_flag : bool;
  query_countdown : Z;
  state_has_changed : bool;
  local_entities : gmap string (list Module_);
  entities : list string;
  registry : Registry;
  keeper : SUM.Summary
}.

Definition init (interval lead : Z) : EntityManager :=
  mk false interval lead 0 MS.InitialPrep MS.Undefined MS.Undefined false 10 true
    ∅ [] MId.empty SUM.root.

Definition with_local (f : gmap string (list Module_) -> gmap string (list Module_))
    (s : EntityManager) : EntityManager :=
  mk (changed s) (command_interval s) (command_lead s) (last_command_time s)
    (command_state s) (confirmed_state s) (previous_confirmed_state s) (emergency_flag s)
    (query_countdown s) (state_has_changed s) (f (local_entities s)) (entities s)
    (registry s) (keeper s).

Definition with_keeper (r : Registry) (k : SUM.Summary) (s : EntityManager) : EntityManager :=
  mk (changed s) (command_interval s) (command_lead s) (last_command_time s)
    (command_state s) (confirmed_state s) (previous_confirmed_state s) (emergency_flag s)
    (query_countdown s) (state_has_changed s) (local_entities s) (entities s) r k.

Definition add_entity (n : string) (s : EntityManager) : EntityManager :=
  mk (changed s) (command_interval s) (command_lead s) (last_command_time s)
    (command_state s) (confirmed_state s) (previous_confirmed_state s) (emergency_flag s)
    (query_countdown s) (state_has_changed s) (local_entities s) (entities s ++ [n])
    (registry s) (keeper s).

(** [checkIn]: the entity is new; [now] is the tick, [eid] its id. *)
Definition checkIn (valid : bool) (now : Z) (name : string) (eid : nat * nat)
    (s : EntityManager) : EntityManager * list EntityUpdate :=
  (with_local (fun m => <[name := []]> m) s,
   if valid then [mkUpdate now (mkNames name EmptyString EmptyString) (Some eid) Created MS.Neutral] else []).

(** [Entity::completeModule], with [reportModule]. *)
Definition reportModule (now : Z) (name : string) (m : Module_) (s : EntityManager)
    : EntityManager * list EntityUpdate :=
  (with_local (fun l => match l !! name with
                        | Some e => <[name := completeModule m e]> l
                        | None => l
                        end) s,
   [mkUpdate now (name_set m) (Some (id m)) Created MS.Undefined]).

(** [reportStatus] *)
Definition report (now : Z) (r : nat * nat * MS.Type_) : EntityUpdate :=
  let '(g, st) := r in mkUpdate now (mkNames EmptyString EmptyString EmptyString) (Some g) Report st.

Definition lift {A} (o : outcome A) : M EntityManager A := fun s => (o, s).

(** [EntityUpdate::Created]: the id is made, or found; a name that is in the
    tree is only reported.  [NotFound] of [ModuleId::create] is not caught. *)
Definition progress_created (d : EntityUpdate) : M EntityManager unit :=
  s ← get;
  let n := names_of d in
  let '(o, r) := MId.create (parts_of (entity n) (class n) (part n)) (global d) (registry s) in
  put (with_keeper r (keeper s) s) ;;
  o ← lift o;
  match o with
  | None => throw NotFound
  | Some m =>
      match SUM.findSummary m (keeper s) with
      | Some _ => mret tt
      | None =>
          when (bool_decide (mstate d = MS.Neutral)) (modify (add_entity (entity n))) ;;
          match SUM.addNode m ST.clear (keeper s) with
          | Some (_, k) => modify (with_keeper r k)
          | None => throw NotFound
          end
      end
  end.

(** [EntityUpdate::Report]: an id or node that is not found is only logged. *)
Definition progress_report (d : EntityUpdate) : M EntityManager unit :=
  s ← get;
  let '(o, r) := MId.find (global d) (registry s) in
  o ← lift o;
  match o with
  | None => mret tt
  | Some m =>
      k ← lift (SUM.reported (mstate d) (at_time d) m (keeper s));
      put (with_keeper r k s)
  end.

(** One turn of the loop of [checkEntityProgress], on node 0. *)
Definition progress (d : EntityUpdate) : M EntityManager unit :=
  match t d with
  | Created => progress_created d
  | Report => progress_report d
  | _ => mret tt
  end.

Fixpoint progress_all (ds : list EntityUpdate) : M EntityManager unit :=
  match ds with
  | [] => mret tt
  | d :: ds => progress d ;; progress_all ds
  end.

(** The end of [checkEntityProgress]. *)
Definition confirm : M EntityManager unit :=
  s ← get;
  let ch := SUM.isDirty (keeper s) in
  '(st, k) ← lift (SUM.getOrCalculateStatus (keeper s));
  let c := ST.mstate st in
  let upd := state_has_changed s || ch in
  put (mk ch (command_interval s) (command_lead s) (last_command_time s)
    (command_state s) c (if upd then c else previous_confirmed_state s) (emergency_flag s)
    (query_countdown s)
    (if upd then bool_decide (previous_confirmed_state s = c) else state_has_changed s)
    (local_entities s) (entities s) (registry s) k).

(** [checkEntityProgress], with the messages that are visible. *)
Definition checkEntityProgress (ds : list EntityUpdate) : M EntityManager unit :=
  progress_all ds ;; confirm.

(** *** Commands *)

(** One message for each entity. *)
Definition to_entities (at_ : Z) (k : EntityUpdateType) (st : MS.Type_) (eid : nat * nat)
    (s : EntityManager) : list EntityUpdate :=
  map (fun n => mkUpdate at_ (mkNames n EmptyString EmptyString) (Some eid) k st) (entities s).

Definition try_state (p : Z) (s : EntityManager) : MS.Type_ :=
  if p =? 0 then MS.InitialPrep
  else if p =? 1 then
    if decide (command_state s = MS.On) then MS.Prepared else MS.Safe
  else if p =? 2 then MS.On
  else MS.Neutral.

Definition next_command_time (now : Z) (s : EntityManager) : Z :=
  round_upwards (u32 (Z.max (last_command_time s) now + command_lead s)) (command_interval s).

(** [controlEntities]; [eid] is the manager's own id. *)
Definition controlEntities (p now : Z) (eid : nat * nat) (s : EntityManager)
    : EntityManager * list EntityUpdate :=
  let st := try_state p s in
  let at_ := next_command_time now s in
  (mk (changed s) (command_interval s) (command_lead s) at_ st (confirmed_state s)
     (if decide (confirmed_state s = previous_confirmed_state s) then command_state s
      else previous_confirmed_state s)
     (emergency_flag s) 10 true (local_entities s) (entities s) (registry s) (keeper s),
   to_entities at_ Command st eid s).

(** [emergency] *)
Definition emergency (now : Z) (eid : nat * nat) (s : EntityManager)
    : EntityManager * list EntityUpdate :=
  (mk (changed s) (command_interval s) (command_lead s) (last_command_time s) MS.Safe
     (confirmed_state s) (previous_confirmed_state s) true 2 true (local_entities s)
     (entities s) (registry s) (keeper s),
   to_entities now Command MS.Safe eid s).

Definition stopIsOK (s : EntityManager) : bool :=
  emergency_flag s || bool_decide (confirmed_state s = MS.InitialPrep).

(** [queryEntityStatus]; the countdown stays between 1 and 10. *)
Definition queryEntityStatus (ts : TimeSpec) (eid : nat * nat) (s : EntityManager)
    : EntityManager * list EntityUpdate :=
  let set n := mk (changed s) (command_interval s) (command_lead s) (last_command_time s)
    (command_state s) (confirmed_state s) (previous_confirmed_state s) (emergency_flag s)
    n (state_has_changed s) (local_entities s) (entities s) (registry s) (keeper s) in
  let n := query_countdown s - 1 in
  if n =? 0 then (set 10, to_entities (validity_start ts) Query MS.Neutral eid s)
  else (set n, []).

Section Hooks.
Context (isInitialPrepared isPrepared : nat * nat -> option bool).

(** One turn of the loop of [processEntityCommands], on any node; [now] is the
    tick of the reports. *)
Definition process (now : Z) (d : EntityUpdate) (s : EntityManager)
    : EntityManager * list EntityUpdate :=
  let n := entity (names_of d) in
  match local_entities s !! n with
  | None => (s, [])
  | Some e =>
      match t d with
      | Command => (with_local <[n := controlEntity (mstate d) e]> s, [])
      | Query =>
          let '(e, rs) := reportStatus isInitialPrepared isPrepared e in
          (with_local <[n := e]> s, map (report now) rs)
      | _ => (s, [])
      end
  end.

Fixpoint processEntityCommands (now : Z) (ds : list EntityUpdate) (s : EntityManager)
    : EntityManager * list EntityUpdate :=
  match ds with
  | [] => (s, [])
  | d :: ds =>
      let '(s, o1) := process now d s in
      let '(s, o2) := processEntityCommands now ds s in (s, o1 ++ o2)
  end.
End Hooks.
End EM.

(** ** The registry of names *)

Module Names.
Import MId.

Lemma index_of_spec n l i : index_of n l = Some i -> l !! i = Some n.
Proof.
  revert i. induction l as [|m l IH]; intros i; [done|]. cbn.
  destruct (decide (n = m)) as [->|]; [by intros [= <-]|].
  destruct (index_of n l) as [j|]; cbn; [|done]. intros [= <-]. cbn. by apply IH.
Qed.

Lemma findOrAddName_spec n r : exists i r', findOrAddName n r = (Val i, r')
  /\ names r' !! i = Some n /\ names r `prefix_of` names r'
  /\ module_id_map r' = module_id_map r.
Proof.
  unfold findOrAddName. mrun. destruct (index_of n (names r)) as [i|] eqn:E.
  - exists i, r. split_and!; try done. by apply index_of_spec.
  - eexists _, _. split; [done|]. cbn. split_and!; [|by apply prefix_app_r|done].
    rewrite lookup_app_r by lia. by rewrite Nat.sub_diag.
Qed.

Lemma same_names_mono parts ix l k :
  l `prefix_of` k -> same_names parts ix l = true -> same_names parts ix k = true.
Proof.
  intros [z ->]. revert ix. induction parts as [|n parts IH]; intros [|i ix]; try done.
  cbn. rewrite !andb_true_iff, !bool_decide_eq_true. intros [Hi ?]. split; [|auto].
  by apply lookup_app_l_Some.
Qed.

Lemma same_names_length parts ix l : same_names parts ix l = true -> length ix = length parts.
Proof.
  revert ix. induction parts as [|n parts IH]; intros [|i ix]; try done.
  cbn. intros [_ ?]%andb_true_iff. f_equal. auto.
Qed.

Lemma find_names_spec parts r : exists ix r', find_names parts r = (Val ix, r')
  /\ same_names parts ix (names r') = true /\ names r `prefix_of` names r'
  /\ module_id_map r' = module_id_map r.
Proof.
  revert r. induction parts as [|n parts IH]; intros r; [by exists [], r|].
  destruct (findOrAddName_spec n r) as (i & r1 & E1 & H1 & H2 & H3).
  destruct (IH r1) as (ix & r2 & E2 & H4 & H5 & H6). exists (i :: ix), r2.
  cbn [find_names]. erewrite bind_val by exact E1. erewrite bind_val by exact E2.
  split_and!; [done| |by etrans|by rewrite H6]. cbn.
  apply andb_true_iff. split; [|done]. apply bool_decide_eq_true.
  destruct H5 as [z ->]. by apply lookup_app_l_Some.
Qed.

(** [create]: the names of the result are those asked for; an id that is in use
    for other names is refused. *)
Lemma create_spec parts g r : exists o r', create parts g r = (Val o, r')
  /\ names r `prefix_of` names r'
  /\ match o with
     | Some m =>
         same_names parts (name_idx m) (names r') = true
         /\ (module_id_map r' = module_id_map r
             \/ exists k, g = Some k /\ module_id_map r' = <[k := m]> (module_id_map r))
     | None =>
         exists k m, g = Some k /\ module_id_map r !! k = Some m
           /\ same_names parts (name_idx m) (names r) = false
     end.
Proof.
  unfold create, find. mrun.
  destruct (match g with Some g => _ | None => None end) as [m|] eqn:Eg.
  - destruct g as [k|]; [|done]. destruct (same_names _ _ _) eqn:Es; eexists _, _.
    + split; [done|]. split_and!; [done..|by left].
    + split; [done|]. split; [done|]. by exists k, m.
  - destruct (find_names_spec parts r) as (ix & r1 & E & H1 & H2 & H3).
    unfold construct. mrun. rewrite E. unfold indexGlobalId.
    destruct g as [k|]; mrun; eexists _, _; (split; [done|]); cbn; split_and!; try done.
    + right. exists k. by rewrite H3.
    + by left.
Qed.
End Names.

(** ** Node 0: what is confirmed *)

Module EMFacts.
Import ENT.
Import EM.

Definition parts (d : EntityUpdate) : list string :=
  let n := names_of d in parts_of (entity n) (class n) (part n).

Lemma parts_length d : (length (parts d) <= 2)%nat.
Proof. unfold parts, parts_of. repeat destruct (decide _); cbn; lia. Qed.

Lemma parts_module d : class (names_of d) <> EmptyString -> length (parts d) = 2%nat.
Proof. intros H. unfold parts, parts_of. rewrite decide_False by done. by destruct (decide _). Qed.

(** The messages of a system: each id stands for one name, and only modules,
    which have a class, report. *)
Record system (D : EntityUpdate -> Prop) : Prop := {
  sy_names : forall d d', D d -> D d' -> t d = Created -> t d' = Created ->
    is_Some (global d) -> global d = global d' -> names_of d = names_of d';
  sy_modules : forall d d', D d -> D d' -> t d = Created -> t d' = Report ->
    is_Some (global d) -> global d = global d' -> class (names_of d) <> EmptyString
}.

Section Run.
Context (D : EntityUpdate -> Prop) (HD : system D).

Record sound (s : EntityManager) : Prop := {
  so_kept : SUM.kept (keeper s);
  so_names : forall g m, module_id_map (registry s) !! g = Some m ->
    exists d, D d /\ t d = Created /\ global d = Some g
      /\ same_names (parts d) (name_idx m) (names (registry s)) = true
}.

(** What a message does to the keeper. *)
Definition event_of (d : EntityUpdate) (s : EntityManager) : SUM.event :=
  match t d with
  | Created =>
      match (create (parts d) (global d) (registry s)).1 with
      | Val (Some m) => SUM.CheckIn m
      | _ => SUM.Query
      end
  | Report =>
      match (find (global d) (registry s)).1 with
      | Val (Some m) => SUM.Report m (mstate d) (at_time d)
      | _ => SUM.Query
      end
  | _ => SUM.Query
  end.

Definition effect (d : EntityUpdate) (s s' : EntityManager) : Prop :=
  SUM.erase (keeper s') = SUM.erase (SUM.effect (event_of d s) (keeper s)).

Lemma kept_names r s g m :
  (forall g m, module_id_map (registry s) !! g = Some m ->
    exists d, D d /\ t d = Created /\ global d = Some g
      /\ same_names (parts d) (name_idx m) (names (registry s)) = true) ->
  names (registry s) `prefix_of` names r -> module_id_map (registry s) !! g = Some m ->
  exists d, D d /\ t d = Created /\ global d = Some g
      /\ same_names (parts d) (name_idx m) (names r) = true.
Proof using.
  intros Hn Hp Hm. destruct (Hn g m Hm) as (d & ? & ? & ? & ?). exists d.
  split_and!; try done. by eapply Names.same_names_mono.
Qed.

Lemma created_sound d s :
  D d -> t d = Created -> sound s ->
  exists s', progress_created d s = (Val tt, s') /\ sound s' /\ effect d s s'.
Proof using HD.
  intros Hd Ht [Hk Hn].
  destruct (Names.create_spec (parts d) (global d) (registry s)) as (o & r & E & Hpre & Ho).
  unfold progress_created. fold (parts d). mrun. rewrite E. mrun.
  destruct o as [m|].
  2: { destruct Ho as (k & m & Hg & Hm & Hs). destruct (Hn k m Hm) as (d' & Hd' & Ht' & Hg' & Hs').
       assert (names_of d' = names_of d) as En.
       { apply (sy_names D HD); try done; by rewrite Hg'. }
       unfold parts in Hs, Hs'. rewrite En in Hs'. congruence. }
  destruct Ho as [Hs Hm].
  assert (length (name_idx m) <= 2)%nat as Hlen.
  { rewrite (Names.same_names_length _ _ _ Hs). apply parts_length. }
  destruct (SUM.created_spec m (keeper s) Hk Hlen) as (u & Ec & Hu & _).
  assert (forall s', keeper s' = u -> registry s' = r -> sound s' /\ effect d s s') as Hs'.
  { intros s' Eu Er. split; [split|].
    - by rewrite Eu.
    - rewrite Er. intros g m' Hgm. destruct Hm as [Hm|(k & Hg & Hm)]; rewrite Hm in Hgm.
      + by apply (kept_names r s).
      + apply lookup_insert_Some in Hgm as [[<- <-]|[_ Hgm]]; [by exists d|].
        by apply (kept_names r s).
    - unfold effect, event_of. rewrite Ht, E. cbn. by rewrite Ec, Eu. }
  unfold SUM.created in Ec. cbn [lift]. destruct (SUM.findSummary m (keeper s)).
  - injection Ec as Ec. eexists. split; [reflexivity|]. by apply Hs'.
  - destruct (SUM.addNode m ST.clear (keeper s)) as [[b k]|]; [|done]. injection Ec as Ec.
    case_bool_decide; (eexists; split; [reflexivity|]); by apply Hs'.
Qed.

Lemma report_sound d s :
  D d -> t d = Report -> sound s ->
  exists s', progress_report d s = (Val tt, s') /\ sound s' /\ effect d s s'.
Proof using HD.
  intros Hd Ht [Hk Hn]. unfold progress_report, effect, event_of. rewrite Ht.
  unfold find. mrun. destruct (global d) as [g|] eqn:Eg.
  2: { exists s. split_and!; [done|by split|done]. }
  destruct (module_id_map (registry s) !! g) as [m|] eqn:Em.
  2: { exists s. split_and!; [done|by split|done]. }
  destruct (Hn g m Em) as (d' & Hd' & Ht' & Hg' & Hs').
  assert (length (name_idx m) = 2)%nat as Hlen.
  { rewrite (Names.same_names_length _ _ _ Hs'). apply parts_module.
    apply (sy_modules D HD d' d); try done; by rewrite Hg'. }
  destruct (SUM.change_spec (ST.setModuleState (mstate d) (at_time d)) m (keeper s) Hk Hlen)
    as (u & E & Hu & Ee).
  exists (with_keeper (registry s) u s). cbn. unfold SUM.reported. rewrite E.
  split_and!; [done|by split|]. cbn. by rewrite Ee.
Qed.

Lemma progress_sound d s : D d -> sound s ->
  exists s', progress d s = (Val tt, s') /\ sound s' /\ effect d s s'.
Proof using HD.
  intros Hd Hs. unfold progress. destruct (t d) eqn:Ht.
  - by apply created_sound.
  - by apply report_sound.
  - exists s. split_and!; try done. unfold effect, event_of. by rewrite Ht.
  - exists s. split_and!; try done. unfold effect, event_of. by rewrite Ht.
Qed.

Lemma progress_all_sound ds s : Forall D ds -> sound s ->
  exists s', progress_all ds s = (Val tt, s') /\ sound s'.
Proof using HD.
  intros Hd. revert s. induction Hd as [|d ds Hd _ IH]; intros s Hs; [by exists s|].
  destruct (progress_sound d s Hd Hs) as (s1 & E1 & H1 & _).
  destruct (IH s1 H1) as (s2 & E2 & H2). exists s2. cbn [progress_all].
  erewrite bind_val by exact E1. by rewrite E2.
Qed.

Lemma confirm_spec s : sound s ->
  exists s', confirm s = (Val tt, s') /\ sound s'
    /\ confirmed_state s' = ST.mstate (SUM.total (keeper s))
    /\ SUM.erase (keeper s') = SUM.erase (keeper s).
Proof using.
  intros [Hk Hn]. destruct (SUM.calc_queried _ (SUM.kp_coherent _ Hk)) as (u & E & [Q1 Q2 Q3]).
  unfold confirm. mrun. cbn. rewrite E. cbn. eexists. split; [reflexivity|]. cbn.
  split_and!; try done. split; [|done]. cbn. by apply (SUM.kept_same (keeper s)).
Qed.
(** *** A round of reports *)

Definition hits (s : EntityManager) (d : EntityUpdate) (l : ModuleId) : Prop :=
  exists g m, global d = Some g /\ module_id_map (registry s) !! g = Some m
    /\ isMe l m = true.

Definition on_or_neutral (x : MS.Type_) : Prop := x = MS.On \/ x = MS.Neutral.

(** A module that is on, or about to be reported so. *)
Definition safe_leaf (s : EntityManager) (ds : list EntityUpdate) (p : ModuleId * ST.StatusT1) : Prop :=
  on_or_neutral (ST.mstate p.2) \/ exists d, d ∈ ds /\ hits s d p.1.
Definition on_leaf (s : EntityManager) (ds : list EntityUpdate) (p : ModuleId * ST.StatusT1) : Prop :=
  ST.mstate p.2 = MS.On \/ exists d, d ∈ ds /\ hits s d p.1.

Lemma report_registry d s s' :
  progress_report d s = (Val tt, s') -> registry s' = registry s.
Proof using.
  unfold progress_report, find. mrun.
  destruct (match global d with Some g => _ | None => None end) as [m|]; cbn.
  - destruct (SUM.reported _ _ m (keeper s)); cbn; [by intros [= <-]|done..].
  - by intros [= <-].
Qed.

(** What a report of [On] does to the leaves. *)
Lemma report_leaves d s s' :
  t d = Report -> mstate d = MS.On -> effect d s s' ->
  exists f : ModuleId * ST.StatusT1 -> ModuleId * ST.StatusT1,
    SUM.leaf_list (keeper s') = map f (SUM.leaf_list (keeper s))
    /\ forall p, (f p).1 = p.1
         /\ (hits s d p.1 -> ST.mstate (f p).2 = MS.On)
         /\ (ST.mstate (f p).2 = MS.On \/ f p = p).
Proof using.
  unfold effect, event_of, find, hits. intros -> Hon He. rewrite (SUM.leaf_list_same _ _ He). clear He.
  destruct (global d) as [g|]; mrun.
  2: { exists (fun p => p). rewrite map_id. split; [done|]. intros p. split_and!; auto.
       by intros (? & ? & ? & _). }
  cbn. destruct (module_id_map (registry s) !! g) as [m|] eqn:Em; cbn.
  2: { exists (fun p => p). rewrite map_id. split; [done|]. intros p. split_and!; auto.
       intros (? & ? & [= <-] & ? & _). congruence. }
  rewrite SUM.leaf_list_alter. eexists. split; [done|]. intros [l st]. cbn.
  split_and!; [done| |].
  - intros (? & m' & [= <-] & Hm' & Hl). rewrite Em in Hm'. injection Hm' as <-.
    by rewrite Hl.
  - destruct (isMe l m); [left; done|by right].
Qed.

Lemma reports_leaves ds s :
  Forall D ds -> Forall (fun d => t d = Report /\ mstate d = MS.On) ds -> sound s ->
  Forall (safe_leaf s ds) (SUM.leaf_list (keeper s)) ->
  Exists (on_leaf s ds) (SUM.leaf_list (keeper s)) ->
  exists s', progress_all ds s = (Val tt, s') /\ sound s'
    /\ Forall (fun p => on_or_neutral (ST.mstate p.2)) (SUM.leaf_list (keeper s'))
    /\ Exists (fun p => ST.mstate p.2 = MS.On) (SUM.leaf_list (keeper s')).
Proof using HD.
  intros Hd Hr. revert s. induction Hd as [|d ds Hd _ IH]; intros s Hs Hall Hex.
  - exists s. split_and!; [done|done| |].
    + eapply list.Forall_impl; [exact Hall|].
      intros p [?|(d & Hin & _)]; [done|by apply elem_of_nil in Hin].
    + eapply Exists_impl; [exact Hex|].
      intros p [?|(d & Hin & _)]; [done|by apply elem_of_nil in Hin].
  - apply list.Forall_cons in Hr as [[Ht Hon] Hr].
    destruct (progress_sound d s Hd Hs) as (s1 & E1 & H1 & Heff).
    destruct (report_leaves d s s1 Ht Hon Heff) as (f & Ef & Hf).
    assert (registry s1 = registry s) as Ereg.
    { apply (report_registry d). unfold progress in E1. by rewrite Ht in E1. }
    assert (forall d l, hits s1 d l <-> hits s d l) as Hh by (intros; unfold hits; by rewrite Ereg).
    destruct (IH Hr s1 H1) as (s2 & E2 & H2 & Ho & Hx).
    + rewrite Ef, Forall_map. eapply list.Forall_impl; [exact Hall|]. intros p Hp.
      destruct (Hf p) as (F1 & F2 & F3). unfold safe_leaf in *. rewrite F1.
      setoid_rewrite Hh. destruct Hp as [Hp|(d' & [->|Hin]%elem_of_cons & Hhit)].
      * left. destruct F3 as [F3| ->]; [by left|done].
      * left. left. by apply F2.
      * right. by exists d'.
    + rewrite Ef, Exists_map. eapply Exists_impl; [exact Hex|]. intros p Hp.
      destruct (Hf p) as (F1 & F2 & F3). unfold on_leaf in *. rewrite F1.
      setoid_rewrite Hh. destruct Hp as [Hp|(d' & [->|Hin]%elem_of_cons & Hhit)].
      * left. by destruct F3 as [F3| ->].
      * left. by apply F2.
      * right. by exists d'.
    + exists s2. cbn [progress_all]. erewrite bind_val by exact E1. by rewrite E2.
Qed.

(** The calls of [checkEntityProgress] over time, each with what is visible. *)
Fixpoint cycles (bs : list (list EntityUpdate)) : M EntityManager unit :=
  match bs with
  | [] => mret tt
  | ds :: bs => checkEntityProgress ds ;; cycles bs
  end.

Lemma check_sound ds s : Forall D ds -> sound s ->
  exists s', checkEntityProgress ds s = (Val tt, s') /\ sound s'
    /\ confirmed_state s' = ST.mstate (SUM.total (keeper s')).
Proof using HD.
  intros Hd Hs. destruct (progress_all_sound ds s Hd Hs) as (s1 & E1 & H1).
  destruct (confirm_spec s1 H1) as (s2 & E2 & H2 & Hc & He). exists s2.
  unfold checkEntityProgress. erewrite bind_val by exact E1. split_and!; [done|done|].
  by rewrite Hc, (SUM.total_same _ _ He).
Qed.

Lemma cycles_sound bs ds s : Forall (Forall D) bs -> Forall D ds -> sound s ->
  exists s', (cycles bs ;; checkEntityProgress ds) s = (Val tt, s') /\ sound s'
    /\ confirmed_state s' = ST.mstate (SUM.total (keeper s')).
Proof using HD.
  intros Hb Hd. revert s. induction Hb as [|b bs Hb _ IH]; intros s Hs.
  - by apply check_sound.
  - destruct (check_sound b s Hb Hs) as (s1 & E1 & H1 & _).
    destruct (IH s1 H1) as (s2 & E2 & H2 & Hc). exists s2. split_and!; [|done..].
    revert E2. cbn [cycles]. unfold mbind, M_bind. rewrite E1.
    by destruct (cycles bs s1) as [[]].
Qed.
End Run.

Lemma sound_init D i l : sound D (init i l).
Proof. split; [apply SUM.kept_root|]. cbn. by intros g m. Qed.


(** The modules come on.  When every module that is not on (or has never
    reported) reports [On] in one batch, and there is such a report or a module
    that is on, the progress check confirms [On]. *)
Theorem on_is_confirmed D ds s :
  system D -> sound D s -> Forall D ds ->
  Forall (fun d => t d = Report /\ mstate d = MS.On) ds ->
  Forall (safe_leaf s ds) (SUM.leaf_list (keeper s)) ->
  Exists (on_leaf s ds) (SUM.leaf_list (keeper s)) ->
  exists s', checkEntityProgress ds s = (Val tt, s') /\ confirmed_state s' = MS.On.
Proof.
  intros HD Hs Hd Hr Hall Hex.
  destruct (reports_leaves D HD ds s Hd Hr Hs Hall Hex) as (s1 & E1 & H1 & Ho & Hx).
  destruct (confirm_spec D s1 H1) as (s2 & E2 & _ & Hc & _). exists s2.
  unfold checkEntityProgress. erewrite bind_val by exact E1. split; [done|]. rewrite Hc.
  destruct (SUM.leaves_on (keeper s1)) as [_ Hon]; rewrite SUM.leaves_list in *.
  - by rewrite Forall_map.
  - apply Hon. by rewrite Exists_map.
Qed.

(** *** The times of the commands *)

Definition press := (Z * Z)%type.

(** A series of calls of [controlEntities], each a button and the tick. *)
Fixpoint controls (l : list press) (eid : nat * nat) (s : EntityManager) : list Z :=
  match l with
  | [] => []
  | (p, now) :: l =>
      let '(s, _) := controlEntities p now eid s in
      last_command_time s :: controls l eid s
  end.

Lemma next_time_spec now s B :
  0 < command_interval s -> 1 <= command_lead s -> 0 <= now <= B ->
  0 <= last_command_time s <= B -> B + command_lead s + command_interval s < 4294967296 ->
  let T := next_command_time now s in
  (command_interval s | T) /\ now + command_lead s <= T /\ last_command_time s < T
  /\ T <= B + command_lead s + command_interval s.
Proof.
  intros Hi Hl Hn Ht HB. unfold next_command_time.
  rewrite (u32_id (_ + _)) by width.
  destruct (round_upwards_spec (Z.max (last_command_time s) now + command_lead s)
    (command_interval s)) as [H1 H2]; [lia..|]. split_and!; [done|lia..].
Qed.

End EMFacts.

(** ** Witnesses *)

Module Story.
Import ENT.
Import EM.
Import EMFacts.

(** An entity with two modules, on node 0. *)
Definition check_ins : list EntityUpdate :=
  [mkUpdate 1 (mkNames "ph" EmptyString EmptyString) (Some (0, 3)%nat) Created MS.Neutral;
   mkUpdate 2 (mkNames "ph" "stick" EmptyString) (Some (0, 4)%nat) Created MS.Undefined;
   mkUpdate 2 (mkNames "ph" "model" "a") (Some (0, 5)%nat) Created MS.Undefined].
Definition first_reports : list EntityUpdate :=
  [mkUpdate 10 (mkNames EmptyString EmptyString EmptyString) (Some (0, 4)%nat) Report MS.UnPrepared;
   mkUpdate 10 (mkNames EmptyString EmptyString EmptyString) (Some (0, 5)%nat) Report MS.InitialPrep].
Definition on_reports : list EntityUpdate :=
  [mkUpdate 90 (mkNames EmptyString EmptyString EmptyString) (Some (0, 4)%nat) Report MS.On;
   mkUpdate 90 (mkNames EmptyString EmptyString EmptyString) (Some (0, 5)%nat) Report MS.On].

Definition all : list EntityUpdate := check_ins ++ first_reports ++ on_reports.
Definition D (d : EntityUpdate) : Prop := In d all.

Lemma all_system : system D.
Proof.
  split; unfold D, all; cbn; intros d d' Hd Hd' Ht Ht' _ Hg;
    repeat match goal with H : _ \/ _ |- _ => destruct H as [<-|H] end;
    cbn in *; done.
Qed.

Lemma all_D l : Forall (fun d => In d all) l -> Forall D l.
Proof. done. Qed.


(** The state after the first reports. *)
Definition before : EntityManager :=
  Eval vm_compute in ((cycles [check_ins] ;; checkEntityProgress first_reports) (init 100 20)).2.

Lemma before_sound : sound D before.
Proof.
  destruct (cycles_sound D all_system [check_ins] first_reports (init 100 20))
    as (s & E & Hs & _).
  - repeat constructor; cbn; tauto.
  - repeat constructor; cbn; tauto.
  - apply sound_init.
  - vm_compute in E. injection E as E. by rewrite <- E in Hs.
Qed.

Lemma on_is_confirmed_witness :
  exists s, checkEntityProgress on_reports before = (Val tt, s) /\ confirmed_state s = MS.On.
Proof.
  apply (on_is_confirmed D on_reports before all_system before_sound).
  - repeat constructor; cbn; tauto.
  - repeat constructor.
  - constructor; [|constructor; [|constructor]]; right.
    + exists (mkUpdate 90 (mkNames EmptyString EmptyString EmptyString) (Some (0, 4)%nat) Report MS.On).
      split; [left|]. eexists _, _. split_and!; reflexivity.
    + exists (mkUpdate 90 (mkNames EmptyString EmptyString EmptyString) (Some (0, 5)%nat) Report MS.On).
      split; [right; left|]. eexists _, _. split_and!; reflexivity.
  - left. right. exists (mkUpdate 90 (mkNames EmptyString EmptyString EmptyString) (Some (0, 4)%nat) Report MS.On).
    split; [left|]. eexists _, _. split_and!; reflexivity.
Defined.

End Story.
