(* ===== verification/CyclicInt.v ===== *)
(** [CyclicInt] of [dueca/CyclicInt.cxx]: an [int] that wraps at a limit.

    The remainder of the C++ operator [%] truncates ([Z.rem]); a zero limit
    makes it undefined.  The two while loops of [operator+=] run on fuel; the
    fuel that suffices is [plus_assign_fuel]. *)

From S2P Require Import Prelude.
#[local] Open Scope Z_scope.

Record CyclicInt := mkCI { value : Z; limit : Z }.

Module CI.

(** [value(value % limit)], and the correction for a negative remainder. *)
Definition make (v l : Z) : outcome CyclicInt :=
  if l =? 0 then Stuck DivByZero
  else
    let r := Z.rem v l in
    if r <? 0 then r' ← iadd r l; Val (mkCI r' l) else Val (mkCI r l).

Definition setLimit (c : CyclicInt) (newlimit : Z) : outcome CyclicInt :=
  if newlimit <=? value c then
    if newlimit =? 0 then Stuck DivByZero
    else Val (mkCI (Z.rem (value c) newlimit) newlimit)
  else Val (mkCI (value c) newlimit).

Definition assign (c : CyclicInt) (d : Z) : outcome CyclicInt :=
  if limit c =? 0 then Stuck DivByZero
  else
    let r := Z.rem d (limit c) in
    if r <? 0 then r' ← iadd r (limit c); Val (mkCI r' (limit c))
    else Val (mkCI r (limit c)).

Definition incr (c : CyclicInt) : outcome CyclicInt :=
  v ← iadd (value c) 1;
  Val (mkCI (if v =? limit c then 0 else v) (limit c)).

Definition decr (c : CyclicInt) : outcome CyclicInt :=
  v ← isub (value c) 1;
  if v =? -1 then v' ← iadd v (limit c); Val (mkCI v' (limit c))
  else Val (mkCI v (limit c)).

(** [while (value < 0) value += limit;] *)
Fixpoint raise (fuel : nat) (v l : Z) : outcome Z :=
  if v <? 0 then
    match fuel with
    | O => Stuck OutOfFuel
    | S k => v' ← iadd v l; raise k v' l
    end
  else Val v.

(** [while (value >= limit) value -= limit;] *)
Fixpoint lower (fuel : nat) (v l : Z) : outcome Z :=
  if l <=? v then
    match fuel with
    | O => Stuck OutOfFuel
    | S k => v' ← isub v l; lower k v' l
    end
  else Val v.

Definition plus_assign (fuel : nat) (c : CyclicInt) (d : Z)
    : outcome CyclicInt :=
  v ← iadd (value c) d;
  v ← raise fuel v (limit c);
  v ← lower fuel v (limit c);
  Val (mkCI v (limit c)).

Definition plus (c : CyclicInt) (d : Z) : outcome CyclicInt :=
  v ← iadd (value c) d; make v (limit c).

Definition minus (c : CyclicInt) (d : Z) : outcome CyclicInt :=
  v ← isub (value c) d; make v (limit c).

End CI.

(** ** Lemmas *)

Definition ci_ok (c : CyclicInt) : Prop :=
  0 <= value c < limit c /\ limit c < 2147483648.

Definition plus_assign_fuel (c : CyclicInt) (d : Z) : nat :=
  Z.to_nat (Z.abs d + 1).

Lemma rem_fix v l :
  0 < l -> (if Z.rem v l <? 0 then Z.rem v l + l else Z.rem v l) = v mod l.
Proof.
  intros. pose proof (Z.rem_bound_abs v l). pose proof (Z.quot_rem' v l).
  apply (Z.mod_unique v l
    (if Z.rem v l <? 0 then Z.quot v l - 1 else Z.quot v l));
    destruct (Z.ltb_spec (Z.rem v l) 0); lia.
Qed.

Ltac ov := rewrite ?iadd_val, ?isub_val by width;
  cbn [mbind outcome_bind].

Lemma make_mod v l :
  is_s32 v -> 0 < l < 2147483648 -> CI.make v l = Val (mkCI (v mod l) l).
Proof.
  intros Hv Hl. unfold CI.make. destruct (Z.eqb_spec l 0); [lia|].
  pose proof (rem_fix v l). pose proof (Z.rem_bound_abs v l).
  destruct (Z.ltb_spec (Z.rem v l) 0); ov; f_equal; f_equal; lia.
Qed.

Lemma raise_mod fuel v l :
  0 < l < 2147483648 -> is_s32 v -> - v <= Z.of_nat fuel ->
  exists v', CI.raise fuel v l = Val v' /\ 0 <= v' /\ is_s32 v'
    /\ v' <= Z.max v l /\ v' mod l = v mod l.
Proof.
  intros Hl. revert v. induction fuel as [|fuel IH]; intros v Hv Hf; cbn.
  - destruct (Z.ltb_spec v 0); [lia|].
    exists v. split_and!; [done|lia|done|lia|done].
  - destruct (Z.ltb_spec v 0).
    2: { exists v. split_and!; [done|lia|done|lia|done]. }
    ov. destruct (IH (v + l)) as (v' & -> & ? & ? & ? & E); [width|lia|].
    exists v'. split_and!; [done|done|done|lia|].
    rewrite E. rewrite <- (Z_mod_plus_full v 1 l). f_equal; lia.
Qed.

Lemma lower_mod fuel v l :
  0 < l < 2147483648 -> is_s32 v -> 0 <= v -> v - l < Z.of_nat fuel ->
  CI.lower fuel v l = Val (v mod l).
Proof.
  intros Hl. revert v. induction fuel as [|fuel IH]; intros v Hv H0 Hf; cbn.
  - destruct (Z.leb_spec l v); [lia|]. by rewrite Z.mod_small by lia.
  - destruct (Z.leb_spec l v).
    2: by rewrite Z.mod_small by lia.
    ov. rewrite IH by width.
    rewrite <- (Z_mod_plus_full (v - l) 1 l). repeat f_equal; lia.
Qed.

Lemma plus_assign_mod c d :
  ci_ok c -> is_s32 (value c + d) ->
  CI.plus_assign (plus_assign_fuel c d) c d
  = Val (mkCI ((value c + d) mod limit c) (limit c)).
Proof.
  intros [Hc Hl] Hd. unfold CI.plus_assign, plus_assign_fuel. ov.
  destruct (raise_mod (Z.to_nat (Z.abs d + 1)) (value c + d) (limit c))
    as (v' & -> & ? & ? & ? & E); [lia|done|lia|].
  cbn [mbind outcome_bind]. rewrite lower_mod; [by rewrite E|lia|done|lia|lia].
Qed.

(** [v mod l] one limit up or down *)
Lemma mod_shift v l k : (v + k * l) mod l = v mod l.
Proof. apply Z_mod_plus_full. Qed.

Lemma assign_mod c d :
  ci_ok c -> is_s32 d -> CI.assign c d = Val (mkCI (d mod limit c) (limit c)).
Proof.
  intros [Hc Hl] Hd. rewrite <- make_mod by (done || lia). done.
Qed.

Lemma incr_mod c :
  ci_ok c -> CI.incr c = Val (mkCI ((value c + 1) mod limit c) (limit c)).
Proof.
  intros [Hc Hl]. unfold CI.incr. ov.
  destruct (Z.eqb_spec (value c + 1) (limit c)) as [->|].
  - by rewrite Z_mod_same_full.
  - by rewrite Z.mod_small by lia.
Qed.

Lemma decr_mod c :
  ci_ok c -> CI.decr c = Val (mkCI ((value c - 1) mod limit c) (limit c)).
Proof.
  intros [Hc Hl]. unfold CI.decr. ov.
  destruct (Z.eqb_spec (value c - 1) (-1)) as [E|].
  - ov. do 2 f_equal. rewrite <- (mod_shift _ _ 1), Z.mod_small; lia.
  - by rewrite Z.mod_small by lia.
Qed.

(** * Properties *)

(** every way to move a cyclic integer ([+=] with its loops, [+], [-],
    [++], [--] and assignment) terminates without overflow and computes the
    same thing, the sum modulo the limit; the result is again within its
    limits. *)
Theorem cyclic_arithmetic c d :
  ci_ok c -> is_s32 (value c + d) -> is_s32 (value c - d) -> is_s32 d ->
  CI.plus_assign (plus_assign_fuel c d) c d
    = Val (mkCI ((value c + d) mod limit c) (limit c))
  /\ CI.plus c d = Val (mkCI ((value c + d) mod limit c) (limit c))
  /\ CI.minus c d = Val (mkCI ((value c - d) mod limit c) (limit c))
  /\ CI.assign c d = Val (mkCI (d mod limit c) (limit c))
  /\ CI.incr c = Val (mkCI ((value c + 1) mod limit c) (limit c))
  /\ CI.decr c = Val (mkCI ((value c - 1) mod limit c) (limit c))
  /\ ci_ok (mkCI ((value c + d) mod limit c) (limit c)).
Proof.
  intros Hok Hp Hm Hd.
  split_and!; eauto using plus_assign_mod, assign_mod, incr_mod, decr_mod;
    destruct Hok as [Hc Hl].
  - unfold CI.plus. ov. apply make_mod; [done|lia].
  - unfold CI.minus. ov. apply make_mod; [done|lia].
  - unfold ci_ok; cbn. pose proof (Z.mod_pos_bound (value c + d) (limit c)). lia.
Qed.

Lemma cyclic_arithmetic_witness :
  CI.plus_assign (plus_assign_fuel (mkCI 3 5) (-9)) (mkCI 3 5) (-9)
    = Val (mkCI 4 5).
Proof.
  refine (proj1 (cyclic_arithmetic (mkCI 3 5) (-9) _ _ _ _)); vm_compute;
    repeat split; discriminate.
Defined.
