(* ===== verification/Bytes.v ===== *)
(** Host byte order and network byte order.

    The sources move numbers between registers and [char] arrays through
    unions and [memcpy], after [htons], [htonl] or the [htonll] that
    [dueca/AmorphStore.cxx] defines.  [object_rep] and [host_value] are the
    two directions of the union under the host's byte order; the lemmas say
    that what reaches the buffer is big endian on either kind of host. *)

From S2P Require Import Prelude.
#[local] Open Scope Z_scope.

(** ** Byte sequences *)

Fixpoint le_bytes (n : nat) (z : Z) : list Z :=
  match n with
  | O => []
  | S k => z mod 256 :: le_bytes k (z / 256)
  end.

Fixpoint le_value (bs : list Z) : Z :=
  match bs with
  | [] => 0
  | b :: r => b + 256 * le_value r
  end.

Definition be_bytes (n : nat) (z : Z) : list Z := rev (le_bytes n z).
Definition be_value (bs : list Z) : Z := le_value (rev bs).

Lemma le_bytes_length n z : length (le_bytes n z) = n.
Proof. revert z. induction n; intros; simpl; [done|]. by rewrite IHn. Qed.
Lemma be_bytes_length n z : length (be_bytes n z) = n.
Proof. unfold be_bytes. by rewrite length_rev, le_bytes_length. Qed.

Lemma le_bytes_ok n z : bytes_ok (le_bytes n z).
Proof.
  revert z. induction n; intros; constructor; [|apply IHn].
  apply Z.mod_pos_bound. lia.
Qed.
Lemma be_bytes_ok n z : bytes_ok (be_bytes n z).
Proof. apply Forall_rev, le_bytes_ok. Qed.

Lemma le_value_bytes n z : le_value (le_bytes n z) = z mod 256 ^ Z.of_nat n.
Proof.
  revert z. induction n as [|n IH]; intros.
  - simpl. by rewrite Z.mod_1_r.
  - cbn [le_bytes le_value]. rewrite IH, Nat2Z.inj_succ, Z.pow_succ_r by lia.
    rewrite Z.rem_mul_r by (try apply Z.pow_nonzero; lia). done.
Qed.

Lemma le_value_range bs : bytes_ok bs -> 0 <= le_value bs < 256 ^ Z.of_nat (length bs).
Proof.
  induction 1 as [|b bs Hb _ IH]; [simpl; lia|].
  cbn [length le_value]. rewrite Nat2Z.inj_succ, Z.pow_succ_r by lia.
  unfold is_u8 in Hb. lia.
Qed.

Lemma le_bytes_value bs : bytes_ok bs -> le_bytes (length bs) (le_value bs) = bs.
Proof.
  induction 1 as [|b bs Hb _ IH]; [done|]. cbn [length le_value le_bytes].
  unfold is_u8 in Hb.
  replace ((b + 256 * le_value bs) mod 256) with b by width.
  replace ((b + 256 * le_value bs) / 256) with (le_value bs) by width.
  by rewrite IH.
Qed.

Lemma le_bytes_mod n z : le_bytes n (z mod 256 ^ Z.of_nat n) = le_bytes n z.
Proof.
  rewrite <- le_value_bytes. rewrite <- (le_bytes_length n z) at 1.
  apply le_bytes_value, le_bytes_ok.
Qed.

Lemma be_value_bytes n z : be_value (be_bytes n z) = z mod 256 ^ Z.of_nat n.
Proof. unfold be_value, be_bytes. by rewrite rev_involutive, le_value_bytes. Qed.

Lemma be_value_range bs : bytes_ok bs -> 0 <= be_value bs < 256 ^ Z.of_nat (length bs).
Proof.
  intros. unfold be_value. rewrite <- length_rev. by apply le_value_range, Forall_rev.
Qed.

Lemma le_bytes_app n m z :
  le_bytes (n + m) z = le_bytes n z ++ le_bytes m (z / 256 ^ Z.of_nat n).
Proof.
  revert z. induction n as [|n IH]; intros.
  - simpl. by rewrite Z.div_1_r.
  - cbn [Nat.add le_bytes app]. rewrite IH, Nat2Z.inj_succ, Z.pow_succ_r by lia.
    by rewrite Z.div_div by lia.
Qed.

(** ** Host representation *)

Section Host.
Context `{BuildConfig}.

(** The bytes of an integer object, and the integer a byte sequence is. *)
Definition object_rep (n : nat) (z : Z) : list Z :=
  if host_little then le_bytes n z else be_bytes n z.
Definition host_value (bs : list Z) : Z :=
  if host_little then le_value bs else be_value bs.

Definition swap (n : nat) (z : Z) : Z := le_value (rev (le_bytes n z)).

(** [htons], [htonl] (and [ntohs], [ntohl], the same functions). *)
Definition htons (z : Z) : Z := if host_little then swap 2 (u16 z) else u16 z.
Definition htonl (z : Z) : Z := if host_little then swap 4 (u32 z) else u32 z.
Definition ntohs := htons.
Definition ntohl := htonl.

(** [htonll]: the two words are swapped and exchanged. *)
Definition htonll (n : Z) : Z :=
  if host_little
  then u64 (u64 (Z.shiftl (htonl n) 32) + htonl (Z.shiftr n 32))
  else u64 n.
Definition ntohll := htonll.

Lemma object_rep_length n z : length (object_rep n z) = n.
Proof.
  unfold object_rep. destruct host_little;
    [apply le_bytes_length|apply be_bytes_length].
Qed.
Lemma object_rep_ok n z : bytes_ok (object_rep n z).
Proof.
  unfold object_rep. destruct host_little; [apply le_bytes_ok|apply be_bytes_ok].
Qed.

Lemma swap_bytes n z : le_bytes n (swap n z) = be_bytes n z.
Proof.
  unfold swap, be_bytes.
  rewrite <- (le_bytes_value (rev (le_bytes n z))) at 2 by apply Forall_rev, le_bytes_ok.
  by rewrite length_rev, le_bytes_length.
Qed.

Lemma swap_range n z : 0 <= swap n z < 256 ^ Z.of_nat n.
Proof.
  pose proof (le_value_range (rev (le_bytes n z))) as R.
  rewrite length_rev, le_bytes_length in R. apply R, Forall_rev, le_bytes_ok.
Qed.

Lemma le_bytes_u8 z : le_bytes 1 (u8 z) = le_bytes 1 z.
Proof. exact (le_bytes_mod 1 z). Qed.
Lemma le_bytes_s8 z : le_bytes 1 (s8 z) = le_bytes 1 z.
Proof. rewrite <- le_bytes_u8, <- (le_bytes_u8 z). f_equal. width. Qed.
Lemma le_bytes_u16 z : le_bytes 2 (u16 z) = le_bytes 2 z.
Proof. exact (le_bytes_mod 2 z). Qed.
Lemma le_bytes_u32 z : le_bytes 4 (u32 z) = le_bytes 4 z.
Proof. exact (le_bytes_mod 4 z). Qed.
Lemma le_bytes_u64 z : le_bytes 8 (u64 z) = le_bytes 8 z.
Proof. exact (le_bytes_mod 8 z). Qed.
Lemma le_bytes_s16 z : le_bytes 2 (s16 z) = le_bytes 2 z.
Proof. rewrite <- le_bytes_u16, <- (le_bytes_u16 z). f_equal. width. Qed.
Lemma le_bytes_s32 z : le_bytes 4 (s32 z) = le_bytes 4 z.
Proof. rewrite <- le_bytes_u32, <- (le_bytes_u32 z). f_equal. width. Qed.
Lemma le_bytes_s64 z : le_bytes 8 (s64 z) = le_bytes 8 z.
Proof. rewrite <- le_bytes_u64, <- (le_bytes_u64 z). f_equal. width. Qed.
End Host.

#[local] Ltac host := unfold object_rep, host_value, ntohs, ntohl, htons, htonl, be_value in *;
  destruct host_little; unfold be_bytes in *; try rewrite rev_involutive.

Section HostLemmas.
Context `{BuildConfig}.

Lemma hton_rep16 z : object_rep 2 (htons z) = be_bytes 2 z.
Proof.
  host; [rewrite swap_bytes; unfold be_bytes|]; by rewrite le_bytes_u16.
Qed.
Lemma hton_rep32 z : object_rep 4 (htonl z) = be_bytes 4 z.
Proof.
  host; [rewrite swap_bytes; unfold be_bytes|]; by rewrite le_bytes_u32.
Qed.
Lemma hton_rep16_s z : object_rep 2 (s16 (htons z)) = be_bytes 2 z.
Proof.
  rewrite <- hton_rep16. unfold object_rep, be_bytes.
  by rewrite le_bytes_s16.
Qed.
Lemma hton_rep32_s z : object_rep 4 (s32 (htonl z)) = be_bytes 4 z.
Proof.
  rewrite <- hton_rep32. unfold object_rep, be_bytes. by rewrite le_bytes_s32.
Qed.

Lemma htonl_range z : is_u32 (htonl z).
Proof.
  unfold htonl. destruct host_little; [|apply u32_range].
  pose proof (swap_range 4 (u32 z)) as Hs. exact Hs.
Qed.

Lemma hton_rep64 z : object_rep 8 (htonll z) = be_bytes 8 z.
Proof.
  unfold object_rep, htonll. pose proof (htonl_range z) as H1.
  pose proof (htonl_range (Z.shiftr z 32)) as H2.
  unfold htonl in *.
  destruct host_little; [|unfold be_bytes; by rewrite le_bytes_u64].
  rewrite le_bytes_u64.
  rewrite Z.shiftl_mul_pow2, Z.shiftr_div_pow2 in * by lia.
  rewrite u64_id by (change (2 ^ 32) with 4294967296; width).
  change 8%nat with (4 + 4)%nat at 1. rewrite le_bytes_app.
  change (256 ^ Z.of_nat 4) with 4294967296 in *. change (2 ^ 32) with 4294967296 in *.
  rewrite <- (le_bytes_u32 (_ + _)).
  replace (u32 (swap 4 (u32 z) * 4294967296 + swap 4 (u32 (z / 4294967296))))
    with (swap 4 (u32 (z / 4294967296))) by width.
  replace ((swap 4 (u32 z) * 4294967296 + swap 4 (u32 (z / 4294967296))) / 4294967296)
    with (swap 4 (u32 z)) by width.
  rewrite !swap_bytes. unfold be_bytes. rewrite !le_bytes_u32.
  change 8%nat with (4 + 4)%nat. by rewrite le_bytes_app, rev_app_distr.
Qed.
Lemma hton_rep64_s z : object_rep 8 (s64 (htonll z)) = be_bytes 8 z.
Proof.
  rewrite <- hton_rep64. unfold object_rep, be_bytes. by rewrite le_bytes_s64.
Qed.
Lemma object_rep_1 z : object_rep 1 z = be_bytes 1 z.
Proof. unfold object_rep. by destruct host_little. Qed.

(** *** Reading back *)

Lemma swap_value n bs :
  bytes_ok bs -> length bs = n -> swap n (le_value bs) = be_value bs.
Proof. intros Hb <-. unfold swap. by rewrite le_bytes_value. Qed.

Lemma ntoh_value16 bs :
  bytes_ok bs -> length bs = 2%nat -> ntohs (host_value bs) = be_value bs.
Proof.
  intros Hb L. pose proof (le_value_range bs Hb) as R.
  pose proof (be_value_range bs Hb) as R'. rewrite L in *.
  change (256 ^ Z.of_nat 2) with 65536 in *.
  unfold ntohs, htons, host_value. destruct host_little; rewrite u16_id by done;
    [by apply swap_value|done].
Qed.
Lemma ntoh_value32 bs :
  bytes_ok bs -> length bs = 4%nat -> ntohl (host_value bs) = be_value bs.
Proof.
  intros Hb L. pose proof (le_value_range bs Hb) as R.
  pose proof (be_value_range bs Hb) as R'. rewrite L in *.
  change (256 ^ Z.of_nat 4) with 4294967296 in *.
  unfold ntohl, htonl, host_value. destruct host_little; rewrite u32_id by done;
    [by apply swap_value|done].
Qed.
Lemma ntoh_value64 bs :
  bytes_ok bs -> length bs = 8%nat -> ntohll (host_value bs) = be_value bs.
Proof.
  intros Hb L. pose proof (le_value_range bs Hb) as R.
  pose proof (be_value_range bs Hb) as R'. rewrite L in *.
  change (256 ^ Z.of_nat 8) with 18446744073709551616 in *.
  pose proof (hton_rep64 (host_value bs)) as E.
  unfold ntohll, object_rep, host_value in *.
  destruct host_little eqn:Hl.
  - assert (is_u64 (htonll (le_value bs))) as Hr
      by (unfold htonll; rewrite Hl; apply u64_range).
    apply (f_equal le_value) in E. rewrite le_value_bytes in E.
    unfold be_bytes in E. change (256 ^ Z.of_nat 8) with 18446744073709551616 in E.
    rewrite Z.mod_small in E by exact Hr. rewrite E.
    unfold be_value. rewrite <- L. by rewrite le_bytes_value.
  - unfold htonll. rewrite Hl. by apply u64_id.
Qed.

Lemma ntohs_s16 z : ntohs (s16 z) = ntohs z.
Proof.
  unfold ntohs, htons. replace (u16 (s16 z)) with (u16 z) by width. done.
Qed.
Lemma ntohl_s32 z : ntohl (s32 z) = ntohl z.
Proof.
  unfold ntohl, htonl. replace (u32 (s32 z)) with (u32 z) by width. done.
Qed.
Lemma ntohll_s64 z : ntohll (s64 z) = ntohll z.
Proof.
  unfold ntohll, htonll, htonl. rewrite !Z.shiftr_div_pow2 by lia.
  change (2 ^ 32) with 4294967296.
  replace (u32 (s64 z)) with (u32 z) by width.
  replace (u32 (s64 z / 4294967296)) with (u32 (z / 4294967296)) by width.
  replace (u64 (s64 z)) with (u64 z) by width. done.
Qed.
Lemma be_value_16 bs : bytes_ok bs -> length bs = 2%nat -> is_u16 (be_value bs).
Proof. intros Hb L. pose proof (be_value_range bs Hb). by rewrite L in *. Qed.
Lemma be_value_32 bs : bytes_ok bs -> length bs = 4%nat -> is_u32 (be_value bs).
Proof. intros Hb L. pose proof (be_value_range bs Hb). by rewrite L in *. Qed.
Lemma be_value_64 bs : bytes_ok bs -> length bs = 8%nat -> is_u64 (be_value bs).
Proof. intros Hb L. pose proof (be_value_range bs Hb). by rewrite L in *. Qed.
Lemma be_value_8 b : be_value [b] = b.
Proof. unfold be_value. simpl. lia. Qed.
End HostLemmas.
