(* ===== verification/Amorph.v ===== *)
(** [AmorphStore] and [AmorphReStore] of [dueca/AmorphStore.cxx] and
    [.hxx]: the byte buffers DUECA packs communication objects into.

    Floating point values are their bit patterns, strings their byte
    sequences; a null [stor] is the empty array. *)

From S2P Require Import Prelude Bytes.
#[local] Open Scope Z_scope.

(** ** The packing side *)

Module AS.

Record AmorphStore := mk {
  stor : list Z;
  capacity : Z;
  index : Z;
  self_claimed : bool;
  choked : bool;
  mark_point : Z
}.

Definition set_stor (b : list Z) (s : AmorphStore) : AmorphStore :=
  mk b (capacity s) (index s) (self_claimed s) (choked s) (mark_point s).
Definition set_index (i : Z) (s : AmorphStore) : AmorphStore :=
  mk (stor s) (capacity s) i (self_claimed s) (choked s) (mark_point s).
Definition set_choked (c : bool) (s : AmorphStore) : AmorphStore :=
  mk (stor s) (capacity s) (index s) (self_claimed s) c (mark_point s).
Definition set_mark_point (m : Z) (s : AmorphStore) : AmorphStore :=
  mk (stor s) (capacity s) (index s) (self_claimed s) (choked s) m.

Section AmorphStore.
Context `{BuildConfig}.
Implicit Types s : AmorphStore.

(** The constructor leaves [mark_point] unset: [mark0] is its content. *)
Definition make_empty (mark0 : Z) : AmorphStore := mk [] 0 0 false true mark0.
Definition make (store : list Z) (cap mark0 : Z) : AmorphStore :=
  mk store cap 0 false false mark0.

Definition acceptBuffer (store : list Z) (cap : Z) : M AmorphStore unit :=
  modify (fun s => mk store cap 0 false false (mark_point s)).

(** [fresh] is what [new char[capacity]] returns. *)
Definition renewBuffer (fresh : list Z) (cap : Z) : M AmorphStore unit :=
  modify (fun s => mk fresh cap 0 true false (mark_point s)).

Definition internalCheckForRoom (size : Z) : M AmorphStore unit :=
  s ← get;
  if choked s || (capacity s <? u32 (index s + size)) then
    modify (set_choked true) ;; throw AmorphStoreBoundary
  else mret tt.

(** [memcpy(&stor[i], bs, ...)] *)
Definition memcpy_to (i : Z) (bs : list Z) : M AmorphStore unit :=
  s ← get;
  b ← of_option OutOfBounds (write_at i bs (stor s));
  modify (set_stor b).

(** [index += n] *)
Definition advance (n : Z) : M AmorphStore unit :=
  modify (fun s => set_index (u32 (index s + n)) s).

Definition startMark : M AmorphStore unit :=
  internalCheckForRoom 2 ;;
  modify (fun s => set_mark_point (index s) s) ;;
  advance 2.

Definition endMark : M AmorphStore unit :=
  s ← get;
  memcpy_to (mark_point s)
    (object_rep 2 (htons (u64 (u32 (index s - mark_point s) - 2)))) ;;
  modify (set_mark_point 0).

Definition startBigMark : M AmorphStore unit :=
  internalCheckForRoom 4 ;;
  modify (fun s => set_mark_point (index s) s) ;;
  advance 4.

Definition endBigMark : M AmorphStore unit :=
  s ← get;
  memcpy_to (mark_point s)
    (object_rep 4 (htonl (u64 (u32 (index s - mark_point s) - 4)))) ;;
  modify (set_mark_point 0).

Definition packData_float (f : Z) : M AmorphStore unit :=
  internalCheckForRoom 4 ;;
  s ← get;
  memcpy_to (index s) (object_rep 4 (htonl f)) ;;
  advance 4.

Definition packData_double (d : Z) : M AmorphStore unit :=
  internalCheckForRoom 8 ;;
  s ← get;
  memcpy_to (index s) (object_rep 8 (htonll d)) ;;
  advance 8.

Definition packData_int16 (i : Z) : M AmorphStore unit :=
  internalCheckForRoom 2 ;;
  s ← get;
  memcpy_to (index s) (object_rep 2 (s16 (htons i))) ;;
  advance 2.

Definition packData_char (i : Z) : M AmorphStore unit :=
  internalCheckForRoom 1 ;;
  s ← get;
  memcpy_to (index s) (object_rep 1 i) ;;
  advance 1.

Definition packData_int8 (i : Z) : M AmorphStore unit :=
  internalCheckForRoom 1 ;;
  s ← get;
  memcpy_to (index s) (object_rep 1 i) ;;
  advance 1.

Definition packData_int32 (i : Z) : M AmorphStore unit :=
  internalCheckForRoom 4 ;;
  s ← get;
  memcpy_to (index s) (object_rep 4 (s32 (htonl i))) ;;
  advance 4.

Definition packData_int64 (i : Z) : M AmorphStore unit :=
  internalCheckForRoom 8 ;;
  s ← get;
  memcpy_to (index s) (object_rep 8 (s64 (htonll i))) ;;
  advance 8.

Definition packData_uint8 (i : Z) : M AmorphStore unit :=
  internalCheckForRoom 1 ;;
  s ← get;
  memcpy_to (index s) (object_rep 1 i) ;;
  advance 1.

Definition packData_uint16 (i : Z) : M AmorphStore unit :=
  internalCheckForRoom 2 ;;
  s ← get;
  memcpy_to (index s) (object_rep 2 (htons i)) ;;
  advance 2.

Definition packData_uint32 (i : Z) : M AmorphStore unit :=
  internalCheckForRoom 4 ;;
  s ← get;
  memcpy_to (index s) (object_rep 4 (htonl i)) ;;
  advance 4.

Definition packData_uint64 (i : Z) : M AmorphStore unit :=
  internalCheckForRoom 8 ;;
  s ← get;
  memcpy_to (index s) (object_rep 8 (htonll i)) ;;
  advance 8.

Definition packData_bool (b : bool) : M AmorphStore unit :=
  internalCheckForRoom 1 ;;
  s ← get;
  (if b then memcpy_to (index s) [255] else memcpy_to (index s) [0]) ;;
  advance 1.

(** [index2 + sizeof(...)] is computed in 64 bits: it does not wrap. *)
Definition placeData_uint8 (i index2 : Z) : M AmorphStore unit :=
  s ← get;
  if choked s || (capacity s <? index2 + 1) then throw AmorphStoreBoundary
  else memcpy_to index2 (object_rep 1 i).

Definition placeData_uint16 (i index2 : Z) : M AmorphStore unit :=
  s ← get;
  if choked s || (capacity s <? index2 + 2) then throw AmorphStoreBoundary
  else memcpy_to index2 (object_rep 2 (htons i)).

Definition placeData_uint32 (i index2 : Z) : M AmorphStore unit :=
  s ← get;
  if choked s || (capacity s <? index2 + 4) then throw AmorphStoreBoundary
  else memcpy_to index2 (object_rep 4 (htonl i)).

(** [uint32_t l = str.size()] truncates. *)
Definition packData_vstring (str : list Z) : M AmorphStore unit :=
  let l := u32 (Z.of_nat (length str)) in
  internalCheckForRoom (u32 (l + 4)) ;;
  s ← get;
  memcpy_to (index s) (object_rep 4 (htonl l)) ;;
  memcpy_to (index s + 4) (take (Z.to_nat l) str) ;;
  advance (u32 (l + 4)).

(** [packData(const char* c, const unsigned length)]: [c] is the array the
    pointer addresses. *)
Definition packData_chars (c : list Z) (n : Z) : M AmorphStore unit :=
  internalCheckForRoom n ;;
  s ← get;
  bs ← of_option OutOfBounds (read_at 0 (Z.to_nat n) c);
  memcpy_to (index s) bs ;;
  advance n.

(** [packData(const char* c)]: [c] holds the characters before the
    terminating zero. *)
Definition packData_cstr (c : list Z) : M AmorphStore unit :=
  let l := u32 (Z.of_nat (length c) + 1) in
  internalCheckForRoom l ;;
  s ← get;
  memcpy_to (index s) (take (Z.to_nat l) (c ++ [0])) ;;
  advance l.

Definition packData_timeval (sec usec : Z) : M AmorphStore unit :=
  packData_uint32 (u32 sec) ;; packData_uint32 (u32 usec).

Definition getSize s : Z := index s.
Definition roundSize4 : M AmorphStore Z :=
  modify (fun s => set_index (u32 (u32 (index s + 3) / 4 * 4)) s) ;;
  gets index.
Definition setSize (p_index : Z) : M AmorphStore unit :=
  modify (set_index p_index).
Definition reUse : M AmorphStore unit :=
  modify (fun s => set_choked false (set_index 0 s)).
Definition reUse_cap (cap : Z) : M AmorphStore unit :=
  modify (fun s => mk (stor s) cap 0 (self_claimed s) false (mark_point s)).
Definition setChoked : M AmorphStore unit := modify (set_choked true).
Definition checkForRoom s (size : Z) : bool := u32 (index s + size) <=? capacity s.
End AmorphStore.
End AS.

(** ** Marks *)

Module Mark.
Section Mark.
Context `{BuildConfig}.

(** The types [netconvert] is specialised for. *)
Inductive mark_type := T_uint8 | T_int8 | T_uint16 | T_uint32 | T_int32.

Definition sizeof (T : mark_type) : Z :=
  match T with
  | T_uint8 | T_int8 => 1
  | T_uint16 => 2
  | T_uint32 | T_int32 => 4
  end.
Definition cast (T : mark_type) (z : Z) : Z :=
  match T with
  | T_uint8 => u8 z | T_int8 => s8 z | T_uint16 => u16 z
  | T_uint32 => u32 z | T_int32 => s32 z
  end.
(** [std::numeric_limits<T>::max()] *)
Definition limit_max (T : mark_type) : Z :=
  match T with
  | T_uint8 => 255 | T_int8 => 127 | T_uint16 => 65535
  | T_uint32 => 4294967295 | T_int32 => 2147483647
  end.
Definition netconvert (T : mark_type) (o : Z) : Z :=
  match T with
  | T_uint8 | T_int8 => o
  | T_uint16 => htons o
  | T_uint32 => htonl o
  | T_int32 => s32 (htonl o)
  end.

Record StoreMark := mk { mtype : mark_type; index : Z }.

(** [sizeof] makes the subtraction a 64 bit one. *)
Definition markvalue (m : StoreMark) (idxnow : Z) : Z :=
  u32 (u64 (u32 (idxnow - index m) - sizeof (mtype m))).
Definition markgross (m : StoreMark) (idxnow : Z) : Z := u32 (idxnow - index m).
Definition marksize (m : StoreMark) : Z := sizeof (mtype m).
Definition markpoint (m : StoreMark) : Z := index m.
Definition markrange (m : StoreMark) (idxnow : Z) : outcome Z :=
  let d := u64 (u32 (idxnow - index m) - sizeof (mtype m)) in
  if limit_max (mtype m) <? d then Exn MarkRange
  else Val (netconvert (mtype m) (cast (mtype m) d)).

Definition mark_rep (T : mark_type) (z : Z) : list Z :=
  object_rep (Z.to_nat (sizeof T)) z.

(** [AmorphStore::createMark], [finishMark]. *)
Definition createMark (T : mark_type) : M AS.AmorphStore StoreMark :=
  s ← get;
  let m := mk T (AS.index s) in
  AS.internalCheckForRoom (marksize m) ;;
  AS.advance (marksize m) ;;
  mret m.

Definition finishMark (m : StoreMark) : M AS.AmorphStore Z :=
  s ← get;
  match markrange m (AS.index s) with
  | Exn e => throw e
  | Stuck f => stuck f
  | Val mrk =>
      AS.memcpy_to (markpoint m) (mark_rep (mtype m) mrk) ;;
      mret (markgross m (AS.index s))
  end.

Definition finishMark_value (m : StoreMark) (n : Z) : M AS.AmorphStore unit :=
  AS.memcpy_to (markpoint m) (mark_rep (mtype m) (netconvert (mtype m) n)).
End Mark.
End Mark.

(** ** The unpacking side *)

Module ARS.

Record AmorphReStore := mk {
  stor : list Z;
  capacity : Z;
  index : Z;
  fill_level : Z;
  exhausted : bool
}.

Definition set_index (i : Z) (s : AmorphReStore) : AmorphReStore :=
  mk (stor s) (capacity s) i (fill_level s) (exhausted s).
Definition set_exhausted (e : bool) (s : AmorphReStore) : AmorphReStore :=
  mk (stor s) (capacity s) (index s) (fill_level s) e.

Section AmorphReStore.
Context `{BuildConfig}.
Implicit Types s : AmorphReStore.

Definition make_empty : AmorphReStore := mk [] 0 0 0 true.
Definition make (store : list Z) (size : Z) : AmorphReStore :=
  mk store size 0 size false.
Definition make_string (store : list Z) (size : Z) : AmorphReStore :=
  mk store size 0 size false.

Definition acceptBuffer (store : list Z) (cap : Z) : M AmorphReStore unit :=
  modify (fun s => mk store cap 0 0 (exhausted s)).

Definition checkDataAvailable (size : Z) : M AmorphReStore unit :=
  s ← get;
  if fill_level s <? u32 (index s + size) then
    modify (set_exhausted true) ;; throw AmorphReStoreEmpty
  else mret tt.

(** [memcpy(..., &stor[i], n)] *)
Definition memcpy_from (i n : Z) : M AmorphReStore (list Z) :=
  s ← get; of_option OutOfBounds (read_at i (Z.to_nat n) (stor s)).

(** [index += n] *)
Definition advance (n : Z) : M AmorphReStore unit :=
  modify (fun s => set_index (u32 (index s + n)) s).

Definition gobble : M AmorphReStore Z :=
  checkDataAvailable 2 ;;
  s ← get; bs ← memcpy_from (index s) 2;
  let n := ntohs (host_value bs) in
  advance 2 ;;
  checkDataAvailable n ;;
  advance n ;;
  mret n.

Definition gobbleBig : M AmorphReStore Z :=
  checkDataAvailable 4 ;;
  s ← get; bs ← memcpy_from (index s) 4;
  let n := ntohl (host_value bs) in
  advance 4 ;;
  checkDataAvailable n ;;
  advance n ;;
  mret n.

Definition gobbleBigMark : M AmorphReStore Z :=
  checkDataAvailable 4 ;; advance 4 ;; mret 4.

Definition peekBigMark : M AmorphReStore Z :=
  checkDataAvailable 4 ;;
  s ← get; bs ← memcpy_from (index s) 4;
  mret (ntohl (host_value bs)).

(** [ntohl] of a 16 bit number, assigned back to 16 bits. *)
Definition peekMark : M AmorphReStore Z :=
  checkDataAvailable 2 ;;
  s ← get; bs ← memcpy_from (index s) 2;
  mret (u16 (ntohl (host_value bs))).

Definition unPackData_float : M AmorphReStore Z :=
  checkDataAvailable 4 ;;
  s ← get; bs ← memcpy_from (index s) 4;
  advance 4 ;; mret (ntohl (host_value bs)).

Definition unPackData_double : M AmorphReStore Z :=
  checkDataAvailable 8 ;;
  s ← get; bs ← memcpy_from (index s) 8;
  advance 8 ;; mret (ntohll (host_value bs)).

Definition unPackData_int16 : M AmorphReStore Z :=
  checkDataAvailable 2 ;;
  s ← get; bs ← memcpy_from (index s) 2;
  advance 2 ;; mret (s16 (ntohs (s16 (host_value bs)))).

(** [char] is signed on the platforms DUECA builds for. *)
Definition unPackData_char : M AmorphReStore Z :=
  checkDataAvailable 1 ;;
  s ← get; bs ← memcpy_from (index s) 1;
  advance 1 ;; mret (s8 (host_value bs)).

Definition unPackData_int8 : M AmorphReStore Z :=
  checkDataAvailable 1 ;;
  s ← get; bs ← memcpy_from (index s) 1;
  advance 1 ;; mret (s8 (host_value bs)).

Definition unPackData_int32 : M AmorphReStore Z :=
  checkDataAvailable 4 ;;
  s ← get; bs ← memcpy_from (index s) 4;
  advance 4 ;; mret (s32 (ntohl (s32 (host_value bs)))).

Definition unPackData_int64 : M AmorphReStore Z :=
  checkDataAvailable 8 ;;
  s ← get; bs ← memcpy_from (index s) 8;
  advance 8 ;; mret (s64 (ntohll (s64 (host_value bs)))).

Definition unPackData_uint8 : M AmorphReStore Z :=
  checkDataAvailable 1 ;;
  s ← get; bs ← memcpy_from (index s) 1;
  advance 1 ;; mret (host_value bs).

Definition unPackData_uint16 : M AmorphReStore Z :=
  checkDataAvailable 2 ;;
  s ← get; bs ← memcpy_from (index s) 2;
  advance 2 ;; mret (ntohs (host_value bs)).

Definition unPackData_uint32 : M AmorphReStore Z :=
  checkDataAvailable 4 ;;
  s ← get; bs ← memcpy_from (index s) 4;
  advance 4 ;; mret (ntohl (host_value bs)).

Definition unPackData_uint64 : M AmorphReStore Z :=
  checkDataAvailable 8 ;;
  s ← get; bs ← memcpy_from (index s) 8;
  advance 8 ;; mret (ntohll (host_value bs)).

Definition unPackData_bool : M AmorphReStore bool :=
  checkDataAvailable 1 ;;
  s ← get; bs ← memcpy_from (index s) 1;
  advance 1 ;; mret (negb (host_value bs =? 0)).

(** [l + sizeof(uint32_t)] is passed as an [unsigned]. *)
Definition unPackData_vstring : M AmorphReStore (list Z) :=
  checkDataAvailable 4 ;;
  s ← get; bs ← memcpy_from (index s) 4;
  let l := ntohl (host_value bs) in
  checkDataAvailable (u32 (l + 4)) ;;
  str ← memcpy_from (index s + 4) l;
  advance (u32 (l + 4)) ;;
  mret str.

(** [strlen]: the bytes in front of the first zero, if there is one. *)
Fixpoint cstring (b : list Z) : option (list Z) :=
  match b with
  | [] => None
  | c :: r => if c =? 0 then Some [] else cs ← cstring r; Some (c :: cs)
  end.

Definition unPackData_cstr : M AmorphReStore (list Z) :=
  s ← get;
  c ← of_option OutOfBounds (cstring (drop (Z.to_nat (index s)) (stor s)));
  let l := u32 (Z.of_nat (length c) + 1) in
  checkDataAvailable l ;;
  bs ← memcpy_from (index s) l;
  advance l ;;
  mret bs.

Definition unPackData_chars (n : Z) : M AmorphReStore (list Z) :=
  checkDataAvailable n ;;
  s ← get; bs ← memcpy_from (index s) n;
  advance n ;; mret bs.

Definition unPackData_timeval : M AmorphReStore (Z * Z) :=
  sec ← unPackData_uint32; usec ← unPackData_uint32; mret (sec, usec).

(** [reUse], [extend], [setIndex], [setExhausted] and the queries. *)
Definition reUse (size : Z) : M AmorphReStore unit :=
  modify (fun s => mk (stor s) (capacity s) 0 size false).
Definition extend (size : Z) : M AmorphReStore unit :=
  modify (fun s =>
    mk (stor s) (capacity s) (index s) (u32 (fill_level s + size)) false).
Definition getSize s : Z := u32 (fill_level s - index s).
Definition getFillLevel s : Z := fill_level s.
Definition getFree s : Z := u32 (capacity s - fill_level s).
Definition getIndex s : Z := index s.
Definition setIndex (i : Z) : M AmorphReStore unit := modify (set_index i).
Definition isExhausted s : bool := exhausted s || (fill_level s <=? index s).
Definition setExhausted : M AmorphReStore unit := modify (set_exhausted true).
End AmorphReStore.
End ARS.

(** ** The overload sets

    The free functions [packData(AmorphStore&, ...)] and
    [unPackData(AmorphReStore&, ...)], indexed by the type of their argument. *)

Inductive ctype :=
  | Cfloat | Cdouble | Cchar | Cint8 | Cint16 | Cint32 | Cint64
  | Cuint8 | Cuint16 | Cuint32 | Cuint64 | Cbool | Cvstring
  | Cchars (n : Z).

Inductive cvalue :=
  | Vnum (t : ctype) (z : Z)
  | Vbool (b : bool)
  | Vvstring (str : list Z)
  | Vchars (c : list Z).

(** The types a [Vnum] can have. *)
Definition in_ctype (t : ctype) (z : Z) : Prop :=
  match t with
  | Cfloat | Cuint32 => is_u32 z
  | Cdouble | Cuint64 => is_u64 z
  | Cchar | Cint8 => is_s8 z
  | Cint16 => is_s16 z
  | Cint32 => is_s32 z
  | Cint64 => is_s64 z
  | Cuint8 => is_u8 z
  | Cuint16 => is_u16 z
  | Cbool | Cvstring | Cchars _ => False
  end.

Definition typeof (v : cvalue) : ctype :=
  match v with
  | Vnum t _ => t
  | Vbool _ => Cbool
  | Vvstring _ => Cvstring
  | Vchars c => Cchars (Z.of_nat (length c))
  end.

Definition cvalue_ok (v : cvalue) : Prop :=
  match v with
  | Vnum t z => in_ctype t z
  | Vbool _ => True
  | Vvstring c | Vchars c => bytes_ok c
  end.

Section Overloads.
Context `{BuildConfig}.

Definition packData_num (t : ctype) (z : Z) : M AS.AmorphStore unit :=
  match t with
  | Cfloat => AS.packData_float z
  | Cdouble => AS.packData_double z
  | Cchar => AS.packData_char z
  | Cint8 => AS.packData_int8 z
  | Cint16 => AS.packData_int16 z
  | Cint32 => AS.packData_int32 z
  | Cint64 => AS.packData_int64 z
  | Cuint8 => AS.packData_uint8 z
  | Cuint16 => AS.packData_uint16 z
  | Cuint32 => AS.packData_uint32 z
  | Cuint64 => AS.packData_uint64 z
  | Cbool | Cvstring | Cchars _ => mret tt
  end.

Definition packData (v : cvalue) : M AS.AmorphStore unit :=
  match v with
  | Vnum t z => packData_num t z
  | Vbool b => AS.packData_bool b
  | Vvstring c => AS.packData_vstring c
  | Vchars c => AS.packData_chars c (Z.of_nat (length c))
  end.

Definition unPackData (t : ctype) : M ARS.AmorphReStore cvalue :=
  match t with
  | Cfloat => Vnum Cfloat <$> ARS.unPackData_float
  | Cdouble => Vnum Cdouble <$> ARS.unPackData_double
  | Cchar => Vnum Cchar <$> ARS.unPackData_char
  | Cint8 => Vnum Cint8 <$> ARS.unPackData_int8
  | Cint16 => Vnum Cint16 <$> ARS.unPackData_int16
  | Cint32 => Vnum Cint32 <$> ARS.unPackData_int32
  | Cint64 => Vnum Cint64 <$> ARS.unPackData_int64
  | Cuint8 => Vnum Cuint8 <$> ARS.unPackData_uint8
  | Cuint16 => Vnum Cuint16 <$> ARS.unPackData_uint16
  | Cuint32 => Vnum Cuint32 <$> ARS.unPackData_uint32
  | Cuint64 => Vnum Cuint64 <$> ARS.unPackData_uint64
  | Cbool => Vbool <$> ARS.unPackData_bool
  | Cvstring => Vvstring <$> ARS.unPackData_vstring
  | Cchars n => Vchars <$> ARS.unPackData_chars n
  end.

(** A message: its members one after the other. *)
Fixpoint packAll (vs : list cvalue) : M AS.AmorphStore unit :=
  match vs with
  | [] => mret tt
  | v :: r => packData v ;; packAll r
  end.
Fixpoint unPackAll (ts : list ctype) : M ARS.AmorphReStore (list cvalue) :=
  match ts with
  | [] => mret []
  | t :: r => v ← unPackData t; vs ← unPackAll r; mret (v :: vs)
  end.
End Overloads.

(** ** The bytes a value becomes *)

Definition width_of (t : ctype) : nat :=
  match t with
  | Cfloat | Cint32 | Cuint32 => 4
  | Cdouble | Cint64 | Cuint64 => 8
  | Cint16 | Cuint16 => 2
  | Cchar | Cint8 | Cuint8 | Cbool => 1
  | Cvstring | Cchars _ => 0
  end.

Definition encoding (v : cvalue) : list Z :=
  match v with
  | Vnum t z => be_bytes (width_of t) z
  | Vbool b => [if b then 255 else 0]
  | Vvstring c => be_bytes 4 (Z.of_nat (length c)) ++ c
  | Vchars c => c
  end.
Definition esize (v : cvalue) : Z := Z.of_nat (length (encoding v)).
Definition encodings (vs : list cvalue) : list Z := mjoin (encoding <$> vs).

Lemma encoding_ok v : cvalue_ok v -> bytes_ok (encoding v).
Proof.
  destruct v as [t z|[]|c|c]; cbn [encoding cvalue_ok]; intros Hv; try done.
  - apply be_bytes_ok.
  - by repeat constructor.
  - by repeat constructor.
  - apply Forall_app. split; [apply be_bytes_ok|done].
Qed.

Lemma encodings_ok vs : Forall cvalue_ok vs -> bytes_ok (encodings vs).
Proof.
  induction 1; [constructor|]. apply Forall_app. split; [by apply encoding_ok|done].
Qed.

(** ** Behaviour of the packing side *)

Record as_ok (s : AS.AmorphStore) : Prop := {
  as_index : 0 <= AS.index s <= AS.capacity s;
  as_cap : AS.capacity s < 4294967296;
  as_room : AS.capacity s <= Z.of_nat (length (AS.stor s));
  as_bytes : bytes_ok (AS.stor s)
}.

Definition splice (i : Z) (bs buf : list Z) : list Z :=
  take (Z.to_nat i) buf ++ bs ++ drop (Z.to_nat i + length bs) buf.

Definition append (bs : list Z) (s : AS.AmorphStore) : AS.AmorphStore :=
  AS.set_index (AS.index s + Z.of_nat (length bs))
    (AS.set_stor (splice (AS.index s) bs (AS.stor s)) s).

(** What every [packData] does with the bytes of its argument. *)
Definition pack_result (bs : list Z) (s : AS.AmorphStore)
    : outcome unit * AS.AmorphStore :=
  if AS.choked s || (AS.capacity s <? AS.index s + Z.of_nat (length bs))
  then (Exn AmorphStoreBoundary, AS.set_choked true s)
  else (Val tt, append bs s).

Lemma splice_length i bs buf :
  0 <= i -> i + Z.of_nat (length bs) <= Z.of_nat (length buf) ->
  length (splice i bs buf) = length buf.
Proof.
  intros. unfold splice. rewrite !length_app, length_take, length_drop. lia.
Qed.

Lemma splice_app i a b buf :
  0 <= i -> i + Z.of_nat (length (a ++ b)) <= Z.of_nat (length buf) ->
  splice (i + Z.of_nat (length a)) b (splice i a buf) = splice i (a ++ b) buf.
Proof.
  intros Hi Hl. rewrite length_app in Hl. unfold splice.
  rewrite <- app_assoc.
  assert (length (take (Z.to_nat i) buf ++ a) = Z.to_nat (i + Z.of_nat (length a)))
    as E by (rewrite length_app, length_take; lia).
  rewrite (app_assoc (take _ buf) a (drop _ buf)).
  rewrite take_app_length' by done. rewrite drop_app_ge by lia.
  rewrite drop_drop, E, (length_app a b). rewrite <- !app_assoc.
  do 4 f_equal. lia.
Qed.

Lemma splice_take_end i bs buf :
  0 <= i <= Z.of_nat (length buf) ->
  take (Z.to_nat i + length bs) (splice i bs buf) = take (Z.to_nat i) buf ++ bs.
Proof.
  intros. unfold splice. rewrite app_assoc, take_app_length'; [done|].
  rewrite length_app, length_take. lia.
Qed.

Lemma splice_bytes_ok i bs buf :
  bytes_ok bs -> bytes_ok buf -> bytes_ok (splice i bs buf).
Proof.
  intros. unfold splice, bytes_ok.
  by repeat (apply Forall_app; split); [apply Forall_take| |apply Forall_drop].
Qed.

Lemma append_ok bs s :
  as_ok s -> bytes_ok bs -> AS.index s + Z.of_nat (length bs) <= AS.capacity s ->
  as_ok (append bs s).
Proof.
  intros [] Hb Hl. split; cbn; try lia.
  - rewrite splice_length; lia.
  - by apply splice_bytes_ok.
Qed.

Lemma append_append a b s :
  as_ok s -> AS.index s + Z.of_nat (length (a ++ b)) <= AS.capacity s ->
  append b (append a s) = append (a ++ b) s.
Proof.
  intros [] Hl. unfold append, AS.set_index, AS.set_stor. cbn [AS.stor AS.index AS.capacity
    AS.self_claimed AS.choked AS.mark_point].
  rewrite splice_app by lia. rewrite length_app. f_equal. lia.
Qed.

Section PackBehaviour.
Context `{BuildConfig}.

Lemma check_room n s :
  as_ok s -> 0 <= n -> AS.index s + n < 4294967296 ->
  AS.internalCheckForRoom n s =
    if AS.choked s || (AS.capacity s <? AS.index s + n)
    then (Exn AmorphStoreBoundary, AS.set_choked true s) else (Val tt, s).
Proof.
  intros [] Hn Hw. unfold AS.internalCheckForRoom. mrun.
  rewrite u32_id by (unfold is_u32; lia). by destruct (_ || _).
Qed.

Lemma memcpy_to_run i bs s :
  0 <= i -> i + Z.of_nat (length bs) <= Z.of_nat (length (AS.stor s)) ->
  AS.memcpy_to i bs s = (Val tt, AS.set_stor (splice i bs (AS.stor s)) s).
Proof.
  intros. unfold AS.memcpy_to. mrun. by rewrite write_at_some.
Qed.

(** The shape the fixed size [packData]s share. *)
Lemma pack_block n bs s :
  as_ok s -> Z.of_nat (length bs) = n -> AS.index s + n < 4294967296 ->
  (AS.internalCheckForRoom n ;;
   s ← get; AS.memcpy_to (AS.index s) bs ;; AS.advance n) s = pack_result bs s.
Proof.
  intros Hs Hn Hw. unfold pack_result. pose proof Hs as [].
  rewrite <- Hn in *. unfold mbind, M_bind. rewrite check_room by (done || lia).
  destruct (_ || _) eqn:E; [done|]. apply orb_false_iff in E as [_ E].
  unfold get. rewrite memcpy_to_run by lia.
  unfold AS.advance. mrun. unfold append. cbn [AS.index AS.set_stor].
  by rewrite u32_id by (unfold is_u32; lia).
Qed.

Lemma packData_num_run t z s :
  as_ok s -> in_ctype t z -> AS.index s + Z.of_nat (width_of t) < 4294967296 ->
  packData_num t z s = pack_result (be_bytes (width_of t) z) s.
Proof.
  intros Hs Ht Hw.
  assert (forall n bs, bs = be_bytes (width_of t) z -> n = Z.of_nat (width_of t) ->
    (AS.internalCheckForRoom n ;;
     s ← get; AS.memcpy_to (AS.index s) bs ;; AS.advance n) s
    = pack_result (be_bytes (width_of t) z) s) as Hb.
  { intros n bs -> ->. apply pack_block; [done| |done].
    by rewrite be_bytes_length. }
  destruct t; try done; apply Hb; try done;
    auto using hton_rep32, hton_rep64, hton_rep16, hton_rep32_s, hton_rep64_s,
      hton_rep16_s, object_rep_1.
Qed.

Lemma packData_vstring_run c s :
  as_ok s -> AS.index s + esize (Vvstring c) < 4294967296 ->
  AS.packData_vstring c s = pack_result (encoding (Vvstring c)) s.
Proof.
  intros Hs Hw. pose proof Hs as [].
  unfold esize in Hw. cbn [encoding] in *.
  rewrite length_app, be_bytes_length in Hw.
  unfold AS.packData_vstring, pack_result.
  rewrite length_app, be_bytes_length.
  rewrite (u32_id (Z.of_nat (length c))) by (unfold is_u32; lia).
  rewrite (u32_id (_ + 4)) by (unfold is_u32; lia).
  unfold mbind, M_bind. rewrite check_room by (done || lia).
  replace (AS.index s + Z.of_nat (4 + length c))
    with (AS.index s + (Z.of_nat (length c) + 4)) by lia.
  destruct (_ || _) eqn:E; [done|]. apply orb_false_iff in E as [_ E].
  unfold get. rewrite hton_rep32.
  rewrite memcpy_to_run by (rewrite ?be_bytes_length; lia).
  rewrite Nat2Z.id, firstn_all.
  rewrite memcpy_to_run by (cbn [AS.stor AS.set_stor];
    rewrite ?splice_length; rewrite ?be_bytes_length; lia).
  unfold AS.advance. mrun. cbn [AS.index AS.stor AS.set_stor].
  unfold append. rewrite u32_id by (unfold is_u32; lia).
  pose proof (splice_app (AS.index s) (be_bytes 4 (Z.of_nat (length c))) c
    (AS.stor s)) as Es. rewrite length_app, be_bytes_length in Es.
  change (Z.of_nat 4) with 4 in Es. rewrite Es by lia.
  rewrite length_app, be_bytes_length. unfold AS.set_index, AS.set_stor. cbn.
  f_equal. f_equal. lia.
Qed.

(** Every [packData], on any store in order. *)
Lemma packData_run v s :
  as_ok s -> cvalue_ok v -> AS.index s + esize v < 4294967296 ->
  packData v s = pack_result (encoding v) s.
Proof.
  intros Hs Hv Hw. unfold esize in Hw. destruct v as [t z|b|c|c]; cbn in Hw, Hv |- *.
  - rewrite be_bytes_length in Hw. by apply packData_num_run.
  - rewrite <- (pack_block 1) by (done || (cbn; lia)). by destruct b.
  - by apply packData_vstring_run.
  - unfold AS.packData_chars. unfold pack_result.
    unfold mbind, M_bind. rewrite check_room by (done || lia).
    destruct (_ || _) eqn:E; [done|]. apply orb_false_iff in E as [_ E].
    pose proof Hs as [].
    unfold get. rewrite read_at_some by lia. cbn [of_option].
    rewrite Nat2Z.id, drop_0, firstn_all. unfold mret, M_ret.
    rewrite memcpy_to_run by lia. unfold AS.advance. mrun.
    unfold append. cbn [AS.index AS.set_stor].
    by rewrite u32_id by (unfold is_u32; lia).
Qed.
End PackBehaviour.

(** ** Behaviour of the unpacking side *)

Record ars_ok (r : ARS.AmorphReStore) : Prop := {
  ars_index : 0 <= ARS.index r <= ARS.fill_level r;
  ars_fill : ARS.fill_level r < 4294967296;
  ars_room : ARS.fill_level r <= Z.of_nat (length (ARS.stor r));
  ars_bytes : bytes_ok (ARS.stor r)
}.

(** The bytes ahead of the read position. *)
Definition ahead (r : ARS.AmorphReStore) (n : nat) : list Z :=
  take n (drop (Z.to_nat (ARS.index r)) (ARS.stor r)).
Definition step_index (n : Z) (r : ARS.AmorphReStore) : ARS.AmorphReStore :=
  ARS.set_index (ARS.index r + n) r.

Lemma ahead_length r n :
  ars_ok r -> ARS.index r + Z.of_nat n <= ARS.fill_level r -> length (ahead r n) = n.
Proof. intros [] ?. unfold ahead. rewrite length_take, length_drop. lia. Qed.
Lemma ahead_bytes_ok r n : ars_ok r -> bytes_ok (ahead r n).
Proof. intros []. by apply Forall_take, Forall_drop. Qed.
Lemma step_index_ok n r :
  ars_ok r -> 0 <= n -> ARS.index r + n <= ARS.fill_level r -> ars_ok (step_index n r).
Proof. intros [] ??. split; cbn; auto; lia. Qed.

Section UnpackBehaviour.
Context `{BuildConfig}.

Lemma check_data n r :
  ars_ok r -> 0 <= n -> ARS.index r + n < 4294967296 ->
  ARS.checkDataAvailable n r =
    if ARS.fill_level r <? ARS.index r + n
    then (Exn AmorphReStoreEmpty, ARS.set_exhausted true r) else (Val tt, r).
Proof.
  intros [] ??. unfold ARS.checkDataAvailable. mrun.
  rewrite u32_id by (unfold is_u32; lia). by destruct (_ <? _).
Qed.

Lemma memcpy_from_run n r :
  ars_ok r -> 0 <= n -> ARS.index r + n <= ARS.fill_level r ->
  ARS.memcpy_from (ARS.index r) n r = (Val (ahead r (Z.to_nat n)), r).
Proof.
  intros [] ??. unfold ARS.memcpy_from. mrun. by rewrite read_at_some by lia.
Qed.

Lemma advance_run n r :
  ars_ok r -> 0 <= n -> ARS.index r + n <= ARS.fill_level r ->
  ARS.advance n r = (Val tt, step_index n r).
Proof.
  intros [] ??. unfold ARS.advance. mrun.
  by rewrite u32_id by (unfold is_u32; lia).
Qed.

(** What the fixed size [unPackData]s do. *)
Definition unpack_result {A} (n : nat) (f : list Z -> A) (r : ARS.AmorphReStore)
    : outcome A * ARS.AmorphReStore :=
  if ARS.fill_level r <? ARS.index r + Z.of_nat n
  then (Exn AmorphReStoreEmpty, ARS.set_exhausted true r)
  else (Val (f (ahead r n)), step_index (Z.of_nat n) r).

Lemma unpack_block {A} n nn (f g : list Z -> A) r :
  ars_ok r -> n = Z.of_nat nn -> ARS.index r + n < 4294967296 ->
  (forall bs, bytes_ok bs -> length bs = nn -> f bs = g bs) ->
  (ARS.checkDataAvailable n ;;
   s ← get; bs ← ARS.memcpy_from (ARS.index s) n;
   ARS.advance n ;; mret (f bs)) r = unpack_result nn g r.
Proof.
  intros Hr -> Hw Hf. unfold unpack_result, mbind, M_bind.
  rewrite check_data by (done || lia). destruct (_ <? _) eqn:E; [done|].
  apply Z.ltb_ge in E. unfold get.
  rewrite memcpy_from_run, advance_run by (done || lia).
  unfold mret, M_ret. rewrite Nat2Z.id, Hf; [done|by apply ahead_bytes_ok|].
  by apply ahead_length.
Qed.

(** The value a type reads from its bytes. *)
Definition decode_num (t : ctype) (bs : list Z) : Z :=
  match t with
  | Cchar | Cint8 => s8 (be_value bs)
  | Cint16 => s16 (be_value bs)
  | Cint32 => s32 (be_value bs)
  | Cint64 => s64 (be_value bs)
  | _ => be_value bs
  end.

Lemma host_value_1 bs : length bs = 1%nat -> host_value bs = be_value bs.
Proof.
  destruct bs as [|b [|]]; try done. intros _. unfold host_value, be_value.
  by destruct host_little.
Qed.

Lemma fmap_run {S A B} (f : A -> B) (m : M S A) s :
  (f <$> m) s = match m s with
                | (Val a, s') => (Val (f a), s')
                | (Exn e, s') => (Exn e, s')
                | (Stuck x, s') => (Stuck x, s')
                end.
Proof. done. Qed.

Lemma fmap_unpack {A B} (f : A -> B) n g r :
  match unpack_result n g r with
  | (Val a, s') => (Val (f a), s')
  | (Exn e, s') => (Exn e, s')
  | (Stuck x, s') => (Stuck x, s')
  end = unpack_result n (fun bs => f (g bs)) r.
Proof. unfold unpack_result. by destruct (_ <? _). Qed.

Definition is_num (t : ctype) : bool :=
  match t with Cbool | Cvstring | Cchars _ => false | _ => true end.

Lemma unPackData_num t r :
  ars_ok r -> is_num t -> ARS.index r + Z.of_nat (width_of t) < 4294967296 ->
  unPackData t r = unpack_result (width_of t) (fun bs => Vnum t (decode_num t bs)) r.
Proof.
  intros Hr Ht Hw.
  assert (forall n (f : list Z -> Z), n = Z.of_nat (width_of t) ->
    (forall bs, bytes_ok bs -> length bs = width_of t -> f bs = decode_num t bs) ->
    (Vnum t <$> (ARS.checkDataAvailable n ;;
      s ← get; bs ← ARS.memcpy_from (ARS.index s) n;
      ARS.advance n ;; mret (f bs))) r
    = unpack_result (width_of t) (fun bs => Vnum t (decode_num t bs)) r) as Hb.
  { intros n f Hn Hf. rewrite fmap_run.
    rewrite (unpack_block n (width_of t) f (decode_num t)) by (done || lia).
    apply fmap_unpack. }
  destruct t; try done; apply Hb; try done; intros bs B L; cbn [width_of] in L;
    rewrite ?ntohs_s16, ?ntohl_s32, ?ntohll_s64;
    first [by rewrite ntoh_value16|by rewrite ntoh_value32
          |by rewrite ntoh_value64|by rewrite host_value_1].
Qed.
End UnpackBehaviour.

Section RoundTrip.
Context `{BuildConfig}.

Lemma decode_encode t z :
  in_ctype t z -> decode_num t (be_bytes (width_of t) z) = z.
Proof.
  destruct t; intros Hz; try done; cbn [decode_num width_of in_ctype] in *;
    rewrite be_value_bytes;
    match goal with |- context [256 ^ ?n] =>
      let v := eval vm_compute in (256 ^ n) in change (256 ^ n) with v end; width.
Qed.

Lemma unPackData_bool_run r :
  ars_ok r -> ARS.index r + 1 < 4294967296 ->
  unPackData Cbool r =
    unpack_result 1 (fun bs => Vbool (negb (host_value bs =? 0))) r.
Proof.
  intros Hr Hw. cbn [unPackData]. rewrite fmap_run. unfold ARS.unPackData_bool.
  rewrite (unpack_block 1 1 _ (fun bs => negb (host_value bs =? 0))) by done.
  apply fmap_unpack.
Qed.

Lemma unPackData_chars_run n r :
  ars_ok r -> 0 <= n -> ARS.index r + n < 4294967296 ->
  unPackData (Cchars n) r = unpack_result (Z.to_nat n) Vchars r.
Proof.
  intros Hr Hn Hw. cbn [unPackData]. rewrite fmap_run. unfold ARS.unPackData_chars.
  rewrite (unpack_block n (Z.to_nat n) (fun bs => bs) (fun bs => bs)) by (done || lia).
  apply fmap_unpack.
Qed.

(** The length a string announces. *)
Definition announced (r : ARS.AmorphReStore) : Z := be_value (ahead r 4).

Lemma unPackData_vstring_run r :
  ars_ok r -> ARS.index r + 4 <= ARS.fill_level r ->
  ARS.index r + 4 + announced r < 4294967296 ->
  ARS.unPackData_vstring r =
    if ARS.fill_level r <? ARS.index r + 4 + announced r
    then (Exn AmorphReStoreEmpty, ARS.set_exhausted true r)
    else (Val (take (Z.to_nat (announced r))
                 (drop (Z.to_nat (ARS.index r + 4)) (ARS.stor r))),
          step_index (4 + announced r) r).
Proof.
  intros Hr H4 Hw. pose proof Hr as [].
  assert (is_u32 (announced r)) as Ha.
  { apply be_value_32; [by apply ahead_bytes_ok|by apply ahead_length]. }
  unfold ARS.unPackData_vstring, mbind, M_bind.
  rewrite check_data by (done || lia).
  rewrite (proj2 (Z.ltb_ge _ _)) by lia. unfold get.
  rewrite memcpy_from_run by (done || lia).
  rewrite ntoh_value32 by (by apply ahead_bytes_ok || by apply ahead_length).
  change (Z.to_nat 4) with 4%nat. fold (announced r).
  unfold is_u32 in Ha. rewrite u32_id by (unfold is_u32; lia).
  rewrite check_data by (done || lia).
  replace (ARS.index r + (announced r + 4)) with (ARS.index r + 4 + announced r) by lia.
  destruct (_ <? _) eqn:E; [done|]. apply Z.ltb_ge in E.
  unfold ARS.memcpy_from, of_option. mrun. rewrite read_at_some by lia.
  unfold ARS.advance. mrun. rewrite u32_id by (unfold is_u32; lia).
  unfold step_index. do 2 f_equal. lia.
Qed.

(** Reading one value where its bytes lie ahead. *)
Lemma unPackData_encoded v r rest :
  ars_ok r -> cvalue_ok v ->
  drop (Z.to_nat (ARS.index r)) (ARS.stor r) = encoding v ++ rest ->
  ARS.index r + esize v <= ARS.fill_level r ->
  unPackData (typeof v) r = (Val v, step_index (esize v) r).
Proof.
  intros Hr Hv Hd Hl. pose proof Hr as []. unfold esize in *.
  assert (forall n g, n = length (encoding v) -> g (encoding v) = v ->
    unpack_result n g r = (Val v, step_index (Z.of_nat n) r)) as Hu.
  { intros n g -> Hg. unfold unpack_result. rewrite (proj2 (Z.ltb_ge _ _)) by lia.
    unfold ahead. by rewrite Hd, take_app_length, Hg. }
  destruct v as [t z|b|c|c]; cbn [typeof encoding cvalue_ok] in *.
  - rewrite be_bytes_length in *.
    rewrite unPackData_num by (done || lia || by destruct t).
    apply Hu; [done|]. by rewrite decode_encode.
  - cbn in Hl. rewrite unPackData_bool_run by (done || lia).
    apply Hu; [done|]. unfold host_value, be_value. by destruct host_little, b.
  - rewrite length_app, be_bytes_length in *.
    assert (announced r = Z.of_nat (length c)) as Ea.
    { unfold announced, ahead. rewrite Hd, <- app_assoc.
      rewrite take_app_length' by by rewrite be_bytes_length.
      rewrite be_value_bytes. change (256 ^ Z.of_nat 4) with 4294967296.
      apply Z.mod_small. lia. }
    cbn [unPackData]. rewrite fmap_run, unPackData_vstring_run by (done || lia).
    rewrite Ea, (proj2 (Z.ltb_ge _ _)) by lia.
    rewrite Z2Nat.inj_add, <- drop_drop, Hd, <- app_assoc by lia.
    rewrite drop_app_length' by by rewrite be_bytes_length.
    rewrite Nat2Z.id, take_app_length. do 2 f_equal. lia.
  - rewrite unPackData_chars_run by (done || lia). rewrite Nat2Z.id. by apply Hu.
Qed.

Lemma packAll_run vs s :
  as_ok s -> Forall cvalue_ok vs -> AS.choked s = false ->
  AS.index s + Z.of_nat (length (encodings vs)) <= AS.capacity s ->
  packAll vs s = (Val tt, append (encodings vs) s).
Proof.
  intros Hs Hv. revert s Hs. induction Hv as [|v vs Hv _ IH]; intros s Hs Hc Hl.
  - cbn. unfold mret, M_ret, append. cbn. unfold splice. cbn.
    rewrite Nat.add_0_r, firstn_skipn, Z.add_0_r. by destruct s.
  - cbn [packAll]. change (encodings (v :: vs)) with (encoding v ++ encodings vs) in *.
    pose proof Hs as []. rewrite length_app in Hl.
    erewrite bind_val; [|rewrite packData_run by (done || (unfold esize; lia));
      unfold pack_result; rewrite Hc, (proj2 (Z.ltb_ge _ _)) by lia; done].
    rewrite IH.
    + rewrite append_append by (rewrite ?length_app; (done || lia)). done.
    + apply append_ok; [done| |lia]. by apply encoding_ok.
    + done.
    + cbn. lia.
Qed.
End RoundTrip.

(** ** Helper lemmas for the theorems below *)

Lemma splice_before i a b buf :
  0 <= i -> i + Z.of_nat (length (a ++ b)) <= Z.of_nat (length buf) ->
  splice i a (splice (i + Z.of_nat (length a)) b buf) = splice i (a ++ b) buf.
Proof.
  intros Hi Hl. rewrite length_app in Hl. unfold splice.
  rewrite take_app_le by (rewrite length_take; lia).
  rewrite take_take, Nat.min_l by lia. f_equal. rewrite <- app_assoc. f_equal.
  replace (Z.to_nat i + length a)%nat
    with (length (take (Z.to_nat (i + Z.of_nat (length a))) buf))
    by (rewrite length_take; lia).
  rewrite drop_app_length, (length_app a b). do 2 f_equal. lia.
Qed.

Section TheoremLemmas.
Context `{BuildConfig}.

Lemma unPackAll_encoded vs r rest :
  ars_ok r -> Forall cvalue_ok vs ->
  drop (Z.to_nat (ARS.index r)) (ARS.stor r) = encodings vs ++ rest ->
  ARS.index r + Z.of_nat (length (encodings vs)) <= ARS.fill_level r ->
  unPackAll (typeof <$> vs) r =
    (Val vs, step_index (Z.of_nat (length (encodings vs))) r).
Proof.
  intros Hr Hv. revert r Hr. induction Hv as [|v vs Hv _ IH]; intros r Hr Hd Hl.
  - cbn. unfold mret, M_ret, step_index. rewrite Z.add_0_r. by destruct r.
  - change (encodings (v :: vs)) with (encoding v ++ encodings vs) in *.
    cbn [fmap list_fmap unPackAll]. rewrite length_app in Hl.
    rewrite <- app_assoc in Hd. pose proof Hr as [].
    erewrite bind_val;
      [|eapply unPackData_encoded; try done; unfold esize; lia].
    erewrite bind_val;
      [|apply IH; [apply step_index_ok; unfold esize; (done || lia)| |]].
    + unfold mret, M_ret, step_index, ARS.set_index, esize. cbn.
      rewrite length_app. do 2 f_equal. lia.
    + cbn. unfold esize. rewrite Z2Nat.inj_add, Nat2Z.id by lia.
      rewrite <- drop_drop, Hd. by rewrite drop_app_length.
    + cbn. unfold esize. lia.
Qed.

Lemma read_back bs s cap i :
  as_ok s -> bytes_ok bs -> AS.index s + Z.of_nat (length bs) <= AS.capacity s ->
  i = AS.index s + Z.of_nat (length bs) ->
  let r := ARS.mk (AS.stor (append bs s)) cap (AS.index s) i false in
  ars_ok r /\
  drop (Z.to_nat (ARS.index r)) (ARS.stor r)
    = bs ++ drop (Z.to_nat (AS.index s) + length bs) (AS.stor s).
Proof.
  intros Hs Hb Hl -> r. pose proof (append_ok bs s Hs Hb Hl) as [].
  pose proof Hs as []. subst r. split.
  - split; cbn in *; lia || done.
  - cbn. unfold splice. rewrite drop_app_ge, length_take by (rewrite length_take; lia).
    by replace (Z.to_nat _ - _)%nat with O by lia.
Qed.

Lemma pack_ok_run v s :
  as_ok s -> cvalue_ok v -> AS.choked s = false ->
  AS.index s + esize v <= AS.capacity s ->
  packData v s = (Val tt, append (encoding v) s).
Proof.
  intros Hs Hv Hc Hl. pose proof Hs as [].
  rewrite packData_run by (done || lia). unfold pack_result.
  by rewrite Hc, (proj2 (Z.ltb_ge _ _)) by (unfold esize in *; lia).
Qed.

(** A mark around packed values: what the closing call writes lands in front
    of them. *)
Lemma mark_close hd bs s :
  as_ok s -> bytes_ok hd ->
  AS.index s + Z.of_nat (length (hd ++ bs)) <= AS.capacity s ->
  AS.memcpy_to (AS.index s) hd
    (append bs (AS.set_index (AS.index s + Z.of_nat (length hd)) s))
  = (Val tt, append (hd ++ bs) s).
Proof.
  intros Hs Hb Hl. pose proof Hs as []. pose proof Hl as Hl'.
  rewrite length_app in Hl.
  rewrite memcpy_to_run; [|lia|cbn; rewrite splice_length; lia].
  unfold append. cbn [AS.set_index AS.set_stor AS.stor AS.index AS.capacity
    AS.self_claimed AS.choked AS.mark_point].
  rewrite splice_before by lia. rewrite length_app. do 2 f_equal.
  unfold AS.set_index, AS.set_stor. cbn. f_equal. lia.
Qed.
End TheoremLemmas.

Section MarkLemmas.
Context `{BuildConfig}.

Lemma startMark_run s :
  as_ok s -> AS.choked s = false -> AS.index s + 2 <= AS.capacity s ->
  AS.startMark s =
    (Val tt, AS.set_index (AS.index s + 2) (AS.set_mark_point (AS.index s) s)).
Proof.
  intros Hs Hc Hl. pose proof Hs as []. unfold AS.startMark, mbind, M_bind.
  rewrite check_room by (done || lia). rewrite Hc, (proj2 (Z.ltb_ge _ _)) by lia.
  unfold AS.advance. mrun. cbn [orb AS.index AS.set_mark_point].
  by rewrite u32_id by (unfold is_u32; lia).
Qed.

Lemma mark_rep_bytes T z :
  Mark.mark_rep T (Mark.netconvert T (Mark.cast T z))
    = be_bytes (Z.to_nat (Mark.sizeof T)) z.
Proof.
  unfold Mark.mark_rep. destruct T; cbn [Mark.netconvert Mark.cast Mark.sizeof].
  - change (Z.to_nat 1) with 1%nat. rewrite object_rep_1. unfold be_bytes.
    by rewrite le_bytes_u8.
  - change (Z.to_nat 1) with 1%nat. rewrite object_rep_1. unfold be_bytes.
    by rewrite le_bytes_s8.
  - change (Z.to_nat 2) with 2%nat. rewrite hton_rep16. unfold be_bytes.
    by rewrite le_bytes_u16.
  - change (Z.to_nat 4) with 4%nat. rewrite hton_rep32. unfold be_bytes.
    by rewrite le_bytes_u32.
  - change (Z.to_nat 4) with 4%nat. rewrite hton_rep32_s. unfold be_bytes.
    by rewrite le_bytes_s32.
Qed.

(** The unsigned differences of [endMark] do not disturb the stored bits. *)
Lemma hton_rep16_64 a b :
  0 <= a - b -> object_rep 2 (htons (u64 (u32 (a - b) - 2))) = be_bytes 2 (a - b - 2).
Proof.
  intros. rewrite hton_rep16. unfold be_bytes.
  rewrite <- (le_bytes_u16 (u64 _)), <- (le_bytes_u16 (a - b - 2)).
  do 2 f_equal. width.
Qed.

(** [finishMark] behind data of any kind. *)
Lemma finishMark_run T s bs :
  as_ok s -> AS.index s + Mark.sizeof T + Z.of_nat (length bs) <= AS.capacity s ->
  Mark.finishMark (Mark.mk T (AS.index s)) (append bs (AS.set_index (AS.index s + Mark.sizeof T) s))
    = if Mark.limit_max T <? Z.of_nat (length bs)
      then (Exn MarkRange, append bs (AS.set_index (AS.index s + Mark.sizeof T) s))
      else (Val (Mark.sizeof T + Z.of_nat (length bs)),
            append (be_bytes (Z.to_nat (Mark.sizeof T)) (Z.of_nat (length bs)) ++ bs) s).
Proof.
  intros Hs Hl. pose proof Hs as []. set (n := Z.of_nat (length bs)) in *.
  assert (1 <= Mark.sizeof T <= 4) as HT by (destruct T; cbn; lia).
  unfold Mark.finishMark, Mark.markrange, Mark.markgross, mbind, M_bind, get.
  cbn [append AS.set_index AS.set_stor AS.index Mark.mtype Mark.index Mark.markpoint].
  fold n. replace (u32 (AS.index s + Mark.sizeof T + n - AS.index s))
    with (Mark.sizeof T + n) by (rewrite u32_id; [lia|unfold is_u32; lia]).
  replace (u64 (Mark.sizeof T + n - Mark.sizeof T)) with n
    by (rewrite u64_id; [lia|unfold is_u64; lia]).
  destruct (Mark.limit_max T <? n) eqn:E; [done|]. apply Z.ltb_ge in E.
  rewrite mark_rep_bytes.
  pose proof (mark_close (be_bytes (Z.to_nat (Mark.sizeof T)) n) bs s Hs) as Hm.
  rewrite length_app, be_bytes_length, Z2Nat.id in Hm by lia.
  match goal with |- context [AS.memcpy_to _ _ ?s0] =>
    change s0 with (append bs (AS.set_index (AS.index s + Mark.sizeof T) s))
  end.
  rewrite Hm; [done|apply be_bytes_ok|lia].
Qed.

Lemma createMark_run T s :
  as_ok s -> AS.choked s = false -> AS.index s + Mark.sizeof T < 4294967296 ->
  Mark.createMark T s =
    if AS.capacity s <? AS.index s + Mark.sizeof T
    then (Exn AmorphStoreBoundary, AS.set_choked true s)
    else (Val (Mark.mk T (AS.index s)), AS.set_index (AS.index s + Mark.sizeof T) s).
Proof.
  intros Hs Hc Hl. pose proof Hs as [].
  assert (1 <= Mark.sizeof T <= 4) as HT by (destruct T; cbn; lia).
  unfold Mark.createMark, Mark.marksize, mbind, M_bind, get. cbn [Mark.mtype].
  rewrite check_room by (done || lia). rewrite Hc. cbn [orb].
  destruct (_ <? _); [done|]. unfold AS.advance. mrun.
  by rewrite u32_id by (unfold is_u32; lia).
Qed.

Lemma gobble_run r n rest m :
  ars_ok r ->
  drop (Z.to_nat (ARS.index r)) (ARS.stor r) = be_bytes 2 n ++ rest ->
  ARS.index r + 2 + u16 n <= ARS.fill_level r ->
  m = ARS.index r + 2 + u16 n ->
  ARS.gobble r = (Val (u16 n), ARS.set_index m r).
Proof.
  intros Hr Hd Hl ->. pose proof Hr as []. pose proof (u16_range n) as Hn.
  unfold is_u16 in Hn.
  assert (ahead r 2 = be_bytes 2 n) as Ea
    by (unfold ahead; by rewrite Hd, take_app_length' by by rewrite be_bytes_length).
  unfold ARS.gobble, mbind, M_bind.
  rewrite check_data by (done || lia). rewrite (proj2 (Z.ltb_ge _ _)) by lia.
  unfold get. rewrite memcpy_from_run, advance_run by (done || lia).
  change (Z.to_nat 2) with 2%nat. rewrite Ea.
  rewrite ntoh_value16 by (apply be_bytes_ok || apply be_bytes_length).
  rewrite be_value_bytes. change (n mod 256 ^ Z.of_nat 2) with (u16 n).
  assert (ars_ok (step_index 2 r)) by (apply step_index_ok; done || lia).
  rewrite check_data by (done || (cbn; lia)).
  rewrite (proj2 (Z.ltb_ge _ _)) by (cbn; lia).
  by rewrite advance_run by (done || (cbn; lia)).
Qed.
End MarkLemmas.

(** How many bytes reading a value of the type asks for; a string asks for
    its length first. *)
Definition requested (t : ctype) (r : ARS.AmorphReStore) : Z :=
  match t with
  | Cvstring =>
      4 + (if ARS.fill_level r <? ARS.index r + 4 then 0 else announced r)
  | Cchars n => n
  | _ => Z.of_nat (width_of t)
  end.

Lemma decode_num_typed t bs :
  is_num t -> length bs = width_of t -> bytes_ok bs -> in_ctype t (decode_num t bs).
Proof.
  intros Ht L Hb. pose proof (be_value_range bs Hb) as Hr. rewrite L in Hr.
  destruct t; try done; cbn [decode_num in_ctype width_of] in *; try exact Hr; width.
Qed.

(** ** Theorems *)

Section Theorems.
Context `{BuildConfig}.

(** C1: a message packed into a store with room is read back by an
    [AmorphReStore] over the same bytes: every member has its value and its
    type, the reader ends exactly where the packer did, and the bytes packed
    before are untouched. *)
Theorem pack_unpack_roundtrip s vs :
  as_ok s -> AS.choked s = false -> Forall cvalue_ok vs ->
  AS.index s + Z.of_nat (length (encodings vs)) <= AS.capacity s ->
  exists s',
    packAll vs s = (Val tt, s') /\ as_ok s' /\
    take (Z.to_nat (AS.index s)) (AS.stor s') =
      take (Z.to_nat (AS.index s)) (AS.stor s) /\
    let r := ARS.mk (AS.stor s') (AS.capacity s') (AS.index s) (AS.getSize s') false in
    unPackAll (typeof <$> vs) r = (Val vs, ARS.set_index (AS.getSize s') r).
Proof.
  intros Hs Hc Hv Hl. pose proof Hs as [].
  pose proof (encodings_ok vs Hv) as Hb.
  exists (append (encodings vs) s).
  split; [by apply packAll_run|]. split; [by apply append_ok|]. split.
  { cbn. unfold splice. rewrite take_app_le by (rewrite length_take; lia).
    by rewrite take_take, Nat.min_id. }
  destruct (read_back (encodings vs) s (AS.capacity s) _ Hs Hb Hl eq_refl) as [Hr Hd].
  intros r. erewrite unPackAll_encoded; [done|exact Hr|done|exact Hd|cbn; lia].
Qed.

(** [packData] of any value on a store in order either appends exactly
    the big endian encoding of the value, or, when the store is choked or
    the value does not fit, throws [AmorphStoreBoundary], leaves the bytes
    and the index alone and chokes the store, so that every later [packData]
    fails too. *)
Theorem packData_outcome s v :
  as_ok s -> cvalue_ok v -> AS.index s + esize v < 4294967296 ->
  (AS.choked s = false -> AS.index s + esize v <= AS.capacity s ->
   exists s', packData v s = (Val tt, s') /\ as_ok s' /\ AS.choked s' = false /\
     AS.index s' = AS.index s + esize v /\
     take (Z.to_nat (AS.index s')) (AS.stor s') =
       take (Z.to_nat (AS.index s)) (AS.stor s) ++ encoding v) /\
  (AS.choked s = true \/ AS.capacity s < AS.index s + esize v ->
   packData v s = (Exn AmorphStoreBoundary, AS.set_choked true s) /\
   forall v', cvalue_ok v' -> AS.index s + esize v' < 4294967296 ->
     packData v' (AS.set_choked true s) =
       (Exn AmorphStoreBoundary, AS.set_choked true s)).
Proof.
  intros Hs Hv Hw. pose proof Hs as []. split.
  - intros Hc Hl. exists (append (encoding v) s). split; [by apply pack_ok_run|].
    split; [apply append_ok; [done|by apply encoding_ok|done]|].
    split; [done|]. split; [done|].
    cbn. rewrite Z2Nat.inj_add, Nat2Z.id by lia. apply splice_take_end. lia.
  - intros Hc. split.
    + rewrite packData_run by done. unfold pack_result.
      destruct (AS.choked s); [done|]. destruct Hc as [|Hc]; [done|].
      unfold esize in Hc. by rewrite (proj2 (Z.ltb_lt _ _)) by lia.
    + intros v' Hv' Hw'. rewrite packData_run; [done| |done|done].
      split; cbn; done || lia.
Qed.


(** The length check of [unPackData(vstring&)] is computed in 32 bits:
    when the announced length is so large that the sum wraps to a number
    below the fill level, the check passes and the string is read from
    outside the buffer. *)
Theorem unPackData_vstring_overread r :
  ars_ok r -> Z.of_nat (length (ARS.stor r)) < 4294967296 ->
  ARS.index r + 4 <= ARS.fill_level r ->
  4294967296 <= ARS.index r + 4 + announced r ->
  u32 (ARS.index r + 4 + announced r) <= ARS.fill_level r ->
  (ARS.unPackData_vstring r).1 = Stuck OutOfBounds.
Proof.
  intros Hr Hlen H4 Hw Hp. pose proof Hr as [].
  assert (is_u32 (announced r)) as Ha.
  { apply be_value_32; [by apply ahead_bytes_ok|by apply ahead_length]. }
  unfold ARS.unPackData_vstring, mbind, M_bind.
  rewrite check_data by (done || lia). rewrite (proj2 (Z.ltb_ge _ _)) by lia.
  unfold get. rewrite memcpy_from_run by (done || lia).
  rewrite ntoh_value32 by (by apply ahead_bytes_ok || by apply ahead_length).
  change (Z.to_nat 4) with 4%nat. fold (announced r).
  unfold ARS.checkDataAvailable. mrun. rewrite u32_add_r.
  replace (ARS.index r + (announced r + 4)) with (ARS.index r + 4 + announced r) by lia.
  rewrite (proj2 (Z.ltb_ge _ _)) by lia.
  unfold ARS.memcpy_from, of_option, read_at. mrun.
  unfold is_u32 in Ha. by rewrite decide_False by lia.
Qed.

(** [startMark], the packed data and [endMark] leave a length in front
    of the data, with which [gobble] skips it in one step; the length has 16
    bits, so data of 64 kB and more is skipped only in part. *)
Theorem mark_gobble s vs :
  as_ok s -> AS.choked s = false -> Forall cvalue_ok vs ->
  let n := Z.of_nat (length (encodings vs)) in
  AS.index s + 2 + n <= AS.capacity s ->
  exists s',
    (AS.startMark ;; packAll vs ;; AS.endMark) s = (Val tt, s') /\
    AS.getSize s' = AS.index s + 2 + n /\
    let r := ARS.mk (AS.stor s') (AS.capacity s') (AS.index s) (AS.getSize s') false in
    ARS.gobble r = (Val (u16 n), ARS.set_index (AS.index s + 2 + u16 n) r).
Proof.
  intros Hs Hc Hv n Hl. pose proof Hs as [].
  pose proof (encodings_ok vs Hv) as Hb. pose proof (be_bytes_ok 2 n) as Hb2.
  assert (Z.of_nat (length (be_bytes 2 n ++ encodings vs)) = 2 + n) as En
    by (rewrite length_app, be_bytes_length; lia).
  exists (AS.set_mark_point 0 (append (be_bytes 2 n ++ encodings vs)
            (AS.set_mark_point (AS.index s) s))).
  split; [|split; [unfold AS.getSize; cbn; lia|]].
  - erewrite bind_val; [|apply startMark_run; done || lia].
    erewrite bind_val; [|apply packAll_run; [split; cbn; done || lia|done|done|cbn; lia]].
    unfold AS.endMark, mbind, M_bind, get.
    cbn [append AS.set_index AS.set_stor AS.mark_point AS.index AS.set_mark_point].
    rewrite hton_rep16_64 by lia. fold n.
    replace (AS.index s + 2 + n - AS.index s - 2) with n by lia.
    pose proof (mark_close (be_bytes 2 n) (encodings vs) (AS.set_mark_point (AS.index s) s)) as Hm.
    rewrite be_bytes_length in Hm. cbn [AS.set_mark_point AS.index AS.capacity] in Hm.
    change (Z.of_nat 2) with 2 in Hm. rewrite Hm; [done| |done|lia]. by split.
  - assert (as_ok (AS.set_mark_point (AS.index s) s)) as Hs' by by split.
    destruct (read_back (be_bytes 2 n ++ encodings vs) _ (AS.capacity s)
      (AS.index s + 2 + n) Hs') as [Hr Hd];
      [by apply Forall_app|cbn; lia|cbn; lia|].
    cbn [AS.set_mark_point AS.index AS.stor] in Hr, Hd |- *.
    rewrite <- app_assoc in Hd.
    unfold AS.getSize. cbn [append AS.set_mark_point AS.set_index AS.set_stor
      AS.index AS.stor AS.capacity].
    rewrite En. replace (AS.index s + (2 + n)) with (AS.index s + 2 + n) by lia.
    eapply gobble_run; [exact Hr|exact Hd| |done].
    cbn. width.
Qed.

(** a [StoreMark] around packed data receives the size of that data, as
    a number of the mark's own type, exactly when the type can hold it;
    otherwise [finishMark] throws [MarkRange] and writes nothing. *)
Theorem store_mark_finish T s vs :
  as_ok s -> AS.choked s = false -> Forall cvalue_ok vs ->
  let n := Z.of_nat (length (encodings vs)) in
  AS.index s + Mark.sizeof T + n <= AS.capacity s ->
  (m ← Mark.createMark T; packAll vs ;; Mark.finishMark m) s =
    if Mark.limit_max T <? n
    then (Exn MarkRange,
          append (encodings vs) (AS.set_index (AS.index s + Mark.sizeof T) s))
    else (Val (Mark.sizeof T + n),
          append (be_bytes (Z.to_nat (Mark.sizeof T)) n ++ encodings vs) s).
Proof.
  intros Hs Hc Hv n Hl. pose proof Hs as [].
  assert (1 <= Mark.sizeof T <= 4) as HT by (destruct T; cbn; lia).
  assert (Mark.createMark T s = (Val (Mark.mk T (AS.index s)),
    AS.set_index (AS.index s + Mark.sizeof T) s)) as Ec
    by (rewrite createMark_run, (proj2 (Z.ltb_ge _ _)) by (done || lia); done).
  erewrite bind_val by exact Ec.
  erewrite bind_val; [|apply packAll_run; [split; cbn; done || lia|done|done|cbn; lia]].
  by apply finishMark_run.
Qed.

(** On a little endian host [peekMark] returns zero whatever mark is in
    the buffer, since it converts the 16 bit mark with the 32 bit [ntohl];
    on a big endian host it returns the mark. *)
Theorem peekMark_value r :
  ars_ok r -> ARS.index r + 2 <= ARS.fill_level r ->
  ARS.peekMark r = (Val (if host_little then 0 else be_value (ahead r 2)), r).
Proof.
  intros Hr Hl. pose proof Hr as []. unfold ARS.peekMark, mbind, M_bind.
  rewrite check_data by (done || lia). rewrite (proj2 (Z.ltb_ge _ _)) by lia.
  unfold get. rewrite memcpy_from_run by (done || lia).
  change (Z.to_nat 2) with 2%nat. unfold mret, M_ret. do 2 f_equal.
  pose proof (ahead_bytes_ok r 2 Hr) as Hb.
  pose proof (ahead_length r 2 Hr ltac:(lia)) as L.
  pose proof (be_value_16 _ Hb L) as Hv. unfold is_u16 in Hv.
  unfold ntohl, htonl, host_value. destruct host_little.
  - pose proof (le_value_range _ Hb) as Hr'. rewrite L in Hr'.
    destruct (ahead r 2) as [|a [|b [|]]]; try done. inversion_clear Hb as [|?? Ha Hb'].
    inversion_clear Hb' as [|?? Hb'' _]. unfold swap. cbn [le_value] in *.
    rewrite u32_id by width. cbn [le_bytes rev app le_value].
    unfold is_u8 in *. replace ((a + 256 * (b + 256 * 0)) mod 256) with a by width.
    replace ((a + 256 * (b + 256 * 0)) / 256) with b by width.
    rewrite (Z.mod_small b), (Z.div_small b) by lia. cbn. width.
  - rewrite u32_id by (unfold is_u32; lia). by apply u16_id.
Qed.
End Theorems.

(** ** Examples: the theorems at concrete stores *)

Section Examples.
#[local] Existing Instance test_config.

Definition ex_store (n : nat) : AS.AmorphStore :=
  AS.make (replicate n 0) (Z.of_nat n) 0.
Definition ex_values : list cvalue :=
  [Vnum Cint16 (-2); Vbool true; Vvstring [72; 105]; Vnum Cuint64 258; Vchars [1; 2; 3]].

Lemma ex_store_ok n : Z.of_nat n < 4294967296 -> as_ok (ex_store n).
Proof.
  intros. split; cbn; rewrite ?length_replicate; try lia.
  by apply Forall_replicate.
Qed.
Lemma ex_values_ok : Forall cvalue_ok ex_values.
Proof. repeat constructor; cbn; done. Qed.

Lemma pack_unpack_roundtrip_witness :
  exists s', packAll ex_values (ex_store 40) = (Val tt, s') /\ AS.getSize s' = 20.
Proof.
  destruct (pack_unpack_roundtrip (ex_store 40) ex_values) as (s' & E & _);
    [by apply ex_store_ok|done|exact ex_values_ok|vm_compute; congruence|].
  exists s'. split; [exact E|]. vm_compute in E. by injection E as <-.
Defined.

Lemma packData_outcome_witness :
  packData (Vnum Cuint32 7) (ex_store 3) =
    (Exn AmorphStoreBoundary, AS.set_choked true (ex_store 3)).
Proof.
  destruct (packData_outcome (ex_store 3) (Vnum Cuint32 7)) as [_ H];
    [by apply ex_store_ok|done|done|]. apply H. by right.
Defined.

Definition ex_restore (l : list Z) : ARS.AmorphReStore :=
  ARS.make l (Z.of_nat (length l)).
Lemma ex_restore_ok l :
  Z.of_nat (length l) < 4294967296 -> bytes_ok l -> ars_ok (ex_restore l).
Proof. intros. split; cbn; lia || done. Qed.


Lemma unPackData_vstring_overread_witness :
  (ARS.unPackData_vstring (ex_restore [255; 255; 255; 253])).1 = Stuck OutOfBounds.
Proof.
  apply unPackData_vstring_overread;
    [apply ex_restore_ok; [done|by repeat constructor]|done|done|done|done].
Defined.

Lemma mark_gobble_witness :
  exists s', (AS.startMark ;; packAll ex_values ;; AS.endMark) (ex_store 40)
             = (Val tt, s') /\ AS.getSize s' = 22.
Proof.
  destruct (mark_gobble (ex_store 40) ex_values) as (s' & E & L & _);
    [by apply ex_store_ok|done|exact ex_values_ok|vm_compute; congruence|].
  by exists s'.
Defined.

Lemma store_mark_finish_witness :
  ((m ← Mark.createMark Mark.T_uint8; packAll ex_values ;; Mark.finishMark m)
     (ex_store 40)).1 = Val 21.
Proof.
  rewrite (store_mark_finish Mark.T_uint8 (ex_store 40) ex_values);
    [done|by apply ex_store_ok|done|exact ex_values_ok|vm_compute; congruence].
Defined.

Lemma peekMark_value_witness :
  ARS.peekMark (ex_restore [0; 5; 1]) = (Val 0, ex_restore [0; 5; 1]).
Proof.
  pose proof (peekMark_value (ex_restore [0; 5; 1])) as H. cbn [host_little test_config] in H.
  apply H; [|done]. apply ex_restore_ok; [done|by repeat constructor].
Defined.
End Examples.
