(* ===== verification/MessageBuffer.v ===== *)
(** The message buffers ([dueca/MessageBuffer.cxx]) and the pool a
    communicator keeps them in ([udpcom/PacketCommunicator.cxx]). *)

From S2P Require Import Prelude.
#[local] Open Scope Z_scope.

(** ** Message buffers *)

Module MB.

Record MessageBuffer := mk {
  capacity : Z;
  offset : Z;
  regular : Z;
  fill : Z;
  nusers : Z;
  origin : Z;
  message_cycle : Z;
  buffer : list Z
}.

Definition set_use (off reg fl us : Z) (b : MessageBuffer) : MessageBuffer :=
  mk (capacity b) off reg fl us (origin b) (message_cycle b) (buffer b).

(** [content] is what [new char[capacity]] returns. *)
Definition make (content : list Z) (size off : Z) : MessageBuffer :=
  mk size off 0 0 1 0 0 content.

Definition assign (o : MessageBuffer) : M MessageBuffer unit :=
  b ← get;
  if capacity b <? fill o then throw BufferBoundary
  else
    src ← of_option OutOfBounds (read_at 0 (Z.to_nat (fill o)) (buffer o));
    dst ← of_option OutOfBounds (write_at 0 src (buffer b));
    put (mk (capacity b) (offset o) (regular o) (fill o) (nusers b) (origin o)
           (message_cycle o) dst).

Definition reset : M MessageBuffer unit :=
  modify (fun b => mk (capacity b) 0 0 0 1 (origin b) 0 (buffer b)).

Definition claim : M MessageBuffer unit :=
  modify (fun b => set_use (offset b) (regular b) (fill b) (u32 (nusers b + 1)) b).

Definition release : M MessageBuffer bool :=
  b ← get;
  let left := u32 (nusers b - 1) in
  if negb (left =? 0) then
    put (set_use (offset b) (regular b) (fill b) left b);; mret false
  else put (set_use (offset b) 0 0 left b);; mret true.

(** [fill + dsize] is a [size_t]. *)
Definition write (data : list Z) : M MessageBuffer unit :=
  b ← get;
  let dsize := Z.of_nat (length data) in
  if u64 (fill b + dsize) <=? capacity b then
    dst ← of_option OutOfBounds (write_at (fill b) data (buffer b));
    put (mk (capacity b) (offset b) (regular b) (u64 (fill b + dsize)) (nusers b)
           (origin b) (message_cycle b) dst)
  else throw BufferBoundary.

Definition zeroUnused : M MessageBuffer unit :=
  b ← get;
  if fill b <? capacity b then
    dst ← of_option OutOfBounds
            (write_at (fill b) (replicate (Z.to_nat (capacity b - fill b)) 0) (buffer b));
    put (mk (capacity b) (offset b) (regular b) (fill b) (nusers b)
           (origin b) (message_cycle b) dst)
  else mret tt.

End MB.

(** ** The pool a communicator keeps its buffers in

    [messagebuffers] is the queue of spare buffers; a pointer is an index
    into [heap]. *)

Module Pool.

Record PacketCommunicator := mk {
  heap : list MB.MessageBuffer;
  messagebuffers : list nat;
  buffersize : Z
}.

Definition set_heap (h : list MB.MessageBuffer) (p : PacketCommunicator) :=
  mk h (messagebuffers p) (buffersize p).
Definition set_spare (q : list nat) (p : PacketCommunicator) :=
  mk (heap p) q (buffersize p).

(** A member function of the buffer at [i]. *)
Definition on {A} (i : nat) (m : M MB.MessageBuffer A) : M PacketCommunicator A := fun p =>
  match heap p !! i with
  | Some b => let (r, b') := m b in (r, set_heap (<[i:=b']> (heap p)) p)
  | None => (Stuck DanglingDeref, p)
  end.

Section WithBuild.
Context `{BuildConfig}.

(** [content] is what [new char] returns, should a buffer have to be made. *)
Definition getBuffer (content : list Z) : M PacketCommunicator nat :=
  p ← get;
  i ← match messagebuffers p with
      | i :: q => modify (set_spare q);; mret i
      | [] =>
          put (set_heap (heap p ++ [MB.make content (buffersize p) 0]) p);;
          mret (length (heap p))
      end;
  on i (modify (fun b => MB.set_use (MB.offset b) (MB.regular b) (MB.fill b) 1 b));;
  mret i.

Definition returnBuffer (i : nat) : M PacketCommunicator unit :=
  n ← on i (gets MB.nusers);
  dassert (negb (n =? 0));;
  last ← on i MB.release;
  if last : bool then modify (fun p => set_spare (messagebuffers p ++ [i]) p)
  else mret tt.

(** The constructor, on an empty pool. *)
Fixpoint construct (contents : list (list Z)) : M PacketCommunicator unit :=
  match contents with
  | [] => mret tt
  | content :: contents =>
      p ← get;
      put (set_heap (heap p ++ [MB.make content (buffersize p) 0]) p);;
      returnBuffer (length (heap p));;
      construct contents
  end.

End WithBuild.
End Pool.

(** *** The pool *)

Section PoolRuns.
Context `{BuildConfig}.

Lemma peek_run b p mb :
  Pool.heap p !! b = Some mb -> Pool.on b get p = (Val mb, p).
Proof.
  intros Hb. unfold Pool.on, get. rewrite Hb. unfold Pool.set_heap.
  rewrite list_insert_id by done. by destruct p.
Qed.

Lemma returnBuffer_run b p mb :
  Pool.heap p !! b = Some mb -> MB.nusers mb <> 0 ->
  exists p', Pool.returnBuffer b p = (Val tt, p').
Proof.
  intros Hb Hu. unfold Pool.returnBuffer, Pool.on, mbind, M_bind, gets. cbn. rewrite Hb.
  rewrite (proj2 (Z.eqb_neq _ _)) by done. rewrite dassert_true by done. cbn.
  rewrite list_lookup_insert_eq by (by eapply lookup_lt_Some).
  unfold MB.release, mbind, M_bind, get, put, mret, M_ret.
  destruct (negb _); cbn; eauto.
Qed.

End PoolRuns.

(** ** The pool and the users of its buffers

    [users] are the claims that have not been given back: a buffer is in it
    as often as it is claimed. *)

Record pool_ok (p : Pool.PacketCommunicator) (users : list nat) : Prop := {
  po_buffer i mb : Pool.heap p !! i = Some mb ->
    MB.nusers mb = occ i users /\ MB.capacity mb = Pool.buffersize p /\
    Z.of_nat (length (MB.buffer mb)) = Pool.buffersize p /\ bytes_ok (MB.buffer mb);
  po_users i : i ∈ users -> (i < length (Pool.heap p))%nat;
  po_spare i : i ∈ Pool.messagebuffers p <-> (i < length (Pool.heap p))%nat /\ i ∉ users;
  po_nodup : NoDup (Pool.messagebuffers p);
  po_few : Z.of_nat (length users) < 4294967296
}.

(** Nothing but the number of users differs. *)
Definition same_data (mb mb' : MB.MessageBuffer) : Prop :=
  MB.set_use (MB.offset mb) (MB.regular mb) (MB.fill mb) 0 mb' =
  MB.set_use (MB.offset mb) (MB.regular mb) (MB.fill mb) 0 mb /\
  MB.offset mb' = MB.offset mb /\ MB.regular mb' = MB.regular mb /\ MB.fill mb' = MB.fill mb.

Definition keeps (users : list nat) (p p' : Pool.PacketCommunicator) : Prop :=
  forall i mb, i ∈ users -> Pool.heap p !! i = Some mb ->
    exists mb', Pool.heap p' !! i = Some mb' /\ same_data mb mb'.

#[export] Instance same_data_refl : Reflexive same_data.
Proof. done. Qed.
#[export] Instance same_data_trans : Transitive same_data.
Proof.
  intros a b c (E1 & O1 & R1 & F1) (E2 & O2 & R2 & F2).
  split; [|split_and!; congruence]. rewrite <- E1, <- O1, <- R1, <- F1. by rewrite E2.
Qed.

Lemma keeps_trans us us' p p' p'' :
  us ⊆ us' -> keeps us p p' -> keeps us' p' p'' -> keeps us p p''.
Proof.
  intros Hs H1 H2 i mb Hi Hmb. destruct (H1 i mb Hi Hmb) as (mb1 & Hmb1 & S1).
  destruct (H2 i mb1 (Hs _ Hi) Hmb1) as (mb2 & Hmb2 & S2). exists mb2. split; [done|]. by etrans.
Qed.

Lemma pool_perm p us us' : us ≡ₚ us' -> pool_ok p us -> pool_ok p us'.
Proof.
  intros Hp []. split; try done.
  - intros i mb Hi. by rewrite <- (occ_perm i _ _ Hp); apply po_buffer0.
  - intros i. rewrite <- Hp. apply po_users0.
  - intros i. rewrite <- Hp. apply po_spare0.
  - by rewrite <- Hp.
Qed.

Section PoolOk.
Context `{BuildConfig}.
Implicit Types (p : Pool.PacketCommunicator).

Lemma on_run {A} i (m : M MB.MessageBuffer A) p mb r mb' :
  Pool.heap p !! i = Some mb -> m mb = (r, mb') ->
  Pool.on i m p = (r, Pool.set_heap (<[i:=mb']> (Pool.heap p)) p).
Proof. intros Hi Hm. unfold Pool.on. by rewrite Hi, Hm. Qed.

Lemma buffer_release_run mb :
  MB.release mb =
    (Val (u32 (MB.nusers mb - 1) =? 0),
     if u32 (MB.nusers mb - 1) =? 0
     then MB.set_use (MB.offset mb) 0 0 (u32 (MB.nusers mb - 1)) mb
     else MB.set_use (MB.offset mb) (MB.regular mb) (MB.fill mb) (u32 (MB.nusers mb - 1)) mb).
Proof. unfold MB.release, mbind, M_bind, get. by destruct (_ =? 0). Qed.

(** The buffer at [i] changes, and the claims on it with it. *)
Lemma pool_update p us us' i mb mb' :
  pool_ok p us -> Pool.heap p !! i = Some mb ->
  MB.nusers mb' = occ i us' -> MB.capacity mb' = Pool.buffersize p ->
  Z.of_nat (length (MB.buffer mb')) = Pool.buffersize p -> bytes_ok (MB.buffer mb') ->
  (forall j, j <> i -> occ j us' = occ j us) -> i ∈ us' -> i ∈ us ->
  Z.of_nat (length us') < 4294967296 ->
  pool_ok (Pool.set_heap (<[i:=mb']> (Pool.heap p)) p) us'.
Proof.
  intros [] Hi Hn Hc Hl Hb Ho Hin Hin' Hfew.
  assert (forall j, j ∈ us' <-> j ∈ us) as Hus.
  { intros j. destruct (decide (j = i)) as [->|Hne]; [done|].
    specialize (Ho j Hne). split; intros Hj; apply occ_pos in Hj;
      (destruct (decide (j ∈ us)), (decide (j ∈ us')); try done;
       rewrite ?(occ_notin j us) in * by done; rewrite ?(occ_notin j us') in * by done; lia). }
  split; cbn; try done.
  - intros j mbj. rewrite list_lookup_insert. case_decide as E; [|].
    + intros. simplify_eq. destruct E as [-> _]. done.
    + intros Hj. rewrite Ho; [by apply po_buffer0|]. intros ->. apply E.
      split; [done|]. by eapply lookup_lt_Some.
  - intros j. rewrite length_insert, Hus. apply po_users0.
  - intros j. rewrite length_insert, Hus. apply po_spare0.
Qed.

Lemma keeps_buffer us p p' i mb mb' :
  Pool.heap p !! i = Some mb -> Pool.heap p' = <[i:=mb']> (Pool.heap p) ->
  (i ∈ us -> same_data mb mb') -> keeps us p p'.
Proof.
  intros Hi E Hs j mbj Hj Hmb. rewrite E,  list_lookup_insert. case_decide as Ei.
  - destruct Ei as [-> _]. exists mb'. split; [done|]. simplify_eq. by apply Hs.
  - by exists mbj.
Qed.

Lemma claim_ok p us i :
  pool_ok p us -> i ∈ us -> Z.of_nat (length us) < 4294967295 ->
  exists p', Pool.on i MB.claim p = (Val tt, p') /\ pool_ok p' (i :: us) /\ keeps us p p' /\
    Pool.buffersize p' = Pool.buffersize p.
Proof.
  intros Hp Hi Hf. pose proof (po_users _ _ Hp i Hi) as Hlt.
  destruct (lookup_lt_is_Some_2 _ _ Hlt) as [mb Hmb].
  destruct (po_buffer _ _ Hp i mb Hmb) as (Hn & Hc & Hl & Hb).
  pose proof (occ_le i us). pose proof (occ_nonneg i us).
  eexists. split; [by eapply on_run|]. split; [|split; [|done]].
  - eapply pool_update; try done; cbn.
    + rewrite occ_cons, decide_True, Hn by done. rewrite u32_id; [lia|unfold is_u32; lia].
    + intros j Hj. by rewrite occ_cons, decide_False.
    + apply list_elem_of_here.
    + lia.
  - eapply keeps_buffer; [exact Hmb|reflexivity|done].
Qed.

Lemma return_ok p us i :
  pool_ok p (i :: us) ->
  exists p', Pool.returnBuffer i p = (Val tt, p') /\ pool_ok p' us /\ keeps us p p' /\
    Pool.buffersize p' = Pool.buffersize p.
Proof.
  intros Hp. pose proof (po_users _ _ Hp i ltac:(apply list_elem_of_here)) as Hlt.
  destruct (lookup_lt_is_Some_2 _ _ Hlt) as [mb Hmb].
  destruct (po_buffer _ _ Hp i mb Hmb) as (Hn & Hc & Hl & Hb).
  rewrite occ_cons, decide_True in Hn by done. pose proof (occ_nonneg i us) as H0.
  pose proof (occ_le i us) as Hle. pose proof (po_few _ _ Hp) as Hf. cbn in Hf.
  unfold Pool.returnBuffer. unfold mbind, M_bind.
  rewrite (on_run i (gets MB.nusers) p mb _ mb Hmb eq_refl).
  rewrite (proj2 (Z.eqb_neq _ _)) by lia. rewrite dassert_true by done.
  assert (Pool.set_heap (<[i:=mb]> (Pool.heap p)) p = p) as -> .
  { unfold Pool.set_heap. rewrite list_insert_id by done. by destruct p. }
  assert (u32 (MB.nusers mb - 1) = occ i us) as Eu by (rewrite u32_id; [lia|unfold is_u32; lia]).
  destruct (decide (occ i us = 0)) as [Ez|Ez].
  - rewrite (on_run i MB.release p mb _ _ Hmb (buffer_release_run mb)), Eu, Ez.
    cbn. eexists. split; [reflexivity|]. apply occ_zero in Ez.
    destruct Hp. split; [split|]; cbn.
    + intros j mbj. rewrite list_lookup_insert. case_decide as E.
      * intros. simplify_eq. destruct E as [-> _]. cbn. by rewrite occ_notin.
      * intros Hj. destruct (po_buffer0 j mbj Hj) as (Hn' & ?). split; [|done].
        rewrite Hn', occ_cons, decide_False; [lia|]. intros ->. by apply E.
    + intros j Hj. rewrite length_insert. apply po_users0. by right.
    + intros j. specialize (po_spare0 j). rewrite not_elem_of_cons in po_spare0.
      rewrite length_insert, elem_of_app, list_elem_of_singleton, po_spare0.
      destruct (decide (j = i)) as [->|Hne]; split; [done|by right|by intros [(? & ? & ?)|?]|].
      intros [? ?]. by left.
    + apply list.NoDup_app. split_and!; [done| |apply list.NoDup_singleton].
      intros j Hj ->%list_elem_of_singleton. apply po_spare0 in Hj as [_ Hj].
      apply Hj, list_elem_of_here.
    + lia.
    + split; [|done]. eapply keeps_buffer; [exact Hmb|reflexivity|done].
  - rewrite (on_run i MB.release p mb _ _ Hmb (buffer_release_run mb)), Eu.
    rewrite (proj2 (Z.eqb_neq _ _)) by done. cbn.
    eexists. split; [reflexivity|].
    assert (i ∈ us) by (destruct (decide (i ∈ us)); [done|]; by rewrite occ_notin in Ez).
    split; [|split; [|done]].
    + eapply pool_update; try done; cbn; [|apply list_elem_of_here|lia].
      intros j Hj. by rewrite occ_cons, decide_False.
    + eapply keeps_buffer; [exact Hmb|reflexivity|done].
Qed.

Lemma new_ok p us content :
  let i := length (Pool.heap p) in
  pool_ok p us -> Z.of_nat (length content) = Pool.buffersize p -> bytes_ok content ->
  Z.of_nat (length us) < 4294967295 ->
  (i ∉ us) /\
  pool_ok (Pool.set_heap (Pool.heap p ++ [MB.make content (Pool.buffersize p) 0]) p) (i :: us).
Proof.
  intros i [] Hc Hb Hf.
  assert (i ∉ us) as Hi by (intros Hi; apply po_users0 in Hi; unfold i in Hi; lia).
  split; [done|]. split; cbn.
  - intros j mbj Hj. apply lookup_app_Some in Hj as [Hj|[Hge Hj]].
    + destruct (po_buffer0 j mbj Hj) as (Hn & ?). split; [|done].
      rewrite occ_cons, decide_False, Hn; [lia|]. apply lookup_lt_Some in Hj. unfold i. lia.
    + apply list_lookup_singleton_Some in Hj as [Hz <-]. cbn. split_and!; try done.
      replace j with i by (unfold i; lia). by rewrite occ_cons, decide_True, occ_notin.
  - intros j. rewrite length_app. cbn. intros [->|Hj]%elem_of_cons; [unfold i; lia|].
    apply po_users0 in Hj. lia.
  - intros j. rewrite length_app, not_elem_of_cons, po_spare0. cbn.
    split; [intros [? ?]|intros (? & ? & ?)]; split_and!; try done; unfold i in *; lia.
  - done.
  - lia.
Qed.

Lemma get_ok p us content :
  pool_ok p us -> Z.of_nat (length content) = Pool.buffersize p -> bytes_ok content ->
  Z.of_nat (length us) < 4294967295 ->
  exists i p', Pool.getBuffer content p = (Val i, p') /\ (i ∉ us) /\
    pool_ok p' (i :: us) /\ keeps us p p' /\ Pool.buffersize p' = Pool.buffersize p.
Proof.
  intros Hp Hc Hb Hf. destruct (new_ok p us content Hp Hc Hb Hf) as [Hi Hnew].
  pose proof Hp as []. unfold Pool.getBuffer, mbind, M_bind, get.
  destruct (Pool.messagebuffers p) as [|i q] eqn:Eq.
  - set (i := length (Pool.heap p)) in *.
    exists i, (Pool.set_heap (Pool.heap p ++ [MB.make content (Pool.buffersize p) 0]) p).
    unfold put, mret, M_ret.
    erewrite on_run; [|cbn; by apply list_lookup_middle|reflexivity]. split.
    { unfold Pool.set_heap. cbn. rewrite list_insert_id; [done|]. by apply list_lookup_middle. }
    split; [done|]. split; [done|]. split; [|done].
    intros j mb Hj Hmb. exists mb. split; [|done]. cbn. by apply lookup_app_l_Some.
  - assert (i ∈ i :: q) as Hin by apply list_elem_of_here.
    clear Hi Hnew. apply po_spare0 in Hin as [Hlt Hi]. destruct (lookup_lt_is_Some_2 _ _ Hlt) as [mb Hmb].
    destruct (po_buffer0 i mb Hmb) as (Hn & Hcap & Hl & Hbb).
    exists i. eexists. unfold modify, mret, M_ret.
    erewrite on_run by (exact Hmb || reflexivity). split; [reflexivity|].
    split; [done|]. apply list.NoDup_cons in po_nodup0 as [Hiq Hq]. split; [|split; [|done]].
    + split; cbn.
      * intros j mbj. rewrite list_lookup_insert. case_decide as E.
        -- intros. simplify_eq. destruct E as [-> _]. cbn. split_and!; try done.
           by rewrite occ_cons, decide_True, occ_notin.
        -- intros Hj. destruct (po_buffer0 j mbj Hj) as (Hn' & ?). split; [|done].
           rewrite occ_cons, decide_False, Hn'; [lia|]. intros ->. by apply E.
      * intros j. rewrite length_insert. intros [->|Hj]%elem_of_cons; [done|]. by apply po_users0.
      * intros j. rewrite length_insert, not_elem_of_cons. specialize (po_spare0 j).
        rewrite elem_of_cons in po_spare0.
        destruct (decide (j = i)) as [->|Hne]; split; [done|by intros (_ & ? & _)| |].
        { intros Hj. destruct (proj1 po_spare0 (or_intror Hj)). done. }
        { intros (Hj1 & _ & Hj2). by destruct (proj2 po_spare0 (conj Hj1 Hj2)). }
      * done.
      * lia.
    + eapply keeps_buffer; [exact Hmb|reflexivity|done].
Qed.

(** The constructor: every new buffer is returned at once. *)
Lemma construct_ok contents : forall p,
  pool_ok p [] -> Forall (fun c => Z.of_nat (length c) = Pool.buffersize p /\ bytes_ok c) contents ->
  exists p', Pool.construct contents p = (Val tt, p') /\ pool_ok p' [] /\
    Pool.buffersize p' = Pool.buffersize p.
Proof.
  induction contents as [|c cs IH]; intros p Hp Hcs; [by exists p|].
  inversion Hcs as [|? ? [Hl Hb] Hcs']; subst. cbn [Pool.construct].
  destruct (new_ok p [] c Hp Hl Hb ltac:(cbn; lia)) as [_ Hnew].
  destruct (return_ok _ _ _ Hnew) as (p1 & Hret & Hp1 & _ & Hs1).
  destruct (IH p1 Hp1) as (p2 & Hrun & Hp2 & Hs2).
  { rewrite Hs1. exact Hcs'. }
  exists p2. split; [|split; [done|by rewrite Hs2, Hs1]].
  unfold mbind, M_bind, get, put. cbn. by rewrite Hret.
Qed.

Lemma empty_ok size : pool_ok (Pool.mk [] [] size) [].
Proof.
  split; cbn.
  - done.
  - by intros i ?%not_elem_of_nil.
  - intros i. split; [by intros ?%not_elem_of_nil|lia].
  - constructor.
  - lia.
Qed.

End PoolOk.
