(* ===== verification/Transport.v ===== *)
(** What the packers and unpackers of channel data share: the [GlobalId] in
    front of each set of data, the work queue of [dueca/GenericPacker.cxx], and
    the interfaces to the channels on both sides. *)

From S2P Require Import Prelude Bytes Amorph MessageBuffer.
#[local] Open Scope Z_scope.

(** ** What precedes a set of data *)

Record GlobalId := mkId { location : Z; object : Z }.

#[export] Instance GlobalId_eq_dec : EqDecision GlobalId.
Proof. solve_decision. Defined.

Definition id_ok (g : GlobalId) : Prop := is_u8 (location g) /\ is_u16 (object g).

Section GlobalId.
Context `{BuildConfig}.

(** The members in the order of [GlobalId.dco]. *)
Definition pack_id (g : GlobalId) : M AS.AmorphStore unit :=
  packData (Vnum Cuint8 (location g));; packData (Vnum Cuint16 (object g)).
Definition unpack_id : M ARS.AmorphReStore GlobalId :=
  l ← ARS.unPackData_uint8; o ← ARS.unPackData_uint16; mret (mkId l o).

End GlobalId.

Definition id_bytes (g : GlobalId) : list Z := be_bytes 1 (location g) ++ be_bytes 2 (object g).

(** ** Work for a packer *)

Record PackUnit := mkUnit { entry : nat; idx : Z; tick : Z }.

(** [GenericPacker::notification]: the writing of an [AsyncQueueMT]. *)
Definition notification (e : nat) (ts i : Z) (q : list PackUnit) : list PackUnit :=
  q ++ [mkUnit e i ts].

(** *** A method that works on the channel entries and a store *)

Definition on_entries {E A} (m : M E A) : M (E * AS.AmorphStore) A := fun w =>
  let (r, e) := m w.1 in (r, (e, w.2)).
Definition on_store {E A} (m : M AS.AmorphStore A) : M (E * AS.AmorphStore) A := fun w =>
  let (r, s) := m w.2 in (r, (w.1, s)).
Definition on_ends {C A} (m : M C A) : M (C * ARS.AmorphReStore) A := fun w =>
  let (r, c) := m w.1 in (r, (c, w.2)).
Definition on_restore {C A} (m : M ARS.AmorphReStore A) : M (C * ARS.AmorphReStore) A := fun w =>
  let (r, s) := m w.2 in (r, (w.1, s)).

(** The sending side of the channels, as the packers see it: [E] is the state
    of all entries, an entry is known by its address. *)
Class ChannelEntries (E : Type) := {
  getChannelId : E -> nat -> GlobalId;
  entry_packData `{BuildConfig} : PackUnit -> M (E * AS.AmorphStore) unit;
  packComplete `{BuildConfig} : nat -> Z -> M E unit;
  packFailed `{BuildConfig} : nat -> Z -> M E unit
}.

(** A message: the channel it belongs to and its data. *)
Definition Message : Type := GlobalId * list Z.

Definition message_ok (m : Message) : Prop := id_ok m.1 /\ bytes_ok m.2.

(** What the packers rely on.  In the state [e] the data for [u] is the
    message [m], and [e'] is left once the packer has confirmed it; when it
    does not fit, nothing is lost. *)
Class ChannelEntriesLaws (E : Type) `{ChannelEntries E} := {
  sends : E -> PackUnit -> Message -> E -> Prop;
  sends_message e u m e' :
    sends e u m e' -> message_ok m /\ m.1 = getChannelId e (entry u);
  pack_fits `{BuildConfig} e u m e' s :
    sends e u m e' -> as_ok s -> AS.choked s = false ->
    AS.index s + Z.of_nat (length m.2) <= AS.capacity s ->
    exists e1, entry_packData u (e, s) = (Val tt, (e1, append m.2 s)) /\
      packComplete (entry u) (idx u) e1 = (Val tt, e');
  pack_full `{BuildConfig} e u m e' s :
    sends e u m e' -> as_ok s -> AS.choked s = false ->
    AS.capacity s < AS.index s + Z.of_nat (length m.2) < 4294967296 ->
    exists e1 w, entry_packData u (e, s) =
        (Exn AmorphStoreBoundary, (e1, AS.set_choked true (append w s))) /\
      bytes_ok w /\ AS.index s + Z.of_nat (length w) <= AS.capacity s /\
      exists e2, packFailed (entry u) (idx u) e1 = (Val tt, e2) /\
        forall m e', sends e u m e' -> sends e2 u m e';
  pack_not_tried `{BuildConfig} e u m e' :
    sends e u m e' -> exists e2, packFailed (entry u) (idx u) e = (Val tt, e2) /\
      forall m e', sends e u m e' -> sends e2 u m e'
}.

(** The receiving side: [C] is the state of the channel ends at this node. *)
Class ChannelEnds (C : Type) := {
  getChannel : C -> Z -> bool;
  channel_unPackData `{BuildConfig} : Z -> Z -> Z -> M (C * ARS.AmorphReStore) unit
}.

(** [accepts c m c']: the channel end takes the message as it was sent. *)
Class ChannelEndsLaws (C : Type) `{ChannelEnds C} := {
  accepts : C -> Message -> C -> Prop;
  accepts_here c m c' : accepts c m c' -> getChannel c (object m.1) = true;
  unpack_accepts `{BuildConfig} c m c' r rest :
    accepts c m c' -> ars_ok r ->
    drop (Z.to_nat (ARS.index r)) (ARS.stor r) = m.2 ++ rest ->
    ARS.index r + Z.of_nat (length m.2) <= ARS.fill_level r ->
    channel_unPackData (object m.1) (location m.1) (Z.of_nat (length m.2)) (c, r) =
      (Val tt, (c', step_index (Z.of_nat (length m.2)) r))
}.

(** A run over several units or messages. *)
Inductive script `{ChannelEntriesLaws E} : E -> list PackUnit -> list Message -> E -> Prop :=
  | script_nil e : script e [] [] e
  | script_cons e u m e1 us ms e2 :
      sends e u m e1 -> script e1 us ms e2 -> script e (u :: us) (m :: ms) e2.

Lemma script_snoc `{ChannelEntriesLaws E} us : forall e ms e1 u m e2,
  script e us ms e1 -> sends e1 u m e2 -> script e (us ++ [u]) (ms ++ [m]) e2.
Proof.
  induction us as [|v us IH]; intros e ms e1 u m e2 Hs Hm; inversion Hs; subst; cbn.
  - eapply script_cons; [done|constructor].
  - eapply script_cons; [done|]. by eapply IH.
Qed.

(** What the ends of a node make of a sequence of messages: those for which
    there is no end here are skipped. *)
Inductive receives `{ChannelEndsLaws C} : C -> list Message -> C -> Prop :=
  | receives_nil c : receives c [] c
  | receives_here c m c1 ms c2 :
      accepts c m c1 -> receives c1 ms c2 -> receives c (m :: ms) c2
  | receives_skip c m ms c2 :
      getChannel c (object m.1) = false -> receives c ms c2 -> receives c (m :: ms) c2.

Lemma receives_app `{ChannelEndsLaws C} ms : forall c ms' c',
  receives c (ms ++ ms') c' -> exists c1, receives c ms c1 /\ receives c1 ms' c'.
Proof.
  induction ms as [|m ms IH]; intros c ms' c' Hr; [by exists c; split; [constructor|]|].
  inversion Hr as [|? ? c1 ? ? Ha Hr'|? ? ? ? Hg Hr']; subst;
    destruct (IH _ _ _ Hr') as (c2 & H1 & H2); exists c2; split; try done.
  - by eapply receives_here.
  - by apply receives_skip.
Qed.

(** A message as it travels: channel, length in [n] bytes, data. *)
Definition framed (n : nat) (m : Message) : list Z :=
  id_bytes m.1 ++ be_bytes n (Z.of_nat (length m.2)) ++ m.2.

Lemma id_bytes_ok g : bytes_ok (id_bytes g).
Proof. apply Forall_app. split; apply be_bytes_ok. Qed.

Lemma framed_ok n m : bytes_ok m.2 -> bytes_ok (framed n m).
Proof.
  intros Hm. apply Forall_app. split; [apply id_bytes_ok|].
  apply Forall_app. split; [apply be_bytes_ok|done].
Qed.

Lemma framed_length n m : Z.of_nat (length (framed n m)) = 3 + Z.of_nat n + Z.of_nat (length m.2).
Proof. unfold framed, id_bytes. rewrite !length_app, !be_bytes_length. lia. Qed.

(** The bytes of a sequence of messages. *)
Definition frames (n : nat) (ms : list Message) : list Z := mjoin (framed n <$> ms).

Lemma frames_app n ms ms' : frames n (ms ++ ms') = frames n ms ++ frames n ms'.
Proof. unfold frames. by rewrite fmap_app, join_app. Qed.

Lemma frames_empty n ms : frames n ms = [] -> ms = [].
Proof.
  destruct ms as [|m ms]; [done|]. intros Hb. exfalso. apply (f_equal length) in Hb.
  change (frames n (m :: ms)) with (framed n m ++ frames n ms) in Hb.
  rewrite length_app in Hb. pose proof (framed_length n m). cbn in Hb. lia.
Qed.

(** ** Packing as the appending of bytes *)

(** The bytes in a store. *)
Definition contents (s : AS.AmorphStore) : list Z := take (Z.to_nat (AS.index s)) (AS.stor s).

(** A failed packing: the store is choked, possibly behind some of the bytes,
    and what was in it before is still there. *)
Definition clogged (s s' : AS.AmorphStore) : Prop :=
  as_ok s' /\ AS.capacity s' = AS.capacity s /\ AS.choked s' = true /\
  AS.index s <= AS.index s' /\ take (Z.to_nat (AS.index s)) (AS.stor s') = contents s /\
  length (AS.stor s') = length (AS.stor s).

Lemma contents_length s : as_ok s -> Z.of_nat (length (contents s)) = AS.index s.
Proof. intros []. unfold contents. rewrite length_take. lia. Qed.

Lemma contents_append bs s :
  as_ok s -> contents (append bs s) = contents s ++ bs.
Proof.
  intros []. unfold contents, append. cbn.
  rewrite Z2Nat.inj_add, Nat2Z.id by lia. apply splice_take_end. lia.
Qed.

Lemma take_append bs s :
  as_ok s -> take (Z.to_nat (AS.index s)) (AS.stor (append bs s)) = contents s.
Proof.
  intros []. unfold append, splice, contents. cbn.
  rewrite take_app_le by (rewrite length_take; lia). by rewrite take_take, Nat.min_id.
Qed.

Lemma choked_clogged s : as_ok s -> clogged s (AS.set_choked true s).
Proof. intros []. split_and!; try done; cbn; lia. Qed.

Lemma clogged_append a s :
  as_ok s -> bytes_ok a -> AS.index s + Z.of_nat (length a) <= AS.capacity s ->
  clogged s (AS.set_choked true (append a s)).
Proof.
  intros Hs Ha Hl. pose proof (append_ok a s Hs Ha Hl) as [].
  split_and!; cbn; try done; try lia; [by apply take_append|].
  destruct Hs. by rewrite splice_length by lia.
Qed.

Lemma clogged_trans a s s' :
  as_ok s -> bytes_ok a -> AS.index s + Z.of_nat (length a) <= AS.capacity s ->
  clogged (append a s) s' -> clogged s s'.
Proof.
  intros Hs Ha Hl (Hok & Hc & Hk & Hi & Ht & Hlen). cbn [append AS.index AS.capacity AS.set_index
    AS.set_stor AS.stor] in *. pose proof Hs as []. rewrite splice_length in Hlen by lia.
  split_and!; try done; try lia.
  rewrite <- (take_append a s Hs). transitivity (take (Z.to_nat (AS.index s))
    (take (Z.to_nat (AS.index s + Z.of_nat (length a))) (AS.stor s'))).
  { rewrite take_take. f_equal. lia. }
  rewrite Ht. unfold contents. cbn. rewrite take_take. f_equal. lia.
Qed.

Lemma setSize_clogged s s' :
  as_ok s -> clogged s s' -> as_ok (AS.set_index (AS.index s) s') /\
    contents (AS.set_index (AS.index s) s') = contents s.
Proof.
  intros [] ([] & Hc & Hk & Hi & Ht & _). split; [|done].
  split; cbn; try done; lia.
Qed.

(** Room that was set aside before the failure. *)
Lemma clogged_skip n s s2 s' :
  as_ok s -> 0 <= n -> AS.index s + n <= AS.capacity s ->
  AS.stor s2 = AS.stor s -> AS.capacity s2 = AS.capacity s -> AS.index s2 = AS.index s + n ->
  clogged s2 s' -> clogged s s'.
Proof.
  intros Hs Hn Hl Est Ecap Eidx (C1 & C2 & C3 & C4 & C5 & C6). destruct Hs.
  split_and!; try done; [congruence|lia| |congruence].
  transitivity (take (Z.to_nat (AS.index s)) (contents s2)).
  - rewrite <- C5, take_take. f_equal. lia.
  - unfold contents. rewrite Est, take_take. f_equal. lia.
Qed.

(** [m] appends [bs] or clogs the store. *)
Definition packs `{BuildConfig} (bs : list Z) (m : M AS.AmorphStore unit) : Prop :=
  forall s, as_ok s -> AS.choked s = false ->
    AS.index s + Z.of_nat (length bs) < 4294967296 ->
    if decide (AS.index s + Z.of_nat (length bs) <= AS.capacity s)
    then m s = (Val tt, append bs s)
    else exists w, bytes_ok w /\ AS.index s + Z.of_nat (length w) <= AS.capacity s /\
      m s = (Exn AmorphStoreBoundary, AS.set_choked true (append w s)).

Lemma append_no_bytes s : as_ok s -> append [] s = s.
Proof.
  intros []. unfold append, splice, AS.set_index, AS.set_stor. cbn.
  rewrite Nat.add_0_r, firstn_skipn, Z.add_0_r. by destruct s.
Qed.

Section Packs.
Context `{BuildConfig}.

Lemma packs_data v : cvalue_ok v -> packs (encoding v) (packData v).
Proof.
  intros Hv s Hs Hc Hw. case_decide as Hl; [by apply pack_ok_run|].
  exists []. pose proof Hs as []. rewrite append_no_bytes by done.
  split_and!; [by constructor|cbn; lia|].
  rewrite packData_run by (done || unfold esize; lia). unfold pack_result.
  by rewrite Hc, (proj2 (Z.ltb_lt _ _)) by lia.
Qed.

Lemma packs_nil : packs [] (mret tt).
Proof.
  intros s Hs Hc _. pose proof Hs as []. rewrite append_no_bytes by done.
  rewrite decide_True by (cbn; lia). done.
Qed.

Lemma packs_seq a b m m' :
  bytes_ok a -> packs a m -> packs b m' -> packs (a ++ b) (m;; m').
Proof.
  intros Ha Hm Hm' s Hs Hc. rewrite length_app, Nat2Z.inj_add. intros Hw.
  specialize (Hm s Hs Hc ltac:(lia)). case_decide as Ela.
  - specialize (Hm' (append a s) (append_ok a s Hs Ha Ela) Hc).
    cbn [append AS.index AS.capacity AS.set_index AS.set_stor] in Hm'.
    specialize (Hm' ltac:(lia)). rewrite Z.add_assoc. rewrite (bind_val _ _ _ _ _ Hm).
    case_decide as Elb.
    + rewrite Hm'. by rewrite append_append by (rewrite ?length_app; done || lia).
    + destruct Hm' as (w & Hw1 & Hw2 & ->). exists (a ++ w). rewrite length_app.
      split_and!; [by apply Forall_app|lia|]. fold (append a s).
      by rewrite append_append by (rewrite ?length_app; done || lia).
  - rewrite decide_False by lia. destruct Hm as (w & Hw1 & Hw2 & Hm).
    exists w. split_and!; [done..|]. by apply bind_exn.
Qed.

Lemma packs_all vs : Forall cvalue_ok vs -> packs (encodings vs) (packAll vs).
Proof.
  induction 1 as [|v vs Hv _ IH]; [apply packs_nil|].
  change (encodings (v :: vs)) with (encoding v ++ encodings vs). cbn [packAll].
  apply packs_seq; [by apply encoding_ok|by apply packs_data|done].
Qed.

Lemma packs_id g : id_ok g -> packs (id_bytes g) (pack_id g).
Proof.
  intros [Hl Ho]. apply packs_seq; [apply be_bytes_ok|..].
  - exact (packs_data (Vnum Cuint8 (location g)) Hl).
  - exact (packs_data (Vnum Cuint16 (object g)) Ho).
Qed.

(** The announced room for a length mark. *)
Lemma startBigMark_run s :
  as_ok s -> AS.choked s = false -> AS.index s + 4 < 4294967296 ->
  AS.startBigMark s =
    if AS.capacity s <? AS.index s + 4
    then (Exn AmorphStoreBoundary, AS.set_choked true s)
    else (Val tt, AS.set_index (AS.index s + 4) (AS.set_mark_point (AS.index s) s)).
Proof.
  intros Hs Hc Hl. pose proof Hs as []. unfold AS.startBigMark, mbind, M_bind.
  rewrite check_room by (done || lia). rewrite Hc. cbn [orb].
  destruct (_ <? _); [done|]. unfold AS.advance. mrun.
  cbn [AS.index AS.set_mark_point]. by rewrite u32_id by (unfold is_u32; lia).
Qed.

Lemma hton_rep32_64 a b :
  0 <= a - b -> object_rep 4 (htonl (u64 (u32 (a - b) - 4))) = be_bytes 4 (a - b - 4).
Proof.
  intros. rewrite hton_rep32. unfold be_bytes.
  rewrite <- (le_bytes_u32 (u64 _)), <- (le_bytes_u32 (a - b - 4)).
  do 2 f_equal. width.
Qed.

(** Reading a [GlobalId] that lies ahead. *)
Lemma unpack_id_run g r rest :
  ars_ok r -> id_ok g ->
  drop (Z.to_nat (ARS.index r)) (ARS.stor r) = id_bytes g ++ rest ->
  ARS.index r + 3 <= ARS.fill_level r ->
  unpack_id r = (Val g, step_index 3 r).
Proof.
  intros Hr [Hl Ho] Hd Hf.
  pose proof (unPackAll_encoded [Vnum Cuint8 (location g); Vnum Cuint16 (object g)] r rest Hr
    ltac:(constructor; [exact Hl|constructor; [exact Ho|constructor]])) as Hu.
  specialize (Hu Hd Hf). cbn [fmap list_fmap typeof unPackAll unPackData] in Hu.
  change (Z.of_nat _) with 3 in Hu. revert Hu.
  unfold unpack_id, mbind, M_bind, fmap, M_fmap, mret, M_ret.
  destruct (ARS.unPackData_uint8 r) as [[l|?|?] r1]; try done.
  destruct (ARS.unPackData_uint16 r1) as [[o|?|?] r2]; try done.
  intros Hu. simplify_eq. by destruct g.
Qed.

Lemma unpack_uint16_run n r rest :
  ars_ok r -> is_u16 n ->
  drop (Z.to_nat (ARS.index r)) (ARS.stor r) = be_bytes 2 n ++ rest ->
  ARS.index r + 2 <= ARS.fill_level r ->
  ARS.unPackData_uint16 r = (Val n, step_index 2 r).
Proof.
  intros Hr Hn Hd Hl. pose proof (unPackData_encoded (Vnum Cuint16 n) r rest Hr Hn Hd Hl) as Hu.
  revert Hu. cbn [typeof unPackData]. rewrite fmap_run.
  change (esize _) with 2. destruct (ARS.unPackData_uint16 r) as [[]]; congruence.
Qed.
End Packs.

(** ** Reading what lies ahead *)

(** The unread bytes of a buffer. *)
Definition window (r : ARS.AmorphReStore) : list Z :=
  take (Z.to_nat (ARS.fill_level r - ARS.index r)) (drop (Z.to_nat (ARS.index r)) (ARS.stor r)).

Lemma window_length r : ars_ok r -> Z.of_nat (length (window r)) = ARS.fill_level r - ARS.index r.
Proof. intros []. unfold window. rewrite length_take, length_drop. lia. Qed.

Lemma window_ahead r :
  ars_ok r ->
  drop (Z.to_nat (ARS.index r)) (ARS.stor r) =
    window r ++ drop (Z.to_nat (ARS.fill_level r)) (ARS.stor r).
Proof.
  intros []. unfold window.
  rewrite <- (firstn_skipn (Z.to_nat (ARS.fill_level r - ARS.index r)) (drop _ _)) at 1.
  rewrite drop_drop. do 2 f_equal. lia.
Qed.

Lemma step_window r a b :
  ars_ok r -> window r = a ++ b -> window (step_index (Z.of_nat (length a)) r) = b.
Proof.
  intros Hr Hw. pose proof (window_length r Hr) as Hl. rewrite Hw, length_app in Hl.
  destruct Hr. unfold window, step_index in *. cbn.
  rewrite Z2Nat.inj_add, Nat2Z.id, <- drop_drop by lia.
  replace (Z.to_nat (ARS.fill_level r - (ARS.index r + Z.of_nat (length a))))
    with (Z.to_nat (ARS.fill_level r - ARS.index r) - length a)%nat by lia.
  by rewrite <- skipn_firstn_comm, Hw, drop_app_length.
Qed.

Lemma step_step a b r : step_index b (step_index a r) = step_index (a + b) r.
Proof. unfold step_index, ARS.set_index. cbn. by rewrite Z.add_assoc. Qed.

Lemma window_empty r : ars_ok r -> window r = [] -> ARS.fill_level r = ARS.index r.
Proof. intros Hr Hw. pose proof (window_length r Hr) as Hl. rewrite Hw in Hl. cbn in Hl. lia. Qed.

Lemma frames_length_le n ms : (length ms <= length (frames n ms))%nat.
Proof.
  induction ms as [|m ms IH]; [done|].
  change (frames n (m :: ms)) with (framed n m ++ frames n ms). rewrite length_app.
  pose proof (framed_length n m). cbn. lia.
Qed.

(** The parts of a message that lies ahead. *)
Lemma framed_ahead n r m rest :
  ars_ok r -> window r = framed n m ++ rest ->
  ARS.index r + 3 + Z.of_nat n + Z.of_nat (length m.2) <= ARS.fill_level r /\
  exists rest', drop (Z.to_nat (ARS.index r)) (ARS.stor r) =
      id_bytes m.1 ++ be_bytes n (Z.of_nat (length m.2)) ++ m.2 ++ rest' /\
    drop (Z.to_nat (ARS.index r + 3)) (ARS.stor r) =
      be_bytes n (Z.of_nat (length m.2)) ++ m.2 ++ rest' /\
    drop (Z.to_nat (ARS.index r + (3 + Z.of_nat n))) (ARS.stor r) = m.2 ++ rest'.
Proof.
  intros Hr Hw. pose proof (window_length r Hr) as Hl.
  rewrite Hw, length_app in Hl. pose proof (framed_length n m) as Hf.
  pose proof (window_ahead r Hr) as Ha. pose proof Hr as [].
  split; [lia|]. rewrite Hw in Ha. unfold framed in Ha. rewrite <- !app_assoc in Ha.
  eexists. split; [exact Ha|]. split.
  - rewrite Z2Nat.inj_add, <- drop_drop, Ha by lia. by rewrite drop_app_length'.
  - rewrite Z2Nat.inj_add, <- drop_drop, Ha by lia. rewrite app_assoc.
    by rewrite drop_app_length' by
      (rewrite length_app, be_bytes_length; change (length (id_bytes m.1)) with 3%nat; lia).
Qed.

(** *** Steps of a combined state *)

Lemma bind_on_restore {C A B} (m : M ARS.AmorphReStore A) (k : A -> M (C * ARS.AmorphReStore) B)
    (c : C) r a r' :
  m r = (Val a, r') -> (on_restore m ≫= k) (c, r) = k a (c, r').
Proof. intros Hm. unfold on_restore, mbind, M_bind. cbn. by rewrite Hm. Qed.

Lemma getSize_run r : ars_ok r -> ARS.getSize r = ARS.fill_level r - ARS.index r.
Proof. intros []. unfold ARS.getSize. by rewrite u32_id by (unfold is_u32; lia). Qed.

Lemma bind_on_store {E A} (m : M AS.AmorphStore unit) (k : unit -> M (E * AS.AmorphStore) A) (e : E) s s' :
  m s = (Val tt, s') -> (on_store m ≫= k) (e, s) = k tt (e, s').
Proof. intros Hm. unfold on_store, mbind, M_bind. cbn. by rewrite Hm. Qed.
Lemma bind_on_store_exn {E A} (m : M AS.AmorphStore unit) (k : unit -> M (E * AS.AmorphStore) A)
    (e : E) s x s' :
  m s = (Exn x, s') -> (on_store m ≫= k) (e, s) = (Exn x, (e, s')).
Proof. intros Hm. unfold on_store, mbind, M_bind. cbn. by rewrite Hm. Qed.

(** ** One set of data

    The two packers differ in the room they set aside for the length. *)

(** [m] sets [n] bytes aside or chokes the store. *)
Definition reserves {A} (n : Z) (m : M AS.AmorphStore A) : Prop :=
  0 <= n /\ forall s, as_ok s -> AS.choked s = false -> AS.index s + n < 4294967296 ->
    if AS.capacity s <? AS.index s + n
    then m s = (Exn AmorphStoreBoundary, AS.set_choked true s)
    else exists a s', m s = (Val a, s') /\ AS.stor s' = AS.stor s /\ AS.choked s' = false /\
      AS.capacity s' = AS.capacity s /\ AS.index s' = AS.index s + n.

Section OneSet.
Context `{BuildConfig} `{ChannelEntriesLaws E}.

Lemma reserved_ok n s s' :
  as_ok s -> 0 <= n -> AS.index s + n <= AS.capacity s ->
  AS.stor s' = AS.stor s -> AS.capacity s' = AS.capacity s -> AS.index s' = AS.index s + n ->
  as_ok s'.
Proof. intros [] Hn Hl Es Ec Ei. split; rewrite ?Ei, ?Ec, ?Es; done || lia. Qed.

Lemma set_fits {A} n (reserve : M AS.AmorphStore A) (k : A -> M (E * AS.AmorphStore) unit)
    e u m e' s :
  reserves n reserve -> sends e u m e' -> as_ok s -> AS.choked s = false ->
  AS.index s + 3 + n + Z.of_nat (length m.2) <= AS.capacity s ->
  exists a s2 e1,
    (on_store (pack_id m.1);; a ← on_store reserve; entry_packData u;; k a) (e, s)
      = k a (e1, append (m.2) s2) /\
    reserve (append (id_bytes m.1) s) = (Val a, s2) /\
    packComplete (entry u) (idx u) e1 = (Val tt, e').
Proof.
  intros [Hn Hres] Hu Hs Hc Hl. pose proof Hs as [].
  destruct (sends_message _ _ _ _ Hu) as [[Hid Hb] Eid].
  pose proof (packs_id (m.1) Hid s Hs Hc) as Hp.
  change (Z.of_nat (length (id_bytes m.1))) with 3 in Hp.
  specialize (Hp ltac:(lia)). rewrite decide_True in Hp by lia.
  pose proof (append_ok (id_bytes m.1) s Hs (id_bytes_ok _) ltac:(cbn; lia)) as Hs1.
  set (s1 := append (id_bytes m.1) s) in *.
  assert (AS.index s1 = AS.index s + 3) as Ei by done.
  assert (AS.capacity s1 = AS.capacity s) as Ec by done.
  specialize (Hres s1 Hs1 Hc ltac:(lia)). rewrite (proj2 (Z.ltb_ge _ _)) in Hres by lia.
  destruct Hres as (a & s2 & Hr & Es2 & Ec2 & Ecap2 & Ei2).
  assert (as_ok s2) as Hs2 by (apply (reserved_ok n s1); done || lia).
  destruct (pack_fits e u m e' s2 Hu Hs2 Ec2 ltac:(lia)) as (e1 & Hpk & Hcomp).
  exists a, s2, e1. split_and!; try done.
  erewrite bind_on_store by exact Hp.
  erewrite bind_val by (unfold on_store; cbn [fst snd]; rewrite Hr; reflexivity).
  by rewrite (bind_val _ _ _ _ _ Hpk).
Qed.

Lemma set_full {A} n (reserve : M AS.AmorphStore A) (k : A -> M (E * AS.AmorphStore) unit)
    e u m e' s :
  reserves n reserve -> sends e u m e' -> as_ok s -> AS.choked s = false ->
  AS.capacity s < AS.index s + 3 + n + Z.of_nat (length m.2) < 4294967296 ->
  exists e1 s',
    (on_store (pack_id m.1);; a ← on_store reserve; entry_packData u;; k a) (e, s)
      = (Exn AmorphStoreBoundary, (e1, s')) /\ clogged s s' /\
    exists e2, packFailed (entry u) (idx u) e1 = (Val tt, e2) /\
      forall m e', sends e u m e' -> sends e2 u m e'.
Proof.
  intros [Hn Hres] Hu Hs Hc Hl. pose proof Hs as [].
  destruct (sends_message _ _ _ _ Hu) as [[Hid Hb] Eid].
  destruct (pack_not_tried _ _ _ _ Hu) as (e2 & Hf & Hsend).
  pose proof (packs_id (m.1) Hid s Hs Hc) as Hp.
  change (Z.of_nat (length (id_bytes m.1))) with 3 in Hp.
  specialize (Hp ltac:(lia)). case_decide as E3.
  2: { destruct Hp as (w & Hw1 & Hw2 & Hp). exists e, (AS.set_choked true (append w s)).
       split; [by erewrite bind_on_store_exn|].
       split; [by apply clogged_append|by exists e2]. }
  pose proof (append_ok (id_bytes m.1) s Hs (id_bytes_ok _) E3) as Hs1.
  erewrite bind_on_store by exact Hp. set (s1 := append (id_bytes m.1) s) in *.
  assert (AS.index s1 = AS.index s + 3) as Ei by done.
  assert (AS.capacity s1 = AS.capacity s) as Ec by done.
  assert (forall s', clogged s1 s' -> clogged s s') as Htr.
  { intros s'. by apply clogged_trans, E3; [|apply id_bytes_ok]. }
  specialize (Hres s1 Hs1 Hc ltac:(lia)). destruct (_ <? _) eqn:E4 in Hres.
  { exists e, (AS.set_choked true s1).
    split; [by erewrite bind_exn by (unfold on_store; cbn [fst snd]; rewrite Hres; reflexivity)|].
    split; [by apply Htr, choked_clogged|by exists e2]. }
  apply Z.ltb_ge in E4. destruct Hres as (a & s2 & Hr & Es2 & Ec2 & Ecap2 & Ei2).
  erewrite bind_val by (unfold on_store; cbn [fst snd]; rewrite Hr; reflexivity).
  assert (as_ok s2) as Hs2 by (apply (reserved_ok n s1); done || lia).
  destruct (pack_full e u m e' s2 Hu Hs2 Ec2 ltac:(lia)) as (e1 & w & Hpk & Hw & Hwl & Hrest).
  exists e1, (AS.set_choked true (append w s2)).
  split; [by erewrite bind_exn|]. split; [apply Htr|done].
  by apply (clogged_skip n s1 s2), clogged_append; try done; lia.
Qed.

End OneSet.
