(* ===== verification/FillPack.v ===== *)
(** [dueca/FillPacker.cxx]: the packer that fills the room left in a message
    with bulk data, which it cuts wherever the room ends. *)

From S2P Require Import Prelude Bytes Amorph Transport.
#[local] Open Scope Z_scope.

Module FP.

Record FillPacker := mk {
  store : list AS.AmorphStore;
  store_to_fill : nat;
  store_to_send : nat;
  bytes_to_send : Z;
  index_to_send : Z;
  buffer_size : Z;
  work_queue : list PackUnit;
  (** calls of [CriticalActivity::criticalErrorNodeWide] *)
  critical_errors : Z
}.

Definition no_of_stores : nat := 2.

Definition set_store (l : list AS.AmorphStore) (p : FillPacker) : FillPacker :=
  mk l (store_to_fill p) (store_to_send p) (bytes_to_send p) (index_to_send p)
    (buffer_size p) (work_queue p) (critical_errors p).
Definition set_sending (fl snd : nat) (bytes i : Z) (p : FillPacker) : FillPacker :=
  mk (store p) fl snd bytes i (buffer_size p) (work_queue p) (critical_errors p).
Definition set_queue (q : list PackUnit) (p : FillPacker) : FillPacker :=
  mk (store p) (store_to_fill p) (store_to_send p) (bytes_to_send p) (index_to_send p)
    (buffer_size p) q (critical_errors p).
Definition add_error (p : FillPacker) : FillPacker :=
  mk (store p) (store_to_fill p) (store_to_send p) (bytes_to_send p) (index_to_send p)
    (buffer_size p) (work_queue p) (critical_errors p + 1).

(** The constructor; [index_to_send] and the marks are not set, [index0] and
    [mark0] are their contents. *)
Definition make (index0 mark0 : Z) : FillPacker :=
  mk [AS.make_empty mark0; AS.make_empty mark0] 0 0 0 index0 512 [] 0.

Section FillPacker.
Context `{BuildConfig} `{ChannelEntries E}.
Abbreviation W := (E * FillPacker)%type.

Definition on_packer {A} (m : M FillPacker A) : M W A := fun w =>
  let (r, p) := m w.2 in (r, (w.1, p)).
Definition on_entry {A} (m : M E A) : M W A := fun w =>
  let (r, e) := m w.1 in (r, (e, w.2)).

(** [store[k]], with the entries at hand. *)
Definition in_store {A} (k : nat) (m : M (E * AS.AmorphStore) A) : M W A := fun w =>
  match store w.2 !! k with
  | Some s => let '(r, (e, s')) := m (w.1, s) in (r, (e, set_store (<[k:=s']> (store w.2)) w.2))
  | None => (Stuck OutOfBounds, w)
  end.
Definition the_store (k : nat) : M W AS.AmorphStore := fun w =>
  match store w.2 !! k with
  | Some s => (Val s, w)
  | None => (Stuck OutOfBounds, w)
  end.

(** [complete()]; [fresh] are the two arrays [new] returns. *)
Definition complete (fresh : list Z * list Z) : M W bool :=
  p ← gets snd;
  if buffer_size p <? 256 then mret false
  else
    in_store 1 (on_store (AS.renewBuffer fresh.2 (buffer_size p);; AS.reUse));;
    in_store 0 (on_store (AS.renewBuffer fresh.1 (buffer_size p);; AS.reUse));;
    mret true.

Definition packOneSet (c : PackUnit) : M (E * AS.AmorphStore) unit :=
  e ← gets fst;
  on_store (pack_id (getChannelId e (entry c)));;
  on_store AS.startBigMark;;
  entry_packData c;;
  on_store AS.endBigMark.

Definition pop : M W unit :=
  on_packer (modify (fun p => set_queue (tail (work_queue p)) p)).

(** The handler of [AmorphStoreBoundary]. *)
Definition not_packed (c : PackUnit) (old_level : Z) : M W unit :=
  (if old_level =? 0 then
     on_entry (packComplete (entry c) (idx c));;
     pop;;
     on_packer (modify add_error)
   else on_entry (packFailed (entry c) (idx c)));;
  k ← gets (fun w => store_to_fill w.2);
  in_store k (on_store (AS.setSize old_level)).

(** One set of data, within the [try]: false when it did not fit. *)
Definition try_one (c : PackUnit) (old_level : Z) : M W bool :=
  k ← gets (fun w => store_to_fill w.2);
  catch
    (in_store k (packOneSet c);; on_entry (packComplete (entry c) (idx c));; mret true)
    (fun e => match e with
              | AmorphStoreBoundary => not_packed c old_level;; mret false
              | e => throw e
              end).

(** The loop of [packWork]: [old_level] is the level at the last complete set.
    An exception ends the loop, whose handler the [try] around it is. *)
Fixpoint pack_loop (turns : nat) (old_level : Z) : M W unit :=
  match turns with
  | O => stuck OutOfFuel
  | S turns =>
      p ← gets snd;
      s ← the_store (store_to_fill p);
      match work_queue p with
      | c :: _ =>
          if AS.choked s then mret tt
          else
            done ← try_one c old_level;
            if done : bool then
              s ← the_store (store_to_fill p);
              pop;;
              pack_loop turns (AS.getSize s)
            else mret tt
      | [] => mret tt
      end
  end.

Definition packWork : M W unit :=
  p ← gets snd;
  s ← the_store (store_to_fill p);
  pack_loop (S (length (work_queue p))) (AS.getSize s).

(** The switch to the other store, once there is nothing left to send. *)
Definition next_store : M W unit :=
  p ← gets snd;
  if bytes_to_send p =? 0 then
    s ← the_store (store_to_fill p);
    if negb (AS.getSize s =? 0) then
      let k := if bool_decide (S (store_to_fill p) = no_of_stores)
               then 0%nat else S (store_to_fill p) in
      on_packer (modify (set_sending k (store_to_fill p) (AS.getSize s) 0));;
      in_store k (on_store AS.reUse)
    else mret tt
  else mret tt.

Definition MIN_FILL : Z := 32.

(** The result is what is copied to the front of [buff]; its length is the
    number returned.  [FILLPACKER_SEND_ID] is off. *)
Definition stuffMessage (size : Z) : M W (list Z) :=
  packWork;;
  next_store;;
  p ← gets snd;
  if (bytes_to_send p =? 0) || (size <? MIN_FILL) then mret []
  else
    let send_size := Z.min size (bytes_to_send p) in
    s ← the_store (store_to_send p);
    bs ← of_option OutOfBounds
           (read_at (index_to_send p) (Z.to_nat send_size) (AS.stor s));
    on_packer (modify (set_sending (store_to_fill p) (store_to_send p)
      (bytes_to_send p - send_size) (index_to_send p + send_size)));;
    mret bs.

End FillPacker.

(** ** Behaviour *)

Section Behaviour.
Context `{BuildConfig} `{ChannelEntriesLaws E}.
Implicit Types (e : E) (p : FillPacker).

Lemma endBigMark_run s m :
  as_ok s -> AS.index s + 4 + Z.of_nat (length m) <= AS.capacity s ->
  AS.endBigMark (append m
    (AS.set_index (AS.index s + 4) (AS.set_mark_point (AS.index s) s)))
  = (Val tt, AS.set_mark_point 0
      (append (be_bytes 4 (Z.of_nat (length m)) ++ m) s)).
Proof.
  intros Hs Hl. pose proof Hs as []. unfold AS.endBigMark, mbind, M_bind, get.
  cbn [append AS.set_index AS.set_stor AS.mark_point AS.index AS.set_mark_point].
  rewrite hton_rep32_64 by lia.
  replace (AS.index s + 4 + Z.of_nat (length m) - AS.index s - 4)
    with (Z.of_nat (length m)) by lia.
  pose proof (mark_close (be_bytes 4 (Z.of_nat (length m))) m
    (AS.set_mark_point (AS.index s) s)) as Hm.
  rewrite length_app, be_bytes_length in Hm.
  cbn [AS.set_mark_point AS.index AS.capacity] in Hm. change (Z.of_nat 4) with 4 in Hm.
  unfold append in Hm |- *.
  cbn [AS.set_index AS.set_stor AS.mark_point AS.index AS.set_mark_point AS.stor
    AS.capacity AS.self_claimed AS.choked] in Hm |- *.
  rewrite Hm; [done|by split|apply be_bytes_ok|lia].
Qed.

Lemma startBigMark_reserves : reserves 4 AS.startBigMark.
Proof.
  split; [done|]. intros s Hs Hc Hl. rewrite startBigMark_run by done.
  destruct (_ <? _); [done|]. by eexists _, _.
Qed.

Lemma fill_packOneSet_shape u e s g :
  g = getChannelId e (entry u) ->
  packOneSet u (e, s) = (on_store (pack_id g);; _ ← on_store AS.startBigMark;
    entry_packData u;; on_store AS.endBigMark) (e, s).
Proof. by intros ->. Qed.

Lemma fill_packOneSet_fits e u m e' s :
  sends e u m e' -> as_ok s -> AS.choked s = false ->
  AS.index s + Z.of_nat (length (framed 4 m)) <= AS.capacity s ->
  exists e1, packOneSet u (e, s) = (Val tt, (e1, AS.set_mark_point 0 (append (framed 4 m) s)))
    /\ packComplete (entry u) (idx u) e1 = (Val tt, e').
Proof.
  intros Hu Hs Hc. rewrite framed_length. intros Hl. pose proof Hs as [].
  destruct (sends_message _ _ _ _ Hu) as [[Hid Hb] Eid].
  destruct (set_fits 4 AS.startBigMark (fun _ => on_store AS.endBigMark) e u m e' s
    startBigMark_reserves Hu Hs Hc ltac:(lia)) as ([] & s2 & e1 & Hrun & Hres & Hcomp).
  exists e1. split; [|done]. rewrite (fill_packOneSet_shape u e s (m.1)) by done. rewrite Hrun.
  pose proof (append_ok (id_bytes m.1) s Hs (id_bytes_ok _) ltac:(cbn; lia)) as Hs1.
  set (s1 := append (id_bytes m.1) s) in *.
  assert (AS.index s1 = AS.index s + 3) as Ei by done.
  assert (AS.capacity s1 = AS.capacity s) as Ec by done.
  rewrite startBigMark_run, (proj2 (Z.ltb_ge _ _)) in Hres by (done || lia).
  assert (s2 = AS.set_index (AS.index s1 + 4) (AS.set_mark_point (AS.index s1) s1)) as ->
    by congruence.
  unfold on_store. cbn [fst snd]. rewrite endBigMark_run by (done || lia).
  unfold s1. rewrite append_append; [done|done|].
  rewrite !length_app, be_bytes_length. change (length (id_bytes m.1)) with 3%nat. lia.
Qed.

Lemma fill_packOneSet_full e u m e' s :
  sends e u m e' -> as_ok s -> AS.choked s = false ->
  AS.capacity s < AS.index s + Z.of_nat (length (framed 4 m)) < 4294967296 ->
  exists e1 s', packOneSet u (e, s) = (Exn AmorphStoreBoundary, (e1, s')) /\ clogged s s' /\
    exists e2, packFailed (entry u) (idx u) e1 = (Val tt, e2) /\
      forall m e', sends e u m e' -> sends e2 u m e'.
Proof.
  intros Hu Hs Hc. rewrite framed_length. intros Hl.
  destruct (sends_message _ _ _ _ Hu) as [_ Eid]. rewrite (fill_packOneSet_shape u e s (m.1)) by done.
  apply (set_full 4) with e'; try done; [apply startBigMark_reserves|lia].
Qed.

(** *** The state of a packer

    [pend] are the messages in the store that is filled, [unsent] what is left
    of the other one; [N] is the size of the stores. *)
Record fp_ok (N : Z) p (pend : list Message) (unsent : list Z) : Prop := {
  fp_two : length (store p) = 2%nat;
  fp_each k s : store p !! k = Some s -> as_ok s /\ AS.capacity s = N;
  fp_pend : exists s, store p !! store_to_fill p = Some s /\ contents s = frames 4 pend /\
    (AS.choked s = true -> pend <> []);
  fp_bytes : bytes_to_send p = Z.of_nat (length unsent);
  fp_unsent : unsent <> [] -> store_to_send p <> store_to_fill p /\
    exists s, store p !! store_to_send p = Some s /\ 0 <= index_to_send p /\
      read_at (index_to_send p) (length unsent) (AS.stor s) = Some unsent
}.

Definition fits (N : Z) (m : Message) : Prop := 7 + Z.of_nat (length m.2) <= N.

Lemma in_store_run {A} k (m : M (E * AS.AmorphStore) A) e p s r e' s' :
  store p !! k = Some s -> m (e, s) = (r, (e', s')) ->
  in_store k m (e, p) = (r, (e', set_store (<[k:=s']> (store p)) p)).
Proof. intros Hk Hm. unfold in_store. cbn. by rewrite Hk, Hm. Qed.

Lemma the_store_run k e p s :
  store p !! k = Some s -> the_store k (e, p) = (Val s, (e, p)).
Proof. intros Hk. unfold the_store. cbn. by rewrite Hk. Qed.
Lemma in_store_on {A} k (m : M AS.AmorphStore A) e p s r s' :
  store p !! k = Some s -> m s = (r, s') ->
  in_store k (on_store m) (e, p) = (r, (e, set_store (<[k:=s']> (store p)) p)).
Proof. intros Hk Hm. apply in_store_run with s; [done|]. unfold on_store. cbn. by rewrite Hm. Qed.

(** The store that is filled gets a new state. *)
Lemma fp_refill N p pend unsent s' pend' q :
  fp_ok N p pend unsent -> as_ok s' -> AS.capacity s' = N ->
  contents s' = frames 4 pend' -> (AS.choked s' = true -> pend' <> []) ->
  fp_ok N (set_queue q (set_store (<[store_to_fill p:=s']> (store p)) p)) pend' unsent.
Proof.
  intros [] Hs Hc Hb Hk. destruct fp_pend0 as (s & Hl & _).
  apply lookup_lt_Some in Hl. split; cbn.
  - by rewrite length_insert.
  - intros k s1. rewrite list_lookup_insert. case_decide; [|apply fp_each0].
    intros. by simplify_eq.
  - exists s'. by rewrite list_lookup_insert_eq.
  - done.
  - intros Hu. destruct (fp_unsent0 Hu) as (Hn & s1 & Hs1 & Hi & Hr). split; [done|].
    exists s1. by rewrite list_lookup_insert_ne.
Qed.

(** The handler, for a message that does not fit behind others. *)
Lemma not_packed_run N p pend unsent e e1 u s s1 e2 :
  fp_ok N p pend unsent -> pend <> [] ->
  store p !! store_to_fill p = Some s -> contents s = frames 4 pend -> clogged s s1 ->
  packFailed (entry u) (idx u) e1 = (Val tt, e2) ->
  exists p1,
    not_packed u (Z.of_nat (length (frames 4 pend)))
      (e1, set_store (<[store_to_fill p:=s1]> (store p)) p) = (Val tt, (e2, p1)) /\
    fp_ok N p1 pend unsent /\ work_queue p1 = work_queue p /\
    critical_errors p1 = critical_errors p.
Proof.
  intros Hp Hne Hs Hb Hk Hf. destruct (fp_each _ _ _ _ Hp _ _ Hs) as [Has Hcap].
  pose proof (contents_length s Has) as Hi. rewrite Hb in Hi.
  destruct (setSize_clogged _ _ Has Hk) as [Has' Hb'].
  unfold not_packed. destruct (Z.eqb_spec (Z.of_nat (length (frames 4 pend))) 0) as [E0|_].
  { exfalso. apply Hne, (frames_empty 4). apply length_zero_iff_nil. lia. }
  unfold on_entry, gets, mbind, M_bind. cbn [fst snd]. rewrite Hf. cbn [fst snd].
  pose proof (lookup_lt_Some _ _ _ Hs) as Hlt.
  erewrite in_store_on; [|cbn; by apply list_lookup_insert_eq|reflexivity].
  cbn [store set_store store_to_fill]. rewrite list_insert_insert_eq, Hi.
  exists (set_queue (work_queue p)
    (set_store (<[store_to_fill p:=AS.set_index (AS.index s) s1]> (store p)) p)).
  split; [by destruct p|]. split; [|done].
  apply (fp_refill N p pend unsent _ pend (work_queue p)); try done.
  - destruct Hk as (_ & Hc & _). cbn. by rewrite Hc.
  - by rewrite Hb'.
Qed.

Lemma fill_try_one_fits u old_level e e1 p s m :
  store p !! store_to_fill p = Some s -> sends e u m e1 -> as_ok s -> AS.choked s = false ->
  AS.index s + Z.of_nat (length (framed 4 m)) <= AS.capacity s ->
  try_one u old_level (e, p) = (Val true, (e1, set_store
    (<[store_to_fill p:=AS.set_mark_point 0 (append (framed 4 m) s)]> (store p)) p)).
Proof.
  intros Hs Hu Has Hc Hl.
  destruct (fill_packOneSet_fits _ _ _ _ s Hu Has Hc Hl) as (e2 & Hpk & Hcomp).
  unfold try_one. erewrite bind_val by done. cbn [snd]. unfold catch.
  erewrite bind_val by (eapply in_store_run; done).
  unfold on_entry, mbind, M_bind. cbn [fst snd]. by rewrite Hcomp.
Qed.

Lemma fill_try_one_full N pend unsent e u m e' p s :
  fp_ok N p pend unsent -> pend <> [] -> N < 2147483648 -> fits N m ->
  store p !! store_to_fill p = Some s -> contents s = frames 4 pend -> sends e u m e' ->
  AS.choked s = false ->
  AS.capacity s < AS.index s + Z.of_nat (length (framed 4 m)) < 4294967296 ->
  exists e2 p1,
    try_one u (Z.of_nat (length (frames 4 pend))) (e, p) = (Val false, (e2, p1)) /\
    fp_ok N p1 pend unsent /\ work_queue p1 = work_queue p /\
    critical_errors p1 = critical_errors p /\
    forall m e', sends e u m e' -> sends e2 u m e'.
Proof.
  intros Hp Hne HN Hm Hs Hb Hu Hc Hl. destruct (fp_each _ _ _ _ Hp _ _ Hs) as [Has Hcap].
  destruct (fill_packOneSet_full _ _ _ _ s Hu Has Hc Hl) as (e1 & s1 & Hpk & Hcl & e2 & Hf & Hsend).
  destruct (not_packed_run _ _ _ _ e e1 u s s1 e2 Hp Hne Hs Hb Hcl Hf)
    as (p1 & Hrun & Hp1 & Hq1 & Hc1).
  exists e2, p1. split_and!; try done.
  unfold try_one. erewrite bind_val by done. cbn [snd]. unfold catch.
  erewrite bind_exn by (eapply in_store_run; done).
  cbv beta iota. by erewrite bind_val by exact Hrun.
Qed.

Lemma fill_pack_loop_run N unsent e' us turns : forall e p ms pend,
  N < 2147483648 -> (length us < turns)%nat ->
  fp_ok N p pend unsent -> work_queue p = us -> script e us ms e' -> Forall (fits N) ms ->
  exists e1 p1 ms1 ms2,
    pack_loop turns (Z.of_nat (length (frames 4 pend))) (e, p) = (Val tt, (e1, p1)) /\
    ms = ms1 ++ ms2 /\ fp_ok N p1 (pend ++ ms1) unsent /\
    script e1 (work_queue p1) ms2 e' /\ (pend ++ ms1 = [] -> ms2 = []) /\
    critical_errors p1 = critical_errors p.
Proof.
  revert turns. induction us as [|u us IH]; intros turns e p ms pend HN Ht Hp Hq Hsc Hfit;
    (destruct turns as [|turns]; [cbn in Ht; lia|]); cbn [pack_loop].
  - inversion Hsc; subst. erewrite bind_val by done. cbn [snd].
    destruct (fp_pend _ _ _ _ Hp) as (s & Hs & Hb & Hk).
    rewrite (bind_val _ _ _ _ _ (the_store_run _ _ _ _ Hs)), Hq.
    exists e', p, [], []. rewrite !app_nil_r. split_and!; try done.
    rewrite Hq. constructor.
  - inversion Hsc as [|? ? m e1 ? ms' ? Hu Hrest]; subst.
    inversion Hfit as [|? ? Hm Hfit']; subst.
    erewrite bind_val by done. cbn [snd].
    destruct (fp_pend _ _ _ _ Hp) as (s & Hs & Hb & Hk).
    destruct (fp_each _ _ _ _ Hp _ _ Hs) as [Has Hcap].
    pose proof (contents_length s Has) as Hi. rewrite Hb in Hi.
    pose proof (lookup_lt_Some _ _ _ Hs) as Hlt.
    rewrite (bind_val _ _ _ _ _ (the_store_run _ _ _ _ Hs)), Hq.
    destruct (AS.choked s) eqn:Ec.
    { exists e, p, [], (m :: ms'). rewrite app_nil_r. split_and!; try done.
      - rewrite Hq. by econstructor.
      - intros ->. by specialize (Hk eq_refl). }
    unfold fits in Hm. pose proof (framed_length 4 m) as Hfl.
    destruct (decide (AS.index s + Z.of_nat (length (framed 4 m)) <= AS.capacity s)) as [Hfits|Hfull].
    + rewrite (bind_val _ _ _ _ _ (fill_try_one_fits u _ _ _ _ _ _ Hs Hu Has Ec Hfits)).
      set (s' := AS.set_mark_point 0 (append (framed 4 m) s)).
      assert (as_ok s') as Has'.
      { destruct (sends_message _ _ _ _ Hu) as [[_ Hb2] _].
        destruct (append_ok _ s Has (framed_ok 4 m Hb2) Hfits). by split. }
      assert (contents s' = frames 4 (pend ++ [m])) as Hb'.
      { change (contents s') with (contents (append (framed 4 m) s)).
        rewrite contents_append, Hb, frames_app by done. unfold frames at 3. cbn.
        by rewrite app_nil_r. }
      destruct (IH turns e1 (set_queue us (set_store (<[store_to_fill p:=s']> (store p)) p))
        ms' (pend ++ [m])) as (e3 & p1 & ms1 & ms2 & Hrun & -> & Hp1 & Hsc1 & Hpr & Hce);
        try done; [cbn in Ht; lia|..].
      { apply (fp_refill N p pend unsent); try done. cbn. by rewrite Ec. }
      exists e3, p1, (m :: ms1), ms2. rewrite <- app_assoc in Hp1, Hpr. split_and!; try done.
      rewrite <- Hrun, <- Hb', contents_length by done.
      erewrite bind_val by (apply the_store_run; cbn; by apply list_lookup_insert_eq).
      unfold pop, on_packer, modify, mbind, M_bind. cbn [fst snd work_queue set_store].
      by rewrite Hq.
    + destruct (decide (pend = [])) as [->|Hne].
      { cbn in Hi. rewrite Hfl in Hfull. lia. }
      destruct (fill_try_one_full N pend unsent e u m e1 p s) as (e2 & p1 & Hrun & Hp1 & Hq1 & Hc1 & Hsend);
        try done; [destruct Has; lia|].
      rewrite (bind_val _ _ _ _ _ Hrun).
      exists e2, p1, [], (m :: ms'). rewrite !app_nil_r. split_and!; try done.
      rewrite Hq1, Hq. econstructor; [by apply Hsend|done].
Qed.

Lemma packWork_run N unsent e' e p ms pend :
  N < 2147483648 -> fp_ok N p pend unsent ->
  script e (work_queue p) ms e' -> Forall (fits N) ms ->
  exists e1 p1 ms1 ms2,
    packWork (e, p) = (Val tt, (e1, p1)) /\
    ms = ms1 ++ ms2 /\ fp_ok N p1 (pend ++ ms1) unsent /\
    script e1 (work_queue p1) ms2 e' /\ (pend ++ ms1 = [] -> ms2 = []) /\
    critical_errors p1 = critical_errors p.
Proof.
  intros HN Hp Hsc Hfit. destruct (fp_pend _ _ _ _ Hp) as (s & Hs & Hb & Hk).
  destruct (fp_each _ _ _ _ Hp _ _ Hs) as [Has _].
  unfold packWork. erewrite bind_val by done. cbn [snd].
  rewrite (bind_val _ _ _ _ _ (the_store_run _ _ _ _ Hs)).
  unfold AS.getSize. rewrite <- contents_length, Hb by done.
  eapply fill_pack_loop_run; try done; lia.
Qed.

(** What is left to send, and what waits behind it, after the switch. *)
Definition to_send (pend : list Message) (unsent : list Z) : list Z :=
  if decide (unsent = []) then frames 4 pend else unsent.
Definition to_wait (pend : list Message) (unsent : list Z) : list Message :=
  if decide (unsent = []) then [] else pend.

Lemma read_contents s :
  as_ok s -> read_at 0 (length (contents s)) (AS.stor s) = Some (contents s).
Proof.
  intros Hs. pose proof (contents_length s Hs) as Hl. destruct Hs.
  rewrite read_at_some by lia. cbn. f_equal.
  unfold contents at 2. f_equal. lia.
Qed.

Lemma next_store_run N p e pend unsent :
  fp_ok N p pend unsent ->
  exists p1, next_store (e, p) = (Val tt, (e, p1)) /\
    fp_ok N p1 (to_wait pend unsent) (to_send pend unsent) /\
    work_queue p1 = work_queue p /\ critical_errors p1 = critical_errors p.
Proof.
  intros Hp. destruct (fp_pend _ _ _ _ Hp) as (s & Hs & Hb & Hk).
  destruct (fp_each _ _ _ _ Hp _ _ Hs) as [Has Hcap].
  pose proof (contents_length s Has) as Hi.
  unfold next_store, to_wait, to_send. erewrite bind_val by done. cbn [snd].
  rewrite (fp_bytes _ _ _ _ Hp). destruct unsent as [|x unsent]; cycle 1.
  { rewrite (proj2 (Z.eqb_neq _ _)) by (cbn; lia). exists p. by case_decide. }
  rewrite decide_True, decide_True by done.
  change (Z.of_nat (length (@nil Z)) =? 0) with true. cbv iota.
  rewrite (bind_val _ _ _ _ _ (the_store_run _ _ _ _ Hs)). unfold AS.getSize.
  destruct (Z.eqb_spec (AS.index s) 0) as [E0|E0]; cbn [negb].
  { assert (pend = []) as ->.
    { apply (frames_empty 4). rewrite <- Hb. apply length_zero_iff_nil. lia. }
    exists p. split_and!; try done. }
  pose proof (lookup_lt_Some _ _ _ Hs) as Hlt. rewrite (fp_two _ _ _ _ Hp) in Hlt.
  set (k := if bool_decide (S (store_to_fill p) = no_of_stores) then 0%nat
            else S (store_to_fill p)).
  assert (k <> store_to_fill p /\ (k < 2)%nat) as [Hne Hk2].
  { unfold k, no_of_stores. case_bool_decide; lia. }
  destruct (lookup_lt_is_Some_2 (store p) k) as [s1 Hs1]; [by rewrite (fp_two _ _ _ _ Hp)|].
  destruct (fp_each _ _ _ _ Hp _ _ Hs1) as [Has1 Hcap1].
  exists (set_store (<[k:=AS.set_choked false (AS.set_index 0 s1)]> (store p))
    (set_sending k (store_to_fill p) (AS.index s) 0 p)).
  split.
  { unfold on_packer, modify, mbind, M_bind. cbn [fst snd].
    by erewrite in_store_on by done. }
  split; [|done]. split; cbn.
  - rewrite length_insert. apply (fp_two _ _ _ _ Hp).
  - intros j s2. rewrite list_lookup_insert. case_decide; [|apply (fp_each _ _ _ _ Hp)].
    intros. simplify_eq. split; [|done]. destruct Has1. split; cbn; done || lia.
  - eexists. split; [apply list_lookup_insert_eq; by rewrite (fp_two _ _ _ _ Hp)|].
    by split.
  - by rewrite <- Hb, Hi.
  - intros _. split; [done|]. exists s. rewrite list_lookup_insert_ne by done.
    split_and!; [done|done|]. rewrite <- Hb. by apply read_contents.
Qed.

(** The number of bytes [stuffMessage] adds. *)
Definition portion (size : Z) (bs : list Z) : nat :=
  if size <? MIN_FILL then 0 else Z.to_nat (Z.min size (Z.of_nat (length bs))).

Lemma read_at_split i n k b bs :
  0 <= i -> read_at i n b = Some bs -> (k <= n)%nat ->
  read_at i k b = Some (take k bs) /\ read_at (i + Z.of_nat k) (n - k) b = Some (drop k bs).
Proof.
  intros Hi Hr Hk. pose proof (read_at_length _ _ _ _ Hr) as Hl. revert Hr. unfold read_at.
  case_decide as El; [|done]. intros Hb. injection Hb as Hb.
  rewrite !decide_True by lia. rewrite <- Hb. rewrite take_take, Nat.min_l by lia. split; [done|].
  rewrite Z2Nat.inj_add, Nat2Z.id, <- drop_drop, skipn_firstn_comm by lia. done.
Qed.

(** Taking the first bytes off what is to be sent. *)
Lemma send_run N p e pend bs size :
  fp_ok N p pend bs ->
  exists p1,
    (if (bytes_to_send p =? 0) || (size <? MIN_FILL) then mret []
     else
       s ← the_store (store_to_send p);
       b ← of_option OutOfBounds (read_at (index_to_send p)
             (Z.to_nat (Z.min size (bytes_to_send p))) (AS.stor s));
       on_packer (modify (set_sending (store_to_fill p) (store_to_send p)
         (bytes_to_send p - Z.min size (bytes_to_send p))
         (index_to_send p + Z.min size (bytes_to_send p))));;
       mret b) (e, p) = (Val (take (portion size bs) bs), (e, p1)) /\
    fp_ok N p1 pend (drop (portion size bs) bs) /\
    work_queue p1 = work_queue p /\ critical_errors p1 = critical_errors p.
Proof.
  intros Hp. unfold portion. rewrite (fp_bytes _ _ _ _ Hp).
  destruct (decide (bs = [])) as [->|Hne].
  { exists p. by destruct (size <? MIN_FILL), (Z.to_nat _). }
  assert (0 < length bs)%nat as Hpos by (destruct bs; [done|cbn; lia]).
  rewrite (proj2 (Z.eqb_neq _ _)) by lia. cbn [orb].
  destruct (Z.ltb_spec size MIN_FILL) as [|Hsz]; [by exists p|]. unfold MIN_FILL in Hsz.
  destruct (fp_unsent _ _ _ _ Hp Hne) as (Hn & s & Hs & Hi & Hr).
  set (k := Z.min size (Z.of_nat (length bs))).
  destruct (read_at_split _ _ (Z.to_nat k) _ _ Hi Hr ltac:(lia)) as [Hr1 Hr2].
  rewrite (bind_val _ _ _ _ _ (the_store_run _ _ _ _ Hs)), Hr1.
  exists (set_sending (store_to_fill p) (store_to_send p) (Z.of_nat (length bs) - k)
    (index_to_send p + k) p).
  split; [done|]. split; [|done]. split; cbn; try apply Hp.
  - rewrite length_drop. lia.
  - intros _. split; [done|]. exists s. split_and!; [done|lia|].
    rewrite length_drop. rewrite <- Hr2. f_equal. lia.
Qed.

(** The waiting messages lie in one store. *)
Lemma fp_pend_length N p pend unsent :
  fp_ok N p pend unsent -> Z.of_nat (length (frames 4 pend)) <= N.
Proof.
  intros Hp. destruct (fp_pend _ _ _ _ Hp) as (s & Hs & Hc & _).
  destruct (fp_each _ _ _ _ Hp _ _ Hs) as [Hok <-].
  rewrite <- Hc, contents_length by done. apply Hok.
Qed.

Lemma stuffMessage_run N unsent e' e p ms pend size :
  N < 2147483648 -> fp_ok N p pend unsent ->
  script e (work_queue p) ms e' -> Forall (fits N) ms ->
  exists e1 p1 ms1 ms2,
    let out := to_send (pend ++ ms1) unsent in
    stuffMessage size (e, p) = (Val (take (portion size out) out), (e1, p1)) /\
    ms = ms1 ++ ms2 /\
    fp_ok N p1 (to_wait (pend ++ ms1) unsent) (drop (portion size out) out) /\
    script e1 (work_queue p1) ms2 e' /\ (pend ++ ms1 = [] -> ms2 = []) /\
    Z.of_nat (length (frames 4 (pend ++ ms1))) <= N /\
    critical_errors p1 = critical_errors p.
Proof.
  intros HN Hp Hsc Hfit.
  destruct (packWork_run N unsent e' e p ms pend HN Hp Hsc Hfit)
    as (e1 & p1 & ms1 & ms2 & Hrun & -> & Hp1 & Hsc1 & Hpr & Hce).
  destruct (next_store_run N p1 e1 _ _ Hp1) as (p2 & Hnext & Hp2 & Hq2 & Hc2).
  destruct (send_run N p2 e1 _ _ size Hp2) as (p3 & Hsend & Hp3 & Hq3 & Hc3).
  exists e1, p3, ms1, ms2. cbv zeta. split_and!; try done.
  - unfold stuffMessage. rewrite (bind_val _ _ _ _ _ Hrun), (bind_val _ _ _ _ _ Hnext).
    erewrite bind_val by done. exact Hsend.
  - by rewrite Hq3, Hq2.
  - by eapply fp_pend_length.
  - congruence.
Qed.

(** The packer as [complete] leaves it. *)
Lemma fill_complete_run N index0 mark0 q errors fresh e :
  256 <= N < 4294967296 ->
  Z.of_nat (length fresh.1) = N -> Z.of_nat (length fresh.2) = N ->
  bytes_ok fresh.1 -> bytes_ok fresh.2 ->
  let p := mk [AS.make_empty mark0; AS.make_empty mark0] 0 0 0 index0 N q errors in
  exists p', complete fresh (e, p) = (Val true, (e, p')) /\ fp_ok N p' [] [] /\
    work_queue p' = q /\ critical_errors p' = errors.
Proof.
  intros HN Hl1 Hl2 Hb1 Hb2 p. eexists. split_and!.
  - unfold complete. erewrite bind_val by reflexivity. cbn [buffer_size snd p].
    rewrite (proj2 (Z.ltb_ge _ _)) by lia. reflexivity.
  - split; cbn; try done.
    + intros [|[|k]] s Hs; cbn in Hs; [injection Hs as <-..|done];
        (split; [split; cbn; lia || done|done]).
    + eexists. split_and!; [done|done|]. by cbn.
  - done.
  - done.
Qed.

End Behaviour.
End FP.
