(* ===== verification/FillUnpack.v ===== *)
(** [dueca/FillUnpacker.cxx]: puts the pieces a [FillPacker] cut its data into
    together again, one buffer per sender, and hands the messages that are
    complete to their channels. *)

From S2P Require Import Prelude Bytes Amorph MessageBuffer Transport.
#[local] Open Scope Z_scope.

Module FU.

(** [buffer[ii]] is the array [amorph_store[ii]] reads from: it is kept there
    only.  [work] holds pointers into the pool of the accessor. *)
Record FillUnpacker := mk {
  amorph_store : list ARS.AmorphReStore;
  countcheck : list Z;
  buffer_size : Z;
  work : list nat;
  critical_errors : Z
}.

Definition set_store (l : list ARS.AmorphReStore) (p : FillUnpacker) : FillUnpacker :=
  mk l (countcheck p) (buffer_size p) (work p) (critical_errors p).
Definition set_countcheck (l : list Z) (p : FillUnpacker) : FillUnpacker :=
  mk (amorph_store p) l (buffer_size p) (work p) (critical_errors p).
Definition set_work (l : list nat) (p : FillUnpacker) : FillUnpacker :=
  mk (amorph_store p) (countcheck p) (buffer_size p) l (critical_errors p).
Definition add_error (p : FillUnpacker) : FillUnpacker :=
  mk (amorph_store p) (countcheck p) (buffer_size p) (work p) (critical_errors p + 1).

Definition make : FillUnpacker := mk [] [] 512 [] 0.

Definition complete (p : FillUnpacker) : bool := negb (buffer_size p <? 64).

(** A buffer for each sender but the node itself; [fresh ii] is what [new]
    returns.  The activity is switched on. *)
Definition initialiseStores (fresh : nat -> list Z) (send_order no_of_senders : nat)
    (p : FillUnpacker) : FillUnpacker :=
  set_countcheck (replicate no_of_senders 0)
    (set_store
       ((fun ii => if bool_decide (ii = send_order) then ARS.make_empty
                   else ARS.mk (fresh ii) (buffer_size p) 0 0 false) <$> seq 0 no_of_senders) p).

(** The unpacker, the ends of the channels at this node and the pool. *)
Record World (C : Type) := mkWorld {
  unpacker : FillUnpacker;
  ends : C;
  pool : Pool.PacketCommunicator
}.
#[global] Arguments mkWorld {C}.
#[global] Arguments unpacker {C}.
#[global] Arguments ends {C}.
#[global] Arguments pool {C}.

Definition put_store {C} (k : nat) (c : C) (r : ARS.AmorphReStore) (w : World C) : World C :=
  mkWorld (set_store (<[k:=r]> (amorph_store (unpacker w))) (unpacker w)) c (pool w).

Section FillUnpacker.
Context `{BuildConfig} `{ChannelEnds C}.

Definition on_unpacker {A} (m : M FillUnpacker A) : M (World C) A := fun w =>
  let (r, p) := m (unpacker w) in (r, mkWorld p (ends w) (pool w)).
Definition on_pool {A} (m : M Pool.PacketCommunicator A) : M (World C) A := fun w =>
  let (r, p) := m (pool w) in (r, mkWorld (unpacker w) (ends w) p).
Definition in_store {A} (k : nat) (m : M (C * ARS.AmorphReStore) A) : M (World C) A := fun w =>
  match amorph_store (unpacker w) !! k with
  | Some r => let '(x, (c, r')) := m (ends w, r) in (x, put_store k c r' w)
  | None => (Stuck OutOfBounds, w)
  end.

(** [claim] of the buffer, and the pull of the trigger is the activity's. *)
Definition acceptBuffer (b : nat) : M (World C) unit :=
  on_pool (Pool.on b MB.claim);;
  on_unpacker (modify (fun p => set_work (work p ++ [b]) p)).

(** [memcpy(&buffer[sender][getFillLevel()], ...)] *)
Definition fill_in (bs : list Z) : M ARS.AmorphReStore unit :=
  r ← get;
  dst ← of_option OutOfBounds (write_at (ARS.getFillLevel r) bs (ARS.stor r));
  put (ARS.mk dst (ARS.capacity r) (ARS.index r) (ARS.fill_level r) (ARS.exhausted r)).

(** The data of a channel that has an end here; true tells that the size was
    not what the mark said. *)
Definition unpack_one (g : GlobalId) (next_size : Z)
    : M (C * ARS.AmorphReStore) bool :=
  on_restore ARS.gobbleBigMark;;
  old_size ← gets (fun w => ARS.getSize w.2);
  channel_unPackData (object g) (location g) next_size;;
  left ← gets (fun w => ARS.getSize w.2);
  mret (negb (next_size =? u32 (old_size - left))).

Inductive turn := Stop | Go (mismatch : bool).

(** One turn of the loop; [next_size + 4] is unsigned. *)
Definition extract_one : M (C * ARS.AmorphReStore) turn :=
  '(c, r) ← get;
  if negb (ARS.isExhausted r) && (3 + 4 + 1 <? ARS.getSize r) then
    g ← on_restore unpack_id;
    next_size ← on_restore ARS.peekBigMark;
    size ← gets (fun w => ARS.getSize w.2);
    if u32 (next_size + 4) <=? size then
      if getChannel c (object g) then
        bad ← unpack_one g next_size; mret (Go bad)
      else on_restore ARS.gobbleBig;; mret (Go false)
    else on_restore ARS.setExhausted;; mret Stop
  else mret Stop.

(** The loop: the result is [current_idx]. *)
Fixpoint extract (turns : nat) (k : nat) (current_idx : Z) : M (World C) Z :=
  match turns with
  | O => stuck OutOfFuel
  | S turns =>
      t ← in_store k extract_one;
      match t with
      | Stop => mret current_idx
      | Go bad =>
          when bad (on_unpacker (modify add_error));;
          i ← in_store k (gets (fun w => ARS.getIndex w.2));
          extract turns k i
      end
  end.

(** What [despatch] leaves of the buffer. *)
Definition rewind (current_idx : Z) : M ARS.AmorphReStore unit :=
  r ← get;
  if negb (ARS.getSize r =? 0) then ARS.setIndex current_idx else ARS.reUse 0.

(** The messages that are complete in the buffer of sender [k]; a turn takes
    at least three bytes off, which bounds their number. *)
Definition unpack_all (k : nat) : M (World C) unit :=
  r ← in_store k (gets snd);
  current_idx ← extract (S (Z.to_nat (ARS.getSize r))) k (ARS.getIndex r);
  in_store k (on_restore (rewind current_idx)).

(** The first part of [despatch]: the bytes of the buffer go behind those of
    the same sender. *)
Definition assemble : M (World C) nat :=
  p ← gets unpacker;
  dassert (bool_decide (work p <> []));;
  to_unpack ← of_option NullDeref (head (work p));
  b ← on_pool (Pool.on to_unpack get);
  let nbytes := u64 (MB.fill b - MB.regular b - MB.offset b) in
  dassert (negb (nbytes =? 0));;
  let sender := Z.to_nat (MB.origin b) in
  of_option OutOfBounds (countcheck p !! sender);;
  on_unpacker (modify (set_countcheck (<[sender:=MB.message_cycle b]> (countcheck p))));;
  r ← in_store sender (gets snd);
  when (buffer_size p <? nbytes + ARS.getFillLevel r) (on_unpacker (modify add_error));;
  bs ← of_option OutOfBounds
         (read_at (u64 (MB.regular b + MB.offset b)) (Z.to_nat nbytes) (MB.buffer b));
  in_store sender (on_restore (fill_in bs));;
  on_pool (Pool.returnBuffer to_unpack);;
  in_store sender (on_restore (ARS.extend (u32 nbytes)));;
  on_unpacker (modify (fun p => set_work (tail (work p)) p));;
  mret sender.

Definition despatch : M (World C) unit :=
  sender ← assemble;
  unpack_all sender.

End FillUnpacker.

(** ** Behaviour *)

(** What the buffer holds can be the beginning of a message, or nothing. *)
Definition partial (part : list Z) : Prop :=
  part = [] \/ exists m rest, part ++ rest = framed 4 m /\ rest <> [] /\
    message_ok m /\ 7 + Z.of_nat (length m.2) < 4294967296.

(** What the loop in [despatch] relies on: the data of a message is at least
    two bytes. *)
Definition sizeable (m : Message) : Prop := 2 <= Z.of_nat (length m.2).

Section Behaviour.
Context `{BuildConfig} `{ChannelEndsLaws C}.
Implicit Types (c : C) (r : ARS.AmorphReStore).

Lemma big_mark_value n : 0 <= n < 4294967296 -> ntohl (host_value (be_bytes 4 n)) = n.
Proof.
  intros. rewrite ntoh_value32 by (apply be_bytes_ok || apply be_bytes_length).
  rewrite be_value_bytes. change (256 ^ Z.of_nat 4) with 4294967296. by apply Z.mod_small.
Qed.

Lemma peekBigMark_run r n rest :
  ars_ok r -> drop (Z.to_nat (ARS.index r)) (ARS.stor r) = be_bytes 4 n ++ rest ->
  ARS.index r + 4 <= ARS.fill_level r -> 0 <= n < 4294967296 ->
  ARS.peekBigMark r = (Val n, r).
Proof.
  intros Hr Hd Hl Hn. pose proof Hr as []. unfold ARS.peekBigMark, mbind, M_bind.
  rewrite check_data by (done || lia). rewrite (proj2 (Z.ltb_ge _ _)) by lia. unfold get.
  rewrite memcpy_from_run by (done || lia). unfold ahead. change (Z.to_nat 4) with 4%nat.
  rewrite Hd, take_app_length' by by rewrite be_bytes_length.
  by rewrite big_mark_value.
Qed.

Lemma gobbleBigMark_run r :
  ars_ok r -> ARS.index r + 4 <= ARS.fill_level r ->
  ARS.gobbleBigMark r = (Val 4, step_index 4 r).
Proof.
  intros Hr Hl. pose proof Hr as []. unfold ARS.gobbleBigMark, mbind, M_bind.
  rewrite check_data by (done || lia). rewrite (proj2 (Z.ltb_ge _ _)) by lia.
  by rewrite advance_run by (done || lia).
Qed.

Lemma gobbleBig_run r n rest :
  ars_ok r -> drop (Z.to_nat (ARS.index r)) (ARS.stor r) = be_bytes 4 n ++ rest ->
  0 <= n -> ARS.index r + 4 + n <= ARS.fill_level r ->
  ARS.gobbleBig r = (Val n, step_index n (step_index 4 r)).
Proof.
  intros Hr Hd Hn Hl. pose proof Hr as []. unfold ARS.gobbleBig, mbind, M_bind.
  rewrite check_data by (done || lia). rewrite (proj2 (Z.ltb_ge _ _)) by lia. unfold get.
  rewrite memcpy_from_run by (done || lia). unfold ahead. change (Z.to_nat 4) with 4%nat.
  rewrite Hd, take_app_length' by by rewrite be_bytes_length.
  rewrite big_mark_value by lia. rewrite advance_run by (done || lia).
  assert (ars_ok (step_index 4 r)) by (apply step_index_ok; done || lia).
  rewrite check_data by (done || (cbn; lia)).
  rewrite (proj2 (Z.ltb_ge _ _)) by (cbn; lia).
  by rewrite advance_run by (done || (cbn; lia)).
Qed.

(** Reading on over the channel and the size. *)
Lemma extract_head c r m rest :
  ars_ok r -> ARS.exhausted r = false -> message_ok m -> sizeable m ->
  window r = framed 4 m ++ rest ->
  extract_one (c, r) =
    (if getChannel c (object m.1) then
       bad ← unpack_one (m.1) (Z.of_nat (length m.2)); mret (Go bad)
     else on_restore ARS.gobbleBig;; mret (Go false)) (c, step_index 3 r).
Proof.
  intros Hr He [Hid Hb] Hsz Hw. unfold sizeable in Hsz.
  destruct (framed_ahead _ _ _ _ Hr Hw) as (Hl & rest' & Hd1 & Hd2 & _). pose proof Hr as [].
  assert (ars_ok (step_index 3 r)) as Hr3 by (apply step_index_ok; done || lia).
  unfold extract_one. unfold get at 1, mbind at 1, M_bind at 1. cbv beta iota.
  unfold ARS.isExhausted. rewrite He, (proj2 (Z.leb_gt _ _)) by lia. cbn [orb negb andb].
  rewrite getSize_run by done. rewrite (proj2 (Z.ltb_lt _ _)) by lia.
  erewrite bind_on_restore by (eapply unpack_id_run; [done|exact Hid|exact Hd1|lia]).
  erewrite bind_on_restore by (eapply peekBigMark_run; [done|exact Hd2|cbn; lia|lia]).
  unfold gets at 1, mbind at 1, M_bind at 1. cbn [snd]. rewrite getSize_run by done.
  rewrite u32_id by (unfold is_u32; lia). by rewrite (proj2 (Z.leb_le _ _)) by (cbn; lia).
Qed.

Lemma extract_one_here c c' r m rest :
  ars_ok r -> ARS.exhausted r = false -> message_ok m -> sizeable m ->
  window r = framed 4 m ++ rest -> accepts c m c' ->
  extract_one (c, r) = (Val (Go false), (c', step_index (Z.of_nat (length (framed 4 m))) r)).
Proof.
  intros Hr He Hm Hsz Hw Ha. rewrite (extract_head c r m rest) by done.
  rewrite (accepts_here _ _ _ Ha).
  destruct (framed_ahead _ _ _ _ Hr Hw) as (Hl & rest' & Hd1 & Hd2 & Hd3). pose proof Hr as [].
  assert (ars_ok (step_index 3 r)) as Hr3 by (apply step_index_ok; done || lia).
  assert (ars_ok (step_index 7 r)) as Hr7 by (apply step_index_ok; done || lia).
  assert (ars_ok (step_index (7 + Z.of_nat (length m.2)) r)) as Hrm
    by (apply step_index_ok; done || lia).
  erewrite bind_val; [reflexivity|]. unfold unpack_one.
  erewrite bind_on_restore by (eapply gobbleBigMark_run; cbn; try done; lia).
  rewrite step_step. change (3 + 4) with 7.
  erewrite bind_val by reflexivity. cbn [snd].
  erewrite bind_val by (eapply unpack_accepts; [done|done|exact Hd3|cbn; lia]).
  erewrite bind_val by reflexivity. cbn [snd]. rewrite step_step.
  rewrite !getSize_run by done. rewrite framed_length. unfold mret, M_ret. do 3 f_equal.
  cbn. rewrite u32_id by (unfold is_u32; lia).
  apply negb_false_iff, Z.eqb_eq. lia.
Qed.

Lemma extract_one_skip c r m rest :
  ars_ok r -> ARS.exhausted r = false -> message_ok m -> sizeable m ->
  window r = framed 4 m ++ rest -> getChannel c (object m.1) = false ->
  extract_one (c, r) = (Val (Go false), (c, step_index (Z.of_nat (length (framed 4 m))) r)).
Proof.
  intros Hr He Hm Hsz Hw Ha. rewrite (extract_head c r m rest), Ha by done.
  destruct (framed_ahead _ _ _ _ Hr Hw) as (Hl & rest' & Hd1 & Hd2 & Hd3). pose proof Hr as [].
  assert (ars_ok (step_index 3 r)) as Hr3 by (apply step_index_ok; done || lia).
  erewrite bind_on_restore by (eapply gobbleBig_run; [done|exact Hd2|lia|cbn; lia]).
  rewrite !step_step, framed_length. unfold mret, M_ret. do 3 f_equal. lia.
Qed.

(** At an incomplete message the loop stops, somewhere in its head. *)
Lemma extract_one_stop c r part :
  ars_ok r -> ARS.exhausted r = false -> window r = part -> partial part ->
  exists j x, extract_one (c, r) = (Val Stop, (c, ARS.set_exhausted x (step_index j r))) /\
    0 <= j <= Z.of_nat (length part) /\ (part <> [] -> j < Z.of_nat (length part)).
Proof.
  intros Hr He Hw Hp. pose proof (window_length r Hr) as Hl. rewrite Hw in Hl.
  assert (forall c, (c, r) = (c, ARS.set_exhausted false (step_index 0 r))) as Hsame.
  { intros. unfold ARS.set_exhausted, step_index, ARS.set_index. cbn. rewrite Z.add_0_r, <- He.
    by destruct r. }
  unfold extract_one. unfold get at 1, mbind at 1, M_bind at 1. cbv beta iota.
  rewrite getSize_run by done. destruct (Z.ltb_spec (3 + 4 + 1) (ARS.fill_level r - ARS.index r))
    as [Hbig|Hsmall]; cycle 1.
  { rewrite andb_false_r. exists 0, false. rewrite <- Hsame. split; [done|]. split; [lia|].
    destruct part; [done|]. cbn. lia. }
  rewrite andb_true_r. destruct Hp as [->|(m & rest & Hm & Hne & [Hid Hb] & HN)].
  { cbn in Hl. lia. }
  pose proof (framed_length 4 m) as Hf. rewrite <- Hm, length_app in Hf.
  assert (0 < length rest)%nat by (destruct rest; [done|cbn; lia]).
  pose proof Hr as [].
  assert (exists p7 tl, part = id_bytes m.1 ++ be_bytes 4 (Z.of_nat (length m.2)) ++ p7 /\
    tl = p7 ++ drop (Z.to_nat (ARS.fill_level r)) (ARS.stor r)) as (p7 & tl & Hp7 & Htl).
  { exists (drop 7 part). eexists. split; [|done].
    rewrite <- (firstn_skipn 7 part) at 1. rewrite app_assoc. f_equal.
    rewrite <- (take_app_le part rest 7) by lia. rewrite Hm. unfold framed. rewrite app_assoc.
    by rewrite take_app_length' by (rewrite length_app, be_bytes_length; done). }
  pose proof (window_ahead r Hr) as Ha. rewrite Hw, Hp7, <- !app_assoc, <- Htl in Ha.
  assert (drop (Z.to_nat (ARS.index r + 3)) (ARS.stor r) =
    be_bytes 4 (Z.of_nat (length m.2)) ++ tl) as Hd2.
  { rewrite Z2Nat.inj_add, <- drop_drop, Ha by lia. by rewrite drop_app_length'. }
  assert (ars_ok (step_index 3 r)) as Hr3 by (apply step_index_ok; done || lia).
  unfold ARS.isExhausted. rewrite He, (proj2 (Z.leb_gt _ _)) by lia. cbn [orb negb andb].
  erewrite bind_on_restore by (eapply unpack_id_run; [done|exact Hid|exact Ha|lia]).
  erewrite bind_on_restore by (eapply peekBigMark_run; [done|exact Hd2|cbn; lia|lia]).
  unfold gets at 1, mbind at 1, M_bind at 1. cbn [snd]. rewrite getSize_run by done.
  rewrite u32_id by (unfold is_u32; lia). rewrite (proj2 (Z.leb_gt _ _)) by (cbn; lia).
  exists 3, true. split; [done|]. split; [lia|]. intros _. lia.
Qed.

(** The messages one after the other. *)
Lemma receives_inv c m ms c' :
  receives c (m :: ms) c' ->
  (exists c1, accepts c m c1 /\ receives c1 ms c') \/
  (getChannel c (object m.1) = false /\ receives c ms c').
Proof. inversion 1; subst; [left; eauto|right; auto]. Qed.

Lemma in_restore_run {A} k (m : M (C * ARS.AmorphReStore) A) (w : World C) r x c' r' :
  amorph_store (unpacker w) !! k = Some r -> m (ends w, r) = (x, (c', r')) ->
  in_store k m w = (x, put_store k c' r' w).
Proof. intros Hk Hm. unfold in_store. by rewrite Hk, Hm. Qed.

Lemma put_put k c r c' r' (w : World C) :
  put_store k c' r' (put_store k c r w) = put_store k c' r' w.
Proof. unfold put_store, set_store. cbn. by rewrite list_insert_insert_eq. Qed.

Lemma put_same k (w : World C) r :
  amorph_store (unpacker w) !! k = Some r -> put_store k (ends w) r w = w.
Proof.
  intros Hk. unfold put_store, set_store. rewrite list_insert_id by done.
  by destruct w as [[]].
Qed.

Lemma store_put k c r (w : World C) :
  (k < length (amorph_store (unpacker w)))%nat ->
  amorph_store (unpacker (put_store k c r w)) !! k = Some r.
Proof. intros. cbn. by apply list_lookup_insert_eq. Qed.

Lemma extract_run k part ms : forall turns c c' r (w : World C),
  (k < length (amorph_store (unpacker w)))%nat ->
  (length ms < turns)%nat -> ars_ok r -> ARS.exhausted r = false ->
  window r = frames 4 ms ++ part -> partial part ->
  Forall message_ok ms -> Forall sizeable ms -> receives c ms c' ->
  exists j x, 0 <= j <= Z.of_nat (length part) /\ (part <> [] -> j < Z.of_nat (length part)) /\
    extract turns k (ARS.index r) (put_store k c r w) =
      (Val (ARS.index r + Z.of_nat (length (frames 4 ms))),
       put_store k c' (ARS.set_exhausted x
         (step_index (Z.of_nat (length (frames 4 ms)) + j) r)) w).
Proof.
  induction ms as [|m ms IH]; intros turns c c' r w Hk Ht Hr He Hw Hp Hms Hsz Hrec;
    (destruct turns as [|turns]; [cbn in Ht; lia|]); cbn [extract].
  - inversion Hrec; subst. destruct (extract_one_stop c' r part) as (j & x & Hx & Hj & Hj');
      try done.
    erewrite bind_val by (eapply in_restore_run; [by apply store_put|exact Hx]).
    exists j, x. split_and!; try done; try lia. rewrite put_put.
    cbn [frames fmap list_fmap mjoin list_join length Z.of_nat]. by rewrite Z.add_0_r.
  - inversion Hms as [|? ? Hm Hms']; subst. inversion Hsz as [|? ? Hs Hsz']; subst.
    change (frames 4 (m :: ms)) with (framed 4 m ++ frames 4 ms) in *. rewrite <- app_assoc in Hw.
    set (n := Z.of_nat (length (framed 4 m))) in *.
    pose proof (window_length r Hr) as Hwl. rewrite Hw, length_app in Hwl. pose proof Hr as [].
    assert (exists c1, extract_one (c, r) = (Val (Go false), (c1, step_index n r)) /\
      receives c1 ms c') as (c1 & Hone & Hrec').
    { destruct (receives_inv _ _ _ _ Hrec) as [(c1 & Ha & Hrest)|[Hno Hrest]].
      - exists c1. split; [by eapply extract_one_here|done].
      - exists c. split; [by eapply extract_one_skip|done]. }
    erewrite bind_val by (eapply in_restore_run; [by apply store_put|exact Hone]).
    rewrite put_put. cbn [when].
    erewrite bind_val by reflexivity.
    erewrite bind_val by (eapply in_restore_run; [by apply store_put|reflexivity]).
    cbn [snd]. rewrite put_put. unfold ARS.getIndex.
    destruct (IH turns c1 c' (step_index n r) w) as (j & x & Hj & Hj' & Hrun); try done.
    + cbn in Ht. lia.
    + apply step_index_ok; [done|lia..].
    + by eapply step_window.
    + exists j, x. split_and!; try done; try lia. etrans; [exact Hrun|].
      rewrite length_app, step_step.
      change (ARS.index (step_index n r)) with (ARS.index r + n).
      f_equal; [f_equal; lia|]. do 3 f_equal. lia.
Qed.

(** The buffer of a sender holds [part] behind [d] bytes that are done with;
    once there is nothing left it starts afresh. *)
Record holds (NB d : Z) (part : list Z) (r : ARS.AmorphReStore) : Prop := {
  h_ok : ars_ok r;
  h_length : Z.of_nat (length (ARS.stor r)) = NB;
  h_window : window r = part;
  h_index : ARS.index r = d;
  h_partial : partial part;
  h_fresh : part = [] -> d = 0
}.

(** After the loop: the buffer is rewound to the message that is not complete,
    or emptied. *)
Definition next_start (d : Z) (part : list Z) : Z := if decide (part = []) then 0 else d.

Lemma rewind_run NB r part n j x :
  ars_ok r -> Z.of_nat (length (ARS.stor r)) = NB -> partial part ->
  window (step_index n r) = part -> 0 <= n -> ARS.index r + n <= ARS.fill_level r ->
  0 <= j <= Z.of_nat (length part) -> (part <> [] -> j < Z.of_nat (length part)) ->
  exists r', rewind (ARS.index r + n) (ARS.set_exhausted x (step_index (n + j) r)) = (Val tt, r') /\
    holds NB (next_start (ARS.index r + n) part) part r'.
Proof.
  intros Hr HN Hp Hw Hn Hl Hj Hj'. pose proof Hr as [].
  assert (ars_ok (step_index n r)) as Hrn by (apply step_index_ok; done || lia).
  pose proof (window_length _ Hrn) as Hwl. rewrite Hw in Hwl. cbn in Hwl.
  unfold rewind, next_start, mbind, M_bind, get, ARS.getSize.
  cbn [ARS.set_exhausted step_index ARS.set_index ARS.fill_level ARS.index].
  rewrite u32_id by (unfold is_u32; lia). case_decide as Ep.
  - destruct part; [|done]. cbn [length Z.of_nat] in *. rewrite (proj2 (Z.eqb_eq _ _)) by lia. cbn [negb].
    eexists. split; [reflexivity|]. split; cbn; try done; split; cbn; done || lia.
  - specialize (Hj' Ep). rewrite (proj2 (Z.eqb_neq _ _)) by lia. cbn [negb].
    eexists. split; [reflexivity|]. split; cbn; try done; split; cbn; done || lia.
Qed.

Lemma fill_unpack_all_run NB k part ms c' r (w : World C) :
  amorph_store (unpacker w) !! k = Some r -> ars_ok r -> ARS.exhausted r = false ->
  Z.of_nat (length (ARS.stor r)) = NB ->
  window r = frames 4 ms ++ part -> partial part ->
  Forall message_ok ms -> Forall sizeable ms -> receives (ends w) ms c' ->
  exists r', unpack_all k w = (Val tt, put_store k c' r' w) /\
    holds NB (next_start (ARS.index r + Z.of_nat (length (frames 4 ms))) part) part r'.
Proof.
  intros Hk Hr He HN Hw Hp Hms Hsz Hrec. pose proof (lookup_lt_Some _ _ _ Hk) as Hlt.
  pose proof (window_length r Hr) as Hl. rewrite Hw, length_app in Hl.
  pose proof (frames_length_le 4 ms) as Hfl.
  destruct (extract_run k part ms (S (Z.to_nat (ARS.getSize r))) (ends w) c' r w)
    as (j & x & Hj & Hj' & Hrun); try done.
  { rewrite getSize_run by done. lia. }
  destruct (rewind_run NB r part (Z.of_nat (length (frames 4 ms))) j x)
    as (r' & Hrw & Hh); try done; [by apply step_window|lia|lia|].
  exists r'. split; [|done]. unfold unpack_all.
  erewrite bind_val by (eapply in_restore_run; [exact Hk|reflexivity]). cbn [snd fst].
  rewrite put_same in Hrun by done. rewrite put_same by done.
  rewrite (bind_val _ _ _ _ _ Hrun).
  erewrite in_restore_run; [|by apply store_put|unfold on_restore; cbn [fst snd]; by rewrite Hrw].
  cbn [fst snd]. by rewrite put_put.
Qed.

(** The new bytes behind those that wait. *)
Lemma fill_in_run NB d part r bs :
  holds NB d part r -> bytes_ok bs -> NB < 4294967296 ->
  d + Z.of_nat (length (part ++ bs)) <= NB ->
  exists r1 r2, fill_in bs r = (Val tt, r1) /\
    ARS.extend (Z.of_nat (length bs)) r1 = (Val tt, r2) /\
    ars_ok r2 /\ ARS.exhausted r2 = false /\ Z.of_nat (length (ARS.stor r2)) = NB /\
    window r2 = part ++ bs /\ ARS.index r2 = d.
Proof.
  intros [] Hb HN Hl. rewrite length_app in Hl. pose proof (window_length r h_ok0) as Hwl.
  rewrite h_window0 in Hwl. pose proof h_ok0 as [].
  assert (write_at (ARS.fill_level r) bs (ARS.stor r) =
    Some (splice (ARS.fill_level r) bs (ARS.stor r))) as Hwr by (apply write_at_some; lia).
  eexists _, _. split.
  { unfold fill_in, mbind, M_bind, get, ARS.getFillLevel. by rewrite Hwr. }
  split; [reflexivity|]. cbn. rewrite u32_id by (unfold is_u32; lia).
  assert (length (splice (ARS.fill_level r) bs (ARS.stor r)) = length (ARS.stor r)) as Esl
    by (apply splice_length; lia).
  split_and!; try done; [|lia|].
  - split; cbn; try lia. by apply splice_bytes_ok.
  - unfold window, splice. cbn. rewrite drop_app_le by (rewrite length_take; lia).
    rewrite skipn_firstn_comm.
    replace (Z.to_nat (ARS.fill_level r) - Z.to_nat (ARS.index r))%nat
      with (Z.to_nat (ARS.fill_level r - ARS.index r)) by lia.
    fold (window r). rewrite h_window0, app_assoc, take_app_length'; [done|].
    rewrite length_app. lia.
Qed.

(** *** One buffer *)

(** The buffer [b] of the pool carries the bytes [bs] for the fill unpacker of
    sender [k]. *)
Record carries (k : nat) (bs : list Z) (mb : MB.MessageBuffer) : Prop := {
  c_origin : Z.to_nat (MB.origin mb) = k;
  c_used : MB.nusers mb <> 0;
  c_fill : MB.fill mb = MB.regular mb + MB.offset mb + Z.of_nat (length bs);
  c_range : 0 <= MB.regular mb /\ 0 <= MB.offset mb /\ MB.fill mb < 4294967296;
  c_data : read_at (MB.regular mb + MB.offset mb) (length bs) (MB.buffer mb) = Some bs
}.

Lemma on_unpacker_run {A} (m : M FillUnpacker A) (w : World C) (r : outcome A) p :
  m (unpacker w) = (r, p) -> on_unpacker m w = (r, mkWorld p (ends w) (pool w)).
Proof. intros Hm. unfold on_unpacker. by rewrite Hm. Qed.
Lemma on_pool_run {A} (m : M Pool.PacketCommunicator A) (w : World C) (r : outcome A) p :
  m (pool w) = (r, p) -> on_pool m w = (r, mkWorld (unpacker w) (ends w) p).
Proof. intros Hm. unfold on_pool. by rewrite Hm. Qed.

(** The unpacker with the new bytes in the buffer of sender [k]. *)
Definition assembled (k : nat) (rest : list nat) (cycle : Z) (r2 : ARS.AmorphReStore)
    (w : World C) pl : World C :=
  put_store k (ends w) r2
    (mkWorld (set_work rest (set_countcheck (<[k:=cycle]> (countcheck (unpacker w)))
       (unpacker w))) (ends w) pl).

Lemma assemble_run k b rest mb bs d part r (w : World C) :
  let NB := buffer_size (unpacker w) in
  work (unpacker w) = b :: rest -> Pool.heap (pool w) !! b = Some mb -> carries k bs mb ->
  (k < length (countcheck (unpacker w)))%nat ->
  amorph_store (unpacker w) !! k = Some r -> holds NB d part r -> NB < 4294967296 ->
  bs <> [] -> bytes_ok bs -> d + Z.of_nat (length (part ++ bs)) <= NB ->
  exists r2 pl, assemble w = (Val k, assembled k rest (MB.message_cycle mb) r2 w pl) /\
    Pool.returnBuffer b (pool w) = (Val tt, pl) /\ ars_ok r2 /\ ARS.exhausted r2 = false /\ Z.of_nat (length (ARS.stor r2)) = NB /\
    window r2 = part ++ bs /\ ARS.index r2 = d.
Proof.
  intros NB Hwork Hb [] Hcc Hk Hh HNB Hne Hbs Hl.
  destruct (fill_in_run NB d part r bs Hh Hbs HNB Hl) as (r1 & r2 & Hfi & Hex & Hr2).
  destruct (returnBuffer_run b (pool w) mb Hb c_used0) as (pl & Hret).
  exists r2, pl. split; [|by split].
  pose proof (lookup_lt_Some _ _ _ Hk) as Hlt.
  pose proof (window_length r (h_ok _ _ _ _ Hh)) as Hwl.
  rewrite (h_window _ _ _ _ Hh), (h_index _ _ _ _ Hh) in Hwl.
  destruct (lookup_lt_is_Some_2 _ _ Hcc) as [cnt Hcnt].
  rewrite length_app in Hl. assert (0 < length bs)%nat by (destruct bs; [done|cbn; lia]).
  assert (u64 (MB.fill mb - MB.regular mb - MB.offset mb) = Z.of_nat (length bs)) as En
    by (rewrite u64_id; [lia|unfold is_u64; lia]).
  assert (u64 (MB.regular mb + MB.offset mb) = MB.regular mb + MB.offset mb) as Eo
    by (rewrite u64_id; [lia|unfold is_u64; lia]).
  unfold assemble. erewrite bind_val by reflexivity.
  rewrite Hwork. erewrite bind_val by (by apply dassert_true).
  erewrite bind_val by reflexivity.
  erewrite bind_val by (apply on_pool_run; by apply peek_run).
  replace (mkWorld (unpacker w) (ends w) (pool w)) with w by (by destruct w).
  cbv zeta. rewrite En, Eo, Nat2Z.id, c_data0, c_origin0, Hcnt.
  erewrite bind_val by (apply dassert_true; by rewrite (proj2 (Z.eqb_neq _ _)) by lia).
  erewrite bind_val by reflexivity. erewrite bind_val by reflexivity.
  erewrite bind_val by (eapply in_restore_run; [exact Hk|reflexivity]). cbn [snd fst].
  unfold ARS.getFillLevel. rewrite (proj2 (Z.ltb_ge _ _)) by (fold NB; lia). cbn [when].
  erewrite bind_val by reflexivity. erewrite bind_val by reflexivity.
  erewrite bind_val by (eapply in_restore_run; [cbn; by apply list_lookup_insert_eq|
    unfold on_restore; cbn [fst snd]; by rewrite Hfi]). rewrite put_put.
  erewrite bind_val by (apply on_pool_run; exact Hret).
  rewrite u32_id by (unfold is_u32; lia).
  erewrite bind_val by (eapply in_restore_run; [cbn; by apply list_lookup_insert_eq|
    unfold on_restore; cbn [fst snd]; by rewrite Hex]).
  unfold on_unpacker, modify, mbind, M_bind. cbn. unfold assembled, put_store, set_store.
  cbn. rewrite list_insert_insert_eq, Hwork. done.
Qed.

(** What [despatch] changes besides the buffer of the sender and the ends. *)
Definition despatched (k : nat) (rest : list nat) (r' : ARS.AmorphReStore) (c' : C)
    (w w' : World C) : Prop :=
  ends w' = c' /\ amorph_store (unpacker w') = <[k:=r']> (amorph_store (unpacker w)) /\
  work (unpacker w') = rest /\ buffer_size (unpacker w') = buffer_size (unpacker w) /\
  length (countcheck (unpacker w')) = length (countcheck (unpacker w)) /\
  critical_errors (unpacker w') = critical_errors (unpacker w).

Lemma fill_despatch_run k b rest mb bs d part r ms part' c' (w : World C) :
  let NB := buffer_size (unpacker w) in
  work (unpacker w) = b :: rest -> Pool.heap (pool w) !! b = Some mb -> carries k bs mb ->
  (k < length (countcheck (unpacker w)))%nat ->
  amorph_store (unpacker w) !! k = Some r -> holds NB d part r -> NB < 4294967296 ->
  bs <> [] -> bytes_ok bs -> d + Z.of_nat (length (part ++ bs)) <= NB ->
  part ++ bs = frames 4 ms ++ part' -> partial part' ->
  Forall message_ok ms -> Forall sizeable ms -> receives (ends w) ms c' ->
  exists w' r', despatch w = (Val tt, w') /\ despatched k rest r' c' w w' /\
    Pool.returnBuffer b (pool w) = (Val tt, pool w') /\
    holds NB (next_start (d + Z.of_nat (length (frames 4 ms))) part') part' r'.
Proof.
  intros NB Hwork Hb Hc Hcc Hk Hh HNB Hne Hbs Hl Hsplit Hp' Hms Hsz Hrec.
  destruct (assemble_run k b rest mb bs d part r w) as (r2 & pl & Has & Hret & Hr2 & He2 & HN2 & Hw2 & Hi2);
    try done.
  pose proof (lookup_lt_Some _ _ _ Hk) as Hlt.
  destruct (fill_unpack_all_run NB k part' ms c' r2 (assembled k rest (MB.message_cycle mb) r2 w pl))
    as (r' & Hall & Hh'); try done.
  { cbn. by apply list_lookup_insert_eq. }
  { by rewrite Hw2. }
  rewrite Hi2 in Hh'. eexists _, r'. split_and!.
  - unfold despatch. by rewrite (bind_val _ _ _ _ _ Has).
  - unfold despatched. cbn. by rewrite list_insert_insert_eq, length_insert.
  - done.
  - done.
Qed.

End Behaviour.
End FU.
