(* ===== verification/Packer.v ===== *)
(** [dueca/Packer.cxx] and [dueca/Unpacker.cxx]: the regular data of the
    channels, packed as a whole number of sets per message. *)

From S2P Require Import Prelude Bytes Amorph MessageBuffer Transport.
#[local] Open Scope Z_scope.

(** ** Packer *)

Module PK.

(** A packing run: the entries, the work queue and the store. *)
Record Packing (E : Type) := mkPacking {
  entries : E;
  work_queue : list PackUnit;
  store : AS.AmorphStore
}.
#[global] Arguments mkPacking {E}.
#[global] Arguments entries {E}.
#[global] Arguments work_queue {E}.
#[global] Arguments store {E}.

Section Packer.
Context `{BuildConfig} `{ChannelEntries E}.

Definition in_packing {A} (m : M (E * AS.AmorphStore) A) : M (Packing E) A := fun w =>
  let '(r, (e, s)) := m (entries w, store w) in (r, mkPacking e (work_queue w) s).

Definition packOneSet (c : PackUnit) : M (E * AS.AmorphStore) unit :=
  e ← gets fst;
  on_store (pack_id (getChannelId e (entry c)));;
  setsize ← on_store (Mark.createMark Mark.T_uint16);
  entry_packData c;;
  on_store (Mark.finishMark setsize);;
  mret tt.

Definition pop : M (Packing E) unit :=
  modify (fun w => mkPacking (entries w) (tail (work_queue w)) (store w)).

(** One set of data, within the [try]: false when an exception ended it. *)
Definition try_one (c : PackUnit) : M (Packing E) bool :=
  old_state ← gets (fun w => AS.getSize (store w));
  catch
    (in_packing (packOneSet c);;
     in_packing (on_entries (packComplete (entry c) (idx c)));;
     pop;;
     mret true)
    (fun e => match e with
              | AmorphStoreBoundary =>
                  in_packing (on_entries (packFailed (entry c) (idx c)));;
                  in_packing (on_store (AS.setSize old_state));;
                  mret false
              | EntryInvalid =>
                  pop;; in_packing (on_store (AS.setSize old_state));; mret false
              | e => throw e
              end).

Fixpoint pack_loop (turns : nat) : M (Packing E) unit :=
  match turns with
  | O => stuck OutOfFuel
  | S turns =>
      w ← get;
      match work_queue w with
      | c :: _ => more ← try_one c; if more : bool then pack_loop turns else mret tt
      | [] => mret tt
      end
  end.

(** [packWork(AmorphStore& store)] *)
Definition packWork : M (Packing E) unit :=
  w ← get; pack_loop (S (length (work_queue w))).

(** *** The stores of the accessor

    [stores] is empty while [store == NULL]. *)
Record Packer := mkPacker {
  p_entries : E;
  p_queue : list PackUnit;
  stores : list AS.AmorphStore;
  current_store : nat
}.

(** [initialiseStores]: [no_of_stores] is the length of the array. *)
Definition initialiseStores (area : list (list Z)) (store_size mark0 : Z) : M Packer unit :=
  dassert (3 <=? Z.of_nat (length area));;
  modify (fun p => mkPacker (p_entries p) (p_queue p)
    ((fun a => AS.mk a store_size 0 false false mark0) <$> area) (current_store p)).

(** [packWork()] *)
Definition packWork_current : M Packer unit := fun p =>
  match stores p with
  | [] => (Val tt, p)
  | _ =>
      match stores p !! current_store p with
      | None => (Stuck OutOfBounds, p)
      | Some s =>
          if AS.choked s then (Val tt, p)
          else
            let (r, w) := packWork (mkPacking (p_entries p) (p_queue p) s) in
            (r, mkPacker (entries w) (work_queue w)
                  (<[current_store p:=store w]> (stores p)) (current_store p))
      end
  end.

(** The result is the fill level and the store to send. *)
Definition changeCurrentStore : M Packer (Z * option nat) :=
  p ← get;
  match stores p with
  | [] => mret (0, None)
  | _ =>
      s ← of_option OutOfBounds (stores p !! current_store p);
      let next := if bool_decide (S (current_store p) = length (stores p)) then 0%nat
                  else S (current_store p) in
      n ← of_option OutOfBounds (stores p !! next);
      let '(_, n) := AS.reUse n in
      put (mkPacker (p_entries p) (p_queue p) (<[next:=n]> (stores p)) next);;
      mret (AS.getSize s, Some (current_store p))
  end.

End Packer.
#[global] Arguments mkPacker {E}.
End PK.

(** ** Unpacker *)

Module UP.

(** The unpacker's work, the ends of the channels at this node and the pool. *)
Record World (C : Type) := mkWorld {
  work : list nat;
  ends : C;
  pool : Pool.PacketCommunicator
}.
#[global] Arguments mkWorld {C}.
#[global] Arguments work {C}.
#[global] Arguments ends {C}.
#[global] Arguments pool {C}.

Section Unpacker.
Context `{BuildConfig} `{ChannelEnds C}.

Definition on_pool {A} (m : M Pool.PacketCommunicator A) : M (World C) A := fun w =>
  let (r, p) := m (pool w) in (r, mkWorld (work w) (ends w) p).

Definition acceptBuffer (b : nat) : M (World C) unit :=
  on_pool (Pool.on b MB.claim);;
  modify (fun w => mkWorld (work w ++ [b]) (ends w) (pool w)).

(** One turn of the loop in [despatch]: false when it ends. *)
Definition unpack_one : M (C * ARS.AmorphReStore) bool :=
  '(c, r) ← get;
  if negb (ARS.getSize r =? 0) && negb (ARS.isExhausted r) then
    g ← on_restore unpack_id;
    (if getChannel c (object g) then
       len ← on_restore ARS.unPackData_uint16;
       storesize ← gets (fun w => ARS.getSize w.2);
       channel_unPackData (object g) (location g) len;;
       left ← gets (fun w => ARS.getSize w.2);
       dassert (u32 (storesize - left) =? len)
     else on_restore ARS.gobble;; mret tt);;
    mret true
  else mret false.

Fixpoint unpack_all (turns : nat) : M (C * ARS.AmorphReStore) unit :=
  match turns with
  | O => stuck OutOfFuel
  | S turns => more ← unpack_one; if more : bool then unpack_all turns else mret tt
  end.

(** The store over the regular part of the buffer. *)
Definition store_of (mb : MB.MessageBuffer) : ARS.AmorphReStore :=
  ARS.make (drop (Z.to_nat (MB.offset mb)) (MB.buffer mb)) (u32 (MB.regular mb)).

Definition despatch : M (World C) unit :=
  w ← get;
  dassert (bool_decide (work w <> []));;
  to_unpack ← of_option NullDeref (head (work w));
  mb ← on_pool (Pool.on to_unpack get);
  let s := store_of mb in
  (fun w => let '(r, (c, _)) := unpack_all (S (Z.to_nat (ARS.getSize s))) (ends w, s) in
            (r, mkWorld (work w) c (pool w)));;
  on_pool (Pool.returnBuffer to_unpack);;
  modify (fun w => mkWorld (tail (work w)) (ends w) (pool w)).

End Unpacker.
End UP.

(** ** Behaviour *)

Section PackerBehaviour.
Context `{BuildConfig} `{ChannelEntriesLaws E}.
Implicit Types (e : E).

Definition small (m : Message) : Prop := Z.of_nat (length m.2) <= 65535.

Lemma createMark_reserves : reserves 2 (Mark.createMark Mark.T_uint16).
Proof.
  split; [done|]. intros s Hs Hc Hl. rewrite createMark_run by done.
  cbn [Mark.sizeof]. destruct (_ <? _); [done|]. by eexists _, _.
Qed.

Lemma packOneSet_shape u e s g :
  g = getChannelId e (entry u) ->
  PK.packOneSet u (e, s) = (on_store (pack_id g);; a ← on_store (Mark.createMark Mark.T_uint16);
    entry_packData u;; (on_store (Mark.finishMark a);; mret tt)) (e, s).
Proof. by intros ->. Qed.

Lemma packOneSet_fits e u m e' s :
  sends e u m e' -> small m -> as_ok s -> AS.choked s = false ->
  AS.index s + Z.of_nat (length (framed 2 m)) <= AS.capacity s ->
  exists e1, PK.packOneSet u (e, s) = (Val tt, (e1, append (framed 2 m) s))
    /\ packComplete (entry u) (idx u) e1 = (Val tt, e').
Proof.
  intros Hu Hsm Hs Hc. rewrite framed_length. intros Hl. pose proof Hs as [].
  destruct (sends_message _ _ _ _ Hu) as [[Hid Hb] Eid].
  destruct (set_fits 2 (Mark.createMark Mark.T_uint16)
    (fun a => on_store (Mark.finishMark a);; mret tt) e u m e' s
    createMark_reserves Hu Hs Hc ltac:(lia)) as (a & s2 & e1 & Hrun & Hres & Hcomp).
  exists e1. split; [|done]. rewrite (packOneSet_shape u e s (m.1)) by done. rewrite Hrun.
  pose proof (append_ok (id_bytes m.1) s Hs (id_bytes_ok _) ltac:(cbn; lia)) as Hs1.
  set (s1 := append (id_bytes m.1) s) in *.
  assert (AS.index s1 = AS.index s + 3) as Ei by done.
  assert (AS.capacity s1 = AS.capacity s) as Ec by done.
  rewrite createMark_run in Hres by (done || (cbn; lia)). cbn [Mark.sizeof] in Hres.
  rewrite (proj2 (Z.ltb_ge _ _)) in Hres by lia.
  assert (a = Mark.mk Mark.T_uint16 (AS.index s1)) as -> by congruence.
  assert (s2 = AS.set_index (AS.index s1 + 2) s1) as -> by congruence.
  pose proof (finishMark_run Mark.T_uint16 s1 (m.2) Hs1 ltac:(cbn; lia)) as Hfin.
  unfold small in Hsm. cbn [Mark.sizeof Mark.limit_max] in Hfin.
  rewrite (proj2 (Z.ltb_ge _ _)) in Hfin by lia.
  erewrite bind_val by (unfold on_store; cbn [fst snd]; rewrite Hfin; reflexivity).
  unfold s1. rewrite append_append; [done|done|].
  rewrite !length_app, be_bytes_length. change (length (id_bytes m.1)) with 3%nat. lia.
Qed.

Lemma packOneSet_full e u m e' s :
  sends e u m e' -> as_ok s -> AS.choked s = false ->
  AS.capacity s < AS.index s + Z.of_nat (length (framed 2 m)) < 4294967296 ->
  exists e1 s', PK.packOneSet u (e, s) = (Exn AmorphStoreBoundary, (e1, s')) /\ clogged s s' /\
    exists e2, packFailed (entry u) (idx u) e1 = (Val tt, e2) /\
      forall m e', sends e u m e' -> sends e2 u m e'.
Proof.
  intros Hu Hs Hc. rewrite framed_length. intros Hl.
  destruct (sends_message _ _ _ _ Hu) as [_ Eid]. rewrite (packOneSet_shape u e s (m.1)) by done.
  apply (set_full 2) with e'; try done; [apply createMark_reserves|lia].
Qed.

(** *** A packing run *)

(** What [packWork] leaves: the sets [ms1] are packed, and the first of the
    others, if there is one, did not fit. *)
Definition full_for (s : AS.AmorphStore) (ms : list Message) : Prop :=
  match ms with
  | [] => AS.choked s = false
  | m :: _ => AS.capacity s < AS.index s + Z.of_nat (length (framed 2 m))
  end.

Lemma try_one_fits e u us m e' s :
  sends e u m e' -> small m -> as_ok s -> AS.choked s = false ->
  AS.index s + Z.of_nat (length (framed 2 m)) <= AS.capacity s ->
  PK.try_one u (PK.mkPacking e (u :: us) s) =
    (Val true, PK.mkPacking e' us (append (framed 2 m) s)).
Proof.
  intros Hu Hsm Hs Hc Hl. destruct (packOneSet_fits _ _ _ _ s Hu Hsm Hs Hc Hl) as (e1 & Hpk & Hco).
  unfold PK.try_one. erewrite bind_val by reflexivity. unfold catch.
  erewrite bind_val by (unfold PK.in_packing; cbn; by rewrite Hpk).
  erewrite bind_val by (unfold PK.in_packing, on_entries; cbn; by rewrite Hco).
  reflexivity.
Qed.

Lemma try_one_full e u us m e' s :
  sends e u m e' -> as_ok s -> AS.choked s = false ->
  AS.capacity s < AS.index s + Z.of_nat (length (framed 2 m)) < 4294967296 ->
  exists e2 s', PK.try_one u (PK.mkPacking e (u :: us) s) =
      (Val false, PK.mkPacking e2 (u :: us) s') /\
    as_ok s' /\ contents s' = contents s /\ AS.index s' = AS.index s /\
    AS.capacity s' = AS.capacity s /\ length (AS.stor s') = length (AS.stor s) /\ forall m e', sends e u m e' -> sends e2 u m e'.
Proof.
  intros Hu Hs Hc Hl.
  destruct (packOneSet_full _ _ _ _ s Hu Hs Hc Hl) as (e1 & s1 & Hpk & Hcl & e2 & Hf & Hsend).
  destruct (setSize_clogged _ _ Hs Hcl) as [Hs' Hb'].
  exists e2, (AS.set_index (AS.index s) s1). split_and!; try done; [|by destruct Hcl as (?&?&?)|by destruct Hcl as (?&?&?&?&?&?)].
  unfold PK.try_one. erewrite bind_val by reflexivity. unfold catch.
  erewrite bind_exn by (unfold PK.in_packing; cbn; by rewrite Hpk). cbv beta iota.
  erewrite bind_val by (unfold PK.in_packing, on_entries; cbn; by rewrite Hf).
  reflexivity.
Qed.

Lemma pack_loop_run e' us : forall turns e s ms,
  (length us < turns)%nat -> as_ok s -> AS.choked s = false -> AS.capacity s < 2147483648 ->
  script e us ms e' -> Forall small ms ->
  Forall (fun m => Z.of_nat (length (framed 2 m)) < 2147483648) ms ->
  exists e1 us2 s1 ms1 ms2,
    PK.pack_loop turns (PK.mkPacking e us s) = (Val tt, PK.mkPacking e1 us2 s1) /\
    ms = ms1 ++ ms2 /\ as_ok s1 /\ AS.capacity s1 = AS.capacity s /\
    length (AS.stor s1) = length (AS.stor s) /\
    contents s1 = contents s ++ frames 2 ms1 /\ script e1 us2 ms2 e' /\ full_for s1 ms2.
Proof.
  induction us as [|u us IH]; intros turns e s ms Ht Hs Hc Hcap Hsc Hsm Hlen;
    (destruct turns as [|turns]; [cbn in Ht; lia|]); cbn [PK.pack_loop].
  - inversion Hsc; subst. exists e', [], s, [], []. rewrite !app_nil_r. by split_and!.
  - inversion Hsc as [|? ? m e1 ? ms' ? Hu Hrest]; subst.
    inversion Hsm as [|? ? Hm Hsm']; subst. inversion Hlen as [|? ? Hlm Hlen']; subst. cbv beta in Hlm.
    erewrite bind_val by reflexivity. cbn [PK.work_queue].
    pose proof Hs as []. destruct (sends_message _ _ _ _ Hu) as [[_ Hb2] _].
    destruct (decide (AS.index s + Z.of_nat (length (framed 2 m)) <= AS.capacity s)) as [Hf|Hf].
    + rewrite (bind_val _ _ _ _ _ (try_one_fits _ _ us _ _ _ Hu Hm Hs Hc Hf)).
      destruct (IH turns e1 (append (framed 2 m) s) ms')
        as (e2 & us2 & s1 & ms1 & ms2 & Hrun & -> & Hs1 & Hc1 & Hl1 & Hb1 & Hsc1 & Hfull);
        try done; [cbn in Ht; lia|apply append_ok; try done; by apply framed_ok|].
      exists e2, us2, s1, (m :: ms1), ms2. split_and!; try done.
      { rewrite Hl1. cbn [append AS.set_index AS.set_stor AS.stor]. by rewrite splice_length by lia. }
      rewrite Hb1, contents_append by done. by rewrite <- app_assoc.
    + destruct (try_one_full e u us m e1 s Hu Hs Hc ltac:(lia))
        as (e2 & s' & Hrun & Hs' & Hb' & Hi' & Hc' & Hl' & Hsend).
      rewrite (bind_val _ _ _ _ _ Hrun).
      exists e2, (u :: us), s', [], (m :: ms'). rewrite !app_nil_r. split_and!; try done.
      * econstructor; [by apply Hsend|done].
      * unfold full_for. lia.
Qed.

End PackerBehaviour.

Section UnpackerBehaviour.
Context `{BuildConfig} `{ChannelEndsLaws C}.
Implicit Types (c : C) (r : ARS.AmorphReStore).

Lemma unpack_one_run c c' r m rest :
  ars_ok r -> ARS.exhausted r = false -> message_ok m -> small m ->
  window r = framed 2 m ++ rest ->
  accepts c m c' \/ getChannel c (object m.1) = false /\ c' = c ->
  UP.unpack_one (c, r) = (Val true, (c', step_index (Z.of_nat (length (framed 2 m))) r)).
Proof.
  intros Hr He [Hid Hb] Hsm Hw Ha. unfold small in Hsm.
  destruct (framed_ahead _ _ _ _ Hr Hw) as (Hl & rest' & Hd1 & Hd2 & Hd3). pose proof Hr as [].
  assert (ars_ok (step_index 3 r)) as Hr3 by (apply step_index_ok; done || lia).
  assert (ars_ok (step_index 5 r)) as Hr5 by (apply step_index_ok; done || lia).
  assert (ars_ok (step_index (5 + Z.of_nat (length m.2)) r)) as Hrm
    by (apply step_index_ok; done || lia).
  assert (is_u16 (Z.of_nat (length m.2))) as Hn by (unfold is_u16; lia).
  unfold UP.unpack_one. unfold get at 1, mbind at 1, M_bind at 1. cbv beta iota.
  rewrite getSize_run, (proj2 (Z.eqb_neq _ _)) by (done || lia).
  unfold ARS.isExhausted. rewrite He, (proj2 (Z.leb_gt _ _)) by lia. cbn [orb negb andb].
  erewrite bind_on_restore by (eapply unpack_id_run; [done|exact Hid|exact Hd1|lia]).
  rewrite framed_length. destruct Ha as [Ha|[Hno ->]].
  - rewrite (accepts_here _ _ _ Ha). erewrite bind_val; [reflexivity|].
    erewrite bind_on_restore by (eapply unpack_uint16_run; [done|exact Hn|exact Hd2|cbn; lia]).
    rewrite step_step. change (3 + 2) with 5. erewrite bind_val by reflexivity. cbn [snd].
    erewrite bind_val by (eapply unpack_accepts; [done|done|exact Hd3|cbn; lia]).
    erewrite bind_val by reflexivity. cbn [snd]. rewrite step_step, !getSize_run by done.
    apply dassert_true. cbn. rewrite u32_id by (unfold is_u32; lia). apply Z.eqb_eq. lia.
  - rewrite Hno. erewrite bind_val; [reflexivity|].
    erewrite bind_on_restore by (eapply gobble_run; [done|exact Hd2|cbn; rewrite u16_id by done; lia|done]).
    unfold mret, M_ret, step_index, ARS.set_index. cbn. rewrite u16_id by done.
    do 3 f_equal. lia.
Qed.

Lemma unpack_all_run ms : forall turns c c' r,
  (length ms < turns)%nat -> ars_ok r -> ARS.exhausted r = false ->
  window r = frames 2 ms -> Forall message_ok ms -> Forall small ms -> receives c ms c' ->
  UP.unpack_all turns (c, r) = (Val tt, (c', step_index (Z.of_nat (length (frames 2 ms))) r)).
Proof.
  induction ms as [|m ms IH]; intros turns c c' r Ht Hr He Hw Hms Hsm Hrec;
    (destruct turns as [|turns]; [cbn in Ht; lia|]); cbn [UP.unpack_all].
  - inversion Hrec; subst. pose proof (window_empty r Hr Hw) as Hf.
    assert (UP.unpack_one (c', r) = (Val false, (c', r))) as Hone.
    { unfold UP.unpack_one, mbind, M_bind, get. by rewrite getSize_run, Hf, Z.sub_diag by done. }
    rewrite (bind_val _ _ _ _ _ Hone). cbn. unfold mret, M_ret.
    unfold step_index, ARS.set_index. rewrite Z.add_0_r. by destruct r.
  - inversion Hms as [|? ? Hm Hms']; subst. inversion Hsm as [|? ? Hs Hsm']; subst.
    change (frames 2 (m :: ms)) with (framed 2 m ++ frames 2 ms) in *.
    pose proof (window_length r Hr) as Hwl. rewrite Hw, length_app in Hwl. pose proof Hr as [].
    set (n := Z.of_nat (length (framed 2 m))) in *.
    assert (exists c1, UP.unpack_one (c, r) = (Val true, (c1, step_index n r)) /\
      receives c1 ms c') as (c1 & Hone & Hrec').
    { inversion Hrec as [|? ? c1 ? ? Ha Hrest|? ? ? ? Hno Hrest]; subst.
      - exists c1. split; [|done]. eapply unpack_one_run; try done. by left.
      - exists c. split; [|done]. eapply unpack_one_run; try done. by right. }
    rewrite (bind_val _ _ _ _ _ Hone). rewrite (IH turns c1 c' (step_index n r)); try done.
    + rewrite step_step, length_app. do 4 f_equal. lia.
    + cbn in Ht. lia.
    + apply step_index_ok; [done|lia..].
    + by apply step_window.
Qed.

(** The buffer [mb] carries the regular data [bs]. *)
Record carries (bs : list Z) (mb : MB.MessageBuffer) : Prop := {
  c_used : MB.nusers mb <> 0;
  c_bytes : bytes_ok (MB.buffer mb);
  c_regular : MB.regular mb = Z.of_nat (length bs);
  c_offset : 0 <= MB.offset mb;
  c_size : MB.regular mb < 4294967296;
  c_data : read_at (MB.offset mb) (length bs) (MB.buffer mb) = Some bs
}.

Lemma store_of_ok bs mb :
  carries bs mb -> ars_ok (UP.store_of mb) /\ window (UP.store_of mb) = bs.
Proof.
  intros []. assert (u32 (MB.regular mb) = Z.of_nat (length bs)) as Er
    by (rewrite u32_id; unfold is_u32; lia).
  revert c_data0. unfold read_at. case_decide as Hl; [|done]. intros Hd. injection Hd as Hd.
  assert (ars_ok (UP.store_of mb)) as Hok.
  { split; cbn; rewrite ?Er; try lia.
    - rewrite length_drop. lia.
    - by apply Forall_drop. }
  split; [done|]. unfold window, UP.store_of. cbn. rewrite Er, Z.sub_0_r, Nat2Z.id. done.
Qed.

Lemma regular_despatch_run b rest mb ms c' (w : UP.World C) :
  UP.work w = b :: rest -> Pool.heap (UP.pool w) !! b = Some mb -> carries (frames 2 ms) mb ->
  Forall message_ok ms -> Forall small ms -> receives (UP.ends w) ms c' ->
  exists pl, UP.despatch w = (Val tt, UP.mkWorld rest c' pl) /\
    Pool.returnBuffer b (UP.pool w) = (Val tt, pl).
Proof.
  intros Hw Hb Hc Hms Hsm Hrec. destruct (store_of_ok _ _ Hc) as [Hok Hwin].
  destruct (returnBuffer_run b (UP.pool w) mb Hb (c_used _ _ Hc)) as (pl & Hret).
  exists pl. split; [|done]. unfold UP.despatch. erewrite bind_val by reflexivity. rewrite Hw.
  erewrite bind_val by (by apply dassert_true). erewrite bind_val by reflexivity.
  erewrite bind_val by (unfold UP.on_pool; rewrite (peek_run _ _ _ Hb); reflexivity).
  cbv zeta. erewrite bind_val.
  2: { cbn [UP.ends]. rewrite (unpack_all_run ms _ (UP.ends w) c'); try done.
       pose proof (window_length _ Hok) as Hl. rewrite getSize_run, <- Hl, Hwin by done.
       pose proof (frames_length_le 2 ms). lia. }
  cbn. erewrite bind_val by (unfold UP.on_pool; cbn [UP.pool]; rewrite Hret; reflexivity).
  unfold modify. cbn. by rewrite Hw.
Qed.

End UnpackerBehaviour.
