(* ===== verification/NetPeer.v ===== *)
(** The payload of a message between nodes: [clientPackPayload] and
    [clientUnpackPayload] of [udpcom/DuecaNetPeer.cxx], and the handling of the
    buffer in [UDPSocketCommunicator::receive].  The master's functions do the
    same once all peers have joined.

    Behind the control block come the size of the regular data in 32 bits,
    the regular data and a piece of bulk data. *)

From S2P Require Import Prelude Bytes Amorph MessageBuffer Transport FillPack FillUnpack Packer.
#[local] Open Scope Z_scope.

Module NP.

(** [NetCommunicator::control_size] *)
Definition control_size : Z := 22.

(** ** Sending *)

(** The packers with the entries they serve: a channel is sent in regular
    messages or in bulk. *)
Record Sender (E1 E2 : Type) := mkSender {
  regular_entries : E1;
  regular_queue : list PackUnit;
  bulk_entries : E2;
  fill_packer : FP.FillPacker;
  fill_maximum : Z
}.
#[global] Arguments mkSender {E1 E2}.
#[global] Arguments regular_entries {E1 E2}.
#[global] Arguments regular_queue {E1 E2}.
#[global] Arguments bulk_entries {E1 E2}.
#[global] Arguments fill_packer {E1 E2}.
#[global] Arguments fill_maximum {E1 E2}.

Section Sending.
Context `{BuildConfig} `{ChannelEntries E1} `{ChannelEntries E2}.
Abbreviation Sdr := (Sender E1 E2).

(** The regular data behind a mark; the result is the size with the mark. *)
Definition regular_part : M (PK.Packing E1) Z :=
  regularsize ← PK.in_packing (on_store (Mark.createMark Mark.T_uint32));
  PK.packWork;;
  PK.in_packing (on_store (Mark.finishMark regularsize)).

(** The store lies over the buffer.  [mark0] is the unset mark of the store;
    a fill packer is present. *)
Definition clientPackPayload (mark0 : Z) : M (Sdr * MB.MessageBuffer) unit := fun '(p, b) =>
  let store := AS.set_index control_size (AS.make (MB.buffer b) (u32 (MB.capacity b)) mark0) in
  if ASSERT_ACTIVE && negb (MB.fill b =? control_size) then (Stuck AssertFailed, (p, b))
  else
    let '(r, w) := regular_part (PK.mkPacking (regular_entries p) (regular_queue p) store) in
    let b := MB.mk (MB.capacity b) (MB.offset b) (MB.regular b) (MB.fill b) (MB.nusers b)
               (MB.origin b) (MB.message_cycle b) (AS.stor (PK.store w)) in
    let p := mkSender (PK.entries w) (PK.work_queue w) (bulk_entries p) (fill_packer p)
               (fill_maximum p) in
    match r with
    | Exn e => (Exn e, (p, b))
    | Stuck f => (Stuck f, (p, b))
    | Val breg =>
        let fill := u64 (MB.fill b + breg) in
        let size := s32 (Z.min (fill_maximum p) (u64 (MB.capacity b - fill))) in
        let '(r, (e, f)) := FP.stuffMessage size (bulk_entries p, fill_packer p) in
        let p := mkSender (regular_entries p) (regular_queue p) e f (fill_maximum p) in
        match r with
        | Exn e => (Exn e, (p, b))
        | Stuck f => (Stuck f, (p, b))
        | Val bs =>
            match write_at fill bs (MB.buffer b) with
            | None => (Stuck OutOfBounds, (p, b))
            | Some buf =>
                (Val tt, (p, MB.mk (MB.capacity b) (MB.offset b) (MB.regular b)
                  (u64 (fill + Z.of_nat (length bs))) (MB.nusers b) (MB.origin b)
                  (MB.message_cycle b) buf))
            end
        end
    end.

End Sending.

(** ** Receiving *)

(** The unpackers, the channel ends they serve and the pool. *)
Record Receiver (C1 C2 : Type) := mkReceiver {
  regular_work : list nat;
  regular_ends : C1;
  fill_unpacker : FU.FillUnpacker;
  bulk_ends : C2;
  data_comm : Pool.PacketCommunicator
}.
#[global] Arguments mkReceiver {C1 C2}.
#[global] Arguments regular_work {C1 C2}.
#[global] Arguments regular_ends {C1 C2}.
#[global] Arguments fill_unpacker {C1 C2}.
#[global] Arguments bulk_ends {C1 C2}.
#[global] Arguments data_comm {C1 C2}.

Section Receiving.
Context `{BuildConfig} `{ChannelEnds C1} `{ChannelEnds C2}.
Abbreviation Rcv := (Receiver C1 C2).

Definition on_unpacker {A} (m : M (UP.World C1) A) : M Rcv A := fun w =>
  let (r, u) := m (UP.mkWorld (regular_work w) (regular_ends w) (data_comm w)) in
  (r, mkReceiver (UP.work u) (UP.ends u) (fill_unpacker w) (bulk_ends w) (UP.pool u)).
Definition on_fill_unpacker {A} (m : M (FU.World C2) A) : M Rcv A := fun w =>
  let (r, u) := m (FU.mkWorld (fill_unpacker w) (bulk_ends w) (data_comm w)) in
  (r, mkReceiver (regular_work w) (regular_ends w) (FU.unpacker u) (FU.ends u) (FU.pool u)).
Definition on_pool {A} (m : M Pool.PacketCommunicator A) : M Rcv A := fun w =>
  let (r, p) := m (data_comm w) in
  (r, mkReceiver (regular_work w) (regular_ends w) (fill_unpacker w) (bulk_ends w) p).

(** The store is only used to read the size; the ticker is told the time by
    the caller. *)
Definition clientUnpackPayload (i : nat) : M Rcv unit :=
  b ← on_pool (Pool.on i get);
  let store := ARS.set_index control_size (ARS.make (MB.buffer b) (u32 (MB.fill b))) in
  match ARS.unPackData_uint32 store with
  | (Exn e, _) => throw e
  | (Stuck f, _) => stuck f
  | (Val regularsize, _) =>
      on_pool (Pool.on i (modify (fun b =>
        MB.set_use (control_size + 4) regularsize (MB.fill b) (MB.nusers b) b)));;
      on_unpacker (UP.acceptBuffer i);;
      when (u64 (regularsize + (control_size + 4)) <? MB.fill b)
        (on_fill_unpacker (FU.acceptBuffer i));;
      on_pool (Pool.returnBuffer i)
  end.

(** [receive]: [recvfrom] leaves what fits of the datagram in the buffer; the
    callback of a peer that is known is the unpacking. *)
Definition receive (content : list Z) (sender : Z) (datagram : list Z) : M Rcv unit :=
  i ← on_pool (Pool.getBuffer content);
  b ← on_pool (Pool.on i get);
  let data := take (Z.to_nat (MB.capacity b)) datagram in
  let nbytes := Z.of_nat (length data) in
  buf ← of_option OutOfBounds (write_at 0 data (MB.buffer b));
  on_pool (Pool.on i (put (MB.mk (MB.capacity b) (MB.offset b) (MB.regular b) nbytes
    (MB.nusers b) sender (MB.message_cycle b) buf)));;
  if nbytes =? 0 then on_pool (Pool.returnBuffer i) else clientUnpackPayload i.

End Receiving.
End NP.

(** ** Behaviour *)

(** What follows the control block: the size of the regular data, the regular
    data and the bulk data. *)
Definition payload (ms : list Message) (bs : list Z) : list Z :=
  be_bytes 4 (Z.of_nat (length (frames 2 ms))) ++ frames 2 ms ++ bs.

Lemma payload_length ms bs :
  Z.of_nat (length (payload ms bs)) =
    4 + Z.of_nat (length (frames 2 ms)) + Z.of_nat (length bs).
Proof. unfold payload. rewrite !length_app, be_bytes_length. lia. Qed.

Lemma frames_ok n ms : Forall message_ok ms -> bytes_ok (frames n ms).
Proof.
  induction 1 as [|m ms [_ Hm] _ IH]; [constructor|].
  apply Forall_app. split; [by apply framed_ok|exact IH].
Qed.

Lemma script_ok `{ChannelEntriesLaws E} e us ms e' : script e us ms e' -> Forall message_ok ms.
Proof.
  induction 1 as [|e u m e1 us ms e2 Hu _ IH]; constructor; [|done].
  by destruct (sends_message _ _ _ _ Hu).
Qed.

Section RegularPart.
Context `{BuildConfig} `{ChannelEntriesLaws E}.

(** A mark of 32 bits in front of the last [length bs] bytes of a store. *)
Lemma finish_at s pre junk bs :
  as_ok s -> contents s = pre ++ junk ++ bs -> length junk = 4%nat ->
  exists s2, Mark.finishMark (Mark.mk Mark.T_uint32 (Z.of_nat (length pre))) s
      = (Val (4 + Z.of_nat (length bs)), s2) /\
    as_ok s2 /\ AS.index s2 = AS.index s /\ length (AS.stor s2) = length (AS.stor s) /\
    contents s2 = pre ++ be_bytes 4 (Z.of_nat (length bs)) ++ bs.
Proof.
  intros Hs Hb Hj. pose proof (contents_length s Hs) as Hl. rewrite Hb, !length_app, Hj in Hl.
  pose proof Hs as []. set (n := Z.of_nat (length bs)) in *. set (i := Z.of_nat (length pre)) in *.
  exists (AS.set_stor (splice i (be_bytes 4 n) (AS.stor s)) s).
  assert (length (splice i (be_bytes 4 n) (AS.stor s)) = length (AS.stor s)) as Esl
    by (apply splice_length; rewrite ?be_bytes_length; lia).
  split; [|split; [|split_and!; try done]].
  - unfold Mark.finishMark, Mark.markrange, Mark.markgross, mbind, M_bind, get.
    cbn [Mark.mtype Mark.index Mark.markpoint Mark.sizeof Mark.limit_max].
    replace (u32 (AS.index s - i)) with (4 + n) by (rewrite u32_id; [lia|unfold is_u32; lia]).
    replace (u64 (4 + n - 4)) with n by (rewrite u64_id; [lia|unfold is_u64; lia]).
    rewrite (proj2 (Z.ltb_ge _ _)) by lia. rewrite mark_rep_bytes. cbn [Mark.sizeof].
    change (Z.to_nat 4) with 4%nat. by rewrite memcpy_to_run by (rewrite ?be_bytes_length; lia).
  - split; cbn [AS.set_stor AS.stor AS.capacity AS.index]; rewrite ?Esl; try done.
    apply splice_bytes_ok; [apply be_bytes_ok|done].
  - unfold contents, splice. cbn [AS.set_stor AS.stor AS.index].
    assert (take (Z.to_nat i) (AS.stor s) = pre) as ->.
    { apply (f_equal (take (length pre))) in Hb. rewrite take_app_length in Hb. rewrite <- Hb.
      unfold contents. rewrite take_take. f_equal. lia. }
    rewrite be_bytes_length. apply (f_equal (drop (length pre + 4))) in Hb.
    rewrite app_assoc, drop_app_length' in Hb by (rewrite length_app; lia). rewrite <- Hb.
    unfold contents. rewrite !app_assoc, take_app, length_app, be_bytes_length.
    rewrite take_ge by (rewrite length_app, be_bytes_length; lia). f_equal.
    rewrite skipn_firstn_comm. do 2 f_equal. lia.
Qed.

Definition regular_room (cap : Z) (r1 r2 : list Message) : Prop :=
  match r2 with
  | [] => True
  | m :: _ => cap < 26 + Z.of_nat (length (frames 2 r1)) + Z.of_nat (length (framed 2 m))
  end.

Lemma small_frames ms : Forall small ms ->
  Forall (fun m => Z.of_nat (length (framed 2 m)) < 2147483648) ms.
Proof.
  intros Hs. eapply list.Forall_impl; [exact Hs|]. intros m Hm. rewrite framed_length.
  unfold small in Hm. lia.
Qed.

Lemma regular_part_run e us s ms e' pre :
  as_ok s -> AS.choked s = false -> contents s = pre -> length pre = 22%nat ->
  26 <= AS.capacity s < 2147483648 ->
  script e us ms e' -> Forall small ms ->
  exists e1 us2 s2 r1 r2,
    NP.regular_part (PK.mkPacking e us s) =
      (Val (4 + Z.of_nat (length (frames 2 r1))), PK.mkPacking e1 us2 s2) /\
    ms = r1 ++ r2 /\ as_ok s2 /\ length (AS.stor s2) = length (AS.stor s) /\
    26 + Z.of_nat (length (frames 2 r1)) <= AS.capacity s /\
    contents s2 = pre ++ be_bytes 4 (Z.of_nat (length (frames 2 r1))) ++ frames 2 r1 /\
    script e1 us2 r2 e' /\ regular_room (AS.capacity s) r1 r2.
Proof.
  intros Hs Hc Hb Hpre Hcap Hsc Hsm. pose proof (contents_length s Hs) as Hi.
  rewrite Hb, Hpre in Hi. change (Z.of_nat 22) with 22 in Hi. pose proof Hs as [].
  pose proof (createMark_run Mark.T_uint32 s Hs Hc ltac:(cbn; lia)) as Hm. cbn [Mark.sizeof] in Hm.
  rewrite (proj2 (Z.ltb_ge _ _)) in Hm by lia. rewrite <- Hi in Hm. change (22 + 4) with 26 in Hm.
  set (s1 := AS.set_index 26 s) in *.
  assert (as_ok s1) as Hs1 by (split; cbn; done || lia).
  assert (exists junk, contents s1 = pre ++ junk /\ length junk = 4%nat) as (junk & Hb1 & Hj).
  { exists (drop 22 (contents s1)). rewrite <- Hb. split.
    - rewrite <- (firstn_skipn 22 (contents s1)) at 1. f_equal. unfold contents. cbn.
      by rewrite take_take, <- Hi.
    - rewrite length_drop. pose proof (contents_length s1 Hs1) as Hl1. cbn in Hl1. lia. }
  destruct (pack_loop_run e' us (S (length us)) e s1 ms)
    as (e1 & us2 & s2 & r1 & r2 & Hrun & -> & Hs2 & Hc2 & Hl2 & Hb2 & Hsc2 & Hfull);
    try done; [cbn; lia|cbn; lia|by apply small_frames|].
  rewrite Hb1, <- app_assoc in Hb2.
  destruct (finish_at s2 pre junk (frames 2 r1) Hs2 Hb2 Hj) as (s3 & Hfin & Hs3 & Hi3 & Hl3 & Hb3).
  pose proof (contents_length s2 Hs2) as Hi2. rewrite Hb2, !length_app, Hpre, Hj in Hi2.
  rewrite Hpre in Hfin. change (Z.of_nat 22) with 22 in Hfin.
  exists e1, us2, s3, r1, r2. split_and!; try done.
  - unfold NP.regular_part.
    erewrite bind_val by (unfold PK.in_packing, on_store; cbn; rewrite Hm; reflexivity).
    erewrite bind_val by exact Hrun.
    unfold PK.in_packing, on_store. cbn [fst snd PK.entries PK.store PK.work_queue].
    by rewrite Hfin.
  - by rewrite Hl3, Hl2.
  - destruct Hs2. rewrite Hc2 in *. cbn in *. lia.
  - unfold regular_room, full_for in *. destruct r2; [done|]. rewrite Hc2 in Hfull. cbn [AS.capacity s1 AS.set_index] in Hfull. lia.
Qed.

End RegularPart.

Section SendBehaviour.
Context `{BuildConfig} `{ChannelEntriesLaws E1} `{ChannelEntriesLaws E2}.

(** The bulk part: room for [stuffMessage]. *)
Definition bulk_room (fm cap used : Z) : Z := Z.min fm (cap - used).

(** The state of a sender: [m1] and [m2] are the messages its queues stand
    for, [pend] and [unsent] the bulk data on its way. *)
Record sender_ok (N : Z) (p : NP.Sender E1 E2) (m1 m2 pend : list Message) (unsent : list Z)
    (e1 : E1) (e2 : E2) : Prop := {
  so_regular : script (NP.regular_entries p) (NP.regular_queue p) m1 e1;
  so_small : Forall small m1;
  so_bulk : script (NP.bulk_entries p) (FP.work_queue (NP.fill_packer p)) m2 e2;
  so_fits : Forall (FP.fits N) m2;
  so_fill : FP.fp_ok N (NP.fill_packer p) pend unsent;
  so_max : 0 <= NP.fill_maximum p < 4294967296
}.

(** A buffer to send with its control block. *)
Record send_buffer (cap : Z) (b : MB.MessageBuffer) : Prop := {
  sb_cap : MB.capacity b = cap;
  sb_length : Z.of_nat (length (MB.buffer b)) = cap;
  sb_bytes : bytes_ok (MB.buffer b);
  sb_fill : MB.fill b = NP.control_size
}.

Lemma portion_le size bs : (FP.portion size bs <= length bs)%nat.
Proof. unfold FP.portion. destruct (_ <? _); lia. Qed.
Lemma portion_size size bs : 0 <= size -> Z.of_nat (FP.portion size bs) <= size.
Proof. intros. unfold FP.portion. destruct (_ <? _); lia. Qed.

Lemma clientPackPayload_run N cap p b m1 m2 pend unsent e1 e2 mark0 :
  N < 2147483648 -> 26 <= cap < 2147483648 ->
  sender_ok N p m1 m2 pend unsent e1 e2 -> send_buffer cap b ->
  exists p' b' r1 r2 f1 f2,
    let regular := Z.of_nat (length (frames 2 r1)) in
    let out := FP.to_send (pend ++ f1) unsent in
    let size := bulk_room (NP.fill_maximum p) cap (26 + regular) in
    let n := FP.portion size out in
    NP.clientPackPayload mark0 (p, b) = (Val tt, (p', b')) /\
    m1 = r1 ++ r2 /\ m2 = f1 ++ f2 /\
    sender_ok N p' r2 f2 (FP.to_wait (pend ++ f1) unsent) (drop n out) e1 e2 /\
    take (Z.to_nat (MB.fill b')) (MB.buffer b') =
      take 22 (MB.buffer b) ++ payload r1 (take n out) /\
    26 + regular <= MB.fill b' <= cap /\ regular_room cap r1 r2 /\
    (pend ++ f1 = [] -> f2 = []) /\ Z.of_nat (length (frames 4 (pend ++ f1))) <= N /\
    NP.fill_maximum p' = NP.fill_maximum p /\
    FP.critical_errors (NP.fill_packer p') = FP.critical_errors (NP.fill_packer p).
Proof.
  intros HN Hcap [Hreg Hsm Hbulk Hfit Hfp Hmax] [Hc Hl Hb Hf].
  set (s := AS.set_index NP.control_size (AS.make (MB.buffer b) cap mark0)).
  assert (as_ok s) as Hs by (split; cbn; done || unfold NP.control_size; lia).
  destruct (regular_part_run (NP.regular_entries p) (NP.regular_queue p) s m1 e1
    (take 22 (MB.buffer b)))
    as (g1 & us2 & s2 & r1 & r2 & Hrun & -> & Hs2 & Hl2 & Hroom & Hb2 & Hsc2 & Hrr); try done.
  { rewrite length_take. lia. }
  destruct (FP.stuffMessage_run N unsent e2 (NP.bulk_entries p) (NP.fill_packer p) m2 pend
    (bulk_room (NP.fill_maximum p) cap (26 + Z.of_nat (length (frames 2 r1)))))
    as (g2 & f' & f1 & f2 & Hst & -> & Hfp' & Hsc' & Hpr & Hfl & Hce); try done.
  cbv zeta in Hst. set (out := FP.to_send (pend ++ f1) unsent) in *.
  set (size := bulk_room _ _ _) in *. set (n := FP.portion size out) in *.
  set (rg := Z.of_nat (length (frames 2 r1))) in *.
  assert (AS.capacity s = cap) as Ecs by done. rewrite Ecs in *.
  assert (Z.of_nat n <= size) as Hn by (apply portion_size; unfold size, bulk_room; lia).
  pose proof (portion_le size out) as Hn'. fold n in Hn'.
  assert (length (take n out) = n) as Etn by (rewrite length_take; lia).
  set (fl := 22 + (4 + rg)). set (chunk := take n out) in *.
  assert (0 <= size <= cap - fl) as Hsize by (unfold size, bulk_room, fl; lia).
  assert (AS.index s2 = fl) as Hi2.
  { rewrite <- contents_length, Hb2, !length_app, be_bytes_length, length_take by done.
    unfold fl, rg. lia. }
  assert (length (AS.stor s2) = length (MB.buffer b)) as El2 by done.
  assert (write_at fl chunk (AS.stor s2) = Some (splice fl chunk (AS.stor s2))) as Hwr
    by (apply write_at_some; unfold fl in *; lia).
  exists (NP.mkSender g1 us2 g2 f' (NP.fill_maximum p)),
    (MB.mk cap (MB.offset b) (MB.regular b) (fl + Z.of_nat (length chunk)) (MB.nusers b)
       (MB.origin b) (MB.message_cycle b) (splice fl chunk (AS.stor s2))), r1, r2, f1, f2.
  cbv zeta. fold out rg size n chunk. split_and!; try done; cbn [MB.fill MB.buffer].
  - unfold NP.clientPackPayload. rewrite Hf, Z.eqb_refl, andb_false_r, Hc.
    rewrite u32_id by (unfold is_u32; lia). fold s. rewrite Hrun.
    cbn [MB.fill MB.capacity MB.buffer PK.store PK.entries PK.work_queue NP.fill_maximum
      NP.bulk_entries NP.fill_packer]. unfold NP.control_size.
    change (u64 (22 + (4 + rg))) with (u64 fl).
    rewrite (u64_id fl) by (unfold is_u64, fl in *; lia).
    rewrite (u64_id (cap - fl)) by (unfold is_u64, fl in *; lia).
    replace (s32 (Z.min (NP.fill_maximum p) (cap - fl))) with size.
    2: { unfold size, bulk_room. replace (26 + rg) with fl by (unfold fl; lia).
         rewrite s32_id; [done|unfold is_s32, fl in *; lia]. }
    rewrite Hst, Hwr. cbn. rewrite u64_id by (unfold is_u64, fl in *; lia). done.
  - apply Forall_app in Hsm as [_ Hsm2]. apply Forall_app in Hfit as [_ Hfit2]. by split.
  - replace (Z.to_nat (fl + Z.of_nat (length chunk))) with (Z.to_nat fl + length chunk)%nat
      by (unfold fl; lia).
    rewrite splice_take_end by (unfold fl in *; lia).
    replace (take (Z.to_nat fl) (AS.stor s2)) with (contents s2)
      by (unfold contents; by rewrite Hi2).
    rewrite Hb2. unfold payload. by rewrite <- !app_assoc.
  - unfold fl. lia.
  - unfold fl. lia.
Qed.

End SendBehaviour.

(** *** Receiving *)

(** A buffer that has been received: regular messages [ms], bulk data [bs]. *)
Record loaded (k : nat) (ms : list Message) (bs : list Z) (mb : MB.MessageBuffer) : Prop := {
  l_origin : Z.to_nat (MB.origin mb) = k;
  l_offset : MB.offset mb = 26;
  l_regular : MB.regular mb = Z.of_nat (length (frames 2 ms));
  l_fill : MB.fill mb = MB.regular mb + 26 + Z.of_nat (length bs);
  l_small : MB.fill mb < 4294967296;
  l_bytes : bytes_ok (MB.buffer mb);
  l_frames : read_at 26 (length (frames 2 ms)) (MB.buffer mb) = Some (frames 2 ms);
  l_bulk : read_at (MB.regular mb + 26) (length bs) (MB.buffer mb) = Some bs
}.

Definition holds_data (k : nat) (p : Pool.PacketCommunicator) (i : nat) (ms : list Message)
    (bs : list Z) : Prop :=
  exists mb, Pool.heap p !! i = Some mb /\ loaded k ms bs mb.

Lemma loaded_same k ms bs mb mb' : loaded k ms bs mb -> same_data mb mb' -> loaded k ms bs mb'.
Proof.
  intros [] (E & Ho & Hr & Hf). unfold MB.set_use in E. injection E as Ec Eor Ecy Eb.
  split; congruence.
Qed.

Lemma holds_keeps k us p p' i ms bs :
  keeps us p p' -> i ∈ us -> holds_data k p i ms bs -> holds_data k p' i ms bs.
Proof.
  intros Hk Hi (mb & Hmb & Hl). destruct (Hk i mb Hi Hmb) as (mb' & Hmb' & Hs).
  exists mb'. split; [done|]. by eapply loaded_same.
Qed.

Lemma read_at_app a b c d :
  read_at (Z.of_nat (length a)) (length b) (a ++ b ++ c ++ d) = Some b.
Proof.
  rewrite read_at_some by (rewrite ?length_app; lia).
  by rewrite Nat2Z.id, drop_app_length, take_app_length.
Qed.

(** The datagram at the start of a buffer. *)
Lemma datagram_parts ctl ms bs rest :
  length ctl = 22%nat ->
  let buf := (ctl ++ payload ms bs) ++ rest in
  read_at 26 (length (frames 2 ms)) buf = Some (frames 2 ms) /\
  read_at (Z.of_nat (length (frames 2 ms)) + 26) (length bs) buf = Some bs.
Proof.
  intros Hc buf. unfold buf, payload. set (size := be_bytes 4 (Z.of_nat (length (frames 2 ms)))).
  assert (length (ctl ++ size) = 26%nat) as Hl by (rewrite length_app, Hc; done).
  split.
  - replace ((ctl ++ size ++ frames 2 ms ++ bs) ++ rest)
      with ((ctl ++ size) ++ frames 2 ms ++ bs ++ rest) by by rewrite <- !app_assoc.
    replace 26 with (Z.of_nat (length (ctl ++ size))) by (rewrite Hl; done). apply read_at_app.
  - replace ((ctl ++ size ++ frames 2 ms ++ bs) ++ rest)
      with (((ctl ++ size) ++ frames 2 ms) ++ bs ++ rest ++ [])
      by by rewrite app_nil_r, <- !app_assoc.
    replace (Z.of_nat (length (frames 2 ms)) + 26)
      with (Z.of_nat (length ((ctl ++ size) ++ frames 2 ms)))
      by (rewrite (length_app (ctl ++ size)), Hl; lia).
    apply read_at_app.
Qed.

Section ReceiveBehaviour.
Context `{BuildConfig} `{ChannelEndsLaws C1} `{ChannelEndsLaws C2}.
Implicit Types w : NP.Receiver C1 C2.

Definition set_pool (p : Pool.PacketCommunicator) w : NP.Receiver C1 C2 :=
  NP.mkReceiver (NP.regular_work w) (NP.regular_ends w) (NP.fill_unpacker w)
    (NP.bulk_ends w) p.

Lemma on_data_comm_run {A} (m : M Pool.PacketCommunicator A) w r p :
  m (NP.data_comm w) = (r, p) -> NP.on_pool m w = (r, set_pool p w).
Proof. intros Hm. unfold NP.on_pool. by rewrite Hm. Qed.

(** The buffers in use. *)
Definition in_use w : list nat := NP.regular_work w ++ FU.work (NP.fill_unpacker w).

(** The same receiver with other work and another pool. *)
Definition set_work (rw fw : list nat) (p : Pool.PacketCommunicator) w : NP.Receiver C1 C2 :=
  NP.mkReceiver rw (NP.regular_ends w) (FU.set_work fw (NP.fill_unpacker w)) (NP.bulk_ends w) p.

Lemma unpack_uint32_run n r rest :
  ars_ok r -> is_u32 n ->
  drop (Z.to_nat (ARS.index r)) (ARS.stor r) = be_bytes 4 n ++ rest ->
  ARS.index r + 4 <= ARS.fill_level r ->
  ARS.unPackData_uint32 r = (Val n, step_index 4 r).
Proof.
  intros Hr Hn Hd Hl. pose proof (unPackData_encoded (Vnum Cuint32 n) r rest Hr Hn Hd Hl) as Hu.
  revert Hu. cbn [typeof unPackData]. rewrite fmap_run.
  change (esize _) with 4. destruct (ARS.unPackData_uint32 r) as [[]]; congruence.
Qed.

Lemma size_read ctl ms bs rest mb :
  length ctl = 22%nat -> MB.buffer mb = (ctl ++ payload ms bs) ++ rest ->
  bytes_ok (MB.buffer mb) -> MB.fill mb = Z.of_nat (length (ctl ++ payload ms bs)) ->
  MB.fill mb < 4294967296 ->
  (ARS.unPackData_uint32
    (ARS.set_index NP.control_size (ARS.make (MB.buffer mb) (u32 (MB.fill mb))))).1 =
  Val (Z.of_nat (length (frames 2 ms))).
Proof.
  intros Hc Hb Hok Hf Hlt. pose proof (payload_length ms bs) as Hp.
  rewrite length_app in Hf. rewrite u32_id by (unfold is_u32; lia).
  set (r := ARS.set_index _ _).
  assert (ars_ok r) as Hr.
  { split; cbn; unfold NP.control_size; try done; try lia.
    rewrite Hb, !length_app. lia. }
  erewrite unpack_uint32_run; [done|done|unfold is_u32; lia| |cbn; unfold NP.control_size; lia].
  cbn. rewrite Hb. unfold payload. rewrite <- !app_assoc.
  rewrite drop_app_length' by done. reflexivity.
Qed.

Definition fill_share (bs : list Z) (i : nat) : list nat :=
  if decide (bs = []) then [] else [i].

Lemma accept_regular_run w i us p :
  pool_ok (NP.data_comm w) us -> i ∈ us -> Z.of_nat (length us) < 4294967290 ->
  NP.data_comm w = p ->
  exists p', NP.on_unpacker (UP.acceptBuffer i) w =
      (Val tt, set_work (NP.regular_work w ++ [i]) (FU.work (NP.fill_unpacker w)) p' w) /\
    pool_ok p' (i :: us) /\ keeps us p p' /\ Pool.buffersize p' = Pool.buffersize p.
Proof.
  intros Hp Hi Hf <-. destruct (claim_ok _ us i Hp Hi ltac:(lia)) as (p' & Hc & Hp' & Hk & Hs).
  exists p'. split; [|done].
  unfold NP.on_unpacker, UP.acceptBuffer, UP.on_pool, mbind, M_bind. cbn. rewrite Hc. cbn.
  unfold set_work, FU.set_work. by destruct w as [? ? []].
Qed.

Lemma accept_fill_run w i us p bs :
  pool_ok (NP.data_comm w) us -> i ∈ us -> Z.of_nat (length us) < 4294967290 ->
  NP.data_comm w = p ->
  exists p', when (bool_decide (bs <> [])) (NP.on_fill_unpacker (FU.acceptBuffer i)) w =
      (Val tt, set_work (NP.regular_work w) (FU.work (NP.fill_unpacker w) ++ fill_share bs i) p' w) /\
    pool_ok p' (fill_share bs i ++ us) /\ keeps us p p' /\
    Pool.buffersize p' = Pool.buffersize p.
Proof.
  intros Hp Hi Hf <-. unfold fill_share. destruct (decide (bs = [])) as [->|Hne].
  - exists (NP.data_comm w). rewrite bool_decide_false by naive_solver. cbn [when].
    rewrite app_nil_r. split; [|split; [done|split; [|done]]].
    + unfold set_work, FU.set_work. by destruct w as [? ? []].
    + intros j mb _ Hmb. by exists mb.
  - rewrite bool_decide_true by done. cbn [when].
    destruct (claim_ok _ us i Hp Hi ltac:(lia)) as (p' & Hc & Hp' & Hk & Hs).
    exists p'. split; [|done].
    unfold NP.on_fill_unpacker, FU.acceptBuffer, FU.on_pool, mbind, M_bind. cbn. by rewrite Hc.
Qed.

Lemma return_data_run w i us p :
  pool_ok (NP.data_comm w) (i :: us) -> NP.data_comm w = p ->
  exists p', NP.on_pool (Pool.returnBuffer i) w = (Val tt, set_pool p' w) /\
    pool_ok p' us /\ keeps us p p' /\ Pool.buffersize p' = Pool.buffersize p.
Proof.
  intros Hp <-. destruct (return_ok _ _ _ Hp) as (p' & Hr & Hp' & Hk & Hs).
  exists p'. split; [by apply on_data_comm_run|done].
Qed.

Lemma clientUnpackPayload_run k ctl ms bs rest mb w i us :
  pool_ok (NP.data_comm w) (i :: us) -> i ∉ us -> Z.of_nat (length us) < 4294967280 ->
  Pool.heap (NP.data_comm w) !! i = Some mb -> length ctl = 22%nat ->
  MB.buffer mb = (ctl ++ payload ms bs) ++ rest -> Z.to_nat (MB.origin mb) = k ->
  MB.fill mb = Z.of_nat (length (ctl ++ payload ms bs)) -> MB.fill mb < 4294967296 ->
  exists p', NP.clientUnpackPayload i w =
      (Val tt, set_work (NP.regular_work w ++ [i])
        (FU.work (NP.fill_unpacker w) ++ fill_share bs i) p' w) /\
    pool_ok p' (i :: fill_share bs i ++ us) /\ keeps us (NP.data_comm w) p' /\
    holds_data k p' i ms bs /\ Pool.buffersize p' = Pool.buffersize (NP.data_comm w).
Proof.
  intros Hp Hi Hfew Hmb Hctl Hbuf Hor Hfill Hlt. set (p := NP.data_comm w) in *.
  destruct (po_buffer _ _ Hp i mb Hmb) as (Hn & Hcap & Hlen & Hok).
  pose proof (size_read ctl ms bs rest mb Hctl Hbuf Hok Hfill Hlt) as Hsize.
  destruct (datagram_parts ctl ms bs rest Hctl) as [Hr1 Hr2].
  pose proof (payload_length ms bs) as Hpl. rewrite length_app in Hfill.
  set (rg := Z.of_nat (length (frames 2 ms))) in *.
  set (mb1 := MB.set_use 26 rg (MB.fill mb) (MB.nusers mb) mb).
  assert (loaded k ms bs mb1) as Hld by (split; cbn; rewrite ?Hbuf; try done; rewrite <- ?Hbuf; done || lia).
  set (p1 := Pool.set_heap (<[i:=mb1]> (Pool.heap p)) p).
  assert (pool_ok p1 (i :: us)) as Hp1.
  { eapply pool_update; try done; [apply list_elem_of_here..|cbn in *; lia]. }
  assert (keeps us p p1) as Hk1 by (eapply keeps_buffer; [exact Hmb|reflexivity|done]).
  assert (holds_data k p1 i ms bs) as Hh1.
  { exists mb1. split; [|done]. cbn. apply list_lookup_insert_eq. by eapply lookup_lt_Some. }
  set (w1 := set_pool p1 w).
  destruct (accept_regular_run w1 i (i :: us) p1 Hp1) as (p2 & Hacc & Hp2 & Hk2 & Hs2);
    [apply list_elem_of_here|cbn; lia|done|].
  set (w2 := set_work (NP.regular_work w1 ++ [i]) (FU.work (NP.fill_unpacker w1)) p2 w1) in *.
  destruct (accept_fill_run w2 i (i :: i :: us) p2 bs Hp2) as (p3 & Hacf & Hp3 & Hk3 & Hs3);
    [apply list_elem_of_here|cbn; lia|done|].
  set (w3 := set_work (NP.regular_work w2) (FU.work (NP.fill_unpacker w2) ++ fill_share bs i) p3 w2)
    in *.
  assert (fill_share bs i ++ i :: i :: us ≡ₚ i :: i :: fill_share bs i ++ us) as Hperm by solve_Permutation.
  destruct (return_data_run w3 i (i :: fill_share bs i ++ us) p3) as (p4 & Hret & Hp4 & Hk4 & Hs4);
    [by eapply pool_perm|done|].
  exists p4. split_and!; [|done| | |by rewrite Hs4, Hs3, Hs2].
  - unfold NP.clientUnpackPayload. erewrite bind_val by (apply on_data_comm_run, peek_run; exact Hmb).
    cbv zeta. destruct (ARS.unPackData_uint32 _) as [o x]. cbn [fst] in Hsize. subst o.
    erewrite bind_val by (apply on_data_comm_run; eapply on_run; [exact Hmb|reflexivity]).
    change (NP.control_size + 4) with 26. fold rg mb1 p p1.
    replace (set_pool p1 (set_pool p w)) with w1 by done.
    erewrite bind_val by exact Hacc.
    replace (u64 (rg + 26) <? MB.fill mb) with (bool_decide (bs <> [])).
    2: { rewrite u64_id by (unfold is_u64; lia). apply eq_true_iff_eq.
         rewrite bool_decide_eq_true, Z.ltb_lt. destruct bs; [cbn in *|cbn in *; split; intros; done || lia].
         split; [done|lia]. }
    erewrite bind_val by exact Hacf. exact Hret.
  - eapply keeps_trans; [|eapply keeps_trans; [|eapply keeps_trans; [|exact Hk1|exact Hk2]|
      exact Hk3]|exact Hk4]; set_solver.
  - eapply (holds_keeps k _ p3); [exact Hk4|apply list_elem_of_here|].
    eapply (holds_keeps k _ p2); [exact Hk3|apply list_elem_of_here|].
    eapply (holds_keeps k _ p1); [exact Hk2|apply list_elem_of_here|done].
Qed.

Lemma receive_run k content ctl ms bs w us :
  let p := NP.data_comm w in
  let datagram := ctl ++ payload ms bs in
  pool_ok p us -> Z.of_nat (length us) < 4294967280 ->
  Z.of_nat (length content) = Pool.buffersize p -> bytes_ok content ->
  length ctl = 22%nat -> bytes_ok datagram -> 0 <= k ->
  Z.of_nat (length datagram) <= Pool.buffersize p -> Pool.buffersize p < 4294967296 ->
  exists i p', NP.receive content k datagram w =
      (Val tt, set_work (NP.regular_work w ++ [i])
        (FU.work (NP.fill_unpacker w) ++ fill_share bs i) p' w) /\
    (i ∉ us) /\ pool_ok p' (i :: fill_share bs i ++ us) /\ keeps us p p' /\
    holds_data (Z.to_nat k) p' i ms bs /\ Pool.buffersize p' = Pool.buffersize p.
Proof.
  intros p datagram Hp Hfew Hcl Hcb Hctl Hdb Hk Hdl Hsz.
  destruct (get_ok p us content Hp Hcl Hcb ltac:(lia)) as (i & p1 & Hget & Hi & Hp1 & Hk1 & Hs1).
  destruct (lookup_lt_is_Some_2 (Pool.heap p1) i) as [mb Hmb].
  { apply (po_users _ _ Hp1), list_elem_of_here. }
  destruct (po_buffer _ _ Hp1 i mb Hmb) as (Hn & Hcap & Hlen & Hok).
  pose proof (payload_length ms bs) as Hpl.
  assert (Z.of_nat (length datagram) = 22 + Z.of_nat (length (payload ms bs))) as Edl
    by (unfold datagram; rewrite length_app; lia).
  set (buf := datagram ++ drop (length datagram) (MB.buffer mb)).
  assert (write_at 0 datagram (MB.buffer mb) = Some buf) as Hwr by (by rewrite write_at_some by lia).
  set (mb2 := MB.mk (MB.capacity mb) (MB.offset mb) (MB.regular mb) (Z.of_nat (length datagram))
    (MB.nusers mb) k (MB.message_cycle mb) buf).
  set (p2 := Pool.set_heap (<[i:=mb2]> (Pool.heap p1)) p1).
  pose proof (write_at_length _ _ _ _ Hwr) as Hbl.
  assert (pool_ok p2 (i :: us)) as Hp2.
  { eapply pool_update; try done; cbn [MB.capacity MB.buffer mb2]; try apply list_elem_of_here.
    - by rewrite Hbl.
    - exact (write_at_bytes_ok _ _ _ _ Hok Hdb Hwr).
    - cbn. lia. }
  assert (keeps us p1 p2) as Hk2 by (eapply keeps_buffer; [exact Hmb|reflexivity|done]).
  destruct (clientUnpackPayload_run (Z.to_nat k) ctl ms bs (drop (length datagram) (MB.buffer mb)) mb2
    (set_pool p2 w) i us) as (p3 & Hrun & Hp3 & Hk3 & Hh3 & Hs3); try done.
  { cbn. apply list_lookup_insert_eq. by eapply lookup_lt_Some. }
  { cbn. lia. }
  exists i, p3. split_and!; try done; [|by eapply keeps_trans; [|eapply keeps_trans|]|by rewrite Hs3].
  unfold NP.receive. erewrite bind_val by (apply on_data_comm_run; exact Hget).
  erewrite bind_val by (apply on_data_comm_run, peek_run; exact Hmb).
  cbv zeta. fold datagram. rewrite (take_ge datagram) by lia. rewrite Hwr.
  erewrite bind_val by reflexivity.
  erewrite bind_val by (apply on_data_comm_run; eapply on_run; [exact Hmb|reflexivity]).
  rewrite (proj2 (Z.eqb_neq _ _)) by lia. exact Hrun.
Qed.

End ReceiveBehaviour.
