(* ===== verification/BulkStream.v ===== *)
(** The bulk data between a [FillPacker] and a [FillUnpacker] as a sequence of
    bytes: the stores that were filled one after the other, cut into chunks
    wherever a message had room, and put together again.

    The unpacker starts its buffer afresh when it is empty, so the bytes of one
    store must end with a message: this is why a chunk never spans two
    stores, and why a buffer as large as the packer's is enough. *)

From S2P Require Import Prelude Bytes Amorph Transport FillPack FillUnpack.
#[local] Open Scope Z_scope.

(** [part] is a beginning of the first message of [ms] that is not complete. *)
Definition starts (part : list Z) (ms : list Message) : Prop :=
  part = [] \/ exists m ms', ms = m :: ms' /\ (length part < length (framed 4 m))%nat.

(** [flow N d part net unsent ms]: the receiver holds [part] behind [d] bytes it
    is done with, the chunks [net] are under way and [unsent] is left of the
    store that is being sent; together they are the messages [ms], in stores
    of at most [N] bytes. *)
Inductive flow (N : Z) : Z -> list Z -> list (list Z) -> list Z -> list Message -> Prop :=
  | flow_last d part net unsent ms :
      part ++ mjoin net ++ unsent = frames 4 ms ->
      0 <= d -> d + Z.of_nat (length (frames 4 ms)) <= N ->
      Forall (fun c => c <> []) net -> (ms = [] -> d = 0) -> starts part ms ->
      flow N d part net unsent ms
  | flow_more d part g net unsent ms ms' :
      part ++ mjoin g = frames 4 ms -> ms <> [] ->
      0 <= d -> d + Z.of_nat (length (frames 4 ms)) <= N ->
      Forall (fun c => c <> []) g -> starts part ms ->
      flow N 0 [] net unsent ms' ->
      flow N d part (g ++ net) unsent (ms ++ ms').

Lemma flow_empty N : 0 <= N -> flow N 0 [] [] [] [].
Proof. intros. apply flow_last; cbn; try done; by left. Qed.

Lemma join_nonempty (g : list (list Z)) :
  Forall (fun c => c <> []) g -> mjoin g = [] -> g = [].
Proof.
  intros Hg. destruct Hg as [|c g Hc _]; [done|]. destruct c; [done|]. by intros.
Qed.

(** A beginning of a sequence of messages: the complete ones and the rest. *)
Lemma split_messages ms : forall w tl,
  w ++ tl = frames 4 ms ->
  exists ms1 ms2 part, ms = ms1 ++ ms2 /\ w = frames 4 ms1 ++ part /\
    part ++ tl = frames 4 ms2 /\ starts part ms2.
Proof.
  induction ms as [|m ms IH]; intros w tl Hw.
  - apply app_nil in Hw as [-> ->]. exists [], [], []. split_and!; try done. by left.
  - change (frames 4 (m :: ms)) with (framed 4 m ++ frames 4 ms) in Hw.
    destruct (decide (length w < length (framed 4 m))%nat) as [Hlt|Hge].
    + exists [], (m :: ms), w. split_and!; try done. right. by exists m, ms.
    + assert (w = framed 4 m ++ drop (length (framed 4 m)) w) as Ew.
      { rewrite <- (firstn_skipn (length (framed 4 m)) w) at 1. f_equal.
        rewrite <- (take_app_le w tl) by lia. by rewrite Hw, take_app_length. }
      destruct (IH (drop (length (framed 4 m)) w) tl) as (ms1 & ms2 & part & -> & E1 & E2 & Hs).
      { rewrite Ew, <- app_assoc in Hw. by apply app_inv_head in Hw. }
      exists (m :: ms1), ms2, part. split_and!; try done.
      change (frames 4 (m :: ms1)) with (framed 4 m ++ frames 4 ms1).
      by rewrite <- app_assoc, <- E1.
Qed.

Lemma starts_partial N part tl ms :
  N < 4294967296 -> starts part ms -> part ++ tl = frames 4 ms ->
  Forall message_ok ms -> Forall (FP.fits N) ms -> FU.partial part.
Proof.
  intros HN [->|(m & ms' & -> & Hl)] He Hok Hfit; [by left|]. right.
  inversion Hok as [|? ? Hm _]; subst. inversion Hfit as [|? ? Hf _]; subst.
  change (frames 4 (m :: ms')) with (framed 4 m ++ frames 4 ms') in He.
  exists m, (drop (length part) (framed 4 m)). unfold FP.fits in Hf. split_and!; try done; [| |lia].
  - rewrite <- (firstn_skipn (length part) (framed 4 m)) at 2. f_equal.
    rewrite <- (take_app_le _ (frames 4 ms')) by lia. by rewrite <- He, take_app_length.
  - intros E. apply (f_equal length) in E. rewrite length_drop, length_nil in E. lia.
Qed.

Lemma starts_nil part ms : starts part ms -> ms = [] -> part = [].
Proof. intros [->|(m & ms' & -> & _)]; done. Qed.

Lemma starts_incomplete part ms : starts part ms -> ms <> [] -> part <> frames 4 ms.
Proof.
  intros [->|(m & ms' & -> & Hl)] Hn E.
  - by apply Hn, (frames_empty 4).
  - apply (f_equal length) in E. change (frames 4 (m :: ms')) with (framed 4 m ++ frames 4 ms') in E.
    rewrite length_app in E. lia.
Qed.

(** The packer starts on the next store. *)
Lemma flow_load N d part net ms b :
  flow N d part net [] ms -> Z.of_nat (length (frames 4 b)) <= N ->
  flow N d part net (frames 4 b) (ms ++ b).
Proof.
  intros Hf Hb. remember [] as u eqn:Eu. revert Eu.
  induction Hf as [d part net u ms He Hd Hl Hn Hz Hs|d part g net u ms ms' He Hne Hd Hl Hg Hs _ IH];
    intros ->.
  - rewrite app_nil_r in He. destruct (decide (ms = [])) as [->|Hne].
    + apply app_nil in He as [-> Ej]. apply join_nonempty in Ej as ->; [|done].
      rewrite Hz by done. apply flow_last; cbn; try done; by left.
    + rewrite <- (app_nil_r net). apply flow_more; try done.
      apply flow_last; cbn; try done; by left.
  - rewrite <- app_assoc. by apply flow_more, IH.
Qed.

(** A chunk is sent. *)
Lemma flow_send N d part net c unsent ms :
  c <> [] -> flow N d part net (c ++ unsent) ms -> flow N d part (net ++ [c]) unsent ms.
Proof.
  intros Hc Hf. remember (c ++ unsent) as u eqn:Eu. revert Eu.
  induction Hf as [d part net u ms He Hd Hl Hn Hz Hs|d part g net u ms ms' He Hne Hd Hl Hg Hs _ IH];
    intros ->.
  - apply flow_last; try done.
    + rewrite join_app. cbn. by rewrite app_nil_r, <- app_assoc.
    + apply Forall_app. split; [done|]. by constructor.
  - rewrite <- app_assoc. by apply flow_more, IH.
Qed.

(** A chunk arrives: what it completes, and what is left behind it. *)
Lemma flow_receive N d part c net unsent ms :
  N < 4294967296 -> flow N d part (c :: net) unsent ms ->
  Forall message_ok ms -> Forall (FP.fits N) ms ->
  exists ms1 ms2 part', ms = ms1 ++ ms2 /\ c <> [] /\
    part ++ c = frames 4 ms1 ++ part' /\ FU.partial part' /\
    d + Z.of_nat (length (part ++ c)) <= N /\
    flow N (FU.next_start (d + Z.of_nat (length (frames 4 ms1))) part') part' net unsent ms2.
Proof.
  intros HN Hf Hok Hfit.
  inversion Hf as [d0 p0 n0 u0 ms0 He Hd Hl Hn Hz Hs|
    d0 p0 g n0 u0 ms0 ms' He Hne Hd Hl Hg Hs Hrest]; subst.
  - inversion Hn as [|? ? Hc Hn']; subst. cbn in He. rewrite <- app_assoc, app_assoc in He.
    destruct (split_messages _ _ _ He) as (ms1 & ms2 & part' & -> & E1 & E2 & Hs').
    apply Forall_app in Hok as [_ Hok2]. apply Forall_app in Hfit as [_ Hfit2].
    rewrite frames_app, length_app in Hl. pose proof (f_equal length E2) as EL.
    rewrite length_app in EL.
    exists ms1, ms2, part'. split_and!; try done.
    + by eapply starts_partial.
    + rewrite E1, length_app. lia.
    + apply flow_last; try done; unfold FU.next_start; case_decide; try lia.
      intros Hm. by rewrite (starts_nil _ _ Hs' Hm) in *.
  - destruct g as [|c' g].
    { exfalso. rewrite app_nil_r in He. by eapply starts_incomplete. }
    cbn in *. simplify_eq. inversion Hg as [|? ? Hc Hg']; subst.
    rewrite app_assoc in He.
    destruct (split_messages _ _ _ He) as (ms1 & ms2 & part' & -> & E1 & E2 & Hs').
    rewrite !Forall_app in Hok, Hfit. destruct Hok as [[_ Hok2] _], Hfit as [[_ Hfit2] _].
    rewrite frames_app, length_app in Hl. pose proof (f_equal length E2) as EL.
    rewrite length_app in EL.
    exists ms1, (ms2 ++ ms'), part'. rewrite <- app_assoc. split_and!; try done.
    + by eapply starts_partial.
    + rewrite E1, length_app. lia.
    + destruct (decide (ms2 = [])) as [->|Hne2].
      * rewrite (starts_nil _ _ Hs' eq_refl) in *. cbn in E2.
        apply join_nonempty in E2 as ->; [|done]. done.
      * apply flow_more; try done; unfold FU.next_start; case_decide; lia.
Qed.

(** Nothing under way: everything has arrived. *)
Lemma flow_done N d part ms : flow N d part [] [] ms -> ms = [].
Proof.
  inversion 1 as [d0 p0 n0 u0 ms0 He Hd Hl Hn Hz Hs|
    d0 p0 g n0 u0 ms0 ms' He Hne Hd Hl Hg Hs Hrest Ed Ep Eg]; subst.
  - cbn in He. rewrite app_nil_r in He. destruct (decide (ms = [])) as [|Hne]; [done|].
    by destruct (starts_incomplete _ _ Hs Hne).
  - exfalso. apply app_nil in Eg as [-> _]. rewrite app_nil_r in He.
    by eapply starts_incomplete.
Qed.

(** The store that is sent next. *)
Lemma flow_switch N d part net unsent ms b :
  flow N d part net unsent ms -> Z.of_nat (length (frames 4 b)) <= N ->
  flow N d part net (FP.to_send b unsent) (ms ++ (if decide (unsent = []) then b else [])).
Proof.
  intros Hf Hb. unfold FP.to_send. case_decide; subst.
  - by apply flow_load.
  - by rewrite app_nil_r.
Qed.

(** A chunk that may be empty. *)
Lemma flow_piece N d part net c unsent ms :
  flow N d part net (c ++ unsent) ms ->
  flow N d part (net ++ filter (fun c => c <> []) [c]) unsent ms.
Proof.
  intros Hf. rewrite filter_cons, filter_nil. case_decide as Hc.
  - by apply flow_send.
  - subst. by rewrite app_nil_r.
Qed.

(** What is left of a store is part of the messages. *)
Lemma flow_unsent N d part net unsent ms :
  flow N d part net unsent ms -> (length unsent <= length (frames 4 ms))%nat.
Proof.
  induction 1 as [d part net u ms He|d part g net u ms ms' He _ _ _ _ _ _ IH].
  - rewrite <- He, !length_app. lia.
  - rewrite frames_app, length_app. lia.
Qed.
