(* ===== verification/DataLink.v ===== *)
(** Two nodes and the network between them: what the channels of one node
    write is packed ([FillPack], [Packer]), sent in the payload of messages,
    and unpacked for the channel ends of the other ([NetPeer], [FillUnpack]).

    The steps may come in any order, as the activities of the two nodes do;
    the network keeps the order of the messages and loses none, which the
    communicator sees to. *)

From S2P Require Import Prelude Bytes Amorph MessageBuffer Transport FillPack FillUnpack.
From S2P Require Import Packer NetPeer BulkStream.
#[local] Open Scope Z_scope.

Module DL.

Record Link (E1 E2 C1 C2 : Type) := mkLink {
  sender : NP.Sender E1 E2;
  network : list (list Z);
  receiver : NP.Receiver C1 C2
}.
#[global] Arguments mkLink {E1 E2 C1 C2}.
#[global] Arguments sender {E1 E2 C1 C2}.
#[global] Arguments network {E1 E2 C1 C2}.
#[global] Arguments receiver {E1 E2 C1 C2}.

(** A channel entry that was written notifies its packer; [content] is what
    [new] returns, should the pool be empty. *)
Inductive Op (E1 E2 : Type) :=
  | WriteRegular (e : E1) (u : PackUnit)
  | WriteBulk (e : E2) (u : PackUnit)
  | Send (mark0 : Z) (b : MB.MessageBuffer)
  | Arrive (content : list Z)
  | UnpackRegular
  | UnpackBulk.
#[global] Arguments WriteRegular {E1 E2}.
#[global] Arguments WriteBulk {E1 E2}.
#[global] Arguments Send {E1 E2}.
#[global] Arguments Arrive {E1 E2}.
#[global] Arguments UnpackRegular {E1 E2}.
#[global] Arguments UnpackBulk {E1 E2}.

Section Link.
Context `{BuildConfig} `{ChannelEntries E1} `{ChannelEntries E2} `{ChannelEnds C1} `{ChannelEnds C2}.
Abbreviation Lnk := (Link E1 E2 C1 C2).

Definition notify (u : PackUnit) (q : list PackUnit) : list PackUnit :=
  notification (entry u) (tick u) (idx u) q.

Definition on_receiver {A} (m : M (NP.Receiver C1 C2) A) : M Lnk A := fun s =>
  let (r, w) := m (receiver s) in (r, mkLink (sender s) (network s) w).

Definition write_regular (e : E1) (u : PackUnit) (s : Lnk) : Lnk :=
  let p := sender s in
  mkLink (NP.mkSender e (notify u (NP.regular_queue p)) (NP.bulk_entries p) (NP.fill_packer p)
    (NP.fill_maximum p)) (network s) (receiver s).
Definition write_bulk (e : E2) (u : PackUnit) (s : Lnk) : Lnk :=
  let p := sender s in
  mkLink (NP.mkSender (NP.regular_entries p) (NP.regular_queue p) e
    (FP.set_queue (notify u (FP.work_queue (NP.fill_packer p))) (NP.fill_packer p))
    (NP.fill_maximum p)) (network s) (receiver s).

Definition send (mark0 : Z) (b : MB.MessageBuffer) : M Lnk unit := fun s =>
  let '(r, (p, b')) := NP.clientPackPayload mark0 (sender s, b) in
  match r with
  | Val _ => (Val tt, mkLink p (network s ++ [take (Z.to_nat (MB.fill b')) (MB.buffer b')])
                        (receiver s))
  | Exn e => (Exn e, mkLink p (network s) (receiver s))
  | Stuck f => (Stuck f, mkLink p (network s) (receiver s))
  end.

Definition arrive (k : Z) (content : list Z) : M Lnk unit := fun s =>
  match network s with
  | d :: net => let (r, w) := NP.receive content k d (receiver s) in (r, mkLink (sender s) net w)
  | [] => (Val tt, s)
  end.

Definition do_op (k : Z) (op : Op E1 E2) : M Lnk unit :=
  match op with
  | WriteRegular e u => modify (write_regular e u)
  | WriteBulk e u => modify (write_bulk e u)
  | Send mark0 b => send mark0 b
  | Arrive content => arrive k content
  | UnpackRegular => on_receiver (NP.on_unpacker UP.despatch)
  | UnpackBulk => on_receiver (NP.on_fill_unpacker FU.despatch)
  end.

Fixpoint exec (k : Z) (ops : list (Op E1 E2)) : M Lnk unit :=
  match ops with
  | [] => mret tt
  | op :: ops => do_op k op;; exec k ops
  end.

(** As many steps as there is work for. *)
Definition drain (k : Z) (op : Op E1 E2) (len : Lnk -> nat) : M Lnk unit :=
  s ← get; exec k (replicate (len s) op).

Definition arrivals (s : Lnk) : nat := length (network s).
Definition regular_left (s : Lnk) : nat := length (NP.regular_work (receiver s)).
Definition bulk_left (s : Lnk) : nat := length (FU.work (NP.fill_unpacker (receiver s))).

(** A message is sent and all that is on its way is received and unpacked. *)
Definition round (k : Z) (mark0 : Z) (b : MB.MessageBuffer) (content : list Z) : M Lnk unit :=
  send mark0 b;;
  drain k (Arrive content) arrivals;;
  drain k UnpackRegular regular_left;;
  drain k UnpackBulk bulk_left.

Fixpoint rounds (n : nat) (k mark0 : Z) (b : MB.MessageBuffer) (content : list Z) : M Lnk unit :=
  match n with
  | O => mret tt
  | S n => round k mark0 b content;; rounds n k mark0 b content
  end.

End Link.
End DL.

(** ** The two nodes as they are configured *)

Record LinkConfig := {
  message_size : Z;
  store_size : Z;
  fill_buffer : Z;
  pool_buffer : Z;
  send_order : Z
}.

Record config_ok (g : LinkConfig) : Prop := {
  cf_message : 26 <= message_size g <= pool_buffer g;
  cf_pool : pool_buffer g < 2147483648;
  cf_store : 256 <= store_size g <= fill_buffer g;
  cf_fill : fill_buffer g < 2147483648;
  cf_order : 0 <= send_order g
}.

(** What [new] returns at the start, and members that are not set. *)
Record Memory := {
  store_areas : list Z * list Z;
  buffer_areas : nat -> list Z;
  pool_areas : list (list Z);
  unset_index : Z;
  unset_mark : Z
}.

Definition area (n : Z) (l : list Z) : Prop := Z.of_nat (length l) = n /\ bytes_ok l.

Record memory_ok (g : LinkConfig) (m : Memory) : Prop := {
  mo_stores : area (store_size g) (store_areas m).1 /\ area (store_size g) (store_areas m).2;
  mo_buffers ii : area (fill_buffer g) (buffer_areas m ii);
  mo_pool : Forall (area (pool_buffer g)) (pool_areas m)
}.

(** The two nodes at the start: [own] is the place of the receiver among
    [senders], [fm] the maximum of bulk data in a message. *)
Definition start `{BuildConfig} `{ChannelEntries E1} `{ChannelEntries E2} {C1 C2}
    (g : LinkConfig) (m : Memory) (own senders : nat) (fm : Z)
    (e1 : E1) (e2 : E2) (c1 : C1) (c2 : C2) : option (DL.Link E1 E2 C1 C2) :=
  let packer := FP.mk [AS.make_empty (unset_mark m); AS.make_empty (unset_mark m)] 0 0 0
    (unset_index m) (store_size g) [] 0 in
  let unpacker := FU.mk [] [] (fill_buffer g) [] 0 in
  match FP.complete (store_areas m) (e2, packer),
        Pool.construct (pool_areas m) (Pool.mk [] [] (pool_buffer g)) with
  | (Val true, (e2, p)), (Val _, pool) =>
      if FU.complete unpacker then
        Some (DL.mkLink (NP.mkSender e1 [] e2 p fm) []
          (NP.mkReceiver [] c1 (FU.initialiseStores (buffer_areas m) own senders unpacker) c2 pool))
      else None
  | _, _ => None
  end.

(** What is where between the two nodes. *)
Record Trace := mkTrace {
  queued1 : list Message;
  queued2 : list Message;
  stored : list Message;
  unsent : list Z;
  under_way : list (list Message * list Z);
  waiting : list (list Message);
  chunks : list (list Z);
  handled : Z;
  part : list Z;
  cut : list Message
}.

(** What the packers have not sent: the sizes matter to how long it takes. *)
Record Source := mkSource {
  s_queued1 : list Message;
  s_queued2 : list Message;
  s_stored : list Message;
  s_unsent : list Z
}.

(** The messages that were written and are not delivered. *)
Definition left_regular (t : Trace) : list Message :=
  mjoin (waiting t) ++ mjoin (fst <$> under_way t) ++ queued1 t.
Definition left_bulk (t : Trace) : list Message := cut t ++ stored t ++ queued2 t.

Definition pieces (l : list (list Message * list Z)) : list (list Z) :=
  filter (fun c => c <> []) (snd <$> l).

(** A datagram with its control block. *)
Definition datagram (size : Z) (d : list Z) (x : list Message * list Z) : Prop :=
  Z.of_nat (length d) <= size /\ bytes_ok d /\
  exists ctl, length ctl = 22%nat /\ d = ctl ++ payload x.1 x.2.

Section Steps.
Context `{BuildConfig} `{ChannelEntriesLaws E1} `{ChannelEntriesLaws E2}
  `{ChannelEndsLaws C1} `{ChannelEndsLaws C2}.
Context (g : LinkConfig) (Hg : config_ok g).
Abbreviation Lnk := (DL.Link E1 E2 C1 C2).
Implicit Types (s : Lnk) (t : Trace).

Definition holds_regular (p : Pool.PacketCommunicator) (i : nat) (ms : list Message) : Prop :=
  exists bs, holds_data (Z.to_nat (send_order g)) p i ms bs.
Definition holds_bulk (p : Pool.PacketCommunicator) (i : nat) (bs : list Z) : Prop :=
  exists ms, holds_data (Z.to_nat (send_order g)) p i ms bs.

Record receiver_ok (w : NP.Receiver C1 C2) (t : Trace) : Prop := {
  ro_regular : Forall2 (holds_regular (NP.data_comm w)) (NP.regular_work w) (waiting t);
  ro_bulk : Forall2 (holds_bulk (NP.data_comm w)) (FU.work (NP.fill_unpacker w)) (chunks t);
  ro_pool : pool_ok (NP.data_comm w) (in_use w);
  ro_size : Pool.buffersize (NP.data_comm w) = pool_buffer g;
  ro_store : exists r,
    FU.amorph_store (NP.fill_unpacker w) !! Z.to_nat (send_order g) = Some r /\
    FU.holds (fill_buffer g) (handled t) (part t) r;
  ro_check : (Z.to_nat (send_order g) < length (FU.countcheck (NP.fill_unpacker w)))%nat;
  ro_buffer : FU.buffer_size (NP.fill_unpacker w) = fill_buffer g
}.

Record link_ok (s : Lnk) (t : Trace) : Prop := {
  lk_sender : exists e1 e2,
    sender_ok (store_size g) (DL.sender s) (queued1 t) (queued2 t) (stored t) (unsent t) e1 e2;
  lk_net : Forall2 (datagram (message_size g)) (DL.network s) (under_way t);
  lk_receiver : receiver_ok (DL.receiver s) t;
  lk_flow : flow (store_size g) (handled t) (part t) (chunks t ++ pieces (under_way t))
    (unsent t) (cut t);
  lk_regular : Forall message_ok (left_regular t) /\ Forall small (left_regular t);
  lk_bulk : Forall message_ok (left_bulk t) /\ Forall (FP.fits (store_size g)) (left_bulk t) /\
    Forall FU.sizeable (left_bulk t)
}.

(** The channel has written the message [m], for which it notifies with [u]. *)
Definition writes `{ChannelEntriesLaws E} (e e' : E) (u : PackUnit) (m : Message) : Prop :=
  forall us ms ef, script e us ms ef -> exists ef', script e' (us ++ [u]) (ms ++ [m]) ef'.

Lemma written_ok `{ChannelEntriesLaws E} (e e' : E) u m : writes e e' u m -> message_ok m.
Proof.
  intros Hw. destruct (Hw [] [] e (script_nil e)) as [ef Hs].
  inversion Hs as [|? ? ? ? ? ? ? Hm _]; subst. by apply sends_message in Hm as [? _].
Qed.

Definition queue1 (m : Message) t : Trace :=
  mkTrace (queued1 t ++ [m]) (queued2 t) (stored t) (unsent t) (under_way t) (waiting t)
    (chunks t) (handled t) (part t) (cut t).
Definition queue2 (m : Message) t : Trace :=
  mkTrace (queued1 t) (queued2 t ++ [m]) (stored t) (unsent t) (under_way t) (waiting t)
    (chunks t) (handled t) (part t) (cut t).

Lemma left_queue1 m t : left_regular (queue1 m t) = left_regular t ++ [m].
Proof. unfold left_regular. cbn. by rewrite !app_assoc. Qed.
Lemma left_queue2 m t : left_bulk (queue2 m t) = left_bulk t ++ [m].
Proof. unfold left_bulk. cbn. by rewrite !app_assoc. Qed.

Lemma Forall_snoc {A} (P : A -> Prop) l x : Forall P l -> P x -> Forall P (l ++ [x]).
Proof. intros. apply Forall_app. auto. Qed.

Lemma notify_snoc u q : DL.notify u q = q ++ [u].
Proof. by destruct u. Qed.

Lemma write_regular_ok s t e u m :
  link_ok s t -> writes (NP.regular_entries (DL.sender s)) e u m -> small m ->
  link_ok (DL.write_regular e u s) (queue1 m t).
Proof.
  intros [(e1 & e2 & Hs) Hn Hr Hf [Hm Hsm] Hb] Hw Hm1.
  pose proof (written_ok _ _ _ _ Hw) as Hok. destruct Hs as [Hsc Hs1 Hb2 Hfit Hfp Hmax].
  destruct (Hw _ _ _ Hsc) as [ef Hef].
  split; try done.
  - exists ef, e2. split; cbn; try done; [by rewrite notify_snoc|by apply Forall_snoc].
  - by destruct Hr; split.
  - rewrite left_queue1. by split; apply Forall_snoc.
Qed.

Lemma write_bulk_ok s t e u m :
  link_ok s t -> writes (NP.bulk_entries (DL.sender s)) e u m ->
  FP.fits (store_size g) m -> FU.sizeable m ->
  link_ok (DL.write_bulk e u s) (queue2 m t).
Proof.
  intros [(e1 & e2 & Hs) Hn Hr Hf Hm (Hb & Hbf & Hbs)] Hw Hm1 Hm2.
  pose proof (written_ok _ _ _ _ Hw) as Hok. destruct Hs as [Hsc Hs1 Hb2 Hfit Hfp Hmax].
  destruct (Hw _ _ _ Hb2) as [ef Hef].
  split; try done.
  - exists e1, ef. split; cbn; try done; [by rewrite notify_snoc|by apply Forall_snoc|].
    by destruct Hfp; split.
  - by destruct Hr; split.
  - rewrite left_queue2. by split_and!; apply Forall_snoc.
Qed.

(** *** Sending *)

Definition sent (r1 r2 f1 f2 : list Message) (n : nat) t : Trace :=
  let out := FP.to_send (stored t ++ f1) (unsent t) in
  mkTrace r2 f2 (FP.to_wait (stored t ++ f1) (unsent t)) (drop n out)
    (under_way t ++ [(r1, take n out)]) (waiting t) (chunks t) (handled t) (part t)
    (cut t ++ (if decide (unsent t = []) then stored t ++ f1 else [])).

Lemma fp_unsent_bytes N (p : FP.FillPacker) pend un : FP.fp_ok N p pend un -> bytes_ok un.
Proof.
  intros Hp. destruct (decide (un = [])) as [->|Hne]; [constructor|].
  destruct (FP.fp_unsent _ _ _ _ Hp Hne) as (_ & st & Hst & _ & Hr).
  destruct (FP.fp_each _ _ _ _ Hp _ _ Hst) as [Hok _].
  by eapply read_at_bytes_ok, Hr; apply Hok.
Qed.

Lemma left_sent r1 r2 f1 f2 n t :
  queued1 t = r1 ++ r2 -> queued2 t = f1 ++ f2 ->
  left_regular (sent r1 r2 f1 f2 n t) = left_regular t /\
  left_bulk (sent r1 r2 f1 f2 n t) = left_bulk t.
Proof.
  intros E1' E2'. unfold left_regular, left_bulk, sent, FP.to_wait. cbn. rewrite E1', E2'. split.
  - rewrite fmap_app, join_app. cbn. by rewrite app_nil_r, <- !app_assoc.
  - case_decide; by rewrite ?app_nil_r, <- ?app_assoc.
Qed.

Lemma payload_ok ms bs : Forall message_ok ms -> bytes_ok bs -> bytes_ok (payload ms bs).
Proof.
  intros. unfold payload, bytes_ok. rewrite !Forall_app.
  split_and!; [apply be_bytes_ok|by apply frames_ok|done].
Qed.

Lemma send_ok s t mark0 b :
  link_ok s t -> send_buffer (message_size g) b ->
  exists s' r1 r2 f1 f2,
    let size := bulk_room (NP.fill_maximum (DL.sender s)) (message_size g)
      (26 + Z.of_nat (length (frames 2 r1))) in
    let out := FP.to_send (stored t ++ f1) (unsent t) in
    let t' := sent r1 r2 f1 f2 (FP.portion size out) t in
    DL.send mark0 b s = (Val tt, s') /\ link_ok s' t' /\
    queued1 t = r1 ++ r2 /\ queued2 t = f1 ++ f2 /\
    DL.receiver s' = DL.receiver s /\ length (DL.network s') = S (length (DL.network s)) /\
    NP.fill_maximum (DL.sender s') = NP.fill_maximum (DL.sender s) /\
    FP.critical_errors (NP.fill_packer (DL.sender s')) =
      FP.critical_errors (NP.fill_packer (DL.sender s)) /\
    regular_room (message_size g) r1 r2 /\ (stored t ++ f1 = [] -> f2 = []).
Proof.
  intros [(e1 & e2 & Hs) Hn Hr Hf [Hm Hsm] (Hb & Hbf & Hbs)] Hbuf. pose proof Hg as [].
  destruct (clientPackPayload_run (store_size g) (message_size g) (DL.sender s) b _ _ _ _ e1 e2
    mark0 ltac:(lia) ltac:(lia) Hs Hbuf)
    as (p' & b' & r1 & r2 & f1 & f2 & Hrun & E1' & E2' & Hs' & Hdat & Hfill & Hroom & Hpr &
        Hlen & Hmax & Hce).
  set (size := bulk_room _ _ _) in *. set (out := FP.to_send _ _) in *.
  set (n := FP.portion size out) in *.
  destruct (left_sent r1 r2 f1 f2 n t E1' E2') as [El1 El2].
  exists (DL.mkLink p' (DL.network s ++ [take (Z.to_nat (MB.fill b')) (MB.buffer b')])
    (DL.receiver s)), r1, r2, f1, f2. cbv zeta. fold size out n. split_and!; try done.
  - unfold DL.send. by rewrite Hrun.
  - split; [by exists e1, e2| |by destruct Hr; split| |by rewrite El1|by rewrite El2].
    + cbn. apply Forall2_app; [done|]. constructor; [|done]. rewrite Hdat.
      assert (bytes_ok out) as Hout.
      { unfold out, FP.to_send. case_decide; [|by eapply fp_unsent_bytes, Hs].
        apply frames_ok. unfold left_bulk in Hb. rewrite E2', !Forall_app in Hb.
        rewrite Forall_app. tauto. }
      split_and!.
      * rewrite <- Hdat, length_take. lia.
      * apply Forall_app. split; [apply Forall_take, Hbuf|].
        apply payload_ok; [|by apply Forall_take].
        unfold left_regular in Hm. rewrite E1', !Forall_app in Hm. tauto.
      * eexists. split; [|done]. rewrite length_take.
        destruct Hbuf as [_ Hl _ _]. lia.
    + cbn. unfold pieces. rewrite fmap_app, list.filter_app, app_assoc. apply flow_piece.
      cbn [snd]. rewrite take_drop. by apply flow_switch.
  - cbn. rewrite length_app. cbn. lia.
Qed.

(** *** Receiving *)

Definition arrived t : Trace :=
  match under_way t with
  | [] => t
  | (ms, bs) :: l =>
      mkTrace (queued1 t) (queued2 t) (stored t) (unsent t) l (waiting t ++ [ms])
        (chunks t ++ filter (fun c => c <> []) [bs]) (handled t) (part t) (cut t)
  end.

Lemma left_arrived t :
  left_regular (arrived t) = left_regular t /\ left_bulk (arrived t) = left_bulk t.
Proof.
  unfold arrived, left_regular. destruct (under_way t) as [|[ms bs] l] eqn:E; [by rewrite E|].
  cbn. rewrite join_app. cbn. by rewrite app_nil_r, <- !app_assoc.
Qed.

Lemma holds_regular_keeps us p p' l lms :
  keeps us p p' -> l ⊆ us -> Forall2 (holds_regular p) l lms -> Forall2 (holds_regular p') l lms.
Proof.
  intros Hk Hin Hl. induction Hl as [|i ms l lms [bs Hi] Hl IH]; constructor.
  - exists bs. eapply holds_keeps; [done| |done]. apply Hin. by left.
  - apply IH. intros j Hj. apply Hin. by right.
Qed.

Lemma holds_bulk_keeps us p p' l lbs :
  keeps us p p' -> l ⊆ us -> Forall2 (holds_bulk p) l lbs -> Forall2 (holds_bulk p') l lbs.
Proof.
  intros Hk Hin Hl. induction Hl as [|i bs l lbs [ms Hi] Hl IH]; constructor.
  - exists ms. eapply holds_keeps; [done| |done]. apply Hin. by left.
  - apply IH. intros j Hj. apply Hin. by right.
Qed.

Lemma pieces_cons ms bs l :
  pieces ((ms, bs) :: l) = filter (fun c => c <> []) [bs] ++ pieces l.
Proof. unfold pieces. by rewrite <- list.filter_app. Qed.

Lemma share_holds p i bs :
  holds_bulk p i bs ->
  Forall2 (holds_bulk p) (fill_share bs i) (filter (fun c => c <> []) [bs]).
Proof.
  intros Hi. unfold fill_share. rewrite filter_cons, filter_nil.
  repeat case_decide; try done. by repeat constructor.
Qed.

Lemma arrive_ok s t content :
  link_ok s t -> DL.network s <> [] -> Z.of_nat (length content) = pool_buffer g ->
  bytes_ok content -> Z.of_nat (length (in_use (DL.receiver s))) < 4294967280 ->
  exists s', DL.arrive (send_order g) content s = (Val tt, s') /\ link_ok s' (arrived t) /\
    DL.sender s' = DL.sender s /\ DL.network s' = tail (DL.network s) /\
    (length (in_use (DL.receiver s')) <= 2 + length (in_use (DL.receiver s)))%nat /\
    NP.regular_ends (DL.receiver s') = NP.regular_ends (DL.receiver s) /\
    NP.bulk_ends (DL.receiver s') = NP.bulk_ends (DL.receiver s) /\
    FU.critical_errors (NP.fill_unpacker (DL.receiver s')) =
      FU.critical_errors (NP.fill_unpacker (DL.receiver s)).
Proof.
  intros [Hs Hn [Hrr Hrb Hrp Hrs Hst Hck Hbs] Hf Hm Hb] Hne Hcl Hcb Huse. pose proof Hg as [].
  destruct (left_arrived t) as [El1 El2]. rewrite <- El1 in Hm. rewrite <- El2 in Hb.
  unfold arrived in *. destruct s as [sd net w]. cbn [DL.sender DL.network DL.receiver] in *.
  destruct Hn as [|d [ms bs] net l (Hdl & Hdb & ctl & Hcl22 & ->) Hn]; [done|].
  cbn [fst snd] in *.
  destruct (receive_run (send_order g) content ctl ms bs w (in_use w))
    as (i & p' & Hrun & Hi & Hp' & Hk & Hh & Hsz); rewrite ?Hrs; try done; [lia|lia|].
  exists (DL.mkLink sd net (set_work (NP.regular_work w ++ [i])
    (FU.work (NP.fill_unpacker w) ++ fill_share bs i) p' w)).
  unfold DL.arrive. cbn [DL.network DL.receiver DL.sender]. rewrite Hrun. split_and!; try done.
  - split; [done|done| |by cbn [chunks under_way]; rewrite <- app_assoc, <- (pieces_cons ms)
      |done|done].
    split; cbn [NP.data_comm NP.regular_work NP.fill_unpacker set_work FU.work FU.set_work
      FU.amorph_store FU.countcheck FU.buffer_size waiting chunks handled part]; try done.
    + apply Forall2_app; [|by repeat constructor; exists bs].
      eapply holds_regular_keeps; [done| |done]. intros j. unfold in_use. rewrite elem_of_app. auto.
    + apply Forall2_app; [|by apply share_holds; exists ms].
      eapply holds_bulk_keeps; [done| |done]. intros j. unfold in_use. rewrite elem_of_app. auto.
    + eapply pool_perm; [|exact Hp']. unfold in_use. cbn. solve_Permutation.
    + cbn. congruence.
  - unfold in_use. cbn. rewrite !length_app. cbn. unfold fill_share. case_decide; cbn; lia.
Qed.

(** *** Unpacking *)

Lemma loaded_regular k ms bs mb :
  loaded k ms bs mb -> MB.nusers mb <> 0 -> carries (frames 2 ms) mb.
Proof.
  intros [] Hu. split; try done; [lia|lia|]. by rewrite l_offset.
Qed.

Lemma loaded_bulk k ms bs mb : loaded k ms bs mb -> MB.nusers mb <> 0 -> FU.carries k bs mb.
Proof.
  intros [] Hu. split; try done; [lia|lia|]. by rewrite l_offset.
Qed.

Lemma buffer_used p us i mb :
  pool_ok p us -> i ∈ us -> Pool.heap p !! i = Some mb -> MB.nusers mb <> 0.
Proof.
  intros Hp Hi Hmb. destruct (po_buffer _ _ Hp _ _ Hmb) as [-> _].
  apply occ_pos in Hi. lia.
Qed.

Definition unpacked_regular t : Trace :=
  mkTrace (queued1 t) (queued2 t) (stored t) (unsent t) (under_way t) (tail (waiting t))
    (chunks t) (handled t) (part t) (cut t).

Lemma unpack_regular_ok s t ms rest c' :
  link_ok s t -> waiting t = ms :: rest -> receives (NP.regular_ends (DL.receiver s)) ms c' ->
  exists s', DL.on_receiver (NP.on_unpacker UP.despatch) s = (Val tt, s') /\
    link_ok s' (unpacked_regular t) /\
    DL.sender s' = DL.sender s /\ DL.network s' = DL.network s /\
    NP.regular_work (DL.receiver s') = tail (NP.regular_work (DL.receiver s)) /\
    NP.regular_ends (DL.receiver s') = c' /\
    NP.fill_unpacker (DL.receiver s') = NP.fill_unpacker (DL.receiver s) /\
    NP.bulk_ends (DL.receiver s') = NP.bulk_ends (DL.receiver s).
Proof.
  intros [Hs Hn [Hrr Hrb Hrp Hrs Hst Hck Hbs] Hf [Hm Hsm] Hb] Hw Hrec.
  destruct s as [sd net w]. cbn [DL.sender DL.network DL.receiver] in *.
  rewrite Hw in Hrr. inversion Hrr as [|i ? lw ? (bs & mb & Hmb & Hl) Hlw Ei]; subst.
  assert (i ∈ in_use w) as Hi by (unfold in_use; rewrite <- Ei; by left).
  unfold left_regular in Hm, Hsm. rewrite Hw in Hm, Hsm. cbn in Hm, Hsm.
  rewrite !Forall_app in Hm, Hsm.
  destruct (regular_despatch_run i lw mb ms c'
    (UP.mkWorld (NP.regular_work w) (NP.regular_ends w) (NP.data_comm w)))
    as (pl & Hrun & Hret); try done; [by eapply loaded_regular, buffer_used|tauto|tauto|].
  destruct (return_ok (NP.data_comm w) (lw ++ FU.work (NP.fill_unpacker w)) i) as
    (pl' & Hret' & Hpl & Hk & Hsz).
  { eapply pool_perm; [|exact Hrp]. unfold in_use. by rewrite <- Ei. }
  cbn [UP.pool] in Hret. assert (pl' = pl) as -> by congruence.
  exists (DL.mkLink sd net (NP.mkReceiver lw c' (NP.fill_unpacker w) (NP.bulk_ends w) pl)).
  split_and!; try done.
  - unfold DL.on_receiver, NP.on_unpacker. cbn [DL.receiver]. by rewrite Hrun.
  - split; try done.
    + split; cbn; try done.
      * rewrite Hw. eapply holds_regular_keeps; [done| |done]. intros j. rewrite elem_of_app. auto.
      * eapply holds_bulk_keeps; [done| |done]. intros j. rewrite elem_of_app. auto.
      * congruence.
    + unfold left_regular. cbn. rewrite Hw. cbn. rewrite !Forall_app. tauto.
Qed.

Definition unpacked_bulk (d : Z) (p : list Z) (ms : list Message) t : Trace :=
  mkTrace (queued1 t) (queued2 t) (stored t) (unsent t) (under_way t) (waiting t)
    (tail (chunks t)) d p ms.

(** The buffer of the next chunk. *)
Lemma next_chunk w t :
  receiver_ok w t -> forall c rest, chunks t = c :: rest ->
  exists i lw ms mb, FU.work (NP.fill_unpacker w) = i :: lw /\
    Pool.heap (NP.data_comm w) !! i = Some mb /\ MB.nusers mb <> 0 /\
    loaded (Z.to_nat (send_order g)) ms c mb /\
    Forall2 (holds_bulk (NP.data_comm w)) lw rest.
Proof.
  intros [Hrr Hrb Hrp Hrs Hst Hck Hbs] c rest Hc. rewrite Hc in Hrb.
  inversion Hrb as [|i ? lw ? (ms & mb & Hmb & Hl) Hlw Ei]; subst.
  exists i, lw, ms, mb. split_and!; try done.
  eapply buffer_used; [done| |done]. unfold in_use. rewrite <- Ei, elem_of_app. right. by left.
Qed.

Lemma unpack_bulk_ok s t c rest T f :
  link_ok s t -> chunks t = c :: rest ->
  receives (NP.bulk_ends (DL.receiver s)) (cut t ++ T) f ->
  exists s' d' part' ms1 ms2,
    DL.on_receiver (NP.on_fill_unpacker FU.despatch) s = (Val tt, s') /\
    link_ok s' (unpacked_bulk d' part' ms2 t) /\ cut t = ms1 ++ ms2 /\
    receives (NP.bulk_ends (DL.receiver s)) ms1 (NP.bulk_ends (DL.receiver s')) /\
    receives (NP.bulk_ends (DL.receiver s')) (ms2 ++ T) f /\
    DL.sender s' = DL.sender s /\ DL.network s' = DL.network s /\
    NP.regular_work (DL.receiver s') = NP.regular_work (DL.receiver s) /\
    NP.regular_ends (DL.receiver s') = NP.regular_ends (DL.receiver s) /\
    FU.work (NP.fill_unpacker (DL.receiver s')) = tail (FU.work (NP.fill_unpacker (DL.receiver s))) /\
    FU.critical_errors (NP.fill_unpacker (DL.receiver s')) =
      FU.critical_errors (NP.fill_unpacker (DL.receiver s)).
Proof.
  intros [Hs Hn Hro Hf Hm (Hb & Hbf & Hbs)] Hc Hrec. pose proof Hg as [].
  destruct s as [sd net w]. cbn [DL.sender DL.network DL.receiver] in *.
  destruct (next_chunk w t Hro _ _ Hc) as (i & lw & ms & mb & Hwork & Hmb & Hu & Hl & Hlw).
  destruct Hro as [Hrr Hrb Hrp Hrs (r & Hr & Hh) Hck Hbf'].
  unfold left_bulk in Hb, Hbf, Hbs. rewrite !Forall_app in Hb, Hbf, Hbs. rewrite Hc in Hf.
  destruct (flow_receive (store_size g) _ _ _ _ _ _ ltac:(lia) Hf ltac:(tauto) ltac:(tauto))
    as (ms1 & ms2 & part' & Ecut & Hne & Esplit & Hpart & Hlen & Hf').
  rewrite Ecut, <- app_assoc in Hrec. apply receives_app in Hrec as (c' & Hrec1 & Hrec2).
  rewrite Ecut, !Forall_app in Hb, Hbf, Hbs.
  assert (bytes_ok c) as Hcb.
  { destruct Hl. eapply read_at_bytes_ok; [|exact l_bulk]. done. }
  destruct (FU.fill_despatch_run (Z.to_nat (send_order g)) i lw mb c (handled t) (part t) r
    ms1 part' c' (FU.mkWorld (NP.fill_unpacker w) (NP.bulk_ends w) (NP.data_comm w)))
    as (u' & r' & Hrun & (Hu1 & Hu2 & Hu3 & Hu4 & Hu5 & Hu6) & Hret & Hh');
    cbn [FU.unpacker FU.pool FU.ends] in *; rewrite ?Hbf'; try done; try lia; try tauto;
    [by apply loaded_bulk with ms|].
  destruct (return_ok (NP.data_comm w) (NP.regular_work w ++ lw) i) as
    (pl' & Hret' & Hpl & Hk & Hsz).
  { eapply pool_perm; [|exact Hrp]. unfold in_use. rewrite Hwork. solve_Permutation. }
  assert (pl' = FU.pool u') as -> by congruence.
  eexists (DL.mkLink sd net (NP.mkReceiver (NP.regular_work w) (NP.regular_ends w)
    (FU.unpacker u') (FU.ends u') (FU.pool u'))), _, _, ms1, ms2.
  split_and!; try done.
  - unfold DL.on_receiver, NP.on_fill_unpacker. cbn [DL.receiver]. by rewrite Hrun.
  - split; [done|done| |unfold unpacked_bulk; cbn [chunks]; by rewrite Hc|done|].
    + split; cbn.
      * eapply holds_regular_keeps; [done| |done]. intros j. rewrite elem_of_app. auto.
      * rewrite Hu3, Hc. eapply holds_bulk_keeps; [done| |done]. intros j. rewrite elem_of_app. auto.
      * unfold in_use. cbn. by rewrite Hu3.
      * congruence.
      * rewrite Hu2. exists r'. rewrite list_lookup_insert_eq; [|by eapply lookup_lt_Some].
        by rewrite Hbf' in Hh'.
      * by rewrite Hu5.
      * by rewrite Hu4.
    + unfold left_bulk. cbn. rewrite !Forall_app. tauto.
  - by rewrite <- Hu1 in Hrec1.
  - by rewrite <- Hu1 in Hrec2.
  - cbn. by rewrite Hu3, Hwork.
Qed.

(** *** Any sequence of steps *)

(** A step that the nodes may take, and what it writes. *)
Inductive may : DL.Op E1 E2 -> Lnk -> list Message -> list Message -> Prop :=
  | may_write_regular e u m s :
      writes (NP.regular_entries (DL.sender s)) e u m -> small m ->
      may (DL.WriteRegular e u) s [m] []
  | may_write_bulk e u m s :
      writes (NP.bulk_entries (DL.sender s)) e u m ->
      FP.fits (store_size g) m -> FU.sizeable m -> may (DL.WriteBulk e u) s [] [m]
  | may_send mark0 b s : send_buffer (message_size g) b -> may (DL.Send mark0 b) s [] []
  | may_arrive content s :
      DL.network s <> [] -> Z.of_nat (length content) = pool_buffer g -> bytes_ok content ->
      may (DL.Arrive content) s [] []
  | may_unpack_regular s : NP.regular_work (DL.receiver s) <> [] -> may DL.UnpackRegular s [] []
  | may_unpack_bulk s :
      FU.work (NP.fill_unpacker (DL.receiver s)) <> [] -> may DL.UnpackBulk s [] [].

(** A sequence of such steps, and all that it writes. *)
Inductive legal : Lnk -> list (DL.Op E1 E2) -> list Message -> list Message -> Prop :=
  | legal_nil s : legal s [] [] []
  | legal_cons s op ops w1 w2 T1 T2 :
      may op s w1 w2 -> legal (DL.do_op (send_order g) op s).2 ops T1 T2 ->
      legal s (op :: ops) (w1 ++ T1) (w2 ++ T2).

Definition backlog s : nat := 2 * length (DL.network s) + length (in_use (DL.receiver s)).

(** What the packers have not sent. *)
Definition source t : Source := mkSource (queued1 t) (queued2 t) (stored t) (unsent t).

Definition link_inv (n : nat) (q : Source) s (P1 P2 : list Message) : Prop :=
  (backlog s <= n)%nat /\
  exists t, link_ok s t /\ left_regular t = P1 /\ left_bulk t = P2 /\ source t = q.

(** The ends take the messages [P1] and [P2]. *)
Definition ready s (P1 P2 : list Message) (f1 : C1) (f2 : C2) : Prop :=
  receives (NP.regular_ends (DL.receiver s)) P1 f1 /\
  receives (NP.bulk_ends (DL.receiver s)) P2 f2.

(** From [P1] and [P2] the messages have been delivered up to [Q1] and [Q2]. *)
Definition delivers s s' (P1 P2 Q1 Q2 : list Message) : Prop :=
  exists D1 D2, P1 = D1 ++ Q1 /\ P2 = D2 ++ Q2 /\
    ready s D1 D2 (NP.regular_ends (DL.receiver s')) (NP.bulk_ends (DL.receiver s')).

(** Neither side reports a critical error, nor is the packing configured anew. *)
Definition steady s s' : Prop :=
  NP.fill_maximum (DL.sender s') = NP.fill_maximum (DL.sender s) /\
  FP.critical_errors (NP.fill_packer (DL.sender s')) =
    FP.critical_errors (NP.fill_packer (DL.sender s)) /\
  FU.critical_errors (NP.fill_unpacker (DL.receiver s')) =
    FU.critical_errors (NP.fill_unpacker (DL.receiver s)).

Lemma receives_join `{ChannelEndsLaws C} ms : forall (c : C) c1 ms' c',
  receives c ms c1 -> receives c1 ms' c' -> receives c (ms ++ ms') c'.
Proof.
  induction ms as [|m ms IH]; intros c c1 ms' c' Hr Hr'; inversion Hr; subst; cbn; try done.
  - eapply receives_here; [done|]. by eapply IH.
  - apply receives_skip; [done|]. by eapply IH.
Qed.

Lemma delivers_nothing s s' P1 P2 :
  NP.regular_ends (DL.receiver s') = NP.regular_ends (DL.receiver s) ->
  NP.bulk_ends (DL.receiver s') = NP.bulk_ends (DL.receiver s) -> delivers s s' P1 P2 P1 P2.
Proof. intros E1' E2'. exists [], []. unfold ready. rewrite E1', E2'. repeat constructor. Qed.

Lemma delivers_trans s1 s2 s3 P1 P2 Q1 Q2 T1 T2 R1 R2 :
  delivers s1 s2 P1 P2 Q1 Q2 -> delivers s2 s3 (Q1 ++ T1) (Q2 ++ T2) R1 R2 ->
  delivers s1 s3 (P1 ++ T1) (P2 ++ T2) R1 R2.
Proof.
  intros (D1 & D2 & -> & -> & Hr1 & Hr2) (D3 & D4 & E1' & E2' & Hr3 & Hr4).
  exists (D1 ++ D3), (D2 ++ D4). rewrite <- !app_assoc, E1', E2'. split_and!; try done.
  split; by eapply receives_join.
Qed.

Lemma steady_trans s1 s2 s3 : steady s1 s2 -> steady s2 s3 -> steady s1 s3.
Proof. unfold steady. intros (? & ? & ?) (? & ? & ?). split_and!; congruence. Qed.

Lemma tail_length {A} (l : list A) : (length (tail l) <= length l)%nat.
Proof. destruct l; cbn; lia. Qed.

(** What every step sees to. *)
Definition goes_well (n : nat) (q : Source) s (P1 P2 T1 T2 : list Message) (f1 : C1) (f2 : C2)
    (r : outcome unit * Lnk) : Prop :=
  exists s' Q1 Q2, r = (Val tt, s') /\ link_inv n q s' Q1 Q2 /\
    ready s' (Q1 ++ T1) (Q2 ++ T2) f1 f2 /\ delivers s s' P1 P2 Q1 Q2 /\ steady s s'.

Lemma unpack_regular_well n q s P1 P2 T1 T2 f1 f2 :
  link_inv n q s P1 P2 -> NP.regular_work (DL.receiver s) <> [] ->
  ready s (P1 ++ T1) (P2 ++ T2) f1 f2 ->
  let r := DL.on_receiver (NP.on_unpacker UP.despatch) s in
  goes_well n q s P1 P2 T1 T2 f1 f2 r /\ DL.network r.2 = DL.network s /\
  NP.regular_work (DL.receiver r.2) = tail (NP.regular_work (DL.receiver s)).
Proof.
  intros (Hn & t & Ht & <- & <- & <-) Hw [Hr1 Hr2].
  destruct (waiting t) as [|ms rest] eqn:Ew.
  { pose proof (ro_regular _ _ (lk_receiver _ _ Ht)) as Hf. rewrite Ew in Hf. by inversion Hf. }
  assert (left_regular t = ms ++ left_regular (unpacked_regular t)) as El.
  { unfold left_regular. cbn. rewrite Ew. cbn. by rewrite <- !app_assoc. }
  rewrite El, <- app_assoc in Hr1. apply receives_app in Hr1 as (c' & Hr1 & Hr1').
  destruct (unpack_regular_ok s t ms rest c' Ht Ew Hr1)
    as (s' & Hrun & Ht' & Es & En & Erw & Ere & Efu & Ebe).
  cbv zeta. rewrite Hrun. split_and!; try done.
  exists s', (left_regular (unpacked_regular t)), (left_bulk t). split_and!; try done.
  - split; [|by exists (unpacked_regular t)]. revert Hn. unfold backlog, in_use.
    rewrite En, Efu, !length_app, Erw. pose proof (tail_length (NP.regular_work (DL.receiver s))). lia.
  - split; congruence.
  - exists ms, []. split_and!; [done|done|]. split; [congruence|]. rewrite Ebe. constructor.
  - unfold steady. split_and!; congruence.
Qed.

Lemma unpack_bulk_well n q s P1 P2 T1 T2 f1 f2 :
  link_inv n q s P1 P2 -> FU.work (NP.fill_unpacker (DL.receiver s)) <> [] ->
  ready s (P1 ++ T1) (P2 ++ T2) f1 f2 ->
  let r := DL.on_receiver (NP.on_fill_unpacker FU.despatch) s in
  goes_well n q s P1 P2 T1 T2 f1 f2 r /\ DL.network r.2 = DL.network s /\
  NP.regular_work (DL.receiver r.2) = NP.regular_work (DL.receiver s) /\
  FU.work (NP.fill_unpacker (DL.receiver r.2)) = tail (FU.work (NP.fill_unpacker (DL.receiver s))).
Proof.
  intros (Hn & t & Ht & <- & <- & <-) Hw [Hr1 Hr2].
  destruct (chunks t) as [|c rest] eqn:Ec.
  { pose proof (ro_bulk _ _ (lk_receiver _ _ Ht)) as Hf. rewrite Ec in Hf. by inversion Hf. }
  unfold left_bulk in Hr2. rewrite <- app_assoc in Hr2.
  destruct (unpack_bulk_ok s t c rest _ f2 Ht Ec Hr2)
    as (s' & d' & part' & ms1 & ms2 & Hrun & Ht' & Ecut & Hd & Hr2' & Es & En & Erw & Ere & Efu & Ece).
  cbv zeta. rewrite Hrun. split_and!; try done.
  exists s', (left_regular t), (ms2 ++ stored t ++ queued2 t). split_and!; try done.
  - split; [|by exists (unpacked_bulk d' part' ms2 t)]. revert Hn. unfold backlog, in_use.
    rewrite En, Erw, !length_app, Efu.
    pose proof (tail_length (FU.work (NP.fill_unpacker (DL.receiver s)))). lia.
  - split; [by rewrite Ere|by rewrite <- app_assoc].
  - exists [], ms1. unfold left_bulk. rewrite Ecut, <- !app_assoc. split_and!; [done|done|].
    split; [|done]. rewrite Ere. constructor.
  - unfold steady. split_and!; congruence.
Qed.

Lemma arrive_well n q s P1 P2 T1 T2 f1 f2 content :
  link_inv n q s P1 P2 -> DL.network s <> [] -> Z.of_nat (length content) = pool_buffer g ->
  bytes_ok content -> Z.of_nat n < 4294967280 -> ready s (P1 ++ T1) (P2 ++ T2) f1 f2 ->
  let r := DL.arrive (send_order g) content s in
  goes_well n q s P1 P2 T1 T2 f1 f2 r /\ DL.network r.2 = tail (DL.network s).
Proof.
  intros (Hn & t & Ht & <- & <- & <-) Hne Hc Hcb Hlt [Hr1 Hr2]. unfold backlog in Hn.
  destruct (arrive_ok s t content Ht Hne Hc Hcb ltac:(lia))
    as (s' & Hrun & Ht' & Es & En & Hu & Ere & Ebe & Ece).
  destruct (left_arrived t) as [El1 El2].
  cbv zeta. rewrite Hrun. split_and!; try done.
  exists s', (left_regular t), (left_bulk t). split_and!; try done.
  - split; [|exists (arrived t); split_and!; [done..|by unfold source, arrived; destruct (under_way t) as [|[]]]]. unfold backlog. rewrite En.
    destruct (DL.network s); [done|]. cbn in *. lia.
  - split; congruence.
  - by apply delivers_nothing.
  - unfold steady. split_and!; congruence.
Qed.

(** The number of messages and bytes that have not been sent. *)
Definition owed (q : Source) : nat :=
  length (s_queued1 q) + length (s_unsent q) + length (frames 4 (s_stored q ++ s_queued2 q)).

(** A message that fits if it is the only one. *)
Definition lone (m : Message) : Prop :=
  26 + Z.of_nat (length (framed 2 m)) <= message_size g.

Definition lively s (P1 : list Message) : Prop :=
  58 <= message_size g /\ 32 <= NP.fill_maximum (DL.sender s) /\ Forall lone P1.

Lemma owed_sent r1 r2 f1 f2 n t :
  queued1 t = r1 ++ r2 -> queued2 t = f1 ++ f2 ->
  let out := FP.to_send (stored t ++ f1) (unsent t) in
  (n <= length out)%nat ->
  (owed (source (sent r1 r2 f1 f2 n t)) + length r1 + n = owed (source t))%nat.
Proof.
  intros E1' E2' out Hn. unfold owed, source, sent.
  cbn [s_queued1 s_queued2 s_stored s_unsent queued1 queued2 stored unsent]. fold out.
  rewrite E1', E2', length_drop, !frames_app, !length_app. revert Hn.
  unfold out, FP.to_send, FP.to_wait.
  case_decide as Eu; [rewrite Eu|]; rewrite ?frames_app, ?length_app, ?length_nil; [|lia].
  change (frames 4 []) with (@nil Z). cbn [length]. lia.
Qed.

Lemma progress_sent fm r1 r2 f1 f2 t :
  queued1 t = r1 ++ r2 -> queued2 t = f1 ++ f2 ->
  regular_room (message_size g) r1 r2 -> (stored t ++ f1 = [] -> f2 = []) ->
  Forall lone (queued1 t) -> 58 <= message_size g -> 32 <= fm ->
  let out := FP.to_send (stored t ++ f1) (unsent t) in
  let n := FP.portion (bulk_room fm (message_size g) (26 + Z.of_nat (length (frames 2 r1)))) out in
  (owed (source (sent r1 r2 f1 f2 n t)) <= pred (owed (source t)))%nat.
Proof.
  intros E1' E2' Hroom Hpr Hlone Hsize Hfm out n.
  pose proof (owed_sent r1 r2 f1 f2 n t E1' E2' (portion_le _ _)) as Ho.
  destruct r1 as [|m r1]; [|cbn [length] in Ho; lia]. destruct r2 as [|m r2].
  2: { cbn in E1'. rewrite E1' in Hlone. inversion Hlone as [|? ? Hm _]; subst.
       unfold lone in Hm. cbn [regular_room] in Hroom. change (frames 2 []) with (@nil Z) in Hroom.
       rewrite length_nil in Hroom. lia. }
  destruct (decide (out = [])) as [Eo|Hne].
  - unfold owed, source in *. cbn in *. unfold out, FP.to_send in Eo. case_decide as Eu; [|done].
    apply frames_empty in Eo. pose proof (Hpr Eo) as Ef2. rewrite Ef2, app_nil_r in E2'.
    rewrite E1', E2', Eo, Eu in *. cbn in *. lia.
  - assert (0 < length out)%nat by (destruct out; [done|cbn; lia]).
    assert (0 < n)%nat; [|lia]. unfold n, FP.portion, FP.MIN_FILL, bulk_room.
    change (frames 2 []) with (@nil Z). cbn [length].
    rewrite (proj2 (Z.ltb_ge _ _)) by lia. lia.
Qed.

Lemma send_well n q s P1 P2 T1 T2 f1 f2 mark0 b :
  link_inv n q s P1 P2 -> send_buffer (message_size g) b -> ready s (P1 ++ T1) (P2 ++ T2) f1 f2 ->
  exists q', goes_well (2 + n) q' s P1 P2 T1 T2 f1 f2 (DL.send mark0 b s) /\
    (lively s P1 -> (owed q' <= pred (owed q))%nat).
Proof.
  intros (Hn & t & Ht & <- & <- & <-) Hb [Hr1 Hr2].
  destruct (send_ok s t mark0 b Ht Hb)
    as (s' & r1 & r2 & f1' & f2' & Hrun & Ht' & E1' & E2' & Er & En & Emax & Ece & Hroom & Hpr).
  set (n' := FP.portion _ _) in *. exists (source (sent r1 r2 f1' f2' n' t)).
  destruct (left_sent r1 r2 f1' f2' n' t E1' E2') as [El1 El2].
  split; [|intros (Hs & Hfm & Hl); apply progress_sent; try done; unfold left_regular in Hl;
    rewrite !Forall_app in Hl; tauto].
  exists s', (left_regular t), (left_bulk t). split_and!; try done.
  - split; [|by exists (sent r1 r2 f1' f2' n' t)]. unfold backlog in *. rewrite En, Er. lia.
  - split; congruence.
  - apply delivers_nothing; congruence.
  - unfold steady. split_and!; congruence.
Qed.

Lemma goes_well_more n n' q s P1 P2 T1 T2 f1 f2 r :
  (n <= n')%nat -> goes_well n q s P1 P2 T1 T2 f1 f2 r -> goes_well n' q s P1 P2 T1 T2 f1 f2 r.
Proof.
  intros Hn (s' & Q1 & Q2 & ? & [? ?] & ?). exists s', Q1, Q2.
  split_and!; [done|split; [lia|done]|tauto..].
Qed.

Lemma do_op_well n q s P1 P2 op w1 w2 T1 T2 f1 f2 :
  link_inv n q s P1 P2 -> may op s w1 w2 -> Z.of_nat n < 4294967280 ->
  ready s (P1 ++ w1 ++ T1) (P2 ++ w2 ++ T2) f1 f2 ->
  exists q', goes_well (2 + n) q' s (P1 ++ w1) (P2 ++ w2) T1 T2 f1 f2
    (DL.do_op (send_order g) op s).
Proof.
  intros Hi Hmay Hlt Hr. rewrite !app_assoc in Hr.
  destruct Hmay as [e u m s Hw Hsm|e u m s Hw Hf Hsz|mark0 b s Hb|content s Hne Hc Hcb|s Hw|s Hw];
    rewrite ?app_nil_r in *.
  - destruct Hi as (Hn & t & Ht & <- & <- & <-). exists (source (queue1 m t)).
    apply (goes_well_more n); [lia|].
    exists (DL.write_regular e u s), (left_regular t ++ [m]), (left_bulk t).
    split_and!; try done; [|by apply delivers_nothing].
    split; [done|]. exists (queue1 m t). rewrite left_queue1.
    split; [by apply write_regular_ok|done].
  - destruct Hi as (Hn & t & Ht & <- & <- & <-). exists (source (queue2 m t)).
    apply (goes_well_more n); [lia|].
    exists (DL.write_bulk e u s), (left_regular t), (left_bulk t ++ [m]).
    split_and!; try done; [|by apply delivers_nothing].
    split; [done|]. exists (queue2 m t). rewrite left_queue2.
    split; [by apply write_bulk_ok|done].
  - edestruct send_well as (q' & Hq & _); [done..|]. by exists q'.
  - exists q. apply (goes_well_more n); [lia|]. by apply arrive_well.
  - exists q. apply (goes_well_more n); [lia|]. by apply unpack_regular_well.
  - exists q. apply (goes_well_more n); [lia|]. by apply unpack_bulk_well.
Qed.

Lemma exec_well ops : forall n q s P1 P2 T1 T2 f1 f2,
  link_inv n q s P1 P2 -> legal s ops T1 T2 -> Z.of_nat (n + 2 * length ops) < 4294967280 ->
  ready s (P1 ++ T1) (P2 ++ T2) f1 f2 ->
  exists q', goes_well (n + 2 * length ops) q' s (P1 ++ T1) (P2 ++ T2) [] [] f1 f2
    (DL.exec (send_order g) ops s).
Proof.
  induction ops as [|op ops IH]; intros n q s P1 P2 T1 T2 f1 f2 Hi Hl Hlt Hr.
  - inversion Hl; subst. rewrite Nat.add_0_r. exists q, s, P1, P2. rewrite !app_nil_r in *.
    split_and!; try done. by apply delivers_nothing.
  - inversion Hl as [|? ? ? w1 w2 T1' T2' Hmay Hl']; subst. cbn [length] in Hlt.
    destruct (do_op_well n q s P1 P2 op w1 w2 T1' T2' f1 f2 Hi Hmay ltac:(lia) Hr)
      as (q' & s' & Q1 & Q2 & Hrun & Hi' & Hr' & Hd & He).
    rewrite Hrun in Hl'. cbn [snd] in Hl'.
    destruct (IH (2 + n)%nat q' s' Q1 Q2 T1' T2' f1 f2 Hi' Hl' ltac:(lia) Hr')
      as (q2 & s2 & R1 & R2 & Hrun2 & Hi2 & Hr2 & Hd2 & He2).
    exists q2, s2, R1, R2. split_and!; try done.
    + cbn. by rewrite (bind_val _ _ _ _ _ Hrun).
    + cbn [length]. by replace (n + 2 * S (length ops))%nat with (2 + n + 2 * length ops)%nat by lia.
    + rewrite !app_assoc. by eapply delivers_trans.
    + by eapply steady_trans.
Qed.

(** *** Rounds *)

Lemma goes_well_next n q1 s P1 P2 f1 f2 (m k : M Lnk unit) (after : Source -> Lnk -> Prop) :
  goes_well n q1 s P1 P2 [] [] f1 f2 (m s) ->
  (forall Q1 Q2 s1, m s = (Val tt, s1) -> link_inv n q1 s1 Q1 Q2 ->
    ready s1 (Q1 ++ []) (Q2 ++ []) f1 f2 -> steady s s1 -> (exists D1, P1 = D1 ++ Q1) ->
    exists q2, goes_well n q2 s1 Q1 Q2 [] [] f1 f2 (k s1) /\ after q2 (k s1).2) ->
  exists q2, goes_well n q2 s P1 P2 [] [] f1 f2 ((m;; k) s) /\ after q2 ((m;; k) s).2.
Proof.
  intros (s1 & Q1 & Q2 & Hm & Hi & Hr & Hd & He) Hk. rewrite (bind_val _ _ _ _ _ Hm).
  destruct (Hk Q1 Q2 s1) as (q2 & (s2 & R1 & R2 & Hrun & Hi2 & Hr2 & Hd2 & He2) & Ha); try done.
  { by destruct Hd as (D1 & ? & ? & _); exists D1. }
  exists q2. split; [|done]. exists s2, R1, R2. split_and!; try done.
  - rewrite <- (app_nil_r P1), <- (app_nil_r P2).
    eapply delivers_trans; [done|]. by rewrite !app_nil_r.
  - by eapply steady_trans.
Qed.

Lemma goes_well_bind n q1 q2 s P1 P2 f1 f2 (m k : M Lnk unit) (after : Lnk -> Prop) :
  goes_well n q1 s P1 P2 [] [] f1 f2 (m s) ->
  (forall Q1 Q2 s1, m s = (Val tt, s1) -> link_inv n q1 s1 Q1 Q2 ->
    ready s1 (Q1 ++ []) (Q2 ++ []) f1 f2 ->
    goes_well n q2 s1 Q1 Q2 [] [] f1 f2 (k s1) /\ after (k s1).2) ->
  goes_well n q2 s P1 P2 [] [] f1 f2 ((m;; k) s) /\ after ((m;; k) s).2.
Proof.
  intros Hm Hk.
  destruct (goes_well_next n q1 s P1 P2 f1 f2 m k (fun q s => q = q2 /\ after s) Hm)
    as (q & Hw & -> & Ha); [|done].
  intros Q1 Q2 s1 Hrun Hi Hr _ _. exists q2. destruct (Hk Q1 Q2 s1 Hrun Hi Hr). done.
Qed.

(** A step that is repeated until there is nothing left for it. *)
Lemma drain_well (op : DL.Op E1 E2) (len : Lnk -> nat) (keep : Lnk -> Prop) n q f1 f2 :
  (forall s P1 P2, link_inv n q s P1 P2 -> len s <> 0%nat ->
    ready s (P1 ++ []) (P2 ++ []) f1 f2 ->
    let r := DL.do_op (send_order g) op s in
    goes_well n q s P1 P2 [] [] f1 f2 r /\ len r.2 = pred (len s) /\ (keep s -> keep r.2)) ->
  forall s P1 P2, link_inv n q s P1 P2 -> ready s (P1 ++ []) (P2 ++ []) f1 f2 -> keep s ->
    let r := DL.drain (send_order g) op len s in
    goes_well n q s P1 P2 [] [] f1 f2 r /\ len r.2 = 0%nat /\ keep r.2.
Proof.
  intros Hstep s P1 P2 Hi Hr Hs. unfold DL.drain. erewrite bind_val by reflexivity.
  remember (len s) as m eqn:Hm. revert s P1 P2 Hi Hr Hs Hm.
  induction m as [|m IH]; intros s P1 P2 Hi Hr Hs Hm.
  - cbn. split_and!; [|done|done]. exists s, P1, P2. split_and!; try done. by apply delivers_nothing.
  - destruct (Hstep s P1 P2 Hi ltac:(lia) Hr) as (Hw & Hl & Hk). cbn [replicate DL.exec].
    refine (goes_well_bind _ q _ _ _ _ _ _ _ _ (fun s => len s = 0%nat /\ keep s) Hw _).
    intros Q1 Q2 s1 Hrun Hi1 Hr1. cbv zeta in Hl, Hk. rewrite Hrun in Hl, Hk.
    apply IH; [done|done|by apply Hk|cbn in Hl; lia].
Qed.

(** Nothing is under way between the packers and the ends. *)
Definition quiet s : Prop :=
  DL.network s = [] /\ NP.regular_work (DL.receiver s) = [] /\
  FU.work (NP.fill_unpacker (DL.receiver s)) = [].

Lemma quiet_done n q s P1 P2 :
  link_inv n q s P1 P2 -> quiet s -> owed q = 0%nat -> P1 = [] /\ P2 = [].
Proof.
  intros (_ & t & Ht & <- & <- & <-) (Hn & Hrw & Hfw) Ho.
  destruct Ht as [_ Hnet [Hr1 Hr2 _ _ _ _ _] Hflow _ _].
  rewrite Hn in Hnet. rewrite Hrw in Hr1. rewrite Hfw in Hr2.
  apply Forall2_nil_inv_l in Hnet as Eu, Hr1 as Ew, Hr2 as Ec.
  unfold owed, source in Ho. cbn [s_queued1 s_queued2 s_stored s_unsent] in Ho.
  assert (queued1 t = []) as E1' by (apply length_zero_iff_nil; lia).
  assert (unsent t = []) as E2' by (apply length_zero_iff_nil; lia).
  assert (stored t ++ queued2 t = []) as E3
    by (apply (frames_empty 4), length_zero_iff_nil; lia).
  rewrite Ec, Eu, E2' in Hflow. apply flow_done in Hflow.
  unfold left_regular, left_bulk. by rewrite Ew, Eu, E1', Hflow, E3.
Qed.

Lemma length_pred {A} (l : list A) : length (tail l) = pred (length l).
Proof. by destruct l. Qed.

Lemma receive_all_well n q s P1 P2 f1 f2 content :
  link_inv n q s P1 P2 -> Z.of_nat (length content) = pool_buffer g -> bytes_ok content ->
  Z.of_nat n < 4294967280 -> ready s (P1 ++ []) (P2 ++ []) f1 f2 ->
  let r := (DL.drain (send_order g) (DL.Arrive content) DL.arrivals;;
            DL.drain (send_order g) DL.UnpackRegular DL.regular_left;;
            DL.drain (send_order g) DL.UnpackBulk DL.bulk_left) s in
  goes_well n q s P1 P2 [] [] f1 f2 r /\ quiet r.2.
Proof.
  intros Hi Hc Hcb Hn Hr. assert (forall A (l : list A), length l <> 0%nat -> l <> []) as Hne
    by (intros A l ? ->; done).
  destruct (drain_well (DL.Arrive content) DL.arrivals (fun _ => True) n q f1 f2) with s P1 P2
    as (Hw & Hl & _); try done.
  { intros s' Q1 Q2 Hi' Hl' Hr'. destruct (arrive_well n q s' Q1 Q2 [] [] f1 f2 content) as [Hw En];
      try done; [by apply Hne|]. split_and!; [done| |done].
    unfold DL.arrivals. by rewrite <- length_pred, <- En. }
  refine (goes_well_bind _ q _ _ _ _ _ _ _ _ _ Hw _). intros Q1 Q2 s1 Hrun1 Hi1 Hr1.
  rewrite Hrun1 in Hl. apply length_zero_iff_nil in Hl. cbn [snd] in Hl.
  destruct (drain_well DL.UnpackRegular DL.regular_left (fun s => DL.network s = []) n q f1 f2)
    with s1 Q1 Q2 as (Hw1 & Hl1 & Hk1); try done.
  { intros s' R1 R2 Hi' Hl' Hr'.
    destruct (unpack_regular_well n q s' R1 R2 [] [] f1 f2 Hi' (Hne _ _ Hl') Hr') as (Hw' & En & Er).
    split_and!; [done| |intros E; by rewrite <- E, <- En].
    unfold DL.regular_left. by rewrite <- length_pred, <- Er. }
  refine (goes_well_bind _ q _ _ _ _ _ _ _ _ _ Hw1 _). intros R1 R2 s2 Hrun2 Hi2 Hr2.
  rewrite Hrun2 in Hl1, Hk1. apply length_zero_iff_nil in Hl1. cbn [snd] in Hl1, Hk1.
  destruct (drain_well DL.UnpackBulk DL.bulk_left
    (fun s => DL.network s = [] /\ NP.regular_work (DL.receiver s) = []) n q f1 f2)
    with s2 R1 R2 as (Hw2 & Hl2 & Hk2); try done.
  { intros s' V1 V2 Hi' Hl' Hr'.
    destruct (unpack_bulk_well n q s' V1 V2 [] [] f1 f2 Hi' (Hne _ _ Hl') Hr')
      as (Hw' & En & Er & Ef).
    split_and!; [done| |intros [E1' E2']; by rewrite <- E1', <- E2', <- En, <- Er].
    unfold DL.bulk_left. by rewrite <- length_pred, <- Ef. }
  split; [done|]. apply length_zero_iff_nil in Hl2. unfold quiet. tauto.
Qed.

Lemma round_well n q s P1 P2 f1 f2 mark0 b content :
  link_inv n q s P1 P2 -> send_buffer (message_size g) b ->
  Z.of_nat (length content) = pool_buffer g -> bytes_ok content ->
  Z.of_nat n < 4294967270 -> ready s (P1 ++ []) (P2 ++ []) f1 f2 ->
  let r := DL.round (send_order g) mark0 b content s in
  exists q', goes_well (2 + n) q' s P1 P2 [] [] f1 f2 r /\ quiet r.2 /\
    (lively s P1 -> (owed q' <= pred (owed q))%nat).
Proof.
  intros Hi Hb Hc Hcb Hn Hr.
  destruct (send_well n q s P1 P2 [] [] f1 f2 mark0 b Hi Hb Hr) as (q' & Hw & Ho).
  exists q'. refine ((fun X => conj (proj1 X) (conj (proj2 X) Ho)) _).
  refine (goes_well_bind _ q' _ _ _ _ _ _ _ _ _ Hw _). intros Q1 Q2 s1 _ Hi1 Hr1.
  apply receive_all_well; try done. lia.
Qed.

Lemma quiet_inv n n' q s P1 P2 : link_inv n q s P1 P2 -> quiet s -> link_inv n' q s P1 P2.
Proof.
  intros [_ Ht] (Hn & Hw & Hf). split; [|done]. unfold backlog, in_use.
  rewrite Hn, Hw, Hf. cbn. lia.
Qed.

Lemma lively_next s s' P1 Q1 : lively s P1 -> steady s s' -> (exists D1, P1 = D1 ++ Q1) -> lively s' Q1.
Proof.
  intros (? & ? & Hl) (Hmax & _) [D1 ->]. apply Forall_app in Hl as [_ Hl].
  unfold lively. by rewrite Hmax.
Qed.

Lemma rounds_well f1 f2 mark0 b content n m : forall q s P1 P2,
  link_inv n q s P1 P2 -> send_buffer (message_size g) b ->
  Z.of_nat (length content) = pool_buffer g -> bytes_ok content ->
  Z.of_nat n < 4294967270 -> ready s (P1 ++ []) (P2 ++ []) f1 f2 ->
  lively s P1 -> (owed q <= m)%nat ->
  let r := DL.rounds (S m) (send_order g) mark0 b content s in
  exists q', goes_well (2 + n) q' s P1 P2 [] [] f1 f2 r /\ quiet r.2 /\ owed q' = 0%nat.
Proof.
  induction m as [|m IH]; intros q s P1 P2 Hi Hb Hc Hcb Hn Hr Hl Ho;
    destruct (round_well n q s P1 P2 f1 f2 mark0 b content Hi Hb Hc Hcb Hn Hr)
      as (q1 & Hw & Hq & Hdec); pose proof (Hdec Hl) as Hle;
    refine (goes_well_next _ q1 _ _ _ _ _ _ _ (fun q s => quiet s /\ owed q = 0%nat) Hw _);
    intros Q1 Q2 s1 Hrun Hi1 Hr1 Hst Hsuf; cbv zeta in Hq; rewrite Hrun in Hq; cbn [snd] in Hq.
  - exists q1. split_and!; [|done|lia]. exists s1, Q1, Q2. split_and!; try done.
    by apply delivers_nothing.
  - apply (IH q1); try done; [by eapply quiet_inv|by eapply lively_next|lia].
Qed.

Lemma owed_bound n q s P1 P2 :
  link_inv n q s P1 P2 -> (owed q <= length P1 + length (frames 4 P2))%nat.
Proof.
  intros (_ & t & Ht & <- & <- & <-). pose proof (flow_unsent _ _ _ _ _ _ (lk_flow _ _ Ht)).
  unfold owed, source, left_regular, left_bulk. cbn [s_queued1 s_queued2 s_stored s_unsent].
  rewrite !frames_app, !length_app. lia.
Qed.

(** *** The start *)

Lemma initialise_holds (m : Memory) own senders p :
  memory_ok g m -> FU.buffer_size p = fill_buffer g ->
  (Z.to_nat (send_order g) < senders)%nat -> Z.to_nat (send_order g) <> own ->
  exists r, FU.amorph_store (FU.initialiseStores (buffer_areas m) own senders p)
      !! Z.to_nat (send_order g) = Some r /\ FU.holds (fill_buffer g) 0 [] r.
Proof.
  intros [_ Hm _] Hp Hk Hown. pose proof Hg as []. set (k := Z.to_nat (send_order g)) in *.
  destruct (Hm k) as [Hl Hb].
  exists (ARS.mk (buffer_areas m k) (FU.buffer_size p) 0 0 false). split.
  - cbn [FU.initialiseStores FU.set_countcheck FU.set_store FU.amorph_store].
    rewrite list_lookup_fmap, lookup_seq_lt by done. cbn. by rewrite bool_decide_false.
  - split; try done; [split; cbn; try done; lia|by left].
Qed.

Lemma start_inv (m : Memory) own senders fm e1 e2 c1 c2 :
  memory_ok g m -> (Z.to_nat (send_order g) < senders)%nat -> Z.to_nat (send_order g) <> own ->
  0 <= fm < 4294967296 ->
  exists s : Lnk, start g m own senders fm e1 e2 c1 c2 = Some s /\
    link_inv 0 (mkSource [] [] [] []) s [] [] /\
    NP.regular_ends (DL.receiver s) = c1 /\ NP.bulk_ends (DL.receiver s) = c2 /\
    NP.fill_maximum (DL.sender s) = fm /\
    FP.critical_errors (NP.fill_packer (DL.sender s)) = 0 /\
    FU.critical_errors (NP.fill_unpacker (DL.receiver s)) = 0.
Proof.
  intros Hm Hk Hown Hfm. pose proof Hg as [].
  destruct (mo_stores _ _ Hm) as [[? ?] [? ?]].
  destruct (FP.fill_complete_run (store_size g) (unset_index m) (unset_mark m) [] 0
    (store_areas m) e2) as (p & Hp & Hpo & Hq & Hce); try done; [lia|].
  destruct (construct_ok (pool_areas m) (Pool.mk [] [] (pool_buffer g)))
    as (pool & Hpool & Hpok & Hsz); [apply empty_ok|apply Hm|].
  destruct (initialise_holds m own senders (FU.mk [] [] (fill_buffer g) [] 0))
    as (r & Hr & Hh); try done.
  unfold start. rewrite Hp, Hpool. unfold FU.complete. cbn [FU.buffer_size].
  rewrite (proj2 (Z.ltb_ge _ _)) by lia. cbn [negb].
  eexists. split; [reflexivity|]. split; [|done]. split; [done|].
  exists (mkTrace [] [] [] [] [] [] [] 0 [] []). split; [|done].
  split; try done.
  - exists e1, e2. split; cbn; try done; [constructor|rewrite Hq; constructor].
  - split; cbn; try done; [|by rewrite length_replicate]. by exists r.
  - apply flow_empty. lia.
Qed.
End Steps.

(** ** Channels for examples

    The entries of a node as the values of its datapoints, by their index, and
    channel ends that keep what arrives. *)

Module Plain.

Definition entries : Type := list (list cvalue).
Definition ends : Type := list Message.
Definition id_of (n : nat) : GlobalId := mkId 1 (u16 (Z.of_nat n)).

#[export] Instance plain_entries : ChannelEntries entries := {|
  getChannelId _ n := id_of n;
  entry_packData _ u := fun w =>
    match w.1 !! Z.to_nat (idx u) with
    | Some vs => on_store (packAll vs) w
    | None => (Stuck OutOfBounds, w)
    end;
  packComplete _ _ _ := mret tt;
  packFailed _ _ _ := mret tt
|}.

Definition plain_sends (e : entries) (u : PackUnit) (m : Message) (e' : entries) : Prop :=
  exists vs, e !! Z.to_nat (idx u) = Some vs /\ Forall cvalue_ok vs /\
    m = (id_of (entry u), encodings vs) /\ e' = e.

Lemma id_of_ok n : id_ok (id_of n).
Proof. split; cbn; [unfold is_u8; lia|apply u16_range]. Qed.

#[export] Instance plain_laws : ChannelEntriesLaws entries.
Proof.
  refine {| sends := plain_sends |}.
  - intros e u m e' (vs & _ & Hvs & -> & _). split; [|done].
    split; [apply id_of_ok|by apply encodings_ok].
  - intros Hc e u m e' s (vs & Hl & Hvs & -> & ->) Hs Hch Hroom. cbn [snd] in Hroom.
    exists e. split; [|done]. cbn. rewrite Hl. unfold on_store. cbn [fst snd].
    pose proof (packs_all vs Hvs s Hs Hch) as Hp. pose proof (as_cap _ Hs).
    rewrite decide_True in Hp by done. rewrite Hp by lia. done.
  - intros Hc e u m e' s (vs & Hl & Hvs & -> & ->) Hs Hch [Hroom Hbig]. cbn [snd] in Hroom, Hbig.
    pose proof (packs_all vs Hvs s Hs Hch Hbig) as Hp. rewrite decide_False in Hp by lia.
    destruct Hp as (w & Hw & Hwl & Hrun). exists e, w. cbn. rewrite Hl.
    unfold on_store. cbn [fst snd]. rewrite Hrun. split_and!; try done. by exists e.
  - intros Hc e u m e' _. by exists e.
Defined.

#[export] Instance plain_ends : ChannelEnds ends := {|
  getChannel _ o := o <? 100;
  channel_unPackData _ o l n := fun '(c, r) =>
    match read_at (ARS.index r) (Z.to_nat n) (ARS.stor r) with
    | Some bs => (Val tt, (c ++ [(mkId l o, bs)], step_index n r))
    | None => (Stuck OutOfBounds, (c, r))
    end
|}.

#[export] Instance plain_ends_laws : ChannelEndsLaws ends.
Proof.
  refine {| accepts := fun (c : ends) (m : Message) (c' : ends) =>
    (object m.1 <? 100) = true /\ c' = c ++ [m] |}.
  - by intros c m c' [? _].
  - intros Hc c [[l o] bs] c' r rest [_ ->] Hr Hd Hl. cbn [fst snd object location] in *. cbn.
    rewrite Nat2Z.id. assert (read_at (ARS.index r) (length bs) (ARS.stor r) = Some bs) as ->; [|done].
    pose proof (ars_index _ Hr). pose proof (ars_room _ Hr).
    rewrite read_at_some by lia. by rewrite Hd, take_app_length.
Defined.

Lemma plain_script_more vs us : forall ms (e ef : entries),
  script e us ms ef -> ef = e /\ script (e ++ [vs]) us ms (e ++ [vs]).
Proof.
  induction us as [|u us IH]; intros ms e ef Hs; inversion Hs as [|? ? ? ? ? ? ? Hu Hr]; subst.
  - split; [done|constructor].
  - destruct Hu as (ws & Hl & Hok & -> & ->). destruct (IH _ _ _ Hr) as [-> Hr'].
    split; [done|]. eapply script_cons, Hr'. exists ws. split_and!; try done.
    by apply lookup_app_l_Some.
Qed.

(** A datapoint at the end, and its notification. *)
Lemma plain_writes (e : entries) n i ts vs :
  Forall cvalue_ok vs -> i = Z.of_nat (length e) ->
  writes e (e ++ [vs]) (mkUnit n i ts) (id_of n, encodings vs).
Proof.
  intros Hvs ->. intros us ms ef Hs. destruct (plain_script_more vs us ms e ef Hs) as [_ Hs'].
  exists (e ++ [vs]). eapply script_snoc; [done|].
  exists vs. cbn [idx entry]. rewrite Nat2Z.id. split_and!; try done. by apply list_lookup_middle.
Qed.

Lemma plain_receives (ms : list Message) : forall c : ends,
  Forall (fun m => object m.1 < 100) ms -> receives c ms (c ++ ms).
Proof.
  induction ms as [|m ms IH]; intros c Hms; inversion Hms; subst.
  - rewrite app_nil_r. constructor.
  - eapply receives_here; [split; [by apply Z.ltb_lt|done]|].
    replace (c ++ m :: ms) with ((c ++ [m]) ++ ms) by (by rewrite <- app_assoc). by apply IH.
Qed.
End Plain.

(** A small link, and a run on it. *)
Module Demo.
Import Plain.
#[export] Existing Instance test_config.

Definition config : LinkConfig := {|
  message_size := 80; store_size := 256; fill_buffer := 256; pool_buffer := 96; send_order := 1
|}.
Definition zeros (n : nat) : list Z := replicate n 0.
Definition memory : Memory := {|
  store_areas := (zeros 256, zeros 256); buffer_areas _ := zeros 256; pool_areas := [zeros 96];
  unset_index := 0; unset_mark := 0
|}.
Definition to_send : MB.MessageBuffer := MB.mk 80 0 0 22 1 0 0 (zeros 80).

Definition first_values : list cvalue := [Vnum Cuint32 7].
Definition bulk_values : list cvalue := [Vchars (replicate 60 65)].
Definition regular_message : Message := (Plain.id_of 3, encodings first_values).
Definition bulk_message : Message := (Plain.id_of 4, encodings bulk_values).

Definition ops : list (DL.Op Plain.entries Plain.entries) :=
  [DL.WriteRegular [first_values] (mkUnit 3 0 0); DL.WriteBulk [bulk_values] (mkUnit 4 0 0);
   DL.Send 0 to_send; DL.Arrive (zeros 96); DL.UnpackRegular; DL.UnpackBulk].

Definition link : DL.Link Plain.entries Plain.entries Plain.ends Plain.ends :=
  DL.mkLink
    (NP.mkSender [] []  [] (FP.mk [AS.mk (zeros 256) 256 0 true false 0;
      AS.mk (zeros 256) 256 0 true false 0] 0 0 0 0 256 [] 0) 40) []
    (NP.mkReceiver [] [] (FU.mk [ARS.make_empty; ARS.mk (zeros 256) 256 0 0 false; ARS.mk (zeros 256) 256 0 0 false] [0; 0; 0] 256 [] 0)
       [] (Pool.mk [MB.mk 96 0 0 0 0 0 0 (zeros 96)] [0%nat] 96)).

Definition no_entries : Plain.entries := [].
Definition no_ends : Plain.ends := [].

Lemma started :
  start config memory 0 3 40 no_entries no_entries no_ends no_ends = Some link.
Proof. vm_compute. reflexivity. Qed.

Lemma zeros_area n : area (Z.of_nat n) (zeros n).
Proof.
  split; [unfold zeros; by rewrite length_replicate|]. apply Forall_replicate. unfold is_u8. lia.
Qed.

Lemma config_fine : config_ok config.
Proof. split; cbn; lia. Qed.
Lemma memory_fine : memory_ok config memory.
Proof.
  split; [split; apply (zeros_area 256)|intros ?; apply (zeros_area 256)|].
  constructor; [apply (zeros_area 96)|constructor].
Qed.
Lemma buffer_fine : send_buffer 80 to_send.
Proof. split; [done|done|apply (zeros_area 80)|done]. Qed.

Lemma steps : legal config link ops [regular_message] [bulk_message].
Proof.
  assert (Forall cvalue_ok first_values) as Hf by (repeat constructor; cbn; lia || done).
  assert (Forall cvalue_ok bulk_values) as Hb by (repeat constructor; cbn; lia || done).
  refine (legal_cons _ _ _ _ [_] [] [] [_] _ _).
  { apply may_write_regular; [by apply (Plain.plain_writes [])|by vm_compute]. }
  refine (legal_cons _ _ _ _ [] [_] [] [] _ _).
  { apply may_write_bulk; [by apply (Plain.plain_writes [])|by vm_compute|by vm_compute]. }
  refine (legal_cons _ _ _ _ [] [] [] [] _ _); [apply may_send, buffer_fine|].
  refine (legal_cons _ _ _ _ [] [] [] [] _ _).
  { apply may_arrive; [by vm_compute|done|apply (zeros_area 96)]. }
  refine (legal_cons _ _ _ _ [] [] [] [] _ _); [apply may_unpack_regular; by vm_compute|].
  refine (legal_cons _ _ _ _ [] [] [] [] _ _); [apply may_unpack_bulk; by vm_compute|].
  constructor.
Qed.
End Demo.

(** ** What the two nodes see *)

Section Theorems.
Context `{BuildConfig} `{ChannelEntriesLaws E1} `{ChannelEntriesLaws E2}
  `{ChannelEndsLaws C1} `{ChannelEndsLaws C2}.
Implicit Types (s : DL.Link E1 E2 C1 C2).


End Theorems.

(** *** Witnesses *)

Import Plain.


