(* ===== verification/TransportErrors.v ===== *)
(** What becomes of sets of data that are too large for the stores or the
    messages they are to travel in. *)

From S2P Require Import Prelude Bytes Amorph MessageBuffer Transport FillPack Packer.
From S2P Require Import NetPeer DataLink.
#[local] Open Scope Z_scope.

Section FillTooLarge.
Context `{BuildConfig} `{ChannelEntriesLaws E}.
Implicit Types (e : E) (p : FP.FillPacker).

(** The store that is filled is choked and empty, and nothing is to be sent. *)
Definition jammed p : Prop :=
  FP.bytes_to_send p = 0 /\
  exists s, FP.store p !! FP.store_to_fill p = Some s /\ AS.choked s = true /\ AS.index s = 0.

Lemma jammed_packWork p e : jammed p -> FP.packWork (e, p) = (Val tt, (e, p)).
Proof.
  intros (Hb & s & Hs & Hc & Hi).
  unfold FP.packWork. erewrite bind_val by reflexivity. cbn [snd].
  erewrite bind_val by (by apply FP.the_store_run). cbn [FP.pack_loop].
  erewrite bind_val by reflexivity. cbn [snd].
  erewrite bind_val by (by apply FP.the_store_run).
  destruct (FP.work_queue p); [done|]. by rewrite Hc.
Qed.

Lemma jammed_nothing p e size :
  jammed p -> FP.stuffMessage size (e, p) = (Val [], (e, p)).
Proof.
  intros Hj. pose proof (jammed_packWork p e Hj) as Hw. destruct Hj as (Hb & s & Hs & Hc & Hi).
  unfold FP.stuffMessage.
  assert (FP.next_store (e, p) = (Val tt, (e, p))) as Hn.
  { unfold FP.next_store. erewrite bind_val by reflexivity. cbn [snd]. rewrite Hb. cbn [Z.eqb].
    erewrite bind_val by (by apply FP.the_store_run). unfold AS.getSize. by rewrite Hi. }
  erewrite bind_val by exact Hw. erewrite bind_val by exact Hn.
  erewrite bind_val by reflexivity. cbn [snd]. by rewrite Hb.
Qed.

Lemma jammed_queue p q : jammed p -> jammed (FP.set_queue q p).
Proof. done. Qed.

(** The set is dropped with a critical error. *)
Lemma oversized_dropped N p e u us m e' s old_level :
  FP.fp_ok N p [] [] -> FP.store p !! FP.store_to_fill p = Some s -> AS.index s = 0 ->
  AS.choked s = false -> old_level = 0 -> FP.work_queue p = u :: us -> sends e u m e' ->
  N < 7 + Z.of_nat (length m.2) < 4294967296 ->
  (forall e1, exists e2, packComplete (entry u) (idx u) e1 = (Val tt, e2)) ->
  exists e1 p1, FP.try_one u old_level (e, p) = (Val false, (e1, p1)) /\ jammed p1 /\
    FP.critical_errors p1 = FP.critical_errors p + 1 /\ FP.work_queue p1 = us.
Proof.
  intros Hp Hs Hi Hc -> Hq Hsend Hbig Htot.
  destruct (FP.fp_each _ _ _ _ Hp _ _ Hs) as [Hok Hcap].
  destruct (FP.fill_packOneSet_full e u m e' s Hsend Hok Hc) as (e1 & s1 & Hrun & Hcl & _).
  { rewrite framed_length. lia. }
  destruct (Htot e1) as [e2 He2]. destruct Hcl as (Hok1 & Hcap1 & Hch1 & _).
  pose proof (lookup_lt_Some _ _ _ Hs) as Hlt.
  set (p1 := FP.set_store (<[FP.store_to_fill p:=s1]> (FP.store p)) p).
  assert (FP.store p1 !! FP.store_to_fill p1 = Some s1) as Hs1
    by (cbn; by apply list_lookup_insert_eq).
  exists e2, (FP.set_store (<[FP.store_to_fill p:=AS.set_index 0 s1]> (FP.store p1))
    (FP.add_error (FP.set_queue us p1))). split_and!; [| |done|done].
  - unfold FP.try_one. erewrite bind_val by reflexivity. unfold catch. cbn [snd].
    erewrite bind_exn by (by eapply FP.in_store_run).
    unfold FP.not_packed. cbn [Z.eqb]. fold p1.
    unfold FP.on_entry, FP.pop, FP.on_packer, gets, modify, mbind, M_bind. cbn [fst snd].
    rewrite He2. cbn [fst snd].
    erewrite FP.in_store_on; [|cbn; by apply list_lookup_insert_eq|reflexivity].
    cbn. by rewrite Hq.
  - split; [cbn; by rewrite (FP.fp_bytes _ _ _ _ Hp)|].
    exists (AS.set_index 0 s1). split_and!; [|done|done]. cbn.
    apply list_lookup_insert_eq. by rewrite length_insert.
Qed.

(** A set of bulk data that is too large for an empty store is dropped with
    a critical error, as intended, but the store stays choked: whatever is
    written later, the packer never sends another byte. *)
Theorem fill_oversized_jams N p e u us m e' size :
  FP.fp_ok N p [] [] -> FP.work_queue p = u :: us -> sends e u m e' ->
  N < 7 + Z.of_nat (length m.2) < 4294967296 ->
  (forall e1, exists e2, packComplete (entry u) (idx u) e1 = (Val tt, e2)) ->
  exists e1 p1, FP.stuffMessage size (e, p) = (Val [], (e1, p1)) /\
    FP.critical_errors p1 = FP.critical_errors p + 1 /\ FP.work_queue p1 = us /\
    forall e2 q size2, FP.stuffMessage size2 (e2, FP.set_queue q p1) =
      (Val [], (e2, FP.set_queue q p1)).
Proof.
  intros Hp Hq Hsend Hbig Htot. destruct (FP.fp_pend _ _ _ _ Hp) as (s & Hs & Hcon & Hch).
  assert (AS.choked s = false) as Hc by (destruct (AS.choked s); [by destruct Hch|done]).
  assert (AS.index s = 0) as Hi.
  { destruct (FP.fp_each _ _ _ _ Hp _ _ Hs) as [Hok _].
    by rewrite <- contents_length, Hcon. }
  destruct (oversized_dropped N p e u us m e' s 0) as (e1 & p1 & Htry & Hj & Hce & Hq1); try done.
  exists e1, p1. split_and!; [|done|done|intros; by apply jammed_nothing].
  pose proof (jammed_nothing p1 e1 size Hj) as Hrest.
  assert (FP.packWork (e, p) = (Val tt, (e1, p1))) as Hw.
  { unfold FP.packWork. erewrite bind_val by reflexivity. cbn [snd].
    erewrite bind_val by (by apply FP.the_store_run). cbn [FP.pack_loop].
    erewrite bind_val by reflexivity. cbn [snd].
    erewrite bind_val by (by apply FP.the_store_run).
    rewrite Hq, Hc. unfold AS.getSize. rewrite Hi. by erewrite bind_val by exact Htry. }
  unfold FP.stuffMessage in *. erewrite bind_val by exact Hw.
  pose proof (jammed_packWork p1 e1 Hj) as Hw1. by erewrite bind_val in Hrest by exact Hw1.
Qed.

(** An entry that is not valid any more throws before it packs anything.
    [Packer] drops such a set; here the exception leaves [stuffMessage], with
    the set still at the front of the queue and its head in the store. *)
Theorem fill_invalid_escapes N p pend un e u us s size :
  FP.fp_ok N p pend un -> FP.work_queue p = u :: us ->
  FP.store p !! FP.store_to_fill p = Some s -> AS.choked s = false ->
  AS.index s + 7 <= N -> N < 2147483648 -> id_ok (getChannelId e (entry u)) ->
  (forall s', entry_packData u (e, s') = (Exn EntryInvalid, (e, s'))) ->
  exists p1 s1, FP.stuffMessage size (e, p) = (Exn EntryInvalid, (e, p1)) /\
    FP.work_queue p1 = u :: us /\ FP.store p1 !! FP.store_to_fill p1 = Some s1 /\
    AS.index s1 = AS.index s + 7.
Proof.
  intros Hp Hq Hs Hc Hroom HN Hid Hinv.
  destruct (FP.fp_each _ _ _ _ Hp _ _ Hs) as [Hok Hcap]. pose proof Hok as [].
  pose proof (packs_id _ Hid s Hok Hc) as Hpid.
  change (Z.of_nat (length (id_bytes _))) with 3 in Hpid. specialize (Hpid ltac:(lia)).
  rewrite decide_True in Hpid by lia.
  set (s1 := append (id_bytes (getChannelId e (entry u))) s) in *.
  assert (as_ok s1) as Hs1 by (apply append_ok; [done|apply id_bytes_ok|cbn; lia]).
  assert (AS.index s1 = AS.index s + 3) as Ei by done.
  assert (AS.capacity s1 = AS.capacity s) as Ec by done.
  pose proof (startBigMark_run s1 Hs1 Hc ltac:(lia)) as Hmark.
  rewrite (proj2 (Z.ltb_ge _ _)) in Hmark by lia.
  set (s2 := AS.set_index (AS.index s1 + 4) (AS.set_mark_point (AS.index s1) s1)) in *.
  assert (FP.packOneSet u (e, s) = (Exn EntryInvalid, (e, s2))) as Hset.
  { rewrite (FP.fill_packOneSet_shape u e s _ eq_refl). erewrite bind_on_store by exact Hpid.
    erewrite bind_val by (unfold on_store; cbn [fst snd]; rewrite Hmark; reflexivity).
    by erewrite bind_exn by apply Hinv. }
  exists (FP.set_store (<[FP.store_to_fill p:=s2]> (FP.store p)) p), s2.
  split_and!; [|done|cbn; by eapply list_lookup_insert_eq, lookup_lt_Some|cbn; lia].
  unfold FP.stuffMessage. apply bind_exn. unfold FP.packWork.
  erewrite bind_val by reflexivity. cbn [snd].
  erewrite bind_val by (by apply FP.the_store_run). cbn [FP.pack_loop].
  erewrite bind_val by reflexivity. cbn [snd].
  erewrite bind_val by (by apply FP.the_store_run). rewrite Hq, Hc.
  apply bind_exn. unfold FP.try_one. erewrite bind_val by reflexivity. cbn [snd].
  unfold catch. by erewrite bind_exn by (by eapply FP.in_store_run).
Qed.
End FillTooLarge.

(** Regular data that does not fit in a message of its own is never sent,
    nor is anything that was written after it: every further message leaves the
    queue of the packer as it was and has no regular data. *)
Theorem regular_oversized_blocks `{BuildConfig} `{ChannelEntriesLaws E1} `{ChannelEntriesLaws E2}
    N cap (p : NP.Sender E1 E2) b m m1 m2 pend unsent e1 e2 mark0 :
  N < 2147483648 -> 26 <= cap < 2147483648 ->
  sender_ok N p (m :: m1) m2 pend unsent e1 e2 -> send_buffer cap b ->
  cap < 26 + Z.of_nat (length (framed 2 m)) ->
  exists p' b' m2' pend' unsent' chunk,
    NP.clientPackPayload mark0 (p, b) = (Val tt, (p', b')) /\
    sender_ok N p' (m :: m1) m2' pend' unsent' e1 e2 /\
    take (Z.to_nat (MB.fill b')) (MB.buffer b') = take 22 (MB.buffer b) ++ payload [] chunk.
Proof.
  intros HN Hcap Hp Hb Hbig.
  destruct (clientPackPayload_run N cap p b _ _ _ _ _ _ mark0 HN Hcap Hp Hb)
    as (p' & b' & r1 & r2 & f1 & f2 & Hrun & Hm & _ & Hp' & Hdat & Hfill & _).
  assert (r1 = []) as ->.
  { destruct r1 as [|m' r1]; [done|]. injection Hm as <- _. exfalso.
    change (frames 2 (m :: r1)) with (framed 2 m ++ frames 2 r1) in Hfill.
    rewrite length_app in Hfill. lia. }
  cbn [app] in Hm. subst r2. by eexists _, _, _, _, _, _.
Qed.

(** *** Witnesses *)

Import Plain.

Definition large_values : list cvalue := [Vvstring (replicate 200 65); Vvstring (replicate 200 66)].
Definition full_store : AS.AmorphStore := AS.mk (Demo.zeros 256) 256 0 true false 0.
Definition one_waiting : FP.FillPacker :=
  FP.mk [full_store; full_store] 0 0 0 0 256 [mkUnit 5 0 0] 0.

Lemma one_waiting_ok : FP.fp_ok 256 one_waiting [] [].
Proof.
  destruct (FP.fill_complete_run (E := Plain.entries) 256 0 0 [mkUnit 5 0 0] 0
    (Demo.zeros 256, Demo.zeros 256) []) as (p & Hrun & Hp & _);
    [lia|done|done|apply (Demo.zeros_area 256)|apply (Demo.zeros_area 256)|].
  vm_compute in Hrun. injection Hrun as <-. exact Hp.
Qed.

Lemma large_ok : Forall cvalue_ok large_values.
Proof. repeat constructor; cbn; lia || done. Qed.

Lemma large_sends :
  sends ([large_values] : Plain.entries) (mkUnit 5 0 0) (Plain.id_of 5, encodings large_values)
    ([large_values] : Plain.entries).
Proof. exists large_values. split_and!; [done|apply large_ok|done|done]. Qed.

Lemma fill_oversized_jams_witness :
  exists e1 p1, FP.stuffMessage (H := test_config) 100 ([large_values], one_waiting) =
      (Val [], (e1, p1)) /\
    FP.critical_errors p1 = 1 /\ FP.work_queue p1 = [] /\
    forall e2 q size2, FP.stuffMessage (H := test_config) size2 (e2, FP.set_queue q p1) =
      (Val [], (e2, FP.set_queue q p1)).
Proof.
  apply (fill_oversized_jams (H := test_config) 256 one_waiting [large_values] (mkUnit 5 0 0) []
    (Plain.id_of 5, encodings large_values) [large_values]).
  - exact one_waiting_ok.
  - reflexivity.
  - exact large_sends.
  - vm_compute. done.
  - intros e1. by exists e1.
Defined.

Definition blocked_sender : NP.Sender Plain.entries Plain.entries :=
  NP.mkSender [large_values] [mkUnit 5 0 0] [] (FP.set_queue [] one_waiting) 40.

Lemma blocked_sender_ok :
  sender_ok 256 blocked_sender [(Plain.id_of 5, encodings large_values)] [] [] []
    ([large_values] : Plain.entries) ([] : Plain.entries).
Proof.
  split; [| |constructor|constructor|by destruct one_waiting_ok; split|cbn; lia].
  - eapply script_cons; [apply large_sends|constructor].
  - repeat constructor. by vm_compute.
Qed.

Lemma regular_oversized_blocks_witness :
  exists p' b' m2' pend' unsent' chunk,
    NP.clientPackPayload (H := test_config) 0 (blocked_sender, Demo.to_send) = (Val tt, (p', b')) /\
    sender_ok 256 p' [(Plain.id_of 5, encodings large_values)] m2' pend' unsent'
      ([large_values] : Plain.entries) ([] : Plain.entries) /\
    take (Z.to_nat (MB.fill b')) (MB.buffer b') =
      take 22 (MB.buffer Demo.to_send) ++ payload [] chunk.
Proof.
  apply (regular_oversized_blocks (H := test_config) 256 80 blocked_sender Demo.to_send
    (Plain.id_of 5, encodings large_values) [] [] [] [] [large_values] []).
  - lia.
  - lia.
  - exact blocked_sender_ok.
  - exact Demo.buffer_fine.
  - vm_compute. done.
Defined.
