(* ===== verification/Containers.v ===== *)
(** The containers communication objects are built from:
    [dueca/limvector.hxx] (room for [N] elements inside the object),
    [dueca/varvector.hxx] (a heap array), [dueca/fixvector.hxx] and
    [dueca/fix_optional.hxx].

    A [size_t] is a [Z] in 64 bits; the loops that count down an [int] from a
    [size_t] assume fewer than 2^31 elements.  Elements a constructor does not set are
    taken from a parameter [junk], the previous content of the memory. *)

From S2P Require Import Prelude.
#[local] Open Scope Z_scope.

Abbreviation zlen l := (Z.of_nat (length l)).

(** ** Element loops *)

Section Elements.
Context {T : Type}.

(** [d[ii] = v] on an array: out of range has no meaning. *)
Definition set_elt (d : list T) (ii : Z) (v : T) : outcome (list T) :=
  if bool_decide (0 <= ii < zlen d) then Val (<[Z.to_nat ii := v]> d)
  else Stuck OutOfBounds.

Definition get_elt (d : list T) (ii : Z) : outcome T :=
  if bool_decide (0 <= ii) then
    match d !! Z.to_nat ii with Some v => Val v | None => Stuck OutOfBounds end
  else Stuck OutOfBounds.

(** [for (int ii = n; ii--;) d[ii] = src(ii);] *)
Fixpoint fill_down (n : nat) (src : Z -> outcome T) (d : list T) : outcome (list T) :=
  match n with
  | O => Val d
  | S k =>
      v ← src (Z.of_nat k);
      d ← set_elt d (Z.of_nat k) v;
      fill_down k src d
  end.

(** [for (size_t i = lo; i < lo + n; i++) d[i] = val;] *)
Fixpoint fill_up (n : nat) (lo : Z) (val : T) (d : list T) : outcome (list T) :=
  match n with
  | O => Val d
  | S k => d ← set_elt d lo val; fill_up k (lo + 1) val d
  end.

(** [for (int ii = n; ii--;) if (a[ii] != b[ii]) return false; return true;] *)
Fixpoint equal_down (eq : T -> T -> bool) (n : nat) (a b : Z -> outcome T)
    : outcome bool :=
  match n with
  | O => Val true
  | S k =>
      x ← a (Z.of_nat k);
      y ← b (Z.of_nat k);
      if negb (eq x y) then Val false else equal_down eq k a b
  end.
End Elements.

(** ** limvector *)

Module LV.

Record limvector (T : Type) := mk { n : Z; d : list T }.
Arguments mk {T} n d.
Arguments n {T} l.
Arguments d {T} l.

Section LimVector.
Context {T : Type} (N : Z) (eq : T -> T -> bool).

(** [limvector(size_t n, const T& defval)]: the member is limited to [N], the
    loop runs over the argument, which shadows it. *)
Definition make_fill (n : Z) (defval : T) (junk : list T) : outcome (limvector T) :=
  d ← fill_down (Z.to_nat n) (fun _ => Val defval) junk;
  Val (mk (Z.min n N) d).

Definition make (n : Z) (junk : list T) : limvector T := mk (Z.min n N) junk.

Definition of_list (e : list T) (junk : list T) : outcome (limvector T) :=
  if N <? zlen e then Exn IndexException
  else Val (mk (zlen e) (e ++ drop (length e) junk)).

Definition copy (other : limvector T) (junk : list T) : outcome (limvector T) :=
  d' ← fill_down (Z.to_nat (n other)) (get_elt (d other)) junk;
  Val (mk (n other) d').

(** The constructor from a pair of iterators; [l] is what they enumerate. *)
Fixpoint of_iter (fuel : nat) (n : Z) (l : list T) (d : list T) : outcome (limvector T) :=
  match fuel with
  | O => match l with [] => Val (mk n d) | _ => Exn IndexException end
  | S k =>
      match l with
      | [] => Val (mk n d)
      | x :: l => d ← set_elt d n x; of_iter k (n + 1) l d
      end
  end.

Definition size (v : limvector T) : Z := n v.

Definition assign (v other : limvector T) : outcome (limvector T) :=
  d' ← fill_down (Z.to_nat (n other)) (get_elt (d other)) (d v);
  Val (mk (n other) d').

(** [operator=(const T&)] *)
Definition assign_value (v : limvector T) (val : T) : outcome (limvector T) :=
  d' ← fill_down (Z.to_nat N) (fun _ => Val val) (d v); Val (mk (n v) d').

Definition eqb (v other : limvector T) : outcome bool :=
  if negb (n v =? size other) then Val false
  else equal_down eq (Z.to_nat (n v)) (get_elt (d v)) (get_elt (d other)).

Definition neqb (v other : limvector T) : outcome bool := negb <$> eqb v other.

(** [operator[]]: the index is converted to [size_t]. *)
Definition at_const (v : limvector T) (ii : Z) : outcome T :=
  if n v <=? u64 ii then Exn IndexException else get_elt (d v) (u64 ii).

Definition set_at (v : limvector T) (ii : Z) (x : T) : outcome (limvector T) :=
  if n v <=? u64 ii then Exn IndexException
  else d' ← set_elt (d v) (u64 ii) x; Val (mk (n v) d').

Definition resize (v : limvector T) (s : Z) (val : T) : outcome (limvector T) :=
  if N <? s then Exn IndexException
  else
    d' ← (if n v <? s then fill_up (Z.to_nat (s - n v)) (n v) val (d v) else Val (d v));
    Val (mk s d').

Definition push_back (v : limvector T) (x : T) : outcome (limvector T) :=
  resize v (u64 (size v + 1)) x.

Definition pop_back (v : limvector T) (dflt : T) : outcome (limvector T) :=
  resize v (u64 (size v - 1)) dflt.

Definition front (v : limvector T) : outcome T :=
  if n v =? 0 then Exn IndexException else get_elt (d v) 0.

Definition back (v : limvector T) : outcome T :=
  if n v =? 0 then Exn IndexException else get_elt (d v) (n v - 1).
End LimVector.
End LV.

(** ** varvector *)

Module VV.

Record varvector (T : Type) := mk { N : Z; d : list T }.
Arguments mk {T} N d.
Arguments N {T} v.
Arguments d {T} v.

Section VarVector.
Context {T : Type} (eq : T -> T -> bool).

(** [fresh] is what [new T[n]] gives. *)
Definition make_fill (n : Z) (defval : T) (fresh : list T) : outcome (varvector T) :=
  d ← fill_down (Z.to_nat n) (fun _ => Val defval) fresh; Val (mk n d).

Definition make (n : Z) (fresh : list T) : varvector T := mk n fresh.

Definition of_list (e : list T) : varvector T := mk (zlen e) e.

Definition copy (other : varvector T) (fresh : list T) : outcome (varvector T) :=
  d' ← fill_down (Z.to_nat (N other)) (get_elt (d other)) fresh;
  Val (mk (N other) d').

Definition size (v : varvector T) : Z := N v.

Definition at_const (v : varvector T) (ii : Z) : outcome T :=
  if N v <=? u64 ii then Exn IndexException else get_elt (d v) (u64 ii).

Definition set_at (v : varvector T) (ii : Z) (x : T) : outcome (varvector T) :=
  if N v <=? u64 ii then Exn IndexException
  else d' ← set_elt (d v) (u64 ii) x; Val (mk (N v) d').

(** The copy reads the other vector through its checked [operator[]]. *)
Definition assign (v other : varvector T) (fresh : list T) : outcome (varvector T) :=
  let d0 := if negb (N v =? size other) then fresh else d v in
  d' ← fill_down (Z.to_nat (size other)) (at_const other) d0;
  Val (mk (size other) d').

Definition assign_value (v : varvector T) (val : T) : outcome (varvector T) :=
  d' ← fill_down (Z.to_nat (N v)) (fun _ => Val val) (d v); Val (mk (N v) d').

Definition eqb (v other : varvector T) : outcome bool :=
  if negb (N v =? size other) then Val false
  else equal_down eq (Z.to_nat (N v)) (get_elt (d v)) (at_const other).

Definition resize (v : varvector T) (s : Z) (val : T) (fresh : list T)
    : outcome (varvector T) :=
  if negb (s =? N v) then
    d' ← fill_down (Z.to_nat (Z.min s (N v))) (get_elt (d v)) fresh;
    d' ← (if N v <? s then fill_up (Z.to_nat (s - N v)) (N v) val d' else Val d');
    Val (mk s d')
  else Val v.

Definition front (v : varvector T) : outcome T :=
  if N v =? 0 then Exn IndexException else get_elt (d v) 0.

Definition back (v : varvector T) : outcome T :=
  if N v =? 0 then Exn IndexException else get_elt (d v) (N v - 1).

(** [resize(size() + 1); back() = x;] *)
Definition push_back (v : varvector T) (x dflt : T) (fresh : list T)
    : outcome (varvector T) :=
  w ← resize v (u64 (size v + 1)) dflt fresh;
  if N w =? 0 then Exn IndexException
  else d' ← set_elt (d w) (N w - 1) x; Val (mk (N w) d').
End VarVector.
End VV.

(** ** fixvector *)

Module FV.
Section FixVector.
Context {T : Type} (N : Z) (eq : T -> T -> bool).

Definition make_fill (defval : T) (junk : list T) : outcome (list T) :=
  fill_down (Z.to_nat N) (fun _ => Val defval) junk.

Definition of_list (e : list T) : outcome (list T) :=
  if negb (zlen e =? N) then Exn IndexException else Val e.

Fixpoint of_iter (fuel : nat) (ii : Z) (l : list T) (d : list T) : outcome (list T) :=
  match fuel with
  | O => match l with [] => Val d | _ => Exn IndexException end
  | S k =>
      match l with
      | [] => Exn IndexException
      | x :: l => d ← set_elt d ii x; of_iter k (ii + 1) l d
      end
  end.

Definition assign (v other : list T) : outcome (list T) :=
  fill_down (Z.to_nat N) (get_elt other) v.

Definition assign_value (v : list T) (val : T) : outcome (list T) :=
  fill_down (Z.to_nat N) (fun _ => Val val) v.

Definition eqb (v other : list T) : outcome bool :=
  equal_down eq (Z.to_nat N) (get_elt v) (get_elt other).

Definition at_const (v : list T) (ii : Z) : outcome T :=
  if N <=? u64 ii then Exn IndexException else get_elt v (u64 ii).

Definition resize (v : list T) (s : Z) : outcome (list T) :=
  if negb (s =? N) then Exn IndexException else Val v.
End FixVector.
End FV.

(** ** fix_optional *)

Record fix_optional (T : Type) := Optional { valid : bool; value : T }.
Arguments Optional {T} valid value.
Arguments valid {T} f.
Arguments value {T} f.

Module FO.
Section FixOptional.
Context {T : Type} (eq : T -> T -> bool).

Definition of_value (defval : T) : fix_optional T := Optional true defval.
Definition make (junk : T) : fix_optional T := Optional false junk.

(** Assignment copies the value of a valid optional only. *)
Definition assign (o other : fix_optional T) : fix_optional T :=
  Optional (valid other) (if valid other then value other else value o).

Definition eqb (o other : fix_optional T) : bool :=
  ((valid o && valid other) && eq (value o) (value other))
  || (negb (valid o) && negb (valid other)).

Definition neqb (o other : fix_optional T) : bool := negb (eqb o other).
End FixOptional.
End FO.

(** ** The abstract view: a list *)

Definition resized {T} (s : nat) (val : T) (l : list T) : list T :=
  take s l ++ replicate (s - length l) val.

Fixpoint list_eqb {T} (eq : T -> T -> bool) (a b : list T) : bool :=
  match a, b with
  | [], [] => true
  | x :: a, y :: b => eq x y && list_eqb eq a b
  | _, _ => false
  end.

Section Lemmas.
Context {T : Type}.
Implicit Types l d : list T.

Lemma get_elt_some d ii x :
  0 <= ii -> d !! Z.to_nat ii = Some x -> get_elt d ii = Val x.
Proof. intros ? E. unfold get_elt. by rewrite bool_decide_true, E. Qed.

Lemma get_elt_take d n ii :
  0 <= ii < n -> n <= zlen d ->
  exists x, take (Z.to_nat n) d !! Z.to_nat ii = Some x /\ get_elt d ii = Val x.
Proof.
  intros Hi Hn. destruct (lookup_lt_is_Some_2 d (Z.to_nat ii)) as [x E]; [lia|].
  exists x. split; [|apply get_elt_some; done || lia].
  rewrite lookup_take_lt; [done|lia].
Qed.

Lemma set_elt_in d ii x : 0 <= ii < zlen d -> set_elt d ii x = Val (<[Z.to_nat ii := x]> d).
Proof. intros. unfold set_elt. by rewrite bool_decide_true. Qed.

(** A loop that counts down overwrites the first elements with the source. *)
Lemma fill_down_run n (src : Z -> outcome T) l : forall d,
  length l = n -> (n <= length d)%nat ->
  (forall i x, l !! i = Some x -> src (Z.of_nat i) = Val x) ->
  fill_down n src d = Val (l ++ drop n d).
Proof.
  revert l. induction n as [|n IH]; intros l d Hl Hd Hs.
  - destruct l; [|done]. by rewrite drop_0.
  - destruct l as [|x l _] using rev_ind; [done|].
    rewrite length_app in Hl. cbn [length] in Hl. cbn [fill_down].
    rewrite (Hs n x) by (rewrite lookup_app_r by lia;
      by replace (n - length l)%nat with O by lia).
    cbn [mbind outcome_bind]. rewrite set_elt_in, Nat2Z.id by lia.
    cbn [mbind outcome_bind]. rewrite (IH l); [|lia|rewrite length_insert; lia|].
    + rewrite <- app_assoc. do 2 f_equal. cbn [app].
      rewrite drop_insert_ge by lia. rewrite Nat.sub_diag.
      destruct (lookup_lt_is_Some_2 d n) as [y Ey]; [lia|].
      by rewrite (drop_S d y n) by done.
    + intros i y Hy. apply Hs. rewrite lookup_app_l; [done|].
      by apply lookup_lt_Some in Hy.
Qed.

Lemma fill_up_run n val : forall lo d,
  0 <= lo -> lo + Z.of_nat n <= zlen d ->
  fill_up n lo val d
    = Val (take (Z.to_nat lo) d ++ replicate n val ++ drop (Z.to_nat lo + n) d).
Proof.
  induction n as [|n IH]; intros lo d Hlo Hd.
  - cbn. by rewrite Nat.add_0_r, take_drop.
  - cbn [fill_up]. rewrite set_elt_in by lia. cbn [mbind outcome_bind].
    rewrite IH by (rewrite ?length_insert; lia).
    replace (Z.to_nat (lo + 1)) with (S (Z.to_nat lo)) by lia.
    rewrite (take_S_r _ _ val) by (rewrite list_lookup_insert_eq; [done|lia]).
    rewrite take_insert_ge by lia. rewrite drop_insert_lt by lia.
    rewrite <- app_assoc. cbn [replicate app]. by replace (Z.to_nat lo + S n)%nat
      with (S (Z.to_nat lo) + n)%nat by lia.
Qed.

Lemma list_eqb_snoc eq (a b : list T) x y :
  length a = length b ->
  list_eqb eq (a ++ [x]) (b ++ [y]) = eq x y && list_eqb eq a b.
Proof.
  revert b. induction a as [|u a IH]; intros [|v b] Hl; try done; cbn.
  rewrite IH by (by injection Hl). by rewrite !andb_assoc, (andb_comm (eq u v)).
Qed.

Lemma equal_down_run eq n (sa sb : Z -> outcome T) a b :
  length a = n -> length b = n ->
  (forall i x, a !! i = Some x -> sa (Z.of_nat i) = Val x) ->
  (forall i x, b !! i = Some x -> sb (Z.of_nat i) = Val x) ->
  equal_down eq n sa sb = Val (list_eqb eq a b).
Proof.
  revert a b. induction n as [|n IH]; intros a b Ha Hb Hsa Hsb.
  - by destruct a, b.
  - destruct a as [|x a _] using rev_ind; [done|].
    destruct b as [|y b _] using rev_ind; [done|].
    rewrite length_app in Ha, Hb. cbn [length] in Ha, Hb. cbn [equal_down].
    rewrite (Hsa n x) by (rewrite lookup_app_r by lia;
      by replace (n - length a)%nat with O by lia).
    rewrite (Hsb n y) by (rewrite lookup_app_r by lia;
      by replace (n - length b)%nat with O by lia).
    cbn [mbind outcome_bind]. rewrite list_eqb_snoc by lia.
    destruct (eq x y); [|done]. cbn. apply IH; [lia|lia| |].
    + intros i z Hz. apply Hsa. rewrite lookup_app_l; [done|by apply lookup_lt_Some in Hz].
    + intros i z Hz. apply Hsb. rewrite lookup_app_l; [done|by apply lookup_lt_Some in Hz].
Qed.

Lemma list_eqb_length eq (a b : list T) : length a <> length b -> list_eqb eq a b = false.
Proof.
  revert b. induction a as [|x a IH]; intros [|y b] Hl; try done. cbn.
  rewrite IH; [by rewrite andb_false_r|]. intros E. apply Hl. cbn. by rewrite E.
Qed.
End Lemmas.

Definition lv_ok {T} (N : Z) (v : LV.limvector T) : Prop :=
  0 <= LV.n v <= N /\ zlen (LV.d v) = N /\ N < 2147483648.
Definition lv_list {T} (v : LV.limvector T) : list T := take (Z.to_nat (LV.n v)) (LV.d v).

Definition vv_ok {T} (v : VV.varvector T) : Prop :=
  VV.N v = zlen (VV.d v) /\ VV.N v < 2147483648.

Section VectorLemmas.
Context {T : Type}.

Lemma lv_list_length N (v : LV.limvector T) : lv_ok N v -> zlen (lv_list v) = LV.n v.
Proof. intros (? & ? & ?). unfold lv_list. rewrite length_take. lia. Qed.

Lemma lv_source N (v : LV.limvector T) i x :
  lv_ok N v -> lv_list v !! i = Some x -> get_elt (LV.d v) (Z.of_nat i) = Val x.
Proof.
  intros Hv E. apply get_elt_some; [lia|]. rewrite Nat2Z.id.
  unfold lv_list in E. by apply lookup_take_Some in E as [E _].
Qed.

(** Copying the elements of one limited vector over those of another. *)
Lemma lv_copy_run N (v : LV.limvector T) d :
  lv_ok N v -> zlen d = N ->
  exists d', fill_down (Z.to_nat (LV.n v)) (get_elt (LV.d v)) d = Val d' /\
    zlen d' = N /\ take (Z.to_nat (LV.n v)) d' = lv_list v.
Proof.
  intros Hv Hd. pose proof (lv_list_length N v Hv) as Hl. pose proof Hv as (Hn & Hd' & Hb).
  exists (lv_list v ++ drop (Z.to_nat (LV.n v)) d). split_and!.
  - apply fill_down_run; [lia|lia|]. intros i x. by apply (lv_source N).
  - rewrite length_app, length_drop. lia.
  - rewrite take_app_length'; [done|lia].
Qed.

Lemma lv_resize_run N (v : LV.limvector T) s val :
  lv_ok N v -> 0 <= s <= N ->
  exists v', LV.resize N v s val = Val v' /\ lv_ok N v' /\
    lv_list v' = resized (Z.to_nat s) val (lv_list v).
Proof.
  intros Hv Hs. pose proof (lv_list_length N v Hv) as Hl. pose proof Hv as (Hn & Hd & Hb).
  unfold LV.resize. rewrite (proj2 (Z.ltb_ge _ _)) by lia.
  destruct (Z.ltb_spec (LV.n v) s).
  - rewrite fill_up_run by lia. cbn [mbind outcome_bind]. eexists. split; [done|].
    unfold lv_ok, lv_list, resized. cbn [LV.n LV.d].
    rewrite !length_app, length_take, length_replicate, length_drop. split; [lia|].
    rewrite app_assoc, take_app_length'
      by (rewrite length_app, length_take, length_replicate; lia).
    rewrite take_take. f_equal; f_equal; lia.
  - cbn [mbind outcome_bind]. eexists. split; [done|].
    unfold lv_ok, lv_list, resized. cbn [LV.n LV.d]. split; [lia|].
    rewrite take_take, length_take, Nat.min_l by lia.
    replace (_ - _)%nat with O by lia. by rewrite app_nil_r.
Qed.

Lemma resized_snoc (l : list T) x : resized (S (length l)) x l = l ++ [x].
Proof.
  unfold resized. rewrite firstn_all2 by lia.
  by replace (S (length l) - length l)%nat with 1%nat by lia.
Qed.

Lemma vv_source (v : VV.varvector T) i x :
  vv_ok v -> VV.d v !! i = Some x ->
  get_elt (VV.d v) (Z.of_nat i) = Val x /\ VV.at_const v (Z.of_nat i) = Val x.
Proof.
  intros [Hn Hb] E. pose proof (lookup_lt_Some _ _ _ E).
  assert (get_elt (VV.d v) (Z.of_nat i) = Val x) as Eg
    by (apply get_elt_some; rewrite ?Nat2Z.id; done || lia).
  split; [done|]. unfold VV.at_const. rewrite u64_id by (unfold is_u64; lia).
  by rewrite (proj2 (Z.leb_gt _ _)) by lia.
Qed.

Lemma vv_resize_run (v : VV.varvector T) s val fresh :
  vv_ok v -> 0 <= s < 2147483648 -> zlen fresh = s ->
  exists v', VV.resize v s val fresh = Val v' /\ vv_ok v' /\
    VV.d v' = resized (Z.to_nat s) val (VV.d v).
Proof.
  intros Hv Hs Hf. pose proof Hv as [Hn Hb]. unfold VV.resize.
  destruct (Z.eqb_spec s (VV.N v)) as [->|Hne]; cbn [negb].
  - exists v. split_and!; [done|done|]. unfold resized.
    rewrite firstn_all2 by lia. replace (_ - _)%nat with O by lia. by rewrite app_nil_r.
  - rewrite (fill_down_run _ _ (take (Z.to_nat s) (VV.d v)));
      [|rewrite length_take; lia|lia|].
    2: { intros i x E. apply lookup_take_Some in E as [E _]. by apply vv_source. }
    cbn [mbind outcome_bind]. unfold resized. destruct (Z.ltb_spec (VV.N v) s).
    + rewrite fill_up_run by (rewrite ?length_app, ?length_take, ?length_drop; lia).
      cbn [mbind outcome_bind]. eexists. split; [done|]. unfold vv_ok. cbn [VV.N VV.d].
      rewrite (firstn_all2 (VV.d v)) by lia.
      rewrite take_app_length' by lia.
      rewrite (drop_ge (_ ++ _)) by (rewrite length_app, length_drop; lia).
      rewrite app_nil_r, length_app, length_replicate.
      replace (Z.to_nat (s - VV.N v)) with (Z.to_nat s - length (VV.d v))%nat by lia.
      split; [lia|done].
    + cbn [mbind outcome_bind]. eexists. split; [done|]. unfold vv_ok. cbn [VV.N VV.d].
      rewrite (drop_ge fresh) by lia. replace (Z.to_nat s - _)%nat with O by lia.
      rewrite length_app, length_take. cbn. split; [lia|done].
Qed.
End VectorLemmas.

(** ** Theorems *)

Section Theorems.
Context {T : Type} (eq : T -> T -> bool).

(** a [limvector] is a list of at most [N] elements: growing, shrinking
    and appending do to the list what they say as long as the result fits and
    throw [indexexception] otherwise, the checked index reads the list, and
    assignment and comparison are those of lists. *)
Theorem limvector_refines_list N (v w : LV.limvector T) s x ii :
  lv_ok N v -> lv_ok N w -> 0 <= s -> is_s32 ii ->
  (if N <? s then LV.resize N v s x = Exn IndexException
   else exists v', LV.resize N v s x = Val v' /\ lv_ok N v' /\
     lv_list v' = resized (Z.to_nat s) x (lv_list v)) /\
  (if LV.size v =? N then LV.push_back N v x = Exn IndexException
   else exists v', LV.push_back N v x = Val v' /\ lv_ok N v' /\
     lv_list v' = lv_list v ++ [x]) /\
  LV.at_const v ii =
    (if bool_decide (0 <= ii) then
       match lv_list v !! Z.to_nat ii with Some y => Val y | None => Exn IndexException end
     else Exn IndexException) /\
  (exists v', LV.assign v w = Val v' /\ lv_ok N v' /\ lv_list v' = lv_list w) /\
  LV.eqb eq v w = Val (list_eqb eq (lv_list v) (lv_list w)).
Proof.
  intros Hv Hw Hs Hi. pose proof (lv_list_length N v Hv) as Hlv.
  pose proof (lv_list_length N w Hw) as Hlw.
  pose proof Hv as (Hn & Hd & Hb). pose proof Hw as (Hnw & Hdw & _). split_and!.
  - destruct (Z.ltb_spec N s) as [Hlt|]; [|by apply lv_resize_run].
    unfold LV.resize. by rewrite (proj2 (Z.ltb_lt _ _)).
  - unfold LV.push_back, LV.size. rewrite u64_id by (unfold is_u64; lia).
    destruct (Z.eqb_spec (LV.n v) N) as [E|].
    + unfold LV.resize. by rewrite (proj2 (Z.ltb_lt _ _)) by lia.
    + destruct (lv_resize_run N v (LV.n v + 1) x Hv) as (v' & E & Hok & Hl); [lia|].
      exists v'. split_and!; [done|done|]. rewrite Hl, <- resized_snoc. f_equal. lia.
  - unfold LV.at_const. case_bool_decide as Hpos.
    + unfold is_s32 in Hi. rewrite u64_id by (unfold is_u64; lia).
      destruct (Z.leb_spec (LV.n v) ii).
      * rewrite lookup_ge_None_2; [done|]. lia.
      * destruct (get_elt_take (LV.d v) (LV.n v) ii) as (y & E & ->); [lia|lia|].
        unfold lv_list. by rewrite E.
    + replace (LV.n v <=? u64 ii) with true; [done|]. symmetry. apply Z.leb_le. width.
  - destruct (lv_copy_run N w (LV.d v) Hw Hd) as (d' & E & Hd' & Ht).
    exists (LV.mk (LV.n w) d'). unfold LV.assign. rewrite E. split_and!; [done| |exact Ht].
    unfold lv_ok. cbn. lia.
  - unfold LV.eqb, LV.size. destruct (Z.eqb_spec (LV.n v) (LV.n w)) as [E|Hne]; cbn [negb].
    + apply equal_down_run; [lia|lia| |]; intros i y; by apply (lv_source N).
    + rewrite list_eqb_length; [done|]. lia.
Qed.

(** a [varvector] is a list: [resize] keeps the common elements whatever
    the new memory holds, [push_back] appends, the checked index reads the
    list, and assignment and comparison are those of lists. *)
Theorem varvector_refines_list (v w : VV.varvector T) s x dflt fresh fresh1 freshw ii :
  vv_ok v -> vv_ok w -> 0 <= s < 2147483648 -> zlen fresh = s ->
  VV.N v < 2147483647 -> zlen fresh1 = VV.N v + 1 -> zlen freshw = VV.N w -> is_s32 ii ->
  (exists v', VV.resize v s x fresh = Val v' /\ vv_ok v' /\
     VV.d v' = resized (Z.to_nat s) x (VV.d v)) /\
  (exists v', VV.push_back v x dflt fresh1 = Val v' /\ vv_ok v' /\
     VV.d v' = VV.d v ++ [x]) /\
  VV.at_const v ii =
    (if bool_decide (0 <= ii) then
       match VV.d v !! Z.to_nat ii with Some y => Val y | None => Exn IndexException end
     else Exn IndexException) /\
  VV.assign v w freshw = Val w /\
  VV.eqb eq v w = Val (list_eqb eq (VV.d v) (VV.d w)).
Proof.
  intros Hv Hw Hs Hf Hlt Hf1 Hfw Hi. pose proof Hv as [Hn Hb]. pose proof Hw as [Hnw Hbw].
  split_and!.
  - by apply vv_resize_run.
  - unfold VV.push_back, VV.size. rewrite u64_id by (unfold is_u64; lia).
    destruct (vv_resize_run v (VV.N v + 1) dflt fresh1 Hv) as (v' & E & [Hn' Hb'] & Hl);
      [lia|done|]. rewrite E. cbn [mbind outcome_bind].
    replace (Z.to_nat (VV.N v + 1)) with (S (length (VV.d v))) in Hl by lia.
    rewrite resized_snoc in Hl. rewrite Hl in *. rewrite length_app in Hn'. cbn in Hn'.
    rewrite (proj2 (Z.eqb_neq _ _)) by lia.
    rewrite set_elt_in by (rewrite length_app; cbn; lia). cbn [mbind outcome_bind].
    eexists. split; [done|]. unfold vv_ok. cbn [VV.N VV.d].
    replace (Z.to_nat (VV.N v' - 1)) with (length (VV.d v) + 0)%nat by lia.
    rewrite insert_app_r, length_app. cbn. split; [lia|done].
  - unfold VV.at_const. case_bool_decide as Hpos.
    + unfold is_s32 in Hi. rewrite u64_id by (unfold is_u64; lia).
      destruct (Z.leb_spec (VV.N v) ii).
      * rewrite lookup_ge_None_2; [done|]. lia.
      * destruct (lookup_lt_is_Some_2 (VV.d v) (Z.to_nat ii)) as [y E]; [lia|].
        rewrite E. apply get_elt_some; done || lia.
    + replace (VV.N v <=? u64 ii) with true; [done|]. symmetry. apply Z.leb_le. width.
  - unfold VV.assign, VV.size.
    rewrite (fill_down_run _ _ (VV.d w)); [|lia| |].
    + cbn [mbind outcome_bind]. rewrite drop_ge, app_nil_r; [by destruct w|].
      destruct (Z.eqb_spec (VV.N v) (VV.N w)); cbn [negb]; lia.
    + destruct (Z.eqb_spec (VV.N v) (VV.N w)); cbn [negb]; lia.
    + intros i y E. by apply vv_source.
  - unfold VV.eqb, VV.size. destruct (Z.eqb_spec (VV.N v) (VV.N w)) as [E|Hne]; cbn [negb].
    + apply equal_down_run; [lia|lia| |]; intros i y Ey; by apply vv_source.
    + rewrite list_eqb_length; [done|]. lia.
Qed.

(** The filling constructor of [limvector] limits the size but not its
    loop, which runs over the shadowing argument: asked for more than [N]
    elements, it writes outside the array. *)
Theorem limvector_fill_overrun N n (defval : T) junk :
  zlen junk = N -> N < n ->
  LV.make_fill N n defval junk = Stuck OutOfBounds.
Proof.
  intros Hj Hn. unfold LV.make_fill.
  destruct (Z.to_nat n) as [|k] eqn:E; [lia|]. cbn.
  unfold set_elt. rewrite bool_decide_false by lia. done.
Qed.
End Theorems.

(** *** Examples *)

Definition ex_lv : LV.limvector Z := LV.mk 2 [4; 5; 0; 0].

Lemma limvector_refines_list_witness :
  LV.push_back 4 ex_lv 6 = Val (LV.mk 3 [4; 5; 6; 0]) /\
  LV.at_const ex_lv 2 = Exn IndexException.
Proof.
  destruct (limvector_refines_list Z.eqb 4 ex_lv ex_lv 9 6 2)
    as (_ & (v' & E & _) & Ei & _); try (unfold lv_ok, is_s32; cbn; lia).
  split; [|exact Ei]. rewrite E. vm_compute in E. by injection E as <-.
Defined.

Lemma varvector_refines_list_witness :
  VV.push_back (VV.mk 2 [4; 5]) 6 0 [0; 0; 0] = Val (VV.mk 3 [4; 5; 6]).
Proof.
  destruct (varvector_refines_list Z.eqb (VV.mk 2 [4; 5]) (VV.mk 1 [7]) 1 6 0
    [0] [0; 0; 0] [0] 1) as (_ & (v' & E & _) & _);
    try (unfold vv_ok, is_s32; cbn; lia).
  rewrite E. vm_compute in E. by injection E as <-.
Defined.

Lemma limvector_fill_overrun_witness :
  LV.make_fill 2 3 7 [0; 0] = Stuck OutOfBounds.
Proof. apply limvector_fill_overrun; [done|lia]. Defined.
