(* ===== verification/DiffPack.v ===== *)
(** Difference packing, [dueca/PackUnpackTemplates.hxx].

    A communication object is sent as the difference with a reference: the
    [IndexMemory] writes run length flags for changed and unchanged members in
    front of the changed data, the [IndexRecall] of the receiver reads them
    back.  The template families [packobject]/[unpackobject] and
    [checkandpackdiff]/[checkandunpackdiff], which C++ selects by traits, are
    instances of two type classes with the laws that make them compose. *)

From S2P Require Import Prelude Bytes Amorph Containers.
#[local] Open Scope Z_scope.

(** ** Flags *)

Module IM.

Record IndexMemory := mk { store_idx : Z; differs : bool; count : Z }.

Section IndexMemory.
Context `{BuildConfig}.

Definition make : IndexMemory := mk (-1) true (-1).

Definition flag_byte (im : IndexMemory) : Z :=
  u8 (Z.lor (count im) (if differs im then 128 else 0)).

Definition closeoff (im : IndexMemory) : M AS.AmorphStore unit :=
  AS.placeData_uint8 (flag_byte im) (u32 (store_idx im)).

(** [store_idx = s.getSize(); s.packData(uint8_t(0));] *)
Definition open_flag : M AS.AmorphStore Z :=
  i ← gets AS.getSize;
  AS.packData_uint8 0 ;;
  mret (s32 i).

Definition changed (im : IndexMemory) (diff : bool) : M AS.AmorphStore IndexMemory :=
  im ← (if count im =? -1 then
          i ← open_flag; mret (mk i diff (count im))
        else mret im);
  if eqb (differs im) diff then
    if count im =? 127 then
      closeoff im ;;
      i ← open_flag;
      mret (mk i (differs im) 0)
    else mret (mk (store_idx im) (differs im) (count im + 1))
  else
    closeoff im ;;
    i ← open_flag;
    mret (mk i diff 0).

(** [for (; nsame > 0x80; nsame -= 0x80) s.packData(uint8_t(0x7f));] *)
Fixpoint skip_flags (fuel : nat) (nsame : Z) : M AS.AmorphStore Z :=
  if 128 <? nsame then
    match fuel with
    | O => stuck OutOfFuel
    | S k => AS.packData_uint8 127 ;; skip_flags k (nsame - 128)
    end
  else mret nsame.

Definition firstchange (nsame : Z) : M AS.AmorphStore IndexMemory :=
  (if negb (nsame =? 0) then
     n ← skip_flags (Z.to_nat nsame) nsame;
     AS.packData_uint8 (u8 (n - 1))
   else mret tt) ;;
  i ← open_flag;
  mret (mk i true 0).

End IndexMemory.
End IM.

Module IR.

Record IndexRecall := mk { count : Z; differs : bool }.

Definition make : IndexRecall := mk 0 false.

Definition changed `{BuildConfig} (im : IndexRecall)
    : M ARS.AmorphReStore (bool * IndexRecall) :=
  if count im =? 0 then
    flag ← ARS.unPackData_uint8;
    let d := Z.land flag 128 =? 128 in
    mret (d, mk (Z.land flag 127) d)
  else mret (differs im, mk (count im - 1) (differs im)).

End IR.

(** ** Interfaces

    A type that [packobject] and [unpackobject] handle.  [dco_equiv] is what
    the type's [operator==] establishes; [unpackobject] receives the object it
    overwrites. *)

Class DcoObject (T : Type) := {
  dco_ok : T -> Prop;
  dco_equiv : T -> T -> Prop;
  dco_enc : T -> list Z;
  dco_default : T;
  dco_eqb : T -> T -> bool;
  packobject : T -> M AS.AmorphStore unit;
  unpackobject : T -> M ARS.AmorphReStore T
}.

(** The reader stands in front of the bytes [bs]. *)
Definition at_bytes (bs : list Z) (r : ARS.AmorphReStore) : Prop :=
  ars_ok r /\ ARS.index r + Z.of_nat (length bs) <= ARS.fill_level r /\
  exists rest, drop (Z.to_nat (ARS.index r)) (ARS.stor r) = bs ++ rest.

(** The writer has room for [n] more bytes. *)
Definition room (n : Z) (s : AS.AmorphStore) : Prop :=
  as_ok s /\ AS.choked s = false /\ AS.index s + n <= AS.capacity s.

Class DcoLaws (T : Type) `{DcoObject T} : Prop := {
  dco_enc_ok v : dco_ok v -> bytes_ok (dco_enc v);
  dco_default_ok : dco_ok dco_default;
  dco_refl v : dco_ok v -> dco_equiv v v;
  dco_trans a b c : dco_equiv a b -> dco_equiv b c -> dco_equiv a c;
  dco_equiv_ok a b : dco_ok a -> dco_equiv a b -> dco_ok b;
  dco_eqb_equiv a b : dco_ok a -> dco_ok b -> dco_eqb a b = true -> dco_equiv a b;
  dco_pack v s :
    room (zlen (dco_enc v)) s -> dco_ok v ->
    packobject v s = (Val tt, append (dco_enc v) s);
  dco_unpack old v bs r :
    at_bytes (dco_enc v ++ bs) r -> dco_ok old -> dco_ok v ->
    exists r', unpackobject old r = (Val v, r') /\ at_bytes bs r'
}.

(** A member of an object, as the difference functions treat it: [dp_items]
    are the flags and data one call contributes to the stream of flags,
    [dp_cost] bounds their size, [dp_sync] is what the receiver's object must
    share with the sender's reference, [dp_equiv] what it shares with the new
    object afterwards. *)
Abbreviation item := (bool * list Z)%type.

Class DiffPack (T : Type) := {
  dp_ok : T -> Prop;
  dp_equiv : T -> T -> Prop;
  dp_sync : T -> T -> Prop;
  dp_items : T -> T -> list item -> Prop;
  dp_cost : T -> T -> Z;
  checkandpackdiff : T -> T -> IM.IndexMemory -> M AS.AmorphStore IM.IndexMemory;
  checkandunpackdiff : T -> IR.IndexRecall -> M ARS.AmorphReStore (T * IR.IndexRecall)
}.

(** ** The template families

    The C++ types the traits distinguish: scalars by their C type, fixed size
    arrays, [std::vector], [std::list], and the optional wrapper. *)

Record scalar (t : ctype) := Scalar { sval : cvalue }.
Record array (n : nat) (T : Type) := Array { aitems : list T }.
Record vec (T : Type) := Vec { vitems : list T }.
Record stdlist (T : Type) := StdList { litems : list T }.
Arguments Scalar {t} sval.
Arguments sval {t} s.
Arguments Array {n T} aitems.
Arguments aitems {n T} a.
Arguments Vec {T} vitems.
Arguments vitems {T} v.
Arguments StdList {T} litems.
Arguments litems {T} s.

(** [operator==] of [float] and [double] on bit patterns: a NaN differs from
    everything, the two zeros are equal. *)
Definition float_eqb (half inf : Z) (a b : Z) : bool :=
  negb (inf <? a mod half) && negb (inf <? b mod half) &&
  ((a =? b) || ((a mod half =? 0) && (b mod half =? 0))).

Definition cvalue_eqb (a b : cvalue) : bool :=
  match a, b with
  | Vnum Cfloat x, Vnum Cfloat y => float_eqb 2147483648 2139095040 x y
  | Vnum Cdouble x, Vnum Cdouble y =>
      float_eqb 9223372036854775808 9218868437227405312 x y
  | Vnum _ x, Vnum _ y => x =? y
  | Vbool x, Vbool y => eqb x y
  | Vvstring x, Vvstring y | Vchars x, Vchars y => bool_decide (x = y)
  | _, _ => false
  end.

Definition ctype_default (t : ctype) : cvalue :=
  match t with
  | Cbool => Vbool false
  | Cvstring => Vvstring []
  | Cchars n => Vchars (replicate (Z.to_nat n) 0)
  | _ => Vnum t 0
  end.

Section Objects.
Context `{BuildConfig}.

(** [packobject(.., pack_constant_size)] and the loops of [unpackobject]. *)
Fixpoint pack_elements {T} (pk : T -> M AS.AmorphStore unit) (l : list T)
    : M AS.AmorphStore unit :=
  match l with
  | [] => mret tt
  | x :: r => pk x ;; pack_elements pk r
  end.

Fixpoint unpack_elements {T} (upk : T -> M ARS.AmorphReStore T) (l : list T)
    : M ARS.AmorphReStore (list T) :=
  match l with
  | [] => mret []
  | x :: r => y ← upk x; ys ← unpack_elements upk r; mret (y :: ys)
  end.

Definition pack_var_size {T} (pk : T -> M AS.AmorphStore unit) (l : list T)
    : M AS.AmorphStore unit :=
  AS.packData_uint32 (u32 (zlen l)) ;; pack_elements pk l.

(** [a.resize(l)] keeps the elements there are. *)
Definition unpack_resize {T} (upk : T -> M ARS.AmorphReStore T) (d : T) (old : list T)
    : M ARS.AmorphReStore (list T) :=
  l ← ARS.unPackData_uint32;
  unpack_elements upk (resized (Z.to_nat l) d old).

(** [for (uint32_t l(s); l--; )] appends to the cleared list; each round starts
    from a default element. *)
Fixpoint unpack_new {T} (upk : T -> M ARS.AmorphReStore T) (d : T) (l : nat)
    : M ARS.AmorphReStore (list T) :=
  match l with
  | O => mret []
  | S k => x ← upk d; xs ← unpack_new upk d k; mret (x :: xs)
  end.

Definition unpack_extend {T} (upk : T -> M ARS.AmorphReStore T) (d : T) (old : list T)
    : M ARS.AmorphReStore (list T) :=
  l ← ARS.unPackData_uint32; unpack_new upk d (Z.to_nat l).

#[export] Instance scalar_object t : DcoObject (scalar t) := {|
  dco_ok x := typeof (sval x) = t /\ cvalue_ok (sval x) /\ esize (sval x) < 4294967296;
  dco_equiv x y := typeof (sval y) = t /\ cvalue_ok (sval y) /\
    esize (sval y) < 4294967296 /\ 
    (x = y \/ typeof (sval x) = t /\ cvalue_eqb (sval x) (sval y) = true);
  dco_enc x := encoding (sval x);
  dco_default := Scalar (ctype_default t);
  dco_eqb x y := cvalue_eqb (sval x) (sval y);
  packobject x := packData (sval x);
  unpackobject _ := Scalar <$> unPackData t
|}.

Context {T : Type} `{DcoObject T}.

#[export] Instance array_object n : DcoObject (array n T) := {|
  dco_ok a := length (aitems a) = n /\ Forall dco_ok (aitems a);
  dco_equiv a b := Forall2 dco_equiv (aitems a) (aitems b);
  dco_enc a := mjoin (dco_enc <$> aitems a);
  dco_default := Array (replicate n dco_default);
  dco_eqb a b := list_eqb dco_eqb (aitems a) (aitems b);
  packobject a := pack_elements packobject (aitems a);
  unpackobject a := Array <$> unpack_elements unpackobject (aitems a)
|}.

#[export] Instance vec_object : DcoObject (vec T) := {|
  dco_ok a := zlen (vitems a) < 4294967296 /\ Forall dco_ok (vitems a);
  dco_equiv a b := Forall2 dco_equiv (vitems a) (vitems b);
  dco_enc a := be_bytes 4 (zlen (vitems a)) ++ mjoin (dco_enc <$> vitems a);
  dco_default := Vec [];
  dco_eqb a b := list_eqb dco_eqb (vitems a) (vitems b);
  packobject a := pack_var_size packobject (vitems a);
  unpackobject a := Vec <$> unpack_resize unpackobject dco_default (vitems a)
|}.

#[export] Instance stdlist_object : DcoObject (stdlist T) := {|
  dco_ok a := zlen (litems a) < 4294967296 /\ Forall dco_ok (litems a);
  dco_equiv a b := Forall2 dco_equiv (litems a) (litems b);
  dco_enc a := be_bytes 4 (zlen (litems a)) ++ mjoin (dco_enc <$> litems a);
  dco_default := StdList [];
  dco_eqb a b := list_eqb dco_eqb (litems a) (litems b);
  packobject a := pack_var_size packobject (litems a);
  unpackobject a := StdList <$> unpack_extend unpackobject dco_default (litems a)
|}.

(** An invalid optional keeps its value on the sending side only. *)
Definition packobject_optional (a : fix_optional T) : M AS.AmorphStore unit :=
  AS.packData_bool (valid a) ;;
  if valid a then packobject (value a) else mret tt.

Definition unpackobject_optional (a : fix_optional T) : M ARS.AmorphReStore (fix_optional T) :=
  v ← ARS.unPackData_bool;
  if (v : bool) then x ← unpackobject (value a); mret (Optional true x)
  else mret (Optional false (value a)).

Context {U : Type} `{DcoObject U}.

(** [packData] and [unPackData] of a [std::pair]. *)
#[export] Instance pair_object : DcoObject (T * U) := {|
  dco_ok a := dco_ok a.1 /\ dco_ok a.2;
  dco_equiv a b := dco_equiv a.1 b.1 /\ dco_equiv a.2 b.2;
  dco_enc a := dco_enc a.1 ++ dco_enc a.2;
  dco_default := (dco_default, dco_default);
  dco_eqb a b := dco_eqb a.1 b.1 && dco_eqb a.2 b.2;
  packobject a := (packobject a.1 ;; packobject a.2);
  unpackobject a := (x ← unpackobject a.1; y ← unpackobject a.2; mret (x, y))
|}.
End Objects.

Section Diffs.
Context `{BuildConfig}.

(** [checkandpackdiffsingle]; [diffpack_complete] treats a whole container the
    same way. *)
Definition checkandpackdiffsingle {T} `{DcoObject T} (m r : T) (im : IM.IndexMemory)
    : M AS.AmorphStore IM.IndexMemory :=
  if dco_eqb m r then IM.changed im false
  else im ← IM.changed im true; packobject m ;; mret im.

Definition checkandunpackdiffsingle {T} `{DcoObject T} (m : T) (im : IR.IndexRecall)
    : M ARS.AmorphReStore (T * IR.IndexRecall) :=
  '(d, im) ← IR.changed im;
  if (d : bool) then x ← unpackobject m; mret (x, im) else mret (m, im).

Definition checkandpackdiff_complete {T} `{DcoObject T} (m r : T) (im : IM.IndexMemory)
    : M AS.AmorphStore IM.IndexMemory :=
  if negb (dco_eqb m r) then im ← IM.changed im true; packobject m ;; mret im
  else IM.changed im false.

Definition checkandunpackdiff_complete {T} `{DcoObject T} (m : T) (im : IR.IndexRecall)
    : M ARS.AmorphReStore (T * IR.IndexRecall) :=
  '(d, im) ← IR.changed im;
  if (d : bool) then x ← unpackobject m; mret (x, im) else mret (m, im).

(** The loop of [checkandpackdiff(.., diffpack_fixedsize)]: element number
    [ii], the flags [arrayidx] of the array, nested in those of the object. *)
Fixpoint pack_diff_elements {T} `{DcoObject T} (m r : list T) (ii : Z) (nodiff : bool)
    (im arrayidx : IM.IndexMemory)
    : M AS.AmorphStore (bool * IM.IndexMemory * IM.IndexMemory) :=
  match m with
  | [] => mret (nodiff, im, arrayidx)
  | x :: m =>
      if match r with [] => true | y :: _ => negb (dco_eqb x y) end then
        '(im, arrayidx) ←
          (if nodiff then
             im ← IM.changed im true;
             arrayidx ← IM.firstchange ii;
             mret (im, arrayidx)
           else
             arrayidx ← IM.changed arrayidx true;
             mret (im, arrayidx));
        packobject x ;;
        pack_diff_elements m (tail r) (ii + 1) false im arrayidx
      else
        arrayidx ← (if negb nodiff then IM.changed arrayidx false else mret arrayidx);
        pack_diff_elements m (tail r) (ii + 1) nodiff im arrayidx
  end.

Definition checkandpackdiff_fixedsize {T} `{DcoObject T} (m r : list T)
    (im : IM.IndexMemory) : M AS.AmorphStore IM.IndexMemory :=
  '(nodiff, im, arrayidx) ← pack_diff_elements m r 0 true im IM.make;
  if (nodiff : bool) then IM.changed im false
  else IM.closeoff arrayidx ;; mret im.

Fixpoint unpack_diff_elements {T} `{DcoObject T} (m : list T) (arridx : IR.IndexRecall)
    : M ARS.AmorphReStore (list T) :=
  match m with
  | [] => mret []
  | x :: m =>
      '(d, arridx) ← IR.changed arridx;
      y ← (if (d : bool) then unpackobject x else mret x);
      ys ← unpack_diff_elements m arridx;
      mret (y :: ys)
  end.

Definition checkandunpackdiff_fixedsize {T} `{DcoObject T} (m : list T)
    (im : IR.IndexRecall) : M ARS.AmorphReStore (list T * IR.IndexRecall) :=
  '(d, im) ← IR.changed im;
  if (d : bool) then l ← unpack_diff_elements m IR.make; mret (l, im)
  else mret (m, im).

(** The length travels as a [uint32_t] member of its own. *)
Definition size_of {T} (l : list T) : scalar Cuint32 :=
  Scalar (Vnum Cuint32 (u32 (zlen l))).
Definition size_value (x : scalar Cuint32) : Z :=
  match sval x with Vnum _ z => z | _ => 0 end.

Definition checkandpackdiff_vector {T} `{DcoObject T} (m r : list T)
    (im : IM.IndexMemory) : M AS.AmorphStore IM.IndexMemory :=
  im ← checkandpackdiffsingle (size_of m) (size_of r) im;
  checkandpackdiff_fixedsize m r im.

Definition checkandunpackdiff_vector {T} `{DcoObject T} (m : list T)
    (im : IR.IndexRecall) : M ARS.AmorphReStore (list T * IR.IndexRecall) :=
  '(ms, im) ← checkandunpackdiffsingle (size_of m) im;
  checkandunpackdiff_fixedsize
    (if size_value ms =? zlen m then m
     else resized (Z.to_nat (size_value ms)) dco_default m) im.

Definition bool_of (b : bool) : scalar Cbool := Scalar (Vbool b).
Definition bool_value (x : scalar Cbool) : bool :=
  match sval x with Vbool b => b | _ => false end.

Definition checkandpackdiff_optional {T} `{DiffPack T} (m r : fix_optional T)
    (im : IM.IndexMemory) : M AS.AmorphStore IM.IndexMemory :=
  im ← checkandpackdiffsingle (bool_of (valid m)) (bool_of (valid r)) im;
  if valid m then checkandpackdiff (value m) (value r) im else mret im.

Definition checkandunpackdiff_optional {T} `{DiffPack T} (m : fix_optional T)
    (im : IR.IndexRecall) : M ARS.AmorphReStore (fix_optional T * IR.IndexRecall) :=
  '(v, im) ← checkandunpackdiffsingle (bool_of (valid m)) im;
  if bool_value v then
    '(x, im) ← checkandunpackdiff (value m) im; mret (Optional true x, im)
  else mret (Optional false (value m), im).

(** The generated [packDataDiff] and [unPackDataDiff]: the members one after
    the other with one [IndexMemory] or [IndexRecall]. *)
Definition packDataDiff {T} `{DiffPack T} (m r : T) : M AS.AmorphStore unit :=
  im ← checkandpackdiff m r IM.make; IM.closeoff im.

Definition unPackDataDiff {T} `{DiffPack T} (m : T) : M ARS.AmorphReStore T :=
  '(x, _) ← checkandunpackdiff m IR.make; mret x.
End Diffs.

(** ** The stream of flags

    A run is a flag byte and the data of the members it covers. *)

Abbreviation run := (bool * list (list Z))%type.

Definition flag_of (d : bool) (n : nat) : Z :=
  (Z.of_nat n - 1) + (if d then 128 else 0).
Definition run_enc (x : run) : list Z := flag_of x.1 (length x.2) :: mjoin x.2.
Definition runs_enc (l : list run) : list Z := mjoin (run_enc <$> l).
Definition run_items (x : run) : list item := pair x.1 <$> x.2.
Definition runs_items (l : list run) : list item := mjoin (run_items <$> l).
Definition run_wf (x : run) : Prop := (1 <= length x.2 <= 128)%nat /\ bytes_ok (mjoin x.2).

Lemma runs_enc_app a b : runs_enc (a ++ b) = runs_enc a ++ runs_enc b.
Proof. unfold runs_enc. by rewrite fmap_app, join_app. Qed.
Lemma runs_items_app a b : runs_items (a ++ b) = runs_items a ++ runs_items b.
Proof. unfold runs_items. by rewrite fmap_app, join_app. Qed.
Lemma runs_enc_one x : runs_enc [x] = run_enc x.
Proof. unfold runs_enc. cbn. by rewrite app_nil_r. Qed.
Lemma runs_items_one x : runs_items [x] = run_items x.
Proof. unfold runs_items. cbn. by rewrite app_nil_r. Qed.

Lemma run_enc_ok x : run_wf x -> bytes_ok (run_enc x).
Proof.
  intros [Hl Hb]. constructor; [|done]. unfold flag_of, is_u8. destruct x.1; lia.
Qed.
Lemma runs_enc_ok l : Forall run_wf l -> bytes_ok (runs_enc l).
Proof.
  induction 1; [constructor|]. apply Forall_app. split; [by apply run_enc_ok|done].
Qed.

(** Flag arithmetic on all 128 counts. *)
Lemma flag_table :
  forallb (fun n =>
    (u8 (Z.lor (Z.of_nat n) 128) =? flag_of true (S n)) &&
    (u8 (Z.lor (Z.of_nat n) 0) =? flag_of false (S n)) &&
    (Z.land (flag_of true (S n)) 128 =? 128) &&
    (Z.land (flag_of false (S n)) 128 =? 0) &&
    (Z.land (flag_of true (S n)) 127 =? Z.of_nat n) &&
    (Z.land (flag_of false (S n)) 127 =? Z.of_nat n)) (seq 0 128) = true.
Proof. vm_compute. reflexivity. Qed.

Lemma flag_spec (d : bool) (n : nat) : (n < 128)%nat ->
  u8 (Z.lor (Z.of_nat n) (if d then 128 else 0)) = flag_of d (S n) /\
  (Z.land (flag_of d (S n)) 128 =? 128) = d /\
  Z.land (flag_of d (S n)) 127 = Z.of_nat n.
Proof.
  intros Hn. pose proof flag_table as Ht. rewrite forallb_forall in Ht.
  specialize (Ht n). rewrite in_seq in Ht.
  rewrite !andb_true_iff, !Z.eqb_eq in Ht.
  destruct Ht as [[[[[? ?] ?] ?] ?] ?]; [lia|].
  destruct d; split_and!; try done; apply Z.eqb_eq || apply Z.eqb_neq; lia.
Qed.

(** *** Reading the stream *)

Lemma at_bytes_app a b r : at_bytes (a ++ b) r ->
  at_bytes b (step_index (zlen a) r) /\ ars_ok r /\
  ARS.index r + zlen a <= ARS.fill_level r /\ ahead r (length a) = a.
Proof.
  intros (Hr & Hl & rest & Hd). rewrite length_app in Hl. pose proof Hr as [].
  split_and!; [|done|lia|].
  - split_and!; [apply step_index_ok; done || lia|cbn; lia|].
    exists rest. cbn. rewrite Z2Nat.inj_add, Nat2Z.id, <- drop_drop, Hd by lia.
    by rewrite <- app_assoc, drop_app_length.
  - unfold ahead. by rewrite Hd, <- app_assoc, take_app_length.
Qed.

(** The flags a reader still has ahead: the rest of the current run, and
    the runs after it. *)
Record future := mkFuture { fdiff : bool; fcur : list (list Z); fruns : list run }.
Definition future_bytes (f : future) : list Z := mjoin (fcur f) ++ runs_enc (fruns f).
Definition future_items (f : future) : list item :=
  run_items (fdiff f, fcur f) ++ runs_items (fruns f).
Definition reads (f : future) (im : IR.IndexRecall) : Prop :=
  IR.count im = zlen (fcur f) /\ (fcur f <> [] -> IR.differs im = fdiff f) /\
  Forall run_wf (fruns f).

Section Reading.
Context `{BuildConfig}.

Lemma unpack_byte b bs r :
  at_bytes (b :: bs) r -> is_u8 b ->
  exists r', ARS.unPackData_uint8 r = (Val b, r') /\ at_bytes bs r'.
Proof.
  intros Ha Hb. destruct (at_bytes_app [b] bs r Ha) as (Hn & Hr & Hl & Hd).
  exists (step_index 1 r). split; [|done]. pose proof Hr as [].
  unfold ARS.unPackData_uint8.
  rewrite (unpack_block 1 1 _ host_value) by (done || (cbn in Hl; lia)).
  unfold unpack_result. rewrite (proj2 (Z.ltb_ge _ _)) by (cbn in *; lia).
  rewrite host_value_1; [|by apply ahead_length]. cbn [length] in Hd.
  by rewrite Hd, be_value_8.
Qed.

(** One call of [IndexRecall::changed] takes one flag off the stream. *)
Lemma recall_changed f im d p its tl r :
  reads f im -> future_items f = (d, p) :: its ->
  at_bytes (future_bytes f ++ tl) r ->
  exists f' im' r', IR.changed im r = (Val (d, im'), r') /\
    reads f' im' /\ future_items f' = its /\
    at_bytes (p ++ future_bytes f' ++ tl) r'.
Proof.
  intros (Hc & Hd & Hw) Hi Ha. destruct f as [fd cur rs].
  unfold future_items, future_bytes in *. cbn [fcur fdiff fruns] in *.
  destruct cur as [|q cur].
  - destruct rs as [|[d' ps] rs]; [done|]. inversion_clear Hw as [|?? [Hlen Hok] Hw'].
    destruct ps as [|q ps]; [cbn in Hlen; lia|].
    unfold runs_items, runs_enc in *. cbn in Hi. simplify_eq. cbn in Hlen.
    unfold IR.changed. rewrite Hc. cbn [length].
    change (Z.of_nat 0 =? 0) with true. cbv iota.
    destruct (flag_spec d (length ps)) as (_ & Hf1 & Hf2); [lia|].
    destruct (unpack_byte (flag_of d (S (length ps)))
      (p ++ mjoin ps ++ runs_enc rs ++ tl) r) as (r' & E & Ha').
    { unfold run_enc in Ha. cbn in Ha. unfold mjoin, list_join in *. cbn in Ha.
      unfold runs_enc, mjoin. rewrite <- !app_assoc in Ha. exact Ha. }
    { unfold flag_of, is_u8. destruct d; lia. }
    exists (mkFuture d ps rs). eexists _, r'. split.
    { erewrite bind_val by exact E. rewrite Hf1, Hf2. done. }
    split; [|split].
    + split; [done|]. split; [|done]. done.
    + done.
    + unfold future_bytes. cbn. by rewrite <- app_assoc.
  - cbn in Hi. simplify_eq. unfold IR.changed. cbn [length] in Hc.
    rewrite Hc. replace (_ =? 0) with false by (symmetry; apply Z.eqb_neq; lia).
    rewrite Hd by done. exists (mkFuture d cur rs). eexists _, r. split; [done|].
    split; [|split; [done|]].
    + split; cbn; [lia|]. done.
    + cbn in Ha |- *. unfold future_bytes. cbn.
      rewrite <- !app_assoc in *. exact Ha.
Qed.
End Reading.

(** *** Writing the stream *)

(** What an [IndexMemory] that started at store [s0] has written: the closed
    runs, and the open one, whose flag byte is still zero. *)
Record stream := mkStream { sclosed : list run; sopen : option run }.
Definition stream_items (t : stream) : list item :=
  runs_items (sclosed t ++ option_list (sopen t)).
Definition stream_bytes (t : stream) : list Z :=
  runs_enc (sclosed t) ++ from_option (fun x : run => 0 :: mjoin x.2) [] (sopen t).

Definition writes (s0 : AS.AmorphStore) (t : stream) (im : IM.IndexMemory)
    (s : AS.AmorphStore) : Prop :=
  as_ok s0 /\ AS.choked s0 = false /\
  s = append (stream_bytes t) s0 /\
  AS.index s0 + zlen (stream_bytes t) <= AS.capacity s0 /\
  Forall run_wf (sclosed t) /\
  match sopen t with
  | None => sclosed t = [] /\ im = IM.make
  | Some x =>
      run_wf x /\ IM.differs im = x.1 /\ IM.count im = zlen x.2 - 1 /\
      u32 (IM.store_idx im) = AS.index s0 + zlen (runs_enc (sclosed t))
  end.

Lemma stream_bytes_ok t s0 im s : writes s0 t im s -> bytes_ok (stream_bytes t).
Proof.
  intros (_ & _ & _ & _ & Hw & Ho). apply Forall_app.
  split; [by apply runs_enc_ok|]. destruct (sopen t) as [x|]; [|constructor].
  constructor; [done|]. by destruct Ho as [[_ ?] _].
Qed.

Lemma writes_ok s0 t im s : writes s0 t im s -> as_ok s /\ AS.choked s = false.
Proof.
  intros Hw. pose proof (stream_bytes_ok _ _ _ _ Hw).
  destruct Hw as (Hs & Hc & -> & Hl & _). split; [by apply append_ok|done].
Qed.

Lemma append_set i b a p s :
  as_ok s -> AS.index s + zlen (a ++ 0 :: p) <= AS.capacity s -> is_u8 b ->
  i = AS.index s + zlen a ->
  AS.memcpy_to i [b] (append (a ++ 0 :: p) s) = (Val tt, append (a ++ b :: p) s).
Proof.
  intros [] Hl Hb ->. rewrite length_app in Hl. cbn [length] in Hl.
  rewrite memcpy_to_run;
    [|lia|cbn; rewrite splice_length by (rewrite ?length_app; cbn; lia); lia].
  unfold append, AS.set_index, AS.set_stor. cbn. rewrite !length_app. do 2 f_equal.
  unfold splice.
  assert (forall x : Z, length (a ++ x :: p) = (length a + S (length p))%nat) as L
    by (intros; by rewrite length_app).
  rewrite !L.
  set (pre := take (Z.to_nat (AS.index s)) (AS.stor s)).
  assert (length pre = Z.to_nat (AS.index s)) as Lp
    by (unfold pre; rewrite length_take; lia).
  rewrite <- (app_assoc a), (app_assoc pre a).
  replace (Z.to_nat (AS.index s + zlen a)) with (length (pre ++ a))
    by (rewrite length_app; lia).
  rewrite take_app_length. rewrite <- !app_assoc. do 2 f_equal.
  rewrite (app_assoc pre a), drop_app_add. done.
Qed.

Section Writing.
Context `{BuildConfig}.

Lemma open_flag_run s :
  room 1 s -> IM.open_flag s = (Val (s32 (AS.index s)), append [0] s).
Proof.
  intros (Hs & Hc & Hl). unfold IM.open_flag, mbind, M_bind, gets, AS.getSize.
  pose proof (pack_ok_run (Vnum Cuint8 0) s Hs) as E. cbn [packData packData_num] in E.
  rewrite E; [done|done|done|done].
Qed.

Lemma s32_index i : is_u32 i -> u32 (s32 i) = i.
Proof. width. Qed.

(** Closing the open run puts its count and sign into the flag byte. *)
Lemma closeoff_run s0 t x im s :
  writes s0 t im s -> sopen t = Some x ->
  IM.closeoff im s = (Val tt, append (runs_enc (sclosed t ++ [x])) s0).
Proof.
  intros (Hs & Hc & -> & Hl & Hw & Ho) Ex. unfold stream_bytes in *. rewrite Ex in *.
  destruct Ho as ([Hlen Hx] & Hd & Hn & Hi). cbn [from_option] in *.
  pose proof Hs as []. rewrite runs_enc_app, runs_enc_one.
  unfold IM.closeoff, IM.flag_byte, AS.placeData_uint8, mbind, M_bind, get. rewrite Hi.
  rewrite length_app in Hl. cbn [length] in Hl.
  cbn [append AS.choked AS.set_index AS.set_stor AS.capacity].
  rewrite Hc, (proj2 (Z.ltb_ge _ _)) by lia. cbn [orb].
  rewrite Hn, Hd. unfold run_enc. destruct x as [d ps]. cbn [fst snd] in *.
  destruct ps as [|p ps]; [cbn in Hlen; lia|].
  replace (zlen (p :: ps) - 1) with (zlen ps) by (cbn [length]; lia).
  destruct (flag_spec d (length ps)) as (-> & _); [cbn in Hlen; lia|].
  rewrite object_rep_1. unfold be_bytes. cbn [le_bytes rev app].
  assert (is_u8 (flag_of d (S (length ps)))) as Hf.
  { unfold flag_of, is_u8. cbn in Hlen. destruct d; lia. }
  rewrite Z.mod_small by exact Hf.
  apply append_set; [done| |done|done]. rewrite length_app. cbn [length]. lia.
Qed.

(** Opening a run after [cl] closed ones. *)
Lemma open_run s0 cl d :
  as_ok s0 -> AS.choked s0 = false -> Forall run_wf cl ->
  AS.index s0 + zlen (runs_enc cl) + 1 <= AS.capacity s0 ->
  let s := append (runs_enc cl) s0 in
  exists i, IM.open_flag s = (Val i, append [0] s) /\
    writes s0 (mkStream cl (Some (d, [[]]))) (IM.mk i d 0) (append [0] s).
Proof.
  intros Hs Hc Hw Hl s. pose proof Hs as [].
  assert (as_ok s) as Hs' by (apply append_ok; [done|by apply runs_enc_ok|lia]).
  exists (s32 (AS.index s)). split.
  { apply open_flag_run. split_and!; [done|done|cbn; lia]. }
  unfold writes, stream_bytes. cbn [sclosed sopen from_option fst snd].
  split_and!; try done.
  - unfold s. rewrite append_append; [done|done|]. rewrite length_app. cbn. lia.
  - rewrite length_app. cbn. lia.
  - split; [cbn; lia|constructor].
  - apply s32_index. unfold is_u32. cbn. lia.
Qed.

(** Closing a run and opening the next one. *)
Lemma memory_switch s0 cl x im d s :
  writes s0 (mkStream cl (Some x)) im s -> room 1 s ->
  exists im' s',
    (IM.closeoff im ;; i ← IM.open_flag; mret (IM.mk i d 0)) s = (Val im', s') /\
    writes s0 (mkStream (cl ++ [x]) (Some (d, [[]]))) im' s' /\
    AS.index s' = AS.index s + 1.
Proof.
  intros Hw (_ & _ & Hr). pose proof (closeoff_run s0 _ x im s Hw eq_refl) as Hclose.
  destruct Hw as (Hs & Hc & -> & Hl & Hcl & Hx & _).
  cbn [sclosed sopen] in *.
  assert (zlen (runs_enc (cl ++ [x])) = zlen (stream_bytes (mkStream cl (Some x)))) as Hlong.
  { rewrite runs_enc_app, runs_enc_one. unfold stream_bytes. cbn.
    by rewrite !length_app. }
  destruct (open_run s0 (cl ++ [x]) d) as (i & E & Hw').
  { done. } { done. }
  { apply Forall_app. split; [done|]. by constructor. }
  { rewrite Hlong. exact Hr. }
  eexists _, _. split; [|split; [exact Hw'|]].
  - unfold mbind, M_bind. by rewrite Hclose, E.
  - change (AS.index s0 + zlen (runs_enc (cl ++ [x])) + 1
      = AS.index s0 + zlen (stream_bytes (mkStream cl (Some x))) + 1).
    by rewrite Hlong.
Qed.

Lemma append_nil s : append [] s = s.
Proof.
  unfold append, splice. cbn. rewrite Nat.add_0_r, firstn_skipn, Z.add_0_r.
  by destruct s.
Qed.

Lemma join_snoc_nil (ps : list (list Z)) : mjoin (ps ++ [[]]) = mjoin ps.
Proof. rewrite join_app. cbn. by rewrite app_nil_r. Qed.

(** Counting one more member in the open run. *)
Lemma memory_count s0 cl d ps im s :
  writes s0 (mkStream cl (Some (d, ps))) im s -> IM.count im <> 127 ->
  writes s0 (mkStream cl (Some (d, ps ++ [[]])))
    (IM.mk (IM.store_idx im) (IM.differs im) (IM.count im + 1)) s.
Proof.
  intros (Hs & Hc & -> & Hl & Hcl & [Hlen Hx] & Hd & Hn & Hi) E.
  unfold writes, stream_bytes in *. cbn [sclosed sopen from_option fst snd] in *.
  unfold run_wf. cbn [fst snd]. rewrite join_snoc_nil, (length_app ps).
  split_and!; try done; cbn; try lia.
Qed.

Lemma stream_items_open cl x :
  stream_items (mkStream cl (Some x)) = runs_items cl ++ run_items x.
Proof.
  unfold stream_items. cbn [sclosed sopen]. change (option_list (Some x)) with [x].
  by rewrite runs_items_app, runs_items_one.
Qed.

(** One call of [IndexMemory::changed] adds one flag, without data so far, and
    takes at most one byte. *)
Lemma memory_changed s0 t im d s :
  writes s0 t im s -> room 1 s ->
  exists t' im' s', IM.changed im d s = (Val im', s') /\ writes s0 t' im' s' /\
    stream_items t' = stream_items t ++ [(d, [])] /\
    (exists x ps, sopen t' = Some (x, ps ++ [[]])) /\
    AS.index s <= AS.index s' <= AS.index s + 1.
Proof.
  intros Hw Hroom. unfold IM.changed. destruct t as [cl [[dx ps]|]].
  - pose proof Hw as (_ & _ & _ & _ & _ & [Hlen _] & Hd & Hn & _).
    cbn [fst snd] in *.
    replace (IM.count im =? -1) with false by (symmetry; apply Z.eqb_neq; lia).
    rewrite mret_bind.
    assert (forall d', d' = d -> exists t' im' s',
      (IM.closeoff im ;; i ← IM.open_flag; mret (IM.mk i d' 0)) s = (Val im', s') /\
      writes s0 t' im' s' /\
      stream_items t' = stream_items (mkStream cl (Some (dx, ps))) ++ [(d, [])] /\
      (exists x ps', sopen t' = Some (x, ps' ++ [[]])) /\
      AS.index s <= AS.index s' <= AS.index s + 1) as Hnew.
    { intros d' ->. destruct (memory_switch s0 cl (dx, ps) im d s Hw Hroom)
        as (im' & s' & E & Hw' & Hi).
      eexists _, im', s'. split_and!; [done|exact Hw'| |by exists d, []|lia|lia].
      by rewrite !stream_items_open, runs_items_app, runs_items_one. }
    destruct (eqb (IM.differs im) d) eqn:Ed; [|apply Hnew; done].
    apply eqb_prop in Ed. destruct (Z.eqb_spec (IM.count im) 127) as [|E127];
      [by apply Hnew|].
    eexists _, _, s. split_and!; [done|by apply memory_count| |by exists dx, ps|lia|lia].
    rewrite !stream_items_open, <- app_assoc. unfold run_items. cbn [fst snd].
    rewrite fmap_app. by rewrite <- Hd, Ed.
  - pose proof Hw as (Hs & Hc & -> & _ & _ & [Ecl ->]). cbn [sclosed] in Ecl. subst cl.
    cbn [IM.count IM.make Z.eqb]. destruct Hroom as (_ & _ & Hr).
    destruct (open_run s0 [] d) as (i & E & Hw'); [done|done|constructor|exact Hr|].
    change (runs_enc []) with (@nil Z) in E, Hw'.
    change (stream_bytes _) with (@nil Z) in Hw, Hr |- *. rewrite append_nil in *.
    unfold mbind, M_bind. change (IM.open_flag s0 = (Val i, append [0] s0)) in E.
    cbn. rewrite E. cbn. rewrite eqb_reflx.
    eexists _, _, _. split_and!; [done|exact Hw'|done|by exists d, []|cbn; lia|cbn; lia].
Qed.

(** Data written after a flag belongs to that flag. *)
Lemma memory_data s0 t im s x ps bs :
  writes s0 t im s -> sopen t = Some (x, ps ++ [[]]) -> bytes_ok bs ->
  AS.index s + zlen bs <= AS.capacity s ->
  let t' := mkStream (sclosed t) (Some (x, ps ++ [bs])) in
  writes s0 t' im (append bs s) /\
  (forall its d, stream_items t = its ++ [(d, [])] -> stream_items t' = its ++ [(d, bs)]).
Proof.
  intros (Hs & Hc & -> & Hl & Hcl & Ho) Et Hb Hl' t'. rewrite Et in Ho.
  destruct Ho as ([Hlen Hx] & Hd & Hn & Hi). cbn [fst snd] in *.
  pose proof (join_snoc_nil ps) as Ej.
  assert (stream_bytes t ++ bs = stream_bytes t') as Eb.
  { unfold stream_bytes, t'. rewrite Et. cbn. rewrite Ej, join_app. cbn.
    by rewrite <- app_assoc, app_nil_r. }
  cbn in Hl'. split.
  - unfold writes. rewrite <- Eb. split_and!; try done.
    + rewrite append_append; [done|done|rewrite length_app; lia].
    + rewrite length_app. lia.
    + cbn. rewrite length_app in *. cbn in *. split_and!; try done.
      split; [cbn; rewrite length_app; cbn; lia|]. cbn. rewrite Ej in Hx.
      rewrite join_app. apply Forall_app. split; [done|]. cbn. by rewrite app_nil_r.
  - intros its d. unfold t'. destruct t as [cl o]. cbn in Et. subst o.
    cbn [sclosed]. rewrite !stream_items_open.
    unfold run_items. cbn [fst snd]. rewrite !fmap_app. cbn.
    rewrite !app_assoc. intros E. apply app_inj_tail in E as [<- E]. by simplify_eq.
Qed.
End Writing.

(** ** The object instances keep their laws *)

Lemma room_append a m s :
  room (zlen a + m) s -> bytes_ok a -> 0 <= m -> room m (append a s).
Proof.
  intros (Hs & Hc & Hl) Ha Hm. split_and!; [apply append_ok; done || lia|done|].
  cbn. lia.
Qed.

Lemma room_less n m s : room n s -> m <= n -> room m s.
Proof. intros (? & ? & ?) ?. split_and!; done || lia. Qed.

Lemma float_eqb_trans half inf a b c :
  float_eqb half inf a b = true -> float_eqb half inf b c = true ->
  float_eqb half inf a c = true.
Proof.
  unfold float_eqb. rewrite !andb_true_iff, !orb_true_iff, !andb_true_iff, !Z.eqb_eq.
  intros [[? ?] [->|[? ?]]] [[? ?] [->|[? ?]]]; split_and!; auto.
Qed.

Lemma cvalue_eqb_trans a b c :
  typeof a = typeof b -> typeof b = typeof c ->
  cvalue_eqb a b = true -> cvalue_eqb b c = true -> cvalue_eqb a c = true.
Proof.
  destruct a as [[]| | |], b as [[]| | |], c as [[]| | |]; cbn [typeof cvalue_eqb];
    intros Hab Hbc; simplify_eq;
    rewrite ?Z.eqb_eq, ?bool_decide_eq_true, ?eqb_true_iff; try done;
    first [by apply float_eqb_trans|congruence].
Qed.

Section ObjectLaws.
Context `{BuildConfig}.

Lemma uint32_pack z s :
  room 4 s -> is_u32 z -> AS.packData_uint32 z s = (Val tt, append (be_bytes 4 z) s).
Proof.
  intros (Hs & Hc & Hl) Hz. by apply (pack_ok_run (Vnum Cuint32 z)).
Qed.

Lemma at_bytes_value v bs r :
  at_bytes (encoding v ++ bs) r -> cvalue_ok v ->
  exists r', unPackData (typeof v) r = (Val v, r') /\ at_bytes bs r'.
Proof.
  intros Ha Hv. destruct (at_bytes_app _ _ _ Ha) as (Hb & Hr & Hl & _).
  destruct Ha as (_ & _ & rest & Hd). rewrite <- app_assoc in Hd.
  exists (step_index (esize v) r). split; [|done].
  by apply (unPackData_encoded v r (bs ++ rest)).
Qed.

Lemma uint32_unpack z bs r :
  at_bytes (be_bytes 4 z ++ bs) r -> is_u32 z ->
  exists r', ARS.unPackData_uint32 r = (Val z, r') /\ at_bytes bs r'.
Proof.
  intros Ha Hz. destruct (at_bytes_value (Vnum Cuint32 z) bs r Ha Hz) as (r' & E & Hb).
  exists r'. split; [|done]. cbn [typeof unPackData] in E. rewrite fmap_run in E.
  destruct (ARS.unPackData_uint32 r) as [[]?]; congruence.
Qed.

Lemma bool_unpack (b : bool) bs r :
  at_bytes ((if b then 255 else 0) :: bs) r ->
  exists r', ARS.unPackData_bool r = (Val b, r') /\ at_bytes bs r'.
Proof.
  intros Ha. destruct (at_bytes_value (Vbool b) bs r Ha I) as (r' & E & Hb).
  exists r'. split; [|done]. cbn [typeof unPackData] in E. rewrite fmap_run in E.
  destruct (ARS.unPackData_bool r) as [[]?]; congruence.
Qed.

#[export] Instance scalar_laws t :
  (forall n, t = Cchars n -> 0 <= n < 4294967296) -> DcoLaws (scalar t).
Proof.
  intros Ht. split; cbn [dco_ok dco_equiv dco_enc dco_default dco_eqb packobject
    unpackobject scalar_object].
  - intros v (_ & Hv & _). by apply encoding_ok.
  - destruct t as [| | | | | | | | | | | | |n];
      try (split_and!; [done|repeat constructor; done|vm_compute; done]).
    cbn [sval ctype_default typeof].
    specialize (Ht n eq_refl). unfold esize. cbn [encoding].
    rewrite length_replicate, Z2Nat.id by lia. split_and!; [done| |lia].
    by apply Forall_replicate.
  - intros v (? & ? & ?). auto.
  - intros a b c (Hb1 & Hb2 & Hb3 & Hb) (Hc1 & Hc2 & Hc3 & Hc).
    split_and!; try done. destruct Hb as [->|[? Hb]]; [done|].
    destruct Hc as [->|[? Hc]]; [by auto|]. right. split; [done|].
    eapply cvalue_eqb_trans; [| |exact Hb|exact Hc]; congruence.
  - tauto.
  - tauto.
  - intros v s (Hs & Hc & Hl) (_ & Hv & _). by apply pack_ok_run.
  - intros old v bs r Ha _ (Hv1 & Hv & _).
    destruct (at_bytes_value _ _ _ Ha Hv) as (r' & E & Hb). exists r'.
    split; [|done]. rewrite Hv1 in E. rewrite fmap_run, E. by destruct v.
Qed.

Context {T : Type} `{DcoLaws T}.

Lemma elements_enc_ok (l : list T) :
  Forall dco_ok l -> bytes_ok (mjoin (dco_enc <$> l)).
Proof.
  induction 1; [constructor|]. apply Forall_app. split; [by apply dco_enc_ok|done].
Qed.

Lemma pack_elements_run (l : list T) s :
  room (zlen (mjoin (dco_enc <$> l))) s -> Forall dco_ok l ->
  pack_elements packobject l s = (Val tt, append (mjoin (dco_enc <$> l)) s).
Proof.
  intros Hr Hl. revert s Hr. induction Hl as [|x l Hx Hl IH]; intros s Hr.
  - cbn. by rewrite append_nil.
  - cbn [pack_elements]. change (mjoin (dco_enc <$> x :: l))
      with (dco_enc x ++ mjoin (dco_enc <$> l)) in *.
    pose proof Hr as (Hs & _ & Hl'). rewrite length_app in *.
    erewrite bind_val; [|apply dco_pack; [eapply room_less; [exact Hr|lia]|done]].
    rewrite IH.
    + rewrite append_append; [done|done|rewrite length_app; lia].
    + apply room_append; [|by apply dco_enc_ok|lia].
      eapply room_less; [exact Hr|lia].
Qed.

Lemma unpack_elements_run (l : list T) : forall old bs r,
  at_bytes (mjoin (dco_enc <$> l) ++ bs) r -> length old = length l ->
  Forall dco_ok old -> Forall dco_ok l ->
  exists r', unpack_elements unpackobject old r = (Val l, r') /\ at_bytes bs r'.
Proof.
  induction l as [|x l IH]; intros [|o old] bs r Ha Hlen Ho Hl; try done.
  - by exists r.
  - apply Forall_cons_1 in Ho as [Ho1 Ho]. apply Forall_cons_1 in Hl as [Hl1 Hl].
    change (mjoin (dco_enc <$> x :: l)) with (dco_enc x ++ mjoin (dco_enc <$> l)) in Ha.
    rewrite <- app_assoc in Ha.
    destruct (dco_unpack o x _ r Ha Ho1 Hl1) as (r1 & E1 & Ha1).
    destruct (IH old bs r1 Ha1) as (r2 & E2 & Ha2); [by injection Hlen|exact Ho|exact Hl|].
    exists r2. split; [|done]. cbn [unpack_elements].
    erewrite bind_val by exact E1. by erewrite bind_val by exact E2.
Qed.

Lemma unpack_new_run (l : list T) : forall bs r,
  at_bytes (mjoin (dco_enc <$> l) ++ bs) r -> Forall dco_ok l ->
  exists r', unpack_new unpackobject dco_default (length l) r = (Val l, r') /\
    at_bytes bs r'.
Proof.
  induction l as [|x l IH]; intros bs r Ha Hl; [by exists r|].
  apply Forall_cons_1 in Hl as [Hl1 Hl].
  change (mjoin (dco_enc <$> x :: l)) with (dco_enc x ++ mjoin (dco_enc <$> l)) in Ha.
  rewrite <- app_assoc in Ha.
  destruct (dco_unpack dco_default x _ r Ha dco_default_ok) as (r1 & E1 & Ha1); [done|].
  destruct (IH bs r1 Ha1 Hl) as (r2 & E2 & Ha2). exists r2. split; [|done].
  cbn [length unpack_new]. erewrite bind_val by exact E1. by erewrite bind_val by exact E2.
Qed.

Lemma elements_eqb_equiv (a b : list T) :
  Forall dco_ok a -> Forall dco_ok b ->
  list_eqb dco_eqb a b = true -> Forall2 dco_equiv a b.
Proof.
  intros Ha. revert b. induction Ha as [|x a Hx Ha IH]; intros [|y b] Hb; try done.
  apply Forall_cons_1 in Hb as [Hy Hb]. cbn. rewrite andb_true_iff. intros [E1 E2].
  constructor; [by apply dco_eqb_equiv|by apply IH].
Qed.

Lemma equiv_elements_ok (a b : list T) :
  Forall dco_ok a -> Forall2 dco_equiv a b -> Forall dco_ok b.
Proof.
  intros Ha H2. induction H2 as [|x y a b Hxy _ IH]; [done|].
  apply Forall_cons_1 in Ha as [Hx Ha]. constructor; [by eapply dco_equiv_ok|auto].
Qed.

Lemma equiv_elements_refl (a : list T) : Forall dco_ok a -> Forall2 dco_equiv a a.
Proof. induction 1; constructor; [by apply dco_refl|done]. Qed.

Lemma equiv_elements_trans (a b c : list T) :
  Forall2 dco_equiv a b -> Forall2 dco_equiv b c -> Forall2 dco_equiv a c.
Proof.
  intros H2. revert c. induction H2; intros c Hc; inversion_clear Hc; constructor; eauto.
  by eapply dco_trans.
Qed.

#[export] Instance array_laws n : DcoLaws (array n T).
Proof.
  split; cbn [dco_ok dco_equiv dco_enc dco_default dco_eqb packobject unpackobject
    array_object].
  - intros v [_ Hv]. by apply elements_enc_ok.
  - cbn. rewrite length_replicate. split; [done|].
    apply Forall_replicate, dco_default_ok.
  - intros v [_ Hv]. by apply equiv_elements_refl.
  - intros a b c. apply equiv_elements_trans.
  - intros a b [Ha1 Ha] Hab. split; [|by eapply equiv_elements_ok].
    by erewrite <- Forall2_length by exact Hab.
  - intros a b [_ Ha] [_ Hb]. by apply elements_eqb_equiv.
  - intros v s Hr [_ Hv]. by apply pack_elements_run.
  - intros old v bs r Ha [Ho1 Ho] [Hv1 Hv].
    destruct (unpack_elements_run (aitems v) (aitems old) bs r) as (r' & E & Hb);
      [done|congruence|done|done|].
    exists r'. split; [|done]. rewrite fmap_run, E. by destruct v.
Qed.

Lemma pack_var_size_run (l : list T) s :
  room (zlen (be_bytes 4 (zlen l) ++ mjoin (dco_enc <$> l))) s ->
  zlen l < 4294967296 -> Forall dco_ok l ->
  pack_var_size packobject l s
    = (Val tt, append (be_bytes 4 (zlen l) ++ mjoin (dco_enc <$> l)) s).
Proof.
  intros Hr Hn Hl. pose proof Hr as (Hs & _ & Hc).
  rewrite length_app, be_bytes_length in Hr, Hc.
  unfold pack_var_size. rewrite u32_id by (unfold is_u32; lia).
  erewrite bind_val;
    [|apply uint32_pack; [eapply room_less; [exact Hr|lia]|unfold is_u32; lia]].
  rewrite pack_elements_run; [|apply room_append|done].
  - rewrite append_append; [done|done|]. rewrite length_app, be_bytes_length. lia.
  - rewrite be_bytes_length. eapply room_less; [exact Hr|lia].
  - apply be_bytes_ok.
  - lia.
Qed.

Lemma resize_ok n (l : list T) :
  Forall dco_ok l -> length (resized n dco_default l) = n /\
  Forall dco_ok (resized n dco_default l).
Proof.
  intros Hl. unfold resized. rewrite length_app, length_take, length_replicate.
  split; [lia|]. apply Forall_app. split; [by apply Forall_take|].
  apply Forall_replicate, dco_default_ok.
Qed.

#[export] Instance vec_laws : DcoLaws (vec T).
Proof.
  split; cbn [dco_ok dco_equiv dco_enc dco_default dco_eqb packobject unpackobject
    vec_object].
  - intros v [_ Hv]. apply Forall_app. split; [apply be_bytes_ok|by apply elements_enc_ok].
  - by split.
  - intros v [_ Hv]. by apply equiv_elements_refl.
  - intros a b c. apply equiv_elements_trans.
  - intros a b [Ha1 Ha] Hab. split; [|by eapply equiv_elements_ok].
    by erewrite <- Forall2_length by exact Hab.
  - intros a b [_ Ha] [_ Hb]. by apply elements_eqb_equiv.
  - intros v s Hr [Hn Hv]. by apply pack_var_size_run.
  - intros old v bs r Ha [_ Ho] [Hn Hv]. rewrite <- app_assoc in Ha.
    destruct (uint32_unpack _ _ _ Ha) as (r1 & E1 & Ha1); [unfold is_u32; lia|].
    destruct (resize_ok (length (vitems v)) (vitems old) Ho) as [Hl Hr].
    destruct (unpack_elements_run (vitems v) _ bs r1 Ha1 Hl Hr Hv) as (r' & E & Hb).
    exists r'. split; [|done]. unfold unpack_resize. rewrite fmap_run.
    erewrite bind_val by exact E1. rewrite Nat2Z.id, E. by destruct v.
Qed.

#[export] Instance stdlist_laws : DcoLaws (stdlist T).
Proof.
  split; cbn [dco_ok dco_equiv dco_enc dco_default dco_eqb packobject unpackobject
    stdlist_object].
  - intros v [_ Hv]. apply Forall_app. split; [apply be_bytes_ok|by apply elements_enc_ok].
  - by split.
  - intros v [_ Hv]. by apply equiv_elements_refl.
  - intros a b c. apply equiv_elements_trans.
  - intros a b [Ha1 Ha] Hab. split; [|by eapply equiv_elements_ok].
    by erewrite <- Forall2_length by exact Hab.
  - intros a b [_ Ha] [_ Hb]. by apply elements_eqb_equiv.
  - intros v s Hr [Hn Hv]. by apply pack_var_size_run.
  - intros old v bs r Ha _ [Hn Hv]. rewrite <- app_assoc in Ha.
    destruct (uint32_unpack _ _ _ Ha) as (r1 & E1 & Ha1); [unfold is_u32; lia|].
    destruct (unpack_new_run (litems v) bs r1 Ha1 Hv) as (r' & E & Hb).
    exists r'. split; [|done]. unfold unpack_extend. rewrite fmap_run.
    erewrite bind_val by exact E1. rewrite Nat2Z.id, E. by destruct v.
Qed.

Context {U : Type} `{DcoLaws U}.

#[export] Instance pair_laws : DcoLaws (T * U).
Proof.
  split; cbn [dco_ok dco_equiv dco_enc dco_default dco_eqb packobject unpackobject
    pair_object].
  - intros v [? ?]. apply Forall_app. by split; apply dco_enc_ok.
  - split; apply dco_default_ok.
  - intros v [? ?]. by split; apply dco_refl.
  - intros a b c [? ?] [? ?]. by split; eapply dco_trans.
  - intros a b [? ?] [? ?]. by split; eapply dco_equiv_ok.
  - intros a b [? ?] [? ?] [??]%andb_true_iff. by split; apply dco_eqb_equiv.
  - intros v s Hr [? ?]. pose proof Hr as (Hs & _ & Hc). rewrite length_app in Hr, Hc.
    erewrite bind_val; [|apply dco_pack; [eapply room_less; [exact Hr|lia]|done]].
    rewrite dco_pack; [|apply room_append; [|by apply dco_enc_ok|lia]|done].
    + rewrite append_append; [done|done|rewrite length_app; lia].
    + eapply room_less; [exact Hr|lia].
  - intros old v bs r Ha [? ?] [? ?]. rewrite <- app_assoc in Ha.
    destruct (dco_unpack old.1 v.1 _ r Ha) as (r1 & E1 & Ha1); [done|done|].
    destruct (dco_unpack old.2 v.2 _ r1 Ha1) as (r2 & E2 & Ha2); [done|done|].
    exists r2. split; [|done]. erewrite bind_val by exact E1.
    erewrite bind_val by exact E2. by destruct v.
Qed.
End ObjectLaws.

(** ** Difference packing of the member types *)

Definition els_cost {T} `{DcoObject T} (m : list T) : Z :=
  foldr (fun x n => 1 + zlen (dco_enc x) + n) 1 m.

(** Flag and data of every array element. *)
Fixpoint els_items {T} `{DcoObject T} (m r : list T) : list item :=
  match m with
  | [] => []
  | x :: m =>
      if match r with [] => true | y :: _ => negb (dco_eqb x y) end
      then (true, dco_enc x) :: els_items m (tail r)
      else (false, []) :: els_items m (tail r)
  end.

Definition single_items {T} `{DcoObject T} (m r : T) : list item :=
  if dco_eqb m r then [(false, [])] else [(true, dco_enc m)].

(** An array without differences is one flag; otherwise its data are the
    closed runs of its own flags. *)
Definition array_items {T} `{DcoObject T} (m r : list T) (its : list item) : Prop :=
  if forallb (fun x : item => negb x.1) (els_items m r) then its = [(false, [])]
  else exists l, Forall run_wf l /\ runs_items l = els_items m r /\
    its = [(true, runs_enc l)].

Section DiffInstances.
Context `{BuildConfig} {T : Type} `{DcoObject T}.

#[export] Instance scalar_diff t : DiffPack (scalar t) := {|
  dp_ok := dco_ok; dp_equiv := dco_equiv; dp_sync := dco_equiv;
  dp_items m r its := its = single_items m r;
  dp_cost m r := 1 + zlen (dco_enc m);
  checkandpackdiff := checkandpackdiffsingle;
  checkandunpackdiff := checkandunpackdiffsingle
|}.

#[export] Instance stdlist_diff : DiffPack (stdlist T) := {|
  dp_ok := dco_ok; dp_equiv := dco_equiv; dp_sync := dco_equiv;
  dp_items m r its := its = single_items m r;
  dp_cost m r := 1 + zlen (dco_enc m);
  checkandpackdiff := checkandpackdiff_complete;
  checkandunpackdiff := checkandunpackdiff_complete
|}.

#[export] Instance array_diff n : DiffPack (array n T) := {|
  dp_ok := dco_ok; dp_equiv := dco_equiv; dp_sync := dco_equiv;
  dp_items m r := array_items (aitems m) (aitems r);
  dp_cost m r := 1 + els_cost (aitems m);
  checkandpackdiff m r im := checkandpackdiff_fixedsize (aitems m) (aitems r) im;
  checkandunpackdiff m im :=
    ('(l, im) ← checkandunpackdiff_fixedsize (aitems m) im; mret (Array l, im))
|}.

#[export] Instance vec_diff : DiffPack (vec T) := {|
  dp_ok := dco_ok; dp_equiv := dco_equiv; dp_sync := dco_equiv;
  dp_items m r its := exists its',
    its = single_items (size_of (vitems m)) (size_of (vitems r)) ++ its' /\
    array_items (vitems m) (vitems r) its';
  dp_cost m r := 5 + (1 + els_cost (vitems m));
  checkandpackdiff m r im := checkandpackdiff_vector (vitems m) (vitems r) im;
  checkandunpackdiff m im :=
    ('(l, im) ← checkandunpackdiff_vector (vitems m) im; mret (Vec l, im))
|}.

Context {D : Type} `{DiffPack D} {E : Type} `{DiffPack E}.

(** The value of an invalid optional counts on both sides: the next
    difference is taken against it. *)
#[export] Instance optional_diff : DiffPack (fix_optional D) := {|
  dp_ok m := dp_ok (value m);
  dp_equiv m m' := valid m = valid m' /\ (valid m = true -> dp_equiv (value m) (value m'));
  dp_sync r r' := valid r = valid r' /\ dp_sync (value r) (value r');
  dp_items m r its := exists its',
    its = single_items (bool_of (valid m)) (bool_of (valid r)) ++ its' /\
    if valid m then dp_items (value m) (value r) its' else its' = [];
  dp_cost m r := 2 + Z.max 0 (dp_cost (value m) (value r));
  checkandpackdiff := checkandpackdiff_optional;
  checkandunpackdiff := checkandunpackdiff_optional
|}.

(** Two members, one after the other. *)
#[export] Instance members_diff : DiffPack (D * E) := {|
  dp_ok m := dp_ok m.1 /\ dp_ok m.2;
  dp_equiv m m' := dp_equiv m.1 m'.1 /\ dp_equiv m.2 m'.2;
  dp_sync r r' := dp_sync r.1 r'.1 /\ dp_sync r.2 r'.2;
  dp_items m r its := exists a b, its = a ++ b /\
    dp_items m.1 r.1 a /\ dp_items m.2 r.2 b;
  dp_cost m r := Z.max 0 (dp_cost m.1 r.1) + Z.max 0 (dp_cost m.2 r.2);
  checkandpackdiff m r im :=
    (im ← checkandpackdiff m.1 r.1 im; checkandpackdiff m.2 r.2 im);
  checkandunpackdiff m im :=
    ('(x, im) ← checkandunpackdiff m.1 im; '(y, im) ← checkandunpackdiff m.2 im;
     mret ((x, y), im))
|}.
End DiffInstances.

(** What a member type promises. *)
Class DiffLaws `{BuildConfig} (T : Type) `{DiffPack T} : Prop := {
  dp_nonempty m r its : dp_items m r its -> its <> [];
  dp_pack m r s0 t im s :
    writes s0 t im s -> dp_ok m -> dp_ok r ->
    AS.index s + dp_cost m r <= AS.capacity s ->
    exists its t' im' s', checkandpackdiff m r im s = (Val im', s') /\
      writes s0 t' im' s' /\ dp_items m r its /\
      stream_items t' = stream_items t ++ its /\
      AS.index s <= AS.index s' <= AS.index s + dp_cost m r;
  dp_unpack m r r' its f im tl q rest :
    dp_items m r its -> dp_ok m -> dp_ok r -> dp_ok r' -> dp_sync r r' ->
    reads f im -> future_items f = its ++ rest ->
    at_bytes (future_bytes f ++ tl) q ->
    exists m' f' im' q', checkandunpackdiff r' im q = (Val (m', im'), q') /\
      dp_equiv m m' /\ dp_ok m' /\ reads f' im' /\ future_items f' = rest /\
      at_bytes (future_bytes f' ++ tl) q'
}.

Section SingleLaws.
Context `{BuildConfig} {T : Type} `{DcoLaws T}.

Lemma writes_capacity s0 t im s t' im' s' :
  writes s0 t im s -> writes s0 t' im' s' -> AS.capacity s' = AS.capacity s.
Proof. by intros (_ & _ & -> & _) (_ & _ & -> & _). Qed.

Lemma writes_room s0 t im s n :
  writes s0 t im s -> AS.index s + n <= AS.capacity s -> room n s.
Proof. intros Hw Hl. destruct (writes_ok _ _ _ _ Hw). by split_and!. Qed.

(** A changed member: its flag and its data. *)
Lemma memory_object s0 t im s (m : T) :
  writes s0 t im s -> dco_ok m ->
  AS.index s + (1 + zlen (dco_enc m)) <= AS.capacity s ->
  exists t' im' s1, IM.changed im true s = (Val im', s1) /\
    packobject m s1 = (Val tt, append (dco_enc m) s1) /\
    writes s0 t' im' (append (dco_enc m) s1) /\
    stream_items t' = stream_items t ++ [(true, dco_enc m)] /\
    AS.index s <= AS.index (append (dco_enc m) s1) <= AS.index s + (1 + zlen (dco_enc m)).
Proof.
  intros Hw Hm Hl.
  destruct (memory_changed s0 t im true s Hw) as (t1 & im1 & s1 & E & Hw1 & Hi & (x & ps & Ho) & Hx).
  { eapply writes_room; [exact Hw|lia]. }
  pose proof (writes_capacity _ _ _ _ _ _ _ Hw Hw1) as Hcap.
  destruct (memory_data s0 t1 im1 s1 x ps (dco_enc m) Hw1 Ho) as [Hw2 Hi2];
    [by apply dco_enc_ok|lia|].
  eexists _, im1, s1. split_and!; [done| |exact Hw2|by apply Hi2|cbn; lia|cbn; lia].
  apply dco_pack; [|done]. eapply writes_room; [exact Hw1|lia].
Qed.

Lemma single_pack (m r : T) s0 t im s :
  writes s0 t im s -> dco_ok m ->
  AS.index s + (1 + zlen (dco_enc m)) <= AS.capacity s ->
  exists t' im' s', checkandpackdiffsingle m r im s = (Val im', s') /\
    writes s0 t' im' s' /\ stream_items t' = stream_items t ++ single_items m r /\
    AS.index s <= AS.index s' <= AS.index s + (1 + zlen (dco_enc m)).
Proof.
  intros Hw Hm Hl. unfold checkandpackdiffsingle, single_items.
  destruct (dco_eqb m r).
  - destruct (memory_changed s0 t im false s Hw) as (t1 & im1 & s1 & E & Hw1 & Hi & _ & Hx).
    { eapply writes_room; [exact Hw|lia]. }
    exists t1, im1, s1. split_and!; done || lia.
  - destruct (memory_object s0 t im s m Hw Hm Hl) as (t1 & im1 & s1 & E & Ep & Hw1 & Hi & Hx).
    exists t1, im1, (append (dco_enc m) s1).
    split; [|done]. erewrite bind_val by exact E. by erewrite bind_val by exact Ep.
Qed.

Lemma single_unpack (m r r' : T) f im tl q rest :
  dco_ok m -> dco_ok r -> dco_ok r' -> dco_equiv r r' ->
  reads f im -> future_items f = single_items m r ++ rest ->
  at_bytes (future_bytes f ++ tl) q ->
  exists m' f' im' q', checkandunpackdiffsingle r' im q = (Val (m', im'), q') /\
    dco_equiv m m' /\ dco_ok m' /\ (m' = m \/ m' = r' /\ dco_eqb m r = true) /\
    reads f' im' /\ future_items f' = rest /\
    at_bytes (future_bytes f' ++ tl) q'.
Proof.
  intros Hm Hr Hr' Hrr Hre Hf Ha. unfold single_items in Hf.
  destruct (dco_eqb m r) eqn:Eq.
  - destruct (recall_changed f im false [] rest tl q Hre Hf Ha)
      as (f' & im' & q' & E & Hre' & Hf' & Ha').
    exists r', f', im', q'. split_and!; try done.
    + unfold checkandunpackdiffsingle. by erewrite (bind_val (IR.changed im)) by exact E.
    + apply (dco_trans m r r'); [by apply dco_eqb_equiv|done].
    + by right.
  - destruct (recall_changed f im true (dco_enc m) rest tl q Hre Hf Ha)
      as (f' & im' & q1 & E & Hre' & Hf' & Ha1).
    destruct (dco_unpack r' m _ q1 Ha1 Hr' Hm) as (q' & E' & Ha').
    exists m, f', im', q'. split_and!; try done; [|by apply dco_refl|by left].
    unfold checkandunpackdiffsingle.
    erewrite (bind_val (IR.changed im)) by exact E. cbv beta iota.
    by erewrite bind_val by exact E'.
Qed.

Lemma single_items_nonempty (m r : T) : single_items m r <> [].
Proof. unfold single_items. by destruct (dco_eqb m r). Qed.

Lemma complete_pack (m r : T) im :
  checkandpackdiff_complete m r im = checkandpackdiffsingle m r im.
Proof.
  unfold checkandpackdiff_complete, checkandpackdiffsingle. by destruct (dco_eqb m r).
Qed.

End SingleLaws.

Section SingleInstances.
Context `{BuildConfig} {T : Type} `{DcoLaws T}.

#[export] Instance stdlist_diff_laws : DiffLaws (stdlist T).
Proof.
  split; cbn [dp_items dp_ok dp_equiv dp_sync dp_cost checkandpackdiff
    checkandunpackdiff stdlist_diff].
  - intros m r its ->. apply single_items_nonempty.
  - intros m r s0 t im s Hw Hm Hr Hl. exists (single_items m r).
    rewrite complete_pack.
    destruct (single_pack m r s0 t im s Hw Hm Hl) as (t' & im' & s' & ? & ? & ? & ?).
    by exists t', im', s'.
  - intros m r r' its f im tl q rest -> Hm Hr Hr' Hs Hre Hf Ha.
    destruct (single_unpack m r r' f im tl q rest)
      as (m' & f' & im' & q' & ? & ? & ? & _ & ? & ? & ?); try done.
    by exists m', f', im', q'.
Qed.

#[export] Instance scalar_diff_laws t :
  (forall n, t = Cchars n -> 0 <= n < 4294967296) -> DiffLaws (scalar t).
Proof.
  intros Ht. pose proof (scalar_laws t Ht).
  split; cbn [dp_items dp_ok dp_equiv dp_sync dp_cost checkandpackdiff
    checkandunpackdiff scalar_diff].
  - intros m r its ->. apply single_items_nonempty.
  - intros m r s0 t' im s Hw Hm Hr Hl. exists (single_items m r).
    destruct (single_pack m r s0 t' im s Hw Hm Hl) as (t1 & im' & s' & ? & ? & ? & ?).
    by exists t1, im', s'.
  - intros m r r' its f im tl q rest -> Hm Hr Hr' Hs Hre Hf Ha.
    destruct (single_unpack m r r' f im tl q rest)
      as (m' & f' & im' & q' & ? & ? & ? & _ & ? & ? & ?); try done.
    by exists m', f', im', q'.
Qed.
End SingleInstances.

(** ** Arrays: a nested stream of flags *)

Section ArrayPack.
Context `{BuildConfig} {T : Type} `{DcoLaws T}.

Definition same_items (n : nat) : list item := replicate n (false, []).

Lemma same_run n : run_items (false, replicate n []) = same_items n.
Proof. unfold run_items, same_items. cbn. by rewrite fmap_replicate. Qed.

Lemma join_replicate_nil n : mjoin (replicate n (@nil Z)) = [].
Proof. induction n; done. Qed.

Lemma run_wf_same n : (1 <= n <= 128)%nat -> run_wf (false, replicate n []).
Proof.
  intros. split; cbn; [by rewrite length_replicate|].
  rewrite join_replicate_nil. constructor.
Qed.

Lemma run_enc_same n : run_enc (false, replicate n []) = [flag_of false n].
Proof. unfold run_enc. cbn. by rewrite length_replicate, join_replicate_nil. Qed.

Lemma uint8_pack z s :
  room 1 s -> is_u8 z -> AS.packData_uint8 z s = (Val tt, append [z] s).
Proof.
  intros (Hs & Hc & Hl) Hz. pose proof (pack_ok_run (Vnum Cuint8 z) s Hs) as E.
  cbn [packData packData_num] in E. rewrite E by done.
  unfold encoding, be_bytes. cbn. by rewrite Z.mod_small.
Qed.

(** The flags for [n] unchanged elements in front of the first change. *)
Lemma same_flags n : forall fuel cl s,
  (n <= fuel)%nat -> (1 <= n)%nat -> as_ok s -> AS.choked s = false ->
  Forall run_wf cl -> AS.index s + zlen (runs_enc cl) + Z.of_nat n <= AS.capacity s ->
  exists cl', (m ← IM.skip_flags fuel (Z.of_nat n); AS.packData_uint8 (u8 (m - 1)))
                (append (runs_enc cl) s)
              = (Val tt, append (runs_enc (cl ++ cl')) s) /\
    Forall run_wf cl' /\ runs_items cl' = same_items n /\
    zlen (runs_enc cl') <= Z.of_nat n.
Proof.
  induction n as [n IH] using lt_wf_ind. intros fuel cl s Hf Hn Hs Hc Hcl Hl.
  pose proof Hs as []. assert (room 1 (append (runs_enc cl) s)) as Hr.
  { split_and!; [apply append_ok; [done|by apply runs_enc_ok|lia]|done|cbn; lia]. }
  assert (forall k, (1 <= k <= 128)%nat -> append [flag_of false k] (append (runs_enc cl) s)
    = append (runs_enc (cl ++ [(false, replicate k [])])) s) as Ha.
  { intros k Hk. rewrite runs_enc_app, runs_enc_one, run_enc_same.
    apply append_append; [done|]. rewrite length_app. cbn [length]. lia. }
  destruct (decide (128 < n)%nat) as [Hlt|Hge].
  - destruct fuel as [|fuel]; [lia|]. cbn [IM.skip_flags].
    rewrite (proj2 (Z.ltb_lt _ _)) by lia.
    pose proof (uint8_pack 127 _ Hr ltac:(done)) as E.
    change 127 with (flag_of false 128) in E at 2. rewrite Ha in E by lia.
    destruct (IH (n - 128)%nat ltac:(lia) fuel (cl ++ [(false, replicate 128 [])]) s)
      as (cl' & E' & Hw & Hi & Hz); try lia; try done.
    { apply Forall_app. split; [done|]. constructor; [|done]. apply run_wf_same. lia. }
    { rewrite runs_enc_app, runs_enc_one, run_enc_same, length_app. cbn [length]. lia. }
    exists ((false, replicate 128 []) :: cl'). split_and!.
    + unfold mbind, M_bind in *. rewrite E.
      replace (Z.of_nat (n - 128)) with (Z.of_nat n - 128) in E' by lia.
      rewrite E'. by rewrite <- app_assoc.
    + constructor; [|done]. apply run_wf_same. lia.
    + change (run_items (false, replicate 128 []) ++ runs_items cl' = same_items n).
      rewrite Hi, same_run. unfold same_items. rewrite <- replicate_add. f_equal. lia.
    + change (zlen (run_enc (false, replicate 128 []) ++ runs_enc cl') <= Z.of_nat n).
      rewrite run_enc_same, length_app. cbn [length]. lia.
  - exists [(false, replicate n [])].
    assert (IM.skip_flags fuel (Z.of_nat n) = mret (Z.of_nat n)) as ->.
    { destruct fuel; cbn [IM.skip_flags]; by rewrite (proj2 (Z.ltb_ge _ _)) by lia. }
    rewrite mret_bind. split_and!.
    + replace (u8 (Z.of_nat n - 1)) with (flag_of false n)
        by (unfold flag_of; rewrite u8_id by (unfold is_u8; lia); lia).
      rewrite uint8_pack; [by rewrite Ha by lia|done|unfold flag_of, is_u8; lia].
    + constructor; [|done]. apply run_wf_same. lia.
    + by rewrite runs_items_one, same_run.
    + rewrite runs_enc_one, run_enc_same. cbn. lia.
Qed.

Lemma firstchange_run s n :
  room (Z.of_nat n + 1) s ->
  exists t im s', IM.firstchange (Z.of_nat n) s = (Val im, s') /\ writes s t im s' /\
    stream_items t = same_items n ++ [(true, [])] /\
    (exists x ps, sopen t = Some (x, ps ++ [[]])) /\
    AS.index s <= AS.index s' <= AS.index s + (Z.of_nat n + 1).
Proof.
  intros (Hs & Hc & Hl). unfold IM.firstchange.
  assert (exists cl, (if negb (Z.of_nat n =? 0)
      then m ← IM.skip_flags (Z.to_nat (Z.of_nat n)) (Z.of_nat n);
           AS.packData_uint8 (u8 (m - 1))
      else mret tt) s = (Val tt, append (runs_enc cl) s) /\
    Forall run_wf cl /\ runs_items cl = same_items n /\
    zlen (runs_enc cl) <= Z.of_nat n) as (cl & E & Hw & Hi & Hz).
  { destruct n as [|n].
    - exists []. cbn. by rewrite append_nil.
    - destruct (same_flags (S n) (Z.to_nat (Z.of_nat (S n))) [] s) as (cl & E & ?);
        try done; try lia; [cbn; lia|].
      exists cl. cbn [app] in E. change (runs_enc []) with (@nil Z) in E.
      rewrite append_nil in E. split; [exact E|done]. }
  destruct (open_run s cl true) as (i & E' & Hw'); [done|done|done|lia|].
  eexists _, _, _. split; [|split; [exact Hw'|split_and!]].
  - erewrite bind_val by exact E. by erewrite bind_val by exact E'.
  - rewrite stream_items_open, Hi. done.
  - by exists true, [].
  - cbn. lia.
  - cbn. lia.
Qed.

Lemma els_cost_cons (x : T) m : els_cost (x :: m) = 1 + zlen (dco_enc x) + els_cost m.
Proof. done. Qed.
Lemma els_cost_pos (m : list T) : 1 <= els_cost m.
Proof. induction m; [done|]. rewrite els_cost_cons. lia. Qed.

(** The data behind the last flag. *)
Lemma write_data s0 t im s x ps its (m : T) :
  writes s0 t im s -> sopen t = Some (x, ps ++ [[]]) -> dco_ok m ->
  stream_items t = its ++ [(true, [])] ->
  AS.index s + zlen (dco_enc m) <= AS.capacity s ->
  exists t', packobject m s = (Val tt, append (dco_enc m) s) /\
    writes s0 t' im (append (dco_enc m) s) /\
    stream_items t' = its ++ [(true, dco_enc m)].
Proof.
  intros Hw Ho Hm Hi Hl.
  destruct (memory_data s0 t im s x ps (dco_enc m) Hw Ho) as [Hw2 Hi2];
    [by apply dco_enc_ok|lia|].
  eexists. split_and!; [|exact Hw2|by apply Hi2].
  apply dco_pack; [|done]. eapply writes_room; [exact Hw|lia].
Qed.

(** After the first difference: every element adds its flag and data. *)
Lemma pack_elements_rest (m : list T) : forall r ii im arr s1 t s,
  writes s1 t arr s -> Forall dco_ok m -> AS.index s + els_cost m <= AS.capacity s + 1 ->
  exists t' arr' s', pack_diff_elements m r ii false im arr s = (Val (false, im, arr'), s') /\
    writes s1 t' arr' s' /\ stream_items t' = stream_items t ++ els_items m r /\
    AS.index s <= AS.index s' <= AS.index s + els_cost m - 1.
Proof.
  induction m as [|x m IH]; intros r ii im arr s1 t s Hw Hm Hl.
  - exists t, arr, s. cbn. rewrite app_nil_r. split_and!; done || lia.
  - apply Forall_cons_1 in Hm as [Hx Hm]. rewrite els_cost_cons in *.
    pose proof (els_cost_pos m). cbn [pack_diff_elements els_items].
    destruct (match r with [] => true | y :: _ => _ end).
    + destruct (memory_object s1 t arr s x Hw Hx)
        as (t1 & arr1 & s2 & E & Ep & Hw1 & Hi & Hb); [lia|].
      pose proof (writes_capacity _ _ _ _ _ _ _ Hw Hw1).
      destruct (IH (tail r) (ii + 1) im arr1 s1 t1 _ Hw1 Hm)
        as (t' & arr' & s' & E' & Hw' & Hi' & Hb'); [lia|].
      exists t', arr', s'. split_and!; [|done| |lia|lia].
      * erewrite bind_val; [|erewrite bind_val by exact E; reflexivity].
        cbv beta iota. by erewrite bind_val by exact Ep.
      * by rewrite Hi', Hi, <- app_assoc.
    + destruct (memory_changed s1 t arr false s Hw) as (t1 & arr1 & s2 & E & Hw1 & Hi & _ & Hb).
      { eapply writes_room; [exact Hw|lia]. }
      pose proof (writes_capacity _ _ _ _ _ _ _ Hw Hw1).
      destruct (IH (tail r) (ii + 1) im arr1 s1 t1 _ Hw1 Hm)
        as (t' & arr' & s' & E' & Hw' & Hi' & Hb'); [lia|].
      exists t', arr', s'. split_and!; [|done| |lia|lia].
      * cbn [negb]. by erewrite bind_val by exact E.
      * by rewrite Hi', Hi, <- app_assoc.
Qed.
End ArrayPack.

Section ArrayLaws.
Context `{BuildConfig} {T : Type} `{DcoLaws T}.

Definition all_same (its : list item) : bool := forallb (fun x : item => negb x.1) its.

(** The loop up to and with the first difference. *)
Lemma pack_elements_first (m : list T) : forall r n im arr s0 t s,
  writes s0 t im s -> Forall dco_ok m ->
  AS.index s + Z.of_nat n + els_cost m <= AS.capacity s ->
  if all_same (els_items m r)
  then pack_diff_elements m r (Z.of_nat n) true im arr s = (Val (true, im, arr), s)
  else exists t1 im1 s1 ti arr' s',
    pack_diff_elements m r (Z.of_nat n) true im arr s = (Val (false, im1, arr'), s') /\
    writes s0 t1 im1 s1 /\ stream_items t1 = stream_items t ++ [(true, [])] /\
    (exists x ps, sopen t1 = Some (x, ps ++ [[]])) /\
    writes s1 ti arr' s' /\ stream_items ti = same_items n ++ els_items m r /\
    AS.index s <= AS.index s1 /\ AS.index s1 <= AS.index s' /\
    AS.index s' <= AS.index s + Z.of_nat n + els_cost m.
Proof.
  induction m as [|x m IH]; intros r n im arr s0 t s Hw Hm Hl; [done|].
  apply Forall_cons_1 in Hm as [Hx Hm]. rewrite els_cost_cons in *.
  pose proof (els_cost_pos m). cbn [pack_diff_elements els_items].
  destruct (match r with [] => true | y :: _ => _ end).
  - cbn [all_same forallb fst negb andb].
    destruct (memory_changed s0 t im true s Hw) as (t1 & im1 & s1 & E & Hw1 & Hi & Ho & Hb).
    { eapply writes_room; [exact Hw|lia]. }
    pose proof (writes_capacity _ _ _ _ _ _ _ Hw Hw1).
    destruct (firstchange_run s1 n) as (ti & ai & s2 & E2 & Hwi & Hii & (y & ps & Hoi) & Hbi).
    { eapply writes_room; [exact Hw1|lia]. }
    assert (AS.capacity s2 = AS.capacity s1) as Hcap2 by (by destruct Hwi as (_ & _ & -> & _)).
    destruct (write_data s1 ti ai s2 y ps _ x Hwi Hoi Hx Hii) as (t3 & E3 & Hw3 & Hi3); [lia|].
    destruct (pack_elements_rest m (tail r) (Z.of_nat n + 1) im1 ai s1 t3 _ Hw3 Hm)
      as (t' & arr' & s' & E' & Hw' & Hi' & Hb'); [cbn; lia|]. cbn in Hb'.
    exists t1, im1, s1, t', arr', s'. split_and!; try done; try lia.
    + erewrite bind_val;
        [|erewrite bind_val by exact E; erewrite bind_val by exact E2; reflexivity].
      cbv beta iota. by erewrite bind_val by exact E3.
    + by rewrite Hi', Hi3, <- app_assoc.
  - cbn [all_same forallb fst negb andb]. rewrite mret_bind.
    replace (Z.of_nat n + 1) with (Z.of_nat (S n)) by lia.
    specialize (IH (tail r) (S n) im arr s0 t s Hw Hm ltac:(lia)).
    fold (all_same (els_items m (tail r))) in *.
    destruct (all_same (els_items m (tail r))); [done|].
    destruct IH as (t1 & im1 & s1 & ti & arr' & s' & E & ? & ? & ? & ? & Hi & ? & ? & ?).
    exists t1, im1, s1, ti, arr', s'. split_and!; try done; try lia.
    rewrite Hi. unfold same_items. rewrite replicate_S_end, <- app_assoc. done.
Qed.

Lemma writes_open s0 t im s :
  writes s0 t im s -> stream_items t <> [] -> exists x, sopen t = Some x.
Proof.
  intros (_ & _ & _ & _ & _ & Ho) Hn. destruct t as [cl [x|]]; [by exists x|].
  destruct Ho as [Ec _]. cbn in Ec. by subst cl.
Qed.

Lemma fixedsize_pack (m r : list T) s0 t im s :
  writes s0 t im s -> Forall dco_ok m ->
  AS.index s + (1 + els_cost m) <= AS.capacity s ->
  exists its t' im' s', checkandpackdiff_fixedsize m r im s = (Val im', s') /\
    writes s0 t' im' s' /\ array_items m r its /\
    stream_items t' = stream_items t ++ its /\
    AS.index s <= AS.index s' <= AS.index s + (1 + els_cost m).
Proof.
  intros Hw Hm Hl. pose proof (els_cost_pos m).
  pose proof (pack_elements_first m r 0 im IM.make s0 t s Hw Hm ltac:(lia)) as Hf.
  unfold checkandpackdiff_fixedsize, array_items. fold (all_same (els_items m r)).
  change (Z.of_nat 0) with 0 in Hf. destruct (all_same (els_items m r)) eqn:Es.
  - destruct (memory_changed s0 t im false s Hw) as (t1 & im1 & s1 & E & Hw1 & Hi & _ & Hb).
    { eapply writes_room; [exact Hw|lia]. }
    exists [(false, [])], t1, im1, s1. split_and!; try done; try lia.
    by erewrite bind_val by exact Hf.
  - destruct Hf as (t1 & im1 & s1 & ti & arr & s2 & E & Hw1 & Hi1 & (y & ps & Ho1) & Hwi & Hii & Hb).
    destruct (writes_open _ _ _ _ Hwi) as (x & Hx).
    { rewrite Hii. cbn. intros E0. by rewrite E0 in Es. }
    pose proof (closeoff_run s1 ti x arr s2 Hwi Hx) as Ec.
    set (l := sclosed ti ++ [x]) in *.
    assert (Forall run_wf l) as Hwf.
    { destruct Hwi as (_ & _ & _ & _ & Hcl & Hop). rewrite Hx in Hop.
      apply Forall_app. split; [done|]. constructor; [tauto|constructor]. }
    assert (zlen (runs_enc l) = AS.index s2 - AS.index s1) as Hlen.
    { destruct Hwi as (_ & _ & -> & _). unfold l, stream_bytes. rewrite Hx. cbn.
      rewrite runs_enc_app, runs_enc_one, !length_app. cbn. lia. }
    assert (AS.capacity s1 = AS.capacity s) as Hcap by (by eapply writes_capacity).
    destruct (memory_data s0 t1 im1 s1 y ps (runs_enc l) Hw1 Ho1) as [Hw2 Hi2];
      [by apply runs_enc_ok|lia|].
    eexists [(true, runs_enc l)], _, im1, _. split_and!; [|exact Hw2| | | |].
    + erewrite bind_val by exact E. cbv beta iota. by erewrite bind_val by exact Ec.
    + exists l. split_and!; [done| |done]. unfold stream_items in Hii.
      rewrite Hx in Hii. exact Hii.
    + by apply Hi2.
    + cbn. lia.
    + cbn. lia.
Qed.

(** The receiver's elements against the sender's reference. *)
Fixpoint aligned (m r z : list T) : Prop :=
  match m, z with
  | [], [] => True
  | x :: m, z0 :: z =>
      dco_ok z0 /\ match r with [] => True | y :: _ => dco_ok y /\ dco_equiv y z0 end /\
      aligned m (tail r) z
  | _, _ => False
  end.

Lemma unpack_elements_diff (m : list T) : forall r z f im tl q,
  aligned m r z -> Forall dco_ok m ->
  reads f im -> future_items f = els_items m r ->
  at_bytes (future_bytes f ++ tl) q ->
  exists l im' q' f', unpack_diff_elements z im q = (Val l, q') /\ reads f' im' /\
    Forall2 dco_equiv m l /\ Forall dco_ok l /\ future_items f' = [] /\
    at_bytes (future_bytes f' ++ tl) q'.
Proof.
  induction m as [|x m IH]; intros r [|z0 z] f im tl q Ha Hm Hre Hf Hq; try done.
  - by exists [], im, q, f.
  - destruct Ha as (Hz & Hy & Ha). apply Forall_cons_1 in Hm as [Hx Hm].
    cbn [els_items unpack_diff_elements] in *.
    destruct (match r with [] => true | y :: _ => _ end) eqn:Ed.
    + destruct (recall_changed f im true _ _ tl q Hre Hf Hq)
        as (f1 & im1 & q1 & E1 & Hre1 & Hf1 & Hq1).
      destruct (dco_unpack z0 x _ q1 Hq1 Hz Hx) as (q2 & E2 & Hq2).
      destruct (IH (tail r) z f1 im1 tl q2 Ha Hm Hre1 Hf1 Hq2)
        as (l & im' & q' & f' & E & ? & ? & ? & ? & ?).
      exists (x :: l), im', q', f'. split_and!; try done.
      * erewrite bind_val by exact E1. cbv beta iota. erewrite bind_val by exact E2.
        by erewrite bind_val by exact E.
      * constructor; [by apply dco_refl|done].
      * by constructor.
    + destruct r as [|y r]; [done|]. apply negb_false_iff in Ed. destruct Hy as [Hy Hyz].
      destruct (recall_changed f im false _ _ tl q Hre Hf Hq)
        as (f1 & im1 & q1 & E1 & Hre1 & Hf1 & Hq1).
      destruct (IH r z f1 im1 tl q1 Ha Hm Hre1 Hf1 Hq1)
        as (l & im' & q' & f' & E & ? & ? & ? & ? & ?).
      exists (z0 :: l), im', q', f'. split_and!; try done.
      * erewrite bind_val by exact E1. cbv beta iota. rewrite mret_bind.
        by erewrite bind_val by exact E.
      * constructor; [|done]. apply (dco_trans x y z0); [by apply dco_eqb_equiv|done].
      * by constructor.
Qed.

Lemma all_same_equiv (m : list T) : forall r z,
  aligned m r z -> Forall dco_ok m -> all_same (els_items m r) = true ->
  Forall2 dco_equiv m z /\ Forall dco_ok z.
Proof.
  induction m as [|x m IH]; intros r [|z0 z] Ha Hm Hs; try done.
  destruct Ha as (Hz & Hy & Ha). apply Forall_cons_1 in Hm as [Hx Hm].
  cbn [els_items] in Hs. destruct r as [|y r]; [done|].
  destruct (dco_eqb x y) eqn:E; [|done]. destruct Hy as [Hy Hyz].
  destruct (IH r z Ha Hm Hs) as [??]. split; constructor; try done.
  apply (dco_trans x y z0); [by apply dco_eqb_equiv|done].
Qed.

(** A reader of exactly these runs. *)
Lemma nothing_left f : future_items f = [] -> Forall run_wf (fruns f) -> future_bytes f = [].
Proof.
  destruct f as [d cur rs]. unfold future_items, future_bytes. cbn [fdiff fcur fruns].
  intros E Hw. destruct cur as [|]; [|done]. destruct Hw as [|[d' ps] rs [Hl _] _]; [done|].
  destruct ps; [cbn in Hl; lia|done].
Qed.

Lemma fixedsize_unpack (m r z : list T) its f im tl q rest :
  array_items m r its -> aligned m r z -> Forall dco_ok m ->
  reads f im -> future_items f = its ++ rest -> at_bytes (future_bytes f ++ tl) q ->
  exists l f' im' q', checkandunpackdiff_fixedsize z im q = (Val (l, im'), q') /\
    Forall2 dco_equiv m l /\ Forall dco_ok l /\ reads f' im' /\
    future_items f' = rest /\ at_bytes (future_bytes f' ++ tl) q'.
Proof.
  intros Hits Ha Hm Hre Hf Hq. unfold array_items in Hits. fold (all_same (els_items m r)) in Hits.
  unfold checkandunpackdiff_fixedsize. destruct (all_same (els_items m r)) eqn:Es.
  - subst its. destruct (recall_changed f im false [] rest tl q Hre Hf Hq)
      as (f1 & im1 & q1 & E1 & Hre1 & Hf1 & Hq1).
    destruct (all_same_equiv m r z Ha Hm Es). exists z, f1, im1, q1.
    split_and!; try done. by erewrite bind_val by exact E1.
  - destruct Hits as (l & Hwf & Hl & ->).
    destruct (recall_changed f im true _ rest tl q Hre Hf Hq)
      as (f1 & im1 & q1 & E1 & Hre1 & Hf1 & Hq1).
    destruct (unpack_elements_diff m r z (mkFuture false [] l) IR.make
      (future_bytes f1 ++ tl) q1) as (l' & im' & q' & f' & E & [_ [_ Hw']] & ? & ? & Hf' & Hq');
      try done.
    exists l', f1, im1, q'. split_and!; try done.
    + erewrite bind_val by exact E1. cbv beta iota. by erewrite bind_val by exact E.
    + by rewrite (nothing_left f') in Hq'.
Qed.
End ArrayLaws.

Section ContainerInstances.
Context `{BuildConfig} {T : Type} `{DcoLaws T}.

Lemma equiv_length (a b : list T) : Forall2 dco_equiv a b -> length a = length b.
Proof. by apply Forall2_length. Qed.

Lemma array_items_nonempty (m r : list T) its : array_items m r its -> its <> [].
Proof. unfold array_items. destruct (forallb _ _); [by intros ->|by intros (l & _ & _ & ->)]. Qed.

(** Objects of the same size: the reference and what the receiver has. *)
Lemma aligned_equiv (m : list T) : forall r z,
  length m = length r -> Forall2 dco_equiv r z -> Forall dco_ok r -> Forall dco_ok z ->
  aligned m r z.
Proof.
  induction m as [|x m IH]; intros r z Hl H2 Hr Hz;
    destruct H2 as [|y z0 r z Hy H2]; try done.
  apply Forall_cons_1 in Hr as [? Hr]. apply Forall_cons_1 in Hz as [? Hz].
  cbn. split_and!; try done. apply IH; try done. by injection Hl.
Qed.

(** The receiver's vector after taking the sender's size. *)
Lemma aligned_resize (m : list T) : forall r z,
  Forall2 dco_equiv r z -> Forall dco_ok r -> Forall dco_ok z ->
  aligned m r (resized (length m) dco_default z).
Proof.
  induction m as [|x m IH]; intros r z H2 Hr Hz.
  - destruct H2; done.
  - destruct H2 as [|y z0 r z Hy H2].
    + pose proof (IH [] [] ltac:(constructor) ltac:(constructor) ltac:(constructor)) as Ha.
      unfold resized in *. cbn in *. rewrite take_nil, Nat.sub_0_r in Ha. cbn in Ha.
      split_and!; [apply dco_default_ok|done|done].
    + apply Forall_cons_1 in Hr as [? Hr]. apply Forall_cons_1 in Hz as [? Hz].
      unfold resized. cbn. split_and!; try done. by apply IH.
Qed.

#[export] Instance array_diff_laws n : DiffLaws (array n T).
Proof.
  split; cbn [dp_items dp_ok dp_equiv dp_sync dp_cost checkandpackdiff
    checkandunpackdiff array_diff dco_ok dco_equiv array_object].
  - intros m r its. apply array_items_nonempty.
  - intros m r s0 t im s Hw [_ Hm] [_ Hr] Hl. by apply fixedsize_pack.
  - intros m r r' its f im tl q rest Hi [Hm1 Hm] [Hr1 Hr] [_ Hr'] Hs Hre Hf Hq.
    assert (aligned (aitems m) (aitems r) (aitems r')) as Ha
      by (apply aligned_equiv; congruence || done).
    destruct (fixedsize_unpack _ _ _ _ f im tl q rest Hi Ha Hm Hre Hf Hq)
      as (l & f' & im' & q' & E & He & Ho & ? & ? & ?).
    exists (Array l), f', im', q'. split_and!; try done.
    + by erewrite bind_val by exact E.
    + cbn. by erewrite <- Forall2_length by exact He.
Qed.

#[export] Instance size_laws : DcoLaws (scalar Cuint32).
Proof. by apply scalar_laws. Qed.

#[export] Instance bool_laws : DcoLaws (scalar Cbool).
Proof. by apply scalar_laws. Qed.

Lemma size_of_ok (l : list T) : dco_ok (size_of l).
Proof. split_and!; [done|apply u32_range|done]. Qed.

Lemma size_of_equiv (r z : list T) : Forall2 dco_equiv r z -> dco_equiv (size_of r) (size_of z).
Proof.
  intros H2. unfold size_of. rewrite (equiv_length _ _ H2).
  apply dco_refl, size_of_ok.
Qed.

#[export] Instance vec_diff_laws : DiffLaws (vec T).
Proof.
  split; cbn [dp_items dp_ok dp_equiv dp_sync dp_cost checkandpackdiff
    checkandunpackdiff vec_diff dco_ok dco_equiv vec_object].
  - intros m r its (its' & -> & _) E. by apply app_eq_nil in E as [E%single_items_nonempty _].
  - intros m r s0 t im s Hw [Hm1 Hm] [Hr1 Hr] Hl.
    pose proof (els_cost_pos (vitems m)).
    destruct (single_pack (size_of (vitems m)) (size_of (vitems r)) s0 t im s Hw)
      as (t1 & im1 & s1 & E1 & Hw1 & Hi1 & Hb1); [apply size_of_ok|cbn; lia|].
    pose proof (writes_capacity _ _ _ _ _ _ _ Hw Hw1). cbn in Hb1.
    destruct (fixedsize_pack (vitems m) (vitems r) s0 t1 im1 s1 Hw1 Hm)
      as (its & t2 & im2 & s2 & E2 & Hw2 & Hits & Hi2 & Hb2); [lia|].
    eexists _, t2, im2, s2. split_and!; [|done|by exists its| |lia|lia].
    + unfold checkandpackdiff_vector. by erewrite bind_val by exact E1.
    + by rewrite Hi2, Hi1, <- app_assoc.
  - intros m r r' its f im tl q rest (its' & -> & Hits) [Hm1 Hm] [Hr1 Hr] [Hr1' Hr'] Hs Hre Hf Hq.
    rewrite <- app_assoc in Hf.
    destruct (single_unpack (size_of (vitems m)) (size_of (vitems r)) (size_of (vitems r'))
      f im tl q _ (size_of_ok _) (size_of_ok _) (size_of_ok _) (size_of_equiv _ _ Hs) Hre Hf Hq)
      as (ms & f1 & im1 & q1 & E1 & _ & _ & Hms & Hre1 & Hf1 & Hq1).
    assert (size_value ms = zlen (vitems m)) as Hsz.
    { unfold size_value. destruct Hms as [->|[-> Heq]]; cbn.
      - apply u32_id. unfold is_u32. lia.
      - cbn in Heq. apply Z.eqb_eq in Heq. rewrite <- (equiv_length _ _ Hs), <- Heq.
        apply u32_id. unfold is_u32. lia. }
    assert (aligned (vitems m) (vitems r)
      (if size_value ms =? zlen (vitems r') then vitems r'
       else resized (Z.to_nat (size_value ms)) dco_default (vitems r'))) as Ha.
    { rewrite Hsz. destruct (Z.eqb_spec (zlen (vitems m)) (zlen (vitems r'))) as [El|].
      - pose proof (equiv_length _ _ Hs). apply aligned_equiv; try done. lia.
      - rewrite Nat2Z.id. by apply aligned_resize. }
    destruct (fixedsize_unpack _ _ _ _ f1 im1 tl q1 rest Hits Ha Hm Hre1 Hf1 Hq1)
      as (l & f' & im' & q' & E & He & Ho & ? & ? & ?).
    exists (Vec l), f', im', q'. split_and!; try done.
    + rewrite (bind_val _ _ _ (l, im') q'); [done|].
      unfold checkandunpackdiff_vector.
      erewrite bind_val by exact E1. cbv beta iota. exact E.
    + cbn. by erewrite <- Forall2_length by exact He.
Qed.
End ContainerInstances.

Section ObjectInstances.
Context `{BuildConfig} {D : Type} `{!DiffPack D} `{!DiffLaws D}.
Context {E : Type} `{!DiffPack E} `{!DiffLaws E}.

Lemma bool_of_ok b : dco_ok (bool_of b).
Proof. by split_and!. Qed.

#[export] Instance optional_diff_laws : DiffLaws (fix_optional D).
Proof.
  split; cbn [dp_items dp_ok dp_equiv dp_sync dp_cost checkandpackdiff
    checkandunpackdiff optional_diff].
  - intros m r its (its' & -> & _) E0. by apply app_eq_nil in E0 as [E0%single_items_nonempty _].
  - intros m r s0 t im s Hw Hm Hr Hl.
    destruct (single_pack (bool_of (valid m)) (bool_of (valid r)) s0 t im s Hw)
      as (t1 & im1 & s1 & E1 & Hw1 & Hi1 & Hb1); [apply bool_of_ok|cbn; lia|].
    pose proof (writes_capacity _ _ _ _ _ _ _ Hw Hw1). cbn in Hb1.
    unfold checkandpackdiff_optional. destruct (valid m) eqn:Ev.
    + destruct (dp_pack (value m) (value r) s0 t1 im1 s1 Hw1 Hm Hr)
        as (its & t2 & im2 & s2 & E2 & Hw2 & Hits & Hi2 & Hb2); [lia|].
      eexists _, t2, im2, s2. split_and!; [|done|by exists its| |lia|lia].
      * by erewrite bind_val by exact E1.
      * by rewrite Hi2, Hi1, <- app_assoc.
    + eexists _, t1, im1, s1. split_and!; [|done|by exists []| |lia|lia].
      * by erewrite bind_val by exact E1.
      * by rewrite app_nil_r.
  - intros m r r' its f im tl q rest (its' & -> & Hits) Hm Hr Hr' [Hsv Hs] Hre Hf Hq.
    rewrite <- app_assoc in Hf.
    assert (dco_equiv (bool_of (valid r)) (bool_of (valid r'))) as Hb.
    { rewrite Hsv. apply dco_refl, bool_of_ok. }
    destruct (single_unpack (bool_of (valid m)) (bool_of (valid r)) (bool_of (valid r'))
      f im tl q _ (bool_of_ok _) (bool_of_ok _) (bool_of_ok _) Hb Hre Hf Hq)
      as (v & f1 & im1 & q1 & E1 & _ & _ & Hv & Hre1 & Hf1 & Hq1).
    assert (bool_value v = valid m) as Hbv.
    { destruct Hv as [->|[-> Heq]]; [done|]. cbn in Heq |- *. apply eqb_prop in Heq. congruence. }
    unfold checkandunpackdiff_optional. rewrite (bind_val _ _ _ (v, im1) q1) by exact E1.
    cbv beta iota. rewrite Hbv. destruct (valid m) eqn:Ev.
    + destruct (dp_unpack (value m) (value r) (value r') its' f1 im1 tl q1 rest)
        as (x & f2 & im2 & q2 & E2 & ? & ? & ? & ? & ?); try done.
      exists (Optional true x), f2, im2, q2. split_and!; try done.
      by rewrite (bind_val _ _ _ (x, im2) q2) by exact E2.
    + subst its'. exists (Optional false (value r')), f1, im1, q1. by split_and!.
Qed.

#[export] Instance members_diff_laws : DiffLaws (D * E).
Proof.
  split; cbn [dp_items dp_ok dp_equiv dp_sync dp_cost checkandpackdiff
    checkandunpackdiff members_diff].
  - intros m r its (a & b & -> & Ha & _) E0. apply app_eq_nil in E0 as [E0 _].
    by apply (dp_nonempty m.1 r.1 a).
  - intros m r s0 t im s Hw [Hm1 Hm2] [Hr1 Hr2] Hl.
    destruct (dp_pack m.1 r.1 s0 t im s Hw Hm1 Hr1)
      as (a & t1 & im1 & s1 & E1 & Hw1 & Ha & Hi1 & Hb1); [lia|].
    pose proof (writes_capacity _ _ _ _ _ _ _ Hw Hw1).
    destruct (dp_pack m.2 r.2 s0 t1 im1 s1 Hw1 Hm2 Hr2)
      as (b & t2 & im2 & s2 & E2 & Hw2 & Hb & Hi2 & Hb2); [lia|].
    exists (a ++ b), t2, im2, s2. split_and!; [|done|by exists a, b| |lia|lia].
    + by erewrite bind_val by exact E1.
    + by rewrite Hi2, Hi1, <- app_assoc.
  - intros m r r' its f im tl q rest (a & b & -> & Ha & Hb) [Hm1 Hm2] [Hr1 Hr2]
      [Hr1' Hr2'] [Hs1 Hs2] Hre Hf Hq.
    rewrite <- app_assoc in Hf.
    destruct (dp_unpack m.1 r.1 r'.1 a f im tl q (b ++ rest))
      as (x & f1 & im1 & q1 & E1 & ? & ? & Hre1 & Hf1 & Hq1); try done.
    destruct (dp_unpack m.2 r.2 r'.2 b f1 im1 tl q1 rest)
      as (y & f2 & im2 & q2 & E2 & ? & ? & ? & ? & ?); try done.
    exists (x, y), f2, im2, q2. split_and!; try done.
    rewrite (bind_val _ _ _ (x, im1) q1) by exact E1. cbv beta iota.
    by rewrite (bind_val _ _ _ (y, im2) q2) by exact E2.
Qed.

(** A packet: the bytes one [packDataDiff] writes. *)
Lemma packDataDiff_run (m r : D) s :
  dp_ok m -> dp_ok r -> room (dp_cost m r) s ->
  exists l its, packDataDiff m r s = (Val tt, append (runs_enc l) s) /\
    Forall run_wf l /\ runs_items l = its /\ dp_items m r its /\
    zlen (runs_enc l) <= dp_cost m r.
Proof.
  intros Hm Hr (Hs & Hc & Hl).
  assert (writes s (mkStream [] None) IM.make s) as Hw.
  { unfold writes, stream_bytes. cbn. rewrite append_nil. destruct Hs. split_and!; try done; lia. }
  destruct (dp_pack m r s _ IM.make s Hw Hm Hr Hl)
    as (its & t & im & s' & E0 & Hw' & Hits & Hi & Hb). cbn in Hi.
  destruct (writes_open _ _ _ _ Hw') as (x & Hx).
  { rewrite Hi. exact (dp_nonempty _ _ _ Hits). }
  exists (sclosed t ++ [x]), its. split_and!.
  - unfold packDataDiff. rewrite (bind_val _ _ _ im s') by exact E0.
    exact (closeoff_run _ _ _ _ _ Hw' Hx).
  - destruct Hw' as (_ & _ & _ & _ & Hcl & Ho). rewrite Hx in Ho. apply Forall_app.
    split; [done|]. constructor; [tauto|constructor].
  - unfold stream_items in Hi. by rewrite Hx in Hi.
  - done.
  - destruct Hw' as (_ & _ & -> & _). unfold stream_bytes in Hb. rewrite Hx in Hb. cbn in Hb.
    rewrite runs_enc_app, runs_enc_one, length_app in *. cbn in *. lia.
Qed.

Lemma unPackDataDiff_run (m r r' : D) l q tl :
  Forall run_wf l -> dp_items m r (runs_items l) ->
  dp_ok m -> dp_ok r -> dp_ok r' -> dp_sync r r' -> at_bytes (runs_enc l ++ tl) q ->
  exists m' q', unPackDataDiff r' q = (Val m', q') /\ dp_equiv m m' /\ dp_ok m' /\
    at_bytes tl q'.
Proof.
  intros Hwf Hits Hm Hr Hr' Hs Hq.
  destruct (dp_unpack m r r' (runs_items l) (mkFuture false [] l) IR.make tl q [])
    as (m' & f' & im' & q' & E0 & ? & ? & [_ [_ Hw']] & Hf' & Hq'); try done.
  { by rewrite app_nil_r. }
  rewrite (nothing_left f' Hf' Hw') in Hq'. exists m', q'. split_and!; try done.
  unfold unPackDataDiff. by rewrite (bind_val _ _ _ (m', im') q') by exact E0.
Qed.
End ObjectInstances.

(** ** Theorems *)

Section Transmission.
Context `{BuildConfig} {T : Type} `{!DiffPack T}.

(** One packet from a sender whose reference is [r] to a receiver that holds
    [z], through a buffer of [cap] bytes. *)
Definition transmit_one (cap : nat) (m r z : T) : outcome T :=
  match packDataDiff m r (AS.make (replicate cap 0) (Z.of_nat cap) 0) with
  | (Val _, s) => (unPackDataDiff z (ARS.make (AS.stor s) (AS.getSize s))).1
  | (Exn e, _) => Exn e
  | (Stuck f, _) => Stuck f
  end.

(** A sequence of versions, each sent as the difference with the one before. *)
Fixpoint transmit (cap : nat) (versions : list T) (r z : T) : outcome T :=
  match versions with
  | [] => Val z
  | m :: ms => z' ← transmit_one cap m r z; transmit cap ms m z'
  end.

(** Every packet fits in the buffer. *)
Fixpoint fits (cap : nat) (versions : list T) (r : T) : Prop :=
  match versions with
  | [] => True
  | m :: ms => dp_ok m /\ dp_cost m r <= Z.of_nat cap /\ fits cap ms m
  end.

Lemma transmit_one_run `{!DiffLaws T} cap m r z :
  Z.of_nat cap < 4294967296 -> dp_cost m r <= Z.of_nat cap ->
  dp_ok m -> dp_ok r -> dp_ok z -> dp_sync r z ->
  exists z', transmit_one cap m r z = Val z' /\ dp_equiv m z' /\ dp_ok z'.
Proof.
  intros Hcap Hl Hm Hr Hz Hs. unfold transmit_one.
  set (s := AS.make (replicate cap 0) (Z.of_nat cap) 0).
  assert (as_ok s) as Hs'.
  { split; cbn; rewrite ?length_replicate; try lia. by apply Forall_replicate. }
  destruct (packDataDiff_run m r s Hm Hr) as (l & its & E & Hwf & Hi & Hits & Hlen);
    [by split_and!|].
  rewrite E. subst its. pose proof (runs_enc_ok l Hwf) as Hb.
  destruct (read_back (runs_enc l) s (zlen (runs_enc l)) (zlen (runs_enc l)) Hs' Hb)
    as [Hra Hd]; [cbn; lia|done|].
  destruct (unPackDataDiff_run m r z l
    (ARS.make (AS.stor (append (runs_enc l) s)) (AS.getSize (append (runs_enc l) s))) [])
    as (z' & q' & E' & ? & ? & _); try done.
  { rewrite app_nil_r. destruct Hra as [? ? ? ?]. cbn in *. split_and!.
    - split; cbn; unfold AS.getSize; cbn; done || lia.
    - cbn. unfold AS.getSize. cbn. lia.
    - eexists. exact Hd. }
  exists z'. by rewrite E'.
Qed.

Lemma last_default (ms : list T) : forall m r, List.last (m :: ms) r = List.last ms m.
Proof.
  induction ms as [|m' ms IH]; intros m r; [done|]. change (List.last (m' :: ms) r = List.last (m' :: ms) m).
  by rewrite !IH.
Qed.

(** C2: a packet written by [packDataDiff] and read by [unPackDataDiff] on an
    object in step with the sender's reference gives an object equal to the
    one sent, for every composition of scalars, arrays, vectors, lists and
    optionals; the packet is no longer than one flag per member and element
    plus the changed data, and the reader ends behind it. *)
Theorem packDataDiff_roundtrip `{!DiffLaws T} m r z s :
  dp_ok m -> dp_ok r -> dp_ok z -> dp_sync r z ->
  as_ok s -> AS.choked s = false -> AS.index s + dp_cost m r <= AS.capacity s ->
  exists bs, packDataDiff m r s = (Val tt, append bs s) /\
    0 < zlen bs <= dp_cost m r /\
    forall q tl, at_bytes (bs ++ tl) q ->
      exists z' q', unPackDataDiff z q = (Val z', q') /\ dp_equiv m z' /\ dp_ok z' /\
        at_bytes tl q'.
Proof.
  intros Hm Hr Hz Hsy Hs Hc Hl.
  destruct (packDataDiff_run m r s Hm Hr) as (l & its & E & Hwf & <- & Hits & Hlen);
    [by split_and!|].
  exists (runs_enc l). split; [done|]. split.
  - split; [|done]. destruct l as [|[d ps] l]; [by apply dp_nonempty in Hits|].
    change (runs_enc ((d, ps) :: l)) with (run_enc (d, ps) ++ runs_enc l).
    unfold run_enc. cbn. lia.
  - intros q tl Hq. by apply (unPackDataDiff_run m r z l q tl).
Qed.

End Transmission.

(** optional members fall out of step.  The value of an invalid optional
    is not sent, but the next difference is taken against it: after the
    versions (valid, 5), (invalid, 0), (valid, 0) the receiver holds
    (valid, 5). *)
Theorem optional_out_of_step `{BuildConfig} :
  let int z : scalar Cint32 := Scalar (Vnum Cint32 z) in
  let start := Optional true (int 5) in
  let sent := Optional true (int 0) in
  transmit 100 [Optional false (int 0); sent] start start = Val (Optional true (int 5)) /\
  ~ dp_equiv sent (Optional true (int 5)).
Proof.
  cbv zeta. split.
  - destruct H as [a []]; vm_compute; reflexivity.
  - intros [_ Hv]. destruct (Hv eq_refl) as (_ & _ & _ & [E|[_ E]]).
    + discriminate.
    + by vm_compute in E.
Qed.

(** *** Examples *)

Section Examples.
#[local] Existing Instance test_config.

Abbreviation int z := (Scalar (Vnum Cint32 z) : scalar Cint32).
Definition ex_object : Type := scalar Cint32 * vec (scalar Cint32).

#[local] Instance int_laws : DcoLaws (scalar Cint32).
Proof. by apply scalar_laws. Qed.
#[local] Instance int_diff_laws : DiffLaws (scalar Cint32).
Proof. by apply scalar_diff_laws. Qed.

Definition ex_old : ex_object := (int 7, Vec [int 1; int 2; int 3]).
Definition ex_new : ex_object := (int 7, Vec [int 1; int 9; int 3; int 4]).

Lemma int_ok z : is_s32 z -> dco_ok (int z).
Proof. intros. by split_and!. Qed.
Lemma ex_old_ok : dp_ok ex_old.
Proof. split; [by apply int_ok|split; [done|repeat constructor; by apply int_ok]]. Qed.
Lemma ex_new_ok : dp_ok ex_new.
Proof. split; [by apply int_ok|split; [done|repeat constructor; by apply int_ok]]. Qed.

Lemma ex_refl (o : ex_object) : dp_ok o -> dp_sync o o.
Proof. intros [? [_ ?]]. split; [by apply dco_refl|by apply equiv_elements_refl]. Qed.

Lemma packDataDiff_roundtrip_witness :
  exists bs, packDataDiff ex_new ex_old (AS.make (replicate 100 0) 100 0)
             = (Val tt, append bs (AS.make (replicate 100 0) 100 0)) /\ 0 < zlen bs.
Proof.
  destruct (packDataDiff_roundtrip ex_new ex_old ex_old (AS.make (replicate 100 0) 100 0))
    as (bs & E & [Hb _] & _);
    [exact ex_new_ok|exact ex_old_ok|exact ex_old_ok| | |done|vm_compute; congruence|].
  - exact (ex_refl _ ex_old_ok).
  - split; cbn; try lia. by repeat constructor.
  - exists bs. split; [exact E|exact Hb].
Defined.

End Examples.
