(* ===== verification/Msgpack.v ===== *)
(** Reading MessagePack from a stream of bytes,
    [dueca/msgpack-unstream-iter.hxx] and [.ixx].

    The C++ templates take any input iterator; here an iterator is an instance
    of [ByteIterator], and the laws [IteratorLaws] are what the theorems need
    of it.  The iterator [i0] is the state of the methods, [iend] an argument.
    A [float] is its bit pattern, or the integer it is converted from. *)

From S2P Require Import Prelude Bytes Containers.
#[local] Open Scope Z_scope.

(** ** Iterators *)

Class ByteIterator (It : Type) := {
  iter_eqb : It -> It -> bool;
  deref : M It Z;
  incr : M It unit
}.

(** [unread i e l]: the bytes [l] lie between the iterators. *)
Class IteratorLaws (It : Type) `{!ByteIterator It} := {
  unread : It -> It -> list Z -> Prop;
  iter_bytes i e l : unread i e l -> bytes_ok l;
  iter_end i e : unread i e [] -> iter_eqb i e = true;
  iter_next i e b l : unread i e (b :: l) ->
    iter_eqb i e = false /\ deref i = (Val b, i) /\
    exists i', incr i = (Val tt, i') /\ unread i' e l
}.

(** A position in a string of bytes; the end is the position behind it. *)
Record string_iter := mkIter { itext : list Z; ipos : nat }.

#[export] Instance string_iterator : ByteIterator string_iter := {|
  iter_eqb i e := Nat.eqb (ipos i) (ipos e);
  deref := fun i =>
    match itext i !! ipos i with Some b => (Val b, i) | None => (Stuck OutOfBounds, i) end;
  incr := fun i =>
    if Nat.ltb (ipos i) (length (itext i)) then (Val tt, mkIter (itext i) (S (ipos i)))
    else (Stuck OutOfBounds, i)
|}.

Definition mismatch {It A} (msg : string) : M It A := throw (UnpackMismatch msg).

(** ** Integer types *)

Inductive inttype := U8 | U16 | U32 | U64 | I8 | I16 | I32 | I64.

Definition is_signed (T : inttype) : bool :=
  match T with I8 | I16 | I32 | I64 => true | _ => false end.
Definition sizeof (T : inttype) : nat :=
  match T with U8 | I8 => 1 | U16 | I16 => 2 | U32 | I32 => 4 | U64 | I64 => 8 end.
(** Conversion to the type. *)
Definition to_type (T : inttype) (z : Z) : Z :=
  match T with
  | U8 => u8 z | U16 => u16 z | U32 => u32 z | U64 => u64 z
  | I8 => s8 z | I16 => s16 z | I32 => s32 z | I64 => s64 z
  end.
Definition in_type (T : inttype) (z : Z) : Prop :=
  match T with
  | U8 => is_u8 z | U16 => is_u16 z | U32 => is_u32 z | U64 => is_u64 z
  | I8 => is_s8 z | I16 => is_s16 z | I32 => is_s32 z | I64 => is_s64 z
  end.

Section Reading.
Context `{BuildConfig} {It : Type} `{!ByteIterator It}.
Implicit Types iend : It.

Definition check_iterator_notend iend : M It unit :=
  i0 ← get;
  if iter_eqb i0 iend then mismatch "buffer too small" else mret tt.

(** [check_iterator_notend(i0, iend); x = *i0; ++i0;] *)
Definition next_byte iend : M It Z :=
  check_iterator_notend iend ;; b ← deref; incr ;; mret b.

(** The loops that fill [conv.raw], in the order of the stream. *)
Fixpoint read_raw iend (n : nat) : M It (list Z) :=
  match n with
  | O => mret []
  | S k => b ← next_byte iend; r ← read_raw iend k; mret (b :: r)
  end.
End Reading.

(** *** [process_int]

    The template's specialisations; [T] is the type on the wire. *)

Module ProcessIntGeneric.
Section P.
Context `{BuildConfig} {It : Type} `{!ByteIterator It}.
Definition positive_b7 (T : inttype) (flag : Z) : M It Z := mret (to_type T flag).
Definition negative_b5 (T : inttype) (flag : Z) : M It Z :=
  mismatch "cannot assign negative number to unsigned type".
Definition positive (T : inttype) (iend : It) : M It Z :=
  mismatch "type too small to assign 1-byte unsigned int".
Definition negative (T : inttype) (iend : It) : M It Z :=
  mismatch "cannot assign negative number or type too small".
End P.
End ProcessIntGeneric.

Module ProcessUnsignedLittle.
Section P.
Context `{BuildConfig} {It : Type} `{!ByteIterator It}.
Definition positive_b7 (T : inttype) (flag : Z) : M It Z := mret (to_type T flag).
Definition negative_b5 (T : inttype) (flag : Z) : M It Z :=
  mismatch "cannot assign negative number to unsigned type".
(** The bytes are stored from the last place down. *)
Definition positive (T : inttype) (iend : It) : M It Z :=
  raw ← read_raw iend (sizeof T);
  mret (to_type T (host_value (rev raw))).
Definition negative (T : inttype) (iend : It) : M It Z :=
  mismatch "cannot assign negative number or type too small".
End P.
End ProcessUnsignedLittle.

Module ProcessUnsignedBig.
Section P.
Context `{BuildConfig} {It : Type} `{!ByteIterator It}.
Definition positive_b7 (T : inttype) (flag : Z) : M It Z := mret (to_type T flag).
Definition negative_b5 (T : inttype) (flag : Z) : M It Z :=
  mismatch "cannot assign negative number to unsigned type".
Definition positive (T : inttype) (iend : It) : M It Z :=
  raw ← read_raw iend (sizeof T);
  mret (to_type T (host_value raw)).
End P.
End ProcessUnsignedBig.

Module ProcessSignedLittle.
Section P.
Context `{BuildConfig} {It : Type} `{!ByteIterator It}.
Definition positive_b7 (T : inttype) (flag : Z) : M It Z :=
  mret (to_type T (Z.land flag 127)).
Definition negative_b5 (T : inttype) (flag : Z) : M It Z :=
  mret (to_type T (- to_type T (Z.land flag 31))).
Definition positive (T : inttype) (iend : It) : M It Z :=
  raw ← read_raw iend (sizeof T);
  mret (to_type T (host_value (rev raw))).
Definition negative (T : inttype) (iend : It) : M It Z :=
  raw ← read_raw iend (sizeof T);
  mret (to_type T (host_value (rev raw))).
End P.
End ProcessSignedLittle.

Module ProcessSignedBig.
Section P.
Context `{BuildConfig} {It : Type} `{!ByteIterator It}.
Definition positive_b7 (T : inttype) (flag : Z) : M It Z :=
  mret (to_type T (Z.land flag 127)).
Definition negative_b5 (T : inttype) (flag : Z) : M It Z :=
  mret (to_type T (- to_type T (Z.land flag 31))).
Definition positive (T : inttype) (iend : It) : M It Z :=
  raw ← read_raw iend (sizeof T);
  mret (to_type T (host_value raw)).
Definition negative (T : inttype) (iend : It) : M It Z :=
  raw ← read_raw iend (sizeof T);
  mret (to_type T (host_value raw)).
End P.
End ProcessSignedBig.

(** [process_float], for the 4 or 8 bytes of the type. *)
Module ProcessFloat.
Section P.
Context `{BuildConfig} {It : Type} `{!ByteIterator It}.
Definition get_big (iend : It) (n : nat) : M It Z :=
  raw ← read_raw iend n; mret (host_value raw).
Definition get_little (iend : It) (n : nat) : M It Z :=
  raw ← read_raw iend n; mret (host_value (rev raw)).
Definition get (iend : It) (n : nat) : M It Z :=
  if host_little then get_little iend n else get_big iend n.
End P.
End ProcessFloat.

(** Which specialisation [process_int<is_signed, has_size, native, S, T>]
    selects.  The one for unsigned types on big endian hosts has no member
    [negative]: there a build with an unsigned target fails, and the model
    takes the member of the other specialisation. *)
Section Select.
Context `{BuildConfig} {It : Type} `{!ByteIterator It}.

Definition positive_b7 (sgn has_size : bool) (T : inttype) (flag : Z) : M It Z :=
  if negb has_size then ProcessIntGeneric.positive_b7 T flag
  else match sgn, host_little with
       | false, true => ProcessUnsignedLittle.positive_b7 T flag
       | false, false => ProcessUnsignedBig.positive_b7 T flag
       | true, true => ProcessSignedLittle.positive_b7 T flag
       | true, false => ProcessSignedBig.positive_b7 T flag
       end.

Definition negative_b5 (sgn has_size : bool) (T : inttype) (flag : Z) : M It Z :=
  if negb has_size then ProcessIntGeneric.negative_b5 T flag
  else match sgn, host_little with
       | false, true => ProcessUnsignedLittle.negative_b5 T flag
       | false, false => ProcessUnsignedBig.negative_b5 T flag
       | true, true => ProcessSignedLittle.negative_b5 T flag
       | true, false => ProcessSignedBig.negative_b5 T flag
       end.

Definition positive (sgn has_size : bool) (T : inttype) (iend : It) : M It Z :=
  if negb has_size then ProcessIntGeneric.positive T iend
  else match sgn, host_little with
       | false, true => ProcessUnsignedLittle.positive T iend
       | false, false => ProcessUnsignedBig.positive T iend
       | true, true => ProcessSignedLittle.positive T iend
       | true, false => ProcessSignedBig.positive T iend
       end.

Definition negative (sgn has_size : bool) (T : inttype) (iend : It) : M It Z :=
  if negb has_size then ProcessIntGeneric.negative T iend
  else match sgn, host_little with
       | false, _ => ProcessUnsignedLittle.negative T iend
       | true, true => ProcessSignedLittle.negative T iend
       | true, false => ProcessSignedBig.negative T iend
       end.
End Select.

(** ** [unstream<S>] *)

Module Unstream.
Section Unstream.
Context `{BuildConfig} {It : Type} `{!ByteIterator It}.
Implicit Types iend : It.

(** [sizeof(I) >= sizeof(T)] *)
Definition has_size (I T : inttype) : bool := Nat.leb (sizeof T) (sizeof I).

Definition unpack_int (I : inttype) iend : M It Z :=
  flag ← next_byte iend;
  let sgn := is_signed I in
  let store (m : M It Z) : M It Z := z ← m; mret (to_type I z) in
  if Z.land flag 128 =? 0 then store (positive_b7 sgn true I flag)
  else if Z.land flag 224 =? 224 then
    store (negative_b5 sgn (has_size I I8) I8 flag)
  else if flag =? 204 then store (positive sgn (has_size I U8) U8 iend)
  else if flag =? 205 then store (positive sgn (has_size I U16) U16 iend)
  else if flag =? 206 then store (positive sgn (has_size I U32) U32 iend)
  else if flag =? 207 then store (positive sgn (has_size I U64) U64 iend)
  else if flag =? 208 then store (negative sgn (has_size I I8) I8 iend)
  else if flag =? 209 then store (negative sgn (has_size I I16) I16 iend)
  else if flag =? 210 then store (negative sgn (has_size I I32) I32 iend)
  else if flag =? 211 then store (negative sgn (has_size I I64) I64 iend)
  else mismatch "wrong type, cannot convert to int".

Definition unpack_bool iend : M It bool :=
  flag ← next_byte iend;
  if flag =? 194 then mret false
  else if flag =? 195 then mret true
  else mismatch "wrong data, cannot convert to bool".

Definition unpack_strsize iend : M It Z :=
  flag ← next_byte iend;
  if Z.land flag 224 =? 160 then mret (Z.land flag 31)
  else if flag =? 217 then positive false true U8 iend
  else if flag =? 218 then positive false true U16 iend
  else if flag =? 219 then positive false true U32 iend
  else mismatch "wrong type, cannot convert to strlen".

Definition unpack_binsize iend : M It Z :=
  flag ← next_byte iend;
  if flag =? 196 then positive false true U8 iend
  else if flag =? 197 then positive false true U16 iend
  else if flag =? 198 then positive false true U32 iend
  else mismatch "wrong type, cannot convert to binlen".

(** [for (; sz--; )]: the bytes written to [tgt]. *)
Definition unpack_bin iend (sz : Z) : M It (list Z) := read_raw iend (Z.to_nat sz).

Definition unpack_arraysize iend : M It Z :=
  flag ← next_byte iend;
  if Z.land flag 240 =? 144 then mret (Z.land flag 15)
  else if flag =? 220 then positive false true U16 iend
  else if flag =? 221 then positive false true U32 iend
  else mismatch "wrong type, cannot convert to arrlen".

Definition unpack_mapsize iend : M It Z :=
  flag ← next_byte iend;
  if Z.land flag 240 =? 128 then mret (Z.land flag 15)
  else if flag =? 222 then positive false true U16 iend
  else if flag =? 223 then positive false true U32 iend
  else mismatch "wrong type, cannot convert to maplen".

(** The size and the type id. *)
Definition unpack_extsize iend : M It (Z * Z) :=
  flag ← next_byte iend;
  let typed (size : M It Z) : M It (Z * Z) :=
    n ← size; t ← next_byte iend; mret (n, s8 t) in
  if flag =? 212 then typed (mret 1)
  else if flag =? 213 then typed (mret 2)
  else if flag =? 214 then typed (mret 4)
  else if flag =? 215 then typed (mret 8)
  else if flag =? 216 then typed (mret 16)
  else if flag =? 199 then typed (next_byte iend)
  else if flag =? 200 then typed (positive false true U16 iend)
  else if flag =? 201 then typed (positive false true U32 iend)
  else mismatch "wrong type, cannot convert to extlen".

Inductive floating :=
  | FBits (bits : Z)
  | FOfInt (z : Z).

(** The attempt to read an integer instead, and its handler. *)
Definition float_from_int (flag : Z) iend (msg : string) : M It floating :=
  catch
    (if flag =? 207 then z ← unpack_int U64 iend; mret (FOfInt z)
     else z ← unpack_int I64 iend; mret (FOfInt z))
    (fun e => match e with UnpackMismatch _ => mismatch msg | _ => throw e end).

Definition unpack_float iend : M It floating :=
  check_iterator_notend iend ;;
  flag ← deref;
  if flag =? 202 then incr ;; b ← ProcessFloat.get iend 4; mret (FBits b)
  else float_from_int flag iend "wrong type, cannot convert to float".

Definition unpack_double iend : M It floating :=
  check_iterator_notend iend ;;
  flag ← deref;
  if flag =? 203 then incr ;; b ← ProcessFloat.get iend 8; mret (FBits b)
  else float_from_int flag iend "wrong type, cannot convert to double".

Definition test_isnil iend : M It bool :=
  check_iterator_notend iend ;;
  flag ← deref;
  mret (flag =? 192).

Definition unpack_nil iend : M It unit :=
  flag ← next_byte iend;
  if negb (flag =? 192) then mismatch "wrong type, expected nil" else mret tt.

(** [for (size_t ii = unpack_strsize(i0, iend); ii--;) ++i0;] *)
Fixpoint skip (n : nat) : M It unit :=
  match n with O => mret tt | S k => incr ;; skip k end.
Definition unpack_member_id_inmap iend : M It unit :=
  n ← unpack_strsize iend; skip (Z.to_nat n).
End Unstream.
End Unstream.

(** ** The [msg_unpack] overloads

    [msg_unpack] receives the value it overwrites, as some overloads keep a
    part of it. *)

Class MsgUnpack (It T : Type) := {
  unpack_default : T;
  msg_unpack : It -> T -> M It T
}.

Section Overloads.
Context `{BuildConfig} {It : Type} `{!ByteIterator It}.
Implicit Types iend : It.

Definition msg_isnil iend : M It bool := Unstream.test_isnil iend.
Definition msg_unpack_nil iend : M It unit := Unstream.unpack_nil iend.
Definition msg_unpack_int (I : inttype) iend (old : Z) : M It Z := Unstream.unpack_int I iend.
Definition msg_unpack_bool iend (old : bool) : M It bool := Unstream.unpack_bool iend.
Definition msg_unpack_float iend (old : Unstream.floating) : M It Unstream.floating :=
  Unstream.unpack_float iend.
Definition msg_unpack_double iend (old : Unstream.floating) : M It Unstream.floating :=
  Unstream.unpack_double iend.

Definition msg_unpack_string iend (old : list Z) : M It (list Z) :=
  len ← Unstream.unpack_strsize iend;
  read_raw iend (Z.to_nat len).

(** [dueca::smartstring] *)
Definition msg_unpack_smartstring iend (old : list Z) : M It (list Z) :=
  len ← Unstream.unpack_strsize iend;
  read_raw iend (Z.to_nat len).

(** [dueca::Dstring<mxsize>]: [resize] throws when the string does not fit. *)
Definition msg_unpack_Dstring (mxsize : Z) iend (old : list Z) : M It (list Z) :=
  len ← Unstream.unpack_strsize iend;
  if mxsize <=? len then throw StringSizeExceeded
  else read_raw iend (Z.to_nat len).

Context {T : Type} `{!MsgUnpack It T}.

(** The element loops: each element is read over the one that is there. *)
Fixpoint unpack_each iend (l : list T) : M It (list T) :=
  match l with
  | [] => mret []
  | x :: r => y ← msg_unpack iend x; ys ← unpack_each iend r; mret (y :: ys)
  end.

Definition msg_unpack_vector iend (old : list T) : M It (list T) :=
  len ← Unstream.unpack_arraysize iend;
  unpack_each iend (resized (Z.to_nat len) unpack_default old).

(** [dueca::varvector], through its [resize]. *)
Definition msg_unpack_varvector iend (old : list T) : M It (list T) :=
  len ← Unstream.unpack_arraysize iend;
  unpack_each iend (resized (Z.to_nat len) unpack_default old).

(** [dueca::limvector<N,T>] *)
Definition msg_unpack_limvector (N : Z) iend (old : list T) : M It (list T) :=
  len ← Unstream.unpack_arraysize iend;
  if N <? len then throw IndexException
  else unpack_each iend (resized (Z.to_nat len) unpack_default old).

(** [dueca::fixvector<N,T>]; [old] has [N] elements. *)
Definition msg_unpack_fixvector iend (old : list T) : M It (list T) :=
  len ← Unstream.unpack_arraysize iend;
  if negb (len =? zlen old) then throw IndexException
  else unpack_each iend old.

(** [std::list]: elements are appended, the list is not cleared. *)
Fixpoint unpack_append (n : nat) iend (l : list T) : M It (list T) :=
  match n with
  | O => mret l
  | S k => x ← msg_unpack iend unpack_default; unpack_append k iend (l ++ [x])
  end.
Definition msg_unpack_list iend (old : list T) : M It (list T) :=
  len ← Unstream.unpack_arraysize iend;
  unpack_append (Z.to_nat len) iend old.

Definition msg_unpack_optional iend (old : fix_optional T) : M It (fix_optional T) :=
  nil ← msg_isnil iend;
  if (nil : bool) then msg_unpack_nil iend ;; mret (Optional false (value old))
  else x ← msg_unpack iend (value old); mret (Optional (valid old) x).

Context {K : Type} `{!EqDecision K, !Countable K, !MsgUnpack It K}.

(** [std::map]: key and value variables are reused by every round, and
    [emplace] keeps an entry that is there. *)
Fixpoint unpack_entries (n : nat) iend (key : K) (val : T) (m : gmap K T)
    : M It (gmap K T) :=
  match n with
  | O => mret m
  | S k =>
      key ← msg_unpack iend key;
      val ← msg_unpack iend val;
      unpack_entries k iend key val (if m !! key is Some _ then m else <[key := val]> m)
  end.
Definition msg_unpack_map iend (old : gmap K T) : M It (gmap K T) :=
  len ← Unstream.unpack_mapsize iend;
  unpack_entries (Z.to_nat len) iend unpack_default unpack_default old.
End Overloads.

(** ** The MessagePack format of integers *)

Definition tag (T : inttype) : Z :=
  match T with
  | U8 => 204 | U16 => 205 | U32 => 206 | U64 => 207
  | I8 => 208 | I16 => 209 | I32 => 210 | I64 => 211
  end.

(** The forms the format has for a number. *)
Inductive int_form := PosFix | NegFix | Tagged (T : inttype).

Definition form_ok (f : int_form) (n : Z) : Prop :=
  match f with
  | PosFix => 0 <= n < 128
  | NegFix => -32 <= n < 0
  | Tagged T => in_type T n
  end.

Definition int_bytes (f : int_form) (n : Z) : list Z :=
  match f with
  | PosFix => [n]
  | NegFix => [n + 256]
  | Tagged T => tag T :: be_bytes (sizeof T) n
  end.

(** What [unpack_int] makes of a form: [None] when it throws. *)
Definition int_read (I : inttype) (f : int_form) (n : Z) : option Z :=
  match f with
  | PosFix => Some n
  | NegFix => if is_signed I then Some (- (n + 32)) else None
  | Tagged T =>
      if negb (Unstream.has_size I T) || (is_signed T && negb (is_signed I)) then None
      else Some (to_type I n)
  end.

(** ** Lemmas *)

#[export] Instance string_laws : IteratorLaws string_iter.
Proof.
  refine {| unread i e l :=
    itext e = itext i /\ ipos e = (ipos i + length l)%nat /\
    bytes_ok l /\ exists r, drop (ipos i) (itext i) = l ++ r |}.
  - tauto.
  - intros i e (_ & Hp & _). cbn in *. apply Nat.eqb_eq. lia.
  - intros i e b l (Ht & Hp & Hb & r & Hd).
    cbn [iter_eqb deref incr string_iterator length] in *.
    assert (itext i !! ipos i = Some b) as Hi.
    { rewrite <- (Nat.add_0_r (ipos i)), <- lookup_drop, Hd. done. }
    split; [apply Nat.eqb_neq; lia|]. rewrite Hi. split; [done|].
    pose proof (lookup_lt_Some _ _ _ Hi) as Hlt.
    rewrite (proj2 (Nat.ltb_lt _ _)) by done. eexists. split; [done|]. cbn.
    split_and!; [done|lia|by inversion_clear Hb|]. exists r.
    rewrite (drop_S _ b) in Hd by done. by injection Hd.
Defined.

Section ReadLemmas.
Context `{BuildConfig} {It : Type} `{!ByteIterator It} `{!IteratorLaws It}.
Implicit Types i e : It.

Lemma next_byte_run i e b l :
  unread i e (b :: l) -> exists i', next_byte e i = (Val b, i') /\ unread i' e l.
Proof.
  intros Hu. destruct (iter_next i e b l Hu) as (Ee & Ed & i' & Ei & Hu').
  exists i'. split; [|done]. unfold next_byte, check_iterator_notend.
  rewrite (bind_val _ _ _ tt i) by (unfold mbind, M_bind, get; by rewrite Ee).
  rewrite (bind_val _ _ _ b i) by exact Ed. by rewrite (bind_val _ _ _ tt i') by exact Ei.
Qed.

Lemma next_byte_end i e :
  unread i e [] -> next_byte e i = (Exn (UnpackMismatch "buffer too small"), i).
Proof.
  intros Hu. unfold next_byte, check_iterator_notend.
  rewrite (bind_exn _ _ _ (UnpackMismatch "buffer too small") i); [done|].
  unfold mbind, M_bind, get. by rewrite iter_end.
Qed.

Lemma read_raw_run n : forall i e bs l,
  unread i e (bs ++ l) -> length bs = n ->
  exists i', read_raw e n i = (Val bs, i') /\ unread i' e l.
Proof.
  induction n as [|n IH]; intros i e bs l Hu Hl.
  - destruct bs; [|done]. by exists i.
  - destruct bs as [|b bs]; [done|]. destruct (next_byte_run i e b _ Hu) as (i1 & E1 & Hu1).
    destruct (IH i1 e bs l Hu1) as (i2 & E2 & Hu2); [by injection Hl|].
    exists i2. split; [|done]. cbn [read_raw].
    rewrite (bind_val _ _ _ b i1) by exact E1. by rewrite (bind_val _ _ _ bs i2) by exact E2.
Qed.

Lemma to_type_id T z : in_type T z -> to_type T z = z.
Proof. destruct T; intros Hz; cbn in *; width. Qed.

Lemma to_type_in T z : in_type T (to_type T z).
Proof. destruct T; cbn; width. Qed.

Lemma be_value_type T z : in_type T z -> to_type T (be_value (be_bytes (sizeof T) z)) = z.
Proof.
  intros Hz. rewrite be_value_bytes. destruct T; cbn [sizeof to_type in_type] in *;
    match goal with |- context [256 ^ ?n] =>
      let v := eval vm_compute in (256 ^ n) in change (256 ^ n) with v end; width.
Qed.

(** Either order of filling the union gives the big endian number. *)
Lemma raw_host raw : host_value (if host_little then rev raw else raw) = be_value raw.
Proof. unfold host_value. by destruct host_little. Qed.

Lemma positive_run sgn T z i e l :
  in_type T z -> unread i e (be_bytes (sizeof T) z ++ l) ->
  exists i', positive sgn true T e i = (Val z, i') /\ unread i' e l.
Proof.
  intros Hz Hu. destruct (read_raw_run (sizeof T) i e _ l Hu) as (i' & E & Hu');
    [apply be_bytes_length|].
  exists i'. split; [|done]. pose proof (raw_host (be_bytes (sizeof T) z)) as Hr.
  unfold positive, ProcessSignedLittle.positive, ProcessSignedBig.positive,
    ProcessUnsignedLittle.positive, ProcessUnsignedBig.positive.
  cbn [negb]. destruct sgn, host_little;
    rewrite (bind_val _ _ _ _ i') by exact E; rewrite Hr, be_value_type by done; done.
Qed.

Lemma negative_run T z i e l :
  in_type T z -> unread i e (be_bytes (sizeof T) z ++ l) ->
  exists i', negative true true T e i = (Val z, i') /\ unread i' e l.
Proof.
  intros Hz Hu. destruct (read_raw_run (sizeof T) i e _ l Hu) as (i' & E & Hu');
    [apply be_bytes_length|].
  exists i'. split; [|done]. pose proof (raw_host (be_bytes (sizeof T) z)) as Hr.
  unfold negative, ProcessSignedLittle.negative, ProcessSignedBig.negative.
  cbn [negb]. destruct host_little;
    rewrite (bind_val _ _ _ _ i') by exact E; rewrite Hr, be_value_type by done; done.
Qed.
End ReadLemmas.

(** The bit tests on flag bytes, over all bytes. *)
Lemma flag_bits_table :
  forallb (fun k => let b := Z.of_nat k in
    eqb (Z.land b 128 =? 0) (b <? 128) &&
    eqb (Z.land b 224 =? 224) (224 <=? b) &&
    eqb (Z.land b 224 =? 160) ((160 <=? b) && (b <? 192)) &&
    eqb (Z.land b 240 =? 144) ((144 <=? b) && (b <? 160)) &&
    eqb (Z.land b 240 =? 128) ((128 <=? b) && (b <? 144)) &&
    (Z.land b 127 =? b mod 128) && (Z.land b 31 =? b mod 32) &&
    (Z.land b 15 =? b mod 16)) (seq 0 256) = true.
Proof. vm_compute. reflexivity. Qed.

Lemma flag_bits b : is_u8 b ->
  (Z.land b 128 =? 0) = (b <? 128) /\ (Z.land b 224 =? 224) = (224 <=? b) /\
  (Z.land b 224 =? 160) = ((160 <=? b) && (b <? 192)) /\
  (Z.land b 240 =? 144) = ((144 <=? b) && (b <? 160)) /\
  (Z.land b 240 =? 128) = ((128 <=? b) && (b <? 144)) /\
  Z.land b 127 = b mod 128 /\ Z.land b 31 = b mod 32 /\ Z.land b 15 = b mod 16.
Proof.
  intros Hb. unfold is_u8 in Hb. pose proof flag_bits_table as Ht.
  rewrite forallb_forall in Ht. specialize (Ht (Z.to_nat b)).
  rewrite in_seq in Ht. specialize (Ht ltac:(lia)). cbv zeta in Ht.
  rewrite Z2Nat.id, !andb_true_iff, !eqb_true_iff, !Z.eqb_eq in Ht by lia. tauto.
Qed.

Section IntLemmas.
Context `{BuildConfig} {It : Type} `{!ByteIterator It} `{!IteratorLaws It}.
Implicit Types i e : It.

Lemma positive_b7_run I n i :
  in_type I n -> 0 <= n < 128 -> positive_b7 (is_signed I) true I n i = (Val n, i).
Proof.
  intros Hi Hn. destruct (flag_bits n) as (_ & _ & _ & _ & _ & Hl & _); [unfold is_u8; lia|].
  rewrite Z.mod_small in Hl by lia. unfold positive_b7. cbn [negb].
  destruct (is_signed I), host_little;
    unfold ProcessSignedLittle.positive_b7, ProcessSignedBig.positive_b7,
      ProcessUnsignedLittle.positive_b7, ProcessUnsignedBig.positive_b7;
    rewrite ?Hl, to_type_id by done; done.
Qed.

Lemma negative_b5_run sgn k n i :
  -32 <= n < 0 ->
  negative_b5 sgn (Unstream.has_size k I8) I8 (n + 256) i =
    if sgn then (Val (- (n + 32)), i)
    else (Exn (UnpackMismatch "cannot assign negative number to unsigned type"), i).
Proof.
  intros Hn. destruct (flag_bits (n + 256)) as (_ & _ & _ & _ & _ & _ & Hl & _);
    [unfold is_u8; lia|].
  replace ((n + 256) mod 32) with (n + 32) in Hl by (Z.to_euclidean_division_equations; lia).
  assert (Unstream.has_size k I8 = true) as -> by (by destruct k).
  unfold negative_b5. cbn [negb].
  destruct sgn, host_little;
    unfold ProcessSignedLittle.negative_b5, ProcessSignedBig.negative_b5,
      ProcessUnsignedLittle.negative_b5, ProcessUnsignedBig.negative_b5;
    rewrite ?Hl; try done; unfold mret, M_ret; do 2 f_equal; cbn; width.
Qed.

Lemma small_in_type I n : 0 <= n < 128 -> in_type I n.
Proof. destruct I; cbn; width. Qed.

(** The branch of the switch a tag selects. *)
Lemma unpack_int_tag I T e i i1 :
  next_byte e i = (Val (tag T), i1) ->
  Unstream.unpack_int I e i =
    (z ← (if is_signed T then negative (is_signed I) (Unstream.has_size I T) T e
          else positive (is_signed I) (Unstream.has_size I T) T e);
     mret (to_type I z)) i1.
Proof.
  intros E. unfold Unstream.unpack_int. rewrite (bind_val _ _ _ (tag T) i1) by exact E.
  destruct T; reflexivity.
Qed.

(** The reader on a tagged number. *)
Lemma unpack_int_tagged I T n i e l :
  in_type T n -> unread i e (tag T :: be_bytes (sizeof T) n ++ l) ->
  exists o i', Unstream.unpack_int I e i = (o, i') /\
    match int_read I (Tagged T) n with
    | Some z => o = Val z /\ unread i' e l
    | None => exists msg, o = Exn (UnpackMismatch msg)
    end.
Proof.
  intros Hn Hu. destruct (next_byte_run i e _ _ Hu) as (i1 & E1 & Hu1).
  rewrite (unpack_int_tag I T e i i1 E1). unfold int_read.
  destruct (Unstream.has_size I T) eqn:Hs; cbn [negb orb].
  - destruct (is_signed T) eqn:HT; cbn [andb].
    + destruct (is_signed I) eqn:HI; cbn [negb].
      * destruct (negative_run T n i1 e l Hn Hu1) as (i2 & E2 & Hu2).
        exists (Val (to_type I n)), i2. split; [|done].
        by rewrite (bind_val _ _ _ n i2) by exact E2.
      * by eexists (Exn (UnpackMismatch _)), i1; split; [|eexists].
    + destruct (positive_run (is_signed I) T n i1 e l Hn Hu1) as (i2 & E2 & Hu2).
      exists (Val (to_type I n)), i2. split; [|done].
      by rewrite (bind_val _ _ _ n i2) by exact E2.
  - by destruct (is_signed T); eexists (Exn (UnpackMismatch _)), i1; split; [|eexists| |eexists].
Qed.

(** Every form, read into every type. *)
Lemma unpack_int_form I f n i e l :
  form_ok f n -> unread i e (int_bytes f n ++ l) ->
  exists o i', Unstream.unpack_int I e i = (o, i') /\
    match int_read I f n with
    | Some z => o = Val z /\ unread i' e l
    | None => exists msg, o = Exn (UnpackMismatch msg)
    end.
Proof.
  intros Hf Hu. destruct f as [| |T]; cbn [form_ok int_bytes app] in *.
  - destruct (next_byte_run i e _ _ Hu) as (i1 & E1 & Hu1). exists (Val n), i1.
    split; [|done]. unfold Unstream.unpack_int. rewrite (bind_val _ _ _ n i1) by exact E1.
    destruct (flag_bits n) as (-> & _); [unfold is_u8; lia|].
    rewrite (proj2 (Z.ltb_lt _ _)) by lia. pose proof (small_in_type I n Hf) as Hi.
    rewrite (bind_val _ _ _ n i1) by (by apply positive_b7_run). by rewrite to_type_id.
  - destruct (next_byte_run i e _ _ Hu) as (i1 & E1 & Hu1).
    pose proof (negative_b5_run (is_signed I) I n i1 Hf) as E2.
    unfold Unstream.unpack_int. rewrite (bind_val _ _ _ (n + 256) i1) by exact E1.
    destruct (flag_bits (n + 256)) as (-> & -> & _); [unfold is_u8; lia|].
    rewrite (proj2 (Z.ltb_ge _ _)), (proj2 (Z.leb_le _ _)) by lia. cbn [int_read].
    destruct (is_signed I) eqn:HI.
    + exists (Val (- (n + 32))), i1. split; [|done].
      rewrite (bind_val _ _ _ (- (n + 32)) i1) by exact E2.
      rewrite to_type_id; [done|]. destruct I; try done; cbn; width.
    + eexists (Exn (UnpackMismatch _)), i1. split; [|by eexists].
      rewrite (bind_exn _ _ _ _ i1) by exact E2. done.
  - by apply unpack_int_tagged.
Qed.
End IntLemmas.

(** ** Reading arbitrary bytes *)

(** [m] reads some of the bytes in front of [e]: it returns a value with [P]
    or reports a mismatch, and never leaves the stream. *)
Definition safe `{!ByteIterator It, !IteratorLaws It} {A} (e : It) (m : M It A)
    (P : A -> Prop) : Prop :=
  forall i l, unread i e l ->
    match m i with
    | (Val a, i') => P a /\ exists k, unread i' e (drop k l)
    | (Exn x, i') => (exists msg, x = UnpackMismatch msg) /\ exists k, unread i' e (drop k l)
    | (Stuck _, _) => False
    end.

Create HintDb unpack discriminated.

Section Safety.
Context `{BuildConfig} {It : Type} `{!ByteIterator It} `{!IteratorLaws It}.
Implicit Types e : It.

Lemma safe_ret {A} e (a : A) (P : A -> Prop) : P a -> safe e (mret a) P.
Proof. intros Hp i l Hu. split; [done|]. by exists O. Qed.

Lemma safe_mismatch {A} e msg (P : A -> Prop) : safe e (mismatch msg) P.
Proof. intros i l Hu. split; [by exists msg|by exists O]. Qed.

Lemma safe_bind {A B} e (m : M It A) (k : A -> M It B) P Q :
  safe e m P -> (forall a, P a -> safe e (k a) Q) -> safe e (m ≫= k) Q.
Proof.
  intros Hm Hk i l Hu. specialize (Hm i l Hu). unfold mbind, M_bind.
  destruct (m i) as [[a|x|f] i1]; [|done|done]. destruct Hm as [Ha [n Hu1]].
  specialize (Hk a Ha i1 _ Hu1). destruct (k a i1) as [[b|x|f] i2]; [| |done].
  - destruct Hk as [Hb [n' Hu2]]. split; [done|]. rewrite drop_drop in Hu2. by eexists.
  - destruct Hk as [Hx [n' Hu2]]. split; [done|]. rewrite drop_drop in Hu2. by eexists.
Qed.

Lemma safe_weaken {A} e (m : M It A) (P Q : A -> Prop) :
  safe e m P -> (forall a, P a -> Q a) -> safe e m Q.
Proof.
  intros Hm Hpq i l Hu. specialize (Hm i l Hu).
  destruct (m i) as [[a|x|f] i']; [|done|done]. destruct Hm. eauto.
Qed.

Lemma safe_next_byte e : safe e (next_byte e) is_u8.
Proof.
  intros i l Hu. destruct l as [|b l].
  - rewrite (next_byte_end i e Hu). split; [by eexists|by exists O].
  - pose proof (iter_bytes i e _ Hu) as Hb.
    destruct (next_byte_run i e b l Hu) as (i' & -> & Hu').
    split; [by inversion_clear Hb|]. by exists 1%nat.
Qed.

Lemma safe_read_raw e n :
  safe e (read_raw e n) (fun bs => length bs = n /\ bytes_ok bs).
Proof.
  induction n as [|n IH]; [apply safe_ret; by split; [|constructor]|].
  cbn [read_raw]. eapply safe_bind; [apply safe_next_byte|]. intros b Hb.
  eapply safe_bind; [exact IH|]. intros r [Hl Hr]. apply safe_ret.
  split; [cbn; lia|by constructor].
Qed.

Lemma safe_positive e sgn sz T : safe e (positive sgn sz T e) (in_type T).
Proof.
  unfold positive, ProcessIntGeneric.positive, ProcessSignedLittle.positive,
    ProcessSignedBig.positive, ProcessUnsignedLittle.positive, ProcessUnsignedBig.positive.
  destruct sz; cbn [negb]; [|apply safe_mismatch].
  destruct sgn, host_little; (eapply safe_bind; [apply safe_read_raw|]);
    intros; apply safe_ret, to_type_in.
Qed.

Lemma safe_negative e sgn sz T : safe e (negative sgn sz T e) (in_type T).
Proof.
  unfold negative, ProcessIntGeneric.negative, ProcessSignedLittle.negative,
    ProcessSignedBig.negative, ProcessUnsignedLittle.negative.
  destruct sz; cbn [negb]; [|apply safe_mismatch].
  destruct sgn; [destruct host_little|apply safe_mismatch];
    (eapply safe_bind; [apply safe_read_raw|]); intros; apply safe_ret, to_type_in.
Qed.

Lemma safe_small_flags e sgn sz T flag :
  safe e (positive_b7 sgn sz T flag) (fun _ => True) /\
  safe e (negative_b5 sgn sz T flag) (fun _ => True).
Proof.
  unfold positive_b7, negative_b5.
  destruct sz, sgn, host_little; cbn [negb]; split;
    first [by apply safe_mismatch|by apply safe_ret].
Qed.

Lemma safe_store {A} e (m : M It A) P I (f : A -> Z) :
  safe e m P -> safe e (z ← m; mret (to_type I (f z))) (in_type I).
Proof.
  intros Hm. eapply safe_bind; [exact Hm|]. intros. apply safe_ret, to_type_in.
Qed.

#[local] Hint Resolve safe_mismatch safe_next_byte safe_positive safe_negative : unpack.

Lemma safe_unpack_int e I : safe e (Unstream.unpack_int I e) (in_type I).
Proof.
  unfold Unstream.unpack_int. eapply safe_bind; [apply safe_next_byte|].
  intros flag _. cbv zeta.
  repeat case_match; try apply safe_mismatch;
    (eapply (safe_store _ _ _ _ (fun z => z));
     first [apply safe_positive|apply safe_negative|apply safe_small_flags]).
Qed.

Lemma land_bound x m : 0 <= x -> 0 <= m < 4294967296 -> is_u32 (Z.land x m).
Proof.
  intros Hx Hm. assert (0 <= Z.land x m <= m); [|unfold is_u32; lia].
  split; [apply Z.land_nonneg; lia|]. apply Z.ldiff_le; [lia|].
  rewrite Z.ldiff_land, <- Z.land_assoc, Z.land_lnot_diag. apply Z.land_0_r.
Qed.

Lemma safe_size e (small : bool) (x m : Z) (rest : M It Z) :
  0 <= x -> 0 <= m < 4294967296 -> safe e rest is_u32 ->
  safe e (if small then mret (Z.land x m) else rest) is_u32.
Proof. intros. destruct small; [apply safe_ret; by apply land_bound|done]. Qed.

Lemma safe_size_field e T :
  match T with U8 | U16 | U32 => True | _ => False end ->
  safe e (positive false true T e) is_u32.
Proof.
  intros HT. eapply safe_weaken; [apply safe_positive|].
  destruct T; try done; intros a Ha; cbn in Ha; width.
Qed.

#[local] Hint Extern 1 (safe _ (positive _ _ _ _) is_u32) => (by apply safe_size_field) : unpack.

Lemma safe_sizes e :
  safe e (Unstream.unpack_strsize e) is_u32 /\ safe e (Unstream.unpack_binsize e) is_u32 /\
  safe e (Unstream.unpack_arraysize e) is_u32 /\ safe e (Unstream.unpack_mapsize e) is_u32.
Proof.
  split_and!; (eapply safe_bind; [apply safe_next_byte|]); intros flag [Hf _];
    try (apply safe_size; [done|done|]); repeat case_match; eauto with unpack.
Qed.

Lemma safe_extsize e :
  safe e (Unstream.unpack_extsize e) (fun p => is_u32 p.1 /\ is_s8 p.2).
Proof.
  eapply safe_bind; [apply safe_next_byte|]. intros flag _. cbv zeta.
  assert (forall m : M It Z, safe e m is_u32 ->
    safe e (n ← m; t ← next_byte e; mret (n, s8 t)) (fun p => is_u32 p.1 /\ is_s8 p.2)) as Ht.
  { intros m Hm. eapply safe_bind; [exact Hm|]. intros n Hn.
    eapply safe_bind; [apply safe_next_byte|]. intros t Hb. apply safe_ret.
    split; [done|cbn; width]. }
  repeat case_match; try apply safe_mismatch; apply Ht;
    first [by apply safe_ret|by apply safe_size_field|idtac].
  eapply safe_weaken; [apply safe_next_byte|]. intros a Ha. width.
Qed.

Lemma safe_bool e : safe e (Unstream.unpack_bool e) (fun _ => True).
Proof.
  eapply safe_bind; [apply safe_next_byte|]. intros flag _.
  repeat case_match; first [apply safe_mismatch|by apply safe_ret].
Qed.

Lemma safe_nil e : safe e (Unstream.unpack_nil e) (fun _ => True).
Proof.
  eapply safe_bind; [apply safe_next_byte|]. intros flag _.
  case_match; first [apply safe_mismatch|by apply safe_ret].
Qed.

Lemma safe_string e old : safe e (msg_unpack_string e old) bytes_ok.
Proof.
  eapply safe_bind; [apply safe_sizes|]. intros n _.
  eapply safe_weaken; [apply safe_read_raw|]. by intros ? [_ ?].
Qed.
End Safety.

Section FloatSafety.
Context `{BuildConfig} {It : Type} `{!ByteIterator It} `{!IteratorLaws It}.
Implicit Types e : It.

Lemma safe_catch {A} e (m : M It A) (P : A -> Prop) msg :
  safe e m P ->
  safe e (catch m (fun x => match x with UnpackMismatch _ => mismatch msg | _ => throw x end)) P.
Proof.
  intros Hm i l Hu. specialize (Hm i l Hu). unfold catch.
  destruct (m i) as [[a|x|f] i']; [done| |done].
  destruct Hm as [[msg' ->] Hk]. by split; [eexists|].
Qed.

(** Looking at a byte without taking it. *)
Lemma peek_cases i e l :
  unread i e l ->
  (check_iterator_notend e ≫= fun _ => deref) i =
    match l with
    | [] => (Exn (UnpackMismatch "buffer too small"), i)
    | b :: _ => (Val b, i)
    end.
Proof.
  intros Hu. unfold check_iterator_notend, mbind, M_bind, get. destruct l as [|b l].
  - by rewrite iter_end.
  - destruct (iter_next i e b l Hu) as (-> & E & _). exact E.
Qed.

Lemma safe_float_from_int e flag msg :
  safe e (Unstream.float_from_int flag e msg) (fun _ => True).
Proof.
  apply safe_catch. case_match; (eapply safe_bind; [apply safe_unpack_int|]);
    intros; by apply safe_ret.
Qed.

Lemma safe_floating e tag n msg :
  safe e (check_iterator_notend e ;; flag ← deref;
          if flag =? tag then incr ;; b ← ProcessFloat.get e n; mret (Unstream.FBits b)
          else Unstream.float_from_int flag e msg) (fun _ => True).
Proof.
  intros i l Hu. rewrite bind_assoc. unfold mbind at 1, M_bind at 1.
  rewrite (peek_cases i e l Hu). destruct l as [|b l]; [split; [by eexists|by exists O]|].
  destruct (b =? tag); [|by apply safe_float_from_int].
  destruct (iter_next i e b l Hu) as (_ & _ & i' & Ei & Hu').
  rewrite (bind_val _ _ _ tt i') by exact Ei.
  assert (safe e (z ← ProcessFloat.get e n; mret (Unstream.FBits z)) (fun _ => True)) as Hs.
  { unfold ProcessFloat.get, ProcessFloat.get_little, ProcessFloat.get_big.
    destruct host_little; (eapply safe_bind; [eapply safe_bind; [apply safe_read_raw|];
      intros; by apply (safe_ret _ _ (fun _ => True))|]); intros; by apply safe_ret. }
  specialize (Hs i' l Hu'). destruct ((ProcessFloat.get e n ≫= fun z => mret (Unstream.FBits z)) i')
    as [[a|x|f] i2]; [| |done].
  - destruct Hs as [_ [k Hk]]. split; [done|]. by exists (S k).
  - destruct Hs as [Hx [k Hk]]. split; [done|]. by exists (S k).
Qed.
End FloatSafety.

(** ** What the overloads promise

    [wire v bs]: the bytes are an encoding of the value that the reader
    accepts. *)

Class MsgLaws `{BuildConfig} (It T : Type) `{!ByteIterator It, !IteratorLaws It, !MsgUnpack It T}
    (wire : T -> list Z -> Prop) : Prop :=
  msg_unpack_wire : forall v bs old i e l,
    wire v bs -> unread i e (bs ++ l) ->
    exists i', msg_unpack e old i = (Val v, i') /\ unread i' e l.

(** Lengths: the short form, or a tag with a number of the given type. *)
Definition header (short : Z * Z) (tags : list (Z * inttype)) (n : Z) (bs : list Z) : Prop :=
  (0 <= n < short.2 /\ bs = [short.1 + n]) \/
  exists t T, (t, T) ∈ tags /\ in_type T n /\ bs = t :: be_bytes (sizeof T) n.
Definition str_header : Z -> list Z -> Prop := header (160, 32) [(217, U8); (218, U16); (219, U32)].
Definition array_header : Z -> list Z -> Prop := header (144, 16) [(220, U16); (221, U32)].
Definition map_header : Z -> list Z -> Prop := header (128, 16) [(222, U16); (223, U32)].

Record num (I : inttype) := Num { nval : Z }.
Arguments Num {I} nval.
Arguments nval {I} n.

Definition int_wire (I : inttype) (v : num I) (bs : list Z) : Prop :=
  exists f, form_ok f (nval v) /\ bs = int_bytes f (nval v) /\
    int_read I f (nval v) = Some (nval v).
Definition str_wire (v : list Z) (bs : list Z) : Prop :=
  exists hd, str_header (zlen v) hd /\ bs = hd ++ v.
Definition list_wire {T} (wire : T -> list Z -> Prop) (v : list T) (bs : list Z) : Prop :=
  exists hd bss, array_header (zlen v) hd /\ Forall2 wire v bss /\ bs = hd ++ mjoin bss.
Definition pairs_wire {K T} (kw : K -> list Z -> Prop) (tw : T -> list Z -> Prop)
    (v : list (K * T)) (bs : list Z) : Prop :=
  exists hd bss, map_header (zlen v) hd /\
    Forall2 (fun p (b : list Z * list Z) => kw p.1 b.1 /\ tw p.2 b.2) v bss /\
    bs = hd ++ mjoin ((fun b : list Z * list Z => b.1 ++ b.2) <$> bss).

Section WireLemmas.
Context `{BuildConfig} {It : Type} `{!ByteIterator It} `{!IteratorLaws It}.
Implicit Types i e : It.

#[export] Instance num_unpack I : MsgUnpack It (num I) :=
  {| unpack_default := Num 0; msg_unpack e old := Num <$> msg_unpack_int I e (nval old) |}.
#[export] Instance string_unpack : MsgUnpack It (list Z) :=
  {| unpack_default := []; msg_unpack := msg_unpack_string |}.
#[export] Instance vector_unpack `{!MsgUnpack It T} : MsgUnpack It (list T) :=
  {| unpack_default := []; msg_unpack := msg_unpack_vector |}.

#[export] Instance num_laws I : MsgLaws It (num I) (int_wire I).
Proof.
  intros [n] bs [old] i e l (f & Hf & -> & Hr) Hu. cbn [nval] in *.
  destruct (unpack_int_form I f n i e l Hf Hu) as (o & i' & E & Ho).
  rewrite Hr in Ho. destruct Ho as [-> Hu']. exists i'. split; [|done].
  cbn [msg_unpack num_unpack]. unfold fmap, M_fmap, msg_unpack_int. by rewrite E.
Qed.

(** The size readers, on either kind of header. *)
Lemma strsize_run n hd i e l :
  str_header n hd -> unread i e (hd ++ l) ->
  exists i', Unstream.unpack_strsize e i = (Val n, i') /\ unread i' e l.
Proof.
  intros [[Hn ->]|(t & T & HT & Hn & ->)] Hu; cbn [app fst snd] in *;
    destruct (next_byte_run i e _ _ Hu) as (i1 & E1 & Hu1);
    unfold Unstream.unpack_strsize; rewrite (bind_val _ _ _ _ i1) by exact E1.
  - destruct (flag_bits (160 + n)) as (_ & _ & -> & _ & _ & _ & Hl & _); [unfold is_u8; lia|].
    rewrite (proj2 (Z.leb_le _ _)), (proj2 (Z.ltb_lt _ _)) by lia. cbn [andb].
    exists i1. split; [|done]. unfold mret, M_ret. rewrite Hl. do 2 f_equal. width.
  - rewrite !elem_of_cons in HT.
    destruct HT as [HT|[HT|[HT|HT%elem_of_nil]]]; [| | |done]; simplify_eq;
      apply positive_run; done.
Qed.

Lemma arraysize_run n hd i e l :
  array_header n hd -> unread i e (hd ++ l) ->
  exists i', Unstream.unpack_arraysize e i = (Val n, i') /\ unread i' e l.
Proof.
  intros [[Hn ->]|(t & T & HT & Hn & ->)] Hu; cbn [app fst snd] in *;
    destruct (next_byte_run i e _ _ Hu) as (i1 & E1 & Hu1);
    unfold Unstream.unpack_arraysize; rewrite (bind_val _ _ _ _ i1) by exact E1.
  - destruct (flag_bits (144 + n)) as (_ & _ & _ & -> & _ & _ & _ & Hl); [unfold is_u8; lia|].
    rewrite (proj2 (Z.leb_le _ _)), (proj2 (Z.ltb_lt _ _)) by lia. cbn [andb].
    exists i1. split; [|done]. unfold mret, M_ret. rewrite Hl. do 2 f_equal. width.
  - rewrite !elem_of_cons in HT.
    destruct HT as [HT|[HT|HT%elem_of_nil]]; [| |done]; simplify_eq; apply positive_run; done.
Qed.

Lemma mapsize_run n hd i e l :
  map_header n hd -> unread i e (hd ++ l) ->
  exists i', Unstream.unpack_mapsize e i = (Val n, i') /\ unread i' e l.
Proof.
  intros [[Hn ->]|(t & T & HT & Hn & ->)] Hu; cbn [app fst snd] in *;
    destruct (next_byte_run i e _ _ Hu) as (i1 & E1 & Hu1);
    unfold Unstream.unpack_mapsize; rewrite (bind_val _ _ _ _ i1) by exact E1.
  - destruct (flag_bits (128 + n)) as (_ & _ & _ & _ & -> & _ & _ & Hl); [unfold is_u8; lia|].
    rewrite (proj2 (Z.leb_le _ _)), (proj2 (Z.ltb_lt _ _)) by lia. cbn [andb].
    exists i1. split; [|done]. unfold mret, M_ret. rewrite Hl. do 2 f_equal. width.
  - rewrite !elem_of_cons in HT.
    destruct HT as [HT|[HT|HT%elem_of_nil]]; [| |done]; simplify_eq; apply positive_run; done.
Qed.

#[export] Instance string_msg_laws : MsgLaws It (list Z) str_wire.
Proof.
  intros v bs old i e l (hd & Hh & ->) Hu. rewrite <- app_assoc in Hu.
  destruct (strsize_run _ _ i e _ Hh Hu) as (i1 & E1 & Hu1).
  destruct (read_raw_run (length v) i1 e v l Hu1) as (i2 & E2 & Hu2); [done|].
  exists i2. split; [|done]. cbn [msg_unpack string_unpack]. unfold msg_unpack_string.
  rewrite (bind_val _ _ _ _ i1) by exact E1. by rewrite Nat2Z.id.
Qed.

Lemma unpack_each_run `{!MsgUnpack It T} wire `{!MsgLaws It T wire} (v : list T) :
  forall bss old i e l,
  Forall2 wire v bss -> length old = length v -> unread i e (mjoin bss ++ l) ->
  exists i', unpack_each e old i = (Val v, i') /\ unread i' e l.
Proof.
  induction v as [|x v IH]; intros bss old i e l Hw Hl Hu; inversion Hw; subst.
  - destruct old; [|done]. by exists i.
  - destruct old as [|o old]; [done|]. cbn in Hu. rewrite <- app_assoc in Hu.
    destruct (msg_unpack_wire x _ o i e _ ltac:(eassumption) Hu) as (i1 & E1 & Hu1).
    destruct (IH _ old i1 e l ltac:(eassumption) ltac:(by injection Hl) Hu1) as (i2 & E2 & Hu2).
    exists i2. split; [|done]. cbn [unpack_each]. rewrite (bind_val _ _ _ _ i1) by exact E1.
    by rewrite (bind_val _ _ _ _ i2) by exact E2.
Qed.
End WireLemmas.

(** ** Theorems *)

Section Theorems.
Context `{BuildConfig} {It : Type} `{!ByteIterator It} `{!IteratorLaws It}.
Implicit Types i e : It.


(** [unpack_int] reads a positive fixint, and a number tagged with a type
    that is not wider than the target's and not signed for an unsigned
    target, as the number the format says, and takes exactly its bytes; with
    any other tag it throws, also for numbers the target could hold. *)
Theorem unpack_int_correct I f n i e l :
  form_ok f n -> f <> NegFix -> unread i e (int_bytes f n ++ l) ->
  match f with
  | Tagged T =>
      if (sizeof I <? sizeof T)%nat || (is_signed T && negb (is_signed I))
      then exists msg i', Unstream.unpack_int I e i = (Exn (UnpackMismatch msg), i')
      else in_type I n ->
        exists i', Unstream.unpack_int I e i = (Val n, i') /\ unread i' e l
  | _ => exists i', Unstream.unpack_int I e i = (Val n, i') /\ unread i' e l
  end.
Proof.
  intros Hf Hneg Hu. destruct (unpack_int_form I f n i e l Hf Hu) as (o & i' & E & Ho).
  destruct f as [| |T]; [|done|].
  - destruct Ho as [-> Hu']. by exists i'.
  - cbn [int_read] in Ho.
    replace (negb (Unstream.has_size I T)) with (sizeof I <? sizeof T)%nat in Ho
      by (by destruct I, T). destruct (_ || _).
    + destruct Ho as [msg ->]. by exists msg, i'.
    + intros Hi. destruct Ho as [-> Hu']. exists i'. by rewrite to_type_id in E.
Qed.

(** A negative fixint, the format's one byte form of -32 to -1, read into
    a signed integer gives the negated low five bits of the byte, [-(n + 32)],
    which is the number only for -16. *)
Theorem negative_fixint_misread I n i e l :
  is_signed I = true -> -32 <= n < 0 -> unread i e (n + 256 :: l) ->
  exists z i', Unstream.unpack_int I e i = (Val z, i') /\
    z = - (n + 32) /\ (z = n <-> n = -16).
Proof.
  intros HI Hn Hu. destruct (unpack_int_form I NegFix n i e l Hn Hu) as (o & i' & E & Ho).
  cbn [int_read] in Ho. rewrite HI in Ho. destruct Ho as [-> _].
  exists (- (n + 32)), i'. split_and!; [done|done|lia..].
Qed.

(** a vector is read as its elements: given an array header with its
    length and the elements' encodings, [msg_unpack] resizes the vector,
    fills it with exactly those values and stops behind them; the element
    type can be any type with this promise, vectors of strings or of vectors
    among them. *)
Theorem msg_unpack_vector_wire `{!MsgUnpack It T} wire `{!MsgLaws It T wire} :
  MsgLaws It (list T) (list_wire wire).
Proof.
  intros v bs old i e l (hd & bss & Hh & Hw & ->) Hu. rewrite <- app_assoc in Hu.
  destruct (arraysize_run _ _ i e _ Hh Hu) as (i1 & E1 & Hu1).
  destruct (unpack_each_run wire v bss (resized (length v) unpack_default old) i1 e l Hw)
    as (i2 & E2 & Hu2); [|done|].
  { unfold resized. rewrite length_app, length_take, length_replicate. lia. }
  exists i2. split; [|done]. cbn [msg_unpack vector_unpack]. unfold msg_unpack_vector.
  rewrite (bind_val _ _ _ _ i1) by exact E1. by rewrite Nat2Z.id.
Qed.

(** reading a map adds its entries to what the map holds: an entry that
    is there already stays, and of several entries with the same key the
    first one counts. *)
Theorem msg_unpack_map_union `{!MsgUnpack It T} tw `{!MsgLaws It T tw}
    `{!EqDecision K, !Countable K, !MsgUnpack It K} kw `{!MsgLaws It K kw}
    (v : list (K * T)) bs (old : gmap K T) i e l :
  pairs_wire kw tw v bs -> unread i e (bs ++ l) ->
  exists i', msg_unpack_map e old i = (Val (old ∪ list_to_map v), i') /\ unread i' e l.
Proof.
  intros (hd & bss & Hh & Hw & ->) Hu. rewrite <- app_assoc in Hu.
  destruct (mapsize_run _ _ i e _ Hh Hu) as (i1 & E1 & Hu1).
  unfold msg_unpack_map. rewrite (bind_val _ _ _ _ i1) by exact E1. rewrite Nat2Z.id.
  clear hd Hh E1 Hu. revert old i1 Hu1.
  generalize (unpack_default (T := K)) (unpack_default (T := T)).
  induction Hw as [|[k x] [b1 b2] v bss [Hk Hx] Hw IH]; intros key val old i1 Hu1.
  - exists i1. cbn [list_to_map foldr]. by rewrite (right_id_L ∅ (∪)).
  - cbn in Hu1. rewrite <- !app_assoc in Hu1.
    destruct (msg_unpack_wire k _ key i1 e _ Hk Hu1) as (i2 & E2 & Hu2).
    destruct (msg_unpack_wire x _ val i2 e _ Hx Hu2) as (i3 & E3 & Hu3).
    edestruct (IH k x) as (i4 & E4 & Hu4); [exact Hu3|].
    exists i4. split; [|done]. cbn [length unpack_entries].
    rewrite (bind_val _ _ _ _ i2) by exact E2. rewrite (bind_val _ _ _ _ i3) by exact E3.
    rewrite E4. do 2 f_equal. rewrite list_to_map_cons.
    destruct (old !! k) as [y|] eqn:Ey.
    + apply map_eq. intros j. rewrite !lookup_union.
      destruct (decide (j = k)) as [->|]; [|by rewrite lookup_insert_ne].
      rewrite Ey. by destruct (list_to_map v !! k), (<[k:=x]> (list_to_map v) !! k).
    + by rewrite <- insert_union_l, insert_union_r.
Qed.

(** Reading a value that is not nil into an optional sets the value and
    leaves the optional as valid or invalid as it was; a default constructed
    one stays invalid. *)
Theorem msg_unpack_optional_validity `{!MsgUnpack It T} (old : fix_optional T) i e b l r i' :
  unread i e (b :: l) -> b <> 192 ->
  msg_unpack_optional e old i = (Val r, i') -> valid r = valid old.
Proof.
  intros Hu Hb E. unfold msg_unpack_optional, msg_isnil, Unstream.test_isnil in E.
  apply bind_inv in E as (nil & i1 & E1 & E2). rewrite bind_assoc in E1.
  apply bind_inv in E1 as (flag & i2 & E1 & E3).
  rewrite (peek_cases i e _ Hu) in E1. injection E1 as <- <-. injection E3 as <- <-.
  rewrite (proj2 (Z.eqb_neq _ _)) in E2 by done.
  apply bind_inv in E2 as (x & i3 & _ & E4). by injection E4 as <- _.
Qed.
End Theorems.

(** The name of a member is skipped without looking for the end of the
    data: when the text ends inside the name, the iterator runs off the
    buffer. *)
Theorem member_id_overrun `{BuildConfig} text n :
  length text = S n -> bytes_ok text -> 
  forall b, text !! O = Some b -> 160 <= b < 192 -> Z.of_nat n < b - 160 ->
  (Unstream.unpack_member_id_inmap (mkIter text (S n)) (mkIter text 0)).1 = Stuck OutOfBounds.
Proof.
  intros Hl Hok b Hb Hr Hn.
  assert (unread (mkIter text 0) (mkIter text (S n)) (b :: tail text)) as Hu.
  { destruct text as [|b' text]; [done|]. injection Hb as ->. cbn.
    split_and!; [done|by rewrite <- Hl|done|]. exists []. by rewrite app_nil_r. }
  destruct (strsize_run (b - 160) [b] (mkIter text 0) (mkIter text (S n)) (tail text))
    as (i' & E & Hu'); [left; cbn; split; [lia|f_equal; lia]|exact Hu|].
  unfold Unstream.unpack_member_id_inmap. rewrite (bind_val _ _ _ _ i') by exact E.
  destruct i' as [t p]. destruct Hu' as (Ht & Hp & _ & _). cbn in Ht, Hp. subst t.
  assert (length (tail text) = n) as Hlt by (by destruct text; [|injection Hl]).
  assert (forall k p, p <= S n -> S n - p < k ->
    (Unstream.skip k (mkIter text p)).1 = Stuck OutOfBounds)%nat as Hskip.
  { induction k as [|k IH]; intros q Hq Hk; [lia|]. cbn [Unstream.skip].
    unfold mbind, M_bind. cbn [incr string_iterator itext ipos].
    destruct (Nat.ltb_spec q (length text)); [|done]. apply IH; lia. }
  apply Hskip; lia.
Qed.

(** *** Examples *)

Section Examples.
#[local] Existing Instance test_config.

Lemma ex_unread text :
  bytes_ok text -> unread (mkIter text 0) (mkIter text (length text)) text.
Proof. intros. split_and!; [done|done|done|]. exists []. by rewrite app_nil_r. Qed.

Definition ex_text (text : list Z) : string_iter := mkIter text 0.
Definition ex_end (text : list Z) : string_iter := mkIter text (length text).

Lemma unpack_int_correct_witness :
  (exists i', Unstream.unpack_int I32 (ex_end [205; 1; 2; 7]) (ex_text [205; 1; 2; 7])
     = (Val 258, i')) /\
  (exists msg i', Unstream.unpack_int U8 (ex_end [205; 0; 2; 7]) (ex_text [205; 0; 2; 7])
     = (Exn (UnpackMismatch msg), i')).
Proof.
  split.
  - destruct (unpack_int_correct I32 (Tagged U16) 258 (ex_text [205; 1; 2; 7])
      (ex_end [205; 1; 2; 7]) [7]) as (i' & E & _); [cbn; width|done| |cbn; width|].
    + apply ex_unread. repeat constructor; cbn; width.
    + exists i'. exact E.
  - apply (unpack_int_correct U8 (Tagged U16) 2 (ex_text [205; 0; 2; 7])
      (ex_end [205; 0; 2; 7]) [7]); [cbn; width|done|].
    apply ex_unread. repeat constructor; cbn; width.
Defined.

Lemma negative_fixint_misread_witness :
  exists i', Unstream.unpack_int I8 (ex_end [255]) (ex_text [255]) = (Val (-31), i').
Proof.
  destruct (negative_fixint_misread I8 (-1) (ex_text [255]) (ex_end [255]) [])
    as (z & i' & E & -> & _); [done|lia| |].
  - apply ex_unread. repeat constructor; cbn; width.
  - exists i'. exact E.
Defined.

Lemma ex_num_unread bs : Forall is_u8 bs -> unread (ex_text bs) (ex_end bs) (bs ++ []).
Proof. rewrite app_nil_r. apply ex_unread. Qed.

Lemma msg_unpack_vector_wire_witness :
  exists i', msg_unpack (ex_end [147; 1; 2; 204; 200]) ([] : list (num I32))
    (ex_text [147; 1; 2; 204; 200]) = (Val [Num 1; Num 2; Num 200], i').
Proof.
  destruct (msg_unpack_vector_wire (It := string_iter) (int_wire I32)
    [Num 1; Num 2; Num 200] [147; 1; 2; 204; 200] [] (ex_text [147; 1; 2; 204; 200])
    (ex_end [147; 1; 2; 204; 200]) []) as (i' & E & _).
  - exists [147], [[1]; [2]; [204; 200]]. split; [left; split; [cbn; lia|done]|]. split; [|done].
    repeat constructor; [exists PosFix|exists PosFix|exists (Tagged U8)];
      (split; [cbn; width|done]).
  - apply ex_num_unread. repeat constructor; cbn; width.
  - exists i'. exact E.
Defined.

#[local] Instance ex_key : MsgUnpack string_iter Z :=
  {| unpack_default := 0; msg_unpack e old := msg_unpack_int U8 e old |}.
#[local] Instance ex_key_laws : MsgLaws string_iter Z (fun v bs => int_wire U8 (Num v) bs).
Proof.
  intros v bs old i e l (f & Hf & -> & Hr) Hu.
  destruct (unpack_int_form U8 f v i e l Hf Hu) as (o & i' & E & Ho).
  cbn [nval] in Hr. rewrite Hr in Ho. destruct Ho as [-> Hu']. by exists i'.
Qed.

Lemma msg_unpack_map_union_witness :
  exists i', msg_unpack_map (ex_end [130; 1; 5; 2; 6]) ({[1 := 9]} : gmap Z Z)
    (ex_text [130; 1; 5; 2; 6])
    = (Val ({[1 := 9]} ∪ list_to_map [(1, 5); (2, 6)]), i').
Proof.
  destruct (msg_unpack_map_union (It := string_iter)
    (fun v bs => int_wire U8 (Num v) bs) (fun v bs => int_wire U8 (Num v) bs)
    [(1, 5); (2, 6)] [130; 1; 5; 2; 6] ({[1 := 9]} : gmap Z Z)
    (ex_text [130; 1; 5; 2; 6]) (ex_end [130; 1; 5; 2; 6]) []) as (i' & E & _).
  - exists [130], [([1], [5]); ([2], [6])]. split; [left; split; [cbn; lia|done]|]. split; [|done].
    repeat constructor; exists PosFix; (split; [cbn; width|done]).
  - apply ex_num_unread. repeat constructor; cbn; width.
  - exists i'. exact E.
Defined.

Lemma msg_unpack_optional_validity_witness :
  exists r i', msg_unpack_optional (ex_end [7]) (FO.make 0) (ex_text [7]) = (Val r, i') /\
    valid r = false.
Proof.
  eexists _, _. split; [vm_compute; reflexivity|].
  apply (msg_unpack_optional_validity (T := Z) (FO.make 0) (ex_text [7]) (ex_end [7]) 7 []
    _ (mkIter [7] 1)); [|done|vm_compute; reflexivity].
  apply ex_unread. repeat constructor; cbn; width.
Defined.

Lemma member_id_overrun_witness :
  (Unstream.unpack_member_id_inmap (mkIter [163; 65] 2) (mkIter [163; 65] 0)).1
    = Stuck OutOfBounds.
Proof.
  apply (member_id_overrun [163; 65] 1) with (b := 163);
    [done|repeat constructor; cbn; width|done|lia|lia].
Defined.
End Examples.
