(* ===== verification/MsgpackVisit.v ===== *)
(** Packing objects to MessagePack and unpacking them with visitors,
    [dueca/msgpack.hxx], [dueca/msgpack.cxx] and the code generated for DCO
    classes by [pycodegen/DCOplugins/msgpack.py].

    The msgpack library turns what an adaptor packs into bytes, and calls a
    visitor for what it parses from bytes; its code is not part of the
    repository.  [mval] is a MessagePack value, [items] what a packer is told
    to write for it, [calls] how the visitor interface presents it.

    A type is an element of [ty], an object an element of [obj].  A visitor
    holds a reference to the object it fills; here the object is passed to
    and returned by each call, and a visitor for a container says which
    element the visitor it holds refers to.  The counters of nesting are
    unbounded. *)

From S2P Require Import Prelude Bytes Containers Msgpack.
#[local] Open Scope Z_scope.

(** ** Objects and their types *)

Definition text : Type := list Z.

(** Floating point numbers with their conversions left symbolic. *)
Inductive real :=
  | Bits (bits : Z)
  | FloatOfDouble (r : real)
  | DoubleOfFloat (r : real)
  | FloatOfInt (z : Z)
  | DoubleOfInt (z : Z).

Inductive obj :=
  | OReal (r : real)
  | OInt (z : Z)
  | OBool (b : bool)
  | OStr (s : text)
  | OVec (l : list obj)
  | OOpt (valid : bool) (value : obj)
  | OMap (l : list (obj * obj))
  | ODco (l : list obj).

(** Types whose visitors hold no other visitor; [LEnum] is an enumeration on an
    integer type, [LString] both [std::string] and [smartstring]. *)
Inductive leaf :=
  | LFloat32 | LFloat64
  | LInt (T : inttype)
  | LEnum (T : inttype)
  | LBool
  | LString
  | LDstring (mxsize : Z).

Inductive vkind :=
  | Fix (N : nat)
  | FixDefault (N : nat) (deflt : obj)
  | Push
  | StdVector
  | VarVector
  | LimVector (N : nat).

(** The members of a DCO class come with the value its default constructor
    gives them.  [levels] counts the members that each class of the line of
    parents adds, the root of the line first. *)
Inductive ty :=
  | TLeaf (l : leaf)
  | TVec (k : vkind) (t : ty)
  | TOpt (t : ty)
  | TMap (key mapped : ty)
  | TDco (name : string) (levels : list nat) (members : list (text * ty * obj)).

Definition m_name (f : text * ty * obj) : text := f.1.1.
Definition m_type (f : text * ty * obj) : ty := f.1.2.
Definition m_default (f : text * ty * obj) : obj := f.2.

(** What the program leaves open here: the value of a scalar that is not
    initialised, and when the ordering of a map takes two keys as equivalent. *)
Class MsgTypes := {
  new_leaf : leaf -> obj;
  key_equiv : obj -> obj -> bool
}.

(** A C string ends at the first zero byte. *)
Fixpoint c_str (s : text) : text :=
  match s with
  | [] => []
  | b :: s => if b =? 0 then [] else b :: c_str s
  end.

(** [Dstring<mxsize>::assign] *)
Definition Dstring_assign (mxsize : Z) (s : text) : text := c_str (take (Z.to_nat (mxsize - 1)) s).

(** ** Visitors *)

Inductive call :=
  | visit_nil
  | visit_boolean (v : bool)
  | visit_positive_integer (v : Z)
  | visit_negative_integer (v : Z)
  | visit_float32 (v : real)
  | visit_float64 (v : real)
  | visit_str (v : text)
  | visit_bin (v : text)
  | visit_ext (v : text)
  | start_array (num_elements : Z)
  | start_array_item
  | end_array_item
  | end_array
  | start_map (num_kv_pairs : Z)
  | start_map_key
  | end_map_key
  | start_map_value
  | end_map_value
  | end_map.

Inductive VVMode := VInit | VMapping | VArray | VExit.
Inductive MMode := MInit | MKey | MValue | MExit.

#[export] Instance VVMode_eq_dec : EqDecision VVMode.
Proof. solve_decision. Defined.
#[export] Instance MMode_eq_dec : EqDecision MMode.
Proof. solve_decision. Defined.

(** [UnpackVisitorArray] and its derived classes; [refers] is the element
    [nest] refers to, or [None] for the member [elt]. *)
Record array_visitor := mkArray {
  a_kind : vkind;
  a_type : ty;
  a_depth : Z;
  idx : Z;
  refers : option nat;
  elt : obj
}.

Record map_visitor := mkMap {
  key_type : ty;
  mapped_type : ty;
  m_depth : Z;
  m_mode : MMode;
  m_key : obj;
  m_val : obj
}.

(** The pointer [nest] of a DCO visitor: NULL, a member's visitor or the
    gobble visitor of the class. *)
Inductive target := Member (i : nat) | Gobbled.

Record dco_visitor := mkDco {
  d_name : string;
  d_levels : list (list text);
  sel : Z;
  d_depth : Z;
  d_nest : option target;
  d_mode : VVMode;
  d_key : text
}.

Inductive visitor :=
  | VLeaf (l : leaf)
  | VArr (a : array_visitor) (nest : visitor)
  | VOpt (mode : VVMode) (nest : visitor)
  | VMap (m : map_visitor) (nest_key nest_val : visitor)
  | VDco (d : dco_visitor) (members : list visitor)
  | VGobble.

Definition set_a_depth n a := mkArray (a_kind a) (a_type a) n (idx a) (refers a) (elt a).
Definition set_idx n a := mkArray (a_kind a) (a_type a) (a_depth a) n (refers a) (elt a).
Definition set_refers r a := mkArray (a_kind a) (a_type a) (a_depth a) (idx a) r (elt a).
Definition set_elt x a := mkArray (a_kind a) (a_type a) (a_depth a) (idx a) (refers a) x.
Definition set_m_depth n m := mkMap (key_type m) (mapped_type m) n (m_mode m) (m_key m) (m_val m).
Definition set_m_mode x m := mkMap (key_type m) (mapped_type m) (m_depth m) x (m_key m) (m_val m).
Definition set_m_key x m := mkMap (key_type m) (mapped_type m) (m_depth m) (m_mode m) x (m_val m).
Definition set_m_val x m := mkMap (key_type m) (mapped_type m) (m_depth m) (m_mode m) (m_key m) x.
Definition set_sel n d := mkDco (d_name d) (d_levels d) n (d_depth d) (d_nest d) (d_mode d) (d_key d).
Definition set_d_depth n d := mkDco (d_name d) (d_levels d) (sel d) n (d_nest d) (d_mode d) (d_key d).
Definition set_nest t d := mkDco (d_name d) (d_levels d) (sel d) (d_depth d) t (d_mode d) (d_key d).
Definition set_d_mode x d := mkDco (d_name d) (d_levels d) (sel d) (d_depth d) (d_nest d) x (d_key d).
Definition set_d_key s d := mkDco (d_name d) (d_levels d) (sel d) (d_depth d) (d_nest d) (d_mode d) s.

Section Visitors.
Context {MT : MsgTypes}.

(** A new object. *)
Fixpoint init (t : ty) : obj :=
  match t with
  | TLeaf l => new_leaf l
  | TVec (Fix N) t => OVec (replicate N (init t))
  | TVec (FixDefault N deflt) _ => OVec (replicate N deflt)
  | TVec _ _ => OVec []
  | TOpt t => OOpt false (init t)
  | TMap _ _ => OMap []
  | TDco _ _ members => ODco (map m_default members)
  end.

(** The names of the members, class by class, this class first. *)
Fixpoint name_levels (levels : list nat) (names : list text) (below : list (list text)) : list (list text) :=
  match levels with
  | [] => below
  | n :: levels => name_levels levels (drop n names) (take n names :: below)
  end.

(** A new visitor. *)
Fixpoint fresh (t : ty) : visitor :=
  match t with
  | TLeaf l => VLeaf l
  | TVec k t => VArr (mkArray k t (-1) 0 None (init t)) (fresh t)
  | TOpt t => VOpt VInit (fresh t)
  | TMap k v => VMap (mkMap k v (-1) MInit (init k) (init v)) (fresh k) (fresh v)
  | TDco name levels members =>
      VDco (mkDco name (name_levels levels (map m_name members) []) (-1) (-1) None VInit [])
           (map (fun f => fresh f.1.2) members)
  end.

(** What a call returns, and leaves of the visitor and of the object. *)
Definition result : Type := outcome (bool * visitor * obj).

(** *** Scalars and strings; [None] is a call of the base class *)

Definition leaf_visit (l : leaf) (c : call) : option obj :=
  match l, c with
  | LFloat32, visit_float32 v => Some (OReal v)
  | LFloat32, visit_float64 v => Some (OReal (FloatOfDouble v))
  | LFloat32, visit_positive_integer v => Some (OReal (FloatOfInt v))
  | LFloat32, visit_negative_integer v => Some (OReal (FloatOfInt v))
  | LFloat64, visit_float32 v => Some (OReal (DoubleOfFloat v))
  | LFloat64, visit_float64 v => Some (OReal v)
  | LFloat64, visit_positive_integer v => Some (OReal (DoubleOfInt v))
  | LFloat64, visit_negative_integer v => Some (OReal (DoubleOfInt v))
  | LInt T, visit_positive_integer v => Some (OInt (to_type T v))
  | LInt T, visit_negative_integer v => if is_signed T then Some (OInt (to_type T v)) else None
  | LEnum T, visit_positive_integer v => Some (OInt (to_type T v))
  | LBool, visit_boolean v => Some (OBool v)
  | LString, visit_str v => Some (OStr v)
  | LDstring mxsize, visit_str v => Some (OStr (Dstring_assign mxsize v))
  | _, _ => None
  end.

Definition leaf_call (l : leaf) (c : call) (o : obj) : result :=
  match leaf_visit l c with
  | Some o' => Val (true, VLeaf l, o')
  | None => Val (false, VLeaf l, o)
  end.

(** *** Vectors and lists *)

(** [resize(s)] *)
Definition vec_resize (k : vkind) (t : ty) (s : nat) (l : list obj) : outcome (list obj) :=
  match k with
  | Fix N | FixDefault N _ => if Nat.eqb s N then Val l else Exn IndexException
  | LimVector N => if Nat.ltb N s then Exn IndexException else Val (resize s (init t) l)
  | _ => Val (resize s (init t) l)
  end.

(** [obj[i]], which only [std::vector] does not check. *)
Definition vec_at (k : vkind) (i : nat) (l : list obj) : outcome obj :=
  match l !! i with
  | Some x => Val x
  | None => match k with StdVector => Stuck OutOfBounds | _ => Exn IndexException end
  end.

(** A call passed on to [nest], with its new state and result. *)
Definition a_pass (nestcall : call -> obj -> result) (a : array_visitor) (l : list obj) (c : call) : result :=
  match refers a with
  | None =>
      '(b, n, x) ← nestcall c (elt a);
      Val (b, VArr (set_elt x a) n, OVec l)
  | Some i =>
      match l !! i with
      | None => Stuck DanglingDeref
      | Some x =>
          '(b, n, x') ← nestcall c x;
          Val (b, VArr a n, OVec (<[i:=x']> l))
      end
  end.

(** Return true whatever the visitor that was called returns. *)
Definition always (r : result) : result := '(_, v, o) ← r; Val (true, v, o).

Definition a_nil (nestcall : call -> obj -> result) (a : array_visitor) (nest : visitor) (l : list obj) : result :=
  match a_kind a with
  | Fix _ => a_pass nestcall a l visit_nil
  | FixDefault N deflt =>
      if a_depth a >? 0 then a_pass nestcall a l visit_nil
      else Val (true, VArr a nest, OVec (replicate N deflt))
  | _ =>
      if a_depth a >? 0 then always (a_pass nestcall a l visit_nil)
      else Val (true, VArr a nest, OVec [])
  end.

Definition a_start_array (nestcall : call -> obj -> result) (a : array_visitor) (nest : visitor)
    (l : list obj) (n : Z) : result :=
  let a1 := set_a_depth (a_depth a + 1) a in
  if negb (a_depth a1 =? 0) then a_pass nestcall a1 l (start_array n)
  else match a_kind a with
       | Push => Val (true, VArr a1 nest, OVec l)
       | k => l' ← vec_resize k (a_type a) (Z.to_nat n) l; Val (true, VArr (set_idx 0 a1) nest, OVec l')
       end.

(** A new visitor for the next element takes the place of [nest]. *)
Definition a_start_item (nestcall : call -> obj -> result) (a : array_visitor) (l : list obj) : result :=
  if negb (a_depth a =? 0) then a_pass nestcall a l start_array_item
  else match a_kind a with
       | Push =>
           Val (true, VArr (set_refers (Some (length l)) a) (fresh (a_type a)), OVec (l ++ [init (a_type a)]))
       | k =>
           _ ← vec_at k (Z.to_nat (idx a)) l;
           Val (true, VArr (set_refers (Some (Z.to_nat (idx a))) (set_idx (u32 (idx a + 1)) a)) (fresh (a_type a)),
                OVec l)
       end.

Definition array_call (nestcall : call -> obj -> result) (a : array_visitor) (nest : visitor)
    (c : call) (l : list obj) : result :=
  match c with
  | visit_nil => a_nil nestcall a nest l
  | start_array n => a_start_array nestcall a nest l n
  | start_array_item => a_start_item nestcall a l
  | end_array_item =>
      if negb (a_depth a =? 0) then a_pass nestcall a l end_array_item else Val (true, VArr a nest, OVec l)
  | end_array =>
      let a1 := set_a_depth (a_depth a - 1) a in
      if negb (a_depth a =? 0) then always (a_pass nestcall a1 l end_array) else Val (true, VArr a1 nest, OVec l)
  | c => a_pass nestcall a l c
  end.

(** *** Optional values *)

Definition optional_call (nestcall : call -> obj -> result) (mode : VVMode) (nest : visitor)
    (c : call) (valid : bool) (x : obj) : result :=
  match c with
  | visit_nil =>
      if decide (mode = VInit) then Val (true, VOpt VExit nest, OOpt false x)
      else Exn (ObjModeMismatch "O nil")
  | c =>
      if decide (mode = VExit) then Exn (ObjModeMismatch "O visit")
      else '(b, n, x') ← nestcall c x; Val (b, VOpt mode n, OOpt valid x')
  end.

(** *** Maps *)

Definition m_pass_key (keycall : call -> obj -> result) (m : map_visitor) (nv : visitor)
    (l : list (obj * obj)) (c : call) : result :=
  '(b, nk, x) ← keycall c (m_key m); Val (b, VMap (set_m_key x m) nk nv, OMap l).
Definition m_pass_val (valcall : call -> obj -> result) (m : map_visitor) (nk : visitor)
    (l : list (obj * obj)) (c : call) : result :=
  '(b, nv, x) ← valcall c (m_val m); Val (b, VMap (set_m_val x m) nk nv, OMap l).

(** [obj.emplace(key, val)]: an entry with an equivalent key stays. *)
Definition emplace (k v : obj) (l : list (obj * obj)) : list (obj * obj) :=
  if existsb (fun e => key_equiv e.1 k) l then l else l ++ [(k, v)].

(** After a pair: it is saved, and [key] and [val] are made anew. *)
Definition m_save (m : map_visitor) (nk nv : visitor) (l : list (obj * obj)) : result :=
  Val (true, VMap (set_m_mode MKey (set_m_val (init (mapped_type m)) (set_m_key (init (key_type m)) m))) nk nv,
       OMap (emplace (m_key m) (m_val m) l)).

Definition map_call (keycall valcall : call -> obj -> result) (m : map_visitor) (nk nv : visitor)
    (c : call) (l : list (obj * obj)) : result :=
  let accept m := Val (true, VMap m nk nv, OMap l) in
  let refuse := Val (false, VMap m nk nv, OMap l) in
  let pass m := match m_mode m with
                | MKey => m_pass_key keycall m nv l c
                | MValue => m_pass_val valcall m nk l c
                | _ => Val (false, VMap m nk nv, OMap l)
                end in
  match c with
  | visit_nil => if decide (m_mode m = MInit) then Val (true, VMap m nk nv, OMap []) else pass m
  | start_map _ =>
      let m1 := set_m_depth (m_depth m + 1) m in
      if negb (m_depth m1 =? 0) then pass m1
      else Val (bool_decide (m_mode m1 = MInit), VMap m1 nk nv, OMap l)
  | start_map_key =>
      match m_mode m with
      | MInit => accept (set_m_mode MKey m)
      | MKey => if negb (m_depth m =? 0) then pass m else accept m
      | MValue => pass m
      | MExit => refuse
      end
  | end_map_key =>
      match m_mode m with
      | MKey => if negb (m_depth m =? 0) then pass m else accept (set_m_mode MValue m)
      | MValue => pass m
      | _ => refuse
      end
  | start_map_value =>
      match m_mode m with
      | MKey => pass m
      | MValue => if negb (m_depth m =? 0) then pass m else accept m
      | _ => refuse
      end
  | end_map_value =>
      match m_mode m with
      | MKey => pass m
      | MValue => if negb (m_depth m =? 0) then pass m else m_save m nk nv l
      | _ => refuse
      end
  | end_map =>
      let m1 := set_m_depth (m_depth m - 1) m in
      if m_depth m1 <? 0 then accept (set_m_mode MExit m1) else pass m1
  | _ => pass m
  end.

(** *** Objects of DCO classes *)

Fixpoint index_of (s : text) (names : list text) : option nat :=
  match names with
  | [] => None
  | n :: names => if decide (n = s) then Some O else S <$> index_of s names
  end.

(** [setVirtualVisitor] as generated for a class with the members [own] and the
    line of parents [parents]: whether it found a member, the pointer [nest]
    and [sel]. *)
Fixpoint setVirtualVisitor (dconame : string) (levels : list (list text)) (name : option text)
    (isparent : bool) (sel : Z) (nest : option target) : outcome (bool * option target * Z) :=
  match levels with
  | [] => Val (false, nest, sel)
  | own :: parents =>
      '(found, nest, sel) ←
        match parents with
        | [] => Val (false, nest, sel)
        | _ => setVirtualVisitor dconame parents name true sel nest
        end;
      let parent_n_members := length (concat parents) in
      if (found : bool) then Val (true, nest, sel) else
      match name with
      | Some s =>
          let sel := match parents with [] => 0 | _ => sel end in
          match index_of s own with
          | Some i => Val (true, Some (Member (parent_n_members + i)), sel + Z.of_nat i)
          | None =>
              let sel := sel + Z.of_nat (length own) in
              if isparent then Val (false, nest, sel) else Val (true, Some Gobbled, sel)
          end
      | None =>
          if sel <? Z.of_nat (parent_n_members + length own)
          then Val (true, Some (Member (Z.to_nat sel)), sel)
          else if isparent then Val (false, nest, sel)
          else Exn (ExcessArrayMembers dconame)
      end
  end.

(** A call through [nest], which is not NULL. *)
Definition d_pass (calls : list (call -> obj -> result)) (d : dco_visitor) (members : list visitor)
    (t : target) (c : call) (l : list obj) : result :=
  match t with
  | Gobbled => Val (true, VDco d members, ODco l)
  | Member i =>
      match calls !! i, l !! i with
      | Some f, Some x => '(b, n, x') ← f c x; Val (b, VDco d (<[i:=n]> members), ODco (<[i:=x']> l))
      | _, _ => Stuck OutOfBounds
      end
  end.

Definition dco_call (calls : list (call -> obj -> result)) (d : dco_visitor) (members : list visitor)
    (c : call) (l : list obj) : result :=
  let accept d := Val (true, VDco d members, ODco l) in
  let mismatched op := Exn (ObjModeMismatch op) in
  let pass d t := d_pass calls d members t c l in
  let select name :=
    let s0 := match name with Some _ => sel d | None => sel d + 1 end in
    '(b, t, s) ← setVirtualVisitor (d_name d) (d_levels d) name false s0 (d_nest d);
    Val (b, VDco (set_sel s (set_nest t d)) members, ODco l) in
  match c with
  | visit_str v =>
      match d_nest d with
      | Some t => pass d t
      | None =>
          if decide (d_mode d = VMapping) then
            if 127 <=? Z.of_nat (length v) then Exn DcoKeyTooLong
            else accept (set_d_key (Dstring_assign 128 v) d)
          else mismatched "DCO visit_str, no nest"%string
      end
  | start_array _ =>
      match d_nest d with
      | Some t => pass (set_d_depth (d_depth d + 1) d) t
      | None =>
          if decide (d_mode d = VInit) then accept (set_d_depth 0 (set_sel (-1) (set_d_mode VArray d)))
          else mismatched "DCO start_array, no nest"%string
      end
  | start_array_item =>
      match d_nest d with
      | Some t => pass d t
      | None =>
          if decide (d_mode d = VArray) then select None
          else mismatched "DCO start_array_item, no nest"%string
      end
  | end_array_item =>
      if bool_decide (d_mode d = VArray) && (d_depth d =? 0) then accept (set_nest None d)
      else match d_nest d with
           | Some t => pass d t
           | None => mismatched "DCO end_array_item, no nest"%string
           end
  | end_array =>
      match d_nest d with
      | Some t => pass (set_d_depth (d_depth d - 1) d) t
      | None => if decide (d_mode d = VArray) then accept (set_d_mode VExit d) else mismatched "DCO end_array"%string
      end
  | start_map _ =>
      match d_nest d with
      | Some t => pass (set_d_depth (d_depth d + 1) d) t
      | None =>
          if decide (d_mode d = VInit) then accept (set_d_depth 0 (set_sel (-1) (set_d_mode VMapping d)))
          else mismatched "DCO start_map, no nest"%string
      end
  | start_map_key =>
      match d_nest d with
      | Some t => pass d t
      | None => if decide (d_mode d = VMapping) then accept d else mismatched "DCO start_map_key, no nest"%string
      end
  | end_map_key =>
      match d_nest d with
      | Some t => pass d t
      | None => if decide (d_mode d = VMapping) then accept d else mismatched "end_map_key, no nest"%string
      end
  | start_map_value =>
      match d_nest d with
      | Some t => pass d t
      | None =>
          if decide (d_mode d = VMapping) then select (Some (d_key d))
          else mismatched "start_map_value, no nest"%string
      end
  | end_map_value =>
      if bool_decide (d_mode d = VMapping) && (d_depth d =? 0) then accept (set_nest None d)
      else match d_nest d with
           | Some t => pass d t
           | None => mismatched "end_map_value, no nest"%string
           end
  | end_map =>
      match d_nest d with
      | Some t => pass (set_d_depth (d_depth d - 1) d) t
      | None => if decide (d_mode d = VMapping) then accept (set_d_mode VExit d) else mismatched "DCO end_map, no nest"%string
      end
  | _ =>
      match d_nest d with
      | Some t => pass d t
      | None => Val (false, VDco d members, ODco l)
      end
  end.

(** *** The virtual call *)

(** A visitor only ever refers to an object of its type. *)
Fixpoint handle (v : visitor) (c : call) (o : obj) : result :=
  match v with
  | VLeaf l => leaf_call l c o
  | VArr a nest => match o with OVec l => array_call (handle nest) a nest c l | _ => Stuck DanglingDeref end
  | VOpt mode nest =>
      match o with OOpt valid x => optional_call (handle nest) mode nest c valid x | _ => Stuck DanglingDeref end
  | VMap m nk nv =>
      match o with OMap l => map_call (handle nk) (handle nv) m nk nv c l | _ => Stuck DanglingDeref end
  | VDco d members =>
      match o with ODco l => dco_call (map handle members) d members c l | _ => Stuck DanglingDeref end
  | VGobble => Val (true, VGobble, o)
  end.

(** The parser stops at the first call that returns false. *)
Fixpoint feed (v : visitor) (o : obj) (cs : list call) : result :=
  match cs with
  | [] => Val (true, v, o)
  | c :: cs =>
      '(b, v, o) ← handle v c o;
      if (b : bool) then feed v o cs else Val (false, v, o)
  end.
End Visitors.

(** ** MessagePack values *)

Inductive mval :=
  | MNil
  | MBool (b : bool)
  | MPos (z : Z)
  | MNeg (z : Z)
  | MFloat32 (r : real)
  | MFloat64 (r : real)
  | MStr (s : text)
  | MBin (s : text)
  | MExt (s : text)
  | MArr (l : list mval)
  | MMap (l : list (mval * mval)).

(** The calls of a visitor for a value. *)
Fixpoint calls (v : mval) : list call :=
  match v with
  | MNil => [visit_nil]
  | MBool b => [visit_boolean b]
  | MPos z => [visit_positive_integer z]
  | MNeg z => [visit_negative_integer z]
  | MFloat32 r => [visit_float32 r]
  | MFloat64 r => [visit_float64 r]
  | MStr s => [visit_str s]
  | MBin s => [visit_bin s]
  | MExt s => [visit_ext s]
  | MArr l =>
      start_array (Z.of_nat (length l))
      :: concat (map (fun x => start_array_item :: calls x ++ [end_array_item]) l) ++ [end_array]
  | MMap l =>
      start_map (Z.of_nat (length l))
      :: concat (map (fun e => start_map_key :: calls e.1 ++ [end_map_key; start_map_value]
                               ++ calls e.2 ++ [end_map_value]) l) ++ [end_map]
  end.

(** ** Packing *)

(** Calls of the packer. *)
Inductive item :=
  | pack_nil
  | pack_bool (b : bool)
  | pack_int (z : Z)
  | pack_float (r : real)
  | pack_double (r : real)
  | pack_str (size : Z)
  | pack_str_body (s : text)
  | pack_bin (size : Z)
  | pack_bin_body (s : text)
  | pack_ext (size : Z)
  | pack_ext_body (s : text)
  | pack_array (size : Z)
  | pack_map (size : Z).

Definition checked_get_container_size (n : nat) : outcome Z :=
  if Z.of_nat n <? 4294967296 then Val (Z.of_nat n) else Exn ContainerSizeOverflow.

Definition pack_leaf (l : leaf) (o : obj) : outcome (list item) :=
  match l, o with
  | LFloat32, OReal r => Val [pack_float r]
  | LFloat64, OReal r => Val [pack_double r]
  | (LInt _ | LEnum _), OInt z => Val [pack_int z]
  | LBool, OBool b => Val [pack_bool b]
  | (LString | LDstring _), OStr s =>
      size ← checked_get_container_size (length s); Val [pack_str size; pack_str_body s]
  | _, _ => Stuck DanglingDeref
  end.

(** One after another. *)
Fixpoint pack_all {A} (f : A -> outcome (list item)) (l : list A) : outcome (list item) :=
  match l with
  | [] => Val []
  | x :: l => i ← f x; j ← pack_all f l; Val (i ++ j)
  end.

(** [pack_members], over the parents' members and then the class's own. *)
Definition pack_member (arr : bool) (f : (obj -> outcome (list item)) * text * obj) : outcome (list item) :=
  i ← f.1.1 f.2;
  Val (if arr then i else pack_str (Z.of_nat (length f.1.2)) :: pack_str_body f.1.2 :: i).

(** An object packed as it is, DCO objects in maps, or with the mark
    [msgpack_dco_array], DCO objects in arrays. *)
Fixpoint pack (arr : bool) (t : ty) (o : obj) : outcome (list item) :=
  match t, o with
  | TLeaf l, o => pack_leaf l o
  | TVec _ t, OVec l =>
      size ← checked_get_container_size (length l);
      i ← pack_all (pack arr t) l; Val (pack_array size :: i)
  | TOpt t, OOpt valid x => if valid then pack arr t x else Val [pack_nil]
  | TMap kt vt, OMap l =>
      size ← checked_get_container_size (length l);
      i ← pack_all (fun e => k ← pack false kt e.1; v ← pack arr vt e.2; Val (k ++ v)) l;
      Val (pack_map size :: i)
  | TDco _ _ members, ODco l =>
      i ← pack_all (pack_member arr) (zip (map (fun f => (pack arr f.1.2, f.1.1)) members) l);
      Val ((if arr then pack_array else pack_map) (Z.of_nat (length members)) :: i)
  | _, _ => Stuck DanglingDeref
  end.

(** The calls of the packer that make a value. *)
Fixpoint items (v : mval) : list item :=
  match v with
  | MNil => [pack_nil]
  | MBool b => [pack_bool b]
  | MPos z | MNeg z => [pack_int z]
  | MFloat32 r => [pack_float r]
  | MFloat64 r => [pack_double r]
  | MStr s => [pack_str (Z.of_nat (length s)); pack_str_body s]
  | MBin s => [pack_bin (Z.of_nat (length s)); pack_bin_body s]
  | MExt s => [pack_ext (Z.of_nat (length s)); pack_ext_body s]
  | MArr l => pack_array (Z.of_nat (length l)) :: concat (map items l)
  | MMap l => pack_map (Z.of_nat (length l)) :: concat (map (fun e => items e.1 ++ items e.2) l)
  end.
