(* ===== verification/MsgpackRead.v ===== *)
(** What the MessagePack visitors read.

    [read_value] is a reference: it reads a value in one go, by recursion on
    the type, over the object that is there.  The nested visitors, that get
    the value in pieces and pass every call on, compute the same
    ([visitors_read_values]); the properties of packing and unpacking follow
    from it. *)

From S2P Require Import Prelude Bytes Containers Msgpack MsgpackVisit.
#[local] Open Scope Z_scope.

(** ** The reference *)

(** No nil is met where the visitor that holds another takes it for itself:
    [ok] tells by the number of arrays around it. *)
Fixpoint nil_ok (ok : nat -> bool) (a : nat) (v : mval) : bool :=
  match v with
  | MNil => ok a
  | MArr l => forallb (nil_ok ok (S a)) l
  | MMap l => forallb (fun e => nil_ok ok a e.1 && nil_ok ok a e.2) l
  | _ => true
  end.

Definition vec_nil (k : vkind) (a : nat) : bool :=
  match k with Fix _ => true | _ => negb (Nat.eqb a 0) end.
Definition opt_nil (a : nat) : bool := false.

(** Types whose visitors can read a second value. *)
Definition reusable (t : ty) : bool :=
  match t with TLeaf _ | TVec _ _ => true | _ => false end.

Fixpoint read_each (f : obj -> mval -> option obj) (olds : list obj) (ms : list mval) {struct ms} : option (list obj) :=
  match ms, olds with
  | [], [] => Some []
  | m :: ms, o :: olds => x ← f o m; l ← read_each f olds ms; Some (x :: l)
  | _, _ => None
  end.

Fixpoint read_members (fs : list (obj -> mval -> option obj)) (l : list obj) (ms : list mval) {struct ms} : option (list obj) :=
  match ms, fs, l with
  | [], _, l => Some l
  | m :: ms, f :: fs, o :: l => x ← f o m; r ← read_members fs l ms; Some (x :: r)
  | _, _, _ => None
  end.

(** The key of an entry, as the visitor of a DCO class keeps it. *)
Definition entry_key (e : mval * mval) : text :=
  match e.1 with MStr s => Dstring_assign 128 s | _ => [] end.
Definition short_key (e : mval * mval) : bool :=
  match e.1 with MStr s => Z.of_nat (length s) <? 127 | _ => false end.

(** Entries for members the class does not have are left. *)
Fixpoint read_named (names : list text) (fs : list (obj -> mval -> option obj))
    (es : list (mval * mval)) (l : list obj) : option (list obj) :=
  match es with
  | [] => Some l
  | e :: es =>
      match index_of (entry_key e) names with
      | None => read_named names fs es l
      | Some i =>
          f ← fs !! i; o ← l !! i; x ← f o e.2; read_named names fs es (<[i:=x]> l)
      end
  end.

Section Reference.
Context {MT : MsgTypes}.

Definition read_leaf (l : leaf) (m : mval) : option obj :=
  match m with
  | MNil | MArr _ | MMap _ => None
  | _ => match calls m with [c] => leaf_visit l c | _ => None end
  end.

Definition read_vec (k : vkind) (t : ty) (f : obj -> mval -> option obj) (l : list obj) (m : mval)
    : option (list obj) :=
  match m with
  | MNil => match k with
            | Fix _ => None
            | FixDefault N deflt => Some (replicate N deflt)
            | _ => Some []
            end
  | MArr ms =>
      if (Z.of_nat (length ms) <? 4294967296) && forallb (nil_ok (vec_nil k) 0) ms then
        match k with
        | Push => app l <$> read_each f (replicate (length ms) (init t)) ms
        | k => match vec_resize k t (length ms) l with
               | Val l' => read_each f l' ms
               | _ => None
               end
        end
      else None
  | _ => None
  end.

Fixpoint read_entries (kt vt : ty) (fk fv : obj -> mval -> option obj)
    (es : list (mval * mval)) (l : list (obj * obj)) : option (list (obj * obj)) :=
  match es with
  | [] => Some l
  | e :: es =>
      k ← fk (init kt) e.1; v ← fv (init vt) e.2;
      read_entries kt vt fk fv es (emplace k v l)
  end.

Definition read_map (kt vt : ty) (fk fv : obj -> mval -> option obj) (l : list (obj * obj)) (m : mval)
    : option (list (obj * obj)) :=
  match m with
  | MNil => Some []
  | MMap es =>
      if Nat.leb (length es) 1 || (reusable kt && reusable vt) then read_entries kt vt fk fv es l else None
  | _ => None
  end.

Definition read_dco (names : list text) (fs : list (obj -> mval -> option obj)) (l : list obj) (m : mval)
    : option (list obj) :=
  match m with
  | MArr ms => read_members fs l ms
  | MMap es =>
      if forallb short_key es && bool_decide (NoDup (map entry_key es)) then read_named names fs es l else None
  | _ => None
  end.

(** The value [m] read over the object [old]. *)
Fixpoint read_value (t : ty) (old : obj) (m : mval) : option obj :=
  match t, old with
  | TLeaf l, _ => read_leaf l m
  | TVec k t, OVec l => OVec <$> read_vec k t (read_value t) l m
  | TOpt t, OOpt valid x =>
      match m with
      | MNil => Some (OOpt false x)
      | m => if nil_ok opt_nil 0 m then OOpt valid <$> read_value t x m else None
      end
  | TMap kt vt, OMap l => OMap <$> read_map kt vt (read_value kt) (read_value vt) l m
  | TDco _ _ members, ODco l =>
      ODco <$> read_dco (map (fun f => f.1.1) members) (map (fun f => read_value f.1.2) members) l m
  | _, _ => None
  end.
End Reference.

(** Every class has a line of parents, that counts its members. *)
Fixpoint wf_ty (t : ty) : bool :=
  match t with
  | TLeaf _ => true
  | TVec _ t | TOpt t => wf_ty t
  | TMap kt vt => wf_ty kt && wf_ty vt
  | TDco _ levels members =>
      bool_decide (levels <> []) && Nat.eqb (sum_list levels) (length members)
      && forallb (fun f => wf_ty f.1.2) members
  end.

(** ** Induction *)

Section ValueInduction.
Context (P : mval -> Prop).
Context (Hnil : P MNil) (Hbool : forall b, P (MBool b)) (Hpos : forall z, P (MPos z))
  (Hneg : forall z, P (MNeg z)) (Hf32 : forall r, P (MFloat32 r)) (Hf64 : forall r, P (MFloat64 r))
  (Hstr : forall s, P (MStr s)) (Hbin : forall s, P (MBin s)) (Hext : forall s, P (MExt s))
  (Harr : forall l, Forall P l -> P (MArr l))
  (Hmap : forall l, Forall (fun e => P e.1 /\ P e.2) l -> P (MMap l)).

Fixpoint mval_nested_ind (v : mval) : P v :=
  match v with
  | MNil => Hnil | MBool b => Hbool b | MPos z => Hpos z | MNeg z => Hneg z
  | MFloat32 r => Hf32 r | MFloat64 r => Hf64 r
  | MStr s => Hstr s | MBin s => Hbin s | MExt s => Hext s
  | MArr l =>
      Harr l ((fix go l := match l return Forall P l with
                           | [] => Forall_nil_2 _
                           | x :: l => Forall_cons_2 _ _ _ (mval_nested_ind x) (go l)
                           end) l)
  | MMap l =>
      Hmap l ((fix go l := match l return Forall (fun e => P e.1 /\ P e.2) l with
                           | [] => Forall_nil_2 _
                           | (k, x) :: l =>
                               Forall_cons_2 _ (k, x) l (conj (mval_nested_ind k) (mval_nested_ind x)) (go l)
                           end) l)
  end.
End ValueInduction.

Section TypeInduction.
Context (P : ty -> Prop).
Context (Hleaf : forall l, P (TLeaf l)) (Hvec : forall k t, P t -> P (TVec k t))
  (Hopt : forall t, P t -> P (TOpt t)) (Hmap : forall kt vt, P kt -> P vt -> P (TMap kt vt))
  (Hdco : forall n lv fs, Forall (fun f => P f.1.2) fs -> P (TDco n lv fs)).

Fixpoint ty_nested_ind (t : ty) : P t :=
  match t with
  | TLeaf l => Hleaf l
  | TVec k t => Hvec k t (ty_nested_ind t)
  | TOpt t => Hopt t (ty_nested_ind t)
  | TMap kt vt => Hmap kt vt (ty_nested_ind kt) (ty_nested_ind vt)
  | TDco n lv fs =>
      Hdco n lv fs ((fix go l := match l return Forall (fun f => P f.1.2) l with
                                 | [] => Forall_nil_2 _
                                 | ((s, t), d) :: l => Forall_cons_2 _ ((s, t), d) l (ty_nested_ind t) (go l)
                                 end) fs)
  end.
End TypeInduction.

(** ** Runs *)

Section Runs.
Context {MT : MsgTypes}.

Definition state : Type := visitor * obj.
Definition does (p : state) (c : call) (p' : state) : Prop :=
  handle p.1 c p.2 = Val (true, p'.1, p'.2).
Definition runs (p : state) (cs : list call) (p' : state) : Prop :=
  feed p.1 p.2 cs = Val (true, p'.1, p'.2).

Lemma runs_nil p : runs p [] p.
Proof. by destruct p. Qed.

Lemma runs_nil_inv p p' : runs p [] p' -> p' = p.
Proof. destruct p, p'. unfold runs. cbn. congruence. Qed.

Lemma runs_cons p c cs p' : runs p (c :: cs) p' <-> exists p1, does p c p1 /\ runs p1 cs p'.
Proof.
  unfold runs, does. cbn [feed]. split.
  - destruct (handle p.1 c p.2) as [[[b v] o]| |] eqn:E; try done. cbn.
    destruct b; [|done]. intros H. by exists (v, o).
  - intros ([v o] & E & H). rewrite E. cbn. exact H.
Qed.

Lemma runs_one p c p' : runs p [c] p' <-> does p c p'.
Proof.
  rewrite runs_cons. split.
  - intros (p1 & H & H1). by apply runs_nil_inv in H1 as ->.
  - intros H. exists p'. split; [done|apply runs_nil].
Qed.

Lemma runs_app cs cs' : forall p p', runs p (cs ++ cs') p' <-> exists p1, runs p cs p1 /\ runs p1 cs' p'.
Proof.
  induction cs as [|c cs IH]; intros p p'; cbn [app].
  - split; [intros H; exists p; split; [apply runs_nil|done]|].
    by intros (p1 & H%runs_nil_inv & H1); subst.
  - rewrite runs_cons. split.
    + intros (p1 & H & (p2 & H1 & H2)%IH). exists p2. split; [|done]. apply runs_cons. eauto.
    + intros (p2 & (p1 & H & H1)%runs_cons & H2). exists p1. split; [done|]. apply IH. eauto.
Qed.

Lemma runs_step p c p1 cs p' : does p c p1 -> runs p1 cs p' -> runs p (c :: cs) p'.
Proof. intros. apply runs_cons. eauto. Qed.

Lemma runs_trans p cs p1 cs' p' : runs p cs p1 -> runs p1 cs' p' -> runs p (cs ++ cs') p'.
Proof. intros. apply runs_app. eauto. Qed.
End Runs.

(** ** Passing calls on

    A visitor that holds another passes on the calls of a whole value; its
    counters of arrays and maps are back where they were at the end. *)

Definition plain_call (c : call) : bool :=
  match c with
  | visit_boolean _ | visit_positive_integer _ | visit_negative_integer _ | visit_float32 _ | visit_float64 _
  | visit_str _ | visit_bin _ | visit_ext _ => true
  | _ => false
  end.
Definition item_call (c : call) : bool :=
  match c with start_array_item | end_array_item => true | _ => false end.
Definition pair_call (c : call) : bool :=
  match c with start_map_key | end_map_key | start_map_value | end_map_value => true | _ => false end.

(** The calls of a visitor of a map, or of a DCO class, on its counter. *)
Ltac map_forward :=
  try match goal with c : call |- _ => destruct c; try done end; cbn -[Z.of_nat];
  repeat match goal with
  | |- context [Z.of_nat ?m + 1 =? 0] => destruct (Z.eqb_spec (Z.of_nat m + 1) 0); [lia|]; cbn -[Z.of_nat]
  | |- context [Z.of_nat (S ?m) =? 0] => destruct (Z.eqb_spec (Z.of_nat (S m)) 0); [lia|]; cbn -[Z.of_nat]
  | |- context [Z.of_nat (S ?m) - 1 <? 0] => destruct (Z.ltb_spec (Z.of_nat (S m) - 1) 0); [lia|]; cbn -[Z.of_nat]
  end; unfold m_pass_key, m_pass_val; cbn -[Z.of_nat];
  match goal with E : handle _ _ _ = _ |- _ => rewrite E end; cbn -[Z.of_nat];
  unfold set_m_depth, set_m_mode, set_m_key, set_m_val; cbn -[Z.of_nat]; repeat f_equal; lia.

Ltac dco_forward :=
  try match goal with c : call |- _ => destruct c; try done end; cbn -[Z.of_nat d_pass map];
  repeat match goal with
  | |- context [Z.of_nat ?x =? 0] => destruct (Z.eqb_spec (Z.of_nat x) 0); [lia|]; rewrite ?andb_false_r
  end.
Ltac dco_depth := cbn -[Z.of_nat]; unfold set_nest, set_d_depth; cbn -[Z.of_nat]; repeat f_equal; lia.

Section Forwarding.
Context {MT : MsgTypes}.

(** [W a m p]: the visitor around [p], inside [a] arrays and [m] maps of the
    value. *)
Record Forwarder (W : nat -> nat -> state -> state) (ok : nat -> bool) : Prop := {
  fw_plain a m p c p' : plain_call c = true -> does p c p' -> does (W a m p) c (W a m p');
  fw_nil a m p p' : ok a = true -> does p visit_nil p' -> does (W a m p) visit_nil (W a m p');
  fw_start_array a m p n p' : does p (start_array n) p' -> does (W a m p) (start_array n) (W (S a) m p');
  fw_item a m p c p' : item_call c = true -> does p c p' -> does (W (S a) m p) c (W (S a) m p');
  fw_end_array a m p p' : does p end_array p' -> does (W (S a) m p) end_array (W a m p');
  fw_start_map a m p n p' : does p (start_map n) p' -> does (W a m p) (start_map n) (W a (S m) p');
  fw_pair a m p c p' : pair_call c = true -> does p c p' -> does (W a (S m) p) c (W a (S m) p');
  fw_end_map a m p p' : does p end_map p' -> does (W a (S m) p) end_map (W a m p')
}.

Lemma forwards W ok : Forwarder W ok -> forall v a m p p',
  nil_ok ok a v = true -> runs p (calls v) p' -> runs (W a m p) (calls v) (W a m p').
Proof.
  intros FW. induction v as [|b|z|z|r|r|s|s|s|l IH|l IH] using mval_nested_ind; intros a m p p' Hok Hr;
    cbn [calls] in *;
    try (apply runs_one in Hr; apply runs_one; first [by apply (fw_plain _ _ FW)|by apply (fw_nil _ _ FW)]).
  - apply runs_cons in Hr as (p1 & H1 & (p2 & H2 & H3%runs_one)%runs_app).
    eapply runs_step; [by apply (fw_start_array _ _ FW)|].
    eapply runs_trans; [|apply runs_one; by apply (fw_end_array _ _ FW)].
    clear H1 H3. cbn [nil_ok] in Hok. revert p1 H2 Hok.
    induction IH as [|x l Hx _ IHl]; cbn [map concat]; intros p1 H2 Hok.
    { apply runs_nil_inv in H2 as ->. apply runs_nil. }
    cbn [forallb] in Hok. apply andb_prop in Hok as [Hx1 Hl1].
    rewrite <- app_comm_cons, <- app_assoc in *. cbn [app] in *.
    apply runs_cons in H2 as (q1 & Hq1 & (q2 & Hq2 & (q3 & Hq3 & Hq4)%runs_cons)%runs_app).
    eapply runs_step; [by apply (fw_item _ _ FW)|].
    eapply runs_trans; [by apply Hx|].
    eapply runs_step; [by apply (fw_item _ _ FW)|]. by apply IHl.
  - apply runs_cons in Hr as (p1 & H1 & (p2 & H2 & H3%runs_one)%runs_app).
    eapply runs_step; [by apply (fw_start_map _ _ FW)|].
    eapply runs_trans; [|apply runs_one; by apply (fw_end_map _ _ FW)].
    clear H1 H3. cbn [nil_ok] in Hok. revert p1 H2 Hok.
    induction IH as [|[k x] l [Hk Hx] _ IHl]; cbn [map concat fst snd]; intros p1 H2 Hok.
    { apply runs_nil_inv in H2 as ->. apply runs_nil. }
    cbn [forallb fst snd] in *. apply andb_prop in Hok as [Hx1 Hl1]. apply andb_prop in Hx1 as [Hk1 Hx1].
    rewrite <- ?app_comm_cons, <- ?app_assoc in *. cbn [app] in *.
    rewrite <- ?app_comm_cons, <- ?app_assoc in *. cbn [app] in *.
    apply runs_cons in H2 as (q1 & Hq1 & (q2 & Hq2 & (q3 & Hq3 & (q4 & Hq4 & (q5 & Hq5 &
      (q6 & Hq6 & Hq7)%runs_cons)%runs_app)%runs_cons)%runs_cons)%runs_app).
    eapply runs_step; [by apply (fw_pair _ _ FW)|].
    eapply runs_trans; [by apply Hk|].
    eapply runs_step; [by apply (fw_pair _ _ FW)|].
    eapply runs_step; [by apply (fw_pair _ _ FW)|].
    eapply runs_trans; [by apply Hx|].
    eapply runs_step; [by apply (fw_pair _ _ FW)|]. by apply IHl.
Qed.

(** The gobble visitor takes any value. *)
Lemma gobble_all v o : runs (VGobble, o) (calls v) (VGobble, o).
Proof.
  assert (forall cs, runs (VGobble, o) cs (VGobble, o)) as Hall; [|apply Hall].
  intros cs. induction cs as [|c cs IH]; [apply runs_nil|]. by apply (runs_step _ c (VGobble, o)).
Qed.

(** *** The visitors of containers *)

(** The visitor of a vector, at the element [i]. *)
Definition in_vec (a : array_visitor) (l : list obj) (i : nat) (n m : nat) (p : state) : state :=
  (VArr (set_refers (Some i) (set_a_depth (Z.of_nat n) a)) p.1, OVec (<[i:=p.2]> l)).

Definition in_opt (valid : bool) (n m : nat) (p : state) : state := (VOpt VInit p.1, OOpt valid p.2).

Definition in_key (x : map_visitor) (nv : visitor) (l : list (obj * obj)) (n m : nat) (p : state) : state :=
  (VMap (set_m_depth (Z.of_nat m) (set_m_mode MKey (set_m_key p.2 x))) p.1 nv, OMap l).
Definition in_val (x : map_visitor) (nk : visitor) (l : list (obj * obj)) (n m : nat) (p : state) : state :=
  (VMap (set_m_depth (Z.of_nat m) (set_m_mode MValue (set_m_val p.2 x))) nk p.1, OMap l).

Definition in_member (d : dco_visitor) (vs : list visitor) (l : list obj) (i : nat) (n m : nat) (p : state) : state :=
  (VDco (set_nest (Some (Member i)) (set_d_depth (Z.of_nat (n + m)) d)) (<[i:=p.1]> vs), ODco (<[i:=p.2]> l)).
Definition in_gobble (d : dco_visitor) (vs : list visitor) (l : list obj) (n m : nat) (p : state) : state :=
  (VDco (set_nest (Some Gobbled) (set_d_depth (Z.of_nat (n + m)) d)) vs, ODco l).

Lemma in_opt_forwards valid : Forwarder (in_opt valid) opt_nil.
Proof.
  constructor; unfold does, in_opt; intros; try done; try destruct c; try done; cbn in *;
    match goal with E : handle _ _ _ = _ |- _ => by rewrite E end.
Qed.

Lemma a_pass_run a l i c p p' :
  refers a = Some i -> (i < length l)%nat -> does p c p' ->
  a_pass (handle p.1) a (<[i:=p.2]> l) c = Val (true, VArr a p'.1, OVec (<[i:=p'.2]> l)).
Proof.
  intros Hr Hi Hd. unfold a_pass. rewrite Hr, list_lookup_insert_eq by done.
  unfold does in Hd. rewrite Hd. cbn. by rewrite list_insert_insert_eq.
Qed.

Lemma in_vec_forwards a l i :
  (i < length l)%nat -> Forwarder (in_vec a l i) (vec_nil (a_kind a)).
Proof.
  intros Hi.
  assert (forall n c p p', does p c p' ->
    a_pass (handle p.1) (set_refers (Some i) (set_a_depth n a)) (<[i:=p.2]> l) c
    = Val (true, VArr (set_refers (Some i) (set_a_depth n a)) p'.1, OVec (<[i:=p'.2]> l))) as Hpass
    by (intros; by apply a_pass_run).
  constructor; unfold does, in_vec; intros n m p.
  - intros c p' Hc Hd. destruct c; try done; cbn; by apply Hpass.
  - intros p' Hok Hd. pose proof (Hpass (Z.of_nat n) _ _ _ Hd) as E. cbn [fst snd].
    set (a' := set_refers _ _) in *. change (a_nil (handle p.1) a' p.1 (<[i:=p.2]> l) = Val (true, VArr a' p'.1, OVec (<[i:=p'.2]> l))).
    unfold a_nil. change (a_kind a') with (a_kind a). change (a_depth a') with (Z.of_nat n).
    destruct (a_kind a); [exact E|..]; (destruct (Z.gtb_spec (Z.of_nat n) 0); [|destruct n; [done|lia]]);
      by rewrite E.
  - intros k p' Hd. cbn [fst snd]. set (a' := set_refers _ (set_a_depth (Z.of_nat n) _)).
    change (a_start_array (handle p.1) a' p.1 (<[i:=p.2]> l) k
            = Val (true, VArr (set_refers (Some i) (set_a_depth (Z.of_nat (S n)) a)) p'.1, OVec (<[i:=p'.2]> l))).
    unfold a_start_array. change (a_depth (set_a_depth _ _)) with (Z.of_nat n + 1).
    destruct (Z.eqb_spec (Z.of_nat n + 1) 0); [lia|]. cbn [negb].
    rewrite (a_pass_run (set_a_depth _ a') l i _ p p' eq_refl Hi Hd).
    by replace (Z.of_nat (S n)) with (Z.of_nat n + 1) by lia.
  - intros c p' Hc Hd. destruct c; try done; cbn; by apply Hpass.
  - intros p' Hd. cbn [fst snd]. set (a' := set_refers _ _).
    change (always (a_pass (handle p.1) (set_refers (Some i) (set_a_depth (Z.of_nat (S n) - 1) a)) (<[i:=p.2]> l) end_array)
            = Val (true, VArr (set_refers (Some i) (set_a_depth (Z.of_nat n) a)) p'.1, OVec (<[i:=p'.2]> l))).
    rewrite (Hpass _ _ _ _ Hd). by replace (Z.of_nat (S n) - 1) with (Z.of_nat n) by lia.
  - intros k p' Hd. by apply Hpass.
  - intros c p' Hc Hd. destruct c; try done; by apply Hpass.
  - intros p' Hd. by apply Hpass.
Qed.

Lemma in_key_forwards x nv l : Forwarder (in_key x nv l) (fun _ => true).
Proof. constructor; unfold does, in_key; intros n m p; intros; map_forward. Qed.

Lemma in_val_forwards x nk l : Forwarder (in_val x nk l) (fun _ => true).
Proof. constructor; unfold does, in_val; intros n m p; intros; map_forward. Qed.

Lemma d_pass_run d vs l i c p p' :
  (i < length vs)%nat -> (i < length l)%nat -> does p c p' ->
  d_pass (map handle (<[i:=p.1]> vs)) d (<[i:=p.1]> vs) (Member i) c (<[i:=p.2]> l)
  = Val (true, VDco d (<[i:=p'.1]> vs), ODco (<[i:=p'.2]> l)).
Proof.
  intros Hv Hl Hd. cbn. rewrite list_lookup_fmap, !list_lookup_insert_eq by done. cbn.
  unfold does in Hd. rewrite Hd. cbn. by rewrite !list_insert_insert_eq.
Qed.

Lemma in_member_forwards d vs l i :
  (i < length vs)%nat -> (i < length l)%nat -> Forwarder (in_member d vs l i) (fun _ => true).
Proof.
  intros Hv Hl.
  constructor; unfold does, in_member; intros n m p; intros; dco_forward;
    rewrite (d_pass_run _ _ _ _ _ _ _ Hv Hl ltac:(eassumption)); dco_depth.
Qed.

Lemma in_gobble_forwards d vs l : Forwarder (in_gobble d vs l) (fun _ => true).
Proof. constructor; unfold does, in_gobble; intros n m p; intros; dco_forward; dco_depth. Qed.
End Forwarding.

(** ** The members of a DCO class *)

Lemma index_of_app s a b :
  index_of s (a ++ b) = match index_of s a with
                        | Some i => Some i
                        | None => (fun i => length a + i)%nat <$> index_of s b
                        end.
Proof.
  induction a as [|n a IH]; cbn; [by destruct (index_of s b)|]. destruct (decide (n = s)); [done|].
  rewrite IH. destruct (index_of s a), (index_of s b); done.
Qed.

Lemma index_of_lookup s names i : index_of s names = Some i -> names !! i = Some s.
Proof.
  revert i. induction names as [|n names IH]; intros i; cbn; [done|].
  destruct (decide (n = s)) as [->|]; [by intros [= <-]|].
  destruct (index_of s names) as [j|]; [|done]. intros [= <-]. by apply IH.
Qed.

Lemma index_of_nodup names i s : NoDup names -> names !! i = Some s -> index_of s names = Some i.
Proof.
  intros Hn. revert i. induction Hn as [|n names Hin Hn IH]; intros i; [done|]. cbn.
  destruct i as [|i]; cbn; [intros [= ->]; by rewrite decide_True|].
  intros Hi. rewrite decide_False by (intros ->; apply Hin; by eapply list_elem_of_lookup_2).
  by rewrite (IH i).
Qed.

Lemma length_concat_reverse {A} (ll : list (list A)) : length (concat (reverse ll)) = length (concat ll).
Proof.
  induction ll as [|l ll IH]; [done|].
  rewrite reverse_cons, concat_app, length_app, IH. cbn. rewrite app_nil_r, length_app. lia.
Qed.

Lemma concat_reverse_cons {A} (l : list A) ll : concat (reverse (l :: ll)) = concat (reverse ll) ++ l.
Proof. rewrite reverse_cons, concat_app. cbn. by rewrite app_nil_r. Qed.

(** By name: the parents' members are looked at first. *)
Lemma set_visitor_named dn s lv : lv <> [] -> forall isparent sel nest,
  exists s', setVirtualVisitor dn lv (Some s) isparent sel nest =
    match index_of s (concat (reverse lv)) with
    | Some i => Val (true, Some (Member i), s')
    | None => if isparent then Val (false, nest, s') else Val (true, Some Gobbled, s')
    end.
Proof.
  induction lv as [|own parents IH]; [done|]; intros _ isparent sel nest.
  rewrite concat_reverse_cons, index_of_app, length_concat_reverse. cbn [setVirtualVisitor].
  destruct parents as [|p ps].
  - cbn. destruct (index_of s own) as [i|]; cbn; [by eexists|]. destruct isparent; by eexists.
  - destruct (IH ltac:(done) true sel nest) as (s' & E). rewrite E.
    destruct (index_of s (concat (reverse (p :: ps)))) as [i|]; cbn; [by eexists|].
    destruct (index_of s own) as [i|]; cbn; [by eexists|]. destruct isparent; by eexists.
Qed.

(** By number: the members of the parents come first. *)
Lemma set_visitor_next dn lv : lv <> [] -> forall isparent sel nest,
  setVirtualVisitor dn lv None isparent sel nest =
    if sel <? Z.of_nat (length (concat (reverse lv))) then Val (true, Some (Member (Z.to_nat sel)), sel)
    else if isparent then Val (false, nest, sel) else Exn (ExcessArrayMembers dn).
Proof.
  induction lv as [|own parents IH]; [done|]; intros _ isparent sel nest.
  rewrite concat_reverse_cons, length_app, length_concat_reverse. cbn [setVirtualVisitor].
  destruct parents as [|p ps]; [done|]. rewrite (IH ltac:(done)), length_concat_reverse.
  destruct (Z.ltb_spec sel (Z.of_nat (length (concat (p :: ps))))) as [H|H]; cbn -[concat].
  - destruct (Z.ltb_spec sel (Z.of_nat (length (concat (p :: ps)) + length own))); [done|lia].
  - done.
Qed.

Lemma name_levels_concat lv : forall names below, sum_list lv = length names ->
  concat (reverse (name_levels lv names below)) = concat (reverse below) ++ names.
Proof.
  induction lv as [|n lv IH]; intros names below; cbn [sum_list_with name_levels].
  - destruct names; [by rewrite app_nil_r|done].
  - intros Hs. change (n + sum_list lv = length names)%nat in Hs. rewrite IH by (rewrite length_drop; lia).
    by rewrite concat_reverse_cons, <- app_assoc, take_drop.
Qed.

Lemma name_levels_some lv : forall names below, lv <> [] \/ below <> [] -> name_levels lv names below <> [].
Proof.
  induction lv as [|n lv IH]; intros names below; cbn; [by intros []|]. intros _. apply IH. by right.
Qed.

(** ** The visitors compute the reference *)

Section Reading.
Context {MT : MsgTypes}.

(** A visitor that can take a value: a new one, or that of a vector that has
    had one. *)
Definition ready (t : ty) (v : visitor) : Prop :=
  v = fresh t \/
  match t, v with
  | TVec k t, VArr a _ => a_kind a = k /\ a_type a = t /\ a_depth a = -1
  | _, _ => False
  end.

Definition reads (t : ty) : Prop := forall old m new v,
  ready t v -> read_value t old m = Some new ->
  exists v', runs (v, old) (calls m) (v', new) /\ (reusable t = true -> ready t v').

Lemma ready_fresh t : ready t (fresh t).
Proof. by left. Qed.

Lemma ready_new t v : ready t v -> (forall k u, t <> TVec k u) -> v = fresh t.
Proof. intros [->|Hr] Ht; [done|]. destruct t; try done. by edestruct Ht. Qed.

Lemma ready_vec k t v : ready (TVec k t) v ->
  exists ix r e n, v = VArr (mkArray k t (-1) ix r e) n.
Proof.
  intros [->|Hr]; [by repeat eexists|]. destruct v as [|[] n| | | |]; try done.
  cbn in Hr. destruct Hr as (-> & -> & ->). by repeat eexists.
Qed.

Lemma leaf_reads l : reads (TLeaf l).
Proof.
  intros old m new v Hv Hm. rewrite (ready_new _ _ Hv) by done. exists (VLeaf l).
  split; [|by left]. cbn in Hm. unfold read_leaf in Hm.
  destruct m; try done; cbn [calls] in *; apply runs_one; unfold does; cbn; unfold leaf_call; by rewrite Hm.
Qed.

Definition array_item (x : mval) : list call := start_array_item :: calls x ++ [end_array_item].

(** The element a visitor of a vector is at. *)
Lemma element_run k t ix e i L o x o' :
  reads t -> read_value t o x = Some o' -> nil_ok (vec_nil k) 0 x = true -> L !! i = Some o ->
  exists n', runs (VArr (mkArray k t 0 ix (Some i) e) (fresh t), OVec L) (calls x ++ [end_array_item])
                  (VArr (mkArray k t 0 ix (Some i) e) n', OVec (<[i:=o']> L)).
Proof.
  intros Ht Hx Hn Hi. destruct (Ht _ _ _ _ (ready_fresh t) Hx) as (n' & Hr & _). exists n'.
  pose proof (forwards _ _ (in_vec_forwards (mkArray k t 0 ix (Some i) e) L i (lookup_lt_Some _ _ _ Hi))
                x 0%nat 0%nat _ _ Hn Hr) as H.
  unfold in_vec in H. cbn in H. rewrite list_insert_id in H by done.
  eapply runs_trans; [exact H|by apply runs_one].
Qed.

Lemma vec_item_run k t r e nest i L o x o' :
  reads t -> read_value t o x = Some o' -> nil_ok (vec_nil k) 0 x = true -> L !! i = Some o ->
  Z.of_nat i < 4294967296 -> k <> Push ->
  exists n', runs (VArr (mkArray k t 0 (Z.of_nat i) r e) nest, OVec L) (array_item x)
                  (VArr (mkArray k t 0 (u32 (Z.of_nat i + 1)) (Some i) e) n', OVec (<[i:=o']> L)).
Proof.
  intros Ht Hx Hn Hi Hlt Hk.
  destruct (element_run k t (u32 (Z.of_nat i + 1)) e i L o x o' Ht Hx Hn Hi) as (n' & Hr).
  exists n'. eapply runs_step; [|exact Hr]. unfold does. cbn. unfold a_start_item. cbn.
  unfold vec_at. by destruct k; rewrite ?Nat2Z.id, ?Hi.
Qed.

Lemma push_item_run t ix r e nest L x o' :
  reads t -> read_value t (init t) x = Some o' -> nil_ok (vec_nil Push) 0 x = true ->
  exists n', runs (VArr (mkArray Push t 0 ix r e) nest, OVec L) (array_item x)
                  (VArr (mkArray Push t 0 ix (Some (length L)) e) n', OVec (L ++ [o'])).
Proof.
  intros Ht Hx Hn.
  destruct (element_run Push t ix e (length L) (L ++ [init t]) (init t) x o' Ht Hx Hn) as (n' & Hr).
  { by apply list_lookup_middle. }
  rewrite insert_app_r_alt in Hr by done. rewrite Nat.sub_diag in Hr. exists n'. by eapply runs_step; [|exact Hr].
Qed.

Lemma vec_items_run k t e suf ms : reads t -> k <> Push -> forall pre olds news r nest,
  read_each (read_value t) olds ms = Some news -> forallb (nil_ok (vec_nil k) 0) ms = true ->
  Z.of_nat (length pre + length ms) < 4294967296 ->
  exists r' n', runs (VArr (mkArray k t 0 (u32 (Z.of_nat (length pre))) r e) nest, OVec (pre ++ olds ++ suf))
    (concat (map array_item ms))
    (VArr (mkArray k t 0 (u32 (Z.of_nat (length pre + length ms))) r' e) n', OVec (pre ++ news ++ suf)).
Proof.
  intros Ht Hk. induction ms as [|m ms IH]; intros pre olds news r nest Hr Hn Hl; destruct olds as [|o olds];
    cbn [read_each] in Hr; try done.
  { injection Hr as <-. rewrite Nat.add_0_r. do 2 eexists. apply runs_nil. }
  apply bind_Some in Hr as (x & Hx & Hr). apply bind_Some in Hr as (l & Hr & [= <-]).
  cbn [forallb map concat length] in *. apply andb_prop in Hn as [Hm Hn].
  rewrite (u32_id (Z.of_nat (length pre))) by (unfold is_u32; lia).
  destruct (vec_item_run k t r e nest (length pre) (pre ++ o :: olds ++ suf) o m x Ht Hx Hm) as (n1 & H1);
    [by apply list_lookup_middle|lia|done|].
  rewrite insert_app_r_alt, Nat.sub_diag in H1 by done. cbn in H1.
  destruct (IH (pre ++ [x]) olds l (Some (length pre)) n1 Hr Hn) as (r' & n' & H2).
  { rewrite length_app. cbn. lia. }
  rewrite length_app, <- !app_assoc in H2. cbn [length app] in H2.
  replace (Z.of_nat (length pre + 1)) with (Z.of_nat (length pre) + 1) in H2 by lia.
  replace (length pre + 1 + length ms)%nat with (length pre + S (length ms))%nat in H2 by lia.
  do 2 eexists. eapply runs_trans; [exact H1|exact H2].
Qed.

Lemma push_items_run t ix e ms : reads t -> forall L news r nest,
  read_each (read_value t) (replicate (length ms) (init t)) ms = Some news ->
  forallb (nil_ok (vec_nil Push) 0) ms = true ->
  exists r' n', runs (VArr (mkArray Push t 0 ix r e) nest, OVec L) (concat (map array_item ms))
    (VArr (mkArray Push t 0 ix r' e) n', OVec (L ++ news)).
Proof.
  intros Ht. induction ms as [|m ms IH]; intros L news r nest Hr Hn; cbn [read_each length replicate] in Hr.
  { injection Hr as <-. rewrite app_nil_r. do 2 eexists. apply runs_nil. }
  apply bind_Some in Hr as (x & Hx & Hr). apply bind_Some in Hr as (l & Hr & [= <-]).
  cbn [forallb map concat] in *. apply andb_prop in Hn as [Hm Hn].
  destruct (push_item_run t ix r e nest L m x Ht Hx Hm) as (n1 & H1).
  destruct (IH (L ++ [x]) l (Some (length L)) n1 Hr Hn) as (r' & n' & H2).
  rewrite <- app_assoc in H2. do 2 eexists. by eapply runs_trans.
Qed.

Lemma vec_reads k t : reads t -> reads (TVec k t).
Proof.
  intros Ht old m new v Hv Hm. destruct (ready_vec _ _ _ Hv) as (ix & r & e & n & ->). clear Hv.
  assert (forall ix r n, ready (TVec k t) (VArr (mkArray k t (-1) ix r e) n)) as Hready by (by right).
  cbn [read_value] in Hm. destruct old as [| | | |l| | |]; try done.
  apply fmap_Some in Hm as (new' & Hm & ->). destruct m as [| | | | | | | | |ms|]; try done; cbn [read_vec] in Hm.
  { eexists. split; [apply runs_one|done].
    unfold does. cbn. unfold a_nil. by destruct k; cbn; simplify_eq. }
  destruct (_ && _) eqn:Hg; [|done]. apply andb_prop in Hg as [Hlen Hnil]. apply Z.ltb_lt in Hlen.
  assert (exists ix1 l1, does (VArr (mkArray k t (-1) ix r e) n, OVec l) (start_array (Z.of_nat (length ms)))
      (VArr (mkArray k t 0 ix1 r e) n, OVec l1)
      /\ exists ix2 r2 n2, runs (VArr (mkArray k t 0 ix1 r e) n, OVec l1) (concat (map array_item ms))
           (VArr (mkArray k t 0 ix2 r2 e) n2, OVec new')) as (ix1 & l1 & H1 & ix2 & r2 & n2 & H2).
  { assert (k = Push \/ k <> Push) as [->|Hk] by (destruct k; auto).
    - apply fmap_Some in Hm as (news & Hm & ->). exists ix, l. split; [done|].
      destruct (push_items_run t ix e ms Ht l news r n Hm Hnil) as (r2 & n2 & H). by repeat eexists.
    - assert (exists l1, vec_resize k t (length ms) l = Val l1 /\ read_each (read_value t) l1 ms = Some new')
        as (l1 & Hl1 & Hr) by (destruct k; try done; destruct (vec_resize _ _ _ _); try done; by eexists).
      exists 0, l1. split.
      + unfold does. cbn. unfold a_start_array. cbn -[vec_resize]. rewrite Nat2Z.id. by destruct k; try done; rewrite Hl1.
      + destruct (vec_items_run k t e [] ms Ht Hk [] l1 new' r n Hr Hnil) as (r2 & n2 & H); [cbn; lia|].
        cbn [app] in H. rewrite !app_nil_r in H. by repeat eexists. }
  exists (VArr (mkArray k t (-1) ix2 r2 e) n2). split; [|done]. cbn [calls].
  eapply runs_step; [exact H1|]. eapply runs_trans; [exact H2|]. by apply runs_one.
Qed.

Lemma opt_reads t : reads t -> reads (TOpt t).
Proof.
  intros Ht old m new v Hv Hm. rewrite (ready_new _ _ Hv) by done. cbn [read_value] in Hm.
  destruct old as [| | | | |valid x| |]; try done.
  assert (m = MNil \/ (if nil_ok opt_nil 0 m then OOpt valid <$> read_value t x m else None) = Some new)
    as [->|Hx] by (destruct m; auto).
  { injection Hm as <-. eexists. split; [by apply runs_one|discriminate]. }
  destruct (nil_ok _ _ _) eqn:Hn; [|done]. apply fmap_Some in Hx as (x' & Hx & ->).
  destruct (Ht _ _ _ _ (ready_fresh t) Hx) as (n' & Hr & _). eexists. split; [|discriminate].
  exact (forwards _ _ (in_opt_forwards valid) m 0%nat 0%nat _ _ Hn Hr).
Qed.

(** *** Maps *)

Definition map_entry (e : mval * mval) : list call :=
  start_map_key :: calls e.1 ++ [end_map_key; start_map_value] ++ calls e.2 ++ [end_map_value].

Lemma nil_all v : forall a, nil_ok (fun _ => true) a v = true.
Proof.
  induction v as [| | | | | | | | |l IH|l IH] using mval_nested_ind; intros a; cbn; try done.
  - induction IH as [|x l Hx _ IHl]; cbn; [done|]. by rewrite Hx.
  - induction IH as [|e l [Hk Hx] _ IHl]; cbn; [done|]. by rewrite Hk, Hx.
Qed.

(** The key of an entry, from the mode the map is in before its first or a
    later one, and the whole entry. *)
Lemma map_key_run kt vt mode nk nk' nv l (e : mval * mval) k :
  mode = MInit \/ mode = MKey -> runs (nk, init kt) (calls e.1) (nk', k) ->
  runs (VMap (mkMap kt vt 0 mode (init kt) (init vt)) nk nv, OMap l)
       (start_map_key :: calls e.1 ++ [end_map_key; start_map_value])
       (VMap (mkMap kt vt 0 MValue k (init vt)) nk' nv, OMap l).
Proof.
  intros Hmode Hrk.
  pose proof (forwards _ _ (in_key_forwards (mkMap kt vt 0 MKey (init kt) (init vt)) nv l)
                e.1 0%nat 0%nat _ _ (nil_all _ _) Hrk) as H1.
  eapply runs_step; [|eapply runs_trans; [exact H1|]].
  { by destruct Hmode as [-> | ->]. }
  apply (runs_step _ _ (VMap (mkMap kt vt 0 MValue k (init vt)) nk' nv, OMap l)); [done|by apply runs_one].
Qed.

Lemma map_entry_steps kt vt mode nk nk' nv nv' l (e : mval * mval) k v :
  mode = MInit \/ mode = MKey -> runs (nk, init kt) (calls e.1) (nk', k) -> runs (nv, init vt) (calls e.2) (nv', v) ->
  runs (VMap (mkMap kt vt 0 mode (init kt) (init vt)) nk nv, OMap l) (map_entry e)
       (VMap (mkMap kt vt 0 MKey (init kt) (init vt)) nk' nv', OMap (emplace k v l)).
Proof.
  intros Hmode Hrk Hrv. pose proof (map_key_run kt vt mode nk nk' nv l e k Hmode Hrk) as H1.
  pose proof (forwards _ _ (in_val_forwards (mkMap kt vt 0 MKey k (init vt)) nk' l)
                e.2 0%nat 0%nat _ _ (nil_all _ _) Hrv) as H2.
  unfold map_entry. rewrite app_assoc, app_comm_cons. eapply runs_trans; [exact H1|].
  eapply runs_trans; [exact H2|]. by apply runs_one.
Qed.

Lemma map_entry_run kt vt mode nk nv l e k v :
  reads kt -> reads vt -> ready kt nk -> ready vt nv -> mode = MInit \/ mode = MKey ->
  read_value kt (init kt) e.1 = Some k -> read_value vt (init vt) e.2 = Some v ->
  exists nk' nv', runs (VMap (mkMap kt vt 0 mode (init kt) (init vt)) nk nv, OMap l) (map_entry e)
      (VMap (mkMap kt vt 0 MKey (init kt) (init vt)) nk' nv', OMap (emplace k v l))
    /\ (reusable kt = true -> ready kt nk') /\ (reusable vt = true -> ready vt nv').
Proof.
  intros Hkt Hvt Hnk Hnv Hmode Hk Hv.
  destruct (Hkt _ _ _ _ Hnk Hk) as (nk' & Hrk & Hk'). destruct (Hvt _ _ _ _ Hnv Hv) as (nv' & Hrv & Hv').
  exists nk', nv'. split; [by apply map_entry_steps|done].
Qed.

Lemma map_entries_run kt vt es : reads kt -> reads vt -> forall mode nk nv l l',
  ready kt nk -> ready vt nv -> mode = MInit \/ mode = MKey ->
  (length es <= 1)%nat \/ (reusable kt = true /\ reusable vt = true) ->
  read_entries kt vt (read_value kt) (read_value vt) es l = Some l' ->
  exists mode' nk' nv', runs (VMap (mkMap kt vt 0 mode (init kt) (init vt)) nk nv, OMap l) (concat (map map_entry es))
      (VMap (mkMap kt vt 0 mode' (init kt) (init vt)) nk' nv', OMap l').
Proof.
  intros Hkt Hvt. induction es as [|e es IH]; intros mode nk nv l l' Hnk Hnv Hmode Hre Hr; cbn [read_entries] in Hr.
  { injection Hr as <-. do 3 eexists. apply runs_nil. }
  apply bind_Some in Hr as (k & Hk & Hr). apply bind_Some in Hr as (v & Hv & Hr).
  destruct (map_entry_run kt vt mode nk nv l e k v Hkt Hvt Hnk Hnv Hmode Hk Hv) as (nk1 & nv1 & H1 & Hk1 & Hv1).
  cbn [map concat]. destruct es as [|e2 es].
  { injection Hr as <-. do 3 eexists. eapply runs_trans; [exact H1|apply runs_nil]. }
  destruct Hre as [Hlen|[Hrk Hrv]]; [cbn in Hlen; lia|].
  destruct (IH MKey nk1 nv1 _ l' (Hk1 Hrk) (Hv1 Hrv) (or_intror eq_refl) (or_intror (conj Hrk Hrv)) Hr)
    as (mode' & nk' & nv' & H2).
  do 3 eexists. eapply runs_trans; [exact H1|exact H2].
Qed.

Lemma map_reads kt vt : reads kt -> reads vt -> reads (TMap kt vt).
Proof.
  intros Hkt Hvt old m new v Hv Hm. rewrite (ready_new _ _ Hv) by done. cbn [read_value] in Hm.
  destruct old as [| | | | | |l|]; try done. apply fmap_Some in Hm as (l' & Hm & ->).
  destruct m as [| | | | | | | | | |es]; try done; cbn [read_map] in Hm.
  { injection Hm as <-. eexists. split; [by apply runs_one|discriminate]. }
  destruct (_ || _) eqn:Hg; [|done].
  destruct (map_entries_run kt vt es Hkt Hvt MInit (fresh kt) (fresh vt) l l') as (mode' & nk' & nv' & H);
    [apply ready_fresh..|by left| |done|].
  { apply orb_prop in Hg as [Hg|Hg]; [left; by apply Nat.leb_le|right; by apply andb_prop]. }
  eexists. split; [|discriminate]. cbn [calls].
  eapply runs_step; [|eapply runs_trans; [exact H|by apply runs_one]]; done.
Qed.

(** *** Objects of DCO classes *)

(** The visitor of a class between two members. *)
Definition dco_at (dn : string) (lv : list (list text)) (mode : VVMode) (s : Z) (key : text)
    (vs : list visitor) (l : list obj) : state :=
  (VDco (mkDco dn lv s 0 None mode key) vs, ODco l).

(** A member's value, once its visitor is selected. *)
Lemma member_run dn lv mode s key vs l i t o x o' c :
  reads t -> ready t (default VGobble (vs !! i)) -> is_Some (vs !! i) -> l !! i = Some o ->
  read_value t o x = Some o' ->
  (mode = VArray /\ c = end_array_item \/ mode = VMapping /\ c = end_map_value) ->
  exists v', runs (VDco (mkDco dn lv s 0 (Some (Member i)) mode key) vs, ODco l) (calls x ++ [c])
                  (dco_at dn lv mode s key (<[i:=v']> vs) (<[i:=o']> l)).
Proof.
  intros Ht Hr (v & Hv) Ho Hx Hc. rewrite Hv in Hr. cbn in Hr.
  destruct (Ht _ _ _ _ Hr Hx) as (v' & Hrun & _). exists v'.
  pose proof (forwards _ _ (in_member_forwards (mkDco dn lv s 0 (Some (Member i)) mode key) vs l i
    (lookup_lt_Some _ _ _ Hv) (lookup_lt_Some _ _ _ Ho)) x 0%nat 0%nat _ _ (nil_all _ _) Hrun) as H.
  unfold in_member in H. cbn in H. rewrite !list_insert_id in H by done.
  eapply runs_trans; [exact H|]. apply runs_one. by destruct Hc as [[-> ->]|[-> ->]].
Qed.

(** The value of a member that the class does not have. *)
Lemma gobbled_run dn lv s key vs l x :
  runs (VDco (mkDco dn lv s 0 (Some Gobbled) VMapping key) vs, ODco l) (calls x ++ [end_map_value])
       (dco_at dn lv VMapping s key vs l).
Proof.
  pose proof (forwards _ _ (in_gobble_forwards (mkDco dn lv s 0 (Some Gobbled) VMapping key) vs l)
    x 0%nat 0%nat _ _ (nil_all _ _) (gobble_all x (OInt 0))) as H.
  eapply runs_trans; [exact H|]. by apply runs_one.
Qed.

Definition readers (mems : list (text * ty * obj)) : list (obj -> mval -> option obj) :=
  map (fun f => read_value f.1.2) mems.

Lemma drop_cons {A} i (l : list A) x r : drop i l = x :: r -> l !! i = Some x /\ drop (S i) l = r.
Proof.
  intros E. split.
  - by rewrite <- (Nat.add_0_r i), <- lookup_drop, E.
  - by rewrite <- Nat.add_1_r, <- drop_drop, E.
Qed.

(** Members by number. *)
Lemma dco_items_run dn lv (mems : list (text * ty * obj)) key ms :
  Forall (fun f => reads f.1.2) mems -> lv <> [] -> length (concat (reverse lv)) = length mems ->
  forall i vs l r,
    (forall j f, (i <= j)%nat -> mems !! j = Some f -> vs !! j = Some (fresh f.1.2)) ->
    read_members (drop i (readers mems)) (drop i l) ms = Some r ->
    exists s vs', runs (dco_at dn lv VArray (Z.of_nat i - 1) key vs l) (concat (map array_item ms))
                       (dco_at dn lv VArray s key vs' (take i l ++ r)).
Proof.
  intros Hmems Hlv Hlen. induction ms as [|m ms IH]; intros i vs l r Hvs Hr.
  { cbn in Hr. injection Hr as <-. rewrite take_drop. do 2 eexists. apply runs_nil. }
  destruct (drop i (readers mems)) as [|f fs] eqn:Hf; [done|]. destruct (drop i l) as [|o os] eqn:Ho; [done|].
  cbn [read_members] in Hr. apply bind_Some in Hr as (x & Hx & Hr). apply bind_Some in Hr as (r' & Hr & [= <-]).
  apply drop_cons in Hf as [Hf <-]. apply drop_cons in Ho as [Ho <-].
  unfold readers in Hf. rewrite list_lookup_fmap in Hf. destruct (mems !! i) as [mem|] eqn:Hmem; [|done]. injection Hf as <-.
  pose proof (lookup_lt_Some _ _ _ Hmem) as Hi. pose proof (Hvs i mem ltac:(lia) Hmem) as Hv.
  pose proof (proj1 (Forall_lookup _ _) Hmems i mem Hmem) as Hread. cbn in Hread.
  destruct (member_run dn lv VArray (Z.of_nat i) key vs l i _ o m x end_array_item Hread) as (v' & H1);
    [rewrite Hv; apply ready_fresh|by rewrite Hv|done|done|by left|].
  destruct (IH (S i) (<[i:=v']> vs) (<[i:=x]> l) r') as (s & vs' & H2).
  { intros j f Hj Hjf. rewrite list_lookup_insert_ne by lia. apply Hvs; [lia|done]. }
  { rewrite drop_insert_lt by lia. exact Hr. }
  rewrite (take_S_r _ _ x), take_insert_ge, <- app_assoc in H2
    by first [lia|by apply list_lookup_insert_eq; apply (lookup_lt_Some _ _ _ Ho)].
  replace (Z.of_nat (S i) - 1) with (Z.of_nat i) in H2 by lia.
  exists s, vs'. cbn [map concat]. unfold array_item at 1. cbn [app].
  eapply runs_step; [|eapply runs_trans; [exact H1|exact H2]].
  unfold does, dco_at. cbn -[Z.of_nat Z.ltb]. rewrite set_visitor_next by done.
  replace (Z.of_nat i - 1 + 1) with (Z.of_nat i) by lia. rewrite Hlen.
  destruct (Z.ltb_spec (Z.of_nat i) (Z.of_nat (length mems))); [|lia]. by rewrite Nat2Z.id.
Qed.

(** The calls for the name of a member. *)
Lemma named_start dn lv s key vs l e q rest :
  short_key e = true ->
  (forall s', setVirtualVisitor dn lv (Some (entry_key e)) false s None = s' ->
     exists s1 t, s' = Val (true, Some t, s1)
       /\ runs (VDco (mkDco dn lv s1 0 (Some t) VMapping (entry_key e)) vs, ODco l) rest q) ->
  runs (dco_at dn lv VMapping s key vs l) (start_map_key :: calls e.1 ++ [end_map_key; start_map_value] ++ rest) q.
Proof.
  destruct e as [k m]. unfold short_key, entry_key. cbn [fst]. destruct k as [| | | | | |str| | | |]; try done.
  intros Hs%Z.ltb_lt Hsel. destruct (Hsel _ eq_refl) as (s1 & t & E & Hr).
  apply (runs_step _ _ (dco_at dn lv VMapping s key vs l)); [done|]. cbn [calls app].
  apply (runs_step _ _ (dco_at dn lv VMapping s (Dstring_assign 128 str) vs l)).
  { unfold does, dco_at. cbn -[Z.of_nat Z.leb Dstring_assign]. by destruct (Z.leb_spec 127 (Z.of_nat (length str))); [lia|]. }
  apply (runs_step _ _ (dco_at dn lv VMapping s (Dstring_assign 128 str) vs l)); [done|].
  eapply runs_step; [|exact Hr]. unfold does, dco_at. cbn -[Dstring_assign]. by rewrite E.
Qed.

(** Members by name. *)
Lemma dco_entries_run dn lv (mems : list (text * ty * obj)) es :
  Forall (fun f => reads f.1.2) mems -> lv <> [] -> concat (reverse lv) = map (fun f => f.1.1) mems ->
  forallb short_key es = true -> NoDup (map entry_key es) ->
  forall s key vs l l',
    (forall e i f, e ∈ es -> index_of (entry_key e) (map (fun f => f.1.1) mems) = Some i -> mems !! i = Some f ->
       vs !! i = Some (fresh f.1.2)) ->
    read_named (map (fun f => f.1.1) mems) (readers mems) es l = Some l' ->
    exists s' key' vs', runs (dco_at dn lv VMapping s key vs l) (concat (map map_entry es))
                             (dco_at dn lv VMapping s' key' vs' l').
Proof.
  intros Hmems Hlv Hnames. induction es as [|e es IH]; intros Hshort Hnd s key vs l l' Hvs Hr; cbn [read_named] in Hr.
  { injection Hr as <-. do 3 eexists. apply runs_nil. }
  cbn [forallb map] in *. apply andb_prop in Hshort as [He Hshort]. inversion Hnd as [|? ? Hnin Hnd1]; subst; clear Hnd; rename Hnd1 into Hnd.
  destruct (set_visitor_named dn (entry_key e) lv Hlv false s None) as (s1 & Esel). rewrite Hnames in Esel.
  assert (forall rest q, (exists t, setVirtualVisitor dn lv (Some (entry_key e)) false s None = Val (true, Some t, s1)
      /\ runs (VDco (mkDco dn lv s1 0 (Some t) VMapping (entry_key e)) vs, ODco l) (calls e.2 ++ end_map_value :: rest) q) ->
      runs (dco_at dn lv VMapping s key vs l) (map_entry e ++ rest) q) as Hstart.
  { intros rest q (t & Et & Hrun). unfold map_entry. rewrite <- app_comm_cons, <- !app_assoc. cbn [app].
    apply (named_start dn lv s key vs l e q _ He). intros s' <-. by exists s1, t. }
  destruct (index_of (entry_key e) (map (fun f => f.1.1) mems)) as [i|] eqn:Ei.
  - apply bind_Some in Hr as (f & Hf & Hr). apply bind_Some in Hr as (o & Ho & Hr).
    apply bind_Some in Hr as (x & Hx & Hr). unfold readers in Hf. rewrite list_lookup_fmap in Hf.
    destruct (mems !! i) as [mem|] eqn:Hmem; [|done]. injection Hf as <-.
    pose proof (Hvs e i mem (list_elem_of_here _ _) Ei Hmem) as Hv.
    pose proof (proj1 (Forall_lookup _ _) Hmems i mem Hmem) as Hread. cbn in Hread.
    destruct (member_run dn lv VMapping s1 (entry_key e) vs l i _ o e.2 x end_map_value Hread) as (v' & H1);
      [rewrite Hv; apply ready_fresh|by rewrite Hv|done|done|by right|].
    destruct (IH Hshort Hnd s1 (entry_key e) (<[i:=v']> vs) (<[i:=x]> l) l') as (s' & key' & vs' & H2); [|done|].
    { intros e' j f He' Hj Hjf. rewrite list_lookup_insert_ne; [exact (Hvs e' j f (list_elem_of_further _ _ _ He') Hj Hjf)|]. intros <-.
      apply index_of_lookup in Ei, Hj. apply Hnin. rewrite Ei in Hj. injection Hj as Hj. rewrite Hj. by apply list_elem_of_fmap_2. }
    exists s', key', vs'. apply Hstart. exists (Member i). split; [done|].
    rewrite cons_middle, app_assoc. eapply runs_trans; [exact H1|exact H2].
  - destruct (IH Hshort Hnd s1 (entry_key e) vs l l') as (s' & key' & vs' & H2).
    { intros e' j f He'. apply Hvs. by apply list_elem_of_further. }
    { done. }
    exists s', key', vs'. apply Hstart. exists Gobbled. split; [done|].
    rewrite cons_middle, app_assoc. eapply runs_trans; [apply gobbled_run|exact H2].
Qed.

(** The visitor of a class reads one object. *)
Lemma dco_run dn levels (mems : list (text * ty * obj)) l m l' :
  Forall (fun f => reads f.1.2) mems -> levels <> [] -> sum_list levels = length mems ->
  read_dco (map (fun f => f.1.1) mems) (readers mems) l m = Some l' ->
  exists s key vs', runs (fresh (TDco dn levels mems), ODco l) (calls m)
    (VDco (mkDco dn (name_levels levels (map m_name mems) []) s 0 None VExit key) vs', ODco l').
Proof.
  intros Hmems Hne Hsum Hm. set (lv := name_levels levels (map m_name mems) []).
  assert (lv <> []) as Hlv by (apply name_levels_some; by left).
  assert (concat (reverse lv) = map (fun f => f.1.1) mems) as Hnames
    by (unfold lv; rewrite name_levels_concat; [done|by rewrite length_map]).
  assert (forall j f, mems !! j = Some f -> map (fun f => fresh f.1.2) mems !! j = Some (fresh f.1.2)) as Hfresh
    by (intros j f Hj; by rewrite list_lookup_fmap, Hj).
  destruct m as [| | | | | | | | |ms|es]; try done; cbn [read_dco] in Hm.
  - destruct (dco_items_run dn lv mems [] ms Hmems Hlv) with (i := 0%nat) (vs := map (fun f => fresh f.1.2) mems)
      (l := l) (r := l') as (s & vs' & H); [by rewrite Hnames, length_map|auto|done|].
    exists s, [], vs'. cbn [calls].
    eapply runs_step; [|eapply runs_trans; [exact H|by apply runs_one]]. done.
  - destruct (_ && _) eqn:Hg; [|done]. apply andb_prop in Hg as [Hshort Hnd]. apply bool_decide_eq_true in Hnd.
    destruct (dco_entries_run dn lv mems es Hmems Hlv Hnames Hshort Hnd (-1) [] (map (fun f => fresh f.1.2) mems) l l')
      as (s & key & vs' & H); [auto|done|].
    exists s, key, vs'. cbn [calls].
    eapply runs_step; [|eapply runs_trans; [exact H|by apply runs_one]]. done.
Qed.

Lemma dco_reads dn levels (mems : list (text * ty * obj)) :
  Forall (fun f => reads f.1.2) mems -> levels <> [] -> sum_list levels = length mems ->
  reads (TDco dn levels mems).
Proof.
  intros Hmems Hne Hsum old m new v Hv Hm. rewrite (ready_new _ _ Hv) by done. cbn [read_value] in Hm.
  destruct old as [| | | | | | |l]; try done. apply fmap_Some in Hm as (l' & Hm & ->).
  destruct (dco_run dn levels mems l m l' Hmems Hne Hsum Hm) as (s & key & vs' & H).
  eexists. split; [exact H|discriminate].
Qed.

Lemma wf_members dn levels (mems : list (text * ty * obj)) : wf_ty (TDco dn levels mems) = true ->
  levels <> [] /\ sum_list levels = length mems /\ Forall (fun f => wf_ty f.1.2 = true) mems.
Proof.
  cbn. intros Hwf. apply andb_prop in Hwf as [Hwf Hall]. apply andb_prop in Hwf as [Hne Hsum].
  apply bool_decide_eq_true in Hne. apply Nat.eqb_eq in Hsum. rewrite forallb_forall in Hall.
  split_and!; [done|done|]. by apply Forall_forall.
Qed.

Lemma type_reads t : wf_ty t = true -> reads t.
Proof.
  induction t as [l|k t IH|t IH|kt vt IHk IHv|dn levels mems IH] using ty_nested_ind; intros Hwf.
  - apply leaf_reads.
  - by apply vec_reads, IH.
  - by apply opt_reads, IH.
  - cbn in Hwf. apply andb_prop in Hwf as [? ?]. by apply map_reads; auto.
  - destruct (wf_members _ _ _ Hwf) as (Hne & Hsum & Hall). apply dco_reads; [|done|done].
    clear Hwf Hsum. induction IH as [|f fs Hf _ IHfs]; [done|]. inversion Hall; subst. constructor; auto.
Qed.

Lemma members_read dn levels (mems : list (text * ty * obj)) :
  wf_ty (TDco dn levels mems) = true -> Forall (fun f => reads f.1.2) mems.
Proof.
  intros (_ & _ & H)%wf_members. clear -H. induction H as [|f fs Hf _ IH]; constructor; [by apply type_reads|done].
Qed.
End Reading.

(** ** The properties *)

Section Properties.
Context {MT : MsgTypes}.

End Properties.

#[local] Instance one_int_types : MsgTypes := {| new_leaf _ := OInt 0; key_equiv _ _ := false |}.

