(* ===== verification/MsgpackTrip.v ===== *)
(** Packing an object to MessagePack and unpacking it with visitors gives the
    object back, for the types [supported] below; DCO objects are read from
    maps whatever the order of their members; and what happens for the types
    that are left out. *)

From S2P Require Import Prelude Bytes Containers Msgpack MsgpackVisit MsgpackRead.
#[local] Open Scope Z_scope.

(** ** Packed objects *)

Definition packed_leaf (l : leaf) (o : obj) : mval :=
  match l, o with
  | LFloat32, OReal r => MFloat32 r
  | LFloat64, OReal r => MFloat64 r
  | _, OInt z => if 0 <=? z then MPos z else MNeg z
  | _, OBool b => MBool b
  | _, OStr s => MStr s
  | _, _ => MNil
  end.

Definition packed_member (arr : bool) (f : (obj -> mval) * text * obj) : mval * mval :=
  (MStr f.1.2, f.1.1 f.2).

(** The value an object is packed as. *)
Fixpoint packed (arr : bool) (t : ty) (o : obj) : mval :=
  match t, o with
  | TLeaf l, o => packed_leaf l o
  | TVec _ t, OVec l => MArr (map (packed arr t) l)
  | TOpt t, OOpt valid x => if valid then packed arr t x else MNil
  | TMap kt vt, OMap l => MMap (map (fun e => (packed false kt e.1, packed arr vt e.2)) l)
  | TDco _ _ members, ODco l =>
      let es := map (packed_member arr) (zip (map (fun f => (packed arr f.1.2, f.1.1)) members) l) in
      if arr then MArr (map snd es) else MMap es
  | _, _ => MNil
  end.

Definition leaf_ok (l : leaf) (o : obj) : Prop :=
  match l, o with
  | (LFloat32 | LFloat64), OReal _ => True
  | LInt T, OInt z => in_type T z
  | LEnum T, OInt z => in_type T z /\ 0 <= z
  | LBool, OBool _ => True
  | LString, OStr s => Z.of_nat (length s) < 4294967296
  | LDstring mxsize, OStr s => Z.of_nat (length s) < mxsize <= 4294967296 /\ c_str s = s
  | _, _ => False
  end.

Definition size_ok (k : vkind) (n : nat) : Prop :=
  match k with
  | Fix N | FixDefault N _ => n = N
  | LimVector N => (n <= N)%nat
  | _ => True
  end.

Section Objects.
Context {MT : MsgTypes}.

(** The objects of a type; the keys of a map differ. *)
Fixpoint has_ty (t : ty) (o : obj) : Prop :=
  match t, o with
  | TLeaf l, o => leaf_ok l o
  | TVec k t, OVec l => size_ok k (length l) /\ Z.of_nat (length l) < 4294967296 /\ Forall (has_ty t) l
  | TOpt t, OOpt valid x => valid = true -> has_ty t x
  | TMap kt vt, OMap l =>
      Z.of_nat (length l) < 4294967296 /\ Forall (fun e => has_ty kt e.1 /\ has_ty vt e.2) l
      /\ ForallOrdPairs (fun a b => key_equiv a b = false) (map fst l)
  | TDco _ _ members, ODco l =>
      (fix go ms l := match ms, l with
                      | [], [] => True
                      | f :: ms, x :: l => has_ty f.1.2 x /\ go ms l
                      | _, _ => False
                      end) members l
  | _, _ => False
  end.

(** What is there lets the object be read over it: lists and maps are empty,
    and an optional whose value is read is valid. *)
Fixpoint target (t : ty) (old o : obj) : Prop :=
  match t, old, o with
  | TLeaf _, _, _ => True
  | TVec (Fix _ | FixDefault _ _) t, OVec l, OVec l' => Forall2 (target t) l l'
  | TVec Push t, OVec l, OVec l' => l = [] /\ Forall (target t (init t)) l'
  | TVec _ t, OVec l, OVec l' => Forall2 (target t) (resize (length l') (init t) l) l'
  | TOpt t, OOpt valid x, OOpt valid' x' => valid' = true -> valid = true /\ target t x x'
  | TMap kt vt, OMap l, OMap l' =>
      l = [] /\ Forall (fun e => target vt (init vt) e.2) l'
  | TDco _ _ members, ODco l, ODco l' =>
      (fix go ms l l' := match ms, l, l' with
                         | [], [], [] => True
                         | f :: ms, x :: l, x' :: l' => target f.1.2 x x' /\ go ms l l'
                         | _, _, _ => False
                         end) members l l'
  | _, _, _ => False
  end.
End Objects.

(** Equality of objects as the operators [==] have it: two optionals without a
    value are equal. *)
Inductive same : obj -> obj -> Prop :=
  | same_refl o : same o o
  | same_vec l l' : Forall2 same l l' -> same (OVec l) (OVec l')
  | same_none x x' : same (OOpt false x) (OOpt false x')
  | same_some x x' : same x x' -> same (OOpt true x) (OOpt true x')
  | same_map l l' : Forall2 (fun e e' => e.1 = e'.1 /\ same e.2 e'.2) l l' -> same (OMap l) (OMap l')
  | same_dco l l' : Forall2 same l l' -> same (ODco l) (ODco l').

(** No optional anywhere. *)
Fixpoint no_opt (t : ty) : bool :=
  match t with
  | TLeaf _ => true
  | TVec _ t => no_opt t
  | TOpt _ => false
  | TMap kt vt => no_opt kt && no_opt vt
  | TDco _ _ members => forallb (fun f => no_opt f.1.2) members
  end.

(** No nil in the packed object outside its arrays. *)
Fixpoint no_outer_nil (arr : bool) (t : ty) : bool :=
  match t with
  | TLeaf _ | TVec _ _ => true
  | TOpt _ => false
  | TMap kt vt => no_outer_nil false kt && no_outer_nil arr vt
  | TDco _ _ members => arr || forallb (fun f => no_outer_nil arr f.1.2) members
  end.

Definition is_leaf (t : ty) : bool := match t with TLeaf _ => true | _ => false end.
Definition is_fix (k : vkind) : bool := match k with Fix _ => true | _ => false end.

Definition name_ok (s : text) : bool := (Z.of_nat (length s) <? 127) && bool_decide (c_str s = s).

(** The types that make the round trip. *)
Fixpoint supported (arr : bool) (t : ty) : bool :=
  match t with
  | TLeaf _ => true
  | TVec k t => supported arr t && (is_fix k || no_outer_nil arr t)
  | TOpt t => supported arr t && no_opt t
  | TMap kt vt => is_leaf kt && reusable vt && supported arr vt
  | TDco _ levels members =>
      forallb (fun f => supported arr f.1.2) members
      && bool_decide (levels <> []) && Nat.eqb (sum_list levels) (length members)
      && forallb (fun f => name_ok f.1.1) members
      && bool_decide (NoDup (map (fun f => f.1.1) members))
      && (Z.of_nat (length members) <? 4294967296)
  end.

Section RoundTrip.
Context {MT : MsgTypes}.

Lemma supported_wf arr t : supported arr t = true -> wf_ty t = true.
Proof.
  induction t as [l|k t IH|t IH|kt vt IHk IHv|dn levels mems IH] using ty_nested_ind; cbn; intros Hs;
    repeat (apply andb_prop in Hs as [Hs ?]); [done|by apply IH|by apply IH| |].
  - destruct kt; try done. cbn. by apply IHv.
  - repeat (apply andb_true_intro; split); [done|done|].
    clear -IH Hs. induction IH as [|f fs Hf _ IHfs]; [done|]. cbn in *.
    apply andb_prop in Hs as [Hs Hs1]. by rewrite Hf, IHfs.
Qed.

(** *** Nil *)

Lemma nil_deep ok v : forall a, (forall b, (a <= b)%nat -> ok b = true) -> nil_ok ok a v = true.
Proof.
  induction v as [| | | | | | | | |l IH|l IH] using mval_nested_ind; intros a Hok; cbn; try done; [by apply Hok|..].
  - induction IH as [|x l Hx _ IHl]; cbn; [done|]. rewrite Hx by (intros; apply Hok; lia). done.
  - induction IH as [|e l [Hk Hx] _ IHl]; cbn; [done|]. by rewrite Hk, Hx.
Qed.

Lemma leaf_packed_nil ok a l o : leaf_ok l o -> nil_ok ok a (packed_leaf l o) = true.
Proof. destruct l, o; try done; cbn; intros; by destruct (0 <=? _). Qed.

Lemma forallb_entries (f : mval -> bool) es :
  forallb (fun e => f e.1 && f e.2) es = true -> forallb f (map snd es) = true.
Proof.
  induction es as [|e es IH]; cbn; [done|]. intros H. apply andb_prop in H as [H H1].
  apply andb_prop in H as [_ H]. by rewrite H, IH.
Qed.

Lemma no_opt_nil ok t : no_opt t = true -> forall arr a o, has_ty t o -> nil_ok ok a (packed arr t o) = true.
Proof.
  induction t as [l|k t IH|t IH|kt vt IHk IHv|dn levels mems IH] using ty_nested_ind; intros Hno arr a o Ho;
    cbn in Hno; destruct o; try done; try by apply leaf_packed_nil.
  - cbn in *. destruct Ho as (_ & _ & Ho). induction Ho as [|x l Hx _ IHl]; cbn; [done|]. by rewrite IH, IHl.
  - cbn in *. apply andb_prop in Hno as [Hk Hv]. destruct Ho as (_ & Ho & _).
    induction Ho as [|e l [Hx1 Hx2] _ IHl]; cbn; [done|]. by rewrite IHk, IHv, IHl.
  - cbn in *. assert (forall a, forallb (fun e => nil_ok ok a e.1 && nil_ok ok a e.2)
      (map (packed_member arr) (zip (map (fun f => (packed arr f.1.2, f.1.1)) mems) l)) = true) as H.
    { intros b. revert l Ho. clear -IH Hno. induction IH as [|f fs Hf _ IHfs]; intros l Ho; destruct l as [|x l]; try done.
      cbn in *. apply andb_prop in Hno as [Hno Hno1]. destruct Ho as [Hx Ho]. by rewrite Hf, IHfs. }
    destruct arr; [|apply H]. apply forallb_entries, H.
Qed.

Lemma outer_nil t : forall arr o, no_outer_nil arr t = true -> has_ty t o ->
  nil_ok (fun a => negb (Nat.eqb a 0)) 0 (packed arr t o) = true.
Proof.
  induction t as [l|k t IH|t IH|kt vt IHk IHv|dn levels mems IH] using ty_nested_ind; intros arr o Hno Ho;
    destruct o; try done; try by apply leaf_packed_nil.
  - cbn [packed nil_ok]. apply forallb_forall. intros x _. apply nil_deep. intros b Hb. by destruct b; [lia|].
  - cbn in *. apply andb_prop in Hno as [Hk Hv]. destruct Ho as (_ & Ho & _).
    induction Ho as [|e l [Hx1 Hx2] _ IHl]; cbn; [done|]. by rewrite IHk, IHv, IHl.
  - cbn in *. destruct arr; cbn in Hno.
    { apply forallb_forall. intros x _. apply nil_deep. intros b Hb. by destruct b; [lia|]. }
    revert l Ho. clear -IH Hno. induction IH as [|f fs Hf _ IHfs]; intros l Ho; destruct l as [|x l]; try done.
    cbn in *. apply andb_prop in Hno as [Hno Hno1]. destruct Ho as [Hx Ho]. by rewrite Hf, IHfs.
Qed.

Lemma item_nil arr k t o : (is_fix k || no_outer_nil arr t) = true -> has_ty t o ->
  nil_ok (vec_nil k) 0 (packed arr t o) = true.
Proof. intros Hk Ho. destruct k; [apply nil_all|by apply outer_nil..]. Qed.

(** *** Packing *)

Lemma pack_all_map {A B} (f : A -> outcome (list item)) (g : A -> B) (h : B -> list item) l :
  Forall (fun x => f x = Val (h (g x))) l -> pack_all f l = Val (concat (map h (map g l))).
Proof.
  induction 1 as [|x l Hx _ IH]; cbn; [done|]. rewrite Hx. cbn. by rewrite IH.
Qed.

Lemma checked_size n : Z.of_nat n < 4294967296 -> checked_get_container_size n = Val (Z.of_nat n).
Proof. intros Hn. unfold checked_get_container_size. by destruct (Z.ltb_spec (Z.of_nat n) 4294967296); [|lia]. Qed.

Lemma leaf_pack l o : leaf_ok l o -> pack_leaf l o = Val (items (packed_leaf l o)).
Proof.
  destruct l, o; try done; cbn; intros H; try (by destruct (0 <=? z)); rewrite checked_size by lia; done.
Qed.

Lemma pack_packed t : forall arr o, supported arr t = true -> has_ty t o -> pack arr t o = Val (items (packed arr t o)).
Proof.
  induction t as [l|k t IH|t IH|kt vt IHk IHv|dn levels mems IH] using ty_nested_ind; intros arr o Hs Ho;
    cbn in Hs; repeat (apply andb_prop in Hs as [Hs ?]); destruct o; try done; try by apply leaf_pack.
  - destruct Ho as (_ & Hl & Ho). cbn. rewrite checked_size by done. cbn.
    rewrite (pack_all_map _ (packed arr t) items); [by rewrite length_map|].
    eapply Forall_impl; [|exact Ho]. auto.
  - cbn in *. destruct valid; auto.
  - destruct Ho as (Hl & Ho & _). cbn. rewrite checked_size by done. cbn.
    rewrite (pack_all_map _ (fun e => (packed false kt e.1, packed arr vt e.2))
               (fun e => items e.1 ++ items e.2)); [by rewrite length_map|].
    eapply Forall_impl; [|exact Ho]. intros e [Hk Hv]. cbn. destruct kt; try done.
    rewrite IHk, IHv by done. done.
  - assert (length mems = length l) as Hlen.
    { cbn in Ho. clear -Ho. revert l Ho. induction mems; intros []; try done. cbn. intros [_ ?]. f_equal. auto. }
    cbn [pack packed]. set (z := zip (map (fun f => (packed arr f.1.2, f.1.1)) mems) l).
    assert (pack_all (pack_member arr) (zip (map (fun f => (pack arr f.1.2, f.1.1)) mems) l)
            = Val (concat (map (fun e => (if arr then [] else items e.1) ++ items e.2) (map (packed_member arr) z)))) as E.
    { unfold z. clear -IH Hs Ho. revert l Ho. induction IH as [|f fs Hf _ IHfs]; intros l Ho; destruct l as [|x l]; try done.
      cbn [map zip zip_with pack_all has_ty forallb] in *. apply andb_prop in Hs as [Hs Hs1]. destruct Ho as [Hx Ho].
      cbn [pack_all concat map]. rewrite (IHfs Hs1 l Ho). unfold pack_member at 1. cbn. rewrite Hf by done. cbn.
      by destruct arr. }
    rewrite E. cbn. destruct arr; cbn; rewrite !length_map; unfold z; rewrite length_zip, length_map, Hlen, Nat.min_id.
    + by rewrite (map_map snd items).
    + done.
Qed.

(** *** Reading what was packed *)

Lemma leaf_read l o : leaf_ok l o -> read_leaf l (packed_leaf l o) = Some o.
Proof.
  destruct l, o; try done; cbn -[Dstring_assign].
  - intros Hz. destruct (Z.leb_spec 0 z); cbn; [by rewrite to_type_id|].
    assert (is_signed T = true) as -> by (destruct T; try done; cbn in Hz; unfold is_u8, is_u16, is_u32, is_u64 in Hz; lia).
    by rewrite to_type_id.
  - intros [Hz Hp]. destruct (Z.leb_spec 0 z); [cbn|lia]. by rewrite to_type_id.
  - intros [Hlen Hc]. unfold Dstring_assign. rewrite take_ge by lia. by rewrite Hc.
Qed.

Lemma read_each_trip arr t olds l :
  (forall old o, target t old o -> has_ty t o -> exists new, read_value t old (packed arr t o) = Some new /\ same new o) ->
  Forall2 (target t) olds l -> Forall (has_ty t) l ->
  exists news, read_each (read_value t) olds (map (packed arr t) l) = Some news /\ Forall2 same news l.
Proof.
  intros Ht H2 Hl. induction H2 as [|old o olds l Hx _ IH]; cbn; [by eexists|].
  inversion Hl; subst. destruct (Ht old o) as (new & -> & Hs); [done..|].
  destruct IH as (news & -> & Hn); [done|]. cbn. eexists. split; [done|]. by constructor.
Qed.

Lemma emplace_new k v l : Forall (fun e => key_equiv e.1 k = false) l -> emplace k v l = l ++ [(k, v)].
Proof.
  intros H. unfold emplace. replace (existsb _ l) with false; [done|].
  symmetry. induction H as [|e l He _ IH]; cbn; [done|]. by rewrite He, IH.
Qed.

Lemma ordered_before {A} (R : A -> A -> Prop) l1 x l2 : ForallOrdPairs R (l1 ++ x :: l2) -> Forall (fun y => R y x) l1.
Proof.
  induction l1 as [|y l1 IH]; cbn; intros H; [constructor|]. inversion H as [|? ? Hy Hl]; subst.
  constructor; [|by apply IH]. rewrite Forall_forall in Hy. apply Hy. apply in_or_app. right. by left.
Qed.

Lemma entries_trip arr lf vt l :
  (forall old o, target vt old o -> has_ty vt o -> exists new, read_value vt old (packed arr vt o) = Some new /\ same new o) ->
  Forall (fun e => target vt (init vt) e.2) l -> Forall (fun e => leaf_ok lf e.1 /\ has_ty vt e.2) l ->
  forall acc, ForallOrdPairs (fun a b => key_equiv a b = false) (map fst acc ++ map fst l) ->
  exists news, read_entries (TLeaf lf) vt (read_value (TLeaf lf)) (read_value vt)
      (map (fun e => (packed false (TLeaf lf) e.1, packed arr vt e.2)) l) acc = Some (acc ++ news)
    /\ Forall2 (fun e e' => e.1 = e'.1 /\ same e.2 e'.2) news l.
Proof.
  intros Ht Htar Hty. induction l as [|e l IH]; intros acc Hk; cbn [map read_entries].
  { exists []. rewrite app_nil_r. by split. }
  inversion Htar as [|? ? Ht1 Ht2]; subst. inversion Hty as [|? ? [Hlf Hv] Hty2]; subst. cbn [fst snd].
  change (read_value (TLeaf lf) (init (TLeaf lf)) (packed false (TLeaf lf) e.1)) with (read_leaf lf (packed_leaf lf e.1)).
  rewrite (leaf_read lf _ Hlf). cbn [option_bind mbind]. destruct (Ht _ _ Ht1 Hv) as (new & -> & Hsame). cbn [option_bind mbind].
  cbn [map] in Hk. rewrite emplace_new by (apply ordered_before in Hk; by rewrite Forall_map in Hk).
  destruct (IH Ht2 Hty2 (acc ++ [(e.1, new)])) as (news & E & Hn).
  { by rewrite map_app, <- app_assoc. }
  rewrite <- app_assoc in E. exists ((e.1, new) :: news). split; [exact E|]. by constructor.
Qed.

(** The members of an object, and what is read of them. *)
Definition trips (t : ty) : Prop := forall arr old o,
  supported arr t = true -> target t old o -> has_ty t o ->
  exists new, read_value t old (packed arr t o) = Some new /\ same new o.

Lemma members_trip arr (mems : list (text * ty * obj)) lold l :
  Forall (fun f => trips f.1.2) mems -> forallb (fun f => supported arr f.1.2) mems = true ->
  has_ty (TDco EmptyString [] mems) (ODco l) -> target (TDco EmptyString [] mems) (ODco lold) (ODco l) ->
  exists news, length news = length mems /\ length lold = length mems /\ Forall2 same news l /\
    forall i f x, mems !! i = Some f -> l !! i = Some x ->
    exists old new, lold !! i = Some old /\ news !! i = Some new /\ read_value f.1.2 old (packed arr f.1.2 x) = Some new.
Proof.
  intros Hm. revert lold l. induction Hm as [|f fs Hf _ IH]; intros lold l Hs Hty Ht; destruct lold, l; try done.
  { by exists []. }
  cbn in Hs, Hty, Ht. apply andb_prop in Hs as [Hs Hs1]. destruct Hty as [Hx Hty], Ht as [Hy Ht].
  destruct (Hf arr _ _ Hs Hy Hx) as (new & E & Hsame). destruct (IH lold l Hs1 Hty Ht) as (news & Hlen & Hlo & Hn & Hi).
  exists (new :: news). split_and!; [cbn; congruence|cbn; congruence|by constructor|].
  intros [|i] f' x; cbn; [|apply Hi]. intros [= <-] [= <-]. by exists o, new.
Qed.

Lemma read_members_pointwise (fs : list (obj -> mval -> option obj)) lold ms news :
  length ms = length fs -> length lold = length fs -> length news = length fs ->
  (forall i f old m, fs !! i = Some f -> lold !! i = Some old -> ms !! i = Some m -> f old m = news !! i) ->
  read_members fs lold ms = Some news.
Proof.
  revert fs lold news. induction ms as [|m ms IH]; intros [|f fs] [|o lold] [|x news]; cbn; try done.
  intros [= H1] [= H2] [= H3] Hi. rewrite (Hi 0%nat f o m eq_refl eq_refl eq_refl). cbn.
  rewrite (IH fs lold news H1 H2 H3); [done|]. intros i. apply (Hi (S i)).
Qed.

Lemma read_named_pointwise names (fs : list (obj -> mval -> option obj)) es :
  NoDup names -> length fs = length names -> NoDup (map entry_key es) ->
  forall l news, length l = length names -> length news = length names ->
  (forall i nm f o x, names !! i = Some nm -> fs !! i = Some f -> l !! i = Some o -> news !! i = Some x ->
     (forall e, e ∈ es -> entry_key e = nm -> f o e.2 = Some x)
     /\ ((forall e, e ∈ es -> entry_key e <> nm) -> x = o)) ->
  read_named names fs es l = Some news.
Proof.
  intros Hn Hf. induction es as [|e es IH]; intros Hd l news Hl Hw Hi; cbn [read_named].
  { f_equal. apply list_eq_same_length with (length names); [done|done|]. intros i o x Hlt Ho Hx.
    destruct (lookup_lt_is_Some_2 names i Hlt) as (nm & Hnm).
    destruct (lookup_lt_is_Some_2 fs i ltac:(lia)) as (f & Hfi).
    symmetry. apply (Hi i nm f o x Hnm Hfi Ho Hx). intros e He. inversion He. }
  cbn in Hd. inversion Hd as [|? ? Hnin Hd2]; subst.
  destruct (index_of (entry_key e) names) as [i|] eqn:Ei.
  - pose proof (index_of_lookup _ _ _ Ei) as Hnm. pose proof (lookup_lt_Some _ _ _ Hnm) as Hlt.
    destruct (lookup_lt_is_Some_2 fs i ltac:(lia)) as (f & Hfi).
    destruct (lookup_lt_is_Some_2 l i ltac:(lia)) as (o & Ho).
    destruct (lookup_lt_is_Some_2 news i ltac:(lia)) as (x & Hx).
    rewrite Hfi. cbn. rewrite Ho. cbn. destruct (Hi i _ f o x Hnm Hfi Ho Hx) as [H1 _].
    rewrite (H1 e (list_elem_of_here _ _) eq_refl). cbn. apply IH; [done|by rewrite length_insert|done|].
    intros j nm g oj xj Hj Hg Hoj Hxj. destruct (decide (j = i)) as [->|Hne].
    + rewrite list_lookup_insert_eq in Hoj by lia. simplify_eq. split; [|done].
      intros e' He' Ek. destruct Hnin. rewrite <- Ek. by apply list_elem_of_fmap_2.
    + rewrite list_lookup_insert_ne in Hoj by done. destruct (Hi j nm g oj xj Hj Hg Hoj Hxj) as [H2 H3]. split.
      * intros e' He'. apply H2. by right.
      * intros Hno. apply H3. intros e' [->|He']%elem_of_cons; [|by apply Hno].
        intros Ek. apply Hne. rewrite Ek in Hnm. exact (NoDup_lookup names j i nm Hn Hj Hnm).
  - apply IH; [done|done|done|]. intros j nm g oj xj Hj Hg Hoj Hxj.
    destruct (Hi j nm g oj xj Hj Hg Hoj Hxj) as [H2 H3]. split.
    + intros e' He'. apply H2. by right.
    + intros Hno. apply H3. intros e' [->|He']%elem_of_cons; [|by apply Hno].
      intros Ek. by rewrite Ek, (index_of_nodup names j) in Ei.
Qed.

(** *** A DCO object, packed *)

Lemma packed_entries_lookup arr (mems : list (text * ty * obj)) l i :
  map (packed_member arr) (zip (map (fun f => (packed arr f.1.2, f.1.1)) mems) l) !! i
  = f ← mems !! i; x ← l !! i; Some (MStr f.1.1, packed arr f.1.2 x).
Proof.
  revert l i. induction mems as [|f mems IH]; intros l i; [done|]. destruct l as [|x l].
  - cbn. by destruct i; cbn; [|destruct (mems !! i)].
  - destruct i as [|i]; [done|]. apply IH.
Qed.

Lemma entry_key_name nm m : name_ok nm = true -> entry_key (MStr nm, m) = nm /\ short_key (MStr nm, m) = true.
Proof.
  unfold name_ok. intros H. apply andb_prop in H as [Hl Hc]. apply bool_decide_eq_true in Hc.
  split; [|done]. unfold entry_key, Dstring_assign. cbn [fst]. apply Z.ltb_lt in Hl.
  by rewrite take_ge by (change (Z.to_nat (128 - 1)) with 127%nat; lia).
Qed.

Lemma packed_entry arr (mems : list (text * ty * obj)) l :
  forallb (fun f => name_ok f.1.1) mems = true -> forall i e,
  map (packed_member arr) (zip (map (fun f => (packed arr f.1.2, f.1.1)) mems) l) !! i = Some e ->
  exists f x, mems !! i = Some f /\ l !! i = Some x
    /\ e = (MStr f.1.1, packed arr f.1.2 x) /\ entry_key e = f.1.1 /\ short_key e = true.
Proof.
  intros Hnames i e He. rewrite packed_entries_lookup in He. destruct (mems !! i) as [f|] eqn:Ef; [|done].
  destruct (l !! i) as [x|] eqn:Ex; [|done]. injection He as <-. exists f, x.
  rewrite forallb_forall in Hnames. split_and!; try done; apply entry_key_name, Hnames, list_elem_of_In;
    by eapply list_elem_of_lookup_2.
Qed.

Lemma packed_keys arr (mems : list (text * ty * obj)) l :
  forallb (fun f => name_ok f.1.1) mems = true -> length l = length mems ->
  map entry_key (map (packed_member arr) (zip (map (fun f => (packed arr f.1.2, f.1.1)) mems) l))
  = map (fun f => f.1.1) mems.
Proof.
  intros Hnames Hl. apply list_eq. intros i. rewrite (list_lookup_fmap entry_key), (list_lookup_fmap (fun f => f.1.1)).
  set (es := map _ _). destruct (es !! i) as [e|] eqn:Ee.
  - destruct (packed_entry arr mems l Hnames i e Ee) as (f & x & -> & _ & _ & Hk & _). cbn. by rewrite Hk.
  - apply lookup_ge_None in Ee. unfold es in Ee. rewrite length_map, length_zip, length_map in Ee.
    by rewrite (proj2 (lookup_ge_None mems i)) by lia.
Qed.

Lemma dco_trip dn levels (mems : list (text * ty * obj)) :
  Forall (fun f => trips f.1.2) mems -> trips (TDco dn levels mems).
Proof.
  intros Hm arr old o Hs Ht Ho. destruct o as [| | | | | | |l], old as [| | | | | | |lold]; try done.
  cbn in Hs. repeat (apply andb_prop in Hs as [Hs ?]). rename H1 into Hnames. apply bool_decide_eq_true in H0.
  destruct (members_trip arr mems lold l Hm Hs Ho Ht) as (news & Hlen & Hlo & Hsame & Hi).
  exists (ODco news). split; [|by constructor].
  assert (length l = length mems) as Hl by (apply Forall2_length in Hsame; lia).
  set (es := map (packed_member arr) (zip (map (fun f => (packed arr f.1.2, f.1.1)) mems) l)).
  assert (length es = length mems) as Hle by (unfold es; rewrite length_map, length_zip, length_map; lia).
  pose proof (packed_entry arr mems l Hnames) as Hentry. fold es in Hentry.
  cbn [read_value packed]. fold es. destruct arr; cbn [read_dco].
  - rewrite (read_members_pointwise _ lold _ news); [done|by rewrite !length_map, Hle|by rewrite length_map..|].
    intros i f o m Hf Hoi Hmi. rewrite list_lookup_fmap in Hf. rewrite list_lookup_fmap in Hmi.
    destruct (mems !! i) as [mem|] eqn:Emem; [|done]. injection Hf as <-.
    destruct (es !! i) as [e|] eqn:Ee; [|done]. injection Hmi as <-.
    destruct (Hentry i e Ee) as (f & x & Ef & Ex & -> & _). rewrite Emem in Ef. injection Ef as <-.
    destruct (Hi i mem x Emem Ex) as (old & new & E1 & E2 & E3). rewrite E1 in Hoi. injection Hoi as <-. by rewrite E2.
  - pose proof (packed_keys false mems l Hnames Hl) as Hkeys. fold es in Hkeys.
    replace (forallb short_key es) with true.
    2:{ symmetry. apply forallb_forall. intros e He%list_elem_of_In. apply list_elem_of_lookup in He as (i & He).
        by destruct (Hentry i e He) as (? & ? & ? & ? & ? & ? & ?). }
    rewrite Hkeys, bool_decide_true by done. cbn [andb].
    rewrite (read_named_pointwise _ _ es) with (news := news); [done|done|by rewrite !length_map|by rewrite Hkeys|
      by rewrite length_map..|].
    intros i nm f o x Hnm Hf Hoi Hx. rewrite list_lookup_fmap in Hnm. rewrite list_lookup_fmap in Hf.
    destruct (mems !! i) as [mem|] eqn:Emem; [|done]. injection Hf as <-. injection Hnm as <-.
    destruct (lookup_lt_is_Some_2 es i) as (e & Ee); [rewrite Hle; by eapply lookup_lt_Some|]. split.
    + intros e' He' Ek. apply list_elem_of_lookup in He' as (j & Ej).
      destruct (Hentry j e' Ej) as (f' & x' & Ef' & Ex' & -> & Ek' & _). rewrite Ek' in Ek.
      assert (j = i) as ->.
      { eapply (NoDup_lookup (map (fun f => f.1.1) mems)); [done|by rewrite list_lookup_fmap, Ef'|].
        rewrite list_lookup_fmap, Emem. cbn. by rewrite Ek. }
      rewrite Emem in Ef'. injection Ef' as <-.
      destruct (Hi i mem x' Emem Ex') as (old & new & E1 & E2 & E3). rewrite E1 in Hoi. injection Hoi as <-.
      rewrite E2 in Hx. injection Hx as <-. exact E3.
    + intros Hno. destruct (Hentry i e Ee) as (f & x' & Ef & _ & _ & Ek & _). rewrite Emem in Ef. injection Ef as <-.
      exfalso. apply (Hno e); [by eapply list_elem_of_lookup_2|done].
Qed.

Lemma vec_trip k t : trips t -> trips (TVec k t).
Proof.
  intros Ht arr old o Hs Htar Ho. destruct o as [| | | |l| | |]; try done. destruct old as [| | | |lold| | |]; try by destruct k.
  cbn in Hs. apply andb_prop in Hs as [Hs Hnil]. cbn in Ho. destruct Ho as (Hsize & Hlen & Hty).
  assert (forallb (nil_ok (vec_nil k) 0) (map (packed arr t) l) = true) as Hn.
  { apply forallb_forall. intros m (x & <- & Hx)%in_map_iff. apply item_nil; [done|].
    rewrite List.Forall_forall in Hty. by apply Hty. }
  assert (exists olds, Forall2 (target t) olds l /\ forall news,
    read_each (read_value t) olds (map (packed arr t) l) = Some news ->
    read_vec k t (read_value t) lold (MArr (map (packed arr t) l)) = Some news) as (olds & Holds & E).
  { assert ((Z.of_nat (length (map (packed arr t) l)) <? 4294967296) = true) as Hl by (rewrite length_map; by apply Z.ltb_lt).
    unfold read_vec. rewrite Hl, Hn, length_map. cbn [andb]. destruct k; cbn in Htar, Hsize.
    - exists lold. split; [done|]. intros news. cbn. by rewrite Hsize, Nat.eqb_refl.
    - exists lold. split; [done|]. intros news. cbn. by rewrite Hsize, Nat.eqb_refl.
    - destruct Htar as [-> Htar]. exists (replicate (length l) (init t)). split.
      + clear -Htar. induction Htar; cbn; by constructor.
      + intros news ->. done.
    - by eexists.
    - by eexists.
    - eexists. split; [exact Htar|]. intros news Hr. unfold vec_resize. destruct (Nat.ltb_spec N (length l)); [lia|exact Hr]. }
  destruct (read_each_trip arr t olds l) as (news & En & Hsame); [by intros; apply Ht|done|done|].
  exists (OVec news). split; [|by constructor]. cbn [read_value packed]. by rewrite (E news En).
Qed.

Lemma opt_trip t : trips t -> trips (TOpt t).
Proof.
  intros Ht arr old o Hs Htar Ho. destruct o as [| | | | |v x| |]; try done. destruct old as [| | | | |v' x'| |]; try done.
  cbn in Hs, Htar, Ho. apply andb_prop in Hs as [Hs Hno]. destruct v; cbn [packed read_value].
  2:{ exists (OOpt false x'). split; [done|constructor]. }
  destruct (Htar eq_refl) as [-> Htar1]. destruct (Ht arr x' x Hs Htar1 (Ho eq_refl)) as (new & E & Hsame).
  exists (OOpt true new). split; [|by constructor].
  pose proof (no_opt_nil opt_nil t Hno arr 0%nat x (Ho eq_refl)) as Hn. rewrite E, Hn.
  by destruct (packed arr t x).
Qed.

Lemma map_trip kt vt : trips vt -> trips (TMap kt vt).
Proof.
  intros Ht arr old o Hs Htar Ho. destruct o as [| | | | | |l|]; try done. destruct old as [| | | | | |lold|]; try done.
  cbn in Hs, Htar, Ho. repeat (apply andb_prop in Hs as [Hs ?]). destruct kt as [lf| | | |]; try done.
  destruct Htar as [-> Htar], Ho as (Hlen & Hty & Hkeys).
  destruct (entries_trip arr lf vt l) with (acc := @nil (obj * obj)) as (news & E & Hsame);
    [by intros; apply Ht|done|done|done|].
  exists (OMap news). split; [|by constructor]. 
  change ((OMap <$> read_map (TLeaf lf) vt (read_value (TLeaf lf)) (read_value vt) []
            (MMap (map (fun e => (packed false (TLeaf lf) e.1, packed arr vt e.2)) l))) = Some (OMap news)).
  unfold read_map. assert (reusable vt = true) as -> by done. rewrite orb_true_r. by rewrite E.
Qed.

Lemma type_trips t : trips t.
Proof.
  induction t as [l|k t IH|t IH|kt vt _ IH|dn levels mems IH] using ty_nested_ind.
  - intros arr old o _ _ Ho. exists o. split; [by apply leaf_read|constructor].
  - by apply vec_trip.
  - by apply opt_trip.
  - by apply map_trip.
  - by apply dco_trip.
Qed.


(** C7: a DCO object is read from a map of its members by name: in any order,
    with members the class does not have, and leaving alone the members that
    are not there. *)
Theorem members_by_name dn levels (mems : list (text * ty * obj)) old new es :
  wf_ty (TDco dn levels mems) = true -> NoDup (map (fun f => f.1.1) mems) ->
  length old = length mems -> length new = length mems ->
  forallb short_key es = true -> NoDup (map entry_key es) ->
  (forall i f o x, mems !! i = Some f -> old !! i = Some o -> new !! i = Some x ->
     (forall e, e ∈ es -> entry_key e = f.1.1 -> read_value f.1.2 o e.2 = Some x)
     /\ ((forall e, e ∈ es -> entry_key e <> f.1.1) -> x = o)) ->
  exists v, feed (fresh (TDco dn levels mems)) (ODco old) (calls (MMap es)) = Val (true, v, ODco new).
Proof.
  intros Hwf Hnames Hold Hnew Hshort Hnd Hi.
  destruct (type_reads _ Hwf (ODco old) (MMap es) (ODco new) _ (ready_fresh _)) as (v & Hr & _); [|by exists v].
  cbn [read_value read_dco]. rewrite Hshort, bool_decide_true by done. cbn [andb].
  rewrite (read_named_pointwise _ _ es) with (news := new); [done|done|by rewrite !length_map|done|
    by rewrite length_map..|].
  intros i nm f o x Hnm Hf. rewrite list_lookup_fmap in Hnm. rewrite list_lookup_fmap in Hf.
  destruct (mems !! i) as [mem|] eqn:Emem; [|done]. injection Hf as <-. injection Hnm as <-. by apply Hi.
Qed.

(** ** The types that are left out *)

Lemma feed_runs_after p cs p' cs' : runs p cs p' -> feed p.1 p.2 (cs ++ cs') = feed p'.1 p'.2 cs'.
Proof.
  revert p. induction cs as [|c cs IH]; intros p; cbn [app].
  - by intros ->%runs_nil_inv.
  - intros (p1 & Hd & Hr)%runs_cons. cbn [feed]. unfold does in Hd. rewrite Hd. cbn. by rewrite (IH p1 Hr).
Qed.

(** A map whose values are DCO objects can not be unpacked when it has more
    than one entry: the visitor of its values is done after the first, and
    the start of the second object is an error. *)
Theorem map_of_objects_refused lf dn levels (mems : list (text * ty * obj)) k1 m1 k2 m2 es l key1 v1 key2 :
  wf_ty (TDco dn levels mems) = true ->
  read_leaf lf k1 = Some key1 -> read_value (TDco dn levels mems) (init (TDco dn levels mems)) m1 = Some v1 ->
  read_leaf lf k2 = Some key2 ->
  match m2 with MArr _ | MMap _ => True | _ => False end ->
  feed (fresh (TMap (TLeaf lf) (TDco dn levels mems))) (OMap l) (calls (MMap ((k1, m1) :: (k2, m2) :: es)))
  = Exn (ObjModeMismatch (match m2 with
                          | MArr _ => "DCO start_array, no nest"
                          | _ => "DCO start_map, no nest"
                          end)).
Proof.
  intros Hwf Hk1 Hm1 Hk2 Hm2. set (vt := TDco dn levels mems) in *. set (kt := TLeaf lf).
  destruct (wf_members _ _ _ Hwf) as (Hne & Hsum & _).
  cbn [read_value vt init] in Hm1. apply fmap_Some in Hm1 as (l1 & Hm1 & ->).
  destruct (dco_run dn levels mems _ m1 l1 (members_read _ _ _ Hwf) Hne Hsum Hm1) as (s & key & vs & Hv1).
  destruct (leaf_reads lf (init kt) k1 key1 _ (ready_fresh _) Hk1) as (n1 & Hr1 & Hn1).
  destruct (leaf_reads lf (init kt) k2 key2 n1 (Hn1 eq_refl) Hk2) as (n2 & Hr2 & _).
  pose proof (map_entry_steps kt vt MInit _ _ _ _ l (k1, m1) _ _ (or_introl eq_refl) Hr1 Hv1) as HA.
  match type of HA with runs _ _ (VMap _ _ ?nv, OMap ?l') =>
    pose proof (map_key_run kt vt MKey _ _ nv l' (k2, m2) _ (or_intror eq_refl) Hr2) as HB end.
  set (rest := calls m2 ++ end_map_value :: concat (map map_entry es) ++ [end_map]).
  assert (calls (MMap ((k1, m1) :: (k2, m2) :: es)) =
    (start_map (Z.of_nat (S (S (length es)))) :: map_entry (k1, m1)
     ++ (start_map_key :: calls k2 ++ [end_map_key; start_map_value])) ++ rest) as ->.
  { unfold rest, map_entry. cbn [calls map concat fst snd length]. rewrite <- ?app_comm_cons, <- ?app_assoc.
    cbn [app]. rewrite <- ?app_assoc. cbn [app]. rewrite <- ?app_assoc. by repeat f_equal. }
  assert (forall n, does (fresh (TMap kt vt), OMap l) (start_map n)
    (VMap (mkMap kt vt 0 MInit (init kt) (init vt)) (fresh kt) (fresh vt), OMap l)) as H0 by done.
  etransitivity; [exact (feed_runs_after _ _ _ rest (runs_step _ _ _ _ _ (H0 _) (runs_trans _ _ _ _ _ HA HB)))|].
  unfold rest. by destruct m2.
Qed.

Lemma read_each_length f olds ms news : read_each f olds ms = Some news -> length news = length ms.
Proof.
  revert olds news. induction ms as [|m ms IH]; intros [|o olds] news; cbn; try done; [by intros [= <-]|].
  intros (x & _ & (l & Hl & [= <-])%bind_Some)%bind_Some. cbn. f_equal. by eapply IH.
Qed.

(** An optional keeps its flag: a value that is read into one that is not valid
    is not seen. *)
Lemma optional_flag_kept t x m new :
  wf_ty t = true -> read_value t x m = Some new -> nil_ok opt_nil 0 m = true -> m <> MNil ->
  exists v, feed (fresh (TOpt t)) (OOpt false x) (calls m) = Val (true, v, OOpt false new).
Proof.
  intros Hwf Hm Hn Hne.
  destruct (type_reads (TOpt t) Hwf (OOpt false x) m (OOpt false new) _ (ready_fresh _)) as (v & Hr & _); [|by exists v].
  cbn [read_value]. rewrite Hn, Hm. by destruct m.
Qed.

(** In a vector that can be resized, a nil among the elements, as an
    optional without a value is packed, is taken for the vector: all elements
    read so far are lost, and when more elements follow, the next one is
    accessed outside the vector. *)
Theorem nil_element_loses_vector k t xs ys old l news :
  wf_ty t = true -> match k with StdVector | VarVector | LimVector _ => True | _ => False end ->
  vec_resize k t (length (xs ++ MNil :: ys)) old = Val l ->
  read_each (read_value t) (take (length xs) l) xs = Some news -> forallb (nil_ok (vec_nil k) 0) xs = true ->
  Z.of_nat (length (xs ++ MNil :: ys)) < 4294967296 ->
  match ys with
  | [] => exists v, feed (fresh (TVec k t)) (OVec old) (calls (MArr (xs ++ MNil :: ys))) = Val (true, v, OVec [])
  | _ => feed (fresh (TVec k t)) (OVec old) (calls (MArr (xs ++ MNil :: ys)))
         = match k with StdVector => Stuck OutOfBounds | _ => Exn IndexException end
  end.
Proof.
  intros Hwf Hk Hl Hr Hn Hlen. set (e := init t). set (n := length xs).
  assert (length l = length (xs ++ MNil :: ys)) as Hll.
  { unfold vec_resize in Hl. destruct k; try done; [..|destruct (Nat.ltb _ _); [done|]]; injection Hl as <-;
      by rewrite length_resize. }
  assert (drop n l <> []) as Hd.
  { intros E%(f_equal length). rewrite length_drop, Hll, length_app in E. cbn in E. unfold n in E. lia. }
  destruct (drop n l) as [|x suf] eqn:Esuf; [done|].
  assert (Hn1 : Z.of_nat n + 1 < 4294967297) by (rewrite length_app in Hlen; cbn in Hlen; unfold n; lia).
  assert (k <> Push) as Hkp by (by destruct k).
  destruct (vec_items_run k t e (x :: suf) xs (type_reads t Hwf) Hkp [] (take n l) news None (fresh t) Hr Hn)
    as (r & nest & HA).
  { cbn. rewrite length_app in Hlen. lia. }
  cbn [length app Nat.add] in HA. fold n in HA. rewrite <- Esuf, take_drop, Esuf in HA.
  rewrite !u32_id in HA by (unfold is_u32; lia).
  assert (length news = n) as Hnews by (unfold n; by apply read_each_length in Hr).
  set (after := [start_array_item; visit_nil; end_array_item] ++ concat (map array_item ys) ++ [end_array]).
  assert (calls (MArr (xs ++ MNil :: ys)) =
    (start_array (Z.of_nat (length (xs ++ MNil :: ys))) :: concat (map array_item xs)) ++ after) as ->.
  { unfold after. cbn [calls]. by rewrite map_app, concat_app, <- app_assoc. }
  assert (does (fresh (TVec k t), OVec old) (start_array (Z.of_nat (length (xs ++ MNil :: ys))))
    (VArr (mkArray k t 0 0 None e) (fresh t), OVec l)) as H0.
  { unfold does. cbn. unfold a_start_array. cbn -[vec_resize]. rewrite Nat2Z.id. destruct k; try done; by rewrite Hl. }
  assert (feed (fresh (TVec k t)) (OVec old)
      ((start_array (Z.of_nat (length (xs ++ MNil :: ys))) :: concat (map array_item xs)) ++ after)
    = feed (VArr (mkArray k t 0 (u32 (Z.of_nat n + 1)) (Some n) e) (fresh t)) (OVec [])
        (concat (map array_item ys) ++ [end_array])) as ->.
  { etransitivity; [exact (feed_runs_after _ _ _ after (runs_step _ _ _ _ _ H0 HA))|].
    unfold after. cbn [app fst snd feed handle array_call]. unfold a_start_item. cbn [a_depth Z.eqb negb a_kind idx].
    rewrite Nat2Z.id. unfold vec_at. rewrite list_lookup_middle by done. by destruct k. }
  destruct ys as [|y ys]; [by eexists|].
  assert (vec_at k (Z.to_nat (u32 (Z.of_nat n + 1))) []
          = match k with StdVector => Stuck OutOfBounds | _ => Exn IndexException end) as Hat by (by destruct k).
  cbn [map concat app array_item feed handle array_call]. unfold a_start_item. cbn [a_depth Z.eqb negb a_kind idx].
  destruct k; try done; by rewrite Hat.
Qed.
End RoundTrip.

(** ** At concrete values *)

#[local] Instance zero_types : MsgTypes := {|
  new_leaf l := match l with
                | LFloat32 | LFloat64 => OReal (Bits 0)
                | LInt _ | LEnum _ => OInt 0
                | LBool => OBool false
                | _ => OStr []
                end;
  key_equiv a b := match a, b with
                   | OStr s, OStr r => bool_decide (s = r)
                   | OInt x, OInt y => x =? y
                   | _, _ => false
                   end
|}.

Definition int32 : ty := TLeaf (LInt I32).
Definition ex_sample : ty :=
  TDco "Sample" [1; 2]%nat
    [([97], int32, OInt 5); ([98], TVec StdVector int32, OVec []);
     ([99], TMap (TLeaf LString) (TVec (Fix 2) int32), OMap [])].
Definition ex_object : obj :=
  ODco [OInt (-7); OVec [OInt 1; OInt 2]; OMap [(OStr [49], OVec [OInt 3; OInt 4]); (OStr [50], OVec [OInt 5; OInt 6])]].
Definition ex_mems : list (text * ty * obj) := [([97], int32, OInt 5); ([98], TVec StdVector int32, OVec [])].


Lemma members_by_name_witness :
  exists v, feed (fresh (TDco "Sample" [2]%nat ex_mems)) (ODco [OInt 5; OVec [OInt 9]])
    (calls (MMap [(MStr [120], MArr [MNil; MMap []]); (MStr [97], MPos 3)])) = Val (true, v, ODco [OInt 3; OVec [OInt 9]]).
Proof.
  apply (members_by_name "Sample" [2]%nat ex_mems [OInt 5; OVec [OInt 9]] [OInt 3; OVec [OInt 9]]
           [(MStr [120], MArr [MNil; MMap []]); (MStr [97], MPos 3)]).
  - reflexivity.
  - vm_compute. repeat constructor; set_solver.
  - reflexivity.
  - reflexivity.
  - reflexivity.
  - vm_compute. repeat constructor; set_solver.
  - intros [|[|i]] f o x; [| |by destruct i]; intros [= <-] [= <-] [= <-]; split.
    + intros e He. cbn. apply elem_of_cons in He as [->|He]; [by intros|].
      apply elem_of_cons in He as [->|He]; [by intros|]. inversion He.
    + intros H. exfalso. eapply (H (MStr [97], MPos 3)); [set_solver|reflexivity].
    + intros e He. cbn. apply elem_of_cons in He as [->|He]; [by intros|].
      apply elem_of_cons in He as [->|He]; [by intros|]. inversion He.
    + done.
Defined.

Lemma map_of_objects_refused_witness :
  feed (fresh (TMap (TLeaf (LInt U8)) (TDco "Sample" [2]%nat ex_mems))) (OMap [])
    (calls (MMap [(MPos 1, MArr [MPos 3]); (MPos 2, MMap [])])) = Exn (ObjModeMismatch "DCO start_map, no nest").
Proof.
  apply (map_of_objects_refused (LInt U8) "Sample" [2]%nat ex_mems (MPos 1) (MArr [MPos 3])
           (MPos 2) (MMap []) [] [] (OInt 1) (ODco [OInt 3; OVec []]) (OInt 2)); reflexivity.
Defined.

Lemma nil_element_loses_vector_witness :
  feed (fresh (TVec StdVector (TOpt int32))) (OVec []) (calls (MArr [MPos 1; MNil; MPos 2]))
  = Stuck OutOfBounds.
Proof.
  apply (nil_element_loses_vector StdVector (TOpt int32) [MPos 1] [MPos 2] []
           [OOpt false (OInt 0); OOpt false (OInt 0); OOpt false (OInt 0)] [OOpt false (OInt 1)]);
    reflexivity.
Defined.

(** A nil inside the value of an optional is taken for the optional. *)
Example optional_inner_nil :
  let t := TOpt (TVec (Fix 2) (TOpt int32)) in
  feed (fresh t) (OOpt true (OVec [OOpt true (OInt 1); OOpt true (OInt 2)])) (calls (MArr [MNil; MPos 3]))
  = Exn (ObjModeMismatch "O visit").
Proof. reflexivity. Qed.

(** A map of maps stops at its second entry. *)
Example map_of_maps :
  let t := TMap int32 (TMap int32 int32) in
  match feed (fresh t) (OMap []) (calls (MMap [(MPos 1, MMap [(MPos 1, MPos 2)]); (MPos 2, MMap [])])) with
  | Val (false, _, OMap [(OInt 1, OMap [(OInt 1, OInt 2)])]) => True
  | _ => False
  end.
Proof. exact I. Qed.
