(* ===== verification/ChannelEntry.v ===== *)
(** The data of a channel entry: [dueca/UChannelEntryData.hxx]/[.cxx],
    [dueca/UChannelEntry.hxx]/[.cxx] and the client side of
    [dueca/UCClientHandle.hxx]/[.cxx].

    An entry keeps its data in a doubly linked list of cells, from [cleanup]
    over [oldest] to the sentinel [latest].  A writer appends, readers latch
    cells by their [read_accesses] counter, and the writer recycles cells no
    one holds.  The cells live in a store with fresh addresses, so that the
    use of a deleted cell shows as [DanglingDeref].  Each member function is
    one atomic step on the entry. *)

From S2P Require Import Prelude TimeSpec.
#[local] Open Scope Z_scope.

(** ** Data *)

(** [UChannelEntryData]; a data object is known by its address. *)
Record Cell := mkCell {
  time_or_time_end : Z;
  data : option nat;
  older : option nat;
  newer : option nat;
  read_accesses : Z;
  seq_id : Z
}.

Inductive SaveUpMode := NoSaveUp | SaveUpTryRemove | SaveUp.

#[export] Instance SaveUpMode_eq_dec : EqDecision SaveUpMode.
Proof. solve_decision. Defined.

(** A [UCClientHandle] with its [UCEntryClientLink] to this entry. *)
Record Client := mkClient {
  sequential_read : bool;
  read_index : option nat;
  link_seq_id : Z;
  accessed : option nat
}.

(** [PackerClientData] *)
Record PackerClientData := mkPacker {
  validity_end_sent : Z;
  previous_data : option nat;
  send_full : bool;
  packer_seq_id : Z
}.

(** What the entry reads of the channel it belongs to, at the time of a call. *)
Record Channel := mkChannel {
  config_version : Z;
  transporters : nat;
  (** whether all clients have caught up with the latest configuration *)
  clients_current : bool
}.

(** Calls to triggers and to the transport. *)
Inductive Event :=
  | PullTrigger (target : nat) (ts : TimeSpec)
  | NewTransportWork (seqid : Z) (packer : option nat).

Record Entry := mkEntry {
  (** the arena: live cells, the next address, data given to [delData] *)
  cells : gmap nat Cell;
  fresh : nat;
  deleted : list (option nat);
  (** settings *)
  span : Z;
  depth : Z;
  eventtype : bool;
  has_writer : bool;
  valid : bool;
  (** the list *)
  cleanup : nat;
  oldest : nat;
  latest : nat;
  monitored : option nat;
  saveup : SaveUpMode;
  jumptime : Z;
  (** clients, by handle; the packers by index *)
  clients : gmap nat Client;
  pclients : list (nat * PackerClientData);
  (** triggering *)
  entry_config_version : Z;
  triggers : list nat;
  trigger_requests : list nat;
  trigger_releases : list nat;
  events : list Event
}.

Definition set_store (cs : gmap nat Cell) (f : nat) (d : list (option nat)) (s : Entry) : Entry :=
  mkEntry cs f d (span s) (depth s) (eventtype s) (has_writer s) (valid s)
    (cleanup s) (oldest s) (latest s) (monitored s) (saveup s) (jumptime s)
    (clients s) (pclients s) (entry_config_version s) (triggers s)
    (trigger_requests s) (trigger_releases s) (events s).
Definition set_settings (sp dp : Z) (v : bool) (s : Entry) : Entry :=
  mkEntry (cells s) (fresh s) (deleted s) sp dp (eventtype s) (has_writer s) v
    (cleanup s) (oldest s) (latest s) (monitored s) (saveup s) (jumptime s)
    (clients s) (pclients s) (entry_config_version s) (triggers s)
    (trigger_requests s) (trigger_releases s) (events s).
Definition set_ends (c o l : nat) (s : Entry) : Entry :=
  mkEntry (cells s) (fresh s) (deleted s) (span s) (depth s) (eventtype s)
    (has_writer s) (valid s) c o l (monitored s) (saveup s) (jumptime s)
    (clients s) (pclients s) (entry_config_version s) (triggers s)
    (trigger_requests s) (trigger_releases s) (events s).
Definition set_monitored (m : option nat) (s : Entry) : Entry :=
  mkEntry (cells s) (fresh s) (deleted s) (span s) (depth s) (eventtype s)
    (has_writer s) (valid s) (cleanup s) (oldest s) (latest s) m (saveup s) (jumptime s)
    (clients s) (pclients s) (entry_config_version s) (triggers s)
    (trigger_requests s) (trigger_releases s) (events s).
Definition set_saveup (m : SaveUpMode) (s : Entry) : Entry :=
  mkEntry (cells s) (fresh s) (deleted s) (span s) (depth s) (eventtype s)
    (has_writer s) (valid s) (cleanup s) (oldest s) (latest s) (monitored s) m (jumptime s)
    (clients s) (pclients s) (entry_config_version s) (triggers s)
    (trigger_requests s) (trigger_releases s) (events s).
Definition set_jumptime (j : Z) (s : Entry) : Entry :=
  mkEntry (cells s) (fresh s) (deleted s) (span s) (depth s) (eventtype s)
    (has_writer s) (valid s) (cleanup s) (oldest s) (latest s) (monitored s) (saveup s) j
    (clients s) (pclients s) (entry_config_version s) (triggers s)
    (trigger_requests s) (trigger_releases s) (events s).
Definition set_clients (f : gmap nat Client -> gmap nat Client) (s : Entry) : Entry :=
  mkEntry (cells s) (fresh s) (deleted s) (span s) (depth s) (eventtype s)
    (has_writer s) (valid s) (cleanup s) (oldest s) (latest s) (monitored s) (saveup s)
    (jumptime s) (f (clients s)) (pclients s) (entry_config_version s) (triggers s)
    (trigger_requests s) (trigger_releases s) (events s).
Definition set_pclients (l : list (nat * PackerClientData)) (s : Entry) : Entry :=
  mkEntry (cells s) (fresh s) (deleted s) (span s) (depth s) (eventtype s)
    (has_writer s) (valid s) (cleanup s) (oldest s) (latest s) (monitored s) (saveup s)
    (jumptime s) (clients s) l (entry_config_version s) (triggers s)
    (trigger_requests s) (trigger_releases s) (events s).
Definition set_triggers (v : Z) (t req rel : list nat) (s : Entry) : Entry :=
  mkEntry (cells s) (fresh s) (deleted s) (span s) (depth s) (eventtype s)
    (has_writer s) (valid s) (cleanup s) (oldest s) (latest s) (monitored s) (saveup s)
    (jumptime s) (clients s) (pclients s) v t req rel (events s).
Definition add_events (l : list Event) (s : Entry) : Entry :=
  mkEntry (cells s) (fresh s) (deleted s) (span s) (depth s) (eventtype s)
    (has_writer s) (valid s) (cleanup s) (oldest s) (latest s) (monitored s) (saveup s)
    (jumptime s) (clients s) (pclients s) (entry_config_version s) (triggers s)
    (trigger_requests s) (trigger_releases s) (events s ++ l).

(** ** Cells *)

Module Cells.

(** Access through a pointer. *)
Definition deref (o : option nat) : M Entry nat := of_option NullDeref o.
Definition cell (p : nat) : M Entry Cell := fun s =>
  match cells s !! p with
  | Some c => (Val c, s)
  | None => (Stuck DanglingDeref, s)
  end.
Definition set_cell (p : nat) (c : Cell) : M Entry unit :=
  modify (fun s => set_store (<[p:=c]> (cells s)) (fresh s) (deleted s) s).

Definition with_newer (n : option nat) (c : Cell) : Cell :=
  mkCell (time_or_time_end c) (data c) (older c) n (read_accesses c) (seq_id c).
Definition with_accesses (r : Z) (c : Cell) : Cell :=
  mkCell (time_or_time_end c) (data c) (older c) (newer c) r (seq_id c).

(** The constructor with an explicit sequence number. *)
Definition make_seq (ts : Z) (d : option nat) (current : option nat) (seq : Z) : M Entry nat :=
  s ← get;
  let p := fresh s in
  put (set_store (<[p:=mkCell ts d current None 1 seq]> (cells s)) (S p) (deleted s) s);;
  (match current with
   | Some q => c ← cell q; set_cell q (with_newer (Some p) c)
   | None => mret tt
   end);;
  mret p.

(** The constructor behind a current cell. *)
Definition make (ts : Z) (current : nat) : M Entry nat :=
  c ← cell current;
  make_seq ts None (Some current) (u32 (seq_id c + 1)).

(** [delete p] *)
Definition free (p : nat) : M Entry unit :=
  _ ← cell p;
  modify (fun s => set_store (delete p (cells s)) (fresh s) (deleted s) s).

(** [converter->delData] *)
Definition delData (d : option nat) : M Entry unit :=
  modify (fun s => set_store (cells s) (fresh s) (deleted s ++ [d]) s).

Definition setTime (p : nat) (t : Z) : M Entry unit :=
  c ← cell p;
  set_cell p (mkCell t (data c) (older c) (newer c) (read_accesses c) (seq_id c)).
Definition setData (p : nat) (d : option nat) : M Entry unit :=
  c ← cell p;
  set_cell p (mkCell (time_or_time_end c) d (older c) (newer c) (read_accesses c) (seq_id c)).
Definition resetSeqId (p : nat) : M Entry Z :=
  c ← cell p;
  set_cell p (mkCell (time_or_time_end c) (data c) (older c) (newer c) (read_accesses c) 0);;
  mret (seq_id c).

Definition afterTick (p : nat) (tick : Z) : M Entry bool :=
  c ← cell p; mret (tick <? time_or_time_end c).
Definition onOrAfterTick (p : nat) (tick : Z) : M Entry bool :=
  c ← cell p; mret (tick <=? time_or_time_end c).
Definition beforeTick (p : nat) (tick : Z) : M Entry bool :=
  c ← cell p; mret (time_or_time_end c <=? tick).

Definition incrementReadAccess (p : nat) : M Entry unit :=
  c ← cell p; set_cell p (with_accesses (u32 (read_accesses c + 1)) c).
Definition releaseReadAccess (p : nat) : M Entry unit :=
  c ← cell p; set_cell p (with_accesses (u32 (read_accesses c - 1)) c).

(** A zero counter is final: the cell is being recycled. *)
Definition getAccess (p : nat) : M Entry bool :=
  c ← cell p;
  if read_accesses c =? 0 then mret false
  else set_cell p (with_accesses (u32 (read_accesses c + 1)) c);; mret true.

Definition tryRecycle (p : nat) : M Entry bool :=
  c ← cell p;
  if read_accesses c =? 1 then set_cell p (with_accesses 0 c);; mret true
  else mret false.

Definition obsolete (p : nat) (now sp : Z) : M Entry bool :=
  c ← cell p;
  if (u32 (time_or_time_end c + sp) <? now) && (read_accesses c =? 1) then
    match newer c with
    | None => mret false
    | Some q =>
        n ← cell q;
        mret (bool_decide (is_Some (data n)) || (seq_id n =? 0))
    end
  else mret false.

(** [getValidityEnd]: the time in the next cell. *)
Definition getValidityEnd (c : Cell) : M Entry Z :=
  q ← deref (newer c); n ← cell q; mret (time_or_time_end n).

Definition time_spec (c : Cell) (event : bool) : M Entry TimeSpec :=
  if event then mret (mkTS (time_or_time_end c) (time_or_time_end c))
  else e ← getValidityEnd c; mret (mkTS (time_or_time_end c) e).

Section WithBuild.
Context `{BuildConfig}.

(** Clients are looked up by handle. *)
Definition client (k : nat) : M Entry Client := fun s =>
  match clients s !! k with
  | Some c => (Val c, s)
  | None => (Stuck DanglingDeref, s)
  end.
Definition set_client (k : nat) (c : Client) : M Entry unit :=
  modify (set_clients <[k:=c]>).
Definition with_accessed (a : option nat) (c : Client) : Client :=
  mkClient (sequential_read c) (read_index c) (link_seq_id c) a.
Definition with_read_index (p : option nat) (c : Client) : Client :=
  mkClient (sequential_read c) p (link_seq_id c) (accessed c).
Definition with_link_seq_id (q : Z) (c : Client) : Client :=
  mkClient (sequential_read c) (read_index c) q (accessed c).

(** The data with its time specification; both [None] when nothing is read. *)
Definition nothing : option nat * option TimeSpec := (None, None).

Definition getData (p : nat) (k : nat) (event : bool)
    : M Entry (option nat * option TimeSpec) :=
  cl ← client k;
  dassert (bool_decide (accessed cl = None));;
  c ← cell p;
  match newer c with
  | None => mret nothing
  | Some _ =>
      ok ← getAccess p;
      if ok : bool then
        ts ← time_spec c event;
        set_client k (with_accessed (Some p) cl);;
        mret (data c, Some ts)
      else mret nothing
  end.

Definition monitorGetData (p : nat) (event : bool) : M Entry (option nat * option TimeSpec) :=
  c ← cell p;
  match newer c with
  | None => mret nothing
  | Some _ =>
      ok ← getAccess p;
      if ok : bool then ts ← time_spec c event; mret (data c, Some ts)
      else mret nothing
  end.

Definition getSequentialData (p : nat) (k : nat) (event : bool)
    : M Entry (option nat * option TimeSpec) :=
  cl ← client k;
  dassert (bool_decide (accessed cl = None));;
  c ← cell p;
  dassert (bool_decide (is_Some (newer c)));;
  dassert (1 <? read_accesses c);;
  ts ← time_spec c event;
  set_client k (with_accessed (Some p) cl);;
  mret (data c, Some ts).

Definition returnData (p : nat) (k : nat) : M Entry unit :=
  cl ← client k;
  dassert (bool_decide (accessed cl = Some p));;
  set_client k (with_accessed None cl);;
  releaseReadAccess p.

Definition monitorReturnData (p : nat) : M Entry unit := releaseReadAccess p.

Definition resetDataAccess (p : nat) (k : nat) : M Entry unit :=
  cl ← client k;
  dassert (bool_decide (accessed cl = Some p));;
  set_client k (with_accessed None cl);;
  if sequential_read cl then mret tt else releaseReadAccess p.

Definition assumeData (p : nat) (k : nat) : M Entry unit :=
  cl ← client k;
  dassert (bool_decide (accessed cl = Some p));;
  set_client k (with_accessed None cl);;
  setData p None;;
  releaseReadAccess p.

(** [finalDeleteData]; the pointer moves on to the result. *)
Definition finalDeleteData (p : nat) : M Entry (bool * option nat) :=
  ok ← tryRecycle p;
  if ok : bool then
    c ← cell p;
    delData (data c);;
    free p;;
    mret (bool_decide (is_Some (newer c)), newer c)
  else mret (false, Some p).

End WithBuild.
End Cells.

(** ** Entries *)

Module UCE.
Import Cells.

(** The constructor: a cell without data and the first sentinel; with
    reservations the sentinel is latched. *)
Definition make (event writer fullconf : bool) (nreservations : Z) : Entry :=
  mkEntry
    {[ 0%nat := mkCell 0 None None (Some 1%nat) 1 0;
       1%nat := mkCell 0 None (Some 0%nat) None (if 0 <? nreservations then 2 else 1) 1 ]}
    2 [] 20 1 event writer fullconf 0 1 1 None
    (if 0 <? nreservations then SaveUp else NoSaveUp) MAX_TIMETICK ∅ [] 0 [] [] [] [].

Section WithBuild.
Context `{BuildConfig}.

Definition setMinimumSpanAndDepth (sp dp : Z) (s : Entry) : Entry :=
  set_settings (Z.max sp (span s)) (Z.max dp (depth s)) (valid s) s.

Definition setValid (s : Entry) : Entry := set_settings (span s) (depth s) true s.

Definition requestIncludeTrigger (t : nat) (s : Entry) : Entry :=
  set_triggers (entry_config_version s) (triggers s) (trigger_requests s ++ [t])
    (trigger_releases s) s.
Definition requestRemoveTrigger (t : nat) (s : Entry) : Entry :=
  set_triggers (entry_config_version s) (triggers s) (trigger_requests s)
    (trigger_releases s ++ [t]) s.

(** [AccessLockOldest]: the loop repeats until [oldest] grants access. *)
Definition lock_oldest : M Entry nat :=
  p ← gets oldest;
  ok ← getAccess p;
  if ok : bool then mret p else stuck OutOfFuel.
Definition unlock (p : nat) : M Entry unit := releaseReadAccess p.

Definition latchSequentialRead : M Entry nat :=
  p ← lock_oldest;
  incrementReadAccess p;;
  unlock p;;
  mret p.

(** [UCEntryClientLink]: a new reader, sequential or by time. *)
Definition add_client (sequential : bool) : M Entry nat :=
  idx ← (if sequential then p ← latchSequentialRead; mret (Some p) else mret None);
  s ← get;
  let k := fresh s in
  put (set_store (cells s) (S k) (deleted s) s);;
  set_client k (mkClient sequential idx 0 None);;
  mret k.

(** *** Writing *)

(** [while (cleanup->getNext() != oldest && cleanup->tryRecycle())] *)
Fixpoint recycle (fuel : nat) : M Entry unit :=
  match fuel with
  | O => stuck OutOfFuel
  | S fuel =>
      s ← get;
      c ← cell (cleanup s);
      if bool_decide (newer c = Some (oldest s)) then mret tt
      else
        ok ← tryRecycle (cleanup s);
        if ok : bool then
          delData (data c);;
          next ← deref (newer c);
          free (cleanup s);;
          modify (fun s => set_ends next (oldest s) (latest s) s);;
          recycle fuel
        else mret tt
  end.

(** [while (oldest->obsolete(...) && ...)] *)
Fixpoint shift_oldest (fuel : nat) (now : Z) : M Entry unit :=
  match fuel with
  | O => stuck OutOfFuel
  | S fuel =>
      s ← get;
      old ← obsolete (oldest s) now (span s);
      o ← cell (oldest s);
      l ← cell (latest s);
      if old && (depth s <? u32 (seq_id l - seq_id o)) then
        next ← deref (newer o);
        modify (fun s => set_ends (cleanup s) next (latest s) s);;
        shift_oldest fuel now
      else mret tt
  end.

(** The search in [refreshEntryConfigInner] stops at the last link. *)
Fixpoint remove_trigger (t : nat) (l : list nat) : outcome (list nat) :=
  match l with
  | [] => Stuck NullDeref
  | x :: l' =>
      if bool_decide (x = t) then Val l'
      else match l' with
           | [] => _ ← passert false; Val []
           | _ => l'' ← remove_trigger t l'; Val (x :: l'')
           end
  end.

(** Notices for the data between the read index and the sentinel. *)
Fixpoint notify_existing (fuel : nat) (ii : nat) (p : option nat) (stop : nat) (last : Z)
    : M Entry Z :=
  match fuel, p with
  | O, _ => stuck OutOfFuel
  | S fuel, Some q =>
      if bool_decide (q = stop) then mret last
      else
        c ← cell q;
        if seq_id c =? 0 then notify_existing fuel ii (newer c) stop last
        else
          modify (add_events [NewTransportWork (seq_id c) (Some ii)]);;
          notify_existing fuel ii (newer c) stop (seq_id c)
  | S _, None => mret last
  end.

Definition new_packer (ii : nat) : M Entry unit :=
  k ← add_client true;
  s ← get;
  modify (set_pclients (pclients s ++ [(k, mkPacker MAX_TIMETICK None true 0)]));;
  if bool_decide (latest s = oldest s) then mret tt
  else
    cl ← client k;
    q ← notify_existing (S (size (cells s))) ii (read_index cl) (latest s) 0;
    modify (set_pclients (pclients s ++ [(k, mkPacker MAX_TIMETICK None true q)])).

Fixpoint new_packers (n ii : nat) : M Entry unit :=
  match n with
  | O => mret tt
  | S n => new_packer ii;; new_packers n (S ii)
  end.

Definition refreshTransporters (ch : Channel) : M Entry unit :=
  s ← get;
  let have := length (pclients s) in
  if has_writer s then
    if bool_decide (have = transporters ch) then mret tt
    else
      dassert (bool_decide (have < transporters ch)%nat);;
      new_packers (transporters ch - have) have
  else dassert (bool_decide (have = 0%nat)).

Definition refreshEntryConfigInner (ch : Channel) : M Entry unit :=
  s ← get;
  let added := foldl (fun ts t => t :: ts) (triggers s) (trigger_requests s) in
  left ← (fun s => (foldl (fun ts t => ts ← ts; remove_trigger t ts) (Val added)
                      (trigger_releases s), s));
  modify (set_triggers (entry_config_version s) left [] []);;
  refreshTransporters ch;;
  s ← get;
  modify (set_triggers (config_version ch) (triggers s) (trigger_requests s)
            (trigger_releases s)).

Definition refresh_if_needed (ch : Channel) : M Entry unit :=
  s ← get;
  if config_version ch =? entry_config_version s then mret tt
  else refreshEntryConfigInner ch.

Definition saveupRemoveInner (ch : Channel) : M Entry unit :=
  if clients_current ch then
    modify (set_saveup NoSaveUp);;
    p ← gets oldest;
    releaseReadAccess p
  else mret tt.

(** [latest = new UChannelEntryData(ts, current)] *)
Definition new_sentinel (ts : Z) (current : nat) : M Entry unit :=
  p ← Cells.make ts current;
  modify (fun s => set_ends (cleanup s) (oldest s) p s).

(** The insertion of the data; false is the early return for data that does
    not connect.  A warning is all that follows from a span of zero. *)
Definition insert_data (ch : Channel) (d : option nat) (t : TimeSpec) : M Entry (bool * Z) :=
  s ← get;
  l ← cell (latest s);
  let latest_seqid := seq_id l in
  if eventtype s then
    setTime (latest s) (validity_start t);;
    setData (latest s) d;;
    refresh_if_needed ch;;
    new_sentinel 0 (latest s);;
    mret (true, latest_seqid)
  else if latest_seqid =? 1 then
    setTime (latest s) (validity_start t);;
    setData (latest s) d;;
    refresh_if_needed ch;;
    new_sentinel (validity_end t) (latest s);;
    mret (true, latest_seqid)
  else if time_or_time_end l <? validity_start t then
    seq ← resetSeqId (latest s);
    e ← make_seq (validity_start t) d (Some (latest s)) seq;
    refresh_if_needed ch;;
    new_sentinel (validity_end t) e;;
    mret (true, seq)
  else if time_or_time_end l <? validity_end t then
    setData (latest s) d;;
    refresh_if_needed ch;;
    new_sentinel (validity_end t) (latest s);;
    mret (true, latest_seqid)
  else mret (false, latest_seqid).

Definition newData (ch : Channel) (d : option nat) (t : TimeSpec) : M Entry unit :=
  s ← get;
  recycle (S (size (cells s)));;
  s ← get;
  shift_oldest (S (size (cells s))) (validity_start t);;
  '(written, seq) ← insert_data ch d t;
  if written : bool then
    s ← get;
    (if bool_decide (saveup s = SaveUpTryRemove) then saveupRemoveInner ch else mret tt);;
    s ← get;
    modify (add_events ((fun trg => PullTrigger trg t) <$> triggers s));;
    if has_writer s && negb (bool_decide (length (pclients s) = 0%nat))
    then modify (add_events [NewTransportWork seq None])
    else mret tt
  else mret tt.

Definition removeSaveUp : M Entry unit :=
  s ← get;
  dassert (bool_decide (saveup s = SaveUp));;
  modify (set_saveup SaveUpTryRemove).

(** *** Sequential clients *)

(** [if (ed->seqId() == 0) ...]: the latch is moved over a gap. *)
Definition skip_gap (p : nat) : M Entry nat :=
  c ← cell p;
  if seq_id c =? 0 then
    q ← deref (newer c);
    incrementReadAccess q;;
    n ← cell q;
    prev ← deref (older n);
    releaseReadAccess prev;;
    mret q
  else mret p.

Definition sequential_client (k : nat) : M Entry (Client * nat) :=
  cl ← client k;
  dassert (sequential_read cl);;
  p ← deref (read_index cl);
  mret (cl, p).

(** The latch and the read index go from [from] to [to]. *)
Definition move_latch (k from to : nat) : M Entry unit :=
  incrementReadAccess to;;
  releaseReadAccess from;;
  cl ← client k;
  set_client k (with_read_index (Some to) cl).

Definition spinToLast (k : nat) : M Entry Z :=
  '(cl, ed) ← sequential_client k;
  s ← get;
  l ← cell (latest s);
  match older l with
  | None => mret 0
  | Some spinto =>
      if bool_decide (ed = spinto) then mret 0
      else
        ed ← skip_gap ed;
        c ← cell spinto;
        e ← cell ed;
        move_latch k ed spinto;;
        mret (u32 (seq_id c - seq_id e))
  end.

(** [while (spinto->afterTick(t_latest) && spinto != myoldest)] *)
Fixpoint spin_back (fuel : nat) (event : bool) (t : Z) (spinto : option nat) (myoldest : nat)
    : M Entry (option nat) :=
  match fuel with
  | O => stuck OutOfFuel
  | S fuel =>
      p ← deref spinto;
      late ← (if event then onOrAfterTick p t else afterTick p t);
      if late && negb (bool_decide (p = myoldest)) then
        c ← cell p; spin_back fuel event t (older c) myoldest
      else mret (Some p)
  end.

Definition spinToLast_time (k : nat) (t : Z) : M Entry Z :=
  '(cl, myoldest) ← sequential_client k;
  s ← get;
  l ← cell (latest s);
  p ← deref (older l);
  c ← cell p;
  match data c with
  | None => mret 0
  | Some _ =>
      r ← spin_back (S (S (size (cells s)))) (eventtype s) t (older l) myoldest;
      match r with
      | None => mret 0
      | Some spinto =>
          c ← cell spinto;
          spinto ← (if seq_id c =? 0 then deref (newer c) else mret spinto);
          if bool_decide (spinto = myoldest) then mret 0
          else
            c ← cell spinto;
            m ← cell myoldest;
            move_latch k myoldest spinto;;
            mret (u32 (seq_id c - seq_id m))
      end
  end.

Definition flushAll (k : nat) : M Entry Z :=
  '(cl, ed) ← sequential_client k;
  s ← get;
  let spinto := latest s in
  if bool_decide (ed = spinto) then mret 0
  else
    ed ← skip_gap ed;
    l ← cell spinto;
    prev ← deref (older l);
    pc ← cell prev;
    e ← cell ed;
    move_latch k ed spinto;;
    mret (u32 (u32 (seq_id pc - seq_id e) + 1)).

Definition flushOne (k : nat) : M Entry Z :=
  '(cl, ed) ← sequential_client k;
  s ← get;
  if bool_decide (ed = latest s) then mret 0
  else
    ed ← skip_gap ed;
    e ← cell ed;
    next ← deref (newer e);
    move_latch k ed next;;
    mret 1.

(** *** Reading *)

(** The sequential branch of [accessData]. *)
Definition access_sequential (k : nat) (t_latest : Z)
    : M Entry (option nat * option TimeSpec) :=
  s ← get;
  cl ← client k;
  p ← deref (read_index cl);
  c ← cell p;
  p ← (if seq_id c =? 0 then
         q ← skip_gap p;
         cl ← client k;
         set_client k (with_read_index (Some q) cl);;
         mret q
       else mret p);
  c ← cell p;
  if bool_decide (is_Some (newer c)) && (time_or_time_end c <=? t_latest) then
    cl ← client k;
    set_client k (with_link_seq_id (seq_id c) cl);;
    getSequentialData p k (eventtype s)
  else mret nothing.

(** The search back from the latest data; [lock] is the oldest cell grabbed. *)
Fixpoint search (fuel : nat) (lock : nat) (t : Z) (o : option nat) : M Entry (option nat) :=
  match fuel with
  | O => stuck OutOfFuel
  | S fuel =>
      ed ← deref o;
      late ← afterTick ed t;
      if negb late then mret (Some ed)
      else if bool_decide (ed = lock) then mret None
      else
        c ← cell ed;
        p ← deref (older c);
        g ← cell p;
        if seq_id g =? 0 then
          inside ← beforeTick p t;
          if inside : bool then mret None
          else if bool_decide (older g = Some lock) then
            too_late ← afterTick lock t;
            if too_late : bool then mret None else search fuel lock t (older g)
          else search fuel lock t (older g)
        else search fuel lock t (Some p)
  end.

(** The branch for reading by time. *)
Definition access_timed (k : nat) (t_latest : Z) : M Entry (option nat * option TimeSpec) :=
  lock ← lock_oldest;
  s ← get;
  l ← cell (latest s);
  p ← deref (older l);
  c ← cell p;
  r ← (match data c with
       | None => mret nothing
       | Some _ =>
           found ← search (S (S (size (cells s)))) lock t_latest (Some p);
           match found with
           | None => mret nothing
           | Some ed =>
               r ← getData ed k (eventtype s);
               (match fst r with
                | Some _ =>
                    e ← cell ed;
                    cl ← client k;
                    set_client k (with_link_seq_id (seq_id e) cl)
                | None => mret tt
                end);;
               mret r
           end
       end);
  unlock lock;;
  mret r.

Definition accessData (k : nat) (t_latest : Z) : M Entry (option nat * option TimeSpec) :=
  s ← get;
  if negb (valid s) then mret nothing
  else
    cl ← client k;
    if sequential_read cl then access_sequential k t_latest else access_timed k t_latest.

Definition releaseData (k : nat) : M Entry unit :=
  cl ← client k;
  (if sequential_read cl then
     p ← deref (read_index cl);
     c ← cell p;
     set_client k (with_read_index (newer c) cl);;
     q ← deref (newer c);
     incrementReadAccess q
   else mret tt);;
  a ← deref (accessed cl);
  returnData a k.

Definition releaseDataNoStep (k : nat) : M Entry unit :=
  cl ← client k;
  (if sequential_read cl then a ← deref (accessed cl); incrementReadAccess a else mret tt);;
  a ← deref (accessed cl);
  returnData a k.

Definition releaseOnlyAccess (k : nat) : M Entry unit :=
  cl ← client k;
  (if sequential_read cl then
     a ← deref (accessed cl);
     c ← cell a;
     set_client k (with_read_index (newer c) cl);;
     q ← deref (newer c);
     incrementReadAccess q
   else mret tt);;
  a ← deref (accessed cl);
  assumeData a k.

Definition monitorLatestData : M Entry (option nat * option TimeSpec) :=
  s ← get;
  dassert (bool_decide (monitored s = None));;
  lock ← lock_oldest;
  l ← cell (latest s);
  p ← deref (older l);
  c ← cell p;
  r ← (match data c with
       | None => modify (set_monitored None);; mret nothing
       | Some _ => modify (set_monitored (Some p));; monitorGetData p (eventtype s)
       end);
  unlock lock;;
  mret r.

Definition monitorReleaseData : M Entry unit :=
  s ← get;
  dassert (bool_decide (is_Some (monitored s)));;
  p ← deref (monitored s);
  monitorReturnData p;;
  modify (set_monitored None).

(** [while (looking_for != now_oldest && looking_for->afterTick(ts))] *)
Fixpoint look_back (fuel : nat) (stop : nat) (t : Z) (o : option nat) : M Entry nat :=
  match fuel with
  | O => stuck OutOfFuel
  | S fuel =>
      p ← deref o;
      if bool_decide (p = stop) then mret p
      else
        late ← afterTick p t;
        if late : bool then c ← cell p; look_back fuel stop t (older c) else mret p
  end.

Definition count_visible (t : Z) (from : nat) : M Entry Z :=
  c ← cell from;
  match data c with
  | None => mret 0
  | Some _ =>
      from ← (if seq_id c =? 0 then deref (newer c) else mret from);
      late ← afterTick from t;
      if late : bool then mret 0
      else
        s ← get;
        l ← cell (latest s);
        p ← look_back (S (S (size (cells s)))) from t (older l);
        c ← cell p;
        f ← cell from;
        mret (u32 (u32 (seq_id c - seq_id f) + 1))
  end.

Definition getNumVisibleSets (t : Z) (myoldest : option nat) : M Entry Z :=
  match myoldest with
  | Some p => count_visible t p
  | None =>
      lock ← lock_oldest;
      s ← get;
      r ← count_visible t (oldest s);
      unlock lock;;
      mret r
  end.

Definition visible (t : Z) (p : nat) : M Entry bool :=
  c ← cell p;
  match data c with
  | None => mret false
  | Some _ => late ← afterTick p t; mret (negb late)
  end.

Definition haveVisibleSets (t : Z) (myoldest : option nat) : M Entry bool :=
  match myoldest with
  | Some p => visible t p
  | None =>
      lock ← lock_oldest;
      s ← get;
      r ← visible t (oldest s);
      unlock lock;;
      mret r
  end.

Definition data_time (p : nat) : M Entry TimeSpec :=
  c ← cell p;
  match newer c, data c with
  | Some _, Some _ => time_spec c false
  | _, _ => mret (mkTS 0 0)
  end.

(** Over a gap to the data behind it. *)
Definition oldest_data_time (p : nat) : M Entry TimeSpec :=
  c ← cell p;
  if seq_id c =? 0 then
    match newer c with
    | Some q => data_time q
    | None => mret (mkTS 0 0)
    end
  else data_time p.

Definition getOldestDataTime (k : nat) : M Entry TimeSpec :=
  cl ← client k;
  if sequential_read cl then p ← deref (read_index cl); oldest_data_time p
  else
    lock ← lock_oldest;
    r ← oldest_data_time lock;
    unlock lock;;
    mret r.

Definition getLatestDataTime : M Entry TimeSpec :=
  lock ← lock_oldest;
  s ← get;
  l ← cell (latest s);
  p ← deref (older l);
  c ← cell p;
  r ← (match data c with
       | Some _ => time_spec c false
       | None => mret (mkTS 0 0)
       end);
  unlock lock;;
  mret r.

Definition currentTimeTick : M Entry Z :=
  s ← get; l ← cell (latest s); mret (time_or_time_end l).

Definition unpackTimeTick : M Entry Z :=
  s ← get;
  if jumptime s =? MAX_TIMETICK then currentTimeTick
  else modify (set_jumptime MAX_TIMETICK);; mret (jumptime s).

Definition timeJump (t : Z) (s : Entry) : Entry := set_jumptime t s.

(** *** Packers *)

Definition packer (i : nat) : M Entry (nat * PackerClientData) :=
  s ← get; of_option OutOfBounds (pclients s !! i).

(** Data for the transport, with the packer's state after it. *)
Definition accessPackData (pc : PackerClientData) (k : nat)
    : M Entry (option nat * option TimeSpec * PackerClientData) :=
  s ← get;
  if negb (valid s) then mret (None, None, pc)
  else
    cl ← client k;
    p ← deref (read_index cl);
    c ← cell p;
    '(p, pc) ← (if seq_id c =? 0 then
         q ← skip_gap p;
         cl ← client k;
         set_client k (with_read_index (Some q) cl);;
         mret (q, mkPacker (validity_end_sent pc) (previous_data pc) true (packer_seq_id pc))
       else mret (p, pc));
    c ← cell p;
    let pc := mkPacker (validity_end_sent pc) (previous_data pc) (send_full pc) (seq_id c) in
    r ← getSequentialData p k (eventtype s);
    dassert (bool_decide (is_Some (fst r)));;
    mret (fst r, snd r, pc).

Definition packComplete (i : nat) : M Entry unit :=
  '(k, _) ← packer i;
  cl ← client k;
  p ← deref (read_index cl);
  c ← cell p;
  set_client k (with_read_index (newer c) cl);;
  a ← deref (accessed cl);
  ac ← cell a;
  q ← deref (newer ac);
  incrementReadAccess q;;
  returnData a k.

Definition packFailed (i : nat) : M Entry unit :=
  '(k, _) ← packer i;
  cl ← client k;
  set_client k (with_accessed None cl).

Definition nextSendFull (s : Entry) : Entry :=
  set_pclients ((fun '(k, pc) => (k, mkPacker (validity_end_sent pc) (previous_data pc)
    true (packer_seq_id pc))) <$> pclients s) s.

(** [resetValid] lets go of the packers' latches. *)
Definition resetValid : M Entry unit :=
  s ← get;
  if valid s then
    modify (set_settings (span s) (depth s) false);;
    (fix go l := match l with
     | [] => mret tt
     | (k, _) :: l =>
         cl ← client k;
         p ← deref (read_index cl);
         releaseReadAccess p;;
         go l
     end) (if has_writer s then rev (pclients s) else [])
  else mret tt.

(** [cleanAllData]: repeated [finalDeleteData] from [cleanup]. *)
Fixpoint clean_from (fuel : nat) (o : option nat) : M Entry (option nat) :=
  match fuel, o with
  | O, _ => stuck OutOfFuel
  | S _, None => mret None
  | S fuel, Some p =>
      '(more, next) ← finalDeleteData p;
      if more : bool then clean_from fuel next else mret next
  end.

End WithBuild.
End UCE.
