(* ===== verification/ChannelInv.v ===== *)
(** The invariant of a channel entry and the effect of its operations.

    [Inv s L h] says that the cells [L] form one doubly linked list from
    [cleanup] to the sentinel, that every read access counter is one more than
    the number of latches on the cell, and that clients stand at or behind
    [oldest].  The lemmas give the run of each operation from such a state:
    reading, releasing, flushing, recycling, shifting and writing. *)

From S2P Require Import Prelude TimeSpec ChannelEntry.
#[local] Open Scope Z_scope.

(** * Invariant

    [L] lists the cells from [cleanup] to [latest]; [h] the latches a running
    operation holds on top of those of the clients. *)

Definition latch (cl : Client) : list nat :=
  option_list (if sequential_read cl then read_index cl else accessed cl).

Definition all_latches (s : Entry) : list nat :=
  (map_to_list (clients s) ≫= fun kc => latch kc.2)
  ++ (if bool_decide (saveup s = NoSaveUp) then [] else [oldest s])
  ++ option_list (monitored s).

(** A gap has no data and no number; the sentinel has a number but no data. *)
Definition kind_ok (last : bool) (c : Cell) : Prop :=
  is_u32 (seq_id c) /\
  if last then data c = None /\ 1 <= seq_id c
  else seq_id c = 0 /\ data c = None \/ 1 <= seq_id c /\ is_Some (data c).

(** At [o] or behind it. *)
Definition ahead (L : list nat) (o p : nat) : Prop :=
  exists i, L !! i = Some p /\ forall k, L !! k = Some o -> (k <= i)%nat.

Definition client_ok (L : list nat) (o : nat) (cl : Client) : Prop :=
  (forall a, accessed cl = Some a -> a ∈ L)
  /\ if sequential_read cl then exists p, read_index cl = Some p /\ ahead L o p
     else read_index cl = None.

(** Between operations a sequential client accesses the cell it has latched,
    and only a cell with data. *)
Definition quiet (s : Entry) : Prop :=
  forall k cl, clients s !! k = Some cl -> sequential_read cl = true ->
    accessed cl = None
    \/ accessed cl = read_index cl
       /\ forall a, accessed cl = Some a -> is_Some (cells s !! a ≫= data).

(** The numbers of the cells that are not gaps. *)
Definition number (m : gmap nat Cell) (p : nat) : option Z :=
  c ← m !! p; if seq_id c =? 0 then None else Some (seq_id c).
Definition numbers (m : gmap nat Cell) (L : list nat) : list Z := omap (number m) L.

Definition consecutive (l : list Z) : Prop :=
  forall i a b, l !! i = Some a -> l !! S i = Some b -> b = a + 1.

Record Inv (s : Entry) (L h : list nat) : Prop := {
  i_chain : forall i p, L !! i = Some p -> exists c, cells s !! p = Some c
    /\ newer c = L !! S i /\ (forall j, i = S j -> older c = L !! j)
    /\ kind_ok (bool_decide (S i = length L)) c
    /\ read_accesses c = 1 + occ p (all_latches s ++ h);
  i_nodup : NoDup L;
  i_head : L !! 0%nat = Some (cleanup s);
  i_last : list.last L = Some (latest s);
  i_oldest : exists k, (1 <= k)%nat /\ L !! k = Some (oldest s);
  i_gaps : forall i p q c d, L !! i = Some p -> L !! S i = Some q ->
    cells s !! p = Some c -> cells s !! q = Some d -> seq_id c = 0 ->
    1 <= seq_id d /\ ((S (S i) < length L)%nat \/ i = 0%nat /\ seq_id d = 1);
  i_fresh : (forall p c, cells s !! p = Some c -> p < fresh s)%nat
    /\ (forall k c, clients s !! k = Some c -> k < fresh s)%nat;
  i_small : Z.of_nat (size (clients s)) < 4294967000;
  i_clients : forall k cl, clients s !! k = Some cl -> client_ok L (oldest s) cl;
  i_monitored : forall p, monitored s = Some p -> p ∈ L;
  i_numbers : consecutive (numbers (cells s) L)
}.

(** ** Numbers *)

Lemma numbers_ext (m m' : gmap nat Cell) L :
  (forall p, p ∈ L -> seq_id <$> m' !! p = seq_id <$> m !! p) -> numbers m' L = numbers m L.
Proof.
  intros E. apply list_omap_ext, Forall2_same_length_lookup_2; [done|].
  intros i x y Hx Hy. rewrite Hx in Hy. injection Hy as <-.
  apply list_elem_of_lookup_2 in Hx. specialize (E x Hx). unfold number.
  destruct (m !! x), (m' !! x); cbn in *; try done. by injection E as ->.
Qed.

Lemma consecutive_tail x l : consecutive (x :: l) -> consecutive l.
Proof. intros Hc i a b Ha Hb. exact (Hc (S i) a b Ha Hb). Qed.

Lemma consecutive_app_r l1 l2 : consecutive (l1 ++ l2) -> consecutive l2.
Proof. induction l1 as [|x l1 IH]; [done|]. intros H. by eapply IH, consecutive_tail. Qed.

Lemma consecutive_snoc l a : consecutive (l ++ [a]) -> consecutive (l ++ [a; a + 1]).
Proof.
  intros Hc i x y Hx Hy. destruct (lt_eq_lt_dec (S i) (length l)) as [[Hlt|E]|Hgt].
  - rewrite lookup_app_l in Hx, Hy by lia.
    apply (Hc i); by rewrite lookup_app_l by lia.
  - rewrite lookup_app_l in Hx by lia. rewrite lookup_app_r, E, Nat.sub_diag in Hy by lia.
    injection Hy as <-. apply (Hc i); [by rewrite lookup_app_l by lia|].
    by rewrite lookup_app_r, E, Nat.sub_diag by lia.
  - rewrite lookup_app_r in Hx, Hy by lia. destruct (i - length l)%nat as [|n] eqn:En.
    + replace (S i - length l)%nat with 1%nat in Hy by lia.
      injection Hx as <-. by injection Hy as <-.
    + replace (S i - length l)%nat with (S (S n)) in Hy by lia. done.
Qed.

Lemma consecutive_nth l i a b :
  consecutive l -> l !! 0%nat = Some a -> l !! i = Some b -> b = a + Z.of_nat i.
Proof.
  intros Hc Ha. revert b. induction i as [|i IH]; intros b Hb; [rewrite Ha in Hb; injection Hb as <-; lia|].
  destruct (lookup_lt_is_Some_2 l i) as (x & Hx); [apply lookup_lt_Some in Hb; lia|].
  rewrite (Hc i x b Hx Hb), (IH x Hx). lia.
Qed.

(** ** Counting latches *)

Lemma latch_short cl : (length (latch cl) <= 1)%nat.
Proof. unfold latch. case_match; by destruct (_ : option nat); cbn; lia. Qed.

Lemma latches_length s : (length (all_latches s) <= size (clients s) + 2)%nat.
Proof.
  unfold all_latches. rewrite !length_app.
  assert (forall l : list (nat * Client), (length (l ≫= fun kc => latch kc.2) <= length l)%nat) as Hb.
  { induction l as [|kc l IH]; [done|]. rewrite bind_cons, length_app.
    pose proof (latch_short kc.2). cbn [length]. lia. }
  specialize (Hb (map_to_list (clients s))). rewrite length_map_to_list in Hb.
  assert (length (option_list (monitored s)) <= 1)%nat by by destruct (monitored s); cbn; lia.
  case_bool_decide; cbn; lia.
Qed.

Lemma latches_insert s k cl cl' :
  clients s !! k = Some cl ->
  latch cl' ++ all_latches s ≡ₚ latch cl ++ all_latches (set_clients <[k:=cl']> s).
Proof.
  intros Hk. unfold all_latches; cbn.
  assert (clients s = <[k:=cl]> (delete k (clients s))) as E.
  { by rewrite insert_delete_id. }
  assert (forall c, (map_to_list (<[k:=c]> (clients s)) ≫= fun kc => latch kc.2)
    ≡ₚ latch c ++ (map_to_list (delete k (clients s)) ≫= fun kc => latch kc.2)) as Hm.
  { intros c. rewrite <- insert_delete_eq.
    by rewrite map_to_list_insert by apply lookup_delete_eq. }
  rewrite (Hm cl'). rewrite E at 1.
  rewrite map_to_list_insert by apply lookup_delete_eq. cbn.
  rewrite !app_assoc. do 2 f_equiv. 
  rewrite (Permutation_app_comm (latch cl')). by rewrite <- !app_assoc.
Qed.

(** ** What an operation leaves alone *)

Definition core (c : Cell) : Z * option nat * option nat * option nat * Z :=
  (time_or_time_end c, data c, older c, newer c, seq_id c).

(** Everything but the clients and the read accesses. *)
Definition shape (s : Entry) :=
  (core <$> cells s, fresh s, deleted s,
   (span s, depth s, eventtype s, has_writer s, valid s),
   (cleanup s, oldest s, latest s, monitored s, saveup s, jumptime s),
   (pclients s, entry_config_version s, triggers s, trigger_requests s,
    trigger_releases s, events s)).

Lemma core_cell s s' p c :
  core <$> cells s' = core <$> cells s -> cells s !! p = Some c ->
  exists c', cells s' !! p = Some c' /\ core c' = core c.
Proof.
  intros E Hc. assert ((core <$> cells s') !! p = Some (core c)) as H.
  { by rewrite E, lookup_fmap, Hc. }
  rewrite lookup_fmap in H. by apply fmap_Some in H as (c' & ? & ?); exists c'.
Qed.

Lemma data_core s s' p :
  core <$> cells s' = core <$> cells s -> cells s' !! p ≫= data = cells s !! p ≫= data.
Proof.
  intros E. assert ((core <$> cells s') !! p = (core <$> cells s) !! p) as H by by rewrite E.
  rewrite !lookup_fmap in H.
  destruct (cells s' !! p), (cells s !! p); cbn in *; try done.
  by injection H as _ Hd _ _ _.
Qed.

Lemma in_cells s L h p : Inv s L h -> p ∈ L -> exists c, cells s !! p = Some c.
Proof.
  intros HI (i & Hi)%list_elem_of_lookup. destruct (i_chain _ _ _ HI i p Hi) as (c & ? & _).
  by exists c.
Qed.

Lemma cell_run s p c : cells s !! p = Some c -> Cells.cell p s = (Val c, s).
Proof. intros E. unfold Cells.cell. by rewrite E. Qed.
Lemma client_run s k c : clients s !! k = Some c -> Cells.client k s = (Val c, s).
Proof. intros E. unfold Cells.client. by rewrite E. Qed.

(** The state with other read accesses at [p]. *)
Definition reaccess (p : nat) (r : Z) (s : Entry) : Entry :=
  set_store (alter (Cells.with_accesses r) p (cells s)) (fresh s) (deleted s) s.

Lemma set_cell_accesses p c r s :
  cells s !! p = Some c ->
  Cells.set_cell p (Cells.with_accesses r c) s = (Val tt, reaccess p r s).
Proof.
  intros E. unfold Cells.set_cell, modify, reaccess. do 3 f_equal.
  apply map_eq. intros q. destruct (decide (p = q)) as [->|Hne].
  - by rewrite lookup_insert_eq, lookup_alter_eq, E.
  - by rewrite lookup_insert_ne, lookup_alter_ne.
Qed.

Lemma reaccess_shape p r s : shape (reaccess p r s) = shape s.
Proof.
  unfold shape, reaccess; cbn. do 5 f_equal.
  apply map_eq. intros q. rewrite !lookup_fmap. destruct (decide (p = q)) as [->|Hne].
  - rewrite lookup_alter_eq. by destruct (cells s !! q).
  - by rewrite lookup_alter_ne.
Qed.

Lemma reaccess_clients p r s : clients (reaccess p r s) = clients s.
Proof. done. Qed.

Lemma Inv_reaccess s L h p r h' :
  Inv s L h -> r = 1 + occ p (all_latches s ++ h') ->
  (forall q, q <> p -> occ q h' = occ q h) -> Inv (reaccess p r s) L h'.
Proof.
  intros HI Hr Hq. destruct HI. split; try done.
  - intros i q Hi. destruct (i_chain0 i q Hi) as (c & Hc & Hn & Ho & Hk & Ha). cbn.
    destruct (decide (p = q)) as [->|Hne].
    + exists (Cells.with_accesses r c). rewrite lookup_alter_eq, Hc. by split_and!.
    + exists c. rewrite lookup_alter_ne by done. split_and!; try done.
      rewrite Ha, !occ_app, Hq by done. done.
  - intros i x y c d Hi Hj. cbn.
    assert (forall z e, alter (Cells.with_accesses r) p (cells s) !! z = Some e ->
      exists e', cells s !! z = Some e' /\ seq_id e' = seq_id e) as Hz.
    { intros z e. destruct (decide (p = z)) as [->|Hne].
      - rewrite lookup_alter_eq. intros (e' & He' & ->)%fmap_Some. by exists e'.
      - rewrite lookup_alter_ne by done. by exists e. }
    intros (c' & Hc & <-)%Hz (d' & Hd & <-)%Hz. eauto.
  - cbn. destruct i_fresh0 as [Hf1 Hf2]. split; [|done]. intros q c.
    destruct (decide (p = q)) as [->|Hne].
    + rewrite lookup_alter_eq. intros (e' & He' & ->)%fmap_Some. eauto.
    + rewrite lookup_alter_ne by done. eauto.
  - cbn. rewrite (numbers_ext (cells s)); [done|]. intros q _.
    destruct (decide (p = q)) as [->|Hne]; [|by rewrite lookup_alter_ne].
    rewrite lookup_alter_eq. by destruct (cells s !! q).
Qed.

Lemma accesses_bound s L h p c :
  Inv s L h -> p ∈ L -> cells s !! p = Some c -> (length h < 100)%nat ->
  read_accesses c = 1 + occ p (all_latches s ++ h)
  /\ 1 <= read_accesses c < 4294967200.
Proof.
  intros HI (i & Hi)%list_elem_of_lookup Hc Hl.
  destruct (i_chain _ _ _ HI i p Hi) as (c' & Hc' & _ & _ & _ & Ha).
  rewrite Hc in Hc'. injection Hc' as <-. split; [done|].
  pose proof (occ_le p (all_latches s ++ h)) as Hb. rewrite length_app in Hb.
  pose proof (latches_length s). pose proof (i_small _ _ _ HI).
  pose proof (occ_nonneg p (all_latches s ++ h)). lia.
Qed.

Lemma increment_spec s L h p :
  Inv s L h -> p ∈ L -> (length h < 100)%nat ->
  exists s', Cells.incrementReadAccess p s = (Val tt, s') /\ Inv s' L (p :: h)
    /\ shape s' = shape s /\ clients s' = clients s.
Proof.
  intros HI Hp Hl. destruct (in_cells _ _ _ _ HI Hp) as (c & Hc).
  destruct (accesses_bound _ _ _ _ _ HI Hp Hc Hl) as (Ha & Hb).
  unfold Cells.incrementReadAccess. rewrite (bind_val _ _ _ c s) by by apply cell_run.
  rewrite (set_cell_accesses p c) by done. eexists. split; [reflexivity|].
  split_and!; [|apply reaccess_shape|done].
  eapply Inv_reaccess; [done| |].
  - rewrite u32_id by (unfold is_u32; lia). rewrite Ha, !occ_app, occ_cons, decide_True by done.
    lia.
  - intros q Hq. by rewrite occ_cons, decide_False by done.
Qed.

Lemma release_spec s L h p :
  Inv s L (p :: h) -> p ∈ L -> (length h < 98)%nat ->
  exists s', Cells.releaseReadAccess p s = (Val tt, s') /\ Inv s' L h
    /\ shape s' = shape s /\ clients s' = clients s.
Proof.
  intros HI Hp Hl. destruct (in_cells _ _ _ _ HI Hp) as (c & Hc).
  destruct (accesses_bound _ _ _ _ _ HI Hp Hc ltac:(cbn; lia)) as (Ha & Hb).
  unfold Cells.releaseReadAccess. rewrite (bind_val _ _ _ c s) by by apply cell_run.
  rewrite (set_cell_accesses p c) by done. eexists. split; [reflexivity|].
  rewrite !occ_app, occ_cons, decide_True in Ha by done.
  split_and!; [|apply reaccess_shape|done].
  pose proof (occ_nonneg p (all_latches s)). pose proof (occ_nonneg p h).
  eapply Inv_reaccess; [done| |].
  - rewrite u32_id by (unfold is_u32; lia). rewrite Ha, !occ_app. lia.
  - intros q Hq. by rewrite occ_cons, decide_False by done.
Qed.

Lemma getAccess_spec s L h p :
  Inv s L h -> p ∈ L -> (length h < 100)%nat ->
  exists s', Cells.getAccess p s = (Val true, s') /\ Inv s' L (p :: h)
    /\ shape s' = shape s /\ clients s' = clients s.
Proof.
  intros HI Hp Hl. destruct (in_cells _ _ _ _ HI Hp) as (c & Hc).
  destruct (accesses_bound _ _ _ _ _ HI Hp Hc Hl) as (Ha & Hb).
  destruct (increment_spec _ _ _ _ HI Hp Hl) as (s' & E & H).
  unfold Cells.incrementReadAccess in E. rewrite (bind_val _ _ _ c s) in E by by apply cell_run.
  unfold Cells.getAccess. rewrite (bind_val _ _ _ c s) by by apply cell_run.
  destruct (Z.eqb_spec (read_accesses c) 0); [lia|].
  rewrite (bind_val _ _ _ tt s') by exact E. by exists s'.
Qed.

(** Latches exchanged between a client and the running operation. *)
Lemma set_client_spec s L h k cl cl' h' :
  Inv s L h -> clients s !! k = Some cl -> client_ok L (oldest s) cl' ->
  latch cl' ++ h' ≡ₚ latch cl ++ h ->
  exists s', Cells.set_client k cl' s = (Val tt, s') /\ Inv s' L h'
    /\ shape s' = shape s /\ clients s' = <[k:=cl']> (clients s).
Proof.
  intros HI Hk Hok Hp. eexists. split; [reflexivity|]. split_and!; [|done|done].
  pose proof (latches_insert s k cl cl' Hk) as Hl. destruct HI. split; try done.
  - intros i p Hi. destruct (i_chain0 i p Hi) as (c & Hc & Hn & Ho & Hkd & Ha).
    exists c. split_and!; try done. rewrite Ha. f_equal.
    apply (occ_perm p) in Hl. apply (occ_perm p) in Hp.
    rewrite !occ_app in *. lia.
  - destruct i_fresh0 as [Hf1 Hf2]. split; [done|]. intros j c. cbn.
    destruct (decide (k = j)) as [->|Hne].
    + rewrite lookup_insert_eq. intros [= <-]. eauto.
    + rewrite lookup_insert_ne by done. eauto.
  - cbn. by rewrite map_size_insert_Some by eauto.
  - intros j c. cbn. destruct (decide (k = j)) as [->|Hne].
    + rewrite lookup_insert_eq. by intros [= <-].
    + rewrite lookup_insert_ne by done. eauto.
Qed.

Definition frame (s s' : Entry) : Prop := shape s' = shape s /\ clients s' = clients s.

Lemma shape_ends s s' : shape s' = shape s ->
  latest s' = latest s /\ oldest s' = oldest s /\ cleanup s' = cleanup s
  /\ eventtype s' = eventtype s /\ valid s' = valid s /\ monitored s' = monitored s
  /\ fresh s' = fresh s /\ span s' = span s /\ depth s' = depth s
  /\ core <$> cells s' = core <$> cells s.
Proof. unfold shape. intros [=]. by split_and!. Qed.

Lemma in_last s L h : Inv s L h -> latest s ∈ L /\ L !! (length L - 1)%nat = Some (latest s).
Proof.
  intros HI. pose proof (i_last _ _ _ HI) as Hl. rewrite last_lookup in Hl.
  replace (Nat.pred (length L)) with (length L - 1)%nat in Hl by lia.
  split; [by eapply list_elem_of_lookup_2|done].
Qed.

Lemma in_oldest s L h : Inv s L h -> oldest s ∈ L.
Proof. intros HI. destruct (i_oldest _ _ _ HI) as (k & _ & Hk). by eapply list_elem_of_lookup_2. Qed.

Lemma lock_oldest_spec s L h :
  Inv s L h -> (length h < 90)%nat ->
  exists s', UCE.lock_oldest s = (Val (oldest s), s') /\ Inv s' L (oldest s :: h) /\ frame s s'.
Proof.
  intros HI Hl. pose proof (in_oldest _ _ _ HI) as Ho.
  destruct (getAccess_spec _ _ _ _ HI Ho ltac:(lia)) as (s' & E & HI' & Hs & Hc).
  exists s'. split; [|done]. unfold UCE.lock_oldest.
  rewrite (bind_val _ _ _ (oldest s) s) by reflexivity.
  by rewrite (bind_val _ _ _ true s') by exact E.
Qed.

(** ** The data ahead of a client *)

(** A data point: its start time and the data. *)
Definition item (c : Cell) : option (Z * nat) := (fun d => (time_or_time_end c, d)) <$> data c.

Fixpoint walk (fuel : nat) (m : gmap nat Cell) (o : option nat) : list (Z * nat) :=
  match fuel, o with
  | S fuel, Some p =>
      match m !! p with
      | Some c => option_list (item c) ++ walk fuel m (newer c)
      | None => []
      end
  | _, _ => []
  end.

(** The data from cell [p] to the sentinel, in the order of writing. *)
Definition pending (s : Entry) (p : nat) : list (Z * nat) :=
  walk (size (cells s)) (cells s) (Some p).

Definition data_of (s : Entry) (p : nat) : option (Z * nat) := cells s !! p ≫= item.

Lemma L_size s L h : Inv s L h -> (length L <= size (cells s))%nat.
Proof.
  intros HI. assert (list_to_set L ⊆ dom (cells s)) as Hsub.
  { intros p Hp. apply elem_of_list_to_set in Hp.
    destruct (in_cells _ _ _ _ HI Hp) as (c & Hc). by apply elem_of_dom_2 in Hc. }
  apply subseteq_size in Hsub. rewrite size_list_to_set in Hsub by apply (i_nodup _ _ _ HI).
  by rewrite size_dom in Hsub.
Qed.

Lemma walk_chain s L h fuel i p :
  Inv s L h -> L !! i = Some p -> (length L - i <= fuel)%nat ->
  walk fuel (cells s) (Some p) = omap (data_of s) (drop i L).
Proof.
  intros HI. revert i p. induction fuel as [|fuel IH]; intros i p Hi Hf.
  { apply lookup_lt_Some in Hi. lia. }
  destruct (i_chain _ _ _ HI i p Hi) as (c & Hc & Hn & _). cbn [walk]. rewrite Hc, Hn.
  rewrite (drop_S _ _ _ Hi). cbn.
  assert (data_of s p = item c) as -> by (unfold data_of; by rewrite Hc).
  assert (walk fuel (cells s) (L !! S i) = omap (data_of s) (drop (S i) L)) as Hrest.
  { destruct (L !! S i) as [q|] eqn:Hq.
    - apply IH; [done|lia].
    - apply lookup_ge_None in Hq. rewrite drop_ge by lia. by destruct fuel. }
  rewrite Hrest. by destruct (item c).
Qed.

Lemma pending_chain s L h i p :
  Inv s L h -> L !! i = Some p -> pending s p = omap (data_of s) (drop i L).
Proof.
  intros HI Hi. unfold pending. eapply walk_chain; [done|done|].
  pose proof (L_size _ _ _ HI). lia.
Qed.

Lemma walk_core (m m' : gmap nat Cell) : core <$> m' = core <$> m ->
  forall fuel o, walk fuel m' o = walk fuel m o.
Proof.
  intros E. induction fuel as [|fuel IH]; intros [p|]; try done. cbn.
  assert ((core <$> m') !! p = (core <$> m) !! p) as H by by rewrite E.
  rewrite !lookup_fmap in H.
  destruct (m' !! p) as [c'|], (m !! p) as [c|]; cbn in H; try done.
  injection H as Ht Hd _ Hn _. unfold item. by rewrite Ht, Hd, Hn, IH.
Qed.

Lemma size_core (m m' : gmap nat Cell) : core <$> m' = core <$> m -> size m' = size m.
Proof.
  intros E. rewrite <- (map_size_fmap core m'), E. by rewrite map_size_fmap.
Qed.

Lemma pending_shape s s' p : shape s' = shape s -> pending s' p = pending s p.
Proof.
  intros E. apply shape_ends in E as (_&_&_&_&_&_&_&_&_&E). unfold pending.
  by rewrite (size_core _ _ E), (walk_core _ _ E).
Qed.

(** ** Moving latches *)

Lemma increment_run p c s : cells s !! p = Some c ->
  Cells.incrementReadAccess p s = (Val tt, reaccess p (u32 (read_accesses c + 1)) s).
Proof.
  intros E. unfold Cells.incrementReadAccess.
  rewrite (bind_val _ _ _ c s) by by apply cell_run. by apply set_cell_accesses.
Qed.

Lemma release_run p c s : cells s !! p = Some c ->
  Cells.releaseReadAccess p s = (Val tt, reaccess p (u32 (read_accesses c - 1)) s).
Proof.
  intros E. unfold Cells.releaseReadAccess.
  rewrite (bind_val _ _ _ c s) by by apply cell_run. by apply set_cell_accesses.
Qed.

(** Operations on the counters do not see the clients. *)
Lemma increment_swap p f s s' :
  Cells.incrementReadAccess p s = (Val tt, s') ->
  Cells.incrementReadAccess p (set_clients f s) = (Val tt, set_clients f s').
Proof.
  destruct (cells s !! p) as [c|] eqn:E.
  - rewrite (increment_run p c) by done. intros [= <-]. by rewrite (increment_run p c).
  - unfold Cells.incrementReadAccess, mbind, M_bind, Cells.cell. by rewrite E.
Qed.

Lemma release_swap p f s s' :
  Cells.releaseReadAccess p (set_clients f s) = (Val tt, s') ->
  exists s1, Cells.releaseReadAccess p s = (Val tt, s1) /\ s' = set_clients f s1.
Proof.
  destruct (cells s !! p) as [c|] eqn:E.
  - rewrite (release_run p c) by done. intros [= <-].
    rewrite (release_run p c) by done. by eexists.
  - unfold Cells.releaseReadAccess, mbind, M_bind, Cells.cell. cbn. by rewrite E.
Qed.

Section Ops.
Context `{BuildConfig}.

Lemma ahead_in L o p : ahead L o p -> p ∈ L.
Proof. intros (i & Hi & _). by eapply list_elem_of_lookup_2. Qed.

Lemma client_ok_read_index L o cl p :
  client_ok L o cl -> sequential_read cl = true -> ahead L o p ->
  client_ok L o (Cells.with_read_index (Some p) cl).
Proof. intros [Ha Hr] Hs Hp. split; [done|]. cbn. rewrite Hs. eauto. Qed.

Lemma client_ok_accessed L o cl a :
  client_ok L o cl -> (forall p, a = Some p -> p ∈ L) ->
  client_ok L o (Cells.with_accessed a cl).
Proof. intros [Ha Hr] Hp. split; [|done]. cbn. exact Hp. Qed.

Lemma latch_seq cl p :
  sequential_read cl = true -> read_index cl = Some p -> latch cl = [p].
Proof. intros Hs Hp. unfold latch. by rewrite Hs, Hp. Qed.

(** The state in which client [k] would stand at [p]. *)
Definition standing (k : nat) (cl : Client) (p : nat) (s : Entry) : Entry :=
  set_clients <[k:=Cells.with_read_index (Some p) cl]> s.

Lemma standing_again k cl p q s :
  standing k cl q (standing k cl p s) = standing k cl q s.
Proof. unfold standing, set_clients. cbn. by rewrite insert_insert_eq. Qed.

Lemma standing_same s k cl p :
  clients s !! k = Some cl -> read_index cl = Some p -> standing k cl p s = s.
Proof.
  intros Hk Hr. unfold standing, Cells.with_read_index. rewrite <- Hr.
  destruct cl, s. unfold set_clients. cbn in *. by rewrite insert_id.
Qed.

(** From standing at [p] to standing at [q], with the counters to match. *)
Lemma step_latch s L h k cl p q :
  Inv (standing k cl p s) L h -> sequential_read cl = true ->
  p ∈ L -> ahead L (oldest s) q -> (length h < 90)%nat ->
  exists s1 s2, Cells.incrementReadAccess q s = (Val tt, s1)
    /\ Cells.releaseReadAccess p s1 = (Val tt, s2)
    /\ Inv (standing k cl q s2) L h /\ shape s1 = shape s /\ shape s2 = shape s
    /\ clients s1 = clients s /\ clients s2 = clients s.
Proof.
  intros HI Hs Hp Haq Hlen. pose proof (ahead_in _ _ _ Haq) as Hq.
  destruct (in_cells _ _ _ _ HI Hq) as (c & Hc). cbn in Hc.
  destruct (increment_spec _ _ _ _ HI Hq ltac:(lia)) as (s1 & E1 & HI1 & _).
  rewrite (increment_run q c) in E1 by done. injection E1 as E1.
  set (r1 := u32 (read_accesses c + 1)) in *.
  assert (s1 = standing k cl p (reaccess q r1 s)) as -> by by rewrite <- E1.
  assert (client_ok L (oldest s) (Cells.with_read_index (Some p) cl)) as Hok.
  { apply (i_clients _ _ _ HI k). cbn. by rewrite lookup_insert_eq. }
  destruct (set_client_spec _ L (q :: h) k (Cells.with_read_index (Some p) cl)
    (Cells.with_read_index (Some q) cl) (p :: h) HI1) as (s2 & E2 & HI2 & _ & _).
  { cbn. by rewrite lookup_insert_eq. }
  { exact (client_ok_read_index L _ (Cells.with_read_index (Some p) cl) q Hok Hs Haq). }
  { rewrite (latch_seq _ q), (latch_seq _ p) by done. apply Permutation_swap. }
  injection E2 as E2.
  assert (s2 = standing k cl q (reaccess q r1 s)) as -> by (rewrite <- E2; apply standing_again).
  destruct (release_spec _ _ _ _ HI2 Hp ltac:(lia)) as (s3 & E3 & HI3 & _).
  destruct (in_cells _ _ _ _ HI2 Hp) as (d & Hd). cbn in Hd.
  rewrite (release_run p d) in E3 by done. injection E3 as E3.
  exists (reaccess q r1 s), (reaccess p (u32 (read_accesses d - 1)) (reaccess q r1 s)).
  split_and!; [by apply increment_run|by apply release_run| |by apply reaccess_shape| |done|done].
  - by rewrite <- E3 in HI3.
  - by rewrite !reaccess_shape.
Qed.

(** The latch of a sequential client goes from [from] to [to]. *)
Lemma move_latch_spec s L h k cl from to :
  Inv (standing k cl from s) L h -> clients s !! k = Some cl ->
  sequential_read cl = true -> from ∈ L -> ahead L (oldest s) to -> (length h < 90)%nat ->
  exists s', UCE.move_latch k from to s = (Val tt, s') /\ Inv s' L h
    /\ shape s' = shape s
    /\ clients s' = <[k:=Cells.with_read_index (Some to) cl]> (clients s).
Proof.
  intros HI Hk Hs Hf Ht Hlen.
  destruct (step_latch _ _ _ _ _ _ _ HI Hs Hf Ht Hlen)
    as (s1 & s2 & E1 & E2 & HI2 & Hs1 & Hs2 & Hc1 & Hc2).
  exists (standing k cl to s2). unfold UCE.move_latch.
  rewrite (bind_val _ _ _ tt s1) by exact E1.
  rewrite (bind_val _ _ _ tt s2) by exact E2.
  rewrite (bind_val _ _ _ cl s2) by (apply client_run; by rewrite Hc2).
  split_and!; [done|done|exact Hs2|by cbn; rewrite Hc2].
Qed.

(** Where a sequential client stands. *)
Definition at_index (s : Entry) (L : list nat) (k : nat) (cl : Client) (i p : nat) : Prop :=
  clients s !! k = Some cl /\ sequential_read cl = true /\ read_index cl = Some p
  /\ L !! i = Some p.

Lemma seq_client s L h k cl :
  Inv s L h -> clients s !! k = Some cl -> sequential_read cl = true ->
  exists i p, at_index s L k cl i p.
Proof.
  intros HI Hk Hs. destruct (i_clients _ _ _ HI _ _ Hk) as [_ Hr]. rewrite Hs in Hr.
  destruct Hr as (p & Hp & i & Hi & _). by exists i, p.
Qed.

Lemma at_ahead s L h k cl i p j q :
  Inv s L h -> at_index s L k cl i p -> (i <= j)%nat -> L !! j = Some q ->
  ahead L (oldest s) q.
Proof.
  intros HI (Hk & Hs & Hr & Hi) Hij Hq.
  destruct (i_clients _ _ _ HI _ _ Hk) as [_ Hr']. rewrite Hs in Hr'.
  destruct Hr' as (p' & Hp' & i' & Hi' & Hle). rewrite Hr in Hp'. injection Hp' as <-.
  pose proof (NoDup_lookup _ _ _ _ (i_nodup _ _ _ HI) Hi Hi') as <-.
  exists j. split; [done|]. intros o Ho. specialize (Hle o Ho). lia.
Qed.

Lemma at_index_pos s L h k cl i p :
  Inv s L h -> at_index s L k cl i p -> (1 <= i)%nat.
Proof.
  intros HI Hat. destruct (i_oldest _ _ _ HI) as (o & Ho & HLo).
  pose proof Hat as (_ & _ & _ & Hi).
  destruct (at_ahead _ _ _ _ _ _ _ _ _ HI Hat (le_n i) Hi) as (i' & Hi' & Hle).
  pose proof (NoDup_lookup _ _ _ _ (i_nodup _ _ _ HI) Hi Hi') as <-.
  specialize (Hle o HLo). lia.
Qed.

Lemma chain_next s L h i p c :
  Inv s L h -> L !! i = Some p -> cells s !! p = Some c -> newer c = L !! S i.
Proof.
  intros HI Hi Hc. destruct (i_chain _ _ _ HI i p Hi) as (c' & Hc' & Hn & _).
  rewrite Hc in Hc'. by injection Hc' as <-.
Qed.

Lemma chain_prev s L h i p q c :
  Inv s L h -> L !! i = Some p -> L !! S i = Some q -> cells s !! q = Some c ->
  older c = Some p.
Proof.
  intros HI Hp Hq Hc. destruct (i_chain _ _ _ HI (S i) q Hq) as (c' & Hc' & _ & Ho & _).
  rewrite Hc in Hc'. injection Hc' as <-. by rewrite (Ho i eq_refl).
Qed.

Lemma releaseData_seq s L k cl i p :
  Inv s L [] -> at_index s L k cl i p -> accessed cl = Some p -> (S i < length L)%nat ->
  exists s' q, UCE.releaseData k s = (Val tt, s') /\ L !! S i = Some q /\ Inv s' L []
    /\ shape s' = shape s
    /\ clients s' = <[k:=mkClient true (Some q) (link_seq_id cl) None]> (clients s).
Proof.
  intros HI Hat Ha Hlt. pose proof Hat as (Hk & Hs & Hr & Hi).
  destruct (lookup_lt_is_Some_2 L (S i) Hlt) as (q & Hq).
  pose proof (at_ahead _ _ _ _ _ _ _ (S i) q HI Hat ltac:(lia) Hq) as Haq.
  assert (p ∈ L /\ q ∈ L) as [HpL HqL] by (split; by eapply list_elem_of_lookup_2).
  pose proof (i_clients _ _ _ HI _ _ Hk) as Hok.
  destruct (in_cells _ _ _ _ HI HpL) as (c & Hc).
  pose proof (chain_next _ _ _ _ _ _ HI Hi Hc) as Hn. rewrite Hq in Hn.
  destruct (increment_spec _ _ _ _ HI HqL ltac:(cbn; lia)) as (s1 & E1 & HI1 & Hs1 & Hc1).
  set (cl1 := Cells.with_read_index (Some q) cl).
  assert (oldest s1 = oldest s) as Ho1 by by apply shape_ends in Hs1 as (_ & ? & _).
  assert (client_ok L (oldest s1) cl1) as Hok1 by (rewrite Ho1; by apply client_ok_read_index).
  destruct (set_client_spec s1 L [q] k cl cl1 [p]) as (s2 & E2 & HI2 & Hs2 & Hc2);
    [done|by rewrite Hc1|done| |].
  { rewrite (latch_seq cl1 q), (latch_seq cl p) by done. apply Permutation_swap. }
  injection E2 as E2. subst s2.
  set (cl2 := Cells.with_accessed None cl1).
  destruct (set_client_spec (set_clients <[k:=cl1]> s1) L [p] k cl1 cl2 [p]) as (s3 & E3 & HI3 & Hs3 & Hc3);
    [exact HI2|by rewrite Hc2, lookup_insert_eq|
    |by rewrite (latch_seq cl2 q), (latch_seq cl1 q)|].
  { by apply client_ok_accessed. }
  destruct (release_spec _ _ _ _ HI3 HpL ltac:(cbn; lia)) as (s4 & E4 & HI4 & Hs4 & Hc4).
  exists s4, q. split_and!; [|done|done| |].
  - unfold UCE.releaseData. rewrite (bind_val _ _ _ cl s) by by apply client_run.
    rewrite Hs, Hr.
    rewrite (bind_val _ _ _ tt (set_clients <[k:=cl1]> s1)).
    2:{ cbn [Cells.deref of_option]. rewrite mret_bind.
        rewrite (bind_val _ _ _ c s) by by apply cell_run. rewrite Hn.
        rewrite (bind_val _ _ _ tt (set_clients <[k:=cl1]> s)) by reflexivity.
        cbn [Cells.deref of_option]. rewrite mret_bind. by apply increment_swap. }
    rewrite Ha. cbn [Cells.deref of_option]. rewrite mret_bind.
    unfold Cells.returnData.
    rewrite (bind_val _ _ _ cl1 (set_clients <[k:=cl1]> s1))
      by (apply client_run; cbn; by rewrite lookup_insert_eq).
    rewrite (bind_val _ _ _ tt (set_clients <[k:=cl1]> s1))
      by (apply dassert_true; by rewrite bool_decide_true).
    rewrite (bind_val _ _ _ tt s3) by exact E3. exact E4.
  - rewrite Hs4, Hs3. exact Hs1.
  - rewrite Hc4, Hc3, Hc2, insert_insert_eq, Hc1. unfold cl2, cl1.
    unfold Cells.with_accessed, Cells.with_read_index. cbn. by rewrite Hs.
Qed.
(** Over a gap, if the client stands before one. *)
Lemma skip_gap_spec s L h k cl i p :
  Inv s L h -> at_index s L k cl i p -> (length h < 90)%nat ->
  exists s' j q c, UCE.skip_gap p s = (Val q, s') /\ L !! j = Some q
    /\ (j = i \/ j = S i /\ (S j < length L)%nat)
    /\ cells s !! q = Some c /\ 1 <= seq_id c
    /\ Inv (standing k cl q s') L h /\ shape s' = shape s /\ clients s' = clients s
    /\ pending s q = pending s p.
Proof.
  intros HI Hat Hlen. pose proof Hat as (Hk & Hs & Hr & Hi).
  destruct (i_chain _ _ _ HI i p Hi) as (c & Hc & Hn & _ & (Hu & Hkd) & _).
  assert (p ∈ L) as HpL by by eapply list_elem_of_lookup_2.
  unfold UCE.skip_gap. rewrite (bind_val _ _ _ c s) by by apply cell_run.
  destruct (Z.eqb_spec (seq_id c) 0) as [Hz|Hz].
  2:{ exists s, i, p, c. split_and!; try done; [by left|unfold is_u32 in Hu; lia|].
      by rewrite standing_same. }
  case_bool_decide as Hlast; [lia|]. apply lookup_lt_Some in Hi as Hlt.
  destruct (lookup_lt_is_Some_2 L (S i)) as (q & Hq); [lia|].
  assert (q ∈ L) as HqL by by eapply list_elem_of_lookup_2.
  pose proof (at_ahead _ _ _ _ _ _ _ (S i) q HI Hat ltac:(lia) Hq) as Haq.
  rewrite Hn, Hq. cbn [Cells.deref of_option]. rewrite mret_bind.
  rewrite <- (standing_same s k cl p) in HI by done.
  destruct (step_latch _ _ _ _ _ _ _ HI Hs HpL Haq Hlen)
    as (s1 & s2 & E1 & E2 & HI2 & Hs1 & Hs2 & Hc1 & Hc2).
  rewrite standing_same in HI by done.
  destruct (in_cells _ _ _ _ HI HqL) as (d & Hd).
  destruct (shape_ends _ _ Hs1) as (_&_&_&_&_&_&_&_&_&Hcore).
  destruct (core_cell _ _ _ _ Hcore Hd) as (d1 & Hd1 & Hdc).
  rewrite (bind_val _ _ _ tt s1) by exact E1.
  rewrite (bind_val _ _ _ d1 s1) by by apply cell_run.
  assert (older d1 = Some p) as ->.
  { injection Hdc as _ _ -> _ _. by eapply (chain_prev s L h i). }
  cbn [Cells.deref of_option]. rewrite mret_bind.
  rewrite (bind_val _ _ _ tt s2) by exact E2.
  exists s2, (S i), q, d. split_and!; try done.
  - right. split; [done|]. pose proof (at_index_pos _ _ _ _ _ _ _ HI Hat).
    destruct (i_gaps _ _ _ HI i p q c d) as [_ [?|[? _]]]; try done. lia.
  - by eapply (i_gaps _ _ _ HI i p q c d).
  - rewrite (pending_chain _ _ _ _ _ HI Hi), (pending_chain _ _ _ _ _ HI Hq).
    rewrite (drop_S _ _ _ Hi). cbn.
    assert (data_of s p = None) as -> by (unfold data_of, item; rewrite Hc; cbn; destruct Hkd as [[_ ->]|[? _]]; [done|lia]).
    done.
Qed.

Lemma latch_in s k cl p :
  clients s !! k = Some cl -> p ∈ latch cl -> p ∈ all_latches s.
Proof.
  intros Hk Hp. unfold all_latches. apply elem_of_app. left.
  apply list_elem_of_bind. exists (k, cl). split; [done|].
  by apply elem_of_map_to_list.
Qed.

Lemma time_spec_run s L h i p c event :
  Inv s L h -> L !! i = Some p -> cells s !! p = Some c -> (S i < length L)%nat ->
  exists ts, Cells.time_spec c event s = (Val ts, s)
    /\ validity_start ts = time_or_time_end c.
Proof.
  intros HI Hi Hc Hlt. unfold Cells.time_spec. destruct event; [by eexists|].
  destruct (lookup_lt_is_Some_2 L (S i) Hlt) as (q & Hq).
  assert (q ∈ L) as HqL by by eapply list_elem_of_lookup_2.
  destruct (in_cells _ _ _ _ HI HqL) as (d & Hd).
  unfold Cells.getValidityEnd. rewrite (chain_next _ _ _ _ _ _ HI Hi Hc), Hq.
  exists (mkTS (time_or_time_end c) (time_or_time_end d)). split; [|done].
  rewrite (bind_val _ _ _ (time_or_time_end d) s); [done|].
  cbn [Cells.deref of_option]. rewrite mret_bind.
  by rewrite (bind_val _ _ _ d s) by by apply cell_run.
Qed.

(** The data of a cell that is neither a gap nor the sentinel. *)
Lemma data_some s L h i p c :
  Inv s L h -> L !! i = Some p -> cells s !! p = Some c -> 1 <= seq_id c ->
  if bool_decide (S i = length L) then data c = None else is_Some (data c).
Proof.
  intros HI Hi Hc Hs. destruct (i_chain _ _ _ HI i p Hi) as (c' & Hc' & _ & _ & (_ & Hk) & _).
  rewrite Hc in Hc'. injection Hc' as <-. case_bool_decide; [by destruct Hk|].
  destruct Hk as [[? _]|[_ ?]]; [lia|done].
Qed.

Lemma getSequentialData_spec s L k cl i p c :
  Inv s L [] -> at_index s L k cl i p -> cells s !! p = Some c -> accessed cl = None ->
  (S i < length L)%nat ->
  exists ts s', Cells.getSequentialData p k (eventtype s) s = (Val (data c, Some ts), s')
    /\ validity_start ts = time_or_time_end c /\ Inv s' L [] /\ shape s' = shape s
    /\ clients s' = <[k:=Cells.with_accessed (Some p) cl]> (clients s).
Proof.
  intros HI (Hk & Hs & Hr & Hi) Hc Ha Hlt.
  assert (p ∈ L) as HpL by by eapply list_elem_of_lookup_2.
  destruct (time_spec_run _ _ _ _ _ _ (eventtype s) HI Hi Hc Hlt) as (ts & Ets & Hts).
  destruct (set_client_spec s L [] k cl (Cells.with_accessed (Some p) cl) [])
    as (s' & E & HI' & Hs' & Hc'); [done|done| | |].
  { apply client_ok_accessed; [by apply (i_clients _ _ _ HI k)|]. by intros ? [= <-]. }
  { rewrite (latch_seq _ p), (latch_seq cl p); done. }
  exists ts, s'. split_and!; try done. unfold Cells.getSequentialData.
  rewrite (bind_val _ _ _ cl s) by by apply client_run.
  rewrite (bind_val _ _ _ tt s) by (apply dassert_true; by rewrite bool_decide_true).
  rewrite (bind_val _ _ _ c s) by by apply cell_run.
  destruct (lookup_lt_is_Some_2 L (S i) Hlt) as (q & Hq).
  rewrite (bind_val _ _ _ tt s).
  2:{ apply dassert_true. rewrite (chain_next _ _ _ _ _ _ HI Hi Hc), Hq.
      by rewrite bool_decide_true by eauto. }
  rewrite (bind_val _ _ _ tt s).
  2:{ apply dassert_true. apply Z.ltb_lt.
      destruct (accesses_bound _ _ _ _ _ HI HpL Hc ltac:(cbn; lia)) as (-> & _).
      rewrite occ_app. pose proof (occ_nonneg p []).
      assert (p ∈ all_latches s) as Hin.
      { eapply latch_in; [done|]. rewrite (latch_seq cl p) by done. left. }
      apply occ_pos in Hin. lia. }
  rewrite (bind_val _ _ _ ts s) by exact Ets. by rewrite (bind_val _ _ _ tt s') by exact E.
Qed.

Lemma access_sequential_spec s L k cl i p t :
  Inv s L [] -> at_index s L k cl i p -> accessed cl = None ->
  exists r s' j q c, UCE.access_sequential k t s = (Val r, s')
    /\ L !! j = Some q /\ cells s !! q = Some c /\ Inv s' L [] /\ shape s' = shape s
    /\ pending s q = pending s p /\ 1 <= seq_id c
    /\ (if bool_decide (S j < length L)%nat && (time_or_time_end c <=? t)
        then (exists d ts, r = (Some d, Some ts) /\ data c = Some d
               /\ pending s p = (time_or_time_end c, d) :: pending s (default 0%nat (L !! S j))
               /\ validity_start ts = time_or_time_end c)
             /\ clients s' = <[k:=mkClient true (Some q) (seq_id c) (Some q)]> (clients s)
        else r = Cells.nothing
             /\ clients s' = <[k:=mkClient true (Some q) (link_seq_id cl) None]> (clients s)).
Proof.
  intros HI Hat Ha. pose proof Hat as (Hk & Hs & Hr & Hi).
  destruct (skip_gap_spec _ _ _ _ _ _ _ HI Hat ltac:(cbn; lia))
    as (s1 & j & q & c & E1 & Hj & Hij & Hc & Hseq & HI1 & Hs1 & Hc1 & Hpend).
  destruct (shape_ends _ _ Hs1) as (_&_&_&Hev&_&_&_&_&_&Hcore).
  destruct (core_cell _ _ _ _ Hcore Hc) as (c1 & Hcell1 & Hcc).
  injection Hcc as Ht1 Hd1 _ Hn1 Hq1.
  set (cl1 := Cells.with_read_index (Some q) cl).
  set (sq := standing k cl q s1).
  assert (at_index sq L k cl1 j q) as Hatq.
  { unfold at_index, sq. cbn. by rewrite lookup_insert_eq. }
  unfold UCE.access_sequential.
  rewrite (bind_val _ _ _ s s) by reflexivity.
  rewrite (bind_val _ _ _ cl s) by by apply client_run.
  rewrite Hr. cbn [Cells.deref of_option]. rewrite mret_bind.
  destruct (in_cells s L [] p HI) as (c0 & Hc0); [by eapply list_elem_of_lookup_2|].
  rewrite (bind_val _ _ _ c0 s) by by apply cell_run.
  rewrite (bind_val _ _ _ q sq).
  2:{ destruct (Z.eqb_spec (seq_id c0) 0) as [Hz|Hz].
      - rewrite (bind_val _ _ _ q s1) by exact E1.
        by rewrite (bind_val _ _ _ cl s1) by (apply client_run; by rewrite Hc1).
      - unfold UCE.skip_gap in E1. rewrite (bind_val _ _ _ c0 s) in E1 by by apply cell_run.
        destruct (Z.eqb_spec (seq_id c0) 0); [done|]. injection E1 as <- <-.
        unfold sq. by rewrite standing_same. }
  rewrite (bind_val _ _ _ c1 sq) by by apply cell_run.
  assert (bool_decide (is_Some (newer c1)) = bool_decide (S j < length L)%nat) as ->.
  { rewrite Hn1, (chain_next _ _ _ _ _ _ HI Hj Hc).
    apply bool_decide_ext. apply lookup_lt_is_Some. }
  rewrite Ht1.
  destruct (bool_decide (S j < length L)%nat && (time_or_time_end c <=? t)) eqn:Hb.
  - pose proof Hb as [Hlt%bool_decide_eq_true_1 Ht%Z.leb_le]%andb_prop.
    destruct Hatq as (Hkq & _).
    rewrite (bind_val _ _ _ cl1 sq) by by apply client_run.
    set (cl2 := Cells.with_link_seq_id (seq_id c1) cl1).
    destruct (set_client_spec sq L [] k cl1 cl2 []) as (s2 & E2 & HI2 & Hs2 & Hc2);
      [done|done|exact (i_clients _ _ _ HI1 k cl1 Hkq)|done|].
    rewrite (bind_val _ _ _ tt s2) by exact E2.
    assert (at_index s2 L k cl2 j q) as Hat2.
    { unfold at_index. by rewrite Hc2, lookup_insert_eq. }
    assert (cells s2 !! q = Some c1) as Hcq by (by injection E2 as <-).
    assert (eventtype s = eventtype s2) as ->.
    { destruct (shape_ends _ _ Hs2) as (_&_&_&->&_). by rewrite <- Hev. }
    destruct (getSequentialData_spec s2 L k cl2 j q c1) as (ts & s3 & E3 & Hts & HI3 & Hs3 & Hc3);
      [done|done|done|exact Ha|done|].
    rewrite E3. eexists _, s3, j, q, c.
    refine (conj eq_refl (conj Hj (conj Hc (conj HI3 (conj _ (conj Hpend (conj Hseq _))))))).
    2: rewrite Hb; split.
    + by rewrite Hs3, Hs2.
    + pose proof (data_some _ _ _ _ _ _ HI Hj Hc Hseq) as Hds.
      rewrite bool_decide_false in Hds by lia. destruct Hds as (d & Hd).
      exists d, ts. split_and!; [by rewrite Hd1, Hd|done| |by rewrite Hts].
      destruct (lookup_lt_is_Some_2 L (S j) Hlt) as (q' & Hq'). rewrite Hq'. cbn.
      rewrite <- Hpend, (pending_chain _ _ _ _ _ HI Hj), (pending_chain _ _ _ _ _ HI Hq').
      rewrite (drop_S _ _ _ Hj). cbn. unfold data_of at 1. rewrite Hc. cbn. unfold item at 1. by rewrite Hd.
    + rewrite Hc3, Hc2. unfold sq. cbn. rewrite !insert_insert_eq, Hc1. f_equal.
      unfold cl2, cl1, Cells.with_accessed, Cells.with_link_seq_id, Cells.with_read_index.
      cbn. by rewrite Hs, Hq1.
  - eexists _, sq, j, q, c.
    refine (conj eq_refl (conj Hj (conj Hc (conj HI1 (conj Hs1 (conj Hpend (conj Hseq _))))))).
    rewrite Hb. split; [done|].
    unfold sq. cbn. rewrite Hc1. f_equal. unfold Cells.with_read_index. by rewrite Hs, Ha.
Qed.

Lemma sequential_client_run s L k cl i p :
  at_index s L k cl i p -> UCE.sequential_client k s = (Val (cl, p), s).
Proof.
  intros (Hk & Hs & Hr & _). unfold UCE.sequential_client.
  rewrite (bind_val _ _ _ cl s) by by apply client_run.
  rewrite (bind_val _ _ _ tt s) by by apply dassert_true. by rewrite Hr.
Qed.

Lemma with_read_index_twice p q cl :
  Cells.with_read_index q (Cells.with_read_index p cl) = Cells.with_read_index q cl.
Proof. done. Qed.

Lemma not_last s L h i p :
  Inv s L h -> L !! i = Some p -> p <> latest s -> (S i < length L)%nat.
Proof.
  intros HI Hi Hne. destruct (in_last _ _ _ HI) as [_ Hl].
  apply lookup_lt_Some in Hi as Hlt. destruct (decide (S i = length L)) as [E|]; [|lia].
  rewrite <- E in Hl. replace (S i - 1)%nat with i in Hl by lia. congruence.
Qed.

(** Skip a gap, then take the latch to a later cell. *)
Lemma skip_and_move s L k cl i p to n :
  Inv s L [] -> at_index s L k cl i p -> p <> latest s -> L !! n = Some to -> (S i <= n)%nat ->
  exists s1 j q c, UCE.skip_gap p s = (Val q, s1) /\ L !! j = Some q
    /\ (S j < length L)%nat /\ cells s1 !! q = Some c /\ newer c = L !! S j
    /\ shape s1 = shape s /\ clients s1 = clients s
    /\ pending s q = pending s p /\ (exists d, data c = Some d)
    /\ forall to' n', L !! n' = Some to' -> (i <= n')%nat ->
       exists s3, UCE.move_latch k q to' s1 = (Val tt, s3) /\ Inv s3 L [] /\ shape s3 = shape s
         /\ clients s3 = <[k:=Cells.with_read_index (Some to') cl]> (clients s).
Proof.
  intros HI Hat Hne Hto Hn. pose proof Hat as (Hk & Hs & Hr & Hi).
  destruct (skip_gap_spec _ _ _ _ _ _ _ HI Hat ltac:(cbn; lia))
    as (s1 & j & q & c & E1 & Hj & Hij & Hc & Hseq & HI1 & Hs1 & Hc1 & Hpend).
  pose proof (not_last _ _ _ _ _ HI Hi Hne) as Hlt.
  assert (S j < length L)%nat as Hjlt by (destruct Hij as [->|[_ ?]]; done).
  destruct (shape_ends _ _ Hs1) as (_&Ho1&_&_&_&_&_&_&_&Hcore).
  destruct (core_cell _ _ _ _ Hcore Hc) as (c1 & Hcell1 & Hcc).
  injection Hcc as Ht1 Hd1 _ Hn1 Hq1.
  exists s1, j, q, c1. split_and!; try done.
  - rewrite Hn1. exact (chain_next _ _ _ _ _ _ HI Hj Hc).
  - pose proof (data_some _ _ _ _ _ _ HI Hj Hc Hseq) as Hds.
    rewrite bool_decide_false in Hds by lia. rewrite Hd1. exact Hds.
  - intros to' n' Hto' Hin.
    destruct (move_latch_spec s1 L [] k cl q to') as (s3 & E3 & HI3 & Hs3 & Hc3); try done.
    + by rewrite Hc1.
    + by eapply list_elem_of_lookup_2.
    + rewrite Ho1. by eapply at_ahead.
    + cbn; lia.
    + exists s3. split_and!; try done; [by rewrite Hs3|by rewrite Hc3, Hc1].
Qed.

Lemma pending_tail s L h j q c d :
  Inv s L h -> L !! j = Some q -> cells s !! q = Some c -> data c = Some d ->
  pending s q = (time_or_time_end c, d) :: omap (data_of s) (drop (S j) L).
Proof.
  intros HI Hj Hc Hd. rewrite (pending_chain _ _ _ _ _ HI Hj), (drop_S _ _ _ Hj). cbn.
  unfold data_of at 1. rewrite Hc. cbn. unfold item at 1. by rewrite Hd.
Qed.

(** [flushOne] drops the first data. *)
Lemma flushOne_spec s L k cl i p :
  Inv s L [] -> at_index s L k cl i p -> p <> latest s ->
  exists s' r, UCE.flushOne k s = (Val 1, s') /\ Inv s' L [] /\ shape s' = shape s
    /\ clients s' = <[k:=Cells.with_read_index (Some r) cl]> (clients s)
    /\ exists x, pending s p = x :: pending s r.
Proof.
  intros HI Hat Hne.
  pose proof (not_last _ _ _ _ _ HI (proj2 (proj2 (proj2 Hat))) Hne) as Hlt.
  destruct (lookup_lt_is_Some_2 L (S i) Hlt) as (x & Hx).
  destruct (skip_and_move _ _ _ _ _ _ x (S i) HI Hat Hne Hx (le_n _))
    as (s1 & j & q & c & E1 & Hj & Hjlt & Hc & Hn & Hs1 & Hc1 & Hpend & (d & Hd) & Hmove).
  destruct (lookup_lt_is_Some_2 L (S j) Hjlt) as (r & Hr).
  unfold UCE.flushOne. rewrite (bind_val _ _ _ (cl, p) s) by by eapply sequential_client_run.
  cbv beta iota. rewrite (bind_val _ _ _ s s) by reflexivity.
  rewrite bool_decide_false by done.
  rewrite (bind_val _ _ _ q s1) by exact E1.
  rewrite (bind_val _ _ _ c s1) by by apply cell_run.
  rewrite Hn, Hr. cbn [Cells.deref of_option]. rewrite mret_bind.
  assert (i <= S j)%nat as Hij.
  { destruct (le_lt_dec i (S j)); [done|]. exfalso.
    pose proof Hat as (_ & _ & _ & Hi).
    destruct (skip_gap_spec _ _ _ _ _ _ _ HI Hat ltac:(cbn; lia))
      as (s1' & j' & q' & c' & E1' & Hj' & Hij' & _). rewrite E1 in E1'. injection E1' as <- <-.
    pose proof (NoDup_lookup _ _ _ _ (i_nodup _ _ _ HI) Hj Hj'). lia. }
  destruct (Hmove r (S j) Hr Hij) as (s3 & E3 & HI3 & Hs3 & Hc3).
  rewrite (bind_val _ _ _ tt s3) by exact E3.
  exists s3, r. split_and!; try done.
  destruct (shape_ends _ _ Hs1) as (_&_&_&_&_&_&_&_&_&Hcore).
  destruct (core_cell _ _ _ _ (eq_sym Hcore) Hc) as (c0 & Hc0 & Hcc).
  injection Hcc as _ Hd0 _ _ _. exists (time_or_time_end c0, d).
  rewrite <- Hpend, (pending_tail s L [] j q c0 d HI Hj Hc0) by by rewrite Hd0.
  by rewrite (pending_chain _ _ _ _ _ HI Hr).
Qed.

(** ** Numbers and data *)

Lemma omap_same_length {A B C} (f : A -> option B) (g : A -> option C) (l : list A) :
  (forall x, x ∈ l -> is_Some (f x) <-> is_Some (g x)) -> length (omap f l) = length (omap g l).
Proof.
  induction l as [|x l IH]; intros E; [done|]. cbn.
  specialize (IH (fun y Hy => E y (list_elem_of_further _ _ _ Hy))).
  pose proof (E x (list_elem_of_here _ _)) as [E1 E2].
  destruct (f x) as [b|], (g x) as [c|]; cbn; [by rewrite IH| | |done].
  - by destruct E1.
  - by destruct E2.
Qed.

(** The number of a cell and that of the sentinel tell how much is pending. *)
Lemma pending_length s L h j q c l :
  Inv s L h -> L !! j = Some q -> cells s !! q = Some c -> 1 <= seq_id c ->
  cells s !! latest s = Some l -> seq_id l = seq_id c + Z.of_nat (length (pending s q)).
Proof.
  intros HI Hj Hc Hs Hl. destruct (in_last _ _ _ HI) as [_ Hlast].
  apply lookup_lt_Some in Hj as Hjl.
  destruct (proj1 (last_Some _ _) (i_last _ _ _ HI)) as (L0 & HL).
  assert (length L = S (length L0)) as Hlen by (rewrite HL, length_app; cbn; lia).
  assert (drop j L = drop j L0 ++ [latest s]) as Hd by (rewrite HL, drop_app_le by lia; done).
  assert (forall p, p ∈ drop j L0 -> is_Some (data_of s p) <-> is_Some (number (cells s) p)) as Hsome.
  { intros p (i & Hi)%list_elem_of_lookup. apply lookup_lt_Some in Hi as Hil.
    rewrite lookup_drop in Hi. rewrite length_drop in Hil.
    assert (L !! (j + i)%nat = Some p) as HLi by (rewrite HL; by apply lookup_app_l_Some).
    destruct (i_chain _ _ _ HI _ _ HLi) as (d & Hd' & _ & _ & (_ & Hk) & _).
    rewrite bool_decide_false in Hk by lia. unfold data_of, number, item. rewrite Hd'. cbn.
    destruct Hk as [[-> ->]|[Hk (y & ->)]]; cbn; [by split; intros []|].
    destruct (Z.eqb_spec (seq_id d) 0); [lia|]. split; eauto. }
  destruct (i_chain _ _ _ HI _ _ Hlast) as (l' & Hl' & _ & _ & (_ & Hk) & _).
  rewrite Hl in Hl'. injection Hl' as <-. rewrite bool_decide_true in Hk by lia.
  assert (number (cells s) (latest s) = Some (seq_id l)) as Hnl.
  { unfold number. rewrite Hl. cbn. destruct (Z.eqb_spec (seq_id l) 0); [lia|done]. }
  assert (data_of s (latest s) = None) as Hdl.
  { unfold data_of, item. rewrite Hl. cbn. by destruct Hk as [-> _]. }
  assert (pending s q = omap (data_of s) (drop j L0)) as Hp.
  { rewrite (pending_chain _ _ _ _ _ HI Hj), Hd, omap_app. cbn. by rewrite Hdl, app_nil_r. }
  assert (numbers (cells s) (drop j L) = omap (number (cells s)) (drop j L0) ++ [seq_id l]) as Hn.
  { unfold numbers. rewrite Hd, omap_app. cbn. by rewrite Hnl. }
  apply (consecutive_nth (numbers (cells s) (drop j L))).
  - eapply (consecutive_app_r (numbers (cells s) (take j L))). unfold numbers.
    rewrite <- omap_app, take_drop. exact (i_numbers _ _ _ HI).
  - rewrite (drop_S _ _ _ Hj). cbn. unfold number. rewrite Hc. cbn.
    destruct (Z.eqb_spec (seq_id c) 0); [lia|done].
  - rewrite Hn, Hp, (omap_same_length _ (number (cells s))) by done.
    by rewrite list_lookup_middle.
Qed.

(** The cell before the sentinel. *)
Lemma before_last s L h j q :
  Inv s L h -> L !! j = Some q -> (1 <= j)%nat -> (S j < length L)%nat ->
  exists x cx l, cells s !! latest s = Some l /\ older l = Some x /\ cells s !! x = Some cx
    /\ L !! (length L - 2)%nat = Some x /\ seq_id l = seq_id cx + 1 /\ 1 <= seq_id cx
    /\ is_Some (data cx) /\ is_u32 (seq_id l).
Proof.
  intros HI Hj H1 Hlt. destruct (in_last _ _ _ HI) as [Hlast Hl].
  destruct (lookup_lt_is_Some_2 L (length L - 2)) as (x & Hx); [lia|].
  destruct (in_cells _ _ _ _ HI Hlast) as (l & Hcl).
  destruct (in_cells s L h x HI) as (cx & Hcx); [by eapply list_elem_of_lookup_2|].
  assert (L !! S (length L - 2) = Some (latest s)) as Hl'.
  { by replace (S (length L - 2)) with (length L - 1)%nat by lia. }
  assert (1 <= seq_id cx) as Hs.
  { destruct (i_chain _ _ _ HI _ _ Hx) as (d & Hd & _ & _ & (Hu & _) & _).
    rewrite Hcx in Hd. injection Hd as <-. unfold is_u32 in Hu.
    destruct (Z.eq_dec (seq_id cx) 0) as [Hz|]; [|lia].
    destruct (i_gaps _ _ _ HI _ _ _ _ _ Hx Hl' Hcx Hcl Hz) as [_ [|[? _]]]; lia. }
  pose proof (data_some _ _ _ _ _ _ HI Hx Hcx Hs) as Hd.
  rewrite bool_decide_false in Hd by lia.
  exists x, cx, l. split_and!; try done.
  - by eapply (chain_prev s L h (length L - 2)).
  - rewrite (pending_length _ _ _ _ _ _ _ HI Hx Hcx Hs Hcl). do 2 f_equal.
    destruct Hd as (y & Hy).
    rewrite (pending_tail _ _ _ _ _ _ _ HI Hx Hcx Hy), (drop_S _ _ _ Hl'), drop_ge by lia.
    cbn. unfold data_of, item. rewrite Hcl. cbn.
    destruct (i_chain _ _ _ HI _ _ Hl) as (d & Hd & _ & _ & (_ & Hk) & _).
    rewrite Hcl in Hd. injection Hd as <-. rewrite bool_decide_true in Hk by lia.
    by destruct Hk as [-> _].
  - destruct (i_chain _ _ _ HI _ _ Hl) as (d & Hd' & _ & _ & (Hu & _) & _).
    rewrite Hcl in Hd'. by injection Hd' as <-.
Qed.

(** [flushAll] goes to the sentinel, where no data is left, and tells how much
    it dropped. *)
Lemma flushAll_spec s L k cl i p :
  Inv s L [] -> at_index s L k cl i p -> p <> latest s ->
  exists s', UCE.flushAll k s = (Val (Z.of_nat (length (pending s p))), s')
    /\ Inv s' L [] /\ shape s' = shape s
    /\ clients s' = <[k:=Cells.with_read_index (Some (latest s)) cl]> (clients s)
    /\ pending s (latest s) = [].
Proof.
  intros HI Hat Hne. destruct (in_last _ _ _ HI) as [_ Hl]. pose proof Hat as (_ & _ & _ & Hi).
  pose proof (not_last _ _ _ _ _ HI Hi Hne) as Hlt.
  pose proof (at_index_pos _ _ _ _ _ _ _ HI Hat) as Hpos.
  destruct (skip_and_move _ _ _ _ _ _ _ _ HI Hat Hne Hl ltac:(lia))
    as (s1 & j & q & c & E1 & Hj & Hjlt & Hc & Hn & Hs1 & Hc1 & Hpend & (d & Hd) & Hmove).
  destruct (before_last _ _ _ _ _ HI Hi Hpos Hlt)
    as (x & cx & l & Hcl & Hol & Hcx & Hx & Hlx & Hsx & _ & Hlu).
  destruct (shape_ends _ _ Hs1) as (_&_&_&_&_&_&_&_&_&Hcore).
  destruct (core_cell _ _ _ _ Hcore Hcl) as (l1 & Hl1 & Hcc1).
  destruct (core_cell _ _ _ _ Hcore Hcx) as (cx1 & Hcx1 & Hccx).
  destruct (core_cell _ _ _ _ (eq_sym Hcore) Hc) as (c0 & Hc0 & Hcc).
  injection Hcc1 as _ _ Ho1 _ _. injection Hccx as _ _ _ _ Hsx1. injection Hcc as _ Hd0 _ _ Hsc.
  destruct (i_chain _ _ _ HI _ _ Hj) as (c0' & Hc0' & _ & _ & (Hu & Hkd) & _).
  rewrite Hc0 in Hc0'. injection Hc0' as <-. rewrite bool_decide_false in Hkd by lia.
  assert (1 <= seq_id c0) as Hs0 by (destruct Hkd as [[_ ?]|[? _]]; [congruence|done]).
  pose proof (pending_length _ _ _ _ _ _ _ HI Hj Hc0 Hs0 Hcl) as Hlen.
  pose proof (pending_tail _ _ _ _ _ _ _ HI Hj Hc0 ltac:(by rewrite Hd0)) as Htail.
  unfold UCE.flushAll. rewrite (bind_val _ _ _ (cl, p) s) by by eapply sequential_client_run.
  cbv beta iota. rewrite (bind_val _ _ _ s s) by reflexivity.
  rewrite bool_decide_false by done.
  rewrite (bind_val _ _ _ q s1) by exact E1.
  rewrite (bind_val _ _ _ l1 s1) by by apply cell_run.
  rewrite Ho1, Hol. cbn [Cells.deref of_option]. rewrite mret_bind.
  rewrite (bind_val _ _ _ cx1 s1) by by apply cell_run.
  rewrite (bind_val _ _ _ c s1) by by apply cell_run.
  destruct (Hmove _ _ Hl ltac:(lia)) as (s3 & E3 & HI3 & Hs3 & Hc3).
  rewrite (bind_val _ _ _ tt s3) by exact E3.
  exists s3. split_and!; [|done|done|done|].
  - cbn. rewrite <- Hpend. assert (length (pending s q) <> 0%nat) by (by rewrite Htail).
    unfold is_u32 in *. rewrite (u32_id (_ - _)) by (unfold is_u32; lia).
    rewrite u32_id by (unfold is_u32; lia).
    by replace (seq_id cx1 - seq_id c + 1) with (Z.of_nat (length (pending s q))) by lia.
  - rewrite (pending_chain _ _ _ _ _ HI Hl), (drop_S _ _ _ Hl), drop_ge by lia.
    cbn. unfold data_of, item. rewrite Hcl. cbn.
    destruct (i_chain _ _ _ HI _ _ Hl) as (c' & Hc' & _ & _ & (_ & Hk) & _).
    rewrite Hcl in Hc'. injection Hc' as <-.
    rewrite bool_decide_true in Hk by lia. by destruct Hk as [-> _].
Qed.

(** [spinToLast] leaves one data point. *)
Lemma spinToLast_spec s L k cl i p :
  Inv s L [] -> at_index s L k cl i p -> p <> latest s ->
  exists s' x y, UCE.spinToLast k s = (Val (Z.of_nat (length (pending s p)) - 1), s')
    /\ Inv s' L [] /\ shape s' = shape s
    /\ clients s' = <[k:=Cells.with_read_index (Some x) cl]> (clients s)
    /\ pending s x = [y] /\ list.last (pending s p) = Some y.
Proof.
  intros HI Hat Hne. pose proof Hat as (Hk & Hs & Hr & Hi).
  pose proof (not_last _ _ _ _ _ HI Hi Hne) as Hlt.
  pose proof (at_index_pos _ _ _ _ _ _ _ HI Hat) as Hpos.
  destruct (before_last _ _ _ _ _ HI Hi Hpos Hlt)
    as (x & cx & l & Hcl & Hol & Hcx & Hx & Hlx & Hsx & (y & Hy) & Hlu).
  assert (pending s x = [(time_or_time_end cx, y)]) as Hpx.
  { pose proof (pending_length _ _ _ _ _ _ _ HI Hx Hcx Hsx Hcl) as Hlen.
    rewrite (pending_tail _ _ _ _ _ _ _ HI Hx Hcx Hy) in *. cbn in Hlen.
    destruct (omap _ _); [done|cbn in Hlen; lia]. }
  assert (forall n q, (n <= length L - 2)%nat -> L !! n = Some q ->
    exists M, pending s q = M ++ [(time_or_time_end cx, y)]) as Hsuf.
  { intros n q Hn Hq. rewrite (pending_chain _ _ _ _ _ HI Hx) in Hpx.
    exists (omap (data_of s) (take (length L - 2 - n) (drop n L))).
    rewrite (pending_chain _ _ _ _ _ HI Hq), <- Hpx, <- omap_app. f_equal.
    rewrite <- (take_drop (length L - 2 - n) (drop n L)) at 1. f_equal.
    rewrite drop_drop. f_equal. lia. }
  destruct (Hsuf i p ltac:(lia) Hi) as (M & HM).
  assert (list.last (pending s p) = Some (time_or_time_end cx, y)) as Hlast.
  { by rewrite HM, last_snoc. }
  unfold UCE.spinToLast. rewrite (bind_val _ _ _ (cl, p) s) by by eapply sequential_client_run.
  cbv beta iota. rewrite (bind_val _ _ _ s s) by reflexivity.
  rewrite (bind_val _ _ _ l s) by by apply cell_run. rewrite Hol.
  destruct (decide (p = x)) as [->|Hpx'].
  { rewrite bool_decide_true by done. exists s, x, (time_or_time_end cx, y).
    split_and!; [by rewrite Hpx|done|done| |done|done].
    unfold Cells.with_read_index. rewrite <- Hr. rewrite insert_id; [done|]. by destruct cl. }
  rewrite bool_decide_false by done.
  destruct (skip_and_move _ _ _ _ _ _ x _ HI Hat Hne Hx) as
    (s1 & j & q & c & E1 & Hj & Hjlt & Hc & Hn & Hs1 & Hc1 & Hpend & (d & Hd) & Hmove).
  { destruct (decide (i = length L - 2)%nat) as [->|]; [congruence|lia]. }
  destruct (shape_ends _ _ Hs1) as (_&_&_&_&_&_&_&_&_&Hcore).
  destruct (core_cell _ _ _ _ Hcore Hcx) as (cx1 & Hcx1 & Hccx).
  destruct (core_cell _ _ _ _ (eq_sym Hcore) Hc) as (c0 & Hc0 & Hcc).
  injection Hccx as _ _ _ _ Hsx1. injection Hcc as _ Hd0 _ _ Hsc.
  destruct (i_chain _ _ _ HI _ _ Hj) as (c0' & Hc0' & _ & _ & (Hu & Hkd) & _).
  rewrite Hc0 in Hc0'. injection Hc0' as <-. rewrite bool_decide_false in Hkd by lia.
  assert (1 <= seq_id c0) as Hs0 by (destruct Hkd as [[_ ?]|[? _]]; [congruence|done]).
  pose proof (pending_length _ _ _ _ _ _ _ HI Hj Hc0 Hs0 Hcl) as Hlen.
  rewrite (bind_val _ _ _ q s1) by exact E1.
  rewrite (bind_val _ _ _ cx1 s1) by by apply cell_run.
  rewrite (bind_val _ _ _ c s1) by by apply cell_run.
  destruct (Hmove _ _ Hx ltac:(lia)) as (s3 & E3 & HI3 & Hs3 & Hc3).
  rewrite (bind_val _ _ _ tt s3) by exact E3.
  exists s3, x, (time_or_time_end cx, y). split_and!; try done.
  rewrite <- Hpend. assert (length (pending s q) <> 0%nat).
  { rewrite Hpend, HM, length_app. cbn. lia. }
  unfold is_u32 in *. rewrite u32_id by (unfold is_u32; lia).
  by replace (seq_id cx1 - seq_id c) with (Z.of_nat (length (pending s q)) - 1) by lia.
Qed.

(** Ending an access without going on. *)
Lemma releaseDataNoStep_seq s L k cl i p :
  Inv s L [] -> at_index s L k cl i p -> accessed cl = Some p ->
  exists s', UCE.releaseDataNoStep k s = (Val tt, s') /\ Inv s' L []
    /\ shape s' = shape s
    /\ clients s' = <[k:=Cells.with_accessed None cl]> (clients s).
Proof.
  intros HI Hat Ha. pose proof Hat as (Hk & Hs & Hr & Hi).
  assert (p ∈ L) as HpL by by eapply list_elem_of_lookup_2.
  destruct (increment_spec _ _ _ _ HI HpL ltac:(cbn; lia)) as (s1 & E1 & HI1 & Hs1 & Hc1).
  set (cl1 := Cells.with_accessed None cl).
  destruct (set_client_spec s1 L [p] k cl cl1 [p]) as (s2 & E2 & HI2 & Hs2 & Hc2);
    [done|by rewrite Hc1| |by rewrite (latch_seq cl1 p), (latch_seq cl p)|].
  { apply client_ok_accessed; [|done]. apply (i_clients _ _ _ HI1 k). by rewrite Hc1. }
  destruct (release_spec _ _ _ _ HI2 HpL ltac:(cbn; lia)) as (s3 & E3 & HI3 & Hs3 & Hc3).
  exists s3. split_and!; [|done|congruence|congruence].
  unfold UCE.releaseDataNoStep. rewrite (bind_val _ _ _ cl s) by by apply client_run.
  rewrite Hs, Ha. cbn [Cells.deref of_option]. rewrite !mret_bind.
  rewrite (bind_val _ _ _ tt s1) by exact E1.
  unfold Cells.returnData.
  rewrite (bind_val _ _ _ cl s1) by (apply client_run; by rewrite Hc1).
  rewrite (bind_val _ _ _ tt s1) by (apply dassert_true; by rewrite bool_decide_true).
  rewrite (bind_val _ _ _ tt s2) by exact E2. exact E3.
Qed.

Lemma latched_in s L h p : Inv s L h -> p ∈ all_latches s -> p ∈ L.
Proof.
  intros HI Hp. unfold all_latches in Hp.
  apply elem_of_app in Hp as [Hp|Hp]; [|apply elem_of_app in Hp as [Hp|Hp]].
  - apply list_elem_of_bind in Hp as ([k cl] & Hp & Hk). apply elem_of_map_to_list in Hk.
    destruct (i_clients _ _ _ HI _ _ Hk) as [Ha Hr]. unfold latch in Hp. cbn in Hp.
    destruct (sequential_read cl).
    + destruct Hr as (r & Hr & Hah). rewrite Hr in Hp.
      apply list_elem_of_singleton in Hp as ->. by eapply ahead_in.
    + destruct (accessed cl) as [a|]; [|by apply not_elem_of_nil in Hp].
      apply list_elem_of_singleton in Hp as ->. by apply Ha.
  - case_bool_decide; [by apply not_elem_of_nil in Hp|].
    apply list_elem_of_singleton in Hp as ->. by eapply in_oldest.
  - destruct (monitored s) as [m|] eqn:Em; [|by apply not_elem_of_nil in Hp].
    apply list_elem_of_singleton in Hp as ->. by apply (i_monitored _ _ _ HI).
Qed.

Lemma occ_not_in p l : p ∉ l -> occ p l = 0.
Proof.
  intros Hp. unfold occ. induction l as [|q l IH]; [done|].
  rewrite filter_cons, decide_False by set_solver. apply IH. set_solver.
Qed.

(** ** Recycling *)

(** What recycling and shifting leave alone. *)
Definition rest (s : Entry) :=
  (clients s, fresh s, (span s, depth s, eventtype s, has_writer s, valid s),
   (latest s, monitored s, saveup s, jumptime s),
   (pclients s, entry_config_version s, triggers s, trigger_requests s,
    trigger_releases s, events s)).

Lemma recycle_step s L p L' c :
  Inv s (p :: L') [] -> quiet s -> L = p :: L' -> cells s !! p = Some c ->
  read_accesses c = 1 -> newer c <> Some (oldest s) ->
  (p ∉ all_latches s) /\ exists next, newer c = Some next
    /\ Inv (set_ends next (oldest s) (latest s)
             (set_store (delete p (cells s)) (fresh s) (deleted s ++ [data c]) s)) L' [].
Proof.
  intros HI Hq -> Hc Hra Hno.
  destruct (i_oldest _ _ _ HI) as (k & Hk & Hko).
  destruct (i_chain _ _ _ HI 0%nat p eq_refl) as (c' & Hc' & Hn & _ & _ & Ha).
  rewrite Hc in Hc'. injection Hc' as <-. cbn in Hn.
  destruct k as [|[|k]]; [lia|cbn in Hko; rewrite Hko in Hn; done|].
  pose proof (i_nodup _ _ _ HI) as Hnd. apply list.NoDup_cons in Hnd as [Hp Hnd].
  rewrite app_nil_r in Ha. assert (p ∉ all_latches s) as Hfree by (apply occ_zero; lia).
  cbn in Hko. destruct L' as [|next L']; [done|]. split; [done|]. exists next. split; [done|].
  assert (forall q, q ∈ next :: L' -> delete p (cells s) !! q = cells s !! q) as Hdel.
  { intros q Hin. apply lookup_delete_ne. by intros ->. }
  split; cbn.
  - intros i q Hi. destruct (i_chain _ _ _ HI (S i) q Hi) as (d & Hd & Hdn & Hdo & Hdk & Hda).
    exists d. rewrite Hdel by by eapply list_elem_of_lookup_2.
    split_and!; [done|done| | |done].
    + intros j ->. by apply (Hdo (S j)).
    + replace (bool_decide (S i = S (length L'))) with
        (bool_decide (S (S i) = length (p :: next :: L'))); [done|].
      apply bool_decide_ext. cbn. lia.
  - done.
  - done.
  - pose proof (i_last _ _ _ HI) as Hl. rewrite last_cons_cons in Hl. done.
  - exists (S k). split; [lia|done].
  - intros i x y cx cy Hx Hy Hcx Hcy Hz.
    rewrite Hdel in Hcx by by eapply list_elem_of_lookup_2.
    rewrite Hdel in Hcy by exact (list_elem_of_lookup_2 (next :: L') (S i) y Hy).
    destruct (i_gaps _ _ _ HI (S i) x y cx cy Hx Hy Hcx Hcy Hz) as [? [Hlt|[? _]]]; [|lia].
    split; [done|]. left. cbn in Hlt. lia.
  - destruct (i_fresh _ _ _ HI) as [Hf1 Hf2]. split; [|done]. intros q d Hd.
    apply lookup_delete_Some in Hd as [_ Hd]. eauto.
  - apply (i_small _ _ _ HI).
  - intros j cl Hj. destruct (i_clients _ _ _ HI _ _ Hj) as [Hacc Hr]. split.
    + intros a Haa. pose proof (Hacc a Haa) as Hin. apply elem_of_cons in Hin as [->|Hin]; [|done].
      exfalso. apply Hfree. eapply latch_in; [exact Hj|]. unfold latch.
      destruct (sequential_read cl) eqn:Es.
      * destruct (Hq j cl Hj Es) as [?|[Heq _]]; [congruence|].
        rewrite <- Heq, Haa. left.
      * rewrite Haa. left.
    + destruct (sequential_read cl); [|done]. destruct Hr as (r & Hr & i & Hi & Hle).
      exists r. split; [done|]. specialize (Hle (S (S k)) Hko).
      destruct i as [|i]; [lia|]. exists i. split; [done|].
      intros o Ho. pose proof (NoDup_lookup _ _ o _ Hnd Hko Ho). lia.
  - intros m Hm. pose proof (i_monitored _ _ _ HI m Hm) as Hin.
    apply elem_of_cons in Hin as [->|Hin]; [|done]. exfalso. apply Hfree.
    unfold all_latches. rewrite Hm. set_solver.
  - change (consecutive (numbers (delete p (cells s)) (next :: L'))).
    rewrite (numbers_ext (cells s)) by (intros q Hin; by rewrite Hdel).
    eapply (consecutive_app_r (numbers (cells s) [p])). unfold numbers. rewrite <- omap_app.
    exact (i_numbers _ _ _ HI).
Qed.

Lemma recycle_spec fuel s L :
  Inv s L [] -> quiet s -> (length L < fuel)%nat ->
  exists s' L', UCE.recycle fuel s = (Val tt, s') /\ Inv s' L' [] /\ quiet s'
    /\ rest s' = rest s /\ oldest s' = oldest s
    /\ (exists n, L' = drop n L) /\ (forall p, p ∈ L' -> cells s' !! p = cells s !! p).
Proof.
  revert s L. induction fuel as [|fuel IH]; intros s L HI Hq Hf; [lia|].
  cbn [UCE.recycle]. rewrite (bind_val _ _ _ s s) by reflexivity.
  pose proof (i_head _ _ _ HI) as Hh. destruct L as [|p L]; [done|].
  cbn in Hh. injection Hh as Hp.
  destruct (in_cells _ _ _ p HI ltac:(left)) as (c & Hc). rewrite <- Hp.
  rewrite (bind_val _ _ _ c s) by by apply cell_run.
  case_bool_decide as Hno.
  { exists s, (p :: L). split_and!; try done. by exists 0%nat. }
  unfold UCE.recycle, Cells.tryRecycle.
  destruct (Z.eqb_spec (read_accesses c) 1) as [Hra|Hra].
  2:{ rewrite (bind_val _ _ _ false s).
      2:{ rewrite (bind_val _ _ _ c s) by by apply cell_run.
          destruct (Z.eqb_spec (read_accesses c) 1); done. }
      exists s, (p :: L). split_and!; try done. by exists 0%nat. }
  destruct (recycle_step s (p :: L) p L c HI Hq eq_refl Hc Hra Hno) as (Hfree & next & Hn & HI').
  set (s' := set_ends next _ _ _) in HI'.
  rewrite (bind_val _ _ _ true (reaccess p 0 s)).
  2:{ rewrite (bind_val _ _ _ c s) by by apply cell_run.
      destruct (Z.eqb_spec (read_accesses c) 1); [|done].
      rewrite (bind_val _ _ _ tt (reaccess p 0 s)) by by apply set_cell_accesses.
      done. }
  rewrite (bind_val _ _ _ tt (set_store (cells (reaccess p 0 s)) (fresh s)
    (deleted s ++ [data c]) (reaccess p 0 s))) by reflexivity.
  rewrite Hn. cbn [Cells.deref of_option]. rewrite mret_bind.
  rewrite (bind_val _ _ _ tt (set_store (delete p (cells s)) (fresh s)
    (deleted s ++ [data c]) s)).
  2:{ unfold Cells.free. rewrite (bind_val _ _ _ (Cells.with_accesses 0 c)
        (set_store (cells (reaccess p 0 s)) (fresh s) (deleted s ++ [data c]) (reaccess p 0 s))).
      2:{ apply cell_run. cbn. by rewrite lookup_alter_eq, Hc. }
      unfold modify. apply (f_equal (pair (Val tt))). unfold reaccess, set_store; cbn. f_equal.
      apply map_eq. intros q. destruct (decide (p = q)) as [->|Hne].
      - by rewrite !lookup_delete_eq.
      - by rewrite !lookup_delete_ne, lookup_alter_ne. }
  rewrite (bind_val _ _ _ tt s') by reflexivity.
  destruct (IH s' L HI') as (s2 & L2 & E2 & HI2 & Hq2 & Hr2 & Ho2 & (n & Hn2) & Hc2).
  { intros k cl Hk Hs. destruct (Hq k cl Hk Hs) as [?|[Ha Hd]]; [by left|]. right.
    split; [done|]. intros a Haa. cbn. rewrite lookup_delete_ne; [by apply Hd|]. intros <-.
    apply Hfree. eapply latch_in; [exact Hk|]. rewrite (latch_seq cl p); [left|done|congruence]. }
  { cbn in Hf. lia. }
  exists s2, L2. split_and!; try done.
  - by exists (S n).
  - intros q Hin. rewrite Hc2 by done. cbn. apply lookup_delete_ne. intros ->.
    pose proof (i_nodup _ _ _ HI) as Hnd. apply list.NoDup_cons in Hnd as [Hnin _].
    apply Hnin. subst L2. by eapply (subseteq_drop n L).
Qed.

(** ** Shifting the oldest data *)

Lemma shift_step s L c next :
  Inv s L [] -> cells s !! oldest s = Some c -> read_accesses c = 1 -> newer c = Some next ->
  Inv (set_ends (cleanup s) next (latest s) s) L [] /\ ahead L (oldest s) next.
Proof.
  intros HI Hc Hra Hn. destruct (i_oldest _ _ _ HI) as (k & Hk & Hko).
  destruct (i_chain _ _ _ HI _ _ Hko) as (c' & Hc' & Hn' & _ & _ & Ha).
  rewrite Hc in Hc'. injection Hc' as <-. rewrite app_nil_r in Ha. rewrite Hn in Hn'.
  assert (oldest s ∉ all_latches s) as Hfree by (apply occ_zero; lia).
  assert (bool_decide (saveup s = NoSaveUp) = true) as Hsu.
  { unfold all_latches in Hfree. case_bool_decide; [done|]. set_solver. }
  assert (all_latches (set_ends (cleanup s) next (latest s) s) = all_latches s) as Hall.
  { unfold all_latches. cbn. by rewrite Hsu. }
  split.
  2:{ exists (S k). split; [done|]. intros o Ho.
      pose proof (NoDup_lookup _ _ _ _ (i_nodup _ _ _ HI) Hko Ho). lia. }
  pose proof HI as HI0. destruct HI. split; try done.
  - intros i p Hi. rewrite Hall. exact (i_chain0 i p Hi).
  - cbn. exists (S k). split; [lia|done].
  - intros j cl Hj. destruct (i_clients0 j cl Hj) as [Hacc Hr]. split; [done|].
    destruct (sequential_read cl) eqn:Es; [|done].
    destruct Hr as (r & Hr & i & Hi & Hle). exists r. split; [done|]. exists i. split; [done|].
    intros o Ho. cbn in Ho. pose proof (NoDup_lookup _ _ _ _ i_nodup0 Ho (eq_sym Hn')) as ->.
    specialize (Hle k Hko). destruct (decide (i = k)) as [->|]; [|lia]. exfalso.
    rewrite Hko in Hi. injection Hi as <-. apply Hfree.
    eapply latch_in; [exact Hj|]. rewrite (latch_seq cl (oldest s)) by done. left.
Qed.

(** Shifting only moves [oldest], towards the sentinel. *)
Lemma shift_oldest_spec fuel now s L k :
  Inv s L [] -> L !! k = Some (oldest s) -> (length L - k < fuel)%nat ->
  exists o, UCE.shift_oldest fuel now s = (Val tt, set_ends (cleanup s) o (latest s) s)
    /\ Inv (set_ends (cleanup s) o (latest s) s) L [].
Proof.
  revert s k. induction fuel as [|fuel IH]; intros s k HI Hk Hf; [lia|].
  assert (set_ends (cleanup s) (oldest s) (latest s) s = s) as Hid by by destruct s.
  destruct (in_last _ _ _ HI) as [Hlast _].
  destruct (in_cells _ _ _ _ HI Hlast) as (l & Hl).
  destruct (i_chain _ _ _ HI _ _ Hk) as (c & Hc & Hn & _ & _ & Ha).
  cbn [UCE.shift_oldest]. rewrite (bind_val _ _ _ s s) by reflexivity.
  assert (exists b, Cells.obsolete (oldest s) now (span s) s = (Val b, s)
    /\ (b = true -> read_accesses c = 1 /\ exists q, newer c = Some q)) as (b & Eb & Hb).
  { unfold Cells.obsolete. rewrite (bind_val _ _ _ c s) by by apply cell_run.
    destruct (_ <? now); cbn [andb]; [|by exists false].
    destruct (Z.eqb_spec (read_accesses c) 1); [|by exists false].
    destruct (newer c) as [q|] eqn:Eq; [|by exists false].
    destruct (in_cells s L [] q HI) as (n & Hq); [by eapply list_elem_of_lookup_2|].
    rewrite (bind_val _ _ _ n s) by by apply cell_run. eexists. split; [reflexivity|]. eauto. }
  rewrite (bind_val _ _ _ b s) by exact Eb.
  rewrite (bind_val _ _ _ c s) by by apply cell_run.
  rewrite (bind_val _ _ _ l s) by by apply cell_run.
  destruct (b && (depth s <? u32 (seq_id l - seq_id c))) eqn:E.
  2:{ exists (oldest s). rewrite Hid. done. }
  apply andb_prop in E as [-> _]. destruct (Hb eq_refl) as (Hra & q & Hq).
  destruct (shift_step _ _ _ _ HI Hc Hra Hq) as [HI' _].
  rewrite Hq. cbn [Cells.deref of_option]. rewrite mret_bind.
  rewrite (bind_val _ _ _ tt (set_ends (cleanup s) q (latest s) s)) by reflexivity.
  apply lookup_lt_Some in Hk as Hkl.
  destruct (IH _ (S k) HI') as (o & Eo & HIo); [cbn; congruence|lia|].
  exists o. split; [exact Eo|exact HIo].
Qed.

(** ** Writing *)

(** The cells behind the old sentinel: all new, none a gap. *)
Record new_tail (m : gmap nat Cell) (lst : nat) (T : list nat) (lo hi : nat) : Prop := {
  n_some : T <> [];
  n_nodup : NoDup T;
  n_fresh : forall p, p ∈ T -> (lo <= p < hi)%nat;
  n_chain : forall i p, T !! i = Some p -> exists d, m !! p = Some d
    /\ newer d = T !! S i /\ older d = (lst :: T) !! i
    /\ kind_ok (bool_decide (S i = length T)) d /\ read_accesses d = 1 /\ 1 <= seq_id d
}.

(** The old sentinel now has data, or has become a gap before data. *)
Record filled (c c' : Cell) (T : list nat) : Prop := {
  f_older : older c' = older c;
  f_newer : newer c' = T !! 0%nat;
  f_accesses : read_accesses c' = read_accesses c;
  f_kind : kind_ok false c';
  f_seq : seq_id c' = seq_id c \/ seq_id c' = 0 /\ (1 < length T)%nat /\ seq_id c <> 1
}.

Definition extended (s : Entry) (m : gmap nat Cell) (f l : nat) : Entry :=
  set_ends (cleanup s) (oldest s) l (set_store m f (deleted s) s).

Lemma extend_chain s L0 lst c c' T m f :
  Inv s (L0 ++ [lst]) [] -> cells s !! lst = Some c -> m !! lst = Some c' ->
  filled c c' T -> new_tail m lst T (fresh s) f ->
  (forall p, p ∈ L0 -> m !! p = cells s !! p) ->
  forall i p, (L0 ++ lst :: T) !! i = Some p -> exists d, m !! p = Some d
    /\ newer d = (L0 ++ lst :: T) !! S i
    /\ (forall j, i = S j -> older d = (L0 ++ lst :: T) !! j)
    /\ kind_ok (bool_decide (S i = length (L0 ++ lst :: T))) d
    /\ read_accesses d = 1 + occ p (all_latches s ++ []).
Proof.
  intros HI Hc Hc' [Hfo Hfn Hfa Hfk _] HT Hm i p Hi.
  assert (length T <> 0%nat) as HlT by (pose proof (n_some _ _ _ _ _ HT); by destruct T).
  destruct (lt_eq_lt_dec i (length L0)) as [[Hlt| ->]|Hgt].
  - assert ((L0 ++ [lst]) !! i = Some p) as Hi0.
    { rewrite lookup_app_l in Hi by done. by rewrite lookup_app_l. }
    destruct (i_chain _ _ _ HI _ _ Hi0) as (d & Hd & Hn & Ho & Hk & Ha).
    exists d. rewrite lookup_app_l in Hi by done.
    rewrite Hm by by eapply list_elem_of_lookup_2. split_and!; [done| | | |done].
    + rewrite Hn. destruct (decide (S i = length L0)) as [->|].
      * by rewrite !list_lookup_middle.
      * by rewrite !lookup_app_l by lia.
    + intros j ->. rewrite (Ho j eq_refl). by rewrite !lookup_app_l by lia.
    + rewrite bool_decide_false in * by (rewrite length_app; cbn; lia). done.
  - rewrite list_lookup_middle in Hi by done. injection Hi as <-.
    assert ((L0 ++ [lst]) !! length L0 = Some lst) as Hi0 by by rewrite list_lookup_middle.
    destruct (i_chain _ _ _ HI _ _ Hi0) as (d & Hd & Hn & Ho & Hk & Ha).
    rewrite Hc in Hd. injection Hd as <-.
    exists c'. split_and!; [done| | | |by rewrite Hfa].
    + rewrite Hfn, lookup_app_r by lia. by replace (S (length L0) - length L0)%nat with 1%nat by lia.
    + intros j Hj. rewrite Hfo, (Ho j Hj), !lookup_app_l by lia. done.
    + rewrite bool_decide_false by (rewrite length_app; cbn; lia). done.
  - rewrite lookup_app_r in Hi by lia.
    destruct (i - length L0)%nat as [|n] eqn:En; [lia|]. cbn in Hi.
    destruct (n_chain _ _ _ _ _ HT _ _ Hi) as (d & Hd & Hn & Ho & Hk & Ha & _).
    exists d. split_and!; [done| | | |].
    + rewrite Hn, lookup_app_r by lia. by replace (S i - length L0)%nat with (S (S n)) by lia.
    + intros j ->. rewrite Ho, lookup_app_r by lia. by replace (j - length L0)%nat with n by lia.
    + replace (bool_decide _) with (bool_decide (S n = length T)); [done|].
      apply bool_decide_ext. rewrite length_app. cbn. lia.
    + rewrite Ha, app_nil_r, occ_not_in; [done|]. intros Hin.
      pose proof (latched_in _ _ _ _ HI Hin) as Hin'.
      destruct (in_cells _ _ _ _ HI Hin') as (e & He).
      pose proof (proj1 (i_fresh _ _ _ HI) _ _ He).
      pose proof (n_fresh _ _ _ _ _ HT p ltac:(by eapply list_elem_of_lookup_2)). lia.
Qed.

Lemma extend_gaps s L0 lst c c' T m f :
  Inv s (L0 ++ [lst]) [] -> cells s !! lst = Some c -> m !! lst = Some c' ->
  filled c c' T -> new_tail m lst T (fresh s) f ->
  (forall p, p ∈ L0 -> m !! p = cells s !! p) ->
  forall i p q x y, (L0 ++ lst :: T) !! i = Some p -> (L0 ++ lst :: T) !! S i = Some q ->
    m !! p = Some x -> m !! q = Some y -> seq_id x = 0 ->
    1 <= seq_id y /\ ((S (S i) < length (L0 ++ lst :: T))%nat \/ i = 0%nat /\ seq_id y = 1).
Proof.
  intros HI Hc Hc' [_ _ _ _ Hfs] HT Hm i p q x y Hp Hq Hx Hy Hz.
  rewrite length_app. cbn [length].
  assert (length T <> 0%nat) as HlT by (pose proof (n_some _ _ _ _ _ HT); by destruct T).
  destruct (lt_eq_lt_dec i (length L0)) as [[Hlt| ->]|Hgt].
  - rewrite lookup_app_l in Hp by done.
    rewrite Hm in Hx by by eapply list_elem_of_lookup_2.
    assert ((L0 ++ [lst]) !! i = Some p) as Hp0 by by rewrite lookup_app_l.
    destruct (decide (S i = length L0)) as [E|Hne].
    + assert (q = lst) as -> by (rewrite E, list_lookup_middle in Hq by done; congruence).
      assert ((L0 ++ [lst]) !! S i = Some lst) as Hq0 by by rewrite E, list_lookup_middle.
      rewrite Hc' in Hy. injection Hy as <-.
      destruct (i_gaps _ _ _ HI _ _ _ _ _ Hp0 Hq0 Hx Hc Hz) as [Hs Hor].
      rewrite length_app in Hor. cbn in Hor.
      destruct Hfs as [Hs'|[_ [_ Hne]]]; [|lia]. rewrite Hs'. split; [done|]. left. lia.
    + rewrite lookup_app_l in Hq by lia.
      rewrite Hm in Hy by by eapply list_elem_of_lookup_2.
      assert ((L0 ++ [lst]) !! S i = Some q) as Hq0 by (rewrite lookup_app_l by lia; done).
      destruct (i_gaps _ _ _ HI _ _ _ _ _ Hp0 Hq0 Hx Hy Hz) as [Hs _]. split; [done|]. left. lia.
  - rewrite list_lookup_middle in Hp by done. injection Hp as <-.
    rewrite Hc' in Hx. injection Hx as <-.
    rewrite lookup_app_r in Hq by lia. replace (S (length L0) - length L0)%nat with 1%nat in Hq by lia.
    destruct (n_chain _ _ _ _ _ HT 0%nat q Hq) as (d & Hd & _ & _ & _ & _ & Hs).
    rewrite Hy in Hd. injection Hd as <-. split; [done|]. left.
    destruct Hfs as [Hs'|[_ [? _]]]; [|lia].
    assert ((L0 ++ [lst]) !! length L0 = Some lst) as Hi0 by by rewrite list_lookup_middle.
    destruct (i_chain _ _ _ HI _ _ Hi0) as (d & Hd & _ & _ & (_ & Hk) & _).
    rewrite Hc in Hd. injection Hd as <-. rewrite bool_decide_true in Hk; [lia|].
    rewrite length_app. cbn. lia.
  - rewrite lookup_app_r in Hp by lia.
    destruct (i - length L0)%nat as [|n] eqn:En; [lia|]. cbn in Hp.
    destruct (n_chain _ _ _ _ _ HT n p Hp) as (d & Hd & _ & _ & _ & _ & Hs).
    rewrite Hx in Hd. injection Hd as <-. lia.
Qed.

Lemma app_mid {A} (l : list A) x l' : l ++ x :: l' = (l ++ [x]) ++ l'.
Proof. by rewrite <- (assoc_L (++)). Qed.

Lemma new_tail_notin s L0 lst T m f :
  Inv s (L0 ++ [lst]) [] -> new_tail m lst T (fresh s) f ->
  forall p, p ∈ L0 ++ [lst] -> p ∉ T.
Proof.
  intros HI HT p Hp Hin. destruct (in_cells _ _ _ _ HI Hp) as (e & He).
  pose proof (proj1 (i_fresh _ _ _ HI) _ _ He).
  pose proof (n_fresh _ _ _ _ _ HT p Hin). lia.
Qed.

Lemma extend_nodup s L0 lst T m f :
  Inv s (L0 ++ [lst]) [] -> new_tail m lst T (fresh s) f -> NoDup (L0 ++ lst :: T).
Proof.
  intros HI HT. rewrite (app_mid L0 lst T). apply list.NoDup_app. split_and!.
  - apply (i_nodup _ _ _ HI).
  - eapply new_tail_notin; eauto.
  - apply (n_nodup _ _ _ _ _ HT).
Qed.

(** A position in the old list is a position in the new one. *)
Lemma ahead_extend s L0 lst T m f o p :
  Inv s (L0 ++ [lst]) [] -> new_tail m lst T (fresh s) f -> o ∈ L0 ++ [lst] ->
  ahead (L0 ++ [lst]) o p -> ahead (L0 ++ lst :: T) o p.
Proof.
  intros HI HT (k & Ho)%list_elem_of_lookup (i & Hi & Hle).
  pose proof (extend_nodup _ _ _ _ _ _ HI HT) as Hnd. revert Hnd.
  rewrite (app_mid L0 lst T). intros Hnd. exists i.
  split; [by apply lookup_app_l_Some|].
  intros j Hj. pose proof (lookup_app_l_Some _ T _ _ Ho) as Ho'.
  pose proof (NoDup_lookup _ _ _ _ Hnd Hj Ho') as ->. by apply Hle.
Qed.

Lemma last_number s L0 lst c :
  Inv s (L0 ++ [lst]) [] -> cells s !! lst = Some c ->
  numbers (cells s) (L0 ++ [lst]) = numbers (cells s) L0 ++ [seq_id c].
Proof.
  intros HI Hc. unfold numbers. rewrite omap_app. f_equal. cbn. unfold number. rewrite Hc. cbn.
  assert ((L0 ++ [lst]) !! length L0 = Some lst) as Hi by by rewrite list_lookup_middle.
  destruct (i_chain _ _ _ HI _ _ Hi) as (d & Hd & _ & _ & (_ & Hk) & _).
  rewrite Hc in Hd. injection Hd as <-.
  rewrite bool_decide_true in Hk by (rewrite length_app; cbn; lia).
  destruct (Z.eqb_spec (seq_id c) 0); [lia|done].
Qed.

(** A new tail behind the old sentinel keeps the invariant. *)
Lemma extend_inv s L0 lst c c' T m f l :
  Inv s (L0 ++ [lst]) [] -> cells s !! lst = Some c -> m !! lst = Some c' ->
  filled c c' T -> new_tail m lst T (fresh s) f -> (fresh s <= f)%nat ->
  (forall p d, m !! p = Some d -> p <> lst -> p ∉ T -> cells s !! p = Some d) ->
  (forall p, p ∈ L0 -> m !! p = cells s !! p) ->
  numbers m (lst :: T) = [seq_id c; seq_id c + 1] ->
  list.last T = Some l -> Inv (extended s m f l) (L0 ++ lst :: T) [].
Proof.
  intros HI Hc Hc' Hfl HT Hff Hold Hm Hnum Hlast.
  pose proof (extend_chain _ _ _ _ _ _ _ _ HI Hc Hc' Hfl HT Hm) as Hchain.
  pose proof (extend_gaps _ _ _ _ _ _ _ _ HI Hc Hc' Hfl HT Hm) as Hgaps.
  pose proof (extend_nodup _ _ _ _ _ _ HI HT) as Hnd.
  assert (forall p i, (L0 ++ [lst]) !! i = Some p -> (L0 ++ lst :: T) !! i = Some p) as Hup.
  { intros p i Hi. rewrite (app_mid L0 lst T). by apply lookup_app_l_Some. }
  pose proof HI as HI0. pose proof (in_oldest _ _ _ HI) as Hol. destruct HI. split; try done.
  - cbn. by apply Hup.
  - cbn. rewrite (app_mid L0 lst T). rewrite last_app, Hlast. done.
  - destruct i_oldest0 as (k & Hk & Hko). exists k. split; [done|]. by apply Hup.
  - cbn. destruct i_fresh0 as [Hf1 Hf2]. split.
    + intros p d Hd. destruct (decide (p = lst)) as [->|Hne].
      { pose proof (Hf1 _ _ Hc). lia. }
      destruct (decide (p ∈ T)) as [Hin|Hni]; [pose proof (n_fresh _ _ _ _ _ HT p Hin); lia|].
      pose proof (Hf1 _ _ (Hold _ _ Hd Hne Hni)). lia.
    + intros k cl Hk. pose proof (Hf2 _ _ Hk). lia.
  - intros j cl Hj. destruct (i_clients0 j cl Hj) as [Hacc Hr]. split.
    + intros a Ha. rewrite (app_mid L0 lst T). apply elem_of_app. left. by apply Hacc.
    + cbn. destruct (sequential_read cl); [|done]. destruct Hr as (r & Hr & Hah).
      exists r. split; [done|]. by eapply ahead_extend.
  - intros p Hp. rewrite (app_mid L0 lst T). apply elem_of_app. left. by apply i_monitored0.
  - cbn. pose proof (last_number _ _ _ _ HI0 Hc) as Hn. rewrite Hn in i_numbers0.
    unfold numbers. rewrite omap_app. change (omap (number m) (lst :: T)) with (numbers m (lst :: T)).
    rewrite Hnum. change (omap (number m) L0) with (numbers m L0).
    rewrite (numbers_ext (cells s)) by (intros p Hp; by rewrite Hm). by apply consecutive_snoc.
Qed.

(** What a client standing at [p] sees of it. *)
Lemma extend_pending s L0 lst c T m f l i p :
  Inv s (L0 ++ [lst]) [] -> Inv (extended s m f l) (L0 ++ lst :: T) [] ->
  cells s !! lst = Some c -> (forall p, p ∈ L0 -> m !! p = cells s !! p) ->
  (L0 ++ [lst]) !! i = Some p ->
  pending (extended s m f l) p = pending s p ++ omap (fun q => m !! q ≫= item) (lst :: T).
Proof.
  intros HI HI' Hc Hm Hi. apply lookup_lt_Some in Hi as Hlt. rewrite length_app in Hlt. cbn in Hlt.
  assert ((L0 ++ lst :: T) !! i = Some p) as Hi'.
  { rewrite (app_mid L0 lst T). by apply lookup_app_l_Some. }
  rewrite (pending_chain _ _ _ _ _ HI Hi), (pending_chain _ _ _ _ _ HI' Hi').
  rewrite !drop_app_le by lia. rewrite !omap_app.
  assert (data_of s lst = None) as Hnone.
  { assert ((L0 ++ [lst]) !! length L0 = Some lst) as Hi0 by by rewrite list_lookup_middle.
    destruct (i_chain _ _ _ HI _ _ Hi0) as (d & Hd & _ & _ & (_ & Hk) & _).
    unfold data_of, item. rewrite Hd. cbn.
    rewrite bool_decide_true in Hk by (rewrite length_app; cbn; lia). by destruct Hk as [-> _]. }
  assert (omap (data_of s) [lst] = []) as -> by (cbn; by rewrite Hnone).
  rewrite app_nil_r. f_equal. apply list_omap_ext. apply Forall2_same_length_lookup_2; [done|].
  intros j x y Hx Hy. rewrite Hx in Hy. injection Hy as <-. unfold data_of. cbn.
  rewrite Hm; [done|]. eapply (subseteq_drop i). by eapply list_elem_of_lookup_2.
Qed.

Lemma extend_quiet s L0 lst c m f l :
  Inv s (L0 ++ [lst]) [] -> cells s !! lst = Some c -> data c = None ->
  (forall p, p ∈ L0 -> m !! p = cells s !! p) ->
  quiet s -> quiet (extended s m f l).
Proof.
  intros HI Hc Hd Hm Hq k cl Hk Hs. destruct (Hq k cl Hk Hs) as [?|[Heq Ha]]; [by left|].
  right. split; [done|]. intros a Haa. specialize (Ha a Haa).
  destruct (i_clients _ _ _ HI _ _ Hk) as [Hin _]. specialize (Hin a Haa).
  apply elem_of_app in Hin as [Hin| ->%list_elem_of_singleton].
  - cbn. by rewrite Hm.
  - rewrite Hc in Ha. cbn in Ha. rewrite Hd in Ha. by destruct Ha.
Qed.

(** ** The writing operations *)

Lemma set_cell_run p c s :
  Cells.set_cell p c s = (Val tt, set_store (<[p:=c]> (cells s)) (fresh s) (deleted s) s).
Proof. done. Qed.

Lemma make_seq_run ts d cur c seq s :
  cells s !! cur = Some c -> cur <> fresh s ->
  Cells.make_seq ts d (Some cur) seq s
  = (Val (fresh s),
     set_store (<[cur:=Cells.with_newer (Some (fresh s)) c]>
                  (<[fresh s:=mkCell ts d (Some cur) None 1 seq]> (cells s)))
       (S (fresh s)) (deleted s) s).
Proof.
  intros Hc Hne. unfold Cells.make_seq. rewrite (bind_val _ _ _ s s) by reflexivity.
  set (s1 := set_store (<[fresh s:=_]> _) _ _ s).
  rewrite (bind_val _ _ _ tt s1) by reflexivity.
  rewrite (bind_val _ _ _ tt (set_store (<[cur:=Cells.with_newer (Some (fresh s)) c]> (cells s1))
    (fresh s1) (deleted s1) s1)); [done|].
  rewrite (bind_val _ _ _ c s1); [done|]. apply cell_run. cbn. by rewrite lookup_insert_ne.
Qed.

Lemma new_sentinel_run ts cur c s :
  cells s !! cur = Some c -> cur <> fresh s ->
  UCE.new_sentinel ts cur s
  = (Val tt, extended s (<[cur:=Cells.with_newer (Some (fresh s)) c]>
       (<[fresh s:=mkCell ts None (Some cur) None 1 (u32 (seq_id c + 1))]> (cells s)))
       (S (fresh s)) (fresh s)).
Proof.
  intros Hc Hne. unfold UCE.new_sentinel.
  erewrite bind_val; cycle 1.
  { unfold Cells.make. rewrite (bind_val _ _ _ c s) by by apply cell_run.
    by apply make_seq_run. }
  reflexivity.
Qed.

Lemma refresh_run ch s :
  config_version ch = entry_config_version s -> UCE.refresh_if_needed ch s = (Val tt, s).
Proof.
  intros Hv. unfold UCE.refresh_if_needed. rewrite (bind_val _ _ _ s s) by reflexivity.
  by rewrite Hv, Z.eqb_refl.
Qed.

(** The start time with which data is stored, if it is. *)
Definition place (event : bool) (count last : Z) (t : TimeSpec) : option Z :=
  if event then Some (validity_start t)
  else if count =? 1 then Some (validity_start t)
  else if last <? validity_start t then Some (validity_start t)
  else if last <? validity_end t then Some last
  else None.
Definition placed (event : bool) (l : Cell) (t : TimeSpec) : option Z :=
  place event (seq_id l) (time_or_time_end l) t.

Definition wrote (s s' : Entry) (L : list nat) (l : Cell) (z : Z) (d : nat) (e : Z) : Prop :=
  exists L', Inv s' L' [] /\ quiet s' /\ clients s' = clients s
  /\ (forall p, p ∈ L -> pending s' p = (pending s p ++ [(z, d)]))
  /\ exists l', cells s' !! latest s' = Some l' /\ seq_id l' = seq_id l + 1
     /\ time_or_time_end l' = e.

Lemma split_last s L l : Inv s L [] -> cells s !! latest s = Some l ->
  exists L0, L = L0 ++ [latest s] /\ (latest s ∉ L0) /\ (latest s < fresh s)%nat
    /\ (forall p, p ∈ L0 -> (p < fresh s)%nat) /\ is_u32 (seq_id l) /\ 1 <= seq_id l
    /\ data l = None.
Proof.
  intros HI Hl. destruct (proj1 (last_Some _ _) (i_last _ _ _ HI)) as (L0 & HL).
  exists L0. split; [done|]. pose proof (i_nodup _ _ _ HI) as Hnd. rewrite HL in Hnd.
  apply list.NoDup_app in Hnd as (_ & Hnd & _). split.
  { intros Hin. apply (Hnd _ Hin). left. }
  destruct (i_fresh _ _ _ HI) as [Hf _]. split; [eauto|]. split.
  { intros p Hp. destruct (in_cells _ _ _ p HI) as (c & Hc); [rewrite HL; set_solver|eauto]. }
  destruct (in_last _ _ _ HI) as [_ Hi].
  destruct (i_chain _ _ _ HI _ _ Hi) as (c & Hc & _ & _ & (Hu & Hk) & _).
  rewrite Hl in Hc. injection Hc as <-.
  rewrite bool_decide_true in Hk by (rewrite HL, length_app; cbn; lia). by destruct Hk as [? ?].
Qed.

(** A written tail, in general. *)
Lemma tail_wrote s L l c' m f T q x e o :
  Inv s L [] -> quiet s -> cells s !! latest s = Some l -> is_u32 (seq_id l + 1) ->
  m !! latest s = Some c' -> filled l c' T -> new_tail m (latest s) T (fresh s) f ->
  (fresh s <= f)%nat ->
  (forall p, p <> latest s -> p ∉ T -> m !! p = cells s !! p) ->
  list.last T = Some q -> m !! q = Some (mkCell e None o None 1 (u32 (seq_id l + 1))) ->
  omap (fun q => m !! q ≫= item) (latest s :: T) = [x] ->
  numbers m (latest s :: T) = [seq_id l; seq_id l + 1] ->
  wrote s (extended s m f q) L l x.1 x.2 e.
Proof.
  intros HI Hq Hl Hs Hc' Hfl HT Hff Hm Hlast Eq Hx Hnum.
  destruct (split_last _ _ _ HI Hl) as (L0 & -> & Hn0 & Hlf & HL0 & Hu & H1 & Hdl).
  assert (forall p, p ∈ L0 -> m !! p = cells s !! p) as Hm0.
  { intros p Hp. apply Hm; [by intros ->|]. intros Hin.
    pose proof (n_fresh _ _ _ _ _ HT p Hin). pose proof (HL0 p Hp). lia. }
  assert (Inv (extended s m f q) (L0 ++ latest s :: T) []) as HI'.
  { apply (extend_inv s L0 (latest s) l c'); try done. intros p d Hd Hne Hni.
    by rewrite <- Hm. }
  exists (L0 ++ latest s :: T). split_and!; [done| |done| |].
  - by eapply (extend_quiet s L0 (latest s) l).
  - intros p (i & Hi)%list_elem_of_lookup.
    rewrite (extend_pending _ _ _ _ _ _ _ _ _ _ HI HI' Hl Hm0 Hi), Hx. by destruct x.
  - eexists. split; [exact Eq|]. cbn. by rewrite u32_id.
Qed.

(** The sentinel takes the data. *)
Lemma fill_spec s L l m z d e :
  Inv s L [] -> quiet s -> cells s !! latest s = Some l -> is_u32 (seq_id l + 1) ->
  m !! latest s
  = Some (mkCell z (Some d) (older l) (Some (fresh s)) (read_accesses l) (seq_id l)) ->
  m !! fresh s = Some (mkCell e None (Some (latest s)) None 1 (u32 (seq_id l + 1))) ->
  (forall p, p <> latest s -> p <> fresh s -> m !! p = cells s !! p) ->
  wrote s (extended s m (S (fresh s)) (fresh s)) L l z d e.
Proof.
  intros HI Hq Hl Hs Hm1 Hm2 Hm.
  destruct (split_last _ _ _ HI Hl) as (L0 & HL & Hn0 & Hlf & HL0 & Hu & H1 & Hdl).
  eapply (tail_wrote s L l _ m _ [fresh s] (fresh s) (z, d) e); try done; try lia.
  - split; try done; [|by left]. cbn. split; [done|]. right. eauto.
  - split; try done.
    + apply NoDup_singleton.
    + intros p ->%list_elem_of_singleton. lia.
    + intros [|i] p Hi; [|done]. injection Hi as <-.
      eexists. split_and!; [done|done|done| |done|]; cbn; rewrite u32_id by done.
      * split; [done|]. split; [done|cbn; lia].
      * lia.
  - intros p Hp Hni. apply Hm; [done|]. intros ->. apply Hni. left.
  - cbn. by rewrite Hm1, Hm2.
  - cbn. unfold number. rewrite Hm1, Hm2. cbn. rewrite u32_id by done.
    destruct (Z.eqb_spec (seq_id l) 0), (Z.eqb_spec (seq_id l + 1) 0); try lia. done.
Qed.

(** The sentinel becomes a gap, with the data behind it. *)
Lemma gap_spec s L l m g z d e :
  Inv s L [] -> quiet s -> cells s !! latest s = Some l -> is_u32 (seq_id l + 1) ->
  seq_id l <> 1 ->
  m !! latest s = Some (mkCell g None (older l) (Some (fresh s)) (read_accesses l) 0) ->
  m !! fresh s
  = Some (mkCell z (Some d) (Some (latest s)) (Some (S (fresh s))) 1 (seq_id l)) ->
  m !! S (fresh s)
  = Some (mkCell e None (Some (fresh s)) None 1 (u32 (seq_id l + 1))) ->
  (forall p, p <> latest s -> p <> fresh s -> p <> S (fresh s) -> m !! p = cells s !! p) ->
  wrote s (extended s m (S (S (fresh s))) (S (fresh s))) L l z d e.
Proof.
  intros HI Hq Hl Hs Hne Hm1 Hm2 Hm3 Hm.
  destruct (split_last _ _ _ HI Hl) as (L0 & HL & Hn0 & Hlf & HL0 & Hu & H1 & Hdl).
  eapply (tail_wrote s L l _ m _ [fresh s; S (fresh s)] (S (fresh s)) (z, d) e); try done; try lia.
  - split; try done; [cbn; split; [by unfold is_u32|by left]|].
    right. split_and!; [done|cbn; lia|done].
  - split; try done.
    + apply list.NoDup_cons. split; [|apply NoDup_singleton].
      intros ?%list_elem_of_singleton. lia.
    + intros p Hp. apply elem_of_cons in Hp as [->|Hp]; [lia|].
      apply list_elem_of_singleton in Hp as ->. lia.
    + intros [|[|i]] p Hi; [| |done]; injection Hi as <-; eexists.
      * split_and!; [done|done|done| |done|done]. cbn. split; [done|]. right. eauto.
      * split_and!; [done|done|done| |done|]; cbn; rewrite u32_id by done.
        -- split; [done|]. split; [done|cbn; lia].
        -- lia.
  - intros p Hp Hni. apply Hm; [done|set_solver|set_solver].
  - cbn. by rewrite Hm1, Hm2, Hm3.
  - cbn. unfold number. rewrite Hm1, Hm2, Hm3. cbn. rewrite u32_id by done.
    destruct (Z.eqb_spec (seq_id l) 0), (Z.eqb_spec (seq_id l + 1) 0); try lia. done.
Qed.

(** What writing leaves alone. *)
Definition fixed (s : Entry) :=
  (clients s, (eventtype s, has_writer s, valid s), (monitored s, jumptime s),
   (pclients s, entry_config_version s, triggers s, trigger_requests s, trigger_releases s)).

Definition sentinel_time (event : bool) (t : TimeSpec) : Z := if event then 0 else validity_end t.

(** Set the time and data of the sentinel and add a new one. *)
Lemma fill_run ch s l d z e :
  config_version ch = entry_config_version s ->
  cells s !! latest s = Some l -> latest s <> fresh s ->
  exists m, (Cells.setTime (latest s) z;; Cells.setData (latest s) (Some d);;
     UCE.refresh_if_needed ch;; UCE.new_sentinel e (latest s);;
     mret (true, seq_id l) : M Entry (bool * Z)) s
    = (Val (true, seq_id l), extended s m (S (fresh s)) (fresh s))
  /\ m !! latest s
     = Some (mkCell z (Some d) (older l) (Some (fresh s)) (read_accesses l) (seq_id l))
  /\ m !! fresh s = Some (mkCell e None (Some (latest s)) None 1 (u32 (seq_id l + 1)))
  /\ forall p, p <> latest s -> p <> fresh s -> m !! p = cells s !! p.
Proof.
  intros Hv Hl Hne.
  set (c1 := mkCell z (data l) (older l) (newer l) (read_accesses l) (seq_id l)).
  set (c2 := mkCell z (Some d) (older l) (newer l) (read_accesses l) (seq_id l)).
  set (s1 := set_store (<[latest s:=c1]> (cells s)) (fresh s) (deleted s) s).
  set (s2 := set_store (<[latest s:=c2]> (cells s1)) (fresh s) (deleted s) s1).
  assert (cells s2 !! latest s = Some c2) as H2 by (cbn; apply lookup_insert_eq).
  eexists. split.
  { rewrite (bind_val _ _ _ tt s1).
    2:{ unfold Cells.setTime. by rewrite (bind_val _ _ _ l s) by by apply cell_run. }
    rewrite (bind_val _ _ _ tt s2).
    2:{ unfold Cells.setData. rewrite (bind_val _ _ _ c1 s1); [done|].
        apply cell_run. cbn. apply lookup_insert_eq. }
    rewrite (bind_val _ _ _ tt s2) by by apply refresh_run.
    erewrite bind_val; [reflexivity|]. rewrite (new_sentinel_run _ _ c2) by done.
    reflexivity. }
  cbn. split_and!.
  - by rewrite lookup_insert_eq.
  - by rewrite lookup_insert_ne, lookup_insert_eq by done.
  - intros p Hp Hq. by rewrite !lookup_insert_ne by done.
Qed.

(** Set the data only: data that follows the data before without a gap. *)
Lemma append_run ch s l d e :
  config_version ch = entry_config_version s ->
  cells s !! latest s = Some l -> latest s <> fresh s ->
  exists m, (Cells.setData (latest s) (Some d);;
     UCE.refresh_if_needed ch;; UCE.new_sentinel e (latest s);;
     mret (true, seq_id l) : M Entry (bool * Z)) s
    = (Val (true, seq_id l), extended s m (S (fresh s)) (fresh s))
  /\ m !! latest s = Some (mkCell (time_or_time_end l) (Some d) (older l) (Some (fresh s))
                             (read_accesses l) (seq_id l))
  /\ m !! fresh s = Some (mkCell e None (Some (latest s)) None 1 (u32 (seq_id l + 1)))
  /\ forall p, p <> latest s -> p <> fresh s -> m !! p = cells s !! p.
Proof.
  intros Hv Hl Hne.
  set (c2 := mkCell (time_or_time_end l) (Some d) (older l) (newer l) (read_accesses l) (seq_id l)).
  set (s2 := set_store (<[latest s:=c2]> (cells s)) (fresh s) (deleted s) s).
  assert (cells s2 !! latest s = Some c2) as H2 by (cbn; apply lookup_insert_eq).
  eexists. split.
  { rewrite (bind_val _ _ _ tt s2).
    2:{ unfold Cells.setData. by rewrite (bind_val _ _ _ l s) by by apply cell_run. }
    rewrite (bind_val _ _ _ tt s2) by by apply refresh_run.
    erewrite bind_val; [reflexivity|]. rewrite (new_sentinel_run _ _ c2) by done.
    reflexivity. }
  cbn. split_and!.
  - by rewrite lookup_insert_eq.
  - by rewrite lookup_insert_ne, lookup_insert_eq by done.
  - intros p Hp Hq. by rewrite !lookup_insert_ne by done.
Qed.

(** Turn the sentinel into a gap, and add the data and a new one. *)
Lemma gap_run ch s l d z e :
  config_version ch = entry_config_version s ->
  cells s !! latest s = Some l -> latest s <> fresh s -> latest s <> S (fresh s) ->
  data l = None ->
  exists m, (seq ← Cells.resetSeqId (latest s);
     q ← Cells.make_seq z (Some d) (Some (latest s)) seq;
     UCE.refresh_if_needed ch;; UCE.new_sentinel e q;;
     mret (true, seq) : M Entry (bool * Z)) s
    = (Val (true, seq_id l), extended s m (S (S (fresh s))) (S (fresh s)))
  /\ m !! latest s
     = Some (mkCell (time_or_time_end l) None (older l) (Some (fresh s)) (read_accesses l) 0)
  /\ m !! fresh s
     = Some (mkCell z (Some d) (Some (latest s)) (Some (S (fresh s))) 1 (seq_id l))
  /\ m !! S (fresh s) = Some (mkCell e None (Some (fresh s)) None 1 (u32 (seq_id l + 1)))
  /\ forall p, p <> latest s -> p <> fresh s -> p <> S (fresh s) -> m !! p = cells s !! p.
Proof.
  intros Hv Hl Hne Hne' Hd.
  set (c1 := mkCell (time_or_time_end l) (data l) (older l) (newer l) (read_accesses l) 0).
  set (s1 := set_store (<[latest s:=c1]> (cells s)) (fresh s) (deleted s) s).
  set (ce := mkCell z (Some d) (Some (latest s)) None 1 (seq_id l)).
  set (s2 := set_store (<[latest s:=Cells.with_newer (Some (fresh s)) c1]>
    (<[fresh s:=ce]> (cells s1))) (S (fresh s)) (deleted s) s1).
  assert (cells s1 !! latest s = Some c1) as H1 by (cbn; apply lookup_insert_eq).
  assert (cells s2 !! fresh s = Some ce) as H2.
  { cbn. by rewrite lookup_insert_ne, lookup_insert_eq by done. }
  eexists. split.
  { rewrite (bind_val _ _ _ (seq_id l) s1).
    2:{ unfold Cells.resetSeqId. by rewrite (bind_val _ _ _ l s) by by apply cell_run. }
    rewrite (bind_val _ _ _ (fresh s) s2) by by rewrite (make_seq_run _ _ _ c1).
    rewrite (bind_val _ _ _ tt s2) by by apply refresh_run.
    erewrite bind_val; [reflexivity|]. rewrite (new_sentinel_run _ _ ce) by (cbn; done || lia).
    reflexivity. }
  cbn. split_and!.
  - rewrite lookup_insert_ne, lookup_insert_ne, lookup_insert_eq by lia.
    unfold Cells.with_newer. cbn. by rewrite Hd.
  - by rewrite lookup_insert_eq.
  - rewrite lookup_insert_ne, lookup_insert_eq by lia. done.
  - intros p Hp Hq Hr. by rewrite !lookup_insert_ne by lia.
Qed.

(** What [insert_data] does, by whether the data connects. *)
Definition inserted (s s' : Entry) (L : list nat) (l : Cell) (t : TimeSpec) (d : nat)
    (o : option Z) : Prop :=
  match o with
  | Some z => wrote s s' L l z d (sentinel_time (eventtype s) t)
      /\ fixed s' = fixed s /\ saveup s' = saveup s /\ oldest s' = oldest s
      /\ events s' = events s
  | None => s' = s
  end.

Lemma insert_data_spec ch d t s L l :
  Inv s L [] -> quiet s -> config_version ch = entry_config_version s ->
  cells s !! latest s = Some l -> is_u32 (seq_id l + 1) ->
  exists s', UCE.insert_data ch (Some d) t s
    = (Val (bool_decide (is_Some (placed (eventtype s) l t)), seq_id l), s')
  /\ inserted s s' L l t d (placed (eventtype s) l t).
Proof.
  intros HI Hq Hv Hl Hs.
  destruct (split_last _ _ _ HI Hl) as (L0 & HL & _ & Hlf & _ & Hu & H1 & Hdl).
  assert (latest s <> fresh s /\ latest s <> S (fresh s)) as [Hne Hne'] by lia.
  unfold UCE.insert_data. rewrite (bind_val _ _ _ s s) by reflexivity.
  rewrite (bind_val _ _ _ l s) by by apply cell_run. unfold placed, place, sentinel_time.
  destruct (eventtype s) eqn:Ev.
  { destruct (fill_run ch s l d (validity_start t) 0 Hv Hl Hne) as (m & -> & Hm1 & Hm2 & Hm).
    eexists. split; [reflexivity|]. cbn. rewrite Ev. split; [|done].
    by eapply fill_spec. }
  destruct (Z.eqb_spec (seq_id l) 1) as [E1|E1].
  { destruct (fill_run ch s l d (validity_start t) (validity_end t) Hv Hl Hne)
      as (m & -> & Hm1 & Hm2 & Hm).
    eexists. split; [reflexivity|]. cbn. rewrite Ev. split; [|done].
    by eapply fill_spec. }
  destruct (time_or_time_end l <? validity_start t) eqn:Eg.
  { destruct (gap_run ch s l d (validity_start t) (validity_end t) Hv Hl Hne Hne' Hdl)
      as (m & -> & Hm1 & Hm2 & Hm3 & Hm).
    eexists. split; [reflexivity|]. cbn. rewrite Ev. split; [|done].
    by eapply gap_spec. }
  destruct (time_or_time_end l <? validity_end t) eqn:Ea.
  { destruct (append_run ch s l d (validity_end t) Hv Hl Hne) as (m & -> & Hm1 & Hm2 & Hm).
    eexists. split; [reflexivity|]. cbn. rewrite Ev. split; [|done].
    by eapply fill_spec. }
  by exists s.
Qed.

(** Releasing the reserved data. *)
Lemma saveup_remove_spec ch s L :
  Inv s L [] -> saveup s <> NoSaveUp ->
  exists s', UCE.saveupRemoveInner ch s = (Val tt, s') /\ Inv s' L []
    /\ core <$> cells s' = core <$> cells s /\ fixed s' = fixed s /\ latest s' = latest s
    /\ events s' = events s.
Proof.
  intros HI Hsu. unfold UCE.saveupRemoveInner.
  destruct (clients_current ch); [|by exists s].
  rewrite (bind_val _ _ _ tt (set_saveup NoSaveUp s)) by reflexivity.
  rewrite (bind_val _ _ _ (oldest s) (set_saveup NoSaveUp s)) by reflexivity.
  pose proof (in_oldest _ _ _ HI) as Ho.
  assert (Inv (set_saveup NoSaveUp s) L [oldest s]) as HI1.
  { destruct HI. split; try done. intros i p Hi.
    destruct (i_chain0 i p Hi) as (c & Hc & Hn & Hol & Hk & Ha). exists c.
    split_and!; try done. rewrite Ha. f_equal. apply occ_perm. unfold all_latches. cbn.
    rewrite bool_decide_false by done. rewrite app_nil_r, <- !(assoc_L (++)). f_equiv. cbn.
    by rewrite Permutation_cons_append. }
  destruct (release_spec _ _ _ _ HI1 Ho ltac:(cbn; lia)) as (s' & E & HI' & Hs & Hc).
  exists s'. split; [exact E|]. split; [done|]. unfold shape in Hs. injection Hs.
  intros. unfold fixed. cbn in *. split_and!; congruence.
Qed.

Lemma pending_core s s' p : core <$> cells s' = core <$> cells s -> pending s' p = pending s p.
Proof. intros E. unfold pending. by rewrite (size_core _ _ E), (walk_core _ _ E). Qed.

(** Dropping cells at the front does not change what is ahead. *)
Lemma pending_drop s s' L n p :
  Inv s L [] -> Inv s' (drop n L) [] ->
  (forall q, q ∈ drop n L -> cells s' !! q = cells s !! q) -> p ∈ drop n L ->
  pending s' p = pending s p.
Proof.
  intros HI HI' Hc (i & Hi)%list_elem_of_lookup.
  pose proof Hi as Hi'. rewrite lookup_drop in Hi'.
  rewrite (pending_chain _ _ _ _ _ HI' Hi), (pending_chain _ _ _ _ _ HI Hi').
  rewrite drop_drop. apply list_omap_ext, Forall2_same_length_lookup_2; [done|].
  intros j x y Hx Hy. rewrite Hx in Hy. injection Hy as <-. unfold data_of.
  rewrite Hc; [done|]. rewrite <- drop_drop in Hx.
  eapply (subseteq_drop i). by eapply list_elem_of_lookup_2.
Qed.

(** The state after the recycling and shifting that starts each write. *)
Lemma cleaning_spec s L l now :
  Inv s L [] -> quiet s -> cells s !! latest s = Some l ->
  exists s1 L1 o, let s2 := set_ends (cleanup s1) o (latest s1) s1 in
    UCE.recycle (S (size (cells s))) s = (Val tt, s1)
    /\ UCE.shift_oldest (S (size (cells s1))) now s1 = (Val tt, s2)
    /\ Inv s2 L1 [] /\ quiet s2 /\ rest s1 = rest s
    /\ cells s2 !! latest s2 = Some l
    /\ (forall k cl p, clients s !! k = Some cl -> sequential_read cl = true ->
         read_index cl = Some p -> p ∈ L1 /\ pending s2 p = pending s p).
Proof.
  intros HI Hq Hl. pose proof (L_size _ _ _ HI) as Hsz.
  destruct (recycle_spec (S (size (cells s))) s L HI Hq ltac:(lia))
    as (s1 & L1 & E1 & HI1 & Hq1 & Hr1 & Ho1 & (n & ->) & Hc1).
  destruct (i_oldest _ _ _ HI1) as (k & _ & Hk). pose proof (L_size _ _ _ HI1) as Hsz1.
  destruct (shift_oldest_spec (S (size (cells s1))) now s1 _ k HI1 Hk ltac:(lia))
    as (o & E2 & HI2).
  exists s1, (drop n L), o. cbn zeta. pose proof Hr1 as Hrest. unfold rest in Hrest.
  injection Hrest. intros. split_and!; try done.
  - cbn. rewrite Hc1; [congruence|]. by apply (in_last _ _ _ HI1).
  - intros j cl p Hj Hs Hr.
    assert (p ∈ drop n L) as Hp.
    { destruct (i_clients _ _ _ HI1 j cl) as [_ Hok]; [congruence|]. rewrite Hs in Hok.
      destruct Hok as (r & Hr' & Hah). rewrite Hr in Hr'. injection Hr' as <-.
      by apply ahead_in in Hah. }
    split; [done|]. by apply (pending_drop s s1 L n).
Qed.

(** Triggers and transport are told of each data point, in this order. *)
Definition notices (s : Entry) (t : TimeSpec) (seq : Z) : list Event :=
  ((fun trg => PullTrigger trg t) <$> triggers s)
  ++ (if has_writer s && negb (bool_decide (length (pclients s) = 0%nat))
      then [NewTransportWork seq None] else []).

Lemma notices_fixed s s' t seq : fixed s' = fixed s -> notices s' t seq = notices s t seq.
Proof.
  intros Hf. unfold fixed in Hf. injection Hf. intros. unfold notices.
  by repeat match goal with E : _ s' = _ s |- _ => rewrite E; clear E end.
Qed.

Lemma notify_run s t seq :
  (s0 ← get;
   modify (add_events ((fun trg => PullTrigger trg t) <$> triggers s0));;
   if has_writer s0 && negb (bool_decide (length (pclients s0) = 0%nat))
   then modify (add_events [NewTransportWork seq None])
   else mret tt : M Entry unit) s = (Val tt, add_events (notices s t seq) s).
Proof.
  rewrite (bind_val _ _ _ s s) by reflexivity. unfold notices.
  erewrite bind_val by reflexivity. destruct (has_writer s && _).
  - unfold add_events, modify. cbn. by rewrite (assoc_L (++)).
  - by rewrite app_nil_r.
Qed.

Lemma add_events_inv l s L : Inv s L [] -> Inv (add_events l s) L [].
Proof. intros []. by split. Qed.

(** A write, for the clients that read in sequence. *)
Definition stored (s : Entry) (l : Cell) (t : TimeSpec) (d : nat) : list (Z * nat) :=
  match placed (eventtype s) l t with Some z => [(z, d)] | None => [] end.

Definition next_sentinel (event : bool) (l l' : Cell) (t : TimeSpec) : Prop :=
  match placed event l t with
  | Some _ => seq_id l' = seq_id l + 1 /\ time_or_time_end l' = sentinel_time event t
  | None => seq_id l' = seq_id l /\ time_or_time_end l' = time_or_time_end l
  end.

Record written_to (s s' : Entry) (L' : list nat) (l : Cell) (t : TimeSpec) (d : nat) : Prop := {
  w_inv : Inv s' L' [];
  w_quiet : quiet s';
  w_fixed : fixed s' = fixed s;
  w_sentinel : exists l', cells s' !! latest s' = Some l'
    /\ next_sentinel (eventtype s) l l' t;
  w_pending : forall k cl p, clients s !! k = Some cl -> sequential_read cl = true ->
    read_index cl = Some p -> pending s' p = pending s p ++ stored s l t d;
  w_events : events s' = events s
    ++ match placed (eventtype s) l t with Some _ => notices s t (seq_id l) | None => [] end
}.

Lemma newData_spec ch d t s L l :
  Inv s L [] -> quiet s -> config_version ch = entry_config_version s ->
  cells s !! latest s = Some l -> is_u32 (seq_id l + 1) ->
  exists s' L', UCE.newData ch (Some d) t s = (Val tt, s') /\ written_to s s' L' l t d.
Proof.
  intros HI Hq Hv Hl Hs.
  destruct (cleaning_spec s L l (validity_start t) HI Hq Hl)
    as (s1 & L1 & o & E1 & E2 & HI2 & Hq2 & Hr & Hl2 & Hp2).
  set (s2 := set_ends _ o _ s1) in *. pose proof Hr as Hrest. unfold rest in Hrest.
  injection Hrest as Hcl Hfr Hsp Hdp Hev Hhw Hval Hla Hmo Hsu Hju Hpc Hcv Htr Htq Htl Hevs.
  assert (fixed s2 = fixed s) as Hfix2 by (unfold fixed, s2; cbn; congruence).
  assert (eventtype s2 = eventtype s) as Hev2 by done.
  destruct (insert_data_spec ch d t s2 L1 l HI2 Hq2 ltac:(cbn; congruence) Hl2 Hs)
    as (s3 & E3 & H3). rewrite Hev2 in E3, H3.
  unfold UCE.newData. rewrite (bind_val _ _ _ s s) by reflexivity.
  rewrite (bind_val _ _ _ tt s1) by exact E1.
  rewrite (bind_val _ _ _ s1 s1) by reflexivity.
  rewrite (bind_val _ _ _ tt s2) by exact E2.
  rewrite (bind_val _ _ _ _ s3) by exact E3. cbv beta iota.
  destruct (placed (eventtype s) l t) as [z|] eqn:Ep.
  2:{ cbn in H3. subst s3. rewrite bool_decide_false by by intros [? ?].
      exists s2, L1. split; [done|]. split; try done.
      - exists l. split; [done|]. unfold next_sentinel. by rewrite Ep.
      - intros k cl p Hk Hsr Hri. unfold stored. rewrite Ep, app_nil_r. by eapply Hp2.
      - rewrite Ep, app_nil_r. exact Hevs. }
  rewrite bool_decide_true by done.
  destruct H3 as ((L3 & HI3 & Hq3 & Hc3 & Hp3 & l' & Hl' & Hsl & Htl') & Hf3 & Hsu3 & Ho3 & He3).
  assert (exists s4, (s0 ← get; if bool_decide (saveup s0 = SaveUpTryRemove)
      then UCE.saveupRemoveInner ch else mret tt : M Entry unit) s3 = (Val tt, s4)
    /\ Inv s4 L3 [] /\ core <$> cells s4 = core <$> cells s3 /\ fixed s4 = fixed s3
    /\ latest s4 = latest s3 /\ events s4 = events s3) as (s4 & E4 & HI4 & Hc4 & Hf4 & Hla4 & He4).
  { rewrite (bind_val _ _ _ s3 s3) by reflexivity. destruct (decide (saveup s3 = SaveUpTryRemove)) as [Hsup|Hsup].
    - rewrite bool_decide_true by done. apply (saveup_remove_spec ch s3 L3 HI3). by rewrite Hsup.
    - rewrite bool_decide_false by done. by exists s3. }
  rewrite (bind_val _ _ _ s3 s3) by reflexivity.
  rewrite (bind_val _ _ _ s3 s3) in E4 by reflexivity.
  rewrite (bind_val _ _ _ tt s4) by exact E4. rewrite notify_run.
  exists (add_events (notices s4 t (seq_id l)) s4), L3. split; [done|].
  assert (fixed s4 = fixed s) as Hf by congruence.
  pose proof Hf as Hfields. unfold fixed in Hfields. injection Hfields as ?????????.
  split.
  - by apply add_events_inv.
  - intros k cl Hk Hsr. cbn in Hk |- *.
    destruct (Hq3 k cl) as [?|[Ha Hd]]; [|done|by left|].
    { unfold fixed in Hf4. injection Hf4. congruence. }
    right. split; [done|]. intros a Haa. cbn. rewrite (data_core s3 s4 a Hc4). by apply Hd.
  - exact Hf.
  - destruct (core_cell _ _ _ _ Hc4 Hl') as (l4 & Hl4 & Hcore). exists l4.
    split; [cbn; congruence|]. unfold next_sentinel. rewrite Ep.
    injection Hcore as Ht _ _ _ Hsq. rewrite Hsq, Ht, Hsl, Htl'. by rewrite Hev2.
  - intros k cl p Hk Hsr Hri. destruct (Hp2 k cl p Hk Hsr Hri) as [Hin Hpe].
    unfold stored. rewrite Ep, <- Hpe, <- (Hp3 p Hin). exact (pending_core s3 s4 p Hc4).
  - cbn. rewrite Ep, He4, He3. change (events s2) with (events s1). rewrite Hevs. f_equal.
    by apply notices_fixed.
Qed.

End Ops.
