(* ===== verification/ChannelFrame.v ===== *)
(** What a write leaves of the cells of a channel entry.

    [ChannelInv] follows the data a reader has before it.  A packer looks
    further: it reports where each span of time starts and ends, and it refers
    to data it has sent before.  This file adds that the times along the cells
    increase, that data in the entry is not deleted, and that a write leaves the
    cell a reader stands at, and the data right behind it, as they were. *)

From S2P Require Import Prelude TimeSpec ChannelEntry ChannelInv.
#[local] Open Scope Z_scope.

(** Neighbouring cells of a stream; the number of a sentinel that has had no
    data before it is 1. *)
Definition link_ok (event : bool) (c d : Cell) : Prop :=
  event = false -> seq_id d <> 1 -> time_or_time_end c < time_or_time_end d.

Record Tidy (s : Entry) : Prop := {
  t_links : forall p c q d, cells s !! p = Some c -> newer c = Some q -> cells s !! q = Some d ->
    link_ok (eventtype s) c d;
  t_first : forall p c q d, cells s !! p = Some c -> newer c = Some q -> cells s !! q = Some d ->
    seq_id d = 1 -> seq_id c = 0 /\ older c = None;
  t_newer : forall p c q, cells s !! p = Some c -> newer c = Some q -> (q < fresh s)%nat;
  t_alive : forall p c x, cells s !! p = Some c -> data c = Some x -> Some x ∉ deleted s;
  t_apart : forall p q c d x, cells s !! p = Some c -> cells s !! q = Some d ->
    data c = Some x -> data d = Some x -> p = q
}.

(** [x] is not the data of any cell and has not been deleted. *)
Definition unused (x : nat) (s : Entry) : Prop :=
  Some x ∉ deleted s /\ forall p c, cells s !! p = Some c -> data c <> Some x.

(** Cells and data that are gone. *)
Record lesser (s s' : Entry) : Prop := {
  l_cells : cells s' ⊆ cells s;
  l_deleted : forall x, x ∈ deleted s' -> x ∈ deleted s \/
    exists p c, cells s !! p = Some c /\ data c = x /\ cells s' !! p = None
}.

Lemma lesser_refl s : lesser s s.
Proof. split; [done|by left]. Qed.

Lemma lesser_trans s1 s2 s3 : lesser s1 s2 -> lesser s2 s3 -> lesser s1 s3.
Proof.
  intros [Hc1 Hd1] [Hc2 Hd2]. split; [by etransitivity|]. intros x Hx.
  destruct (Hd2 x Hx) as [Hx2|(p & c & Hp & Hx2 & Hn)].
  - destruct (Hd1 x Hx2) as [?|(p & c & Hp & Hx1 & Hn)]; [by left|]. right.
    exists p, c. split_and!; [done..|]. by eapply lookup_weaken_None.
  - right. exists p, c. split_and!; [by eapply lookup_weaken|done..].
Qed.

Lemma unused_lesser x s s' : lesser s s' -> unused x s -> unused x s'.
Proof.
  intros [Hc Hd] [Hn Hx]. split.
  - intros Hin. destruct (Hd _ Hin) as [?|(p & c & Hp & E & _)]; [done|]. by eapply Hx.
  - intros p c Hp. eapply Hx. by eapply lookup_weaken.
Qed.

Lemma Tidy_lesser s s' : lesser s s' -> eventtype s' = eventtype s -> fresh s' = fresh s ->
  Tidy s -> Tidy s'.
Proof.
  intros [Hc Hd] He Hf [Hl H1 Hn Ha Hp]. assert (forall p c, cells s' !! p = Some c -> cells s !! p = Some c)
    as Hw by (intros; by eapply lookup_weaken).
  split.
  - intros p c q d Hpc Hnc Hq. rewrite He. eapply Hl; eauto.
  - eauto 10.
  - intros p c q Hpc Hnc. rewrite Hf. eauto.
  - intros p c x Hpc Hx Hin. destruct (Hd _ Hin) as [Hin'|(q & d & Hq & Hdx & Hnone)].
    + by eapply Ha; eauto.
    + assert (p = q) as -> by eauto. by rewrite Hpc in Hnone.
  - intros p q c d x Hpc Hq. eauto.
Qed.

(** Counters and clients do not matter here. *)
Lemma Tidy_core s s' :
  core <$> cells s' = core <$> cells s -> deleted s' = deleted s -> eventtype s' = eventtype s ->
  fresh s' = fresh s -> Tidy s -> Tidy s'.
Proof.
  intros E Ed Ee Ef [Hl Hg Hf Ha Hp]. symmetry in E.
  assert (forall p c', cells s' !! p = Some c' -> exists c, cells s !! p = Some c /\ core c = core c')
    as Hw by (intros; by eapply core_cell).
  split.
  - intros p c q d (c1 & Hc1 & E1)%Hw Hn (d1 & Hd1 & E2)%Hw.
    injection E1 as T1 _ _ N1 _. injection E2 as T2 _ _ _ S2.
    unfold link_ok. rewrite Ee, <- T1, <- T2, <- S2. apply (Hl p c1 q d1); [done|congruence|done].
  - intros p c q d (c1 & Hc1 & E1)%Hw Hn (d1 & Hd1 & E2)%Hw.
    injection E1 as _ _ O1 N1 S1. injection E2 as _ _ _ _ S2. rewrite <- S1, <- S2, <- O1.
    apply (Hg p c1 q d1); [done|congruence|done].
  - intros p c q (c1 & Hc1 & E1)%Hw Hn. injection E1 as _ _ _ N1 _. rewrite Ef.
    apply (Hf p c1); [done|congruence].
  - intros p c x (c1 & Hc1 & E1)%Hw Hx. rewrite Ed. injection E1 as _ D1 _ _ _.
    apply (Ha p c1); [done|congruence].
  - intros p q c d x (c1 & Hc1 & E1)%Hw (d1 & Hd1 & E2)%Hw Hx Hy.
    injection E1 as _ D1 _ _ _. injection E2 as _ D2 _ _ _. apply (Hp p q c1 d1 x); congruence.
Qed.

Lemma shape_core s s' : shape s' = shape s ->
  core <$> cells s' = core <$> cells s /\ deleted s' = deleted s /\ eventtype s' = eventtype s
  /\ fresh s' = fresh s /\ latest s' = latest s.
Proof. intros E. unfold shape in E. injection E. intros. by split_and!. Qed.

Lemma Tidy_shape s s' : shape s' = shape s -> Tidy s -> Tidy s'.
Proof. intros (? & ? & ? & ? & _)%shape_core. by apply Tidy_core. Qed.

Lemma unused_core x s s' :
  core <$> cells s' = core <$> cells s -> deleted s' = deleted s -> unused x s -> unused x s'.
Proof.
  intros E Ed [Hn Hx]. split; [by rewrite Ed|]. intros p c' Hp. symmetry in E.
  destruct (core_cell _ _ _ _ E Hp) as (c & Hc & Ec). injection Ec as _ D _ _ _.
  rewrite <- D. by eapply Hx.
Qed.

Section Write.
Context `{BuildConfig}.

(** ** Recycling *)

Lemma cell_inv s p c s' : Cells.cell p s = (Val c, s') -> cells s !! p = Some c /\ s' = s.
Proof. unfold Cells.cell. destruct (cells s !! p); [|done]. by intros [= <- <-]. Qed.

Lemma recycle_lesser fuel : forall s s', UCE.recycle fuel s = (Val tt, s') -> lesser s s'.
Proof.
  induction fuel as [|fuel IH]; intros s s'; [done|]. cbn [UCE.recycle].
  rewrite (bind_val _ _ _ s s) by reflexivity.
  intros (c & s1 & (Hc & ->)%cell_inv & E)%bind_inv.
  case_bool_decide; [injection E as <-; apply lesser_refl|].
  apply bind_inv in E as (ok & s2 & E1 & E). unfold Cells.tryRecycle in E1.
  rewrite (bind_val _ _ _ c s) in E1 by by apply cell_run.
  destruct (read_accesses c =? 1); [|injection E1 as <- <-; injection E as <-; apply lesser_refl].
  injection E1 as <- <-. apply bind_inv in E as ([] & s3 & [= <-] & E).
  apply bind_inv in E as (next & s3 & E1 & E). destruct (newer c); [|done].
  injection E1 as -> <-. unfold Cells.free in E.
  apply bind_inv in E as ([] & s3 & E1 & E).
  apply bind_inv in E1 as (c' & s4 & (_ & ->)%cell_inv & [= <-]).
  apply bind_inv in E as ([] & s3 & [= <-] & E). apply IH in E. eapply lesser_trans; [|exact E].
  split; cbn.
  - rewrite delete_insert_eq. apply delete_subseteq.
  - intros x [?| ->%list_elem_of_singleton]%elem_of_app; [by left|]. right.
    exists (cleanup s), c. by rewrite lookup_delete_eq.
Qed.

(** ** Inserting *)

(** The cell [q] takes the data: the sentinel itself, or a new cell behind the
    gap that the sentinel has become. *)
Record inserted_cells (s s' : Entry) (l : Cell) (t : TimeSpec) (d : nat) (z : Z) (q : nat)
    (b e : Cell) : Prop := {
  p_deleted : deleted s' = deleted s;
  p_event : eventtype s' = eventtype s;
  p_fresh : (fresh s <= latest s')%nat /\ (latest s' < fresh s')%nat /\ (q < latest s')%nat;
  p_old : forall p, p <> latest s -> (p < fresh s)%nat -> cells s' !! p = cells s !! p;
  p_dom : forall p c, cells s' !! p = Some c -> (p < fresh s)%nat \/ p = q \/ p = latest s';
  p_data : cells s' !! q = Some b;
  p_data_is : data b = Some d /\ time_or_time_end b = z /\ seq_id b = seq_id l
    /\ newer b = Some (latest s');
  p_sentinel : cells s' !! latest s' = Some e;
  p_sentinel_is : data e = None /\ time_or_time_end e = sentinel_time (eventtype s) t
    /\ newer e = None /\ older e = Some q /\ seq_id e = u32 (seq_id l + 1);
  p_where : q = latest s /\ older b = older l
      /\ (eventtype s = true \/ seq_id l = 1 \/ z = time_or_time_end l)
    \/ q = fresh s /\ eventtype s = false /\ seq_id l <> 1 /\ time_or_time_end l < z
      /\ exists g, cells s' !! latest s = Some g /\ data g = None /\ seq_id g = 0
        /\ time_or_time_end g = time_or_time_end l /\ older g = older l /\ newer g = Some q
}.

Lemma filled_cells s l t d z m :
  cells s !! latest s = Some l -> (latest s < fresh s)%nat ->
  (forall p c, cells s !! p = Some c -> p < fresh s)%nat ->
  (eventtype s = true \/ seq_id l = 1 \/ z = time_or_time_end l) ->
  m !! latest s
  = Some (mkCell z (Some d) (older l) (Some (fresh s)) (read_accesses l) (seq_id l)) ->
  m !! fresh s = Some (mkCell (sentinel_time (eventtype s) t) None (Some (latest s)) None 1
                         (u32 (seq_id l + 1))) ->
  (forall p, p <> latest s -> p <> fresh s -> m !! p = cells s !! p) ->
  exists q b e, inserted_cells s (extended s m (S (fresh s)) (fresh s)) l t d z q b e.
Proof.
  intros Hl Hlf Hf Hz Hm1 Hm2 Hm. eexists (latest s), _, _.
  split; [done|done| | | |exact Hm1|done|exact Hm2|done|by left]; cbn.
  - lia.
  - intros p Hp Hpf. apply Hm; lia.
  - intros p c Hp. destruct (decide (p = latest s)); [auto|]. destruct (decide (p = fresh s)); [auto|].
    left. rewrite Hm in Hp by done. eauto.
Qed.

Lemma gapped_cells s l t d z m :
  cells s !! latest s = Some l -> (latest s < fresh s)%nat ->
  (forall p c, cells s !! p = Some c -> p < fresh s)%nat ->
  eventtype s = false -> seq_id l <> 1 -> time_or_time_end l < z ->
  m !! latest s
  = Some (mkCell (time_or_time_end l) None (older l) (Some (fresh s)) (read_accesses l) 0) ->
  m !! fresh s
  = Some (mkCell z (Some d) (Some (latest s)) (Some (S (fresh s))) 1 (seq_id l)) ->
  m !! S (fresh s) = Some (mkCell (validity_end t) None (Some (fresh s)) None 1 (u32 (seq_id l + 1))) ->
  (forall p, p <> latest s -> p <> fresh s -> p <> S (fresh s) -> m !! p = cells s !! p) ->
  exists q b e, inserted_cells s (extended s m (S (S (fresh s))) (S (fresh s))) l t d z q b e.
Proof.
  intros Hl Hlf Hf He Hs Hz Hm1 Hm2 Hm3 Hm. eexists (fresh s), _, _.
  split; [done|done| | | |exact Hm2|done|exact Hm3| |]; cbn.
  - lia.
  - intros p Hp Hpf. apply Hm; lia.
  - intros p c Hp. destruct (decide (p = latest s)) as [->|]; [auto|].
    destruct (decide (p = fresh s)); [auto|]. destruct (decide (p = S (fresh s))); [auto|].
    left. rewrite Hm in Hp by done. eauto.
  - by rewrite He.
  - right. split_and!; try done. by eexists.
Qed.

Lemma insert_cells ch d t s L l s' b :
  Inv s L [] -> config_version ch = entry_config_version s ->
  cells s !! latest s = Some l -> UCE.insert_data ch (Some d) t s = (Val b, s') ->
  match placed (eventtype s) l t with
  | Some z => exists q b e, inserted_cells s s' l t d z q b e
  | None => s' = s
  end.
Proof.
  intros HI Hv Hl.
  destruct (split_last _ _ _ HI Hl) as (L0 & HL & _ & Hlf & _ & Hu & H1 & Hdl).
  assert (latest s <> fresh s /\ latest s <> S (fresh s)) as [Hne Hne'] by lia.
  destruct (i_fresh _ _ _ HI) as [Hf _].
  unfold UCE.insert_data. rewrite (bind_val _ _ _ s s) by reflexivity.
  rewrite (bind_val _ _ _ l s) by by apply cell_run. unfold placed, place.
  destruct (eventtype s) eqn:Ev.
  { destruct (fill_run ch s l d (validity_start t) 0 Hv Hl Hne) as (m & -> & Hm1 & Hm2 & Hm).
    intros [= _ <-]. eapply filled_cells; eauto. by rewrite Ev. }
  destruct (Z.eqb_spec (seq_id l) 1) as [E1|E1].
  { destruct (fill_run ch s l d (validity_start t) (validity_end t) Hv Hl Hne)
      as (m & -> & Hm1 & Hm2 & Hm).
    intros [= _ <-]. eapply filled_cells; eauto. by rewrite Ev. }
  destruct (Z.ltb_spec (time_or_time_end l) (validity_start t)) as [Eg|Eg].
  { destruct (gap_run ch s l d (validity_start t) (validity_end t) Hv Hl Hne Hne' Hdl)
      as (m & -> & Hm1 & Hm2 & Hm3 & Hm).
    intros [= _ <-]. by eapply gapped_cells. }
  destruct (time_or_time_end l <? validity_end t) eqn:Ea; [|by intros [= _ <-]].
  destruct (append_run ch s l d (validity_end t) Hv Hl Hne) as (m & -> & Hm1 & Hm2 & Hm).
  intros [= _ <-]. eapply filled_cells; eauto. by rewrite Ev.
Qed.

Lemma placed_before l t z :
  placed false l t = Some z -> validity_start t < validity_end t -> z < validity_end t.
Proof.
  unfold placed, place. destruct (seq_id l =? 1); [by intros [= <-]|].
  destruct (Z.ltb_spec (time_or_time_end l) (validity_start t)); [by intros [= <-]|].
  destruct (Z.ltb_spec (time_or_time_end l) (validity_end t)); [by intros [= <-]|done].
Qed.

(** Each cell after an insertion is an old one, the data, the sentinel, or the
    gap in the place of the old sentinel. *)
Lemma inserted_case s s' l t d z q b e p c :
  inserted_cells s s' l t d z q b e -> cells s' !! p = Some c ->
  p = q /\ c = b \/ p = latest s' /\ c = e
  \/ (p < fresh s)%nat /\ p <> latest s /\ cells s !! p = Some c
  \/ p = latest s /\ q = fresh s /\ eventtype s = false /\ seq_id l <> 1
     /\ time_or_time_end l < z /\ data c = None /\ seq_id c = 0
     /\ time_or_time_end c = time_or_time_end l /\ newer c = Some q.
Proof.
  intros HP Hp. destruct (p_dom _ _ _ _ _ _ _ _ _ HP p c Hp) as [Hlt|[->| ->]].
  - destruct (decide (p = latest s)) as [->|Hne].
    + destruct (p_where _ _ _ _ _ _ _ _ _ HP) as [(-> & _)|(-> & He & Hs & Hz & g & Hg & H1 & H2 & H3 & _ & H4)].
      * left. split; [done|]. pose proof (p_data _ _ _ _ _ _ _ _ _ HP). congruence.
      * right; right; right. assert (c = g) as -> by congruence. by split_and!.
    + right; right; left. split_and!; try done. by rewrite <- (p_old _ _ _ _ _ _ _ _ _ HP).
  - left. split; [done|]. pose proof (p_data _ _ _ _ _ _ _ _ _ HP). congruence.
  - right; left. split; [done|]. pose proof (p_sentinel _ _ _ _ _ _ _ _ _ HP). congruence.
Qed.

Lemma insert_tidy s s' l t d z q b e :
  Tidy s -> cells s !! latest s = Some l -> data l = None -> (latest s < fresh s)%nat ->
  is_u32 (seq_id l + 1) -> 1 <= seq_id l -> unused d s -> placed (eventtype s) l t = Some z ->
  (eventtype s = false -> validity_start t < validity_end t) ->
  inserted_cells s s' l t d z q b e -> Tidy s'.
Proof.
  intros [Hl Hf1 Hn Ha Hp] Hls Hdl Hlf Hu Hl1 [Hud Huc] Hpl Hspan HP.
  pose proof (fun p c => inserted_case s s' l t d z q b e p c HP) as Hcase.
  destruct HP as [Pd Pe (Pf1 & Pf2 & Pf3) _ _ _ (Db & Tb & Sb & Nb) _ (De & Te & Ne & _ & Se) Pw].
  rewrite u32_id in Se by done.
  split.
  - intros p c r c0 Hc Hr Hc0. rewrite Pe. intros Hev Hs1.
    destruct (Hcase p c Hc) as [[-> ->]|[[-> ->]|[(Hpf & Hpn & Hps)|(-> & -> & _ & Hne1 & Hlz & _ & _ & Tc & Nc)]]].
    + assert (r = latest s') as -> by congruence.
      destruct (Hcase _ _ Hc0) as [[E _]|[[_ ->]|[(E & _)|(E & _)]]]; [|..|lia|lia].
      * lia.
      * rewrite Te, Tb. unfold sentinel_time. rewrite Hev in *. eapply placed_before; eauto.
    + congruence.
    + pose proof (Hn p c r Hps Hr) as Hrf.
      destruct (Hcase _ _ Hc0) as [[-> ->]|[[-> ->]|[(_ & _ & Hrs)|(-> & -> & _ & Hne1 & _ & _ & _ & Tc & _)]]].
      * destruct Pw as [(-> & _ & Hw)|(-> & _)]; [|lia].
        destruct Hw as [?|[?|Ez]]; [congruence|congruence|].
        rewrite Tb, Ez. eapply Hl; eauto. congruence.
      * lia.
      * eapply Hl; eauto.
      * rewrite Tc. eapply (Hl p c (latest s) l); eauto.
    + assert (r = fresh s) as -> by congruence.
      destruct (Hcase _ _ Hc0) as [[_ ->]|[[E _]|[(E & _)|(E & _)]]]; lia.
  - intros p c r c0 Hc Hr Hc0 Hs1.
    destruct (Hcase p c Hc) as [[-> ->]|[[-> ->]|[(Hpf & Hpn & Hps)|(-> & -> & _ & Hne1 & Hlz & _ & Sc & Tc & Nc)]]];
      [|congruence| |].
    + assert (r = latest s') as -> by congruence.
      destruct (Hcase _ _ Hc0) as [[E _]|[[_ ->]|[(E & _)|(E & _)]]]; lia.
    + pose proof (Hn p c r Hps Hr) as Hrf.
      destruct (Hcase _ _ Hc0) as [[-> ->]|[[-> ->]|[(_ & _ & Hrs)|(-> & -> & _ & _ & _ & _ & Sc & _)]]].
      * destruct Pw as [(-> & _ & Hw)|(-> & _)]; [|lia]. eapply Hf1; eauto. congruence.
      * lia.
      * eapply Hf1; eauto.
      * lia.
    + assert (r = fresh s) as -> by congruence.
      destruct (Hcase _ _ Hc0) as [[_ ->]|[[E _]|[(E & _)|(E & _)]]]; lia.
  - intros p c r Hc Hr.
    destruct (Hcase p c Hc) as [[-> ->]|[[-> ->]|[(Hpf & Hpn & Hps)|(-> & -> & _ & Hne1 & Hlz & _ & _ & Tc & Nc)]]].
    + assert (r = latest s') as -> by congruence. done.
    + congruence.
    + pose proof (Hn p c r Hps Hr). lia.
    + assert (r = fresh s) as -> by congruence. lia.
  - intros p c x Hc Hx. rewrite Pd.
    destruct (Hcase p c Hc) as [[-> ->]|[[-> ->]|[(_ & _ & Hps)|(_ & _ & _ & _ & _ & Hx' & _)]]];
      [congruence|congruence|by eapply Ha|congruence].
  - intros p r c c0 x Hc Hc0 Hx Hx0.
    destruct (Hcase p c Hc) as [[-> ->]|[[-> ->]|[(_ & _ & Hps)|(_ & _ & _ & _ & _ & Hx' & _)]]];
      [|congruence| |congruence];
    destruct (Hcase r c0 Hc0) as [[-> ->]|[[-> ->]|[(_ & _ & Hrs)|(_ & _ & _ & _ & _ & Hx' & _)]]];
      try congruence.
    + exfalso. eapply Huc; [exact Hrs|]. congruence.
    + exfalso. eapply Huc; [exact Hps|]. congruence.
    + by eapply Hp.
Qed.

(** ** A whole write *)

(** The same but for the counters, the clients and the bookkeeping. *)
Definition alike (s s' : Entry) : Prop :=
  core <$> cells s' = core <$> cells s /\ deleted s' = deleted s /\ eventtype s' = eventtype s
  /\ fresh s' = fresh s /\ latest s' = latest s.

Lemma alike_refl s : alike s s.
Proof. done. Qed.
Lemma alike_trans s1 s2 s3 : alike s1 s2 -> alike s2 s3 -> alike s1 s3.
Proof. intros (?&?&?&?&?) (?&?&?&?&?). split_and!; congruence. Qed.

Lemma release_alike p s s' : Cells.releaseReadAccess p s = (Val tt, s') -> alike s s'.
Proof.
  unfold Cells.releaseReadAccess. intros (c & s1 & (Hc & ->)%cell_inv & E)%bind_inv.
  rewrite (set_cell_accesses p c _ s Hc) in E. injection E as <-.
  apply shape_core, reaccess_shape.
Qed.

Lemma saveup_alike ch s s' : UCE.saveupRemoveInner ch s = (Val tt, s') -> alike s s'.
Proof.
  unfold UCE.saveupRemoveInner. destruct (clients_current ch); [|by intros [= <-]].
  intros ([] & s1 & [= <-] & (p & s2 & [= <- <-] & E)%bind_inv)%bind_inv.
  by apply release_alike in E.
Qed.

Record write_frame (s s2 s3 s' : Entry) (l : Cell) (t : TimeSpec) (d : nat) : Prop := {
  wf_lesser : lesser s s2;
  wf_same : eventtype s2 = eventtype s /\ fresh s2 = fresh s /\ latest s2 = latest s;
  wf_latest : cells s2 !! latest s2 = Some l;
  wf_insert : match placed (eventtype s) l t with
    | Some z => exists q b e, inserted_cells s2 s3 l t d z q b e
    | None => s3 = s2
    end;
  wf_alike : alike s3 s'
}.

Lemma newData_frame ch d t s L l s' :
  Inv s L [] -> quiet s -> config_version ch = entry_config_version s ->
  cells s !! latest s = Some l -> is_u32 (seq_id l + 1) ->
  UCE.newData ch (Some d) t s = (Val tt, s') ->
  exists s2 s3, write_frame s s2 s3 s' l t d.
Proof.
  intros HI Hq Hv Hl Hs E.
  destruct (cleaning_spec s L l (validity_start t) HI Hq Hl)
    as (s1 & L1 & o & E1 & E2 & HI2 & Hq2 & Hr & Hl2 & Hp2).
  set (s2 := set_ends _ o _ s1) in *. pose proof Hr as Hrest. unfold rest in Hrest.
  injection Hrest as _ Hfr _ _ Hev _ _ Hla _ _ _ _ Hcv _ _ _ _.
  destruct (insert_data_spec ch d t s2 L1 l HI2 Hq2 ltac:(cbn; congruence) Hl2 Hs) as (s3 & E3 & _).
  pose proof (insert_cells ch d t s2 L1 l s3 _ HI2 ltac:(cbn; congruence) Hl2 E3) as Hins.
  assert (eventtype s2 = eventtype s) as Hev2 by done. rewrite Hev2 in E3, Hins.
  exists s2, s3. split; [|done|done|done|].
  { apply recycle_lesser in E1 as [Hc Hd]. by split. }
  unfold UCE.newData in E. rewrite (bind_val _ _ _ s s) in E by reflexivity.
  rewrite (bind_val _ _ _ tt s1) in E by exact E1.
  rewrite (bind_val _ _ _ s1 s1) in E by reflexivity.
  rewrite (bind_val _ _ _ tt s2) in E by exact E2.
  rewrite (bind_val _ _ _ _ s3) in E by exact E3. cbv beta iota in E.
  destruct (bool_decide _); [|injection E as <-; apply alike_refl].
  rewrite (bind_val _ _ _ s3 s3) in E by reflexivity.
  apply bind_inv in E as ([] & s4 & E4 & E). apply (alike_trans _ s4).
  { case_bool_decide; [by apply saveup_alike in E4|]. injection E4 as <-. apply alike_refl. }
  rewrite notify_run in E. injection E as <-. done.
Qed.

Lemma newData_tidy s s2 s3 s' l t d L :
  Inv s L [] -> cells s !! latest s = Some l -> Tidy s -> unused d s ->
  is_u32 (seq_id l + 1) -> (eventtype s = false -> validity_start t < validity_end t) ->
  write_frame s s2 s3 s' l t d -> Tidy s'.
Proof.
  intros HI Hl HT Hu Hsq Hspan [Hle (Hev & Hfr & Hla) Hl2 Hins (Ec & Ed & Ee & Ef & _)].
  destruct (split_last _ _ _ HI Hl) as (_ & _ & _ & Hlf & _ & _ & Hl1 & Hdl).
  apply (Tidy_core s3); try done. apply (Tidy_lesser s s2) in HT; try done.
  destruct (placed (eventtype s) l t) as [z|] eqn:Ep; [|by subst].
  destruct Hins as (q & b & e & HP). eapply (insert_tidy s2); try done.
  - by rewrite Hfr, Hla.
  - by eapply unused_lesser.
  - by rewrite Hev.
  - by rewrite Hev.
Qed.

(** ** What lies behind a reader *)

(** The cell [p] starts at [ve], and the data right behind it are [prev]. *)
Definition stands (s : Entry) (p : nat) (ve : Z) (prev : nat) : Prop :=
  exists c q b, cells s !! p = Some c /\ older c = Some q /\ cells s !! q = Some b
    /\ (eventtype s = false -> time_or_time_end c = ve) /\ data b = Some prev
    /\ seq_id c <> 1.

Lemma stands_alike s s' p ve prev : alike s s' -> stands s p ve prev -> stands s' p ve prev.
Proof.
  intros (E & _ & Ee & _) (c & q & b & Hc & Ho & Hb & Ht & Hd & Hs).
  destruct (core_cell _ _ _ _ E Hc) as (c' & Hc' & Ec).
  destruct (core_cell _ _ _ _ E Hb) as (b' & Hb' & Eb).
  injection Ec as T _ O _ S. injection Eb as _ D _ _ _.
  exists c', q, b'. rewrite Ee, T, O, S, D. by split_and!.
Qed.

Lemma alike_cell s s' p c' : alike s s' -> cells s' !! p = Some c' ->
  exists c, cells s !! p = Some c /\ core c = core c'.
Proof. intros [E _] Hc. symmetry in E. by eapply core_cell. Qed.

(** A cell that was there before and is still there. *)
Lemma write_keeps s s2 s3 s' l t d p c c' :
  write_frame s s2 s3 s' l t d -> (p < fresh s)%nat -> p <> latest s ->
  cells s !! p = Some c -> cells s' !! p = Some c' -> core c' = core c.
Proof.
  intros [[Hle _] (Hev & Hfr & Hla) _ Hins Hal] Hpf Hpl Hc Hc'.
  destruct (alike_cell _ _ _ _ Hal Hc') as (c3 & Hc3 & <-).
  assert (cells s2 !! p = Some c3) as Hc2.
  { destruct (placed _ l t) as [z|]; [|congruence]. destruct Hins as (q & b & e & HP).
    rewrite <- (p_old _ _ _ _ _ _ _ _ _ HP); [done|congruence|lia]. }
  f_equal. apply (lookup_weaken _ _ _ _ Hc2) in Hle. congruence.
Qed.

Lemma write_latest s s2 s3 s' l t d c' :
  write_frame s s2 s3 s' l t d -> cells s' !! latest s = Some c' ->
  older c' = older l /\ (seq_id l <> 1 -> seq_id c' <> 1)
  /\ (eventtype s = false -> seq_id l <> 1 -> time_or_time_end c' = time_or_time_end l).
Proof.
  intros [_ (Hev & Hfr & Hla) Hl2 Hins Hal] Hc'.
  destruct (alike_cell _ _ _ _ Hal Hc') as (c & Hc & Ec). injection Ec as <- _ <- _ <-.
  rewrite <- Hla in Hc. destruct (placed _ l t) as [z|].
  - destruct Hins as (q & b & e & HP). pose proof (p_data _ _ _ _ _ _ _ _ _ HP) as Hb.
    destruct (p_data_is _ _ _ _ _ _ _ _ _ HP) as (_ & Tb & Sb & _).
    destruct (p_where _ _ _ _ _ _ _ _ _ HP) as [(-> & Ho & Hw)|(_ & _ & Hs & _ & g & Hg & _ & Sg & Tg & Og & _)].
    + assert (c = b) as -> by congruence. split_and!; [done|congruence|]. rewrite <- Hev.
      destruct Hw as [?|[?| ->]]; [congruence|congruence|done].
    + assert (c = g) as -> by congruence. split_and!; [done|lia|done].
  - subst. assert (c = l) as -> by congruence. done.
Qed.

Lemma stands_write s s2 s3 s' l t d L L' k cl p ve prev :
  Inv s L [] -> Inv s' L' [] -> cells s !! latest s = Some l -> clients s' = clients s ->
  clients s !! k = Some cl -> sequential_read cl = true -> read_index cl = Some p ->
  write_frame s s2 s3 s' l t d -> eventtype s' = eventtype s ->
  stands s p ve prev -> stands s' p ve prev.
Proof.
  intros HI HI' Hl Hcl Hk Hsr Hri HW Hev (c & q & b & Hc & Ho & Hb & Ht & Hd & Hs).
  destruct (i_fresh _ _ _ HI) as [Hf _].
  rewrite <- Hcl in Hk. destruct (seq_client _ _ _ _ _ HI' Hk Hsr) as (i & p' & Hat).
  pose proof (at_index_pos _ _ _ _ _ _ _ HI' Hat) as Hi.
  pose proof Hat as (_ & _ & Hri' & HL). assert (p' = p) as -> by congruence.
  destruct i as [|i]; [lia|].
  destruct (i_chain _ _ _ HI' _ _ HL) as (c' & Hc' & _ & Ho' & _). specialize (Ho' i eq_refl).
  assert (older c' = older c /\ seq_id c' <> 1
    /\ (eventtype s = false -> time_or_time_end c' = time_or_time_end c)) as (Eo & Es & Et).
  { destruct (decide (p = latest s)) as [->|Hne].
    - assert (c = l) as -> by congruence. destruct (write_latest _ _ _ _ _ _ _ _ HW Hc') as (?&?&?).
      split_and!; auto.
    - pose proof (write_keeps _ _ _ _ _ _ _ _ _ _ HW (Hf _ _ Hc) Hne Hc Hc') as E.
      injection E as T _ O _ S. split_and!; congruence. }
  assert (q <> latest s) as Hql.
  { intros ->. assert (b = l) as -> by congruence.
    destruct (split_last _ _ _ HI Hl) as (_ & _ & _ & _ & _ & _ & _ & Hdl). congruence. }
  rewrite Ho' in Eo. rewrite Ho in Eo.
  assert (q ∈ L') as Hq by (by eapply list_elem_of_lookup_2).
  destruct (in_cells _ _ _ _ HI' Hq) as (b' & Hb').
  pose proof (write_keeps _ _ _ _ _ _ _ _ _ _ HW (Hf _ _ Hb) Hql Hb Hb') as E.
  injection E as _ D _ _ _. exists c', q, b'. rewrite Hev. split_and!; try done; try congruence.
  intros He. rewrite Et by done. auto.
Qed.

(** ** Where the cells and the deleted data come from *)

Lemma write_cell s s2 s3 s' l t d p c' :
  write_frame s s2 s3 s' l t d -> cells s' !! p = Some c' ->
  (data c' = None \/ data c' = Some d \/ exists r c, cells s !! r = Some c /\ data c = data c')
  /\ (placed (eventtype s) l t = Some (time_or_time_end c')
      \/ time_or_time_end c' = sentinel_time (eventtype s) t
      \/ exists r c, cells s !! r = Some c /\ time_or_time_end c = time_or_time_end c').
Proof.
  intros [[Hle _] (Hev & Hfr & Hla) Hl2 Hins Hal] Hc'.
  destruct (alike_cell _ _ _ _ Hal Hc') as (c & Hc & Ec). injection Ec as <- <- _ _ _.
  assert (forall r x, cells s2 !! r = Some x -> cells s !! r = Some x) as Hw
    by (intros; by eapply lookup_weaken).
  destruct (placed (eventtype s) l t) as [z|]; [|subst; split; right; right; by eauto].
  destruct Hins as (q & b & e & HP).
  destruct (p_data_is _ _ _ _ _ _ _ _ _ HP) as (Db & Tb & _).
  destruct (p_sentinel_is _ _ _ _ _ _ _ _ _ HP) as (De & Te & _).
  destruct (inserted_case _ _ _ _ _ _ _ _ _ _ _ HP Hc)
    as [[-> ->]|[[-> ->]|[(_ & _ & Hps)|(_ & _ & _ & _ & _ & Dc & _ & Tc & _)]]].
  - split; [by right; left|left; by f_equal].
  - split; [by left|right; left; by rewrite Te, Hev].
  - split; right; right; eauto.
  - split; [by left|]. right; right. exists (latest s2), l. split; [by apply Hw|done].
Qed.

Lemma write_deleted s s2 s3 s' l t d x :
  write_frame s s2 s3 s' l t d -> x ∈ deleted s' ->
  x ∈ deleted s \/ exists p c, cells s !! p = Some c /\ data c = x.
Proof.
  intros [[_ Hd] _ _ Hins (_ & Ed & _)]. rewrite Ed.
  assert (deleted s3 = deleted s2) as ->.
  { destruct (placed _ l t); [|by subst]. destruct Hins as (q & b & e & HP).
    apply (p_deleted _ _ _ _ _ _ _ _ _ HP). }
  intros Hx. destruct (Hd x Hx) as [?|(p & c & Hp & Hc & _)]; [by left|right; by eauto].
Qed.

(** Data that are written are the last, with their end in the sentinel. *)
Lemma write_stands s s2 s3 s' l t d :
  write_frame s s2 s3 s' l t d -> is_u32 (seq_id l + 1) -> 1 <= seq_id l ->
  placed (eventtype s) l t <> None -> eventtype s' = eventtype s ->
  stands s' (latest s') (validity_end t) d.
Proof.
  intros [_ (Hev & Hfr & Hla) _ Hins Hal] Hu Hl1 Hp He'.
  destruct (placed _ l t) as [z|]; [|done]. destruct Hins as (q & b & e & HP).
  destruct (p_data_is _ _ _ _ _ _ _ _ _ HP) as (Db & _).
  destruct (p_sentinel_is _ _ _ _ _ _ _ _ _ HP) as (_ & Te & _ & Oe & Se).
  rewrite u32_id in Se by done. pose proof Hal as (_ & _ & _ & _ & ->).
  apply (stands_alike s3); [done|]. exists e, q, b.
  split_and!; [exact (p_sentinel _ _ _ _ _ _ _ _ _ HP)|done|exact (p_data _ _ _ _ _ _ _ _ _ HP)| |done|lia].
  rewrite (p_event _ _ _ _ _ _ _ _ _ HP). intros E. by rewrite Te, E.
Qed.

End Write.
