(* ===== verification/ChannelQueues.v ===== *)
(** A channel entry as a set of queues: the contract of sequential reading.

    An abstract machine keeps one queue per reader.  [implements] relates an
    entry of [ChannelEntry] to it; each operation of the entry does what the
    operation on queues does.  The file ends with what modelling showed for
    reading by time, for counting and for spinning to the last data. *)

From S2P Require Import Prelude TimeSpec ChannelEntry ChannelInv.
#[local] Open Scope Z_scope.

Section Queueing.
Context `{BuildConfig}.

(** ** Queues: what an entry promises to clients that read in sequence *)

(** The data a client has not yet taken, with their start times, and whether it
    is accessing the first. *)
Record Queue := mkQueue { items : list (Z * nat); in_access : bool }.

(** The queues by client; one more than the number of data stored; the end of
    validity of the last. *)
Record Queues := mkQueues { queues : gmap nat Queue; count : Z; ending : Z }.

Inductive Op :=
  | Write (d : nat) (t : TimeSpec)
  | Access (k : nat) (t : Z)
  | Release (k : nat)
  | ReleaseNoStep (k : nat)
  | FlushOne (k : nat)
  | FlushAll (k : nat)
  | SpinToLast (k : nat).

Inductive Result :=
  | Done
  | Got (x : option (Z * nat))
  | Dropped (n : Z).

Definition got (r : option nat * option TimeSpec) : option (Z * nat) :=
  match r with
  | (Some d, Some ts) => Some (validity_start ts, d)
  | _ => None
  end.

Definition exec (ch : Channel) (o : Op) : M Entry Result :=
  match o with
  | Write d t => UCE.newData ch (Some d) t;; mret Done
  | Access k t => r ← UCE.accessData k t; mret (Got (got r))
  | Release k => UCE.releaseData k;; mret Done
  | ReleaseNoStep k => UCE.releaseDataNoStep k;; mret Done
  | FlushOne k => n ← UCE.flushOne k; mret (Dropped n)
  | FlushAll k => n ← UCE.flushAll k; mret (Dropped n)
  | SpinToLast k => n ← UCE.spinToLast k; mret (Dropped n)
  end.

Fixpoint exec_all (ch : Channel) (l : list Op) : M Entry (list Result) :=
  match l with
  | [] => mret []
  | o :: l => r ← exec ch o; rs ← exec_all ch l; mret (r :: rs)
  end.

Definition put_queue (k : nat) (x : Queue) (q : Queues) : Queues :=
  mkQueues (<[k:=x]> (queues q)) (count q) (ending q).

(** [None]: the call breaks the rules of use (an unknown client, access while
    accessing, release without access, [spinToLast] with nothing to read). *)
Definition spec (event : bool) (o : Op) (q : Queues) : option (Queues * Result) :=
  match o with
  | Write d t =>
      Some (match place event (count q) (ending q) t with
            | Some z => mkQueues ((fun x => mkQueue (items x ++ [(z, d)]) (in_access x)) <$> queues q)
                          (count q + 1) (sentinel_time event t)
            | None => q
            end, Done)
  | Access k t =>
      match queues q !! k with
      | Some (mkQueue [] false) => Some (q, Got None)
      | Some (mkQueue ((z, d) :: l) false) =>
          if z <=? t then Some (put_queue k (mkQueue ((z, d) :: l) true) q, Got (Some (z, d)))
          else Some (q, Got None)
      | _ => None
      end
  | Release k =>
      match queues q !! k with
      | Some (mkQueue (x :: l) true) => Some (put_queue k (mkQueue l false) q, Done)
      | _ => None
      end
  | ReleaseNoStep k =>
      match queues q !! k with
      | Some (mkQueue l true) => Some (put_queue k (mkQueue l false) q, Done)
      | _ => None
      end
  | FlushOne k =>
      match queues q !! k with
      | Some (mkQueue [] false) => Some (q, Dropped 0)
      | Some (mkQueue (x :: l) false) => Some (put_queue k (mkQueue l false) q, Dropped 1)
      | _ => None
      end
  | FlushAll k =>
      match queues q !! k with
      | Some (mkQueue l false) =>
          Some (put_queue k (mkQueue [] false) q, Dropped (Z.of_nat (length l)))
      | _ => None
      end
  | SpinToLast k =>
      match queues q !! k with
      | Some (mkQueue l false) =>
          y ← list.last l;
          Some (put_queue k (mkQueue [y] false) q, Dropped (Z.of_nat (length l) - 1))
      | _ => None
      end
  end.

Fixpoint spec_all (event : bool) (l : list Op) (q : Queues) : option (Queues * list Result) :=
  match l with
  | [] => Some (q, [])
  | o :: l =>
      '(q, r) ← spec event o q;
      '(q, rs) ← spec_all event l q;
      Some (q, r :: rs)
  end.

(** The queue of a client of an entry. *)
Definition queue_of (s : Entry) (cl : Client) : option Queue :=
  if sequential_read cl then
    p ← read_index cl;
    Some (mkQueue (pending s p) (bool_decide (is_Some (accessed cl))))
  else None.

Record implements (event : bool) (ch : Channel) (s : Entry) (q : Queues) : Prop := {
  m_inv : exists L, Inv s L [];
  m_quiet : quiet s;
  m_event : eventtype s = event;
  m_valid : valid s = true;
  m_version : config_version ch = entry_config_version s;
  m_sentinel : exists l, cells s !! latest s = Some l
    /\ seq_id l = count q /\ time_or_time_end l = ending q;
  m_queues : forall k, queues q !! k = clients s !! k ≫= queue_of s
}.

Lemma put_queue_id k x q : queues q !! k = Some x -> put_queue k x q = q.
Proof. intros E. destruct q as [qs c e]. unfold put_queue. cbn in *. by rewrite insert_id. Qed.

(** The client behind a queue. *)
Lemma queue_client event ch s q L k x :
  implements event ch s q -> Inv s L [] -> queues q !! k = Some x ->
  exists cl i p, at_index s L k cl i p
    /\ x = mkQueue (pending s p) (bool_decide (is_Some (accessed cl))).
Proof.
  intros Hm HI Hx. rewrite (m_queues _ _ _ _ Hm) in Hx.
  destruct (clients s !! k) as [cl|] eqn:Hk; [|done]. cbn in Hx. unfold queue_of in Hx.
  destruct (sequential_read cl) eqn:Es; [|done].
  destruct (seq_client _ _ _ _ _ HI Hk Es) as (i & p & Hat).
  pose proof Hat as (_ & _ & Hr & _). rewrite Hr in Hx. injection Hx as <-.
  by exists cl, i, p.
Qed.

(** An operation of one client changes its queue only. *)
Lemma implements_client event ch s s' q L k cl' p' b :
  implements event ch s q -> Inv s' L [] -> shape s' = shape s ->
  clients s' = <[k:=cl']> (clients s) -> sequential_read cl' = true ->
  read_index cl' = Some p' -> (accessed cl' = None \/ accessed cl' = Some p' /\ is_Some (cells s !! p' ≫= data)) ->
  bool_decide (is_Some (accessed cl')) = b ->
  implements event ch s' (put_queue k (mkQueue (pending s p') b) q).
Proof.
  intros [(L0 & HI) Hq Hev Hv Hcv Hsent Hqs] HI' Hs Hc Hsr Hri Hac <-.
  destruct (shape_ends _ _ Hs) as (Hla & _ & _ & Hev' & Hv' & _ & _ & _ & _ & Hcore).
  assert (entry_config_version s' = entry_config_version s) as Hcv'.
  { unfold shape in Hs. by injection Hs. }
  split; [by exists L| |congruence|congruence|congruence| |].
  - intros j cl Hj Hsj. rewrite Hc in Hj. destruct (decide (k = j)) as [->|Hne].
    + rewrite lookup_insert_eq in Hj. injection Hj as <-.
      destruct Hac as [?|[E Hd]]; [by left|]. right. rewrite E, Hri. split; [done|].
      intros a [= <-]. by rewrite (data_core _ _ _ Hcore).
    + rewrite lookup_insert_ne in Hj by done. destruct (Hq j cl Hj Hsj) as [?|[E Hd]]; [by left|].
      right. split; [done|]. intros a Ha. rewrite (data_core _ _ _ Hcore). by apply Hd.
  - destruct Hsent as (l & Hl & Hsq & Ht). destruct (core_cell _ _ _ _ Hcore Hl) as (l' & Hl' & E).
    exists l'. rewrite Hla. injection E as -> _ _ _ ->. done.
  - intros j. cbn. rewrite Hc. destruct (decide (k = j)) as [->|Hne].
    + rewrite !lookup_insert_eq. cbn. unfold queue_of. rewrite Hsr, Hri. cbn.
      by rewrite (pending_shape _ _ _ Hs).
    + rewrite !lookup_insert_ne by done. rewrite Hqs. destruct (clients s !! j) as [cl|]; [|done].
      cbn. unfold queue_of. destruct (sequential_read cl); [|done].
      destruct (read_index cl); [|done]. cbn. by rewrite (pending_shape _ _ _ Hs).
Qed.

Lemma latest_pending s L : Inv s L [] -> pending s (latest s) = [].
Proof.
  intros HI. destruct (in_last _ _ _ HI) as [Hin Hl].
  destruct (in_cells _ _ _ _ HI Hin) as (c & Hc).
  rewrite (pending_chain _ _ _ _ _ HI Hl), (drop_S _ _ _ Hl).
  apply lookup_lt_Some in Hl as Hlt. rewrite drop_ge by lia. cbn. unfold data_of, item.
  destruct (i_chain _ _ _ HI _ _ Hl) as (c' & Hc' & _ & _ & (_ & Hk) & _).
  rewrite Hc'. cbn. rewrite bool_decide_true in Hk by lia. by destruct Hk as [-> _].
Qed.

Lemma write_step event ch s q d t :
  implements event ch s q -> count q + 1 < 4294967296 ->
  exists s' q', UCE.newData ch (Some d) t s = (Val tt, s')
    /\ spec event (Write d t) q = Some (q', Done) /\ implements event ch s' q'.
Proof.
  intros [(L & HI) Hq Hev Hv Hcv (l & Hl & Hsq & Ht) Hqs] Hb.
  destruct (split_last _ _ _ HI Hl) as (_ & _ & _ & _ & _ & Hu & H1 & Hdl). unfold is_u32 in Hu.
  destruct (newData_spec ch d t s L l HI Hq Hcv Hl ltac:(unfold is_u32; lia))
    as (s' & L' & E & [HI' Hq' Hf (l' & Hl' & Hnext) Hp _]).
  eexists s', _. split; [done|]. split; [reflexivity|].
  pose proof Hf as Hfields. unfold fixed in Hfields. injection Hfields as Hcl Hev' _ Hv' _ _ _ Hcv' _ _ _.
  unfold next_sentinel, stored, placed in *. rewrite Hev, Hsq, Ht in *.
  split; [by exists L'|done|congruence|congruence|congruence| |].
  - exists l'. split; [done|]. by destruct (place _ _ _ _).
  - intros k. rewrite Hcl. pose proof (Hqs k) as Hk.
    assert (queues match place event (count q) (ending q) t with
      | Some z => mkQueues ((fun x => mkQueue (items x ++ [(z, d)]) (in_access x)) <$> queues q)
                    (count q + 1) (sentinel_time event t)
      | None => q end !! k
      = (fun x => mkQueue (items x ++ match place event (count q) (ending q) t with
           Some z => [(z, d)] | None => [] end) (in_access x)) <$> queues q !! k) as ->.
    { destruct (place _ _ _ _); cbn; [apply lookup_fmap|].
      destruct (queues q !! k) as [[x b]|]; [|done]. cbn. by rewrite app_nil_r. }
    rewrite Hk. destruct (clients s !! k) as [cl|] eqn:Ek; [|done]. cbn. unfold queue_of.
    destruct (sequential_read cl) eqn:Es; [|done].
    destruct (read_index cl) as [p|] eqn:Er; [|done]. cbn. by rewrite (Hp k cl p).
Qed.

Lemma bool_decide_some_false {A} (o : option A) : bool_decide (is_Some o) = false -> o = None.
Proof. destruct o; [|done]. by rewrite bool_decide_true by eauto. Qed.

Lemma access_step event ch s q k t q' r :
  implements event ch s q -> spec event (Access k t) q = Some (q', r) ->
  exists s', exec ch (Access k t) s = (Val r, s') /\ implements event ch s' q'.
Proof.
  intros Hm Hsp. pose proof (m_inv _ _ _ _ Hm) as (L & HI). cbn in Hsp.
  destruct (queues q !! k) as [[l b]|] eqn:Hk; [|done].
  destruct (queue_client _ _ _ _ _ _ _ Hm HI Hk) as (cl & i & p & Hat & Hx).
  injection Hx as Hl Hb. destruct b; [by destruct l as [|[]]|]. symmetry in Hb.
  apply bool_decide_some_false in Hb as Hac. pose proof Hat as (Hcl & Hs & Hr & _).
  destruct (access_sequential_spec s L k cl i p t HI Hat Hac)
    as (res & s' & j & x & c & E & Hj & Hc & HI' & Hsh & Hpe & Hseq & Hres).
  assert (exec ch (Access k t) s = (Val (Got (got res)), s')) as Eex.
  { unfold exec. rewrite (bind_val _ _ _ res s'); [done|]. unfold UCE.accessData.
    rewrite (bind_val _ _ _ s s) by reflexivity. rewrite (m_valid _ _ _ _ Hm). cbn [negb].
    rewrite (bind_val _ _ _ cl s) by by apply client_run. by rewrite Hs. }
  destruct (bool_decide (S j < length L)%nat && (time_or_time_end c <=? t)) eqn:Eb.
  - apply andb_prop in Eb as [Hlt%bool_decide_eq_true_1 Ht].
    destruct Hres as ((d & ts & -> & Hd & Hpend & Hts) & Hcl').
    rewrite Hl, Hpend, Ht in Hsp. injection Hsp as <- <-.
    exists s'. split; [rewrite Eex; cbn; by rewrite Hts|].
    rewrite <- Hpend, <- Hpe.
    eapply (implements_client _ _ s s' q L k _ x); [done|done|done|exact Hcl'|done|done| |done].
    right. split; [done|]. rewrite Hc. cbn. rewrite Hd. eauto.
  - destruct Hres as [-> Hcl'].
    assert (q' = q /\ r = Got None) as [-> ->].
    { destruct l as [|[z d] l]; [by injection Hsp as <- <-|].
      pose proof (data_some _ _ _ _ _ _ HI Hj Hc Hseq) as Hd.
      rewrite <- Hl in Hpe. rewrite (pending_chain _ _ _ _ _ HI Hj), (drop_S _ _ _ Hj) in Hpe.
      cbn in Hpe. unfold data_of at 1 in Hpe. rewrite Hc in Hpe. cbn in Hpe. unfold item at 1 in Hpe.
      apply lookup_lt_Some in Hj. case_bool_decide as Hlast.
      - by rewrite Hd, drop_ge in Hpe by lia.
      - rewrite bool_decide_true in Eb by lia. destruct Hd as (y & Hd). rewrite Hd in Hpe.
        injection Hpe as <- _ _. cbn in Eb. rewrite Eb in Hsp. by injection Hsp as <- <-. }
    exists s'. split; [done|].
    replace q with (put_queue k (mkQueue (pending s x) false) q)
      by (apply put_queue_id; congruence).
    eapply (implements_client _ _ s s' q L k
      (mkClient true (Some x) (link_seq_id cl) None) x); try done. by left.
Qed.

Lemma open_client event ch s q L k l :
  implements event ch s q -> Inv s L [] -> queues q !! k = Some (mkQueue l true) ->
  exists cl i p c d, at_index s L k cl i p /\ l = pending s p /\ accessed cl = Some p
    /\ cells s !! p = Some c /\ data c = Some d.
Proof.
  intros Hm HI Hk. destruct (queue_client _ _ _ _ _ _ _ Hm HI Hk) as (cl & i & p & Hat & Hx).
  injection Hx as -> Hb. symmetry in Hb. apply bool_decide_eq_true_1 in Hb.
  pose proof Hat as (Hcl & Hs & Hr & Hi).
  destruct (m_quiet _ _ _ _ Hm k cl Hcl Hs) as [Hn|[Ha Hd]]; [by destruct Hb; congruence|].
  rewrite Hr in Ha. destruct (Hd p Ha) as (d & Hpd). unfold mbind in Hpd.
  destruct (cells s !! p) as [c|] eqn:Hc; [|done]. by exists cl, i, p, c, d.
Qed.

Lemma release_step event ch s q k q' r :
  implements event ch s q -> spec event (Release k) q = Some (q', r) ->
  exists s', exec ch (Release k) s = (Val r, s') /\ implements event ch s' q'.
Proof.
  intros Hm Hsp. pose proof (m_inv _ _ _ _ Hm) as (L & HI). cbn in Hsp.
  destruct (queues q !! k) as [[[|x l] []]|] eqn:Hk; try done. injection Hsp as <- <-.
  destruct (open_client _ _ _ _ _ _ _ Hm HI Hk) as (cl & i & p & c & d & Hat & Hl & Ha & Hc & Hd).
  pose proof Hat as (_ & _ & _ & Hi).
  rewrite (pending_tail _ _ _ _ _ _ _ HI Hi Hc Hd) in Hl. injection Hl as _ ->.
  assert (p <> latest s) as Hne.
  { intros ->. destruct (split_last _ _ _ HI Hc) as (_ & _ & _ & _ & _ & _ & _ & Hn). congruence. }
  pose proof (not_last _ _ _ _ _ HI Hi Hne) as Hlt.
  destruct (releaseData_seq s L k cl i p HI Hat Ha Hlt) as (s' & n & E & Hn & HI' & Hsh & Hcl').
  exists s'. split; [unfold exec; by rewrite (bind_val _ _ _ tt s')|].
  rewrite <- (pending_chain _ _ _ _ _ HI Hn).
  eapply (implements_client _ _ s s' q L k _ n false); [done|done|done|exact Hcl'|done|done|by left|done].
Qed.

Lemma release_no_step_step event ch s q k q' r :
  implements event ch s q -> spec event (ReleaseNoStep k) q = Some (q', r) ->
  exists s', exec ch (ReleaseNoStep k) s = (Val r, s') /\ implements event ch s' q'.
Proof.
  intros Hm Hsp. pose proof (m_inv _ _ _ _ Hm) as (L & HI). cbn in Hsp.
  destruct (queues q !! k) as [[l []]|] eqn:Hk; try done. injection Hsp as <- <-.
  destruct (open_client _ _ _ _ _ _ _ Hm HI Hk) as (cl & i & p & c & d & Hat & Hl & Ha & _ & _).
  destruct (releaseDataNoStep_seq s L k cl i p HI Hat Ha) as (s' & E & HI' & Hsh & Hcl').
  exists s'. split; [unfold exec; by rewrite (bind_val _ _ _ tt s')|]. rewrite Hl.
  pose proof Hat as (_ & Hs & Hr & _).
  eapply (implements_client _ _ s s' q L k _ p false);
    [done|done|done|exact Hcl'|exact Hs|exact Hr|by left|done].
Qed.

Lemma closed_client event ch s q L k l :
  implements event ch s q -> Inv s L [] -> queues q !! k = Some (mkQueue l false) ->
  exists cl i p, at_index s L k cl i p /\ l = pending s p /\ accessed cl = None.
Proof.
  intros Hm HI Hk. destruct (queue_client _ _ _ _ _ _ _ Hm HI Hk) as (cl & i & p & Hat & Hx).
  injection Hx as -> Hb. exists cl, i, p. split_and!; [done|done|].
  by apply bool_decide_some_false.
Qed.

Lemma flush_one_step event ch s q k q' r :
  implements event ch s q -> spec event (FlushOne k) q = Some (q', r) ->
  exists s', exec ch (FlushOne k) s = (Val r, s') /\ implements event ch s' q'.
Proof.
  intros Hm Hsp. pose proof (m_inv _ _ _ _ Hm) as (L & HI). cbn in Hsp.
  destruct (queues q !! k) as [[l []]|] eqn:Hk; [by destruct l| |done].
  destruct (closed_client _ _ _ _ _ _ _ Hm HI Hk) as (cl & i & p & Hat & Hl & Hac).
  destruct (decide (p = latest s)) as [->|Hne].
  - rewrite (latest_pending _ _ HI) in Hl. subst l. injection Hsp as <- <-.
    exists s. split; [|done]. unfold exec. rewrite (bind_val _ _ _ 0 s); [done|].
    unfold UCE.flushOne. rewrite (bind_val _ _ _ _ s) by by eapply sequential_client_run.
    cbv beta iota. rewrite (bind_val _ _ _ s s) by reflexivity. by rewrite bool_decide_true.
  - destruct (flushOne_spec _ _ _ _ _ _ HI Hat Hne) as (s' & n & E & HI' & Hsh & Hcl & x & Hp).
    rewrite Hl, Hp in Hsp. injection Hsp as <- <-. exists s'. split.
    { unfold exec. by rewrite (bind_val _ _ _ 1 s'). }
    pose proof Hat as (_ & Hs & _).
    eapply (implements_client _ _ s s' q L k _ n false); [done|done|done|exact Hcl|done|done| |].
    + left. exact Hac.
    + cbn. by rewrite Hac.
Qed.

Lemma flush_all_step event ch s q k q' r :
  implements event ch s q -> spec event (FlushAll k) q = Some (q', r) ->
  exists s', exec ch (FlushAll k) s = (Val r, s') /\ implements event ch s' q'.
Proof.
  intros Hm Hsp. pose proof (m_inv _ _ _ _ Hm) as (L & HI). cbn in Hsp.
  destruct (queues q !! k) as [[l []]|] eqn:Hk; try done. injection Hsp as <- <-.
  destruct (closed_client _ _ _ _ _ _ _ Hm HI Hk) as (cl & i & p & Hat & Hl & Hac).
  destruct (decide (p = latest s)) as [->|Hne].
  - rewrite (latest_pending _ _ HI) in Hl. subst l.
    exists s. rewrite put_queue_id by done. split; [|done]. unfold exec.
    rewrite (bind_val _ _ _ 0 s); [done|].
    unfold UCE.flushAll. rewrite (bind_val _ _ _ _ s) by by eapply sequential_client_run.
    cbv beta iota. rewrite (bind_val _ _ _ s s) by reflexivity. by rewrite bool_decide_true.
  - destruct (flushAll_spec _ _ _ _ _ _ HI Hat Hne) as (s' & E & HI' & Hsh & Hcl & Hp).
    exists s'. split.
    { unfold exec. rewrite (bind_val _ _ _ _ s') by exact E. by rewrite Hl. }
    pose proof Hat as (_ & Hs & _). rewrite <- Hp.
    eapply (implements_client _ _ s s' q L k _ (latest s) false);
      [done|done|done|exact Hcl|done|done| |].
    + left. exact Hac.
    + cbn. by rewrite Hac.
Qed.

Lemma spin_step event ch s q k q' r :
  implements event ch s q -> spec event (SpinToLast k) q = Some (q', r) ->
  exists s', exec ch (SpinToLast k) s = (Val r, s') /\ implements event ch s' q'.
Proof.
  intros Hm Hsp. pose proof (m_inv _ _ _ _ Hm) as (L & HI). cbn in Hsp.
  destruct (queues q !! k) as [[l []]|] eqn:Hk; try done.
  destruct (closed_client _ _ _ _ _ _ _ Hm HI Hk) as (cl & i & p & Hat & Hl & Hac).
  destruct (decide (p = latest s)) as [->|Hne].
  { rewrite (latest_pending _ _ HI) in Hl. by subst l. }
  destruct (spinToLast_spec _ _ _ _ _ _ HI Hat Hne)
    as (s' & x & y & E & HI' & Hsh & Hcl & Hp & Hlast).
  rewrite Hl, Hlast in Hsp. injection Hsp as <- <-. exists s'. split.
  { unfold exec. by rewrite (bind_val _ _ _ _ s') by exact E. }
  pose proof Hat as (_ & Hs & _). rewrite <- Hp.
  eapply (implements_client _ _ s s' q L k _ x false);
    [done|done|done|exact Hcl|done|done| |].
  - left. exact Hac.
  - cbn. by rewrite Hac.
Qed.

(** Every operation does what it does on queues. *)
Lemma exec_step event ch s q o q' r :
  implements event ch s q -> count q + 1 < 4294967296 -> spec event o q = Some (q', r) ->
  exists s', exec ch o s = (Val r, s') /\ implements event ch s' q' /\ count q' <= count q + 1.
Proof.
  intros Hm Hb Hsp.
  assert (count q' <= count q + 1) as Hcount.
  { clear -Hsp. destruct o; cbn in Hsp;
      repeat (case_match; simplify_option_eq; try lia). }
  destruct o as [d t|k t|k|k|k|k|k].
  - destruct (write_step event ch s q d t Hm Hb) as (s' & q2 & E & Hsp2 & Hm').
    rewrite Hsp in Hsp2. injection Hsp2 as <- ->. exists s'. split_and!; [|done|done].
    unfold exec. by rewrite (bind_val _ _ _ tt s').
  - destruct (access_step _ _ _ _ _ _ _ _ Hm Hsp) as (s' & ? & ?). by exists s'.
  - destruct (release_step _ _ _ _ _ _ _ Hm Hsp) as (s' & ? & ?). by exists s'.
  - destruct (release_no_step_step _ _ _ _ _ _ _ Hm Hsp) as (s' & ? & ?). by exists s'.
  - destruct (flush_one_step _ _ _ _ _ _ _ Hm Hsp) as (s' & ? & ?). by exists s'.
  - destruct (flush_all_step _ _ _ _ _ _ _ Hm Hsp) as (s' & ? & ?). by exists s'.
  - destruct (spin_step _ _ _ _ _ _ _ Hm Hsp) as (s' & ? & ?). by exists s'.
Qed.

Lemma exec_all_steps event ch l s q q' rs :
  implements event ch s q -> count q + Z.of_nat (length l) < 4294967296 ->
  spec_all event l q = Some (q', rs) ->
  exists s', exec_all ch l s = (Val rs, s') /\ implements event ch s' q'.
Proof.
  revert s q rs. induction l as [|o l IH]; intros s q rs Hm Hb Hsp; cbn in Hsp.
  { injection Hsp as <- <-. by exists s. }
  destruct (spec event o q) as [[q1 r]|] eqn:E1; [|done]. cbn in Hsp.
  destruct (spec_all event l q1) as [[q2 rs']|] eqn:E2; [|done]. cbn in Hsp.
  injection Hsp as <- <-. cbn [length] in Hb.
  destruct (exec_step _ _ _ _ _ _ _ Hm ltac:(lia) E1) as (s1 & Ex & Hm1 & Hc).
  destruct (IH s1 q1 rs' Hm1 ltac:(lia) E2) as (s2 & Ex2 & Hm2).
  exists s2. split; [|done]. cbn [exec_all]. rewrite (bind_val _ _ _ r s1) by exact Ex.
  by rewrite (bind_val _ _ _ rs' s2) by exact Ex2.
Qed.

(** ** Joining *)

(** A client that joins holds the latch taken for it. *)
Lemma join_spec s L o :
  Inv s L [o] -> o = oldest s -> Z.of_nat (size (clients s)) + 1 < 4294967000 ->
  Inv (set_clients <[fresh s:=mkClient true (Some o) 0 None]>
         (set_store (cells s) (S (fresh s)) (deleted s) s)) L [].
Proof.
  intros HI -> Hsz. destruct HI as [Hch Hnd Hh Hl Ho Hg [Hf1 Hf2] Hsm Hcl Hmo Hnu].
  assert (clients s !! fresh s = None) as Hn.
  { destruct (clients s !! fresh s) eqn:E; [|done]. pose proof (Hf2 _ _ E). lia. }
  split; try done.
  - intros i p Hi. destruct (Hch i p Hi) as (c & Hc & Hnw & Hol & Hk & Ha). exists c.
    split_and!; try done. rewrite Ha. f_equal. apply occ_perm. unfold all_latches. cbn.
    rewrite map_to_list_insert by done. cbn. rewrite app_nil_r.
    by rewrite <- Permutation_cons_append.
  - cbn. split; [intros p c E; pose proof (Hf1 p c E); lia|]. intros k c.
    destruct (decide (fresh s = k)) as [->|Hne]; [lia|]. rewrite lookup_insert_ne by done.
    intros E. pose proof (Hf2 k c E). lia.
  - cbn. rewrite map_size_insert_None by done. lia.
  - intros k cl. cbn. destruct (decide (fresh s = k)) as [->|Hne].
    + rewrite lookup_insert_eq. intros [= <-]. split; [done|]. cbn. exists (oldest s).
      split; [done|]. destruct Ho as (i & _ & Hi). exists i. split; [done|].
      intros j Hj. by rewrite (NoDup_lookup _ _ _ _ Hnd Hj Hi).
    + rewrite lookup_insert_ne by done. apply Hcl.
Qed.

Lemma add_client_spec s L :
  Inv s L [] -> Z.of_nat (size (clients s)) + 1 < 4294967000 ->
  exists s1, UCE.add_client true s
    = (Val (fresh s), set_clients <[fresh s:=mkClient true (Some (oldest s)) 0 None]>
                        (set_store (cells s1) (S (fresh s)) (deleted s) s1))
  /\ Inv (set_clients <[fresh s:=mkClient true (Some (oldest s)) 0 None]>
            (set_store (cells s1) (S (fresh s)) (deleted s) s1)) L []
  /\ shape s1 = shape s /\ clients s1 = clients s.
Proof.
  intros HI Hsz. pose proof (in_oldest _ _ _ HI) as Ho.
  destruct (lock_oldest_spec s L [] HI ltac:(cbn; lia)) as (s1 & E1 & HI1 & Hs1 & Hc1).
  destruct (increment_spec s1 L _ (oldest s) HI1 Ho ltac:(cbn; lia)) as (s2 & E2 & HI2 & Hs2 & Hc2).
  destruct (release_spec s2 L _ (oldest s) HI2 Ho ltac:(cbn; lia)) as (s3 & E3 & HI3 & Hs3 & Hc3).
  assert (shape s3 = shape s) as Hs by congruence.
  assert (clients s3 = clients s) as Hc by congruence.
  destruct (shape_ends _ _ Hs) as (_ & Hol & _ & _ & _ & _ & Hf & _).
  assert (deleted s3 = deleted s) as Hd by (unfold shape in Hs; by injection Hs).
  exists s3. split_and!; [|rewrite <- Hf, <- Hd; apply join_spec; [done|done|by rewrite Hc]|done|done].
  unfold UCE.add_client. rewrite (bind_val _ _ _ (Some (oldest s)) s3).
  2:{ rewrite (bind_val _ _ _ (oldest s) s3); [done|]. unfold UCE.latchSequentialRead.
      rewrite (bind_val _ _ _ (oldest s) s1) by exact E1.
      rewrite (bind_val _ _ _ tt s2) by exact E2.
      by rewrite (bind_val _ _ _ tt s3) by exact E3. }
  rewrite (bind_val _ _ _ s3 s3) by reflexivity. rewrite Hf, Hd. reflexivity.
Qed.

(** The new queue starts with all data from [oldest] on. *)
Lemma add_client_step event ch s q :
  implements event ch s q -> Z.of_nat (size (clients s)) + 1 < 4294967000 ->
  exists s', UCE.add_client true s = (Val (fresh s), s')
    /\ implements event ch s'
         (put_queue (fresh s) (mkQueue (pending s (oldest s)) false) q)
    /\ fresh s' = S (fresh s) /\ size (clients s') = S (size (clients s))
    /\ oldest s' = oldest s /\ latest s' = latest s.
Proof.
  intros [(L & HI) Hq Hev Hv Hcv (l & Hl & Hsq & Ht) Hqs] Hsz.
  destruct (add_client_spec s L HI Hsz) as (s1 & E & HI' & Hs & Hc).
  destruct (shape_ends _ _ Hs) as (Hla & Hol & _ & Hev' & Hv' & _ & _ & _ & _ & Hcore).
  assert (entry_config_version s1 = entry_config_version s) as Hcv' by (unfold shape in Hs; by injection Hs).
  assert (clients s !! fresh s = None) as Hn.
  { destruct (clients s !! fresh s) eqn:Ef; [|done]. pose proof (proj2 (i_fresh _ _ _ HI) _ _ Ef). lia. }
  eexists. split; [exact E|]. split_and!; [|done| |done|done].
  2:{ cbn. rewrite Hc. by rewrite map_size_insert_None. }
  split; [by exists L| |cbn; congruence|cbn; congruence|cbn; congruence| |].
  - intros j cl Hj Hsj. cbn in Hj. rewrite Hc in Hj. destruct (decide (fresh s = j)) as [<-|Hne].
    + rewrite lookup_insert_eq in Hj. injection Hj as <-. by left.
    + rewrite lookup_insert_ne in Hj by done. destruct (Hq j cl Hj Hsj) as [?|[Ea Hd]]; [by left|].
      right. split; [done|]. intros a Ha. cbn. rewrite (data_core s s1 a Hcore). by apply Hd.
  - destruct (core_cell _ _ _ _ Hcore Hl) as (l' & Hl' & El). exists l'. cbn.
    rewrite Hla. injection El as -> _ _ _ ->. done.
  - assert (forall p, pending (set_clients <[fresh s:=mkClient true (Some (oldest s)) 0 None]>
      (set_store (cells s1) (S (fresh s)) (deleted s) s1)) p = pending s p) as Hp.
    { intros p. by apply pending_core. }
    intros j. cbn. rewrite Hc. destruct (decide (fresh s = j)) as [<-|Hne].
    + rewrite !lookup_insert_eq. cbn. unfold queue_of. cbn. by rewrite Hp.
    + rewrite !lookup_insert_ne by done. rewrite Hqs. destruct (clients s !! j) as [cl|]; [|done].
      cbn. unfold queue_of. destruct (sequential_read cl); [|done].
      destruct (read_index cl); [|done]. cbn. by rewrite Hp.
Qed.

(** [n] clients on a new entry. *)
Fixpoint open_clients (n : nat) : M Entry unit :=
  match n with
  | O => mret tt
  | S n => open_clients n;; UCE.add_client true;; mret tt
  end.

Definition no_data (n : nat) : Queues :=
  mkQueues (gset_to_gmap (mkQueue [] false) (set_seq 2 n)) 1 0.

Lemma make_implements event writer res ch :
  config_version ch = 0 -> implements event ch (UCE.make event writer true res) (no_data 0).
Proof.
  intros Hv. split; try done.
  - exists [0%nat; 1%nat]. split.
    + intros [|[|i]] p Hp; [| |done]; injection Hp as <-; eexists;
        (split; [reflexivity|]); cbn; (split; [done|]).
      * split; [done|]. split; [split; [by unfold is_u32|by left]|].
        unfold all_latches, UCE.make, occ. cbn. by destruct (0 <? res).
      * split; [by intros [|j] ?; [|lia]|]. split; [by unfold is_u32|].
        unfold all_latches, UCE.make, occ. cbn. by destruct (0 <? res).
    + apply list.NoDup_cons. split; [by intros ?%list_elem_of_singleton|apply NoDup_singleton].
    + done.
    + done.
    + by exists 1%nat.
    + intros [|[|i]] p q c d Hp Hq; [|done|done]. injection Hp as <-. injection Hq as <-.
      cbn. intros [= <-] [= <-] _. cbn. split; [done|]. by right.
    + cbn. split; [|done]. intros p c [[<- _]|[_ Hc]]%lookup_insert_Some; [lia|].
      apply lookup_singleton_Some in Hc as [<- _]. lia.
    + change (clients _) with (∅ : gmap nat Client). rewrite map_size_empty. lia.
    + done.
    + done.
    + by intros [|i] a b.
  - cbn. by eexists.
Qed.

Lemma open_clients_spec event writer res ch n :
  config_version ch = 0 -> Z.of_nat n < 4294967000 ->
  exists s, open_clients n (UCE.make event writer true res) = (Val tt, s)
    /\ implements event ch s (no_data n) /\ fresh s = (2 + n)%nat
    /\ size (clients s) = n /\ oldest s = latest s.
Proof.
  intros Hv. induction n as [|n IH]; intros Hn.
  { exists (UCE.make event writer true res). split_and!; try done. by apply make_implements. }
  destruct IH as (s & E & Hm & Hf & Hsz & Ho); [lia|].
  destruct (add_client_step _ _ _ _ Hm) as (s' & E' & Hm' & Hf' & Hsz' & Ho' & Hla'); [lia|].
  exists s'. cbn [open_clients]. rewrite (bind_val _ _ _ tt s) by exact E.
  rewrite (bind_val _ _ _ (fresh s) s') by exact E'. split_and!; [done| |lia|lia|congruence].
  destruct (m_inv _ _ _ _ Hm) as (L & HI). rewrite Ho, (latest_pending _ _ HI), Hf in Hm'.
  unfold put_queue, no_data in *. cbn [queues count ending] in Hm'.
  by rewrite set_seq_S_end_union_L, gset_to_gmap_union_singleton.
Qed.

(** * The contract of sequential reading *)

(** C12: an entry with [n] sequential readers implements [n] queues.  Start with
    a new entry, open the readers and call writes, accesses, releases, flushes
    and spins in any order that keeps the rules of use: no call faults, every
    call returns what it returns on queues (the data and its start time, the
    number of data dropped), and each reader is left with exactly the data its
    queue holds.  Writes number less than 2^32 - 1. *)
Theorem channel_fifo event writer res n ch l q rs :
  config_version ch = 0 -> Z.of_nat n < 4294967000 -> Z.of_nat (length l) < 4294967295 ->
  spec_all event l (no_data n) = Some (q, rs) ->
  exists s0 s,
    open_clients n (UCE.make event writer true res) = (Val tt, s0)
    /\ exec_all ch l s0 = (Val rs, s)
    /\ forall k, clients s !! k ≫= queue_of s = queues q !! k.
Proof.
  intros Hv Hn Hl Hsp. destruct (open_clients_spec event writer res ch n Hv Hn) as (s0 & E & Hm & _).
  destruct (exec_all_steps _ _ l _ _ q rs Hm) as (s & Es & Hm'); [cbn [count no_data]; lia|done|].
  exists s0, s. split_and!; [done|done|]. intros k. symmetry. apply (m_queues _ _ _ _ Hm').
Qed.

(** C13: a write, from any state of the entry that satisfies the invariant and
    with no new configuration, ends without fault and keeps the invariant.
    Data that connects is appended for every reader under the start time the
    entry gives it: its own, or the end of the data before when they overlap.
    All triggers are then pulled and the transport is told, once.  Data that
    ends before the data already there is dropped without a notice. *)
Theorem newData_correct ch d t s L l :
  Inv s L [] -> quiet s -> config_version ch = entry_config_version s ->
  cells s !! latest s = Some l -> seq_id l < 4294967295 ->
  exists s' L', UCE.newData ch (Some d) t s = (Val tt, s') /\ written_to s s' L' l t d.
Proof.
  intros HI Hq Hv Hl Hs.
  destruct (split_last _ _ _ HI Hl) as (_ & _ & _ & _ & _ & Hu & H1 & _).
  unfold is_u32 in Hu.
  exact (newData_spec ch d t s L l HI Hq Hv Hl ltac:(unfold is_u32; lia)).
Qed.

(** * Questions about the data *)

(** for a sequential reader [haveVisibleSets] answers whether an access at
    that time would return data, but for one case: a reader that stands before
    a gap is told there is nothing, and [getNumVisibleSets] counts nothing,
    although data is pending and an access late enough returns it. *)
Theorem haveVisibleSets_gap s L k cl i p c t :
  Inv s L [] -> at_index s L k cl i p -> accessed cl = None -> valid s = true ->
  cells s !! p = Some c ->
  let answer := match pending s p with (z, _) :: _ => z <=? t | [] => false end in
  UCE.haveVisibleSets t (Some p) s = (Val (negb (seq_id c =? 0) && answer), s)
  /\ (seq_id c = 0 -> UCE.getNumVisibleSets t (Some p) s = (Val 0, s) /\ pending s p <> [])
  /\ exists r s', UCE.accessData k t s = (Val r, s')
     /\ got r = match pending s p with
                | (z, d) :: _ => if z <=? t then Some (z, d) else None
                | [] => None
                end.
Proof.
  intros HI Hat Ha Hv Hc answer. pose proof Hat as (Hk & Hs & Hr & Hi).
  destruct (i_chain _ _ _ HI i p Hi) as (c' & Hc' & Hn & _ & (Hu & Hkd) & _).
  rewrite Hc in Hc'. injection Hc' as <-.
  split; [|split].
  - unfold UCE.haveVisibleSets, UCE.visible. rewrite (bind_val _ _ _ c s) by by apply cell_run.
    destruct (data c) as [d|] eqn:Hd.
    + assert (1 <= seq_id c) as H1.
      { case_bool_decide; [by destruct Hkd|]. destruct Hkd as [[_ ?]|[? _]]; [congruence|done]. }
      destruct (Z.eqb_spec (seq_id c) 0); [lia|]. cbn [negb andb].
      unfold Cells.afterTick. rewrite (bind_val _ _ _ (t <? time_or_time_end c) s).
      2:{ by rewrite (bind_val _ _ _ c s) by by apply cell_run. }
      unfold answer. rewrite (pending_tail _ _ _ _ _ _ _ HI Hi Hc Hd).
      by rewrite Z.leb_antisym.
    + destruct (Z.eqb_spec (seq_id c) 0); [done|]. cbn [negb andb]. unfold answer.
      unfold is_u32 in Hu. pose proof (data_some _ _ _ _ _ _ HI Hi Hc ltac:(lia)) as Hds.
      case_bool_decide as Hlast; [|rewrite Hd in Hds; by destruct Hds].
      rewrite (pending_chain _ _ _ _ _ HI Hi), (drop_S _ _ _ Hi), drop_ge by lia. cbn.
      unfold data_of, item. rewrite Hc. cbn. by rewrite Hd.
  - intros Hz. assert (data c = None) as Hd.
    { case_bool_decide; [by destruct Hkd|]. destruct Hkd as [[_ ?]|[? _]]; [done|lia]. }
    split.
    + unfold UCE.getNumVisibleSets, UCE.count_visible.
      rewrite (bind_val _ _ _ c s) by by apply cell_run. by rewrite Hd.
    + destruct (skip_gap_spec _ _ _ _ _ _ _ HI Hat ltac:(cbn; lia))
        as (s1 & j & q & e & _ & Hj & Hij & He & H1 & _ & _ & _ & <-).
      assert (q <> p) by (intros ->; rewrite Hc in He; injection He as <-; lia).
      assert (S j < length L)%nat as Hlt.
      { destruct Hij as [->|[_ ?]]; [congruence|done]. }
      pose proof (data_some _ _ _ _ _ _ HI Hj He H1) as Hds.
      rewrite bool_decide_false in Hds by lia. destruct Hds as (d & Hde).
      by rewrite (pending_tail _ _ _ _ _ _ _ HI Hj He Hde).
  - destruct (access_sequential_spec s L k cl i p t HI Hat Ha)
      as (r & s' & j & q & e & E & Hj & He & _ & _ & Hpe & H1 & Hres).
    exists r, s'. split.
    { unfold UCE.accessData. rewrite (bind_val _ _ _ s s) by reflexivity. rewrite Hv. cbn [negb].
      rewrite (bind_val _ _ _ cl s) by by apply client_run. by rewrite Hs. }
    pose proof (data_some _ _ _ _ _ _ HI Hj He H1) as Hds.
    destruct (bool_decide (S j < length L)%nat && (time_or_time_end e <=? t)) eqn:Eb.
    + apply andb_prop in Eb as [_ Ht].
      destruct Hres as ((d & ts & -> & _ & -> & Hts) & _). cbn. by rewrite Ht, Hts.
    + destruct Hres as [-> _]. cbn. rewrite <- Hpe.
      apply lookup_lt_Some in Hj as Hlt. case_bool_decide as Hlast.
      * rewrite (pending_chain _ _ _ _ _ HI Hj), (drop_S _ _ _ Hj), drop_ge by lia. cbn.
        unfold data_of, item. rewrite He. cbn. by rewrite Hds.
      * rewrite bool_decide_true in Eb by lia. cbn in Eb. destruct Hds as (d & Hd).
        by rewrite (pending_tail _ _ _ _ _ _ _ HI Hj He Hd), Eb.
Qed.

(** [spinToLast] for a reader that has read everything does not stay where
    it is.  It returns 4294967295 and takes the reader back to the last data
    point, which is then read a second time. *)
Theorem spinToLast_all_read s L k cl i :
  Inv s L [] -> at_index s L k cl i (latest s) -> (2 <= i)%nat ->
  pending s (latest s) = []
  /\ exists s' x y, UCE.spinToLast k s = (Val 4294967295, s')
     /\ clients s' = <[k:=Cells.with_read_index (Some x) cl]> (clients s)
     /\ pending s' x = [y].
Proof.
  intros HI Hat H2. split; [by eapply latest_pending|]. pose proof Hat as (Hk & Hs & Hr & Hi).
  apply lookup_lt_Some in Hi as Hil. destruct (in_last _ _ _ HI) as [Hin Hl].
  pose proof (NoDup_lookup _ _ _ _ (i_nodup _ _ _ HI) Hi Hl) as ->.
  destruct (lookup_lt_is_Some_2 L (length L - 2)) as (x0 & Hx0); [lia|].
  destruct (before_last _ _ _ _ _ HI Hx0 ltac:(lia) ltac:(lia))
    as (x & cx & l & Hcl & Hol & Hcx & Hx & Hlx & Hsx & (y & Hy) & Hlu).
  assert (x ∈ L) as HxL by by eapply list_elem_of_lookup_2.
  assert (x <> latest s) as Hne.
  { intros ->. pose proof (NoDup_lookup _ _ _ _ (i_nodup _ _ _ HI) Hl Hx). lia. }
  destruct (increment_spec _ _ _ _ HI HxL ltac:(cbn; lia)) as (s1 & E1 & HI1 & Hs1 & Hc1).
  destruct (shape_ends _ _ Hs1) as (_&_&_&_&_&_&_&_&_&Hcore1).
  destruct (core_cell _ _ _ _ Hcore1 Hcl) as (l1 & Hl1 & _).
  pose proof (release_run (latest s) l1 s1 Hl1) as E2. set (s2 := reaccess _ _ s1) in E2.
  set (s3 := set_clients <[k:=Cells.with_read_index (Some x) cl]> s2).
  assert (core <$> cells s3 = core <$> cells s) as Hcore.
  { pose proof (reaccess_shape (latest s) (u32 (read_accesses l1 - 1)) s1) as Hsh.
    destruct (shape_ends _ _ Hsh) as (_&_&_&_&_&_&_&_&_&Hc2). by rewrite <- Hcore1. }
  exists s3, x, (time_or_time_end cx, y). split_and!.
  - unfold UCE.spinToLast. rewrite (bind_val _ _ _ (cl, latest s) s) by by eapply sequential_client_run.
    cbv beta iota. rewrite (bind_val _ _ _ s s) by reflexivity.
    rewrite (bind_val _ _ _ l s) by by apply cell_run. rewrite Hol.
    rewrite bool_decide_false by done.
    rewrite (bind_val _ _ _ (latest s) s).
    2:{ unfold UCE.skip_gap. rewrite (bind_val _ _ _ l s) by by apply cell_run.
        destruct (Z.eqb_spec (seq_id l) 0); [lia|done]. }
    rewrite (bind_val _ _ _ cx s) by by apply cell_run.
    rewrite (bind_val _ _ _ l s) by by apply cell_run.
    rewrite (bind_val _ _ _ tt s3).
    + rewrite Hlx. by replace (seq_id cx - (seq_id cx + 1)) with (-1) by lia.
    + unfold UCE.move_latch. rewrite (bind_val _ _ _ tt s1) by exact E1.
      rewrite (bind_val _ _ _ tt s2) by exact E2.
      by rewrite (bind_val _ _ _ cl s2) by (apply client_run; cbn; by rewrite Hc1).
  - cbn. by rewrite Hc1.
  - rewrite (pending_core s s3 x Hcore).
    pose proof (pending_length _ _ _ _ _ _ _ HI Hx Hcx Hsx Hcl) as Hlen.
    rewrite (pending_tail _ _ _ _ _ _ _ HI Hx Hcx Hy) in *. cbn in Hlen.
    destruct (omap _ _); [done|cbn in Hlen; lia].
Qed.

(** ** The number after 4294967295 *)

Lemma latest_when_empty event ch s q L k :
  implements event ch s q -> Inv s L [] -> queues q !! k = Some (mkQueue [] false) ->
  exists cl, clients s !! k = Some cl /\ sequential_read cl = true
    /\ read_index cl = Some (latest s).
Proof.
  intros Hm HI Hk. destruct (closed_client _ _ _ _ _ _ _ Hm HI Hk) as (cl & i & p & Hat & Hl & _).
  pose proof Hat as (Hc & Hs & Hr & _). exists cl. split_and!; [done|done|].
  destruct (decide (p = latest s)) as [<-|Hne]; [done|].
  destruct (flushOne_spec _ _ _ _ _ _ HI Hat Hne) as (_ & n & _ & _ & _ & _ & x & Hp).
  by rewrite <- Hl in Hp.
Qed.

(** A reader at a cell numbered 0 without a successor. *)
Lemma access_zero s k cl p c t :
  valid s = true -> clients s !! k = Some cl -> sequential_read cl = true ->
  read_index cl = Some p -> cells s !! p = Some c -> seq_id c = 0 -> newer c = None ->
  fst (UCE.accessData k t s) = Stuck NullDeref.
Proof.
  intros Hv Hk Hs Hr Hc Hz Hn. unfold UCE.accessData.
  rewrite (bind_val _ _ _ s s) by reflexivity. rewrite Hv. cbn [negb].
  rewrite (bind_val _ _ _ cl s) by by apply client_run. rewrite Hs.
  unfold UCE.access_sequential. rewrite (bind_val _ _ _ s s) by reflexivity.
  rewrite (bind_val _ _ _ cl s) by by apply client_run. rewrite Hr.
  cbn [Cells.deref of_option]. rewrite mret_bind.
  rewrite (bind_val _ _ _ c s) by by apply cell_run. rewrite Hz. cbn [Z.eqb].
  unfold UCE.skip_gap, mbind, M_bind, Cells.cell. rewrite Hc, Hz. cbn. by rewrite Hn.
Qed.

(** Going on from a cell with data to the next. *)
Lemma flush_one_run s k cl p c n e :
  clients s !! k = Some cl -> sequential_read cl = true -> read_index cl = Some p ->
  p <> latest s -> cells s !! p = Some c -> seq_id c <> 0 -> newer c = Some n -> n <> p ->
  cells s !! n = Some e ->
  exists s', UCE.flushOne k s = (Val 1, s')
    /\ clients s' = <[k:=Cells.with_read_index (Some n) cl]> (clients s)
    /\ valid s' = valid s
    /\ cells s' !! n = Some (Cells.with_accesses (u32 (read_accesses e + 1)) e).
Proof.
  intros Hk Hs Hr Hne Hc Hz Hn Hnp He.
  set (s1 := reaccess n (u32 (read_accesses e + 1)) s).
  set (s2 := reaccess p (u32 (read_accesses c - 1)) s1).
  exists (set_clients <[k:=Cells.with_read_index (Some n) cl]> s2).
  split_and!; [|done|done|cbn; rewrite lookup_alter_ne, lookup_alter_eq, He by done; done].
  unfold UCE.flushOne, UCE.sequential_client.
  rewrite (bind_val _ _ _ (cl, p) s).
  2:{ rewrite (bind_val _ _ _ cl s) by by apply client_run.
      rewrite (bind_val _ _ _ tt s) by by apply dassert_true. by rewrite Hr. }
  cbv beta iota. rewrite (bind_val _ _ _ s s) by reflexivity. rewrite bool_decide_false by done.
  rewrite (bind_val _ _ _ p s).
  2:{ unfold UCE.skip_gap. rewrite (bind_val _ _ _ c s) by by apply cell_run.
      by destruct (Z.eqb_spec (seq_id c) 0). }
  rewrite (bind_val _ _ _ c s) by by apply cell_run. rewrite Hn.
  cbn [Cells.deref of_option]. rewrite mret_bind.
  rewrite (bind_val _ _ _ tt (set_clients <[k:=Cells.with_read_index (Some n) cl]> s2)); [done|].
  unfold UCE.move_latch. rewrite (bind_val _ _ _ tt s1) by by apply increment_run.
  rewrite (bind_val _ _ _ tt s2).
  2:{ apply release_run. cbn. by rewrite lookup_alter_ne. }
  by rewrite (bind_val _ _ _ cl s2) by by apply client_run.
Qed.

(** data points are numbered in 32 bits and the number 0 marks a gap.  The
    write that takes the number from 4294967295 to 0 still succeeds, but a
    reader that then reaches the end of the data takes the end for a gap and
    follows a null pointer, instead of being told there is no data. *)
Theorem seq_id_wraps ch s q k d t t' :
  implements true ch s q -> count q = 4294967295 -> saveup s = NoSaveUp ->
  queues q !! k = Some (mkQueue [] false) ->
  exists s1 s2, UCE.newData ch (Some d) t s = (Val tt, s1)
    /\ UCE.flushOne k s1 = (Val 1, s2)
    /\ fst (UCE.accessData k t' s2) = Stuck NullDeref.
Proof.
  intros Hm Hcount Hsu Hk. pose proof Hm as [(L & HI) Hq Hev Hv Hcv (l & Hl & Hsq & _) _].
  destruct (latest_when_empty _ _ _ _ _ _ Hm HI Hk) as (cl & Hcl & Hs & Hr).
  destruct (cleaning_spec s L l (validity_start t) HI Hq Hl)
    as (s1 & L1 & o & E1 & E2 & HI2 & _ & Hrest & Hl2 & _).
  set (s2 := set_ends _ o _ s1) in *. unfold rest in Hrest.
  injection Hrest as Hcl1 _ _ _ Hev1 Hhw Hval1 Hla1 _ Hsu1 _ _ Hcv1 _ _ _ _.
  destruct (split_last _ _ _ HI2 Hl2) as (_ & _ & _ & Hlf & _).
  destruct (fill_run ch s2 l d (validity_start t) 0) as (m & E3 & Hm1 & Hm2 & _);
    [cbn; congruence|exact Hl2|lia|].
  set (s3 := extended s2 m _ _) in E3.
  set (s4 := add_events (notices s3 t (seq_id l)) s3).
  assert (UCE.newData ch (Some d) t s = (Val tt, s4)) as E.
  { unfold UCE.newData. rewrite (bind_val _ _ _ s s) by reflexivity.
    rewrite (bind_val _ _ _ tt s1) by exact E1.
    rewrite (bind_val _ _ _ s1 s1) by reflexivity.
    rewrite (bind_val _ _ _ tt s2) by exact E2.
    rewrite (bind_val _ _ _ (true, seq_id l) s3).
    2:{ unfold UCE.insert_data. rewrite (bind_val _ _ _ s2 s2) by reflexivity.
        rewrite (bind_val _ _ _ l s2) by by apply cell_run.
        change (eventtype s2) with (eventtype s1). by rewrite Hev1, Hev. }
    cbv beta iota. rewrite (bind_val _ _ _ s3 s3) by reflexivity.
    rewrite bool_decide_false by (change (saveup s3) with (saveup s1); congruence).
    rewrite mret_bind. apply notify_run. }
  assert (latest s2 = latest s) as Hla2 by exact Hla1. rewrite Hla2 in *.
  match type of Hm1 with _ = Some ?c => set (c1 := c) in Hm1 end.
  match type of Hm2 with _ = Some ?c => set (c2 := c) in Hm2 end.
  destruct (flush_one_run s4 k cl (latest s) c1 (fresh s2) c2) as (s5 & E5 & Hcl5 & Hv5 & Hc5);
    [by cbn; rewrite Hcl1|done|done|change (latest s4) with (fresh s2); lia|exact Hm1|cbn; lia|done|lia|exact Hm2|].
  exists s4, s5. split_and!; [done|done|].
  eapply access_zero; [by rewrite Hv5; cbn; congruence|rewrite Hcl5; apply lookup_insert_eq
    |exact Hs|done|exact Hc5| |done].
  cbn. by rewrite Hsq, Hcount.
Qed.

End Queueing.

(** * Examples *)

#[local] Existing Instance test_config.

Definition ex_channel : Channel := mkChannel 0 0 true.

(** A write, a read, and a write after a gap. *)
Definition gap_ops : list Op :=
  [Write 100 (mkTS 10 20); Access 2 1000; Release 2; Write 102 (mkTS 40 50)].

Lemma channel_fifo_witness :
  exists s0 s,
    open_clients 1 (UCE.make false true true 0) = (Val tt, s0)
    /\ exec_all ex_channel (gap_ops ++ [Access 2 1000; Release 2; Access 2 1000]) s0
       = (Val [Done; Got (Some (10, 100%nat)); Done; Done; Got (Some (40, 102%nat)); Done; Got None], s)
    /\ forall k, clients s !! k ≫= queue_of s
       = queues (mkQueues {[2%nat := mkQueue [] false]} 3 50) !! k.
Proof.
  apply (channel_fifo false true 0 1 ex_channel
    (gap_ops ++ [Access 2 1000; Release 2; Access 2 1000]) (mkQueues {[2%nat := mkQueue [] false]} 3 50)
    [Done; Got (Some (10, 100%nat)); Done; Done; Got (Some (40, 102%nat)); Done; Got None]);
    [reflexivity|lia|cbn; lia|vm_compute; reflexivity].
Defined.

Lemma newData_correct_witness :
  exists s' L', UCE.newData ex_channel (Some 7%nat) (mkTS 10 20) (UCE.make false true true 0)
    = (Val tt, s')
  /\ written_to (UCE.make false true true 0) s' L' (mkCell 0 None (Some 0%nat) None 1 1) (mkTS 10 20) 7.
Proof.
  destruct (make_implements false true 0 ex_channel eq_refl) as [(L & HI) Hq _ _ _ _ _].
  apply (newData_correct ex_channel 7 (mkTS 10 20) _ L _ HI Hq);
    [reflexivity|reflexivity|cbn; lia].
Defined.

(** The states in which examples end satisfy the invariant. *)
Lemma ex_reached l q rs : Z.of_nat (length l) < 4294967295 ->
  spec_all false l (no_data 1) = Some (q, rs) ->
  exists s0 s, open_clients 1 (UCE.make false true true 0) = (Val tt, s0)
    /\ exec_all ex_channel l s0 = (Val rs, s) /\ implements false ex_channel s q.
Proof.
  intros Hl Hs. destruct (open_clients_spec false true 0 ex_channel 1 eq_refl ltac:(lia)) as (s0 & E & Hm & _).
  destruct (exec_all_steps _ _ l _ _ q rs Hm) as (s & Es & Hm'); [cbn [count no_data]; lia|done|].
  by exists s0, s.
Qed.

Lemma haveVisibleSets_gap_witness :
  exists s cl p, clients s !! 2%nat = Some cl /\ read_index cl = Some p
    /\ UCE.haveVisibleSets MAX_TIMETICK (Some p) s = (Val false, s)
    /\ UCE.getNumVisibleSets MAX_TIMETICK (Some p) s = (Val 0, s)
    /\ pending s p = [(40, 102%nat)].
Proof.
  destruct (ex_reached gap_ops (mkQueues {[2%nat := mkQueue [(40, 102%nat)] false]} 3 50)
    [Done; Got (Some (10, 100%nat)); Done; Done]) as (s0 & s & E0 & E & Hm);
    [cbn; lia|vm_compute; reflexivity|].
  vm_compute in E0. injection E0 as <-. vm_compute in E. injection E as Es.
  pose proof (m_inv _ _ _ _ Hm) as (L & HI).
  destruct (closed_client _ _ _ _ _ 2 [(40, 102%nat)] Hm HI eq_refl) as (cl & i & p & Hat & Hp & Ha).
  pose proof Hat as (Hk & _ & Hr & Hi).
  destruct (in_cells _ _ _ p HI) as (c & Hc); [by eapply list_elem_of_lookup_2|].
  assert (seq_id c = 0) as Hz.
  { rewrite <- Es in Hk. vm_compute in Hk. injection Hk as <-. injection Hr as <-.
    rewrite <- Es in Hc. vm_compute in Hc. by injection Hc as <-. }
  destruct (haveVisibleSets_gap s L 2 cl i p c MAX_TIMETICK HI Hat Ha (m_valid _ _ _ _ Hm) Hc)
    as (Hv & Hn & _).
  exists s, cl, p. split_and!; [done|done| |by apply Hn|done]. rewrite Hv, Hz. reflexivity.
Defined.

Lemma spinToLast_all_read_witness :
  exists s s' cl x y, clients s !! 2%nat = Some cl /\ pending s (latest s) = []
    /\ UCE.spinToLast 2 s = (Val 4294967295, s')
    /\ clients s' = <[2%nat:=Cells.with_read_index (Some x) cl]> (clients s)
    /\ pending s' x = [y].
Proof.
  destruct (ex_reached [Write 100 (mkTS 10 20); Access 2 1000; Release 2]
    (mkQueues {[2%nat := mkQueue [] false]} 2 20)
    [Done; Got (Some (10, 100%nat)); Done]) as (s0 & s & E0 & E & Hm);
    [cbn; lia|vm_compute; reflexivity|].
  vm_compute in E0. injection E0 as <-. vm_compute in E. injection E as Es.
  pose proof (m_inv _ _ _ _ Hm) as (L & HI).
  destruct (latest_when_empty _ _ _ _ _ 2 Hm HI eq_refl) as (cl & Hk & Hs & Hr).
  destruct (seq_client _ _ _ _ _ HI Hk Hs) as (i & p & Hat). pose proof Hat as (_ & _ & Hr' & Hi).
  rewrite Hr in Hr'. injection Hr' as <-.
  assert (2 <= i)%nat as H2.
  { destruct (i_oldest _ _ _ HI) as (o & Ho & HLo).
    destruct (decide (i = o)) as [->|Hne].
    - rewrite Hi in HLo. rewrite <- Es in HLo. vm_compute in HLo. done.
    - destruct (at_ahead _ _ _ _ _ _ _ _ _ HI Hat (le_n i) Hi) as (i' & Hi' & Hle).
      pose proof (NoDup_lookup _ _ _ _ (i_nodup _ _ _ HI) Hi Hi') as <-. specialize (Hle o HLo). lia. }
  destruct (spinToLast_all_read s L 2 cl i HI Hat H2) as (Hp & s' & x & y & Hspin & Hc & Hpx).
  by exists s, s', cl, x, y.
Defined.

(** An entry with all but the last number used. *)
Definition worn : Entry :=
  mkEntry
    {[ 0%nat := mkCell 0 (Some 9%nat) None (Some 1%nat) 1 4294967294;
       1%nat := mkCell 0 None (Some 0%nat) None 2 4294967295 ]}
    3 [] 20 1 true true true 0 1 1 None NoSaveUp MAX_TIMETICK
    {[ 2%nat := mkClient true (Some 1%nat) 4294967294 None ]} [] 0 [] [] [] [].

Lemma worn_client k c : clients worn !! k = Some c ->
  k = 2%nat /\ c = mkClient true (Some 1%nat) 4294967294 None.
Proof. cbn. by intros [<- <-]%lookup_singleton_Some. Qed.

Lemma worn_implements :
  implements true ex_channel worn (mkQueues {[2%nat := mkQueue [] false]} 4294967295 0).
Proof.
  split; try done.
  - exists [0%nat; 1%nat]. split.
    + intros [|[|i]] p Hp; [| |done]; injection Hp as <-; eexists;
        (split; [reflexivity|]); (split; [done|]).
      * split; [done|]. split; [split; [by unfold is_u32|right; split; [done|by eexists]]|].
        vm_compute; reflexivity.
      * split; [by intros [|j] ?; [|lia]|]. split; [by unfold is_u32|]. vm_compute; reflexivity.
    + apply list.NoDup_cons. split; [by intros ?%list_elem_of_singleton|apply NoDup_singleton].
    + done.
    + done.
    + by exists 1%nat.
    + intros [|[|i]] p q c d Hp Hq; [|done|done]. injection Hp as <-. injection Hq as <-.
      cbn. by intros [= <-].
    + cbn. split.
      * intros p c [[<- _]|[_ Hc]]%lookup_insert_Some; [lia|].
        apply lookup_singleton_Some in Hc as [<- _]. lia.
      * intros k c [<- _]%lookup_singleton_Some. lia.
    + cbn. rewrite map_size_singleton. lia.
    + intros k c [-> ->]%worn_client. split; [done|]. exists 1%nat. split; [done|].
      exists 1%nat. split; [done|]. intros [|[|j]] Hj; [done|lia|done].
    + done.
    + intros [|[|i]] a b; [|done|done]. cbn. by intros [= <-] [= <-].
  - intros k c [-> ->]%worn_client _. by left.
  - cbn. by eexists.
  - intros k. cbn. destruct (decide (k = 2%nat)) as [->|Hne].
    + vm_compute. reflexivity.
    + by rewrite !lookup_singleton_ne.
Qed.

Lemma seq_id_wraps_witness :
  exists s1 s2, UCE.newData ex_channel (Some 5%nat) (mkTS 3 4) worn = (Val tt, s1)
    /\ UCE.flushOne 2 s1 = (Val 1, s2)
    /\ fst (UCE.accessData 2 9 s2) = Stuck NullDeref.
Proof.
  apply (seq_id_wraps ex_channel worn _ 2 5 (mkTS 3 4) 9 worn_implements); reflexivity.
Defined.
