(* ===== verification/ChannelTimed.v ===== *)
(** Reading a channel entry by time.

    A reader that does not read in sequence asks for the data at a tick.  The
    entry searches back from its newest data, with the oldest locked.  The file
    compares the search with a scan of the cells from new to old, and shows
    what happens when the oldest cell is a gap. *)

From S2P Require Import Prelude TimeSpec ChannelEntry ChannelInv ChannelQueues.
#[local] Open Scope Z_scope.

(** The newest cell that starts at or before [t], if it is not a gap; the list
    goes from new to old. *)
Fixpoint newest (m : gmap nat Cell) (t : Z) (l : list nat) : option nat :=
  match l with
  | [] => None
  | p :: l =>
      match m !! p with
      | Some c =>
          if time_or_time_end c <=? t then
            if bool_decide (is_Some (data c)) then Some p else None
          else newest m t l
      | None => None
      end
  end.

(** The cells from [oldest] to the newest data. *)
Definition visible_cells (s : Entry) (L : list nat) (o : nat) : list nat :=
  take (length L - 1 - o) (drop o L).

Section Timed.
Context `{BuildConfig}.

Lemma afterTick_run s p c t : cells s !! p = Some c ->
  Cells.afterTick p t s = (Val (t <? time_or_time_end c), s).
Proof. intros Hc. unfold Cells.afterTick. by rewrite (bind_val _ _ _ c s) by by apply cell_run. Qed.

Lemma beforeTick_run s p c t : cells s !! p = Some c ->
  Cells.beforeTick p t s = (Val (time_or_time_end c <=? t), s).
Proof. intros Hc. unfold Cells.beforeTick. by rewrite (bind_val _ _ _ c s) by by apply cell_run. Qed.

Lemma newest_step (l : list nat) n p m t : l !! n = Some p ->
  newest m t (reverse (take (S n) l)) =
  match m !! p with
  | Some c =>
      if time_or_time_end c <=? t then
        if bool_decide (is_Some (data c)) then Some p else None
      else newest m t (reverse (take n l))
  | None => None
  end.
Proof. intros Hp. by rewrite (take_S_r _ _ _ Hp), reverse_snoc. Qed.

(** The search from the [n]th cell behind the oldest. *)
Lemma search_spec s L h o lc t fuel n p c :
  Inv s L h -> L !! o = Some (oldest s) -> cells s !! oldest s = Some lc -> seq_id lc <> 0 ->
  L !! (o + n)%nat = Some p -> (S (o + n) < length L)%nat -> cells s !! p = Some c ->
  seq_id c <> 0 -> (n < fuel)%nat ->
  UCE.search fuel (oldest s) t (Some p) s
  = (Val (newest (cells s) t (reverse (take (S n) (drop o L)))), s).
Proof.
  intros HI Ho Hlc Hlz. revert n p c. induction fuel as [|fuel IH]; intros n p c Hp Hlt Hc Hz Hf; [lia|].
  assert (drop o L !! n = Some p) as Hd by by rewrite lookup_drop.
  rewrite (newest_step _ _ _ _ _ Hd), Hc.
  cbn [UCE.search]. cbn [Cells.deref of_option]. rewrite mret_bind.
  rewrite (bind_val _ _ _ _ s) by by apply afterTick_run.
  rewrite <- Z.leb_antisym. destruct (time_or_time_end c <=? t) eqn:Et.
  { destruct (i_chain _ _ _ HI _ _ Hp) as (c' & Hc' & _ & _ & (Hu & Hkd) & _).
    rewrite Hc in Hc'. injection Hc' as <-. rewrite bool_decide_false in Hkd by lia.
    destruct Hkd as [[? _]|[_ Hdc]]; [done|]. by rewrite bool_decide_true. }
  destruct n as [|n].
  { rewrite Nat.add_0_r, Ho in Hp. injection Hp as <-. by rewrite bool_decide_true. }
  rewrite bool_decide_false.
  2:{ intros ->. pose proof (NoDup_lookup _ _ _ _ (i_nodup _ _ _ HI) Ho Hp). lia. }
  rewrite (bind_val _ _ _ c s) by by apply cell_run.
  destruct (lookup_lt_is_Some_2 L (o + n)) as (q & Hq); [lia|].
  assert (L !! S (o + n) = Some p) as Hp' by by rewrite <- Hp, Nat.add_succ_r.
  rewrite (chain_prev _ _ _ _ _ _ _ HI Hq Hp' Hc). cbn [Cells.deref of_option]. rewrite mret_bind.
  destruct (in_cells s L h q HI) as (g & Hg); [by eapply list_elem_of_lookup_2|].
  rewrite (bind_val _ _ _ g s) by by apply cell_run.
  destruct (Z.eqb_spec (seq_id g) 0) as [Hgz|Hgz].
  2:{ apply (IH n q g); try done; lia. }
  destruct n as [|n].
  { rewrite Nat.add_0_r, Ho in Hq. injection Hq as <-. congruence. }
  assert (drop o L !! S n = Some q) as Hdq by by rewrite lookup_drop.
  rewrite (newest_step _ _ _ _ _ Hdq), Hg.
  rewrite (bind_val _ _ _ _ s) by by apply beforeTick_run.
  destruct (time_or_time_end g <=? t) eqn:Eg.
  { destruct (i_chain _ _ _ HI _ _ Hq) as (g' & Hg' & _ & _ & (_ & Hkd) & _).
    rewrite Hg in Hg'. injection Hg' as <-. rewrite bool_decide_false in Hkd by lia.
    destruct Hkd as [[_ ->]|[? _]]; [|lia]. by rewrite bool_decide_false by by intros []. }
  destruct (lookup_lt_is_Some_2 L (o + n)) as (x & Hx); [lia|].
  assert (L !! S (o + n) = Some q) as Hq' by by rewrite <- Hq, Nat.add_succ_r.
  rewrite (chain_prev _ _ _ _ _ _ _ HI Hx Hq' Hg).
  destruct (in_cells s L h x HI) as (cx & Hcx); [by eapply list_elem_of_lookup_2|].
  assert (seq_id cx <> 0) as Hxz.
  { intros E. destruct (i_gaps _ _ _ HI _ _ _ _ _ Hx Hq' Hcx Hg E). lia. }
  case_bool_decide as Hlock.
  2:{ apply (IH n x cx); try done; lia. }
  injection Hlock as ->. rewrite Hcx in Hlc. injection Hlc as <-.
  pose proof (NoDup_lookup _ _ _ _ (i_nodup _ _ _ HI) Ho Hx).
  assert (n = 0%nat) as -> by lia.
  rewrite (bind_val _ _ _ _ s) by by apply afterTick_run.
  destruct (Z.ltb_spec t (time_or_time_end cx)) as [Hlt'|Hge].
  - assert (drop o L !! 0%nat = Some (oldest s)) as Hd0 by (rewrite lookup_drop, Nat.add_0_r; done).
    rewrite (newest_step _ _ _ _ _ Hd0), Hcx. by destruct (Z.leb_spec (time_or_time_end cx) t); [lia|].
  - apply (IH 0%nat (oldest s) cx); try done; lia.
Qed.

Lemma newest_in m t (l : list nat) p : newest m t l = Some p ->
  p ∈ l /\ exists c, m !! p = Some c /\ time_or_time_end c <= t /\ is_Some (data c).
Proof.
  induction l as [|q l IH]; [done|]. cbn. destruct (m !! q) as [d|] eqn:Hq; [|done].
  destruct (Z.leb_spec (time_or_time_end d) t).
  - case_bool_decide; [|done]. intros [= <-]. split; [left|]. by exists d.
  - intros E. destruct (IH E). split; [by right|done].
Qed.

Lemma newest_core m m' t l : core <$> m' = core <$> m -> newest m' t l = newest m t l.
Proof.
  intros E. induction l as [|p l IH]; [done|]. cbn.
  assert ((core <$> m') !! p = (core <$> m) !! p) as Hp by by rewrite E.
  rewrite !lookup_fmap in Hp. destruct (m' !! p) as [c'|], (m !! p) as [c|]; cbn in Hp; try done.
  injection Hp as Ht Hd _ _ _. by rewrite Ht, Hd, IH.
Qed.

(** Latch a cell for a reader by time. *)
Lemma getData_spec s L k cl i p c h :
  Inv s L h -> clients s !! k = Some cl -> sequential_read cl = false -> accessed cl = None ->
  L !! i = Some p -> cells s !! p = Some c -> (S i < length L)%nat -> (length h < 90)%nat ->
  exists ts s', Cells.getData p k (eventtype s) s = (Val (data c, Some ts), s')
    /\ validity_start ts = time_or_time_end c /\ Inv s' L h /\ shape s' = shape s
    /\ clients s' = <[k:=Cells.with_accessed (Some p) cl]> (clients s).
Proof.
  intros HI Hk Hs Ha Hi Hc Hlt Hh.
  assert (p ∈ L) as HpL by by eapply list_elem_of_lookup_2.
  destruct (getAccess_spec _ _ _ _ HI HpL ltac:(lia)) as (s1 & E1 & HI1 & Hs1 & Hc1).
  destruct (shape_ends _ _ Hs1) as (_&Hol&_&Hev&_&_&_&_&_&Hcore).
  destruct (core_cell _ _ _ _ Hcore Hc) as (c1 & Hcell1 & Hcc).
  destruct (time_spec_run s1 L _ i p c1 (eventtype s) HI1 Hi Hcell1 Hlt) as (ts & Ets & Hts).
  assert (Cells.time_spec c (eventtype s) s1 = (Val ts, s1)) as Ets'.
  { rewrite <- Ets. unfold Cells.time_spec. injection Hcc as Ht _ _ Hn _.
    destruct (eventtype s); [by rewrite Ht|]. unfold Cells.getValidityEnd. by rewrite Hn, Ht. }
  destruct (set_client_spec s1 L (p :: h) k cl (Cells.with_accessed (Some p) cl) h)
    as (s2 & E2 & HI2 & Hs2 & Hc2); [done|by rewrite Hc1| | |].
  { apply client_ok_accessed; [|by intros ? [= <-]].
    rewrite Hol. exact (i_clients _ _ _ HI k cl Hk). }
  { unfold latch. cbn. rewrite Hs, Ha. done. }
  exists ts, s2. split_and!; [|injection Hcc as <- _ _ _ _; done|done|congruence|congruence].
  unfold Cells.getData. rewrite (bind_val _ _ _ cl s) by by apply client_run.
  rewrite (bind_val _ _ _ tt s) by (apply dassert_true; by rewrite bool_decide_true).
  rewrite (bind_val _ _ _ c s) by by apply cell_run.
  destruct (lookup_lt_is_Some_2 L (S i) Hlt) as (q & Hq).
  rewrite (chain_next _ _ _ _ _ _ HI Hi Hc), Hq.
  rewrite (bind_val _ _ _ true s1) by exact E1.
  rewrite (bind_val _ _ _ ts s1) by exact Ets'.
  by rewrite (bind_val _ _ _ tt s2) by exact E2.
Qed.

(** What [access_timed] does with the outcome of its search, as state [s1]
    was at the search. *)
Definition take_found (k : nat) (s1 : Entry) (x : option nat) : M Entry (option nat * option TimeSpec) :=
  match x with
  | None => mret Cells.nothing
  | Some ed =>
      r ← Cells.getData ed k (eventtype s1);
      (match fst r with
       | Some _ => e ← Cells.cell ed; cl ← Cells.client k;
                   Cells.set_client k (Cells.with_link_seq_id (seq_id e) cl)
       | None => mret tt
       end);;
      mret r
  end.

(** The search under the lock on the oldest cell, and what remains of the read
    when it is done. *)
Lemma timed_frame s L k cl o lc t :
  Inv s L [] -> clients s !! k = Some cl -> sequential_read cl = false ->
  valid s = true -> L !! o = Some (oldest s) -> (S o < length L)%nat ->
  cells s !! oldest s = Some lc -> seq_id lc <> 0 ->
  exists s1, Inv s1 L [oldest s] /\ shape s1 = shape s /\ clients s1 = clients s
    /\ forall r s2, Inv s2 L [oldest s] -> shape s2 = shape s ->
       take_found k s1 (newest (cells s) t (reverse (visible_cells s L o))) s1 = (Val r, s2) ->
       exists s', UCE.accessData k t s = (Val r, s') /\ Inv s' L [] /\ shape s' = shape s
         /\ clients s' = clients s2.
Proof.
  intros HI Hk Hs Hv Ho Hlt Hlc Hlz.
  destruct (i_oldest _ _ _ HI) as (o' & H1 & Ho').
  pose proof (NoDup_lookup _ _ _ _ (i_nodup _ _ _ HI) Ho Ho') as <-.
  destruct (before_last _ _ _ _ _ HI Ho H1 Hlt)
    as (p & c & l & Hl & Hol & Hc & Hp & _ & Hcs & (d & Hd) & _).
  destruct (lock_oldest_spec s L [] HI ltac:(cbn; lia)) as (s1 & E1 & HI1 & Hs1 & Hc1).
  destruct (shape_ends _ _ Hs1) as (Hla1&Hol1&_&Hev1&_&_&_&_&_&Hcore).
  destruct (core_cell _ _ _ _ Hcore Hl) as (l1 & Hl1 & Hcl).
  destruct (core_cell _ _ _ _ Hcore Hc) as (c1 & Hcell1 & Hcc).
  destruct (core_cell _ _ _ _ Hcore Hlc) as (lc1 & Hlc1 & Hclc).
  injection Hcl as _ _ Hold _ _. injection Hcc as _ Hdat _ _ Hseq.
  injection Hclc as _ _ _ _ Hlseq.
  exists s1. split_and!; [done..|].
  assert (UCE.search (S (S (size (cells s1)))) (oldest s) t (Some p) s1
    = (Val (newest (cells s) t (reverse (visible_cells s L o))), s1)) as Esearch.
  { rewrite <- Hol1. rewrite <- Hol1 in Ho, Hlc1. pose proof (L_size _ _ _ HI1).
    rewrite (search_spec s1 L [oldest s] o lc1 t _ (length L - 2 - o) p c1); try done; try lia.
    - rewrite (newest_core (cells s) _ _ _ Hcore). unfold visible_cells.
      by replace (S (length L - 2 - o)) with (length L - 1 - o)%nat by lia.
    - by replace (o + (length L - 2 - o))%nat with (length L - 2)%nat by lia. }
  intros r s2 HI2 Hs2 E2. pose proof (in_oldest _ _ _ HI) as Hin.
  destruct (release_spec s2 L [] (oldest s) HI2 Hin ltac:(cbn; lia)) as (s3 & E3 & HI3 & Hs3 & Hc3).
  exists s3. split_and!; [|done|congruence|done].
  unfold UCE.accessData. rewrite (bind_val _ _ _ s s) by reflexivity. rewrite Hv. cbn [negb].
  rewrite (bind_val _ _ _ cl s) by by apply client_run. rewrite Hs.
  unfold UCE.access_timed. rewrite (bind_val _ _ _ (oldest s) s1) by exact E1.
  rewrite (bind_val _ _ _ s1 s1) by reflexivity.
  rewrite (bind_val _ _ _ l1 s1) by (apply cell_run; by rewrite Hla1). rewrite Hold, Hol.
  cbn [Cells.deref of_option]. rewrite mret_bind.
  rewrite (bind_val _ _ _ c1 s1) by by apply cell_run. rewrite Hdat, Hd.
  rewrite (bind_val _ _ _ r s2).
  2:{ rewrite (bind_val _ _ _ _ s1) by exact Esearch. exact E2. }
  by rewrite (bind_val _ _ _ tt s3) by exact E3.
Qed.

(** Data that is found is latched for the reader. *)
Lemma take_found_spec s1 L os k cl i x cx :
  Inv s1 L [os] -> clients s1 !! k = Some cl -> sequential_read cl = false -> accessed cl = None ->
  L !! i = Some x -> (S i < length L)%nat -> cells s1 !! x = Some cx -> is_Some (data cx) ->
  exists ts s3, take_found k s1 (Some x) s1 = (Val (data cx, Some ts), s3)
    /\ validity_start ts = time_or_time_end cx /\ Inv s3 L [os] /\ shape s3 = shape s1
    /\ clients s3
       = <[k:=Cells.with_link_seq_id (seq_id cx) (Cells.with_accessed (Some x) cl)]> (clients s1).
Proof.
  intros HI1 Hk Hs Ha Hi Hlt Hcx (y & Hy).
  destruct (getData_spec s1 L k cl i x cx [os]) as (ts & s2 & E2 & Hts & HI2 & Hs2 & Hc2);
    try done; [cbn; lia|].
  set (cl2 := Cells.with_accessed (Some x) cl) in *.
  destruct (shape_ends _ _ Hs2) as (_&Hol2&_&_&_&_&_&_&_&Hcore2).
  destruct (core_cell _ _ _ _ Hcore2 Hcx) as (cx2 & Hcx2 & Hccx2).
  injection Hccx2 as _ _ _ _ Hsx2.
  assert (clients s2 !! k = Some cl2) as Hk2 by (rewrite Hc2; apply lookup_insert_eq).
  destruct (set_client_spec s2 L [os] k cl2 (Cells.with_link_seq_id (seq_id cx) cl2) [os])
    as (s3 & E3 & HI3 & Hs3 & Hc3);
    [done|done|exact (i_clients _ _ _ HI2 k cl2 Hk2)|done|].
  exists ts, s3. split_and!; [|done|done|congruence|by rewrite Hc3, Hc2, insert_insert_eq].
  unfold take_found. rewrite (bind_val _ _ _ _ s2) by exact E2. cbn [fst]. rewrite Hy.
  rewrite (bind_val _ _ _ tt s3); [done|].
  rewrite (bind_val _ _ _ cx2 s2) by by apply cell_run.
  rewrite (bind_val _ _ _ cl2 s2) by by apply client_run. rewrite Hsx2. exact E3.
Qed.


(** A new reader by time takes no latch. *)
Lemma join_timed s L :
  Inv s L [] -> Z.of_nat (size (clients s)) + 1 < 4294967000 ->
  exists s', UCE.add_client false s = (Val (fresh s), s') /\ Inv s' L []
    /\ clients s' = <[fresh s:=mkClient false None 0 None]> (clients s) /\ cells s' = cells s.
Proof.
  intros HI Hsz. exists (set_clients <[fresh s:=mkClient false None 0 None]>
    (set_store (cells s) (S (fresh s)) (deleted s) s)).
  split; [reflexivity|]. split; [|done].
  destruct HI as [Hch Hnd Hh Hl Ho Hg [Hf1 Hf2] Hsm Hcl Hmo Hnu].
  assert (clients s !! fresh s = None) as Hn.
  { destruct (clients s !! fresh s) eqn:E; [|done]. pose proof (Hf2 _ _ E). lia. }
  split; try done.
  - intros i p Hi. destruct (Hch i p Hi) as (c & Hc & Hnw & Hol & Hk & Ha). exists c.
    split_and!; try done. rewrite Ha. f_equal. apply occ_perm. unfold all_latches. cbn.
    by rewrite map_to_list_insert.
  - cbn. split; [intros p c E; pose proof (Hf1 p c E); lia|]. intros k c.
    destruct (decide (fresh s = k)) as [->|Hne]; [lia|]. rewrite lookup_insert_ne by done.
    intros E. pose proof (Hf2 k c E). lia.
  - cbn. rewrite map_size_insert_None by done. lia.
  - intros k cl. cbn. destruct (decide (fresh s = k)) as [->|Hne].
    + rewrite lookup_insert_eq. by intros [= <-].
    + rewrite lookup_insert_ne by done. apply Hcl.
Qed.

(** A stream with a gap between 20 and 31, of which the first data is old
    enough to be dropped when the last is written. *)
Definition stream_with_gap (d1 d2 d3 d4 : nat) : M Entry nat :=
  let ch := mkChannel 0 0 true in
  k ← UCE.add_client false;
  UCE.newData ch (Some d1) (mkTS 10 20);;
  UCE.newData ch (Some d2) (mkTS 31 32);;
  UCE.newData ch (Some d3) (mkTS 32 33);;
  UCE.newData ch (Some d4) (mkTS 33 34);;
  mret k.

(** the search by time does not stop at an oldest cell that is a gap, since
    only data cells are compared with it.  After four writes the oldest cell
    is a gap; a read at a tick before it then goes on to cells that are being
    recycled and ends in the use of a deleted cell. *)
Theorem timed_access_oldest_gap d1 d2 d3 d4 :
  exists k s, stream_with_gap d1 d2 d3 d4 (UCE.make false true true 0) = (Val k, s)
    /\ (exists g, cells s !! oldest s = Some g /\ seq_id g = 0)
    /\ fst (UCE.accessData k 5 s) = Stuck DanglingDeref.
Proof.
  destruct H as [[] hl].
  all: eexists _, _; split; [vm_compute; reflexivity|].
  all: split; [eexists; split; vm_compute; reflexivity|vm_compute; reflexivity].
Qed.

End Timed.

(** * Example *)

#[local] Existing Instance test_config.

