(* ===== verification/ChannelMsg.v ===== *)
(** The messages by which the ends of a channel agree on its configuration
    ([dueca/UChannelCommRequest.dco] with [UChannelCommRequestExtra.cxx]), and
    the part of [dueca/DataClassRegistry.cxx] that relates data classes to
    their parents. *)

From S2P Require Import Prelude Bytes Amorph Transport.
#[local] Open Scope Z_scope.

(** Names of classes and labels are their bytes. *)
Abbreviation text := (list Z).
Definition txt (s : string) : text :=
  (fun a => Z.of_N (Ascii.N_of_ascii a)) <$> String.list_ascii_of_string s.

(** [GlobalId()] *)
Definition no_id : GlobalId := mkId 255 65535.

Definition entry_end : Z := 65535.
Definition entry_any : Z := 65535.
Definition entry_bylabel : Z := 65534.

(** ** Data classes *)

(** The registry: the parent of each class, empty for a base class. *)
Abbreviation Registry := (gmap text text).

Definition getParent {W : Type} (reg : Registry) (c : text) : M W text :=
  match reg !! c with
  | Some p => mret p
  | None => throw DataObjectClassNotFound
  end.

(** The loops that climb from a class to its parents, with [f] at each. *)
Fixpoint climb {W : Type} (fuel : nat) (reg : Registry) (f : text -> M W bool) (c : text) : M W bool :=
  match fuel, c with
  | O, _ => stuck OutOfFuel
  | S _, [] => mret false
  | S fuel, _ =>
      stop ← f c;
      if stop : bool then mret true
      else p ← getParent reg c; climb fuel reg f p
  end.

(** The loop of [isCompatible]. *)
Fixpoint parents_compatible {W : Type} (fuel : nat) (reg : Registry) (try c : text) : M W bool :=
  match fuel with
  | O => stuck OutOfFuel
  | S fuel =>
      p ← getParent reg c;
      if bool_decide (p = try) then mret true
      else match p with
           | [] => mret false
           | _ => parents_compatible fuel reg try p
           end
  end.

Definition class_fuel (reg : Registry) : nat := S (S (size reg)).

(** [getEntry] looks the class up and [completeIndices] all of its parents. *)
Definition isCompatible {W : Type} (reg : Registry) (tryclass classname : text) : M W bool :=
  _ ← getParent reg classname;
  _ ← climb (class_fuel reg) reg (fun _ => mret false) classname;
  if bool_decide (tryclass = classname) then mret true
  else parents_compatible (class_fuel reg) reg tryclass classname.

(** A class with its parents, up to the base class. *)
Inductive lineage (reg : Registry) : text -> list text -> Prop :=
  | lineage_base c : c <> [] -> reg !! c = Some [] -> lineage reg c [c]
  | lineage_derived c p l :
      c <> [] -> reg !! c = Some p -> lineage reg p l -> c ∉ l -> lineage reg c (c :: l).

Lemma lineage_nonempty reg c l : lineage reg c l -> [] ∉ l.
Proof.
  induction 1 as [c Hc|c p l Hc _ _ IH _]; rewrite not_elem_of_cons; [|done].
  split; [done|apply not_elem_of_nil].
Qed.

Lemma lineage_lookup reg c l : lineage reg c l -> exists p, reg !! c = Some p.
Proof. destruct 1; eauto. Qed.

Lemma lineage_head reg c l : lineage reg c l -> exists l', l = c :: l'.
Proof. destruct 1; eauto. Qed.

Lemma lineage_unique reg c l : lineage reg c l -> forall l', lineage reg c l' -> l' = l.
Proof.
  induction 1 as [c Hc Hr|c p l Hc Hr Hl IH Hn]; intros l' H'; inversion H'; subst; try done.
  - assert (p = []) as -> by congruence. match goal with X : lineage _ _ _ |- _ => by inversion X end.
  - assert (p = []) as -> by congruence. by inversion Hl.
  - f_equal. apply IH. congruence.
Qed.

Lemma lineage_bound reg c l : lineage reg c l -> (length l <= size reg)%nat.
Proof.
  intros Hl. assert (NoDup l /\ forall x, x ∈ l -> x ∈ dom reg) as [Hn Hd].
  { induction Hl as [c Hc Hr|c p l Hc Hr Hl [IH1 IH2] Hn].
    - split; [by apply NoDup_singleton|]. intros x ->%list_elem_of_singleton.
      apply elem_of_dom. eauto.
    - split; [by constructor|]. intros x [->|Hx]%elem_of_cons; [|by apply IH2].
      apply elem_of_dom. eauto. }
  rewrite <- size_dom, <- (size_list_to_set (C:=gset text) l) by done.
  apply subseteq_size. intros x Hx. apply Hd. by apply elem_of_list_to_set in Hx.
Qed.

(** What a climb finds, when [f] looks only. *)
Lemma climb_run {W : Type} reg (f : text -> M W bool) (g : text -> bool) c l fuel (s : W) :
  lineage reg c l -> (forall x, f x s = (Val (g x), s)) -> (length l < fuel)%nat ->
  climb fuel reg f c s = (Val (existsb g l), s).
Proof.
  intros Hl Hf. revert fuel. induction Hl as [c Hc Hr|c p l Hc Hr Hl IH Hn]; intros fuel Hfu;
    (destruct fuel as [|[|fuel]]; [cbn in Hfu; lia..|]); destruct c as [|b c]; try done.
  - cbn [climb existsb]. rewrite (bind_val _ _ _ _ _ (Hf _)). destruct (g _); [done|].
    unfold getParent. by rewrite Hr.
  - change (climb (S (S fuel)) reg f (b :: c)) with
      (stop ← f (b :: c); if stop : bool then mret true
       else p ← getParent reg (b :: c); climb (S fuel) reg f p).
    rewrite (bind_val _ _ _ _ _ (Hf _)). cbn [existsb]. destruct (g _); [done|].
    rewrite (bind_val _ _ s p s) by (unfold getParent; by rewrite Hr).
    apply IH. cbn in Hfu. lia.
Qed.

Lemma isCompatible_run {W : Type} reg t c l (s : W) :
  lineage reg c l -> t <> [] -> isCompatible reg t c s = (Val (bool_decide (t ∈ l)), s).
Proof.
  intros Hl Ht. pose proof (lineage_bound _ _ _ Hl) as Hb.
  destruct (lineage_lookup _ _ _ Hl) as (p & Hp). unfold isCompatible.
  rewrite (bind_val _ _ s p s) by (unfold getParent; by rewrite Hp).
  erewrite (bind_val _ _ s _ s) by (eapply (climb_run _ _ (fun _ => false));
    [exact Hl|done|unfold class_fuel; lia]).
  destruct (lineage_head _ _ _ Hl) as (l' & El). case_bool_decide as E.
  { subst. rewrite bool_decide_true by (rewrite elem_of_cons; by left). done. }
  assert (forall fuel, (length l <= fuel)%nat ->
    parents_compatible fuel reg t c s = (Val (bool_decide (t ∈ l)), s)) as Hx.
  { clear l' El p Hp Hb. induction Hl as [c Hc Hr|c p l Hc Hr Hl IH Hn]; intros fuel Hf;
      (destruct fuel as [|fuel]; [cbn in Hf; lia|]); cbn [parents_compatible].
    - rewrite (bind_val _ _ s [] s) by (unfold getParent; by rewrite Hr).
      rewrite bool_decide_false by done. rewrite bool_decide_false; [done|].
      by intros ->%list_elem_of_singleton.
    - rewrite (bind_val _ _ s p s) by (unfold getParent; by rewrite Hr).
      destruct (lineage_head _ _ _ Hl) as (l' & El). destruct (decide (p = t)) as [E2|E2];
        [rewrite (bool_decide_true (p = t)) by done|rewrite (bool_decide_false (p = t)) by done].
      + subst. rewrite bool_decide_true; [done|]. rewrite !elem_of_cons. by right; left.
      + destruct p as [|b p]; [by inversion Hl|]. rewrite IH by (congruence || (cbn in Hf; lia)).
        do 2 f_equal. apply bool_decide_ext. rewrite elem_of_cons. split; [by right|].
        by intros [->|?]. }
  apply Hx. unfold class_fuel. lia.
Qed.

(** ** Messages *)

(** [UChannelMessageType], an enumeration over [uint8_t]. *)
Inductive MessageType :=
  | DiffData | FullData | FullDataReq | RemoveSaveupCmd | TimeJump
  | CleanEntryCmd | InvalidateEntryCmd | NewEntryConf | NewEndWelcome | DeleteEntryCmd
  | NewEntryReq | DeleteEntryReq | CleanEntryConf | NewClientNotif | LeaveClientNotif
  | NewEndJoins | DummyMessage
  | OtherType (z : Z).

#[export] Instance MessageType_eq_dec : EqDecision MessageType.
Proof. solve_decision. Defined.

Definition type_list : list MessageType :=
  [DiffData; FullData; FullDataReq; RemoveSaveupCmd; TimeJump; CleanEntryCmd;
   InvalidateEntryCmd; NewEntryConf; NewEndWelcome; DeleteEntryCmd; NewEntryReq;
   DeleteEntryReq; CleanEntryConf; NewClientNotif; LeaveClientNotif; NewEndJoins; DummyMessage].

Definition code (t : MessageType) : Z :=
  match t with
  | DiffData => 0 | FullData => 1 | FullDataReq => 2 | RemoveSaveupCmd => 3 | TimeJump => 4
  | CleanEntryCmd => 5 | InvalidateEntryCmd => 6 | NewEntryConf => 7 | NewEndWelcome => 8
  | DeleteEntryCmd => 9 | NewEntryReq => 10 | DeleteEntryReq => 11 | CleanEntryConf => 12
  | NewClientNotif => 13 | LeaveClientNotif => 14 | NewEndJoins => 15 | DummyMessage => 16
  | OtherType z => z
  end.
Definition of_code (z : Z) : MessageType := default (OtherType z) (type_list !! Z.to_nat z).

Record UChannelCommRequest := mkReq {
  type : MessageType;
  extra : Z;
  data0 : Z;
  data1 : Z;
  origin : GlobalId;
  dataclassname : text;
  entrylabel : text
}.

#[export] Instance UChannelCommRequest_eq_dec : EqDecision UChannelCommRequest.
Proof. solve_decision. Defined.

(** A message with the members that stay at their defaults. *)
Definition short (t : MessageType) (d0 d1 : Z) : UChannelCommRequest :=
  mkReq t 0 d0 d1 no_id [] [].

Definition isForEntry (m : UChannelCommRequest) : bool := code (type m) <=? code TimeJump.
Definition isForMaster (m : UChannelCommRequest) : bool := code NewEntryReq <=? code (type m).
Definition isForChannel (m : UChannelCommRequest) : bool :=
  (code CleanEntryCmd <=? code (type m)) && (code (type m) <=? code DeleteEntryCmd).

Section Pack.
Context `{BuildConfig}.

Definition pack_request (m : UChannelCommRequest) : M AS.AmorphStore unit :=
  packData (Vnum Cuint8 (code (type m)));;
  packData (Vnum Cuint16 (data0 m));;
  if code (type m) <=? code RemoveSaveupCmd then mret tt
  else
    packData (Vnum Cuint32 (data1 m));;
    if code (type m) <=? code TimeJump then mret tt
    else
      packData (Vnum Cuint8 (extra m));;
      pack_id (origin m);;
      packData (Vvstring (dataclassname m));;
      packData (Vvstring (entrylabel m)).

(** The constructor from a store. *)
Definition unpack_request : M ARS.AmorphReStore UChannelCommRequest :=
  t ← ARS.unPackData_uint8;
  d0 ← ARS.unPackData_uint16;
  if t <=? code RemoveSaveupCmd then mret (mkReq (of_code t) 0 d0 0 no_id [] [])
  else
    d1 ← ARS.unPackData_uint32;
    if t <=? code TimeJump then mret (mkReq (of_code t) 0 d0 d1 no_id [] [])
    else
      x ← ARS.unPackData_uint8;
      o ← unpack_id;
      c ← ARS.unPackData_vstring;
      l ← ARS.unPackData_vstring;
      mret (mkReq (of_code t) x d0 d1 o c l).

End Pack.

(** What is not sent has its default. *)
Definition request_ok (m : UChannelCommRequest) : Prop :=
  (match type m with OtherType z => 17 <= z < 256 | _ => True end) /\
  is_u8 (extra m) /\ is_u16 (data0 m) /\ is_u32 (data1 m) /\ id_ok (origin m) /\
  bytes_ok (dataclassname m) /\ bytes_ok (entrylabel m) /\
  (code (type m) <= code RemoveSaveupCmd -> data1 m = 0) /\
  (code (type m) <= code TimeJump ->
    extra m = 0 /\ origin m = no_id /\ dataclassname m = [] /\ entrylabel m = []).

Definition request_values (m : UChannelCommRequest) : list cvalue :=
  [Vnum Cuint8 (code (type m)); Vnum Cuint16 (data0 m)] ++
  (if code (type m) <=? code RemoveSaveupCmd then [] else [Vnum Cuint32 (data1 m)]) ++
  (if code (type m) <=? code TimeJump then []
   else [Vnum Cuint8 (extra m); Vnum Cuint8 (location (origin m));
         Vnum Cuint16 (object (origin m));
         Vvstring (dataclassname m); Vvstring (entrylabel m)]).

Definition request_bytes (m : UChannelCommRequest) : list Z := encodings (request_values m).

(** ** Round trip *)

Lemma code_of_code m : (match m with OtherType z => 17 <= z < 256 | _ => True end) ->
  of_code (code m) = m /\ is_u8 (code m).
Proof.
  destruct m; intros Hm; try (split; [reflexivity|unfold is_u8; cbn; lia]).
  cbn [code]. split; [|unfold is_u8; lia]. unfold of_code.
  by rewrite lookup_ge_None_2 by (cbn; lia).
Qed.

(** The bytes [bs] lie ahead in a buffer. *)
Definition lies_ahead (bs : list Z) (r : ARS.AmorphReStore) : Prop :=
  ars_ok r /\ ARS.index r + Z.of_nat (length bs) <= ARS.fill_level r /\
  exists rest, drop (Z.to_nat (ARS.index r)) (ARS.stor r) = bs ++ rest.

Lemma lies_ahead_prefix a b r : lies_ahead (a ++ b) r -> lies_ahead a r.
Proof.
  intros (Hr & Hl & rest & Hd). rewrite length_app in Hl. split_and!; [done|lia|].
  exists (b ++ rest). by rewrite Hd, <- app_assoc.
Qed.

Lemma lies_ahead_step a b r :
  lies_ahead (a ++ b) r -> lies_ahead b (step_index (Z.of_nat (length a)) r).
Proof.
  intros (Hr & Hl & rest & Hd). pose proof Hr as []. rewrite length_app in Hl. split_and!.
  - apply step_index_ok; (done || lia).
  - cbn. lia.
  - exists rest. cbn. rewrite Z2Nat.inj_add, Nat2Z.id, <- drop_drop, Hd by lia.
    by rewrite <- app_assoc, drop_app_length.
Qed.

Section RoundTrip.
Context `{BuildConfig}.

Lemma unpack_ahead v bs r :
  cvalue_ok v -> lies_ahead (encoding v ++ bs) r ->
  exists r', unPackData (typeof v) r = (Val v, r') /\ r' = step_index (esize v) r /\ lies_ahead bs r'.
Proof.
  intros Hv Ha. eexists. split_and!; [|reflexivity|by apply lies_ahead_step].
  destruct Ha as (Hr & Hl & rest & Hd). rewrite length_app in Hl.
  apply (unPackData_encoded v r (bs ++ rest)); [done|done|by rewrite Hd, <- app_assoc|unfold esize; lia].
Qed.

Lemma fmap_val {A B} (f : A -> B) (m : M ARS.AmorphReStore A) r b r' :
  (forall x y, f x = f y -> x = y) -> (exists a, b = f a) ->
  (f <$> m) r = (Val b, r') -> exists a, b = f a /\ m r = (Val a, r').
Proof.
  intros Hinj (a & ->). rewrite fmap_run. destruct (m r) as [[x|?|?] r2]; try done.
  intros [= E ->]. apply Hinj in E as ->. by exists a.
Qed.

Lemma uint8_ahead z bs r : is_u8 z -> lies_ahead (be_bytes 1 z ++ bs) r ->
  exists r', ARS.unPackData_uint8 r = (Val z, r') /\ r' = step_index 1 r /\ lies_ahead bs r'.
Proof.
  intros Hz Ha. destruct (unpack_ahead (Vnum Cuint8 z) bs r Hz Ha) as (r' & E & Er & Ha').
  cbn [typeof unPackData] in E. exists r'. split; [|done].
  apply fmap_val in E as (a & Ea & E); [by injection Ea as <-|congruence|by eexists].
Qed.
Lemma uint16_ahead z bs r : is_u16 z -> lies_ahead (be_bytes 2 z ++ bs) r ->
  exists r', ARS.unPackData_uint16 r = (Val z, r') /\ r' = step_index 2 r /\ lies_ahead bs r'.
Proof.
  intros Hz Ha. destruct (unpack_ahead (Vnum Cuint16 z) bs r Hz Ha) as (r' & E & Er & Ha').
  cbn [typeof unPackData] in E. exists r'. split; [|done].
  apply fmap_val in E as (a & Ea & E); [by injection Ea as <-|congruence|by eexists].
Qed.
Lemma uint32_ahead z bs r : is_u32 z -> lies_ahead (be_bytes 4 z ++ bs) r ->
  exists r', ARS.unPackData_uint32 r = (Val z, r') /\ r' = step_index 4 r /\ lies_ahead bs r'.
Proof.
  intros Hz Ha. destruct (unpack_ahead (Vnum Cuint32 z) bs r Hz Ha) as (r' & E & Er & Ha').
  cbn [typeof unPackData] in E. exists r'. split; [|done].
  apply fmap_val in E as (a & Ea & E); [by injection Ea as <-|congruence|by eexists].
Qed.
Lemma vstring_ahead c bs r : bytes_ok c -> lies_ahead (encoding (Vvstring c) ++ bs) r ->
  exists r', ARS.unPackData_vstring r = (Val c, r') /\ r' = step_index (esize (Vvstring c)) r
    /\ lies_ahead bs r'.
Proof.
  intros Hz Ha. destruct (unpack_ahead (Vvstring c) bs r Hz Ha) as (r' & E & Er & Ha').
  cbn [typeof unPackData] in E. exists r'. split; [|done].
  apply fmap_val in E as (a & Ea & E); [by injection Ea as <-|congruence|by eexists].
Qed.
Lemma id_ahead g bs r : id_ok g -> lies_ahead (id_bytes g ++ bs) r ->
  exists r', unpack_id r = (Val g, r') /\ r' = step_index 3 r /\ lies_ahead bs r'.
Proof.
  intros Hg Ha. pose proof (lies_ahead_step _ _ _ Ha) as Ha'.
  change (Z.of_nat (length (id_bytes g))) with 3 in Ha'.
  destruct Ha as (Hr & Hl & rest & Hd). rewrite length_app in Hl.
  change (length (id_bytes g)) with 3%nat in Hl. eexists. split_and!; [|reflexivity|done].
  apply (unpack_id_run g r (bs ++ rest)); [done|done|by rewrite Hd, <- app_assoc|lia].
Qed.

Lemma packs_request m : request_ok m -> packs (request_bytes m) (pack_request m).
Proof.
  intros (Ht & Hx & H0 & H1 & Ho & Hc & Hl & _). apply code_of_code in Ht as [_ Ht].
  unfold request_bytes, request_values, pack_request.
  assert (forall v vs k, cvalue_ok v -> packs (encodings vs) k ->
    packs (encodings (v :: vs)) (packData v;; k)) as Hv.
  { intros v vs k Hv Hk. change (encodings (v :: vs)) with (encoding v ++ encodings vs).
    apply packs_seq; [by apply encoding_ok|by apply packs_data|done]. }
  cbn [app]. apply Hv; [done|]. apply Hv; [done|].
  destruct (Z.leb_spec (code (type m)) (code RemoveSaveupCmd)) as [E1|E1].
  { rewrite (proj2 (Z.leb_le (code (type m)) (code TimeJump))) by (cbn in *; lia). apply packs_nil. }
  cbn [app]. apply Hv; [done|]. destruct (_ <=? _); [apply packs_nil|].
  apply Hv; [done|].
  change (encodings _) with (encoding (Vnum Cuint8 (location (origin m))) ++
    encoding (Vnum Cuint16 (object (origin m))) ++
    encodings [Vvstring (dataclassname m); Vvstring (entrylabel m)]).
  rewrite app_assoc. apply (packs_seq (id_bytes (origin m))); [apply id_bytes_ok|by apply packs_id|].
  apply Hv; [done|]. change (encodings _) with (encoding (Vvstring (entrylabel m)) ++ []).
  rewrite app_nil_r. by apply packs_data.
Qed.

Lemma step_zero r : step_index 0 r = r.
Proof. unfold step_index, ARS.set_index. rewrite Z.add_0_r. by destruct r. Qed.

Lemma request_back m bs r :
  request_ok m -> lies_ahead (request_bytes m ++ bs) r ->
  unpack_request r = (Val m, step_index (Z.of_nat (length (request_bytes m))) r).
Proof.
  intros (Ht & Hx & H0 & H1 & Ho & Hc & Hl & Hd1 & Hd) Ha.
  apply code_of_code in Ht as [Et Ht].
  assert (request_bytes m = be_bytes 1 (code (type m)) ++ be_bytes 2 (data0 m) ++
    (if code (type m) <=? code RemoveSaveupCmd then [] else be_bytes 4 (data1 m) ++
     (if code (type m) <=? code TimeJump then [] else be_bytes 1 (extra m) ++
      id_bytes (origin m) ++ encoding (Vvstring (dataclassname m)) ++
      encoding (Vvstring (entrylabel m))))) as Eb.
  { unfold request_bytes, request_values, encodings.
    destruct (Z.leb_spec (code (type m)) (code RemoveSaveupCmd)) as [E1|E1].
    - by rewrite (proj2 (Z.leb_le (code (type m)) (code TimeJump))) by (cbn in *; lia).
    - destruct (_ <=? _); [done|]. cbn [app fmap list_fmap mjoin list_join encoding width_of].
      unfold id_bytes. by rewrite !app_nil_r, <- !app_assoc. }
  rewrite Eb in *. rewrite <- !app_assoc in Ha. unfold unpack_request.
  destruct (uint8_ahead _ _ _ Ht Ha) as (r1 & E1 & Er1 & Ha1). rewrite (bind_val _ _ _ _ _ E1).
  destruct (uint16_ahead _ _ _ H0 Ha1) as (r2 & E2 & Er2 & Ha2). rewrite (bind_val _ _ _ _ _ E2).
  rewrite Et. destruct (Z.leb_spec (code (type m)) (code RemoveSaveupCmd)) as [L1|L1].
  { specialize (Hd1 L1). destruct (Hd ltac:(cbn in *; lia)) as (Dx & Do & Dc & Dl).
    subst r1 r2. rewrite step_step. destruct m; cbn in Hd1, Dx, Do, Dc, Dl. by subst. }
  rewrite <- ?app_assoc in Ha2.
  destruct (uint32_ahead _ _ _ H1 Ha2) as (r3 & E3 & Er3 & Ha3). rewrite (bind_val _ _ _ _ _ E3).
  destruct (Z.leb_spec (code (type m)) (code TimeJump)) as [L2|L2].
  { destruct (Hd L2) as (Dx & Do & Dc & Dl). subst r1 r2 r3. rewrite !step_step.
    destruct m; cbn in Dx, Do, Dc, Dl. by subst. }
  rewrite <- ?app_assoc in Ha3.
  destruct (uint8_ahead _ _ _ Hx Ha3) as (r4 & E4 & Er4 & Ha4). rewrite (bind_val _ _ _ _ _ E4).
  destruct (id_ahead _ _ _ Ho Ha4) as (r5 & E5 & Er5 & Ha5). rewrite (bind_val _ _ _ _ _ E5).
  destruct (vstring_ahead _ _ _ Hc Ha5) as (r6 & E6 & Er6 & Ha6). rewrite (bind_val _ _ _ _ _ E6).
  destruct (vstring_ahead _ _ _ Hl Ha6) as (r7 & E7 & Er7 & Ha7). rewrite (bind_val _ _ _ _ _ E7).
  subst. rewrite !step_step. destruct m. unfold mret, M_ret. do 2 f_equal.
  rewrite !length_app, !be_bytes_length. unfold esize. cbn [dataclassname entrylabel].
  change (length (id_bytes _)) with 3%nat. lia.
Qed.

End RoundTrip.
