(* ===== verification/ChannelMaster.v ===== *)
(** The master end of a channel, [dueca/UnifiedChannelMaster.hxx]/[.cxx]: it
    issues the ids of entries, keeps count of readers and reservations, and
    has entries cleaned at all ends before an id is used again.

    The master takes the requests of a queue one by one and writes commands to
    another; [Table] is what an end knows after a sequence of commands. *)

From S2P Require Import Prelude Transport ChannelMsg.
#[local] Open Scope Z_scope.

Module MA.

(** ** Data *)

Record EntryData := mkEntryData {
  active : bool;
  e_class : text;
  e_label : text;
  e_origin : Z;
  writerid : GlobalId;
  iseventtype : bool;
  reservations : Z;
  takes_reservations : bool
}.

Record CleaningData := mkCleaning { c_entry : Z; stilldirty : Z; round : Z }.

Record ClientData := mkClientData {
  cl_class : text;
  cl_label : text;
  cl_origin : Z;
  request_entry : Z;
  reservation : bool;
  reservation_used : bool
}.

Inductive EntryArity := Unspecified | SingleEntry | MultiEntry.

#[export] Instance EntryArity_eq_dec : EqDecision EntryArity.
Proof. solve_decision. Defined.

Record UnifiedChannelMaster := mkMaster {
  num_ends : Z;
  entries : list EntryData;
  to_be_cleaned : list CleaningData;
  reusable : list Z;
  arity : EntryArity;
  clients : list ClientData
}.

(** The constructor. *)
Definition make : UnifiedChannelMaster := mkMaster 0 [] [] [] Unspecified [].

Definition set_num_ends n m := mkMaster n (entries m) (to_be_cleaned m) (reusable m) (arity m) (clients m).
Definition set_entries l m := mkMaster (num_ends m) l (to_be_cleaned m) (reusable m) (arity m) (clients m).
Definition set_cleaning l m := mkMaster (num_ends m) (entries m) l (reusable m) (arity m) (clients m).
Definition set_reusable l m := mkMaster (num_ends m) (entries m) (to_be_cleaned m) l (arity m) (clients m).
Definition set_arity a m := mkMaster (num_ends m) (entries m) (to_be_cleaned m) (reusable m) a (clients m).
Definition set_clients l m := mkMaster (num_ends m) (entries m) (to_be_cleaned m) (reusable m) (arity m) l.

Definition with_reservations (n : Z) (e : EntryData) : EntryData :=
  mkEntryData (active e) (e_class e) (e_label e) (e_origin e) (writerid e) (iseventtype e) n
    (takes_reservations e).
(** [origin = 0; active = false;] *)
Definition deactivated (e : EntryData) : EntryData :=
  mkEntryData false (e_class e) (e_label e) 0 (writerid e) (iseventtype e) (reservations e)
    (takes_reservations e).
Definition used (c : ClientData) : ClientData :=
  mkClientData (cl_class c) (cl_label c) (cl_origin c) (request_entry c) (reservation c) true.

(** The constructor [EntryData(name, label, origin, iseventtype, reservations, writerid)]. *)
Definition new_entry (r : UChannelCommRequest) : EntryData :=
  mkEntryData true (dataclassname r) (entrylabel r) (data1 r) (origin r)
    (Z.testbit (extra r) 0) (data0 r) (negb (data0 r =? 0)).

Definition new_client (r : UChannelCommRequest) : ClientData :=
  mkClientData (dataclassname r) (entrylabel r) (data1 r) (data0 r) (Z.testbit (extra r) 0) false.

(** The queue of requests is taken from the front; [com] is written. *)
Definition W : Type := UnifiedChannelMaster * list UChannelCommRequest.

Definition master : M W UnifiedChannelMaster := gets fst.
Definition change (f : UnifiedChannelMaster -> UnifiedChannelMaster) : M W unit :=
  modify (fun w => (f w.1, w.2)).
Definition send (r : UChannelCommRequest) : M W unit := modify (fun w => (w.1, w.2 ++ [r])).

(** [entries[id]] of a vector. *)
Definition entry_at (id : Z) : M W EntryData :=
  m ← master;
  of_option OutOfBounds (if 0 <=? id then entries m !! Z.to_nat id else None).
Definition set_entry (id : Z) (e : EntryData) : M W unit :=
  change (fun m => set_entries (<[Z.to_nat id:=e]> (entries m)) m).

Section Process.
Context `{BuildConfig} (reg : Registry).

(** *** Matching a client with an entry *)

(** [ClientData::matches]; the client may be marked as used. *)
Definition matches (c : ClientData) (o : EntryData) (handle : Z) : M W (bool * ClientData) :=
  if negb (reservation c) || reservation_used c || negb (takes_reservations o) then mret (false, c)
  else
    found ← climb (class_fuel reg) reg (fun k => mret (bool_decide (k = cl_class c))) (e_class o);
    if negb found then mret (false, c)
    else if request_entry c =? entry_any then mret (true, c)
    else if (request_entry c =? entry_bylabel) && bool_decide (cl_label c = e_label o)
            || (request_entry c =? handle)
    then mret (true, used c)
    else mret (false, c).

(** *** Messages about an entry *)

Definition flags (single : bool) (e : EntryData) : Z :=
  Z.lor (if iseventtype e then 1 else 0)
    (Z.lor (if single then 2 else 0) (if reservations e =? 0 then 0 else 4)).

Definition sendNewEntryConf (id : Z) : M W unit :=
  e ← entry_at id;
  m ← master;
  if negb (active e) then mret tt
  else
    send (mkReq NewEntryConf (flags (bool_decide (arity m = SingleEntry)) e) id (e_origin e)
            (writerid e) (e_class e) (e_label e));;
    dassert (bool_decide (writerid e <> no_id)).

Definition send_remove_saveup (id : Z) : M W unit := send (short RemoveSaveupCmd id 0).

(** *** A new entry *)

(** The checks on the number of entries; [false] is the [break]. *)
Definition admit_entry (r : UChannelCommRequest) : M W bool :=
  m ← master;
  if Z.testbit (extra r) 1 then
    if bool_decide (arity m = Unspecified) && bool_decide (entries m = [])
    then change (set_arity SingleEntry);; mret true
    else mret false
  else mret (negb (bool_decide (arity m = SingleEntry))).

(** An id from [reusable] or a new one; none when all are in use. *)
Definition issue_id (record : EntryData) : M W (option Z) :=
  m ← master;
  match reusable m with
  | newid :: rest =>
      e ← entry_at newid;
      dassert (negb (active e));;
      set_entry newid record;;
      change (set_reusable rest);;
      mret (Some newid)
  | [] =>
      let n := Z.of_nat (length (entries m)) in
      if n <? entry_bylabel - 1
      then change (fun m => set_entries (entries m ++ [record]) m);; mret (Some n)
      else mret None
  end.

(** The loop over the waiting clients. *)
Fixpoint match_waiting (id : Z) (done todo : list ClientData) : M W unit :=
  match todo with
  | [] => mret tt
  | c :: todo =>
      e ← entry_at id;
      '(hit, c) ← matches c e id;
      change (set_clients (done ++ c :: todo));;
      (if hit && reservation c && negb (reservations e =? 0)
       then set_entry id (with_reservations (reservations e - 1) e) else mret tt);;
      match_waiting id (done ++ [c]) todo
  end.

Definition newEntryReq (r : UChannelCommRequest) : M W unit :=
  dassert (bool_decide (origin r <> no_id));;
  ok ← admit_entry r;
  if negb ok then mret tt
  else
    id ← issue_id (new_entry r);
    match id with
    | None => mret tt
    | Some newid =>
        sendNewEntryConf newid;;
        e ← entry_at newid;
        if reservations e =? 0 then mret tt
        else
          m ← master;
          match_waiting newid [] (clients m);;
          e ← entry_at newid;
          if reservations e =? 0 then send_remove_saveup newid else mret tt
    end.

(** *** Deleting and cleaning *)

(** [for (handle = entries.size(); handle--; )]: the last with this origin. *)
Fixpoint find_origin (provisional : Z) (n : nat) (l : list EntryData) : option nat :=
  match n with
  | O => None
  | S n =>
      match l !! n with
      | Some e => if e_origin e =? provisional then Some n else find_origin provisional n l
      | None => find_origin provisional n l
      end
  end.

Definition deleteEntryReq (r : UChannelCommRequest) : M W unit :=
  m ← master;
  match find_origin (data1 r) (length (entries m)) (entries m) with
  | None => mret tt
  | Some h =>
      let handle := Z.of_nat h in
      e ← entry_at handle;
      dassert (active e);;
      send (short InvalidateEntryCmd handle 0);;
      change (fun m => set_cleaning (to_be_cleaned m ++ [mkCleaning handle (num_ends m) 0]) m);;
      set_entry handle (deactivated e)
  end.

Definition cleanEntryConf (r : UChannelCommRequest) : M W unit :=
  m ← master;
  match to_be_cleaned m with
  | [] => stuck NullDeref
  | c :: rest =>
      if (round c =? data1 r) && (c_entry c =? data0 r) then
        let left := u32 (stilldirty c - 1) in
        if left =? 0 then
          change (fun m => set_cleaning rest (set_reusable (reusable m ++ [data0 r]) m));;
          send (short DeleteEntryCmd (data0 r) 0)
        else change (set_cleaning (mkCleaning (c_entry c) left (round c) :: rest))
      else mret tt
  end.

(** *** Ends and readers *)

(** [for (ii = entries.size(); ii--; ) sendNewEntryConf(com, ii)] *)
Fixpoint resend (n : nat) : M W unit :=
  match n with
  | O => mret tt
  | S n => sendNewEntryConf (Z.of_nat n);; resend n
  end.

Definition newEndJoins (r : UChannelCommRequest) : M W unit :=
  change (fun m => set_num_ends (u32 (num_ends m + 1)) m);;
  m ← master;
  send (short NewEndWelcome (data0 r) (num_ends m));;
  resend (length (entries m)).

(** The loop over the entries; the record is a copy, the client in the list
    stays unused. *)
Fixpoint match_entries (c : ClientData) (n : nat) : M W unit :=
  match n with
  | O => mret tt
  | S n =>
      let handle := Z.of_nat n in
      e ← entry_at handle;
      '(hit, c) ← matches c e handle;
      (if hit && negb (reservations e =? 0) then
         set_entry handle (with_reservations (reservations e - 1) e);;
         if reservations e =? 1 then send_remove_saveup handle else mret tt
       else mret tt);;
      match_entries c n
  end.

Definition newClientNotif (r : UChannelCommRequest) : M W unit :=
  let record := new_client r in
  change (fun m => set_clients (clients m ++ [record]) m);;
  if reservation record then m ← master; match_entries record (length (entries m)) else mret tt.

(** The client is erased from the list; there is nothing at the end of it. *)
Fixpoint erase_client (o : Z) (l : list ClientData) : option (list ClientData) :=
  match l with
  | [] => None
  | c :: l => if cl_origin c =? o then Some l else (c ::.) <$> erase_client o l
  end.

Definition leaveClientNotif (r : UChannelCommRequest) : M W unit :=
  m ← master;
  match erase_client (data1 r) (clients m) with
  | Some l => change (set_clients l)
  | None => dassert false;; stuck OutOfBounds
  end.

(** *** All requests *)

Definition handle (r : UChannelCommRequest) : M W unit :=
  match type r with
  | NewEntryReq => newEntryReq r
  | DeleteEntryReq => deleteEntryReq r
  | CleanEntryConf => cleanEntryConf r
  | NewEndJoins => newEndJoins r
  | NewClientNotif => newClientNotif r
  | LeaveClientNotif => leaveClientNotif r
  | _ => mret tt
  end.

(** [while (req.notEmpty()) { ... req.pop(); }] *)
Fixpoint process (req : list UChannelCommRequest) : M W unit :=
  match req with
  | [] => mret tt
  | r :: req => handle r;; process req
  end.

Definition sweep : M W unit :=
  m ← master;
  match to_be_cleaned m with
  | [] => mret tt
  | c :: rest =>
      let c' := mkCleaning (c_entry c) (num_ends m) (u32 (round c + 1)) in
      change (set_cleaning (c' :: rest));;
      send (short CleanEntryCmd (c_entry c') (round c'))
  end.

End Process.
(** ** What an end knows *)

(** Of an entry in use, its creation id, writer, class, label and kind. *)
Inductive Known :=
  | Live (o : Z) (writer : GlobalId) (class label : text) (event : bool)
  | Dead.

#[export] Instance Known_eq_dec : EqDecision Known.
Proof. solve_decision. Defined.

Abbreviation Table := (gmap Z Known).

(** The effect of a command at an end; [None] where the end has an assertion
    or uses an entry it does not have. *)
Definition obey (r : UChannelCommRequest) (t : Table) : option Table :=
  match type r with
  | NewEntryConf =>
      let k := Live (data1 r) (origin r) (dataclassname r) (entrylabel r) (Z.testbit (extra r) 0) in
      match t !! data0 r with
      | None => Some (<[data0 r:=k]> t)
      | Some (Live o w c l e) =>
          if bool_decide (k = Live o w c l e) then Some t else None
      | Some Dead => None
      end
  | InvalidateEntryCmd =>
      match t !! data0 r with Some (Live _ _ _ _ _) => Some (<[data0 r:=Dead]> t) | _ => None end
  | CleanEntryCmd => match t !! data0 r with Some Dead => Some t | _ => None end
  | DeleteEntryCmd => match t !! data0 r with Some Dead => Some (delete (data0 r) t) | _ => None end
  | RemoveSaveupCmd => match t !! data0 r with Some _ => Some t | None => None end
  | NewEndWelcome => Some t
  | _ => None
  end.

Fixpoint obey_all (l : list UChannelCommRequest) (t : Table) : option Table :=
  match l with
  | [] => Some t
  | r :: l => t ← obey r t; obey_all l t
  end.

(** The same from the books of the master. *)
Definition known (e : EntryData) : Known :=
  if active e then Live (e_origin e) (writerid e) (e_class e) (e_label e) (iseventtype e) else Dead.
Definition at_id (m : UnifiedChannelMaster) (id : Z) : option EntryData :=
  if 0 <=? id then entries m !! Z.to_nat id else None.
Definition books (m : UnifiedChannelMaster) (id : Z) : option Known :=
  if bool_decide (id ∈ reusable m) then None else known <$> at_id m id.

Definition agrees (t : Table) (m : UnifiedChannelMaster) : Prop :=
  forall id, t !! id = books m id.

(** ** Runs *)

Inductive Op := Request (r : UChannelCommRequest) | Sweep.

Definition exec `{BuildConfig} (reg : Registry) (o : Op) : M W unit :=
  match o with Request r => handle reg r | Sweep => sweep end.

(** What the ends promise about their requests: entries have a writer, a class
    that is registered and a creation id, an entry is not deleted while it has
    reservations open, confirmations are for an entry being cleaned, readers
    that leave have been there. *)
Definition legal (reg : Registry) (m : UnifiedChannelMaster) (o : Op) : Prop :=
  match o with
  | Sweep => True
  | Request r =>
      match type r with
      | NewEntryReq =>
          origin r <> no_id /\ data1 r <> 0 /\ 0 <= data0 r /\
          exists l, lineage reg (dataclassname r) l
      | DeleteEntryReq =>
          data1 r <> 0 /\
          forall e, e ∈ entries m -> e_origin e = data1 r -> reservations e = 0
      | CleanEntryConf => to_be_cleaned m <> []
      | LeaveClientNotif => exists c, c ∈ clients m /\ cl_origin c = data1 r
      | _ => True
      end
  end.

Inductive reach `{BuildConfig} (reg : Registry) : W -> Prop :=
  | reach_init : reach reg (make, [])
  | reach_step w o w' :
      reach reg w -> legal reg w.1 o -> exec reg o w = (Val tt, w') -> reach reg w'.

(** ** Invariant *)

Record ok (reg : Registry) (m : UnifiedChannelMaster) : Prop := {
  ok_dead : NoDup ((c_entry <$> to_be_cleaned m) ++ reusable m);
  ok_inactive id : id ∈ (c_entry <$> to_be_cleaned m) ++ reusable m <->
    exists e, at_id m id = Some e /\ active e = false;
  ok_entries : Forall (fun e => 0 <= reservations e /\
    (active e = false -> e_origin e = 0 /\ reservations e = 0) /\
    writerid e <> no_id /\ exists l, lineage reg (e_class e) l) (entries m);
  ok_size : Z.of_nat (length (entries m)) < entry_bylabel
}.

(** ** Runs of the parts *)

Section Facts.
Context `{BuildConfig} (reg : Registry).

Lemma entry_at_run id m com e :
  at_id m id = Some e -> entry_at id (m, com) = (Val e, (m, com)).
Proof.
  unfold at_id. intros He. unfold entry_at, master, gets. rewrite (bind_val _ _ _ m (m, com)) by done.
  cbn beta. by rewrite He.
Qed.

Lemma at_id_some m id e : at_id m id = Some e <-> 0 <= id /\ entries m !! Z.to_nat id = Some e.
Proof.
  unfold at_id. destruct (Z.leb_spec 0 id); [split; [done|by intros []]|]. split; [done|lia].
Qed.

Lemma at_id_in m id e : at_id m id = Some e -> e ∈ entries m.
Proof. intros [_ He]%at_id_some. by apply list_elem_of_lookup_2 in He. Qed.

Lemma at_id_nat m n : at_id m (Z.of_nat n) = entries m !! n.
Proof. unfold at_id. by rewrite (proj2 (Z.leb_le 0 _)), Nat2Z.id by lia. Qed.

Lemma at_id_set m id id' e e' :
  at_id m id = Some e ->
  at_id (set_entries (<[Z.to_nat id:=e']> (entries m)) m) id' =
    if decide (id' = id) then Some e' else at_id m id'.
Proof.
  intros [Hid He]%at_id_some. apply lookup_lt_Some in He. unfold at_id. cbn [entries set_entries].
  case_decide as E.
  - subst. rewrite (proj2 (Z.leb_le 0 _)) by lia. by rewrite list_lookup_insert_eq.
  - destruct (Z.leb_spec 0 id'); [|done]. by rewrite list_lookup_insert_ne by lia.
Qed.

(** *** Matching *)

Definition takes (l : list text) (c : ClientData) (o : EntryData) (handle : Z) : bool :=
  reservation c && negb (reservation_used c) && takes_reservations o &&
  bool_decide (cl_class c ∈ l) &&
  ((request_entry c =? entry_any) ||
   ((request_entry c =? entry_bylabel) && bool_decide (cl_label c = e_label o)
    || (request_entry c =? handle))).

(** The client after it. *)
Definition mark (l : list text) (o : EntryData) (handle : Z) (c : ClientData) : ClientData :=
  if takes l c o handle && negb (request_entry c =? entry_any) then used c else c.

Lemma existsb_in (l : list text) x : existsb (fun k => bool_decide (k = x)) l = bool_decide (x ∈ l).
Proof.
  induction l as [|y l IH]; [by rewrite bool_decide_false by apply not_elem_of_nil|].
  cbn. rewrite IH. destruct (decide (y = x)) as [->|Hn].
  - rewrite (bool_decide_true (x = x)) by done. cbn. symmetry. apply bool_decide_eq_true_2. left.
  - rewrite (bool_decide_false (y = x)) by done. cbn. apply bool_decide_ext.
    rewrite elem_of_cons. naive_solver.
Qed.

Lemma matches_run c o h l w :
  lineage reg (e_class o) l -> matches reg c o h w = (Val (takes l c o h, mark l o h c), w).
Proof.
  intros Hl. unfold matches, mark, takes.
  destruct (reservation c), (reservation_used c), (takes_reservations o); try reflexivity.
  cbn [negb orb andb]. erewrite bind_val.
  2: { eapply (climb_run _ _ (fun k => bool_decide (k = cl_class c))); [exact Hl|done|].
       pose proof (lineage_bound _ _ _ Hl). unfold class_fuel. lia. }
  rewrite existsb_in. destruct (bool_decide (cl_class c ∈ l)); [|done]. cbn [negb andb].
  destruct (request_entry c =? entry_any); [done|]. cbn [orb negb].
  by destruct (_ || _).
Qed.

Definition count_takes (l : list text) (o : EntryData) (h : Z) (cs : list ClientData) : Z :=
  Z.of_nat (length (filter (fun c => takes l c o h = true) cs)).

Lemma takes_reservation l c o h : takes l c o h = true -> reservation c = true.
Proof. unfold takes. by destruct (reservation c). Qed.

Lemma mark_reservation l o h c : reservation (mark l o h c) = reservation c.
Proof. unfold mark. by destruct (_ && _). Qed.

Lemma with_reservations_same e : with_reservations (reservations e) e = e.
Proof. by destruct e. Qed.

Lemma match_waiting_run id l todo : forall done m com e,
  clients m = done ++ todo -> at_id m id = Some e -> lineage reg (e_class e) l ->
  0 <= reservations e ->
  match_waiting reg id done todo (m, com) =
    (Val tt, (set_clients (done ++ (mark l e id <$> todo))
               (set_entries (<[Z.to_nat id:=
                   with_reservations (Z.max 0 (reservations e - count_takes l e id todo)) e]>
                 (entries m)) m), com)).
Proof.
  induction todo as [|c todo IH]; intros pre m com e Hc He Hl Hr.
  - cbn [match_waiting fmap list_fmap]. unfold count_takes. cbn.
    rewrite Z.sub_0_r, Z.max_r, with_reservations_same by lia.
    apply at_id_some in He as [_ He]. rewrite list_insert_id by done. rewrite <- Hc.
    by destruct m.
  - cbn [match_waiting]. rewrite (bind_val _ _ _ _ _ (entry_at_run _ _ com _ He)).
    rewrite (bind_val _ _ _ _ _ (matches_run _ _ _ _ _ Hl)).
    set (m1 := set_clients (pre ++ mark l e id c :: todo) m).
    rewrite (bind_val _ _ _ tt (m1, com)) by reflexivity.
    set (n := if takes l c e id then Z.max 0 (reservations e - 1) else reservations e).
    set (m2 := set_entries (<[Z.to_nat id:=with_reservations n e]> (entries m1)) m1).
    rewrite (bind_val _ _ _ tt (m2, com)).
    2: { subst n m2. rewrite mark_reservation.
         assert (set_entries (<[Z.to_nat id:=with_reservations (reservations e) e]> (entries m1)) m1
           = m1) as Em.
         { apply at_id_some in He as [_ He]. rewrite with_reservations_same.
           cbn [entries set_clients m1]. rewrite list_insert_id by done. by destruct m. }
         destruct (takes l c e id) eqn:Et; cbn [andb]; [|by rewrite Em].
         rewrite (takes_reservation _ _ _ _ Et). cbn [andb].
         destruct (Z.eqb_spec (reservations e) 0) as [E0|E0]; cbn [negb].
         - replace (Z.max 0 (reservations e - 1)) with (reservations e) by lia. by rewrite Em.
         - rewrite Z.max_r by lia. reflexivity. }
    assert (at_id m2 id = Some (with_reservations n e)) as He2.
    { subst m2. rewrite (at_id_set m1 _ _ e) by done. by rewrite decide_True. }
    rewrite (IH (pre ++ [mark l e id c]) m2 com (with_reservations n e)); cycle 1.
    { subst m2 m1. cbn. by rewrite <- app_assoc. }
    { done. }
    { done. }
    { subst n. cbn. destruct (takes _ _ _ _); lia. }
    subst m2 m1. cbn [entries set_entries set_clients]. do 2 f_equal.
    rewrite list_insert_insert_eq, <- app_assoc.
    assert (forall x, takes l x (with_reservations n e) id = takes l x e id) as Ht by done.
    assert (count_takes l (with_reservations n e) id todo = count_takes l e id todo) as Ec by done.
    rewrite Ec. unfold set_clients, set_entries. cbn. f_equal.
    unfold count_takes. rewrite filter_cons. subst n. unfold with_reservations. cbn.
    do 2 f_equal. destruct (takes l c e id); cbn [length].
    + rewrite decide_True by done. cbn [length]. lia.
    + by rewrite decide_False by done.
Qed.

(** *** Reservations used by a new reader *)

Definition lowered (e e' : EntryData) : Prop :=
  exists n, e' = with_reservations n e /\ 0 <= n <= reservations e.

Lemma lowered_refl es : Forall (fun e => 0 <= reservations e) es -> Forall2 lowered es es.
Proof.
  induction 1 as [|e es He _ IH]; constructor; [|done]. exists (reservations e).
  rewrite with_reservations_same. split; [done|lia].
Qed.

Lemma lowered_trans es es1 es2 : Forall2 lowered es es1 -> Forall2 lowered es1 es2 -> Forall2 lowered es es2.
Proof.
  intros H1. revert es2. induction H1 as [|e e1 es es1 (n & -> & Hn) _ IH]; intros es2 H2.
  - inversion H2. constructor.
  - inversion H2 as [|? e2 ? es2' (k & -> & Hk) H2']; subst. constructor; [|by apply IH].
    exists k. split; [done|]. cbn in Hk. lia.
Qed.

(** The commands that end reservations of entries of [m]. *)
Definition releases (m : UnifiedChannelMaster) (out : list UChannelCommRequest) : Prop :=
  Forall (fun r => exists id e, r = short RemoveSaveupCmd id 0 /\ at_id m id = Some e /\
    0 < reservations e) out.

Lemma lower_one m id e n :
  at_id m id = Some e -> 0 <= n <= reservations e ->
  Forall (fun e => 0 <= reservations e) (entries m) ->
  Forall2 lowered (entries m) (<[Z.to_nat id:=with_reservations n e]> (entries m)).
Proof.
  intros [Hid He]%at_id_some Hn Hall.
  rewrite <- (list_insert_id (entries m) (Z.to_nat id) e) at 1 by done.
  apply Forall2_insert; [by apply lowered_refl|by exists n].
Qed.

Lemma match_entries_run n : forall c m com,
  (n <= length (entries m))%nat ->
  Forall (fun e => 0 <= reservations e /\ exists l, lineage reg (e_class e) l) (entries m) ->
  exists es' out, match_entries reg c n (m, com) = (Val tt, (set_entries es' m, com ++ out)) /\
    Forall2 lowered (entries m) es' /\ releases m out.
Proof.
  induction n as [|n IH]; intros c m com Hn Hall.
  { exists (entries m), []. rewrite app_nil_r. split_and!.
    - by destruct m.
    - apply lowered_refl. by eapply list.Forall_impl; [exact Hall|intros ? []].
    - constructor. }
  destruct (lookup_lt_is_Some_2 (entries m) n ltac:(lia)) as (e & He).
  assert (at_id m (Z.of_nat n) = Some e) as Hid by by rewrite at_id_nat.
  pose proof (proj1 (Forall_lookup _ _) Hall n e He) as (Hr & l & Hl). cbn [match_entries].
  rewrite (bind_val _ _ _ _ _ (entry_at_run _ _ com _ Hid)).
  rewrite (bind_val _ _ _ _ _ (matches_run _ _ _ _ _ Hl)).
  set (c' := mark l e (Z.of_nat n) c).
  assert (Forall (fun e => 0 <= reservations e) (entries m)) as Hpos.
  { by eapply list.Forall_impl; [exact Hall|intros ? []]. }
  destruct (takes l c e (Z.of_nat n) && negb (reservations e =? 0)) eqn:Et.
  2: { rewrite (bind_val _ _ _ tt (m, com)) by reflexivity. apply IH; [lia|done]. }
  apply andb_prop in Et as [Et E0]. apply negb_true_iff, Z.eqb_neq in E0.
  set (m1 := set_entries (<[Z.to_nat (Z.of_nat n):=with_reservations (reservations e - 1) e]>
    (entries m)) m).
  pose proof (lower_one m (Z.of_nat n) e (reservations e - 1) Hid ltac:(lia) Hpos) as Hlow.
  assert (Forall (fun e => 0 <= reservations e /\ exists l, lineage reg (e_class e) l) (entries m1)) as Hall1.
  { subst m1. cbn [entries set_entries]. apply Forall_insert; [done|]. cbn. split; [lia|eauto]. }
  assert (forall com1 out1, releases m out1 -> com1 = com ++ out1 ->
    exists es' out, match_entries reg c' n (m1, com1) = (Val tt, (set_entries es' m, com ++ out)) /\
    Forall2 lowered (entries m) es' /\ releases m out) as Hgo.
  { intros com1 out1 Ho ->. destruct (IH c' m1 (com ++ out1)) as (es' & out & E & Hes & Hout).
    - subst m1. cbn. rewrite length_insert. lia.
    - done.
    - exists es', (out1 ++ out). rewrite E, <- app_assoc. split_and!.
      + done.
      + by apply (lowered_trans _ (entries m1)).
      + apply Forall_app. split; [done|]. eapply list.Forall_impl; [exact Hout|].
        intros r (id & e1 & -> & He1 & Hr1). unfold m1 in He1.
        rewrite (at_id_set _ _ _ e) in He1 by done. case_decide as E1.
        * injection He1 as <-. exists id, e. rewrite E1. cbn in Hr1. split_and!; [done|done|lia].
        * by exists id, e1. }
  unfold set_entry, change, modify, send_remove_saveup, send, modify, mbind, M_bind. cbn [fst snd].
  fold m1. destruct (Z.eqb_spec (reservations e) 1).
  - apply (Hgo _ [short RemoveSaveupCmd (Z.of_nat n) 0]); [|done].
    constructor; [|constructor]. exists (Z.of_nat n), e. split_and!; [done|done|lia].
  - apply (Hgo _ []); [constructor|by rewrite app_nil_r].
Qed.

(** *** Commands about the entries *)

Definition conf_of (m : UnifiedChannelMaster) (id : Z) (e : EntryData) : UChannelCommRequest :=
  mkReq NewEntryConf (flags (bool_decide (arity m = SingleEntry)) e) id (e_origin e)
    (writerid e) (e_class e) (e_label e).

Lemma sendNewEntryConf_run m com id e :
  at_id m id = Some e -> writerid e <> no_id ->
  sendNewEntryConf id (m, com) =
    (Val tt, (m, com ++ (if active e then [conf_of m id e] else []))).
Proof.
  intros He Hw. unfold sendNewEntryConf. rewrite (bind_val _ _ _ _ _ (entry_at_run _ _ com _ He)).
  rewrite (bind_val _ _ _ m (m, com)) by reflexivity. destruct (active e); cbn [negb].
  - rewrite (bind_val _ _ _ tt (m, com ++ [conf_of m id e])) by reflexivity.
    by apply dassert_true, bool_decide_eq_true_2.
  - by rewrite app_nil_r.
Qed.

Lemma obey_conf m id e t :
  active e = true ->
  obey (conf_of m id e) t =
    match t !! id with
    | None => Some (<[id:=known e]> t)
    | Some k => if bool_decide (k = known e) then Some t else None
    end.
Proof.
  intros Ha. unfold obey, conf_of. cbn [type data0 data1 origin dataclassname entrylabel extra].
  assert (Z.testbit (flags (bool_decide (arity m = SingleEntry)) e) 0 = iseventtype e) as ->.
  { unfold flags. rewrite !Z.lor_spec.
    by destruct (iseventtype e), (bool_decide _), (reservations e =? 0). }
  unfold known. rewrite Ha. destruct (t !! id) as [[o w c l ev|]|]; [|by rewrite bool_decide_false|done].
  rewrite (bool_decide_ext _ (Live o w c l ev = Live (e_origin e) (writerid e) (e_class e) (e_label e)
    (iseventtype e))) by (split; congruence). done.
Qed.

Lemma obey_all_app l1 l2 t : obey_all (l1 ++ l2) t = (t1 ← obey_all l1 t; obey_all l2 t1).
Proof.
  revert t. induction l1 as [|r l1 IH]; intros t; [done|]. cbn. destruct (obey r t); cbn; [apply IH|done].
Qed.

(** ** Each request keeps the books and the ends in step *)

Definition sound (f : M W unit) (m : UnifiedChannelMaster) (t : Table) : Prop :=
  forall com, exists m' out t', f (m, com) = (Val tt, (m', com ++ out)) /\ ok reg m' /\
    obey_all out t = Some t' /\ agrees t' m'.

Lemma books_active m id e :
  ok reg m -> at_id m id = Some e -> active e = true -> books m id = Some (known e).
Proof.
  intros Hok He Ha. unfold books. rewrite bool_decide_false, He; [done|].
  intros Hr. destruct (proj1 (ok_inactive _ _ Hok id)) as (e' & He' & Hi).
  { apply elem_of_app. by right. }
  congruence.
Qed.

Lemma books_cleaning m id :
  ok reg m -> id ∈ (c_entry <$> to_be_cleaned m) ->
  books m id = Some Dead /\ id ∉ reusable m /\
  exists e, at_id m id = Some e /\ active e = false /\ e_origin e = 0 /\ reservations e = 0.
Proof.
  intros Hok Hin. pose proof (ok_dead _ _ Hok) as Hnd. apply list.NoDup_app in Hnd as (_ & Hnd & _).
  specialize (Hnd id Hin).
  destruct (proj1 (ok_inactive _ _ Hok id)) as (e & He & Hi); [apply elem_of_app; by left|].
  split_and!; [|done|].
  - unfold books. rewrite bool_decide_false, He by done. cbn. unfold known. by rewrite Hi.
  - exists e. pose proof (proj1 (list.Forall_forall _ _) (ok_entries _ _ Hok) e) as Hx.
    destruct Hx as (_ & Hx & _); [by eapply at_id_in|]. naive_solver.
Qed.

(** The lemma for changes that leave what the ends know alone. *)
Lemma ok_same m m' :
  ok reg m -> c_entry <$> to_be_cleaned m' = c_entry <$> to_be_cleaned m -> reusable m' = reusable m ->
  Forall2 lowered (entries m) (entries m') ->
  ok reg m' /\ forall t, agrees t m -> agrees t m'.
Proof.
  intros Hok Ec Er Hl.
  assert (forall id, at_id m' id = None /\ at_id m id = None \/
    exists e n, at_id m id = Some e /\ at_id m' id = Some (with_reservations n e) /\
      0 <= n <= reservations e) as Hat.
  { intros id. unfold at_id. destruct (0 <=? id); [|by left].
    pose proof (proj1 (Forall2_lookup _ _ _) Hl (Z.to_nat id)) as Hx.
    destruct Hx as [e e' (n & -> & Hn)|]; [right; by exists e, n|by left]. }
  split.
  - destruct Hok as [Hd Hi He Hs]. split.
    + by rewrite Ec, Er.
    + intros id. rewrite Ec, Er, Hi. destruct (Hat id) as [[-> ->]|(e & n & -> & -> & _)]; [done|].
      split; intros (e' & [= <-] & Ha); eauto.
    + apply list.Forall_forall. intros e' (i & Hi')%list_elem_of_lookup.
      destruct (Forall2_lookup_r _ _ _ _ _ Hl Hi') as (e & Hei & n & -> & Hn).
      pose proof (proj1 (Forall_lookup _ _) He i e Hei) as (Hr & Hd' & Hw & Hc). cbn.
      split_and!; [lia| |done|done]. intros Ha. destruct (Hd' Ha). split; [done|lia].
    + by rewrite <- (list.Forall2_length _ _ _ Hl).
  - intros t Ht id. rewrite Ht. unfold books. rewrite Er.
    destruct (bool_decide _); [done|].
    by destruct (Hat id) as [[-> ->]|(e & n & -> & -> & _)].
Qed.

Lemma entries_same m : ok reg m -> Forall2 lowered (entries m) (entries m).
Proof.
  intros Hok. apply lowered_refl. eapply list.Forall_impl; [apply (ok_entries _ _ Hok)|]. by intros ? [].
Qed.

Lemma resend_run m t n : ok reg m -> agrees t m -> (n <= length (entries m))%nat -> forall com,
  exists out, resend n (m, com) = (Val tt, (m, com ++ out)) /\ obey_all out t = Some t.
Proof.
  intros Hok Ht. induction n as [|n IH]; intros Hn com.
  { exists []. by rewrite app_nil_r. }
  destruct (lookup_lt_is_Some_2 (entries m) n ltac:(lia)) as (e & He).
  assert (at_id m (Z.of_nat n) = Some e) as Hid by by rewrite at_id_nat.
  pose proof (proj1 (Forall_lookup _ _) (ok_entries _ _ Hok) n e He) as (_ & _ & Hw & _).
  cbn [resend]. rewrite (bind_val _ _ _ _ _ (sendNewEntryConf_run _ com _ _ Hid Hw)).
  destruct (IH ltac:(lia) (com ++ (if active e then [conf_of m (Z.of_nat n) e] else [])))
    as (out & E & Ho).
  exists ((if active e then [conf_of m (Z.of_nat n) e] else []) ++ out). rewrite E, <- app_assoc.
  split; [done|]. destruct (active e) eqn:Ha; [|done]. cbn [app obey_all].
  rewrite (obey_conf _ _ _ _ Ha), (Ht _), (books_active _ _ _ Hok Hid Ha).
  by rewrite bool_decide_true by done.
Qed.

Lemma newEndJoins_sound m t r : ok reg m -> agrees t m -> sound (newEndJoins r) m t.
Proof.
  intros Hok Ht com. set (m1 := set_num_ends (u32 (num_ends m + 1)) m).
  destruct (ok_same m m1 Hok eq_refl eq_refl (entries_same m Hok)) as [Hok1 Ht1].
  destruct (resend_run m1 t (length (entries m1)) Hok1 (Ht1 t Ht) ltac:(done)
    (com ++ [short NewEndWelcome (data0 r) (num_ends m1)])) as (out & E & Ho).
  exists m1, (short NewEndWelcome (data0 r) (num_ends m1) :: out), t. split_and!; [|done|done|by apply Ht1].
  unfold newEndJoins, change, modify, send, master, gets, mbind, M_bind. cbn [fst snd]. fold m1.
  unfold modify. cbn [fst snd]. rewrite E, <- app_assoc. done.
Qed.

Lemma releases_obeyed m t out :
  ok reg m -> agrees t m -> releases m out -> obey_all out t = Some t.
Proof.
  intros Hok Ht. induction 1 as [|r out (id & e & -> & He & Hr) _ IH]; [done|].
  cbn [obey_all obey short type data0]. rewrite (Ht id), (books_active m id e Hok He); [done|].
  pose proof (proj1 (list.Forall_forall _ _) (ok_entries _ _ Hok) e) as Hx.
  destruct Hx as (_ & Hx & _); [by eapply at_id_in|].
  destruct (active e); [done|]. destruct (Hx eq_refl). lia.
Qed.

Lemma newClientNotif_sound m t r : ok reg m -> agrees t m -> sound (newClientNotif reg r) m t.
Proof.
  intros Hok Ht com. set (m1 := set_clients (clients m ++ [new_client r]) m).
  destruct (ok_same m m1 Hok eq_refl eq_refl (entries_same m Hok)) as [Hok1 Ht1].
  unfold newClientNotif. rewrite (bind_val _ _ _ tt (m1, com)) by reflexivity.
  destruct (reservation (new_client r)).
  - rewrite (bind_val _ _ _ m1 (m1, com)) by reflexivity.
    destruct (match_entries_run (length (entries m1)) (new_client r) m1 com) as (es' & out & E & Hl & Ho).
    { done. }
    { eapply list.Forall_impl; [apply (ok_entries _ _ Hok1)|]. by intros e (? & _ & _ & ?). }
    destruct (ok_same m1 (set_entries es' m1) Hok1 eq_refl eq_refl Hl) as [Hok2 Ht2].
    exists (set_entries es' m1), out, t. split_and!; [done|done| |by apply Ht2, Ht1].
    by eapply releases_obeyed, Ho; [|apply Ht1].
  - exists m1, [], t. rewrite app_nil_r. split_and!; [done|done|done|by apply Ht1].
Qed.

Lemma leaveClientNotif_sound m t r :
  ok reg m -> agrees t m -> (exists c, c ∈ clients m /\ cl_origin c = data1 r) ->
  sound (leaveClientNotif r) m t.
Proof.
  intros Hok Ht (c & Hc & Eo) com. unfold leaveClientNotif.
  rewrite (bind_val _ _ _ m (m, com)) by reflexivity.
  assert (exists l, erase_client (data1 r) (clients m) = Some l) as (l & ->).
  { induction (clients m) as [|c' cs IH]; [by apply not_elem_of_nil in Hc|]. cbn.
    destruct (Z.eqb_spec (cl_origin c') (data1 r)); [eauto|].
    apply elem_of_cons in Hc as [->|Hc]; [done|]. destruct (IH Hc) as (l & ->). eauto. }
  destruct (ok_same m (set_clients l m) Hok eq_refl eq_refl (entries_same m Hok)) as [Hok1 Ht1].
  exists (set_clients l m), [], t. rewrite app_nil_r. split_and!; [done|done|done|by apply Ht1].
Qed.

Lemma sweep_sound m t : ok reg m -> agrees t m -> sound sweep m t.
Proof.
  intros Hok Ht com. unfold sweep. rewrite (bind_val _ _ _ m (m, com)) by reflexivity.
  destruct (to_be_cleaned m) as [|c rest] eqn:Ec.
  { exists m, [], t. rewrite app_nil_r. by split_and!. }
  set (m1 := set_cleaning (mkCleaning (c_entry c) (num_ends m) (u32 (round c + 1)) :: rest) m).
  destruct (ok_same m m1 Hok) as [Hok1 Ht1].
  { subst m1. cbn. by rewrite Ec. }
  { done. }
  { exact (entries_same m Hok). }
  exists m1, [short CleanEntryCmd (c_entry c) (u32 (round c + 1))], t.
  split_and!; [done|done| |by apply Ht1].
  cbn [obey_all obey short type data0]. rewrite (Ht _).
  destruct (books_cleaning m (c_entry c) Hok) as (-> & _); [rewrite Ec; left|done].
Qed.

Lemma find_origin_some o n l h :
  find_origin o n l = Some h -> (h < n)%nat /\ exists e, l !! h = Some e /\ e_origin e = o.
Proof.
  induction n as [|n IH]; [done|]. cbn. destruct (l !! n) as [e|] eqn:He.
  - destruct (Z.eqb_spec (e_origin e) o).
    + intros [= <-]. split; [lia|]. by exists e.
    + intros Hf. destruct (IH Hf) as [? ?]. split; [lia|done].
  - intros Hf. destruct (IH Hf) as [? ?]. split; [lia|done].
Qed.

(** An entry that is replaced. *)
Lemma entries_replaced m id e e' (P : EntryData -> Prop) :
  at_id m id = Some e -> Forall P (entries m) -> P e' ->
  Forall P (<[Z.to_nat id:=e']> (entries m)).
Proof. intros _ Hall He'. by apply Forall_insert. Qed.

Lemma deleteEntryReq_sound m t r :
  ok reg m -> agrees t m -> legal reg m (Request r) -> type r = DeleteEntryReq ->
  sound (deleteEntryReq r) m t.
Proof.
  intros Hok Ht Hleg Er com. unfold legal in Hleg. rewrite Er in Hleg. destruct Hleg as [Hd Hres].
  unfold deleteEntryReq. rewrite (bind_val _ _ _ m (m, com)) by reflexivity.
  destruct (find_origin _ _ _) as [h|] eqn:Ef.
  2: { exists m, [], t. rewrite app_nil_r. by split_and!. }
  apply find_origin_some in Ef as (Hh & e & He & Eo).
  assert (at_id m (Z.of_nat h) = Some e) as Hid by by rewrite at_id_nat.
  pose proof (proj1 (Forall_lookup _ _) (ok_entries _ _ Hok) h e He) as (Hr & Hin & Hw & Hl).
  assert (active e = true) as Ha.
  { destruct (active e); [done|]. destruct (Hin eq_refl). congruence. }
  assert (reservations e = 0) as Hr0 by (apply Hres; [by eapply at_id_in|done]).
  assert (Z.of_nat h ∉ (c_entry <$> to_be_cleaned m) ++ reusable m) as Hnew.
  { rewrite (ok_inactive _ _ Hok). intros (e' & He' & Hi). congruence. }
  set (m1 := set_cleaning (to_be_cleaned m ++ [mkCleaning (Z.of_nat h) (num_ends m) 0]) m).
  set (m2 := set_entries (<[Z.to_nat (Z.of_nat h):=deactivated e]> (entries m1)) m1).
  rewrite (bind_val _ _ _ _ _ (entry_at_run _ _ com _ Hid)).
  rewrite (bind_val _ _ _ _ _ (dassert_true _ _ Ha)).
  exists m2, [short InvalidateEntryCmd (Z.of_nat h) 0], (<[Z.of_nat h:=Dead]> t).
  assert (forall id, at_id m2 id = if decide (id = Z.of_nat h) then Some (deactivated e) else at_id m id) as Hat.
  { intros id. subst m2. by rewrite (at_id_set m1 _ _ e). }
  split_and!; [reflexivity| | |].
  - split.
    + cbn. rewrite fmap_app, <- app_assoc. cbn. rewrite <- Permutation_middle.
      apply list.NoDup_cons. split; [done|apply (ok_dead _ _ Hok)].
    + intros id. rewrite Hat. cbn. rewrite fmap_app, <- app_assoc. cbn.
      rewrite <- Permutation_middle, elem_of_cons, (ok_inactive _ _ Hok). case_decide as E.
      * split; [intros _; by eexists|by left].
      * split; [by intros [?|?]|by right].
    + cbn. apply (entries_replaced m (Z.of_nat h) e); [done|apply (ok_entries _ _ Hok)|].
      cbn. by rewrite Hr0.
    + cbn. rewrite length_insert. apply (ok_size _ _ Hok).
  - cbn [obey_all obey short type data0]. rewrite (Ht _), (books_active _ _ _ Hok Hid Ha).
    unfold known. by rewrite Ha.
  - intros id. unfold books. rewrite Hat. cbn [reusable m2 m1 set_entries set_cleaning].
    destruct (decide (id = Z.of_nat h)) as [->|E].
    + rewrite lookup_insert_eq, bool_decide_false; [done|]. intros Hx. apply Hnew, elem_of_app. by right.
    + rewrite lookup_insert_ne by done. apply Ht.
Qed.

Lemma cleanEntryConf_sound m t r :
  ok reg m -> agrees t m -> to_be_cleaned m <> [] -> sound (cleanEntryConf r) m t.
Proof.
  intros Hok Ht Hne com. unfold cleanEntryConf. rewrite (bind_val _ _ _ m (m, com)) by reflexivity.
  destruct (to_be_cleaned m) as [|c rest] eqn:Ec; [done|].
  destruct (_ && _) eqn:Em.
  2: { exists m, [], t. rewrite app_nil_r. by split_and!. }
  apply andb_prop in Em as [_ Em]. apply Z.eqb_eq in Em. rewrite <- Em.
  destruct (u32 (stilldirty c - 1) =? 0) eqn:Es.
  2: { set (m1 := set_cleaning (mkCleaning (c_entry c) (u32 (stilldirty c - 1)) (round c) :: rest) m).
       destruct (ok_same m m1 Hok) as [Hok1 Ht1].
       { subst m1. cbn. by rewrite Ec. }
       { done. }
       { exact (entries_same m Hok). }
       exists m1, [], t. rewrite app_nil_r. split_and!; [done|done|done|by apply Ht1]. }
  set (m1 := set_cleaning rest (set_reusable (reusable m ++ [c_entry c]) m)).
  destruct (books_cleaning m (c_entry c) Hok) as (Hb & Hn & e & He & Ha & Heo & Hr);
    [rewrite Ec; left|].
  exists m1, [short DeleteEntryCmd (c_entry c) 0], (delete (c_entry c) t).
  pose proof (ok_dead _ _ Hok) as Hnd. pose proof (ok_inactive _ _ Hok) as Hi.
  rewrite Ec in Hnd, Hi. cbn in Hnd, Hi.
  assert ((c_entry <$> rest) ++ reusable m ++ [c_entry c] ≡ₚ
    c_entry c :: (c_entry <$> rest) ++ reusable m) as Hp.
  { rewrite app_assoc, Permutation_app_comm. done. }
  split_and!; [done| | |].
  - split.
    + cbn. by rewrite Hp.
    + intros id. cbn. rewrite Hp. apply Hi.
    + apply (ok_entries _ _ Hok).
    + apply (ok_size _ _ Hok).
  - cbn [obey_all obey short type data0]. by rewrite (Ht _), Hb.
  - intros id. unfold books. cbn [reusable m1 set_cleaning set_reusable].
    destruct (decide (id = c_entry c)) as [->|E].
    + rewrite lookup_delete_eq, bool_decide_true; [done|]. rewrite elem_of_app. by right; left.
    + rewrite lookup_delete_ne, (Ht id) by done. unfold books.
      rewrite (bool_decide_ext (id ∈ reusable m ++ [c_entry c]) (id ∈ reusable m)); [done|].
      rewrite elem_of_app, list_elem_of_singleton. naive_solver.
Qed.

(** A new entry in the books: under a fresh id, or one that is free again. *)
Lemma issue_id_run m t record com :
  ok reg m -> agrees t m -> active record = true -> 0 <= reservations record ->
  writerid record <> no_id -> (exists l, lineage reg (e_class record) l) ->
  issue_id record (m, com) = (Val None, (m, com)) \/
  exists id m1, issue_id record (m, com) = (Val (Some id), (m1, com)) /\ ok reg m1 /\
    at_id m1 id = Some record /\ t !! id = None /\ agrees (<[id:=known record]> t) m1 /\
    clients m1 = clients m /\ arity m1 = arity m.
Proof.
  intros Hok Ht Ha Hr Hw Hl. pose proof Hok as [Hd Hi He Hs]. unfold issue_id.
  rewrite (bind_val _ _ _ m (m, com)) by reflexivity.
  assert (0 <= reservations record /\
    (active record = false -> e_origin record = 0 /\ reservations record = 0) /\
    writerid record <> no_id /\ exists l, lineage reg (e_class record) l) as Hrec.
  { split_and!; try done. by rewrite Ha. }
  destruct (reusable m) as [|newid rest] eqn:Er.
  - set (n := Z.of_nat (length (entries m))). destruct (Z.ltb_spec n (entry_bylabel - 1)); [|by left].
    right. set (m1 := set_entries (entries m ++ [record]) m). exists n, m1.
    assert (forall id, at_id m1 id = if decide (id = n) then Some record else at_id m id) as Hat.
    { intros id. unfold at_id. cbn [entries m1 set_entries]. case_decide as E.
      - rewrite E, (proj2 (Z.leb_le 0 _)) by (subst n; lia).
        subst n. by rewrite Nat2Z.id, lookup_app_r, Nat.sub_diag.
      - destruct (Z.leb_spec 0 id); [|done]. subst n.
        destruct (decide (id < Z.of_nat (length (entries m)))).
        + by rewrite lookup_app_l by lia.
        + rewrite lookup_app_r, (lookup_ge_None_2 (entries m)) by lia.
          destruct (Z.to_nat id - length (entries m))%nat eqn:Ex; [lia|done]. }
    assert (at_id m n = None) as Hn.
    { unfold at_id. subst n. rewrite Nat2Z.id, lookup_ge_None_2 by done. by destruct (_ <=? _). }
    assert (t !! n = None) as Htn.
    { rewrite (Ht n). unfold books. by rewrite Er, bool_decide_false, Hn by apply not_elem_of_nil. }
    split_and!; [done| |by rewrite Hat, decide_True|done| |done|done].
    + split.
      * cbn. by rewrite Er.
      * intros id. rewrite Hat. cbn [to_be_cleaned reusable m1 set_entries].
        rewrite Er, Hi. case_decide as E; [|done]. subst id. rewrite Hn.
        split; intros (e & [= <-] & Hx); congruence.
      * cbn. apply Forall_app. by split; [|constructor].
      * cbn. rewrite length_app. cbn. subst n. lia.
    + intros id. unfold books. rewrite Hat. cbn [reusable m1 set_entries]. rewrite Er.
      rewrite bool_decide_false by apply not_elem_of_nil. case_decide as E.
      * by rewrite E, lookup_insert_eq.
      * rewrite lookup_insert_ne, (Ht id) by done. unfold books. rewrite Er.
        by rewrite bool_decide_false by apply not_elem_of_nil.
  - right. destruct (proj1 (Hi newid)) as (e & Hid & Hia).
    { rewrite elem_of_app. right. left. }
    rewrite (bind_val _ _ _ _ _ (entry_at_run _ _ com _ Hid)).
    rewrite (bind_val _ _ _ tt (m, com)) by (apply dassert_true; by rewrite Hia).
    set (m1 := set_reusable rest (set_entries (<[Z.to_nat newid:=record]> (entries m)) m)).
    exists newid, m1.
    assert (forall id, at_id m1 id = if decide (id = newid) then Some record else at_id m id) as Hat.
    { intros id. exact (at_id_set m newid id e record Hid). }
    apply list.NoDup_app in Hd as (Hd1 & Hd2 & Hd3). apply list.NoDup_cons in Hd3 as [Hd3 Hd4].
    assert (t !! newid = None) as Htn.
    { rewrite (Ht newid). unfold books. rewrite bool_decide_true; [done|]. rewrite Er. left. }
    split_and!; [done| |by rewrite Hat, decide_True|done| |done|done].
    + split.
      * cbn [to_be_cleaned reusable m1 set_reusable set_entries]. apply list.NoDup_app.
        split_and!; [done| |done]. intros x Hx Hx'. apply (Hd2 x Hx). by right.
      * intros id. rewrite Hat. cbn [to_be_cleaned reusable m1 set_reusable set_entries].
        specialize (Hi id). rewrite elem_of_app, elem_of_cons in Hi. rewrite elem_of_app.
        case_decide as E.
        -- subst id. split.
           ++ intros [Hx|Hx]; [|done]. exfalso. apply (Hd2 newid Hx). left.
           ++ intros (e' & [= <-] & Hx). congruence.
        -- rewrite <- Hi. naive_solver.
      * cbn. apply (entries_replaced m newid e); done.
      * cbn. by rewrite length_insert.
    + intros id. unfold books. rewrite Hat. cbn [reusable m1 set_reusable set_entries].
      destruct (decide (id = newid)) as [->|E].
      * by rewrite lookup_insert_eq, bool_decide_false.
      * rewrite lookup_insert_ne, (Ht id) by done. unfold books. rewrite Er.
        rewrite (bool_decide_ext (id ∈ newid :: rest) (id ∈ rest)); [done|].
        rewrite elem_of_cons. naive_solver.
Qed.

Lemma admit_run m t r com : ok reg m -> agrees t m ->
  exists b m1, admit_entry r (m, com) = (Val b, (m1, com)) /\ ok reg m1 /\ agrees t m1 /\
    clients m1 = clients m /\ entries m1 = entries m /\ books m1 = books m.
Proof.
  intros Hok Ht. unfold admit_entry. rewrite (bind_val _ _ _ m (m, com)) by reflexivity.
  destruct (Z.testbit _ _); [destruct (_ && _)|].
  - destruct (ok_same m (set_arity SingleEntry m) Hok eq_refl eq_refl (entries_same m Hok)) as [Hok1 Ht1].
    exists true, (set_arity SingleEntry m). split_and!; [done|done|by apply Ht1|done..].
  - by exists false, m.
  - by eexists _, m.
Qed.

Lemma obey_remove_saveup t id : t !! id <> None -> obey (short RemoveSaveupCmd id 0) t = Some t.
Proof. intros Hn. unfold obey. cbn. by destruct (t !! id). Qed.

Lemma newEntryReq_sound m t r :
  ok reg m -> agrees t m -> legal reg m (Request r) -> type r = NewEntryReq ->
  sound (newEntryReq reg r) m t.
Proof.
  intros Hok Ht Hleg Er com. unfold legal in Hleg. rewrite Er in Hleg.
  destruct Hleg as (Hw & Hd1 & Hd0 & l & Hl).
  unfold newEntryReq. rewrite (bind_val _ _ _ tt (m, com)) by by apply dassert_true, bool_decide_eq_true_2.
  destruct (admit_run m t r com Hok Ht) as (b & m1 & E1 & Hok1 & Ht1 & _).
  rewrite (bind_val _ _ _ _ _ E1). destruct b; cbn [negb].
  2: { exists m1, [], t. rewrite app_nil_r. by split_and!. }
  set (rec := new_entry r).
  destruct (issue_id_run m1 t rec com Hok1 Ht1 eq_refl Hd0 Hw (ex_intro _ l Hl))
    as [E2|(id & m2 & E2 & Hok2 & Hid & Htn & Ht2 & _)]; rewrite (bind_val _ _ _ _ _ E2).
  { exists m1, [], t. rewrite app_nil_r. by split_and!. }
  rewrite (bind_val _ _ _ _ _ (sendNewEntryConf_run m2 com id rec Hid Hw)). cbn [active rec new_entry].
  set (com1 := com ++ [conf_of m2 id rec]).
  rewrite (bind_val _ _ _ _ _ (entry_at_run _ _ com1 _ Hid)).
  assert (obey (conf_of m2 id rec) t = Some (<[id:=known rec]> t)) as Ho.
  { rewrite obey_conf by done. by rewrite Htn. }
  destruct (reservations rec =? 0) eqn:Er0.
  { exists m2, [conf_of m2 id rec], (<[id:=known rec]> t). split_and!; [done|done| |done].
    cbn [obey_all]. by rewrite Ho. }
  rewrite (bind_val _ _ _ m2 (m2, com1)) by reflexivity.
  rewrite (bind_val _ _ _ _ _ (match_waiting_run id l (clients m2) [] m2 com1 rec eq_refl Hid Hl Hd0)).
  cbn [app]. set (n := Z.max 0 (reservations rec - _)).
  set (m3 := set_clients _ _).
  assert (at_id m3 id = Some (with_reservations n rec)) as Hid3.
  { transitivity (at_id (set_entries (<[Z.to_nat id:=with_reservations n rec]> (entries m2)) m2) id);
      [done|]. rewrite (at_id_set m2 _ _ rec) by done. by rewrite decide_True. }
  destruct (ok_same m2 m3 Hok2 eq_refl eq_refl) as [Hok3 Ht3].
  { apply (lower_one m2 id rec); [done| |].
    - unfold count_takes in n. cbn [reservations rec new_entry] in *. lia.
    - eapply list.Forall_impl; [apply (ok_entries _ _ Hok2)|]. by intros ? []. }
  rewrite (bind_val _ _ _ _ _ (entry_at_run _ _ com1 _ Hid3)).
  cbn [reservations with_reservations]. destruct (n =? 0).
  - exists m3, [conf_of m2 id rec; short RemoveSaveupCmd id 0], (<[id:=known rec]> t).
    split_and!; [|done| |by apply Ht3].
    + unfold send_remove_saveup, send, modify. subst com1. cbn [fst snd]. by rewrite <- app_assoc.
    + cbn [obey_all]. rewrite Ho. cbn [mbind option_bind].
      by rewrite obey_remove_saveup by (by rewrite lookup_insert_eq).
  - exists m3, [conf_of m2 id rec], (<[id:=known rec]> t). split_and!; [done|done| |by apply Ht3].
    cbn [obey_all]. by rewrite Ho.
Qed.

Lemma exec_sound m t o : ok reg m -> agrees t m -> legal reg m o -> sound (exec reg o) m t.
Proof.
  intros Hok Ht Hl. destruct o as [r|]; [|by apply sweep_sound].
  assert (sound (mret tt) m t) as Hnil.
  { intros com. exists m, [], t. rewrite app_nil_r. by split_and!. }
  cbn [exec]. unfold handle. pose proof Hl as Hl'. unfold legal in Hl'.
  destruct (type r) eqn:Er; try exact Hnil.
  - by apply newEntryReq_sound.
  - by apply deleteEntryReq_sound.
  - by apply cleanEntryConf_sound.
  - by apply newClientNotif_sound.
  - by apply leaveClientNotif_sound.
  - by apply newEndJoins_sound.
Qed.

Lemma new_master_ok : ok reg make /\ agrees ∅ make.
Proof.
  assert (forall id, at_id make id = None) as Hat.
  { intros id. unfold at_id. by destruct (0 <=? id). }
  split.
  - split; cbn; [constructor| |constructor|done]. intros id. rewrite Hat.
    split; [by intros ?%not_elem_of_nil|by intros (? & ? & ?)].
  - intros id. unfold books. rewrite Hat, lookup_empty. by destruct (bool_decide _).
Qed.

Lemma reach_ok m com : reach reg (m, com) ->
  ok reg m /\ exists t, obey_all com ∅ = Some t /\ agrees t m.
Proof.
  intros Hr. remember (m, com) as w eqn:Ew. revert m com Ew.
  induction Hr as [|[m0 com0] o w' Hr IH Hl E]; intros m com Ew.
  - injection Ew as <- <-. destruct new_master_ok. split; [done|]. by exists ∅.
  - subst w'. destruct (IH m0 com0 eq_refl) as (Hok & t & Ho & Ht).
    destruct (exec_sound m0 t o Hok Ht Hl com0) as (m' & out & t' & E' & Hok' & Ho' & Ht').
    rewrite E' in E. injection E as <- <-. split; [done|]. exists t'.
    by rewrite obey_all_app, Ho.
Qed.

End Facts.

(** ** Properties *)

Section Properties.
Context `{BuildConfig} (reg : Registry).


(** A new entry gets an id unless the channel is for a single entry or
    out of ids. Its confirmation is sent, each waiting reader that reserved
    for it takes one of its reservations, and when none are left the entry is
    told to stop saving up. *)
Theorem newEntryReq_outcome m com r l :
  reach reg (m, com) -> legal reg m (Request r) -> type r = NewEntryReq ->
  lineage reg (dataclassname r) l ->
  exists m', let taken := fun id => count_takes l (new_entry r) id (clients m) in
  exec reg (Request r) (m, com) = (Val tt, (m', com)) /\
    entries m' = entries m /\ clients m' = clients m
  \/ exists id left, left = Z.max 0 (data0 r - taken id) /\
    at_id m' id = Some (with_reservations left (new_entry r)) /\ books m id = None /\
    exists single,
    exec reg (Request r) (m, com) = (Val tt, (m', com ++
      mkReq NewEntryConf (flags single (new_entry r)) id (data1 r) (origin r)
        (dataclassname r) (entrylabel r)
      :: if negb (data0 r =? 0) && (left =? 0) then [short RemoveSaveupCmd id 0] else [])).
Proof.
  intros Hrc Hleg Er Hl. destruct (reach_ok reg m com Hrc) as (Hok & t & _ & Ht).
  unfold exec, handle. unfold legal in Hleg. rewrite Er in *. destruct Hleg as (Hw & Hd1 & Hd0 & _).
  unfold newEntryReq.
  rewrite (bind_val _ _ _ tt (m, com)) by by apply dassert_true, bool_decide_eq_true_2.
  destruct (admit_run reg m t r com Hok Ht) as (b & m1 & E1 & Hok1 & Ht1 & Ec1 & Ee1 & Eb1).
  rewrite (bind_val _ _ _ _ _ E1). destruct b; cbn [negb].
  2: { exists m1. by left. }
  destruct (issue_id_run reg m1 t (new_entry r) com Hok1 Ht1 eq_refl Hd0 Hw (ex_intro _ l Hl))
    as [E2|(id & m2 & E2 & Hok2 & Hid & Htn & Ht2 & Ec2 & _)]; rewrite (bind_val _ _ _ _ _ E2).
  { exists m1. by left. }
  rewrite (bind_val _ _ _ _ _ (sendNewEntryConf_run m2 com id _ Hid Hw)). cbn [active new_entry].
  rewrite (bind_val _ _ _ _ _ (entry_at_run _ _ _ _ Hid)).
  assert (books m id = None) as Hb by by rewrite <- Eb1, <- (Ht1 id).
  cbn [reservations new_entry].
  destruct (Z.eqb_spec (data0 r) 0) as [E0|E0]; cbn [negb andb].
  { exists m2. right. exists id, 0. rewrite E0, Z.max_l by (unfold count_takes; lia). split_and!; [done| |done|].
    - rewrite Hid. f_equal. unfold with_reservations, new_entry. cbn. by rewrite E0.
    - by eexists. }
  erewrite bind_val by reflexivity. cbn [fst].
  rewrite (bind_val _ _ _ _ _ (match_waiting_run reg id l (clients m2) [] m2 _ (new_entry r) eq_refl Hid Hl Hd0)).
  rewrite Ec2, Ec1. cbn [app reservations new_entry]. set (n := Z.max 0 (data0 r - _)).
  set (m3 := set_clients _ _).
  assert (at_id m3 id = Some (with_reservations n (new_entry r))) as Hid3.
  { transitivity (at_id (set_entries (<[Z.to_nat id:=with_reservations n (new_entry r)]> (entries m2)) m2) id);
      [done|]. rewrite (at_id_set m2 _ _ (new_entry r)) by done. by rewrite decide_True. }
  rewrite (bind_val _ _ _ _ _ (entry_at_run _ _ _ _ Hid3)). cbn [reservations with_reservations].
  exists m3. right. exists id, n. split_and!; [done..|].
  exists (bool_decide (arity m2 = SingleEntry)). destruct (n =? 0); [|done].
  unfold send_remove_saveup, send, modify. cbn [fst snd]. by rewrite <- app_assoc.
Qed.

(** *** Cleaning *)

Definition confirmation (c : CleaningData) : UChannelCommRequest :=
  short CleanEntryConf (c_entry c) (round c).

Lemma confirm_run m com c rest k :
  to_be_cleaned m = c :: rest -> Z.of_nat k < stilldirty c < 4294967296 ->
  process reg (replicate k (confirmation c)) (m, com) =
    (Val tt, (set_cleaning (mkCleaning (c_entry c) (stilldirty c - Z.of_nat k) (round c) :: rest) m, com)).
Proof.
  revert m c. induction k as [|k IH]; intros m c Hc Hk.
  { rewrite Z.sub_0_r. cbn. unfold mret, M_ret. do 2 f_equal. destruct m, c. cbn in *. by subst. }
  cbn [replicate process]. set (c1 := mkCleaning (c_entry c) (stilldirty c - 1) (round c)).
  rewrite (bind_val _ _ _ tt (set_cleaning (c1 :: rest) m, com)).
  2: { unfold handle. cbn [type confirmation short]. unfold cleanEntryConf.
       rewrite (bind_val _ _ _ m (m, com)) by reflexivity. rewrite Hc. cbn [data1 data0 confirmation short].
       rewrite !Z.eqb_refl. cbn [andb]. rewrite u32_id by (unfold is_u32; lia).
       destruct (Z.eqb_spec (stilldirty c - 1) 0); [lia|done]. }
  change (confirmation c) with (confirmation c1).
  rewrite (IH (set_cleaning (c1 :: rest) m) c1) by (done || (cbn; lia)).
  by replace (stilldirty c1 - Z.of_nat k) with (stilldirty c - Z.of_nat (S k)) by (cbn; lia).
Qed.

(** C18: Cleaning goes by rounds. After a sweep the master counts the
    confirmations of that round only; when all ends have confirmed it,
    the entry is deleted everywhere and its id is free. Any other confirmation, such as
    one of the previous round that was late, changes nothing. *)
Theorem cleaning_round m com c rest n :
  to_be_cleaned m = c :: rest -> num_ends m = Z.of_nat (S n) -> Z.of_nat (S n) < 4294967296 ->
  let c1 := mkCleaning (c_entry c) (num_ends m) (u32 (round c + 1)) in
  let m1 := set_cleaning (c1 :: rest) m in
  let com1 := com ++ [short CleanEntryCmd (c_entry c) (round c1)] in
  sweep (m, com) = (Val tt, (m1, com1)) /\
  process reg (replicate (S n) (confirmation c1)) (m1, com1) =
    (Val tt, (set_cleaning rest (set_reusable (reusable m ++ [c_entry c]) m),
              com1 ++ [short DeleteEntryCmd (c_entry c) 0])) /\
  (forall k, (k < S n)%nat -> exists m2, process reg (replicate k (confirmation c1)) (m1, com1) =
    (Val tt, (m2, com1)) /\ reusable m2 = reusable m /\ to_be_cleaned m2 =
       mkCleaning (c_entry c) (num_ends m - Z.of_nat k) (round c1) :: rest) /\
  (forall r, type r = CleanEntryConf -> (data0 r, data1 r) <> (c_entry c, round c1) ->
    exec reg (Request r) (m1, com1) = (Val tt, (m1, com1))).
Proof.
  intros Hc Hn Hb c1 m1 com1. split_and!.
  - unfold sweep. rewrite (bind_val _ _ _ m (m, com)) by reflexivity. by rewrite Hc.
  - rewrite replicate_S_end. 
    assert (forall l1 l2 w, process reg (l1 ++ l2) w = (process reg l1;; process reg l2) w) as Happ.
    { induction l1 as [|x l1 IH]; intros l2 w; [done|]. cbn [app process].
      unfold mbind, M_bind. destruct (handle reg x w) as [[]]; [|done..]. by rewrite IH. }
    rewrite Happ, (bind_val _ _ _ _ _ (confirm_run m1 com1 c1 rest n eq_refl ltac:(cbn; lia))).
    cbn [process]. erewrite bind_val; [reflexivity|].
    unfold handle, cleanEntryConf. cbn [type confirmation short].
    rewrite (bind_val _ _ _ (set_cleaning (mkCleaning (c_entry c1) (stilldirty c1 - Z.of_nat n) (round c1) :: rest) m1)
      (set_cleaning (mkCleaning (c_entry c1) (stilldirty c1 - Z.of_nat n) (round c1) :: rest) m1, com1))
      by reflexivity.
    cbn [to_be_cleaned set_cleaning round c_entry stilldirty data0 data1 confirmation short c1].
    rewrite !Z.eqb_refl. cbn [andb]. rewrite Hn.
    replace (Z.of_nat (S n) - Z.of_nat n - 1) with 0 by lia. reflexivity.
  - intros k Hk. eexists. split; [apply (confirm_run m1 com1 c1 rest k eq_refl); cbn; lia|done].
  - intros r Er Hne. unfold exec, handle. rewrite Er. unfold cleanEntryConf.
    rewrite (bind_val _ _ _ m1 (m1, com1)) by reflexivity. cbn [to_be_cleaned m1 set_cleaning].
    destruct (Z.eqb_spec (round c1) (data1 r)), (Z.eqb_spec (c_entry c1) (data0 r)); try done.
    exfalso. apply Hne. by rewrite e, <- e0.
Qed.

End Properties.

(** ** An example: two ends, a reader with a reservation, a writer that comes
    and goes *)

Definition ex_reg : Registry := {[ txt "Base" := []; txt "Derived" := txt "Base" ]}.

Lemma ex_lineage : lineage ex_reg (txt "Derived") [txt "Derived"; txt "Base"].
Proof.
  eapply lineage_derived; [done|reflexivity| |].
  - by apply lineage_base.
  - by intros [=]%list_elem_of_singleton.
Qed.

Definition ex_join (l : Z) : UChannelCommRequest := short NewEndJoins l 0.
Definition ex_reader : UChannelCommRequest :=
  mkReq NewClientNotif 1 entry_bylabel 1025 no_id (txt "Base") (txt "one").
Definition ex_writer (n : Z) : UChannelCommRequest :=
  mkReq NewEntryReq 1 n 257 (mkId 1 3) (txt "Derived") (txt "one").

Definition ex_w0 : W := (make, []).
Definition ex_next (r : UChannelCommRequest) (w : W) : W := (exec (H:=test_config) ex_reg (Request r) w).2.
Definition ex_w1 : W := ex_next ex_reader (ex_next (ex_join 1) (ex_next (ex_join 0) ex_w0)).
Definition ex_w2 : W := ex_next (ex_writer 1) ex_w1.
Definition ex_w3 : W := ex_next (short DeleteEntryReq 0 257) ex_w2.

Lemma ex_writer_legal n m : 0 <= n -> legal ex_reg m (Request (ex_writer n)).
Proof. intros Hn. split_and!; try done. eexists. apply ex_lineage. Qed.

Lemma ex_reach1 : reach (H:=test_config) ex_reg ex_w1.
Proof.
  apply (reach_step _ (ex_next (ex_join 1) (ex_next (ex_join 0) ex_w0)) (Request ex_reader));
    [|done|vm_compute; reflexivity].
  apply (reach_step _ (ex_next (ex_join 0) ex_w0) (Request (ex_join 1)));
    [|done|vm_compute; reflexivity].
  apply (reach_step _ ex_w0 (Request (ex_join 0))); [constructor|done|vm_compute; reflexivity].
Qed.

Lemma ex_reach3 : reach (H:=test_config) ex_reg ex_w3.
Proof.
  apply (reach_step _ ex_w2 (Request (short DeleteEntryReq 0 257))); [| |vm_compute; reflexivity].
  - apply (reach_step _ ex_w1 (Request (ex_writer 1)));
      [apply ex_reach1|by apply ex_writer_legal|vm_compute; reflexivity].
  - split; [done|]. intros e. vm_compute (entries _). by intros ->%list_elem_of_singleton.
Qed.


Lemma newEntryReq_outcome_witness :
  exists m', exec (H:=test_config) ex_reg (Request (ex_writer 1)) ex_w1 = (Val tt, (m', ex_w1.2)) \/
  exists id left com', left = Z.max 0 (1 - count_takes [txt "Derived"; txt "Base"] (new_entry (ex_writer 1)) id
      (clients ex_w1.1)) /\
    exec (H:=test_config) ex_reg (Request (ex_writer 1)) ex_w1 = (Val tt, (m', com')).
Proof.
  destruct (newEntryReq_outcome (H:=test_config) ex_reg ex_w1.1 ex_w1.2 (ex_writer 1) _ ex_reach1
    (ex_writer_legal 1 _ ltac:(done)) eq_refl ex_lineage)
    as (m' & [(E & _)|(id & left & El & _ & _ & single & E)]).
  - exists m'. by left.
  - exists m'. right. exists id, left. eexists. split; [exact El|exact E].
Defined.

Lemma cleaning_round_witness :
  exists m', (sweep;; process (H:=test_config) ex_reg (replicate 2 (short CleanEntryConf 0 1))) ex_w3 =
    (Val tt, m') /\ reusable m'.1 = [0].
Proof.
  destruct (cleaning_round (H:=test_config) ex_reg ex_w3.1 ex_w3.2 (mkCleaning 0 2 0) [] 1
    ltac:(vm_compute; reflexivity) ltac:(vm_compute; reflexivity) ltac:(done)) as (E1 & E2 & _).
  eexists. split.
  - unfold mbind, M_bind. change ex_w3 with (ex_w3.1, ex_w3.2). rewrite E1. exact E2.
  - vm_compute. reflexivity.
Defined.

End MA.
