(* ===== verification/ConfigChanges.v ===== *)
(** The list of configuration changes of a channel end,
    [dueca/UCEntryConfigurationChange.hxx]/[.cxx] and its use in
    [dueca/UnifiedChannel.cxx].

    The end appends a change for each entry that comes or goes; every reader
    has a pointer into the list and handles the changes behind it when it gets
    round to it. A change counts the readers that still have to handle it;
    at zero its node goes back behind the end of the list, to be used again.
    The list is one queue for each reader. *)

From S2P Require Import Prelude.
#[local] Open Scope Z_scope.

Module CL.

(** ** Data *)

Inductive ConfigEvent := NewEntry | DeletedEntry | Sentinel.

#[export] Instance ConfigEvent_eq_dec : EqDecision ConfigEvent.
Proof. solve_decision. Defined.

(** [EntryConfigurationChange]; the entry is known by its address. *)
Record Change := mkChange {
  changetype : ConfigEvent;
  tocheck : Z;
  c_entry : option nat;
  next : option nat
}.

(** The members [entry_config_changes] and [latest_entry_config_change] with
    the nodes on the heap. *)
Record ChangeList := mkList {
  nodes : gmap nat Change;
  first : nat;
  latest : nat;
  next_node : nat
}.

Definition make : ChangeList := mkList {[ 0%nat := mkChange Sentinel 0 None None ]} 0 0 1.

Definition set_nodes (f : gmap nat Change -> gmap nat Change) (s : ChangeList) : ChangeList :=
  mkList (f (nodes s)) (first s) (latest s) (next_node s).
Definition set_first (p : nat) (s : ChangeList) : ChangeList :=
  mkList (nodes s) p (latest s) (next_node s).
Definition set_latest (p : nat) (s : ChangeList) : ChangeList :=
  mkList (nodes s) (first s) p (next_node s).

Definition with_next (n : option nat) (c : Change) : Change :=
  mkChange (changetype c) (tocheck c) (c_entry c) n.
Definition with_tocheck (n : Z) (c : Change) : Change :=
  mkChange (changetype c) n (c_entry c) (next c).

(** ** Operations *)

Definition node (p : nat) : M ChangeList Change := fun s =>
  match nodes s !! p with
  | Some c => (Val c, s)
  | None => (Stuck DanglingDeref, s)
  end.
Definition set_node (p : nat) (c : Change) : M ChangeList unit := modify (set_nodes <[p:=c]>).

(** [new EntryConfigurationChange()] *)
Definition new : M ChangeList nat :=
  s ← get;
  let p := next_node s in
  put (mkList (<[p:=mkChange Sentinel 0 None None]> (nodes s)) (first s) (latest s) (S p));;
  mret p.

Definition setData (p : nat) (ct : ConfigEvent) (nreaders : Z) (e : nat) : M ChangeList unit :=
  c ← node p;
  set_node p (mkChange ct nreaders (Some e) (next c)).

Definition markHandled (p : nat) : M ChangeList (option nat) :=
  c ← node p;
  set_node p (with_tocheck (u32 (tocheck c - 1)) c);;
  mret (next c).

(** [p->insert(toinsert)] *)
Definition insert (p toinsert : nat) : M ChangeList unit :=
  c ← node p;
  i ← node toinsert;
  set_node toinsert (with_next (next c) i);;
  c ← node p;
  set_node p (with_next (Some toinsert) c).

(** The first change, moved behind the latest. *)
Definition recycle_first : M ChangeList unit :=
  s ← get;
  c ← node (first s);
  insert (latest s) (first s);;
  nxt ← of_option NullDeref (next c);
  modify (set_first nxt).

(** [recycleConfigChanges] *)
Fixpoint recycleConfigChanges (fuel : nat) : M ChangeList unit :=
  match fuel with
  | O => stuck OutOfFuel
  | S fuel =>
      s ← get;
      if bool_decide (first s = latest s) then mret tt
      else
        c ← node (first s);
        if bool_decide (changetype c = DeletedEntry) || negb (tocheck c =? 0) then mret tt
        else recycle_first;; recycleConfigChanges fuel
  end.

(** [if (latest_entry_config_change->next == NULL) ...] *)
Definition sentinel : M ChangeList unit :=
  s ← get;
  c ← node (latest s);
  match next c with
  | Some _ => mret tt
  | None => p ← new; c ← node (latest s); set_node (latest s) (with_next (Some p) c)
  end.

(** The part of [updateConfiguration] that announces a change. *)
Definition announce (ct : ConfigEvent) (nreaders : Z) (e : nat) : M ChangeList unit :=
  s ← get;
  recycleConfigChanges (S (size (nodes s)));;
  s ← get;
  sentinel;;
  setData (latest s) ct nreaders e;;
  c ← node (latest s);
  nxt ← of_option NullDeref (next c);
  modify (set_latest nxt).

(** The first change when all readers have handled it. *)
Definition checked_first : M ChangeList (option Change) :=
  s ← get;
  if bool_decide (first s = latest s) then mret None
  else
    c ← node (first s);
    mret (if tocheck c =? 0 then Some c else None).

(** ** The queue of a reader *)

Abbreviation event := (ConfigEvent * option nat)%type.
Definition event_of (c : Change) : event := (changetype c, c_entry c).

(** What the nodes [l] tell. *)
Definition events (m : gmap nat Change) (l : list nat) : list event :=
  omap (fun p => event_of <$> m !! p) l.

(** The pointer of a reader that has [i] changes behind it: [l] are the nodes
    in front of the latest. *)
Definition pointer (s : ChangeList) (l : list nat) (i : nat) : nat := default (latest s) (l !! i).

(** The readers that still have to handle a change. *)
Definition waiting (at_ : gmap nat nat) (i : nat) : Z :=
  Z.of_nat (size (filter (fun hi => (hi.2 <= i)%nat) at_)).

(** The nodes [l] lead from the first to the latest; [spare] are behind it;
    [at_] has the position in [l] for each reader. *)
Record Inv (s : ChangeList) (l spare : list nat) (at_ : gmap nat nat) : Prop := {
  i_first : first s = pointer s l 0;
  i_chain i p : l !! i = Some p -> exists c, nodes s !! p = Some c /\
    next c = Some (pointer s l (S i)) /\ tocheck c = waiting at_ i;
  i_latest : exists c, nodes s !! latest s = Some c /\ next c = head spare;
  i_spare i p : spare !! i = Some p -> exists c, nodes s !! p = Some c /\ next c = spare !! S i;
  i_nodup : NoDup (l ++ latest s :: spare);
  i_fresh p c : nodes s !! p = Some c -> (p < next_node s)%nat;
  i_at h i : at_ !! h = Some i -> (i <= length l)%nat;
  i_small : Z.of_nat (size at_) < 4294967296
}.

(** ** Counting *)

Lemma waiting_insert at_ h i k j :
  at_ !! h = Some i ->
  waiting (<[h:=k]> at_) j =
    waiting at_ j - (if decide (i <= j)%nat then 1 else 0) + (if decide (k <= j)%nat then 1 else 0).
Proof.
  intros Hh. unfold waiting.
  assert (forall m : gmap nat nat, m !! h = None -> forall x,
    Z.of_nat (size (filter (fun hi : nat * nat => (hi.2 <= j)%nat) (<[h:=x]> m))) =
    Z.of_nat (size (filter (fun hi : nat * nat => (hi.2 <= j)%nat) m)) + (if decide (x <= j)%nat then 1 else 0)) as Hx.
  { intros m Hm x. rewrite map_filter_insert. cbn. case_decide.
    - rewrite map_size_insert_None; [lia|]. rewrite map_lookup_filter_None. by left.
    - rewrite delete_id by done. lia. }
  rewrite <- (insert_delete_id at_ h i) at 2 by done. rewrite <- (insert_delete_eq at_ h k).
  rewrite !Hx by apply lookup_delete_eq. lia.
Qed.

Lemma waiting_new at_ h k j : at_ !! h = None ->
  waiting (<[h:=k]> at_) j = waiting at_ j + (if decide (k <= j)%nat then 1 else 0).
Proof.
  intros Hh. unfold waiting. rewrite map_filter_insert. cbn. case_decide.
  - rewrite map_size_insert_None; [lia|]. rewrite map_lookup_filter_None. by left.
  - rewrite delete_id by done. lia.
Qed.

Lemma waiting_pos at_ h i j : at_ !! h = Some i -> (i <= j)%nat -> 1 <= waiting at_ j.
Proof.
  intros Hh Hij. unfold waiting.
  assert (filter (fun hi : nat * nat => (hi.2 <= j)%nat) at_ !! h = Some i) as Hf by by apply map_lookup_filter_Some.
  destruct (decide (size (filter (fun hi : nat * nat => (hi.2 <= j)%nat) at_) = 0%nat)) as [E|]; [|lia].
  apply map_size_empty_inv in E. by rewrite E, lookup_empty in Hf.
Qed.

Lemma waiting_le at_ j : 0 <= waiting at_ j <= Z.of_nat (size at_).
Proof.
  unfold waiting. split; [lia|]. apply Nat2Z.inj_le, map_subseteq_size, map_filter_subseteq.
Qed.

Lemma waiting_all at_ j : (forall h i, at_ !! h = Some i -> (i <= j)%nat) -> waiting at_ j = Z.of_nat (size at_).
Proof.
  intros Hall. unfold waiting. rewrite map_filter_id; [done|]. intros h i Hh. by eapply Hall.
Qed.

Lemma waiting_shift at_ k j :
  (forall h i, at_ !! h = Some i -> (k <= i)%nat) ->
  waiting ((fun i => i - k)%nat <$> at_) j = waiting at_ (k + j).
Proof.
  intros Hk. unfold waiting. f_equal.
  assert (filter (fun hi : nat * nat => (hi.2 <= j)%nat) ((fun i => i - k)%nat <$> at_) =
    (fun i => i - k)%nat <$> filter (fun hi : nat * nat => (hi.2 <= k + j)%nat) at_) as ->.
  { apply map_eq. intros h. apply option_eq. intros x.
    rewrite map_lookup_filter_Some, !lookup_fmap, !fmap_Some. cbn. split.
    - intros [(i & Hi & ->) Hj]. exists i. rewrite map_lookup_filter_Some. cbn.
      split; [split; [done|lia]|done].
    - intros (i & Hi & ->). apply map_lookup_filter_Some in Hi as [Hi Hj]. cbn in Hj.
      split; [by exists i|]. pose proof (Hk h i Hi). lia. }
  by rewrite map_size_fmap.
Qed.

(** ** Runs *)

Lemma node_run s p c : nodes s !! p = Some c -> node p s = (Val c, s).
Proof. intros Hc. unfold node. by rewrite Hc. Qed.

Lemma in_nodup s l spare at_ i p :
  Inv s l spare at_ -> l !! i = Some p -> p <> latest s /\ p ∉ spare.
Proof.
  intros HI Hi. pose proof (i_nodup _ _ _ _ HI) as Hn. apply list.NoDup_app in Hn as (_ & Hn & _).
  assert (p ∈ l) as Hp by by apply list_elem_of_lookup_2 in Hi.
  specialize (Hn p Hp). rewrite elem_of_cons in Hn. naive_solver.
Qed.

Lemma pointer_lt s l i : (i < length l)%nat -> l !! i = Some (pointer s l i).
Proof. intros Hi. unfold pointer. by destruct (lookup_lt_is_Some_2 l i Hi) as (p & ->). Qed.

Lemma pointer_end s l : pointer s l (length l) = latest s.
Proof. unfold pointer. by rewrite lookup_ge_None_2. Qed.

Lemma pointer_latest s l spare at_ i :
  Inv s l spare at_ -> (i <= length l)%nat -> pointer s l i = latest s <-> i = length l.
Proof.
  intros HI Hi. split; [|intros ->; apply pointer_end]. intros E.
  destruct (decide (i = length l)); [done|]. pose proof (pointer_lt s l i ltac:(lia)) as Hp.
  destruct (in_nodup _ _ _ _ _ _ HI Hp). congruence.
Qed.

(** A change that one reader handles. *)
Lemma markHandled_run s l spare at_ h i :
  Inv s l spare at_ -> at_ !! h = Some i -> (i < length l)%nat ->
  exists s' c, nodes s !! pointer s l i = Some c /\
    markHandled (pointer s l i) s = (Val (Some (pointer s l (S i))), s') /\
    Inv s' l spare (<[h:=S i]> at_) /\ latest s' = latest s /\
    event_of <$> nodes s' = event_of <$> nodes s.
Proof.
  intros HI Hh Hi. pose proof (pointer_lt s l i Hi) as Hp. set (p := pointer s l i) in *.
  destruct (i_chain _ _ _ _ HI i p Hp) as (c & Hc & Hn & Ht).
  pose proof (waiting_pos at_ h i i Hh ltac:(done)) as H1. pose proof (waiting_le at_ i) as H2.
  pose proof (i_small _ _ _ _ HI) as Hs.
  set (s' := set_nodes <[p:=with_tocheck (tocheck c - 1) c]> s).
  exists s', c. split; [done|]. split.
  { unfold markHandled. rewrite (bind_val _ _ _ _ _ (node_run _ _ _ Hc)).
    rewrite u32_id by (unfold is_u32; lia). by rewrite <- Hn. }
  destruct (in_nodup _ _ _ _ _ _ HI Hp) as [Hpl Hps].
  split; [|split; [done|]].
  - destruct HI as [Hf Hch Hl Hsp Hnd Hfr Hat Hsm]. split; try done.
    + intros j q Hq. destruct (Hch j q Hq) as (d & Hd & Hdn & Hdt).
      change (pointer s' l (S j)) with (pointer s l (S j)). cbn [nodes s' set_nodes].
      rewrite (waiting_insert _ _ _ _ _ Hh). destruct (decide (q = p)) as [->|Hne].
      * assert (j = i) as ->.
        { apply list.NoDup_app in Hnd as (Hnd & _ & _). by eapply NoDup_lookup. }
        rewrite lookup_insert_eq. eexists. split; [done|]. cbn. assert (d = c) as -> by congruence.
        split; [done|]. rewrite decide_True, decide_False by lia. lia.
      * rewrite lookup_insert_ne by done. exists d. split_and!; [done|done|]. rewrite Hdt.
        assert (j <> i) by congruence.
        destruct (decide (i <= j)%nat), (decide (S i <= j)%nat); lia.
    + destruct Hl as (d & Hd & Hdn). exists d. cbn. by rewrite lookup_insert_ne by done.
    + intros j q Hq. destruct (Hsp j q Hq) as (d & Hd & Hdn). exists d. cbn.
      rewrite lookup_insert_ne; [done|]. intros ->. apply Hps. by eapply list_elem_of_lookup_2.
    + intros q d. cbn. destruct (decide (q = p)) as [->|Hne]; [|rewrite lookup_insert_ne by done; apply Hfr].
      intros _. by apply (Hfr p c).
    + intros h' j. destruct (decide (h' = h)) as [->|Hne].
      * rewrite lookup_insert_eq. intros [= <-]. lia.
      * rewrite lookup_insert_ne by done. apply Hat.
    + by rewrite map_size_insert_Some by eauto.
  - cbn. rewrite fmap_insert. apply insert_id. by rewrite lookup_fmap, Hc.
Qed.

(** The first change is checked by all: its node goes to the spares. *)
Lemma recycle_first_run s p l spare at_ :
  Inv s (p :: l) spare at_ -> waiting at_ 0 = 0 ->
  exists s', recycle_first s = (Val tt, s') /\
    Inv s' l (p :: spare) ((fun i => i - 1)%nat <$> at_) /\ latest s' = latest s /\
    event_of <$> nodes s' = event_of <$> nodes s /\ first s = p /\
    forall h i, at_ !! h = Some i -> (1 <= i)%nat.
Proof.
  intros HI H0.
  assert (forall h i, at_ !! h = Some i -> (1 <= i)%nat) as Hpos.
  { intros h i Hh. destruct i; [|lia]. pose proof (waiting_pos at_ h 0 0 Hh ltac:(done)). lia. }
  pose proof (i_first _ _ _ _ HI) as Ef. change (pointer s (p :: l) 0) with p in Ef.
  destruct (i_chain _ _ _ _ HI 0 p eq_refl) as (c & Hc & Hn & Ht).
  destruct (i_latest _ _ _ _ HI) as (d & Hd & Hdn).
  destruct (in_nodup _ _ _ _ 0%nat p HI eq_refl) as [Hpl Hps].
  set (s' := mkList (<[latest s:=with_next (Some p) d]> (<[p:=with_next (next d) c]> (nodes s)))
    (pointer s (p :: l) 1) (latest s) (next_node s)).
  exists s'. split.
  { unfold recycle_first. rewrite (bind_val _ _ _ s s) by reflexivity. rewrite Ef.
    rewrite (bind_val _ _ _ _ _ (node_run _ _ _ Hc)). unfold insert.
    erewrite bind_val.
    2: { rewrite (bind_val _ _ _ _ _ (node_run _ _ _ Hd)), (bind_val _ _ _ _ _ (node_run _ _ _ Hc)).
         rewrite (bind_val _ _ _ tt (set_nodes <[p:=with_next (next d) c]> s)) by reflexivity.
         rewrite (bind_val _ _ _ d (set_nodes <[p:=with_next (next d) c]> s))
           by (apply node_run; cbn; by rewrite lookup_insert_ne by done).
         reflexivity. }
    rewrite Hn. reflexivity. }
  assert (forall q e, q <> p -> q <> latest s -> nodes s !! q = Some e -> nodes s' !! q = Some e) as Hq.
  { intros q e H1 H2 He. cbn. by rewrite !lookup_insert_ne by done. }
  assert (forall j, pointer s' l j = pointer s (p :: l) (S j)) as Hptr by done.
  split; [|split_and!; [done| |done|done]].
  - pose proof HI as [Hf Hch Hl Hsp Hnd Hfr Hat Hsm]. split.
    + by rewrite Hptr.
    + intros j q Hj. destruct (Hch (S j) q Hj) as (e & He & Hen & Het).
      destruct (in_nodup _ _ _ _ (S j) q HI Hj) as [Hql _].
      assert (q <> p) as Hqp.
      { intros ->. apply list.NoDup_app in Hnd as (Hnd & _ & _).
        pose proof (NoDup_lookup (p :: l) (S j) 0 p Hnd Hj eq_refl). lia. }
      exists e. split_and!; [by apply Hq|done|]. rewrite Het, waiting_shift by done. done.
    + exists (with_next (Some p) d). cbn. by rewrite lookup_insert_eq.
    + intros [|j] q Hj; cbn in Hj.
      * injection Hj as <-. exists (with_next (next d) c). cbn.
        rewrite lookup_insert_ne, lookup_insert_eq by done. split; [done|]. cbn. rewrite Hdn. by destruct spare.
      * destruct (Hsp j q Hj) as (e & He & Hen). exists e. split; [|done]. apply Hq; [| |done].
        -- intros ->. apply Hps. by eapply list_elem_of_lookup_2.
        -- intros ->. apply list.NoDup_app in Hnd as (_ & _ & Hnd). apply list.NoDup_cons in Hnd as [Hnd _].
           apply Hnd. by eapply list_elem_of_lookup_2.
    + cbn. cbn in Hnd. rewrite <- !Permutation_middle. rewrite <- Permutation_middle in Hnd.
      by rewrite (perm_swap p (latest s)).
    + intros q e. cbn. destruct (decide (q = latest s)) as [->|H1].
      { intros _. by eapply Hfr. }
      rewrite lookup_insert_ne by done. destruct (decide (q = p)) as [->|H2].
      { intros _. by eapply Hfr. }
      rewrite lookup_insert_ne by done. apply Hfr.
    + intros h i Hi. rewrite lookup_fmap in Hi. apply fmap_Some in Hi as (j & Hj & ->).
      specialize (Hat h j Hj). cbn in Hat. lia.
    + by rewrite map_size_fmap.
  - cbn. rewrite !fmap_insert. rewrite (insert_id _ p) by (by rewrite lookup_fmap, Hc).
    apply insert_id. by rewrite lookup_fmap, Hd.
Qed.

(** How far recycling goes: [k] nodes at the front, none of which a reader
    has in front of it. *)
Record recycled (s s' : ChangeList) (l spare l' spare' : list nat) (at_ : gmap nat nat) (k : nat) : Prop := {
  r_inv : Inv s' l' spare' ((fun i => i - k)%nat <$> at_);
  r_list : l' = drop k l;
  r_latest : latest s' = latest s;
  r_events : event_of <$> nodes s' = event_of <$> nodes s;
  r_at h i : at_ !! h = Some i -> (k <= i)%nat;
  r_le : (k <= length l)%nat
}.

Lemma recycled_none s l spare at_ : Inv s l spare at_ -> recycled s s l spare l spare at_ 0.
Proof.
  intros HI. split; try done; [|lia|lia].
  assert ((fun i => i - 0)%nat <$> at_ = at_) as ->; [|done].
  rewrite <- (map_fmap_id at_) at 2. apply map_fmap_ext. intros h i _. cbn. lia.
Qed.

Lemma recycled_step s p l spare at_ s1 :
  Inv s1 l (p :: spare) ((fun i => i - 1)%nat <$> at_) -> latest s1 = latest s ->
  event_of <$> nodes s1 = event_of <$> nodes s ->
  (forall h i, at_ !! h = Some i -> (1 <= i)%nat) ->
  forall s2 l2 spare2 k, recycled s1 s2 l (p :: spare) l2 spare2 ((fun i => i - 1)%nat <$> at_) k ->
  recycled s s2 (p :: l) spare l2 spare2 at_ (S k).
Proof.
  intros HI El Ee Hpos s2 l2 spare2 k [Hr Hl Hla Hev Hat Hle]. split; try congruence.
  - assert ((fun i => i - S k)%nat <$> at_ = (fun i => i - k)%nat <$> ((fun i => i - 1)%nat <$> at_)) as ->; [|done].
    rewrite <- map_fmap_compose. apply map_fmap_ext. intros h i _. cbn. lia.
  - done.
  - intros h i Hh. pose proof (Hpos h i Hh). specialize (Hat h (i - 1)%nat).
    rewrite lookup_fmap, Hh in Hat. specialize (Hat eq_refl). lia.
  - cbn. lia.
Qed.

Lemma recycleConfigChanges_run fuel : forall s l spare at_,
  Inv s l spare at_ -> (length l < fuel)%nat ->
  exists s' l' spare' k, recycleConfigChanges fuel s = (Val tt, s') /\
    recycled s s' l spare l' spare' at_ k.
Proof.
  induction fuel as [|fuel IH]; intros s l spare at_ HI Hf; [lia|]. cbn [recycleConfigChanges].
  rewrite (bind_val _ _ _ s s) by reflexivity. pose proof (i_first _ _ _ _ HI) as Ef.
  destruct l as [|p l].
  { rewrite bool_decide_true by done. exists s, [], spare, 0%nat. split; [done|by apply recycled_none]. }
  change (pointer s (p :: l) 0) with p in Ef.
  destruct (in_nodup _ _ _ _ 0%nat p HI eq_refl) as [Hpl _].
  rewrite bool_decide_false by congruence. rewrite Ef.
  destruct (i_chain _ _ _ _ HI 0 p eq_refl) as (c & Hc & _ & Ht).
  rewrite (bind_val _ _ _ _ _ (node_run _ _ _ Hc)).
  destruct (_ || _) eqn:Ed.
  { exists s, (p :: l), spare, 0%nat. split; [done|by apply recycled_none]. }
  apply orb_false_iff in Ed as [_ Ed]. apply negb_false_iff, Z.eqb_eq in Ed.
  destruct (recycle_first_run s p l spare at_ HI ltac:(lia)) as (s1 & E1 & HI1 & El & Ee & _ & Hpos).
  rewrite (bind_val _ _ _ _ _ E1).
  destruct (IH s1 l (p :: spare) _ HI1 ltac:(cbn in Hf; lia)) as (s2 & l2 & spare2 & k & E2 & Hr).
  exists s2, l2, spare2, (S k). split; [done|]. by eapply recycled_step.
Qed.

Lemma length_nodes s l spare at_ : Inv s l spare at_ -> (length l < size (nodes s))%nat.
Proof.
  intros HI. pose proof (i_nodup _ _ _ _ HI) as Hn.
  assert (l ++ [latest s] ⊆ elements (dom (D:=gset nat) (nodes s))) as Hs.
  { intros x Hx. apply elem_of_app in Hx as [Hx|Hx]; apply elem_of_elements, elem_of_dom;
      [apply list_elem_of_lookup in Hx as (i & Hi)|apply list_elem_of_singleton in Hx as ->].
    - destruct (i_chain _ _ _ _ HI i x Hi) as (c & Hc & _). eauto.
    - destruct (i_latest _ _ _ _ HI) as (c & Hc & _). eauto. }
  change (l ++ latest s :: spare) with (l ++ [latest s] ++ spare) in Hn.
  rewrite app_assoc in Hn. apply list.NoDup_app in Hn as (Hn & _ & _).
  pose proof (submseteq_length _ _ (NoDup_submseteq _ _ Hn Hs)) as Hl. rewrite length_app in Hl. cbn in Hl.
  rewrite <- size_dom. unfold size, set_size. cbn. lia.
Qed.

(** Nodes that are there keep what they tell. *)
Definition keeps (s s' : ChangeList) : Prop :=
  forall q c, nodes s !! q = Some c -> event_of <$> nodes s' !! q = Some (event_of c).

Lemma keeps_events s s' : event_of <$> nodes s' = event_of <$> nodes s -> keeps s s'.
Proof.
  intros E q c Hc. assert ((event_of <$> nodes s') !! q = (event_of <$> nodes s) !! q) as Hq by by rewrite E.
  rewrite !lookup_fmap, Hc in Hq. done.
Qed.

Lemma sentinel_run s l spare at_ : Inv s l spare at_ ->
  exists s' p sp, sentinel s = (Val tt, s') /\ Inv s' l (p :: sp) at_ /\ latest s' = latest s /\ keeps s s'.
Proof.
  intros HI. destruct (i_latest _ _ _ _ HI) as (d & Hd & Hdn). unfold sentinel.
  rewrite (bind_val _ _ _ s s) by reflexivity. rewrite (bind_val _ _ _ _ _ (node_run _ _ _ Hd)).
  destruct spare as [|p sp]; rewrite Hdn; cbn [head].
  2: { exists s, p, sp. split_and!; [done|done|done|by apply keeps_events]. }
  set (p := next_node s).
  assert (forall q c, nodes s !! q = Some c -> q <> p) as Hnew.
  { intros q c Hq ->. pose proof (i_fresh _ _ _ _ HI _ _ Hq). subst p. lia. }
  set (s1 := mkList (<[p:=mkChange Sentinel 0 None None]> (nodes s)) (first s) (latest s) (S p)).
  set (s2 := set_nodes <[latest s:=with_next (Some p) d]> s1). exists s2, p, [].
  assert (nodes s1 !! latest s = Some d) as Hd1.
  { cbn. rewrite lookup_insert_ne; [done|]. apply not_eq_sym. by eapply Hnew. }
  split_and!; [| |done|].
  - unfold new. rewrite (bind_val _ _ _ p s1) by reflexivity.
    by rewrite (bind_val _ _ _ _ _ (node_run s1 _ _ Hd1)).
  - pose proof HI as [Hf Hch Hl Hsp Hnd Hfr Hat Hsm]. split; try done.
    + intros j q Hj. destruct (Hch j q Hj) as (e & He & Hen & Het). exists e.
      destruct (in_nodup _ _ _ _ _ _ HI Hj) as [Hql _]. split_and!; [|done|done]. cbn.
      rewrite !lookup_insert_ne; [done| |done]. apply not_eq_sym. by eapply Hnew.
    + eexists. split; [cbn; apply lookup_insert_eq|done].
    + intros [|j] q Hj; cbn in Hj; [|done]. injection Hj as <-. eexists. cbn.
      rewrite lookup_insert_ne by (by eapply Hnew). by rewrite lookup_insert_eq.
    + cbn. change (l ++ [latest s; p]) with (l ++ [latest s] ++ [p]). rewrite app_assoc.
      apply list.NoDup_app. split_and!; [done| |apply NoDup_singleton].
      intros x Hx ->%list_elem_of_singleton. apply elem_of_app in Hx as [Hx|Hx].
      * apply list_elem_of_lookup in Hx as (i & Hi). destruct (Hch i p Hi) as (c & Hc & _). by eapply Hnew.
      * apply list_elem_of_singleton in Hx. by eapply Hnew.
    + intros q e. cbn. destruct (decide (q = latest s)) as [->|H1].
      { intros _. pose proof (Hfr _ _ Hd). lia. }
      rewrite lookup_insert_ne by done. destruct (decide (q = p)) as [->|H2]; [lia|].
      rewrite lookup_insert_ne by done. intros He. pose proof (Hfr _ _ He). lia.
  - intros q c Hc. cbn. destruct (decide (q = latest s)) as [->|H1].
    + rewrite lookup_insert_eq. cbn. by assert (c = d) as -> by congruence.
    + rewrite !lookup_insert_ne; [by rewrite Hc| |done]. apply not_eq_sym. by eapply Hnew.
Qed.

(** A change is announced to all readers; those that have not handled what
    is in front of it do that first. *)
Lemma announce_run s l spare at_ ct e :
  Inv s l spare at_ ->
  exists s' k spare', announce ct (Z.of_nat (size at_)) e s = (Val tt, s') /\
    Inv s' (drop k l ++ [latest s]) spare' ((fun i => i - k)%nat <$> at_) /\
    (forall h i, at_ !! h = Some i -> (k <= i)%nat) /\ (k <= length l)%nat /\
    (forall q, q ∈ l -> event_of <$> nodes s' !! q = event_of <$> nodes s !! q) /\
    event_of <$> nodes s' !! latest s = Some (ct, Some e).
Proof.
  intros HI. unfold announce. rewrite (bind_val _ _ _ s s) by reflexivity.
  destruct (recycleConfigChanges_run (S (size (nodes s))) s l spare at_ HI) as
    (s1 & l1 & spare1 & k & E1 & [HI1 El Ela Eev Hk Hkl]).
  { pose proof (length_nodes _ _ _ _ HI). lia. }
  rewrite (bind_val _ _ _ _ _ E1), (bind_val _ _ _ s1 s1) by reflexivity.
  destruct (sentinel_run s1 l1 spare1 _ HI1) as (s2 & p & sp & E2 & HI2 & El2 & Hkp).
  rewrite (bind_val _ _ _ _ _ E2). destruct (i_latest _ _ _ _ HI2) as (d & Hd & Hdn). rewrite El2 in Hd.
  set (d' := mkChange ct (Z.of_nat (size at_)) (Some e) (next d)).
  set (s3 := set_nodes <[latest s1:=d']> s2).
  assert (nodes s3 !! latest s1 = Some d') as Hd3 by (cbn; by rewrite lookup_insert_eq).
  exists (set_latest p s3), k, sp. split.
  { unfold setData. erewrite (bind_val _ _ _ tt s3)
      by (rewrite (bind_val _ _ _ _ _ (node_run _ _ _ Hd)); reflexivity).
    rewrite (bind_val _ _ _ _ _ (node_run s3 _ _ Hd3)). cbn [next d']. rewrite Hdn. reflexivity. }
  rewrite <- Ela, <- El. set (at1 := (fun i => i - k)%nat <$> at_) in *.
  assert (size at1 = size at_) as Hsz by apply map_size_fmap.
  pose proof HI2 as [Hf Hch Hl Hsp Hnd Hfr Hat Hsm]. rewrite El2 in Hnd.
  split_and!; [|done|done| |].
  - assert (forall j, (j <= length l1)%nat -> pointer (set_latest p s3) (l1 ++ [latest s1]) j = pointer s2 l1 j) as Hptr.
    { intros j Hj. unfold pointer. cbn [latest set_latest]. rewrite El2.
      destruct (decide (j = length l1)) as [->|Hne].
      - rewrite lookup_app_r by done. rewrite Nat.sub_diag. by rewrite (lookup_ge_None_2 l1) by done.
      - rewrite lookup_app_l by lia. by destruct (lookup_lt_is_Some_2 l1 j ltac:(lia)) as (x & ->). }
    split.
    + cbn [first set_latest s3 set_nodes]. rewrite Hptr by lia. done.
    + intros j q Hj. destruct (decide (j = length l1)) as [->|Hne].
      * rewrite lookup_app_r, Nat.sub_diag in Hj by done. injection Hj as <-. exists d'.
        split_and!; [done| |].
        -- cbn [next d']. rewrite Hdn. cbn. unfold pointer. rewrite lookup_ge_None_2; [done|].
           rewrite length_app. cbn. lia.
        -- cbn [tocheck d']. rewrite <- Hsz. symmetry. apply waiting_all. exact Hat.
      * assert (j < length l1)%nat as Hlt.
        { apply lookup_lt_Some in Hj. rewrite length_app in Hj. cbn in Hj. lia. }
        rewrite lookup_app_l in Hj by done. destruct (Hch j q Hj) as (c & Hc & Hcn & Hct).
        destruct (in_nodup _ _ _ _ _ _ HI2 Hj) as [Hql _]. exists c. split_and!; [|by rewrite Hptr by lia|done].
        cbn. rewrite lookup_insert_ne by congruence. done.
    + destruct (Hsp 0%nat p eq_refl) as (c & Hc & Hcn). exists c. cbn [latest set_latest nodes s3 set_nodes].
      assert (p <> latest s1) as Hp.
      { intros ->. apply list.NoDup_app in Hnd as (_ & _ & Hnd). apply list.NoDup_cons in Hnd as [Hnd _].
        apply Hnd. left. }
      rewrite lookup_insert_ne by done. split; [done|]. rewrite Hcn. by destruct sp.
    + intros j q Hj. destruct (Hsp (S j) q Hj) as (c & Hc & Hcn). exists c. cbn.
      assert (q <> latest s1) as Hp.
      { intros ->. apply list.NoDup_app in Hnd as (_ & _ & Hnd). apply list.NoDup_cons in Hnd as [Hnd _].
        apply Hnd. right. by eapply list_elem_of_lookup_2. }
      by rewrite lookup_insert_ne by done.
    + cbn. by rewrite <- app_assoc.
    + intros q c. cbn. destruct (decide (q = latest s1)) as [->|Hne].
      { intros _. by eapply Hfr. }
      rewrite lookup_insert_ne by done. apply Hfr.
    + intros h i Hi. specialize (Hat h i Hi). rewrite length_app. cbn. lia.
    + done.
  - intros q Hq. apply list_elem_of_lookup in Hq as (i & Hi).
    destruct (i_chain _ _ _ _ HI i q Hi) as (c & Hc & _). destruct (in_nodup _ _ _ _ _ _ HI Hi) as [Hql _].
    cbn. rewrite lookup_insert_ne by congruence. rewrite Hc.
    pose proof (keeps_events _ _ Eev q c Hc) as H1.
    destruct (nodes s1 !! q) as [c1|] eqn:Hc1; [|done].
    etransitivity; [exact (Hkp q c1 Hc1)|exact H1].
  - cbn. rewrite lookup_insert_eq. done.
Qed.

(** A reader comes in at the end; it leaves from there. *)
Lemma join_inv s l spare at_ h :
  Inv s l spare at_ -> at_ !! h = None -> Z.of_nat (size at_) + 1 < 4294967296 ->
  Inv s l spare (<[h:=length l]> at_).
Proof.
  intros [Hf Hch Hl Hsp Hnd Hfr Hat Hsm] Hh Hb. split; try done.
  - intros i p Hi. destruct (Hch i p Hi) as (c & Hc & Hn & Ht). exists c. split_and!; [done|done|].
    rewrite waiting_new by done. rewrite decide_False; [lia|]. apply lookup_lt_Some in Hi. lia.
  - intros h' i. destruct (decide (h' = h)) as [->|Hne].
    + rewrite lookup_insert_eq. by intros [= <-].
    + rewrite lookup_insert_ne by done. apply Hat.
  - rewrite map_size_insert_None by done. lia.
Qed.

Lemma leave_inv s l spare at_ h :
  Inv s l spare at_ -> at_ !! h = Some (length l) -> Inv s l spare (delete h at_).
Proof.
  intros [Hf Hch Hl Hsp Hnd Hfr Hat Hsm] Hh. split; try done.
  - intros i p Hi. destruct (Hch i p Hi) as (c & Hc & Hn & Ht). exists c. split_and!; [done|done|].
    rewrite Ht, <- (insert_delete_id at_ h (length l)) at 1 by done.
    rewrite waiting_new by apply lookup_delete_eq.
    rewrite decide_False; [lia|]. apply lookup_lt_Some in Hi. lia.
  - intros h' i [_ Hi]%lookup_delete_Some. by eapply Hat.
  - rewrite map_size_delete_Some by eauto. lia.
Qed.

Lemma empty_inv : Inv make [] [] ∅.
Proof.
  split; try done.
  - by eexists.
  - apply NoDup_singleton.
  - intros p c. cbn. intros [<- <-]%lookup_singleton_Some. lia.
Qed.

(** ** The list with its readers *)

Inductive Op :=
  | Announce (ct : ConfigEvent) (e : nat)
  | Join (h : nat)
  | Handle (h : nat)
  | Leave (h : nat)
  | Clean.

Definition System : Type := ChangeList * gmap nat nat.

Definition on_list {A} (m : M ChangeList A) : M System A := fun w =>
  let (r, s) := m w.1 in (r, (s, w.2)).
Definition set_pointer (h p : nat) : M System unit := modify (fun w => (w.1, <[h:=p]> w.2)).

(** What the end does with the list: [updateConfiguration], [addReadToken],
    a turn of the loop of [refreshClientHandleInner], [removeReadToken], a turn
    of the loop for [CleanEntryCmd]. *)
Definition exec (o : Op) : M System (option event) :=
  w ← get;
  match o with
  | Announce ct e => on_list (announce ct (Z.of_nat (size w.2)) e);; mret None
  | Join h => set_pointer h (latest w.1);; mret None
  | Handle h =>
      p ← of_option NullDeref (w.2 !! h);
      if bool_decide (p = latest w.1) then mret None
      else
        c ← on_list (node p);
        n ← on_list (markHandled p);
        n ← of_option NullDeref n;
        set_pointer h n;;
        mret (Some (event_of c))
  | Leave h => modify (fun w => (w.1, delete h w.2));; mret None
  | Clean =>
      c ← on_list checked_first;
      match c with
      | Some _ => on_list recycle_first;; mret None
      | None => mret None
      end
  end.

Fixpoint exec_all (ops : list Op) : M System (list (option event)) :=
  match ops with
  | [] => mret []
  | o :: ops => r ← exec o; rs ← exec_all ops; mret (r :: rs)
  end.

(** The same with a queue for each reader; [None] where a reader is not known,
    or leaves with changes it has not handled. *)
Definition spec (o : Op) (q : gmap nat (list event)) : option (gmap nat (list event) * option event) :=
  match o with
  | Announce ct e => Some ((fun x => x ++ [(ct, Some e)]) <$> q, None)
  | Join h => if bool_decide (q !! h = None) then Some (<[h:=[]]> q, None) else None
  | Handle h =>
      match q !! h with
      | Some (x :: l) => Some (<[h:=l]> q, Some x)
      | Some [] => Some (q, None)
      | None => None
      end
  | Leave h => if bool_decide (q !! h = Some []) then Some (delete h q, None) else None
  | Clean => Some (q, None)
  end.

Fixpoint spec_all (ops : list Op) (q : gmap nat (list event))
    : option (gmap nat (list event) * list (option event)) :=
  match ops with
  | [] => Some (q, [])
  | o :: ops => '(q, r) ← spec o q; '(q, rs) ← spec_all ops q; Some (q, r :: rs)
  end.

Definition implements (w : System) (q : gmap nat (list event)) : Prop :=
  exists l spare at_, Inv w.1 l spare at_ /\ w.2 = pointer w.1 l <$> at_ /\
    q = (fun i => events (nodes w.1) (drop i l)) <$> at_.

Lemma events_same m m' l :
  (forall p, p ∈ l -> event_of <$> m' !! p = event_of <$> m !! p) -> events m' l = events m l.
Proof.
  intros E. apply list_omap_ext, Forall2_same_length_lookup_2; [done|].
  intros i x y Hx Hy. rewrite Hx in Hy. injection Hy as <-. apply E. by eapply list_elem_of_lookup_2.
Qed.

Lemma events_fmap m m' l : event_of <$> m' = event_of <$> m -> events m' l = events m l.
Proof.
  intros E. apply events_same. intros p _.
  assert ((event_of <$> m') !! p = (event_of <$> m) !! p) as Hp by by rewrite E.
  by rewrite !lookup_fmap in Hp.
Qed.

Lemma events_cons m p l c : m !! p = Some c -> events m (p :: l) = event_of c :: events m l.
Proof. intros Hc. unfold events. cbn. by rewrite Hc. Qed.

Lemma events_app m l1 l2 : events m (l1 ++ l2) = events m l1 ++ events m l2.
Proof. apply omap_app. Qed.

Lemma handle_step s l spare at_ h i :
  Inv s l spare at_ -> at_ !! h = Some i -> (i < length l)%nat ->
  exists c, nodes s !! pointer s l i = Some c /\
    events (nodes s) (drop i l) = event_of c :: events (nodes s) (drop (S i) l).
Proof.
  intros HI Hh Hi. pose proof (pointer_lt s l i Hi) as Hp.
  destruct (i_chain _ _ _ _ HI i _ Hp) as (c & Hc & _). exists c. split; [done|].
  rewrite (drop_S _ _ _ Hp). by apply events_cons.
Qed.

Lemma shift_pointer s s' l k i :
  (k <= i)%nat -> (i <= length l)%nat -> latest s' = latest s -> pointer s' (drop k l) (i - k) = pointer s l i.
Proof.
  intros Hk Hi El. unfold pointer. rewrite El, lookup_drop. by replace (k + (i - k))%nat with i by lia.
Qed.

Lemma run_on_list {A} (m : M ChangeList A) s s' (ptrs : gmap nat nat) a :
  m s = (Val a, s') -> on_list m (s, ptrs) = (Val a, (s', ptrs)).
Proof. intros E. unfold on_list. cbn [fst snd]. by rewrite E. Qed.

Section Steps.
Context (s : ChangeList) (l spare : list nat) (at_ : gmap nat nat) (HI : Inv s l spare at_).

Let ptrs : gmap nat nat := pointer s l <$> at_.
Let q : gmap nat (list event) := (fun i => events (nodes s) (drop i l)) <$> at_.

(** The step from here to [w'] with the queues [q']. *)
Definition steps_to (o : Op) (r : option event) (q' : gmap nat (list event)) : Prop :=
  exists w', exec o (s, ptrs) = (Val r, w') /\ implements w' q'.

Lemma announce_step ct e : steps_to (Announce ct e) None ((fun x => x ++ [(ct, Some e)]) <$> q).
Proof.
  destruct (announce_run s l spare at_ ct e HI) as (s' & k & sp' & E & HI' & Hk & Hkl & Hev & Hlast).
  exists (s', ptrs). split.
  { unfold exec. rewrite (bind_val _ _ _ (s, ptrs) (s, ptrs)) by reflexivity.
    erewrite bind_val; [reflexivity|]. apply run_on_list. cbn [snd]. unfold ptrs. by rewrite map_size_fmap. }
  exists (drop k l ++ [latest s]), sp', ((fun i => i - k)%nat <$> at_). cbn [fst snd].
  split; [done|]. unfold ptrs, q. rewrite <- !map_fmap_compose.
  split; apply map_fmap_ext; intros h i Hi; unfold compose;
    pose proof (i_at _ _ _ _ HI h i Hi); pose proof (Hk h i Hi).
  - unfold pointer. destruct (decide (i = length l)) as [->|Hne].
    + rewrite lookup_app_r by (rewrite length_drop; lia).
      rewrite length_drop, Nat.sub_diag. cbn. by rewrite lookup_ge_None_2.
    + rewrite lookup_app_l by (rewrite length_drop; lia). rewrite lookup_drop.
      replace (k + (i - k))%nat with i by lia.
      by destruct (lookup_lt_is_Some_2 l i ltac:(lia)) as (x & ->).
  - rewrite skipn_app, drop_drop, events_app, length_drop.
    replace (k + (i - k))%nat with i by lia.
    replace (i - k - (length l - k))%nat with 0%nat by lia. f_equal.
    + symmetry. apply events_same. intros p Hp. apply Hev. by eapply elem_of_subseteq; [apply subseteq_drop|].
    + unfold events. cbn. by rewrite Hlast.
Qed.

Lemma join_step h : q !! h = None -> Z.of_nat (size at_) + 1 < 4294967296 ->
  steps_to (Join h) None (<[h:=[]]> q).
Proof.
  intros Hn Hb. assert (at_ !! h = None) as Hh.
  { unfold q in Hn. rewrite lookup_fmap in Hn. by destruct (at_ !! h). }
  eexists. split; [reflexivity|]. exists l, spare, (<[h:=length l]> at_). cbn [fst snd].
  split; [by apply join_inv|]. by rewrite !fmap_insert, pointer_end, drop_all.
Qed.

Lemma handle_op_step h x : q !! h = Some x ->
  steps_to (Handle h) (head x) (match x with [] => q | _ :: x => <[h:=x]> q end).
Proof.
  intros Hq. unfold q in Hq. rewrite lookup_fmap in Hq. apply fmap_Some in Hq as (i & Hi & ->).
  pose proof (i_at _ _ _ _ HI h i Hi) as Hil. unfold steps_to, exec.
  rewrite (bind_val _ _ _ (s, ptrs) (s, ptrs)) by reflexivity. cbn [fst snd].
  assert (ptrs !! h = Some (pointer s l i)) as Ep by (unfold ptrs; by rewrite lookup_fmap, Hi).
  rewrite Ep. cbn [of_option]. rewrite mret_bind.
  rewrite (bool_decide_ext _ _ (pointer_latest _ _ _ _ i HI Hil)).
  destruct (decide (i = length l)) as [->|Hne].
  { rewrite bool_decide_true, drop_all by done. eexists. split; [reflexivity|].
    by exists l, spare, at_. }
  rewrite bool_decide_false by done.
  destruct (handle_step _ _ _ _ _ _ HI Hi ltac:(lia)) as (c & Hc & ->). cbn [head].
  destruct (markHandled_run s l spare at_ h i HI Hi ltac:(lia)) as (s' & c' & _ & E & HI' & El & Ee).
  eexists. split.
  { rewrite (bind_val _ _ _ _ _ (run_on_list _ _ _ ptrs _ (node_run _ _ _ Hc))).
    rewrite (bind_val _ _ _ _ _ (run_on_list _ _ _ ptrs _ E)). reflexivity. }
  exists l, spare, (<[h:=S i]> at_). cbn [fst snd]. split_and!; [done| |].
  - unfold ptrs. rewrite fmap_insert. unfold pointer. by rewrite El.
  - unfold q. rewrite fmap_insert. f_equal; [by rewrite (events_fmap _ _ _ Ee)|].
    apply map_fmap_ext. intros h' j _. by rewrite (events_fmap _ _ _ Ee).
Qed.

Lemma leave_step h : q !! h = Some [] -> steps_to (Leave h) None (delete h q).
Proof.
  intros Hq. unfold q in Hq. rewrite lookup_fmap in Hq. apply fmap_Some in Hq as (i & Hi & Ex).
  pose proof (i_at _ _ _ _ HI h i Hi) as Hil. assert (i = length l) as ->.
  { destruct (decide (i = length l)); [done|].
    destruct (handle_step _ _ _ _ _ _ HI Hi ltac:(lia)) as (c & _ & Ec). congruence. }
  eexists. split; [reflexivity|]. exists l, spare, (delete h at_). cbn [fst snd].
  split; [by apply leave_inv|]. by rewrite !fmap_delete.
Qed.

Lemma clean_step : steps_to Clean None q.
Proof.
  pose proof (i_first _ _ _ _ HI) as Ef. unfold steps_to, exec.
  rewrite (bind_val _ _ _ (s, ptrs) (s, ptrs)) by reflexivity. cbn [fst snd]. unfold checked_first.
  destruct l as [|p l'] eqn:Hl.
  { exists (s, ptrs). split; [|by exists [], spare, at_].
    erewrite (bind_val _ _ _ None (s, ptrs)); [done|]. apply run_on_list.
    rewrite (bind_val _ _ _ s s) by reflexivity. by rewrite bool_decide_true by done. }
  change (pointer s (p :: l') 0) with p in Ef.
  destruct (in_nodup _ _ _ _ 0%nat p HI eq_refl) as [Hpl _].
  destruct (i_chain _ _ _ _ HI 0%nat p eq_refl) as (c & Hc & Hcn & Hct).
  rewrite (bind_val _ _ _ (if tocheck c =? 0 then Some c else None) (s, ptrs)).
  2: { apply run_on_list. rewrite (bind_val _ _ _ s s) by reflexivity.
       rewrite bool_decide_false by congruence. rewrite Ef.
       by rewrite (bind_val _ _ _ _ _ (node_run _ _ _ Hc)). }
  destruct (Z.eqb_spec (tocheck c) 0) as [E0|E0].
  2: { exists (s, ptrs). split; [done|]. by exists (p :: l'), spare, at_. }
  destruct (recycle_first_run s p l' spare at_ HI ltac:(lia)) as (s' & E & HI' & El & Ee & _ & Hpos).
  exists (s', ptrs). split; [by rewrite (bind_val _ _ _ _ _ (run_on_list _ _ _ ptrs _ E))|].
  exists l', (p :: spare), ((fun i => i - 1)%nat <$> at_). cbn [fst snd]. split; [done|].
  unfold ptrs, q. rewrite <- !map_fmap_compose.
  split; apply map_fmap_ext; intros h i Hi; unfold compose; pose proof (Hpos h i Hi).
  - symmetry. by apply (shift_pointer s s' (p :: l') 1); [|apply (i_at _ _ _ _ HI h)|].
  - rewrite (events_fmap _ _ _ Ee). destruct i as [|i]; [lia|]. cbn. by rewrite Nat.sub_0_r.
Qed.
End Steps.

Lemma op_step w o q q' r :
  implements w q -> spec o q = Some (q', r) -> Z.of_nat (size q') < 4294967296 ->
  exists w', exec o w = (Val r, w') /\ implements w' q'.
Proof.
  intros (l & spare & at_ & HI & Ep & Eq) Hs Hb. destruct w as [s ptrs]. cbn [fst snd] in *. subst ptrs q.
  destruct o as [ct e|h|h|h|]; cbn [spec] in Hs.
  - injection Hs as <- <-. by apply (announce_step _ _ spare).
  - case_bool_decide as Hn; [|done]. injection Hs as <- <-. apply (join_step _ _ spare); [done|done|].
    rewrite map_size_insert_None, map_size_fmap in Hb by done. lia.
  - destruct (_ !! h) as [[|x y]|] eqn:Hq; [..|done]; injection Hs as <- <-.
    + by apply (handle_op_step _ _ spare _ HI h []).
    + by apply (handle_op_step _ _ spare _ HI h (x :: y)).
  - case_bool_decide as Hn; [|done]. injection Hs as <- <-. by apply (leave_step _ _ spare).
  - injection Hs as <- <-. by apply (clean_step _ _ spare).
Qed.

Lemma spec_size o q q' r : spec o q = Some (q', r) -> (size q' <= S (size q))%nat.
Proof.
  destruct o as [ct e|h|h|h|]; cbn [spec]; intros Hs.
  - injection Hs as <- <-. rewrite map_size_fmap. lia.
  - case_bool_decide as Hn; [|done]. injection Hs as <- <-. rewrite map_size_insert_None by done. lia.
  - destruct (q !! h) as [[|x y]|] eqn:Hq; [..|done]; injection Hs as <- <-; [lia|].
    rewrite map_size_insert_Some by eauto. lia.
  - case_bool_decide as Hn; [|done]. injection Hs as <- <-. rewrite map_size_delete, Hn. cbn. lia.
  - injection Hs as <- <-. lia.
Qed.

(** C16: The list is one queue for each reader. In any sequence of changes,
    readers that come, handle changes one at a time whenever they like, and go, and of
    recycling in between, each reader gets exactly the changes announced since it
    came, in order; and no node that a reader still has in front of it is used
    again. *)
Theorem readers_see_all_changes ops q rs :
  spec_all ops ∅ = Some (q, rs) -> Z.of_nat (length ops) < 4294967296 ->
  exists w, exec_all ops (make, ∅) = (Val rs, w) /\ implements w q.
Proof.
  intros Hs Hb. assert (forall ops w q0 q rs, implements w q0 -> spec_all ops q0 = Some (q, rs) ->
    Z.of_nat (size q0) + Z.of_nat (length ops) < 4294967296 ->
    exists w', exec_all ops w = (Val rs, w') /\ implements w' q) as Hgen.
  { clear. induction ops as [|o ops IH]; intros w q0 q rs Hw Hs Hb.
    - injection Hs as <- <-. by exists w.
    - cbn [spec_all] in Hs. destruct (spec o q0) as [[q1 r]|] eqn:Ho; [|done]. cbn in Hs.
      destruct (spec_all ops q1) as [[q2 rs2]|] eqn:Hos; [|done]. cbn in Hs. injection Hs as <- <-.
      pose proof (spec_size _ _ _ _ Ho) as Hsz. cbn [length] in Hb.
      destruct (op_step w o q0 q1 r Hw Ho ltac:(lia)) as (w1 & E1 & Hw1).
      destruct (IH w1 q1 q2 rs2 Hw1 Hos ltac:(lia)) as (w2 & E2 & Hw2).
      exists w2. split; [|done]. cbn [exec_all]. rewrite (bind_val _ _ _ _ _ E1), (bind_val _ _ _ _ _ E2). done. }
  apply (Hgen ops (make, ∅) ∅ q rs); [|done|].
  - exists [], [], ∅. cbn. split_and!; [apply empty_inv|by rewrite fmap_empty|by rewrite fmap_empty].
  - rewrite map_size_empty. lia.
Qed.

Lemma readers_see_all_changes_witness :
  exists w, exec_all [Join 1; Announce NewEntry 7; Join 2; Announce DeletedEntry 7; Handle 1; Clean;
      Handle 2; Handle 1; Clean; Handle 2; Announce NewEntry 8; Handle 2] (make, ∅) =
    (Val [None; None; None; None; Some (NewEntry, Some 7%nat); None; Some (DeletedEntry, Some 7%nat);
          Some (DeletedEntry, Some 7%nat); None; None; None; Some (NewEntry, Some 8%nat)], w) /\
    implements w {[ 1%nat := [(NewEntry, Some 8%nat)]; 2%nat := [] ]}.
Proof.
  apply (readers_see_all_changes _ {[ 1%nat := [(NewEntry, Some 8%nat)]; 2%nat := [] ]});
    [vm_compute; reflexivity|done].
Defined.

End CL.
