(* ===== verification/ChannelEnd.v ===== *)
(** One end of a channel, [dueca/UnifiedChannel.hxx]/[.cxx], as far as the
    configuration of the channel goes: the table of entries, the handles of
    reading and writing tokens with their links to entries, the web of data
    classes, and the messages to and from the master.

    The data of an entry are those of [ChannelEntry]; a link between a client
    and an entry is a client there.  Objects have an address that is not used
    again, so that the use of a deleted object shows.  Warnings, the names for
    them and the monitoring of an entry are left out.  What an end does with
    data that were kept for an entry is the parameter [unpack]. *)

From S2P Require Import Prelude TimeSpec Transport ChannelEntry ChannelMsg ChannelMaster.
From S2P Require Import ConfigChanges.
#[local] Open Scope Z_scope.

(** ** Data *)

Inductive ReadingMode := ReadAllData | ReadReservation | JumpToMatchTime | AdaptEventStream.
Inductive EntryTimeAspect := Continuous | Events | AnyTimeAspect.

#[export] Instance ReadingMode_eq_dec : EqDecision ReadingMode.
Proof. solve_decision. Defined.

Definition isSequentialRead (m : ReadingMode) (eventtype : bool) : bool :=
  match m with
  | AdaptEventStream => eventtype
  | ReadAllData | ReadReservation => true
  | JumpToMatchTime => false
  end.
Definition isReadingModeReservation (m : ReadingMode) : bool := bool_decide (m = ReadReservation).
Definition areClientAndEntryTimingCompatible (m : EntryTimeAspect) (entryisevent : bool) : bool :=
  match m with
  | AnyTimeAspect => true
  | Events => entryisevent
  | Continuous => negb entryisevent
  end.

(** What a [UChannelEntry] is made with, and the rest of it; [cleaned] when
    its [cleanup] pointer is NULL, [dataclasslink] as the names of classes. *)
Record Ident := mkIdent {
  creation_id : Z;
  u_class : text;
  exclusive : bool;
  fullpackmode : bool;
  u_label : text;
  nreservations : Z
}.

Record UEntry := mkUEntry {
  ident : Ident;
  entry_id : Z;
  u_origin : GlobalId;
  content : Entry;
  cleaned : bool;
  current_clients : list nat;
  writer : option nat;
  dataclasslink : list text
}.

Definition set_entry_id (v : Z) (s : UEntry) : UEntry := mkUEntry (ident s) v (u_origin s)
  (content s) (cleaned s) (current_clients s) (writer s) (dataclasslink s).
Definition set_u_origin (v : GlobalId) (s : UEntry) : UEntry := mkUEntry (ident s) (entry_id s) v
  (content s) (cleaned s) (current_clients s) (writer s) (dataclasslink s).
Definition set_content (v : Entry) (s : UEntry) : UEntry := mkUEntry (ident s) (entry_id s)
  (u_origin s) v (cleaned s) (current_clients s) (writer s) (dataclasslink s).
Definition set_cleaned (v : bool) (s : UEntry) : UEntry := mkUEntry (ident s) (entry_id s)
  (u_origin s) (content s) v (current_clients s) (writer s) (dataclasslink s).
Definition set_current_clients (v : list nat) (s : UEntry) : UEntry := mkUEntry (ident s)
  (entry_id s) (u_origin s) (content s) (cleaned s) v (writer s) (dataclasslink s).
Definition set_writer (v : option nat) (s : UEntry) : UEntry := mkUEntry (ident s) (entry_id s)
  (u_origin s) (content s) (cleaned s) (current_clients s) v (dataclasslink s).
Definition set_dataclasslink (v : list text) (s : UEntry) : UEntry := mkUEntry (ident s) (entry_id
  s) (u_origin s) (content s) (cleaned s) (current_clients s) (writer s) v.

(** [UCEntryClientLink]; [l_client] is its reading state in the entry. *)
Record Link := mkLink {
  l_addr : nat;
  l_entry : nat;
  l_creation : Z;
  l_client : nat;
  l_sequential : bool
}.

(** What a [UCClientHandle] is made with, and the rest of it; [current] is the
    link it calls [entry]. *)
Record Wish := mkWish {
  h_class : text;
  h_label : text;
  requested_entry : Z;
  reading_mode : ReadingMode;
  time_aspect : EntryTimeAspect;
  requested_span : Z;
  requested_depth : Z;
  client_creation_id : Z;
  callback : bool
}.

Record Handle := mkHandle {
  wish : Wish;
  trigger_target : option nat;
  config_change : nat;
  class_lead : list Link;
  current : option nat;
  access_count : Z
}.

Definition set_trigger_target (v : option nat) (s : Handle) : Handle := mkHandle (wish s) v
  (config_change s) (class_lead s) (current s) (access_count s).
Definition set_config_change (v : nat) (s : Handle) : Handle := mkHandle (wish s) (trigger_target
  s) v (class_lead s) (current s) (access_count s).
Definition set_class_lead (v : list Link) (s : Handle) : Handle := mkHandle (wish s)
  (trigger_target s) (config_change s) v (current s) (access_count s).
Definition set_current (v : option nat) (s : Handle) : Handle := mkHandle (wish s) (trigger_target
  s) (config_change s) (class_lead s) v (access_count s).
Definition set_access_count (v : Z) (s : Handle) : Handle := mkHandle (wish s) (trigger_target s)
  (config_change s) (class_lead s) (current s) v.

(** [UCWriterHandle] *)
Record Writer := mkWriter { w_entry : nat; w_class : text; w_id : GlobalId; w_callback : bool }.

(** [UCDataclassLink] *)
Record ClassLink := mkClassLink { cl_entries : list nat; cl_clients : list nat }.

(** [UCEntryDataCache]; closed when [tail] is not reached from [head]. *)
Record Cache := mkCache { c_items : list (list Z); c_open : bool }.

(** Calls to clients and watchers, and notes for the information stashes. *)
Inductive Call :=
  | WriterValid (w : nat)
  | ReaderValid (h : nat)
  | ReadInfo (h e : nat) (attached : bool)
  | WriteInfo (e : nat) (present : bool)
  | Watch (watcher e : nat) (present : bool)
  | ReportWritingEnd.

Inductive CStatus := Created | CalledIn | Configured.

(** The members of [UnifiedChannel], in groups. *)
Record Station := mkStation {
  here : Z;
  chan_id : GlobalId;
  masterp : option MA.UnifiedChannelMaster;
  channel_status : CStatus;
  serviced : bool;
  transport_class : Z;
  transporters : nat;
  refresh_transporters : Z
}.

Definition set_chan_id (v : GlobalId) (s : Station) : Station := mkStation (here s) v (masterp
  s) (channel_status s) (serviced s) (transport_class s) (transporters s) (refresh_transporters
  s).
Definition set_masterp (v : option MA.UnifiedChannelMaster) (s : Station) : Station := mkStation
  (here s) (chan_id s) v (channel_status s) (serviced s) (transport_class s) (transporters s)
  (refresh_transporters s).
Definition set_channel_status (v : CStatus) (s : Station) : Station := mkStation (here s)
  (chan_id s) (masterp s) v (serviced s) (transport_class s) (transporters s)
  (refresh_transporters s).
Definition set_serviced (v : bool) (s : Station) : Station := mkStation (here s) (chan_id s)
  (masterp s) (channel_status s) v (transport_class s) (transporters s) (refresh_transporters s).
Definition set_transport_class (v : Z) (s : Station) : Station := mkStation (here s) (chan_id
  s) (masterp s) (channel_status s) (serviced s) v (transporters s) (refresh_transporters s).
Definition set_transporters (v : nat) (s : Station) : Station := mkStation (here s) (chan_id
  s) (masterp s) (channel_status s) (serviced s) (transport_class s) v (refresh_transporters s).
Definition set_refresh_transporters (v : Z) (s : Station) : Station := mkStation (here s)
  (chan_id s) (masterp s) (channel_status s) (serviced s) (transport_class s) (transporters s) v.

Record Web := mkWeb {
  objs : gmap nat UEntry;
  entries : list (option nat);
  entrymap : gmap text ClassLink
}.

Definition set_objs (v : gmap nat UEntry) (s : Web) : Web := mkWeb v (entries s) (entrymap s).
Definition set_entries (v : list (option nat)) (s : Web) : Web := mkWeb (objs s) v (entrymap s).
Definition set_entrymap (v : gmap text ClassLink) (s : Web) : Web := mkWeb (objs s) (entries s) v.

Record Readers := mkReaders {
  handles : gmap nat Handle;
  reading_clients : list nat;
  check_valid1 : list nat;
  check_valid2 : list nat;
  checkup_delay : bool;
  newclient_id : Z
}.

Definition set_handles (v : gmap nat Handle) (s : Readers) : Readers := mkReaders v
  (reading_clients s) (check_valid1 s) (check_valid2 s) (checkup_delay s) (newclient_id s).
Definition set_reading_clients (v : list nat) (s : Readers) : Readers := mkReaders (handles s) v
  (check_valid1 s) (check_valid2 s) (checkup_delay s) (newclient_id s).
Definition set_check_valid1 (v : list nat) (s : Readers) : Readers := mkReaders (handles s)
  (reading_clients s) v (check_valid2 s) (checkup_delay s) (newclient_id s).
Definition set_check_valid2 (v : list nat) (s : Readers) : Readers := mkReaders (handles s)
  (reading_clients s) (check_valid1 s) v (checkup_delay s) (newclient_id s).
Definition set_checkup_delay (v : bool) (s : Readers) : Readers := mkReaders (handles s)
  (reading_clients s) (check_valid1 s) (check_valid2 s) v (newclient_id s).
Definition set_newclient_id (v : Z) (s : Readers) : Readers := mkReaders (handles s)
  (reading_clients s) (check_valid1 s) (check_valid2 s) (checkup_delay s) v.

Record Writings := mkWritings {
  writers : gmap nat Writer;
  writing_clients : list nat;
  next_creation_id : Z
}.

Definition set_writers (v : gmap nat Writer) (s : Writings) : Writings := mkWritings v
  (writing_clients s) (next_creation_id s).
Definition set_writing_clients (v : list nat) (s : Writings) : Writings := mkWritings (writers s)
  v (next_creation_id s).
Definition set_next_creation_id (v : Z) (s : Writings) : Writings := mkWritings (writers s)
  (writing_clients s) v.

Record Mail := mkMail {
  config_requests : list UChannelCommRequest;
  outgoing : list UChannelCommRequest;
  entrycache : gmap Z Cache;
  watchers : list nat;
  calls : list Call
}.

Definition set_config_requests (v : list UChannelCommRequest) (s : Mail) : Mail := mkMail v
  (outgoing s) (entrycache s) (watchers s) (calls s).
Definition set_outgoing (v : list UChannelCommRequest) (s : Mail) : Mail := mkMail
  (config_requests s) v (entrycache s) (watchers s) (calls s).
Definition set_entrycache (v : gmap Z Cache) (s : Mail) : Mail := mkMail (config_requests s)
  (outgoing s) v (watchers s) (calls s).
Definition set_watchers (v : list nat) (s : Mail) : Mail := mkMail (config_requests s) (outgoing
  s) (entrycache s) v (calls s).
Definition set_calls (v : list Call) (s : Mail) : Mail := mkMail (config_requests s) (outgoing s)
  (entrycache s) (watchers s) v.

Record UnifiedChannel := mkChannelEnd {
  station : Station;
  web : Web;
  readers : Readers;
  writings : Writings;
  config : CL.ChangeList;
  config_version : Z;
  mail : Mail;
  fresh : nat
}.

Definition set_station (v : Station) (s : UnifiedChannel) : UnifiedChannel := mkChannelEnd v (web
  s) (readers s) (writings s) (config s) (config_version s) (mail s) (fresh s).
Definition set_web (v : Web) (s : UnifiedChannel) : UnifiedChannel := mkChannelEnd (station s) v
  (readers s) (writings s) (config s) (config_version s) (mail s) (fresh s).
Definition set_readers (v : Readers) (s : UnifiedChannel) : UnifiedChannel := mkChannelEnd
  (station s) (web s) v (writings s) (config s) (config_version s) (mail s) (fresh s).
Definition set_writings (v : Writings) (s : UnifiedChannel) : UnifiedChannel := mkChannelEnd
  (station s) (web s) (readers s) v (config s) (config_version s) (mail s) (fresh s).
Definition set_config (v : CL.ChangeList) (s : UnifiedChannel) : UnifiedChannel := mkChannelEnd
  (station s) (web s) (readers s) (writings s) v (config_version s) (mail s) (fresh s).
Definition set_config_version (v : Z) (s : UnifiedChannel) : UnifiedChannel := mkChannelEnd
  (station s) (web s) (readers s) (writings s) (config s) v (mail s) (fresh s).
Definition set_mail (v : Mail) (s : UnifiedChannel) : UnifiedChannel := mkChannelEnd (station s)
  (web s) (readers s) (writings s) (config s) (config_version s) v (fresh s).
Definition set_fresh (v : nat) (s : UnifiedChannel) : UnifiedChannel := mkChannelEnd (station s)
  (web s) (readers s) (writings s) (config s) (config_version s) (mail s) v.

Module UC.

#[local] Existing Instance CL.ConfigEvent_eq_dec.

Abbreviation E := UnifiedChannel.

(** ** Access *)

Definition on_station (f : Station -> Station) (s : E) : E := set_station (f (station s)) s.
Definition on_web (f : Web -> Web) (s : E) : E := set_web (f (web s)) s.
Definition on_readers (f : Readers -> Readers) (s : E) : E := set_readers (f (readers s)) s.
Definition on_writings (f : Writings -> Writings) (s : E) : E := set_writings (f (writings s)) s.
Definition on_mail (f : Mail -> Mail) (s : E) : E := set_mail (f (mail s)) s.

Definition on_config {A} (m : M CL.ChangeList A) : M E A := fun s =>
  let (r, c) := m (config s) in (r, set_config c s).

(** Pointers to entries, handles and writers. *)
Definition obj (e : nat) : M E UEntry := fun s =>
  match objs (web s) !! e with
  | Some u => (Val u, s)
  | None => (Stuck DanglingDeref, s)
  end.
Definition put_obj (e : nat) (u : UEntry) : M E unit :=
  modify (on_web (fun w => set_objs (<[e:=u]> (objs w)) w)).
Definition edit_obj (e : nat) (f : UEntry -> UEntry) : M E unit := u ← obj e; put_obj e (f u).

(** An operation on the data of an entry. *)
Definition on_entry {A} (e : nat) (m : M Entry A) : M E A := fun s =>
  match objs (web s) !! e with
  | Some u =>
      let (r, c) := m (content u) in
      (r, on_web (fun w => set_objs (<[e:=set_content c u]> (objs w)) w) s)
  | None => (Stuck DanglingDeref, s)
  end.

Definition handle (h : nat) : M E Handle := fun s =>
  match handles (readers s) !! h with
  | Some x => (Val x, s)
  | None => (Stuck DanglingDeref, s)
  end.
Definition put_handle (h : nat) (x : Handle) : M E unit :=
  modify (on_readers (fun r => set_handles (<[h:=x]> (handles r)) r)).
Definition edit_handle (h : nat) (f : Handle -> Handle) : M E unit := x ← handle h; put_handle h (f x).

Definition writer_at (w : nat) : M E Writer := fun s =>
  match writers (writings s) !! w with
  | Some x => (Val x, s)
  | None => (Stuck DanglingDeref, s)
  end.

Definition alloc : M E nat := s ← get; put (set_fresh (S (fresh s)) s);; mret (fresh s).

Definition call (c : Call) : M E unit := modify (on_mail (fun m => set_calls (calls m ++ [c]) m)).
Definition request (r : UChannelCommRequest) : M E unit :=
  modify (on_mail (fun m => set_config_requests (config_requests m ++ [r]) m)).
Definition bump_version : M E unit := modify (fun s => set_config_version (u32 (config_version s + 1)) s).

(** [entries[id]] *)
Definition slot (id : Z) : M E (option nat) :=
  s ← get; of_option OutOfBounds (if 0 <=? id then entries (web s) !! Z.to_nat id else None).
Definition entry_of (id : Z) : M E nat := o ← slot id; of_option NullDeref o.
Definition known (id : Z) (s : E) : bool :=
  match (if 0 <=? id then entries (web s) !! Z.to_nat id else None) with
  | Some (Some _) => true
  | _ => false
  end.

Definition unlist {A} (f : A -> bool) (l : list A) : list A := filter (fun x => f x = false) l.

(** The first [x] of a list erased, as after a [find]; none is the end. *)
Fixpoint erase_first (x : nat) (l : list nat) : option (list nat) :=
  match l with
  | [] => None
  | y :: l => if bool_decide (y = x) then Some l else (y ::.) <$> erase_first x l
  end.

Section WithBuild.
Context `{BuildConfig} (reg : Registry).

(** ** Links between clients and entries *)

(** [UChannelEntry::removeClient] *)
Definition removeClient (e : nat) (l : Link) : M E unit :=
  u ← obj e;
  if l_creation l =? creation_id (ident u) then
    match erase_first (l_addr l) (current_clients u) with
    | Some cs => put_obj e (set_current_clients cs u)
    | None => dassert false;; stuck OutOfBounds
    end
  else mret tt.

(** [UCEntryClientLink], made and deleted. *)
Definition new_link (e : nat) (sequential : bool) : M E Link :=
  k ← on_entry e (UCE.add_client sequential);
  u ← obj e;
  a ← alloc;
  mret (mkLink a e (creation_id (ident u)) k sequential).
Definition delete_link (l : Link) : M E unit :=
  on_entry (l_entry l) (modify (set_clients (delete (l_client l)))).

(** [if (el->isSequential() && el->read_index != NULL) el->read_index->releaseReadAccess()] *)
Definition release_link (l : Link) : M E unit :=
  if l_sequential l then
    on_entry (l_entry l)
      (c ← Cells.client (l_client l);
       match read_index c with Some p => Cells.releaseReadAccess p | None => mret tt end)
  else mret tt.

Definition linkReadClientToEntry (h e : nat) : M E unit :=
  x ← handle h;
  dassert (forallb (fun l => negb (bool_decide (l_entry l = e))) (class_lead x));;
  u ← obj e;
  l ← new_link e (isSequentialRead (reading_mode (wish x)) (eventtype (content u)));
  (if l_sequential l then mret tt
   else on_entry e (modify (UCE.setMinimumSpanAndDepth (requested_span (wish x)) (requested_depth (wish x)))));;
  put_handle h (set_current (Some (default (l_addr l) (current x))) (set_class_lead (l :: class_lead x) x));;
  edit_obj e (fun u => set_current_clients (current_clients u ++ [l_addr l]) u);;
  call (ReadInfo h e true).

(** The link to an entry, with the links around it. *)
Fixpoint find_link (e : nat) (l : list Link) : option (list Link * Link * list Link) :=
  match l with
  | [] => None
  | x :: l =>
      if bool_decide (l_entry x = e) then Some ([], x, l)
      else '(pre, y, post) ← find_link e l; Some (x :: pre, y, post)
  end.

(** The search leaves a null pointer when the client has no link to the
    entry, and the test that follows reads through it. *)
Definition detachReadClientFromEntry (h e : nat) : M E bool :=
  x ← handle h;
  '(pre, el, post) ← of_option NullDeref (find_link e (class_lead x));
  let current' :=
    if bool_decide (current x = Some (l_addr el)) then l_addr <$> head post else current x in
  release_link el;;
  put_handle h (set_current current' (set_class_lead (pre ++ post) x));;
  (match trigger_target x with
   | Some t => on_entry e (modify (UCE.requestRemoveTrigger t))
   | None => mret tt
   end);;
  removeClient e el;;
  call (ReadInfo h e false);;
  delete_link el;;
  mret true.

(** ** Readers follow the configuration *)

(** [client->config_change = client->config_change->markHandled()] *)
Definition mark_handled (h : nat) : M E unit :=
  x ← handle h;
  n ← on_config (CL.markHandled (config_change x));
  n ← of_option NullDeref n;
  put_handle h (set_config_change n x).

(** A client for one entry skips the changes of others. *)
Fixpoint skip_others (fuel : nat) (h : nat) : M E unit :=
  match fuel with
  | O => stuck OutOfFuel
  | S fuel =>
      x ← handle h;
      s ← get;
      match class_lead x with
      | l :: _ =>
          if negb (bool_decide (config_change x = CL.latest (config s)))
             && (requested_entry (wish x) <=? entry_bylabel)
          then
            c ← on_config (CL.node (config_change x));
            if bool_decide (CL.c_entry c = Some (l_entry l)) then mret tt
            else mark_handled h;; skip_others fuel h
          else mret tt
      | [] => mret tt
      end
  end.

(** Whether a client wants a new entry. *)
Definition wants (x : Handle) (u : UEntry) : bool :=
  bool_decide (class_lead x = []) &&
    ((requested_entry (wish x) =? entry_id u)
     || ((requested_entry (wish x) =? entry_bylabel) && bool_decide (h_label (wish x) = u_label (ident u))))
  || (requested_entry (wish x) =? entry_any).

(** One change; true when the links of the client change. *)
Definition process_change (h : nat) (c : CL.Change) : M E bool :=
  x ← handle h;
  match CL.changetype c with
  | CL.NewEntry =>
      e ← of_option NullDeref (CL.c_entry c);
      u ← obj e;
      ok ← isCompatible reg (h_class (wish x)) (u_class (ident u));
      if ok && wants x u
         && areClientAndEntryTimingCompatible (time_aspect (wish x)) (eventtype (content u))
      then linkReadClientToEntry h e;; mret true
      else mret false
  | CL.DeletedEntry =>
      match class_lead x with
      | [] => mret false
      | _ => e ← of_option NullDeref (CL.c_entry c); detachReadClientFromEntry h e
      end
  | CL.Sentinel => mret false
  end.

Fixpoint process_changes (fuel : nat) (h : nat) (changes : bool) : M E bool :=
  match fuel with
  | O => stuck OutOfFuel
  | S fuel =>
      x ← handle h;
      s ← get;
      if bool_decide (config_change x = CL.latest (config s)) then mret changes
      else
        c ← on_config (CL.node (config_change x));
        b ← process_change h c;
        mark_handled h;;
        process_changes fuel h (b || changes)
  end.

Definition change_fuel (s : E) : nat := S (size (CL.nodes (config s))).

Definition refreshClientHandleInner (h : nat) : M E bool :=
  s ← get;
  skip_others (change_fuel s) h;;
  changes ← process_changes (change_fuel s) h false;
  (if changes : bool then bump_version else mret tt);;
  x ← handle h;
  mret (bool_decide (is_Some (current x))).

Definition refreshClientHandle (h : nat) : M E bool :=
  x ← handle h;
  s ← get;
  if bool_decide (config_change x = CL.latest (config s))
  then mret (bool_decide (is_Some (current x)))
  else refreshClientHandleInner h.

(** The link a pointer to a link leads to, and what follows it. *)
Fixpoint links_from (a : nat) (l : list Link) : list Link :=
  match l with
  | [] => []
  | x :: l' => if bool_decide (l_addr x = a) then l else links_from a l'
  end.
Definition current_links (x : Handle) : list Link :=
  match current x with Some a => links_from a (class_lead x) | None => [] end.

Definition selectFirstEntry (h : nat) : M E unit :=
  refreshClientHandle h;;
  edit_handle h (fun x => set_current (l_addr <$> head (class_lead x)) x).
Definition getNextEntry (h : nat) : M E unit :=
  ok ← refreshClientHandle h;
  if ok : bool then edit_handle h (fun x => set_current (l_addr <$> head (tail (current_links x))) x)
  else mret tt.

(** The entry a client stands at. *)
Definition current_link (h : nat) : M E Link :=
  x ← handle h; of_option NullDeref (head (current_links x)).

Definition getReadAccess (h : nat) (t_request : Z) : M E (option nat * option TimeSpec) :=
  ok ← refreshClientHandle h;
  if ok : bool then
    l ← current_link h; on_entry (l_entry l) (UCE.accessData (l_client l) t_request)
  else mret Cells.nothing.
Definition releaseReadAccess (h : nat) : M E unit :=
  l ← current_link h; on_entry (l_entry l) (UCE.releaseData (l_client l)).
Definition resetReadAccess (h : nat) : M E unit :=
  l ← current_link h; on_entry (l_entry l) (UCE.releaseDataNoStep (l_client l)).
Definition releaseReadAccessKeepData (h : nat) : M E unit :=
  l ← current_link h; on_entry (l_entry l) (UCE.releaseOnlyAccess (l_client l)).

(** Where a link reads from; none for reading by time. *)
Definition link_index (l : Link) : M Entry (option nat) :=
  if l_sequential l then c ← Cells.client (l_client l); mret (read_index c) else mret None.

Definition visible_sets (ts : Z) (l : Link) : M E Z :=
  on_entry (l_entry l) (i ← link_index l; UCE.getNumVisibleSets ts i).
Definition has_visible (ts : Z) (l : Link) : M E bool :=
  on_entry (l_entry l) (i ← link_index l; UCE.haveVisibleSets ts i).

Fixpoint sum_visible (ts : Z) (ls : list Link) (n : Z) : M E Z :=
  match ls with
  | [] => mret n
  | l :: ls => k ← visible_sets ts l; sum_visible ts ls (u32 (n + k))
  end.
Fixpoint any_visible (ts : Z) (ls : list Link) : M E bool :=
  match ls with
  | [] => mret false
  | l :: ls => b ← has_visible ts l; if b : bool then mret true else any_visible ts ls
  end.

Definition getNumVisibleSetsInEntry (h : nat) (ts : Z) : M E Z :=
  ok ← refreshClientHandle h;
  if ok : bool then l ← current_link h; visible_sets ts l else mret 0.
Definition getNumVisibleSets (h : nat) (ts : Z) : M E Z :=
  x ← handle h;
  if requested_entry (wish x) =? entry_any then
    refreshClientHandle h;; x ← handle h; sum_visible ts (class_lead x) 0
  else getNumVisibleSetsInEntry h ts.
Definition haveVisibleSetsInEntry (h : nat) (ts : Z) : M E bool :=
  ok ← refreshClientHandle h;
  if ok : bool then l ← current_link h; has_visible ts l else mret false.
Definition haveVisibleSets (h : nat) (ts : Z) : M E bool :=
  x ← handle h;
  if requested_entry (wish x) =? entry_any then
    refreshClientHandle h;; x ← handle h; any_visible ts (class_lead x)
  else haveVisibleSetsInEntry h ts.

Definition getOldestDataTime (h : nat) : M E TimeSpec :=
  ok ← refreshClientHandle h;
  if ok : bool then
    l ← current_link h; on_entry (l_entry l) (UCE.getOldestDataTime (l_client l))
  else mret (mkTS 0 0).
Definition getLatestDataTime (h : nat) : M E TimeSpec :=
  ok ← refreshClientHandle h;
  if ok : bool then l ← current_link h; on_entry (l_entry l) UCE.getLatestDataTime
  else mret (mkTS 0 0).

(** ** Reading tokens *)

(** [release()]: true when the handle is still there. *)
Definition release_handle (h : nat) : M E bool :=
  x ← handle h;
  let left := u32 (access_count x - 1) in
  if left =? 0 then
    modify (on_readers (fun r => set_handles (delete h (handles r)) r));; mret false
  else put_handle h (set_access_count left x);; mret true.
Definition claim_handle (h : nat) : M E unit :=
  edit_handle h (fun x => set_access_count (u32 (access_count x + 1)) x).

Definition class_link (c : text) (s : E) : ClassLink :=
  default (mkClassLink [] []) (entrymap (web s) !! c).
Definition edit_class (c : text) (f : ClassLink -> ClassLink) : M E unit :=
  modify (fun s => on_web (fun w => set_entrymap (<[c:=f (class_link c s)]> (entrymap w)) w) s).

(** Whether a new token takes an entry that is there; the timing of the two
    is not looked at. *)
Definition attaches (attach_entry : Z) (entrylabel : text) (u : UEntry) : bool :=
  ((attach_entry =? entry_any) && (bool_decide (entrylabel = []) || bool_decide (u_label (ident u) = entrylabel)))
  || ((attach_entry =? entry_bylabel) && bool_decide (u_label (ident u) = entrylabel))
  || (attach_entry =? entry_id u).

Fixpoint attach_existing (h : nat) (es : list nat) (immediate : bool) : M E bool :=
  match es with
  | [] => mret immediate
  | e :: es =>
      u ← obj e;
      x ← handle h;
      if attaches (requested_entry (wish x)) (h_label (wish x)) u then
        on_entry e (modify (UCE.setMinimumSpanAndDepth (requested_span (wish x)) (requested_depth (wish x))));;
        linkReadClientToEntry h e;;
        (match trigger_target x with
         | Some t => on_entry e (modify (UCE.requestIncludeTrigger t))
         | None => mret tt
         end);;
        attach_existing h es true
      else attach_existing h es immediate
  end.

(** [w] has no creation id yet. *)
Definition addReadToken (w : Wish) : M E nat :=
  h ← alloc;
  s ← get;
  let id := newclient_id (readers s) in
  let w := mkWish (h_class w) (h_label w) (requested_entry w) (reading_mode w) (time_aspect w)
             (requested_span w) (requested_depth w) id (callback w) in
  put_handle h (mkHandle w None (CL.latest (config s)) [] None 1);;
  modify (on_readers (fun r => set_newclient_id (u32 (id + 256))
    (set_reading_clients (reading_clients r ++ [h]) r)));;
  edit_class (h_class w) (fun c => mkClassLink (cl_entries c) (h :: cl_clients c));;
  s ← get;
  immediatevalid ← attach_existing h (cl_entries (class_link (h_class w) s)) false;
  (if immediatevalid : bool then _ ← refreshClientHandleInner h; mret tt else mret tt);;
  bump_version;;
  (if immediatevalid && callback w then
     claim_handle h;;
     modify (on_readers (fun r => set_check_valid1 (check_valid1 r ++ [h]) r))
   else mret tt);;
  request (mkReq NewClientNotif (if isReadingModeReservation (reading_mode w) then 1 else 0)
             (requested_entry w) id no_id (h_class w) (h_label w));;
  mret h.

(** The links that are left when a token goes. *)
Fixpoint detach_links (h : nat) (ls : list Link) : M E unit :=
  match ls with
  | [] => mret tt
  | oe :: ls =>
      x ← handle h;
      release_link oe;;
      (match trigger_target x with
       | Some t => on_entry (l_entry oe) (modify (UCE.requestRemoveTrigger t));; bump_version
       | None => mret tt
       end);;
      removeClient (l_entry oe) oe;;
      call (ReadInfo h (l_entry oe) false);;
      delete_link oe;;
      detach_links h ls
  end.
Definition detachClientlinks (h : nat) : M E unit := x ← handle h; detach_links h (class_lead x).

(** Whether a link holds data; a handle accesses one cell at a time. *)
Definition accessing (s : E) (l : Link) : bool :=
  match u ← objs (web s) !! l_entry l; c ← clients (content u) !! l_client l; accessed c with
  | Some _ => true
  | None => false
  end.

Definition removeReadToken (h : nat) : M E unit :=
  x ← handle h;
  s ← get;
  dassert (forallb (fun l => negb (accessing s l)) (class_lead x));;
  (if bool_decide (config_change x = CL.latest (config s)) then mret tt
   else _ ← refreshClientHandleInner h; mret tt);;
  x ← handle h;
  s ← get;
  (match erase_first h (reading_clients (readers s)) with
   | Some l => modify (on_readers (set_reading_clients l))
   | None => dassert false;; stuck OutOfBounds
   end);;
  request (short LeaveClientNotif 0 (client_creation_id (wish x)));;
  detachClientlinks h;;
  edit_handle h (set_class_lead []);;
  bump_version;;
  s ← get;
  (match erase_first h (cl_clients (class_link (h_class (wish x)) s)) with
   | Some l => edit_class (h_class (wish x)) (fun c => mkClassLink (cl_entries c) l)
   | None => dassert false;; stuck NullDeref
   end);;
  _ ← release_handle h;
  mret tt.

(** ** Writing tokens *)

Definition newWriterConfigRequest (e : nat) : M E unit :=
  u ← obj e;
  request (mkReq NewEntryReq
    (Z.lor (if eventtype (content u) then 1 else 0)
      (Z.lor (if exclusive (ident u) then 2 else 0)
         (if bool_decide (saveup (content u) = NoSaveUp) then 0 else 4)))
    (nreservations (ident u)) (creation_id (ident u)) (u_origin u)
    (u_class (ident u)) (u_label (ident u))).

(** The constructor of [UChannelEntry]; the class has to be registered. *)
Definition new_entry (i : Ident) (id : Z) (event : bool) (o : GlobalId) (w : option nat) : M E nat :=
  _ ← getParent reg (u_class i);
  e ← alloc;
  put_obj e (mkUEntry i id o (UCE.make event (bool_decide (is_Some w)) false (nreservations i))
    false [] w []);;
  mret e.

Definition validId (g : GlobalId) : bool := negb (location g =? 255) && negb (object g =? 65535).

Definition addWriteToken (i : Ident) (event : bool) (tclass : Z) (wid : GlobalId) (callback : bool) : M E nat :=
  s ← get;
  (if tclass =? 0 then throw ChannelConfigException else mret tt);;
  (if transport_class (station s) =? 0 then
     modify (on_station (set_transport_class tclass));;
     if validId (chan_id (station s)) then call ReportWritingEnd else mret tt
   else mret tt);;
  let cid := next_creation_id (writings s) in
  w ← alloc;
  e ← new_entry (mkIdent cid (u_class i) (exclusive i) (fullpackmode i) (u_label i) (nreservations i))
        entry_end event (chan_id (station s)) (Some w);
  modify (on_writings (fun x => mkWritings (<[w:=mkWriter e (u_class i) wid callback]> (writers x))
    (writing_clients x ++ [w]) (u32 (cid + 256))));;
  (if serviced (station s) then newWriterConfigRequest e else mret tt);;
  mret w.

Definition removeWriteToken (w : nat) : M E unit :=
  x ← writer_at w;
  modify (on_writings (fun y => set_writers
    (<[w:=mkWriter (w_entry x) (w_class x) (w_id x) false]> (writers y)) y));;
  on_entry (w_entry x) UCE.resetValid;;
  bump_version;;
  u ← obj (w_entry x);
  request (short DeleteEntryReq 0 (creation_id (ident u))).

(** [installService]: the writers made so far report. *)
Fixpoint report_writers (ws : list nat) : M E unit :=
  match ws with
  | [] => mret tt
  | w :: ws =>
      x ← writer_at w;
      edit_obj (w_entry x) (set_u_origin (w_id x));;
      newWriterConfigRequest (w_entry x);;
      report_writers ws
  end.
Definition installService : M E unit :=
  s ← get;
  dassert (negb (serviced (station s)));;
  modify (on_station (set_serviced true));;
  report_writers (writing_clients (writings s)).

(** ** Commands of the master *)

(** What the entry reads of the channel when data are written. *)
Definition channel_of (u : UEntry) (s : E) : Channel :=
  mkChannel (config_version s) (transporters (station s))
    (forallb (fun c => forallb (fun h =>
       bool_decide (config_change <$> handles (readers s) !! h = Some (CL.latest (config s))))
       (cl_clients (class_link c s))) (dataclasslink u)).

Definition announce (ct : CL.ConfigEvent) (e : nat) : M E unit :=
  s ← get; on_config (CL.announce ct (Z.of_nat (length (reading_clients (readers s)))) e).

(** The writer whose request is confirmed. *)
Fixpoint find_writer (cid : Z) (ws : list nat) : M E (option nat) :=
  match ws with
  | [] => mret None
  | w :: ws =>
      x ← writer_at w; u ← obj (w_entry x);
      if creation_id (ident u) =? cid then mret (Some w) else find_writer cid ws
  end.

(** Clients of a class that a new entry concerns. *)
Definition concerns (x : Handle) (entry : Z) (label : text) : bool :=
  ((requested_entry (wish x) =? entry_any)
     && (bool_decide (h_label (wish x) = []) || bool_decide (h_label (wish x) = label)))
  || (requested_entry (wish x) =? entry)
  || ((requested_entry (wish x) =? entry_bylabel) && bool_decide (h_label (wish x) = label)).

Fixpoint alert_clients (e : nat) (entry : Z) (label : text) (hs : list nat) : M E unit :=
  match hs with
  | [] => mret tt
  | h :: hs =>
      x ← handle h;
      (if concerns x entry label then
         (if callback (wish x) then
            _ ← refreshClientHandleInner h;
            claim_handle h;;
            modify (on_readers (fun r => set_check_valid2 (check_valid2 r ++ [h]) r))
          else mret tt);;
         match trigger_target x with
         | Some t => on_entry e (modify (UCE.requestIncludeTrigger t))
         | None => mret tt
         end
       else mret tt);;
      alert_clients e entry label hs
  end.

(** The entry in the lists of its class and of all parents. *)
Fixpoint publish (fuel : nat) (e : nat) (entry : Z) (label c : text) : M E unit :=
  match fuel with
  | O => stuck OutOfFuel
  | S fuel =>
      edit_class c (fun k => mkClassLink (e :: cl_entries k) (cl_clients k));;
      edit_obj e (fun u => set_dataclasslink (dataclasslink u ++ [c]) u);;
      s ← get;
      alert_clients e entry label (cl_clients (class_link c s));;
      p ← getParent reg c;
      match p with
      | [] => mret tt
      | _ => publish fuel e entry label p
      end
  end.

(** [while (check_valid2.notEmpty())] *)
Fixpoint run_valid2 (hs : list nat) : M E unit :=
  match hs with
  | [] => modify (on_readers (set_check_valid2 []))
  | h :: hs =>
      left ← release_handle h;
      (if left : bool then call (ReaderValid h) else mret tt);;
      run_valid2 hs
  end.

Definition setValid (e : nat) (id : Z) : M E unit :=
  dassert (negb (id =? entry_end));;
  edit_obj e (set_entry_id id);;
  on_entry e (modify UCE.setValid).

Definition runCallback (e : nat) : M E unit :=
  u ← obj e;
  match writer u with
  | Some w => x ← writer_at w; if w_callback x then call (WriterValid w) else mret tt
  | None => mret tt
  end.

Definition notify_watchers (e : nat) (present : bool) : M E unit :=
  modify (fun s => on_mail (fun m =>
    set_calls (calls m ++ ((fun x => Watch x e present) <$> watchers m)) m) s).

(** [getStore]: the first item leaves the cache. *)
Definition take_item (c : Cache) : option (list Z * Cache) :=
  match c_items c with
  | [] => None
  | x :: l => Some (x, mkCache l (c_open c && negb (bool_decide (l = []))))
  end.
(** [append]: behind a tail that has left the list nothing is found again. *)
Definition append_item (x : list Z) (c : Cache) : Cache :=
  if c_open c then mkCache (c_items c ++ [x]) true else c.

Definition uncache (id : Z) (c : option Cache) : M E unit :=
  modify (on_mail (fun m => set_entrycache
    (match c with Some c => <[id:=c]> (entrycache m) | None => delete id (entrycache m) end) m)).

Section Unpack.
Context (unpack : list Z -> M E unit).

Fixpoint process_cached (fuel : nat) (id : Z) : M E unit :=
  match fuel with
  | O => stuck OutOfFuel
  | S fuel =>
      s ← get;
      match entrycache (mail s) !! id with
      | None => mret tt
      | Some c =>
          match take_item c with
          | None => uncache id None
          | Some (x, c') => uncache id (Some c');; unpack x;; process_cached fuel id
          end
      end
  end.

(** The table is extended up to the id. *)
Definition extend_entries (id : Z) (w : Web) : Web :=
  set_entries (entries w ++ replicate (Z.to_nat (id + 1) - length (entries w)) None) w.

(** The entry for a confirmation: of a writer here, or a new one. *)
Definition confirmed_entry (m : UChannelCommRequest) : M E nat :=
  s ← get;
  if Z.land (data1 m) 255 =? location (chan_id (station s)) then
    w ← find_writer (data1 m) (writing_clients (writings s));
    dassert (bool_decide (is_Some w));;
    w ← of_option OutOfBounds w;
    x ← writer_at w;
    modify (on_web (fun k => set_entries (<[Z.to_nat (data0 m):=Some (w_entry x)]> (entries k)) k));;
    call (WriteInfo (w_entry x) true);;
    mret (w_entry x)
  else
    e ← new_entry (mkIdent (data1 m) (dataclassname m) (Z.testbit (extra m) 1) false (entrylabel m)
          (if Z.testbit (extra m) 2 then 1 else 0)) (data0 m) (Z.testbit (extra m) 0) (origin m) None;
    modify (on_web (fun k => set_entries (<[Z.to_nat (data0 m):=Some e]> (entries k)) k));;
    mret e.

Definition newEntryConf (cache_fuel : nat) (m : UChannelCommRequest) : M E unit :=
  dassert (bool_decide (origin m <> no_id));;
  s ← get;
  if known (data0 m) s then mret tt
  else
    dassert (negb (data0 m =? entry_end));;
    modify (on_web (extend_entries (data0 m)));;
    e ← confirmed_entry m;
    bump_version;;
    announce CL.NewEntry e;;
    setValid e (data0 m);;
    publish (class_fuel reg) e (data0 m) (entrylabel m) (dataclassname m);;
    runCallback e;;
    s ← get;
    run_valid2 (check_valid2 (readers s));;
    process_cached cache_fuel (data0 m);;
    notify_watchers e true.

(** [unlinkFromDataClass] *)
Fixpoint unlink_classes (e : nat) (cs : list text) : M E unit :=
  match cs with
  | [] => mret tt
  | c :: cs =>
      s ← get;
      (match erase_first e (cl_entries (class_link c s)) with
       | Some l => edit_class c (fun k => mkClassLink l (cl_clients k))
       | None => dassert (bool_decide (cl_entries (class_link c s) = []));; stuck NullDeref
       end);;
      unlink_classes e cs
  end.
Definition unlinkFromDataClass (e : nat) : M E unit :=
  u ← obj e;
  unlink_classes e (rev (dataclasslink u));;
  edit_obj e (set_dataclasslink []).

Definition invalidateEntryCmd (m : UChannelCommRequest) : M E unit :=
  s ← get;
  dassert (known (data0 m) s);;
  e ← entry_of (data0 m);
  bump_version;;
  announce CL.DeletedEntry e;;
  on_entry e UCE.resetValid;;
  u ← obj e;
  (match writer u with
   | Some w =>
       s ← get;
       call (WriteInfo e false);;
       match erase_first w (writing_clients (writings s)) with
       | Some l => modify (on_writings (set_writing_clients l))
       | None => dassert false;; stuck OutOfBounds
       end
   | None => mret tt
   end);;
  unlinkFromDataClass e;;
  notify_watchers e false.

Definition cleanAllData (e : nat) : M E bool :=
  u ← obj e;
  if cleaned u then mret true
  else
    r ← on_entry e (c ← get; UCE.clean_from (S (size (cells c))) (Some (cleanup c)));
    match r with
    | None => edit_obj e (set_cleaned true);; mret true
    | Some p => on_entry e (modify (fun c => set_ends p (oldest c) (latest c) c));; mret false
    end.

(** Over the changes all readers have handled: each node is recycled, and
    the one for the deletion of this entry may give a confirmation. *)
Fixpoint clean_loop (fuel : nat) (m : UChannelCommRequest) : M E unit :=
  match fuel with
  | O => stuck OutOfFuel
  | S fuel =>
      c ← on_config CL.checked_first;
      match c with
      | None => mret tt
      | Some c =>
          (if bool_decide (CL.changetype c = CL.DeletedEntry) then
             o ← slot (data0 m);
             if bool_decide (CL.c_entry c = o) then
               e ← of_option NullDeref o;
               ok ← cleanAllData e;
               if ok : bool then request (short CleanEntryConf (data0 m) (data1 m)) else mret tt
             else mret tt
           else mret tt);;
          on_config CL.recycle_first;;
          clean_loop fuel m
      end
  end.

Definition cleanEntryCmd (m : UChannelCommRequest) : M E unit :=
  s ← get;
  dassert (known (data0 m) s);;
  clean_loop (change_fuel s) m.

Definition deleteEntryCmd (m : UChannelCommRequest) : M E unit :=
  s ← get;
  dassert (known (data0 m) s);;
  o ← slot (data0 m);
  modify (on_web (fun w => set_entries (<[Z.to_nat (data0 m):=None]> (entries w))
    (set_objs (match o with Some e => delete e (objs w) | None => objs w end) w)));;
  match o with
  | Some e =>
      match objs (web s) !! e ≫= writer with
      | Some w => modify (on_writings (fun x => set_writers (delete w (writers x)) x))
      | None => mret tt
      end
  | None => mret tt
  end.

Definition updateConfiguration (cache_fuel : nat) (m : UChannelCommRequest) : M E unit :=
  match type m with
  | RemoveSaveupCmd => e ← entry_of (data0 m); on_entry e UCE.removeSaveUp
  | NewEntryConf => newEntryConf cache_fuel m
  | InvalidateEntryCmd => invalidateEntryCmd m
  | CleanEntryCmd => cleanEntryCmd m
  | DeleteEntryCmd => deleteEntryCmd m
  | NewEndWelcome =>
      s ← get;
      if data0 m =? location (chan_id (station s))
      then modify (on_station (set_channel_status Configured)) else mret tt
  | _ => dassert false
  end.

(** ** The service *)

Fixpoint update_all (cache_fuel : nat) (ms : list UChannelCommRequest) : M E unit :=
  match ms with
  | [] => mret tt
  | m :: ms =>
      updateConfiguration cache_fuel m;;
      modify (fun s => if bool_decide (transporters (station s) = 0%nat) then s
        else on_mail (fun x => set_outgoing (outgoing x ++ [m]) x) s);;
      update_all cache_fuel ms
  end.

(** Requests are processed here, or sent to the master. *)
Definition service_config (cache_fuel : nat) : M E unit :=
  s ← get;
  match masterp (station s) with
  | Some master =>
      match config_requests (mail s) with
      | [] => mret tt
      | reqs =>
          modify (on_mail (set_config_requests []));;
          let '(r, (master', com)) := (MA.process reg reqs;; MA.sweep) (master, []) in
          modify (on_station (set_masterp (Some master')));;
          (fun s => (r, s));;
          update_all cache_fuel com
      end
  | None =>
      modify (on_mail (fun x => set_config_requests [] (set_outgoing (outgoing x ++ config_requests x) x)))
  end.

(** [while (checkup_delay && check_valid1.notEmpty())] *)
Fixpoint run_valid1 (fuel : nat) : M E unit :=
  match fuel with
  | O => stuck OutOfFuel
  | S fuel =>
      s ← get;
      match check_valid1 (readers s) with
      | h :: hs =>
          if checkup_delay (readers s) then
            modify (on_readers (set_check_valid1 hs));;
            left ← release_handle h;
            (if left : bool then
               ok ← refreshClientHandle h;
               if ok : bool then x ← handle h; if callback (wish x) then call (ReaderValid h) else mret tt
               else
                 claim_handle h;;
                 modify (on_readers (fun r => set_checkup_delay false (set_check_valid1 (check_valid1 r ++ [h]) r)))
             else mret tt);;
            run_valid1 fuel
          else mret tt
      | [] => mret tt
      end
  end.

Fixpoint refresh_entries (es : list (option nat)) : M E unit :=
  match es with
  | [] => mret tt
  | None :: es => refresh_entries es
  | Some e :: es =>
      u ← obj e;
      s ← get;
      on_entry e (UCE.refreshTransporters (channel_of u s));;
      refresh_entries es
  end.

Definition service (cache_fuel : nat) : M E unit :=
  service_config cache_fuel;;
  s ← get;
  run_valid1 (S (length (check_valid1 (readers s))));;
  modify (on_readers (fun r => set_checkup_delay (negb (bool_decide (check_valid1 r = []))) r));;
  s ← get;
  if refresh_transporters (station s) =? 0 then mret tt
  else
    let n := refresh_transporters (station s) - 1 in
    modify (on_station (set_refresh_transporters n));;
    if n =? 0 then refresh_entries (entries (web s)) else mret tt.

(** ** Watchers, transports, and the start *)

Definition addWatcher (x : nat) : M E unit :=
  modify (on_mail (fun m => set_watchers (watchers m ++ [x]) m));;
  s ← get;
  let present := filter (fun e => (valid <$> (content <$> objs (web s) !! e)) = Some true)
                   (omap (fun o => o) (entries (web s))) in
  modify (on_mail (fun m => set_calls (calls m ++ ((fun e => Watch x e true) <$> present)) m)).
Definition removeWatcher (x : nat) : M E unit :=
  modify (on_mail (fun m => set_watchers (filter (fun y => y <> x) (watchers m)) m)).

(** A transport is known by its place in the list. *)
Definition addRemoteDestination (fresh_transport : bool) : M E unit :=
  s ← get;
  dassert (negb (transport_class (station s) =? 0));;
  if fresh_transport then
    bump_version;;
    modify (on_station (fun x => set_refresh_transporters 1 (set_transporters (S (transporters x)) x)))
  else mret tt.

End Unpack.
End WithBuild.

Definition make (loc : Z) : E :=
  mkChannelEnd (mkStation loc no_id None CalledIn false 0 0 0) (mkWeb ∅ [] ∅)
    (mkReaders ∅ [] [] [] false (loc + 256)) (mkWritings ∅ [] (loc + 256)) CL.make 0
    (mkMail [short NewEndJoins loc 0] [] ∅ [] []) 0.

End UC.
