(* ===== verification/EntryPack.v ===== *)
(** Channel data on its way between nodes: the packing and unpacking of
    [dueca/UChannelEntry.cxx], with [unPackData] and [cacheUnpack] of
    [dueca/UnifiedChannel.cxx].

    [ChannelEntry] knows data by their addresses.  A [Site] adds the objects
    behind them.  How an object is packed is up to the [DataSetConverter] of its
    class, which is generated code and an interface here. *)

From S2P Require Import Prelude Bytes Amorph Transport TimeSpec ChannelMsg ChannelEntry ChannelEnd.
#[local] Open Scope Z_scope.

(** [dueca/DataSetConverter.hxx], the operations with a store; the second
    argument of the difference operations is the reference. *)
Class DataSetConverter (Obj : Type) := {
  converter_packData `{BuildConfig} : Obj -> M AS.AmorphStore unit;
  converter_create `{BuildConfig} : M ARS.AmorphReStore Obj;
  converter_packDataDiff `{BuildConfig} : Obj -> Obj -> M AS.AmorphStore unit;
  converter_createDiff `{BuildConfig} : Obj -> M ARS.AmorphReStore Obj
}.

(** An entry at one node with the objects made there, by address. *)
Record Site (Obj : Type) := mkSite {
  ent : Entry;
  objs : list Obj;
  entry_id : Z;
  fullpackmode : bool
}.
#[global] Arguments mkSite {_} _ _ _ _.
#[global] Arguments ent {_} _.
#[global] Arguments objs {_} _.
#[global] Arguments entry_id {_} _.
#[global] Arguments fullpackmode {_} _.

Definition set_ent {Obj} (e : Entry) (s : Site Obj) : Site Obj :=
  mkSite e (objs s) (entry_id s) (fullpackmode s).
Definition set_objs {Obj} (l : list Obj) (s : Site Obj) : Site Obj :=
  mkSite (ent s) l (entry_id s) (fullpackmode s).

Definition on_ent {Obj A} (m : M Entry A) : M (Site Obj) A := fun s =>
  let (r, e) := m (ent s) in (r, set_ent e s).

Module EP.
Section Pack.
Context `{BuildConfig} {Obj : Type} `{DataSetConverter Obj}.

(** The object at an address, which must not have been deleted. *)
Definition object (d : nat) : M (Site Obj) Obj :=
  s ← get;
  if bool_decide (Some d ∈ deleted (ent s)) then stuck DanglingDeref
  else of_option DanglingDeref (objs s !! d).
Definition new_object (o : Obj) : M (Site Obj) nat :=
  s ← get; put (set_objs (objs s ++ [o]) s);; mret (length (objs s)).

(** The state in front of a store. *)
Abbreviation PM := (M (Site Obj * AS.AmorphStore)).
Abbreviation UM := (M (Site Obj * ARS.AmorphReStore)).

(** *** Packing *)

Definition pack_object (d : option nat) : PM unit :=
  d ← on_entries (on_ent (Cells.deref d));
  o ← on_entries (object d);
  on_store (converter_packData o).

Definition packConfig (i : nat) : PM bool :=
  '(k, pc) ← on_entries (on_ent (UCE.packer i));
  '(d, _, pc) ← on_entries (on_ent (UCE.accessPackData pc k));
  pack_object d;;
  on_entries (on_ent (modify (fun s => set_pclients (<[i:=(k, pc)]> (pclients s)) s)));;
  mret true.

(** The type of the message and the entry. *)
Definition pack_head (t : MessageType) : PM unit :=
  s ← on_entries get;
  on_store (packData (Vnum Cuint8 (code t)));;
  on_store (packData (Vnum Cuint16 (entry_id s))).

(** The message for a gap in the validity, and the validity of the packer. *)
Definition pack_jump (pc : PackerClientData) (ts : TimeSpec) : PM PackerClientData :=
  s ← on_entries get;
  if eventtype (ent s) then mret pc
  else
    (if validity_end_sent pc =? validity_start ts then mret tt
     else pack_head TimeJump;; on_store (packData (Vnum Cuint32 (validity_start ts))));;
    mret (mkPacker (validity_end ts) (previous_data pc) (send_full pc) (packer_seq_id pc)).

(** The data in full, or as the difference with the data sent before. *)
Definition pack_body (pc : PackerClientData) (ts : TimeSpec) (d : option nat)
    : PM PackerClientData :=
  if send_full pc then
    pack_head FullData;;
    on_store (packData (Vnum Cuint32 (validity_end ts)));;
    pack_object d;;
    s ← on_entries get;
    mret (mkPacker (validity_end_sent pc) (previous_data pc) (fullpackmode s) (packer_seq_id pc))
  else
    pack_head DiffData;;
    on_store (packData (Vnum Cuint32 (validity_end ts)));;
    d ← on_entries (on_ent (Cells.deref d));
    o ← on_entries (object d);
    p ← on_entries (on_ent (Cells.deref (previous_data pc)));
    prev ← on_entries (object p);
    on_store (converter_packDataDiff o prev);;
    mret pc.

Definition packData (i : nat) (seqid : Z) : PM bool :=
  s ← on_entries get;
  if negb (valid (ent s)) then throw EntryInvalid
  else if entry_id s =? entry_end then packConfig i
  else
    '(k, pc) ← on_entries (on_ent (UCE.packer i));
    '(d, ts, pc) ← on_entries (on_ent (UCE.accessPackData pc k));
    dassert (seqid =? packer_seq_id pc);;
    ts ← on_entries (on_ent (of_option NullDeref ts));
    pc ← pack_jump pc ts;
    pc ← pack_body pc ts d;
    let pc := mkPacker (validity_end_sent pc) d (send_full pc) (packer_seq_id pc) in
    on_entries (on_ent (modify (fun s => set_pclients (<[i:=(k, pc)]> (pclients s)) s)));;
    mret true.

(** *** Unpacking *)

Definition unPackData (ch : Channel) : UM bool :=
  endtime ← on_restore ARS.unPackData_uint32;
  o ← on_restore converter_create;
  d ← on_ends (new_object o);
  s ← on_ends get;
  late ← (if eventtype (ent s) then mret false
          else now ← on_ends (on_ent UCE.currentTimeTick); mret (endtime <=? now));
  if late : bool then dassert false;; mret true
  else
    start ← (if eventtype (ent s) then mret endtime else on_ends (on_ent UCE.unpackTimeTick));
    on_ends (on_ent (UCE.newData ch (Some d) (mkTS start endtime)));;
    mret true.

(** False when there is no data yet that the difference could refer to. *)
Definition unPackDataDiff (ch : Channel) : UM bool :=
  s ← on_ends get;
  l ← on_ends (on_ent (Cells.cell (latest (ent s))));
  q ← on_ends (on_ent (Cells.deref (older l)));
  c ← on_ends (on_ent (Cells.cell q));
  match data c with
  | None => mret false
  | Some old =>
      endtime ← on_restore ARS.unPackData_uint32;
      prev ← on_ends (object old);
      o ← on_restore (converter_createDiff prev);
      d ← on_ends (new_object o);
      start ← (if eventtype (ent s) then mret endtime else on_ends (on_ent UCE.unpackTimeTick));
      on_ends (on_ent (UCE.newData ch (Some d) (mkTS start endtime)));;
      mret true
  end.

(** *** The messages for an entry *)

(** A message from a node, by its first part; false when it has to wait. *)
Definition unPackMessage (ch : Channel) (m : UChannelCommRequest) : UM bool :=
  match type m with
  | DiffData => unPackDataDiff ch
  | FullData => unPackData ch
  | FullDataReq =>
      on_ends (on_ent (modify (fun e => if has_writer e then UCE.nextSendFull e else e)));;
      mret true
  | TimeJump =>
      on_ends (on_ent (modify (UCE.timeJump (data1 m))));;
      m2 ← on_restore unpack_request;
      dassert (bool_decide (type m2 = FullData));;
      unPackData ch
  | RemoveSaveupCmd => on_ends (on_ent UCE.removeSaveUp);; mret true
  | _ => dassert false;; mret true
  end.

End Pack.
End EP.

(** ** The end of a channel *)

(** What arrives at a [UnifiedChannel]: for its entries, for
    [updateConfiguration], or for the master. *)
Record Arrivals (Obj : Type) := mkArrivals {
  entries : gmap Z (Site Obj);
  entrycache : gmap Z Cache;
  updates : list UChannelCommRequest;
  masterp : bool;
  config_requests : list UChannelCommRequest
}.
#[global] Arguments mkArrivals {_} _ _ _ _ _.
#[global] Arguments entries {_} _.
#[global] Arguments entrycache {_} _.
#[global] Arguments updates {_} _.
#[global] Arguments masterp {_} _.
#[global] Arguments config_requests {_} _.

Definition set_entries {Obj} (v : gmap Z (Site Obj)) (s : Arrivals Obj) : Arrivals Obj :=
  mkArrivals v (entrycache s) (updates s) (masterp s) (config_requests s).
Definition set_entrycache {Obj} (v : gmap Z Cache) (s : Arrivals Obj) : Arrivals Obj :=
  mkArrivals (entries s) v (updates s) (masterp s) (config_requests s).
Definition add_update {Obj} (m : UChannelCommRequest) (s : Arrivals Obj) : Arrivals Obj :=
  mkArrivals (entries s) (entrycache s) (updates s ++ [m]) (masterp s) (config_requests s).
Definition add_request {Obj} (m : UChannelCommRequest) (s : Arrivals Obj) : Arrivals Obj :=
  mkArrivals (entries s) (entrycache s) (updates s) (masterp s) (config_requests s ++ [m]).

Module UE.
Section Unpack.
Context `{BuildConfig} {Obj : Type} `{DataSetConverter Obj}.

Abbreviation UM := (M (Arrivals Obj * ARS.AmorphReStore)).

(** The bytes from [storelevel] go to the cache of the entry, and count as read. *)
Definition cacheUnpack (id storelevel len : Z) : UM unit :=
  r ← on_restore get;
  let bytes := take (Z.to_nat len) (drop (Z.to_nat storelevel) (ARS.stor r)) in
  on_ends (modify (fun s => set_entrycache
    (<[id:=UC.append_item bytes (default (mkCache [] true) (entrycache s !! id))]> (entrycache s)) s));;
  on_restore (ARS.setIndex (storelevel + len)).

(** A method of one entry. *)
Definition at_entry {A} (id : Z) (m : M (Site Obj * ARS.AmorphReStore) A) : UM A := fun w =>
  match entries w.1 !! id with
  | None => (Stuck NullDeref, w)
  | Some e => let '(r, (e', b)) := m (e, w.2) in (r, (set_entries (<[id:=e']> (entries w.1)) w.1, b))
  end.

Definition unPackData (ch : Channel) (len : Z) : UM unit :=
  r ← on_restore get;
  let storelevel := ARS.index r in
  m ← on_restore unpack_request;
  s ← on_ends get;
  if isForEntry m then
    match entries s !! data0 m with
    | None => cacheUnpack (data0 m) storelevel len
    | Some _ =>
        ok ← at_entry (data0 m) (EP.unPackMessage ch m);
        if ok : bool then mret tt else cacheUnpack (data0 m) storelevel len
    end
  else if isForChannel m then on_ends (modify (add_update m))
  else if masterp s then on_ends (modify (add_request m))
  else mret tt.

End Unpack.
End UE.
