(* ===== verification/PackSteps.v ===== *)
(** The packer of a channel entry as one of its readers.

    A packer reads an entry through a client handle that reads in sequence.
    [accessPackData] takes the next data, [packComplete] goes one further and
    [packFailed] stays; against the queues of [ChannelQueues] they are an access,
    a release and a release without step. *)

From S2P Require Import Prelude TimeSpec ChannelEntry ChannelInv ChannelQueues ChannelFrame.
#[local] Open Scope Z_scope.

(** What a packer finds: the read index [p0] in the cell [c0], the data in the
    cell [p] right there or behind a gap, and the cell [d] after it. *)
Record found (s : Entry) (cl : Client) (p0 p x : nat) (z : Z) (c0 c d : Cell) : Prop := {
  f_read_index : read_index cl = Some p0;
  f_first : cells s !! p0 = Some c0;
  f_cell : cells s !! p = Some c;
  f_data : data c = Some x /\ time_or_time_end c = z /\ 1 <= seq_id c;
  f_next : exists n, newer c = Some n /\ cells s !! n = Some d /\ older d = Some p;
  f_gap : seq_id c0 = 0 /\ newer c0 = Some p \/ seq_id c0 <> 0 /\ p0 = p
}.

Definition span_of (event : bool) (c d : Cell) : TimeSpec :=
  mkTS (time_or_time_end c) (if event then time_or_time_end c else time_or_time_end d).

Section Steps.
Context `{BuildConfig}.

Lemma dassert_same b (s1 s2 : Entry) : dassert b s1 = (Val tt, s2) -> s2 = s1.
Proof. unfold dassert. destruct (_ && _); [done|]. by intros [= <-]. Qed.

Lemma time_spec_span s event c n d :
  newer c = Some n -> cells s !! n = Some d ->
  Cells.time_spec c event s = (Val (span_of event c d), s).
Proof.
  intros Hn Hd. unfold Cells.time_spec, span_of. destruct event; [done|].
  unfold Cells.getValidityEnd. rewrite Hn. cbn [Cells.deref of_option]. rewrite mret_bind.
  rewrite (bind_val _ _ _ (time_or_time_end d) s); [done|].
  by rewrite (bind_val _ _ _ d s) by by apply cell_run.
Qed.

Lemma getSequentialData_span s p k event c n d r s' :
  cells s !! p = Some c -> newer c = Some n -> cells s !! n = Some d ->
  Cells.getSequentialData p k event s = (Val r, s') -> snd r = Some (span_of event c d).
Proof.
  intros Hc Hn Hd. unfold Cells.getSequentialData.
  intros (cl & s1 & E1 & E)%bind_inv. unfold Cells.client in E1.
  destruct (clients s !! k); [|done]. injection E1 as -> <-.
  apply bind_inv in E as ([] & s1 & ->%dassert_same & E).
  rewrite (bind_val _ _ _ c s) in E by by apply cell_run.
  apply bind_inv in E as ([] & s1 & ->%dassert_same & E).
  apply bind_inv in E as ([] & s1 & ->%dassert_same & E).
  rewrite (bind_val _ _ _ _ s (time_spec_span s event c n d Hn Hd)) in E.
  apply bind_inv in E as ([] & s1 & _ & E). by injection E as <- <-.
Qed.

Lemma accessPackData_spec event ch s q k cl z x rest pc :
  implements event ch s q -> clients s !! k = Some cl ->
  queues q !! k = Some (mkQueue ((z, x) :: rest) false) ->
  exists p0 p c0 c d s', found s cl p0 p x z c0 c d
    /\ UCE.accessPackData pc k s
       = (Val (Some x, Some (span_of event c d),
           mkPacker (validity_end_sent pc) (previous_data pc)
             (send_full pc || (seq_id c0 =? 0)) (seq_id c)), s')
    /\ implements event ch s' (put_queue k (mkQueue ((z, x) :: rest) true) q)
    /\ shape s' = shape s
    /\ clients s' = <[k:=mkClient true (Some p) (link_seq_id cl) (Some p)]> (clients s)
    /\ count q = seq_id c + Z.of_nat (length ((z, x) :: rest)).
Proof.
  intros Hm Hcl Hq. pose proof (m_inv _ _ _ _ Hm) as (L & HI).
  destruct (closed_client _ _ _ _ _ _ _ Hm HI Hq) as (cl' & i & p0 & Hat & Hl & Hac).
  pose proof Hat as (Hk & Hs & Hr & Hi). assert (cl' = cl) as -> by congruence.
  destruct (skip_gap_spec _ _ _ _ _ _ _ HI Hat ltac:(cbn; lia))
    as (s1 & j & p & c & E1 & Hj & Hij & Hc & Hseq & HI1 & Hs1 & Hc1 & Hpend).
  destruct (in_cells s L [] p0 HI) as (c0 & Hc0); [by eapply list_elem_of_lookup_2|].
  pose proof (shape_core _ _ Hs1) as (Hcore & _ & Hev & _).
  destruct (core_cell _ _ _ _ Hcore Hc) as (c1 & Hcell1 & Hcc).
  pose proof Hcc as Hcc'. injection Hcc' as Ht1 Hd1 _ Hn1 Hq1.
  set (cl1 := Cells.with_read_index (Some p) cl).
  set (sq := standing k cl p s1) in *.
  assert (at_index sq L k cl1 j p) as Hatq.
  { unfold at_index, sq. cbn. by rewrite lookup_insert_eq. }
  rewrite <- Hl in Hpend. rewrite (pending_chain _ _ _ _ _ HI Hj), (drop_S _ _ _ Hj) in Hpend.
  pose proof (data_some _ _ _ _ _ _ HI Hj Hc Hseq) as Hds.
  cbn in Hpend. unfold data_of at 1 in Hpend. rewrite Hc in Hpend. cbn in Hpend.
  unfold item at 1 in Hpend. apply lookup_lt_Some in Hj as Hjl.
  case_bool_decide as Hlast; [by rewrite Hds, drop_ge in Hpend by lia|].
  destruct Hds as (y & Hy). rewrite Hy in Hpend. cbn in Hpend. injection Hpend as Hz -> Hrest.
  destruct (lookup_lt_is_Some_2 L (S j)) as (n & Hn); [lia|].
  destruct (in_cells s L [] n HI) as (d & Hd); [by eapply list_elem_of_lookup_2|].
  pose proof (chain_next _ _ _ _ _ _ HI Hj Hc) as Hnc. rewrite Hn in Hnc.
  destruct (core_cell _ _ _ _ Hcore Hd) as (d1 & Hcd1 & Hdc). injection Hdc as Htd _ _ _ _.
  destruct (getSequentialData_spec sq L k cl1 j p c1) as (ts & s3 & E3 & _ & HI3 & Hs3 & Hc3);
    [done|done|done|exact Hac|lia|].
  pose proof (getSequentialData_span sq p k (eventtype sq) c1 n d1 _ _ Hcell1 ltac:(congruence) Hcd1 E3)
    as Ets. cbn in Ets. injection Ets as Ets.
  assert (ts = span_of event c d) as ->.
  { rewrite Ets. change (eventtype sq) with (eventtype s1). rewrite Hev, (m_event _ _ _ _ Hm).
    unfold span_of. by rewrite Ht1, Htd. }
  assert (clients s3 = <[k:=mkClient true (Some p) (link_seq_id cl) (Some p)]> (clients s)) as Hc3'.
  { rewrite Hc3. unfold sq. cbn. rewrite insert_insert_eq, Hc1. f_equal.
    unfold cl1, Cells.with_accessed, Cells.with_read_index. cbn. by rewrite Hs. }
  pose proof (chain_prev _ _ _ _ _ _ _ HI Hj Hn Hd) as Hod.
  assert (pending s p = (z, x) :: rest) as Hpp.
  { rewrite (pending_chain _ _ _ _ _ HI Hj), (drop_S _ _ _ Hj). cbn. unfold data_of at 1.
    rewrite Hc. cbn. unfold item at 1. rewrite Hy. cbn. by rewrite Hz, Hrest. }
  exists p0, p, c0, c, d, s3. split; [|split; [|split; [|split; [|split; [exact Hc3'|]]]]].
  - split; try done; [by exists n|].
    destruct (Z.eq_dec (seq_id c0) 0) as [E|E].
      + left. split; [done|]. unfold UCE.skip_gap in E1.
        rewrite (bind_val _ _ _ c0 s) in E1 by by apply cell_run.
        rewrite (proj2 (Z.eqb_eq _ _) E) in E1.
        destruct Hij as [->|[-> _]].
        -- exfalso. assert (c0 = c) as -> by congruence. lia.
        -- by rewrite (chain_next _ _ _ _ _ _ HI Hi Hc0).
      + right. split; [done|]. unfold UCE.skip_gap in E1.
        rewrite (bind_val _ _ _ c0 s) in E1 by by apply cell_run.
        rewrite (proj2 (Z.eqb_neq _ _) E) in E1. by injection E1.
  - unfold UCE.accessPackData. rewrite (bind_val _ _ _ s s) by reflexivity.
    rewrite (m_valid _ _ _ _ Hm). cbn [negb].
    rewrite (bind_val _ _ _ cl s) by by apply client_run.
    rewrite Hr. cbn [Cells.deref of_option]. rewrite mret_bind.
    rewrite (bind_val _ _ _ c0 s) by by apply cell_run.
    rewrite (bind_val _ _ _ (p, mkPacker (validity_end_sent pc) (previous_data pc)
             (send_full pc || (seq_id c0 =? 0)) (packer_seq_id pc)) sq).
    2:{ destruct (Z.eqb_spec (seq_id c0) 0) as [Hz0|Hz0].
        - rewrite (bind_val _ _ _ p s1) by exact E1.
          rewrite (bind_val _ _ _ cl s1) by (apply client_run; by rewrite Hc1).
          by rewrite orb_true_r.
        - unfold UCE.skip_gap in E1. rewrite (bind_val _ _ _ c0 s) in E1 by by apply cell_run.
          destruct (Z.eqb_spec (seq_id c0) 0); [done|]. injection E1 as <- <-.
          unfold sq. rewrite standing_same by done. rewrite orb_false_r. by destruct pc. }
    cbv beta iota. rewrite (bind_val _ _ _ c1 sq) by by apply cell_run. cbn zeta.
    replace (eventtype s) with (eventtype sq) by done.
    rewrite (bind_val _ _ _ _ s3 E3). cbn [fst snd].
    rewrite (bind_val _ _ _ tt s3) by (apply dassert_true; rewrite Hd1, Hy;
      by rewrite bool_decide_true by eauto).
    rewrite Hd1, Hy, Hq1. by cbn.
  - rewrite <- Hpp.
    eapply (implements_client event ch s s3 q L k _ p true);
      [done|done|by rewrite Hs3|exact Hc3'|done|done| |done].
    right. split; [done|]. rewrite Hc. cbn. rewrite Hy. eauto.
  - by rewrite Hs3.
  - destruct (m_sentinel _ _ _ _ Hm) as (l & Hla & Hsl & _). rewrite <- Hsl, <- Hpp.
    by eapply (pending_length s L [] j p c l).
Qed.

Lemma packer_run s i k pc : pclients s !! i = Some (k, pc) -> UCE.packer i s = (Val (k, pc), s).
Proof.
  intros E. unfold UCE.packer. rewrite (bind_val _ _ _ s s) by reflexivity. by rewrite E.
Qed.

(** A packer has no other use for [releaseData]. *)
Lemma packComplete_release s i k pc cl p c :
  pclients s !! i = Some (k, pc) -> clients s !! k = Some cl -> sequential_read cl = true ->
  read_index cl = Some p -> accessed cl = Some p -> cells s !! p = Some c ->
  UCE.packComplete i s = UCE.releaseData k s.
Proof.
  intros Hi Hk Hs Hr Ha Hc. unfold UCE.packComplete, UCE.releaseData.
  rewrite (bind_val _ _ _ _ _ (packer_run _ _ _ _ Hi)).
  rewrite !(bind_val _ _ _ cl s) by by apply client_run.
  rewrite Hs, Hr, Ha. cbn [Cells.deref of_option]. rewrite !mret_bind.
  unfold mbind, M_bind. rewrite (cell_run _ _ _ Hc).
  set (s1 := set_clients <[k:=Cells.with_read_index (newer c) cl]> s). assert (cells s1 !! p = Some c) as Hc1 by done.
  change (Cells.set_client k (Cells.with_read_index (newer c) cl) s) with (@Val unit tt, s1).
  cbv beta iota. rewrite (cell_run _ _ _ Hc1).
  by destruct (Cells.deref (newer c) s1) as [[n| |] s2]; [destruct (Cells.incrementReadAccess n s2) as [[]]|..].
Qed.

Lemma packComplete_spec event ch s q i k pc cl z x rest :
  implements event ch s q -> queues q !! k = Some (mkQueue ((z, x) :: rest) true) ->
  pclients s !! i = Some (k, pc) -> clients s !! k = Some cl ->
  exists p c n s', UCE.packComplete i s = (Val tt, s')
    /\ read_index cl = Some p /\ cells s !! p = Some c /\ newer c = Some n
    /\ implements event ch s' (put_queue k (mkQueue rest false) q) /\ shape s' = shape s
    /\ clients s' = <[k:=mkClient true (Some n) (link_seq_id cl) None]> (clients s).
Proof.
  intros Hm Hq Hi Hcl. pose proof (m_inv _ _ _ _ Hm) as (L & HI).
  destruct (open_client _ _ _ _ _ _ _ Hm HI Hq) as (cl' & j & p & c & d & Hat & Hl & Ha & Hc & Hd).
  pose proof Hat as (Hk & Hs & Hr & Hj). assert (cl' = cl) as -> by congruence.
  rewrite (pending_tail _ _ _ _ _ _ _ HI Hj Hc Hd) in Hl. injection Hl as _ _ ->.
  assert (p <> latest s) as Hne.
  { intros ->. destruct (split_last _ _ _ HI Hc) as (_ & _ & _ & _ & _ & _ & _ & Hn). congruence. }
  pose proof (not_last _ _ _ _ _ HI Hj Hne) as Hlt.
  destruct (releaseData_seq s L k cl j p HI Hat Ha Hlt) as (s' & n & E & Hn & HI' & Hsh & Hcl').
  exists p, c, n, s'. rewrite (packComplete_release s i k pc cl p c) by done.
  split_and!; [done|done|done|by rewrite (chain_next _ _ _ _ _ _ HI Hj Hc)| |done|done].
  rewrite <- (pending_chain _ _ _ _ _ HI Hn).
  eapply (implements_client event ch s s' q L k _ n false); [done|done|done|exact Hcl'|done|done|by left|done].
Qed.

(** After a failure the packer stands where it was, or behind the gap. *)
Lemma packFailed_spec event ch s q i k pc cl z x rest :
  implements event ch s q -> queues q !! k = Some (mkQueue ((z, x) :: rest) true) ->
  pclients s !! i = Some (k, pc) -> clients s !! k = Some cl ->
  exists s', UCE.packFailed i s = (Val tt, s')
    /\ implements event ch s' (put_queue k (mkQueue ((z, x) :: rest) false) q)
    /\ shape s' = shape s
    /\ clients s' = <[k:=mkClient true (read_index cl) (link_seq_id cl) None]> (clients s).
Proof.
  intros Hm Hq Hi Hcl. pose proof (m_inv _ _ _ _ Hm) as (L & HI).
  destruct (open_client _ _ _ _ _ _ _ Hm HI Hq) as (cl' & j & p & c & d & Hat & Hl & Ha & Hc & Hd).
  pose proof Hat as (Hk & Hs & Hr & Hj). assert (cl' = cl) as -> by congruence.
  set (cl1 := mkClient true (read_index cl) (link_seq_id cl) None).
  assert (Cells.with_accessed None cl = cl1) as Ecl by (unfold Cells.with_accessed, cl1; by rewrite Hs).
  destruct (set_client_spec s L [] k cl cl1 []) as (s' & E & HI' & Hsh & Hcl');
    [done|done| | |].
  { rewrite <- Ecl. apply client_ok_accessed; [by apply (i_clients _ _ _ HI k)|done]. }
  { by rewrite (latch_seq cl1 p), (latch_seq cl p). }
  exists s'. split_and!; [| |done|done].
  - unfold UCE.packFailed. rewrite (bind_val _ _ _ _ _ (packer_run _ _ _ _ Hi)).
    rewrite (bind_val _ _ _ cl s) by by apply client_run. by rewrite Ecl.
  - rewrite Hl.
    eapply (implements_client event ch s s' q L k cl1 p false); [done|done|done|exact Hcl'|done|done|by left|done].
Qed.

End Steps.
