(* ===== verification/EntryMessage.v ===== *)
(** What a packer writes for one set of data.

    The laws of a converter, the bytes of a message, and [EP.packData] as a
    function from the state of a packer to these bytes: a jump in time where the
    validity does not connect, then the data in full or as a difference. *)

From S2P Require Import Prelude Bytes Amorph Transport TimeSpec ChannelMsg ChannelEntry ChannelInv ChannelQueues ChannelFrame EntryPack PackSteps.
#[local] Open Scope Z_scope.

(** What the entries rely on: an object is read back from what was packed, a
    difference by whoever has the same reference. *)
Class DataSetConverterLaws (Obj : Type) `{DataSetConverter Obj} := {
  object_ok : Obj -> Prop;
  full_bytes : Obj -> list Z;
  diff_bytes : Obj -> Obj -> list Z;
  full_packs `{BuildConfig} o : object_ok o ->
    bytes_ok (full_bytes o) /\ packs (full_bytes o) (converter_packData o);
  diff_packs `{BuildConfig} o p : object_ok o -> object_ok p ->
    bytes_ok (diff_bytes o p) /\ packs (diff_bytes o p) (converter_packDataDiff o p);
  full_back `{BuildConfig} o rest r : object_ok o -> lies_ahead (full_bytes o ++ rest) r ->
    converter_create r = (Val o, step_index (Z.of_nat (length (full_bytes o))) r);
  diff_back `{BuildConfig} o p rest r : object_ok o -> object_ok p ->
    lies_ahead (diff_bytes o p ++ rest) r ->
    converter_createDiff p r = (Val o, step_index (Z.of_nat (length (diff_bytes o p))) r);
  small_objects o p : object_ok o -> object_ok p ->
    Z.of_nat (length (full_bytes o)) < 4294967000 /\ Z.of_nat (length (diff_bytes o p)) < 4294967000
}.

Section Messages.
Context `{BuildConfig} {Obj : Type} `{DataSetConverterLaws Obj}.

(** ** The bytes of a message *)

Definition jump_bytes (id : Z) (jump : option Z) : list Z :=
  match jump with Some z => request_bytes (short TimeJump id z) | None => [] end.

Definition body_bytes (id ending : Z) (ref : option Obj) (o : Obj) : list Z :=
  match ref with
  | None => request_bytes (short FullData id 0) ++ encoding (Vnum Cuint32 ending) ++ full_bytes o
  | Some p => request_bytes (short DiffData id 0) ++ encoding (Vnum Cuint32 ending) ++ diff_bytes o p
  end.

Definition message_bytes (id : Z) (jump : option Z) (ending : Z) (ref : option Obj) (o : Obj) : list Z :=
  jump_bytes id jump ++ body_bytes id ending ref o.

Lemma short_ok t id z :
  (t = FullData \/ t = DiffData) /\ z = 0 \/ t = TimeJump -> is_u16 id -> is_u32 z ->
  request_ok (short t id z).
Proof.
  intros [[[->| ->] ->]| ->] Hid Hz; unfold request_ok, short, is_u8, is_u16, is_u32, no_id, id_ok in *; cbn;
    (split_and!; try done; try lia; unfold is_u8, is_u16; cbn; try lia; apply Forall_nil).
Qed.

(** ** Writing to the store only *)

(** [m] leaves the site [s] alone, writes [bs] and returns [a], or clogs the store. *)
Definition writes {A} (s : Site Obj) (bs : list Z) (m : M (Site Obj * AS.AmorphStore) A) (a : A) : Prop :=
  forall st, as_ok st -> AS.choked st = false ->
    AS.index st + Z.of_nat (length bs) < 4294967296 ->
    if decide (AS.index st + Z.of_nat (length bs) <= AS.capacity st)
    then m (s, st) = (Val a, (s, append bs st))
    else exists w, bytes_ok w /\ AS.index st + Z.of_nat (length w) <= AS.capacity st /\
      m (s, st) = (Exn AmorphStoreBoundary, (s, AS.set_choked true (append w st))).

Lemma writes_store s bs m : packs bs m -> writes s bs (on_store m) tt.
Proof.
  intros Hm st Hst Hc Hw. specialize (Hm st Hst Hc Hw). unfold on_store. cbn.
  case_decide; [by rewrite Hm|]. destruct Hm as (w & Hw1 & Hw2 & E). exists w. by rewrite E.
Qed.

Lemma writes_pure {A} s (m : M (Site Obj * AS.AmorphStore) A) a :
  (forall st, m (s, st) = (Val a, (s, st))) -> writes s [] m a.
Proof.
  intros Hm st Hst Hc _. pose proof Hst as []. rewrite append_no_bytes by done.
  rewrite decide_True by (cbn; lia). apply Hm.
Qed.

Lemma writes_bind {A B} s a b (m : M (Site Obj * AS.AmorphStore) A) k (x : A) (y : B) :
  bytes_ok a -> writes s a m x -> writes s b (k x) y -> writes s (a ++ b) (m ≫= k) y.
Proof.
  intros Ha Hm Hk st Hst Hc. rewrite length_app, Nat2Z.inj_add. intros Hw.
  specialize (Hm st Hst Hc ltac:(lia)). case_decide as Ela.
  - specialize (Hk (append a st) (append_ok a st Hst Ha Ela) Hc).
    cbn [append AS.index AS.capacity AS.set_index AS.set_stor] in Hk.
    specialize (Hk ltac:(lia)). rewrite Z.add_assoc. rewrite (bind_val _ _ _ _ _ Hm).
    case_decide as Elb.
    + fold (append a st) in Hk. rewrite Hk.
      by rewrite append_append by (rewrite ?length_app; done || lia).
    + destruct Hk as (w & Hw1 & Hw2 & E). fold (append a st) in E. rewrite E.
      exists (a ++ w). rewrite length_app. split_and!; [by apply Forall_app|lia|].
      by rewrite append_append by (rewrite ?length_app; done || lia).
  - rewrite decide_False by lia. destruct Hm as (w & Hw1 & Hw2 & Hm).
    exists w. split_and!; [done..|]. by apply bind_exn.
Qed.

Lemma writes_pure_bind {A B} s b (m : M (Site Obj * AS.AmorphStore) A) k (x : A) (y : B) :
  (forall st, m (s, st) = (Val x, (s, st))) -> writes s b (k x) y -> writes s b (m ≫= k) y.
Proof. intros Hm Hk. apply (writes_bind s [] b _ _ x); [constructor|by apply writes_pure|done]. Qed.

Lemma writes_value s v : cvalue_ok v -> writes s (encoding v) (on_store (packData v)) tt.
Proof. intros Hv. by apply writes_store, packs_data. Qed.

Definition head_bytes (t : MessageType) (id : Z) : list Z :=
  encoding (Vnum Cuint8 (code t)) ++ encoding (Vnum Cuint16 id).

Lemma head_full t id : t = FullData \/ t = DiffData -> request_bytes (short t id 0) = head_bytes t id.
Proof. by intros [->| ->]. Qed.
Lemma head_jump id z :
  request_bytes (short TimeJump id z) = head_bytes TimeJump id ++ encoding (Vnum Cuint32 z).
Proof. reflexivity. Qed.

Lemma head_ok t id : is_u8 (code t) -> is_u16 id -> bytes_ok (head_bytes t id).
Proof. intros Ht Hid. by apply Forall_app; split; apply encoding_ok. Qed.

Lemma pack_head_writes s t : is_u8 (code t) -> is_u16 (entry_id s) ->
  writes s (head_bytes t (entry_id s)) (EP.pack_head t) tt.
Proof.
  intros Ht Hid. unfold EP.pack_head. apply (writes_pure_bind _ _ _ _ s); [done|].
  apply (writes_bind _ _ _ _ _ tt); [by apply encoding_ok|by apply writes_value..].
Qed.

(** The jump a packer announces, and its state after it. *)
Definition jump_of (event : bool) (pc : PackerClientData) (ts : TimeSpec) : option Z :=
  if event || (validity_end_sent pc =? validity_start ts) then None else Some (validity_start ts).
Definition with_validity (event : bool) (ts : TimeSpec) (pc : PackerClientData) : PackerClientData :=
  mkPacker (if event then validity_end_sent pc else validity_end ts) (previous_data pc)
    (send_full pc) (packer_seq_id pc).

Lemma pack_jump_writes s pc ts : is_u16 (entry_id s) -> is_u32 (validity_start ts) ->
  writes s (jump_bytes (entry_id s) (jump_of (eventtype (ent s)) pc ts)) (EP.pack_jump pc ts)
    (with_validity (eventtype (ent s)) ts pc).
Proof.
  intros Hid Hz. unfold EP.pack_jump, jump_of, with_validity.
  apply (writes_pure_bind _ _ _ _ s); [done|].
  destruct (eventtype (ent s)); [by apply writes_pure; destruct pc|]. cbn [orb].
  destruct (_ =? _); [by apply writes_pure|]. cbn [jump_bytes]. rewrite head_jump.
  rewrite <- (app_nil_r (_ ++ _)). apply (writes_bind _ _ _ _ _ tt); [|apply (writes_bind _ _ _ _ _ tt)|].
  - apply Forall_app. split; [apply head_ok; [by unfold is_u8|done]|by apply encoding_ok].
  - apply head_ok; [by unfold is_u8|done].
  - apply pack_head_writes; [by unfold is_u8|done].
  - by apply writes_value.
  - by apply writes_pure.
Qed.

(** An object that is still there. *)
Definition object_at (s : Site Obj) (d : nat) (o : Obj) : Prop :=
  Some d ∉ deleted (ent s) /\ objs s !! d = Some o.

Lemma object_run s d o : object_at s d o -> EP.object d s = (Val o, s).
Proof.
  intros [Hd Ho]. unfold EP.object. rewrite (bind_val _ _ _ s s) by reflexivity.
  rewrite bool_decide_false by done. by rewrite Ho.
Qed.

Lemma fetch_pure s d o (st : AS.AmorphStore) :
  object_at s d o -> on_entries (EP.object d) (s, st) = (Val o, (s, st)).
Proof. intros Ho. unfold on_entries. cbn. by rewrite (object_run _ _ _ Ho). Qed.

(** The reference a packer uses. *)
Definition ref_of (pc : PackerClientData) (last : option Obj) : option Obj :=
  if send_full pc then None else last.

Lemma pack_body_writes s pc ts x o last :
  is_u16 (entry_id s) -> is_u32 (validity_end ts) -> object_at s x o -> object_ok o ->
  (send_full pc = false -> exists d p, last = Some p /\ object_ok p
     /\ previous_data pc = Some d /\ object_at s d p) ->
  writes s (body_bytes (entry_id s) (validity_end ts) (ref_of pc last) o) (EP.pack_body pc ts (Some x))
    (mkPacker (validity_end_sent pc) (previous_data pc)
       (if send_full pc then fullpackmode s else false) (packer_seq_id pc)).
Proof.
  intros Hid He Hx Ho Hp. unfold EP.pack_body, ref_of.
  assert (forall t, t = FullData \/ t = DiffData -> is_u8 (code t)) as Ht.
  { intros t [->| ->]; by unfold is_u8. }
  destruct (send_full pc) eqn:Ef; cbn [body_bytes].
  - destruct (full_packs o Ho) as [Hb Hpk]. rewrite head_full by by left.
    apply (writes_bind _ _ _ _ _ tt); [apply head_ok; auto|apply pack_head_writes; auto|].
    apply (writes_bind _ _ _ _ _ tt); [by apply encoding_ok|by apply writes_value|].
    rewrite <- (app_nil_r (full_bytes o)). apply (writes_bind _ _ _ _ _ tt); [done| |].
    + unfold EP.pack_object. apply (writes_pure_bind _ _ _ _ x); [by destruct s|].
      apply (writes_pure_bind _ _ _ _ o); [intros; by apply fetch_pure|]. by apply writes_store.
    + by apply writes_pure.
  - destruct (Hp eq_refl) as (d & p & -> & Hpo & Hpd & Hat).
    destruct (diff_packs o p Ho Hpo) as [Hb Hpk]. cbn [body_bytes]. rewrite head_full by by right.
    apply (writes_bind _ _ _ _ _ tt); [apply head_ok; auto|apply pack_head_writes; auto|].
    apply (writes_bind _ _ _ _ _ tt); [by apply encoding_ok|by apply writes_value|].
    rewrite <- (app_nil_r (diff_bytes o p)).
    apply (writes_pure_bind _ _ _ _ x); [by destruct s|].
    apply (writes_pure_bind _ _ _ _ o); [intros; by apply fetch_pure|].
    rewrite Hpd. apply (writes_pure_bind _ _ _ _ d); [by destruct s|].
    apply (writes_pure_bind _ _ _ _ p); [intros; by apply fetch_pure|].
    apply (writes_bind _ _ _ _ _ tt); [done|by apply writes_store|].
    apply writes_pure. intros. rewrite <- Ef, <- Hpd. by destruct pc.
Qed.

Lemma message_small id jump ending ref o : object_ok o -> (forall p, ref = Some p -> object_ok p) ->
  Z.of_nat (length (message_bytes id jump ending ref o)) < 4294967200.
Proof.
  intros Ho Hr. pose proof (small_objects o o Ho Ho) as [Hf _]. unfold message_bytes.
  assert (Z.of_nat (length (jump_bytes id jump)) <= 7) as Hj by (destruct jump; cbn; lia).
  rewrite length_app. destruct ref as [p|]; cbn [body_bytes]; rewrite !length_app.
  - pose proof (small_objects o p Ho (Hr p eq_refl)) as [_ Hd].
    change (length (request_bytes (short DiffData id 0))) with 3%nat.
    change (length (encoding (Vnum Cuint32 ending))) with 4%nat. lia.
  - change (length (request_bytes (short FullData id 0))) with 3%nat.
    change (length (encoding (Vnum Cuint32 ending))) with 4%nat. lia.
Qed.

Lemma message_ok id jump ending ref o : is_u16 id -> (forall z, jump = Some z -> is_u32 z) ->
  is_u32 ending -> object_ok o -> (forall p, ref = Some p -> object_ok p) ->
  bytes_ok (message_bytes id jump ending ref o).
Proof.
  intros Hid Hj He Ho Hr. unfold message_bytes. apply Forall_app. split.
  - destruct jump; cbn [jump_bytes]; [|constructor]. rewrite head_jump.
    apply Forall_app. split; [apply head_ok; [by unfold is_u8|done]|]. apply encoding_ok. cbn. auto.
  - destruct ref as [p|]; cbn [body_bytes]; rewrite head_full by auto; apply Forall_app;
      (split; [apply head_ok; [by unfold is_u8|done]|]); apply Forall_app;
      (split; [by apply encoding_ok|]); [by apply diff_packs; auto|by apply full_packs].
Qed.

End Messages.
