(* ===== verification/EntryMirror.v ===== *)
(** A channel entry and its copy at another node.

    [Sound] joins the queues of an entry with the times and the objects of its
    data; [Sending] says what a packer knows of the data it has sent. *)

From S2P Require Import Prelude Bytes Amorph Transport TimeSpec ChannelMsg ChannelEntry ChannelInv ChannelFrame ChannelQueues EntryPack PackSteps EntryMessage.
#[local] Open Scope Z_scope.

Section Sites.
Context `{BuildConfig} {Obj : Type} `{DataSetConverterLaws Obj}.

(** ** Entries with their objects *)

Record Sound (ch : Channel) (s : Site Obj) (q : Queues) : Prop := {
  so_impl : implements (eventtype (ent s)) ch (ent s) q;
  so_tidy : Tidy (ent s);
  so_objs : forall p c x, cells (ent s) !! p = Some c -> data c = Some x ->
    exists o, objs s !! x = Some o /\ object_ok o;
  so_deleted : forall x, Some x ∈ deleted (ent s) -> (x < length (objs s))%nat;
  so_times : forall p c, cells (ent s) !! p = Some c -> 0 <= time_or_time_end c < MAX_TIMETICK
}.

Lemma sound_object ch s q p c x :
  Sound ch s q -> cells (ent s) !! p = Some c -> data c = Some x ->
  exists o, object_at s x o /\ object_ok o.
Proof.
  intros HS Hc Hx. destruct (so_objs _ _ _ HS p c x Hc Hx) as (o & Ho & Hok). exists o.
  split; [|done]. split; [|done]. by eapply (t_alive _ (so_tidy _ _ _ HS)).
Qed.

(** Operations of clients leave all this alone. *)
Lemma sound_shape ch s e q q' :
  Sound ch s q -> shape e = shape (ent s) -> implements (eventtype e) ch e q' ->
  Sound ch (set_ent e s) q'.
Proof.
  intros [_ Ht Ho Hd Htm] Hs Hi. pose proof (shape_core _ _ Hs) as (E & Ed & _). symmetry in E.
  assert (forall p c', cells e !! p = Some c' ->
    exists c, cells (ent s) !! p = Some c /\ core c = core c') as Hw by (intros; by eapply core_cell).
  split; cbn; [done|by eapply Tidy_shape| | |].
  - intros p c x (c1 & Hc & Ec)%Hw Hx. injection Ec as _ D _ _ _. eapply Ho; [done|congruence].
  - by rewrite Ed.
  - intros p c (c1 & Hc & Ec)%Hw. injection Ec as <- _ _ _ _. eauto.
Qed.

(** The last data sent: the end of its validity and the object. *)
Definition Sent : Type := option (Z * Obj).

Record Sending (s : Site Obj) (i k : nat) (pc : PackerClientData) (last : Sent) : Prop := {
  se_packer : pclients (ent s) !! i = Some (k, pc);
  se_id : is_u16 (entry_id s) /\ entry_id s <> entry_end;
  se_last : match last with
    | None => send_full pc = true
        /\ (eventtype (ent s) = false -> validity_end_sent pc = MAX_TIMETICK)
    | Some (ve, o) => object_ok o
        /\ (eventtype (ent s) = false -> validity_end_sent pc = ve)
        /\ exists x cl p, previous_data pc = Some x /\ objs s !! x = Some o
             /\ clients (ent s) !! k = Some cl /\ read_index cl = Some p /\ stands (ent s) p ve x
    end
}.

(** How a message follows on the one before. *)
Definition connects (event : bool) (last : Sent) (jump : option Z) (ref : option Obj) (z ending : Z)
    : Prop :=
  (ref = None \/ exists ve p, last = Some (ve, p) /\ ref = Some p /\ jump = None) /\
  if event then jump = None /\ ending = z
  else z < ending /\
    match last with
    | None => jump = Some z
    | Some (ve, _) => jump = None /\ z = ve \/ jump = Some z /\ ve < z
    end.

(** The data a packer finds connect to the last it has sent. *)
Lemma found_connects ch s q i k pc last cl p0 p x z c0 c d :
  Sound ch s q -> Sending s i k pc last -> clients (ent s) !! k = Some cl ->
  found (ent s) cl p0 p x z c0 c d ->
  let event := eventtype (ent s) in
  let pc' := mkPacker (validity_end_sent pc) (previous_data pc)
               (send_full pc || (seq_id c0 =? 0)) (seq_id c) in
  let ts := span_of event c d in
  connects event last (jump_of event pc' ts) (ref_of pc' (snd <$> last)) z (validity_end ts)
  /\ validity_start ts = z.
Proof.
  intros HS [_ _ Hlast] Hcl [Hri Hc0 Hc (Hx & Hz & Hseq) (n & Hn & Hd & _) Hgap] event pc' ts.
  pose proof (so_tidy _ _ _ HS) as HT. split; [|by rewrite <- Hz].
  assert (seq_id d <> 1) as Hd1.
  { intros E. destruct (t_first _ HT p c n d Hc Hn Hd E). lia. }
  pose proof (t_links _ HT p c n d Hc Hn Hd) as Hlink. unfold link_ok in Hlink. fold event in Hlink.
  pose proof (so_times _ _ _ HS p c Hc) as Htc.
  assert (ref_of pc' (snd <$> last) = None \/ exists ve o, last = Some (ve, o)
    /\ ref_of pc' (snd <$> last) = Some o /\ send_full pc = false /\ seq_id c0 <> 0) as Href.
  { unfold ref_of, pc'. cbn. destruct (send_full pc) eqn:Ef; [by left|].
    destruct (Z.eqb_spec (seq_id c0) 0); [by left|]. right. cbn.
    destruct last as [[ve o]|]; [by exists ve, o|]. destruct Hlast; congruence. }
  destruct last as [[ve o]|].
  - destruct Hlast as (_ & Hve & x' & cl' & p' & _ & _ & Hcl' & Hri' & c0' & r & b & Hc0' & Hol & _ & Ht0 & _ & Hs1).
    assert (cl' = cl) as -> by congruence. assert (p' = p0) as -> by congruence.
    assert (c0' = c0) as -> by congruence.
    unfold connects, jump_of, ts, span_of. fold event. destruct event eqn:Ee; cbn [orb validity_start validity_end].
    { split; [|done]. destruct Href as [?|(ve' & o' & E1 & E2 & _)]; [by left|]. right. by exists ve', o'. }
    specialize (Hve Ee). set (v := validity_end_sent pc) in *. specialize (Ht0 Ee). specialize (Hlink eq_refl Hd1).
    unfold pc'. cbn [validity_end_sent].
    destruct Hgap as [[Hz0 Hn0]|[Hz0 ->]].
    + assert (seq_id c <> 1) as Hc1.
      { intros E. destruct (t_first _ HT p0 c0 p c Hc0 Hn0 Hc E). congruence. }
      pose proof (t_links _ HT p0 c0 p c Hc0 Hn0 Hc Ee Hc1) as Hl0.
      rewrite (proj2 (Z.eqb_neq v (time_or_time_end c))) by lia. split.
      * destruct Href as [?|(_ & _ & _ & _ & _ & ?)]; [by left|done].
      * split; [lia|]. right. split; [by rewrite Hz|lia].
    + assert (c0 = c) as -> by congruence.
      rewrite (proj2 (Z.eqb_eq v (time_or_time_end c))) by lia. split.
      * destruct Href as [?|(ve' & o' & E1 & E2 & _)]; [by left|]. right. by exists ve', o'.
      * split; [lia|]. left. split; [done|lia].
  - destruct Hlast as (Hfull & Hmax).
    assert (ref_of pc' (snd <$> None) = None) as ->.
    { destruct Href as [?|(? & ? & ? & _)]; [done|done]. }
    unfold connects, jump_of, ts, span_of. fold event. destruct event eqn:Ee; cbn [orb validity_start validity_end].
    { split; [by left|done]. }
    specialize (Hmax Ee). specialize (Hlink eq_refl Hd1). unfold pc'. cbn [validity_end_sent].
    rewrite (proj2 (Z.eqb_neq (validity_end_sent pc) (time_or_time_end c))) by lia. split; [by left|]. split; [lia|by rewrite Hz].
Qed.

(** ** Sending *)

Lemma implements_pclients event ch s q l :
  implements event ch s q -> implements event ch (set_pclients l s) q.
Proof.
  intros [(L & HI) ? ? ? ? ? Hq]. split; try done.
  exists L. destruct HI. by split.
Qed.

Lemma sound_pclients ch (s : Site Obj) q l :
  Sound ch s q -> Sound ch (set_ent (set_pclients l (ent s)) s) q.
Proof.
  intros [Hi [] ? ? ?]. split; try done; first [by apply implements_pclients|by split].
Qed.

(** What a step of the packer leaves alone. *)
Definition kept (s s' : Site Obj) : Prop :=
  objs s' = objs s /\ entry_id s' = entry_id s /\ fullpackmode s' = fullpackmode s
  /\ events (ent s') = events (ent s) /\ eventtype (ent s') = eventtype (ent s)
  /\ has_writer (ent s') = has_writer (ent s).

Lemma on_entries_run {A} (m : M Entry A) (s : Site Obj) (st : AS.AmorphStore) r e :
  m (ent s) = (r, e) -> on_entries (on_ent m) (s, st) = (r, (set_ent e s, st)).
Proof. intros E. unfold on_entries, on_ent. cbn. by rewrite E. Qed.

Lemma object_at_shape (s : Site Obj) e x o :
  shape e = shape (ent s) -> object_at s x o -> object_at (set_ent e s) x o.
Proof. intros (_ & Ed & _)%shape_core [Hd Ho]. split; [|done]. cbn. by rewrite Ed. Qed.

(** The run of [packData] once the data have been found. *)
Lemma pack_found_run (s : Site Obj) i k pc x ts pc' s1 o last seq st :
  valid (ent s) = true -> is_u16 (entry_id s) /\ entry_id s <> entry_end ->
  pclients (ent s) !! i = Some (k, pc) ->
  UCE.accessPackData pc k (ent s) = (Val (Some x, Some ts, pc'), s1) ->
  seq = packer_seq_id pc' -> object_at (set_ent s1 s) x o -> object_ok o ->
  is_u32 (validity_start ts) -> is_u32 (validity_end ts) ->
  (send_full pc' = false -> exists d p, last = Some p /\ object_ok p
     /\ previous_data pc' = Some d /\ object_at (set_ent s1 s) d p) ->
  as_ok st -> AS.choked st = false ->
  let event := eventtype s1 in
  let msg := message_bytes (entry_id s) (jump_of event pc' ts) (validity_end ts) (ref_of pc' last) o in
  let pc2 := mkPacker (if event then validity_end_sent pc' else validity_end ts) (Some x)
               (if send_full pc' then fullpackmode s else false) (packer_seq_id pc') in
  AS.index st + Z.of_nat (length msg) < 4294967296 ->
  if decide (AS.index st + Z.of_nat (length msg) <= AS.capacity st)
  then EP.packData i seq (s, st)
       = (Val true, (set_ent (set_pclients (<[i:=(k, pc2)]> (pclients s1)) s1) s, append msg st))
  else exists w, bytes_ok w /\ AS.index st + Z.of_nat (length w) <= AS.capacity st
       /\ EP.packData i seq (s, st)
          = (Exn AmorphStoreBoundary, (set_ent s1 s, AS.set_choked true (append w st))).
Proof.
  intros Hv [Hid Hend] Hi E Hseq Hx Ho Hzs Hze Hprev Hst Hch event msg pc2 Hw.
  assert (writes (set_ent s1 s) msg
    (pc ← EP.pack_jump pc' ts; EP.pack_body pc ts (Some x))
    (mkPacker (if event then validity_end_sent pc' else validity_end ts) (previous_data pc')
      (if send_full pc' then fullpackmode s else false) (packer_seq_id pc'))) as HW.
  { apply (writes_bind _ _ _ _ _ (with_validity event ts pc')).
    - unfold jump_of. destruct (_ || _); [constructor|]. cbn [jump_bytes].
      rewrite head_jump. apply Forall_app. split; [|by apply encoding_ok].
      apply head_ok; [by unfold is_u8|done].
    - by apply (pack_jump_writes (set_ent s1 s)).
    - by apply (pack_body_writes (set_ent s1 s) (with_validity event ts pc')). }
  assert (EP.packData i seq (s, st)
    = (pc ← (pc ← EP.pack_jump pc' ts; EP.pack_body pc ts (Some x));
       on_entries (on_ent (modify (fun s => set_pclients (<[i:=(k,
         mkPacker (validity_end_sent pc) (Some x) (send_full pc) (packer_seq_id pc))]> (pclients s)) s)));;
       mret true) (set_ent s1 s, st)) as ->.
  { unfold EP.packData. rewrite (bind_val _ _ _ s (s, st)) by reflexivity.
    rewrite Hv. cbn [negb]. rewrite (proj2 (Z.eqb_neq _ _) Hend).
    rewrite (bind_val _ _ _ (k, pc) (s, st)).
    2:{ rewrite (on_entries_run _ _ _ _ _ (packer_run _ _ _ _ Hi)). by destruct s. }
    cbv beta iota. rewrite (bind_val _ _ _ _ _ (on_entries_run _ _ _ _ _ E)). cbv beta iota.
    rewrite (bind_val _ _ _ tt (set_ent s1 s, st)) by (apply dassert_true; by apply Z.eqb_eq).
    rewrite (bind_val _ _ _ ts (set_ent s1 s, st)) by reflexivity.
    by rewrite bind_assoc. }
  specialize (HW st Hst Hch Hw). case_decide.
  - by rewrite (bind_val _ _ _ _ _ HW).
  - destruct HW as (w & Hw1 & Hw2 & HW). exists w. split_and!; [done..|]. by apply bind_exn.
Qed.

(** The sender after the data with object [o] have been packed and confirmed. *)
Lemma sending_after ch s q i k pc l cl p0 p x z c0 c d o s1 pc2 :
  Sound ch s q -> Sending s i k pc l ->
  found (ent s) cl p0 p x z c0 c d -> objs s !! x = Some o -> object_ok o ->
  shape s1 = shape (ent s) ->
  clients s1 !! k = Some (mkClient true (newer c) (link_seq_id cl) None) ->
  previous_data pc2 = Some x ->
  (eventtype (ent s) = false -> validity_end_sent pc2 = time_or_time_end d) ->
  Sending (set_ent (set_pclients (<[i:=(k, pc2)]> (pclients s1)) s1) s) i k pc2
    (Some (validity_end (span_of (eventtype (ent s)) c d), o)).
Proof.
  intros HS [Hpk Hid _] [_ _ Hc (Hx & Hz & Hseq) (n & Hn & Hd & Hod) _] Hox Hok Hsh Hcl Hpd Hve.
  pose proof (shape_core _ _ Hsh) as (Hcore & _ & Hev & _ & _).
  assert (pclients s1 = pclients (ent s)) as Hpc by (unfold shape in Hsh; by injection Hsh).
  split; [|done|]; cbn.
  - rewrite Hpc. apply list_lookup_insert_eq. by eapply lookup_lt_Some.
  - split; [done|]. rewrite Hev. split; [intros He; rewrite Hve by done; by rewrite He|].
    exists x, (mkClient true (newer c) (link_seq_id cl) None), n. split_and!; try done.
    destruct (core_cell _ _ _ _ Hcore Hc) as (c' & Hc' & Ec). injection Ec as _ D _ _ _.
    destruct (core_cell _ _ _ _ Hcore Hd) as (d' & Hd' & Ed). injection Ed as T _ O _ S.
    exists d', p, c'. cbn. rewrite O, D, S, T, Hev. split_and!; try done.
    + intros He. by rewrite He.
    + intros E. destruct (t_first _ (so_tidy _ _ _ HS) p c n d Hc Hn Hd E). lia.
Qed.
Lemma sending_object s i k pc ve o ch q :
  Sound ch s q -> Sending s i k pc (Some (ve, o)) ->
  exists x, previous_data pc = Some x /\ object_at s x o.
Proof.
  intros HS [_ _ (Hok & _ & x & cl & p & Hpd & Ho & _ & _ & c & r & b & _ & _ & Hb & _ & Hd & _)].
  exists x. split; [done|]. split; [|done]. by eapply (t_alive _ (so_tidy _ _ _ HS)).
Qed.

Lemma shape_pclients e2 e1 e l :
  shape e2 = shape (set_pclients l e1) -> shape e1 = shape e ->
  e2 = set_pclients l (set_pclients (pclients e) e2)
  /\ shape (set_pclients (pclients e) e2) = shape e.
Proof.
  intros H2 He. unfold shape in *. injection H2. injection He. intros.
  split; [destruct e2; cbn in *; by subst|]. cbn in *. congruence.
Qed.

(** A packer that stands where it stood. *)
Lemma sending_stays s e i k pc last :
  Sending s i k pc last -> shape e = shape (ent s) ->
  (forall ve o, last = Some (ve, o) -> forall cl p, clients (ent s) !! k = Some cl ->
     read_index cl = Some p -> exists cl', clients e !! k = Some cl' /\ read_index cl' = Some p) ->
  Sending (set_ent e s) i k pc last.
Proof.
  intros [Hpk Hid Hlast] Hsh Hcl. pose proof (shape_core _ _ Hsh) as Hal.
  assert (pclients e = pclients (ent s)) as Hpc by (unfold shape in Hsh; by injection Hsh).
  pose proof Hal as (_ & _ & Hev & _). split; [by cbn; rewrite Hpc|done|]. cbn. rewrite Hev.
  destruct last as [[ve o]|]; [|done].
  destruct Hlast as (Hok & Hve & x & cl & p & Hpd & Ho & Hk & Hri & Hstand).
  destruct (Hcl ve o eq_refl cl p Hk Hri) as (cl' & Hk' & Hri').
  split; [done|]. split; [done|]. exists x, cl', p. split_and!; try done.
  by apply (stands_alike (ent s)).
Qed.

(** Whether a packer is about to skip a gap. *)
Definition at_gap (s : Site Obj) (k : nat) : Prop :=
  exists cl p c, clients (ent s) !! k = Some cl /\ read_index cl = Some p
    /\ cells (ent s) !! p = Some c /\ seq_id c = 0.

(** What [accessPackData] leaves. *)
Record Accessed (ch : Channel) (s : Site Obj) (q : Queues) (k : nat) (cl : Client) (z : Z) (x : nat)
    (rest : list (Z * nat)) (e1 : Entry) (p0 p : nat) (c0 c d : Cell) : Prop := {
  ac_found : found (ent s) cl p0 p x z c0 c d;
  ac_impl : implements (eventtype (ent s)) ch e1 (put_queue k (mkQueue ((z, x) :: rest) true) q);
  ac_shape : shape e1 = shape (ent s);
  ac_client : clients (ent s) !! k = Some cl;
  ac_clients : clients e1
    = <[k:=mkClient true (Some p) (link_seq_id cl) (Some p)]> (clients (ent s))
}.

Lemma kept_shape (s : Site Obj) e : shape e = shape (ent s) -> kept s (set_ent e s).
Proof. intros E. unfold shape in E. injection E. intros. by unfold kept. Qed.

Lemma complete_step ch s q i k pc last cl z x rest e1 p0 p c0 c d o pc2 :
  Sound ch s q -> Sending s i k pc last -> Accessed ch s q k cl z x rest e1 p0 p c0 c d ->
  objs s !! x = Some o -> object_ok o -> previous_data pc2 = Some x ->
  (eventtype (ent s) = false -> validity_end_sent pc2 = time_or_time_end d) ->
  let e1' := set_pclients (<[i:=(k, pc2)]> (pclients e1)) e1 in
  exists e2, UCE.packComplete i e1' = (Val tt, e2) /\ kept s (set_ent e2 s)
    /\ Sound ch (set_ent e2 s) (put_queue k (mkQueue rest false) q)
    /\ Sending (set_ent e2 s) i k pc2 (Some (validity_end (span_of (eventtype (ent s)) c d), o)).
Proof.
  intros HS Hse [Hf Hm1 Hsh Hcl Hcl1] Hox Hok Hpd Hve e1'.
  pose proof Hf as [_ _ Hc _ (n & Hn & _) _].
  assert (pclients e1 = pclients (ent s)) as Hpc by (unfold shape in Hsh; by injection Hsh).
  destruct (packComplete_spec _ ch e1' _ i k pc2 (mkClient true (Some p) (link_seq_id cl) (Some p)) z x rest
    (implements_pclients _ _ _ _ _ Hm1)) as (p' & c' & n' & e2 & Ec & Hp' & Hc' & Hn' & Hm2 & Hsh2 & Hcl2).
  { cbn. by rewrite lookup_insert_eq. }
  { cbn. rewrite Hpc. apply list_lookup_insert_eq. eapply lookup_lt_Some, Hse. }
  { cbn. by rewrite Hcl1, lookup_insert_eq. }
  cbn in Hp'. injection Hp' as <-.
  assert (n' = n) as ->.
  { pose proof (shape_core _ _ Hsh) as (Hcore & _). destruct (core_cell _ _ _ _ Hcore Hc) as (c1 & Hc1 & Ecc).
    injection Ecc as _ _ _ Nc _. cbn in Hc'. congruence. }
  destruct (shape_pclients _ _ _ _ Hsh2 Hsh) as [Ee2 Hsh3].
  exists e2. split; [exact Ec|]. rewrite Ee2. set (e3 := set_pclients (pclients (ent s)) e2) in *. split; [|split].
  - exact (kept_shape _ _ Hsh3).
  - apply (sound_pclients ch (set_ent e3 s)). apply (sound_shape ch s e3 q); [done|done|].
    pose proof (shape_core _ _ Hsh3) as (_ & _ & -> & _). apply implements_pclients.
    unfold put_queue in *. cbn [queues count ending] in Hm2. by rewrite insert_insert_eq in Hm2.
  - rewrite Hpc. apply (sending_after ch s q i k pc last cl p0 p x z c0 c d o e3 pc2); try done.
    cbn. rewrite Hcl2. cbn. by rewrite lookup_insert_eq, Hn.
Qed.

Lemma fail_step ch s q i k pc last cl z x rest e1 p0 p c0 c d :
  Sound ch s q -> Sending s i k pc last -> Accessed ch s q k cl z x rest e1 p0 p c0 c d ->
  queues q !! k = Some (mkQueue ((z, x) :: rest) false) ->
  exists e2, UCE.packFailed i e1 = (Val tt, e2) /\ kept s (set_ent e2 s) /\ Sound ch (set_ent e2 s) q
    /\ (last = None \/ ~ at_gap s k -> Sending (set_ent e2 s) i k pc last).
Proof.
  intros HS Hse [Hf Hm1 Hsh Hcl Hcl1] Hq.
  assert (pclients e1 = pclients (ent s)) as Hpc by (unfold shape in Hsh; by injection Hsh).
  destruct (packFailed_spec _ ch e1 _ i k pc (mkClient true (Some p) (link_seq_id cl) (Some p)) z x rest Hm1)
    as (e2 & Ec & Hm2 & Hsh2 & Hcl2).
  { cbn. by rewrite lookup_insert_eq. }
  { rewrite Hpc. apply Hse. }
  { by rewrite Hcl1, lookup_insert_eq. }
  assert (shape e2 = shape (ent s)) as Hsh3 by congruence.
  exists e2. split; [exact Ec|]. split; [by apply kept_shape|]. split.
  - unfold put_queue in Hm2. cbn [queues count ending] in Hm2.
    rewrite insert_insert_eq, insert_id in Hm2 by done.
    apply (sound_shape ch s e2 q); [done|done|].
    pose proof (shape_core _ _ Hsh3) as (_ & _ & -> & _). by destruct q.
  - intros Hnogap. apply (sending_stays s e2 i k pc last Hse Hsh3). intros ve o' -> cl' p' Hcl' Hri'.
    destruct Hf as [Hri Hc0 _ _ _ Hgap].
    assert (cl' = cl) as -> by congruence. assert (p' = p0) as -> by congruence.
    eexists. split; [by rewrite Hcl2, lookup_insert_eq|]. cbn. f_equal.
    destruct Hgap as [[Hz0 _]|[_ ->]]; [|done]. destruct Hnogap as [?|Hng]; [done|].
    destruct Hng. by exists cl, p0, c0.
Qed.

(** One set of data with a packer: with room for the message it is written and
    the packer goes on; without, nothing is lost but what a gap told it. *)
Lemma pack_step ch s q i k pc last z x rest seq st :
  Sound ch s q -> Sending s i k pc last ->
  queues q !! k = Some (mkQueue ((z, x) :: rest) false) ->
  seq = count q - Z.of_nat (length ((z, x) :: rest)) -> as_ok st -> AS.choked st = false ->
  exists o jump ending ref, objs s !! x = Some o /\ object_ok o
  /\ connects (eventtype (ent s)) last jump ref z ending /\ 0 <= z < MAX_TIMETICK
  /\ 0 <= ending < MAX_TIMETICK
  /\ let msg := message_bytes (entry_id s) jump ending ref o in
     AS.index st + Z.of_nat (length msg) < 4294967296 ->
     if decide (AS.index st + Z.of_nat (length msg) <= AS.capacity st)
     then exists s1 e2 pc2, EP.packData i seq (s, st) = (Val true, (s1, append msg st))
       /\ UCE.packComplete i (ent s1) = (Val tt, e2) /\ kept s (set_ent e2 s1)
       /\ Sound ch (set_ent e2 s1) (put_queue k (mkQueue rest false) q)
       /\ Sending (set_ent e2 s1) i k pc2 (Some (ending, o))
     else exists s1 w e2, EP.packData i seq (s, st)
         = (Exn AmorphStoreBoundary, (s1, AS.set_choked true (append w st)))
       /\ UCE.packFailed i (ent s1) = (Val tt, e2) /\ kept s (set_ent e2 s1)
       /\ Sound ch (set_ent e2 s1) q
       /\ (last = None \/ ~ at_gap s k -> Sending (set_ent e2 s1) i k pc last).
Proof.
  intros HS Hse Hq Hseq Hst Hch. pose proof (so_impl _ _ _ HS) as Hm.
  destruct (m_inv _ _ _ _ Hm) as (L & HI).
  destruct (closed_client _ _ _ _ _ _ _ Hm HI Hq) as (cl & j & p0' & (Hcl & _) & _ & _).
  destruct (accessPackData_spec _ _ _ _ _ cl _ _ _ pc Hm Hcl Hq)
    as (p0 & p & c0 & c & d & e1 & Hf & E & Hm1 & Hsh & Hcl1 & Hcount).
  destruct (found_connects _ _ _ _ _ _ _ _ _ _ _ _ _ _ _ HS Hse Hcl Hf) as [Hcon Hstart].
  set (pc' := mkPacker _ _ _ _) in E, Hcon. set (ts := span_of _ c d) in E, Hcon, Hstart.
  pose proof Hf as [Hri Hc0 Hc (Hx & Hz & _) (n & Hn & Hd & Hod) Hgap].
  destruct (sound_object _ _ _ _ _ _ HS Hc Hx) as (o & Hat & Hok).
  pose proof (so_times _ _ _ HS p c Hc) as Htc. pose proof (so_times _ _ _ HS n d Hd) as Htd.
  assert (0 <= validity_end ts < MAX_TIMETICK) as Hte.
  { unfold ts, span_of. cbn. destruct (eventtype (ent s)); lia. }
  pose proof (shape_core _ _ Hsh) as (_ & _ & Hev & _).
  set (jump := jump_of _ pc' ts) in Hcon. set (ref := ref_of pc' _) in Hcon.
  exists o, jump, (validity_end ts), ref. unfold MAX_TIMETICK in *.
  split_and!; [by destruct Hat|done|done|lia|lia|lia|lia|].
  set (msg := message_bytes _ _ _ _ _). intros Hw.
  assert (Accessed ch s q k cl z x rest e1 p0 p c0 c d) as HA by by split.
  pose proof Hse as [Hpk Hid _].
  pose proof (pack_found_run s i k pc x ts pc' e1 o (snd <$> last) seq st (m_valid _ _ _ _ Hm) Hid Hpk E
    ltac:(cbn; lia) (object_at_shape _ _ _ _ Hsh Hat) Hok
    ltac:(rewrite Hstart, <- Hz; unfold is_u32; lia) ltac:(unfold is_u32; lia)) as Hrun.
  cbv zeta in Hrun. rewrite Hev in Hrun. fold jump in Hrun. fold ref in Hrun. fold msg in Hrun.
  specialize (Hrun ltac:(intros Hfull; destruct last as [[ve o']|];
    [destruct (sending_object _ _ _ _ _ _ _ _ HS Hse) as (y & Hpd & Hy);
      exists y, o'; split_and!; [done|by destruct (se_last _ _ _ _ _ Hse)|done|by apply object_at_shape]
    |destruct (se_last _ _ _ _ _ Hse) as [Hf1 _]; unfold pc' in Hfull; cbn in Hfull; by rewrite Hf1 in Hfull])
    Hst Hch Hw).
  case_decide as Hfit.
  - set (pc2 := mkPacker _ _ _ _) in Hrun.
    destruct (complete_step ch s q i k pc last cl z x rest e1 p0 p c0 c d o pc2 HS Hse HA (proj2 Hat) Hok eq_refl)
      as (e2 & Ec & Hk & HS2 & Hse2).
    { intros He. unfold pc2, ts, span_of. cbn. by rewrite He. }
    exists (set_ent (set_pclients (<[i:=(k, pc2)]> (pclients e1)) e1) s), e2, pc2.
    split; [exact Hrun|]. split; [exact Ec|]. by split; [|split].
  - destruct Hrun as (w & _ & _ & Hrun).
    destruct (fail_step _ _ _ _ _ _ _ _ _ _ _ _ _ _ _ _ _ HS Hse HA Hq) as (e2 & Ec & Hk & HS2 & Hse2).
    exists (set_ent e1 s), w, e2. split; [exact Hrun|]. split; [exact Ec|]. by split; [|split].
Qed.

(** ** Writing *)

Definition span_ok (event : bool) (t : TimeSpec) : Prop :=
  0 <= validity_start t < MAX_TIMETICK /\ 0 <= validity_end t < MAX_TIMETICK
  /\ (event = false -> validity_start t < validity_end t).

(** The site with a new object and an entry in which it has been stored. *)
Definition stored_at (s : Site Obj) (o : Obj) (e : Entry) : Site Obj :=
  set_ent e (set_objs (objs s ++ [o]) s).

Record Written (ch : Channel) (s : Site Obj) (q : Queues) (t : TimeSpec) (o : Obj) (e : Entry)
    (l : Cell) (L' : list nat) (s2 s3 : Entry) : Prop := {
  wr_to : written_to (ent s) e L' l t (length (objs s));
  wr_frame : write_frame (ent s) s2 s3 e l t (length (objs s));
  wr_latest : cells (ent s) !! latest (ent s) = Some l;
  wr_count : seq_id l = count q /\ time_or_time_end l = ending q /\ 1 <= seq_id l
}.

Lemma placed_start event l t z :
  placed event l t = Some z -> z = validity_start t \/ z = time_or_time_end l.
Proof.
  unfold placed, place. destruct event; [intros [= <-]; by left|].
  destruct (_ =? 1); [intros [= <-]; by left|]. destruct (_ <? _); [intros [= <-]; by left|].
  destruct (_ <? _); [intros [= <-]; by right|done].
Qed.

Lemma store_run ch s q t o :
  Sound ch s q -> span_ok (eventtype (ent s)) t -> count q + 1 < 4294967296 ->
  exists e q' l L' s2 s3,
    UCE.newData ch (Some (length (objs s))) t (ent s) = (Val tt, e)
    /\ Written ch s q t o e l L' s2 s3
    /\ spec (eventtype (ent s)) (Write (length (objs s)) t) q = Some (q', Done)
    /\ implements (eventtype (ent s)) ch e q'.
Proof.
  intros HS Ht Hc. pose proof (so_impl _ _ _ HS) as Hm. destruct (m_inv _ _ _ _ Hm) as (L & HI).
  destruct (m_sentinel _ _ _ _ Hm) as (l & Hl & Hsl & Htl).
  destruct (split_last _ _ _ HI Hl) as (_ & _ & _ & _ & _ & Hu & H1' & _).
  assert (is_u32 (seq_id l + 1)) as Hu1 by (unfold is_u32; lia).
  destruct (newData_spec ch (length (objs s)) t (ent s) L l HI (m_quiet _ _ _ _ Hm) (m_version _ _ _ _ Hm) Hl Hu1)
    as (e & L' & E & HW).
  destruct (newData_frame ch (length (objs s)) t (ent s) L l e HI (m_quiet _ _ _ _ Hm) (m_version _ _ _ _ Hm) Hl Hu1 E)
    as (s2 & s3 & HF).
  destruct (write_step _ _ _ _ (length (objs s)) t Hm Hc) as (e' & q' & E' & Hsp & Hm').
  assert (e' = e) as -> by congruence. exists e, q', l, L', s2, s3. by split_and!.
Qed.

Lemma fixed_fields s s' : fixed s' = fixed s ->
  clients s' = clients s /\ eventtype s' = eventtype s /\ pclients s' = pclients s
  /\ jumptime s' = jumptime s /\ has_writer s' = has_writer s.
Proof. unfold fixed. intros E. injection E. intros. by split_and!. Qed.

(** Addresses below are in use: the next one is not. *)
Lemma sound_unused ch s q : Sound ch s q -> unused (length (objs s)) (ent s).
Proof.
  intros HS. split.
  - intros Hin. pose proof (so_deleted _ _ _ HS _ Hin). lia.
  - intros p c Hp Hd. destruct (so_objs _ _ _ HS p c _ Hp Hd) as (o & Ho & _).
    apply lookup_lt_Some in Ho. lia.
Qed.

Lemma write_sound ch s q t o e q' l L' s2 s3 :
  Sound ch s q -> span_ok (eventtype (ent s)) t -> count q + 1 < 4294967296 -> object_ok o ->
  implements (eventtype (ent s)) ch e q' -> Written ch s q t o e l L' s2 s3 ->
  Sound ch (stored_at s o e) q'.
Proof.
  intros HS (Hts & Hte & Hspan) Hc Hok Hm' [HT HF Hl (Hsl & _ & Hl1)].
  destruct (m_inv _ _ _ _ (so_impl _ _ _ HS)) as (L & HI).
  destruct (fixed_fields _ _ (w_fixed _ _ _ _ _ _ HT)) as (_ & Hev & _).
  split; cbn; [by rewrite Hev| | | |].
  - eapply (newData_tidy (ent s)); try done; [apply (so_tidy _ _ _ HS)|by eapply sound_unused|].
    unfold is_u32. lia.
  - intros p c x Hp Hx. destruct (write_cell _ _ _ _ _ _ _ _ _ HF Hp) as [Hd _].
    destruct Hd as [?|[Hd|(r & c' & Hr & Hd)]]; [congruence| |].
    + exists o. rewrite Hd in Hx. injection Hx as <-. split; [|done]. by rewrite list_lookup_middle.
    + rewrite Hx in Hd. destruct (so_objs _ _ _ HS r c' x Hr Hd) as (o' & Ho' & Hok'). exists o'.
      split; [|done]. by apply lookup_app_l_Some.
  - intros x Hx. rewrite length_app. cbn.
    destruct (write_deleted _ _ _ _ _ _ _ _ HF Hx) as [Hx'|(p & c & Hp & Hd)].
    + pose proof (so_deleted _ _ _ HS _ Hx'). lia.
    + destruct (so_objs _ _ _ HS p c x Hp Hd) as (o' & Ho' & _). apply lookup_lt_Some in Ho'. lia.
  - intros p c Hp. destruct (write_cell _ _ _ _ _ _ _ _ _ HF Hp) as [_ Htm].
    destruct Htm as [Hz|[Hz|(r & c' & Hr & Hz)]].
    + apply placed_start in Hz as [->| ->]; [done|]. by apply (so_times _ _ _ HS (latest (ent s))).
    + rewrite Hz. unfold sentinel_time. destruct (eventtype _); [|done]. unfold MAX_TIMETICK. lia.
    + rewrite <- Hz. by apply (so_times _ _ _ HS r).
Qed.

(** A packer does not notice a write. *)
Lemma write_sending ch s q t o e q' l L' s2 s3 i k pc last cl :
  Sound ch s q -> Written ch s q t o e l L' s2 s3 -> implements (eventtype (ent s)) ch e q' ->
  clients (ent s) !! k = Some cl -> sequential_read cl = true ->
  Sending s i k pc last -> Sending (stored_at s o e) i k pc last.
Proof.
  intros HS [HT HF Hl _] Hm' Hcl Hsq [Hpk Hid Hlast].
  destruct (m_inv _ _ _ _ (so_impl _ _ _ HS)) as (L & HI).
  destruct (m_inv _ _ _ _ Hm') as (L1 & HI').
  destruct (fixed_fields _ _ (w_fixed _ _ _ _ _ _ HT)) as (Hcls & Hev & Hpc & _).
  split; [by cbn; rewrite Hpc|done|]. cbn. rewrite Hev. destruct last as [[ve o']|]; [|done].
  destruct Hlast as (Hok & Hve & x & cl' & p & Hpd & Ho & Hk & Hri & Hst).
  assert (cl' = cl) as -> by congruence. split; [done|]. split; [done|].
  exists x, cl, p. split_and!; [done|by apply lookup_app_l_Some|by rewrite Hcls|done|].
  by apply (stands_write (ent s) s2 s3 e l t (length (objs s)) L L1 k cl p ve x).
Qed.

(** ** Receiving *)

(** The copy: [last] is the last data it was sent. *)
Record Receiving (s : Site Obj) (q : Queues) (last : Sent) : Prop := {
  rc_jump : jumptime (ent s) = MAX_TIMETICK;
  rc_last : match last with
    | None => count q = 1 /\ ending q = 0
    | Some (ve, o) => object_ok o
        /\ exists x, objs s !! x = Some o /\ stands (ent s) (latest (ent s)) ve x
    end
}.

Lemma on_ends_run {A} (m : M Entry A) (s : Site Obj) (r : ARS.AmorphReStore) a e :
  m (ent s) = (a, e) -> on_ends (on_ent m) (s, r) = (a, (set_ent e s, r)).
Proof. intros E. unfold on_ends, on_ent. cbn. by rewrite E. Qed.

(** A copy that has been told of a jump in time to [j]. *)
Definition jumping (j : Z) (s : Site Obj) : Site Obj := set_ent (set_jumptime j (ent s)) s.

Lemma set_jumptime_same e : set_jumptime (jumptime e) e = e.
Proof. by destruct e. Qed.

Lemma jumping_none s : jumptime (ent s) = MAX_TIMETICK -> jumping MAX_TIMETICK s = s.
Proof. intros <-. unfold jumping. rewrite set_jumptime_same. by destruct s. Qed.

Lemma currentTimeTick_run e l :
  cells e !! latest e = Some l -> UCE.currentTimeTick e = (Val (time_or_time_end l), e).
Proof.
  intros Hl. unfold UCE.currentTimeTick. rewrite (bind_val _ _ _ e e) by reflexivity.
  by rewrite (bind_val _ _ _ l e) by by apply cell_run.
Qed.

(** The start of the validity: where the copy ends, or where it jumps to. *)
Lemma unpackTimeTick_run e l j :
  cells e !! latest e = Some l -> jumptime e = MAX_TIMETICK ->
  UCE.unpackTimeTick (set_jumptime j e)
  = (Val (if j =? MAX_TIMETICK then time_or_time_end l else j), e).
Proof.
  intros Hl Hj. unfold UCE.unpackTimeTick.
  rewrite (bind_val _ _ _ (set_jumptime j e) (set_jumptime j e)) by reflexivity. cbn [jumptime set_jumptime].
  destruct (Z.eqb_spec j MAX_TIMETICK) as [->|Hne].
  - rewrite <- Hj, set_jumptime_same. by apply currentTimeTick_run.
  - assert (set_jumptime MAX_TIMETICK (set_jumptime j e) = e) as E.
    { rewrite <- Hj. by destruct e. }
    rewrite (bind_val _ _ _ tt e); [done|]. unfold modify. by rewrite E.
Qed.

Lemma u32_at z rest r : is_u32 z -> lies_ahead (encoding (Vnum Cuint32 z) ++ rest) r ->
  ARS.unPackData_uint32 r = (Val z, step_index 4 r) /\ lies_ahead rest (step_index 4 r).
Proof.
  intros Hz Ha. destruct (uint32_ahead z rest r Hz Ha) as (r' & E & -> & Ha'). by split.
Qed.

(** What a read-in of data with object [o] does with the time and the entry. *)
Definition starts (s : Site Obj) (l : Cell) (j z ending : Z) : Prop :=
  if eventtype (ent s) then j = MAX_TIMETICK /\ z = ending
  else time_or_time_end l < ending /\ z = if j =? MAX_TIMETICK then time_or_time_end l else j.

Lemma take_full_run ch s l j z ending o rest r e :
  cells (ent s) !! latest (ent s) = Some l -> jumptime (ent s) = MAX_TIMETICK ->
  starts s l j z ending -> object_ok o -> is_u32 ending ->
  lies_ahead ((encoding (Vnum Cuint32 ending) ++ full_bytes o) ++ rest) r ->
  UCE.newData ch (Some (length (objs s))) (mkTS z ending) (ent s) = (Val tt, e) ->
  EP.unPackData ch (jumping j s, r)
  = (Val true, (stored_at s o e, step_index (4 + Z.of_nat (length (full_bytes o))) r)).
Proof.
  intros Hl Hj Hst Hok Hu Ha E. rewrite <- app_assoc in Ha.
  destruct (u32_at _ _ _ Hu Ha) as [E1 Ha1]. pose proof (full_back o _ _ Hok Ha1) as E2.
  rewrite step_step in E2. set (r2 := step_index (4 + _) r) in *.
  unfold EP.unPackData. rewrite (bind_on_restore _ _ _ _ _ _ E1), (bind_on_restore _ _ _ _ _ _ E2).
  set (s1 := set_objs (objs s ++ [o]) (jumping j s)).
  rewrite (bind_val _ _ _ (length (objs s)) (s1, r2)) by reflexivity.
  rewrite (bind_val _ _ _ s1 (s1, r2)) by reflexivity.
  assert (eventtype (ent s1) = eventtype (ent s)) as Hev by reflexivity. rewrite Hev.
  unfold starts in Hst. destruct (eventtype (ent s)) eqn:He.
  - destruct Hst as [-> ->]. unfold s1. rewrite jumping_none by done.
    rewrite mret_bind. cbv iota. rewrite mret_bind.
    erewrite bind_val by (eapply on_ends_run; exact E). reflexivity.
  - destruct Hst as [Hlt ->].
    assert (on_ends (on_ent UCE.currentTimeTick) (s1, r2) = (Val (time_or_time_end l), (s1, r2))) as Enow.
    { erewrite on_ends_run by (by apply currentTimeTick_run). done. }
    rewrite (bind_val _ _ _ false (s1, r2)).
    2:{ rewrite (bind_val _ _ _ _ _ Enow). unfold mret, M_ret. do 2 f_equal. by apply Z.leb_gt. }
    rewrite (bind_val _ _ _ (if j =? MAX_TIMETICK then time_or_time_end l else j)
      (set_objs (objs s ++ [o]) s, r2)).
    2:{ erewrite on_ends_run by (apply unpackTimeTick_run; [exact Hl|exact Hj]). by destruct s. }
    erewrite bind_val by (eapply on_ends_run; exact E). reflexivity.
Qed.

Lemma take_diff_run ch s l z ending o p x b c rest r e :
  cells (ent s) !! latest (ent s) = Some l -> older l = Some b -> cells (ent s) !! b = Some c ->
  data c = Some x -> object_at s x p -> object_ok p -> jumptime (ent s) = MAX_TIMETICK ->
  starts s l MAX_TIMETICK z ending -> object_ok o -> is_u32 ending ->
  lies_ahead ((encoding (Vnum Cuint32 ending) ++ diff_bytes o p) ++ rest) r ->
  UCE.newData ch (Some (length (objs s))) (mkTS z ending) (ent s) = (Val tt, e) ->
  EP.unPackDataDiff ch (s, r)
  = (Val true, (stored_at s o e, step_index (4 + Z.of_nat (length (diff_bytes o p))) r)).
Proof.
  intros Hl Hb Hc Hx Hp Hpok Hj Hst Hok Hu Ha E. rewrite <- app_assoc in Ha.
  destruct (u32_at _ _ _ Hu Ha) as [E1 Ha1]. pose proof (diff_back o p _ _ Hok Hpok Ha1) as E2.
  rewrite step_step in E2. set (r2 := step_index (4 + _) r) in *.
  assert (set_ent (ent s) s = s) as Hid by by destruct s.
  assert (forall A (m : M Entry A) a (t : ARS.AmorphReStore),
    m (ent s) = (Val a, ent s) -> on_ends (on_ent m) (s, t) = (Val a, (s, t))) as Hrun.
  { intros A m a t Em. rewrite (on_ends_run _ _ _ _ _ Em). by rewrite Hid. }
  unfold EP.unPackDataDiff. rewrite (bind_val _ _ _ s (s, r)) by reflexivity.
  rewrite (bind_val _ _ _ l (s, r)) by by apply Hrun, cell_run.
  rewrite (bind_val _ _ _ b (s, r)) by (apply Hrun; by rewrite Hb).
  rewrite (bind_val _ _ _ c (s, r)) by by apply Hrun, cell_run. rewrite Hx.
  rewrite (bind_on_restore _ _ _ _ _ _ E1).
  rewrite (bind_val _ _ _ p (s, step_index 4 r)) by (unfold on_ends; cbn; by rewrite (object_run _ _ _ Hp)).
  rewrite (bind_on_restore _ _ _ _ _ _ E2).
  set (s1 := set_objs (objs s ++ [o]) s).
  rewrite (bind_val _ _ _ (length (objs s)) (s1, r2)) by reflexivity.
  unfold starts in Hst. destruct (eventtype (ent s)) eqn:He.
  - destruct Hst as [_ ->]. rewrite mret_bind.
    erewrite bind_val by (eapply on_ends_run; exact E). reflexivity.
  - destruct Hst as [Hlt ->]. change (MAX_TIMETICK =? MAX_TIMETICK) with true in E. cbv iota in E.
    pose proof (unpackTimeTick_run (ent s) l MAX_TIMETICK Hl Hj) as Et.
    rewrite <- Hj, set_jumptime_same, Hj in Et.
    rewrite (bind_val _ _ _ (time_or_time_end l) (s1, r2)).
    2:{ erewrite on_ends_run by (exact Et). done. }
    erewrite bind_val by (eapply on_ends_run; exact E). reflexivity.
Qed.

(** ** A message *)

(** The first part of a message. *)
Definition first_part (id : Z) (jump : option Z) (ref : option Obj) : UChannelCommRequest :=
  match jump, ref with
  | Some z, _ => short TimeJump id z
  | None, None => short FullData id 0
  | None, Some _ => short DiffData id 0
  end.

Lemma first_part_entry id jump ref :
  isForEntry (first_part id jump ref) = true /\ data0 (first_part id jump ref) = id.
Proof. by destruct jump, ref. Qed.

(** What is read after it. *)
Definition second_part (id ending : Z) (jump : option Z) (ref : option Obj) (o : Obj) : list Z :=
  (match jump with Some _ => request_bytes (short FullData id 0) | None => [] end) ++
  encoding (Vnum Cuint32 ending) ++ match ref with None => full_bytes o | Some p => diff_bytes o p end.

Lemma message_parts id jump ending ref o : (jump = None \/ ref = None) ->
  message_bytes id jump ending ref o
  = request_bytes (first_part id jump ref) ++ second_part id ending jump ref o.
Proof.
  intros Hjr. unfold message_bytes, second_part.
  destruct jump, ref; cbn [jump_bytes body_bytes first_part app]; rewrite <- ?app_assoc; try done.
  by destruct Hjr.
Qed.

Lemma first_part_ok id jump ref :
  is_u16 id -> (forall z, jump = Some z -> is_u32 z) -> request_ok (first_part id jump ref).
Proof.
  intros Hid Hj. destruct jump as [z|], ref; apply short_ok; try done; try (by right; auto);
    try (by unfold is_u32); try (by left; auto); by apply Hj.
Qed.

(** The copy stands ready for what connects. *)
Lemma receiving_starts ch s q last jump ref z fin l :
  Sound ch s q -> Receiving s q last -> connects (eventtype (ent s)) last jump ref z fin ->
  0 <= z < MAX_TIMETICK -> cells (ent s) !! latest (ent s) = Some l ->
  starts s l (default MAX_TIMETICK jump) z fin
  /\ place (eventtype (ent s)) (count q) (ending q) (mkTS z fin) = Some z.
Proof.
  intros HS [_ Hlast] [_ Hc] Hz Hl. unfold starts, place.
  destruct (m_sentinel _ _ _ _ (so_impl _ _ _ HS)) as (l' & Hl' & Hsl & Htl).
  assert (l' = l) as -> by congruence.
  destruct (eventtype (ent s)) eqn:He; [destruct Hc as [-> ->]; by cbn|].
  destruct Hc as [Hspan Hc]. cbn [validity_start validity_end].
  destruct last as [[ve o]|].
  - destruct Hlast as (_ & x & _ & c & b & d & Hlc & _ & _ & Ht & _ & Hn1).
    assert (c = l) as -> by congruence. specialize (Ht He).
    rewrite (proj2 (Z.eqb_neq (count q) 1)) by lia.
    destruct Hc as [[-> ->]|[-> Hlt]]; cbn [from_option id].
    + rewrite Z.eqb_refl. split; [split; [lia|done]|].
      rewrite (proj2 (Z.ltb_ge (ending q) ve)) by lia.
      rewrite (proj2 (Z.ltb_lt (ending q) fin)) by lia. f_equal. lia.
    + rewrite (proj2 (Z.eqb_neq z MAX_TIMETICK)) by lia. split; [split; [lia|done]|].
      by rewrite (proj2 (Z.ltb_lt (ending q) z)) by lia.
  - destruct Hlast as [Hc1 He0]. subst jump. cbn [from_option id].
    rewrite (proj2 (Z.eqb_neq z MAX_TIMETICK)) by lia. rewrite Hc1. split; [split; [lia|done]|done].
Qed.

Lemma receiving_after ch s q t o e q' l L' s2 s3 last z :
  Sound ch s q -> Receiving s q last -> Written ch s q t o e l L' s2 s3 ->
  count q + 1 < 4294967296 -> object_ok o ->
  place (eventtype (ent s)) (count q) (ending q) t = Some z ->
  Receiving (stored_at s o e) q' (Some (validity_end t, o)).
Proof.
  intros HS [Hj _] [HT HF Hl (Hsl & Htl & Hl1)] Hc Hok Hpl.
  destruct (fixed_fields _ _ (w_fixed _ _ _ _ _ _ HT)) as (_ & Hev & _ & Hjt & _).
  split; cbn; [by rewrite Hjt|]. split; [done|]. exists (length (objs s)).
  split; [by rewrite list_lookup_middle|].
  eapply (write_stands (ent s)); [exact HF|unfold is_u32; lia|done| |done].
  unfold placed. by rewrite Hsl, Htl, Hpl.
Qed.

Lemma u32_length z : length (encoding (Vnum Cuint32 z)) = 4%nat.
Proof. reflexivity. Qed.

(** Any message that connects is taken as the data it stands for. *)
Lemma receive_message ch s q last jump ref z fin o n rest r :
  Sound ch s q -> Receiving s q last -> connects (eventtype (ent s)) last jump ref z fin ->
  object_ok o -> 0 <= z < MAX_TIMETICK -> 0 <= fin < MAX_TIMETICK -> is_u16 n ->
  count q + 1 < 4294967296 -> lies_ahead (second_part n fin jump ref o ++ rest) r ->
  exists e q', EP.unPackMessage ch (first_part n jump ref) (s, r)
      = (Val true, (stored_at s o e, step_index (Z.of_nat (length (second_part n fin jump ref o))) r))
    /\ spec (eventtype (ent s)) (Write (length (objs s)) (mkTS z fin)) q = Some (q', Done)
    /\ place (eventtype (ent s)) (count q) (ending q) (mkTS z fin) = Some z
    /\ eventtype e = eventtype (ent s)
    /\ Sound ch (stored_at s o e) q' /\ Receiving (stored_at s o e) q' (Some (fin, o)).
Proof.
  intros HS HR Hcon Hok Hz Hf Hid Hcount Ha.
  assert (span_ok (eventtype (ent s)) (mkTS z fin)) as Hspan.
  { split; [done|]. split; [done|]. intros He. destruct Hcon as [_ Hcon]. rewrite He in Hcon.
    by destruct Hcon. }
  destruct (store_run ch s q (mkTS z fin) o HS Hspan Hcount) as (e & q' & l & L' & s2 & s3 & E & HW & Hsp & Hm').
  pose proof (wr_latest _ _ _ _ _ _ _ _ _ _ HW) as Hl.
  destruct (receiving_starts _ _ _ _ _ _ _ _ _ HS HR Hcon Hz Hl) as [Hst Hpl].
  exists e, q'. split; [|split; [done|split; [done|split; [|split]]]].
  2:{ by destruct (fixed_fields _ _ (w_fixed _ _ _ _ _ _ (wr_to _ _ _ _ _ _ _ _ _ _ HW))) as (_ & ? & _). }
  2:{ by eapply write_sound. }
  2:{ by eapply (receiving_after ch s q (mkTS z fin)). }
  pose proof (rc_jump _ _ _ HR) as Hj. unfold MAX_TIMETICK in Hf.
  assert (is_u32 fin) as Hu by (unfold is_u32; lia).
  unfold second_part in *. destruct jump as [j|]; cbn [from_option id] in Hst.
  - assert (ref = None) as ->.
    { destruct Hcon as [[?|(ve & p & _ & _ & ?)] _]; done. }
    rewrite <- app_assoc in Ha. cbn [first_part type short EP.unPackMessage]. unfold EP.unPackMessage.
    cbn [first_part type short data1]. rewrite (bind_val _ _ _ tt (jumping j s, r)) by reflexivity.
    assert (request_ok (short FullData n 0)) as Hrq by (apply short_ok; [by left; auto|done|by unfold is_u32]).
    rewrite (bind_on_restore _ _ _ _ _ _ (request_back _ _ _ Hrq Ha)).
    erewrite bind_val by (apply dassert_true; by rewrite bool_decide_true).
    apply lies_ahead_step in Ha. cbn [app].
    rewrite (take_full_run ch s l j z fin o rest _ e) by done.
    rewrite step_step. do 3 f_equal. rewrite !length_app, u32_length. lia.
  - unfold EP.unPackMessage. destruct ref as [p|]; cbn [first_part type short app] in *.
    + destruct Hcon as [[?|(ve & p' & -> & [= <-] & _)] _]; [done|].
      destruct (rc_last _ _ _ HR) as (Hpok & x & Hx & c & b & d & Hc & Ho & Hd & _ & Hdx & _).
      assert (c = l) as -> by congruence.
      assert (object_at s x p) as Hat.
      { split; [|done]. by eapply (t_alive _ (so_tidy _ _ _ HS)). }
      rewrite (take_diff_run ch s l z fin o p x b d rest r e) by done.
      do 3 f_equal. rewrite !length_app, u32_length. lia.
    + rewrite <- (jumping_none s) at 1 by done.
      rewrite (take_full_run ch s l MAX_TIMETICK z fin o rest r e) by done.
      do 3 f_equal. rewrite !length_app, u32_length. lia.
Qed.
End Sites.
