(* ===== verification/EntryLink.v ===== *)
(** An entry at one node, its copy at another, and the messages between them.

    The writer of the entry, the packer and the unpacking at the other node take
    turns in any order.  The work for the packer is what the entry notifies; the
    messages arrive in the order in which they were sent, as [DataLink] shows for
    the packers and the network. *)

From S2P Require Import Prelude Bytes Amorph Transport TimeSpec ChannelMsg ChannelEntry ChannelInv ChannelFrame ChannelQueues EntryPack PackSteps EntryMessage EntryMirror.
#[local] Open Scope Z_scope.

(** The channel at the writing end, with one transporter, and at the other. *)
Definition tx_channel : Channel := mkChannel 1 1 true.
Definition rx_channel : Channel := mkChannel 0 0 true.

(** The index of the packer, its handle, and that of a reader of the copy. *)
Definition packer_index : nat := 0.
Definition packer_handle : nat := 2.
Definition reader_handle : nat := 2.

Record Link (Obj : Type) := mkLink {
  tx : Site Obj;
  work : list Z;
  wire : list (list Z);
  rx : Arrivals Obj
}.
#[global] Arguments mkLink {_} _ _ _ _.
#[global] Arguments tx {_} _.
#[global] Arguments work {_} _.
#[global] Arguments wire {_} _.
#[global] Arguments rx {_} _.

Inductive LinkOp (Obj : Type) :=
  | LWrite (t : TimeSpec) (o : Obj)
  | LSend (cap : Z)
  | LDeliver.
#[global] Arguments LWrite {_} _ _.
#[global] Arguments LSend {_} _.
#[global] Arguments LDeliver {_}.

(** The work that notices bring the packer. *)
Definition work_of (l : list Event) : list Z :=
  omap (fun ev => match ev with
    | NewTransportWork q None => Some q
    | NewTransportWork q (Some i) => if bool_decide (i = packer_index) then Some q else None
    | PullTrigger _ _ => None
    end) l.

Section Steps.
Context `{BuildConfig} {Obj : Type} `{DataSetConverter Obj}.

Definition write (t : TimeSpec) (o : Obj) : M (Site Obj) unit :=
  d ← EP.new_object o; on_ent (UCE.newData tx_channel (Some d) t).

(** A message is packed in a store of its own, of [cap] bytes; when it does not
    fit, the work stays. *)
Definition lstep (op : LinkOp Obj) : M (Link Obj) unit := fun l =>
  match op with
  | LWrite t o =>
      let (r, s) := write t o (tx l) in
      (r, mkLink s (work l ++ work_of (drop (length (events (ent (tx l)))) (events (ent s)))) (wire l) (rx l))
  | LSend cap =>
      match work l with
      | [] => (Val tt, l)
      | seq :: more =>
          match EP.packData packer_index seq (tx l, AS.make (replicate (Z.to_nat cap) 0) cap 0) with
          | (Val _, (s, st)) =>
              let (r, e) := UCE.packComplete packer_index (ent s) in
              (r, mkLink (set_ent e s) more (wire l ++ [contents st]) (rx l))
          | (Exn AmorphStoreBoundary, (s, _)) =>
              let (r, e) := UCE.packFailed packer_index (ent s) in
              (r, mkLink (set_ent e s) (work l) (wire l) (rx l))
          | (Exn x, (s, _)) => (Exn x, mkLink s (work l) (wire l) (rx l))
          | (Stuck f, (s, _)) => (Stuck f, mkLink s (work l) (wire l) (rx l))
          end
      end
  | LDeliver =>
      match wire l with
      | [] => (Val tt, l)
      | m :: more =>
          let '(r, (a, _)) := UE.unPackData rx_channel (Z.of_nat (length m))
                                (rx l, ARS.make m (Z.of_nat (length m))) in
          (r, mkLink (tx l) (work l) more a)
      end
  end.

Fixpoint lrun (ops : list (LinkOp Obj)) : M (Link Obj) unit :=
  match ops with
  | [] => mret tt
  | op :: ops => lstep op;; lrun ops
  end.

(** A new entry [id] with its packer, a copy with a reader, and nothing between. *)
Definition sender (event : bool) : outcome unit * Entry :=
  UCE.refreshEntryConfigInner tx_channel (UCE.make event true true 0).
Definition copy (event : bool) : outcome nat * Entry :=
  UCE.add_client true (UCE.make event false true 0).

Definition start (id : Z) (event full : bool) : Link Obj :=
  mkLink (mkSite (snd (sender event)) [] id full) [] []
    (mkArrivals {[id := mkSite (snd (copy event)) [] id full]} ∅ [] false []).

End Steps.

(** ** What arrives *)

(** The data a reader has before it, as start times and objects. *)
Definition resolve {Obj} (s : Site Obj) (l : list (Z * nat)) : list (Z * Obj) :=
  omap (fun zx => (fun o => (zx.1, o)) <$> objs s !! zx.2) l.

Definition unread {Obj} (s : Site Obj) (k : nat) : option (list (Z * Obj)) :=
  cl ← clients (ent s) !! k; p ← read_index cl; Some (resolve s (pending (ent s) p)).

(** What the entry accepts of the writes: the number of the next data, the end
    of the last, and the data. *)
Definition accept {Obj} (event : bool) (a : Z * Z * list (Z * Obj)) (op : LinkOp Obj)
    : Z * Z * list (Z * Obj) :=
  match op with
  | LWrite t o =>
      match place event a.1.1 a.1.2 t with
      | Some z => (a.1.1 + 1, sentinel_time event t, a.2 ++ [(z, o)])
      | None => a
      end
  | _ => a
  end.
Definition accepted {Obj} (event : bool) (ops : list (LinkOp Obj)) : list (Z * Obj) :=
  (foldl (accept event) (1, 0, []) ops).2.

Section Invariant.
Context `{BuildConfig} {Obj : Type} `{DataSetConverterLaws Obj}.

(** The messages on their way, from the last data the copy has to the last that
    were sent. *)
Inductive wired (id : Z) (event : bool) : Sent -> list (list Z) -> list (Z * Obj) -> Sent -> Prop :=
  | wired_nil last : wired id event last [] [] last
  | wired_cons last jump ref z fin o ms l last' :
      connects event last jump ref z fin -> object_ok o ->
      (forall p, ref = Some p -> object_ok p) ->
      0 <= z < MAX_TIMETICK -> 0 <= fin < MAX_TIMETICK ->
      wired id event (Some (fin, o)) ms l last' ->
      wired id event last (message_bytes id jump fin ref o :: ms) ((z, o) :: l) last'.

Lemma wired_snoc id event last ms l last' jump ref z fin o :
  wired id event last ms l last' -> connects event last' jump ref z fin -> object_ok o ->
  (forall p, ref = Some p -> object_ok p) -> 0 <= z < MAX_TIMETICK -> 0 <= fin < MAX_TIMETICK ->
  wired id event last (ms ++ [message_bytes id jump fin ref o]) (l ++ [(z, o)]) (Some (fin, o)).
Proof.
  intros Hw Hc Ho Hr Hz Hf. induction Hw as [|la j r z' f' o' ms l la' ? ? ? ? ? _ IH]; cbn.
  - apply wired_cons; try done. apply wired_nil.
  - apply wired_cons; try done. by apply IH.
Qed.

Lemma wired_inv id event last m ms items last' : wired id event last (m :: ms) items last' ->
  exists jump ref z fin o l, m = message_bytes id jump fin ref o /\ items = (z, o) :: l
  /\ connects event last jump ref z fin /\ object_ok o /\ (forall p, ref = Some p -> object_ok p)
  /\ 0 <= z < MAX_TIMETICK /\ 0 <= fin < MAX_TIMETICK /\ wired id event (Some (fin, o)) ms l last'.
Proof.
  inversion 1 as [|la jump ref z fin o ms' l la']; subst. exists jump, ref, z, fin, o, l.
  do 7 (split; [done|]). done.
Qed.

Lemma wired_length id event last ms l last' : wired id event last ms l last' -> length ms = length l.
Proof. induction 1; cbn; congruence. Qed.

(** The numbers of the work. *)
Definition numbered (from : Z) (n : nat) : list Z := (fun j => from + Z.of_nat j) <$> seq 0 n.

Record Linked (id : Z) (event : bool) (a : Z * Z * list (Z * Obj)) (l : Link Obj) : Prop := {
  k_tx : exists qs pc waiting lastS,
    Sound tx_channel (tx l) qs /\ Sending (tx l) packer_index packer_handle pc lastS
    /\ queues qs !! packer_handle = Some (mkQueue waiting false)
    /\ count qs = a.1.1 /\ ending qs = a.1.2
    /\ work l = numbered (count qs - Z.of_nat (length waiting)) (length waiting)
    /\ exists s qr got lastR items,
       entries (rx l) !! id = Some s /\ Sound rx_channel s qr /\ Receiving s qr lastR
       /\ queues qr !! reader_handle = Some (mkQueue got false)
       /\ eventtype (ent s) = event
       /\ wired id event lastR (wire l) items lastS
       /\ count qs = count qr + Z.of_nat (length (wire l)) + Z.of_nat (length (work l))
       /\ a.2 = resolve s got ++ items ++ resolve (tx l) waiting;
  k_event : eventtype (ent (tx l)) = event;
  k_writer : has_writer (ent (tx l)) = true;
  k_id : entry_id (tx l) = id /\ is_u16 id
}.

(** ** Data and their objects *)

Lemma walk_data fuel m o zx : zx ∈ walk fuel m o -> exists p c, m !! p = Some c /\ data c = Some zx.2.
Proof.
  revert o. induction fuel as [|fuel IH]; intros [p|]; cbn; try by intros ?%not_elem_of_nil.
  destruct (m !! p) as [c|] eqn:Hp; [|by intros ?%not_elem_of_nil].
  intros [Hin|?]%elem_of_app; [|by eapply IH]. exists p, c. split; [done|].
  unfold item in Hin. destruct (data c); cbn in Hin; [|by apply not_elem_of_nil in Hin].
  by apply list_elem_of_singleton in Hin as ->.
Qed.

Definition known (s : Site Obj) (w : list (Z * nat)) : Prop :=
  forall zx, zx ∈ w -> exists o, objs s !! zx.2 = Some o /\ object_ok o.

Lemma sound_known ch s q k w b :
  Sound ch s q -> queues q !! k = Some (mkQueue w b) -> known s w.
Proof.
  intros HS Hq zx Hin. rewrite (m_queues _ _ _ _ (so_impl _ _ _ HS)) in Hq.
  destruct (clients (ent s) !! k) as [cl|]; [|done]. cbn in Hq. unfold queue_of in Hq.
  destruct (sequential_read cl); [|done]. destruct (read_index cl) as [p|]; [|done].
  cbn in Hq. injection Hq as <- _. destruct (walk_data _ _ _ _ Hin) as (r & c & Hc & Hd).
  by eapply (so_objs _ _ _ HS).
Qed.

Lemma resolve_app (s : Site Obj) w w' : resolve s (w ++ w') = resolve s w ++ resolve s w'.
Proof. apply omap_app. Qed.

Lemma resolve_more (s s' : Site Obj) w l :
  known s w -> objs s' = objs s ++ l -> resolve s' w = resolve s w.
Proof.
  intros Hk E. unfold resolve. rewrite E. clear E. induction w as [|zx w IH]; [done|].
  destruct (Hk zx ltac:(left)) as (o & Ho & _). cbn. rewrite (lookup_app_l_Some _ _ _ _ Ho), Ho.
  f_equal. apply IH. intros y Hy. apply Hk. by right.
Qed.

Lemma resolve_same (s s' : Site Obj) w : objs s' = objs s -> resolve s' w = resolve s w.
Proof. intros E. unfold resolve. by rewrite E. Qed.

Lemma resolve_new s (o : Obj) z e : resolve (stored_at s o e) [(z, length (objs s))] = [(z, o)].
Proof. cbn. by rewrite list_lookup_middle. Qed.

(** ** Numbers *)

Lemma numbered_cons from n : numbered from (S n) = from :: numbered (from + 1) n.
Proof.
  unfold numbered. cbn. rewrite Z.add_0_r. f_equal. rewrite <- fmap_S_seq, <- list_fmap_compose.
  apply list_fmap_ext. intros i x _. cbn. lia.
Qed.

Lemma numbered_snoc from n : numbered from (S n) = numbered from n ++ [from + Z.of_nat n].
Proof. unfold numbered. by rewrite seq_S, fmap_app. Qed.

Lemma numbered_length from n : length (numbered from n) = n.
Proof. unfold numbered. by rewrite length_fmap, length_seq. Qed.

Lemma work_of_notices s t seq i x : has_writer s = true -> pclients s !! i = Some x ->
  work_of (notices s t seq) = [seq].
Proof.
  intros Hw Hi. unfold notices, work_of. rewrite omap_app, Hw.
  assert (omap (fun ev => match ev with
    | NewTransportWork q None => Some q
    | NewTransportWork q (Some i) => if bool_decide (i = packer_index) then Some q else None
    | PullTrigger _ _ => None end) ((fun trg => PullTrigger trg t) <$> triggers s) = []) as ->
    by (induction (triggers s); done).
  rewrite bool_decide_false; [done|]. apply lookup_lt_Some in Hi. lia.
Qed.

(** The queue of a reader after a write. *)
Lemma write_queue event q q' k w t d :
  spec event (Write d t) q = Some (q', Done) -> queues q !! k = Some (mkQueue w false) ->
  queues q' !! k = Some (mkQueue (w ++ match place event (count q) (ending q) t with
      | Some z => [(z, d)] | None => [] end) false)
  /\ count q' = count q + match place event (count q) (ending q) t with Some _ => 1 | None => 0 end
  /\ ending q' = match place event (count q) (ending q) t with
      | Some _ => sentinel_time event t | None => ending q end.
Proof.
  cbn. intros [= <-] Hk. destruct (place _ _ _ _); cbn.
  - by rewrite lookup_fmap, Hk.
  - rewrite app_nil_r, Z.add_0_r. by split_and!.
Qed.

Lemma link_write id event a l t o :
  Linked id event a l -> span_ok event t -> object_ok o -> a.1.1 + 1 < 4294967296 ->
  exists l', lstep (LWrite t o) l = (Val tt, l') /\ Linked id event (accept event a (LWrite t o)) l'.
Proof.
  intros [(qs & pc & waiting & lastS & HS & Hse & Hq & Hcq & Heq & Hwork & Hrest) Hev Hwr Hid] Hspan Hok Hc.
  rewrite <- Hev in Hspan.
  destruct (store_run tx_channel (tx l) qs t o HS Hspan ltac:(lia))
    as (e & q' & c & L' & s2 & s3 & E & HW & Hsp & Hm').
  pose proof (wr_to _ _ _ _ _ _ _ _ _ _ HW) as HT.
  destruct (fixed_fields _ _ (w_fixed _ _ _ _ _ _ HT)) as (_ & Hev' & _ & _ & Hwr').
  pose proof (w_events _ _ _ _ _ _ HT) as Hevs.
  destruct (wr_count _ _ _ _ _ _ _ _ _ _ HW) as (Hsl & Htl & _).
  destruct (write_queue _ _ _ _ _ _ _ Hsp Hq) as (Hq' & Hcount & Hending).
  set (s' := stored_at (tx l) o e).
  eexists. split.
  { unfold lstep, write. rewrite (bind_val _ _ _ (length (objs (tx l)))
      (set_objs (objs (tx l) ++ [o]) (tx l))) by reflexivity.
    unfold on_ent. cbn [ent set_objs]. rewrite E. reflexivity. }
  change (mkLink _ _ _ _) with (mkLink s' (work l ++ work_of (drop (length (events (ent (tx l)))) (events e)))
    (wire l) (rx l)).
  assert (work_of (drop (length (events (ent (tx l)))) (events e))
    = match place event (count qs) (ending qs) t with Some _ => [count qs] | None => [] end) as ->.
  { rewrite Hevs, drop_app_length. unfold placed. rewrite Hsl, Htl, Hev.
    destruct (place event (count qs) (ending qs) t); [|done]. eapply work_of_notices; [done|apply (se_packer _ _ _ _ _ Hse)]. }
  assert (is_Some (clients (ent (tx l)) !! packer_handle)) as (cl & Hcl).
  { rewrite (m_queues _ _ _ _ (so_impl _ _ _ HS)) in Hq. by destruct (clients _ !! _). }
  assert (sequential_read cl = true) as Hsr.
  { rewrite (m_queues _ _ _ _ (so_impl _ _ _ HS)), Hcl in Hq. cbn in Hq. unfold queue_of in Hq.
    by destruct (sequential_read cl). }
  pose proof (sound_known _ _ _ _ _ _ HS Hq) as Hkn.
  pose proof (resolve_more (tx l) s' waiting [o] Hkn eq_refl) as Hres.
  pose proof (write_sound _ _ _ _ _ _ _ _ _ _ _ HS Hspan ltac:(lia) Hok Hm' HW) as HS'.
  pose proof (write_sending _ _ _ _ _ _ _ _ _ _ _ _ _ _ _ _ HS HW Hm' Hcl Hsr Hse) as Hse'.
  rewrite Hev in *. cbn [accept]. rewrite <- Hcq, <- Heq.
  set (w' := match place event (count qs) (ending qs) t with Some z => [(z, length (objs (tx l)))] | None => [] end) in *.
  split; cbn [tx rx work wire]; [|by cbn; rewrite Hev'|by cbn; rewrite Hwr'|by destruct Hid].
  exists q', pc, (waiting ++ w'), lastS. split; [exact HS'|]. split; [exact Hse'|]. split; [exact Hq'|].
  destruct Hrest as (s & qr & got & lastR & items & He & HSr & HR & Hqr & Hevr & Hwired & Hcnt & Hlog).
  destruct (place event (count qs) (ending qs) t) as [z|]; cbn [fst snd].
  - split; [done|]. split; [done|]. split.
    + rewrite length_app, Hwork. cbn [length w']. rewrite Nat.add_1_r, numbered_snoc. f_equal.
      * f_equal. lia.
      * f_equal. lia.
    + exists s, qr, got, lastR, items. split_and!; try done.
      * rewrite Hcount, length_app. cbn. lia.
      * rewrite Hlog, resolve_app, Hres. unfold w', s'. rewrite resolve_new. by rewrite <- !app_assoc.
  - unfold w'. rewrite !app_nil_r. split; [lia|]. split; [congruence|]. split; [by rewrite Hcount, Z.add_0_r|].
    exists s, qr, got, lastR, items. split_and!; try done; [lia|]. by rewrite Hres.
Qed.

(** A store of [cap] bytes. *)
Definition new_store (cap : Z) : AS.AmorphStore := AS.make (replicate (Z.to_nat cap) 0) cap 0.

Lemma new_store_ok cap : 0 <= cap < 4294967296 -> as_ok (new_store cap).
Proof.
  intros Hc. split; cbn; [lia|lia| |].
  - rewrite length_replicate. lia.
  - apply Forall_replicate. by unfold is_u8.
Qed.

(** Whether a packer has a gap right ahead. *)
Definition gap_ahead (s : Site Obj) (k : nat) : bool :=
  match cl ← clients (ent s) !! k; p ← read_index cl; cells (ent s) !! p with
  | Some c => seq_id c =? 0
  | None => false
  end.

(** The operation does not find a store full with a gap right ahead. *)
Definition op_safe (op : LinkOp Obj) (l : Link Obj) : bool :=
  match op, work l with
  | LSend cap, seq :: _ =>
      negb (gap_ahead (tx l) packer_handle)
      || match fst (EP.packData packer_index seq (tx l, new_store cap)) with
         | Exn _ => false
         | _ => true
         end
  | _, _ => true
  end.

Lemma op_safe_retry cap l seq more : op_safe (LSend cap) l = true -> work l = seq :: more ->
  at_gap (tx l) packer_handle ->
  (EP.packData packer_index seq (tx l, new_store cap)).1 <> Exn AmorphStoreBoundary.
Proof.
  unfold op_safe. intros Hs Hw (cl & p & c & Hcl & Hr & Hc & Hz). rewrite Hw in Hs.
  assert (gap_ahead (tx l) packer_handle = true) as E.
  { unfold gap_ahead, mbind, option_bind. by rewrite Hcl, Hr, Hc, Hz. }
  rewrite E in Hs. cbn [negb orb] in Hs. intros E2. by rewrite E2 in Hs.
Qed.

Lemma connects_ref event s last jump ref z fin i k pc :
  connects event last jump ref z fin -> Sending s i k pc last ->
  forall p, ref = Some p -> object_ok p.
Proof.
  intros [[->|(ve & o & -> & -> & _)] _] [_ _ Hlast] p; [done|].
  intros [= <-]. by destruct Hlast.
Qed.

Lemma numbered_inv from n seq more : numbered from n = seq :: more ->
  exists n', n = S n' /\ seq = from /\ more = numbered (from + 1) n'.
Proof.
  destruct n as [|n]; [done|]. rewrite numbered_cons. intros [= <- <-]. by exists n.
Qed.

Lemma link_send id event a l cap :
  Linked id event a l -> 0 <= cap < 4294967296 -> 4294967200 <= cap \/ op_safe (LSend cap) l = true ->
  exists l', lstep (LSend cap) l = (Val tt, l') /\ Linked id event a l'
    /\ (4294967200 <= cap -> work l' = tail (work l)
         /\ (length (wire l') + length (work l') = length (wire l) + length (work l))%nat).
Proof.
  intros HL Hcap Hsafe. pose proof HL as
    [(qs & pc & waiting & lastS & HS & Hse & Hq & Hcq & Heq & Hwork & Hrest) Hev Hwr Hid].
  unfold lstep. fold (new_store cap).
  pose proof (op_safe_retry cap l) as Hretry.
  destruct (work l) as [|seq more] eqn:Ew; [by exists l; rewrite Ew|].
  symmetry in Hwork. destruct (numbered_inv _ _ _ _ Hwork) as (n & Hn & Hseq & Hmore).
  destruct waiting as [|[z x] rest]; [done|]. cbn in Hn. injection Hn as Hn.
  pose proof (new_store_ok cap Hcap) as Hst.
  destruct (pack_step tx_channel (tx l) qs packer_index packer_handle pc lastS z x rest seq
    (new_store cap) HS Hse Hq Hseq Hst eq_refl)
    as (o & jump & fin & ref & Hx & Hok & Hcon & Hz & Hfin & Hrun).
  pose proof (connects_ref _ _ _ _ _ _ _ _ _ _ Hcon Hse) as Href.
  pose proof (message_small (entry_id (tx l)) jump fin ref o Hok Href) as Hsmall. cbv zeta in Hrun.
  set (msg := message_bytes (entry_id (tx l)) jump fin ref o) in *.
  specialize (Hrun ltac:(cbn; lia)). destruct Hid as [Hid Hid16].
  destruct Hrest as (s & qr & got & lastR & items & He & HSr & HR & Hqr & Hevr & Hwired & Hcnt & Hlog).
  rewrite Hev in Hcon.
  case_decide as Hfit; cbn [AS.index AS.capacity new_store AS.make] in Hfit.
  - destruct Hrun as (s1 & e2 & pc2 & Ep & Ec & Hk & HS' & Hse'). rewrite Ep, Ec.
    destruct Hk as (Ko & Ki & _ & _ & Kv & Kw).
    rewrite contents_append by done. change (contents (new_store cap)) with (@nil Z). cbn [app].
    eexists. split; [reflexivity|]. split; [|intros _; cbn; rewrite length_app; cbn; split; [done|lia]].
    split; cbn [tx rx work wire]; [|by rewrite Kv|by rewrite Kw|by rewrite Ki].
    exists (put_queue packer_handle (mkQueue rest false) qs), pc2, rest, (Some (fin, o)).
    split; [exact HS'|]. split; [exact Hse'|]. split; [by cbn; rewrite lookup_insert_eq|].
    split; [done|]. split; [done|]. split.
    { cbn [count put_queue]. rewrite Hmore, <- Hn. cbn [length]. f_equal. lia. }
    exists s, qr, got, lastR, (items ++ [(z, o)]). split_and!; try done.
    + rewrite <- Hid. apply (wired_snoc _ _ _ _ _ lastS); try done. by rewrite Hid.
    + cbn [count put_queue]. rewrite length_app. cbn [length] in *. lia.
    + rewrite Hlog, (resolve_same (tx l) _ rest Ko), <- app_assoc. cbn. by rewrite Hx.
  - destruct Hrun as (s1 & w & e2 & Ep & Ec & Hk & HS' & Hse'). rewrite Ep, Ec.
    destruct Hk as (Ko & Ki & _ & _ & Kv & Kw).
    eexists. split; [reflexivity|]. split; [|lia].
    destruct Hsafe as [?|Hsafe]; [lia|].
    specialize (Hse' ltac:(right; intros Hgap; apply (Hretry seq more Hsafe eq_refl Hgap); by rewrite Ep)).
    split; cbn [tx rx work wire]; [|by rewrite Kv|by rewrite Kw|by rewrite Ki].
    exists qs, pc, ((z, x) :: rest), lastS. split_and!; try done.
    exists s, qr, got, lastR, items. split_and!; try done.
    by rewrite Hlog, (resolve_same (tx l) _ _ Ko).
Qed.

Lemma whole_message m : bytes_ok m -> Z.of_nat (length m) < 4294967296 ->
  lies_ahead m (ARS.make m (Z.of_nat (length m))).
Proof.
  intros Hb Hl. split; [|split; [cbn; lia|]].
  - split; cbn; try lia. done.
  - exists []. cbn. by rewrite app_nil_r.
Qed.

(** The end of the channel takes a message that connects. *)
Lemma end_takes (r0 : Arrivals Obj) s q last jump ref z fin o id :
  entries r0 !! id = Some s -> Sound rx_channel s q -> Receiving s q last ->
  connects (eventtype (ent s)) last jump ref z fin -> object_ok o ->
  (forall p, ref = Some p -> object_ok p) -> 0 <= z < MAX_TIMETICK -> 0 <= fin < MAX_TIMETICK ->
  is_u16 id -> count q + 1 < 4294967296 ->
  let m := message_bytes id jump fin ref o in
  exists e q' r', UE.unPackData rx_channel (Z.of_nat (length m)) (r0, ARS.make m (Z.of_nat (length m)))
      = (Val tt, (set_entries (<[id:=stored_at s o e]> (entries r0)) r0, r'))
    /\ spec (eventtype (ent s)) (Write (length (objs s)) (mkTS z fin)) q = Some (q', Done)
    /\ place (eventtype (ent s)) (count q) (ending q) (mkTS z fin) = Some z
    /\ eventtype e = eventtype (ent s)
    /\ Sound rx_channel (stored_at s o e) q' /\ Receiving (stored_at s o e) q' (Some (fin, o)).
Proof.
  intros He HS HR Hcon Hok Href Hz Hf Hid Hc m.
  assert (jump = None \/ ref = None) as Hjr.
  { destruct Hcon as [[->|(ve & p & _ & _ & ->)] _]; auto. }
  assert (forall j, jump = Some j -> is_u32 j) as Hj.
  { intros j ->. destruct Hcon as [_ Hcon]. unfold MAX_TIMETICK, is_u32 in *.
    destruct (eventtype (ent s)); [by destruct Hcon|]. destruct Hcon as [_ Hcon].
    destruct last as [[ve o']|]; [destruct Hcon as [[? _]|[E _]]; [done|]|]; simplify_eq; lia. }
  assert (bytes_ok m) as Hb by (apply message_ok; try done; unfold is_u32, MAX_TIMETICK in *; lia).
  pose proof (message_small id jump fin ref o Hok Href) as Hsmall. fold m in Hsmall.
  pose proof (whole_message m Hb ltac:(lia)) as Ha. set (r1 := ARS.make m _) in *.
  assert (lies_ahead (request_bytes (first_part id jump ref) ++ second_part id fin jump ref o ++ []) r1) as Ha1.
  { unfold m in Ha at 1. rewrite (message_parts _ _ _ _ _ Hjr) in Ha. by rewrite app_nil_r. }
  pose proof (first_part_ok id jump ref Hid Hj) as Hfok.
  pose proof (request_back _ _ _ Hfok Ha1) as E1. apply lies_ahead_step in Ha1. set (r2 := step_index _ r1) in *.
  destruct (receive_message _ _ _ _ _ _ _ _ _ _ _ _ HS HR Hcon Hok Hz Hf Hid Hc Ha1)
    as (e & q' & E2 & Hsp & Hpl & Hev & HS' & HR').
  set (r3 := step_index _ r2) in E2. exists e, q', r3. split; [|by split_and!].
  destruct (first_part_entry id jump ref) as [Efor Edata].
  unfold UE.unPackData. rewrite (bind_val _ _ _ r1 (r0, r1)) by reflexivity.
  rewrite (bind_on_restore _ _ _ _ _ _ E1). rewrite (bind_val _ _ _ r0 (r0, r2)) by reflexivity.
  rewrite Efor, Edata, He.
  rewrite (bind_val _ _ _ true (set_entries (<[id:=stored_at s o e]> (entries r0)) r0, r3)); [done|].
  unfold UE.at_entry. cbn [fst snd]. by rewrite He, E2.
Qed.

Lemma link_deliver id event a l :
  Linked id event a l -> a.1.1 < 4294967296 ->
  exists l', lstep LDeliver l = (Val tt, l') /\ Linked id event a l'
    /\ work l' = work l /\ wire l' = tail (wire l).
Proof.
  intros HL Hc. pose proof HL as
    [(qs & pc & waiting & lastS & HS & Hse & Hq & Hcq & Heq & Hwork & Hrest) Hev Hwr Hid].
  destruct Hrest as (s & qr & got & lastR & items & He & HSr & HR & Hqr & Hevr & Hwired & Hcnt & Hlog).
  unfold lstep. destruct (wire l) as [|m ms] eqn:Ew; [by exists l; rewrite Ew|].
  destruct (wired_inv _ _ _ _ _ _ _ Hwired)
    as (jump & ref & z & fin & o & l1 & -> & -> & Hcon & Hok & Href & Hz & Hf & Hwired').
  destruct Hid as [Hid Hid16]. cbn [length] in Hcnt. rewrite <- Hevr in Hcon.
  destruct (end_takes (rx l) s qr _ _ _ _ _ _ id He HSr HR Hcon Hok Href Hz Hf Hid16 ltac:(lia))
    as (e & q' & r' & E & Hsp & Hpl & Heve & HS' & HR').
  rewrite E. eexists. split; [reflexivity|]. split; [|done].
  destruct (write_queue _ _ _ _ _ _ _ Hsp Hqr) as (Hq' & Hcount & _).
  rewrite Hpl in Hq', Hcount.
  split; cbn [tx rx work wire]; [|done|done|done].
  exists qs, pc, waiting, lastS. split_and!; try done.
  exists (stored_at s o e), q', (got ++ [(z, length (objs s))]), (Some (fin, o)), l1. split_and!; try done.
  - cbn. by rewrite lookup_insert_eq.
  - cbn. by rewrite Heve.
  - lia.
  - rewrite Hlog, resolve_app, resolve_new.
    rewrite (resolve_more s (stored_at s o e) got [o] (sound_known _ _ _ _ _ _ HSr Hqr) eq_refl).
    by rewrite <- app_assoc.
Qed.

(** ** The start *)

(** An entry with one reader and no data. *)
Definition opened (event writer : bool) : Entry := snd (UCE.add_client true (UCE.make event writer true 0)).

Lemma opened_cells event writer p c : cells (opened event writer) !! p = Some c ->
  p = 0%nat /\ c = mkCell 0 None None (Some 1%nat) 1 0
  \/ p = 1%nat /\ c = mkCell 0 None (Some 0%nat) None 2 1.
Proof.
  intros Hc.
  assert (cells (opened event writer) = {[ 0%nat := mkCell 0 None None (Some 1%nat) 1 0;
    1%nat := mkCell 0 None (Some 0%nat) None 2 1 ]}) as E by (vm_compute; reflexivity).
  rewrite E in Hc. apply lookup_insert_Some in Hc as [[<- <-]|[_ Hc]]; [by left|].
  apply lookup_singleton_Some in Hc as [<- <-]. by right.
Qed.

Lemma opened_implements event writer :
  exists q, implements event rx_channel (opened event writer) q
    /\ queues q !! reader_handle = Some (mkQueue [] false) /\ count q = 1 /\ ending q = 0.
Proof.
  pose proof (make_implements event writer 0 rx_channel eq_refl) as Hm.
  destruct (add_client_step _ _ _ _ Hm) as (s' & E & Hm' & _); [vm_compute; reflexivity|].
  unfold opened. rewrite E. eexists. split; [exact Hm'|]. cbn [queues put_queue count ending].
  change (ChannelEntry.fresh (UCE.make event writer true 0)) with reader_handle. rewrite lookup_insert_eq.
  split; [|done]. vm_compute. reflexivity.
Qed.

Lemma opened_tidy event writer : Tidy (opened event writer).
Proof.
  split.
  - intros p c r d Hp Hn Hr. unfold link_ok. intros _ Hs.
    destruct (opened_cells _ _ _ _ Hp) as [[-> ->]|[-> ->]]; [|done]. injection Hn as <-.
    by destruct (opened_cells _ _ _ _ Hr) as [[? _]|[_ ->]].
  - intros p c r d Hp Hn Hr Hs. by destruct (opened_cells _ _ _ _ Hp) as [[-> ->]|[-> ->]].
  - intros p c r Hp Hn. destruct (opened_cells _ _ _ _ Hp) as [[-> ->]|[-> ->]]; [|done].
    injection Hn as <-. vm_compute. lia.
  - intros p c x Hp Hx. by destruct (opened_cells _ _ _ _ Hp) as [[-> ->]|[-> ->]].
  - intros p r c d x Hp _ Hx. by destruct (opened_cells _ _ _ _ Hp) as [[-> ->]|[-> ->]].
Qed.

Lemma opened_sound event writer ch e id full q :
  implements event ch e q -> eventtype e = event -> cells e = cells (opened event writer) ->
  Tidy e -> deleted e = [] -> Sound ch (mkSite e ([] : list Obj) id full) q.
Proof.
  intros Hm Hev Hc HT Hd. split; cbn; [by rewrite Hev|done| | |].
  - intros p c x Hp Hx. rewrite Hc in Hp. by destruct (opened_cells _ _ _ _ Hp) as [[-> ->]|[-> ->]].
  - rewrite Hd. by intros x ?%not_elem_of_nil.
  - intros p c Hp. rewrite Hc in Hp. by destruct (opened_cells _ _ _ _ Hp) as [[-> ->]|[-> ->]].
Qed.

Lemma copy_opened event : copy event = (Val reader_handle, opened event false).
Proof. vm_compute. reflexivity. Qed.

Lemma sender_opened event : sender event = (Val tt, set_triggers 1 [] [] []
  (set_pclients [(packer_handle, mkPacker MAX_TIMETICK None true 0)] (opened event true))).
Proof. destruct H as [[] hl]; vm_compute; reflexivity. Qed.

Lemma implements_triggers event ch ch' s q v t rq rl :
  implements event ch s q -> config_version ch' = v ->
  implements event ch' (set_triggers v t rq rl s) q.
Proof.
  intros [(L & HI) ? ? ? ? ? Hq] Hv. split; try done.
  exists L. destruct HI. by split.
Qed.

Lemma link_start id event full : is_u16 id -> id <> entry_end ->
  Linked id event (1, 0, []) (start id event full).
Proof.
  intros Hid Hne.
  destruct (opened_implements event true) as (qs & Hms & Hqs & Hcs & Hes).
  destruct (opened_implements event false) as (qr & Hmr & Hqr & Hcr & Her).
  unfold start. rewrite sender_opened, copy_opened. cbn [snd].
  set (e := set_triggers _ _ _ _ _).
  assert (eventtype e = event) as Hev by (vm_compute; reflexivity).
  assert (implements event tx_channel e qs) as Hms'
    by (apply (implements_triggers _ rx_channel); [by apply implements_pclients|done]).
  assert (Tidy e) as HTs by (destruct (opened_tidy event true); by split).
  split; cbn [tx rx work wire fst snd]; [|exact Hev|vm_compute; reflexivity|done].
  exists qs, (mkPacker MAX_TIMETICK None true 0), [], None.
  split; [by apply (opened_sound event true)|]. split; [by split; cbn|].
  do 3 (split; [done|]). split; [by rewrite Hcs|].
  exists (mkSite (opened event false) [] id full), qr, [], None, [].
  split; [by cbn; rewrite lookup_singleton_eq|].
  split; [by apply (opened_sound event false); try done; apply opened_tidy|].
  split; [by split|]. do 2 (split; [done|]). split; [apply wired_nil|]. split; [cbn; lia|done].
Qed.

(** ** Runs *)

Definition op_ok (event : bool) (op : LinkOp Obj) : Prop :=
  match op with
  | LWrite t o => span_ok event t /\ object_ok o
  | LSend cap => 0 <= cap < 4294967296
  | LDeliver => True
  end.

Fixpoint safely (ops : list (LinkOp Obj)) (l : Link Obj) : bool :=
  match ops with
  | [] => true
  | op :: ops =>
      op_safe op l && match lstep op l with (Val _, l') => safely ops l' | _ => true end
  end.

Lemma accept_count event a (op : LinkOp Obj) :
  a.1.1 <= (accept event a op).1.1 <= a.1.1 + 1.
Proof. destruct op; cbn; [|lia|lia]. destruct (place _ _ _ _); cbn; lia. Qed.

Lemma link_step id event a l op :
  Linked id event a l -> op_ok event op -> op_safe op l = true -> a.1.1 + 1 < 4294967296 ->
  exists l', lstep op l = (Val tt, l') /\ Linked id event (accept event a op) l'.
Proof.
  intros HL Hok Hsafe Hc. destruct op as [t o|cap|].
  - destruct Hok. by apply link_write.
  - destruct (link_send id event a l cap HL Hok (or_intror Hsafe)) as (l' & E & HL' & _). by exists l'.
  - destruct (link_deliver id event a l HL ltac:(lia)) as (l' & E & HL' & _). by exists l'.
Qed.

Lemma mirror_run id event ops : forall a l,
  Linked id event a l -> Forall (op_ok event) ops -> safely ops l = true ->
  a.1.1 + Z.of_nat (length ops) < 4294967296 ->
  exists l', lrun ops l = (Val tt, l') /\ Linked id event (foldl (accept event) a ops) l'.
Proof.
  induction ops as [|op ops IH]; intros a l HL Hok Hsafe Hc; [by exists l|].
  cbn in Hc. inversion Hok as [|? ? Ho Hos]; subst. cbn [safely] in Hsafe.
  apply andb_prop in Hsafe as [Hs Hss].
  destruct (link_step _ _ _ _ _ HL Ho Hs ltac:(lia)) as (l1 & E1 & HL1). rewrite E1 in Hss.
  pose proof (accept_count event a op). destruct (IH _ _ HL1 Hos Hss ltac:(lia)) as (l2 & E2 & HL2).
  exists l2. split; [|done]. cbn [lrun]. by rewrite (bind_val _ _ _ _ _ E1).
Qed.

Lemma lrun_app ops ops' l l1 : lrun ops l = (Val tt, l1) -> lrun (ops ++ ops') l = lrun ops' l1.
Proof.
  revert l. induction ops as [|op ops IH]; intros l; cbn [app lrun]; [by intros [= <-]|].
  intros ([] & l2 & E1 & E2)%bind_inv. rewrite (bind_val _ _ _ _ _ E1). by apply IH.
Qed.

Lemma link_sends id event a n : forall l, Linked id event a l -> length (work l) = n ->
  exists l', lrun (replicate n (LSend 4294967295)) l = (Val tt, l') /\ Linked id event a l'
    /\ work l' = [] /\ length (wire l') = (length (wire l) + n)%nat.
Proof.
  induction n as [|n IH]; intros l HL Hn; [exists l; split; [done|]; split; [done|]; split; [by apply nil_length_inv|lia]|].
  destruct (link_send id event a l 4294967295 HL ltac:(lia) ltac:(left; lia)) as (l1 & E1 & HL1 & Hw).
  destruct (Hw ltac:(lia)) as [Hw1 Hw2]. destruct (work l) as [|? more] eqn:Ew; [done|].
  cbn in Hn, Hw1. destruct (IH l1 HL1) as (l2 & E2 & HL2 & Hw3 & Hw4); [rewrite Hw1; lia|].
  exists l2. split; [|split; [done|split; [done|cbn in Hw2; rewrite Hw1 in Hw2; lia]]].
  cbn [replicate lrun]. by rewrite (bind_val _ _ _ _ _ E1).
Qed.

Lemma link_delivers id event a n : forall l, Linked id event a l -> length (wire l) = n ->
  a.1.1 < 4294967296 ->
  exists l', lrun (replicate n LDeliver) l = (Val tt, l') /\ Linked id event a l'
    /\ work l' = work l /\ wire l' = [].
Proof.
  induction n as [|n IH]; intros l HL Hn Hc; [exists l; split; [done|]; split; [done|]; split; [done|by apply nil_length_inv]|].
  destruct (link_deliver id event a l HL Hc) as (l1 & E1 & HL1 & Hw1 & Hw2).
  destruct (wire l) as [|m ms]; [done|]. cbn in Hn, Hw2.
  destruct (IH l1 HL1) as (l2 & E2 & HL2 & Hw3 & Hw4); [rewrite Hw2; lia|done|].
  exists l2. split; [|split; [done|split; [congruence|done]]].
  cbn [replicate lrun]. by rewrite (bind_val _ _ _ _ _ E1).
Qed.

(** What the reader of the copy has, and what is still to come. *)
Lemma linked_unread id event a l : Linked id event a l ->
  exists s got on_way waiting, entries (rx l) !! id = Some s
    /\ unread s reader_handle = Some got /\ a.2 = got ++ on_way ++ waiting
    /\ length on_way = length (wire l) /\ length waiting = length (work l).
Proof.
  intros [(qs & pc & waiting & lastS & HS & Hse & Hq & Hcq & Heq & Hwork & Hrest) _ _ _].
  destruct Hrest as (s & qr & got & lastR & items & He & HSr & _ & Hqr & _ & Hwired & _ & Hlog).
  exists s, (resolve s got), items, (resolve (tx l) waiting). split; [done|]. split.
  { rewrite (m_queues _ _ _ _ (so_impl _ _ _ HSr)) in Hqr. unfold unread.
    destruct (clients (ent s) !! reader_handle) as [cl|]; [|done]. cbn in Hqr |- *. unfold queue_of in Hqr.
    destruct (sequential_read cl); [|done]. destruct (read_index cl) as [p|]; [|done].
    cbn in Hqr |- *. by injection Hqr as -> _. }
  split; [done|]. split; [by rewrite (wired_length _ _ _ _ _ _ Hwired)|].
  rewrite Hwork, numbered_length. pose proof (sound_known _ _ _ _ _ _ HS Hq) as Hk.
  clear -Hk. induction waiting as [|zx w IH]; [done|].
  destruct (Hk zx ltac:(left)) as (o & Ho & _). cbn. rewrite Ho. cbn. f_equal. apply IH.
  intros y Hy. apply Hk. by right.
Qed.

(** C10: a channel entry is copied to another node.  The entry is written, its
    packer sends and the other node takes in what arrives, in any order, with
    stores that are too small now and then: nothing fails, and a reader of the
    copy has a prefix of the data that the entry accepted, each with its start
    time and an equal object; what is missing is on its way or waits to be
    packed, and it arrives when the packer and the network are left to finish.
    The one condition is that no store is found full while a gap lies right
    ahead of the packer. *)
Theorem entry_mirrored id event full ops :
  is_u16 id -> id <> entry_end -> Forall (op_ok event) ops -> Z.of_nat (length ops) < 4294967295 ->
  safely ops (start id event full) = true ->
  exists l s got on_way waiting,
    lrun ops (start id event full) = (Val tt, l)
    /\ entries (rx l) !! id = Some s /\ unread s reader_handle = Some got
    /\ accepted event ops = got ++ on_way ++ waiting
    /\ length on_way = length (wire l) /\ length waiting = length (work l)
    /\ exists l' s',
      lrun (replicate (length (work l)) (LSend 4294967295)
            ++ replicate (length (wire l) + length (work l)) LDeliver) l = (Val tt, l')
      /\ entries (rx l') !! id = Some s' /\ unread s' reader_handle = Some (accepted event ops).
Proof.
  intros Hid Hne Hok Hlen Hsafe.
  destruct (mirror_run id event ops _ _ (link_start id event full Hid Hne) Hok Hsafe ltac:(cbn; lia))
    as (l & E & HL).
  destruct (linked_unread _ _ _ _ HL) as (s & got & on_way & waiting & He & Hun & Hlog & Hn1 & Hn2).
  exists l, s, got, on_way, waiting. do 6 (split; [done|]).
  destruct (link_sends _ _ _ (length (work l)) l HL eq_refl) as (l1 & E1 & HL1 & Hw1 & Hw2).
  destruct (link_delivers _ _ _ _ l1 HL1 Hw2) as (l2 & E2 & HL2 & Hw3 & Hw4).
  { assert (forall a, a.1.1 <= (foldl (accept event) a ops).1.1 <= a.1.1 + Z.of_nat (length ops)) as Hb.
    { clear. induction ops as [|op ops IH]; intros a; cbn [foldl length]; [lia|].
      pose proof (accept_count event a op). specialize (IH (accept event a op)). lia. }
    specialize (Hb (1, 0, [])). cbn in Hb |- *. lia. }
  destruct (linked_unread _ _ _ _ HL2) as (s2 & got2 & way2 & wait2 & He2 & Hun2 & Hlog2 & Hm1 & Hm2).
  exists l2, s2. split; [by rewrite (lrun_app _ _ _ _ E1)|]. split; [done|]. rewrite Hun2. f_equal.
  rewrite Hw4 in Hm1. rewrite Hw3, Hw1 in Hm2. apply nil_length_inv in Hm1, Hm2. subst.
  by rewrite !app_nil_r in Hlog2.
Qed.

End Invariant.

(** ** Counters as objects *)

(** A class of one [uint32_t]; its difference is what the counter went up by. *)
#[export] Instance counter_converter : DataSetConverter Z := {
  converter_packData _ o := packData (Vnum Cuint32 o);
  converter_create _ := ARS.unPackData_uint32;
  converter_packDataDiff _ o p := packData (Vnum Cuint32 (u32 (o - p)));
  converter_createDiff _ p := d ← ARS.unPackData_uint32; mret (u32 (p + d))
}.

#[export] Program Instance counter_laws : DataSetConverterLaws Z := {
  object_ok := is_u32;
  full_bytes o := encoding (Vnum Cuint32 o);
  diff_bytes o p := encoding (Vnum Cuint32 (u32 (o - p)))
}.
Next Obligation.
  intros H0 o Ho. split; [by apply (encoding_ok (Vnum Cuint32 o))|by apply (packs_data (Vnum Cuint32 o))].
Qed.
Next Obligation.
  intros H0 o p _ _. pose proof (u32_range (o - p)) as Hu.
  split; [by apply (encoding_ok (Vnum Cuint32 _))|by apply (packs_data (Vnum Cuint32 _))].
Qed.
Next Obligation. intros H0 o rest r Ho Ha. by apply (u32_at o rest r). Qed.
Next Obligation.
  intros H0 o p rest r Ho Hp Ha. pose proof (u32_range (o - p)) as Hu.
  destruct (u32_at _ _ _ Hu Ha) as [E _]. unfold converter_createDiff, counter_converter.
  rewrite (bind_val _ _ _ _ _ E).
  unfold mret, M_ret. do 2 f_equal. rewrite u32_add_r. replace (p + (o - p)) with o by lia. by apply u32_id.
Qed.
Next Obligation. intros o p _ _. cbn. lia. Qed.

(** A store too small, a gap, and a difference. *)
Definition ex_ops : list (LinkOp Z) :=
  [LWrite (mkTS 10 20) 7; LSend 5; LSend 100; LWrite (mkTS 30 40) 9; LDeliver; LSend 100;
   LWrite (mkTS 40 50) 12; LSend 100; LDeliver].

Lemma entry_mirrored_witness :
  safely (H:=test_config) ex_ops (start (H:=test_config) 3 false false) = true
  /\ exists l s got on_way waiting,
    lrun (H:=test_config) ex_ops (start (H:=test_config) 3 false false) = (Val tt, l)
    /\ entries (rx l) !! 3 = Some s /\ unread s reader_handle = Some got
    /\ [(10, 7); (30, 9); (40, 12)] = got ++ on_way ++ waiting
    /\ length on_way = length (wire l).
Proof.
  split; [vm_compute; reflexivity|].
  destruct (entry_mirrored (H:=test_config) 3 false false ex_ops)
    as (l & s & got & way & wait & E & He & Hun & Hlog & Hn & _).
  - by unfold is_u16.
  - done.
  - repeat constructor; vm_compute; done.
  - vm_compute. reflexivity.
  - vm_compute. reflexivity.
  - exists l, s, got, way, wait. repeat split; [exact E|exact He|exact Hun|exact Hlog|exact Hn].
Defined.

