(* ===== verification/ChannelFollow.v ===== *)
(** How a reader follows the configuration of its channel
    ([refreshClientHandle] in [dueca/UnifiedChannel.cxx]).

    A reader has links to entries; the entries have it as a client.  [Tidy] is
    the agreement between the two.  Following is then a fold over the changes
    that wait for the reader ([follow]), in which the deletion of an entry
    that a linked reader is not linked to is the end. *)

From S2P Require Import Prelude TimeSpec Transport ChannelEntry ChannelInv ChannelQueues ChannelTimed ChannelMsg ChannelMaster ConfigChanges ChannelEnd.
#[local] Open Scope Z_scope.

Module UCF.
Import UC.

#[local] Existing Instance CL.ConfigEvent_eq_dec.

Section WithBuild.
Context `{BuildConfig} (reg : Registry).

(** ** Clients of an entry *)

Lemma Inv_core s s' L h :
  Inv s L h -> cells s' = cells s -> clients s' = clients s -> ChannelEntry.fresh s' = ChannelEntry.fresh s ->
  (cleanup s', oldest s', latest s', monitored s', saveup s') =
    (cleanup s, oldest s, latest s, monitored s, saveup s) -> Inv s' L h.
Proof.
  intros HI E1 E2 E3 E4. injection E4 as F1 F2 F3 F4 F5.
  destruct HI as [Hch Hnd Hh Hl Ho Hg Hf Hsm Hcl Hmo Hnu]. split; rewrite ?E1, ?E2, ?E3, ?F1, ?F2, ?F3, ?F4; try done.
  intros i p Hi. destruct (Hch i p Hi) as (c & ? & ? & ? & ? & Ha). exists c. split_and!; try done.
  rewrite Ha. unfold all_latches. by rewrite E2, F2, F4, F5.
Qed.

Lemma add_client_run sq c L :
  Inv c L [] -> Z.of_nat (size (clients c)) + 1 < 4294967000 ->
  exists k c' cl, UCE.add_client sq c = (Val k, c') /\ Inv c' L [] /\
    clients c !! k = None /\ clients c' = <[k:=cl]> (clients c) /\
    sequential_read cl = sq /\ accessed cl = None /\ eventtype c' = eventtype c.
Proof.
  intros HI Hsz. assert (clients c !! ChannelEntry.fresh c = None) as Hn.
  { destruct (clients c !! ChannelEntry.fresh c) eqn:E; [|done]. pose proof (proj2 (i_fresh _ _ _ HI) _ _ E). lia. }
  exists (ChannelEntry.fresh c). destruct sq.
  - destruct (add_client_spec c L HI Hsz) as (c1 & E & HI' & Hs & Hc).
    eexists _, _. split; [exact E|]. split; [exact HI'|]. cbn. rewrite Hc.
    by destruct (shape_ends _ _ Hs) as (_ & _ & _ & -> & _).
  - destruct (join_timed c L HI Hsz) as (c' & E & HI' & Hc & _). eexists c', _.
    split; [exact E|]. split; [exact HI'|]. split; [done|]. split; [exact Hc|].
    change (UCE.add_client false c) with (Val (ChannelEntry.fresh c),
      set_clients <[ChannelEntry.fresh c:=mkClient false None 0 None]> (set_store (cells c) (S (ChannelEntry.fresh c)) (deleted c) c)) in E.
    by injection E as <-.
Qed.

(** A client that goes takes its latch along. *)
Lemma drop_client_inv c L h k cl :
  Inv c L h -> clients c !! k = Some cl -> accessed cl = None ->
  Inv (set_clients (delete k) c) L (latch cl ++ h).
Proof.
  intros HI Hk Ha. destruct HI as [Hch Hnd Hh Hl Ho Hg [Hf1 Hf2] Hsm Hcl Hmo Hnu]. split; try done.
  - intros i p Hi. destruct (Hch i p Hi) as (d & Hd & Hn & Hod & Hkd & Hr). exists d.
    split_and!; try done. rewrite Hr. f_equal. apply occ_perm. unfold all_latches. cbn.
    rewrite <- (insert_delete_id (clients c) k cl Hk) at 1.
    rewrite map_to_list_insert by apply lookup_delete_eq. cbn.
    rewrite <- !app_assoc. rewrite (Permutation_app_comm (latch cl)), <- !app_assoc.
    do 3 apply Permutation_app_head. apply Permutation_app_comm.
  - cbn. split; [done|]. intros j d [_ Hj]%lookup_delete_Some. eauto.
  - cbn. rewrite map_size_delete_Some by eauto. lia.
  - intros j d. cbn. intros [_ Hj]%lookup_delete_Some. eauto.
Qed.

Lemma leave_run c L k cl :
  Inv c L [] -> clients c !! k = Some cl -> accessed cl = None ->
  exists c', (if sequential_read cl
      then (d ← Cells.client k;
            match read_index d with Some p => Cells.releaseReadAccess p | None => mret tt end)
      else mret tt) c = (Val tt, c') /\
    Inv (set_clients (delete k) c') L [] /\ clients c' = clients c /\ eventtype c' = eventtype c.
Proof.
  intros HI Hk Ha. pose proof (i_clients _ _ _ HI k cl Hk) as [_ Hok].
  pose proof (drop_client_inv c L [] k cl HI Hk Ha) as HI1. unfold latch in HI1.
  destruct (sequential_read cl).
  - destruct Hok as (p & Hp & j & Hj & _). rewrite Hp in HI1. cbn [option_list app] in HI1.
    rewrite (bind_val _ _ _ _ _ (client_run _ _ _ Hk)), Hp.
    destruct (release_spec _ L [] p HI1 ltac:(by eapply list_elem_of_lookup_2) ltac:(cbn; lia)) as
      (c2 & E & HI2 & Hs & Hc).
    destruct (release_swap _ _ _ _ E) as (c1 & E1 & ->). exists c1. split; [done|]. split; [done|].
    destruct (shape_ends _ _ Hs) as (_ & _ & _ & He & _). split; [|exact He].
    destruct (cells c !! p) as [d|] eqn:Ed.
    + rewrite (release_run _ d) in E1 by done. by injection E1 as <-.
    + unfold Cells.releaseReadAccess, mbind, M_bind, Cells.cell in E1. by rewrite Ed in E1.
  - exists c. rewrite Ha in HI1. done.
Qed.

(** ** Access *)

Definition with_obj (e : nat) (u : UEntry) (s : E) : E :=
  on_web (fun w => set_objs (<[e:=u]> (objs w)) w) s.
Definition with_handle (h : nat) (x : Handle) (s : E) : E :=
  on_readers (fun r => set_handles (<[h:=x]> (handles r)) r) s.

Lemma handle_run s h x : handles (readers s) !! h = Some x -> handle h s = (Val x, s).
Proof. intros Hx. unfold handle. by rewrite Hx. Qed.
Lemma obj_run s e u : objs (web s) !! e = Some u -> obj e s = (Val u, s).
Proof. intros Hu. unfold obj. by rewrite Hu. Qed.
Lemma on_entry_run {A} s e u (m : M Entry A) r c :
  objs (web s) !! e = Some u -> m (content u) = (r, c) ->
  on_entry e m s = (r, with_obj e (set_content c u) s).
Proof. intros Hu Hm. unfold on_entry. by rewrite Hu, Hm. Qed.
Lemma with_obj_eq s e u : objs (web (with_obj e u s)) !! e = Some u.
Proof. apply lookup_insert_eq. Qed.
Lemma edit_obj_run s e u f :
  objs (web s) !! e = Some u -> edit_obj e f s = (Val tt, with_obj e (f u) s).
Proof. intros Hu. unfold edit_obj. by rewrite (bind_val _ _ _ _ _ (obj_run _ _ _ Hu)). Qed.

(** What linking and detaching change: the handle and the entry, and the
    parts that tell what happened. *)
Record changed (s s' : E) (h : nat) (x' : Handle) (e : nat) (u' : UEntry) : Prop := {
  ch_objs : objs (web s') = <[e:=u']> (objs (web s));
  ch_web : (entries (web s'), entrymap (web s')) = (entries (web s), entrymap (web s));
  ch_handles : handles (readers s') = <[h:=x']> (handles (readers s));
  ch_readers : set_handles ∅ (readers s') = set_handles ∅ (readers s);
  ch_station : station s' = station s;
  ch_writings : writings s' = writings s;
  ch_config : config s' = config s;
  ch_version : config_version s' = config_version s;
  ch_mail : set_calls [] (mail s') = set_calls [] (mail s);
  ch_fresh : (fresh s <= fresh s')%nat
}.

Definition link_ok (s : E) (l : Link) : Prop :=
  exists u cl, objs (web s) !! l_entry l = Some u /\ clients (content u) !! l_client l = Some cl /\
    sequential_read cl = l_sequential l /\ accessed cl = None /\
    l_creation l = creation_id (ident u) /\ l_addr l ∈ current_clients u.

(** The same of an entry but for its clients. *)
Definition same_entry (u u' : UEntry) : Prop :=
  ident u' = ident u /\ entry_id u' = entry_id u /\ u_origin u' = u_origin u /\
  cleaned u' = cleaned u /\ writer u' = writer u /\ dataclasslink u' = dataclasslink u /\
  eventtype (content u') = eventtype (content u).

Lemma new_link_run s e u sq k c :
  objs (web s) !! e = Some u -> UCE.add_client sq (content u) = (Val k, c) ->
  new_link e sq s = (Val (mkLink (fresh s) e (creation_id (ident u)) k sq),
    set_fresh (S (fresh s)) (with_obj e (set_content c u) s)).
Proof.
  intros Hu Hk. unfold new_link. rewrite (bind_val _ _ _ _ _ (on_entry_run _ _ _ _ _ _ Hu Hk)).
  rewrite (bind_val _ _ _ _ _ (obj_run _ e (set_content c u) (with_obj_eq _ _ _))).
  reflexivity.
Qed.

Lemma link_run s h x e u L :
  handles (readers s) !! h = Some x -> objs (web s) !! e = Some u -> Inv (content u) L [] ->
  Z.of_nat (size (clients (content u))) + 1 < 4294967000 -> e ∉ l_entry <$> class_lead x ->
  exists s' k cl c', let l := mkLink (fresh s) e (creation_id (ident u)) k
      (isSequentialRead (reading_mode (wish x)) (eventtype (content u))) in
    let u' := set_current_clients (current_clients u ++ [fresh s]) (set_content c' u) in
    let x' := set_current (Some (default (fresh s) (current x))) (set_class_lead (l :: class_lead x) x) in
    linkReadClientToEntry h e s = (Val tt, s') /\ changed s s' h x' e u' /\ same_entry u u' /\
    (fresh s < fresh s')%nat /\ Inv c' L [] /\ clients (content u) !! k = None /\
    clients c' = <[k:=cl]> (clients (content u)) /\ sequential_read cl = l_sequential l /\ accessed cl = None.
Proof.
  intros Hx Hu HI Hsz He. set (sq := isSequentialRead _ _).
  destruct (add_client_run sq (content u) L HI Hsz) as (k & c1 & cl & E1 & HI1 & Hn & Hc1 & Hsq & Ha & Hev).
  set (c2 := if sq then c1 else UCE.setMinimumSpanAndDepth (requested_span (wish x)) (requested_depth (wish x)) c1).
  assert (Inv c2 L [] /\ clients c2 = clients c1 /\ eventtype c2 = eventtype c1) as (HI2 & Hc2 & Hev2).
  { unfold c2. destruct sq; [done|]. split; [by eapply Inv_core|done]. }
  eexists _, k, cl, c2. cbn zeta. split.
  { unfold linkReadClientToEntry. rewrite (bind_val _ _ _ _ _ (handle_run _ _ _ Hx)).
    assert (forallb (fun l => negb (bool_decide (l_entry l = e))) (class_lead x) = true) as ->.
    { apply forallb_forall. intros l Hl. apply negb_true_iff, bool_decide_false. intros <-.
      apply He. apply list_elem_of_fmap. exists l. split; [done|]. by apply list_elem_of_In. }
    rewrite (bind_val _ _ _ tt s) by by apply dassert_true.
    rewrite (bind_val _ _ _ _ _ (obj_run _ _ _ Hu)). fold sq.
    rewrite (bind_val _ _ _ _ _ (new_link_run _ _ _ _ _ _ Hu E1)). cbn [l_sequential l_addr].
    rewrite (bind_val _ _ _ tt (set_fresh (S (fresh s)) (with_obj e (set_content c2 u) s))).
    2: { unfold c2. destruct sq; [done|]. erewrite on_entry_run; [|exact (with_obj_eq _ _ _)|reflexivity].
         unfold with_obj, on_web, set_web, set_objs, set_fresh. cbn. by rewrite insert_insert_eq. }
    erewrite (bind_val (put_handle _ _)) by reflexivity.
    erewrite bind_val; [|apply edit_obj_run; exact (with_obj_eq _ _ _)]. reflexivity. }
  split; [|split_and!; [repeat split; cbn; by rewrite Hev2, Hev|cbn; lia|done|done|by rewrite Hc2|done|done]].
  split; try done; [apply insert_insert_eq|cbn; lia].
Qed.

Lemma erase_first_in x l : x ∈ l -> exists l1 l2, l = l1 ++ x :: l2 /\ erase_first x l = Some (l1 ++ l2) /\ x ∉ l1.
Proof.
  induction l as [|y l IH]; [by intros ?%elem_of_nil|]. intros Hx. cbn [erase_first].
  case_bool_decide as E.
  - subst. exists [], l. split_and!; [done|done|apply not_elem_of_nil].
  - apply elem_of_cons in Hx as [->|Hx]; [done|]. destruct (IH Hx) as (l1 & l2 & -> & -> & Hn).
    exists (y :: l1), l2. split_and!; [done|done|]. rewrite not_elem_of_cons. naive_solver.
Qed.

Lemma find_link_none e l : e ∉ l_entry <$> l -> find_link e l = None.
Proof.
  induction l as [|x l IH]; [done|]. cbn. rewrite not_elem_of_cons. intros [H1 H2].
  rewrite bool_decide_false by congruence. by rewrite IH.
Qed.
Lemma find_link_some e l :
  e ∈ l_entry <$> l -> exists pre x post, find_link e l = Some (pre, x, post) /\
    l = pre ++ x :: post /\ l_entry x = e /\ e ∉ l_entry <$> pre.
Proof.
  induction l as [|x l IH]; [by intros ?%elem_of_nil|]. intros He. cbn [find_link]. case_bool_decide as E.
  - exists [], x, l. split_and!; [done|done|done|apply not_elem_of_nil].
  - cbn in He. apply elem_of_cons in He as [->|He]; [done|].
    destruct (IH He) as (pre & y & post & -> & -> & Hy & Hn). exists (x :: pre), y, post.
    split_and!; [done|done|done|]. cbn. rewrite not_elem_of_cons. naive_solver.
Qed.

Lemma removeClient_run s e u l cs :
  objs (web s) !! e = Some u -> l_creation l = creation_id (ident u) ->
  erase_first (l_addr l) (current_clients u) = Some cs ->
  removeClient e l s = (Val tt, with_obj e (set_current_clients cs u) s).
Proof.
  intros Hu Hc He. unfold removeClient. rewrite (bind_val _ _ _ _ _ (obj_run _ _ _ Hu)).
  by rewrite Hc, Z.eqb_refl, He.
Qed.

(** The pointer to the current link when the link [el] goes. *)
Definition next_current (x : Handle) (el : Link) (post : list Link) : option nat :=
  if bool_decide (current x = Some (l_addr el)) then l_addr <$> head post else current x.

Lemma detach_run s h x e u L pre el post :
  handles (readers s) !! h = Some x -> find_link e (class_lead x) = Some (pre, el, post) -> l_entry el = e ->
  objs (web s) !! e = Some u -> Inv (content u) L [] -> link_ok s el ->
  exists s' c' cs, let u' := set_current_clients cs (set_content c' u) in
    let x' := set_current (next_current x el post) (set_class_lead (pre ++ post) x) in
    detachReadClientFromEntry h e s = (Val true, s') /\ changed s s' h x' e u' /\ same_entry u u' /\
    Inv c' L [] /\ clients c' = delete (l_client el) (clients (content u)) /\
    erase_first (l_addr el) (current_clients u) = Some cs.
Proof.
  intros Hx Hf Hel Hu HI (u0 & cl & Hu0 & Hcl & Hsq & Ha & Hcr & Hin).
  rewrite Hel in Hu0. assert (u0 = u) as -> by congruence.
  destruct (leave_run (content u) L (l_client el) cl HI Hcl Ha) as (c1 & E1 & HI1 & Hc1 & Hev1).
  destruct (erase_first_in _ _ Hin) as (l1 & l2 & _ & Hcs & _). set (cs := l1 ++ l2) in *.
  set (c2 := match trigger_target x with Some t => UCE.requestRemoveTrigger t c1 | None => c1 end).
  assert (clients c2 = clients c1 /\ eventtype c2 = eventtype c1 /\ Inv (set_clients (delete (l_client el)) c2) L [])
    as (Hc2 & Hev2 & HI2).
  { unfold c2. destruct (trigger_target x); [|done]. split_and!; [done|done|]. by eapply Inv_core. }
  set (x' := set_current (next_current x el post) (set_class_lead (pre ++ post) x)).
  eexists _, (set_clients (delete (l_client el)) c2), cs. cbn zeta. split.
  { unfold detachReadClientFromEntry. rewrite (bind_val _ _ _ _ _ (handle_run _ _ _ Hx)), Hf.
    rewrite (bind_val _ _ _ (pre, el, post) s) by reflexivity. cbn beta iota zeta.
    rewrite (bind_val _ _ _ tt (with_obj e (set_content c1 u) s)).
    2: { unfold release_link. rewrite <- Hsq, Hel. destruct (sequential_read cl).
         - by apply on_entry_run.
         - injection E1 as <-. unfold mret, M_ret, with_obj, on_web, set_web, set_objs. f_equal.
           destruct s as [? w ? ? ? ? ? ?]. cbn in *. f_equal. destruct w; cbn in *. f_equal.
           rewrite insert_id; [done|]. rewrite Hu. f_equal. by destruct u. }
    rewrite (bind_val (put_handle _ _) _ _ tt (with_handle h x' (with_obj e (set_content c1 u) s))) by reflexivity.
    rewrite (bind_val _ _ _ tt (with_handle h x' (with_obj e (set_content c2 u) s))).
    2: { unfold c2. destruct (trigger_target x); [|done].
         erewrite on_entry_run; [|exact (with_obj_eq _ _ _)|reflexivity].
         unfold with_obj, with_handle, on_web, on_readers, set_web, set_readers, set_objs. cbn.
         by rewrite insert_insert_eq. }
    rewrite (bind_val _ _ _ tt (with_handle h x' (with_obj e (set_current_clients cs (set_content c2 u)) s))).
    2: { erewrite removeClient_run; [|exact (with_obj_eq _ _ _)|done|done].
         unfold with_obj, with_handle, on_web, on_readers, set_web, set_readers, set_objs. cbn.
         by rewrite insert_insert_eq. }
    erewrite (bind_val (call _)) by reflexivity. unfold delete_link. rewrite Hel.
    erewrite bind_val; [reflexivity|]. eapply on_entry_run; [exact (with_obj_eq _ _ _)|reflexivity]. }
  split; [|split_and!; [repeat split; cbn; by rewrite Hev2, Hev1|exact HI2|cbn; by rewrite Hc2, Hc1|done]].
  split; try done. apply insert_insert_eq.
Qed.

(** ** The web of links *)

Record Tidy (s : E) : Prop := {
  t_entries e u : objs (web s) !! e = Some u -> exists L, Inv (content u) L [];
  t_links h x l : handles (readers s) !! h = Some x -> l ∈ class_lead x ->
    link_ok s l /\ (l_addr l < fresh s)%nat;
  t_apart h x l h' x' l' : handles (readers s) !! h = Some x -> l ∈ class_lead x ->
    handles (readers s) !! h' = Some x' -> l' ∈ class_lead x' ->
    l_addr l = l_addr l' \/ l_entry l = l_entry l' /\ l_client l = l_client l' -> h = h' /\ l = l';
  t_once h x : handles (readers s) !! h = Some x -> NoDup (l_entry <$> class_lead x);
  t_current h x a : handles (readers s) !! h = Some x -> current x = Some a ->
    a ∈ l_addr <$> class_lead x
}.

(** Links of other clients do not see a change of an entry. *)
Lemma link_ok_keep s s' e u u' l :
  objs (web s) !! e = Some u -> objs (web s') = <[e:=u']> (objs (web s)) -> link_ok s l ->
  (l_entry l = e -> clients (content u') !! l_client l = clients (content u) !! l_client l /\
     ident u' = ident u /\ (l_addr l ∈ current_clients u -> l_addr l ∈ current_clients u')) ->
  link_ok s' l.
Proof.
  intros Hu Ho (v & cl & Hv & Hcl & Hsq & Ha & Hcr & Hin) Hk. destruct (decide (l_entry l = e)) as [E|E].
  - destruct (Hk E) as (H1 & H2 & H3). assert (v = u) as -> by congruence.
    exists u', cl. rewrite Ho, E, lookup_insert_eq, H1, H2. split_and!; auto.
  - exists v, cl. rewrite Ho, lookup_insert_ne by congruence. by split_and!.
Qed.

Lemma link_tidy s s' h x e u c' k cl L sq :
  let l := mkLink (fresh s) e (creation_id (ident u)) k sq in
  let u' := set_current_clients (current_clients u ++ [fresh s]) (set_content c' u) in
  let x' := set_current (Some (default (fresh s) (current x))) (set_class_lead (l :: class_lead x) x) in
  Tidy s -> handles (readers s) !! h = Some x -> objs (web s) !! e = Some u ->
  e ∉ l_entry <$> class_lead x -> changed s s' h x' e u' -> (fresh s < fresh s')%nat -> Inv c' L [] ->
  clients (content u) !! k = None -> clients c' = <[k:=cl]> (clients (content u)) ->
  sequential_read cl = sq -> accessed cl = None -> Tidy s'.
Proof.
  intros l u' x' [Te Tl Ta To Tc] Hx Hu He [Ho _ Hh _ _ _ _ _ _ _] Hf HI Hn Hc Hsq Hac.
  assert (forall h1 x1 l1, handles (readers s') !! h1 = Some x1 -> l1 ∈ class_lead x1 ->
    h1 = h /\ l1 = l \/ exists x2, handles (readers s) !! h1 = Some x2 /\ l1 ∈ class_lead x2) as Hsplit.
  { intros h1 x1 l1. rewrite Hh. destruct (decide (h1 = h)) as [->|Hne].
    - rewrite lookup_insert_eq. intros [= <-]. cbn. rewrite elem_of_cons. naive_solver.
    - rewrite lookup_insert_ne by done. eauto. }
  assert (forall h1 x1 l1, handles (readers s) !! h1 = Some x1 -> l1 ∈ class_lead x1 ->
    l_addr l1 <> fresh s /\ (l_entry l1 = e -> l_client l1 <> k)) as Hnew.
  { intros h1 x1 l1 H1 H2. destruct (Tl h1 x1 l1 H1 H2) as [(v & cl1 & Hv & Hcl & _) Hlt].
    split; [lia|]. intros E1 E2. rewrite E1, Hu in Hv. injection Hv as <-. congruence. }
  split.
  - intros e1 u1. rewrite Ho. intros [[<- <-]|[_ Hu1]]%lookup_insert_Some; [by exists L|by eapply Te].
  - intros h1 x1 l1 H1 H2. destruct (Hsplit h1 x1 l1 H1 H2) as [[-> ->]|(x2 & Hx2 & Hl2)].
    + split; [|done]. exists u', cl. rewrite Ho. cbn. rewrite lookup_insert_eq, Hc, lookup_insert_eq.
      split_and!; try done. apply elem_of_app. right. by apply list_elem_of_singleton.
    + destruct (Tl h1 x2 l1 Hx2 Hl2) as [Hok Hlt]. split; [|lia].
      destruct (Hnew h1 x2 l1 Hx2 Hl2) as [_ Hk]. eapply link_ok_keep; [exact Hu|exact Ho|done|].
      intros E. cbn. rewrite Hc, lookup_insert_ne by (intros ->; by apply Hk). split_and!; [done|done|].
      rewrite elem_of_app. by left.
  - intros h1 x1 l1 h2 x2 l2 H1 Hl1 H2 Hl2 Heq.
    destruct (Hsplit h1 x1 l1 H1 Hl1) as [[-> ->]|(y1 & Hy1 & Hm1)],
      (Hsplit h2 x2 l2 H2 Hl2) as [[-> ->]|(y2 & Hy2 & Hm2)]; [done|..].
    + destruct (Hnew _ _ _ Hy2 Hm2) as [Hf1 Hf2]. cbn in Heq. naive_solver.
    + destruct (Hnew _ _ _ Hy1 Hm1) as [Hf1 Hf2]. cbn in Heq. naive_solver.
    + by eapply Ta.
  - intros h1 x1. rewrite Hh. intros [[<- <-]|[_ H1]]%lookup_insert_Some; [|by eapply To].
    cbn. constructor; [done|by eapply To].
  - intros h1 x1 a. rewrite Hh. intros [[<- <-]|[_ H1]]%lookup_insert_Some; [|by eapply Tc].
    cbn. intros [= <-]. destruct (current x) as [b|] eqn:E; cbn; [right|left]. by eapply Tc.
Qed.

Lemma detach_tidy s s' h x e u c' cs pre el post L :
  let u' := set_current_clients cs (set_content c' u) in
  let x' := set_current (next_current x el post) (set_class_lead (pre ++ post) x) in
  Tidy s -> handles (readers s) !! h = Some x -> objs (web s) !! e = Some u ->
  class_lead x = pre ++ el :: post -> l_entry el = e -> changed s s' h x' e u' -> Inv c' L [] ->
  clients c' = delete (l_client el) (clients (content u)) ->
  erase_first (l_addr el) (current_clients u) = Some cs -> Tidy s'.
Proof.
  intros u' x' [Te Tl Ta To Tc] Hx Hu Hcl He [Ho _ Hh _ _ _ _ _ _ Hf] HI Hc Hcs.
  assert (NoDup (pre ++ el :: post)) as Hnd by (rewrite <- Hcl; eapply NoDup_fmap_1, To, Hx).
  assert (el ∈ class_lead x) as Hin by (rewrite Hcl; apply elem_of_app; right; left).
  assert (forall l1, l1 ∈ pre ++ post -> l1 ∈ class_lead x /\ l1 <> el) as Hsub.
  { intros l1. rewrite Hcl, !elem_of_app, elem_of_cons. intros Hl. split; [naive_solver|].
    intros ->. apply list.NoDup_app in Hnd as (_ & Hd & Hp). apply list.NoDup_cons in Hp as [Hp _].
    destruct Hl as [Hl|Hl]; [|done]. apply (Hd el Hl). left. }
  assert (forall h1 x1 l1, handles (readers s') !! h1 = Some x1 -> l1 ∈ class_lead x1 ->
    exists x2, handles (readers s) !! h1 = Some x2 /\ l1 ∈ class_lead x2 /\ (h1, l1) <> (h, el)) as Hsplit.
  { intros h1 x1 l1. rewrite Hh. destruct (decide (h1 = h)) as [->|Hne].
    - rewrite lookup_insert_eq. intros [= <-] Hl. destruct (Hsub l1 Hl). exists x.
      split_and!; [done|done|congruence].
    - rewrite lookup_insert_ne by done. intros H1 H2. exists x1. split_and!; [done|done|congruence]. }
  split.
  - intros e1 u1. rewrite Ho. intros [[<- <-]|[_ Hu1]]%lookup_insert_Some; [by exists L|by eapply Te].
  - intros h1 x1 l1 H1 H2. destruct (Hsplit h1 x1 l1 H1 H2) as (x2 & Hx2 & Hl2 & Hne).
    destruct (Tl h1 x2 l1 Hx2 Hl2) as [Hok Hlt]. split; [|lia].
    assert (forall A : Prop, l_addr l1 = l_addr el \/ l_entry l1 = l_entry el /\ l_client l1 = l_client el -> A) as Hap.
    { intros A Hx'. destruct (Ta h1 x2 l1 h x el Hx2 Hl2 Hx Hin Hx') as [-> ->]. by destruct Hne. }
    eapply link_ok_keep; [exact Hu|exact Ho|done|]. intros E. cbn. rewrite Hc.
    rewrite lookup_delete_ne by (intros E2; eapply Hap; right; split; congruence).
    split_and!; [done|done|]. intros Hm. assert (l_addr el ∈ current_clients u) as Hme.
    { destruct (Tl h x el Hx Hin) as [(v & ? & Hv & _ & _ & _ & _ & Hm') _]. congruence. }
    destruct (erase_first_in _ _ Hme) as (a1 & a2 & Ea & Eb & _). rewrite Hcs in Eb. injection Eb as ->.
    rewrite Ea, elem_of_app, elem_of_cons in Hm. rewrite elem_of_app.
    destruct Hm as [Hm|[Hm|Hm]]; [by left| |by right]. eapply Hap. by left.
  - intros h1 x1 l1 h2 x2 l2 H1 Hl1 H2 Hl2 Heq.
    destruct (Hsplit h1 x1 l1 H1 Hl1) as (y1 & Hy1 & Hm1 & _), (Hsplit h2 x2 l2 H2 Hl2) as (y2 & Hy2 & Hm2 & _).
    by eapply Ta.
  - intros h1 x1. rewrite Hh. intros [[<- <-]|[_ H1]]%lookup_insert_Some; [|by eapply To].
    cbn. pose proof (To h x Hx) as Hn. rewrite Hcl, fmap_app, fmap_cons in Hn. rewrite fmap_app.
    rewrite <- Permutation_middle in Hn. by apply list.NoDup_cons in Hn as [_ Hn].
  - intros h1 x1 a. rewrite Hh. intros [[<- <-]|[_ H1]]%lookup_insert_Some; [|by eapply Tc].
    cbn. unfold next_current. case_bool_decide as E.
    + destruct post as [|b post]; [done|]. intros [= <-]. rewrite fmap_app. apply elem_of_app. right. left.
    + intros Ea. pose proof (Tc h x a Hx Ea) as Hm. rewrite Hcl, fmap_app, fmap_cons, elem_of_app, elem_of_cons in Hm.
      rewrite fmap_app, elem_of_app. destruct Hm as [Hm|[->|Hm]]; [by left|done|by right].
Qed.

(** ** Following, as a fold over the changes that wait *)

(** The entries a reader is linked to, and the one it stands at. *)
Record View := mkView { linked : list nat; stands : option nat }.
Definition view (x : Handle) : View :=
  mkView (l_entry <$> class_lead x) (l_entry <$> head (current_links x)).

(** A class and its parents. *)
Fixpoint ancestry (fuel : nat) (c : text) : list text :=
  match fuel, c with
  | O, _ | S _, [] => []
  | S fuel, _ => match reg !! c with Some p => c :: ancestry fuel p | None => [] end
  end.

(** Whether an entry is what a reader asked for. *)
Definition accepts (s : E) (w : Wish) (e : nat) : bool :=
  match objs (web s) !! e with
  | Some u =>
      bool_decide (h_class w ∈ ancestry (class_fuel reg) (u_class (ident u))) &&
      ((requested_entry w =? entry_any) || (requested_entry w =? entry_id u)
       || (requested_entry w =? entry_bylabel) && bool_decide (h_label w = u_label (ident u))) &&
      areClientAndEntryTimingCompatible (time_aspect w) (eventtype (content u))
  | None => false
  end.

Fixpoint behind (e : nat) (l : list nat) : option nat :=
  match l with
  | [] => None
  | x :: l => if bool_decide (x = e) then head l else behind e l
  end.
Definition unlink (e : nat) (v : View) : View :=
  mkView (filter (fun x => x <> e) (linked v))
    (if bool_decide (stands v = Some e) then behind e (linked v) else stands v).

(** One change; [None] when an entry is deleted that the reader, linked to
    others, is not linked to. *)
Definition follow_one (w : Wish) (acc : nat -> bool) (ev : CL.event) (v : View) : option View :=
  match ev with
  | (CL.NewEntry, Some e) =>
      Some (if acc e && (bool_decide (linked v = []) || (requested_entry w =? entry_any))
            then mkView (e :: linked v) (Some (default e (stands v))) else v)
  | (CL.DeletedEntry, Some e) =>
      match linked v with
      | [] => Some v
      | _ => if bool_decide (e ∈ linked v) then Some (unlink e v) else None
      end
  | _ => Some v
  end.
Fixpoint follow (w : Wish) (acc : nat -> bool) (evs : list CL.event) (v : View) (b : bool)
    : option (View * bool) :=
  match evs with
  | [] => Some (v, b)
  | ev :: evs =>
      v' ← follow_one w acc ev v;
      follow w acc evs v' (negb (bool_decide (linked v' = linked v)) || b)
  end.

(** A reader of a single entry passes over what is not about its entry. *)
Fixpoint skip_to (e : nat) (evs : list CL.event) : list CL.event :=
  match evs with
  | [] => []
  | ev :: r => if bool_decide (snd ev = Some e) then evs else skip_to e r
  end.
Definition relevant (w : Wish) (v : View) (evs : list CL.event) : list CL.event :=
  match linked v with
  | e :: _ => if requested_entry w <=? entry_bylabel then skip_to e evs else evs
  | [] => evs
  end.

(** ** The code agrees *)

Lemma ancestry_lineage c l fuel : lineage reg c l -> (length l < fuel)%nat -> ancestry fuel c = l.
Proof.
  intros Hl. revert fuel. induction Hl as [c Hc Hr|c p l Hc Hr Hl IH Hn]; intros fuel Hf;
    (destruct fuel as [|fuel]; [cbn in Hf; lia|]); (destruct c as [|b c]; [done|]); cbn [ancestry]; rewrite Hr.
  - by destruct fuel.
  - rewrite IH; [done|cbn in Hf; lia].
Qed.

Lemma links_from_mid pre l post :
  l_addr l ∉ l_addr <$> pre -> links_from (l_addr l) (pre ++ l :: post) = l :: post.
Proof.
  induction pre as [|x pre IH]; intros Hn; cbn [app links_from]; [by rewrite bool_decide_true|].
  rewrite fmap_cons, not_elem_of_cons in Hn. rewrite bool_decide_false by naive_solver. apply IH. naive_solver.
Qed.

Lemma nodup_inj {A B} (f : A -> B) (l : list A) x y :
  NoDup (f <$> l) -> x ∈ l -> y ∈ l -> f x = f y -> x = y.
Proof.
  intros Hn (i & Hi)%list_elem_of_lookup (j & Hj)%list_elem_of_lookup E.
  assert (i = j) as <-; [|congruence]. eapply NoDup_lookup; [exact Hn| |]; rewrite list_lookup_fmap.
  - by rewrite Hi.
  - rewrite Hj. cbn. by rewrite E.
Qed.

Lemma addr_nodup s h x : Tidy s -> handles (readers s) !! h = Some x -> NoDup (l_addr <$> class_lead x).
Proof.
  intros HT Hx. apply NoDup_fmap_2_strong; [|by eapply NoDup_fmap_1, (t_once _ HT)].
  intros l l' Hl Hl' E. by destruct (t_apart _ HT h x l h x l' Hx Hl Hx Hl' (or_introl E)).
Qed.

Lemma links_from_head (ls : list Link) l :
  NoDup (l_addr <$> ls) -> l ∈ ls -> head (links_from (l_addr l) ls) = Some l.
Proof.
  intros Hn Hl. apply list_elem_of_split in Hl as (pre & post & ->). rewrite links_from_mid; [done|].
  rewrite fmap_app in Hn. apply list.NoDup_app in Hn as (_ & Hd & _). intros Hm. apply (Hd _ Hm). left.
Qed.

(** The link a reader stands at. *)
Lemma current_split s h x a :
  Tidy s -> handles (readers s) !! h = Some x -> current x = Some a ->
  exists l, l ∈ class_lead x /\ l_addr l = a /\ head (current_links x) = Some l.
Proof.
  intros HT Hx Ha. pose proof (t_current _ HT h x a Hx Ha) as Hm.
  apply list_elem_of_fmap in Hm as (l & -> & Hl). exists l. split_and!; [done|done|].
  unfold current_links. rewrite Ha. apply links_from_head; [by eapply addr_nodup|done].
Qed.

Lemma stands_current s h x :
  Tidy s -> handles (readers s) !! h = Some x -> is_Some (stands (view x)) <-> is_Some (current x).
Proof.
  intros HT Hx. cbn. destruct (current x) as [a|] eqn:Ha.
  - destruct (current_split s h x a HT Hx Ha) as (l & _ & _ & ->). by cbn.
  - unfold current_links. rewrite Ha. done.
Qed.

(** The effect of linking and detaching on the view. *)
Lemma view_link s h x l :
  Tidy s -> handles (readers s) !! h = Some x -> l_addr l ∉ l_addr <$> class_lead x ->
  view (set_current (Some (default (l_addr l) (current x))) (set_class_lead (l :: class_lead x) x)) =
    mkView (l_entry l :: linked (view x)) (Some (default (l_entry l) (stands (view x)))).
Proof.
  intros HT Hx Hn. pose proof (addr_nodup s h x HT Hx) as Hna.
  assert (NoDup (l_addr <$> l :: class_lead x)) as Hn2 by (cbn; by constructor).
  unfold view. cbn [linked stands]. f_equal. unfold current_links at 1.
  cbn [current class_lead set_current set_class_lead]. destruct (current x) as [a|] eqn:Ha.
  - destruct (current_split s h x a HT Hx Ha) as (l' & Hl & <- & E). rewrite E. cbn [from_option id].
    rewrite links_from_head; [done|done|by right].
  - unfold current_links. rewrite Ha. cbn [from_option id]. rewrite links_from_head; [done|done|left].
Qed.

Lemma behind_mid pre (e : nat) post : e ∉ pre -> behind e (pre ++ e :: post) = head post.
Proof.
  induction pre as [|x pre IH]; intros Hn; cbn [app behind]; [by rewrite bool_decide_true|].
  apply not_elem_of_cons in Hn as [H1 H2]. rewrite bool_decide_false by congruence. by apply IH.
Qed.

Lemma filter_mid (pre post : list nat) e :
  NoDup (pre ++ e :: post) -> filter (fun x => x <> e) (pre ++ e :: post) = pre ++ post.
Proof.
  intros Hn. apply list.NoDup_app in Hn as (_ & Hd & Hp). apply list.NoDup_cons in Hp as [Hp _].
  assert (forall l : list nat, e ∉ l -> filter (fun x => x <> e) l = l) as Hid.
  { induction l as [|y l IH]; [done|]. rewrite not_elem_of_cons. intros [H1 H2].
    rewrite list.filter_cons, decide_True by congruence. by rewrite IH. }
  rewrite list.filter_app, list.filter_cons, decide_False by naive_solver. rewrite !Hid; [done|done|].
  intros He. apply (Hd e He). left.
Qed.

Lemma view_detach s h x pre el post :
  Tidy s -> handles (readers s) !! h = Some x -> class_lead x = pre ++ el :: post ->
  view (set_current (next_current x el post) (set_class_lead (pre ++ post) x)) = unlink (l_entry el) (view x).
Proof.
  intros HT Hx Hcl. pose proof (t_once _ HT h x Hx) as Hn. pose proof (addr_nodup s h x HT Hx) as Hna.
  assert (el ∈ class_lead x) as Hel by (rewrite Hcl; apply elem_of_app; right; left).
  assert (NoDup (l_addr <$> pre ++ post)) as Hna2.
  { rewrite Hcl, fmap_app, fmap_cons, <- Permutation_middle in Hna. rewrite fmap_app.
    by apply list.NoDup_cons in Hna as [_ ?]. }
  unfold unlink, view. cbn [linked stands class_lead current set_current set_class_lead].
  assert (l_entry <$> class_lead x = (l_entry <$> pre) ++ l_entry el :: (l_entry <$> post)) as Ecl
    by (by rewrite Hcl, fmap_app).
  rewrite Ecl in Hn |- *. rewrite fmap_app, filter_mid, behind_mid.
  2: { intros He. apply list.NoDup_app in Hn as (_ & Hd & _). apply (Hd _ He). left. }
  2: done.
  f_equal. unfold next_current, current_links at 1. cbn [current class_lead set_current set_class_lead].
  destruct (current x) as [a|] eqn:Ha.
  2: { rewrite !bool_decide_false; [|unfold current_links; by rewrite Ha|done].
       unfold current_links. by rewrite Ha. }
  destruct (current_split s h x a HT Hx Ha) as (l & Hl & <- & E). rewrite E.
  cbn [fmap option_fmap option_map]. destruct (decide (l_addr l = l_addr el)) as [Ead|Hne].
  - assert (l = el) as -> by by apply (nodup_inj l_addr (class_lead x)). rewrite !bool_decide_true by done. destruct post as [|b post]; [done|].
    cbn [head fmap option_fmap option_map list_fmap]. rewrite links_from_head; [done|done|].
    apply elem_of_app. right. left.
  - rewrite (bool_decide_false (Some (l_addr l) = _)).
    2: { by intros [= E2]. }
    rewrite bool_decide_false.
    2: { intros [= E2]. apply Hne. f_equal. eapply (nodup_inj l_entry); [|exact Hl|exact Hel|done]. by rewrite Ecl. }
    rewrite links_from_head; [done|done|]. rewrite Hcl, elem_of_app, elem_of_cons in Hl.
    rewrite elem_of_app. naive_solver.
Qed.

(** What following leaves alone. *)
Record kept (s s' : E) (h : nat) : Prop := {
  k_others h' : h' <> h -> handles (readers s') !! h' = handles (readers s) !! h';
  k_objs e u : objs (web s) !! e = Some u -> exists u', objs (web s') !! e = Some u' /\ same_entry u u';
  k_none e : objs (web s) !! e = None -> objs (web s') !! e = None;
  k_web : (entries (web s'), entrymap (web s')) = (entries (web s), entrymap (web s));
  k_readers : set_handles ∅ (readers s') = set_handles ∅ (readers s);
  k_rest : (station s', writings s', set_calls [] (mail s')) = (station s, writings s, set_calls [] (mail s))
}.

Lemma same_entry_refl u : same_entry u u.
Proof. done. Qed.
Lemma same_entry_trans u v w : same_entry u v -> same_entry v w -> same_entry u w.
Proof. unfold same_entry. intuition congruence. Qed.

Lemma kept_refl s h : kept s s h.
Proof. split; eauto using same_entry_refl. Qed.
Lemma kept_trans s1 s2 s3 h : kept s1 s2 h -> kept s2 s3 h -> kept s1 s3 h.
Proof.
  intros [A1 A2 A3 A4 A5 A6] [B1 B2 B3 B4 B5 B6]. split; try congruence; [| |auto].
  - intros h' Hn. by rewrite B1, A1.
  - intros e u Hu. destruct (A2 e u Hu) as (v & Hv & E1). destruct (B2 e v Hv) as (w & Hw & E2).
    exists w. split; [done|by eapply same_entry_trans].
Qed.

Lemma changed_kept s s' h x' e u u' :
  objs (web s) !! e = Some u -> changed s s' h x' e u' -> same_entry u u' -> kept s s' h.
Proof.
  intros Hu [Ho Hw Hh Hr Hst Hwr _ _ Hm _] Hs. split; try done.
  - intros h' Hn. by rewrite Hh, lookup_insert_ne by done.
  - intros e1 u1 H1. rewrite Ho. destruct (decide (e1 = e)) as [->|Hne].
    + rewrite lookup_insert_eq. exists u'. split; [done|congruence].
    + rewrite lookup_insert_ne by done. eauto using same_entry_refl.
  - intros e1 H1. by rewrite Ho, lookup_insert_ne by congruence.
  - congruence.
Qed.

Lemma kept_accepts s s' h w e : kept s s' h -> accepts s' w e = accepts s w e.
Proof.
  intros Hk. unfold accepts. destruct (objs (web s) !! e) as [u|] eqn:Hu.
  - destruct (k_objs _ _ _ Hk e u Hu) as (u' & -> & (-> & -> & _ & _ & _ & _ & ->)). done.
  - by rewrite (k_none _ _ _ Hk e Hu).
Qed.

Definition same_handle (x x' : Handle) : Prop :=
  wish x' = wish x /\ trigger_target x' = trigger_target x /\ access_count x' = access_count x.

Definition news (evs : list CL.event) : list nat :=
  omap (fun ev => if bool_decide (fst ev = CL.NewEntry) then snd ev else None) evs.

Lemma news_cons ct o evs :
  news ((ct, o) :: evs) = match ct, o with CL.NewEntry, Some e => e :: news evs | _, _ => news evs end.
Proof. by destruct ct, o. Qed.

(** The changes that wait are about entries, each new one only once; a new
    entry is there and its class is known. *)
Record Expected (s : E) (x : Handle) (evs : list CL.event) : Prop := {
  e_new o : (CL.NewEntry, o) ∈ evs -> exists e u k, o = Some e /\ objs (web s) !! e = Some u /\
    lineage reg (u_class (ident u)) k;
  e_del o : (CL.DeletedEntry, o) ∈ evs -> is_Some o;
  e_once : NoDup ((l_entry <$> class_lead x) ++ news evs);
  e_room e u : objs (web s) !! e = Some u ->
    Z.of_nat (size (clients (content u))) + Z.of_nat (length evs) < 4294967000
}.

Lemma expected_step s s' h x x' ev evs :
  Expected s x (ev :: evs) -> kept s s' h ->
  NoDup ((l_entry <$> class_lead x') ++ news evs) ->
  (forall e u u', objs (web s) !! e = Some u -> objs (web s') !! e = Some u' ->
    (size (clients (content u')) <= S (size (clients (content u))))%nat) ->
  Expected s' x' evs.
Proof.
  intros [Hn Hd Ho Hr] Hk Hnd Hsz. split; [| |done|].
  - intros o Hev. destruct (Hn o ltac:(by right)) as (e & u & k & -> & Hu & Hl).
    destruct (k_objs _ _ _ Hk e u Hu) as (u' & Hu' & (Ei & _)). exists e, u', k. by rewrite Ei.
  - intros o Hev. apply Hd. by right.
  - intros e u' Hu'. destruct (objs (web s) !! e) as [u|] eqn:Hu.
    + specialize (Hr e u Hu). specialize (Hsz e u u' Hu Hu'). cbn [length] in Hr. lia.
    + by rewrite (k_none _ _ _ Hk e Hu) in Hu'.
Qed.

Lemma expected_tail s x ev evs : Expected s x (ev :: evs) -> Expected s x evs.
Proof.
  intros HE. eapply (expected_step s s 0); [done|by apply kept_refl| |].
  - pose proof (e_once _ _ _ HE) as Hn. destruct ev as [ct o]. rewrite news_cons in Hn.
    destruct ct, o as [e|]; try done. rewrite <- Permutation_middle in Hn. by apply list.NoDup_cons in Hn as [_ Hn].
  - intros e u u' H1 H2. assert (u' = u) as -> by congruence. lia.
Qed.

Record stepped (s s' : E) (h : nat) (x x' : Handle) : Prop := {
  sp_tidy : Tidy s';
  sp_handle : handles (readers s') !! h = Some x';
  sp_same : same_handle x x';
  sp_kept : kept s s' h;
  sp_version : config_version s' = config_version s
}.

Lemma stepped_refl s h x : Tidy s -> handles (readers s) !! h = Some x -> stepped s s h x x.
Proof. split; try done. apply kept_refl. Qed.

Lemma wants_accepts s x e u :
  objs (web s) !! e = Some u ->
  bool_decide (h_class (wish x) ∈ ancestry (class_fuel reg) (u_class (ident u))) && wants x u &&
    areClientAndEntryTimingCompatible (time_aspect (wish x)) (eventtype (content u)) =
  accepts s (wish x) e && (bool_decide (linked (view x) = []) || (requested_entry (wish x) =? entry_any)).
Proof.
  intros Hu. unfold accepts, wants. rewrite Hu.
  assert (bool_decide (linked (view x) = []) = bool_decide (class_lead x = [])) as ->.
  { apply bool_decide_ext. cbn. by destruct (class_lead x). }
  destruct (bool_decide (h_class _ ∈ _)), (bool_decide (class_lead x = [])), (requested_entry (wish x) =? entry_id u),
    (_ && bool_decide (h_label _ = _)), (requested_entry (wish x) =? entry_any),
    (areClientAndEntryTimingCompatible _ _); reflexivity.
Qed.

(** The outcome of a step, with what it makes of the view. *)
Definition step_to (s : E) (h : nat) (x : Handle) (evs : list CL.event) (m : M E bool) (v : View) : Prop :=
  exists s' x', m s = (Val (negb (bool_decide (linked v = linked (view x)))), s') /\
    stepped s s' h x x' /\ view x' = v /\ config_change x' = config_change x /\ config s' = config s /\
    Expected s' x' evs.

Lemma stay_step s h x ev evs :
  Tidy s -> handles (readers s) !! h = Some x -> Expected s x (ev :: evs) ->
  step_to s h x evs (mret false) (view x).
Proof.
  intros HT Hx HE. exists s, x. split; [by rewrite bool_decide_true|].
  split_and!; [by apply stepped_refl|done..|]. by eapply expected_tail.
Qed.

Lemma new_step s h x e c evs :
  Tidy s -> handles (readers s) !! h = Some x -> h_class (wish x) <> [] ->
  CL.event_of c = (CL.NewEntry, Some e) -> Expected s x ((CL.NewEntry, Some e) :: evs) ->
  step_to s h x evs (process_change reg h c)
    (if accepts s (wish x) e && (bool_decide (linked (view x) = []) || (requested_entry (wish x) =? entry_any))
     then mkView (e :: linked (view x)) (Some (default e (stands (view x)))) else view x).
Proof.
  intros HT Hx Hcl Hc HE. unfold CL.event_of in Hc. injection Hc as Hct Hce.
  destruct (e_new _ _ _ HE (Some e) ltac:(left)) as (e1 & u & k & E1 & Hu & Hk). injection E1 as <-.
  destruct (t_entries _ HT e u Hu) as (L & HI). pose proof (lineage_bound _ _ _ Hk) as Hb.
  assert (process_change reg h c s =
    (if bool_decide (h_class (wish x) ∈ k) && wants x u &&
        areClientAndEntryTimingCompatible (time_aspect (wish x)) (eventtype (content u))
     then linkReadClientToEntry h e;; mret true else mret false) s) as Erun.
  { unfold process_change. rewrite (bind_val _ _ _ _ _ (handle_run _ _ _ Hx)), Hct, Hce.
    rewrite (bind_val (of_option _ _) _ s e s) by reflexivity. rewrite (bind_val _ _ _ _ _ (obj_run _ _ _ Hu)).
    by rewrite (bind_val _ _ _ _ _ (isCompatible_run reg _ _ k s Hk Hcl)). }
  rewrite <- (ancestry_lineage _ k (class_fuel reg) Hk) in Erun by (unfold class_fuel; lia).
  rewrite (wants_accepts s x e u Hu) in Erun. unfold step_to. rewrite Erun.
  destruct (_ && _); [|exact (stay_step s h x _ evs HT Hx HE)].
  pose proof (e_once _ _ _ HE) as Hnd. rewrite news_cons, <- Permutation_middle in Hnd.
  pose proof Hnd as Hn2. apply list.NoDup_cons in Hn2 as [Hn2 _].
  assert (e ∉ l_entry <$> class_lead x) as He by (intros He; apply Hn2, elem_of_app; by left).
  pose proof (e_room _ _ _ HE e u Hu) as Hroom. cbn [length] in Hroom.
  destruct (link_run s h x e u L Hx Hu HI ltac:(lia) He) as (s' & kk & cl & c' & E & Hch & Hsame & Hf & HI' & Hnone & Hc' & Hsq & Ha).
  set (l := mkLink _ _ _ _ _) in *. set (x' := set_current _ _) in *.
  assert (l_addr l ∉ l_addr <$> class_lead x) as Hadr.
  { intros (l1 & E1 & Hl1)%list_elem_of_fmap. destruct (t_links _ HT h x l1 Hx Hl1) as [_ Hlt]. cbn in E1. lia. }
  pose proof (changed_kept _ _ _ _ _ _ _ Hu Hch Hsame) as Hkept.
  exists s', x'. split.
  { rewrite (bind_val _ _ _ _ _ E). cbn [linked]. rewrite bool_decide_false; [done|].
    intros El. apply (f_equal length) in El. cbn in El. lia. }
  split; [split|split_and!].
  - eapply link_tidy; eauto.
  - by rewrite (ch_handles _ _ _ _ _ _ Hch), lookup_insert_eq.
  - done.
  - done.
  - apply (ch_version _ _ _ _ _ _ Hch).
  - by apply (view_link s h).
  - done.
  - apply (ch_config _ _ _ _ _ _ Hch).
  - eapply expected_step; [done|exact Hkept|exact Hnd|]. intros e1 u1 u1' H1 H1'.
    rewrite (ch_objs _ _ _ _ _ _ Hch) in H1'.
    apply lookup_insert_Some in H1' as [[<- <-]|[_ H1']]; [|assert (u1' = u1) as -> by congruence; lia].
    assert (u1 = u) as -> by congruence. cbn. rewrite Hc', map_size_insert_None by done. lia.
Qed.

Lemma deleted_step s h x e c evs :
  Tidy s -> handles (readers s) !! h = Some x ->
  CL.event_of c = (CL.DeletedEntry, Some e) -> Expected s x ((CL.DeletedEntry, Some e) :: evs) ->
  match follow_one (wish x) (accepts s (wish x)) (CL.DeletedEntry, Some e) (view x) with
  | Some v => step_to s h x evs (process_change reg h c) v
  | None => process_change reg h c s = (Stuck NullDeref, s)
  end.
Proof.
  intros HT Hx Hc HE. unfold CL.event_of in Hc. injection Hc as Hct Hce.
  assert (process_change reg h c s =
    match class_lead x with [] => mret false | _ => detachReadClientFromEntry h e end s) as Erun.
  { unfold process_change. rewrite (bind_val _ _ _ _ _ (handle_run _ _ _ Hx)), Hct, Hce. by destruct (class_lead x). }
  cbn [follow_one]. destruct (linked (view x)) as [|e0 es] eqn:El.
  { assert (class_lead x = []) as Ecl by (cbn in El; by destruct (class_lead x)).
    unfold step_to. rewrite Erun, Ecl. exact (stay_step s h x _ evs HT Hx HE). }
  assert (process_change reg h c s = detachReadClientFromEntry h e s) as Erun2.
  { rewrite Erun. cbn in El. by destruct (class_lead x). }
  rewrite <- El. clear e0 es El Erun. case_bool_decide as He.
  2: { rewrite Erun2. unfold detachReadClientFromEntry. rewrite (bind_val _ _ _ _ _ (handle_run _ _ _ Hx)).
       by rewrite (find_link_none e (class_lead x) He). }
  destruct (find_link_some e (class_lead x) He) as (pre & el & post & Hf & Hcl & Hel & _).
  assert (el ∈ class_lead x) as Hin by (rewrite Hcl; apply elem_of_app; right; left).
  destruct (t_links _ HT h x el Hx Hin) as [Hok _]. pose proof Hok as (u & cl & Hu & Hclu & _). rewrite Hel in Hu.
  destruct (t_entries _ HT e u Hu) as (L & HI).
  destruct (detach_run s h x e u L pre el post Hx Hf Hel Hu HI Hok) as (s' & c' & cs & E & Hch & Hsame & HI' & Hc' & Hcs).
  set (x' := set_current _ _) in *.
  pose proof (changed_kept _ _ _ _ _ _ _ Hu Hch Hsame) as Hkept.
  pose proof (view_detach s h x pre el post HT Hx Hcl) as Hv. rewrite Hel in Hv. fold x' in Hv.
  exists s', x'. split.
  { rewrite Erun2, E. rewrite bool_decide_false; [done|]. intros Eq. apply (f_equal (fun l => e ∈ l)) in Eq.
    cbn in Eq. assert (e ∈ filter (fun y => y <> e) (l_entry <$> class_lead x)) as Hm by by rewrite Eq.
    by apply list_elem_of_filter in Hm as [Hm _]. }
  split; [split|split_and!].
  - eapply detach_tidy; eauto.
  - by rewrite (ch_handles _ _ _ _ _ _ Hch), lookup_insert_eq.
  - done.
  - done.
  - apply (ch_version _ _ _ _ _ _ Hch).
  - done.
  - done.
  - apply (ch_config _ _ _ _ _ _ Hch).
  - eapply expected_step; [done|exact Hkept| |].
    + pose proof (e_once _ _ _ HE) as Hnd. rewrite news_cons, Hcl, fmap_app, fmap_cons, <- Permutation_middle in Hnd.
      cbn. rewrite fmap_app. by apply list.NoDup_cons in Hnd as [_ Hnd].
    + intros e1 u1 u1' H1 H1'. rewrite (ch_objs _ _ _ _ _ _ Hch) in H1'.
      apply lookup_insert_Some in H1' as [[<- <-]|[_ H1']]; [|assert (u1' = u1) as -> by congruence; lia].
      assert (u1 = u) as -> by congruence. cbn. rewrite Hc', map_size_delete_Some by eauto. lia.
Qed.

Lemma stepped_trans s1 s2 s3 h x y z : stepped s1 s2 h x y -> stepped s2 s3 h y z -> stepped s1 s3 h x z.
Proof.
  intros [A1 A2 (A3 & A4 & A5) A6 A7] [B1 B2 (B3 & B4 & B5) B6 B7]. split; try congruence.
  - unfold same_handle. split_and!; congruence.
  - by eapply kept_trans.
Qed.

(** ** Loops *)

(** The reader [h] has handled [i] of the changes [l]. *)
Record At (s : E) (h : nat) (x : Handle) (l spare : list nat) (at_ : gmap nat nat) (i : nat) : Prop := {
  a_tidy : Tidy s;
  a_list : CL.Inv (config s) l spare at_;
  a_at : at_ !! h = Some i;
  a_handle : handles (readers s) !! h = Some x;
  a_pointer : config_change x = CL.pointer (config s) l i;
  a_class : h_class (wish x) <> []
}.

Definition same_list (c c' : CL.ChangeList) : Prop :=
  CL.latest c' = CL.latest c /\ CL.event_of <$> CL.nodes c' = CL.event_of <$> CL.nodes c.

Lemma same_list_pointer c c' l i : same_list c c' -> CL.pointer c' l i = CL.pointer c l i.
Proof. intros [E _]. unfold CL.pointer. by rewrite E. Qed.

Lemma tidy_handle s s' h x x' :
  Tidy s -> handles (readers s) !! h = Some x -> web s' = web s -> fresh s' = fresh s ->
  handles (readers s') = <[h:=x']> (handles (readers s)) -> class_lead x' = class_lead x ->
  current x' = current x -> Tidy s'.
Proof.
  intros [Te Tl Ta To Tc] Hx Hw Hf Hh Hcl Hcu.
  assert (forall h1 x1, handles (readers s') !! h1 = Some x1 -> exists x2,
    handles (readers s) !! h1 = Some x2 /\ class_lead x1 = class_lead x2 /\ current x1 = current x2) as Hs.
  { intros h1 x1. rewrite Hh. intros [[<- <-]|[_ H1]]%lookup_insert_Some; eauto. }
  split; unfold link_ok; rewrite ?Hw, ?Hf.
  - exact Te.
  - intros h1 x1 l1 H1 Hl. destruct (Hs h1 x1 H1) as (x2 & H2 & E & _). rewrite E in Hl. by apply (Tl h1 x2).
  - intros h1 x1 l1 h2 x2 l2 H1 Hl1 H2 Hl2. destruct (Hs h1 x1 H1) as (y1 & G1 & E1 & _), (Hs h2 x2 H2) as (y2 & G2 & E2 & _).
    rewrite E1 in Hl1. rewrite E2 in Hl2. by eapply Ta.
  - intros h1 x1 H1. destruct (Hs h1 x1 H1) as (x2 & H2 & E & _). rewrite E. by eapply To.
  - intros h1 x1 a H1 Ha. destruct (Hs h1 x1 H1) as (x2 & H2 & E & Ec). rewrite E. eapply Tc; [done|congruence].
Qed.

Lemma mark_run s h x l spare at_ i :
  At s h x l spare at_ i -> (i < length l)%nat ->
  exists s' c, let x' := set_config_change (CL.pointer (config s) l (S i)) x in
    CL.nodes (config s) !! config_change x = Some c /\
    CL.events (CL.nodes (config s)) (drop i l) = CL.event_of c :: CL.events (CL.nodes (config s)) (drop (S i) l) /\
    mark_handled h s = (Val tt, s') /\ At s' h x' l spare (<[h:=S i]> at_) (S i) /\
    stepped s s' h x x' /\ same_list (config s) (config s') /\ web s' = web s.
Proof.
  intros [HT HI Ha Hx Hp Hcl] Hi.
  destruct (CL.handle_step _ _ _ _ _ _ HI Ha Hi) as (c & Hc & Hev).
  destruct (CL.markHandled_run _ _ _ _ _ _ HI Ha Hi) as (cf & c' & _ & E & HI' & El & Ee).
  set (x' := set_config_change _ x). set (s' := with_handle h x' (set_config cf s)).
  exists s', c. cbn zeta. split; [by rewrite Hp|]. split; [done|].
  assert (handles (readers s') !! h = Some x') as Hx' by apply lookup_insert_eq.
  assert (Tidy s') as HT' by by apply (tidy_handle s s' h x x').
  split; [|split; [|split; [|done]]].
  - unfold mark_handled. rewrite (bind_val _ _ _ _ _ (handle_run _ _ _ Hx)).
    rewrite (bind_val (on_config _) _ _ (Some (CL.pointer (config s) l (S i))) (set_config cf s)); [reflexivity|].
    unfold on_config. by rewrite Hp, E.
  - split; [done|exact HI'|by rewrite lookup_insert_eq|done| |done].
    cbn. unfold CL.pointer. by rewrite El.
  - split; [done|done|done| |done]. split; try done; eauto using same_entry_refl.
    intros h' Hn. cbn. by rewrite lookup_insert_ne by done.
Qed.

Lemma at_end s h x l spare at_ i :
  At s h x l spare at_ i -> (i <= length l)%nat /\
  bool_decide (config_change x = CL.latest (config s)) = bool_decide (i = length l).
Proof.
  intros [HT HI Ha Hx Hp Hcl]. pose proof (CL.i_at _ _ _ _ HI h i Ha) as Hi. split; [done|].
  apply bool_decide_ext. rewrite Hp. by apply (CL.pointer_latest _ _ _ _ i HI).
Qed.

Lemma same_list_events c c' l : same_list c c' -> CL.events (CL.nodes c') l = CL.events (CL.nodes c) l.
Proof. intros [_ E]. by apply CL.events_fmap. Qed.
Lemma same_list_refl c : same_list c c.
Proof. done. Qed.
Lemma same_list_trans c1 c2 c3 : same_list c1 c2 -> same_list c2 c3 -> same_list c1 c3.
Proof. unfold same_list. intuition congruence. Qed.

Lemma expected_same s s' x x' evs :
  web s' = web s -> class_lead x' = class_lead x -> Expected s x evs -> Expected s' x' evs.
Proof. intros Ew Ec [? ? ? ?]. split; rewrite ?Ew, ?Ec; done. Qed.

(** The loop [m] brings the reader from [i] to some [j] with the changes [evs] left. *)
Definition skips (s : E) (h : nat) (x : Handle) (l spare : list nat) (at_ : gmap nat nat)
    (evs : list CL.event) (m : M E unit) : Prop :=
  exists s' x' j, m s = (Val tt, s') /\ At s' h x' l spare (<[h:=j]> at_) j /\
    stepped s s' h x x' /\ same_list (config s) (config s') /\
    (class_lead x' = class_lead x /\ current x' = current x) /\
    CL.events (CL.nodes (config s')) (drop j l) = evs /\ Expected s' x' evs.

Lemma skips_none s h x l spare at_ i :
  At s h x l spare at_ i -> Expected s x (CL.events (CL.nodes (config s)) (drop i l)) ->
  skips s h x l spare at_ (CL.events (CL.nodes (config s)) (drop i l)) (mret tt).
Proof.
  intros HA HE. exists s, x, i. rewrite (insert_id at_) by apply (a_at _ _ _ _ _ _ _ HA).
  split_and!; try done. apply stepped_refl; apply HA.
Qed.

Lemma skip_run : forall n fuel s h x l spare at_ i,
  n = (length l - i)%nat -> (n < fuel)%nat -> At s h x l spare at_ i ->
  Expected s x (CL.events (CL.nodes (config s)) (drop i l)) ->
  skips s h x l spare at_ (relevant (wish x) (view x) (CL.events (CL.nodes (config s)) (drop i l)))
    (skip_others fuel h).
Proof.
  induction n as [|n IH]; intros [|fuel] s h x l spare at_ i Hn Hf HA HE; try lia;
    destruct (at_end _ _ _ _ _ _ _ HA) as [Hi Hend]; pose proof (a_handle _ _ _ _ _ _ _ HA) as Hx;
    pose proof (skips_none _ _ _ _ _ _ _ HA HE) as Hstop; unfold skips; cbn [skip_others];
    rewrite (bind_val _ _ _ _ _ (handle_run _ _ _ Hx)), (bind_val get _ s s s) by reflexivity;
    rewrite Hend; unfold relevant; cbn [linked view]; revert Hstop; unfold skips;
    (destruct (class_lead x) as [|l0 ls] eqn:Ecl; intros Hstop; [exact Hstop|]); cbn [fmap list_fmap].
  - rewrite bool_decide_true by lia. rewrite drop_ge in * by lia. cbn [negb andb].
    by destruct (requested_entry (wish x) <=? entry_bylabel).
  - rewrite bool_decide_false by lia. cbn [negb andb].
    destruct (requested_entry (wish x) <=? entry_bylabel) eqn:Er; [|exact Hstop].
    destruct (mark_run _ _ _ _ _ _ _ HA ltac:(lia)) as (s1 & c & Hc & Hev & E1 & HA1 & Hst & Hsl & Hw).
    rewrite (bind_val (on_config _) _ s c s).
    2: { unfold on_config. rewrite (CL.node_run _ _ _ Hc). by destruct s. }
    rewrite Hev. cbn [skip_to snd CL.event_of].
    destruct (bool_decide (CL.c_entry c = Some (l_entry l0))); [rewrite Hev in Hstop; exact Hstop|].
    rewrite (bind_val _ _ _ _ _ E1), <- (same_list_events _ _ (drop (S i) l) Hsl).
    destruct (IH fuel s1 h _ l spare _ (S i) ltac:(lia) ltac:(lia) HA1) as
      (s2 & x2 & j & E2 & HA2 & Hst2 & Hsl2 & [Hcl2 Hcu2] & Hev2 & HE2).
    { apply (expected_same s s1 x); [exact Hw|done|]. rewrite (same_list_events _ _ _ Hsl).
      apply (expected_tail s x (CL.event_of c)). by rewrite <- Hev. }
    rewrite insert_insert_eq in HA2. unfold relevant in Hev2, HE2.
    cbn [linked view class_lead set_config_change wish] in Hev2, HE2, Hcl2, Hcu2.
    rewrite Ecl in Hev2, HE2, Hcl2. cbn [fmap list_fmap] in Hev2, HE2. rewrite Er in Hev2, HE2.
    exists s2, x2, j. split_and!; [done|done|by eapply stepped_trans|by eapply same_list_trans|congruence|done|done|done].
Qed.

Lemma follow_ext w acc acc' evs v b : (forall e, acc' e = acc e) -> follow w acc' evs v b = follow w acc evs v b.
Proof.
  intros Ha. revert v b. induction evs as [|[ct o] evs IH]; intros v b; [done|]. cbn [follow].
  assert (follow_one w acc' (ct, o) v = follow_one w acc (ct, o) v) as ->.
  { unfold follow_one. destruct ct, o; try done. by rewrite Ha. }
  destruct (follow_one _ _ _ _); [apply IH|done].
Qed.

(** What the second loop does with the changes that are left. *)
Definition follows (s : E) (h : nat) (x : Handle) (l spare : list nat) (at_ : gmap nat nat)
    (o : option (View * bool)) (m : M E bool) : Prop :=
  match o with
  | Some (v, b) => exists s' x', m s = (Val b, s') /\ stepped s s' h x x' /\ view x' = v /\
      At s' h x' l spare (<[h:=length l]> at_) (length l) /\ same_list (config s) (config s')
  | None => exists s', m s = (Stuck NullDeref, s')
  end.

Lemma process_run : forall n fuel s h x l spare at_ i b,
  n = (length l - i)%nat -> (n < fuel)%nat -> At s h x l spare at_ i ->
  Expected s x (CL.events (CL.nodes (config s)) (drop i l)) ->
  follows s h x l spare at_
    (follow (wish x) (accepts s (wish x)) (CL.events (CL.nodes (config s)) (drop i l)) (view x) b)
    (process_changes reg fuel h b).
Proof.
  induction n as [|n IH]; intros [|fuel] s h x l spare at_ i b Hn Hf HA HE; try lia;
    destruct (at_end _ _ _ _ _ _ _ HA) as [Hi Hend]; pose proof HA as [HT HI Ha Hx Hp Hcl].
  - assert (i = length l) as -> by lia. rewrite drop_all. cbn [CL.events omap list_omap follow follows].
    exists s, x. rewrite (insert_id at_) by done. split_and!; [|by apply stepped_refl|done|done|done].
    cbn [process_changes]. rewrite (bind_val _ _ _ _ _ (handle_run _ _ _ Hx)), (bind_val get _ s s s) by reflexivity.
    by rewrite Hend, bool_decide_true.
  - destruct (CL.handle_step _ _ _ _ _ _ HI Ha ltac:(lia)) as (c & Hc & Hev). rewrite <- Hp in Hc.
    assert (process_changes reg (S fuel) h b s =
      (r ← process_change reg h c; mark_handled h;; process_changes reg fuel h (r || b)) s) as Erun.
    { cbn [process_changes]. rewrite (bind_val _ _ _ _ _ (handle_run _ _ _ Hx)), (bind_val get _ s s s) by reflexivity.
      rewrite Hend, bool_decide_false by lia. rewrite (bind_val (on_config _) _ s c s); [done|].
      unfold on_config. rewrite (CL.node_run _ _ _ Hc). by destruct s. }
    rewrite Hev in HE |- *. destruct (CL.event_of c) as [ct o] eqn:Eev.
    assert (match follow_one (wish x) (accepts s (wish x)) (ct, o) (view x) with
      | Some v => step_to s h x (CL.events (CL.nodes (config s)) (drop (S i) l)) (process_change reg h c) v
      | None => process_change reg h c s = (Stuck NullDeref, s) end) as Hone.
    { destruct ct.
      - destruct (e_new _ _ _ HE o ltac:(left)) as (e & u & k & -> & _). by apply new_step.
      - destruct (e_del _ _ _ HE o ltac:(left)) as (e & ->). by apply deleted_step.
      - pose proof (stay_step s h x _ _ HT Hx HE) as Hst. unfold step_to in *.
        unfold CL.event_of in Eev. injection Eev as Ect _. unfold process_change.
        cbn [follow_one]. by rewrite (bind_val _ _ _ _ _ (handle_run _ _ _ Hx)), Ect. }
    cbn [follow]. destruct (follow_one _ _ _ _) as [v|].
    2: { exists s. rewrite Erun. unfold mbind, M_bind. by rewrite Hone. }
    destruct Hone as (s1 & x1 & E1 & Hst1 & Hv1 & Hcc1 & Hcf1 & HE1).
    assert (At s1 h x1 l spare at_ i) as HA1.
    { destruct Hst1 as [T1 H1 (W1 & _) _ _]. split; try done; rewrite ?Hcf1, ?Hcc1, ?W1; done. }
    destruct (mark_run _ _ _ _ _ _ _ HA1 ltac:(lia)) as (s2 & c2 & _ & _ & E2 & HA2 & Hst2 & Hsl2 & Hw2).
    cbn [mbind option_bind option_bind]. rewrite Hcf1 in *.
    set (x2 := set_config_change _ x1) in *.
    pose proof (IH fuel s2 h x2 l spare _ (S i) (negb (bool_decide (linked v = linked (view x))) || b)
      ltac:(lia) ltac:(lia) HA2) as Hrest.
    rewrite (same_list_events _ _ _ Hsl2) in Hrest.
    specialize (Hrest ltac:(apply (expected_same s1 s2 x1); [exact Hw2|done|exact HE1])).
    assert (follow (wish x2) (accepts s2 (wish x2)) = follow (wish x) (accepts s2 (wish x))) as Ew.
    { destruct Hst1 as [_ _ (W1 & _) _ _]. cbn. by rewrite W1. }
    rewrite Ew in Hrest. rewrite (follow_ext _ (accepts s (wish x))) in Hrest.
    2: { intros e. rewrite (kept_accepts s1 s2 h) by apply Hst2. by rewrite (kept_accepts s s1 h) by apply Hst1. }
    change (view x2) with (view x1) in Hrest. rewrite Hv1 in Hrest.
    unfold follows in *. destruct (follow _ _ _ _ _) as [[v' b']|].
    + destruct Hrest as (s3 & x3 & E3 & Hst3 & Hv3 & HA3 & Hsl3). rewrite insert_insert_eq in HA3.
      exists s3, x3. split_and!; [|eapply stepped_trans; [exact Hst1|]; eapply stepped_trans; [exact Hst2|exact Hst3]|done|done|].
      * rewrite Erun, (bind_val _ _ _ _ _ E1), (bind_val _ _ _ _ _ E2). exact E3.
      * eapply same_list_trans; [exact Hsl2|exact Hsl3].
    + destruct Hrest as (s3 & E3). exists s3. rewrite Erun, (bind_val _ _ _ _ _ E1), (bind_val _ _ _ _ _ E2). exact E3.
Qed.

(** ** The queue of each reader *)

(** [q] has the changes that wait for each reader. *)
Definition Queues (s : E) (q : gmap nat (list CL.event)) : Prop :=
  exists l spare at_, CL.Inv (config s) l spare at_ /\
    q = (fun i => CL.events (CL.nodes (config s)) (drop i l)) <$> at_ /\
    forall h i, at_ !! h = Some i -> exists x, handles (readers s) !! h = Some x /\
      config_change x = CL.pointer (config s) l i.

Lemma queues_at s q h x evs :
  Tidy s -> Queues s q -> q !! h = Some evs -> handles (readers s) !! h = Some x -> h_class (wish x) <> [] ->
  exists l spare at_ i, At s h x l spare at_ i /\ evs = CL.events (CL.nodes (config s)) (drop i l) /\
    forall s' x', At s' h x' l spare (<[h:=length l]> at_) (length l) -> same_list (config s) (config s') ->
      kept s s' h -> Queues s' (<[h:=[]]> q).
Proof.
  intros HT (l & spare & at_ & HI & -> & Hp) Hq Hx Hc. rewrite lookup_fmap in Hq.
  apply fmap_Some in Hq as (i & Hi & ->). destruct (Hp h i Hi) as (x1 & Hx1 & Hpx).
  assert (x1 = x) as -> by congruence. exists l, spare, at_, i. split; [by split|]. split; [done|].
  intros s' x' [HT' HI' Ha' Hx' Hp' _] Hsl Hk. exists l, spare, (<[h:=length l]> at_). split; [done|]. split.
  - rewrite fmap_insert, drop_all. f_equal. apply map_fmap_ext. intros h' j _.
    by rewrite (same_list_events _ _ _ Hsl).
  - intros h' j [[<- <-]|[Hne Hj]]%lookup_insert_Some; [by exists x'|].
    destruct (Hp h' j Hj) as (y & Hy & Hpy). exists y. split; [by rewrite (k_others _ _ _ Hk) by done|].
    by rewrite (same_list_pointer _ _ _ _ Hsl).
Qed.

Lemma follow_refresh_run s q h x evs :
  Tidy s -> Queues s q -> q !! h = Some evs -> handles (readers s) !! h = Some x -> h_class (wish x) <> [] ->
  Expected s x evs ->
  match follow (wish x) (accepts s (wish x)) (relevant (wish x) (view x) evs) (view x) false with
  | Some (v, changes) => exists s' x',
      refreshClientHandleInner reg h s = (Val (bool_decide (is_Some (stands v))), s') /\
      Tidy s' /\ Queues s' (<[h:=[]]> q) /\ handles (readers s') !! h = Some x' /\ view x' = v /\
      same_handle x x' /\ kept s s' h /\
      config_version s' = if (changes : bool) then u32 (config_version s + 1) else config_version s
  | None => exists s', refreshClientHandleInner reg h s = (Stuck NullDeref, s')
  end.
Proof.
  intros HT HQ Hq Hx Hc HE. destruct (queues_at s q h x evs HT HQ Hq Hx Hc) as (l & spare & at_ & i & HA & -> & Hback).
  pose proof (CL.length_nodes _ _ _ _ (a_list _ _ _ _ _ _ _ HA)) as Hlen.
  destruct (skip_run (length l - i) (change_fuel s) s h x l spare at_ i eq_refl ltac:(unfold change_fuel; lia) HA HE)
    as (s1 & x1 & j & E1 & HA1 & Hst1 & Hsl1 & [Hcl1 Hcu1] & Hev1 & HE1).
  pose proof (process_run (length l - j) (change_fuel s) s1 h x1 l spare _ j false eq_refl
    ltac:(unfold change_fuel; lia) HA1 ltac:(by rewrite Hev1)) as Hrun.
  assert (view x1 = view x) as Ev by (unfold view, current_links; by rewrite Hcl1, Hcu1).
  rewrite Hev1, Ev, (proj1 (sp_same _ _ _ _ _ Hst1)) in Hrun.
  rewrite (follow_ext _ (accepts s (wish x))) in Hrun by (intros e; by apply kept_accepts with h, Hst1).
  unfold refreshClientHandleInner. rewrite (bind_val get _ s s s) by reflexivity. rewrite (bind_val _ _ _ _ _ E1).
  unfold follows in Hrun. destruct (follow _ _ _ _ _) as [[v b]|].
  2: { destruct Hrun as (s2 & E2). exists s2. unfold mbind, M_bind. by rewrite E2. }
  destruct Hrun as (s2 & x2 & E2 & Hst2 & Hv2 & HA2 & Hsl2). rewrite insert_insert_eq in HA2.
  rewrite (bind_val _ _ _ _ _ E2). pose proof (stepped_trans _ _ _ _ _ _ _ Hst1 Hst2) as [T2 H2 S2 K2 V2].
  pose proof (Hback s2 x2 HA2 (same_list_trans _ _ _ Hsl1 Hsl2) K2) as HQ2.
  set (s3 := if b then set_config_version (u32 (config_version s2 + 1)) s2 else s2).
  exists s3, x2. assert (web s3 = web s2 /\ readers s3 = readers s2 /\ config s3 = config s2 /\ fresh s3 = fresh s2 /\
    (station s3, writings s3, mail s3) = (station s2, writings s2, mail s2)) as (Ew & Er & Ecf & Ef & Eo)
    by by unfold s3; destruct b.
  injection Eo as Eo1 Eo2 Eo3. split_and!.
  - rewrite (bind_val _ _ _ tt s3) by (unfold s3; by destruct b).
    rewrite (bind_val _ _ s3 x2 s3) by (apply handle_run; by rewrite Er).
    unfold mret, M_ret. do 2 f_equal. apply bool_decide_ext. rewrite <- Hv2. symmetry. by apply (stands_current s2 h).
  - destruct T2 as [Te Tl Ta To Tc]. split; unfold link_ok; rewrite ?Ew, ?Er, ?Ef; done.
  - unfold Queues. by rewrite Ecf, Er.
  - by rewrite Er.
  - done.
  - done.
  - destruct K2 as [A1 A2 A3 A4 A5 A6]. split; rewrite ?Ew, ?Er, ?Eo1, ?Eo2, ?Eo3; done.
  - unfold s3. destruct b; cbn; by rewrite V2.
Qed.

(** ** Properties *)

(** C17: A reader that refreshes its links follows the changes that wait for
    it, one by one: it is linked to each new entry it asked for (one, or all),
    let go from a deleted entry, and stands at the next one when the entry it
    stood at goes. Nothing waits for it then, the entries and it agree on the
    links, other readers and their queues are as before. The one failure is
    the use of a null pointer, when an entry is deleted that a linked
    reader is not linked to. *)
Theorem refresh_follows s q h x evs :
  Tidy s -> Queues s q -> q !! h = Some evs -> handles (readers s) !! h = Some x -> h_class (wish x) <> [] ->
  Expected s x evs ->
  match follow (wish x) (accepts s (wish x)) (relevant (wish x) (view x) evs) (view x) false with
  | Some (v, changes) => exists s' x',
      refreshClientHandleInner reg h s = (Val (bool_decide (is_Some (stands v))), s') /\
      Tidy s' /\ Queues s' (<[h:=[]]> q) /\ handles (readers s') !! h = Some x' /\ view x' = v /\
      same_handle x x' /\ kept s s' h /\
      config_version s' = if (changes : bool) then u32 (config_version s + 1) else config_version s
  | None => exists s', refreshClientHandleInner reg h s = (Stuck NullDeref, s')
  end.
Proof. apply follow_refresh_run. Qed.

Lemma follow_stray w acc e e' mid post v b :
  linked v = [e] -> requested_entry w <> entry_any -> (CL.DeletedEntry, Some e) ∉ mid -> e' <> e ->
  follow w acc (mid ++ (CL.DeletedEntry, Some e') :: post) v b = None.
Proof.
  intros Hv Hw Hm He. revert b. induction mid as [|[ct o] mid IH]; intros b; cbn [app follow].
  - cbn [follow_one]. rewrite Hv, bool_decide_false; [done|]. by intros ->%list_elem_of_singleton.
  - apply not_elem_of_cons in Hm as [Hne Hm]. specialize (IH Hm).
    assert (follow_one w acc (ct, o) v = Some v \/ follow_one w acc (ct, o) v = None) as [->| ->]; [|apply IH|done].
    destruct ct, o as [e1|]; cbn [follow_one]; try by left.
    + rewrite Hv, bool_decide_false by done. destruct (Z.eqb_spec (requested_entry w) entry_any); [done|].
      rewrite andb_false_r. by left.
    + rewrite Hv. case_bool_decide as H1; [|by right]. apply list_elem_of_singleton in H1 as ->. done.
Qed.

(** A reader of a single entry, not linked yet, for which the
    appearance of its entry waits and then the deletion of any other entry of the
    channel, uses a null pointer when it refreshes. *)
Theorem stray_deletion s q h x e mid e' post :
  Tidy s -> Queues s q -> handles (readers s) !! h = Some x -> h_class (wish x) <> [] ->
  q !! h = Some ((CL.NewEntry, Some e) :: mid ++ (CL.DeletedEntry, Some e') :: post) ->
  Expected s x ((CL.NewEntry, Some e) :: mid ++ (CL.DeletedEntry, Some e') :: post) ->
  class_lead x = [] -> requested_entry (wish x) <> entry_any -> accepts s (wish x) e = true ->
  (CL.DeletedEntry, Some e) ∉ mid -> e' <> e ->
  exists s', refreshClientHandleInner reg h s = (Stuck NullDeref, s').
Proof.
  intros HT HQ Hx Hc Hq HE Hcl Hw Ha Hm He.
  pose proof (follow_refresh_run s q h x _ HT HQ Hq Hx Hc HE) as Hr.
  unfold relevant in Hr. cbn [linked view] in Hr. rewrite Hcl in Hr.
  cbn [fmap list_fmap follow follow_one linked view] in Hr. rewrite Ha in Hr.
  cbn [andb] in Hr. rewrite Hcl in Hr. cbn [fmap list_fmap] in Hr. rewrite bool_decide_true in Hr by done.
  cbn [orb mbind option_bind] in Hr. by rewrite (follow_stray _ _ e) in Hr.
Qed.

End WithBuild.

(** A reader of an end, two entries that come, of which the second goes. *)
Definition ex_reg : Registry := {[ txt "Base" := [] ]}.
Definition ex_wish (requested : Z) : Wish :=
  mkWish (txt "Base") (txt "a") requested ReadAllData AnyTimeAspect 0 0 0 false.
Definition ex_conf (id : Z) (label : text) : UChannelCommRequest :=
  mkReq NewEntryConf 1 id (258 + 256 * id) (mkId 2 5) (txt "Base") label.
Definition ex_run (requested : Z) : M E unit :=
  _ ← addReadToken (H:=test_config) ex_reg (ex_wish requested);
  newEntryConf (H:=test_config) ex_reg (fun _ => mret tt) 1 (ex_conf 0 (txt "a"));;
  newEntryConf (H:=test_config) ex_reg (fun _ => mret tt) 1 (ex_conf 1 (txt "b"));;
  invalidateEntryCmd (H:=test_config) (short InvalidateEntryCmd 1 0).
Definition ex_state (requested : Z) : E := snd (ex_run requested (make 1)).

Definition ex_events : list CL.event :=
  [(CL.NewEntry, Some 1%nat); (CL.NewEntry, Some 2%nat); (CL.DeletedEntry, Some 2%nat)].
Definition ex_handle (requested : Z) : Handle := mkHandle (mkWish (txt "Base") (txt "a") requested ReadAllData
  AnyTimeAspect 0 0 257 false) None 0 [] None 1.

Definition ex_list : CL.ChangeList :=
  CL.mkList {[ 0%nat := CL.mkChange CL.NewEntry 1 (Some 1%nat) (Some 1%nat);
               1%nat := CL.mkChange CL.NewEntry 1 (Some 2%nat) (Some 2%nat);
               2%nat := CL.mkChange CL.DeletedEntry 1 (Some 2%nat) (Some 3%nat);
               3%nat := CL.mkChange CL.Sentinel 0 None None ]} 0 3 4.

Lemma ex_list_inv : CL.Inv ex_list [0; 1; 2]%nat [] {[ 0%nat := 0%nat ]}.
Proof.
  split.
  - done.
  - intros [|[|[|i]]] p [= <-]; eexists; split_and!; vm_compute; reflexivity.
  - eexists. split; vm_compute; reflexivity.
  - done.
  - apply (bool_decide_unpack _). vm_compute. exact I.
  - intros p c Hc. assert (map_Forall (fun k _ => (k < 4)%nat) (CL.nodes ex_list)) as Hm
      by (apply (bool_decide_unpack _); vm_compute; exact I).
    exact (Hm p c Hc).
  - intros h i [<- <-]%lookup_singleton_Some. cbn. lia.
  - done.
Qed.

Definition ex_entry (v : bool) (cid : Z) (label : text) (id : Z) (links : list text) : UEntry :=
  mkUEntry (mkIdent cid (txt "Base") false false label 0) id (mkId 2 5)
    (set_settings 20 1 v (UCE.make true false false 0)) false [] None links.

Definition ex_web : gmap nat UEntry :=
  {[ 1%nat := ex_entry true 258 (txt "a") 0 [txt "Base"]; 2%nat := ex_entry false 514 (txt "b") 1 [] ]}.

Lemma ex_content v : exists L, Inv (set_settings 20 1 v (UCE.make true false false 0)) L [].
Proof.
  destruct (make_implements true false 0 (mkChannel 0 0 true) eq_refl) as [(L & HI) _ _ _ _ _ _].
  exists L. by eapply Inv_core.
Qed.

Lemma ex_web_lookup e u : ex_web !! e = Some u ->
  exists v cid label id links, u = ex_entry v cid label id links.
Proof.
  unfold ex_web. intros [[_ <-]|[_ [_ <-]%lookup_singleton_Some]]%lookup_insert_Some; by do 5 eexists.
Qed.

Lemma ex_ready_of (s : E) r :
  handles (readers s) = {[ 0%nat := ex_handle r ]} -> objs (web s) = ex_web -> config s = ex_list ->
  Tidy s /\ Queues s {[ 0%nat := ex_events ]} /\ Expected ex_reg s (ex_handle r) ex_events.
Proof.
  intros Eh Eo Ec. split_and!.
  - split; rewrite ?Eh, ?Eo.
    + intros e u (v & cid & label & id & links & ->)%ex_web_lookup. apply ex_content.
    + intros h x l [_ <-]%lookup_singleton_Some Hl. destruct (not_elem_of_nil _ Hl).
    + intros h x l h' x' l' [_ <-]%lookup_singleton_Some Hl. destruct (not_elem_of_nil _ Hl).
    + intros h x [_ <-]%lookup_singleton_Some. constructor.
    + by intros h x a [_ <-]%lookup_singleton_Some.
  - exists [0; 1; 2]%nat, [], {[ 0%nat := 0%nat ]}. rewrite Ec. split; [apply ex_list_inv|split].
    + vm_compute. reflexivity.
    + intros h i [<- <-]%lookup_singleton_Some. rewrite Eh, lookup_singleton_eq. by eexists.
  - assert (lineage ex_reg (txt "Base") [txt "Base"]) as Hl by (constructor; vm_compute; [done|reflexivity]).
    split; rewrite ?Eo.
    + unfold ex_events. intros o. rewrite !elem_of_cons. intros [E|[E|[E|E]]].
      * injection E as ->. eexists _, _, _. split_and!; [reflexivity|reflexivity|exact Hl].
      * injection E as ->. eexists _, _, _. split_and!; [reflexivity|reflexivity|exact Hl].
      * discriminate E.
      * destruct (not_elem_of_nil _ E).
    + unfold ex_events. intros o. rewrite !elem_of_cons. intros [E|[E|[E|E]]]; [discriminate E|discriminate E| |].
      * injection E as ->. by eexists.
      * destruct (not_elem_of_nil _ E).
    + apply (bool_decide_unpack _). vm_compute. exact I.
    + intros e u (v & cid & label & id & links & ->)%ex_web_lookup. done.
Qed.

Lemma ex_ready r : r = entry_any \/ r = entry_bylabel ->
  Tidy (ex_state r) /\ Queues (ex_state r) {[ 0%nat := ex_events ]} /\
  handles (readers (ex_state r)) !! 0%nat = Some (ex_handle r) /\
  Expected ex_reg (ex_state r) (ex_handle r) ex_events.
Proof.
  intros Hr. assert (handles (readers (ex_state r)) = {[ 0%nat := ex_handle r ]} /\
    objs (web (ex_state r)) = ex_web /\ config (ex_state r) = ex_list) as (Eh & Eo & Ec).
  { destruct Hr as [-> | ->]; (split; [|split]); vm_compute; reflexivity. }
  destruct (ex_ready_of _ _ Eh Eo Ec) as (H1 & H2 & H3). split_and!; [done|done| |done].
  by rewrite Eh, lookup_singleton_eq.
Qed.

Lemma refresh_follows_witness : exists s' x',
  refreshClientHandleInner (H:=test_config) ex_reg 0 (ex_state entry_any) = (Val true, s') /\
  Queues s' {[ 0%nat := [] ]} /\ handles (readers s') !! 0%nat = Some x' /\ view x' = mkView [1%nat] (Some 1%nat).
Proof.
  destruct (ex_ready entry_any ltac:(by left)) as (HT & HQ & Hx & HE).
  assert (h_class (wish (ex_handle entry_any)) <> []) as Hc by by vm_compute.
  assert (follow (wish (ex_handle entry_any)) (accepts ex_reg (ex_state entry_any) (wish (ex_handle entry_any)))
    (relevant (wish (ex_handle entry_any)) (view (ex_handle entry_any)) ex_events) (view (ex_handle entry_any)) false
    = Some (mkView [1%nat] (Some 1%nat), true)) as Ef by (vm_compute; reflexivity).
  pose proof (refresh_follows (H:=test_config) ex_reg _ _ 0 (ex_handle entry_any) ex_events HT HQ
    (lookup_singleton_eq _ _) Hx Hc HE) as Hr.
  rewrite Ef in Hr. destruct Hr as (s' & x' & E & _ & HQ' & Hx' & Hv & _).
  cbn [stands] in E. rewrite bool_decide_true in E by by eexists. rewrite insert_singleton_eq in HQ'.
  exists s', x'. split; [exact E|]. split; [exact HQ'|]. split; [exact Hx'|exact Hv].
Defined.

Lemma stray_deletion_witness : exists s',
  refreshClientHandleInner (H:=test_config) ex_reg 0 (ex_state entry_bylabel) = (Stuck NullDeref, s').
Proof.
  destruct (ex_ready entry_bylabel ltac:(by right)) as (HT & HQ & Hx & HE).
  apply (stray_deletion (H:=test_config) ex_reg _ _ 0 (ex_handle entry_bylabel) 1 [(CL.NewEntry, Some 2%nat)] 2 [] HT HQ Hx);
    [by vm_compute|by rewrite lookup_singleton_eq|exact HE|done|done|by vm_compute| |done].
  by intros ?%list_elem_of_singleton.
Defined.

End UCF.
