(* ===== verification/ChannelClean.v ===== *)
(** The cleaning of an entry at one end of a channel: [CleanEntryCmd] in
    [updateConfiguration] of [dueca/UnifiedChannel.cxx] and [cleanAllData] of
    [dueca/UChannelEntry.cxx].

    An end confirms when it meets the change for the deletion of the entry
    among those that all its readers have handled, and finds the data
    without latches.  The change is used up by that, whatever the outcome. *)

From S2P Require Import Prelude TimeSpec Transport ChannelEntry ChannelInv ChannelQueues ChannelMsg ChannelMaster ConfigChanges ChannelEnd ChannelFollow.
#[local] Open Scope Z_scope.

Module UCK.
Import UC UCF.

#[local] Existing Instance CL.ConfigEvent_eq_dec.

Section WithBuild.
Context `{BuildConfig}.

(** ** The data of an entry *)

(** The cells [L] are what is left, from [cleanup] on. *)
Definition Chain (u : UEntry) (L : list nat) : Prop :=
  NoDup L /\
  (forall i p, L !! i = Some p -> exists c, cells (content u) !! p = Some c /\ newer c = L !! S i) /\
  (if cleaned u then L = [] else head L = Some (cleanup (content u))).

(** What is left after the cells without latches at the front are freed. *)
Fixpoint leftover (m : gmap nat Cell) (L : list nat) : list nat :=
  match L with
  | [] => []
  | p :: L' =>
      match m !! p with
      | Some c => if read_accesses c =? 1 then leftover m L' else L
      | None => L
      end
  end.

Lemma leftover_ext m m' L : (forall p, p ∈ L -> m' !! p = m !! p) -> leftover m' L = leftover m L.
Proof.
  induction L as [|p L IH]; intros Hm; [done|]. cbn [leftover]. rewrite Hm by left.
  rewrite IH; [done|]. intros q Hq. apply Hm. by right.
Qed.

Lemma leftover_suffix m L : exists n, leftover m L = drop n L.
Proof.
  induction L as [|p L [n IH]]; [by exists 0%nat|]. cbn [leftover].
  destruct (m !! p) as [c|]; [|by exists 0%nat]. destruct (_ =? _); [by exists (S n)|by exists 0%nat].
Qed.

Lemma final_delete_run p c s :
  cells s !! p = Some c -> read_accesses c = 1 ->
  exists s', Cells.finalDeleteData p s = (Val (bool_decide (is_Some (newer c)), newer c), s') /\
    cells s' = delete p (cells s) /\ eventtype s' = eventtype s.
Proof.
  intros Hc Hr. eexists. split.
  { unfold Cells.finalDeleteData, Cells.tryRecycle. rewrite (bind_val _ _ _ true (reaccess p 0 s)).
    2: { rewrite (bind_val _ _ _ _ _ (cell_run _ _ _ Hc)), Hr. cbn [Z.eqb Pos.eqb].
         by rewrite (bind_val _ _ _ _ _ (set_cell_accesses _ _ _ _ Hc)). }
    assert (cells (reaccess p 0 s) !! p = Some (Cells.with_accesses 0 c)) as Hc2
      by (cbn; by rewrite lookup_alter_eq, Hc).
    rewrite (bind_val _ _ _ _ _ (cell_run _ _ _ Hc2)).
    set (s1 := set_store (cells (reaccess p 0 s)) (ChannelEntry.fresh s) (deleted s ++ [data c]) (reaccess p 0 s)).
    rewrite (bind_val (Cells.delData _) _ _ tt s1) by reflexivity.
    rewrite (bind_val (Cells.free p) _ _ tt (set_store (delete p (cells s1)) (ChannelEntry.fresh s1) (deleted s1) s1)).
    2: { unfold Cells.free. by rewrite (bind_val _ _ _ _ _ (cell_run s1 p _ Hc2)). }
    reflexivity. }
  split; [|done]. cbn. apply map_eq. intros q. destruct (decide (p = q)) as [->|Hne].
  - by rewrite !lookup_delete_eq.
  - by rewrite !lookup_delete_ne, lookup_alter_ne.
Qed.

Definition chained (m : gmap nat Cell) (L : list nat) : Prop :=
  NoDup L /\ forall i p, L !! i = Some p -> exists c, m !! p = Some c /\ newer c = L !! S i.

Lemma clean_from_run fuel : forall s L, chained (cells s) L -> (length L < fuel)%nat ->
  exists s', UCE.clean_from fuel (head L) s = (Val (head (leftover (cells s) L)), s') /\
    chained (cells s') (leftover (cells s) L) /\ eventtype s' = eventtype s /\
    forall q, q ∈ leftover (cells s) L -> cells s' !! q = cells s !! q.
Proof.
  induction fuel as [|fuel IH]; intros s L [Hn Hc] Hf; [lia|]. destruct L as [|p L]; [by exists s|].
  destruct (Hc 0%nat p eq_refl) as (c & Hp & Hnw). cbn [head UCE.clean_from leftover]. rewrite Hp.
  destruct (Z.eqb_spec (read_accesses c) 1) as [Hr|Hr].
  - destruct (final_delete_run p c s Hp Hr) as (s1 & E1 & Hd & Hev). rewrite (bind_val _ _ _ _ _ E1).
    cbn beta iota. cbn [lookup list_lookup] in Hnw.
    apply list.NoDup_cons in Hn as [Hpn Hn].
    assert (forall q, q ∈ L -> cells s1 !! q = cells s !! q) as Hq.
    { intros q Hq. rewrite Hd. apply lookup_delete_ne. by intros ->. }
    rewrite <- (leftover_ext (cells s) (cells s1)) by done.
    destruct (IH s1 L) as (s2 & E2 & Hch2 & Hev2 & Hk2).
    { split; [done|]. intros i q Hi. rewrite Hq by by eapply list_elem_of_lookup_2. by apply (Hc (S i)). }
    { cbn in Hf. lia. }
    exists s2. split; [|split; [done|split; [congruence|]]].
    2: { intros x Hx. rewrite Hk2 by done.
         apply Hq. destruct (leftover_suffix (cells s1) L) as [n En]. rewrite En in Hx. by eapply subseteq_drop. }
    rewrite Hnw.
    destruct L as [|q L]; [|exact E2]. cbn in E2 |- *. destruct fuel; [cbn in Hf; lia|done].
  - exists s. split; [|done]. unfold Cells.finalDeleteData, Cells.tryRecycle.
    rewrite (bind_val _ _ _ (false, Some p) s); [done|].
    rewrite (bind_val _ _ _ false s); [done|].
    rewrite (bind_val _ _ _ _ _ (cell_run _ _ _ Hp)). by destruct (Z.eqb_spec (read_accesses c) 1).
Qed.

Lemma chained_size m L : chained m L -> (length L <= size m)%nat.
Proof.
  intros [Hn Hc]. rewrite <- size_dom, <- (size_list_to_set (C:=gset nat) L) by done. apply subseteq_size.
  intros p (i & Hi)%elem_of_list_to_set%list_elem_of_lookup. apply elem_of_dom.
  destruct (Hc i p Hi) as (c & Hp & _). by exists c.
Qed.

(** One entry is different. *)
Record at_entry (s s' : E) (e : nat) (u' : UEntry) : Prop := {
  ae_objs : objs (web s') = <[e:=u']> (objs (web s));
  ae_web : (entries (web s'), entrymap (web s')) = (entries (web s), entrymap (web s));
  ae_rest : (station s', readers s', writings s', config s', config_version s', mail s', fresh s') =
    (station s, readers s, writings s, config s, config_version s, mail s, fresh s)
}.

Lemma leftover_twice m L : leftover m (leftover m L) = leftover m L.
Proof.
  induction L as [|p L IH]; [done|]. cbn [leftover]. destruct (m !! p) as [c|] eqn:Hp.
  - destruct (read_accesses c =? 1) eqn:Hr; [done|]. cbn [leftover]. by rewrite Hp, Hr.
  - cbn [leftover]. by rewrite Hp.
Qed.

Lemma cleanAllData_run s e u L :
  objs (web s) !! e = Some u -> Chain u L -> let R := leftover (cells (content u)) L in
  exists s' u', cleanAllData e s = (Val (bool_decide (R = [])), s') /\
    at_entry s s' e u' /\ Chain u' R /\ leftover (cells (content u')) R = R /\
    same_entry (set_cleaned (cleaned u') u) u'.
Proof.
  intros Hu (Hn & Hc & Hcl) R. unfold cleanAllData. rewrite (bind_val _ _ _ _ _ (obj_run _ _ _ Hu)).
  destruct (cleaned u) eqn:Ec.
  { subst L. exists s, u. split; [done|]. split.
    - split; [by rewrite insert_id|done|done].
    - split; [by unfold Chain; rewrite Ec|]. split; [done|by destruct u; cbn in *; subst]. }
  pose proof (conj Hn Hc) as Hch. pose proof (chained_size _ _ Hch) as Hsz.
  destruct (clean_from_run (S (size (cells (content u)))) (content u) L Hch ltac:(lia)) as (c' & E & [Hn' Hch'] & Hev & Hk).
  fold R in E, Hn', Hch', Hk.
  assert (leftover (cells c') R = R) as Htw by (rewrite (leftover_ext (cells (content u))) by done; apply leftover_twice).
  rewrite (bind_val _ _ s (head R) (with_obj e (set_content c' u) s)).
  2: { apply on_entry_run; [done|]. rewrite (bind_val get _ (content u) (content u) (content u)) by reflexivity.
       by rewrite <- Hcl. }
  pose proof (with_obj_eq s e (set_content c' u)) as Hu1.
  destruct (head R) as [p|] eqn:Eh.
  - exists (with_obj e (set_content (set_ends p (oldest c') (ChannelEntry.latest c') c') u) s),
      (set_content (set_ends p (oldest c') (ChannelEntry.latest c') c') u).
    assert (R <> []) as HR by (intros HR; by rewrite HR in Eh). rewrite bool_decide_false by done.
    split.
    { rewrite (bind_val (on_entry _ _) _ _ tt (with_obj e (set_content (set_ends p (oldest c') (ChannelEntry.latest c') c') u) s)); [done|].
      erewrite on_entry_run; [|exact Hu1|reflexivity]. unfold with_obj, on_web, set_web, set_objs. cbn. by rewrite insert_insert_eq. }
    split; [by split|]. split; [|split; [exact Htw|unfold same_entry; cbn; split_and!; congruence]].
    split; [done|]. cbn. by rewrite Ec.
  - exists (with_obj e (set_cleaned true (set_content c' u)) s), (set_cleaned true (set_content c' u)).
    assert (R = []) as HR by by destruct R. rewrite bool_decide_true by done. split.
    { rewrite (bind_val (edit_obj _ _) _ _ tt (with_obj e (set_cleaned true (set_content c' u)) s)); [done|].
      rewrite (edit_obj_run _ _ _ _ Hu1). unfold with_obj, on_web, set_web, set_objs. cbn. by rewrite insert_insert_eq. }
    split; [by split|]. split; [|split; [exact Htw|unfold same_entry; cbn; split_and!; congruence]].
    split; [done|]. cbn. done.
Qed.

(** ** The changes that are met *)

(** How many changes at the front no reader waits for. *)
Fixpoint checked (at_ : gmap nat nat) (i n : nat) : nat :=
  match n with
  | O => 0
  | S n => if CL.waiting at_ i =? 0 then S (checked at_ (S i) n) else 0
  end.

Definition deletions (e : nat) (evs : list CL.event) : nat :=
  length (filter (fun ev => ev = (CL.DeletedEntry, Some e)) evs).

Lemma checked_shift at_ i n : (forall h j, at_ !! h = Some j -> (1 <= j)%nat) ->
  checked ((fun i => i - 1)%nat <$> at_) i n = checked at_ (S i) n.
Proof.
  intros Hat. revert i. induction n as [|n IH]; intros i; [done|]. cbn [checked].
  rewrite CL.waiting_shift by done. cbn [Nat.add]. by rewrite IH.
Qed.

Lemma checked_first_run s l spare at_ : CL.Inv s l spare at_ ->
  exists o, CL.checked_first s = (Val o, s) /\
  match l with
  | [] => o = None
  | p :: _ => if CL.waiting at_ 0 =? 0 then o = CL.nodes s !! p /\ is_Some o else o = None
  end.
Proof.
  intros HI. pose proof (CL.i_first _ _ _ _ HI) as Ef. unfold CL.checked_first.
  rewrite (bind_val get _ s s s) by reflexivity. destruct l as [|p l].
  { exists None. by rewrite bool_decide_true. }
  change (CL.pointer s (p :: l) 0) with p in Ef. destruct (CL.in_nodup _ _ _ _ 0%nat p HI eq_refl) as [Hpl _].
  destruct (CL.i_chain _ _ _ _ HI 0%nat p eq_refl) as (c & Hc & _ & Ht).
  rewrite bool_decide_false by congruence. rewrite Ef, (bind_val _ _ _ _ _ (CL.node_run _ _ _ Hc)), Ht, Hc.
  destruct (_ =? 0); eauto.
Qed.

Definition confirmed (m : UChannelCommRequest) : UChannelCommRequest :=
  short CleanEntryConf (data0 m) (data1 m).

(** The end after [n] changes for the deletion of [e] were met, [k] in all. *)
Record cleaned_to (s s' : E) (m : UChannelCommRequest) (e : nat) (u : UEntry) (L l : list nat)
    (at_ : gmap nat nat) (k n : nat) : Prop := {
  cl_list : exists spare, CL.Inv (config s') (drop k l) spare ((fun i => i - k)%nat <$> at_);
  cl_events : CL.event_of <$> CL.nodes (config s') = CL.event_of <$> CL.nodes (config s);
  cl_requests : config_requests (mail s') = config_requests (mail s) ++
    (if bool_decide (leftover (cells (content u)) L = []) then replicate n (confirmed m) else []);
  cl_entry : exists u', objs (web s') = <[e:=u']> (objs (web s)) /\
    Chain u' (if bool_decide (n = 0%nat) then L else leftover (cells (content u)) L);
  cl_rest : (entries (web s'), entrymap (web s'), station s', readers s', writings s', config_version s',
      set_config_requests [] (mail s'), fresh s') =
    (entries (web s), entrymap (web s), station s, readers s, writings s, config_version s,
      set_config_requests [] (mail s), fresh s)
}.

Lemma on_config_run {A} (f : M CL.ChangeList A) s r c : f (config s) = (r, c) -> on_config f s = (r, set_config c s).
Proof. intros E. unfold on_config. by rewrite E. Qed.

Lemma slot_run s id e : entries (web s) !! Z.to_nat id = Some (Some e) -> 0 <= id -> slot id s = (Val (Some e), s).
Proof.
  intros He Hid. unfold slot. rewrite (bind_val get _ s s s) by reflexivity.
  by rewrite (proj2 (Z.leb_le 0 id) Hid), He.
Qed.

Lemma deletions_cons e ev evs : deletions e (ev :: evs) =
  ((if bool_decide (ev = (CL.DeletedEntry, Some e)) then 1 else 0) + deletions e evs)%nat.
Proof. unfold deletions. rewrite list.filter_cons. case_bool_decide; [by rewrite decide_True|by rewrite decide_False]. Qed.

(** What one change does to the entry and to the requests. *)
Definition meet (m : UChannelCommRequest) (c : CL.Change) : M E unit :=
  if bool_decide (CL.changetype c = CL.DeletedEntry) then
    o ← slot (data0 m);
    if bool_decide (CL.c_entry c = o) then
      e ← of_option NullDeref o;
      ok ← cleanAllData e;
      if ok : bool then request (short CleanEntryConf (data0 m) (data1 m)) else mret tt
    else mret tt
  else mret tt.

Lemma meet_run s m e u L c :
  entries (web s) !! Z.to_nat (data0 m) = Some (Some e) -> 0 <= data0 m ->
  objs (web s) !! e = Some u -> Chain u L ->
  let hit := bool_decide (CL.event_of c = (CL.DeletedEntry, Some e)) in
  let R := leftover (cells (content u)) L in
  exists s' u', meet m c s = (Val tt, s') /\
    objs (web s') = <[e:=u']> (objs (web s)) /\ Chain u' (if hit then R else L) /\
    leftover (cells (content u')) (if hit then R else L) = R /\ config s' = config s /\
    config_requests (mail s') = config_requests (mail s) ++
      (if bool_decide (R = []) then if hit then [confirmed m] else [] else []) /\
    (entries (web s'), entrymap (web s'), station s', readers s', writings s', config_version s',
      set_config_requests [] (mail s'), fresh s') =
    (entries (web s), entrymap (web s), station s, readers s, writings s, config_version s,
      set_config_requests [] (mail s), fresh s).
Proof.
  intros He Hid Hu Hch hit R. assert (forall b : bool, (if b then if false then [confirmed m] else [] else []) = []) as Hnil by by intros [].
  unfold meet. destruct (decide (CL.changetype c = CL.DeletedEntry)) as [Et|Et].
  2: { rewrite bool_decide_false by done. assert (hit = false) as -> by (apply bool_decide_false; unfold CL.event_of; congruence).
       exists s, u. rewrite Hnil, app_nil_r, insert_id by done. done. }
  rewrite bool_decide_true by done. rewrite (bind_val _ _ _ _ _ (slot_run _ _ _ He Hid)).
  destruct (decide (CL.c_entry c = Some e)) as [Ee|Ee].
  2: { rewrite bool_decide_false by done. assert (hit = false) as -> by (apply bool_decide_false; unfold CL.event_of; congruence).
       exists s, u. rewrite Hnil, app_nil_r, insert_id by done. done. }
  rewrite bool_decide_true by done. assert (hit = true) as -> by (apply bool_decide_true; unfold CL.event_of; congruence).
  destruct (cleanAllData_run s e u L Hu Hch) as (s1 & u1 & E1 & [Ho Hw Hr] & Hch1 & Htw & _). fold R in E1, Hch1, Htw.
  injection Hw as Hw1 Hw2. injection Hr as R1 R2 R3 R4 R5 R6 R7.
  rewrite (bind_val (of_option _ _) _ s e s) by reflexivity. rewrite (bind_val _ _ _ _ _ E1). case_bool_decide as ER.
  - eexists _, u1. split; [reflexivity|]. cbn. by rewrite Ho, Hw1, Hw2, R1, R2, R3, R4, R5, R6, R7.
  - exists s1, u1. rewrite app_nil_r. by rewrite Ho, Hw1, Hw2, R1, R2, R3, R4, R5, R6, R7.
Qed.

Lemma cleaned_none s m e u L l spare at_ :
  objs (web s) !! e = Some u -> Chain u L -> CL.Inv (config s) l spare at_ -> cleaned_to s s m e u L l at_ 0 0.
Proof.
  intros Hu Hch HI. assert ((fun i => i - 0)%nat <$> at_ = at_) as Hat.
  { rewrite <- (map_fmap_id at_) at 2. apply map_fmap_ext. intros h i _. cbn. lia. }
  split; [exists spare; by rewrite Hat|done|by case_bool_decide; rewrite app_nil_r| |done].
  exists u. by rewrite insert_id by done.
Qed.

Lemma cleaned_step s s1 s2 cf m e u u1 L p l at_ (hit : bool) k n :
  let R := leftover (cells (content u)) L in
  objs (web s1) = <[e:=u1]> (objs (web s)) -> leftover (cells (content u1)) (if hit then R else L) = R ->
  config_requests (mail s1) = config_requests (mail s) ++
    (if bool_decide (R = []) then if hit then [confirmed m] else [] else []) ->
  (entries (web s1), entrymap (web s1), station s1, readers s1, writings s1, config_version s1,
      set_config_requests [] (mail s1), fresh s1) =
    (entries (web s), entrymap (web s), station s, readers s, writings s, config_version s,
      set_config_requests [] (mail s), fresh s) ->
  CL.event_of <$> CL.nodes cf = CL.event_of <$> CL.nodes (config s) ->
  (forall h i, at_ !! h = Some i -> (1 <= i)%nat) ->
  cleaned_to (set_config cf s1) s2 m e u1 (if hit then R else L) l ((fun i => i - 1)%nat <$> at_) k n ->
  cleaned_to s s2 m e u L (p :: l) at_ (S k) ((if hit then 1 else 0) + n).
Proof.
  intros R Ho Htw Hreq Hrest Hev Hpos [(spare & HI) Hev2 Hreq2 (u2 & Ho2 & Hch2) Hrest2]. cbn in *.
  rewrite Htw in Hreq2, Hch2. split; cbn [drop].
  - exists spare. replace ((fun i => i - S k)%nat <$> at_) with ((fun i => i - k)%nat <$> ((fun i => i - 1)%nat <$> at_)); [done|].
    rewrite <- map_fmap_compose. apply map_fmap_ext. intros h i _. cbn. lia.
  - congruence.
  - rewrite Hreq2, Hreq, <- app_assoc. f_equal. fold R.
    destruct (decide (R = [])); [rewrite !bool_decide_true by done|by rewrite !bool_decide_false by done].
    by destruct hit.
  - exists u2. rewrite Ho2, Ho, insert_insert_eq. split; [done|]. fold R.
    destruct hit; cbn [Nat.add]; [|done]. rewrite (bool_decide_false (S n = 0%nat)) by done. by case_bool_decide.
  - congruence.
Qed.

Lemma clean_loop_run m e : forall l fuel s spare at_ u L, (length l < fuel)%nat ->
  entries (web s) !! Z.to_nat (data0 m) = Some (Some e) -> 0 <= data0 m ->
  objs (web s) !! e = Some u -> Chain u L -> CL.Inv (config s) l spare at_ ->
  let k := checked at_ 0 (length l) in
  exists s', clean_loop fuel m s = (Val tt, s') /\
    cleaned_to s s' m e u L l at_ k (deletions e (CL.events (CL.nodes (config s)) (take k l))).
Proof.
  induction l as [|p l IH]; intros [|fuel] s spare at_ u L Hf He Hid Hu Hch HI; try lia;
    destruct (checked_first_run _ _ _ _ HI) as (o & E & Hfst); cbn [length checked];
    pose proof (on_config_run _ _ _ _ E) as E1;
    (assert (set_config (config s) s = s) as Es by by destruct s); rewrite Es in E1; cbn [clean_loop];
    rewrite (bind_val _ _ _ _ _ E1).
  { subst o. exists s. split; [done|]. eapply cleaned_none; eauto. }
  destruct (Z.eqb_spec (CL.waiting at_ 0) 0) as [Hw|Hw].
  2: { subst o. exists s. split; [done|]. eapply cleaned_none; eauto. }
  destruct Hfst as [-> [c Hc]]. rewrite Hc. cbn [take].
  destruct (meet_run s m e u L c He Hid Hu Hch) as (s1 & u1 & E2 & Ho1 & Hch1 & Htw1 & Hcf1 & Hreq1 & Hr1).
  change (if bool_decide (CL.changetype c = CL.DeletedEntry) then _ else _) with (meet m c).
  rewrite (bind_val _ _ _ _ _ E2).
  destruct (CL.recycle_first_run _ _ _ _ _ HI Hw) as (cf & E3 & HI3 & _ & Hev3 & _ & Hpos).
  rewrite <- Hcf1 in E3. rewrite (bind_val _ _ _ _ _ (on_config_run _ _ _ _ E3)).
  pose proof Hr1 as Hr1'. injection Hr1' as W1 W2 _ _ _ _ _ _.
  assert (entries (web (set_config cf s1)) !! Z.to_nat (data0 m) = Some (Some e)) as He1 by (cbn; by rewrite W1).
  assert (objs (web (set_config cf s1)) !! e = Some u1) as Hu1 by (cbn; by rewrite Ho1, lookup_insert_eq).
  destruct (IH fuel (set_config cf s1) _ _ u1 _ ltac:(cbn in Hf; lia) He1 Hid Hu1 Hch1 HI3) as (s2 & E4 & H4).
  exists s2. split; [exact E4|].
  rewrite (checked_shift at_ 0 (length l) Hpos) in H4.
  rewrite (CL.events_cons _ _ _ _ Hc), deletions_cons.
  rewrite (CL.events_fmap (CL.nodes (config s)) (CL.nodes (config (set_config cf s1)))) in H4 by exact Hev3.
  eapply (cleaned_step s s1 s2 cf); [exact Ho1|exact Htw1|exact Hreq1|exact Hr1|exact Hev3|exact Hpos|exact H4].
Qed.

Lemma clean_run s m e u L l spare at_ :
  entries (web s) !! Z.to_nat (data0 m) = Some (Some e) -> 0 <= data0 m ->
  objs (web s) !! e = Some u -> Chain u L -> CL.Inv (config s) l spare at_ ->
  let k := checked at_ 0 (length l) in
  exists s', cleanEntryCmd m s = (Val tt, s') /\
    cleaned_to s s' m e u L l at_ k (deletions e (CL.events (CL.nodes (config s)) (take k l))).
Proof.
  intros He Hid Hu Hch HI. pose proof (CL.length_nodes _ _ _ _ HI) as Hlen. unfold cleanEntryCmd.
  rewrite (bind_val get _ s s s) by reflexivity. rewrite (bind_val _ _ _ tt s).
  2: { apply dassert_true. unfold known. by rewrite (proj2 (Z.leb_le 0 _) Hid), He. }
  apply (clean_loop_run m e l (change_fuel s) s spare at_ u L); [unfold change_fuel; lia|done..].
Qed.

(** ** Properties *)

(** C19: A command to clean an entry always comes to an end. It recycles the
    changes that every reader has handled, up to the first one that some
    reader has not; if the deletion of the entry is among them, the data
    cells without latches are freed from the oldest on, and the end confirms when
    none is left. *)
Theorem clean_command s m e u L l spare at_ :
  entries (web s) !! Z.to_nat (data0 m) = Some (Some e) -> 0 <= data0 m ->
  objs (web s) !! e = Some u -> Chain u L -> CL.Inv (config s) l spare at_ ->
  let k := checked at_ 0 (length l) in
  exists s', cleanEntryCmd m s = (Val tt, s') /\
    cleaned_to s s' m e u L l at_ k (deletions e (CL.events (CL.nodes (config s)) (take k l))).
Proof. apply clean_run. Qed.

(** An end that finds a latch on the data of an entry that is to be
    cleaned does not confirm, and has then used up the deletion: when the
    latch is gone, no further command to clean that entry gives a confirmation. *)
Theorem unclean_entry_stuck s m e u L l spare at_ :
  entries (web s) !! Z.to_nat (data0 m) = Some (Some e) -> 0 <= data0 m ->
  objs (web s) !! e = Some u -> Chain u L -> leftover (cells (content u)) L <> [] ->
  CL.Inv (config s) l spare at_ -> checked at_ 0 (length l) = length l ->
  exists s1, cleanEntryCmd m s = (Val tt, s1) /\ config_requests (mail s1) = config_requests (mail s) /\
  forall s2 u2 L2 m2, at_entry s1 s2 e u2 -> Chain u2 L2 -> data0 m2 = data0 m ->
    exists s3, cleanEntryCmd m2 s2 = (Val tt, s3) /\ config_requests (mail s3) = config_requests (mail s1).
Proof.
  intros He Hid Hu Hch HR HI Hk.
  destruct (clean_run s m e u L l spare at_ He Hid Hu Hch HI) as (s1 & E1 & [(sp1 & HI1) Hev1 Hreq1 _ Hrest1]).
  rewrite Hk in *. rewrite drop_all in HI1. rewrite bool_decide_false, app_nil_r in Hreq1 by done.
  exists s1. split; [done|]. split; [done|]. intros s2 u2 L2 m2 [Ho2 Hw2 Hr2] Hch2 Hd.
  injection Hw2 as W1 W2. injection Hr2 as _ _ _ R4 _ R6 _. injection Hrest1 as V1 _ _ _ _ _ _ _.
  assert (entries (web s2) !! Z.to_nat (data0 m2) = Some (Some e)) as He2 by (by rewrite W1, V1, Hd).
  assert (objs (web s2) !! e = Some u2) as Hu2 by (by rewrite Ho2, lookup_insert_eq).
  rewrite <- R4 in HI1.
  destruct (clean_run s2 m2 e u2 L2 [] sp1 _ He2 ltac:(by rewrite Hd) Hu2 Hch2 HI1) as (s3 & E3 & [_ _ Hreq3 _ _]).
  exists s3. split; [done|]. rewrite Hreq3, R6. cbn. case_bool_decide; by rewrite app_nil_r.
Qed.

End WithBuild.

(** An end without readers; an entry comes and goes, with a reservation that
    nobody used ([extra] is 5) or without. *)
Definition ex_clean (extra : Z) : E :=
  snd ((newEntryConf (H:=test_config) ex_reg (fun _ => mret tt) 1
          (mkReq NewEntryConf extra 0 258 (mkId 2 5) (txt "Base") (txt "a"));;
        invalidateEntryCmd (H:=test_config) (short InvalidateEntryCmd 0 0)) (make 1)).

Definition ex_changes : CL.ChangeList :=
  CL.mkList {[ 1%nat := CL.mkChange CL.DeletedEntry 0 (Some 0%nat) (Some 0%nat);
               0%nat := CL.mkChange CL.NewEntry 0 (Some 0%nat) None ]} 1 0 2.

Lemma ex_changes_inv : CL.Inv ex_changes [1]%nat [] ∅.
Proof.
  split.
  - done.
  - intros [|i] p [= <-]; eexists; split_and!; vm_compute; reflexivity.
  - eexists. split; vm_compute; reflexivity.
  - done.
  - apply (bool_decide_unpack _). vm_compute. exact I.
  - intros p c Hc. assert (map_Forall (fun k _ => (k < 2)%nat) (CL.nodes ex_changes)) as Hm
      by (apply (bool_decide_unpack _); vm_compute; exact I).
    exact (Hm p c Hc).
  - done.
  - done.
Qed.

Definition ex_u (nres : Z) : UEntry :=
  mkUEntry (mkIdent 258 (txt "Base") false false (txt "a") nres) 0 (mkId 2 5)
    (UCE.make true false false nres) false [] None [].

Lemma ex_chain nres : Chain (ex_u nres) [0; 1]%nat.
Proof.
  split; [by apply (bool_decide_unpack _); vm_compute|]. split; [|done].
  intros [|[|i]] p Hp; [| |done]; injection Hp as <-; by eexists.
Qed.

Lemma ex_clean_facts extra nres : (extra, nres) = (1, 0) \/ (extra, nres) = (5, 1) ->
  entries (web (ex_clean extra)) !! Z.to_nat 0 = Some (Some 0%nat) /\
  objs (web (ex_clean extra)) !! 0%nat = Some (ex_u nres) /\ config (ex_clean extra) = ex_changes /\
  config_requests (mail (ex_clean extra)) = [short NewEndJoins 1 0].
Proof. intros [[= -> ->]|[= -> ->]]; split_and!; vm_compute; reflexivity. Qed.

Lemma clean_command_witness : exists s',
  cleanEntryCmd (H:=test_config) (short CleanEntryCmd 0 1) (ex_clean 1) = (Val tt, s') /\
  config_requests (mail s') = [short NewEndJoins 1 0; short CleanEntryConf 0 1].
Proof.
  destruct (ex_clean_facts 1 0 ltac:(by left)) as (He & Hu & Hc & Hr).
  pose proof ex_changes_inv as HI. rewrite <- Hc in HI.
  destruct (clean_command (H:=test_config) (ex_clean 1) (short CleanEntryCmd 0 1) 0 (ex_u 0) [0; 1]%nat [1]%nat [] ∅
    He ltac:(cbn; lia) Hu (ex_chain 0) HI) as (s' & E & [_ _ Hreq _ _]).
  exists s'. split; [exact E|]. rewrite Hreq, Hr, Hc. vm_compute. reflexivity.
Defined.

Lemma unclean_entry_stuck_witness : exists s1,
  cleanEntryCmd (H:=test_config) (short CleanEntryCmd 0 1) (ex_clean 5) = (Val tt, s1) /\
  config_requests (mail s1) = [short NewEndJoins 1 0].
Proof.
  destruct (ex_clean_facts 5 1 ltac:(by right)) as (He & Hu & Hc & Hr).
  pose proof ex_changes_inv as HI. rewrite <- Hc in HI.
  destruct (unclean_entry_stuck (H:=test_config) (ex_clean 5) (short CleanEntryCmd 0 1) 0 (ex_u 1) [0; 1]%nat [1]%nat [] ∅
    He ltac:(cbn; lia) Hu (ex_chain 1) ltac:(by vm_compute) HI ltac:(vm_compute; reflexivity)) as (s' & E & Hreq & _).
  exists s'. split; [exact E|]. by rewrite Hreq, Hr.
Defined.

End UCK.
