(* ===== verification/LockFree.v ===== *)
(** The lock free stack of spare elements: [dueca/LockFreeLIFO.hxx].

    Each thread runs [pop] and [push] as a series of atomic accesses to the top
    word [Lf] and to the [next] members of the elements; a schedule interleaves
    the threads in any way.  The top word holds a pointer and a 16 bit count of
    pops.  The record also carries the history of calls and the number of pops,
    which the code does not have; no step of the code depends on them. *)

From S2P Require Import Prelude.
#[local] Open Scope Z_scope.

Module LIFO.

(** ** State *)

(** [LIFO_element]: the top pointer and the count in the upper 16 bits. *)
Definition Top : Type := option nat * Z.

(** Where a thread is in its call.  [p] is the number of pops when the thread
    read the top word. *)
Inductive PC :=
  | PopStart
  | PopNext (current : Top) (p : Z)
  | PopSwap (r : nat) (current : Top) (next : option nat) (p : Z)
  | PushStart (cell : nat)
  | PushCount (cell : nat) (current : Top) (p : Z)
  | PushLink (cell : nat) (current : Top) (count : Z) (p : Z)
  | PushSwap (cell : nat) (current : Top) (count : Z) (p : Z).

Inductive Event :=
  | Pushed (t cell : nat)
  | Popped (t cell : nat)
  | FoundEmpty (t : nat).

Record World := mkWorld {
  nexts : gmap nat (option nat);
  Lf : Top;
  pcs : gmap nat PC;
  (** the thread that may use an element; none for those on the stack *)
  owner : gmap nat nat;
  pops : Z;
  history : list Event
}.

(** A new stack, and elements the threads have allocated. *)
Definition make (cells : gmap nat nat) : World :=
  mkWorld ((fun _ => None) <$> cells) (None, 0) ∅ cells 0 [].

(** ** Steps *)

Definition at_pc (t : nat) (pc : PC) (w : World) : World :=
  mkWorld (nexts w) (Lf w) (<[t:=pc]> (pcs w)) (owner w) (pops w) (history w).
Definition return_from (t : nat) (w : World) : World :=
  mkWorld (nexts w) (Lf w) (delete t (pcs w)) (owner w) (pops w) (history w).
Definition set_next (cell : nat) (n : option nat) (w : World) : World :=
  mkWorld (<[cell:=n]> (nexts w)) (Lf w) (pcs w) (owner w) (pops w) (history w).
Definition log (e : Event) (w : World) : World :=
  mkWorld (nexts w) (Lf w) (pcs w) (owner w) (pops w) (history w ++ [e]).

(** The swap of [pop] takes the element off the stack. *)
Definition take_top (t r : nat) (next : option nat) (count : Z) (w : World) : World :=
  mkWorld (nexts w) (next, count) (pcs w) (<[r:=t]> (owner w)) (pops w + 1)
    (history w ++ [Popped t r]).
(** The swap of [push] puts it on. *)
Definition put_top (t cell : nat) (count : Z) (w : World) : World :=
  mkWorld (nexts w) (Some cell, count) (pcs w) (delete cell (owner w)) (pops w)
    (history w ++ [Pushed t cell]).

(** One atomic access of thread [t]. *)
Definition step_pc (t : nat) (pc : PC) (w : World) : outcome World :=
  match pc with
  | PopStart =>
      (* current = Lf; an empty stack is seen here *)
      match Lf w with
      | (None, _) => Val (return_from t (log (FoundEmpty t) w))
      | _ => Val (at_pc t (PopNext (Lf w) (pops w)) w)
      end
  | PopNext current p =>
      match fst current with
      | None => Stuck NullDeref
      | Some r =>
          match nexts w !! r with
          | None => Stuck DanglingDeref
          | Some n => Val (at_pc t (PopSwap r current n p) w)
          end
      end
  | PopSwap r current n _ =>
      if bool_decide (Lf w = current)
      then Val (return_from t (take_top t r n (u16 (snd current + 1)) w))
      else Val (at_pc t PopStart w)
  | PushStart cell => Val (at_pc t (PushCount cell (Lf w) (pops w)) w)
  | PushCount cell current p => Val (at_pc t (PushLink cell current (snd (Lf w)) p) w)
  | PushLink cell current count p =>
      match nexts w !! cell with
      | None => Stuck DanglingDeref
      | Some _ => Val (at_pc t (PushSwap cell current count p) (set_next cell (fst current) w))
      end
  | PushSwap cell current count _ =>
      if bool_decide (Lf w = current)
      then Val (return_from t (put_top t cell count w))
      else Val (at_pc t (PushStart cell) w)
  end.

(** What threads do: call [pop], call [push] with an element of their own, use
    such an element, and take a step of a call. *)
Inductive Action :=
  | CallPop (t : nat)
  | CallPush (t cell : nat)
  | Use (t cell : nat) (n : option nat)
  | Step (t : nat).

(** [None]: the thread cannot do this now. *)
Definition act (a : Action) (w : World) : option (outcome World) :=
  match a with
  | CallPop t =>
      if bool_decide (pcs w !! t = None) then Some (Val (at_pc t PopStart w)) else None
  | CallPush t cell =>
      if bool_decide (pcs w !! t = None) && bool_decide (owner w !! cell = Some t)
      then Some (Val (at_pc t (PushStart cell) w)) else None
  | Use t cell n =>
      if bool_decide (pcs w !! t = None) && bool_decide (owner w !! cell = Some t)
      then Some (Val (set_next cell n w)) else None
  | Step t => pc ← pcs w !! t; Some (step_pc t pc w)
  end.

Fixpoint run (l : list Action) (w : World) : option (outcome World) :=
  match l with
  | [] => Some (Val w)
  | a :: l =>
      match act a w with
      | Some (Val w') => run l w'
      | r => r
      end
  end.

(** ** The stack that the history describes *)

Fixpoint replay (l : list Event) (st : list nat) : option (list nat) :=
  match l with
  | [] => Some st
  | Pushed _ c :: l => replay l (c :: st)
  | Popped _ c :: l =>
      match st with
      | x :: st' => if bool_decide (x = c) then replay l st' else None
      | [] => None
      end
  | FoundEmpty _ :: l =>
      match st with
      | [] => replay l []
      | _ => None
      end
  end.

(** ** Invariant *)

Fixpoint chain (m : gmap nat (option nat)) (o : option nat) (st : list nat) : Prop :=
  match st with
  | [] => o = None
  | r :: st => o = Some r /\ exists n, m !! r = Some n /\ chain m n st
  end.

(** The number of pops at which a thread read the top word. *)
Definition read_at (pc : PC) : option Z :=
  match pc with
  | PopNext _ p | PopSwap _ _ _ p | PushCount _ _ p | PushLink _ _ _ p | PushSwap _ _ _ p => Some p
  | _ => None
  end.

(** No call of a thread is overtaken by 65536 pops. *)
Definition not_overtaken (w : World) : Prop :=
  forall t pc p, pcs w !! t = Some pc -> read_at pc = Some p -> pops w - p < 65536.

(** What a thread knows; [fresh p] says no pop came in between. *)
Definition knows (w : World) (st : list nat) (t : nat) (pc : PC) : Prop :=
  match pc with
  | PopStart => True
  | PopNext cur p =>
      p <= pops w /\ snd cur = u16 p /\
      exists r, fst cur = Some r /\ is_Some (nexts w !! r) /\ (p = pops w -> r ∈ st)
  | PopSwap r cur n p =>
      p <= pops w /\ snd cur = u16 p /\ fst cur = Some r
      /\ (p = pops w -> r ∈ st /\ nexts w !! r = Some n)
  | PushStart cell => owner w !! cell = Some t
  | PushCount cell cur p =>
      owner w !! cell = Some t /\ p <= pops w /\ snd cur = u16 p
  | PushLink cell cur c p =>
      owner w !! cell = Some t /\ p <= pops w /\ snd cur = u16 p
      /\ (p = pops w -> c = u16 p)
  | PushSwap cell cur c p =>
      owner w !! cell = Some t /\ p <= pops w /\ snd cur = u16 p
      /\ (p = pops w -> c = u16 p) /\ nexts w !! cell = Some (fst cur)
  end.

Record Inv (w : World) (st : list nat) : Prop := {
  i_chain : chain (nexts w) (fst (Lf w)) st;
  i_nodup : NoDup st;
  i_count : snd (Lf w) = u16 (pops w);
  i_owner : forall r, is_Some (nexts w !! r) <-> r ∈ st \/ is_Some (owner w !! r);
  i_once : forall r, r ∈ st -> owner w !! r = None;
  i_replay : replay (history w) [] = Some st;
  i_knows : forall t pc, pcs w !! t = Some pc -> knows w st t pc
}.

(** ** Lemmas *)

Lemma replay_snoc l e st st' : replay l st = Some st' ->
  replay (l ++ [e]) st = replay [e] st'.
Proof.
  revert st. induction l as [|[t c|t c|t] l IH]; intros st E; cbn in *.
  - by injection E as ->.
  - by apply IH.
  - destruct st as [|x st]; [done|]. case_bool_decide; [|done]. by apply IH.
  - destruct st; [|done]. by apply IH.
Qed.

Lemma chain_ext m m' o st : chain m o st -> (forall r, r ∈ st -> m' !! r = m !! r) ->
  chain m' o st.
Proof.
  revert o. induction st as [|r st IH]; intros o Hc Hm; [done|].
  destruct Hc as (-> & n & Hn & Hc). split; [done|]. exists n.
  rewrite Hm by left. split; [done|]. apply IH; [done|]. intros x Hx. apply Hm. by right.
Qed.

Lemma chain_in m o st r : chain m o st -> r ∈ st -> is_Some (m !! r).
Proof.
  revert o. induction st as [|x st IH]; intros o Hc Hr; [by apply not_elem_of_nil in Hr|].
  destruct Hc as (_ & n & Hn & Hc). apply elem_of_cons in Hr as [->|Hr]; [by exists n|eauto].
Qed.

Lemma count_fresh p q : p <= q -> q - p < 65536 -> u16 p = u16 q -> p = q.
Proof. unfold u16. intros. Z.to_euclidean_division_equations. lia. Qed.

(** What a thread knows survives the steps of the others. *)
Lemma knows_frame w w' st st' t pc :
  knows w st t pc -> pops w <= pops w' ->
  (forall c, owner w !! c = Some t -> owner w' !! c = Some t /\ nexts w' !! c = nexts w !! c) ->
  (forall r, is_Some (nexts w !! r) -> is_Some (nexts w' !! r)) ->
  (pops w' = pops w -> forall r, r ∈ st -> r ∈ st' /\ nexts w' !! r = nexts w !! r) ->
  knows w' st' t pc.
Proof.
  intros Hk Hp Ho Hd Hst.
  destruct pc as [|cur p|r cur n p|c|c cur p|c cur k p|c cur k p]; cbn in *; try done.
  - destruct Hk as (Hle & Hc & r & Hr & Hs & Hin). split; [lia|]. split; [done|].
    exists r. split_and!; [done|by apply Hd|]. intros ->.
    assert (pops w' = pops w) as E by lia. destruct (Hst E r); [by apply Hin|done].
  - destruct Hk as (Hle & Hc & Hr & Hin). split_and!; [lia|done|done|]. intros ->.
    assert (pops w' = pops w) as E by lia. destruct (Hin E) as [H1 H2].
    destruct (Hst E r H1) as [? ->]. done.
  - by apply Ho.
  - destruct Hk as (Hc & Hle & Hq). split_and!; [by apply Ho|lia|done].
  - destruct Hk as (Hc & Hle & Hq & Hk). split_and!; [by apply Ho|lia|done|]. intros ->. apply Hk. lia.
  - destruct Hk as (Hc & Hle & Hq & Hk & Hn). destruct (Ho c Hc) as [? Hnc].
    split_and!; [done|lia|done| |by rewrite Hnc]. intros ->. apply Hk. lia.
Qed.

(** The other threads, after a step of [t] that changes only its place. *)
Lemma others_known w st t pc :
  Inv w st -> knows w st t pc -> forall t' pc', <[t:=pc]> (pcs w) !! t' = Some pc' ->
  knows w st t' pc'.
Proof.
  intros HI Hk t' pc'. destruct (decide (t = t')) as [->|Hne].
  - rewrite lookup_insert_eq. by intros [= <-].
  - rewrite lookup_insert_ne by done. apply (i_knows _ _ HI).
Qed.

Lemma at_pc_inv w st t pc : Inv w st -> knows w st t pc -> Inv (at_pc t pc w) st.
Proof.
  intros HI Hk. pose proof (others_known _ _ _ _ HI Hk) as Ho. destruct HI. by split.
Qed.

Lemma set_next_inv w st t cell n : Inv w st -> owner w !! cell = Some t ->
  (forall pc, pcs w !! t = Some pc -> knows (set_next cell n w) st t pc) ->
  Inv (set_next cell n w) st.
Proof.
  intros HI Ho Ht. assert (cell ∉ st) as Hni by (intros Hin; by rewrite (i_once _ _ HI) in Ho).
  assert (forall r, r ∈ st -> <[cell:=n]> (nexts w) !! r = nexts w !! r) as Hr.
  { intros r Hr. apply lookup_insert_ne. by intros ->. }
  destruct HI. split; try done.
  - by eapply chain_ext.
  - intros r. cbn. destruct (decide (cell = r)) as [->|Hne].
    + rewrite lookup_insert_eq. split; [intros _; right; by eexists|by eexists].
    + by rewrite lookup_insert_ne by done.
  - intros t' pc E. destruct (decide (t' = t)) as [->|Hnt]; [by apply Ht|].
    apply (knows_frame w _ st); cbn; [by apply i_knows0|lia| | |by auto].
    + intros c Hc. split; [done|]. apply lookup_insert_ne. intros ->. congruence.
    + intros r Hs. destruct (decide (cell = r)) as [->|Hne].
      * rewrite lookup_insert_eq. by eexists.
      * by rewrite lookup_insert_ne.
Qed.

Lemma return_inv w st t : Inv w st -> Inv (return_from t w) st.
Proof.
  intros HI. destruct HI. split; try done.
  intros t' pc E. cbn in E. apply lookup_delete_Some in E as [_ E]. by apply i_knows0.
Qed.

Lemma log_empty_inv w st t : Inv w st -> fst (Lf w) = None -> Inv (log (FoundEmpty t) w) st.
Proof.
  intros HI He. pose proof HI as HI0. destruct HI. split; try done. cbn.
  rewrite (replay_snoc _ _ _ _ i_replay0). rewrite He in i_chain0.
  destruct st; [done|]. by destruct i_chain0.
Qed.

(** The successful swap of a [pop]. *)
Lemma take_top_inv w st t r cur n p :
  Inv w st -> not_overtaken w -> pcs w !! t = Some (PopSwap r cur n p) -> Lf w = cur ->
  exists st', st = r :: st' /\ Inv (return_from t (take_top t r n (u16 (snd cur + 1)) w)) st'.
Proof.
  intros HI Hb Ht <-. pose proof (i_knows _ _ HI _ _ Ht) as (Hle & Hc & Htop & Hin).
  pose proof (Hb t _ p Ht eq_refl) as Hlt. rewrite (i_count _ _ HI) in Hc.
  assert (p = pops w) as E by (apply count_fresh; [done|lia|done]).
  destruct (Hin E) as [Hrin Hn]. pose proof (i_chain _ _ HI) as Hch. rewrite Htop in Hch.
  destruct st as [|x st']; [by apply not_elem_of_nil in Hrin|].
  destruct Hch as ([= <-] & n' & Hn' & Hch). rewrite Hn in Hn'. injection Hn' as <-.
  exists st'. split; [done|]. pose proof (i_nodup _ _ HI) as Hnd.
  apply list.NoDup_cons in Hnd as [Hni Hnd]. destruct HI. split; cbn; try done.
  - rewrite i_count0. unfold u16. rewrite Zplus_mod_idemp_l. done.
  - intros q. rewrite i_owner0. destruct (decide (r = q)) as [->|Hne].
    + rewrite lookup_insert_eq. split; [intros _; right; by eexists|intros _; left; left].
    + rewrite lookup_insert_ne by done. rewrite elem_of_cons. split; [|tauto].
      intros [[->|?]|?]; [done|by left|by right].
  - intros q Hq. rewrite lookup_insert_ne; [apply i_once0; by right|]. by intros <-.
  - rewrite (replay_snoc _ _ _ _ i_replay0). cbn. by rewrite bool_decide_true.
  - intros t' pc Et. apply lookup_delete_Some in Et as [Hne Et].
    apply (knows_frame w _ (r :: st')); cbn; [by apply i_knows0|lia| |done|lia].
    intros c Hco. split; [|done]. rewrite lookup_insert_ne; [done|]. intros <-.
    rewrite (i_once0 r) in Hco; [done|left].
Qed.

(** The successful swap of a [push]. *)
Lemma put_top_inv w st t cell cur c p :
  Inv w st -> not_overtaken w -> pcs w !! t = Some (PushSwap cell cur c p) -> Lf w = cur ->
  Inv (return_from t (put_top t cell c w)) (cell :: st).
Proof.
  intros HI Hb Ht <-. pose proof (i_knows _ _ HI _ _ Ht) as (Ho & Hle & Hc & Hcn & Hn).
  pose proof (Hb t _ p Ht eq_refl) as Hlt. rewrite (i_count _ _ HI) in Hc.
  assert (p = pops w) as E by (apply count_fresh; [done|lia|done]).
  assert (cell ∉ st) as Hni by (intros Hin; by rewrite (i_once _ _ HI) in Ho).
  destruct HI. split; cbn; try done.
  - split; [done|]. by exists (fst (Lf w)).
  - by apply list.NoDup_cons.
  - rewrite Hcn by done. by rewrite E.
  - intros q. rewrite i_owner0. destruct (decide (cell = q)) as [->|Hne].
    + split; [intros _; left; left|intros _; right; by eexists].
    + rewrite lookup_delete_ne by done. rewrite elem_of_cons. split; [tauto|].
      intros [[->|?]|?]; [done|by left|by right].
  - intros q [->|Hq]%elem_of_cons; [apply lookup_delete_eq|].
    rewrite lookup_delete_ne by (by intros ->). by apply i_once0.
  - by rewrite (replay_snoc _ _ _ _ i_replay0).
  - intros t' pc Et. apply lookup_delete_Some in Et as [Hne Et].
    apply (knows_frame w _ st); cbn; [by apply i_knows0|lia| |done|].
    + intros q Hq. split; [|done]. rewrite lookup_delete_ne; [done|]. intros <-. congruence.
    + intros _ q Hq. split; [by right|done].
Qed.

(** One step of one thread. *)
Lemma step_inv w st t pc :
  Inv w st -> not_overtaken w -> pcs w !! t = Some pc ->
  exists w' st', step_pc t pc w = Val w' /\ Inv w' st'.
Proof.
  intros HI Hb Ht. pose proof (i_knows _ _ HI _ _ Ht) as Hk.
  destruct pc as [|cur p|r cur n p|c|c cur p|c cur k p|c cur k p]; cbn in Hk |- *.
  - destruct (Lf w) as [[r|] q] eqn:E.
    + eexists _, st. split; [reflexivity|]. apply at_pc_inv; [done|]. cbn.
      pose proof (i_chain _ _ HI) as Hc. pose proof (i_count _ _ HI) as Hq. rewrite E in Hc, Hq.
      split_and!; [lia|done|]. exists r. destruct st as [|x st]; [done|].
      destruct Hc as ([= <-] & n & Hn & _). split_and!; [done|by eexists|intros _; left].
    + eexists _, st. split; [reflexivity|]. apply return_inv, log_empty_inv; [done|]. by rewrite E.
  - destruct Hk as (Hle & Hq & r & Hr & (n & Hn) & Hin). rewrite Hr, Hn.
    eexists _, st. split; [reflexivity|]. apply at_pc_inv; [done|]. cbn.
    split_and!; [done|done|done|]. intros E. split; [by apply Hin|done].
  - case_bool_decide as E.
    + destruct (take_top_inv _ _ _ _ _ _ _ HI Hb Ht E) as (st' & _ & HI'). eauto.
    + eexists _, st. split; [reflexivity|]. by apply at_pc_inv.
  - eexists _, st. split; [reflexivity|]. apply at_pc_inv; [done|]. cbn.
    split_and!; [done|lia|by rewrite (i_count _ _ HI)].
  - eexists _, st. split; [reflexivity|]. apply at_pc_inv; [done|]. cbn.
    destruct Hk as (? & ? & ?). split_and!; try done. intros ->. apply (i_count _ _ HI).
  - destruct Hk as (Ho & Hle & Hq & Hc).
    destruct (proj2 (i_owner _ _ HI c)) as (x & Hx); [right; by eexists|]. rewrite Hx.
    eexists _, st. split; [reflexivity|]. apply at_pc_inv.
    + apply (set_next_inv _ _ t); [done|done|]. intros pc Hpc. rewrite Ht in Hpc.
      by injection Hpc as <-.
    + cbn. split_and!; try done. apply lookup_insert_eq.
  - case_bool_decide as E.
    + eexists _, (c :: st). split; [reflexivity|]. by eapply put_top_inv.
    + eexists _, st. split; [reflexivity|]. apply at_pc_inv; [done|]. by destruct Hk.
Qed.

Lemma act_inv a w st o :
  Inv w st -> not_overtaken w -> act a w = Some o -> exists w' st', o = Val w' /\ Inv w' st'.
Proof.
  intros HI Hb. destruct a as [t|t c|t c n|t]; cbn.
  - case_bool_decide; [|done]. intros [= <-]. eexists _, st. split; [done|]. by apply at_pc_inv.
  - case_bool_decide; [|done]. case_bool_decide; [|done]. intros [= <-].
    eexists _, st. split; [done|]. by apply at_pc_inv.
  - case_bool_decide as Hn; [|done]. case_bool_decide; [|done]. intros [= <-].
    eexists _, st. split; [done|]. apply (set_next_inv _ _ t); [done|done|].
    intros pc Hpc. congruence.
  - destruct (pcs w !! t) as [pc|] eqn:Ht; [|done]. cbn. intros [= <-].
    by eapply step_inv.
Qed.

(** The states of runs in which no call is overtaken by 65536 pops. *)
Inductive reachable (cells : gmap nat nat) : World -> Prop :=
  | reach_make : reachable cells (make cells)
  | reach_act a w w' : reachable cells w -> not_overtaken w -> act a w = Some (Val w') ->
      reachable cells w'.

Lemma make_inv cells : Inv (make cells) [].
Proof.
  split; cbn; try done.
  - apply NoDup_nil_2.
  - intros r. rewrite lookup_fmap, fmap_is_Some, elem_of_nil. tauto.
  - by intros r Hr%not_elem_of_nil.
Qed.

Lemma reachable_inv cells w : reachable cells w -> exists st, Inv w st.
Proof.
  induction 1 as [|a w w' _ (st & HI) Hb E]; [by exists []; apply make_inv|].
  destruct (act_inv _ _ _ _ HI Hb E) as (w1 & st' & [= ->] & HI'). eauto.
Qed.

(** C21: the lock free stack is a stack whatever the interleaving, as long as no
    call is overtaken by 65536 pops: no thread reads through a null or foreign
    pointer, the successful swaps and the findings of an empty stack, in the
    order in which they happen, are the pushes and pops of a plain stack, and
    an element is at any time on the stack or in the hands of one thread,
    never both. *)
Theorem lifo_linearizable cells w a o :
  reachable cells w -> not_overtaken w -> act a w = Some o ->
  (exists w', o = Val w')
  /\ exists st, replay (history w) [] = Some st /\ chain (nexts w) (fst (Lf w)) st /\ NoDup st
     /\ forall r, is_Some (nexts w !! r) ->
        (r ∈ st /\ owner w !! r = None) \/ ((r ∉ st) /\ is_Some (owner w !! r)).
Proof.
  intros Hr Hb Ha. destruct (reachable_inv _ _ Hr) as (st & HI).
  destruct (act_inv _ _ _ _ HI Hb Ha) as (w' & _ & -> & _). split; [by exists w'|].
  exists st. destruct HI. split_and!; try done. intros r Hs. apply i_owner0 in Hs as [Hin|Ho].
  - left. split; [done|by apply i_once0].
  - right. split; [|done]. intros Hin. rewrite i_once0 in Ho by done. by destruct Ho.
Qed.

(** Two threads, two elements; the second thread takes both elements and gives
    one back while the first is in the middle of a pop. *)
Definition aba_run : list Action :=
  let push t c := CallPush t c :: repeat (Step t) 4 in
  let pop t := CallPop t :: repeat (Step t) 3 in
  push 1%nat 10%nat ++ push 1%nat 11%nat
  ++ [CallPop 0%nat; Step 0%nat; Step 0%nat]
  ++ pop 1%nat ++ pop 1%nat ++ push 1%nat 11%nat
  ++ repeat (Step 0%nat) 4.

Definition two_cells : gmap nat nat := {[ 10%nat := 1%nat; 11%nat := 1%nat ]}.

(** Runs in which no call is overtaken, as a check of each state. *)
Definition not_overtaken_b (w : World) : bool :=
  bool_decide (map_Forall (fun _ pc => match read_at pc with
    | Some p => pops w - p <? 65536
    | None => true
    end = true) (pcs w)).

Fixpoint checked_run (l : list Action) (w : World) : option World :=
  match l with
  | [] => Some w
  | a :: l =>
      if not_overtaken_b w then
        match act a w with
        | Some (Val w') => checked_run l w'
        | _ => None
        end
      else None
  end.

Lemma checked_reachable cells l w w' :
  reachable cells w -> checked_run l w = Some w' -> reachable cells w'.
Proof.
  revert w. induction l as [|a l IH]; intros w Hr E; cbn in E; [by injection E as <-|].
  destruct (not_overtaken_b w) eqn:Eb; [|done].
  destruct (act a w) as [[w1|e|f]|] eqn:Ea; try done.
  apply (IH w1); [|done]. apply (reach_act cells a w); [done| |done].
  intros t pc p Ht Hp. apply bool_decide_eq_true_1 in Eb. specialize (Eb t pc Ht).
  cbn in Eb. rewrite Hp in Eb. by apply Z.ltb_lt.
Qed.

Lemma lifo_linearizable_witness :
  exists w, checked_run aba_run (make two_cells) = Some w
    /\ history w = [Pushed 1 10; Pushed 1 11; Popped 1 11; Popped 1 10; Pushed 1 11; Popped 0 11]
    /\ exists st, replay (history w) [] = Some st /\ NoDup st.
Proof.
  assert (exists w, checked_run aba_run (make two_cells) = Some w) as (w & E).
  { eexists. vm_compute. reflexivity. }
  exists w. split; [done|].
  pose proof (checked_reachable two_cells aba_run _ _ (reach_make _) E) as Hr.
  vm_compute in E. injection E as Ew.
  assert (not_overtaken w) as Hb by (intros t pc p Ht; rewrite <- Ew in Ht; exact (False_ind _ (lookup_empty_Some _ _ Ht))).
  assert (act (CallPop 3) w = Some (Val (at_pc 3 PopStart w))) as Ea by by rewrite <- Ew.
  destruct (lifo_linearizable two_cells w _ _ Hr Hb Ea) as (_ & st & Hst & _ & Hnd & _).
  split; [by rewrite <- Ew|]. by exists st.
Defined.

End LIFO.
