(* ===== verification/AsyncQueue.v ===== *)
(** The queue between threads: [dueca/AsyncQueueMT.hxx], with the elements of
    [dueca/ListElementAllocator.hxx].

    Many writers and one reader run as interleaved atomic steps.  The stack of
    spare elements is used through the interface [SpareStack], whose operations
    are single steps; [LockFree] shows that the stack of the code behaves so.
    The records [sent] and [got] collect the values in the order in which the
    swaps of [data_tail] and [data_head] succeed; no step depends on them. *)

From S2P Require Import Prelude.
#[local] Open Scope Z_scope.

(** * The stack of spares *)

Class SpareStack (S : Type) := {
  s_new : S;
  s_push : nat -> S -> S;
  s_pop : S -> option (nat * S);
  s_elems : S -> list nat;
  s_new_elems : s_elems s_new = [];
  s_push_elems : forall e s, s_elems (s_push e s) = e :: s_elems s;
  s_pop_elems : forall s, match s_pop s with
    | Some (e, s') => s_elems s = e :: s_elems s'
    | None => s_elems s = []
    end
}.

#[export] Instance list_stack : SpareStack (list nat).
Proof.
  refine {|
    s_new := [];
    s_push e s := e :: s;
    s_pop s := match s with [] => None | e :: s => Some (e, s) end;
    s_elems s := s
  |}; [done|done|by intros [|e s]].
Defined.

Module AQ.
Section Queue.
Context {T : Type} (dflt : T) {S : Type} `{!SpareStack S}.

(** * State *)

(** [ListElementAllocator::Element] *)
Record Element := mkElement { next : option nat; value : T }.

(** A writer: filling the data, then the steps of [writeTail]. *)
Inductive Writer :=
  | Filling (e : nat)
  | Swapping (e : nat) (tmptail : option nat)
  | Linking (tmptail e : nat)
  | Counting.

(** The reader: the steps of [getHead], then holding the data. *)
Inductive Reader :=
  | RIdle
  | RCheck (tmphead : option nat)
  | RSwap (tmphead : nat) (n : nat)
  | RTake (tmphead : nat)
  | RReturn (tmphead d : nat)
  | RCount (d : nat)
  | RHold (d : nat).

Record World := mkWorld {
  elts : gmap nat Element;
  fresh : nat;
  spares : S;
  data_head : option nat;
  data_tail : option nat;
  entered : Z;
  removed : Z;
  writers : gmap nat Writer;
  reader : Reader;
  sent : list T;
  got : list T
}.

(** * Operations *)

Definition with_elts (m : gmap nat Element) (f : nat) (s : S) (w : World) : World :=
  mkWorld m f s (data_head w) (data_tail w) (entered w) (removed w) (writers w) (reader w)
    (sent w) (got w).
Definition with_writers (m : gmap nat Writer) (w : World) : World :=
  mkWorld (elts w) (fresh w) (spares w) (data_head w) (data_tail w) (entered w) (removed w)
    m (reader w) (sent w) (got w).
Definition with_reader (r : Reader) (w : World) : World :=
  mkWorld (elts w) (fresh w) (spares w) (data_head w) (data_tail w) (entered w) (removed w)
    (writers w) r (sent w) (got w).
Definition with_tail (t : nat) (v : T) (w : World) : World :=
  mkWorld (elts w) (fresh w) (spares w) (data_head w) (Some t) (entered w) (removed w)
    (writers w) (reader w) (sent w ++ [v]) (got w).
Definition with_head (h : nat) (v : T) (w : World) : World :=
  mkWorld (elts w) (fresh w) (spares w) (Some h) (data_tail w) (entered w) (removed w)
    (writers w) (reader w) (sent w) (got w ++ [v]).
Definition with_counts (n r : Z) (w : World) : World :=
  mkWorld (elts w) (fresh w) (spares w) (data_head w) (data_tail w) n r
    (writers w) (reader w) (sent w) (got w).

(** [getSpare]: a spare constructed anew, or a new element. *)
Definition getSpare (w : World) : nat * World :=
  match s_pop (spares w) with
  | Some (e, s) => (e, with_elts (<[e:=mkElement None dflt]> (elts w)) (fresh w) s w)
  | None =>
      (fresh w, with_elts (<[fresh w:=mkElement None dflt]> (elts w)) (Datatypes.S (fresh w))
                  (spares w) w)
  end.

(** The constructor with a call of [init_list]. *)
Definition empty : World :=
  mkWorld ∅ 0 s_new None None 0 0 ∅ RIdle [] [].
Definition init_list (w : World) : World :=
  match data_head w with
  | Some _ => w
  | None =>
      let (e, w) := getSpare w in
      mkWorld (elts w) (fresh w) (spares w) (Some e) (Some e) (entered w) (removed w)
        (writers w) (reader w) (sent w) (got w)
  end.
Definition make : World := init_list empty.

Definition of_elt (o : option Element) (k : Element -> outcome World) : outcome World :=
  match o with Some x => k x | None => Stuck DanglingDeref end.

(** [writeTail], one access at a time. *)
Definition step_writer (i : nat) (pc : Writer) (w : World) : outcome World :=
  match pc with
  | Filling e => Val (with_writers (<[i:=Swapping e (data_tail w)]> (writers w)) w)
  | Swapping e tmptail =>
      if bool_decide (data_tail w = tmptail) then
        match tmptail with
        | None => Stuck NullDeref
        | Some t =>
            of_elt (elts w !! e) (fun x =>
              Val (with_writers (<[i:=Linking t e]> (writers w)) (with_tail e (value x) w)))
        end
      else Val (with_writers (<[i:=Swapping e (data_tail w)]> (writers w)) w)
  | Linking t e =>
      of_elt (elts w !! t) (fun x =>
        Val (with_writers (<[i:=Counting]> (writers w))
          (with_elts (<[t:=mkElement (Some e) (value x)]> (elts w)) (fresh w) (spares w) w)))
  | Counting =>
      Val (with_writers (delete i (writers w)) (with_counts (u64 (entered w + 1)) (removed w) w))
  end.

(** [getHead], one access at a time. *)
Definition step_reader (w : World) : outcome World :=
  match reader w with
  | RIdle => Val (with_reader (RCheck (data_head w)) w)
  | RCheck None => Stuck NullDeref
  | RCheck (Some h) =>
      of_elt (elts w !! h) (fun x =>
        match next x with
        | None => Val (with_reader RIdle w)
        | Some n => Val (with_reader (RSwap h n) w)
        end)
  | RSwap h n =>
      if bool_decide (data_head w = Some h) then
        of_elt (elts w !! n) (fun x => Val (with_reader (RTake h) (with_head n (value x) w)))
      else Val (with_reader (RCheck (data_head w)) w)
  | RTake h =>
      of_elt (elts w !! h) (fun x =>
        match next x with
        | None => Stuck NullDeref
        | Some d => Val (with_reader (RReturn h d) w)
        end)
  | RReturn h d =>
      Val (with_reader (RCount d) (with_elts (elts w) (fresh w) (s_push h (spares w)) w))
  | RCount d => Val (with_reader (RHold d) (with_counts (entered w) (u64 (removed w + 1)) w))
  | RHold _ => Val (with_reader RIdle w)
  end.

Inductive Action :=
  | NewWriter (i : nat)
  | SetData (i : nat) (v : T)
  | GiveBack (i : nat)
  | StepWriter (i : nat)
  | StepReader.

(** [None]: not possible now. *)
Definition act (a : Action) (w : World) : option (outcome World) :=
  match a with
  | NewWriter i =>
      match writers w !! i with
      | None => let (e, w) := getSpare w in
                Some (Val (with_writers (<[i:=Filling e]> (writers w)) w))
      | Some _ => None
      end
  | SetData i v =>
      match writers w !! i with
      | Some (Filling e) =>
          Some (of_elt (elts w !! e) (fun x =>
            Val (with_elts (<[e:=mkElement (next x) v]> (elts w)) (fresh w) (spares w) w)))
      | _ => None
      end
  | GiveBack i =>
      match writers w !! i with
      | Some (Filling e) =>
          Some (Val (with_writers (delete i (writers w))
            (with_elts (elts w) (fresh w) (s_push e (spares w)) w)))
      | _ => None
      end
  | StepWriter i => pc ← writers w !! i; Some (step_writer i pc w)
  | StepReader => Some (step_reader w)
  end.

Fixpoint run (l : list Action) (w : World) : option (outcome World) :=
  match l with
  | [] => Some (Val w)
  | a :: l =>
      match act a w with
      | Some (Val w') => run l w'
      | r => r
      end
  end.

(** [notEmpty] and [size]. *)
Definition notEmpty (w : World) : outcome bool :=
  match data_head w with
  | None => Stuck NullDeref
  | Some h =>
      match elts w !! h with
      | None => Stuck DanglingDeref
      | Some x => Val (bool_decide (is_Some (next x)))
      end
  end.
Definition size (w : World) : Z := u32 (u64 (entered w - removed w)).

(** The data of an [AsyncQueueReader]. *)
Definition data (w : World) : option T :=
  match reader w with RHold d => value <$> elts w !! d | _ => None end.

(** * Invariant *)

(** Where an element is. *)
Inductive Place :=
  | InQueue
  | Spare
  | WithWriter (i : nat)
  | Leaving.

(** A writer between its swap and its count. *)
Definition finishing (pc : Writer) : bool :=
  match pc with Linking _ _ | Counting => true | _ => false end.
Definition busy (m : gmap nat Writer) : nat :=
  length (List.filter (fun x => finishing x.2) (map_to_list m)).
(** The reader between its swap and its count. *)
Definition removing (r : Reader) : Z :=
  match r with RTake _ | RReturn _ _ | RCount _ => 1 | _ => 0 end.

Definition writer_ok (w : World) (order : list nat) (place : gmap nat Place) (i : nat) (pc : Writer)
    : Prop :=
  match pc with
  | Filling e => place !! e = Some (WithWriter i) /\ exists v, elts w !! e = Some (mkElement None v)
  | Swapping e _ => place !! e = Some (WithWriter i) /\ exists v, elts w !! e = Some (mkElement None v)
  | Linking t e => exists k, order !! k = Some t /\ order !! Datatypes.S k = Some e
      /\ exists v, elts w !! t = Some (mkElement None v)
  | Counting => True
  end.

Definition reader_ok (w : World) (h : nat) (place : gmap nat Place) (r : Reader) : Prop :=
  match r with
  | RIdle => True
  | RCheck o => o = Some h
  | RSwap x n => x = h /\ exists v, elts w !! h = Some (mkElement (Some n) v)
  | RTake x => place !! x = Some Leaving /\ exists v, elts w !! x = Some (mkElement (Some h) v)
  | RReturn x d => place !! x = Some Leaving /\ d = h
  | RCount d | RHold d => d = h
  end.

(** After the first swap the element at the head holds the last value got. *)
Definition holds_last (w : World) (h : nat) : Prop :=
  match reader w with
  | RTake _ | RReturn _ _ | RCount _ | RHold _ =>
      exists v, list.last (got w) = Some v /\ value <$> elts w !! h = Some v
  | _ => True
  end.

Record Inv (w : World) (order : list nat) (place : gmap nat Place) : Prop := {
  i_head : data_head w = order !! 0%nat;
  i_tail : exists t v, list.last order = Some t /\ data_tail w = Some t
    /\ elts w !! t = Some (mkElement None v);
  i_nodup : NoDup order;
  i_links : forall k a b, order !! k = Some a -> order !! Datatypes.S k = Some b ->
    exists x, elts w !! a = Some x
      /\ (next x = Some b \/ next x = None /\ exists i, writers w !! i = Some (Linking a b));
  i_once : forall i j a b c, writers w !! i = Some (Linking a b) ->
    writers w !! j = Some (Linking a c) -> i = j;
  i_queue : forall e, e ∈ order <-> place !! e = Some InQueue;
  i_spares : forall e, e ∈ s_elems (spares w) <-> place !! e = Some Spare;
  i_spares_nodup : NoDup (s_elems (spares w));
  i_placed : forall e, is_Some (place !! e) <-> is_Some (elts w !! e);
  i_fresh : forall e x, elts w !! e = Some x -> (e < fresh w)%nat;
  i_writers : forall i pc, writers w !! i = Some pc -> writer_ok w order place i pc;
  i_reader : exists h, order !! 0%nat = Some h /\ reader_ok w h place (reader w) /\ holds_last w h;
  i_values : got w ++ omap (fun e => value <$> elts w !! e) (drop 1 order) = sent w;
  i_entered : entered w = u64 (Z.of_nat (length (sent w)) - Z.of_nat (busy (writers w)));
  i_removed : removed w = u64 (Z.of_nat (length (got w)) - removing (reader w))
}.

(** ** Counting the writers that are finishing *)

Lemma busy_insert m i pc : m !! i = None ->
  busy (<[i:=pc]> m) = ((if finishing pc then 1 else 0) + busy m)%nat.
Proof.
  intros Hn. unfold busy.
  assert (forall l l' : list (nat * Writer), l ≡ₚ l' ->
    length (List.filter (fun x => finishing x.2) l) = length (List.filter (fun x => finishing x.2) l')) as Hp.
  { induction 1 as [|[j x] l l' _ IH|[j x] [k y] l|l l' l'' _ IH1 _ IH2]; cbn; try done.
    - destruct (finishing x); cbn; by rewrite IH.
    - by destruct (finishing x), (finishing y).
    - by rewrite IH1. }
  rewrite (Hp _ _ (map_to_list_insert m i pc Hn)). cbn. by destruct (finishing pc).
Qed.

Lemma busy_delete m i pc : m !! i = Some pc ->
  busy m = ((if finishing pc then 1 else 0) + busy (delete i m))%nat.
Proof.
  intros Hs. rewrite <- (insert_delete_id m i pc Hs) at 1.
  apply busy_insert, lookup_delete_eq.
Qed.

Lemma busy_update m i pc pc' : m !! i = Some pc ->
  ((if finishing pc then 1 else 0) + busy (<[i:=pc']> m)
   = (if finishing pc' then 1 else 0) + busy m)%nat.
Proof.
  intros Hs. rewrite (busy_delete m i pc Hs), <- insert_delete_eq.
  rewrite busy_insert by apply lookup_delete_eq. lia.
Qed.

Lemma u64_succ a : u64 (u64 a + 1) = u64 (a + 1).
Proof. unfold u64. by rewrite Zplus_mod_idemp_l. Qed.

(** ** What the parts of a state know of each other *)

(** Another writer, after a change elsewhere. *)
Lemma writer_frame w w' order order' place place' j pc :
  writer_ok w order place j pc ->
  (forall e, place !! e = Some (WithWriter j) ->
     place' !! e = Some (WithWriter j) /\ elts w' !! e = elts w !! e) ->
  (forall t e k, pc = Linking t e -> order !! k = Some t -> order !! Datatypes.S k = Some e ->
     (exists k', order' !! k' = Some t /\ order' !! Datatypes.S k' = Some e)
     /\ elts w' !! t = elts w !! t) ->
  writer_ok w' order' place' j pc.
Proof.
  intros Hk Hp Ho. destruct pc as [e|e o|t e|]; cbn in *; [| | |done].
  - destruct Hk as (Hpl & v & Hv). destruct (Hp e Hpl) as [? ->]. eauto.
  - destruct Hk as (Hpl & v & Hv). destruct (Hp e Hpl) as [? ->]. eauto.
  - destruct Hk as (k & H1 & H2 & v & Hv).
    destruct (Ho t e k eq_refl H1 H2) as ((k' & ? & ?) & ->). eauto.
Qed.

Lemma head_in w order place : Inv w order place -> exists h rest, order = h :: rest.
Proof.
  intros HI. destruct (i_reader _ _ _ HI) as (h & Hh & _). destruct order as [|x r]; [done|]. eauto.
Qed.

Lemma in_queue_elt w order place e : Inv w order place -> e ∈ order -> exists x, elts w !! e = Some x.
Proof.
  intros HI He. apply (i_queue _ _ _ HI) in He.
  destruct (proj1 (i_placed _ _ _ HI e)) as (x & Hx); [by eexists|]. eauto.
Qed.

(** The element at the head is not the tail when it has a successor. *)
Lemma next_of_head w order place h x n :
  Inv w order place -> order !! 0%nat = Some h -> elts w !! h = Some x -> next x = Some n ->
  exists rest, order = h :: n :: rest.
Proof.
  intros HI Hh Hx Hn. destruct order as [|h' order]; [done|]. injection Hh as ->.
  destruct order as [|b order].
  - destruct (i_tail _ _ _ HI) as (t & v & Ht & _ & Hv). injection Ht as <-. rewrite Hx in Hv. by injection Hv as ->.
  - exists order. destruct (i_links _ _ _ HI 0%nat h b eq_refl eq_refl) as (y & Hy & Hor).
    rewrite Hx in Hy. injection Hy as <-. destruct Hor as [E|[E _]]; rewrite Hn in E; by simplify_eq.
Qed.

(** The places of different kinds differ. *)
Lemma place_ne w order place e p : Inv w order place -> place !! e = Some p -> p <> InQueue ->
  e ∉ order.
Proof. intros HI Hp Hne He. apply (i_queue _ _ _ HI) in He. congruence. Qed.

(** ** Changes of one part *)

(** A writer goes on within the same element. *)
Lemma writer_move_inv w order place i pc pc' :
  Inv w order place -> writers w !! i = Some pc -> writer_ok w order place i pc' ->
  finishing pc = false -> finishing pc' = false ->
  Inv (with_writers (<[i:=pc']> (writers w)) w) order place.
Proof.
  intros HI Hi Hok Hf Hf'. pose proof (busy_update _ _ _ pc' Hi) as Hb. rewrite Hf, Hf' in Hb.
  cbn in Hb. destruct HI. split; try done.
  - intros k a b Ha Hb'. destruct (i_links0 k a b Ha Hb') as (x & Hx & [E|(E & j & Hj)]).
    + eauto.
    + exists x. split; [done|]. right. split; [done|]. exists j. cbn.
      rewrite lookup_insert_ne; [done|]. intros ->. rewrite Hi in Hj. injection Hj as ->. done.
  - intros j k a b c. cbn. intros Hj Hk.
    rewrite lookup_insert_ne in Hj
      by (intros ->; rewrite lookup_insert_eq in Hj; by injection Hj as ->).
    rewrite lookup_insert_ne in Hk
      by (intros ->; rewrite lookup_insert_eq in Hk; by injection Hk as ->). eauto.
  - intros j q. cbn. destruct (decide (i = j)) as [->|Hne].
    + rewrite lookup_insert_eq. by intros [= <-].
    + rewrite lookup_insert_ne by done. apply i_writers0.
  - cbn. by rewrite Hb.
Qed.

(** The reader goes on. *)
Lemma reader_move_inv w order place h r' :
  Inv w order place -> order !! 0%nat = Some h -> reader_ok w h place r' ->
  holds_last (with_reader r' w) h -> removing r' = removing (reader w) ->
  Inv (with_reader r' w) order place.
Proof.
  intros HI Hh Hr Hl He. destruct HI. split; try done; [by exists h|]. cbn. by rewrite He.
Qed.

(** A writer takes a spare or new element [e]. *)
Lemma acquire_inv w order place i e f s' :
  Inv w order place -> writers w !! i = None ->
  (forall p, place !! e = Some p -> p = Spare) -> (e < f)%nat -> (fresh w <= f)%nat ->
  NoDup (s_elems s') -> (forall x, x ∈ s_elems s' <-> x <> e /\ place !! x = Some Spare) ->
  Inv (with_writers (<[i:=Filling e]> (writers w))
         (with_elts (<[e:=mkElement None dflt]> (elts w)) f s' w))
    order (<[e:=WithWriter i]> place).
Proof.
  intros HI Hi Hp Hef Hff Hnd Hs'.
  assert (forall x p, place !! x = Some p -> p <> Spare -> x <> e) as Hne.
  { intros x p Hx Hps ->. apply Hps. by apply Hp. }
  assert (forall x, x ∈ order -> x <> e) as Hno.
  { intros x Hx. apply (i_queue _ _ _ HI) in Hx. by eapply Hne. }
  assert (forall x p, place !! x = Some p -> p <> Spare ->
    <[e:=mkElement None dflt]> (elts w) !! x = elts w !! x) as Helt.
  { intros x p Hx Hps. rewrite lookup_insert_ne; [done|]. intros ->. by eapply Hne. }
  assert (forall x, x ∈ order -> <[e:=mkElement None dflt]> (elts w) !! x = elts w !! x) as Helo.
  { intros x Hx. rewrite lookup_insert_ne; [done|]. intros ->. by eapply Hno. }
  pose proof (busy_insert _ i (Filling e) Hi) as Hb. cbn in Hb.
  pose proof HI as HI0. destruct HI. split; cbn; try done.
  - destruct i_tail0 as (t & v & Ht & Htl & Hv). exists t, v. split_and!; [done|done|].
    rewrite Helo; [done|]. rewrite last_lookup in Ht. by eapply list_elem_of_lookup_2.
  - intros k a b Ha Hbk. destruct (i_links0 k a b Ha Hbk) as (x & Hx & Hor). exists x.
    rewrite Helo by (by eapply list_elem_of_lookup_2). split; [done|].
    destruct Hor as [?|(? & j & Hj)]; [by left|]. right. split; [done|]. exists j.
    rewrite lookup_insert_ne; [done|]. intros ->. congruence.
  - intros j k a b c Hj Hk. rewrite lookup_insert_ne in Hj
      by (intros ->; by rewrite lookup_insert_eq in Hj).
    rewrite lookup_insert_ne in Hk by (intros ->; by rewrite lookup_insert_eq in Hk). eauto.
  - intros x. rewrite i_queue0. destruct (decide (e = x)) as [<-|Hx].
    + rewrite lookup_insert_eq. split; [intros E; by apply Hp in E|done].
    + by rewrite lookup_insert_ne.
  - intros x. rewrite Hs'. destruct (decide (e = x)) as [<-|Hx].
    + rewrite lookup_insert_eq. split; [by intros (? & _)|by intros [=]].
    + rewrite lookup_insert_ne by done. split; [by intros (_ & ?)|by split; [congruence|]].
  - intros x. destruct (decide (e = x)) as [<-|Hx].
    + rewrite !lookup_insert_eq. split; by eexists.
    + by rewrite !lookup_insert_ne.
  - intros x y. destruct (decide (e = x)) as [<-|Hx]; [done|].
    rewrite lookup_insert_ne by done. intros Hy. apply i_fresh0 in Hy. lia.
  - intros j pc. destruct (decide (i = j)) as [<-|Hij].
    + rewrite lookup_insert_eq. intros [= <-]. cbn. rewrite lookup_insert_eq. split; [done|].
      exists dflt. apply lookup_insert_eq.
    + rewrite lookup_insert_ne by done. intros Hj.
      eapply writer_frame; [by apply i_writers0| |]; cbn.
      * intros x Hx. rewrite lookup_insert_ne by (intros ->; by eapply Hne). split; [done|].
        by eapply Helt.
      * intros t b k _ H1 H2. split; [eauto|]. apply Helo. by eapply list_elem_of_lookup_2.
  - destruct i_reader0 as (h & Hh & Hr & Hl). exists h. split; [done|].
    assert (h ∈ order) as Hin by by eapply list_elem_of_lookup_2. split.
    + destruct (reader w) as [|o|x n|x|x d|d|d]; cbn in *; try done.
      * destruct Hr as (-> & v & Hv). split; [done|]. exists v. by rewrite Helo.
      * destruct Hr as (Hx & v & Hv). rewrite lookup_insert_ne by (intros ->; by eapply Hne).
        split; [done|]. exists v. by erewrite Helt.
      * destruct Hr as (Hx & ->). rewrite lookup_insert_ne by (intros ->; by eapply Hne). done.
    + unfold holds_last in *. cbn. rewrite Helo by done. done.
  - rewrite <- i_values0. f_equal. apply list_omap_ext, Forall2_same_length_lookup_2; [done|].
    intros k x y Hx Hy. rewrite Hx in Hy. injection Hy as <-. rewrite Helo; [done|].
    apply list_elem_of_lookup_2 in Hx. by eapply subseteq_drop.
  - by rewrite Hb.
Qed.

Lemma new_writer_inv w order place i e w' :
  Inv w order place -> writers w !! i = None -> getSpare w = (e, w') ->
  Inv (with_writers (<[i:=Filling e]> (writers w')) w') order (<[e:=WithWriter i]> place).
Proof.
  intros HI Hi. unfold getSpare. pose proof (s_pop_elems (spares w)) as Hpop.
  destruct (s_pop (spares w)) as [[x s']|]; intros [= <- <-].
  - assert (place !! x = Some Spare) as Hx by (apply (i_spares _ _ _ HI); rewrite Hpop; left).
    pose proof (i_spares_nodup _ _ _ HI) as Hnd. rewrite Hpop in Hnd.
    apply list.NoDup_cons in Hnd as [Hni Hnd].
    destruct (proj1 (i_placed _ _ _ HI x)) as (y & Hy); [by eexists|].
    apply (acquire_inv w order place i x); try done.
    + congruence.
    + by eapply i_fresh.
    + intros y'. rewrite <- (i_spares _ _ _ HI), Hpop, elem_of_cons.
      split; [intros Hin; split; [by intros ->|by right]|by intros (? & [->|?])].
  - assert (place !! fresh w = None) as Hn.
    { apply eq_None_not_Some. intros Hs. apply (i_placed _ _ _ HI) in Hs as (y & Hy).
      pose proof (i_fresh _ _ _ HI _ _ Hy). lia. }
    apply (acquire_inv w order place i (fresh w)); try done.
    + intros p Hp. congruence.
    + lia.
    + lia.
    + apply (i_spares_nodup _ _ _ HI).
    + intros y'. rewrite <- (i_spares _ _ _ HI). split; [|by intros (_ & ?)]. intros Hin. split; [|done].
      intros ->. apply (i_spares _ _ _ HI) in Hin. congruence.
Qed.

(** The values after the head, when only elements outside the queue change. *)
Lemma values_ext (m m' : gmap nat Element) (l : list nat) :
  (forall e, e ∈ l -> value <$> m' !! e = value <$> m !! e) ->
  omap (fun e => value <$> m' !! e) l = omap (fun e => value <$> m !! e) l.
Proof.
  intros E. apply list_omap_ext, Forall2_same_length_lookup_2; [done|].
  intros k x y Hx Hy. rewrite Hx in Hy. injection Hy as <-.
  apply E. by eapply list_elem_of_lookup_2.
Qed.

Lemma set_data_inv w order place i e x v :
  Inv w order place -> writers w !! i = Some (Filling e) -> elts w !! e = Some x ->
  Inv (with_elts (<[e:=mkElement (next x) v]> (elts w)) (fresh w) (spares w) w) order place.
Proof.
  intros HI Hi Hx. destruct (i_writers _ _ _ HI _ _ Hi) as (Hp & v0 & Hv0).
  rewrite Hx in Hv0. injection Hv0 as ->. cbn [next].
  pose proof (place_ne _ _ _ _ _ HI Hp ltac:(done)) as Hno.
  assert (forall y, y ∈ order -> <[e:=mkElement None v]> (elts w) !! y = elts w !! y) as Helo.
  { intros y Hy. apply lookup_insert_ne. by intros ->. }
  assert (forall y, place !! y = Some Leaving -> <[e:=mkElement None v]> (elts w) !! y = elts w !! y)
    as Hell by (intros y Hy; apply lookup_insert_ne; intros ->; congruence).
  destruct HI. split; cbn; try done.
  - destruct i_tail0 as (t & u & Ht & Htl & Hu). exists t, u. split_and!; [done|done|].
    rewrite Helo; [done|]. rewrite last_lookup in Ht. by eapply list_elem_of_lookup_2.
  - intros k a b Ha Hb. destruct (i_links0 k a b Ha Hb) as (y & Hy & Hor). exists y.
    rewrite Helo by (by eapply list_elem_of_lookup_2). done.
  - intros y. rewrite i_placed0. destruct (decide (e = y)) as [<-|Hne].
    + rewrite lookup_insert_eq. split; by eexists.
    + by rewrite lookup_insert_ne.
  - intros y z. destruct (decide (e = y)) as [<-|Hne].
    + intros _. by eapply i_fresh0.
    + rewrite lookup_insert_ne by done. apply i_fresh0.
  - intros j pc Hj. pose proof (i_writers0 _ _ Hj) as Hok. destruct (decide (i = j)) as [<-|Hij].
    + rewrite Hi in Hj. injection Hj as <-. cbn. split; [done|]. exists v. apply lookup_insert_eq.
    + eapply writer_frame; [exact Hok| |]; cbn.
      * intros y Hy. split; [done|]. apply lookup_insert_ne. intros ->. congruence.
      * intros t b k _ H1 H2. split; [eauto|]. apply Helo. by eapply list_elem_of_lookup_2.
  - destruct i_reader0 as (h & Hh & Hr & Hl). exists h. split; [done|].
    assert (h ∈ order) as Hin by by eapply list_elem_of_lookup_2. split.
    + destruct (reader w) as [|o|y n|y|y d|d|d]; cbn in *; try done.
      * destruct Hr as (-> & u & Hu). split; [done|]. exists u. by rewrite Helo.
      * destruct Hr as (Hy & u & Hu). split; [done|]. exists u. by rewrite Hell.
    + unfold holds_last in *. cbn. by rewrite Helo.
  - rewrite <- i_values0. f_equal. apply values_ext. intros y Hy. rewrite Helo; [done|].
    by eapply subseteq_drop.
Qed.

Lemma give_back_inv w order place i e :
  Inv w order place -> writers w !! i = Some (Filling e) ->
  Inv (with_writers (delete i (writers w))
         (with_elts (elts w) (fresh w) (s_push e (spares w)) w)) order (<[e:=Spare]> place).
Proof.
  intros HI Hi. destruct (i_writers _ _ _ HI _ _ Hi) as (Hp & v0 & Hv0).
  pose proof (busy_delete _ _ _ Hi) as Hb. cbn in Hb.
  destruct HI. split; cbn; try done.
  - intros k a b Ha Hbk. destruct (i_links0 k a b Ha Hbk) as (y & Hy & [?|(? & j & Hj)]); exists y;
      (split; [done|]); [by left|]. right. split; [done|]. exists j.
    rewrite lookup_delete_ne; [done|]. intros ->. congruence.
  - intros j k a b c Hj Hk. apply lookup_delete_Some in Hj as [_ Hj].
    apply lookup_delete_Some in Hk as [_ Hk]. eauto.
  - intros y. rewrite i_queue0. destruct (decide (e = y)) as [<-|Hne].
    + rewrite lookup_insert_eq, Hp. by split; intros [=].
    + by rewrite lookup_insert_ne.
  - intros y. rewrite s_push_elems, elem_of_cons, i_spares0. destruct (decide (e = y)) as [<-|Hne].
    + rewrite lookup_insert_eq. split; [done|by left].
    + rewrite lookup_insert_ne by done. split; [|by right]. by intros [->|?].
  - rewrite s_push_elems. apply list.NoDup_cons. split; [|done]. rewrite i_spares0, Hp. done.
  - intros y. rewrite <- i_placed0. destruct (decide (e = y)) as [<-|Hne].
    + rewrite lookup_insert_eq, Hp. split; by eexists.
    + by rewrite lookup_insert_ne.
  - intros j pc Hj. apply lookup_delete_Some in Hj as [Hij Hj].
    eapply writer_frame; [by apply i_writers0| |]; cbn.
    + intros y Hy. split; [|done]. rewrite lookup_insert_ne; [done|]. intros ->. congruence.
    + intros t b k _ H1 H2. split; [eauto|done].
  - destruct i_reader0 as (h & Hh & Hr & Hl). exists h. split_and!; [done| |done].
    destruct (reader w) as [|o|y n|y|y d|d|d]; cbn in *; try done.
    + destruct Hr as (Hy & Hu). rewrite lookup_insert_ne by (intros ->; congruence). done.
    + destruct Hr as (Hy & Hu). rewrite lookup_insert_ne by (intros ->; congruence). done.
  - by rewrite i_entered0, Hb.
Qed.

(** The swap of [data_tail]. *)
Lemma swap_tail_inv w order place i e t x :
  Inv w order place -> writers w !! i = Some (Swapping e (Some t)) -> data_tail w = Some t ->
  elts w !! e = Some x ->
  Inv (with_writers (<[i:=Linking t e]> (writers w)) (with_tail e (value x) w))
    (order ++ [e]) (<[e:=InQueue]> place).
Proof.
  intros HI Hi Ht Hx. destruct (i_writers _ _ _ HI _ _ Hi) as (Hp & v0 & Hv0).
  rewrite Hx in Hv0. injection Hv0 as ->. cbn [value].
  pose proof (place_ne _ _ _ _ _ HI Hp ltac:(done)) as Hno.
  destruct (i_tail _ _ _ HI) as (t' & u & Hlast & Htl & Hu). rewrite Ht in Htl. injection Htl as <-.
  pose proof (busy_update _ _ _ (Linking t e) Hi) as Hb. cbn in Hb.
  destruct (proj1 (last_Some _ _) Hlast) as (o0 & Ho0).
  assert (order !! length o0 = Some t) as Htk by (rewrite Ho0; by rewrite list_lookup_middle).
  assert (length order = Datatypes.S (length o0)) as Hlen by (rewrite Ho0, length_app; cbn; lia).
  assert (forall k a b, order !! k = Some a -> order !! Datatypes.S k = Some b -> a <> t) as Hat.
  { intros k a b Ha Hbk ->. pose proof (NoDup_lookup _ _ _ _ (i_nodup _ _ _ HI) Ha Htk) as ->.
    apply lookup_lt_Some in Hbk. lia. }
  destruct (head_in _ _ _ HI) as (h0 & rest & Hor). destruct HI. split; cbn; try done.
  - by rewrite i_head0, Hor.
  - exists e, v0. split_and!; [by rewrite last_snoc|done|done].
  - apply list.NoDup_app. split_and!; [done| |apply NoDup_singleton].
    intros y Hy ->%list_elem_of_singleton. done.
  - intros k a b Ha Hbk. destruct (decide (Datatypes.S k < length order)%nat) as [Hlt|Hge].
    + rewrite lookup_app_l in Ha, Hbk by lia.
      destruct (i_links0 k a b Ha Hbk) as (y & Hy & Hor'). exists y. split; [done|].
      destruct Hor' as [?|(? & j & Hj)]; [by left|]. right. split; [done|]. exists j.
      rewrite lookup_insert_ne; [done|]. intros ->. congruence.
    + apply lookup_lt_Some in Hbk as Hlt. rewrite length_app in Hlt. cbn in Hlt.
      assert (k = length o0) as -> by lia.
      rewrite lookup_app_l, Htk in Ha by lia. injection Ha as <-.
      rewrite lookup_app_r in Hbk by lia. replace (_ - _)%nat with 0%nat in Hbk by lia.
      injection Hbk as <-. eexists. split; [exact Hu|]. right. split; [done|].
      exists i. apply lookup_insert_eq.
  - assert (forall j c, j <> i -> writers w !! j <> Some (Linking t c)) as Hnt.
    { intros j c _ Hj. destruct (i_writers0 _ _ Hj) as (k & H1 & H2 & _). by apply (Hat k t c). }
    intros j k a b c Hj Hk. destruct (decide (i = j)) as [<-|Hij], (decide (i = k)) as [<-|Hik];
      try done.
    + rewrite lookup_insert_eq in Hj. injection Hj as <- <-.
      rewrite lookup_insert_ne in Hk by done. by destruct (Hnt k c).
    + rewrite lookup_insert_eq in Hk. injection Hk as <- <-.
      rewrite lookup_insert_ne in Hj by done. by destruct (Hnt j b).
    + rewrite lookup_insert_ne in Hj, Hk by done. eauto.
  - intros y. rewrite elem_of_app, list_elem_of_singleton, i_queue0.
    destruct (decide (e = y)) as [<-|Hne].
    + rewrite lookup_insert_eq. split; [done|by right].
    + rewrite lookup_insert_ne by done. split; [by intros [?| ->]|by left].
  - intros y. rewrite i_spares0. destruct (decide (e = y)) as [<-|Hne].
    + rewrite lookup_insert_eq, Hp. by split; intros [=].
    + by rewrite lookup_insert_ne.
  - intros y. rewrite <- i_placed0. destruct (decide (e = y)) as [<-|Hne].
    + rewrite lookup_insert_eq, Hp. split; by eexists.
    + by rewrite lookup_insert_ne.
  - intros j pc. destruct (decide (i = j)) as [<-|Hij].
    + rewrite lookup_insert_eq. intros [= <-]. cbn. exists (length o0). split_and!.
      * by rewrite lookup_app_l by lia.
      * rewrite lookup_app_r by lia. by replace (_ - _)%nat with 0%nat by lia.
      * eauto.
    + rewrite lookup_insert_ne by done. intros Hj.
      eapply writer_frame; [by apply i_writers0| |]; cbn.
      * intros y Hy. split; [|done]. rewrite lookup_insert_ne; [done|]. intros ->. congruence.
      * intros a b k _ H1 H2. split; [|done]. exists k.
        split; by apply lookup_app_l_Some.
  - destruct i_reader0 as (h & Hh & Hr & Hl). exists h.
    split_and!; [by apply lookup_app_l_Some| |done].
    destruct (reader w) as [|o|y n|y|y d|d|d]; cbn in *; try done.
    + destruct Hr as (Hy & Hu'). rewrite lookup_insert_ne by (intros ->; congruence). done.
    + destruct Hr as (Hy & Hu'). rewrite lookup_insert_ne by (intros ->; congruence). done.
  - rewrite drop_app_le by (rewrite Hor; cbn; lia). rewrite omap_app, app_assoc, i_values0.
    cbn. by rewrite Hx.
  - rewrite i_entered0, length_app. cbn. f_equal. lia.
Qed.

(** Setting a link keeps the values. *)
Lemma link_value (m : gmap nat Element) t n x y : m !! t = Some x ->
  value <$> <[t:=mkElement n (value x)]> m !! y = value <$> m !! y.
Proof.
  intros Hx. destruct (decide (t = y)) as [<-|Hne].
  - by rewrite lookup_insert_eq, Hx.
  - by rewrite lookup_insert_ne.
Qed.

(** [tmptail->next = newtail]. *)
Lemma link_inv w order place i t e x :
  Inv w order place -> writers w !! i = Some (Linking t e) -> elts w !! t = Some x ->
  Inv (with_writers (<[i:=Counting]> (writers w))
         (with_elts (<[t:=mkElement (Some e) (value x)]> (elts w)) (fresh w) (spares w) w))
    order place.
Proof.
  intros HI Hi Hx. destruct (i_writers _ _ _ HI _ _ Hi) as (k0 & Ht & He & v & Hv).
  assert (t ∈ order) as Hto by by eapply list_elem_of_lookup_2.
  pose proof (busy_update _ _ _ Counting Hi) as Hb. cbn in Hb.
  assert (forall y p, place !! y = Some p -> p <> InQueue ->
    <[t:=mkElement (Some e) (value x)]> (elts w) !! y = elts w !! y) as Helt.
  { intros y p Hy Hp. apply lookup_insert_ne. intros <-. by apply (place_ne _ _ _ _ _ HI Hy Hp). }
  pose proof (i_nodup _ _ _ HI) as Hnd. destruct HI. split; cbn; try done.
  - destruct i_tail0 as (l & u & Hl & Htl & Hu). exists l, u. split_and!; [done|done|].
    rewrite lookup_insert_ne; [done|]. intros <-.
    rewrite last_lookup in Hl. pose proof (NoDup_lookup _ _ _ _ Hnd Ht Hl) as ->.
    apply lookup_lt_Some in He. lia.
  - intros k a b Ha Hbk. destruct (i_links0 k a b Ha Hbk) as (y & Hy & Hor).
    destruct (decide (t = a)) as [<-|Hne].
    + pose proof (NoDup_lookup _ _ _ _ Hnd Ht Ha) as <-. rewrite He in Hbk. injection Hbk as <-.
      rewrite lookup_insert_eq. eexists. split; [done|by left].
    + exists y. rewrite lookup_insert_ne by done. split; [done|].
      destruct Hor as [?|(? & j & Hj)]; [by left|]. right. split; [done|]. exists j.
      rewrite lookup_insert_ne; [done|]. intros <-. congruence.
  - intros j k a b c Hj Hk.
    rewrite lookup_insert_ne in Hj by (intros ->; by rewrite lookup_insert_eq in Hj).
    rewrite lookup_insert_ne in Hk by (intros ->; by rewrite lookup_insert_eq in Hk). eauto.
  - intros y. rewrite i_placed0. destruct (decide (t = y)) as [<-|Hne].
    + rewrite lookup_insert_eq, Hx. split; by eexists.
    + by rewrite lookup_insert_ne.
  - intros y z. destruct (decide (t = y)) as [<-|Hne].
    + intros _. by eapply i_fresh0.
    + rewrite lookup_insert_ne by done. apply i_fresh0.
  - intros j pc. destruct (decide (i = j)) as [<-|Hij].
    + rewrite lookup_insert_eq. by intros [= <-].
    + rewrite lookup_insert_ne by done. intros Hj.
      eapply writer_frame; [by apply i_writers0| |]; cbn.
      * intros y Hy. split; [done|]. by eapply Helt.
      * intros a b k -> H1 H2. split; [eauto|]. apply lookup_insert_ne. intros <-.
        apply Hij. by eapply i_once0.
  - destruct i_reader0 as (h & Hh & Hr & Hl). exists h. split; [done|]. split.
    + destruct (reader w) as [|o|y n|y|y d|d|d]; cbn in *; try done.
      * destruct Hr as (-> & u & Hu). split; [done|]. exists u. rewrite lookup_insert_ne; [done|].
        intros <-. rewrite Hv in Hu. done.
      * destruct Hr as (Hy & u & Hu). split; [done|]. exists u. by erewrite Helt.
    + unfold holds_last in *. cbn. by rewrite link_value.
  - rewrite <- i_values0. f_equal. apply values_ext. intros y _. by apply link_value.
  - rewrite i_entered0. do 2 f_equal. lia.
Qed.

(** The count of a writer that is done. *)
Lemma count_inv w order place i :
  Inv w order place -> writers w !! i = Some Counting ->
  Inv (with_writers (delete i (writers w)) (with_counts (u64 (entered w + 1)) (removed w) w))
    order place.
Proof.
  intros HI Hi. pose proof (busy_delete _ _ _ Hi) as Hb. cbn in Hb.
  destruct HI. split; cbn; try done.
  - intros k a b Ha Hbk. destruct (i_links0 k a b Ha Hbk) as (y & Hy & Hor). exists y.
    split; [done|]. destruct Hor as [?|(? & j & Hj)]; [by left|]. right. split; [done|]. exists j.
    rewrite lookup_delete_ne; [done|]. intros <-. congruence.
  - intros j k a b c Hj Hk. apply lookup_delete_Some in Hj as [_ Hj].
    apply lookup_delete_Some in Hk as [_ Hk]. eauto.
  - intros j pc Hj. apply lookup_delete_Some in Hj as [_ Hj].
    eapply writer_frame; [by apply i_writers0|by eauto|]; cbn. intros a b k _ H1 H2. eauto.
  - rewrite i_entered0, u64_succ. f_equal. lia.
Qed.

(** The swap of [data_head]: the element after the sentinel becomes the sentinel. *)
Lemma swap_head_inv w place h n rest x :
  Inv w (h :: n :: rest) place -> reader w = RSwap h n -> elts w !! n = Some x ->
  Inv (with_reader (RTake h) (with_head n (value x) w)) (n :: rest) (<[h:=Leaving]> place).
Proof.
  intros HI Hrd Hx. pose proof (i_nodup _ _ _ HI) as Hnd.
  apply list.NoDup_cons in Hnd as [Hni Hnd].
  assert (place !! h = Some InQueue) as Hph by (apply (i_queue _ _ _ HI); left).
  destruct (i_reader _ _ _ HI) as (h' & [= <-] & Hr & _). rewrite Hrd in Hr. cbn in Hr.
  destruct Hr as (_ & v & Hv). destruct HI. split; cbn; try done.
  - intros k a b Ha Hb. by apply (i_links0 (Datatypes.S k)).
  - intros y. destruct (decide (h = y)) as [<-|Hne].
    + rewrite lookup_insert_eq. by split.
    + rewrite lookup_insert_ne by done. rewrite <- i_queue0, (elem_of_cons (n :: rest) y h).
      split; [by right|by intros [->|?]].
  - intros y. rewrite i_spares0. destruct (decide (h = y)) as [<-|Hne].
    + rewrite lookup_insert_eq, Hph. by split; intros [=].
    + by rewrite lookup_insert_ne.
  - intros y. rewrite <- i_placed0. destruct (decide (h = y)) as [<-|Hne].
    + rewrite lookup_insert_eq, Hph. split; by eexists.
    + by rewrite lookup_insert_ne.
  - intros j pc Hj. eapply writer_frame; [by apply i_writers0| |]; cbn.
    + intros y Hy. split; [|done]. rewrite lookup_insert_ne; [done|]. intros <-. congruence.
    + intros t e k -> H1 H2. split; [|done]. destruct k as [|k]; [|by exists k].
      injection H1 as <-. destruct (i_writers0 _ _ Hj) as (k' & Hk' & _ & u & Hu).
      rewrite Hv in Hu. done.
  - exists n. split; [done|]. split.
    + split; [apply lookup_insert_eq|by exists v].
    + unfold holds_last. cbn. exists (value x). by rewrite last_snoc, Hx.
  - rewrite <- i_values0. cbn. rewrite Hx. cbn. rewrite <- app_assoc. done.
  - rewrite i_removed0, Hrd, length_app. cbn. f_equal. lia.
Qed.

(** [returnSpare(tmphead)]. *)
Lemma return_spare_inv w order place h d :
  Inv w order place -> reader w = RReturn h d ->
  Inv (with_reader (RCount d) (with_elts (elts w) (fresh w) (s_push h (spares w)) w))
    order (<[h:=Spare]> place).
Proof.
  intros HI Hrd. destruct (i_reader _ _ _ HI) as (h' & Hh & Hr & Hl). rewrite Hrd in Hr.
  destruct Hr as (Hp & ->). unfold holds_last in Hl. rewrite Hrd in Hl.
  destruct HI. split; cbn; try done.
  - intros y. rewrite i_queue0. destruct (decide (h = y)) as [<-|Hne].
    + rewrite lookup_insert_eq, Hp. by split; intros [=].
    + by rewrite lookup_insert_ne.
  - intros y. rewrite s_push_elems, elem_of_cons, i_spares0. destruct (decide (h = y)) as [<-|Hne].
    + rewrite lookup_insert_eq. split; [done|by left].
    + rewrite lookup_insert_ne by done. split; [|by right]. by intros [->|?].
  - rewrite s_push_elems. apply list.NoDup_cons. split; [|done]. rewrite i_spares0, Hp. done.
  - intros y. rewrite <- i_placed0. destruct (decide (h = y)) as [<-|Hne].
    + rewrite lookup_insert_eq, Hp. split; by eexists.
    + by rewrite lookup_insert_ne.
  - intros j pc Hj. eapply writer_frame; [by apply i_writers0| |]; cbn.
    + intros y Hy. split; [|done]. rewrite lookup_insert_ne; [done|]. intros <-. congruence.
    + intros t b k _ H1 H2. eauto.
  - by exists h'.
  - by rewrite i_removed0, Hrd.
Qed.

Lemma count_removed_inv w order place d :
  Inv w order place -> reader w = RCount d ->
  Inv (with_reader (RHold d) (with_counts (entered w) (u64 (removed w + 1)) w)) order place.
Proof.
  intros HI Hrd. destruct (i_reader _ _ _ HI) as (h' & Hh & Hr & Hl). rewrite Hrd in Hr.
  unfold holds_last in Hl. rewrite Hrd in Hl. destruct HI. split; cbn; try done.
  - by exists h'.
  - rewrite i_removed0, Hrd, u64_succ. f_equal. cbn. lia.
Qed.

(** ** All steps *)

Lemma queue_make_inv : Inv make [0%nat] {[0%nat:=InQueue]}.
Proof.
  assert (make = mkWorld {[0%nat:=mkElement None dflt]} 1 s_new (Some 0%nat) (Some 0%nat) 0 0 ∅ RIdle
            [] []) as ->.
  { unfold make, init_list, getSpare, empty, spares. cbn.
    pose proof (s_pop_elems s_new) as H. rewrite s_new_elems in H.
    by destruct (s_pop s_new) as [[e s]|]. }
  split; cbn; try done.
  - by exists 0%nat, dflt.
  - apply NoDup_singleton.
  - intros e. rewrite list_elem_of_singleton, lookup_singleton_Some. split; [by intros ->|by intros [-> _]].
  - intros e. rewrite s_new_elems, lookup_singleton_Some. split; [by intros ?%elem_of_nil|by intros [_ ?]].
  - rewrite s_new_elems. apply NoDup_nil_2.
  - intros e. split; intros (x & [<- _]%lookup_singleton_Some); rewrite lookup_singleton_eq; by eexists.
  - intros e x [<- _]%lookup_singleton_Some. lia.
  - by exists 0%nat.
Qed.

Lemma step_writer_inv w order place i pc :
  Inv w order place -> writers w !! i = Some pc ->
  exists w' order' place', step_writer i pc w = Val w' /\ Inv w' order' place'.
Proof.
  intros HI Hi. pose proof (i_writers _ _ _ HI _ _ Hi) as Hok.
  destruct pc as [e|e o|t e|]; cbn in Hok |- *.
  - eexists _, order, place. split; [done|]. by eapply writer_move_inv.
  - destruct Hok as (Hp & v & Hv). case_bool_decide as Ht.
    + destruct (i_tail _ _ _ HI) as (t & u & _ & Htl & _). rewrite Htl in Ht. subst o.
      rewrite Hv. cbn. eexists _, _, _. split; [done|].
      by apply (swap_tail_inv w order place i e t (mkElement None v)).
    + eexists _, order, place. split; [done|]. eapply writer_move_inv; eauto. cbn. eauto.
  - destruct Hok as (k & _ & _ & v & Hv). rewrite Hv. cbn. eexists _, order, place.
    split; [done|]. by apply (link_inv w order place i t e (mkElement None v)).
  - eexists _, order, place. split; [done|]. by apply count_inv.
Qed.

Lemma step_reader_inv w order place :
  Inv w order place -> exists w' order' place', step_reader w = Val w' /\ Inv w' order' place'.
Proof.
  intros HI. destruct (i_reader _ _ _ HI) as (h & Hh & Hr & Hl).
  pose proof (i_head _ _ _ HI) as Hhd. rewrite Hh in Hhd.
  destruct (in_queue_elt _ _ _ h HI) as (x & Hx); [by eapply list_elem_of_lookup_2|].
  unfold step_reader.
  destruct (reader w) as [|o|y n|y|y d|d|d] eqn:Hrd; cbn in Hr;
    unfold holds_last in Hl; rewrite Hrd in Hl.
  - eexists _, order, place. split; [done|]. apply (reader_move_inv w order place h); try done; by rewrite Hrd.
  - subst o. rewrite Hx. cbn. destruct (next x) as [n|] eqn:Hn.
    + eexists _, order, place. split; [done|].
      apply (reader_move_inv w order place h); [done..| |done|by rewrite Hrd]. split; [done|].
      exists (value x). rewrite Hx, <- Hn. by destruct x.
    + eexists _, order, place. split; [done|]. apply (reader_move_inv w order place h); try done; by rewrite Hrd.
  - destruct Hr as (-> & v & Hv). rewrite Hhd. rewrite bool_decide_eq_true_2 by done.
    destruct (next_of_head _ _ _ _ _ n HI Hh Hv eq_refl) as (rest & ->).
    destruct (in_queue_elt _ _ _ n HI) as (z & Hz); [right; left|]. rewrite Hz. cbn.
    eexists _, _, _. split; [done|]. by apply swap_head_inv.
  - destruct Hr as (Hp & v & Hv). rewrite Hv. cbn. eexists _, order, place. split; [done|].
    apply (reader_move_inv w order place h); try done; by rewrite Hrd.
  - eexists _, _, _. split; [done|]. by apply return_spare_inv.
  - eexists _, order, place. split; [done|]. by apply count_removed_inv.
  - eexists _, order, place. split; [done|]. apply (reader_move_inv w order place h); try done; by rewrite Hrd.
Qed.

Lemma queue_act_inv a w r order place :
  Inv w order place -> act a w = Some r ->
  exists w' order' place', r = Val w' /\ Inv w' order' place'.
Proof.
  intros HI. destruct a as [i|i v|i|i|]; cbn.
  - destruct (writers w !! i) eqn:Hi; [done|]. destruct (getSpare w) as [e w'] eqn:Hg.
    intros [= <-]. eexists _, order, _. split; [done|]. by eapply new_writer_inv.
  - destruct (writers w !! i) as [[e| | |]|] eqn:Hi; try done. intros [= <-].
    destruct (i_writers _ _ _ HI _ _ Hi) as (_ & u & Hu). rewrite Hu. cbn.
    eexists _, order, place. split; [done|]. by apply (set_data_inv w order place i e (mkElement None u)).
  - destruct (writers w !! i) as [[e| | |]|] eqn:Hi; try done. intros [= <-].
    eexists _, order, _. split; [done|]. by apply give_back_inv.
  - destruct (writers w !! i) as [pc|] eqn:Hi; [|done]. intros [= <-]. by apply (step_writer_inv w order place).
  - intros [= <-]. by apply (step_reader_inv w order place).
Qed.

Lemma run_inv l w r order place :
  Inv w order place -> run l w = Some r ->
  exists w' order' place', r = Val w' /\ Inv w' order' place'.
Proof.
  revert w order place. induction l as [|a l IH]; cbn; intros w order place HI.
  - intros [= <-]. eauto.
  - destruct (act a w) as [r'|] eqn:Ha; [|done].
    destruct (queue_act_inv a w r' order place HI Ha) as (w' & order' & place' & -> & HI'). intros Hr. by apply (IH w' order' place').
Qed.

(** ** The reader alone *)

(** Nobody is between two steps that belong together. *)
Definition settled (w : World) : Prop := busy (writers w) = 0%nat /\ reader w = RIdle.

Lemma settled_next w order place k a b :
  Inv w order place -> settled w -> order !! k = Some a -> order !! Datatypes.S k = Some b ->
  exists v, elts w !! a = Some (mkElement (Some b) v).
Proof.
  intros HI [Hb _] Ha Hbk. destruct (i_links _ _ _ HI k a b Ha Hbk) as ([n v] & Hx & Hor). cbn in Hor.
  exists v. destruct Hor as [->|(_ & i & Hi)]; [done|].
  rewrite (busy_delete _ _ _ Hi) in Hb. done.
Qed.

(** One call of [getHead] by an [AsyncQueueReader] that is then dropped. *)
Definition get_steps : list Action := repeat StepReader 7.

Lemma get_one w h n rest place x :
  Inv w (h :: n :: rest) place -> settled w -> elts w !! n = Some x ->
  exists w', run get_steps w = Some (Val w') /\ settled w' /\ got w' = got w ++ [value x]
    /\ sent w' = sent w.
Proof.
  intros HI Hs Hx. destruct (settled_next _ _ _ 0 h n HI Hs eq_refl eq_refl) as (v & Hv).
  pose proof (i_head _ _ _ HI) as Hh. cbn in Hh. destruct Hs as [Hb Hrd].
  destruct w as [m f s hd tl en rm ws rd se go]. cbn in *. subst hd rd.
  eexists. split.
  - unfold get_steps. cbn [repeat run act]. unfold step_reader at 1. cbn. rewrite Hv. cbn.
    rewrite bool_decide_eq_true_2 by done. rewrite Hx. cbn. rewrite Hv. cbn. done.
  - done.
Qed.

Lemma waiting_length w order place :
  Inv w order place -> length (sent w) = (length (got w) + (length order - 1))%nat.
Proof.
  intros HI. rewrite <- (i_values _ _ _ HI), length_app. f_equal. rewrite <- length_drop.
  assert (forall e, e ∈ drop 1 order -> exists x, elts w !! e = Some x) as Hd.
  { intros e He. eapply in_queue_elt; [exact HI|]. by eapply subseteq_drop. }
  induction (drop 1 order) as [|e l IH]; [done|]. destruct (Hd e) as (x & Hx); [left|].
  cbn. rewrite Hx. cbn. f_equal. apply IH. intros y Hy. apply Hd. by right.
Qed.

Lemma run_app l l' w w' : run l w = Some (Val w') -> run (l ++ l') w = run l' w'.
Proof.
  revert w. induction l as [|a l IH]; cbn; intros w; [by intros [= ->]|].
  destruct (act a w) as [[]|]; [apply IH|done..].
Qed.

(** The reader alone empties a settled queue, one call of [getHead] per value. *)
Lemma get_all k w order place :
  Inv w order place -> settled w -> length order = Datatypes.S k ->
  exists w', run (concat (repeat get_steps k)) w = Some (Val w')
    /\ settled w' /\ sent w' = sent w /\ exists t p, Inv w' [t] p.
Proof.
  revert w order place. induction k as [|k IH]; intros w order place HI Hs Hl.
  - exists w. destruct order as [|t [|? ?]]; try done. eauto 10.
  - pose proof (waiting_length _ _ _ HI) as Hw. destruct order as [|h [|n rest]]; try done.
    destruct (in_queue_elt _ _ _ n HI) as (x & Hx); [right; left|].
    destruct (get_one _ _ _ _ _ _ HI Hs Hx) as (w1 & Hr1 & Hs1 & Hg1 & Hse1).
    destruct (run_inv _ _ _ _ _ HI Hr1) as (w2 & order1 & place1 & [= <-] & HI1).
    pose proof (waiting_length _ _ _ HI1) as Hw1. rewrite Hse1, Hg1, length_app in Hw1.
    destruct (head_in _ _ _ HI1) as (h1 & r1 & ->).
    destruct (IH w1 (h1 :: r1) place1 HI1 Hs1) as (w' & Hr' & Hs' & Hse' & Hi').
    { cbn in *. lia. }
    exists w'. cbn [repeat concat]. rewrite (run_app _ _ _ _ Hr1). split_and!; [done|done|congruence|done].
Qed.

(** * Properties *)

(** C20: whatever the order in which any number of writers and the one reader
    take their steps, no step follows a null or dangling pointer, the values
    the reader has got are, in order, a prefix of the values whose writers
    swapped the tail, and a reader that holds an element sees in it the last
    value of that prefix, however the writers go on: a returned element is
    not used again before it is a spare, and no value is lost, doubled or
    overtaken. *)
Theorem async_queue_fifo l r :
  run l make = Some r ->
  exists w waiting, r = Val w /\ sent w = got w ++ waiting
    /\ (forall d, reader w = RHold d -> exists v, data w = Some v /\ list.last (got w) = Some v).
Proof.
  intros Hr. destruct (run_inv _ _ _ _ _ queue_make_inv Hr) as (w & order & place & -> & HI).
  eexists w, _. split_and!; [done|symmetry; apply (i_values _ _ _ HI)|].
  intros d Hd. destruct (i_reader _ _ _ HI) as (h & _ & Hrd & Hl).
  unfold data, holds_last in *. rewrite Hd in *. cbn in Hrd. subst d.
  destruct Hl as (v & ? & ?). eauto.
Qed.

(** once no writer is between its swap and its count and no call of
    [getHead] is under way, [notEmpty] tells whether values wait, [size] is
    their number modulo 2^32, and as many calls of [getHead] as values wait,
    seven steps each, all return, leave the reader with every value sent and
    the queue empty. *)
Theorem async_queue_drain l w :
  run l make = Some (Val w) -> settled w ->
  exists waiting w', sent w = got w ++ waiting
    /\ notEmpty w = Val (bool_decide (waiting <> []))
    /\ size w = u32 (u64 (Z.of_nat (length waiting)))
    /\ run (concat (repeat get_steps (length waiting))) w = Some (Val w')
    /\ got w' = sent w /\ sent w' = sent w /\ notEmpty w' = Val false /\ size w' = 0.
Proof.
  assert (forall w order place, Inv w order place -> settled w ->
    exists waiting, sent w = got w ++ waiting /\ length order = Datatypes.S (length waiting)
    /\ notEmpty w = Val (bool_decide (waiting <> []))
    /\ size w = u32 (u64 (Z.of_nat (length waiting)))) as Hgen.
  { clear. intros w order place HI Hs. pose proof (waiting_length _ _ _ HI) as Hwl.
    pose proof (i_values _ _ _ HI) as Hv. set (ws := omap _ _) in Hv. clearbody ws. exists ws.
    destruct (head_in _ _ _ HI) as (h & rest & ->).
    pose proof (i_head _ _ _ HI) as Hh. cbn in Hh.
    rewrite <- Hv, length_app in Hwl. cbn in Hwl |- *. split_and!; [done|lia| |].
    - unfold notEmpty. rewrite Hh. destruct rest as [|n rest].
      + destruct (i_tail _ _ _ HI) as (t & v & [= <-] & _ & ->). cbn [next].
        destruct ws; [done|cbn in Hwl; lia].
      + destruct (settled_next _ _ _ 0 h n HI Hs eq_refl eq_refl) as (v & ->).
        cbn [next]. rewrite (bool_decide_eq_true_2 (is_Some _)) by by eexists.
        rewrite bool_decide_eq_true_2; [done|]. intros E. rewrite E in Hwl. cbn in Hwl. lia.
    - unfold size. destruct Hs as [Hb Hrd].
      rewrite (i_entered _ _ _ HI), (i_removed _ _ _ HI), Hb, Hrd, <- Hv, length_app.
      unfold u64. rewrite <- Zminus_mod. cbn [removing]. do 2 f_equal. lia. }
  intros Hr Hs. destruct (run_inv _ _ _ _ _ queue_make_inv Hr) as (w1 & order & place & [= <-] & HI).
  destruct (Hgen _ _ _ HI Hs) as (waiting & Hw & Hl & Hne & Hsz).
  destruct (get_all _ _ _ _ HI Hs Hl) as (w' & Hr' & Hs' & Hse & t & p & HI').
  destruct (Hgen _ _ _ HI' Hs') as (waiting' & Hw' & Hl' & Hne' & Hsz').
  destruct waiting' as [|? ?]; [|done]. rewrite app_nil_r in Hw'.
  exists waiting, w'. split_and!; try done. congruence.
Qed.

End Queue.

(** ** Runs *)

(** Two writers; the second swaps first, the first has to retry, and the
    second stalls before its link while the first completes. *)
Definition race : list (@Action nat) :=
  [NewWriter 1; NewWriter 2; SetData 1 10; SetData 2 20; StepWriter 1; StepWriter 2; StepWriter 2;
   StepWriter 1; StepWriter 1; StepWriter 1; StepWriter 1]%nat.
(** Then the link of the second and a first call of [getHead]. *)
Definition race_read : list (@Action nat) :=
  race ++ [StepWriter 2]%nat ++ repeat StepReader 6.
Definition race_settled : list (@Action nat) :=
  race ++ [StepWriter 2; StepWriter 2]%nat ++ get_steps.

Definition after (l : list (@Action nat)) : option (outcome (World (S := list nat))) :=
  run 0%nat l (make 0%nat).
Definition value_of {A} (o : option (outcome A)) (d : A) : A :=
  match o with Some (Val a) => a | _ => d end.

(** With the second writer stalled the value of the first, completely
    written, is not visible: the queue looks empty, and [size] is 1. *)
Example stalled_writer_hides :
  let w := value_of (after race) (make 0%nat) in
  sent w = [20; 10]%nat /\ notEmpty w = Val false /\ size w = 1.
Proof. vm_compute. done. Qed.

(** A value read before its writer counted it: [size] is 2^32 - 1. *)
Example size_below_zero :
  let w := value_of (after [NewWriter 1; StepWriter 1; StepWriter 1; StepWriter 1; StepReader;
                      StepReader; StepReader; StepReader; StepReader; StepReader]%nat)
             (make 0%nat) in
  got w = [0]%nat /\ size w = 4294967295.
Proof. vm_compute. done. Qed.

Lemma async_queue_fifo_witness :
  exists w waiting, after race_read = Some (Val w) /\ got w = [20]%nat
    /\ sent w = got w ++ waiting /\ waiting = [10]%nat /\ data w = Some 20%nat.
Proof.
  destruct (after race_read) as [r|] eqn:E; [|by vm_compute in E].
  destruct (async_queue_fifo 0%nat race_read r E) as (w & waiting & -> & Hs & Hd).
  exists w, waiting. vm_compute in E. injection E as <-. split; [done|]. split; [done|].
  split; [exact Hs|]. cbn in Hs. injection Hs as Hw. split; [by rewrite <- Hw|].
  destruct (Hd _ eq_refl) as (v & Hv & [= <-]). exact Hv.
Defined.

Lemma async_queue_drain_witness :
  exists w w', after race_settled = Some (Val w) /\ settled w /\ got w = [20]%nat
    /\ run 0%nat get_steps w = Some (Val w') /\ got w' = [20; 10]%nat.
Proof.
  destruct (after race_settled) as [[w|e|c]|] eqn:E; try by vm_compute in E.
  assert (settled w) as Hs by (vm_compute in E; injection E as <-; done).
  destruct (async_queue_drain 0%nat race_settled w E Hs)
    as (waiting & w' & Hw & _ & _ & Hr & Hg & _).
  exists w, w'. split; [done|]. split; [done|].
  vm_compute in E. injection E as <-. cbn in Hw. injection Hw as <-. cbn in Hr.
  split; [done|]. split; [exact Hr|by rewrite Hg].
Defined.

End AQ.
