(* ===== verification/DdffFile.v ===== *)
(** The ground floor of the DDFF recording files: the file as [std::fstream]
    shows it, the message buffers of [ddff/DDFFMessageBuffer.cxx], the lists
    of buffers ([ddff/AQMTMessageBufferAlloc.hxx] in an [AsyncList]) and the
    block header of [ddff/ControlBlock.cxx].

    The checksum of [udpcom/CRCcheck.cxx] is computed by a third-party
    library; it is the parameter [crc16_ccitt], of which the code relies on
    nothing but its being a function to 16 bits. *)

From S2P Require Import Prelude.
From S2P Require Import Bytes.
From S2P Require Import Amorph.
#[local] Open Scope Z_scope.

(** [crc16_ccitt] of a range of bytes. *)
Class Crc := {
  crc16_ccitt : list Z -> Z;
  crc16_range : forall l, is_u16 (crc16_ccitt l)
}.

(** The contents of memory from [new char[n]]. *)
Class NewMemory := {
  new_char : nat -> list Z;
  new_char_length : forall n, length (new_char n) = n;
  new_char_ok : forall n, bytes_ok (new_char n)
}.

(** * The file *)

(** [std::fstream], opened for reading and writing: one position for both, and
    a stream that is not [good] neither moves nor transfers. *)
Module FS.

Record fstream := mk { contents : list Z; pos : Z; good : bool }.

Definition make (l : list Z) : fstream := mk l 0 true.
Definition set_pos (p : Z) (f : fstream) : fstream := mk (contents f) p (good f).
Definition set_good (b : bool) (f : fstream) : fstream := mk (contents f) (pos f) b.

Definition clear : M fstream unit := modify (set_good true).
Definition tellg : M fstream Z := gets (fun f => if good f then pos f else -1).
Definition seekg (p : Z) : M fstream unit :=
  modify (fun f => if good f then
                     if p <? 0 then set_good false f else set_pos p f
                   else f).

(** [read]: the bytes transferred, fewer than asked for at the end. *)
Definition read (n : nat) : M fstream (list Z) := fun f =>
  if good f then
    let bs := take n (drop (Z.to_nat (pos f)) (contents f)) in
    (Val bs, mk (contents f) (pos f + Z.of_nat (length bs)) (bool_decide (length bs = n)))
  else (Val [], f).

(** [write]: in place, past the end the file grows. *)
Definition overwrite (p : nat) (bs l : list Z) : list Z :=
  take p l ++ replicate (p - length l) 0 ++ bs ++ drop (p + length bs) l.
Definition write (bs : list Z) : M fstream unit :=
  modify (fun f => if good f then
                     mk (overwrite (Z.to_nat (pos f)) bs (contents f))
                       (pos f + Z.of_nat (length bs)) true
                   else f).
End FS.

(** * Message buffers *)

Module MB.

Record Buffer := mk {
  capacity : Z;
  fill : Z;
  object_offset : Z;
  stream_id : Z;
  start_offset : Z;
  buffer : list Z
}.

Definition set_fill (n : Z) (b : Buffer) : Buffer :=
  mk (capacity b) n (object_offset b) (stream_id b) (start_offset b) (buffer b).
Definition set_object_offset (n : Z) (b : Buffer) : Buffer :=
  mk (capacity b) (fill b) n (stream_id b) (start_offset b) (buffer b).
Definition set_stream_id (n : Z) (b : Buffer) : Buffer :=
  mk (capacity b) (fill b) (object_offset b) n (start_offset b) (buffer b).
Definition set_start_offset (n : Z) (b : Buffer) : Buffer :=
  mk (capacity b) (fill b) (object_offset b) (stream_id b) n (buffer b).
Definition set_buffer (l : list Z) (b : Buffer) : Buffer :=
  mk (capacity b) (fill b) (object_offset b) (stream_id b) (start_offset b) l.

Section MB.
Context `{!NewMemory}.

Definition uint32_max : Z := 4294967295.

Definition make (size : Z) : Buffer :=
  mk (u32 size) 0 0 uint32_max uint32_max (new_char (Z.to_nat (u32 size))).

Definition reset (b : Buffer) : Buffer := mk (capacity b) 0 0 uint32_max uint32_max (buffer b).

(** [b = o], for two objects; the second result is [o] after it. *)
Definition assign (o b : Buffer) : outcome (Buffer * Buffer) :=
  if capacity b <? fill o then Exn BufferBoundary else
  match write_at 0 (take (Z.to_nat (fill o)) (buffer o)) (buffer b) with
  | None => Stuck OutOfBounds
  | Some l =>
      Val (mk (capacity b) (fill o) (object_offset o) (stream_id o) (start_offset o) l,
           set_start_offset uint32_max o)
  end.

Definition write (data : list Z) : M Buffer unit :=
  b ← get;
  if fill b + Z.of_nat (length data) <=? capacity b then
    match write_at (fill b) data (buffer b) with
    | None => stuck OutOfBounds
    | Some l => put (set_fill (u32 (fill b + Z.of_nat (length data))) (set_buffer l b))
    end
  else throw BufferBoundary.

Definition partial (b : Buffer) : bool := fill b <? capacity b.
Definition size (b : Buffer) : Z := fill b.

Definition markOffsets : M Buffer Z :=
  b ← get;
  let '(b, res) := if object_offset b =? 0 then (set_object_offset (fill b) b, 1) else (b, 0) in
  let '(b, res) := if start_offset b =? 0 then (set_start_offset (fill b) b, res + 2)
                   else (b, res) in
  put b ;; mret res.

Definition zeroUnused (b : Buffer) : Buffer :=
  if fill b <? capacity b then
    set_buffer (take (Z.to_nat (fill b)) (buffer b)
                ++ replicate (Z.to_nat (capacity b - fill b)) 0) b
  else b.
End MB.
End MB.

(** * Lists of buffers *)

(** An [AsyncList<DDFFMessageBuffer, AQMTMessageBufferAlloc>] used by one
    thread.  [chain] is the sentinel and the elements after it; it is missing
    until [init_list]. *)
Module BL.

Record BufferList := mk {
  bufsize : Z;
  spares : list MB.Buffer;
  chain : option (MB.Buffer * list MB.Buffer)
}.

Section BL.
Context `{!NewMemory}.

Definition make : BufferList := mk 0 [] None.
Definition set_bufsize (n : Z) (l : BufferList) : BufferList := mk n (spares l) (chain l).

Definition get_list_spare : M BufferList MB.Buffer :=
  l ← get;
  match spares l with
  | b :: r => put (mk (bufsize l) r (chain l)) ;; mret (MB.reset b)
  | [] => mret (MB.make (bufsize l))
  end.
Definition return_list_elt (b : MB.Buffer) : M BufferList unit :=
  modify (fun l => mk (bufsize l) (b :: spares l) (chain l)).
Definition init_list : M BufferList unit :=
  l ← get;
  match chain l with
  | Some _ => mret tt
  | None => b ← get_list_spare; modify (fun l => mk (bufsize l) (spares l) (Some (b, [])))
  end.
Definition write_list_back (b : MB.Buffer) : M BufferList unit :=
  l ← get;
  match chain l with
  | None => stuck NullDeref
  | Some (s, es) => put (mk (bufsize l) (spares l) (Some (s, es ++ [b])))
  end.
(** [&front()]; the elements are used in place. *)
Definition front : M BufferList MB.Buffer :=
  l ← get;
  match chain l with
  | None | Some (_, []) => stuck NullDeref
  | Some (_, b :: _) => mret b
  end.
Definition set_front (b : MB.Buffer) : M BufferList unit :=
  modify (fun l => match chain l with
                   | Some (s, _ :: es) => mk (bufsize l) (spares l) (Some (s, b :: es))
                   | _ => l
                   end).
Definition pop : M BufferList unit :=
  l ← get;
  match chain l with
  | None => stuck NullDeref
  | Some (_, []) => mret tt
  | Some (s, b :: es) => put (mk (bufsize l) (s :: spares l) (Some (b, es)))
  end.
Definition notEmpty : M BufferList bool :=
  l ← get;
  match chain l with
  | None => stuck NullDeref
  | Some (_, es) => mret (negb (bool_decide (es = [])))
  end.
Definition size (l : BufferList) : Z :=
  match chain l with None => 0 | Some (_, es) => Z.of_nat (length es) end.
End BL.
End BL.

#[export] Instance Buffer_eq_dec : EqDecision MB.Buffer.
Proof. solve_decision. Defined.

(** * The header of a block *)

Module CB.
Section CB.
Context `{!BuildConfig} `{!NewMemory} `{!Crc}.

Definition control_block_size : Z := 28.
Definition int64_max : Z := 9223372036854775807.

(** The checksum covers the block behind the checksum. *)
Definition block_crc (capacity : Z) (block : list Z) : option Z :=
  crc16_ccitt <$> read_at 10 (Z.to_nat (u64 (capacity - 10))) block.

Definition control_block_write (stream_id buffer_num : Z) : M MB.Buffer unit := fun b =>
  let pack : M AS.AmorphStore unit :=
    AS.packData_int64 int64_max ;;
    checksum_mark ← Mark.createMark Mark.T_uint16;
    AS.packData_uint16 (u16 stream_id) ;;
    AS.packData_uint32 (MB.capacity b) ;;
    AS.packData_uint32 (MB.fill b) ;;
    AS.packData_uint32 (MB.object_offset b) ;;
    AS.packData_uint32 buffer_num ;;
    s ← get;
    crc ← of_option OutOfBounds (block_crc (MB.capacity b) (AS.stor s));
    Mark.finishMark_value checksum_mark crc in
  let (r, s) := pack (AS.make (MB.buffer b) control_block_size 0) in
  (r, MB.set_buffer (AS.stor s) b).

Record ControlBlockRead := mk {
  next_offset : Z;
  checksum : Z;
  stream_id : Z;
  block_size : Z;
  block_fill : Z;
  object_offset : Z;
  block_num : Z
}.

Definition decode : M ARS.AmorphReStore ControlBlockRead :=
  next_offset ← ARS.unPackData_int64;
  checksum ← ARS.unPackData_uint16;
  stream_id ← ARS.unPackData_uint16;
  block_size ← ARS.unPackData_uint32;
  block_fill ← ARS.unPackData_uint32;
  object_offset ← ARS.unPackData_uint32;
  block_num ← ARS.unPackData_uint32;
  mret (mk next_offset checksum stream_id block_size block_fill object_offset block_num).

(** The constructor from the bytes of a header. *)
Definition of_header (header : list Z) : outcome ControlBlockRead :=
  fst (decode (ARS.make header control_block_size)).

(** The constructor from a buffer read at [offset]. *)
Definition of_buffer (offset : Z) : M MB.Buffer ControlBlockRead := fun b =>
  match of_header (MB.buffer b) with
  | Exn e => (Exn e, b)
  | Stuck f => (Stuck f, b)
  | Val h =>
      if MB.capacity b <? block_size h then (Exn BufferTooSmall, b) else
      let b := MB.set_stream_id (stream_id h)
                 (MB.set_object_offset (object_offset h) (MB.set_fill (block_fill h) b)) in
      match block_crc (MB.capacity b) (MB.buffer b) with
      | None => (Stuck OutOfBounds, b)
      | Some crc =>
          if checksum h =? crc then (Val h, b)
          else (Exn (BlockCrcError offset (MB.fill b)), b)
      end
  end.
End CB.
End CB.
