(* ===== verification/DdffStream.v ===== *)
(** Recording files: the streams and the file handler of
    [ddff/FileStreamWrite.cxx], [ddff/FileStreamRead.cxx] and
    [ddff/FileHandler.cxx].

    A handler owns its streams; a job names its stream by number, where the
    code keeps a pointer to the stream object.  A read position is an offset in
    the buffer at the front of the reader's list. *)

From S2P Require Import Prelude.
From S2P Require Import Bytes.
From S2P Require Import Amorph.
From S2P Require Import DdffFile.
#[local] Open Scope Z_scope.

(** [m] on a part of the state. *)
Definition zoom {S T A} (g : S -> T) (s : T -> S -> S) (m : M T A) : M S A := fun x =>
  let (r, t) := m (g x) in (r, s t x).

(** * Writing a stream *)

Module FSW.

(** [requests] counts the calls of [handler->requestWrite(this)]. *)
Record FileStreamWrite := mk {
  buffers : BL.BufferList;
  current_buffer : option MB.Buffer;
  stream_id : Z;
  buffer_num : Z;
  partialblock_offset : Z;
  previousblock_offset : Z;
  linked_to_file : bool;
  requests : nat
}.

Definition set_buffers (l : BL.BufferList) (w : FileStreamWrite) : FileStreamWrite :=
  mk l (current_buffer w) (stream_id w) (buffer_num w) (partialblock_offset w)
    (previousblock_offset w) (linked_to_file w) (requests w).
Definition set_current (b : option MB.Buffer) (w : FileStreamWrite) : FileStreamWrite :=
  mk (buffers w) b (stream_id w) (buffer_num w) (partialblock_offset w)
    (previousblock_offset w) (linked_to_file w) (requests w).
Definition set_buffer_num (n : Z) (w : FileStreamWrite) : FileStreamWrite :=
  mk (buffers w) (current_buffer w) (stream_id w) n (partialblock_offset w)
    (previousblock_offset w) (linked_to_file w) (requests w).
Definition set_partial (o : Z) (w : FileStreamWrite) : FileStreamWrite :=
  mk (buffers w) (current_buffer w) (stream_id w) (buffer_num w) o
    (previousblock_offset w) (linked_to_file w) (requests w).
Definition set_previous (o : Z) (w : FileStreamWrite) : FileStreamWrite :=
  mk (buffers w) (current_buffer w) (stream_id w) (buffer_num w) (partialblock_offset w)
    o (linked_to_file w) (requests w).
Definition set_linked (b : bool) (w : FileStreamWrite) : FileStreamWrite :=
  mk (buffers w) (current_buffer w) (stream_id w) (buffer_num w) (partialblock_offset w)
    (previousblock_offset w) b (requests w).
Definition set_requests (n : nat) (w : FileStreamWrite) : FileStreamWrite :=
  mk (buffers w) (current_buffer w) (stream_id w) (buffer_num w) (partialblock_offset w)
    (previousblock_offset w) (linked_to_file w) n.

Section FSW.
Context {BC : BuildConfig} {NM : NewMemory} {CR : Crc}.
#[local] Abbreviation W := FileStreamWrite.

Definition in_list {A} (m : M BL.BufferList A) : M W A := zoom buffers set_buffers m.
Definition requestWrite : M W unit := modify (fun w => set_requests (S (requests w)) w).

(** [m] on the current buffer. *)
Definition in_current {A} (m : M MB.Buffer A) : M W A := fun w =>
  match current_buffer w with
  | None => (Stuck NullDeref, w)
  | Some b => let (r, b) := m b in (r, set_current (Some b) w)
  end.

(** A spare as the new current buffer. *)
Definition new_current : M W unit :=
  b ← in_list BL.get_list_spare;
  modify (fun w => set_current (Some (MB.set_stream_id (stream_id w)
                                  (MB.set_fill CB.control_block_size b))) w).

Definition initBuffers (bufsize : Z) : M W unit :=
  w ← get;
  if negb (BL.bufsize (buffers w) =? 0) then throw IncorrectInit else
  modify (set_buffers (BL.set_bufsize (u32 bufsize) (buffers w))) ;;
  in_list BL.init_list ;;
  new_current.

Definition make (id bufsize : Z) : outcome W :=
  let w := mk BL.make None id 0 (-1) (-1) false 0 in
  if bufsize =? 0 then Val w else fst ((initBuffers bufsize ;; get) w).

(** [current_buffer] goes to the list of buffers to write. *)
Definition push_current : M W unit :=
  w ← get;
  b ← of_option NullDeref (current_buffer w);
  in_list (BL.write_list_back b).

Definition closeOff (intermediate : bool) : M W unit :=
  w ← get;
  match current_buffer w with
  | None => mret tt
  | Some b =>
      (if intermediate then
         tmp_buffer ← in_list BL.get_list_spare;
         match MB.assign b tmp_buffer with
         | Exn e => throw e
         | Stuck f => stuck f
         | Val (tmp_buffer, b) =>
             modify (set_current (Some b)) ;;
             in_list (BL.write_list_back (MB.zeroUnused tmp_buffer))
         end
       else
         in_current (modify (fun b => if MB.partial b then MB.zeroUnused b else b)) ;;
         push_current ;;
         modify (set_current None)) ;;
      requestWrite
  end.

(** [increment]: the next place to write is always behind the fill. *)
Definition increment : M W unit :=
  w ← get;
  match current_buffer w with
  | None => throw FileLogicError
  | Some b =>
      let b := MB.set_fill (u32 (MB.fill b + 1)) b in
      modify (set_current (Some b)) ;;
      if MB.fill b <? MB.capacity b then mret tt
      else push_current ;; requestWrite ;; new_current
  end.

(** [*it++ = c] for an iterator at the end of the data. *)
Definition put_char (c : Z) : M W unit :=
  in_current (b ← get;
    match write_at (MB.fill b) [c] (MB.buffer b) with
    | None => stuck OutOfBounds
    | Some l => put (MB.set_buffer l b)
    end) ;;
  increment.

(** [std::copy(data, data + n, it)] *)
Fixpoint put_chars (data : list Z) : M W unit :=
  match data with
  | [] => mret tt
  | c :: data => put_char c ;; put_chars data
  end.

(** [write]; the recursion is at most as deep as there are bytes. *)
Fixpoint write (fuel : nat) (data : list Z) : M W unit :=
  w ← get;
  b ← of_option NullDeref (current_buffer w);
  let nbytes := Z.of_nat (length data) in
  if MB.fill b + nbytes <? MB.capacity b then in_current (MB.write data)
  else
    let excess := u32 (MB.fill b + nbytes - MB.capacity b) in
    in_current (MB.write (take (Z.to_nat (u32 (MB.capacity b - MB.fill b))) data)) ;;
    push_current ;;
    requestWrite ;;
    new_current ;;
    if excess =? 0 then mret tt
    else match fuel with
         | O => stuck OutOfFuel
         | S fuel => write fuel (drop (length data - Z.to_nat excess) data)
         end.

Definition getBufferToWrite : M W MB.Buffer :=
  w ← get;
  b ← in_list BL.front;
  let (r, b) := CB.control_block_write (stream_id w) (buffer_num w) b in
  match r with
  | Exn e => throw e
  | Stuck f => stuck f
  | Val _ =>
      let b := MB.set_stream_id (stream_id w) b in
      in_list (BL.set_front b) ;;
      (if MB.partial b then mret tt else modify (set_buffer_num (u32 (buffer_num w + 1)))) ;;
      mret b
  end.

Definition writingComplete : M W unit := in_list BL.pop.

(** [blockWritten]: the previous block is linked to this one. *)
Definition blockWritten (offset : Z) : M (W * FS.fstream) unit := fun '(w, file) =>
  let w := set_linked true w in
  if previousblock_offset w =? -1 then (Val tt, (set_previous offset w, file)) else
  let patch : M FS.fstream unit :=
    tmpoffset ← FS.tellg;
    FS.seekg (previousblock_offset w) ;;
    (let (r, s) := AS.packData_int64 offset (AS.make (new_char 8) 8 0) in
     match r with
     | Exn e => throw e
     | Stuck f => stuck f
     | Val _ => FS.write (AS.stor s)
     end) ;;
    FS.seekg tmpoffset in
  let (r, file) := patch file in
  match r with
  | Val _ => (Val tt, (set_previous offset w, file))
  | Exn e => (Exn e, (w, file))
  | Stuck f => (Stuck f, (w, file))
  end.

Definition shiftOffset : M (W * FS.fstream) bool := fun '(w, file) =>
  if partialblock_offset w =? -1 then (Val false, (w, file)) else
  let (_, file) := FS.seekg (partialblock_offset w) file in
  (Val true, (set_partial (-1) w, file)).

Definition markItemStart : M W bool := in_current MB.markOffsets ;; mret true.
Definition markItemStart_time (start_stretch start end_ : Z) : M W bool :=
  if (start_stretch <=? start) || (start_stretch <? end_) then markItemStart else mret false.
Definition markNewSegment : M W unit := in_current (modify (MB.set_start_offset 0)).

Definition recordOffsetForRewrite (offset : Z) : M W unit :=
  w ← get;
  dassert (partialblock_offset w =? -1) ;;
  modify (set_partial offset).

(** [accessBuffer]; the data are then read into the current buffer. *)
Definition accessBuffer (offset : Z) (info : CB.ControlBlockRead) : M W unit :=
  w ← get;
  dassert (CB.stream_id info =? stream_id w) ;;
  (if CB.block_size info =? CB.block_fill info then
     modify (set_buffer_num (u32 (CB.block_num info + 1))) ;;
     modify (set_previous offset)
   else
     modify (set_buffer_num (CB.block_num info)) ;;
     modify (set_partial offset) ;;
     modify (set_previous (-1)) ;;
     in_current (modify (fun b => MB.set_object_offset (CB.object_offset info)
                                    (MB.set_fill (CB.block_fill info) b)))) ;;
  modify (set_linked true).

Definition load_current (data : list Z) : M W unit :=
  in_current (b ← get;
    match write_at 0 data (MB.buffer b) with
    | None => stuck OutOfBounds
    | Some l => put (MB.set_buffer l b)
    end).

Definition isInitialised (w : W) : bool := negb (BL.bufsize (buffers w) =? 0).
Definition notInitialised (w : W) : bool := BL.bufsize (buffers w) =? 0.
Definition getBufferSize (w : W) : Z := BL.bufsize (buffers w).
Definition linkedToFile (w : W) : bool := linked_to_file w.
End FSW.
End FSW.

(** * Reading a stream *)

Module FSR.

(** [loads] collects the calls of [handler->requestLoad(this, offset, cycle)];
    [end_ptr] is an offset in the buffer at the front. *)
Record FileStreamRead := mk {
  slice_indexed : bool;
  buffers : BL.BufferList;
  indices : list Z;
  num_cache : Z;
  requested : option (list Z);
  stream_id : Z;
  end_ptr : Z;
  start_offset : Z;
  end_offset : Z;
  extra_loads : Z;
  read_cycle : Z;
  first_buffer_load : bool;
  loads : list (Z * Z)
}.

Definition set_buffers (l : BL.BufferList) (r : FileStreamRead) : FileStreamRead :=
  mk (slice_indexed r) l (indices r) (num_cache r) (requested r) (stream_id r) (end_ptr r)
    (start_offset r) (end_offset r) (extra_loads r) (read_cycle r) (first_buffer_load r) (loads r).
Definition set_indices (l : list Z) (r : FileStreamRead) : FileStreamRead :=
  mk (slice_indexed r) (buffers r) l (num_cache r) (requested r) (stream_id r) (end_ptr r)
    (start_offset r) (end_offset r) (extra_loads r) (read_cycle r) (first_buffer_load r) (loads r).
Definition set_num_cache (n : Z) (r : FileStreamRead) : FileStreamRead :=
  mk (slice_indexed r) (buffers r) (indices r) n (requested r) (stream_id r) (end_ptr r)
    (start_offset r) (end_offset r) (extra_loads r) (read_cycle r) (first_buffer_load r) (loads r).
Definition set_requested (l : option (list Z)) (r : FileStreamRead) : FileStreamRead :=
  mk (slice_indexed r) (buffers r) (indices r) (num_cache r) l (stream_id r) (end_ptr r)
    (start_offset r) (end_offset r) (extra_loads r) (read_cycle r) (first_buffer_load r) (loads r).
Definition set_end_ptr (n : Z) (r : FileStreamRead) : FileStreamRead :=
  mk (slice_indexed r) (buffers r) (indices r) (num_cache r) (requested r) (stream_id r) n
    (start_offset r) (end_offset r) (extra_loads r) (read_cycle r) (first_buffer_load r) (loads r).
Definition set_range (s e : Z) (r : FileStreamRead) : FileStreamRead :=
  mk (slice_indexed r) (buffers r) (indices r) (num_cache r) (requested r) (stream_id r)
    (end_ptr r) s e (extra_loads r) (read_cycle r) (first_buffer_load r) (loads r).
Definition set_extra (n : Z) (r : FileStreamRead) : FileStreamRead :=
  mk (slice_indexed r) (buffers r) (indices r) (num_cache r) (requested r) (stream_id r)
    (end_ptr r) (start_offset r) (end_offset r) n (read_cycle r) (first_buffer_load r) (loads r).
Definition set_cycle (n : Z) (r : FileStreamRead) : FileStreamRead :=
  mk (slice_indexed r) (buffers r) (indices r) (num_cache r) (requested r) (stream_id r)
    (end_ptr r) (start_offset r) (end_offset r) (extra_loads r) n (first_buffer_load r) (loads r).
Definition set_first (b : bool) (r : FileStreamRead) : FileStreamRead :=
  mk (slice_indexed r) (buffers r) (indices r) (num_cache r) (requested r) (stream_id r)
    (end_ptr r) (start_offset r) (end_offset r) (extra_loads r) (read_cycle r) b (loads r).
Definition set_loads (l : list (Z * Z)) (r : FileStreamRead) : FileStreamRead :=
  mk (slice_indexed r) (buffers r) (indices r) (num_cache r) (requested r) (stream_id r)
    (end_ptr r) (start_offset r) (end_offset r) (extra_loads r) (read_cycle r)
    (first_buffer_load r) l.

Section FSR.
Context {BC : BuildConfig} {NM : NewMemory} {CR : Crc}.
#[local] Abbreviation R := FileStreamRead.

Definition in_list {A} (m : M BL.BufferList A) : M R A := zoom buffers set_buffers m.
Definition requestLoad (offset cycle : Z) : M R unit :=
  modify (fun r => set_loads (loads r ++ [(offset, cycle)]) r).
Definition isInitialised (r : R) : bool := negb (BL.bufsize (buffers r) =? 0).
Definition isActive : M R bool :=
  b ← in_list BL.notEmpty; r ← get; mret ((b : bool) || negb (bool_decide (indices r = []))).

Definition make (stream_id num_cache : Z) (slice_indexed : bool) : R :=
  mk slice_indexed BL.make [] num_cache (if num_cache =? 0 then None else Some []) stream_id 0 (-1)
    (if slice_indexed then 0 else CB.int64_max) 0 0 true [].

Definition initBuffer (bufsize : Z) : M R unit :=
  r ← get;
  if BL.bufsize (buffers r) =? 0 then
    modify (set_buffers (BL.set_bufsize (u32 bufsize) (buffers r))) ;;
    in_list BL.init_list
  else mret tt.

Definition push_requested (offset : Z) : M R unit :=
  r ← get;
  l ← of_option NullDeref (requested r);
  modify (set_requested (Some (l ++ [offset]))).

Definition informOffset (offset : Z) : M R bool :=
  r ← get;
  dassert (negb (BL.bufsize (buffers r) =? 0)) ;;
  if slice_indexed r then mret true else
  if start_offset r =? -1 then
    modify (set_range offset (end_offset r)) ;;
    dassert (bool_decide (indices r = [])) ;;
    dassert (bool_decide (default [] (requested r) = [])) ;;
    push_requested offset ;;
    requestLoad offset (read_cycle r) ;;
    mret true
  else mret false.

Definition getBufferToLoad : M R MB.Buffer := in_list BL.get_list_spare.

Definition pushRequests : M R unit :=
  r ← get;
  match indices r with
  | offset :: l =>
      if BL.size (buffers r) <? num_cache r then
        requestLoad offset (read_cycle r) ;; modify (set_indices l)
      else mret tt
  | [] => mret tt
  end.

(** The buffer to append, once it is known to hold wanted data. *)
Definition append_fit (buffer : MB.Buffer) (offset : Z) : M R unit :=
  r ← get;
  let buffer := if end_offset r <? offset + MB.fill buffer
                then MB.set_fill (u32 (end_offset r - offset)) buffer else buffer in
  in_list (BL.write_list_back buffer) ;;
  modify (set_first false) ;;
  pushRequests.

Definition appendBuffer (buffer : MB.Buffer) (offset next_offset cycle : Z) : M R unit :=
  r ← get;
  if cycle <? read_cycle r then in_list (BL.return_list_elt buffer) else
  when (next_offset <? end_offset r) (modify (set_indices (indices r ++ [next_offset]))) ;;
  if first_buffer_load r then
    if offset <? start_offset r then
      dassert (start_offset r <=? offset + MB.fill buffer) ;;
      modify (set_end_ptr (MB.fill buffer)) ;;
      append_fit (MB.set_object_offset (u32 (start_offset r - offset)) buffer) offset
    else if (MB.object_offset buffer =? 0) || (offset + MB.object_offset buffer <? start_offset r)
    then in_list (BL.return_list_elt buffer) ;; pushRequests
    else modify (set_end_ptr (MB.fill buffer)) ;; append_fit buffer offset
  else append_fit (MB.set_object_offset CB.control_block_size buffer) offset.

Definition currentBuffer : M R (option MB.Buffer) :=
  b ← in_list BL.notEmpty;
  if (b : bool) then Some <$> in_list BL.front else mret None.

(** [current()]; the result is [None] for the null pointer. *)
Definition current (custom_offset : Z) : M R (option Z) :=
  o ← currentBuffer;
  match o with
  | None => mret None
  | Some b => mret (Some (if custom_offset =? 0 then MB.object_offset b else custom_offset))
  end.
Definition iterator : M R (option Z) := current 0.

(** [*m_ptr] *)
Definition deref (m_ptr : option Z) : M R Z :=
  m ← of_option NullDeref m_ptr;
  b ← in_list BL.front;
  l ← of_option OutOfBounds (read_at m 1 (MB.buffer b));
  of_option OutOfBounds (l !! 0%nat).

Definition clear_buffers : M R unit :=
  in_list BL.notEmpty ;;
  modify (fun r => set_buffers (Nat.iter (Z.to_nat (BL.size (buffers r)))
                                  (fun l => snd (BL.pop l)) (buffers r)) r).

Definition resetRead : M R unit :=
  modify (fun r => set_range 0 CB.int64_max (set_cycle (u32 (read_cycle r + 1)) r)) ;;
  clear_buffers ;;
  modify (set_indices []).

Definition setReadRange (offset end_off blockstart : Z) : M R unit :=
  modify (fun r => set_first true (set_range (offset + blockstart) end_off
                     (set_cycle (u32 (read_cycle r + 1)) r))) ;;
  clear_buffers ;;
  modify (set_indices []) ;;
  push_requested offset ;;
  r ← get;
  requestLoad offset (read_cycle r).
End FSR.
End FSR.

(** * The file handler *)

Module FH.

Inductive Mode := New | Truncate | Append | Any | Read.
#[export] Instance Mode_eq_dec : EqDecision Mode.
Proof. solve_decision. Defined.

Record StreamSetInfo := mkSet {
  writer : option FSW.FileStreamWrite;
  reader : option FSR.FileStreamRead;
  lastblock_location : Z;
  firstblock_location : Z;
  block_size : Z
}.

(** [read_job]: the stream read, the offset and the cycle. *)
Record FileHandler := mk {
  blocksize : Z;
  streams : list StreamSetInfo;
  write_jobs : list nat;
  read_jobs : list (nat * (Z * Z));
  offset : Z;
  file : FS.fstream;
  open_mode : Mode;
  file_existing : bool
}.

Definition set_writer (w : option FSW.FileStreamWrite) (s : StreamSetInfo) : StreamSetInfo :=
  mkSet w (reader s) (lastblock_location s) (firstblock_location s) (block_size s).
Definition set_reader (r : option FSR.FileStreamRead) (s : StreamSetInfo) : StreamSetInfo :=
  mkSet (writer s) r (lastblock_location s) (firstblock_location s) (block_size s).
Definition set_last (o : Z) (s : StreamSetInfo) : StreamSetInfo :=
  mkSet (writer s) (reader s) o (firstblock_location s) (block_size s).
Definition set_first (o : Z) (s : StreamSetInfo) : StreamSetInfo :=
  mkSet (writer s) (reader s) (lastblock_location s) o (block_size s).
Definition set_block_size (n : Z) (s : StreamSetInfo) : StreamSetInfo :=
  mkSet (writer s) (reader s) (lastblock_location s) (firstblock_location s) n.

Definition set_streams (l : list StreamSetInfo) (h : FileHandler) : FileHandler :=
  mk (blocksize h) l (write_jobs h) (read_jobs h) (offset h) (file h) (open_mode h)
    (file_existing h).
Definition set_write_jobs (l : list nat) (h : FileHandler) : FileHandler :=
  mk (blocksize h) (streams h) l (read_jobs h) (offset h) (file h) (open_mode h)
    (file_existing h).
Definition set_read_jobs (l : list (nat * (Z * Z))) (h : FileHandler) : FileHandler :=
  mk (blocksize h) (streams h) (write_jobs h) l (offset h) (file h) (open_mode h)
    (file_existing h).
Definition set_offset (o : Z) (h : FileHandler) : FileHandler :=
  mk (blocksize h) (streams h) (write_jobs h) (read_jobs h) o (file h) (open_mode h)
    (file_existing h).
Definition set_file (f : FS.fstream) (h : FileHandler) : FileHandler :=
  mk (blocksize h) (streams h) (write_jobs h) (read_jobs h) (offset h) f (open_mode h)
    (file_existing h).
Definition set_opened (m : Mode) (e : bool) (n : Z) (h : FileHandler) : FileHandler :=
  mk n (streams h) (write_jobs h) (read_jobs h) (offset h) (file h) m e.

Section FH.
Context {BC : BuildConfig} {NM : NewMemory} {CR : Crc}.
#[local] Abbreviation H := FileHandler.

(** ** Reaching the parts *)

Definition in_file {A} (m : M FS.fstream A) : M H A := zoom file set_file m.

Definition stream_at (sid : nat) : M H StreamSetInfo :=
  h ← get; of_option OutOfBounds (streams h !! sid).
Definition put_stream (sid : nat) (s : StreamSetInfo) : M H unit :=
  modify (fun h => set_streams (<[sid:=s]> (streams h)) h).

(** A method of the writer of a stream, with the file; the writes it asks for
    are scheduled. *)
Definition on_writer_file {A} (sid : nat) (m : M (FSW.FileStreamWrite * FS.fstream) A)
    : M H A := fun h =>
  match streams h !! sid with
  | None => (Stuck OutOfBounds, h)
  | Some s =>
      match writer s with
      | None => (Stuck NullDeref, h)
      | Some w =>
          let '(r, (w, f)) := m (w, file h) in
          (r, mk (blocksize h)
                (<[sid:=set_writer (Some (FSW.set_requests 0 w)) s]> (streams h))
                (write_jobs h ++ replicate (FSW.requests w) sid)
                (read_jobs h) (offset h) f (open_mode h) (file_existing h))
      end
  end.
Definition on_writer {A} (sid : nat) (m : M FSW.FileStreamWrite A) : M H A :=
  on_writer_file sid (zoom fst (fun w p => (w, snd p)) m).

(** A method of the reader of a stream; the loads it asks for are scheduled. *)
Definition on_reader {A} (sid : nat) (m : M FSR.FileStreamRead A) : M H A := fun h =>
  match streams h !! sid with
  | None => (Stuck OutOfBounds, h)
  | Some s =>
      match reader s with
      | None => (Stuck NullDeref, h)
      | Some r =>
          let '(a, r) := m r in
          (a, mk (blocksize h)
                (<[sid:=set_reader (Some (FSR.set_loads [] r)) s]> (streams h))
                (write_jobs h)
                (read_jobs h ++ map (pair sid) (FSR.loads r))
                (offset h) (file h) (open_mode h) (file_existing h))
      end
  end.

(** ** Streams *)

Definition empty_set : StreamSetInfo := mkSet None None (-1) (-1) 0.
Definition set_of_writer (w : FSW.FileStreamWrite) : StreamSetInfo :=
  mkSet (Some w) None (-1) (-1) (FSW.getBufferSize w).

(** [streams.resize(n)], for [n] not below the size. *)
Definition grow (n : nat) (l : list StreamSetInfo) : list StreamSetInfo :=
  l ++ replicate (n - length l) empty_set.

Definition setReader (sid : nat) (r : FSR.FileStreamRead) : M H unit :=
  s ← stream_at sid;
  put_stream sid (set_reader (Some r) s) ;;
  (if block_size s =? 0 then mret tt else on_reader sid (FSR.initBuffer (block_size s))) ;;
  (if firstblock_location s =? -1 then mret tt
   else on_reader sid (FSR.informOffset (firstblock_location s)) ;; mret tt).

(** [file.read(writer->accessBuffer(offset, info), block_size)] *)
Definition read_back (sid : nat) (offset : Z) (info : CB.ControlBlockRead) : M H unit :=
  on_writer sid (FSW.accessBuffer offset info) ;;
  s ← stream_at sid;
  data ← in_file (FS.read (Z.to_nat (block_size s)));
  on_writer sid (FSW.load_current data).

Definition setWriter (sid : nat) (bufsize : Z) : M H unit :=
  s ← stream_at sid;
  (if negb (bufsize =? 0) && (block_size s =? 0) then
     put_stream sid (set_block_size bufsize s) ;;
     match reader s with
     | Some _ => on_reader sid (FSR.initBuffer bufsize)
     | None => mret tt
     end
   else if bufsize =? 0 then mret tt
   else if block_size s =? bufsize then mret tt
   else throw IncorrectInit) ;;
  s ← stream_at sid;
  match writer s with
  | Some _ => throw EntryExists
  | None =>
      match FSW.make (Z.of_nat sid) (block_size s) with
      | Exn e => throw e
      | Stuck f => stuck f
      | Val w =>
          put_stream sid (set_writer (Some w) s) ;;
          if lastblock_location s =? -1 then mret tt
          else
            dassert (negb (block_size s =? 0)) ;;
            in_file (FS.seekg (lastblock_location s)) ;;
            header ← in_file (FS.read (Z.to_nat CB.control_block_size));
            match CB.of_header header with
            | Exn e => throw e
            | Stuck f => stuck f
            | Val hdata => read_back sid (lastblock_location s) hdata
            end
      end
  end.

(** [StreamSetInfo::blockWritten] *)
Definition set_blockWritten (sid : nat) (offset : Z) : M H unit :=
  s ← stream_at sid;
  if firstblock_location s =? -1 then
    put_stream sid (set_first offset s) ;;
    dassert (negb (block_size s =? 0)) ;;
    match reader s with
    | Some _ => on_reader sid (FSR.informOffset offset) ;; mret tt
    | None => mret tt
    end
  else mret tt.

(** [StreamSetInfo::checkBlock] *)
Definition checkFirst (sid : nat) (offset : Z) (hdata : CB.ControlBlockRead) : M H unit :=
  s ← stream_at sid;
  if negb (CB.block_num hdata =? 0) then throw (FileReadError offset) else
  put_stream sid (set_first offset s) ;;
  s ← stream_at sid;
  (if block_size s =? 0 then put_stream sid (set_block_size (CB.block_size hdata) s)
   else if block_size s =? CB.block_size hdata then mret tt
   else throw FileInconsistentBufsize) ;;
  s ← stream_at sid;
  (match writer s with
   | Some w => if FSW.isInitialised w then mret tt
               else on_writer sid (FSW.initBuffers (block_size s))
   | None => mret tt
   end) ;;
  match reader s with
  | Some r =>
      if FSR.isInitialised r then mret tt
      else on_reader sid (FSR.initBuffer (block_size s)) ;;
           on_reader sid (FSR.informOffset offset) ;; mret tt
  | None => mret tt
  end.
Definition checkBlock (sid : nat) (offset : Z) (hdata : CB.ControlBlockRead) : M H unit :=
  s ← stream_at sid;
  (if firstblock_location s =? -1 then checkFirst sid offset hdata else mret tt) ;;
  s ← stream_at sid;
  if (CB.next_offset hdata =? CB.int64_max) && (lastblock_location s =? -1) then
    (match writer s with
     | Some w => if FSW.linkedToFile w then mret tt
                 else in_file (FS.seekg offset) ;; read_back sid offset hdata
     | None => mret tt
     end) ;;
    s ← stream_at sid;
    put_stream sid (set_last offset s)
  else mret tt.

(** ** The handler *)

Definition make : H := mk 0 [] [] [] 0 (FS.mk [] 0 false) New false.

(** [checkIndices]: the loop from the header just read. *)
Fixpoint check_blocks (fuel : nat) (offset : Z) (header : list Z) : M H unit :=
  h ← get;
  if negb (FS.good (file h)) then mret tt else
  match fuel with
  | O => stuck OutOfFuel
  | S fuel =>
      match CB.of_header header with
      | Exn e => throw e
      | Stuck f => stuck f
      | Val hdata =>
          let sid := Z.to_nat (CB.stream_id hdata) in
          modify (fun h => set_streams (grow (S sid) (streams h)) h) ;;
          checkBlock sid offset hdata ;;
          let offset := offset + CB.block_size hdata in
          in_file (FS.seekg offset) ;;
          header ← in_file (FS.read (Z.to_nat CB.control_block_size));
          check_blocks fuel offset header
      end
  end.
Definition checkIndices (fuel : nat) (offset : Z) : M H unit :=
  in_file (FS.seekg offset) ;;
  header ← in_file (FS.read (Z.to_nat CB.control_block_size));
  check_blocks fuel offset header ;;
  in_file FS.clear ;;
  in_file (FS.seekg 0).

(** [open]; [existing] is what the file system holds under the name. *)
Definition open (fuel : nat) (existing : option (list Z)) (mode : Mode) (blocksize_ : Z)
    : M H unit :=
  h ← get;
  if negb (blocksize h =? 0) then throw FileAlreadyOpened else
  modify (set_opened mode (bool_decide (is_Some existing)) blocksize_) ;;
  match existing, mode with
  | Some _, New => throw FileExists
  | None, (Read | Append) => throw FileMissing
  | _, _ =>
      modify (set_file (FS.make (if bool_decide (mode = Truncate) then [] else
                                 default [] existing))) ;;
      if bool_decide (is_Some existing) && negb (bool_decide (mode = Truncate))
      then checkIndices fuel 0 else mret tt
  end.

Definition createWrite (bufsize : Z) : M H nat :=
  h ← get;
  if bool_decide (open_mode h = Read) then throw FileReadonlyNoWrite else
  match FSW.make (Z.of_nat (length (streams h)))
          (if bufsize =? 0 then blocksize h else bufsize) with
  | Exn e => throw e
  | Stuck f => stuck f
  | Val w => modify (set_streams (streams h ++ [set_of_writer w])) ;; mret (length (streams h))
  end.

Definition attachWrite (sid : nat) (bufsize : Z) : M H unit :=
  h ← get;
  if bool_decide (open_mode h = Read) then throw FileReadonlyNoWrite else
  if bool_decide (length (streams h) < sid)%nat then throw EntryNotFound else
  if bool_decide (sid = length (streams h)) then createWrite bufsize ;; mret tt
  else setWriter sid bufsize.

Definition createRead (stream_id : nat) (num_cache : Z) (slice_indexed : bool) : M H unit :=
  modify (fun h => set_streams (grow (S stream_id) (streams h)) h) ;;
  s ← stream_at stream_id;
  match reader s with
  | Some _ => throw DuplicateFileStreamRead
  | None => setReader stream_id (FSR.make (Z.of_nat stream_id) num_cache slice_indexed)
  end.

(** One turn of the loop of [processWrites]. *)
Definition process_write (sid : nat) : M H unit :=
  buffer ← on_writer sid FSW.getBufferToWrite;
  shifted ← on_writer_file sid FSW.shiftOffset;
  (if (shifted : bool) then
     tmpoffset ← in_file FS.tellg;
     in_file (FS.write (MB.buffer buffer)) ;;
     when (MB.partial buffer) (on_writer sid (FSW.recordOffsetForRewrite tmpoffset)) ;;
     h ← get;
     in_file (FS.seekg (offset h))
   else
     h ← get;
     in_file (FS.write (MB.buffer buffer)) ;;
     when (MB.partial buffer) (on_writer sid (FSW.recordOffsetForRewrite (offset h))) ;;
     dassert (bool_decide (MB.stream_id buffer < Z.of_nat (length (streams h)))) ;;
     set_blockWritten (Z.to_nat (MB.stream_id buffer)) (offset h) ;;
     on_writer_file sid (FSW.blockWritten (offset h)) ;;
     modify (fun h => set_offset (offset h + MB.capacity buffer) h)) ;;
  on_writer sid FSW.writingComplete.

Fixpoint process_writes (fuel : nat) : M H nat :=
  h ← get;
  match write_jobs h with
  | [] => mret O
  | sid :: _ =>
      match fuel with
      | O => stuck OutOfFuel
      | S fuel =>
          process_write sid ;;
          modify (fun h => set_write_jobs (tail (write_jobs h)) h) ;;
          n ← process_writes fuel;
          mret (S n)
      end
  end.
(** No write is scheduled while the jobs are processed. *)
Definition processWrites : M H nat :=
  h ← get; process_writes (length (write_jobs h)).

Fixpoint close_writers (n sid : nat) (intermediate : bool) : M H unit :=
  match n with
  | O => mret tt
  | S n =>
      s ← stream_at sid;
      (match writer s with
       | Some _ => on_writer sid (FSW.closeOff intermediate)
       | None => mret tt
       end) ;;
      close_writers n (S sid) intermediate
  end.
Definition syncToFile (intermediate : bool) : M H unit :=
  h ← get;
  close_writers (length (streams h)) 0 intermediate ;;
  processWrites ;;
  mret tt.

(** ** Loading *)

(** One turn of the loop of [runLoads]. *)
Definition run_load (sid : nat) (offset cycle : Z) : M H unit :=
  in_file (FS.seekg offset) ;;
  buffer ← on_reader sid FSR.getBufferToLoad;
  dassert (0 <? MB.capacity buffer) ;;
  data ← in_file (FS.read (Z.to_nat (MB.capacity buffer)));
  l ← of_option OutOfBounds (write_at 0 data (MB.buffer buffer));
  let (r, buffer) := CB.of_buffer offset (MB.set_buffer l buffer) in
  match r with
  | Exn e => throw e
  | Stuck f => stuck f
  | Val hdata =>
      if CB.stream_id hdata =? Z.of_nat sid then
        on_reader sid (FSR.appendBuffer buffer offset (CB.next_offset hdata) cycle)
      else
        modify (fun h => set_read_jobs (tail (read_jobs h)) h) ;;
        throw FileWrongStreamid
  end.

Fixpoint run_loads (fuel : nat) : M H unit :=
  h ← get;
  match read_jobs h with
  | (sid, (offset, cycle)) :: jobs =>
      if negb (FS.good (file h)) then mret tt else
      match fuel with
      | O => stuck OutOfFuel
      | S fuel =>
          modify (set_read_jobs jobs) ;;
          run_load sid offset cycle ;;
          run_loads fuel
      end
  | [] => mret tt
  end.
Definition runLoads (fuel : nat) : M H unit :=
  in_file FS.clear ;;
  run_loads fuel ;;
  in_file (FS.seekg 0) ;;
  in_file FS.clear.

(** [FileStreamRead::increment] *)
Definition increment (fuel : nat) (sid : nat) (m_ptr : Z) : M H (option Z) :=
  o ← on_reader sid FSR.currentBuffer;
  match o with
  | None => mret None
  | Some _ =>
      e ← on_reader sid (gets FSR.end_ptr);
      if m_ptr + 1 =? e then
        on_reader sid (FSR.in_list BL.pop) ;;
        b ← on_reader sid (FSR.in_list BL.notEmpty);
        (if (b : bool) then mret tt
         else on_reader sid FSR.pushRequests ;; runLoads fuel) ;;
        o ← on_reader sid FSR.currentBuffer;
        match o with
        | Some b =>
            if MB.fill b =? CB.control_block_size then
              on_reader sid (FSR.in_list BL.pop) ;; mret None
            else
              on_reader sid (modify (FSR.set_end_ptr (MB.fill b))) ;;
              mret (Some (MB.object_offset b))
        | None => mret None
        end
      else mret (Some (m_ptr + 1))
  end.

(** [preload] *)
Fixpoint preload_loop (fuel ii : nat) (sid : nat) (nloaded : Z) : M H Z :=
  r ← on_reader sid get;
  match ii, FSR.indices r with
  | S ii, i :: l =>
      if nloaded <? Z.of_nat (S ii) then
        on_reader sid (FSR.requestLoad i (FSR.read_cycle r)) ;;
        on_reader sid (FSR.push_requested i) ;;
        on_reader sid (modify (FSR.set_indices l)) ;;
        runLoads fuel ;;
        n ← preload_loop fuel ii sid nloaded;
        mret (n + 1)
      else mret 0
  | _, _ => mret 0
  end.
Definition preload (fuel : nat) (sid : nat) : M H Z :=
  r ← on_reader sid get;
  let nloaded := u32 (Z.of_nat (length (default [] (FSR.requested r)))
                      + BL.size (FSR.buffers r)) in
  (if 0 <? FSR.extra_loads r then
     on_reader sid (modify (fun r => FSR.set_extra 0
       (FSR.set_num_cache (u32 (FSR.num_cache r + FSR.extra_loads r)) r)))
   else if (FSR.num_cache r <? nloaded) && (3 <? FSR.num_cache r) then
     on_reader sid (modify (fun r => FSR.set_num_cache (FSR.num_cache r - 1) r))
   else mret tt) ;;
  r ← on_reader sid get;
  preload_loop fuel (Z.to_nat (FSR.num_cache r)) sid nloaded.

(** ** Using a handler *)

(** Reading a stream to its end: [for (it = iterator(); it != end(); ++it)];
    [lf] is the fuel of the loads. *)
Fixpoint read_from (lf fuel : nat) (sid : nat) (it : option Z) : M H (list Z) :=
  match it with
  | None => mret []
  | Some m =>
      match fuel with
      | O => stuck OutOfFuel
      | S fuel =>
          c ← on_reader sid (FSR.deref it);
          it ← increment lf sid m;
          l ← read_from lf fuel sid it;
          mret (c :: l)
      end
  end.
Definition read_all (lf fuel : nat) (sid : nat) : M H (list Z) :=
  it ← on_reader sid FSR.iterator; read_from lf fuel sid it.
End FH.
End FH.
