(* ===== verification/DdffBlock.v ===== *)
(** Recording files: the bytes of a block, and the round trip through the
    functions of [ddff/ControlBlock.cxx]. *)

From S2P Require Import Prelude.
From S2P Require Import Bytes.
From S2P Require Import Amorph.
From S2P Require Import DdffFile.
#[local] Open Scope Z_scope.

(** * Blocks *)

(** The data of a block, and its [object_offset]. *)
Record Version := mkVersion { payload : list Z; mark : Z }.

Definition room (cap : Z) : nat := Z.to_nat (cap - CB.control_block_size).
Definition full (cap : Z) (v : Version) : Prop := length (payload v) = room cap.
Definition v_fill (v : Version) : Z := CB.control_block_size + Z.of_nat (length (payload v)).

#[export] Instance full_dec cap v : Decision (full cap v).
Proof. unfold full. apply _. Defined.

Record version_ok (cap : Z) (v : Version) : Prop := {
  v_length : (length (payload v) <= room cap)%nat;
  v_mark : 0 <= mark v <= v_fill v;
  v_bytes : bytes_ok (payload v)
}.

Definition cap_ok (cap : Z) : Prop := CB.control_block_size < cap < 4294967296.

(** The bytes of a block in the file. *)
Record Entry := mkEntry {
  e_sid : nat;
  e_cap : Z;
  e_num : Z;
  e_version : Version;
  e_next : Z
}.

Section Render.
Context {CR : Crc}.

Definition header_tail (sid : Z) (cap num : Z) (v : Version) : list Z :=
  be_bytes 2 sid ++ be_bytes 4 cap ++ be_bytes 4 (v_fill v) ++ be_bytes 4 (mark v)
    ++ be_bytes 4 num.
Definition body (cap : Z) (v : Version) : list Z :=
  payload v ++ replicate (room cap - length (payload v)) 0.
Definition checked (e : Entry) : list Z :=
  header_tail (Z.of_nat (e_sid e)) (e_cap e) (e_num e) (e_version e)
    ++ body (e_cap e) (e_version e).
Definition render (e : Entry) : list Z :=
  be_bytes 8 (e_next e) ++ be_bytes 2 (crc16_ccitt (checked e)) ++ checked e.

Lemma header_tail_length sid cap num v : length (header_tail sid cap num v) = 18%nat.
Proof. unfold header_tail. rewrite !length_app, !be_bytes_length. done. Qed.

Lemma body_length cap v : version_ok cap v -> length (body cap v) = room cap.
Proof. intros [? _ _]. unfold body. rewrite length_app, length_replicate. lia. Qed.

Lemma body_ok cap v : version_ok cap v -> bytes_ok (body cap v).
Proof.
  intros []. apply Forall_app. split; [done|]. apply Forall_replicate. unfold is_u8. lia.
Qed.

Lemma checked_length e : cap_ok (e_cap e) -> version_ok (e_cap e) (e_version e) ->
  Z.of_nat (length (checked e)) = e_cap e - 10.
Proof.
  intros Hc Hv. unfold checked. rewrite length_app, header_tail_length, body_length by done.
  unfold room, cap_ok, CB.control_block_size in *. lia.
Qed.

Lemma render_length e : cap_ok (e_cap e) -> version_ok (e_cap e) (e_version e) ->
  Z.of_nat (length (render e)) = e_cap e.
Proof.
  intros Hc Hv. unfold render. rewrite !length_app, !be_bytes_length.
  pose proof (checked_length e Hc Hv). lia.
Qed.

Lemma checked_ok e : version_ok (e_cap e) (e_version e) -> bytes_ok (checked e).
Proof.
  intros Hv. unfold checked, header_tail, bytes_ok. rewrite !Forall_app.
  split_and!; first [apply be_bytes_ok|by apply body_ok].
Qed.

Lemma render_ok e : version_ok (e_cap e) (e_version e) -> bytes_ok (render e).
Proof.
  intros Hv. unfold render, bytes_ok. rewrite !Forall_app.
  split_and!; first [apply be_bytes_ok|by apply checked_ok].
Qed.
End Render.

(** * Buffers *)

(** A buffer with the data of [v]; a clean one has zeros behind them. *)
Record holds (cap : Z) (v : Version) (b : MB.Buffer) : Prop := {
  h_cap : MB.capacity b = cap;
  h_fill : MB.fill b = v_fill v;
  h_mark : MB.object_offset b = mark v;
  h_length : Z.of_nat (length (MB.buffer b)) = cap;
  h_bytes : bytes_ok (MB.buffer b);
  h_payload : take (length (payload v)) (drop 28 (MB.buffer b)) = payload v
}.
Definition clean (cap : Z) (v : Version) (b : MB.Buffer) : Prop :=
  holds cap v b /\ drop 28 (MB.buffer b) = body cap v.

(** A buffer that can be used. *)
Definition spare_ok (cap : Z) (b : MB.Buffer) : Prop :=
  MB.capacity b = cap /\ Z.of_nat (length (MB.buffer b)) = cap /\ bytes_ok (MB.buffer b).

Lemma holds_spare cap v b : holds cap v b -> spare_ok cap b.
Proof. by intros []. Qed.
Lemma spare_reset cap b : spare_ok cap b -> spare_ok cap (MB.reset b).
Proof. done. Qed.

(** ** The header *)

Section Header.
Context {BC : BuildConfig} {NM : NewMemory} {CR : Crc}.

(** A series of packs before the rest of a method. *)
Lemma packs_then {A} vs (k : M AS.AmorphStore A) s :
  as_ok s -> Forall cvalue_ok vs -> AS.choked s = false ->
  AS.index s + Z.of_nat (length (encodings vs)) <= AS.capacity s ->
  foldr (fun v m => packData v ;; m) k vs s = k (append (encodings vs) s).
Proof.
  intros Hs Hv Hc Hl. revert s Hs Hc Hl. induction Hv as [|v vs Hv _ IH]; intros.
  - cbn. f_equal. unfold append, AS.set_index, AS.set_stor. destruct s; cbn.
    unfold splice. cbn. by rewrite Nat.add_0_r, Z.add_0_r, take_drop.
  - change (encodings (v :: vs)) with (encoding v ++ encodings vs) in *.
    rewrite length_app in Hl. pose proof Hs as []. cbn [foldr].
    erewrite bind_val by (apply pack_ok_run; try done; unfold esize; lia).
    rewrite IH; [|by apply append_ok; [|apply encoding_ok|lia]|done|cbn; lia].
    f_equal. apply append_append; [done|]. rewrite length_app. lia.
Qed.

Definition header_values (sid cap num : Z) (v : Version) : list cvalue :=
  [Vnum Cuint16 sid; Vnum Cuint32 cap; Vnum Cuint32 (v_fill v); Vnum Cuint32 (mark v);
   Vnum Cuint32 num].
Lemma header_values_tail sid cap num v :
  encodings (header_values sid cap num v) = header_tail sid cap num v.
Proof. done. Qed.

(** [control_block_write] completes a block to what [render] says. *)
Lemma control_block_write_run sid num cap v b :
  cap_ok cap -> version_ok cap v -> clean cap v b -> 0 <= sid < 65536 -> is_u32 num ->
  CB.control_block_write sid num b
  = (Val tt, MB.set_buffer
       (render (mkEntry (Z.to_nat sid) cap num v CB.int64_max)) b).
Proof.
  intros Hc Hv [[Hcap Hfill Hmark Hlen Hbytes _] Hbody] Hsid Hnum.
  pose proof Hc as Hc'. unfold cap_ok, CB.control_block_size in Hc'.
  assert (is_u32 cap /\ is_u32 (v_fill v) /\ is_u32 (mark v)) as (? & ? & ?).
  { destruct Hv as [Hr Hm _]. unfold is_u32, v_fill, room, CB.control_block_size in *. lia. }
  unfold CB.control_block_write. rewrite Hcap, Hfill, Hmark.
  rewrite u16_id by (unfold is_u16; lia).
  set (l := MB.buffer b) in *.
  assert (28 <= length l)%nat as Hl by lia.
  set (s0 := AS.make l CB.control_block_size 0).
  assert (as_ok s0) as Hs0 by (split; cbn; unfold CB.control_block_size; lia || done).
  erewrite bind_val by (apply (pack_ok_run (Vnum Cint64 CB.int64_max)); try done; unfold is_s64, CB.int64_max; cbn; lia).
  set (s1 := append _ s0).
  assert (as_ok s1 /\ AS.index s1 = 8) as [Hs1 Hi1].
  { split; [|done]. by apply append_ok; [|apply be_bytes_ok|]. }
  erewrite (bind_val (Mark.createMark Mark.T_uint16) _ _ (Mark.mk Mark.T_uint16 8)
              (AS.set_index 10 s1)).
  2:{ unfold Mark.createMark, mbind, M_bind, get. cbn [Mark.marksize Mark.mtype Mark.sizeof].
      rewrite check_room by (done || (rewrite Hi1; lia)). done. }
  set (s2 := AS.set_index 10 s1).
  assert (as_ok s2) as Hs2.
  { destruct Hs1. split; try done. }
  change (_ s2) with (foldr (fun v m => packData v ;; m)
    (s ← get; crc ← of_option OutOfBounds (CB.block_crc cap (AS.stor s));
     Mark.finishMark_value (Mark.mk Mark.T_uint16 8) crc)
    (header_values sid cap num v) s2).
  set (e := mkEntry (Z.to_nat sid) cap num v CB.int64_max).
  assert (length (header_tail sid cap num v) = 18%nat) as Ht by apply header_tail_length.
  rewrite packs_then; [|done|repeat first [apply Forall_nil_2|apply Forall_cons_2]; done || (cbn; unfold is_u16; lia)
    |done|rewrite header_values_tail, Ht; cbn; unfold CB.control_block_size; lia].
  rewrite header_values_tail. set (s3 := append _ s2).
  assert (AS.stor s1 = be_bytes 8 CB.int64_max ++ drop 8 l) as El1.
  { unfold s1, append. cbn [AS.stor AS.set_index AS.set_stor AS.index s0 AS.make encoding width_of].
    unfold splice. rewrite be_bytes_length. done. }
  assert (checked e = header_tail sid cap num v ++ drop 28 l) as Ec.
  { unfold checked. cbn. by rewrite Z2Nat.id, Hbody by lia. }
  assert (AS.stor s3 = be_bytes 8 CB.int64_max ++ take 2 (drop 8 l) ++ checked e) as El3.
  { unfold s3. unfold append. cbn [AS.stor AS.set_index AS.set_stor AS.index s2].
    rewrite El1. unfold splice. rewrite Ht. change (Z.to_nat 10) with 10%nat.
    rewrite take_app_ge, drop_app_ge by (rewrite be_bytes_length; lia).
    rewrite be_bytes_length, drop_drop, Ec. cbn [Nat.sub Nat.add].
    by rewrite <- app_assoc. }
  assert (length (take 2 (drop 8 l)) = 2%nat) as Hm by (rewrite length_take, length_drop; lia).
  assert (Z.of_nat (length (checked e)) = cap - 10) as Hce by by apply (checked_length e).
  unfold CB.block_crc. rewrite u64_id by (unfold is_u64; lia).
  erewrite bind_val by done.
  rewrite read_at_some; [|lia|rewrite El3, !length_app, be_bytes_length, Hm; lia].
  rewrite El3 at 1. change (Z.to_nat 10) with 10%nat.
  rewrite app_assoc, drop_app_length' by (rewrite length_app, be_bytes_length, Hm; done).
  rewrite take_ge by lia. cbn [of_option fmap option_fmap option_map].
  rewrite mret_bind. unfold Mark.finishMark_value. cbn [Mark.markpoint Mark.index Mark.mtype].
  pose proof (crc16_range (checked e)) as Hcrc. unfold is_u16 in Hcrc.
  rewrite <- (u16_id (crc16_ccitt (checked e))) at 1 by done.
  change (u16 ?x) with (Mark.cast Mark.T_uint16 x) at 1.
  rewrite mark_rep_bytes. change (Z.to_nat _) with 2%nat.
  rewrite memcpy_to_run; [|lia|rewrite be_bytes_length, El3, !length_app, be_bytes_length, Hm; lia].
  do 2 f_equal. cbn [AS.stor AS.set_stor]. rewrite El3. unfold splice.
  rewrite be_bytes_length. change (Z.to_nat 8) with 8%nat.
  rewrite take_app_length' by by rewrite be_bytes_length.
  unfold render. do 2 f_equal. rewrite app_assoc, drop_app_length'; [done|].
  by rewrite length_app, be_bytes_length, Hm.
Qed.

(** ** Reading it *)

Definition header_restore (l : list Z) (i : Z) : ARS.AmorphReStore :=
  ARS.mk l CB.control_block_size i CB.control_block_size false.

Definition header_fields (h : CB.ControlBlockRead) : list cvalue :=
  [Vnum Cint64 (CB.next_offset h); Vnum Cuint16 (CB.checksum h); Vnum Cuint16 (CB.stream_id h);
   Vnum Cuint32 (CB.block_size h); Vnum Cuint32 (CB.block_fill h);
   Vnum Cuint32 (CB.object_offset h); Vnum Cuint32 (CB.block_num h)].

Lemma decode_fields h r r' :
  unPackAll (typeof <$> header_fields h) r = (Val (header_fields h), r') ->
  CB.decode r = (Val h, r').
Proof.
  unfold CB.decode, header_fields. cbn. unfold fmap, M_fmap, mbind, M_bind, mret, M_ret.
  intros E.
  destruct (ARS.unPackData_int64 r) as [[?|?|?] r1]; try done.
  destruct (ARS.unPackData_uint16 r1) as [[?|?|?] r2]; try done.
  destruct (ARS.unPackData_uint16 r2) as [[?|?|?] r3]; try done.
  destruct (ARS.unPackData_uint32 r3) as [[?|?|?] r4]; try done.
  destruct (ARS.unPackData_uint32 r4) as [[?|?|?] r5]; try done.
  destruct (ARS.unPackData_uint32 r5) as [[?|?|?] r6]; try done.
  destruct (ARS.unPackData_uint32 r6) as [[?|?|?] r7]; try done.
  injection E as -> -> -> -> -> -> -> ->. by destruct h.
Qed.

Record entry_ok (e : Entry) : Prop := {
  e_cap_ok : cap_ok (e_cap e);
  e_version_ok : version_ok (e_cap e) (e_version e);
  e_sid_ok : Z.of_nat (e_sid e) < 65536;
  e_num_ok : is_u32 (e_num e);
  e_next_ok : 0 <= e_next e <= CB.int64_max
}.

Definition header_of (e : Entry) : CB.ControlBlockRead :=
  CB.mk (e_next e) (crc16_ccitt (checked e)) (Z.of_nat (e_sid e)) (e_cap e)
    (v_fill (e_version e)) (mark (e_version e)) (e_num e).

Lemma of_header_render e l rest :
  entry_ok e -> l ++ rest = render e -> (28 <= length l)%nat -> CB.of_header l = Val (header_of e).
Proof.
  intros [Hc Hv Hs Hn Hx] Hl Hlen.
  assert (exists tl, l = be_bytes 8 (e_next e) ++ be_bytes 2 (crc16_ccitt (checked e))
    ++ be_bytes 2 (Z.of_nat (e_sid e)) ++ be_bytes 4 (e_cap e)
    ++ be_bytes 4 (v_fill (e_version e)) ++ be_bytes 4 (mark (e_version e))
    ++ be_bytes 4 (e_num e) ++ tl) as (tl & El).
  { exists (drop 28 l). rewrite <- (take_drop 28 l) at 1.
    assert (take 28 l = take 28 (render e)) as -> by by rewrite <- Hl, take_app_le by lia.
    unfold render, checked, header_tail. by rewrite <- !app_assoc. }
  assert (bytes_ok l) as Hb.
  { assert (bytes_ok (l ++ rest)) as Hb by (rewrite Hl; by apply render_ok).
    by apply Forall_app in Hb as [? _]. }
  pose proof (crc16_range (checked e)) as Hcrc.
  assert (is_u32 (e_cap e) /\ is_u32 (v_fill (e_version e)) /\ is_u32 (mark (e_version e)))
    as (? & ? & ?).
  { destruct Hv as [Hr Hm _]. unfold cap_ok, is_u32, v_fill, room, CB.control_block_size in *. lia. }
  assert (is_s64 (e_next e)) by (unfold is_s64, CB.int64_max in *; lia).
  assert (is_u16 (Z.of_nat (e_sid e))) by (unfold is_u16; lia).
  unfold CB.of_header. change (ARS.make l _) with (header_restore l 0).
  erewrite (decode_fields (header_of e)); [done|]. eapply (unPackAll_encoded _ _ tl).
  - split; cbn; unfold CB.control_block_size; done || lia.
  - repeat first [apply Forall_nil_2|apply Forall_cons_2]; done.
  - rewrite El. unfold header_fields, encodings. cbn [mjoin list_join fmap list_fmap encoding width_of].
    cbn [header_of CB.next_offset CB.checksum CB.stream_id CB.block_size CB.block_fill
      CB.object_offset CB.block_num]. by rewrite <- !app_assoc.
  - done.
Qed.

(** A buffer into which the block was read. *)
Definition loaded (e : Entry) (b : MB.Buffer) : MB.Buffer :=
  MB.set_stream_id (Z.of_nat (e_sid e))
    (MB.set_object_offset (mark (e_version e)) (MB.set_fill (v_fill (e_version e)) b)).

Lemma block_crc_render e : cap_ok (e_cap e) -> version_ok (e_cap e) (e_version e) ->
  CB.block_crc (e_cap e) (render e) = Some (crc16_ccitt (checked e)).
Proof.
  intros Hc Hv. pose proof (checked_length e Hc Hv) as Hl. pose proof (render_length e Hc Hv) as Hr.
  unfold CB.block_crc. unfold cap_ok, CB.control_block_size in Hc.
  rewrite u64_id by (unfold is_u64; lia). rewrite read_at_some by lia.
  unfold render. change (Z.to_nat 10) with 10%nat.
  rewrite app_assoc, drop_app_length' by by rewrite length_app, !be_bytes_length.
  by rewrite take_ge by lia.
Qed.

Lemma of_buffer_render e off b :
  entry_ok e -> MB.capacity b = e_cap e -> MB.buffer b = render e ->
  CB.of_buffer off b = (Val (header_of e), loaded e b).
Proof.
  intros He Hc Hb. pose proof He as [Hc' Hv' _ _ _]. unfold CB.of_buffer.
  pose proof (render_length e Hc' Hv') as Hl. pose proof Hc' as Hc2.
  unfold cap_ok, CB.control_block_size in Hc2.
  rewrite (of_header_render e _ []); [|done|by rewrite app_nil_r|rewrite Hb; lia].
  cbn [CB.block_size CB.block_fill CB.object_offset CB.stream_id CB.checksum header_of].
  rewrite Hc, (proj2 (Z.ltb_ge _ _)) by lia.
  cbn [MB.capacity MB.buffer MB.set_fill MB.set_object_offset MB.set_stream_id].
  rewrite Hc, Hb, block_crc_render by done. by rewrite Z.eqb_refl.
Qed.
End Header.
