(* ===== verification/DdffWrite.v ===== *)
(** Recording files, the writing side: what a stream has been given to write,
    as a list of blocks, and that every operation of [DdffStream] on a file
    being written keeps the buffers, the jobs and the file in step with it. *)

From S2P Require Import Prelude.
From S2P Require Import Bytes.
From S2P Require Import Amorph.
From S2P Require Import DdffFile.
From S2P Require Import DdffStream.
From S2P Require Import DdffBlock.
#[local] Open Scope Z_scope.

(** * A stream as blocks *)

Definition empty_version : Version := mkVersion [] 0.
Definition add_byte (c : Z) (v : Version) : Version := mkVersion (payload v ++ [c]) (mark v).
Definition set_mark (v : Version) : Version :=
  if mark v =? 0 then mkVersion (payload v) (v_fill v) else v.

(** The blocks that are complete, and the one being filled. *)
Definition put1 (cap : Z) (s : list Version * Version) (c : Z) : list Version * Version :=
  let v := add_byte c s.2 in
  if decide (full cap v) then (s.1 ++ [v], empty_version) else (s.1, v).
Definition puts (cap : Z) : list Version * Version -> list Z -> list Version * Version :=
  foldl (put1 cap).

Definition open_version (cap : Z) (v : Version) : Prop := version_ok cap v /\ ~ full cap v.

Lemma room_pos cap : cap_ok cap -> (0 < room cap)%nat.
Proof. unfold cap_ok, room, CB.control_block_size. lia. Qed.
Lemma room_cap cap : cap_ok cap -> Z.of_nat (room cap) = cap - 28.
Proof. unfold cap_ok, room, CB.control_block_size. lia. Qed.

Lemma open_length cap v : open_version cap v -> (length (payload v) < room cap)%nat.
Proof. intros [[] Hf]. unfold full in Hf. lia. Qed.
Lemma empty_open cap : cap_ok cap -> open_version cap empty_version.
Proof.
  intros Hc. pose proof (room_pos cap Hc). split.
  - split; cbn; [lia|unfold v_fill, CB.control_block_size; cbn; lia|apply Forall_nil_2].
  - unfold full. cbn. lia.
Qed.
Lemma add_byte_ok cap c v : open_version cap v -> is_u8 c -> version_ok cap (add_byte c v).
Proof.
  intros Ho Hc. pose proof (open_length _ _ Ho). destruct Ho as [[] _]. split; cbn.
  - rewrite length_app. cbn. lia.
  - unfold v_fill in *. cbn. rewrite length_app. cbn. lia.
  - apply Forall_app. split; [done|]. by apply Forall_singleton.
Qed.
Lemma set_mark_open cap v : open_version cap v -> open_version cap (set_mark v).
Proof.
  intros [[] Hf]. unfold set_mark. destruct (mark v =? 0); [|done]. split; [|done].
  split; cbn; [done| |done]. unfold v_fill, CB.control_block_size in *. cbn. lia.
Qed.
Lemma put1_open cap s c : cap_ok cap -> open_version cap s.2 -> is_u8 c ->
  open_version cap (put1 cap s c).2.
Proof.
  intros Hc Ho Hb. unfold put1. destruct (decide _); cbn; [by apply empty_open|].
  split; [by apply add_byte_ok|done].
Qed.

(** * Lists of buffers *)

Record list_ok (cap : Z) (q : list Version) (l : BL.BufferList) : Prop := {
  l_bufsize : BL.bufsize l = cap;
  l_spares : Forall (spare_ok cap) (BL.spares l);
  l_chain : exists s es, BL.chain l = Some (s, es) /\ spare_ok cap s /\ Forall2 (clean cap) q es
}.

Section Lists.
Context {NM : NewMemory}.

Lemma make_spare cap : cap_ok cap -> spare_ok cap (MB.make cap).
Proof.
  intros Hc. unfold cap_ok, CB.control_block_size in Hc. unfold spare_ok, MB.make. cbn.
  rewrite u32_id by (unfold is_u32; lia). split_and!; [done| |apply new_char_ok].
  rewrite new_char_length. lia.
Qed.

Lemma get_spare_run cap q l : cap_ok cap -> list_ok cap q l ->
  exists b l', BL.get_list_spare l = (Val b, l') /\ spare_ok cap b /\ list_ok cap q l'
    /\ MB.fill b = 0 /\ MB.object_offset b = 0.
Proof.
  intros Hc []. unfold BL.get_list_spare. mrun. destruct (BL.spares l) as [|b r] eqn:Es.
  - eexists _, _. split; [done|]. rewrite l_bufsize0. split_and!; try done.
    + by apply make_spare.
    + split; try done. by rewrite Es.
  - apply list.Forall_cons in l_spares0 as [Hb Hr]. eexists _, _. split; [done|]. split_and!; try done.
Qed.

Lemma write_back_run cap q l v b : list_ok cap q l -> clean cap v b ->
  exists l', BL.write_list_back b l = (Val tt, l') /\ list_ok cap (q ++ [v]) l'.
Proof.
  intros [Hb Hs (s & es & Hc & Hs' & Hf)] Hv. unfold BL.write_list_back. mrun. rewrite Hc.
  eexists. split; [done|]. split; try done. eexists _, _. split; [done|]. split; [done|].
  apply Forall2_app; [done|]. by apply Forall2_cons.
Qed.

Lemma set_front_run cap v q l b : list_ok cap (v :: q) l -> clean cap v b ->
  exists l', BL.set_front b l = (Val tt, l') /\ list_ok cap (v :: q) l'.
Proof.
  intros [Hb Hs (s & es & Hc & Hs' & Hf)] Hv. apply Forall2_cons_inv_l in Hf as (x & es' & Hx & Hf & ->).
  unfold BL.set_front, modify. rewrite Hc. eexists. split; [done|]. split; try done.
  eexists _, _. split; [done|]. split; [done|]. by apply Forall2_cons.
Qed.

Lemma front_run cap v q l : list_ok cap (v :: q) l ->
  exists b, BL.front l = (Val b, l) /\ clean cap v b.
Proof.
  intros [Hb Hs (s & es & Hc & Hs' & Hf)]. apply Forall2_cons_inv_l in Hf as (x & es' & Hx & Hf & ->).
  exists x. unfold BL.front. erewrite bind_val by done. by rewrite Hc.
Qed.

Lemma pop_run cap v q l : list_ok cap (v :: q) l ->
  exists l', BL.pop l = (Val tt, l') /\ list_ok cap q l'.
Proof.
  intros [Hb Hs (s & es & Hc & Hs' & Hf)]. apply Forall2_cons_inv_l in Hf as (x & es' & Hx & Hf & ->).
  unfold BL.pop. erewrite bind_val by done. rewrite Hc. eexists. split; [done|]. split; cbn; try done.
  - by apply Forall_cons.
  - eexists _, _. split; [done|]. split; [|done]. eapply holds_spare. by destruct Hx.
Qed.
End Lists.

(** * The writer of a stream *)

(** What a writer has: the buffers [q] to write, the data [cur] of the block
    being filled, the number of the next block for the file, the place of a
    partial block in the file and that of the last block. *)
Record writer_ok (cap sid : Z) (q : list Version) (cur : Version) (open : bool)
    (bn po pr : Z) (rq : nat) (w : FSW.FileStreamWrite) : Prop := {
  w_list : list_ok cap q (FSW.buffers w);
  w_current : if open then exists b, FSW.current_buffer w = Some b /\ holds cap cur b
              else FSW.current_buffer w = None;
  w_cur : open_version cap cur;
  w_sid : FSW.stream_id w = sid;
  w_num : FSW.buffer_num w = bn;
  w_partial : FSW.partialblock_offset w = po;
  w_previous : FSW.previousblock_offset w = pr;
  w_requests : FSW.requests w = rq
}.

Section Writer.
Context {BC : BuildConfig} {NM : NewMemory} {CR : Crc}.
Context (cap sid : Z) (Hcap : cap_ok cap).

Lemma cap_width : 28 < cap /\ is_u32 cap.
Proof. unfold cap_ok, CB.control_block_size, is_u32 in *. lia. Qed.

Lemma in_list_run {A} (m : M BL.BufferList A) w r l :
  m (FSW.buffers w) = (r, l) -> FSW.in_list m w = (r, FSW.set_buffers l w).
Proof. unfold FSW.in_list, zoom. by intros ->. Qed.

Lemma in_current_run {A} (m : M MB.Buffer A) w b r b' :
  FSW.current_buffer w = Some b -> m b = (r, b') ->
  FSW.in_current m w = (r, FSW.set_current (Some b') w).
Proof. unfold FSW.in_current. by intros -> ->. Qed.

Lemma fresh_holds b : spare_ok cap b -> MB.object_offset b = 0 ->
  holds cap empty_version (MB.set_stream_id sid (MB.set_fill CB.control_block_size b)).
Proof. intros (? & ? & ?) ?. by split. Qed.

(** A full current buffer goes to the list, a spare takes its place. *)
Definition switch : M FSW.FileStreamWrite unit :=
  FSW.push_current ;; FSW.requestWrite ;; FSW.new_current.

Lemma switch_run q v bn po pr rq b w :
  list_ok cap q (FSW.buffers w) -> FSW.current_buffer w = Some b -> clean cap v b ->
  FSW.stream_id w = sid -> FSW.buffer_num w = bn -> FSW.partialblock_offset w = po ->
  FSW.previousblock_offset w = pr -> FSW.requests w = rq ->
  exists w', switch w = (Val tt, w')
    /\ writer_ok cap sid (q ++ [v]) empty_version true bn po pr (S rq) w'.
Proof.
  intros Hl Hb Hv Hsid Hbn Hpo Hpr Hrq.
  destruct (write_back_run cap q _ v b Hl Hv) as (l1 & E1 & Hl1).
  destruct (get_spare_run cap (q ++ [v]) l1 Hcap Hl1) as (b2 & l2 & E2 & Hb2 & Hl2 & _ & Ho2).
  unfold switch. erewrite bind_val.
  2:{ unfold FSW.push_current. erewrite bind_val by done. rewrite Hb. cbn [of_option].
      rewrite mret_bind. by apply in_list_run. }
  erewrite bind_val by done. unfold FSW.new_current. erewrite bind_val by by apply in_list_run.
  eexists. split; [done|]. split; try done; cbn.
  - eexists. split; [done|]. rewrite Hsid. by apply fresh_holds.
  - by apply empty_open.
  - by rewrite Hrq.
Qed.

(** A byte behind the data of a buffer. *)
Lemma write_byte_holds v b c l :
  holds cap v b -> open_version cap v -> is_u8 c ->
  write_at (MB.fill b) [c] (MB.buffer b) = Some l ->
  holds cap (add_byte c v) (MB.set_fill (v_fill (add_byte c v)) (MB.set_buffer l b)).
Proof.
  intros [? Hf ? Hl Hby Hp] Ho Hc Hw. pose proof (open_length _ _ Ho) as Hlt.
  pose proof (room_cap cap Hcap) as Hroom.
  pose proof (write_at_length _ _ _ _ Hw) as Hlen. split; try done.
  - cbn. lia.
  - cbn. eapply write_at_bytes_ok; [done| |done]. by apply Forall_singleton.
  - cbn. apply write_at_take_end in Hw. rewrite Hf in Hw. unfold v_fill, CB.control_block_size in *.
    replace (Z.to_nat (28 + Z.of_nat (length (payload v)))) with (28 + length (payload v))%nat in Hw by lia.
    rewrite length_app. cbn [length] in *.
    rewrite take_drop_commute. rewrite <- Nat.add_assoc in Hw. rewrite Hw.
    rewrite drop_app_le by (rewrite length_take; lia). f_equal.
    by rewrite <- take_drop_commute.
Qed.

Lemma full_clean v b : holds cap v b -> full cap v -> clean cap v b.
Proof.
  intros Hh Hf. split; [done|]. destruct Hh as [_ _ _ Hl _ Hp]. unfold full in Hf.
  pose proof (room_cap cap Hcap). unfold body. rewrite Hf, Nat.sub_diag, app_nil_r.
  rewrite <- Hp at 1. rewrite take_ge; [done|]. rewrite length_drop. lia.
Qed.

Lemma put_char_run q cur bn po pr rq c w :
  writer_ok cap sid q cur true bn po pr rq w -> is_u8 c ->
  exists w', FSW.put_char c w = (Val tt, w')
    /\ writer_ok cap sid (put1 cap (q, cur) c).1 (put1 cap (q, cur) c).2 true bn po pr
         (rq + (length (put1 cap (q, cur) c).1 - length q)) w'.
Proof.
  intros [Hl (b & Hb & Hh) Ho Hsid Hbn Hpo Hpr Hrq] Hc.
  pose proof (open_length _ _ Ho) as Hlt. pose proof (room_cap cap Hcap) as Hroom.
  pose proof cap_width as [Hc28 Hcu]. unfold is_u32 in Hcu.
  pose proof Hh as [Hbc Hf _ Hlen _ _].
  assert (exists l, write_at (MB.fill b) [c] (MB.buffer b) = Some l) as (l & Hw).
  { eexists. apply write_at_some; rewrite Hf; unfold v_fill, CB.control_block_size; cbn; lia. }
  pose proof (write_byte_holds _ _ _ _ Hh Ho Hc Hw) as Hh'.
  unfold FSW.put_char. erewrite bind_val.
  2:{ eapply in_current_run; [done|]. erewrite bind_val by done. by rewrite Hw. }
  unfold FSW.increment. erewrite bind_val by done. cbn [FSW.current_buffer FSW.set_current].
  erewrite bind_val by done. cbn [MB.fill MB.set_fill MB.capacity MB.set_buffer].
  assert (u32 (MB.fill b + 1) = v_fill (add_byte c cur)) as E.
  { rewrite Hf. unfold v_fill, CB.control_block_size. cbn. rewrite length_app. cbn.
    rewrite u32_id by (unfold is_u32; lia). lia. }
  rewrite E, Hbc. unfold put1.
  assert ((v_fill (add_byte c cur) <? cap) = negb (bool_decide (full cap (add_byte c cur)))) as ->.
  { case_bool_decide as Hfull; unfold full, v_fill, CB.control_block_size in *; cbn in *;
      rewrite length_app in *; cbn in *; [apply Z.ltb_ge|apply Z.ltb_lt]; lia. }
  cbn [fst snd]. destruct (decide (full cap (add_byte c cur))) as [Hfull|Hnf].
  - rewrite bool_decide_eq_true_2 by done. cbn [negb fst snd].
    rewrite length_app. cbn [length].
    replace (rq + (length q + 1 - length q))%nat with (S rq) by lia.
    eapply switch_run; try done. by apply full_clean.
  - rewrite bool_decide_eq_false_2 by done. cbn [negb fst snd]. rewrite Nat.sub_diag, Nat.add_0_r.
    eexists. split; [done|]. split; try done; cbn.
    + eexists. split; [done|]. exact Hh'.
    + split; [by apply add_byte_ok|done].
Qed.

(** ** [write] *)

Lemma mb_write_run b x :
  0 <= MB.fill b -> MB.fill b + Z.of_nat (length x) <= MB.capacity b ->
  Z.of_nat (length (MB.buffer b)) = MB.capacity b -> is_u32 (MB.capacity b) ->
  MB.write x b = (Val tt, MB.set_fill (MB.fill b + Z.of_nat (length x))
                            (MB.set_buffer (splice (MB.fill b) x (MB.buffer b)) b)).
Proof.
  intros H0 Hf Hl Hc. unfold is_u32 in Hc. unfold MB.write. mrun.
  rewrite (proj2 (Z.leb_le _ _)) by done. rewrite write_at_some by lia.
  by rewrite u32_id by (unfold is_u32; lia).
Qed.

Lemma write_unfold f data w b : FSW.current_buffer w = Some b ->
  FSW.write (S f) data w =
    if MB.fill b + Z.of_nat (length data) <? MB.capacity b then FSW.in_current (MB.write data) w
    else
      let excess := u32 (MB.fill b + Z.of_nat (length data) - MB.capacity b) in
      (FSW.in_current (MB.write (take (Z.to_nat (u32 (MB.capacity b - MB.fill b))) data)) ;;
       FSW.push_current ;; FSW.requestWrite ;; FSW.new_current ;;
       if excess =? 0 then mret tt
       else FSW.write f (drop (length data - Z.to_nat excess) data)) w.
Proof.
  intros Hb. cbn [FSW.write]. erewrite bind_val by done. rewrite Hb. cbn [of_option].
  rewrite mret_bind. by destruct (_ <? _).
Qed.

(** Room left: the first byte can be written before the others. *)
Lemma write_cons f c data w b :
  FSW.current_buffer w = Some b -> 0 <= MB.fill b -> MB.fill b + 1 < MB.capacity b ->
  Z.of_nat (length (MB.buffer b)) = MB.capacity b -> is_u32 (MB.capacity b) ->
  Z.of_nat (length (c :: data)) < 4294967296 ->
  FSW.write (S f) (c :: data) w =
  FSW.write (S f) data (FSW.set_current (Some (MB.set_fill (MB.fill b + 1)
    (MB.set_buffer (splice (MB.fill b) [c] (MB.buffer b)) b))) w).
Proof.
  intros Hb H0 Hf Hl Hc Hd. pose proof Hc as Hc'. unfold is_u32 in Hc'. cbn [length] in Hd.
  rewrite (write_unfold _ _ _ b) by done. erewrite (write_unfold f data) by done.
  cbn [MB.fill MB.set_fill MB.capacity MB.set_buffer MB.buffer].
  assert (forall x, MB.fill b + 1 + Z.of_nat (length x) <= MB.capacity b ->
    FSW.in_current (MB.write (c :: x)) w =
    FSW.in_current (MB.write x) (FSW.set_current (Some (MB.set_fill (MB.fill b + 1)
      (MB.set_buffer (splice (MB.fill b) [c] (MB.buffer b)) b))) w)) as Hin.
  { intros x Hx. erewrite in_current_run by (done || (apply mb_write_run; cbn [length]; done || lia)).
    erewrite in_current_run.
    2:{ done. }
    2:{ apply mb_write_run; cbn; rewrite ?splice_length; cbn; done || lia. }
    cbn [MB.fill MB.set_fill MB.buffer MB.set_buffer].
    pose proof (splice_app (MB.fill b) [c] x (MB.buffer b)) as Es.
    change (Z.of_nat (length [c])) with 1 in Es. cbn [app] in Es.
    rewrite Es by (cbn [length]; lia). unfold MB.set_fill, MB.set_buffer, FSW.set_current. cbn.
    do 4 f_equal. lia. }
  replace (MB.fill b + Z.of_nat (length (c :: data))) with (MB.fill b + 1 + Z.of_nat (length data))
    by (cbn [length]; lia).
  destruct (_ <? _) eqn:E; [apply Z.ltb_lt in E; apply Hin; lia|]. apply Z.ltb_ge in E.
  set (excess := u32 _). assert (excess = MB.fill b + 1 + Z.of_nat (length data) - MB.capacity b) as Ex
    by (apply u32_id; unfold is_u32; lia).
  rewrite !u32_id by (unfold is_u32; lia).
  replace (Z.to_nat (MB.capacity b - MB.fill b)) with (S (Z.to_nat (MB.capacity b - (MB.fill b + 1)))) by lia.
  cbn [take]. cbv zeta.
  replace (length (c :: data) - Z.to_nat excess)%nat with (S (length data - Z.to_nat excess))
    by (cbn [length]; lia). cbn [drop].
  unfold mbind at 1, M_bind at 1. rewrite Hin; [done|]. rewrite length_take. lia.
Qed.
Lemma put_char_step c w b :
  FSW.current_buffer w = Some b -> 0 <= MB.fill b -> MB.fill b + 1 <= MB.capacity b ->
  Z.of_nat (length (MB.buffer b)) = MB.capacity b -> is_u32 (MB.capacity b) ->
  let w1 := FSW.set_current (Some (MB.set_fill (MB.fill b + 1)
              (MB.set_buffer (splice (MB.fill b) [c] (MB.buffer b)) b))) w in
  FSW.put_char c w = if MB.fill b + 1 <? MB.capacity b then (Val tt, w1) else switch w1.
Proof.
  intros Hb H0 Hf Hl Hc w1. unfold is_u32 in Hc. unfold FSW.put_char.
  assert (write_at (MB.fill b) [c] (MB.buffer b) = Some (splice (MB.fill b) [c] (MB.buffer b))) as Ew.
  { rewrite write_at_some by (cbn; lia). done. }
  erewrite bind_val.
  2:{ eapply in_current_run; [done|]. erewrite bind_val by done. by rewrite Ew. }
  unfold FSW.increment. erewrite bind_val by done. cbn [FSW.current_buffer FSW.set_current].
  erewrite bind_val by done. cbn [MB.fill MB.set_fill MB.capacity MB.set_buffer].
  assert (u32 (MB.fill b + 1) = MB.fill b + 1) as -> by (apply u32_id; unfold is_u32; lia).
  by destruct (_ <? _).
Qed.

Lemma write_put_chars f data q cur bn po pr rq w :
  writer_ok cap sid q cur true bn po pr rq w -> bytes_ok data ->
  (length data <= f)%nat -> Z.of_nat (length data) < 4294967296 ->
  FSW.write f data w = FSW.put_chars data w.
Proof.
  revert f q cur bn po pr rq w. induction data as [|c data IH]; intros f q cur bn po pr rq w Hw Hd Hf Hn;
    pose proof Hw as [_ (b & Hb & Hh) Ho _ _ _ _ _]; pose proof Hh as [Hbc Hbf _ Hbl _ _];
    pose proof (open_length _ _ Ho) as Hlt; pose proof (room_cap cap Hcap) as Hroom;
    pose proof cap_width as [Hc28 Hcu]; unfold v_fill, CB.control_block_size in Hbf.
  - assert (FSW.write f [] w = FSW.in_current (MB.write []) w) as ->.
    { destruct f; cbn [FSW.write]; erewrite bind_val by done; rewrite Hb; cbn [of_option];
        rewrite mret_bind, (proj2 (Z.ltb_lt _ _)) by (cbn [length]; lia); done. }
    erewrite in_current_run; [|done|apply mb_write_run; rewrite ?Hbc; cbn [length]; done || lia].
    cbn. unfold mret, M_ret. f_equal. unfold splice. cbn. rewrite Nat.add_0_r, take_drop, Z.add_0_r.
    destruct w, b. cbn in *. by rewrite Hb.
  - destruct f as [|f]; [cbn in Hf; lia|]. apply list.Forall_cons in Hd as [Hc Hd]. cbn [length] in Hn, Hf.
    cbn [FSW.put_chars].
    destruct (put_char_run _ _ _ _ _ _ c _ Hw Hc) as (w1 & E1 & Hw1).
    erewrite bind_val by done.
    pose proof (put_char_step c w b Hb) as Es. rewrite E1 in Es.
    cbv zeta in Es. rewrite Hbc in Es. specialize (Es ltac:(lia) ltac:(lia) Hbl Hcu).
    destruct (MB.fill b + 1 <? cap) eqn:E.
    + apply Z.ltb_lt in E. injection Es as ->. erewrite write_cons; [|done|rewrite ?Hbc; done || (cbn [length]; lia)..].
      eapply IH; [done|done|lia|lia].
    + apply Z.ltb_ge in E. rewrite (write_unfold _ _ _ b) by done. cbv zeta.
      rewrite Hbc. cbn [length]. rewrite (proj2 (Z.ltb_ge _ _)) by lia.
      set (excess := u32 _). assert (excess = Z.of_nat (length data)) as Ex
        by (subst excess; rewrite u32_id; unfold is_u32; lia).
      rewrite u32_id by (unfold is_u32; lia). replace (Z.to_nat (cap - MB.fill b)) with 1%nat by lia.
      cbn [take]. rewrite take_0.
      erewrite bind_val.
      2:{ eapply in_current_run; [done|]. apply mb_write_run; rewrite ?Hbc; cbn [length]; done || lia. }
      cbn [length]. change (Z.of_nat 1) with 1.
      unfold switch in Es. symmetry in Es.
      apply bind_inv in Es as ([] & w2 & E2 & Es). erewrite bind_val by exact E2.
      apply bind_inv in Es as ([] & w3 & E3 & Es). erewrite bind_val by exact E3.
      erewrite bind_val by exact Es. rewrite Ex, Nat2Z.id.
      replace (S (length data) - length data)%nat with 1%nat by lia. cbn [drop].
      destruct data as [|c2 data]; [done|]. cbn [length]. rewrite (proj2 (Z.eqb_neq _ _)) by lia.
      eapply IH; [done|done|cbn [length] in *; lia|cbn [length] in *; lia].
Qed.

(** What a series of bytes does. *)
Lemma put_chars_run data q cur bn po pr rq w :
  writer_ok cap sid q cur true bn po pr rq w -> bytes_ok data ->
  exists w', FSW.put_chars data w = (Val tt, w')
    /\ writer_ok cap sid (puts cap (q, cur) data).1 (puts cap (q, cur) data).2 true bn po pr
         (rq + (length (puts cap (q, cur) data).1 - length q)) w'.
Proof.
  revert q cur rq w. induction data as [|c data IH]; intros q cur rq w Hw Hd.
  - exists w. split; [done|]. cbn. by rewrite Nat.sub_diag, Nat.add_0_r.
  - apply list.Forall_cons in Hd as [Hc Hd].
    destruct (put_char_run _ _ _ _ _ _ c _ Hw Hc) as (w1 & E1 & Hw1).
    cbn [FSW.put_chars]. erewrite bind_val by done. unfold puts. cbn [foldl]. fold (puts cap).
    destruct (IH _ _ _ _ Hw1 Hd) as (w2 & E2 & Hw2). exists w2. split; [done|].
    rewrite <- surjective_pairing in Hw2.
    assert (forall s l, (length s.1 <= length (puts cap s l).1)%nat) as Hmono.
    { clear. intros s l. revert s. induction l as [|c l IH]; intros s; [done|]. cbn.
      etrans; [|apply IH]. unfold put1. destruct (decide _); cbn; [rewrite length_app|]; lia. }
    assert (length q <= length (put1 cap (q, cur) c).1)%nat.
    { unfold put1. destruct (decide _); cbn; [rewrite length_app|]; lia. }
    pose proof (Hmono (put1 cap (q, cur) c) data). cbn in *.
    replace (rq + (length (puts cap (put1 cap (q, cur) c) data).1 - length q))%nat
      with (rq + (length (put1 cap (q, cur) c).1 - length q)
            + (length (puts cap (put1 cap (q, cur) c) data).1 - length (put1 cap (q, cur) c).1))%nat
      by lia. done.
Qed.

(** ** The other operations *)

Lemma zero_clean v b : holds cap v b -> open_version cap v -> clean cap v (MB.zeroUnused b).
Proof.
  intros Hh Ho. pose proof (open_length _ _ Ho) as Hlt. pose proof (room_cap cap Hcap) as Hroom.
  pose proof Hh as [Hbc Hf Hm Hl Hby Hp]. pose proof cap_width as [Hc28 _].
  unfold v_fill, CB.control_block_size in Hf. unfold MB.zeroUnused.
  rewrite (proj2 (Z.ltb_lt _ _)) by lia.
  set (z := replicate _ 0).
  assert (drop 28 (take (Z.to_nat (MB.fill b)) (MB.buffer b) ++ z) = body cap v) as E.
  { rewrite drop_app_le by (rewrite length_take; lia). unfold body. f_equal.
    - replace (Z.to_nat (MB.fill b)) with (28 + length (payload v))%nat by lia.
      by rewrite <- take_drop_commute.
    - subst z. f_equal. lia. }
  split; [|done]. split; cbn; try done.
  - unfold z. rewrite length_app, length_take, length_replicate. lia.
  - apply Forall_app. split; [by apply Forall_take|]. apply Forall_replicate. unfold is_u8. lia.
  - rewrite E. unfold body. by rewrite take_app_length.
Qed.

Lemma assign_run v b t : holds cap v b -> open_version cap v -> spare_ok cap t ->
  exists t', MB.assign b t = Val (t', MB.set_start_offset MB.uint32_max b) /\ holds cap v t'.
Proof.
  intros Hh Ho (Htc & Htl & Htb). pose proof (open_length _ _ Ho) as Hlt.
  pose proof (room_cap cap Hcap) as Hroom. pose proof Hh as [Hbc Hf Hm Hl Hby Hp].
  pose proof cap_width as [Hc28 _]. unfold v_fill, CB.control_block_size in Hf.
  unfold MB.assign. rewrite (proj2 (Z.ltb_ge _ _)) by lia.
  assert (length (take (Z.to_nat (MB.fill b)) (MB.buffer b)) = Z.to_nat (MB.fill b)) as Hlen
    by (rewrite length_take; lia).
  destruct (write_at 0 (take (Z.to_nat (MB.fill b)) (MB.buffer b)) (MB.buffer t)) as [l|] eqn:E.
  2:{ rewrite write_at_some in E by lia. done. }
  eexists. split; [done|]. split; cbn; try done.
  - rewrite (write_at_length _ _ _ _ E). done.
  - apply (write_at_bytes_ok _ _ _ _ Htb) in E; [done|by apply Forall_take].
  - apply write_at_take_end in E. change (Z.to_nat 0) with 0%nat in E; cbn [take app Nat.add] in E. rewrite Hlen in E.
    rewrite take_drop_commute.
    replace (28 + length (payload v))%nat with (Z.to_nat (MB.fill b)) by lia. rewrite E.
    replace (Z.to_nat (MB.fill b)) with (28 + length (payload v))%nat by lia.
    rewrite take_0, app_nil_l. by rewrite <- take_drop_commute.
Qed.

Lemma closeOff_run intermediate q cur bn po pr rq w :
  writer_ok cap sid q cur true bn po pr rq w ->
  exists w', FSW.closeOff intermediate w = (Val tt, w')
    /\ writer_ok cap sid (q ++ [cur]) cur intermediate bn po pr (S rq) w'.
Proof.
  intros [Hl (b & Hb & Hh) Ho Hsid Hbn Hpo Hpr Hrq].
  unfold FSW.closeOff. erewrite bind_val by done. rewrite Hb. destruct intermediate.
  - destruct (get_spare_run cap q _ Hcap Hl) as (t & l1 & E1 & Ht & Hl1 & _ & _).
    destruct (assign_run cur b t Hh Ho Ht) as (t' & Ea & Ht').
    destruct (write_back_run cap q l1 cur (MB.zeroUnused t') Hl1) as (l2 & E2 & Hl2);
      [by apply zero_clean|].
    erewrite bind_val.
    2:{ erewrite bind_val by by apply in_list_run. rewrite Ea.
        erewrite bind_val by done. by apply in_list_run. }
    eexists. split; [done|]. split; try done; cbn.
    + eexists. split; [done|]. by destruct Hh.
    + by rewrite Hrq.
  - pose proof (zero_clean cur b Hh Ho) as Hz.
    assert (MB.partial b = true) as Hp.
    { unfold MB.partial. destruct Hh as [-> -> _ _ _ _]. apply Z.ltb_lt.
      pose proof (open_length _ _ Ho). pose proof (room_cap cap Hcap).
      unfold v_fill, CB.control_block_size. lia. }
    destruct (write_back_run cap q _ cur (MB.zeroUnused b) Hl Hz) as (l2 & E2 & Hl2).
    erewrite bind_val.
    2:{ erewrite bind_val by (eapply in_current_run; [done|]; unfold modify; rewrite Hp; done).
        erewrite bind_val.
        2:{ unfold FSW.push_current. erewrite bind_val by done. cbn [FSW.current_buffer FSW.set_current of_option].
            rewrite mret_bind. by apply in_list_run. }
        done. }
    eexists. split; [done|]. split; try done. cbn. by rewrite Hrq.
Qed.

(** A writer that is closed stays so. *)
Lemma closeOff_closed intermediate q cur bn po pr rq w :
  writer_ok cap sid q cur false bn po pr rq w -> FSW.closeOff intermediate w = (Val tt, w).
Proof. intros [_ Hc _ _ _ _ _ _]. unfold FSW.closeOff. erewrite bind_val by done. by rewrite Hc. Qed.

Lemma markItemStart_run q cur bn po pr rq w :
  writer_ok cap sid q cur true bn po pr rq w ->
  exists w', FSW.markItemStart w = (Val true, w')
    /\ writer_ok cap sid q (set_mark cur) true bn po pr rq w'.
Proof.
  intros [Hl (b & Hb & Hh) Ho Hsid Hbn Hpo Hpr Hrq]. unfold FSW.markItemStart.
  assert (exists r b', MB.markOffsets b = (Val r, b') /\ holds cap (set_mark cur) b')
    as (r & b' & E & Hh').
  { unfold MB.markOffsets. mrun. destruct Hh as [? Hf Hm ? ? ?]. unfold set_mark. rewrite Hm.
    destruct (mark cur =? 0); cbn [MB.start_offset MB.set_object_offset];
      destruct (MB.start_offset b =? 0); eexists _, _; (split; [done|]); split; cbn; done. }
  erewrite bind_val by by eapply in_current_run.
  eexists. split; [done|]. split; try done; cbn; [by eexists|by apply set_mark_open].
Qed.

Lemma version_of_clean v b : clean cap v b -> version_ok cap v ->
  MB.partial b = negb (bool_decide (full cap v)).
Proof.
  intros [[Hc Hf _ _ _ _] _] [Hl _ _]. unfold MB.partial. rewrite Hc, Hf.
  pose proof (room_cap cap Hcap). unfold full, v_fill, CB.control_block_size.
  case_bool_decide; [apply Z.ltb_ge|apply Z.ltb_lt]; lia.
Qed.

Definition next_num (v : Version) (bn : Z) : Z :=
  if bool_decide (full cap v) then u32 (bn + 1) else bn.

(** [getBufferToWrite] at the head of the queue; [writingComplete] drops it. *)
Lemma getBufferToWrite_run v q cur op bn po pr rq w :
  writer_ok cap sid (v :: q) cur op bn po pr rq w -> version_ok cap v ->
  0 <= sid < 65536 -> is_u32 bn ->
  exists b w', FSW.getBufferToWrite w = (Val b, w')
    /\ MB.buffer b = render (mkEntry (Z.to_nat sid) cap bn v CB.int64_max)
    /\ MB.capacity b = cap /\ MB.stream_id b = sid
    /\ MB.partial b = negb (bool_decide (full cap v))
    /\ writer_ok cap sid (v :: q) cur op (next_num v bn) po pr rq w'.
Proof.
  intros [Hl Hc Ho Hsid Hbn Hpo Hpr Hrq] Hv Hs16 Hn32.
  destruct (front_run _ _ _ _ Hl) as (b & Ef & Hb).
  unfold FSW.getBufferToWrite. erewrite bind_val by done.
  erewrite bind_val by by apply in_list_run.
  cbn [FSW.stream_id FSW.buffer_num FSW.set_buffers].
  rewrite Hsid, Hbn, (control_block_write_run sid bn cap v b) by done.
  remember (render (mkEntry (Z.to_nat sid) cap bn v CB.int64_max)) as r eqn:Er.
  assert (Z.of_nat (length r) = cap) as Hrl by (rewrite Er; by apply render_length).
  assert (bytes_ok r) as Hrb by (rewrite Er; by apply render_ok).
  assert (drop 28 r = body cap v) as Hrd.
  { rewrite Er. unfold render, checked. rewrite !app_assoc, drop_app_length'; [done|].
    by rewrite !length_app, header_tail_length, !be_bytes_length. }
  set (b' := MB.set_stream_id sid (MB.set_buffer r b)).
  assert (MB.partial b' = negb (bool_decide (full cap v))) as Hpart'
    by by apply (version_of_clean v b).
  assert (clean cap v b') as Hcl.
  { destruct Hb as [[H1 H2 H3 H4 H5 H6] H7].
    split; [|done]. split; try done. cbn. rewrite Hrd. unfold body. by rewrite take_app_length. }
  destruct (set_front_run _ _ _ _ b' Hl Hcl) as (l' & Es & Hl').
  erewrite bind_val.
  2:{ apply in_list_run. cbn [FSW.buffers FSW.set_buffers]. exact Es. }
  rewrite Hpart'. unfold next_num.
  destruct (bool_decide (full cap v)); cbn [negb]; erewrite bind_val by done;
    (eexists _, _; split; [done|]; split_and!; try done; try (by destruct Hb as [[] _]);
     split; try done; cbn; by rewrite Hbn).
Qed.

Lemma writingComplete_run v q cur op bn po pr rq w :
  writer_ok cap sid (v :: q) cur op bn po pr rq w ->
  exists w', FSW.writingComplete w = (Val tt, w') /\ writer_ok cap sid q cur op bn po pr rq w'.
Proof.
  intros [Hl Hc Ho Hsid Hbn Hpo Hpr Hrq]. destruct (pop_run _ _ _ _ Hl) as (l' & E & Hl').
  eexists. split; [by apply in_list_run|]. by split.
Qed.
End Writer.
