(* ===== verification/DdffHandler.v ===== *)
(** Recording files: the file being written, as a list of blocks, and the
    invariant that every operation of the handler preserves. *)

From S2P Require Import Prelude.
From S2P Require Import Bytes.
From S2P Require Import Amorph.
From S2P Require Import DdffFile.
From S2P Require Import DdffStream.
From S2P Require Import DdffBlock.
From S2P Require Import DdffWrite.
#[local] Open Scope Z_scope.

(** * The blocks of a file *)

Definition total (es : list Entry) : Z := foldr (fun e n => e_cap e + n) 0 es.

(** The blocks of one stream, with their places. *)
Fixpoint blocks_of (sid : nat) (off : Z) (es : list Entry) : list (Z * Entry) :=
  match es with
  | [] => []
  | e :: es => (if decide (e_sid e = sid) then [(off, e)] else [])
               ++ blocks_of sid (off + e_cap e) es
  end.

Record entry_wf (e : Entry) : Prop := {
  ew_cap : cap_ok (e_cap e);
  ew_version : version_ok (e_cap e) (e_version e);
  ew_sid : Z.of_nat (e_sid e) < 65536;
  ew_num : is_u32 (e_num e)
}.

Lemma total_app a b : total (a ++ b) = total a + total b.
Proof. unfold total. induction a as [|e a IH]; cbn; [done|]. rewrite IH. lia. Qed.

Lemma total_pos es : Forall entry_wf es -> 0 <= total es.
Proof.
  unfold total. induction 1 as [|e es [Hc _ _ _] _ IH]; cbn; [lia|].
  unfold cap_ok, CB.control_block_size in Hc. lia.
Qed.

Lemma blocks_of_app sid off a b :
  blocks_of sid off (a ++ b) = blocks_of sid off a ++ blocks_of sid (off + total a) b.
Proof.
  revert off. induction a as [|e a IH]; intros off; cbn; [by rewrite Z.add_0_r|].
  rewrite IH, app_assoc. unfold total. do 2 f_equal. lia.
Qed.

Lemma blocks_of_range sid off es o e : Forall entry_wf es -> (o, e) ∈ blocks_of sid off es ->
  e_sid e = sid /\ e ∈ es /\ off <= o /\ o + e_cap e <= off + total es.
Proof.
  intros Hw. revert off. induction Hw as [|x es Hx Hes IH]; intros off; cbn; [by intros ?%elem_of_nil|].
  pose proof (total_pos es Hes). destruct Hx as [Hc _ _ _]. unfold cap_ok, CB.control_block_size in Hc.
  rewrite elem_of_app. unfold total in *. intros [Hin|Hin].
  - destruct (decide (e_sid x = sid)) as [Hs|]; [|by apply elem_of_nil in Hin].
    apply list_elem_of_singleton in Hin. injection Hin as -> ->. split_and!; [done|left|lia|lia].
  - destruct (IH _ Hin) as (? & ? & ? & ?). split_and!; [done|by right|lia|lia].
Qed.

(** Where the last block of a stream is. *)
Lemma last_split sid off es D o e :
  blocks_of sid off es = D ++ [(o, e)] ->
  exists es1 es2, es = es1 ++ e :: es2 /\ o = off + total es1 /\ e_sid e = sid
    /\ blocks_of sid off es1 = D /\ forall off', blocks_of sid off' es2 = [].
Proof.
  revert off D. induction es as [|x es IH]; intros off D; cbn; [by destruct D|].
  destruct (decide (e_sid x = sid)) as [Hs|Hs]; cbn.
  - destruct D as [|p D]; cbn.
    + intros [= -> -> E]. exists [], es. cbn. split_and!; [done|lia|done|done|].
      intros off'. destruct (blocks_of sid off' es) as [|q l] eqn:E'; [done|exfalso].
      clear IH. revert E E'. generalize (o + e_cap e) off'. clear.
      induction es as [|y es IH]; cbn; [done|]. intros a b. destruct (decide _); [done|]. apply IH.
    + intros [= <- E]. destruct (IH _ _ E) as (es1 & es2 & -> & -> & ? & HD & ?).
      exists (x :: es1), es2. cbn. rewrite decide_True, HD by done. unfold total.
      split_and!; [done|cbn; lia|done|done|done].
  - intros E. destruct (IH _ _ E) as (es1 & es2 & -> & -> & ? & HD & ?).
    exists (x :: es1), es2. cbn. rewrite decide_False, HD by done. unfold total.
    split_and!; [done|cbn; lia|done|done|done].
Qed.

(** Another block in the place of one of the same stream and size. *)
Lemma replace_block sid off es1 e e' es2 :
  e_sid e' = e_sid e -> e_cap e' = e_cap e -> sid <> e_sid e ->
  blocks_of sid off (es1 ++ e' :: es2) = blocks_of sid off (es1 ++ e :: es2).
Proof.
  intros Hs Hc Hne. rewrite !blocks_of_app. f_equal. cbn. rewrite Hc.
  by rewrite !decide_False by congruence.
Qed.

Section FileBytes.
Context {CR : Crc}.

Definition file_bytes (es : list Entry) : list Z := mjoin (render <$> es).

Lemma file_bytes_app a b : file_bytes (a ++ b) = file_bytes a ++ file_bytes b.
Proof. unfold file_bytes. by rewrite fmap_app, join_app. Qed.

Lemma entry_render_length e : entry_wf e -> Z.of_nat (length (render e)) = e_cap e.
Proof. intros [? ? _ _]. by apply render_length. Qed.

Lemma file_bytes_length es : Forall entry_wf es -> Z.of_nat (length (file_bytes es)) = total es.
Proof.
  unfold file_bytes, total. induction 1 as [|e es He _ IH]; [done|].
  change (mjoin (render <$> e :: es)) with (render e ++ mjoin (render <$> es)).
  cbn [foldr]. rewrite length_app. pose proof (entry_render_length e He). lia.
Qed.

(** Writing in the file. *)
Lemma overwrite_mid (a b b' c : list Z) : length b' = length b ->
  FS.overwrite (length a) b' (a ++ b ++ c) = a ++ b' ++ c.
Proof.
  intros Hl. unfold FS.overwrite. rewrite take_app_length, !length_app.
  replace (length a - _)%nat with O by lia. cbn. do 2 f_equal.
  rewrite Hl, app_assoc, drop_app_length'; [done|]. by rewrite length_app.
Qed.

Lemma overwrite_end (a b : list Z) : FS.overwrite (length a) b a = a ++ b.
Proof.
  unfold FS.overwrite. rewrite take_ge, Nat.sub_diag, drop_ge by lia. cbn. by rewrite app_nil_r.
Qed.

Lemma overwrite_block es1 e e' es2 :
  Forall entry_wf es1 -> entry_wf e -> entry_wf e' -> e_cap e' = e_cap e ->
  FS.overwrite (Z.to_nat (total es1)) (render e') (file_bytes (es1 ++ e :: es2))
  = file_bytes (es1 ++ e' :: es2).
Proof.
  intros H1 He He' Hc. rewrite !file_bytes_app. change (file_bytes (?x :: es2)) with (render x ++ file_bytes es2).
  pose proof (file_bytes_length es1 H1).
  replace (Z.to_nat (total es1)) with (length (file_bytes es1)) by lia.
  apply overwrite_mid. pose proof (entry_render_length e He). pose proof (entry_render_length e' He'). lia.
Qed.

(** The link is the first field of a block. *)
Definition set_next (n : Z) (e : Entry) : Entry :=
  mkEntry (e_sid e) (e_cap e) (e_num e) (e_version e) n.

Lemma overwrite_next es1 e n es2 :
  Forall entry_wf es1 ->
  FS.overwrite (Z.to_nat (total es1)) (be_bytes 8 n) (file_bytes (es1 ++ e :: es2))
  = file_bytes (es1 ++ set_next n e :: es2).
Proof.
  intros H1. rewrite !file_bytes_app. change (file_bytes (?x :: es2)) with (render x ++ file_bytes es2).
  pose proof (file_bytes_length es1 H1).
  replace (Z.to_nat (total es1)) with (length (file_bytes es1)) by lia.
  unfold render. rewrite <- !app_assoc. apply overwrite_mid. by rewrite !be_bytes_length.
Qed.
End FileBytes.

(** * The blocks of a stream on file *)

Definition versions (D : list (Z * Entry)) : list Version := (fun p => e_version p.2) <$> D.

(** A version of the next block of a stream: it replaces a partial last one. *)
Definition store (cap : Z) (X : list Version) (v : Version) : list Version :=
  match list.last X with
  | Some u => if decide (full cap u) then X ++ [v] else removelast X ++ [v]
  | None => [v]
  end.
(** The blocks after all the writes that wait. *)
Definition stored (cap : Z) : list Version -> list Version -> list Version :=
  foldl (store cap).

Lemma store_full cap X v : Forall (full cap) X -> store cap X v = X ++ [v].
Proof.
  intros Hf. unfold store. destruct (list.last X) as [u|] eqn:E.
  - rewrite decide_True; [done|]. rewrite list.Forall_forall in Hf. apply Hf.
    rewrite last_lookup in E. by eapply list_elem_of_lookup_2.
  - by apply last_None in E as ->.
Qed.
Lemma store_partial cap X u v : ~ full cap u -> store cap (X ++ [u]) v = X ++ [v].
Proof. intros Hf. unfold store. by rewrite last_snoc, decide_False, removelast_last. Qed.

Definition disk_partial (cap : Z) (D : list (Z * Entry)) : Z :=
  match list.last D with
  | Some (o, e) => if decide (full cap (e_version e)) then -1 else o
  | None => -1
  end.
Definition disk_previous (D : list (Z * Entry)) : Z :=
  match list.last D with Some (o, _) => o | None => -1 end.
Definition disk_first (D : list (Z * Entry)) : Z :=
  match D with (o, _) :: _ => o | [] => -1 end.
Definition disk_num (cap : Z) (D : list (Z * Entry)) : Z :=
  u32 (Z.of_nat (length D) - (if disk_partial cap D =? -1 then 0 else 1)).

(** The numbers and the links of the blocks of a stream; all but the last are
    full. *)
Fixpoint linked (cap : Z) (n : nat) (D : list (Z * Entry)) : Prop :=
  match D with
  | [] => True
  | (o, e) :: D' =>
      e_cap e = cap /\ e_num e = u32 (Z.of_nat n)
      /\ match D' with
         | [] => e_next e = CB.int64_max
         | (o2, _) :: _ => e_next e = o2 /\ full cap (e_version e)
         end
      /\ linked cap (S n) D'
  end.

Lemma linked_last cap n D o e : linked cap n (D ++ [(o, e)]) ->
  e_cap e = cap /\ e_num e = u32 (Z.of_nat (n + length D)) /\ e_next e = CB.int64_max
  /\ Forall (full cap) (versions D).
Proof.
  revert n. induction D as [|[o1 e1] D IH]; intros n; cbn.
  - intros (? & ? & ? & _). rewrite Nat.add_0_r. by split_and!.
  - intros (_ & _ & Hl & HD). destruct (IH _ HD) as (? & Hn & ? & ?).
    split_and!; [done|rewrite Hn; f_equal; lia|done|]. apply Forall_cons_2; [|done].
    destruct D as [|[o2 e2] D]; cbn in Hl; tauto.
Qed.

Lemma linked_replace cap n D o e e' : linked cap n (D ++ [(o, e)]) ->
  e_cap e' = e_cap e -> e_num e' = e_num e -> e_next e' = e_next e ->
  linked cap n (D ++ [(o, e')]).
Proof.
  intros Hl Hc Hn Hx. revert n Hl. induction D as [|[o1 e1] D IH]; intros n; cbn.
  - by rewrite Hc, Hn, Hx.
  - intros (? & ? & Hl & HD). split_and!; [done|done| |by apply IH].
    destruct D as [|[o2 e2] D]; exact Hl.
Qed.

Lemma linked_append cap n D o e o' e' : linked cap n (D ++ [(o, e)]) -> full cap (e_version e) ->
  e_cap e' = cap -> e_num e' = u32 (Z.of_nat (n + length D + 1)) -> e_next e' = CB.int64_max ->
  linked cap n (D ++ [(o, set_next o' e); (o', e')]).
Proof.
  intros Hl Hf Hc Hn Hx. revert n Hl Hn. induction D as [|[o1 e1] D IH]; intros n; cbn.
  - intros (? & ? & ? & _) Hn. rewrite Nat.add_0_r in Hn. split_and!; try done.
    rewrite Hn. f_equal. lia.
  - intros (? & ? & Hl & HD) Hn. split_and!; [done|done| |].
    + destruct D as [|[o2 e2] D]; exact Hl.
    + apply IH; [done|]. rewrite Hn. f_equal. lia.
Qed.

Lemma disk_snoc cap D o e : 0 <= o ->
  disk_partial cap (D ++ [(o, e)]) = (if decide (full cap (e_version e)) then -1 else o)
  /\ disk_previous (D ++ [(o, e)]) = o
  /\ disk_num cap (D ++ [(o, e)])
     = u32 (Z.of_nat (length D) + (if decide (full cap (e_version e)) then 1 else 0)).
Proof.
  intros Ho. unfold disk_num, disk_partial, disk_previous. rewrite last_snoc, length_app. cbn [length].
  split_and!; [done|done|]. destruct (decide _).
  - rewrite Z.eqb_refl. f_equal. lia.
  - rewrite (proj2 (Z.eqb_neq _ _)) by lia. f_equal. lia.
Qed.

Lemma disk_num_next cap v n :
  (if bool_decide (full cap v) then u32 (u32 n + 1) else u32 n)
  = u32 (n + (if decide (full cap v) then 1 else 0)).
Proof.
  destruct (decide (full cap v)).
  - by rewrite bool_decide_eq_true_2, u32_add_l.
  - by rewrite bool_decide_eq_false_2, Z.add_0_r.
Qed.

Lemma versions_app a b : versions (a ++ b) = versions a ++ versions b.
Proof. apply fmap_app. Qed.

(** * The invariant *)

(** What a stream has been given: its block size, the versions that wait to be
    written, the complete blocks and the block being filled. *)
Record Ghost := mkGhost {
  g_cap : Z;
  g_queue : list Version;
  g_full : list Version;
  g_cur : Version;
  g_open : bool
}.

Record stream_ok (es : list Entry) (sid : nat) (s : FH.StreamSetInfo) (g : Ghost) : Prop := {
  s_cap : cap_ok (g_cap g);
  s_writer : exists w, FH.writer s = Some w
    /\ writer_ok (g_cap g) (Z.of_nat sid) (g_queue g) (g_cur g) (g_open g)
         (disk_num (g_cap g) (blocks_of sid 0 es)) (disk_partial (g_cap g) (blocks_of sid 0 es))
         (disk_previous (blocks_of sid 0 es)) 0 w;
  s_reader : FH.reader s = None;
  s_block_size : FH.block_size s = g_cap g;
  s_first : FH.firstblock_location s = disk_first (blocks_of sid 0 es);
  s_linked : linked (g_cap g) 0 (blocks_of sid 0 es);
  s_queue : Forall (version_ok (g_cap g)) (g_queue g);
  s_full : Forall (fun v => version_ok (g_cap g) v /\ full (g_cap g) v) (g_full g);
  s_stored : let X := stored (g_cap g) (versions (blocks_of sid 0 es)) (g_queue g) in
    X = g_full g \/ exists v, ~ full (g_cap g) v /\ X = g_full g ++ [v]
}.

Definition jobs_of (sid : nat) (jobs : list nat) : nat := length (filter (fun j => j = sid) jobs).

Section Handler.
Context {BC : BuildConfig} {NM : NewMemory} {CR : Crc}.

Record handler_ok (h : FH.FileHandler) (es : list Entry) (gs : list Ghost) : Prop := {
  ho_entries : Forall entry_wf es;
  ho_contents : FS.contents (FH.file h) = file_bytes es;
  ho_good : FS.good (FH.file h) = true;
  ho_pos : FS.pos (FH.file h) = total es;
  ho_offset : FH.offset h = total es;
  ho_length : length gs = length (FH.streams h);
  ho_streams : forall sid s g, FH.streams h !! sid = Some s -> gs !! sid = Some g ->
    stream_ok es sid s g;
  ho_sids : Z.of_nat (length gs) <= 65536;
  ho_jobs : forall sid g, gs !! sid = Some g -> jobs_of sid (FH.write_jobs h) = length (g_queue g);
  ho_job_sids : Forall (fun j => (j < length gs)%nat) (FH.write_jobs h);
  ho_known : Forall (fun e => (e_sid e < length gs)%nat) es;
  ho_mode : FH.open_mode h <> FH.Read
}.

(** ** Running methods of a stream *)

Definition upd (sid : nat) (s : FH.StreamSetInfo) (w : FSW.FileStreamWrite) (f : FS.fstream)
    (h : FH.FileHandler) : FH.FileHandler :=
  FH.set_file f (FH.set_streams (<[sid:=FH.set_writer (Some w) s]> (FH.streams h)) h).

Lemma on_writer_file_run {A} sid (m : M (FSW.FileStreamWrite * FS.fstream) A) h s w r w' f' :
  FH.streams h !! sid = Some s -> FH.writer s = Some w -> m (w, FH.file h) = (r, (w', f')) ->
  FSW.requests w' = O ->
  FH.on_writer_file sid m h = (r, upd sid s w' f' h).
Proof.
  intros Hs Hw Hm Hr. unfold FH.on_writer_file. rewrite Hs, Hw, Hm, Hr. cbn. rewrite app_nil_r.
  unfold upd, FH.set_file, FH.set_streams. cbn. do 5 f_equal.
  unfold FSW.set_requests. destruct w'. cbn in *. by rewrite Hr.
Qed.

Lemma on_writer_run {A} sid (m : M FSW.FileStreamWrite A) h s w r w' :
  FH.streams h !! sid = Some s -> FH.writer s = Some w -> m w = (r, w') ->
  FSW.requests w' = O ->
  FH.on_writer sid m h = (r, upd sid s w' (FH.file h) h).
Proof.
  intros Hs Hw Hm Hr. unfold FH.on_writer. eapply on_writer_file_run; [done|done| |done].
  unfold zoom. cbn. by rewrite Hm.
Qed.

Lemma upd_stream sid s w f h : (sid < length (FH.streams h))%nat ->
  FH.streams (upd sid s w f h) !! sid = Some (FH.set_writer (Some w) s).
Proof. intros. cbn. by apply list_lookup_insert_eq. Qed.

Lemma upd_upd sid s w f w' f' h :
  upd sid (FH.set_writer (Some w) s) w' f' (upd sid s w f h) = upd sid s w' f' h.
Proof. unfold upd, FH.set_file, FH.set_streams. cbn. f_equal. apply list_insert_insert_eq. Qed.

Lemma in_file_run {A} (m : M FS.fstream A) h r f :
  m (FH.file h) = (r, f) -> FH.in_file m h = (r, FH.set_file f h).
Proof. unfold FH.in_file, zoom. by intros ->. Qed.

Lemma in_file_upd {A} (m : M FS.fstream A) sid s w f h r f' :
  m f = (r, f') -> FH.in_file m (upd sid s w f h) = (r, upd sid s w f' h).
Proof. intros E. by erewrite in_file_run. Qed.

Lemma seekg_run c p q : 0 <= q -> FS.seekg q (FS.mk c p true) = (Val tt, FS.mk c q true).
Proof. intros. unfold FS.seekg, modify. cbn. by rewrite (proj2 (Z.ltb_ge _ _)). Qed.
Lemma tellg_run c p : FS.tellg (FS.mk c p true) = (Val p, FS.mk c p true).
Proof. done. Qed.
Lemma write_run c p bs : FS.write bs (FS.mk c p true)
  = (Val tt, FS.mk (FS.overwrite (Z.to_nat p) bs c) (p + Z.of_nat (length bs)) true).
Proof. done. Qed.

(** A method of the writer of the stream at hand. *)
Lemma on_writer_upd {A} sid (m : M FSW.FileStreamWrite A) s w f h r w' :
  (sid < length (FH.streams h))%nat -> m w = (r, w') -> FSW.requests w' = O ->
  FH.on_writer sid m (upd sid s w f h) = (r, upd sid s w' f h).
Proof.
  intros Hlt Hm Hr. erewrite on_writer_run; [|by apply upd_stream|done|done|done]. by rewrite upd_upd.
Qed.
Lemma on_writer_file_upd {A} sid (m : M (FSW.FileStreamWrite * FS.fstream) A) s w f h r w' f' :
  (sid < length (FH.streams h))%nat -> m (w, f) = (r, (w', f')) -> FSW.requests w' = O ->
  FH.on_writer_file sid m (upd sid s w f h) = (r, upd sid s w' f' h).
Proof.
  intros Hlt Hm Hr. erewrite on_writer_file_run; [|by apply upd_stream|done|done|done]. by rewrite upd_upd.
Qed.

Lemma set_partial_ok cap sid q cur op bn po pr w po' :
  writer_ok cap sid q cur op bn po pr 0 w ->
  writer_ok cap sid q cur op bn po' pr 0 (FSW.set_partial po' w).
Proof. by intros []. Qed.

Lemma recordOffset_run cap sid q cur op bn pr w o :
  writer_ok cap sid q cur op bn (-1) pr 0 w ->
  FSW.recordOffsetForRewrite o w = (Val tt, FSW.set_partial o w).
Proof.
  intros [_ _ _ _ _ Hp _ _]. unfold FSW.recordOffsetForRewrite. erewrite bind_val by done.
  erewrite bind_val by (apply dassert_true; by rewrite Hp). done.
Qed.

(** ** Writing the first of the waiting blocks *)

Lemma stream_bound h sid s : FH.streams h !! sid = Some s -> (sid < length (FH.streams h))%nat.
Proof. apply lookup_lt_Some. Qed.

Lemma process_write_rewrite h sid s w cap q cur op pr v num o es1 e es2 :
  FH.streams h !! sid = Some s -> FH.writer s = Some w ->
  writer_ok cap (Z.of_nat sid) (v :: q) cur op num o pr 0 w ->
  cap_ok cap -> version_ok cap v -> is_u32 num -> Z.of_nat sid < 65536 ->
  Forall entry_wf (es1 ++ e :: es2) -> e_cap e = cap -> o = total es1 ->
  FH.file h = FS.mk (file_bytes (es1 ++ e :: es2)) (FH.offset h) true -> 0 <= FH.offset h ->
  exists w', FH.process_write sid h = (Val tt, upd sid s w' (FS.mk
      (file_bytes (es1 ++ mkEntry sid cap num v CB.int64_max :: es2)) (FH.offset h) true) h)
    /\ writer_ok cap (Z.of_nat sid) q cur op (next_num cap v num)
         (if decide (full cap v) then -1 else o) pr 0 w'.
Proof.
  intros Hs Hw Hok Hc Hv Hnum Hsid Hes Hecap Ho Hf Hoff. pose proof (stream_bound _ _ _ Hs) as Hlt.
  apply Forall_app in Hes as [Hes1 Hes2]. apply list.Forall_cons in Hes2 as [He Hes2].
  pose proof (total_pos es1 Hes1) as Hpos.
  set (e' := mkEntry sid cap num v CB.int64_max).
  assert (entry_wf e') as He' by by split.
  unfold FH.process_write.
  destruct (getBufferToWrite_run cap (Z.of_nat sid) Hc v q cur op num o pr 0 w Hok Hv)
    as (b & w1 & E1 & Hbuf & Hbcap & Hbsid & Hbp & Hok1); [lia|done|].
  rewrite Nat2Z.id in Hbuf. fold e' in Hbuf.
  erewrite bind_val by (eapply on_writer_run; [done|done|exact E1|apply Hok1]).
  rewrite Hf. set (c0 := file_bytes (es1 ++ e :: es2)).
  pose proof (set_partial_ok _ _ _ _ _ _ _ _ _ (-1) Hok1) as Hok2.
  set (w2 := FSW.set_partial (-1) w1) in *.
  erewrite bind_val.
  2:{ eapply on_writer_file_upd; [done| |apply Hok2].
      unfold FSW.shiftOffset. rewrite (w_partial _ _ _ _ _ _ _ _ _ _ Hok1).
      rewrite (proj2 (Z.eqb_neq _ _)) by lia. rewrite seekg_run by lia. done. }
  cbv beta iota.
  assert (exists w3, (
    (tmpoffset ← FH.in_file FS.tellg;
     FH.in_file (FS.write (MB.buffer b)) ;;
     when (MB.partial b) (FH.on_writer sid (FSW.recordOffsetForRewrite tmpoffset)) ;;
     h ← get; FH.in_file (FS.seekg (FH.offset h))) (upd sid s w2 (FS.mk c0 o true) h))
    = (Val tt, upd sid s w3 (FS.mk (file_bytes (es1 ++ e' :: es2)) (FH.offset h) true) h)
    /\ writer_ok cap (Z.of_nat sid) (v :: q) cur op (next_num cap v num)
         (if decide (full cap v) then -1 else o) pr 0 w3) as (w3 & E3 & Hok3).
  { erewrite bind_val by (apply in_file_upd, tellg_run).
    erewrite bind_val by (apply in_file_upd, write_run).
    rewrite Hbuf. unfold c0. rewrite Ho, overwrite_block by done. rewrite <- Ho.
    rewrite Hbp. destruct (decide (full cap v)) as [Hfull|Hnf].
    - rewrite bool_decide_eq_true_2 by done. exists w2. split; [|done].
      erewrite bind_val by done. erewrite bind_val by done. by apply in_file_upd, seekg_run.
    - rewrite bool_decide_eq_false_2 by done. exists (FSW.set_partial o w2).
      pose proof (set_partial_ok _ _ _ _ _ _ _ _ _ o Hok2) as Hok3. split; [|done].
      erewrite bind_val.
      2:{ eapply on_writer_upd; [done|by eapply recordOffset_run|apply Hok3]. }
      erewrite bind_val by done. by apply in_file_upd, seekg_run. }
  erewrite bind_val by exact E3.
  destruct (writingComplete_run _ _ _ _ _ _ _ _ _ _ _ Hok3) as (w4 & E4 & Hok4).
  exists w4. split; [|done]. eapply on_writer_upd; [done|exact E4|apply Hok4].
Qed.

(** The eight bytes of a link. *)
Lemma pack_link z : exists s,
  AS.packData_int64 z (AS.make (new_char 8) 8 0) = (Val tt, s) /\ AS.stor s = be_bytes 8 z.
Proof.
  assert (as_ok (AS.make (new_char 8) 8 0)) as Hok.
  { split; cbn; try lia; [rewrite new_char_length; lia|apply new_char_ok]. }
  unfold AS.packData_int64. rewrite hton_rep64_s.
  rewrite (pack_block 8) by (done || by rewrite be_bytes_length).
  unfold pack_result. rewrite be_bytes_length. cbn [AS.choked AS.make AS.index AS.capacity orb].
  eexists. split; [done|]. unfold append, splice. rewrite be_bytes_length.
  cbn [AS.stor AS.set_index AS.set_stor AS.make AS.index].
  rewrite drop_ge by (rewrite new_char_length; done). by rewrite app_nil_r.
Qed.

Lemma blockWritten_run cap sid q cur op bn po pr w off c p :
  writer_ok cap sid q cur op bn po pr 0 w -> pr = -1 \/ 0 <= pr -> 0 <= p ->
  exists w', FSW.blockWritten off (w, FS.mk c p true) = (Val tt, (w', FS.mk
      (if decide (pr = -1) then c else FS.overwrite (Z.to_nat pr) (be_bytes 8 off) c) p true))
    /\ writer_ok cap sid q cur op bn po off 0 w'.
Proof.
  intros [? ? ? ? ? ? Hpr ?] Hor Hp. unfold FSW.blockWritten.
  cbn [FSW.previousblock_offset FSW.set_linked]. rewrite Hpr.
  destruct (decide (pr = -1)) as [->|Hne].
  - rewrite Z.eqb_refl. eexists. split; [done|]. by split.
  - rewrite (proj2 (Z.eqb_neq _ _)) by done. destruct (pack_link off) as (st & Es & Hst).
    erewrite bind_val by apply tellg_run.
    erewrite bind_val by (apply seekg_run; lia). rewrite Es, Hst.
    erewrite bind_val by apply write_run. rewrite seekg_run by lia.
    eexists. split; [done|]. by split.
Qed.

Lemma set_blockWritten_run sid s w f h off : (sid < length (FH.streams h))%nat ->
  FH.reader s = None -> FH.block_size s <> 0 ->
  FH.set_blockWritten sid off (upd sid s w f h)
  = (Val tt, upd sid (if decide (FH.firstblock_location s = -1) then FH.set_first off s else s) w f h).
Proof.
  intros Hlt Hr Hb. unfold FH.set_blockWritten, FH.stream_at.
  erewrite bind_val by (erewrite bind_val by done; by rewrite upd_stream).
  cbn [FH.firstblock_location FH.set_writer].
  destruct (decide _) as [Hf|Hf]; [rewrite Hf, Z.eqb_refl|rewrite (proj2 (Z.eqb_neq _ _)) by done; done].
  erewrite bind_val by done.
  erewrite bind_val by (apply dassert_true; cbn; by rewrite (proj2 (Z.eqb_neq _ _))).
  cbn [FH.reader FH.set_writer]. rewrite Hr. unfold mret, M_ret. f_equal.
  unfold upd, FH.set_file, FH.set_streams. cbn. f_equal. by rewrite list_insert_insert_eq.
Qed.

(** The blocks with a new one behind them, to which the last one of the stream
    is linked. *)
Definition linked_to (prev : option (list Entry * Entry * list Entry)) (es : list Entry) (off : Z)
    : list Entry :=
  match prev with
  | None => es
  | Some (es1, e, es2) => es1 ++ set_next off e :: es2
  end.

Lemma process_write_append h sid s w cap q cur op pr v num es prev :
  FH.streams h !! sid = Some s -> FH.writer s = Some w -> FH.reader s = None ->
  FH.block_size s = cap ->
  writer_ok cap (Z.of_nat sid) (v :: q) cur op num (-1) pr 0 w ->
  cap_ok cap -> version_ok cap v -> is_u32 num -> Z.of_nat sid < 65536 ->
  Forall entry_wf es ->
  match prev with
  | None => pr = -1
  | Some (es1, e, es2) => es = es1 ++ e :: es2 /\ pr = total es1
  end ->
  FH.file h = FS.mk (file_bytes es) (total es) true -> FH.offset h = total es ->
  exists w', FH.process_write sid h = (Val tt, FH.set_offset (total es + cap) (upd sid
      (if decide (FH.firstblock_location s = -1) then FH.set_first (total es) s else s) w'
      (FS.mk (file_bytes (linked_to prev es (total es) ++ [mkEntry sid cap num v CB.int64_max]))
         (total es + cap) true) h))
    /\ writer_ok cap (Z.of_nat sid) q cur op (next_num cap v num)
         (if decide (full cap v) then -1 else total es) (total es) 0 w'.
Proof.
  intros Hs Hw Hrd Hbs Hok Hc Hv Hnum Hsid Hes Hprev Hf Hoff.
  pose proof (stream_bound _ _ _ Hs) as Hlt. pose proof (total_pos es Hes) as Hpos.
  set (e' := mkEntry sid cap num v CB.int64_max).
  assert (entry_wf e') as He' by by split.
  unfold FH.process_write.
  destruct (getBufferToWrite_run cap (Z.of_nat sid) Hc v q cur op num (-1) pr 0 w Hok Hv)
    as (b & w1 & E1 & Hbuf & Hbcap & Hbsid & Hbp & Hok1); [lia|done|].
  rewrite Nat2Z.id in Hbuf. fold e' in Hbuf.
  erewrite bind_val by (eapply on_writer_run; [done|done|exact E1|apply Hok1]).
  rewrite Hf.
  erewrite bind_val.
  2:{ eapply on_writer_file_upd; [done| |apply Hok1].
      unfold FSW.shiftOffset. by rewrite (w_partial _ _ _ _ _ _ _ _ _ _ Hok1). }
  cbv beta iota. set (s1 := if decide (FH.firstblock_location s = -1) then _ else _).
  assert (exists w3, (
    (h ← get;
     FH.in_file (FS.write (MB.buffer b)) ;;
     when (MB.partial b) (FH.on_writer sid (FSW.recordOffsetForRewrite (FH.offset h))) ;;
     dassert (bool_decide (MB.stream_id b < Z.of_nat (length (FH.streams h)))) ;;
     FH.set_blockWritten (Z.to_nat (MB.stream_id b)) (FH.offset h) ;;
     FH.on_writer_file sid (FSW.blockWritten (FH.offset h)) ;;
     modify (fun h => FH.set_offset (FH.offset h + MB.capacity b) h))
      (upd sid s w1 (FS.mk (file_bytes es) (total es) true) h))
    = (Val tt, FH.set_offset (total es + cap) (upd sid s1 w3
        (FS.mk (file_bytes (linked_to prev es (total es) ++ [e'])) (total es + cap) true) h))
    /\ writer_ok cap (Z.of_nat sid) (v :: q) cur op (next_num cap v num)
         (if decide (full cap v) then -1 else total es) (total es) 0 w3) as (w3 & E3 & Hok3).
  { erewrite bind_val by done. cbn [FH.offset upd FH.set_file FH.set_streams]. rewrite Hoff.
    erewrite bind_val by (apply in_file_upd, write_run).
    rewrite Hbuf, (entry_render_length e' He').
    pose proof (file_bytes_length es Hes) as Hbl.
    replace (Z.to_nat (total es)) with (length (file_bytes es)) by lia. rewrite overwrite_end.
    replace (file_bytes es ++ render e') with (file_bytes (es ++ [e']))
      by (rewrite file_bytes_app; unfold file_bytes at 2; cbn [fmap list_fmap mjoin list_join];
          by rewrite app_nil_r).
    change (e_cap e') with cap. rewrite Hbp.
    assert (exists w2, when (negb (bool_decide (full cap v)))
        (FH.on_writer sid (FSW.recordOffsetForRewrite (total es)))
        (upd sid s w1 (FS.mk (file_bytes (es ++ [e'])) (total es + cap) true) h)
      = (Val tt, upd sid s w2 (FS.mk (file_bytes (es ++ [e'])) (total es + cap) true) h)
      /\ writer_ok cap (Z.of_nat sid) (v :: q) cur op (next_num cap v num)
           (if decide (full cap v) then -1 else total es) pr 0 w2) as (w2 & E2 & Hok2).
    { destruct (decide (full cap v)) as [Hfull|Hnf].
      - rewrite bool_decide_eq_true_2 by done. by exists w1.
      - rewrite bool_decide_eq_false_2 by done. exists (FSW.set_partial (total es) w1).
        pose proof (set_partial_ok _ _ _ _ _ _ _ _ _ (total es) Hok1) as Hok2. split; [|done].
        eapply on_writer_upd; [done|by eapply recordOffset_run|apply Hok2]. }
    erewrite bind_val by exact E2.
    erewrite bind_val by (apply dassert_true, bool_decide_eq_true_2; rewrite Hbsid; cbn;
      rewrite length_insert; lia).
    rewrite Hbsid, Nat2Z.id.
    pose proof Hc as Hc'. unfold cap_ok, CB.control_block_size in Hc'.
    erewrite bind_val by (apply set_blockWritten_run; [done|done|lia]). fold s1.
    destruct (blockWritten_run _ _ _ _ _ _ _ _ _ (total es) (file_bytes (es ++ [e'])) (total es + cap) Hok2)
      as (w3 & E3 & Hok3); [|lia|].
    { destruct prev as [[[es1 e] es2]|]; [|by left]. destruct Hprev as [-> ->]. right.
      apply Forall_app in Hes as [Hes1 _]. by apply total_pos. }
    exists w3. split; [|done].
    erewrite bind_val by (eapply on_writer_file_upd; [done|exact E3|apply Hok3]).
    unfold modify. rewrite Hbcap. cbn [FH.offset upd FH.set_file FH.set_streams]. rewrite Hoff.
    do 4 f_equal. destruct prev as [[[es1 e] es2]|]; cbn [linked_to].
    - destruct Hprev as [-> ->]. apply Forall_app in Hes as [Hes1 _].
      pose proof (total_pos es1 Hes1). rewrite decide_False by lia.
      rewrite <- app_assoc. cbn [app]. rewrite overwrite_next by done. by rewrite <- app_assoc.
    - by rewrite Hprev. }
  erewrite bind_val by exact E3.
  destruct (writingComplete_run _ _ _ _ _ _ _ _ _ _ _ Hok3) as (w4 & E4 & Hok4).
  exists w4. split; [|done].
  change (FH.set_offset ?o (upd sid s1 ?w ?f h)) with (upd sid s1 w f (FH.set_offset o h)).
  eapply on_writer_upd; [done|exact E4|apply Hok4].
Qed.

(** ** The invariant over one write *)

Definition pop_queue (g : Ghost) : Ghost :=
  mkGhost (g_cap g) (tail (g_queue g)) (g_full g) (g_cur g) (g_open g).

(** The file after a write for stream [sid]: the other streams have the same
    blocks, this one has [v] stored. *)
Record wrote (sid : nat) (cap : Z) (v : Version) (es es' : list Entry) (o : Z) : Prop := {
  wr_wf : Forall entry_wf es -> Forall entry_wf es';
  wr_known : forall n, (sid < n)%nat -> Forall (fun e => (e_sid e < n)%nat) es ->
    Forall (fun e => (e_sid e < n)%nat) es';
  wr_others : forall sid', sid' <> sid -> blocks_of sid' 0 es' = blocks_of sid' 0 es;
  wr_pos : 0 <= o;
  wr_blocks : exists D0 e', blocks_of sid 0 es' = D0 ++ [(o, e')] /\ e_version e' = v
    /\ u32 (Z.of_nat (length D0)) = disk_num cap (blocks_of sid 0 es);
  wr_versions : versions (blocks_of sid 0 es') = store cap (versions (blocks_of sid 0 es)) v;
  wr_linked : linked cap 0 (blocks_of sid 0 es');
  wr_first : disk_first (blocks_of sid 0 es')
    = if decide (disk_first (blocks_of sid 0 es) = -1) then o else disk_first (blocks_of sid 0 es)
}.

Lemma disk_first_pos sid es : Forall entry_wf es -> blocks_of sid 0 es <> [] ->
  0 <= disk_first (blocks_of sid 0 es).
Proof.
  intros Hw Hn. unfold disk_first. destruct (blocks_of sid 0 es) as [|[o e] D] eqn:E; [done|].
  destruct (blocks_of_range sid 0 es o e Hw) as (_ & _ & ? & _); [rewrite E; left|done].
Qed.

Lemma wrote_partial sid cap v es1 e es2 D o :
  Forall entry_wf (es1 ++ e :: es2) -> linked cap 0 (D ++ [(o, e)]) ->
  blocks_of sid 0 (es1 ++ e :: es2) = D ++ [(o, e)] -> o = total es1 -> e_sid e = sid ->
  blocks_of sid 0 es1 = D -> (forall off, blocks_of sid off es2 = []) ->
  ~ full cap (e_version e) -> cap_ok cap -> version_ok cap v -> Z.of_nat sid < 65536 ->
  wrote sid cap v (es1 ++ e :: es2)
    (es1 ++ mkEntry sid cap (disk_num cap (D ++ [(o, e)])) v CB.int64_max :: es2) o.
Proof.
  intros Hw Hl HD -> Hs H1 H2 Hnf Hc Hv Hsid.
  pose proof (linked_last _ _ _ _ _ Hl) as (Hec & Hen & Hex & Hfull).
  pose proof Hw as Hw'. apply Forall_app in Hw' as [Hw1 Hw2]. apply list.Forall_cons in Hw2 as [He Hw2].
  pose proof (total_pos es1 Hw1) as Hpos.
  destruct (disk_snoc cap D (total es1) e Hpos) as (_ & _ & Hnum).
  rewrite decide_False, Z.add_0_r in Hnum by done.
  set (e' := mkEntry _ _ _ _ _).
  assert (blocks_of sid 0 (es1 ++ e' :: es2) = D ++ [(total es1, e')]) as HD'.
  { rewrite blocks_of_app, H1. cbn. by rewrite decide_True, H2 by done. }
  split.
  - intros _. apply Forall_app. split; [done|]. apply Forall_cons_2; [|done].
    split; try done. cbn. rewrite Hnum. apply u32_range.
  - intros n Hn [? [? ?]%list.Forall_cons]%Forall_app. apply Forall_app. split; [done|].
    by apply Forall_cons_2.
  - intros sid' Hne. apply replace_block; cbn; congruence.
  - done.
  - exists D, e'. rewrite HD'. split_and!; [done|done|]. by rewrite HD, Hnum.
  - rewrite HD', HD, !versions_app. cbn. by rewrite store_partial.
  - rewrite HD'. eapply linked_replace; [done|cbn; congruence| |by rewrite Hex].
    cbn. rewrite Hnum, Hen. done.
  - rewrite HD', HD. unfold disk_first. destruct D as [|[o1 e1] D]; cbn.
    + by destruct (decide _).
    + rewrite decide_False; [done|]. intros E.
      pose proof (disk_first_pos sid (es1 ++ e :: es2) Hw) as Hp. rewrite HD in Hp. cbn in Hp.
      specialize (Hp ltac:(done)). lia.
Qed.

Lemma blocks_of_one sid off e : blocks_of sid off [e] = if decide (e_sid e = sid) then [(off, e)] else [].
Proof. cbn. by rewrite app_nil_r. Qed.

Lemma total_one e : total [e] = e_cap e.
Proof. cbn. lia. Qed.

Lemma wrote_first sid cap v es :
  Forall entry_wf es -> blocks_of sid 0 es = [] -> cap_ok cap -> version_ok cap v ->
  Z.of_nat sid < 65536 ->
  wrote sid cap v es (es ++ [mkEntry sid cap (disk_num cap []) v CB.int64_max]) (total es).
Proof.
  intros Hw HD Hc Hv Hsid. set (e' := mkEntry _ _ _ _ _). pose proof (total_pos es Hw).
  assert (forall sid', blocks_of sid' 0 (es ++ [e'])
    = blocks_of sid' 0 es ++ if decide (sid = sid') then [(total es, e')] else []) as Hb.
  { intros sid'. by rewrite blocks_of_app, blocks_of_one, Z.add_0_l. }
  assert (disk_num cap [] = 0) as Hn by done.
  split.
  - intros _. apply Forall_app. split; [done|]. apply list.Forall_singleton. split; try done.
  - intros n Hlt Hk. apply Forall_app. split; [done|]. by apply list.Forall_singleton.
  - intros sid' Hne. rewrite Hb, decide_False by done. apply app_nil_r.
  - done.
  - exists [], e'. rewrite Hb, HD, decide_True by done. done.
  - rewrite Hb, HD, decide_True by done. done.
  - rewrite Hb, HD, decide_True by done. cbn. rewrite Hn. done.
  - by rewrite Hb, HD, decide_True by done.
Qed.

Lemma wrote_linked sid cap v es1 e es2 D o :
  Forall entry_wf (es1 ++ e :: es2) -> linked cap 0 (D ++ [(o, e)]) ->
  blocks_of sid 0 (es1 ++ e :: es2) = D ++ [(o, e)] -> o = total es1 -> e_sid e = sid ->
  blocks_of sid 0 es1 = D -> (forall off, blocks_of sid off es2 = []) ->
  full cap (e_version e) -> cap_ok cap -> version_ok cap v -> Z.of_nat sid < 65536 ->
  let es := es1 ++ e :: es2 in
  wrote sid cap v es (linked_to (Some (es1, e, es2)) es (total es)
      ++ [mkEntry sid cap (disk_num cap (D ++ [(o, e)])) v CB.int64_max]) (total es).
Proof.
  intros Hw Hl HD -> Hs H1 H2 Hf Hc Hv Hsid es.
  pose proof (linked_last _ _ _ _ _ Hl) as (Hec & Hen & Hex & Hfull).
  pose proof Hw as Hw'. apply Forall_app in Hw' as [Hw1 Hw2]. apply list.Forall_cons in Hw2 as [He Hw2].
  pose proof (total_pos es1 Hw1) as Hpos. pose proof (total_pos es Hw) as Hpos'.
  destruct (disk_snoc cap D (total es1) e Hpos) as (_ & _ & Hnum).
  rewrite decide_True in Hnum by done.
  set (e' := mkEntry _ _ _ _ _). cbn [linked_to]. set (e2 := set_next (total es) e).
  assert (total (es1 ++ e2 :: es2) = total es) as Ht.
  { subst es. rewrite !total_app. done. }
  assert (forall sid', blocks_of sid' 0 ((es1 ++ e2 :: es2) ++ [e'])
    = blocks_of sid' 0 (es1 ++ e2 :: es2) ++ if decide (sid = sid') then [(total es, e')] else []) as Hb.
  { intros sid'. by rewrite blocks_of_app, blocks_of_one, Z.add_0_l, Ht. }
  assert (blocks_of sid 0 ((es1 ++ e2 :: es2) ++ [e']) = D ++ [(total es1, e2); (total es, e')]) as HD'.
  { rewrite Hb, blocks_of_app, H1. cbn. rewrite decide_True, H2, decide_True by done.
    by rewrite <- app_assoc. }
  split.
  - intros _. apply Forall_app. split; [apply Forall_app; split; [done|]|].
    + apply Forall_cons_2; [|done]. by destruct He.
    + apply list.Forall_singleton. split; try done. cbn. rewrite Hnum. apply u32_range.
  - intros n Hn [? [? ?]%list.Forall_cons]%Forall_app. rewrite !Forall_app. split_and!; [done| |].
    + by apply Forall_cons_2.
    + by apply list.Forall_singleton.
  - intros sid' Hne. rewrite Hb, decide_False, app_nil_r by done. apply replace_block; cbn; congruence.
  - done.
  - exists (D ++ [(total es1, e2)]), e'. rewrite HD', <- app_assoc. split_and!; [done|done|].
    subst es. rewrite HD, Hnum, length_app. cbn [length]. f_equal. lia.
  - subst es. rewrite HD', HD, !versions_app. cbn. rewrite store_full.
    + by rewrite <- app_assoc.
    + apply Forall_app. split; [done|]. by apply list.Forall_singleton.
  - rewrite HD'. apply linked_append; try done. cbn. rewrite Hnum. f_equal. lia.
  - subst es. rewrite HD', HD. unfold disk_first. destruct D as [|[o1 e1] D]; cbn.
    + rewrite decide_False by lia. done.
    + rewrite decide_False; [done|]. intros E.
      pose proof (disk_first_pos sid (es1 ++ e :: es2) Hw) as Hp. rewrite HD in Hp. cbn in Hp.
      specialize (Hp ltac:(done)). lia.
Qed.

Lemma stream_ok_ext es es' sid s g :
  stream_ok es sid s g -> blocks_of sid 0 es' = blocks_of sid 0 es -> stream_ok es' sid s g.
Proof. intros [] E. split; rewrite ?E; done. Qed.

(** The stream that was written for. *)
Lemma stream_ok_wrote es es' sid s g v q o w' :
  stream_ok es sid s g -> g_queue g = v :: q -> Forall entry_wf es ->
  wrote sid (g_cap g) v es es' o ->
  writer_ok (g_cap g) (Z.of_nat sid) q (g_cur g) (g_open g)
    (next_num (g_cap g) v (disk_num (g_cap g) (blocks_of sid 0 es)))
    (if decide (full (g_cap g) v) then -1 else o) o 0 w' ->
  stream_ok es' sid (FH.set_writer (Some w')
    (if decide (FH.firstblock_location s = -1) then FH.set_first o s else s)) (pop_queue g).
Proof.
  intros [] Hq Hw [] Hok. destruct wr_blocks0 as (D0 & e' & HD & Hv & Hn).
  destruct (disk_snoc (g_cap g) D0 o e' wr_pos0) as (Hp & Hpr & Hnum). rewrite Hv in Hp, Hnum.
  split; cbn; try done.
  - eexists. split; [by destruct (decide (FH.firstblock_location s = -1))|]. rewrite Hq. cbn. rewrite HD, Hp, Hpr, Hnum.
    rewrite <- disk_num_next. unfold next_num in Hok. by rewrite Hn.
  - destruct (decide (FH.firstblock_location s = -1)); exact s_reader0.
  - destruct (decide (FH.firstblock_location s = -1)); exact s_block_size0.
  - rewrite wr_first0, <- s_first0. destruct (decide (FH.firstblock_location s = -1)); done.
  - rewrite Hq. cbn. rewrite Hq in s_queue0. by apply list.Forall_cons in s_queue0 as [_ ?].
  - cbv zeta in s_stored0. rewrite Hq in *. cbn in *. by rewrite wr_versions0.
Qed.

(** All of it, for the first job. *)
Lemma process_one h es gs sid jobs :
  handler_ok h es gs -> FH.write_jobs h = sid :: jobs ->
  exists h' es', FH.process_write sid h = (Val tt, h') /\ FH.write_jobs h' = sid :: jobs
    /\ handler_ok (FH.set_write_jobs jobs h') es' (alter pop_queue sid gs)
    /\ total es <= total es'
    /\ forall sid' g, gs !! sid' = Some g ->
         stored (g_cap g) (versions (blocks_of sid' 0 es'))
           (if decide (sid' = sid) then tail (g_queue g) else g_queue g)
         = stored (g_cap g) (versions (blocks_of sid' 0 es)) (g_queue g).
Proof.
  intros Hh Hj. pose proof Hh as []. rewrite Hj in *.
  apply list.Forall_cons in ho_job_sids0 as [Hlt Hjobs].
  destruct (lookup_lt_is_Some_2 gs sid Hlt) as (g & Hg).
  destruct (lookup_lt_is_Some_2 (FH.streams h) sid) as (s & Hs); [lia|].
  pose proof (ho_streams0 _ _ _ Hs Hg) as Hso. pose proof Hso as [].
  destruct (g_queue g) as [|v q] eqn:Hq.
  { pose proof (ho_jobs0 _ _ Hg) as E. rewrite Hq in E. unfold jobs_of in E.
    rewrite filter_cons_True in E by done. done. }
  apply list.Forall_cons in s_queue0 as [Hv _]. destruct s_writer0 as (w & Hw & Hok).
  assert (Z.of_nat sid < 65536) as Hsid by lia.
  assert (FH.file h = FS.mk (file_bytes es) (FH.offset h) true) as Hf.
  { destruct (FH.file h). cbn in *. by rewrite ho_contents0, ho_pos0, ho_offset0, ho_good0. }
  pose proof (total_pos es ho_entries0) as Hpos.
  assert (is_u32 (disk_num (g_cap g) (blocks_of sid 0 es))) as Hnum by apply u32_range.
  assert (exists h' es' o w', FH.process_write sid h = (Val tt, h')
    /\ h' = FH.set_offset (total es') (upd sid
         (if decide (FH.firstblock_location s = -1) then FH.set_first o s else s) w'
         (FS.mk (file_bytes es') (total es') true) h)
    /\ wrote sid (g_cap g) v es es' o /\ total es <= total es'
    /\ writer_ok (g_cap g) (Z.of_nat sid) q (g_cur g) (g_open g)
         (next_num (g_cap g) v (disk_num (g_cap g) (blocks_of sid 0 es)))
         (if decide (full (g_cap g) v) then -1 else o) o 0 w')
    as (h' & es' & o & w' & E & -> & Hwr & Hle & Hok').
  { destruct (list.last (blocks_of sid 0 es)) as [[o e]|] eqn:El.
    - apply last_Some in El as (D & HD). rewrite HD in s_linked0.
      destruct (last_split _ _ _ _ _ _ HD) as (es1 & es2 & Hes & Ho & Hesid & H1 & H2).
      rewrite Z.add_0_l in Ho. pose proof ho_entries0 as Hwf. rewrite Hes in Hwf.
      pose proof Hwf as Hwf1. apply Forall_app in Hwf1 as [Hwf1 _].
      pose proof (total_pos es1 Hwf1) as Hpos1.
      destruct (disk_snoc (g_cap g) D o e) as (Hdp & Hdpr & Hdn); [lia|].
      pose proof (linked_last _ _ _ _ _ s_linked0) as (Hecap & _ & _ & _).
      rewrite <- HD in Hdp, Hdpr. rewrite Hdp, Hdpr in Hok.
      destruct (decide (full (g_cap g) (e_version e))) as [Hfull|Hnf].
      + destruct (process_write_append h sid s w (g_cap g) q (g_cur g) (g_open g) o v
          (disk_num (g_cap g) (blocks_of sid 0 es)) es (Some (es1, e, es2))) as (w' & E & Hok');
          try done.
        { by rewrite Hf, ho_offset0. }
        eexists _, _, (total es), w'. split; [exact E|].
        assert (total (linked_to (Some (es1, e, es2)) es (total es)
          ++ [mkEntry sid (g_cap g) (disk_num (g_cap g) (blocks_of sid 0 es)) v CB.int64_max])
          = total es + g_cap g) as Ht.
        { cbn [linked_to]. rewrite total_app, total_one. cbn [e_cap]. f_equal.
          rewrite Hes, !total_app. done. }
        split; [by rewrite Ht|]. split; [|split; [rewrite Ht; unfold cap_ok, CB.control_block_size in *; lia|exact Hok']].
        rewrite HD, Hes. by apply (wrote_linked _ _ _ _ _ _ D o); rewrite <- ?Hes.
      + destruct (process_write_rewrite h sid s w (g_cap g) q (g_cur g) (g_open g) o v
          (disk_num (g_cap g) (blocks_of sid 0 es)) o es1 e es2) as (w' & E & Hok'); try done.
        { by rewrite <- Hes. }
        { lia. }
        rewrite ho_offset0 in E.
        set (es' := es1 ++ _ :: es2) in E.
        assert (total es' = total es) as Ht by (rewrite Hes; unfold es'; rewrite !total_app; cbn; lia).
        eexists _, es', o, w'. split; [exact E|]. split.
        { rewrite Ht. unfold upd, FH.set_offset, FH.set_file, FH.set_streams. cbn.
          rewrite decide_False, ho_offset0; [done|].
          intros Ef. rewrite s_first0 in Ef.
          pose proof (disk_first_pos sid es ho_entries0) as Hp. rewrite HD in Hp, Ef.
          specialize (Hp ltac:(by destruct D)). lia. }
        split; [|split; [lia|exact Hok']].
        unfold es'. rewrite HD, Hes. by apply (wrote_partial _ _ _ _ _ _ D o); rewrite <- ?Hes.
    - apply last_None in El. rewrite El in Hok.
      destruct (process_write_append h sid s w (g_cap g) q (g_cur g) (g_open g) (-1) v
          (disk_num (g_cap g) []) es None) as (w' & E & Hok'); try done.
      { by rewrite Hf, ho_offset0. }
      eexists _, _, (total es), w'. split; [exact E|].
      assert (total (linked_to None es (total es)
          ++ [mkEntry sid (g_cap g) (disk_num (g_cap g) []) v CB.int64_max]) = total es + g_cap g) as Ht.
      { cbn [linked_to]. by rewrite total_app, total_one. }
      split; [by rewrite Ht|].
      split; [|split; [rewrite Ht; unfold cap_ok, CB.control_block_size in *; lia|by rewrite El]].
      by apply wrote_first. }
  exists (FH.set_offset (total es') (upd sid
    (if decide (FH.firstblock_location s = -1) then FH.set_first o s else s) w'
    (FS.mk (file_bytes es') (total es') true) h)), es'.
  split; [done|]. split; [exact Hj|]. split_and!.
  - assert (length (alter pop_queue sid gs) = length gs) as Hlen by apply length_alter.
    split; cbn; try done.
    + by apply (wr_wf _ _ _ _ _ _ Hwr).
    + rewrite Hlen, length_insert. done.
    + intros sid' s' g' Hs' Hg'. destruct (decide (sid' = sid)) as [->|Hne].
      * rewrite list_lookup_insert_eq in Hs' by lia. injection Hs' as <-.
        rewrite list_lookup_alter_eq, Hg in Hg'. injection Hg' as <-. by eapply stream_ok_wrote.
      * rewrite list_lookup_insert_ne in Hs' by done. rewrite list_lookup_alter_ne in Hg' by done.
        eapply stream_ok_ext; [by eapply ho_streams0|]. by apply (wr_others _ _ _ _ _ _ Hwr).
    + by rewrite Hlen.
    + intros sid' g' Hg'. destruct (decide (sid' = sid)) as [->|Hne].
      * rewrite list_lookup_alter_eq, Hg in Hg'. injection Hg' as <-. cbn. rewrite Hq. cbn.
        pose proof (ho_jobs0 _ _ Hg) as E'. rewrite Hq in E'. unfold jobs_of in *.
        rewrite filter_cons_True in E' by done. by injection E'.
      * rewrite list_lookup_alter_ne in Hg' by done. rewrite <- (ho_jobs0 _ _ Hg'). unfold jobs_of.
        by rewrite filter_cons_False by congruence.
    + by rewrite Hlen.
    + rewrite Hlen. by apply (wr_known _ _ _ _ _ _ Hwr).
  - done.
  - intros sid' g' Hg'. destruct (decide (sid' = sid)) as [->|Hne].
    + rewrite Hg in Hg'. injection Hg' as <-. rewrite Hq. cbn. by rewrite (wr_versions _ _ _ _ _ _ Hwr).
    + by rewrite (wr_others _ _ _ _ _ _ Hwr).
Qed.

(** ** Processing all the writes *)

Definition drained (g : Ghost) : Ghost :=
  mkGhost (g_cap g) [] (g_full g) (g_cur g) (g_open g).

Lemma drained_pop (sid : nat) (gs : list Ghost) : drained <$> alter pop_queue sid gs = drained <$> gs.
Proof.
  apply list_eq. intros i. rewrite !list_lookup_fmap. destruct (decide (i = sid)) as [->|Hne].
  - rewrite list_lookup_alter_eq. by destruct (gs !! sid).
  - by rewrite list_lookup_alter_ne.
Qed.

Lemma process_writes_run n h es gs :
  handler_ok h es gs -> length (FH.write_jobs h) = n ->
  exists h' es', FH.process_writes n h = (Val n, h') /\ FH.write_jobs h' = []
    /\ handler_ok h' es' (drained <$> gs) /\ total es <= total es'
    /\ forall sid g, gs !! sid = Some g ->
         versions (blocks_of sid 0 es') = stored (g_cap g) (versions (blocks_of sid 0 es)) (g_queue g).
Proof.
  revert h es gs. induction n as [|n IH]; intros h es gs Hh Hn.
  - apply nil_length_inv in Hn. assert (forall sid g, gs !! sid = Some g -> g_queue g = []) as Hq.
    { intros sid g Hg. pose proof (ho_jobs _ _ _ Hh _ _ Hg) as E. rewrite Hn in E.
      symmetry in E. by apply nil_length_inv in E. }
    exists h, es. assert (drained <$> gs = gs) as ->.
    { apply list_eq. intros i. rewrite list_lookup_fmap. destruct (gs !! i) as [g|] eqn:E; [|done].
      cbn. f_equal. unfold drained. rewrite <- (Hq _ _ E). by destruct g. }
    cbn [FH.process_writes]. erewrite bind_val by done. rewrite Hn.
    split_and!; try done. intros sid g Hg. by rewrite (Hq _ _ Hg).
  - destruct (FH.write_jobs h) as [|sid jobs] eqn:Hj; [done|]. injection Hn as Hn.
    destruct (process_one h es gs sid jobs Hh Hj) as (h1 & es1 & E1 & Hj1 & Hh1 & Hle1 & Hst1).
    destruct (IH _ _ _ Hh1 Hn) as (h2 & es2 & E2 & Hj2 & Hh2 & Hle2 & Hst2).
    exists h2, es2. cbn [FH.process_writes]. erewrite bind_val by done. rewrite Hj.
    erewrite bind_val by exact E1. erewrite bind_val by (unfold modify; rewrite Hj1; done).
    cbn [tail]. erewrite bind_val by exact E2. split; [done|]. split; [done|].
    rewrite drained_pop in Hh2. split; [done|]. split; [lia|].
    intros sid' g Hg. rewrite <- (Hst1 _ _ Hg). destruct (decide (sid' = sid)) as [->|Hne].
    + rewrite (Hst2 sid (pop_queue g)); [done|]. by rewrite list_lookup_alter_eq, Hg.
    + apply Hst2. by rewrite list_lookup_alter_ne.
Qed.

Lemma processWrites_run h es gs :
  handler_ok h es gs ->
  exists n h' es', FH.processWrites h = (Val n, h')
    /\ handler_ok h' es' (drained <$> gs) /\ total es <= total es'
    /\ forall sid g, gs !! sid = Some g ->
         versions (blocks_of sid 0 es') = stored (g_cap g) (versions (blocks_of sid 0 es)) (g_queue g).
Proof.
  intros Hh. destruct (process_writes_run _ h es gs Hh eq_refl) as (h' & es' & E & _ & Hh' & Hle & Hst).
  eexists _, h', es'. split; [|done]. unfold FH.processWrites. erewrite bind_val by done. exact E.
Qed.

(** ** What the users of a stream do *)

(** A method of a writer that asks for [rq] writes. *)
Lemma on_writer_jobs {A} sid (m : M FSW.FileStreamWrite A) h s w r w' :
  FH.streams h !! sid = Some s -> FH.writer s = Some w -> m w = (r, w') ->
  FH.on_writer sid m h = (r, FH.set_write_jobs (FH.write_jobs h ++ replicate (FSW.requests w') sid)
    (upd sid s (FSW.set_requests 0 w') (FH.file h) h)).
Proof.
  intros Hs Hw Hm. unfold FH.on_writer, FH.on_writer_file. rewrite Hs, Hw. unfold zoom. cbn.
  by rewrite Hm.
Qed.

Lemma reset_requests cap sid q cur op bn po pr rq w :
  writer_ok cap sid q cur op bn po pr rq w ->
  writer_ok cap sid q cur op bn po pr 0 (FSW.set_requests 0 w).
Proof. by intros []. Qed.

(** The blocks a stream is given beyond those that wait. *)
Definition extends (g : Ghost) (ext : list Version) (g' : Ghost) : Prop :=
  g_cap g' = g_cap g /\ g_queue g' = g_queue g ++ ext
  /\ Forall (version_ok (g_cap g)) ext
  /\ (forall X, X = g_full g \/ (exists v, ~ full (g_cap g) v /\ X = g_full g ++ [v]) ->
        let X' := stored (g_cap g) X ext in
        X' = g_full g' \/ exists v, ~ full (g_cap g) v /\ X' = g_full g' ++ [v])
  /\ Forall (fun v => version_ok (g_cap g) v /\ full (g_cap g) v) (g_full g').

Lemma on_writer_ok {A} sid (m : M FSW.FileStreamWrite A) h es gs g ext g' r :
  handler_ok h es gs -> gs !! sid = Some g -> extends g ext g' ->
  (forall s w bn po pr, FH.streams h !! sid = Some s -> FH.writer s = Some w ->
     writer_ok (g_cap g) (Z.of_nat sid) (g_queue g) (g_cur g) (g_open g) bn po pr 0 w ->
     exists w', m w = (r, w')
       /\ writer_ok (g_cap g) (Z.of_nat sid) (g_queue g') (g_cur g') (g_open g') bn po pr
            (length ext) w') ->
  exists h', FH.on_writer sid m h = (r, h') /\ handler_ok h' es (<[sid:=g']> gs)
    /\ FH.file h' = FH.file h.
Proof.
  intros Hh Hg (Hcap & Hq & Hext & HX & Hfull) Hm. pose proof Hh as [].
  pose proof (lookup_lt_Some _ _ _ Hg) as Hlt.
  destruct (lookup_lt_is_Some_2 (FH.streams h) sid) as (s & Hs); [lia|].
  pose proof (ho_streams0 _ _ _ Hs Hg) as Hso. pose proof Hso as [].
  destruct s_writer0 as (w & Hw & Hok). destruct (Hm _ _ _ _ _ Hs Hw Hok) as (w' & E & Hok').
  eexists. split; [by eapply on_writer_jobs|]. split; [|done].
  assert (length (<[sid:=g']> gs) = length gs) as Hlen by apply length_insert.
  split; cbn; try done.
  - by rewrite Hlen, length_insert.
  - intros sid' s' gx Hs' Hg'. destruct (decide (sid' = sid)) as [->|Hne].
    + rewrite list_lookup_insert_eq in Hs' by lia. rewrite list_lookup_insert_eq in Hg' by lia.
      injection Hs' as <-. injection Hg' as <-. split; rewrite ?Hcap; cbn; try done.
      * eexists. split; [done|]. by eapply reset_requests.
      * rewrite Hq. by apply Forall_app.
      * rewrite Hq. unfold stored. rewrite foldl_app. by apply HX.
    + rewrite list_lookup_insert_ne in Hs' by done. rewrite list_lookup_insert_ne in Hg' by done. eauto.
  - by rewrite Hlen.
  - intros sid' gx Hg'. unfold jobs_of. rewrite list.filter_app, length_app. fold (jobs_of sid' (FH.write_jobs h)).
    rewrite (w_requests _ _ _ _ _ _ _ _ _ _ Hok').
    destruct (decide (sid' = sid)) as [->|Hne].
    + rewrite list_lookup_insert_eq in Hg' by lia. injection Hg' as <-.
      rewrite (ho_jobs0 _ _ Hg), Hq, length_app. f_equal.
      clear. induction (length ext) as [|n IH]; [done|]. cbn [replicate].
      rewrite filter_cons_True by done. cbn. by rewrite IH.
    + rewrite list_lookup_insert_ne in Hg' by done. rewrite (ho_jobs0 _ _ Hg').
      assert (filter (fun j => j = sid') (replicate (length ext) sid) = []) as ->; [|cbn; lia].
      clear -Hne. induction (length ext) as [|n IH]; [done|]. cbn [replicate].
      by rewrite filter_cons_False by congruence.
  - rewrite Hlen. apply Forall_app. split; [done|]. by apply Forall_replicate.
  - by rewrite Hlen.
Qed.

Definition g_write (data : list Z) (g : Ghost) : Ghost :=
  let s := puts (g_cap g) ([], g_cur g) data in
  mkGhost (g_cap g) (g_queue g ++ s.1) (g_full g ++ s.1) s.2 (g_open g).
Definition g_mark (g : Ghost) : Ghost :=
  mkGhost (g_cap g) (g_queue g) (g_full g) (set_mark (g_cur g)) (g_open g).
Definition g_close (intermediate : bool) (g : Ghost) : Ghost :=
  mkGhost (g_cap g) (g_queue g ++ [g_cur g]) (g_full g) (g_cur g) intermediate.

Lemma puts_shift cap q s data : puts cap (q ++ s.1, s.2) data
  = (q ++ (puts cap s data).1, (puts cap s data).2).
Proof.
  revert s. unfold puts. induction data as [|c data IH]; intros s; cbn; [done|].
  rewrite <- IH. f_equal. unfold put1. cbn. by destruct (decide _); cbn; rewrite <- ?app_assoc.
Qed.

Lemma puts_ok cap s data : cap_ok cap -> open_version cap s.2 -> bytes_ok data ->
  Forall (fun v => version_ok cap v /\ full cap v) s.1 ->
  open_version cap (puts cap s data).2
  /\ Forall (fun v => version_ok cap v /\ full cap v) (puts cap s data).1.
Proof.
  intros Hc. revert s. unfold puts. induction data as [|c data IH]; intros s Ho Hd Hf; cbn; [done|].
  apply list.Forall_cons in Hd as [Hb Hd]. apply IH; [by apply put1_open|done|].
  unfold put1. destruct (decide _); cbn; [|done]. apply Forall_app. split; [done|].
  apply list.Forall_singleton. split; [by apply add_byte_ok|done].
Qed.

Lemma stored_fulls cap X l : Forall (full cap) X -> Forall (full cap) l -> stored cap X l = X ++ l.
Proof.
  intros HX Hl. revert X HX. induction Hl as [|v l Hv _ IH]; intros X HX; cbn; [by rewrite app_nil_r|].
  rewrite store_full, IH by (done || (apply Forall_app; split; [done|by apply list.Forall_singleton])).
  by rewrite <- app_assoc.
Qed.

Lemma fulls_full cap l : Forall (fun v => version_ok cap v /\ full cap v) l -> Forall (full cap) l.
Proof. intros H. eapply list.Forall_impl; [exact H|]. by intros v [_ ?]. Qed.

(** One version more, after what was stored. *)
Lemma stored_one cap X F v : Forall (full cap) F ->
  X = F \/ (exists u, ~ full cap u /\ X = F ++ [u]) -> store cap X v = F ++ [v].
Proof. intros HF [->|(u & Hu & ->)]; [by apply store_full|by apply store_partial]. Qed.

Lemma extends_write data g : cap_ok (g_cap g) -> open_version (g_cap g) (g_cur g) -> bytes_ok data ->
  Forall (fun v => version_ok (g_cap g) v /\ full (g_cap g) v) (g_full g) ->
  extends g (puts (g_cap g) ([], g_cur g) data).1 (g_write data g).
Proof.
  intros Hc Ho Hd Hf. destruct (puts_ok (g_cap g) ([], g_cur g) data) as [_ Hext]; try done.
  pose proof (fulls_full _ _ Hf) as HF. pose proof (fulls_full _ _ Hext) as HE.
  split_and!; try done.
  - eapply list.Forall_impl; [exact Hext|]. by intros v [? _].
  - intros X HX. cbn. destruct (puts (g_cap g) ([], g_cur g) data).1 as [|v ext] eqn:E.
    + cbn. rewrite app_nil_r. done.
    + left. cbn [stored foldl]. rewrite (stored_one _ X (g_full g) v) by done.
      fold (stored (g_cap g)). apply list.Forall_cons in HE as [Hv HE].
      rewrite stored_fulls; [by rewrite <- app_assoc| |done].
      apply Forall_app. split; [done|by apply list.Forall_singleton].
  - cbn. by apply Forall_app.
Qed.

Lemma extends_same g cur : Forall (fun v => version_ok (g_cap g) v /\ full (g_cap g) v) (g_full g) ->
  extends g [] (mkGhost (g_cap g) (g_queue g) (g_full g) cur (g_open g)).
Proof. intros Hf. split_and!; try done; cbn. by rewrite app_nil_r. Qed.

Lemma extends_close b g : open_version (g_cap g) (g_cur g) ->
  Forall (fun v => version_ok (g_cap g) v /\ full (g_cap g) v) (g_full g) ->
  extends g [g_cur g] (g_close b g).
Proof.
  intros [Hv Ho] Hf. split_and!; try done; [by apply list.Forall_singleton|].
  intros X HX. right. exists (g_cur g). split; [done|]. cbn.
  apply stored_one; [by apply fulls_full|done].
Qed.

Section Operations.
Context (h : FH.FileHandler) (es : list Entry) (gs : list Ghost) (Hh : handler_ok h es gs).

Lemma ghost_stream sid g : gs !! sid = Some g -> exists s, FH.streams h !! sid = Some s
  /\ stream_ok es sid s g.
Proof.
  intros Hg. destruct Hh. pose proof (lookup_lt_Some _ _ _ Hg).
  destruct (lookup_lt_is_Some_2 (FH.streams h) sid) as (s & Hs); [lia|]. eauto.
Qed.

Lemma ghost_cur sid g : gs !! sid = Some g -> open_version (g_cap g) (g_cur g).
Proof.
  intros Hg. destruct (ghost_stream sid g Hg) as (s & _ & []).
  destruct s_writer0 as (w & _ & Hok). apply Hok.
Qed.

Lemma write_ok sid g data fuel : gs !! sid = Some g -> g_open g = true -> bytes_ok data ->
  (length data <= fuel)%nat -> Z.of_nat (length data) < 4294967296 ->
  exists h', FH.on_writer sid (FSW.write fuel data) h = (Val tt, h')
    /\ handler_ok h' es (<[sid:=g_write data g]> gs) /\ FH.file h' = FH.file h.
Proof.
  intros Hg Hop Hd Hf Hn. destruct (ghost_stream sid g Hg) as (s & Hs & []).
  eapply on_writer_ok; [done|done|apply extends_write; try done; by eapply ghost_cur|].
  intros s' w bn po pr _ Hw Hok. rewrite Hop in Hok.
  rewrite (write_put_chars _ _ s_cap0 fuel data _ _ _ _ _ _ w Hok) by done.
  destruct (put_chars_run _ _ s_cap0 data _ _ _ _ _ _ w Hok Hd) as (w' & E & Hok').
  exists w'. split; [exact E|]. pose proof (puts_shift (g_cap g) (g_queue g) ([], g_cur g) data) as Ep.
  cbn in Ep. rewrite app_nil_r in Ep. rewrite Ep in Hok'. cbn in Hok' |- *. rewrite Hop.
  rewrite length_app in Hok'.
  replace (length (g_queue g) + _ - length (g_queue g))%nat
    with (length (puts (g_cap g) ([], g_cur g) data).1) in Hok' by lia. done.
Qed.

Lemma mark_ok sid g : gs !! sid = Some g -> g_open g = true ->
  exists h', FH.on_writer sid FSW.markItemStart h = (Val true, h')
    /\ handler_ok h' es (<[sid:=g_mark g]> gs) /\ FH.file h' = FH.file h.
Proof.
  intros Hg Hop. destruct (ghost_stream sid g Hg) as (s & Hs & []).
  eapply on_writer_ok; [done|done|by apply extends_same|].
  intros s' w bn po pr _ Hw Hok. rewrite Hop in Hok.
  destruct (markItemStart_run _ _ _ _ _ _ _ _ _ Hok) as (w' & E & Hok').
  exists w'. split; [exact E|]. cbn. by rewrite Hop.
Qed.

Lemma close_ok sid g b : gs !! sid = Some g -> g_open g = true ->
  exists h', FH.on_writer sid (FSW.closeOff b) h = (Val tt, h')
    /\ handler_ok h' es (<[sid:=g_close b g]> gs) /\ FH.file h' = FH.file h.
Proof.
  intros Hg Hop. destruct (ghost_stream sid g Hg) as (s & Hs & []).
  eapply on_writer_ok; [done|done|apply extends_close; [by eapply ghost_cur|done]|].
  intros s' w bn po pr _ Hw Hok. rewrite Hop in Hok.
  destruct (closeOff_run _ _ s_cap0 b _ _ _ _ _ _ _ Hok) as (w' & E & Hok').
  by exists w'.
Qed.
End Operations.

(** ** New streams *)

Lemma make_writer_run cap sid : cap_ok cap ->
  exists w, FSW.make sid cap = Val w
    /\ writer_ok cap sid [] empty_version true 0 (-1) (-1) 0 w.
Proof.
  intros Hc. pose proof Hc as Hc'. unfold cap_ok, CB.control_block_size in Hc'.
  unfold FSW.make. rewrite (proj2 (Z.eqb_neq _ _)) by lia.
  set (s := MB.make cap). set (b := MB.make cap).
  pose proof (make_spare cap Hc) as Hs.
  exists (FSW.mk (BL.mk cap [] (Some (s, []))) (Some (MB.set_stream_id sid
    (MB.set_fill CB.control_block_size b))) sid 0 (-1) (-1) false 0).
  split.
  - unfold FSW.initBuffers. cbn [FSW.in_list]. mrun. cbn. rewrite !u32_id by (unfold is_u32; lia).
    done.
  - split; try done.
    + split; try done. eexists _, _. by split_and!.
    + eexists. split; [done|]. by apply fresh_holds.
    + by apply empty_open.
Qed.

Lemma jobs_of_none n jobs : Forall (fun j => (j < n)%nat) jobs -> jobs_of n jobs = O.
Proof.
  unfold jobs_of. induction 1 as [|j l Hj _ IH]; [done|]. by rewrite filter_cons_False by lia.
Qed.

Definition new_ghost (cap : Z) : Ghost := mkGhost cap [] [] empty_version true.

Lemma blocks_of_unknown sid off es : Forall (fun e => (e_sid e < sid)%nat) es -> blocks_of sid off es = [].
Proof.
  intros Hf. revert off. induction Hf as [|e es He _ IH]; intros off; cbn; [done|].
  rewrite decide_False by lia. apply IH.
Qed.

Lemma create_ok h es gs bufsize :
  handler_ok h es gs -> Z.of_nat (length gs) < 65536 ->
  cap_ok (if bufsize =? 0 then FH.blocksize h else bufsize) ->
  exists h', FH.createWrite bufsize h = (Val (length gs), h')
    /\ handler_ok h' es (gs ++ [new_ghost (if bufsize =? 0 then FH.blocksize h else bufsize)])
    /\ FH.file h' = FH.file h.
Proof.
  intros Hh Hn Hc. pose proof Hh as []. set (cap := if bufsize =? 0 then _ else _) in *.
  destruct (make_writer_run cap (Z.of_nat (length (FH.streams h))) Hc) as (w & E & Hok).
  unfold FH.createWrite. erewrite bind_val by done. rewrite bool_decide_eq_false_2 by done.
  fold cap. rewrite E. erewrite bind_val by done. rewrite <- ho_length0.
  eexists. split; [done|]. split; [|done].
  assert (length (gs ++ [new_ghost cap]) = S (length gs)) as Hlen by (rewrite length_app; cbn; lia).
  split; cbn; try done.
  - rewrite Hlen, length_app. cbn. lia.
  - intros sid s g Hs Hg. destruct (decide (sid = length gs)) as [->|Hne].
    + rewrite lookup_app_r, ho_length0, Nat.sub_diag in Hs by lia. injection Hs as <-.
      rewrite lookup_app_r, Nat.sub_diag in Hg by lia. injection Hg as <-.
      assert (blocks_of (length gs) 0 es = []) as Hb by by apply blocks_of_unknown.
      split; rewrite ?Hb; cbn; try done.
      * exists w. split; [done|]. rewrite ho_length0. exact Hok.
      * destruct Hok as [[] _ _ _ _ _ _ _]. done.
      * by left.
    + pose proof (lookup_lt_Some _ _ _ Hg) as Hlt. rewrite Hlen in Hlt.
      rewrite lookup_app_l in Hs by lia. rewrite lookup_app_l in Hg by lia. eauto.
  - rewrite Hlen. lia.
  - intros sid g Hg. destruct (decide (sid = length gs)) as [->|Hne].
    + rewrite lookup_app_r, Nat.sub_diag in Hg by lia. injection Hg as <-. cbn. by apply jobs_of_none.
    + pose proof (lookup_lt_Some _ _ _ Hg) as Hlt. rewrite Hlen in Hlt.
      rewrite lookup_app_l in Hg by lia. eauto.
  - rewrite Hlen. eapply list.Forall_impl; [exact ho_job_sids0|]. cbn. intros j ?. lia.
  - rewrite Hlen. eapply list.Forall_impl; [exact ho_known0|]. cbn. intros e ?. lia.
Qed.

(** ** [syncToFile] *)

Definition all_open (gs : list Ghost) : Prop := Forall (fun g => g_open g = true) gs.

Lemma close_writers_run n sid b h es gs :
  handler_ok h es gs -> (sid + n = length gs)%nat -> all_open (drop sid gs) ->
  exists h', FH.close_writers n sid b h = (Val tt, h')
    /\ handler_ok h' es (take sid gs ++ (g_close b <$> drop sid gs)) /\ FH.file h' = FH.file h.
Proof.
  revert sid h gs. induction n as [|n IH]; intros sid h gs Hh Hn Ho.
  - exists h. split; [done|]. rewrite drop_ge, take_ge by lia. cbn. by rewrite app_nil_r.
  - destruct (lookup_lt_is_Some_2 gs sid) as (g & Hg); [lia|].
    rewrite (drop_S gs g sid Hg) in Ho. apply list.Forall_cons in Ho as [Hop Ho].
    destruct (ghost_stream h es gs Hh sid g Hg) as (s & Hs & Hso).
    destruct (s_writer _ _ _ _ Hso) as (w & Hw & _).
    destruct (close_ok h es gs Hh sid g b Hg Hop) as (h1 & E1 & Hh1 & Hf1).
    destruct (IH (S sid) h1 _ Hh1) as (h2 & E2 & Hh2 & Hf2).
    + rewrite length_insert. lia.
    + by rewrite drop_insert_lt by lia.
    + exists h2. cbn [FH.close_writers]. unfold FH.stream_at.
      erewrite bind_val by (erewrite bind_val by done; by rewrite Hs).
      rewrite Hw. erewrite bind_val by exact E1. split; [exact E2|]. split; [|congruence].
      rewrite drop_insert_lt in Hh2 by lia. rewrite (drop_S gs g sid Hg). cbn.
      rewrite (take_S_r _ _ (g_close b g)), take_insert_ge in Hh2
        by (lia || (apply list_lookup_insert_eq; lia)).
      by rewrite <- app_assoc in Hh2.
Qed.

Definition g_synced (b : bool) (g : Ghost) : Ghost :=
  mkGhost (g_cap g) [] (g_full g) (g_cur g) b.

(** After a sync the file holds all that the streams were given. *)
Lemma sync_ok h es gs b : handler_ok h es gs -> all_open gs ->
  exists h' es', FH.syncToFile b h = (Val tt, h')
    /\ handler_ok h' es' (g_synced b <$> gs) /\ total es <= total es'
    /\ forall sid g, gs !! sid = Some g ->
         versions (blocks_of sid 0 es') = g_full g ++ [g_cur g].
Proof.
  intros Hh Ho. unfold FH.syncToFile.
  destruct (close_writers_run (length gs) 0 b h es gs Hh eq_refl Ho) as (h1 & E1 & Hh1 & _).
  rewrite take_0, drop_0, app_nil_l in Hh1.
  destruct (processWrites_run h1 es _ Hh1) as (n & h2 & es' & E2 & Hh2 & Hle & Hst).
  exists h2, es'. erewrite bind_val by done. rewrite <- (ho_length _ _ _ Hh).
  erewrite bind_val by exact E1. erewrite bind_val by exact E2.
  split; [done|].
  assert (drained <$> (g_close b <$> gs) = g_synced b <$> gs) as Eg.
  { apply list_eq. intros i. rewrite !list_lookup_fmap. by destruct (gs !! i). }
  rewrite Eg in Hh2. split; [exact Hh2|]. split; [done|].
  intros sid g Hg. rewrite (Hst sid (g_close b g)) by (by rewrite list_lookup_fmap, Hg).
  destruct (ghost_stream h es gs Hh sid g Hg) as (s & Hs & []).
  cbn [g_cap g_queue g_close]. unfold stored. rewrite foldl_app. cbn [foldl].
  apply stored_one; [by apply fulls_full|exact s_stored0].
Qed.
End Handler.
