(* ===== verification/DdffRead.v ===== *)
(** Recording files, the reading side: a file of well linked blocks is scanned
    by [checkIndices], and a reader of one of its streams gets exactly the
    data of its blocks, in order. *)

From S2P Require Import Prelude.
From S2P Require Import Bytes.
From S2P Require Import Amorph.
From S2P Require Import DdffFile.
From S2P Require Import DdffStream.
From S2P Require Import DdffBlock.
From S2P Require Import DdffWrite.
From S2P Require Import DdffHandler.
#[local] Open Scope Z_scope.

(** * Well linked files *)

Record file_ok (es : list Entry) : Prop := {
  f_entries : Forall entry_wf es;
  f_linked : forall sid, exists cap, linked cap 0 (blocks_of sid 0 es);
  f_total : total es < CB.int64_max
}.

Lemma linked_next cap n D o e : linked cap n D -> (o, e) ∈ D ->
  e_cap e = cap /\ (e_next e = CB.int64_max \/ exists e', (e_next e, e') ∈ D).
Proof.
  revert n. induction D as [|[o1 e1] D IH]; intros n; [by intros _ ?%elem_of_nil|].
  cbn. intros (Hc & _ & Hl & HD) [Heq|Hin]%elem_of_cons.
  - injection Heq as <- <-. split; [done|]. destruct D as [|[o2 e2] D]; [by left|]. right.
    destruct Hl as [-> _]. exists e2. right. left.
  - destruct (IH _ HD Hin) as [? [?|(e' & ?)]]; (split; [done|]); [by left|]. right. exists e'. by right.
Qed.

Lemma file_entry_ok es a e b : file_ok es -> es = a ++ e :: b -> entry_ok e.
Proof.
  intros [Hw Hl Ht] ->. destruct (Hl (e_sid e)) as (cap & Hlk).
  assert ((total a, e) ∈ blocks_of (e_sid e) 0 (a ++ e :: b)) as Hin.
  { rewrite blocks_of_app, elem_of_app. right. cbn. rewrite decide_True by done. left. }
  pose proof Hw as Hw'. apply Forall_app in Hw' as [_ Hw']. apply list.Forall_cons in Hw' as [[] _].
  destruct (linked_next _ _ _ _ _ Hlk Hin) as [_ Hn].
  pose proof (total_pos _ Hw) as Hp. unfold CB.int64_max in *.
  split; try done. destruct Hn as [Hn|(e' & He')]; [unfold CB.int64_max in *; lia|].
  destruct (blocks_of_range _ _ _ _ _ Hw He') as (_ & He2 & ? & ?).
  rewrite list.Forall_forall in Hw. destruct (Hw _ He2) as [Hc _ _ _].
  unfold cap_ok, CB.control_block_size, CB.int64_max in *. lia.
Qed.

Section Read.
Context {BC : BuildConfig} {NM : NewMemory} {CR : Crc}.

(** ** Reading in the file *)

Lemma drop_file a b : Forall entry_wf a -> drop (Z.to_nat (total a)) (file_bytes (a ++ b)) = file_bytes b.
Proof.
  intros Ha. rewrite file_bytes_app. pose proof (file_bytes_length a Ha).
  apply drop_app_length'. lia.
Qed.

Lemma file_bytes_cons e b : file_bytes (e :: b) = render e ++ file_bytes b.
Proof. done. Qed.

Lemma read_block a e b : Forall entry_wf (a ++ e :: b) ->
  FS.read (Z.to_nat (e_cap e)) (FS.mk (file_bytes (a ++ e :: b)) (total a) true)
  = (Val (render e), FS.mk (file_bytes (a ++ e :: b)) (total a + e_cap e) true).
Proof.
  intros [Ha [He _]%list.Forall_cons]%Forall_app. unfold FS.read. cbn [FS.good FS.pos FS.contents].
  rewrite drop_file, file_bytes_cons by done. pose proof (entry_render_length e He) as Hl.
  rewrite take_app_length' by lia. rewrite bool_decide_eq_true_2 by lia. do 2 f_equal. lia.
Qed.

Lemma read_header a e b : Forall entry_wf (a ++ e :: b) ->
  FS.read 28 (FS.mk (file_bytes (a ++ e :: b)) (total a) true)
  = (Val (take 28 (render e)), FS.mk (file_bytes (a ++ e :: b)) (total a + 28) true).
Proof.
  intros [Ha [He _]%list.Forall_cons]%Forall_app. unfold FS.read. cbn [FS.good FS.pos FS.contents].
  rewrite drop_file, file_bytes_cons by done. pose proof (entry_render_length e He) as Hl.
  destruct He as [Hc _ _ _]. unfold cap_ok, CB.control_block_size in Hc.
  rewrite take_app_le by lia. assert (length (take 28 (render e)) = 28%nat) as Hlen
    by (rewrite length_take; lia).
  rewrite Hlen. by rewrite bool_decide_eq_true_2.
Qed.

Lemma read_at_end es : Forall entry_wf es ->
  exists f, FS.read 28 (FS.mk (file_bytes es) (total es) true) = (Val [], f)
    /\ FS.contents f = file_bytes es /\ FS.good f = false.
Proof.
  intros Hw. unfold FS.read. cbn [FS.good FS.pos FS.contents].
  pose proof (drop_file es [] Hw) as Hd. rewrite app_nil_r in Hd. rewrite Hd. cbn.
  eexists. split; [done|]. done.
Qed.

Lemma header_take e : entry_ok e -> CB.of_header (take 28 (render e)) = Val (header_of e).
Proof.
  intros He. apply (of_header_render e _ (drop 28 (render e))); [done|apply take_drop|].
  destruct He as [Hc Hv _ _ _]. pose proof (render_length e Hc Hv).
  unfold cap_ok, CB.control_block_size in Hc. rewrite length_take. lia.
Qed.

(** ** Scanning the file *)

Definition first_size (D : list (Z * Entry)) : Z :=
  match D with (_, e) :: _ => e_cap e | [] => 0 end.

(** What is known of a stream after the blocks [a]. *)
Record scanned (a : list Entry) (sid : nat) (s : FH.StreamSetInfo) : Prop := {
  sc_writer : FH.writer s = None;
  sc_reader : FH.reader s = None;
  sc_first : FH.firstblock_location s = disk_first (blocks_of sid 0 a);
  sc_size : FH.block_size s = first_size (blocks_of sid 0 a)
}.
Definition all_scanned (a : list Entry) (l : list FH.StreamSetInfo) : Prop :=
  (forall sid s, l !! sid = Some s -> scanned a sid s)
  /\ Forall (fun e => (e_sid e < length l)%nat) a.

Lemma stream_at_run sid h s : FH.streams h !! sid = Some s ->
  FH.stream_at sid h = (Val s, h).
Proof. intros Hs. unfold FH.stream_at. erewrite bind_val by done. by rewrite Hs. Qed.

Lemma put_stream_run sid s h : FH.put_stream sid s h
  = (Val tt, FH.set_streams (<[sid:=s]> (FH.streams h)) h).
Proof. done. Qed.

Lemma insert_twice sid (s s' : FH.StreamSetInfo) h :
  FH.set_streams (<[sid:=s']> (FH.streams (FH.set_streams (<[sid:=s]> (FH.streams h)) h)))
    (FH.set_streams (<[sid:=s]> (FH.streams h)) h)
  = FH.set_streams (<[sid:=s']> (FH.streams h)) h.
Proof. unfold FH.set_streams. cbn. by rewrite list_insert_insert_eq. Qed.

Lemma insert_lookup sid (s : FH.StreamSetInfo) h : (sid < length (FH.streams h))%nat ->
  FH.streams (FH.set_streams (<[sid:=s]> (FH.streams h)) h) !! sid = Some s.
Proof. intros. cbn. by apply list_lookup_insert_eq. Qed.

(** The first block of a stream. *)
Lemma checkFirst_run sid off h s e :
  FH.streams h !! sid = Some s -> FH.writer s = None -> FH.reader s = None ->
  FH.block_size s = 0 -> e_num e = 0 ->
  FH.checkFirst sid off (header_of e) h
  = (Val tt, FH.set_streams (<[sid:=FH.set_block_size (e_cap e) (FH.set_first off s)]>
       (FH.streams h)) h).
Proof.
  intros Hs Hw Hr Hb Hn. pose proof (lookup_lt_Some _ _ _ Hs) as Hlt. unfold FH.checkFirst.
  erewrite bind_val by by apply stream_at_run.
  cbn [CB.block_num header_of]. rewrite Hn. cbn [Z.eqb negb].
  erewrite bind_val by apply put_stream_run.
  erewrite bind_val by by apply stream_at_run, insert_lookup.
  cbn [FH.block_size FH.set_first]. rewrite Hb. cbn [Z.eqb CB.block_size header_of].
  erewrite bind_val by (rewrite put_stream_run, insert_twice; done).
  erewrite bind_val by by apply stream_at_run, insert_lookup.
  cbn [FH.writer FH.reader FH.set_block_size FH.set_first]. rewrite Hw, Hr. done.
Qed.

Lemma checkBlock_run h s a e :
  FH.streams h !! e_sid e = Some s -> scanned a (e_sid e) s -> Forall entry_wf a ->
  (blocks_of (e_sid e) 0 a = [] -> e_num e = 0) ->
  exists s', FH.checkBlock (e_sid e) (total a) (header_of e) h
    = (Val tt, FH.set_streams (<[e_sid e:=s']> (FH.streams h)) h)
    /\ scanned (a ++ [e]) (e_sid e) s'.
Proof.
  intros Hs [Hw Hr Hf Hb] Ha Hn. pose proof (lookup_lt_Some _ _ _ Hs) as Hlt.
  pose proof (total_pos a Ha) as Hpos.
  assert (exists s1, (s ← FH.stream_at (e_sid e);
      if FH.firstblock_location s =? -1 then FH.checkFirst (e_sid e) (total a) (header_of e)
      else mret tt) h = (Val tt, FH.set_streams (<[e_sid e:=s1]> (FH.streams h)) h)
    /\ scanned (a ++ [e]) (e_sid e) s1) as (s1 & E1 & H1).
  { erewrite bind_val by by apply stream_at_run. rewrite Hf.
    destruct (decide (blocks_of (e_sid e) 0 a = [])) as [Hnil|Hnil].
    - rewrite Hnil in Hb |- *. change (disk_first [] =? -1) with true. cbv beta iota.
      exists (FH.set_block_size (e_cap e) (FH.set_first (total a) s)). split.
      + rewrite (checkFirst_run _ _ h s e) by auto. done.
      + split; try done; rewrite blocks_of_app, Hnil, blocks_of_one, decide_True by done; done.
    - pose proof (disk_first_pos _ _ Ha Hnil). rewrite (proj2 (Z.eqb_neq _ _)) by lia.
      exists s. split; [|split; try done; rewrite blocks_of_app, ?Hf, ?Hb;
        by destruct (blocks_of (e_sid e) 0 a) as [|[]]].
      unfold FH.set_streams. rewrite list_insert_id by done. by destruct h. }
  unfold FH.checkBlock. unfold mbind, M_bind in E1 |- *.
  destruct (FH.stream_at (e_sid e) h) as [[s0|?|?] h0]; try done.
  rewrite E1. rewrite (stream_at_run (e_sid e) _ s1) by by apply insert_lookup.
  destruct (_ && _).
  - destruct H1 as [Hw1 Hr1 Hf1 Hb1]. rewrite Hw1. unfold mret, M_ret.
    rewrite (stream_at_run (e_sid e) _ s1) by by apply insert_lookup.
    exists (FH.set_last (total a) s1). rewrite put_stream_run, insert_twice. by split.
  - by exists s1.
Qed.

Lemma grow_scanned a n l : all_scanned a l -> all_scanned a (FH.grow n l).
Proof.
  intros [Hl Hf]. unfold FH.grow. split.
  - intros sid s [Hs|[Hle Hs]]%lookup_app_Some; [by apply Hl|].
    apply lookup_replicate in Hs as [-> _].
    assert (blocks_of sid 0 a = []) as Hn.
    { apply blocks_of_unknown. eapply list.Forall_impl; [exact Hf|]. cbn. intros. lia. }
    split; try done; by rewrite Hn.
  - eapply list.Forall_impl; [exact Hf|]. cbn. intros. rewrite length_app. lia.
Qed.

Lemma scanned_other a e sid s : sid <> e_sid e -> scanned a sid s -> scanned (a ++ [e]) sid s.
Proof.
  intros Hne [? ? Hf Hb]. split; try done; rewrite blocks_of_app, blocks_of_one, decide_False, app_nil_r
    by congruence; done.
Qed.

Lemma next_scanned a e l s' : all_scanned a l -> (e_sid e < length l)%nat ->
  scanned (a ++ [e]) (e_sid e) s' -> all_scanned (a ++ [e]) (<[e_sid e:=s']> l).
Proof.
  intros [Hl Hf] Hlt Hs'. split.
  - intros sid s Hs. destruct (decide (sid = e_sid e)) as [->|Hne].
    + rewrite list_lookup_insert_eq in Hs by done. by injection Hs as <-.
    + rewrite list_lookup_insert_ne in Hs by done. apply scanned_other; eauto.
  - rewrite length_insert. apply Forall_app. split; [done|]. by apply list.Forall_singleton.
Qed.

Lemma file_first_num es a e b : file_ok es -> es = a ++ e :: b ->
  blocks_of (e_sid e) 0 a = [] -> e_num e = 0.
Proof.
  intros [_ Hl _] -> Hn. destruct (Hl (e_sid e)) as (cap & Hlk).
  rewrite blocks_of_app, Hn in Hlk. cbn in Hlk. rewrite decide_True in Hlk by done.
  cbn in Hlk. by destruct Hlk as (_ & -> & _).
Qed.

(** The bytes of a header read at the start of a block, or at the end. *)
Definition at_header (es a b : list Entry) (header : list Z) (f : FS.fstream) : Prop :=
  FS.contents f = file_bytes es
  /\ match b with
     | [] => FS.good f = false
     | e :: _ => f = FS.mk (file_bytes es) (total a + 28) true /\ header = take 28 (render e)
     end.

Lemma read_next_header es a b p : Forall entry_wf es -> es = a ++ b ->
  exists header f, FS.read 28 (snd (FS.seekg (total a) (FS.mk (file_bytes es) p true))) = (Val header, f)
    /\ at_header es a b header f.
Proof.
  intros Hw ->. pose proof Hw as [Ha _]%Forall_app. pose proof (total_pos a Ha).
  rewrite seekg_run by done. cbn [snd]. destruct b as [|e b].
  - rewrite app_nil_r in *. destruct (read_at_end a Hw) as (f & E & Hf & Hg).
    by exists [], f.
  - rewrite read_header by done. eexists _, _. split; [done|]. done.
Qed.

Lemma check_blocks_run es b : forall fuel a h header, file_ok es -> es = a ++ b ->
  all_scanned a (FH.streams h) -> at_header es a b header (FH.file h) -> (length b <= fuel)%nat ->
  exists l f, FH.check_blocks fuel (total a) header h = (Val tt, FH.set_file f (FH.set_streams l h))
    /\ all_scanned es l /\ FS.contents f = file_bytes es.
Proof.
  induction b as [|e b IH]; intros fuel a h header Hes Heq Hsc [Hc Hh] Hfuel.
  - exists (FH.streams h), (FH.file h). split_and!; [|by rewrite Heq, app_nil_r|done].
    destruct fuel; cbn [FH.check_blocks]; erewrite bind_val by done; rewrite Hh; by destruct h.
  - destruct Hh as [Hf ->]. destruct fuel as [|fuel]; [cbn in Hfuel; lia|].
    pose proof (file_entry_ok _ _ _ _ Hes Heq) as He. pose proof (f_entries _ Hes) as Hw.
    assert (Forall entry_wf a) as Ha by (rewrite Heq in Hw; by apply Forall_app in Hw as [? _]).
    cbn [FH.check_blocks]. erewrite bind_val by done. rewrite Hf. cbn [FS.good negb].
    rewrite header_take by done. cbn [CB.stream_id CB.block_size header_of]. rewrite Nat2Z.id.
    erewrite bind_val by done. set (h1 := FH.set_streams _ h).
    pose proof (grow_scanned a (S (e_sid e)) _ Hsc) as Hsc1.
    assert (e_sid e < length (FH.streams h1))%nat as Hlt.
    { cbn. unfold FH.grow. rewrite length_app, length_replicate. lia. }
    destruct (lookup_lt_is_Some_2 _ _ Hlt) as (s & Hs).
    destruct (checkBlock_run h1 s a e Hs) as (s' & E & Hs'); [by apply Hsc1|done| |].
    { by apply (file_first_num es a e b). }
    erewrite bind_val by exact E. set (h2 := FH.set_streams _ h1).
    assert (total a + e_cap e = total (a ++ [e])) as Et by (rewrite total_app; cbn; lia).
    rewrite Et. destruct (read_next_header es (a ++ [e]) b (total a + 28) Hw) as (header & f & Er & Hat).
    { by rewrite <- app_assoc. }
    assert (FH.file h2 = FS.mk (file_bytes es) (total a + 28) true) as Hf2 by exact Hf.
    erewrite bind_val by (unfold FH.in_file, zoom; rewrite Hf2;
      rewrite surjective_pairing at 1; done).
    erewrite bind_val by (eapply in_file_run; exact Er).
    destruct (IH fuel (a ++ [e]) (FH.set_file f (FH.set_file (snd (FS.seekg (total (a ++ [e]))
      (FS.mk (file_bytes es) (total a + 28) true))) h2)) header Hes) as (l & f' & E' & Hl & Hf').
    + by rewrite <- app_assoc.
    + by apply next_scanned.
    + done.
    + cbn in Hfuel. lia.
    + exists l, f'. split; [|done]. exact E'.
Qed.

Lemma checkIndices_run es fuel h : file_ok es -> FH.streams h = [] ->
  FH.file h = FS.make (file_bytes es) -> (length es <= fuel)%nat ->
  exists l, FH.checkIndices fuel 0 h
    = (Val tt, FH.set_file (FS.make (file_bytes es)) (FH.set_streams l h))
    /\ all_scanned es l.
Proof.
  intros Hes Hs Hf Hfuel. pose proof (f_entries _ Hes) as Hw. unfold FH.checkIndices.
  destruct (read_next_header es [] es 0 Hw eq_refl) as (header & f & Er & Hat).
  erewrite bind_val by (unfold FH.in_file, zoom; rewrite Hf; rewrite surjective_pairing at 1; done).
  erewrite bind_val by (eapply in_file_run; exact Er).
  destruct (check_blocks_run es es fuel [] (FH.set_file f (FH.set_file (snd (FS.seekg 0
      (FS.make (file_bytes es)))) h)) header) as (l & f' & E' & Hl & Hf'); try done.
  { split; [|by cbn; rewrite Hs]. intros sid s Hx. cbn in Hx. by rewrite Hs in Hx. }
  exists l. split; [|done]. erewrite bind_val by exact E'.
  erewrite bind_val by done. unfold FH.in_file, zoom. cbn.
  unfold FS.seekg, modify, FS.set_good. cbn. by rewrite Hf'.
Qed.

(** [open] for reading. *)
Lemma open_file_run es fuel n : file_ok es -> (length es <= fuel)%nat ->
  exists l, FH.open fuel (Some (file_bytes es)) FH.Read n FH.make
    = (Val tt, FH.mk n l [] [] 0 (FS.make (file_bytes es)) FH.Read true)
    /\ all_scanned es l.
Proof.
  intros Hes Hfuel. unfold FH.open. erewrite bind_val by done. cbn [FH.blocksize FH.make Z.eqb negb].
  erewrite bind_val by done. rewrite bool_decide_eq_true_2 by by eexists.
  rewrite bool_decide_eq_false_2 by done. erewrite bind_val by done. cbn [andb negb].
  destruct (checkIndices_run es fuel (FH.set_file (FS.make (file_bytes es))
    (FH.set_opened FH.Read true n FH.make)) Hes eq_refl eq_refl Hfuel) as (l & E & Hl).
  exists l. by split.
Qed.
End Read.
