(* ===== verification/DdffLoad.v ===== *)
(** Recording files: a reader of a stream gets the data of its blocks, in
    order, from the first marked place on. *)

From S2P Require Import Prelude.
From S2P Require Import Bytes.
From S2P Require Import Amorph.
From S2P Require Import DdffFile.
From S2P Require Import DdffStream.
From S2P Require Import DdffBlock.
From S2P Require Import DdffWrite.
From S2P Require Import DdffHandler.
From S2P Require Import DdffRead.
#[local] Open Scope Z_scope.

(** * What a reader keeps of the blocks *)

(** The data of all but the first block are read from their start. *)
Definition as_loaded (first : bool) (v : Version) : Version :=
  if first then v else mkVersion (payload v) CB.control_block_size.
(** The blocks before the first mark are left out. *)
Fixpoint kept (first : bool) (X : list Version) : list Version :=
  match X with
  | [] => []
  | v :: X => if first && (mark v =? 0) then kept true X
              else as_loaded first v :: kept false X
  end.

(** The places of the blocks to ask for after a block is appended, and those
    that have to wait. *)
Definition ask (nc : Z) (Q : list Version) (nexts : list Z) : list Z * list Z :=
  if Z.of_nat (length Q) <? nc then (nexts, []) else ([], nexts).

Definition next_places (P : list (Z * Entry)) : list Z :=
  match P with [] => [] | (o, _) :: _ => [o] end.

Record reader_ok (cap nc off0 : Z) (first : bool) (Q : list Version) (idx : list Z)
    (ld : list (Z * Z)) (r : FSR.FileStreamRead) : Prop := {
  r_list : list_ok cap Q (FSR.buffers r);
  r_sliced : FSR.slice_indexed r = false;
  r_indices : FSR.indices r = idx;
  r_cache : FSR.num_cache r = nc;
  r_cycle : FSR.read_cycle r = 0;
  r_start : FSR.start_offset r = off0;
  r_end : FSR.end_offset r = CB.int64_max;
  r_first : FSR.first_buffer_load r = first;
  r_loads : FSR.loads r = ld
}.

Section Load.
Context {BC : BuildConfig} {NM : NewMemory} {CR : Crc}.

(** ** The lists of buffers *)

Lemma return_run cap q l b : list_ok cap q l -> spare_ok cap b ->
  exists l', BL.return_list_elt b l = (Val tt, l') /\ list_ok cap q l'.
Proof.
  intros [] Hb. eexists. split; [done|]. split; try done. cbn. by apply Forall_cons.
Qed.

Lemma list_size cap q l : list_ok cap q l -> BL.size l = Z.of_nat (length q).
Proof.
  intros [_ _ (s & bs & Hc & _ & Hf)]. unfold BL.size. rewrite Hc.
  by rewrite (list.Forall2_length _ _ _ Hf).
Qed.

Lemma notEmpty_run cap q l : list_ok cap q l ->
  BL.notEmpty l = (Val (negb (bool_decide (q = []))), l).
Proof.
  intros [_ _ (s & bs & Hc & _ & Hf)]. unfold BL.notEmpty. erewrite bind_val by done. rewrite Hc.
  destruct Hf; done.
Qed.

(** A method of the list of the reader. *)
Lemma in_reader_list {A} cap nc off0 first Q idx ld r (m : M BL.BufferList A) a l' Q' :
  reader_ok cap nc off0 first Q idx ld r -> m (FSR.buffers r) = (Val a, l') -> list_ok cap Q' l' ->
  FSR.in_list m r = (Val a, FSR.set_buffers l' r)
  /\ reader_ok cap nc off0 first Q' idx ld (FSR.set_buffers l' r)
  /\ FSR.end_ptr (FSR.set_buffers l' r) = FSR.end_ptr r.
Proof. intros [] Hm Hl. unfold FSR.in_list, zoom. rewrite Hm. by split_and!. Qed.

(** ** Appending a block *)

Lemma pushRequests_run cap nc off0 first Q idx r :
  reader_ok cap nc off0 first Q idx [] r -> (length idx <= 1)%nat ->
  exists r', FSR.pushRequests r = (Val tt, r')
    /\ reader_ok cap nc off0 first Q (ask nc Q idx).2 ((.,0) <$> (ask nc Q idx).1) r'
    /\ FSR.end_ptr r' = FSR.end_ptr r.
Proof.
  intros Hr Hl. pose proof Hr as []. unfold FSR.pushRequests. erewrite bind_val by done.
  rewrite r_indices0, (list_size _ _ _ r_list0), r_cache0. unfold ask.
  destruct idx as [|o [|]]; [|destruct (_ <? _)|cbn in Hl; lia].
  - exists r. split; [done|]. by destruct (_ <? _).
  - eexists. erewrite bind_val by done. split; [done|]. split; [|done]. split; try done.
    cbn. by rewrite r_loads0, r_cycle0.
  - by exists r.
Qed.

Lemma append_fit_run cap nc off0 first Q idx r b v o :
  reader_ok cap nc off0 first Q idx [] r -> clean cap v b -> (length idx <= 1)%nat ->
  o + v_fill v <= CB.int64_max ->
  exists r', FSR.append_fit b o r = (Val tt, r')
    /\ reader_ok cap nc off0 false (Q ++ [v]) (ask nc (Q ++ [v]) idx).2
         ((.,0) <$> (ask nc (Q ++ [v]) idx).1) r'
    /\ FSR.end_ptr r' = FSR.end_ptr r.
Proof.
  intros Hr Hb Hl Ho. pose proof Hr as []. unfold FSR.append_fit. erewrite bind_val by done.
  rewrite r_end0, (h_fill _ _ _ (proj1 Hb)), (proj2 (Z.ltb_ge _ _)) by done.
  destruct (write_back_run _ _ _ _ _ r_list0 Hb) as (l' & E & Hl').
  destruct (in_reader_list _ _ _ _ _ _ _ _ _ _ _ _ Hr E Hl') as (E1 & Hr1 & He1).
  erewrite bind_val by exact E1. erewrite bind_val by done.
  destruct (pushRequests_run cap nc off0 false (Q ++ [v]) idx
    (FSR.set_first false (FSR.set_buffers l' r))) as (r' & E2 & Hr2 & He2); [|done|].
  { by destruct Hr1. }
  exists r'. by split_and!.
Qed.

Definition next_of (P : list (Z * Entry)) : Z :=
  match P with [] => CB.int64_max | (o, _) :: _ => o end.

(** The queue of the reader and its first flag after a block. *)
Definition append_queue (first : bool) (Q : list Version) (v : Version) : list Version :=
  if first && (mark v =? 0) then Q else Q ++ [as_loaded first v].
Definition still_first (first : bool) (v : Version) : bool := first && (mark v =? 0).

Lemma remark_clean cap v b : clean cap v b ->
  clean cap (mkVersion (payload v) 28) (MB.set_object_offset 28 b).
Proof. intros [[] ?]. split; [|done]. by split. Qed.

Lemma appendBuffer_run cap nc off0 first Q r b v o P :
  reader_ok cap nc off0 first Q [] [] r -> clean cap v b -> version_ok cap v ->
  off0 <= o -> o + v_fill v <= CB.int64_max ->
  (forall o' e', P = (o', e') :: tail P -> o' < CB.int64_max) ->
  let Q' := append_queue first Q v in
  exists r', FSR.appendBuffer b o (next_of P) 0 r = (Val tt, r')
    /\ reader_ok cap nc off0 (still_first first v) Q' (ask nc Q' (next_places P)).2
         ((.,0) <$> (ask nc Q' (next_places P)).1) r'
    /\ FSR.end_ptr r' = (if first && negb (mark v =? 0) then v_fill v else FSR.end_ptr r).
Proof.
  intros Hr Hb Hv Ho Hof HP. pose proof Hr as []. pose proof Hb as [[] _].
  unfold FSR.appendBuffer, append_queue, still_first. erewrite bind_val by done. rewrite r_cycle0. cbn [Z.ltb Z.compare].
  set (r1 := FSR.set_indices (next_places P) r).
  assert (reader_ok cap nc off0 first Q (next_places P) [] r1) as Hr1 by by split.
  assert (length (next_places P) <= 1)%nat as Hlen by (destruct P as [|[]]; cbn; lia).
  erewrite (bind_val _ _ r tt r1).
  2:{ subst r1. rewrite r_end0, r_indices0. destruct P as [|[o' e'] P]; cbn [next_of next_places].
      - rewrite Z.ltb_irrefl. unfold when, mret, M_ret. f_equal. destruct r. cbn in *. by subst.
      - rewrite (proj2 (Z.ltb_lt _ _)) by by eapply HP. done. }
  rewrite r_first0. destruct first; cbn [andb as_loaded].
  - rewrite r_start0, (proj2 (Z.ltb_ge _ _)), h_mark by done.
    pose proof (v_mark _ _ Hv). destruct (mark v =? 0) eqn:Em; cbn [orb negb].
    + destruct (return_run _ _ _ _ (r_list _ _ _ _ _ _ _ _ Hr1) (holds_spare _ _ _ (proj1 Hb)))
        as (l' & E & Hl').
      destruct (in_reader_list _ _ _ _ _ _ _ _ _ _ _ _ Hr1 E Hl') as (E1 & Hr2 & He2).
      erewrite bind_val by exact E1.
      destruct (pushRequests_run _ _ _ _ _ _ _ Hr2 Hlen) as (r' & E2 & Hr3 & He3).
      exists r'. split_and!; [done|done|by rewrite He3].
    + rewrite (proj2 (Z.ltb_ge _ _)) by lia. erewrite bind_val by done. rewrite h_fill.
      destruct (append_fit_run cap nc off0 true Q (next_places P) (FSR.set_end_ptr (v_fill v) r1) b v o)
        as (r' & E & Hr2 & He2); [by destruct Hr1|done..|].
      exists r'. by split_and!.
  - destruct (append_fit_run cap nc off0 false Q (next_places P) r1
      (MB.set_object_offset CB.control_block_size b) (as_loaded false v) o)
      as (r' & E & Hr2 & He2); [done|by apply remark_clean|done|done|].
    exists r'. by split_and!.
Qed.

(** ** The reader in the handler *)

Record holding (es : list Entry) (sid : nat) (r : FSR.FileStreamRead) (jobs : list (nat * (Z * Z)))
    (h : FH.FileHandler) : Prop := {
  hd_stream : exists s, FH.streams h !! sid = Some s /\ FH.reader s = Some r;
  hd_jobs : FH.read_jobs h = jobs;
  hd_contents : FS.contents (FH.file h) = file_bytes es;
  hd_good : FS.good (FH.file h) = true
}.

Lemma on_reader_run {A} es sid r jobs h (m : M FSR.FileStreamRead A) a r' :
  holding es sid r jobs h -> m r = (a, r') ->
  exists h', FH.on_reader sid m h = (a, h')
    /\ holding es sid (FSR.set_loads [] r') (jobs ++ map (pair sid) (FSR.loads r')) h'.
Proof.
  intros [(s & Hs & Hr) Hj Hc Hg] Hm. unfold FH.on_reader. rewrite Hs, Hr, Hm.
  eexists. split; [done|]. split; cbn; [|by rewrite Hj|done|done].
  eexists. rewrite list_lookup_insert_eq by by eapply lookup_lt_Some. split; [done|]. done.
Qed.

Lemma no_loads r : FSR.loads r = [] -> FSR.set_loads [] r = r.
Proof. destruct r. cbn. by intros ->. Qed.

(** A method that asks for no block. *)
Lemma on_reader_quiet {A} es sid r jobs h (m : M FSR.FileStreamRead A) a r' :
  holding es sid r jobs h -> m r = (a, r') -> FSR.loads r' = [] ->
  exists h', FH.on_reader sid m h = (a, h') /\ holding es sid r' jobs h'.
Proof.
  intros Hh Hm Hl. destruct (on_reader_run _ _ _ _ _ _ _ _ Hh Hm) as (h' & E & Hh').
  exists h'. split; [done|]. rewrite no_loads, Hl in Hh' by done. by rewrite app_nil_r in Hh'.
Qed.

Lemma in_file_holding {A} es sid r jobs h (m : M FS.fstream A) a f :
  holding es sid r jobs h -> m (FH.file h) = (a, f) -> FS.contents f = file_bytes es ->
  FS.good f = true ->
  FH.in_file m h = (a, FH.set_file f h) /\ holding es sid r jobs (FH.set_file f h).
Proof.
  intros [Hs Hj Hc Hg] Hm Hfc Hfg. split; [by apply in_file_run|]. by split.
Qed.

Lemma load_write e (l : list Z) : entry_ok e -> Z.of_nat (length l) = e_cap e ->
  write_at 0 (render e) l = Some (render e).
Proof.
  intros [Hc Hv _ _ _] Hl. pose proof (render_length e Hc Hv). rewrite write_at_some by lia.
  cbn [Z.to_nat take Nat.add app]. rewrite drop_ge by lia. by rewrite app_nil_r.
Qed.

Lemma loaded_clean e b : entry_ok e -> spare_ok (e_cap e) b ->
  clean (e_cap e) (e_version e) (loaded e (MB.set_buffer (render e) b)).
Proof.
  intros [Hc Hv _ _ _] (Hb & Hl & Hbs). pose proof (render_length e Hc Hv) as Hr.
  assert (drop 28 (render e) = body (e_cap e) (e_version e)) as Hd.
  { unfold render, checked. rewrite !app_assoc, drop_app_length'; [done|].
    by rewrite !length_app, !be_bytes_length, header_tail_length. }
  change (drop 28 (render e)) with (drop 28 (MB.buffer (loaded e (MB.set_buffer (render e) b)))) in Hd.
  split; [|done]. split; [done..|by apply render_ok|].
  rewrite Hd. unfold body. by apply take_app_length.
Qed.

(** One turn of the loop of [runLoads]. *)
Lemma run_load_run es sid a e b cap nc off0 first Q r h P :
  file_ok es -> es = a ++ e :: b -> e_sid e = sid -> e_cap e = cap ->
  holding es sid r [] h -> reader_ok cap nc off0 first Q [] [] r ->
  off0 <= total a -> e_next e = next_of P ->
  (forall o' e', P = (o', e') :: tail P -> o' < CB.int64_max) ->
  let Q' := append_queue first Q (e_version e) in
  exists h' r', FH.run_load sid (total a) 0 h = (Val tt, h')
    /\ holding es sid r' ((fun o => (sid, (o, 0))) <$> (ask nc Q' (next_places P)).1) h'
    /\ reader_ok cap nc off0 (still_first first (e_version e)) Q' (ask nc Q' (next_places P)).2 [] r'
    /\ FSR.end_ptr r' = (if first && negb (mark (e_version e) =? 0) then v_fill (e_version e)
                         else FSR.end_ptr r).
Proof.
  intros Hes Heq Hsid Hcap Hh Hr Ho Hn HP Q'. pose proof Hes as [Hw _ Ht].
  pose proof (file_entry_ok _ _ _ _ Hes Heq) as He. pose proof He as [Hc Hv _ _ _].
  assert (Forall entry_wf a /\ total a + e_cap e <= total es) as [Ha Hle].
  { rewrite Heq in Hw |- *. apply Forall_app in Hw as [? [? Hb]%list.Forall_cons].
    split; [done|]. rewrite total_app. cbn. pose proof (total_pos b Hb). unfold total in *. lia. }
  pose proof (total_pos a Ha) as Hpos. pose proof Hc as Hc'. unfold cap_ok, CB.control_block_size in Hc'.
  unfold FH.run_load.
  destruct (in_file_holding _ _ _ _ _ (FS.seekg (total a)) (Val tt)
    (FS.mk (file_bytes es) (total a) true) Hh) as [E1 Hh1]; [|done|done|].
  { destruct Hh as [_ _ Hfc Hfg]. destruct (FH.file h) as [c p g]. cbn in Hfc, Hfg. subst.
    by apply seekg_run. }
  erewrite bind_val by exact E1.
  destruct (get_spare_run cap Q (FSR.buffers r)) as (buf & l' & E & Hspare & Hl' & _ & _);
    [by subst|apply Hr|].
  destruct (in_reader_list _ _ _ _ _ _ _ _ _ _ _ _ Hr E Hl') as (Er & Hr2 & He2).
  destruct (on_reader_quiet _ _ _ _ _ _ _ _ Hh1 Er) as (h2 & E2 & Hh2); [apply Hr2|].
  unfold FSR.getBufferToLoad. erewrite bind_val by exact E2.
  pose proof Hspare as (Hbc & Hbl & _). rewrite Hbc.
  erewrite bind_val by (apply dassert_true, Z.ltb_lt; lia).
  assert (FH.file h2 = FS.mk (file_bytes es) (total a) true) as Hf2.
  { clear -E2. unfold FH.on_reader in E2. destruct (_ !! sid) as [s|]; [|done].
    destruct (FH.reader s); [|done]. destruct (FSR.in_list _ _). by injection E2 as _ <-. }
  pose proof (read_block a e b) as Erd. rewrite <- Heq in Erd. specialize (Erd Hw).
  destruct (in_file_holding _ _ _ _ h2 (FS.read (Z.to_nat cap)) (Val (render e))
    (FS.mk (file_bytes es) (total a + e_cap e) true) Hh2) as [E3 Hh3]; [|done|done|].
  { rewrite Hf2. by rewrite <- Hcap. }
  erewrite bind_val by exact E3. rewrite load_write by (done || congruence).
  erewrite bind_val by done. rewrite (of_buffer_render e) by (done || (cbn; congruence)).
  cbn [CB.stream_id CB.next_offset header_of]. rewrite Hsid, Z.eqb_refl, Hn.
  assert (v_fill (e_version e) <= e_cap e) as Hfill.
  { destruct Hv as [Hlen _ _]. unfold v_fill, room, CB.control_block_size in *. lia. }
  destruct (appendBuffer_run cap nc off0 first Q (FSR.set_buffers l' r)
    (loaded e (MB.set_buffer (render e) buf)) (e_version e) (total a) P Hr2) as (r' & E4 & Hr4 & He4).
  { rewrite <- Hcap. apply loaded_clean; [done|]. by rewrite Hcap. }
  { by rewrite <- Hcap. }
  { done. }
  { lia. }
  { done. }
  destruct (on_reader_run _ _ _ _ _ _ _ _ Hh3 E4) as (h' & E5 & Hh5).
  exists h', (FSR.set_loads [] r'). split_and!; [done| |by destruct Hr4|by rewrite <- He2].
  destruct Hr4 as [_ _ _ _ _ _ _ _ Hld]. rewrite Hld in Hh5. cbn [app] in Hh5.
  fold Q' in Hh5. change (map ?f ?l) with (f <$> l) in Hh5. rewrite <- list_fmap_compose in Hh5. exact Hh5.
Qed.

(** ** Loading while there is room *)

(** The blocks of the stream that are still to be loaded. *)
Fixpoint pending_ok (es : list Entry) (sid : nat) (cap off0 : Z) (P : list (Z * Entry)) : Prop :=
  match P with
  | [] => True
  | (o, e) :: P =>
      (exists a b, es = a ++ e :: b /\ o = total a) /\ e_sid e = sid /\ e_cap e = cap
      /\ off0 <= o /\ o < CB.int64_max /\ e_next e = next_of P /\ pending_ok es sid cap off0 P
  end.

Definition load_jobs (sid : nat) (l : list Z) : list (nat * (Z * Z)) :=
  (fun o => (sid, (o, 0))) <$> l.

(** What loading does to the queue of a reader. *)
Record loaded_more (first : bool) (Q : list Version) (r : FSR.FileStreamRead)
    (first' : bool) (Q' : list Version) (r' : FSR.FileStreamRead) : Prop := {
  lm_prefix : exists X, Q' = Q ++ X;
  lm_first : first = false -> first' = false /\ FSR.end_ptr r' = FSR.end_ptr r;
  lm_start : first = true -> first' = false ->
    exists v X, Q' = v :: X /\ FSR.end_ptr r' = v_fill v;
  lm_skipped : first' = true -> Q' = Q
}.

Lemma loaded_more_refl first Q r : (first = true -> Q = []) -> loaded_more first Q r first Q r.
Proof.
  intros H. split; try done; [exists []; by rewrite app_nil_r|]. by intros ->.
Qed.

Lemma loaded_more_step first Q r v r1 first' Q' r' :
  (first = true -> Q = []) ->
  FSR.end_ptr r1 = (if first && negb (mark v =? 0) then v_fill v else FSR.end_ptr r) ->
  loaded_more (still_first first v) (append_queue first Q v) r1 first' Q' r' ->
  loaded_more first Q r first' Q' r'.
Proof.
  intros H0 He [(X & ->) Hf Hs Hsk]. unfold still_first, append_queue in *.
  destruct first; cbn [andb] in *; [rewrite H0 in * by done; destruct (mark v =? 0) eqn:Em|].
  - split; [by exists X|done|done|done].
  - destruct (Hf eq_refl) as [-> Hp]. cbn [negb app] in *.
    split; [by exists (as_loaded true v :: X)|done| |done].
    intros _ _. exists v, X. split; [done|]. by rewrite Hp, He.
  - destruct (Hf eq_refl) as [-> Hp]. rewrite He in Hp.
    split; [eexists; by rewrite <- app_assoc|done|done|done].
Qed.

Lemma kept_step first Q v X :
  append_queue first Q v ++ kept (still_first first v) X = Q ++ kept first (v :: X).
Proof.
  unfold append_queue, still_first. cbn [kept]. destruct first; cbn [andb].
  - destruct (mark v =? 0); [done|]. by rewrite <- app_assoc.
  - by rewrite <- app_assoc.
Qed.

Lemma run_loads_none fuel h : FH.read_jobs h = [] -> FH.run_loads fuel h = (Val tt, h).
Proof. intros Hj. destruct fuel; cbn [FH.run_loads]; erewrite bind_val by done; by rewrite Hj. Qed.

Lemma run_loads_run es sid cap nc off0 P : forall fuel first Q r h,
  file_ok es -> pending_ok es sid cap off0 P ->
  holding es sid r (load_jobs sid (next_places P)) h -> reader_ok cap nc off0 first Q [] [] r ->
  (first = true -> Q = []) -> (length P <= fuel)%nat ->
  exists h' r' first' Q' P', FH.run_loads fuel h = (Val tt, h')
    /\ holding es sid r' [] h' /\ reader_ok cap nc off0 first' Q' (next_places P') [] r'
    /\ pending_ok es sid cap off0 P' /\ (length P' <= length P)%nat
    /\ Q' ++ kept first' (versions P') = Q ++ kept first (versions P)
    /\ (P' = [] \/ nc <= Z.of_nat (length Q')) /\ loaded_more first Q r first' Q' r'.
Proof.
  induction P as [|[o e] P IH]; intros fuel first Q r h Hes HP Hh Hr H0 Hfuel.
  - exists h, r, first, Q, []. split_and!; try done; [by apply run_loads_none, Hh|by left|].
    by apply loaded_more_refl.
  - destruct fuel as [|fuel]; [cbn in Hfuel; lia|]. cbn [FH.run_loads]. erewrite bind_val by done.
    destruct HP as ((a & b & Heq & ->) & Hsid & Hcap & Ho & _ & Hn & HP).
    rewrite (hd_jobs _ _ _ _ _ Hh), (hd_good _ _ _ _ _ Hh). cbn [negb next_places load_jobs fmap list_fmap].
    erewrite bind_val by done.
    assert (holding es sid r [] (FH.set_read_jobs [] h)) as Hh1 by (destruct Hh; by split).
    destruct (run_load_run es sid a e b cap nc off0 first Q r _ P Hes Heq Hsid Hcap Hh1 Hr Ho Hn)
      as (h1 & r1 & E1 & Hh2 & Hr1 & He1).
    { intros o' e' HeqP. destruct P as [|[o2 e2] P2]; [done|]. injection HeqP as -> ->.
      by destruct HP as (_ & _ & _ & _ & ? & _). }
    erewrite bind_val by exact E1. set (Q1 := append_queue first Q (e_version e)) in *.
    assert (still_first first (e_version e) = true -> Q1 = []) as H1.
    { unfold still_first, Q1, append_queue. destruct first; [|done]. cbn. intros ->. by apply H0. }
    unfold ask in *. destruct (Z.ltb_spec (Z.of_nat (length Q1)) nc) as [Hlt|Hge]; cbn [fst snd] in *.
    + destruct (IH fuel _ _ _ _ Hes HP Hh2 Hr1 H1) as (h' & r' & first' & Q' & P' & E & ? & ? & ? & ? & Hk & ? & Hm).
      { cbn in Hfuel. lia. }
      exists h', r', first', Q', P'. split_and!; try done; [cbn; lia| |by eapply loaded_more_step].
      rewrite Hk. apply kept_step.
    + exists h1, r1, (still_first first (e_version e)), Q1, P. split_and!; try done.
      * apply run_loads_none, Hh2.
      * cbn. lia.
      * apply kept_step.
      * by right.
      * eapply loaded_more_step; [done|exact He1|]. by apply loaded_more_refl.
Qed.

Lemma runLoads_run es sid cap nc off0 P fuel first Q r h :
  file_ok es -> pending_ok es sid cap off0 P ->
  holding es sid r (load_jobs sid (next_places P)) h -> reader_ok cap nc off0 first Q [] [] r ->
  (first = true -> Q = []) -> (length P <= fuel)%nat ->
  exists h' r' first' Q' P', FH.runLoads fuel h = (Val tt, h')
    /\ holding es sid r' [] h' /\ reader_ok cap nc off0 first' Q' (next_places P') [] r'
    /\ pending_ok es sid cap off0 P' /\ (length P' <= length P)%nat
    /\ Q' ++ kept first' (versions P') = Q ++ kept first (versions P)
    /\ (P' = [] \/ nc <= Z.of_nat (length Q')) /\ loaded_more first Q r first' Q' r'.
Proof.
  intros Hes HP Hh Hr H0 Hfuel. unfold FH.runLoads.
  destruct (in_file_holding _ _ _ _ _ FS.clear (Val tt) _ Hh eq_refl) as [E1 Hh1];
    [apply Hh|done|].
  erewrite bind_val by exact E1.
  destruct (run_loads_run es sid cap nc off0 P fuel first Q r _ Hes HP Hh1 Hr H0 Hfuel)
    as (h2 & r' & first' & Q' & P' & E2 & Hh2 & Hrest).
  erewrite bind_val by exact E2.
  destruct (in_file_holding _ _ _ _ _ (FS.seekg 0) (Val tt)
    (FS.set_pos 0 (FH.file h2)) Hh2) as [E3 Hh3]; [|apply Hh2|by apply Hh2|].
  { unfold FS.seekg, modify. by rewrite (hd_good _ _ _ _ _ Hh2). }
  erewrite bind_val by exact E3.
  destruct (in_file_holding _ _ _ _ _ FS.clear (Val tt) _ Hh3 eq_refl) as [E4 Hh4];
    [apply Hh3|done|].
  eexists _, r', first', Q', P'. split; [exact E4|]. by split.
Qed.

(** ** Reading on *)

(** The blocks behind the one being read: only the last can be empty. *)
Fixpoint solid (X : list Version) : Prop :=
  match X with
  | [] => True
  | v :: X => mark v = CB.control_block_size /\ (payload v = [] -> X = []) /\ solid X
  end.

Definition data (X : list Version) : list Z := mjoin (payload <$> X).

Lemma data_cons v X : data (v :: X) = payload v ++ data X.
Proof. done. Qed.

(** A reader with a current block [v], and [X] to come behind it. *)
Definition reading (es : list Entry) (sid : nat) (cap nc off0 : Z) (v : Version) (X : list Version)
    (n : nat) (h : FH.FileHandler) : Prop :=
  exists r Q P, holding es sid r [] h /\ reader_ok cap nc off0 false (v :: Q) (next_places P) [] r
    /\ pending_ok es sid cap off0 P /\ (length P <= n)%nat
    /\ X = Q ++ kept false (versions P).

(** The place behind the data of the current block. *)
Definition end_at (sid : nat) (h : FH.FileHandler) (n : Z) : Prop :=
  exists s r, FH.streams h !! sid = Some s /\ FH.reader s = Some r /\ FSR.end_ptr r = n.

Lemma holding_end es sid r jobs h n : holding es sid r jobs h -> end_at sid h n -> FSR.end_ptr r = n.
Proof. intros [(s & Hs & Hr) _ _ _] (s' & r' & Hs' & Hr' & He). congruence. Qed.
Lemma holding_end_at es sid r jobs h : holding es sid r jobs h -> end_at sid h (FSR.end_ptr r).
Proof. intros [(s & Hs & Hr) _ _ _]. by exists s, r. Qed.

Lemma currentBuffer_run cap nc off0 first v Q idx r :
  reader_ok cap nc off0 first (v :: Q) idx [] r ->
  exists b, FSR.currentBuffer r = (Val (Some b), r) /\ clean cap v b.
Proof.
  intros Hr. pose proof (r_list _ _ _ _ _ _ _ _ Hr) as Hl.
  destruct (front_run _ _ _ _ Hl) as (b & Ef & Hb). exists b. split; [|done].
  assert (FSR.set_buffers (FSR.buffers r) r = r) as Hid by by destruct r.
  unfold FSR.currentBuffer.
  erewrite bind_val by (unfold FSR.in_list, zoom; rewrite (notEmpty_run _ _ _ Hl), Hid; done).
  cbn. unfold fmap, M_fmap, FSR.in_list, zoom. by rewrite Ef, Hid.
Qed.

Lemma currentBuffer_none cap nc off0 first idx r :
  reader_ok cap nc off0 first [] idx [] r -> FSR.currentBuffer r = (Val None, r).
Proof.
  intros Hr. pose proof (r_list _ _ _ _ _ _ _ _ Hr) as Hl. unfold FSR.currentBuffer.
  assert (FSR.set_buffers (FSR.buffers r) r = r) as Hid by by destruct r.
  erewrite bind_val by (unfold FSR.in_list, zoom; rewrite (notEmpty_run _ _ _ Hl), Hid; done).
  done.
Qed.

Lemma deref_run cap nc off0 first v Q idx r m c :
  reader_ok cap nc off0 first (v :: Q) idx [] r -> 28 <= m -> payload v !! Z.to_nat (m - 28) = Some c ->
  FSR.deref (Some m) r = (Val c, r).
Proof.
  intros Hr Hm Hc. pose proof (r_list _ _ _ _ _ _ _ _ Hr) as Hl.
  destruct (front_run _ _ _ _ Hl) as (b & Ef & [[] _]).
  assert (FSR.set_buffers (FSR.buffers r) r = r) as Hid by by destruct r.
  unfold FSR.deref. erewrite bind_val by done.
  erewrite bind_val by (unfold FSR.in_list, zoom; rewrite Ef, Hid; done).
  assert (MB.buffer b !! Z.to_nat m = Some c) as Hb.
  { pose proof (lookup_lt_Some _ _ _ Hc). rewrite <- h_payload, lookup_take_lt, lookup_drop in Hc by done.
    rewrite <- Hc. f_equal. lia. }
  pose proof (lookup_lt_Some _ _ _ Hb) as Hlt. rewrite read_at_some by lia.
  erewrite bind_val by done. rewrite lookup_take_lt, lookup_drop, Nat.add_0_r, Hb by lia. done.
Qed.

(** A step within the current block. *)
Lemma increment_within es sid cap nc off0 v X n h lf m :
  reading es sid cap nc off0 v X n h -> end_at sid h (v_fill v) -> m + 1 <> v_fill v ->
  exists h', FH.increment lf sid m h = (Val (Some (m + 1)), h')
    /\ reading es sid cap nc off0 v X n h' /\ end_at sid h' (v_fill v).
Proof.
  intros (r & Q & P & Hh & Hr & HP & Hn & ->) He Hm.
  pose proof (holding_end _ _ _ _ _ _ Hh He) as Hp.
  destruct (currentBuffer_run _ _ _ _ _ _ _ _ Hr) as (b & Eb & _).
  destruct (on_reader_quiet _ _ _ _ _ _ _ _ Hh Eb) as (h1 & E1 & Hh1); [apply Hr|].
  destruct (on_reader_quiet _ _ _ _ _ (gets FSR.end_ptr) _ _ Hh1 eq_refl) as (h2 & E2 & Hh2); [apply Hr|].
  exists h2. split.
  - unfold FH.increment. erewrite bind_val by exact E1. cbv beta iota. erewrite bind_val by exact E2.
    rewrite Hp, (proj2 (Z.eqb_neq _ _)) by done. done.
  - split; [by exists r, Q, P|]. rewrite <- Hp. by eapply holding_end_at.
Qed.

(** The loads when the queue has run empty. *)
Lemma refill_run es sid cap nc off0 Q P r h lf :
  file_ok es -> holding es sid r [] h -> reader_ok cap nc off0 false Q (next_places P) [] r ->
  pending_ok es sid cap off0 P -> (length P <= lf)%nat -> 0 < nc ->
  exists h' r' Q' P',
    (b ← FH.on_reader sid (FSR.in_list BL.notEmpty);
     if (b : bool) then mret tt else FH.on_reader sid FSR.pushRequests ;; FH.runLoads lf) h
    = (Val tt, h')
    /\ holding es sid r' [] h' /\ reader_ok cap nc off0 false Q' (next_places P') [] r'
    /\ pending_ok es sid cap off0 P' /\ (length P' <= length P)%nat
    /\ Q' ++ kept false (versions P') = Q ++ kept false (versions P)
    /\ (Q' = [] -> P' = []).
Proof.
  intros Hes Hh Hr HP Hlf Hnc.
  assert (FSR.set_buffers (FSR.buffers r) r = r) as Hid by by destruct r.
  destruct (on_reader_quiet _ _ _ _ _ (FSR.in_list BL.notEmpty) (Val (negb (bool_decide (Q = [])))) r Hh)
    as (h1 & E1 & Hh1); [|apply Hr|].
  { unfold FSR.in_list, zoom. by rewrite (notEmpty_run _ _ _ (r_list _ _ _ _ _ _ _ _ Hr)), Hid. }
  destruct Q as [|v Q].
  - destruct (pushRequests_run _ _ _ _ _ _ _ Hr) as (r2 & Ep & Hr2 & _); [by destruct P as [|[]]; cbn; lia|].
    destruct (on_reader_run _ _ _ _ _ _ _ _ Hh1 Ep) as (h2 & E2 & Hh2).
    unfold ask in *. cbn [length Z.of_nat] in *. rewrite (proj2 (Z.ltb_lt _ _)) in * by done. cbn [fst snd app] in *.
    rewrite (r_loads _ _ _ _ _ _ _ _ Hr2) in Hh2.
    change (map ?f ?l) with (f <$> l) in Hh2. rewrite <- list_fmap_compose in Hh2.
    destruct (runLoads_run es sid cap nc off0 P lf false [] (FSR.set_loads [] r2) h2 Hes HP Hh2)
      as (h3 & r3 & first' & Q' & P' & E3 & Hh3 & Hr3 & HP' & Hle & Hk & Hor & [_ Hf _ _]);
      [by destruct Hr2|done..|].
    destruct (Hf eq_refl) as [-> _]. exists h3, r3, Q', P'. split_and!; try done.
    + erewrite bind_val by exact E1. cbn. erewrite bind_val by exact E2. exact E3.
    + intros ->. destruct Hor as [?|Hx]; [done|]. cbn in Hx. lia.
  - exists h1, r, (v :: Q), P. split_and!; try done. erewrite bind_val by exact E1. done.
Qed.

(** A step past the end of the current block. *)
Lemma increment_across es sid cap nc off0 v X n h lf m :
  file_ok es -> reading es sid cap nc off0 v X n h -> end_at sid h (v_fill v) -> m + 1 = v_fill v ->
  solid X -> 0 < nc -> (n <= lf)%nat ->
  exists it h', FH.increment lf sid m h = (Val it, h')
    /\ ((it = None /\ data X = [])
        \/ exists v' X', X = v' :: X' /\ payload v' <> [] /\ it = Some CB.control_block_size
             /\ reading es sid cap nc off0 v' X' n h' /\ end_at sid h' (v_fill v')).
Proof.
  intros Hes (r & Q & P & Hh & Hr & HP & Hn & ->) He Hm Hsolid Hnc Hlf.
  pose proof (holding_end _ _ _ _ _ _ Hh He) as Hp.
  destruct (currentBuffer_run _ _ _ _ _ _ _ _ Hr) as (b & Eb & _).
  destruct (on_reader_quiet _ _ _ _ _ _ _ _ Hh Eb) as (h1 & E1 & Hh1); [apply Hr|].
  destruct (on_reader_quiet _ _ _ _ _ (gets FSR.end_ptr) _ _ Hh1 eq_refl) as (h2 & E2 & Hh2); [apply Hr|].
  destruct (pop_run _ _ _ _ (r_list _ _ _ _ _ _ _ _ Hr)) as (l' & Epop & Hl').
  destruct (in_reader_list _ _ _ _ _ _ _ _ _ _ _ _ Hr Epop Hl') as (Ep & Hr3 & _).
  destruct (on_reader_quiet _ _ _ _ _ _ _ _ Hh2 Ep) as (h3 & E3 & Hh3); [apply Hr3|].
  destruct (refill_run es sid cap nc off0 Q P _ h3 lf Hes Hh3 Hr3 HP ltac:(lia) Hnc)
    as (h4 & r4 & Q' & P' & E4 & Hh4 & Hr4 & HP' & Hle & Hk & Hnil).
  unfold FH.increment. erewrite bind_val by exact E1. cbv beta iota. erewrite bind_val by exact E2.
  rewrite Hp, Hm, Z.eqb_refl. erewrite bind_val by exact E3. rewrite <- Hk in Hsolid |- *.
  unfold mbind, M_bind in E4 |- *.
  destruct (FH.on_reader sid (FSR.in_list BL.notEmpty) h3) as [[b3|?|?] h3'] eqn:Eb3; try done.
  rewrite E4. destruct Q' as [|v' Q'].
  - rewrite (Hnil eq_refl). destruct (on_reader_quiet _ _ _ _ _ _ _ _ Hh4
      (currentBuffer_none _ _ _ _ _ _ Hr4)) as (h5 & E5 & Hh5); [apply Hr4|].
    rewrite E5. exists None, h5. split; [done|]. by left.
  - destruct (currentBuffer_run _ _ _ _ _ _ _ _ Hr4) as (b' & Eb' & [Hb' _]).
    destruct (on_reader_quiet _ _ _ _ _ _ _ _ Hh4 Eb') as (h5 & E5 & Hh5); [apply Hr4|].
    rewrite E5. rewrite (h_fill _ _ _ Hb'). destruct Hsolid as (Hmk & Hempty & _).
    unfold v_fill at 1. destruct (decide (payload v' = [])) as [Hp'|Hp'].
    + rewrite Hp'. cbn [length Z.of_nat]. rewrite Z.add_0_r, Z.eqb_refl.
      destruct (pop_run _ _ _ _ (r_list _ _ _ _ _ _ _ _ Hr4)) as (l5 & Epop5 & Hl5).
      destruct (in_reader_list _ _ _ _ _ _ _ _ _ _ _ _ Hr4 Epop5 Hl5) as (Ep5 & Hr5 & _).
      destruct (on_reader_quiet _ _ _ _ _ _ _ _ Hh5 Ep5) as (h6 & E6 & Hh6); [apply Hr5|].
      rewrite E6. exists None, h6. split; [done|]. left. split; [done|].
      unfold data. cbn. rewrite Hp'. by rewrite (Hempty Hp').
    + destruct (payload v') as [|c p] eqn:Epay; [done|].
      rewrite (proj2 (Z.eqb_neq _ _)) by (cbn [length]; lia). rewrite <- Epay in Hp'.
      destruct (on_reader_quiet _ _ _ _ _ (modify (FSR.set_end_ptr (v_fill v'))) _ _ Hh5 eq_refl)
        as (h6 & E6 & Hh6); [apply Hr4|].
      rewrite E6. exists (Some CB.control_block_size), h6. rewrite (h_mark _ _ _ Hb'), Hmk.
      split; [done|]. right. exists v', (Q' ++ kept false (versions P')).
      split_and!; try done.
      * exists (FSR.set_end_ptr (v_fill v') r4), Q', P'. split_and!; [done|by destruct Hr4|done|lia|done].
      * exact (holding_end_at _ _ _ _ _ Hh6).
Qed.

(** ** Reading to the end *)

Lemma read_from_none lf fuel sid h : FH.read_from lf fuel sid None h = (Val [], h).
Proof. by destruct fuel. Qed.

Lemma deref_reading es sid cap nc off0 v X n h m c :
  reading es sid cap nc off0 v X n h -> end_at sid h (v_fill v) -> 28 <= m ->
  payload v !! Z.to_nat (m - 28) = Some c ->
  exists h', FH.on_reader sid (FSR.deref (Some m)) h = (Val c, h')
    /\ reading es sid cap nc off0 v X n h' /\ end_at sid h' (v_fill v).
Proof.
  intros (r & Q & P & Hh & Hr & HP & Hn & ->) He Hm Hc.
  pose proof (holding_end _ _ _ _ _ _ Hh He) as Hp.
  pose proof (deref_run _ _ _ _ _ _ _ _ _ _ Hr Hm Hc) as Ed.
  destruct (on_reader_quiet _ _ _ _ _ _ _ _ Hh Ed) as (h1 & E1 & Hh1); [apply Hr|].
  exists h1. split_and!; [done|by exists r, Q, P|]. rewrite <- Hp. by eapply holding_end_at.
Qed.

Lemma read_from_run es sid cap nc off0 n lf fuel : forall v X h m,
  file_ok es -> reading es sid cap nc off0 v X n h -> end_at sid h (v_fill v) ->
  28 <= m < v_fill v -> solid X -> 0 < nc -> (n <= lf)%nat ->
  (length (drop (Z.to_nat (m - 28)) (payload v) ++ data X) <= fuel)%nat ->
  exists h', FH.read_from lf fuel sid (Some m) h
    = (Val (drop (Z.to_nat (m - 28)) (payload v) ++ data X), h').
Proof.
  induction fuel as [|fuel IH]; intros v X h m Hes Hrd He Hm Hs Hnc Hlf Hfuel.
  - exfalso. rewrite length_app, length_drop in Hfuel. unfold v_fill, CB.control_block_size in Hm. lia.
  - destruct (lookup_lt_is_Some_2 (payload v) (Z.to_nat (m - 28))) as (c & Hc).
    { unfold v_fill, CB.control_block_size in Hm. lia. }
    rewrite (drop_S _ _ _ Hc) in Hfuel |- *.
    destruct (deref_reading _ _ _ _ _ _ _ _ _ _ _ Hrd He (proj1 Hm) Hc) as (h1 & E1 & Hrd1 & He1).
    cbn [FH.read_from]. erewrite bind_val by exact E1. destruct (decide (m + 1 = v_fill v)) as [Hend|Hin].
    + destruct (increment_across _ _ _ _ _ _ _ _ _ lf m Hes Hrd1 He1 Hend Hs Hnc Hlf)
        as (it & h2 & E2 & Hcase).
      erewrite bind_val by exact E2. rewrite drop_ge in Hfuel |- *
        by (unfold v_fill, CB.control_block_size in *; lia).
      destruct Hcase as [(-> & HX)|(v' & X' & -> & Hp & -> & Hrd2 & He2)].
      * exists h2. erewrite bind_val by apply read_from_none. by rewrite HX.
      * destruct (IH v' X' h2 CB.control_block_size Hes Hrd2 He2) as (h3 & E3); [|apply Hs|done|done| |].
        { unfold v_fill, CB.control_block_size. destruct (payload v'); [done|]. cbn [length]. lia. }
        { rewrite data_cons in Hfuel. cbn [app length] in Hfuel.
          change (Z.to_nat (CB.control_block_size - 28)) with O. rewrite drop_0. lia. }
        exists h3. erewrite bind_val by exact E3.
        change (Z.to_nat (CB.control_block_size - 28)) with O. by rewrite drop_0, data_cons.
    + destruct (increment_within _ _ _ _ _ _ _ _ _ lf m Hrd1 He1 Hin) as (h2 & E2 & Hrd2 & He2).
      erewrite bind_val by exact E2.
      replace (S (Z.to_nat (m - 28))) with (Z.to_nat (m + 1 - 28)) in Hfuel |- * by lia.
      destruct (IH v X h2 (m + 1) Hes Hrd2 He2) as (h3 & E3); [lia|done|done|done| |].
      { cbn in Hfuel. lia. }
      exists h3. by erewrite bind_val by exact E3.
Qed.

(** ** A reader of a file *)

(** What a reader of blocks with the data [X] gets. *)
Definition read_of (X : list Version) : list Z :=
  match kept true X with
  | [] => []
  | v :: R => drop (Z.to_nat (mark v - 28)) (payload v) ++ data R
  end.
(** The first mark is a place in the data. *)
Definition marked_inside (X : list Version) : Prop :=
  match kept true X with [] => True | v :: _ => CB.control_block_size <= mark v < v_fill v end.

Lemma kept_false_solid X : Forall (fun v => payload v <> []) (removelast X) -> solid (kept false X).
Proof.
  induction X as [|v X IH]; cbn [kept andb]; [done|]. intros Hf. cbn [solid as_loaded].
  destruct X as [|w X]; [done|]. cbn [removelast] in Hf. apply list.Forall_cons in Hf as [Hv Hf].
  split_and!; [done|done|by apply IH].
Qed.
Lemma kept_true_solid X v R : Forall (fun v => payload v <> []) (removelast X) ->
  kept true X = v :: R -> solid R /\ mark v <> 0 /\ v ∈ X.
Proof.
  induction X as [|w X IH]; [done|]. intros Hf. cbn [kept andb].
  destruct (Z.eqb_spec (mark w) 0) as [Hz|Hz].
  - intros E. destruct (IH) as (? & ? & ?); [|done|].
    { destruct X; [done|]. cbn [removelast] in Hf. by apply list.Forall_cons in Hf as [_ ?]. }
    split_and!; [done|done|by right].
  - intros [= <- <-]. split_and!; [|done|left]. apply kept_false_solid.
    destruct X; [by cbn|]. cbn [removelast] in Hf. by apply list.Forall_cons in Hf as [_ ?].
Qed.

Lemma blocks_pending es sid cap b : forall P a n, file_ok es -> es = a ++ b ->
  blocks_of sid (total a) b = P -> linked cap n P -> pending_ok es sid cap 0 P.
Proof.
  induction b as [|e b IH]; intros P a n Hes Heq HP Hl; cbn in HP; [by subst|].
  assert (total a + e_cap e = total (a ++ [e])) as Et by (rewrite total_app; cbn; lia).
  rewrite Et in HP. assert (es = (a ++ [e]) ++ b) as Heq' by by rewrite <- app_assoc.
  pose proof (f_entries _ Hes) as Hw. pose proof (f_total _ Hes) as Ht. rewrite Heq in Hw, Ht.
  apply Forall_app in Hw as [Ha [He Hb]%list.Forall_cons]. pose proof (total_pos a Ha).
  rewrite total_app in Ht. cbn in Ht. pose proof (total_pos b Hb).
  assert (28 < e_cap e) as Hc by (destruct He as [Hc _ _ _]; apply Hc). unfold total in *.
  destruct (decide (e_sid e = sid)) as [Hs|Hs]; [|by eapply IH].
  subst P. cbn [app pending_ok] in *. cbn in Hl. destruct Hl as (Hcap & _ & Hn & Hl).
  split_and!; try done; [by exists a, b|lia| |by eapply IH].
  destruct (blocks_of sid _ b) as [|[o2 e2] P']; [exact Hn|exact (proj1 Hn)].
Qed.

Lemma linked_nonempty cap n D : cap_ok cap -> linked cap n D ->
  Forall (fun v => payload v <> []) (removelast (versions D)).
Proof.
  intros Hc. revert n. induction D as [|[o e] D IH]; intros n Hl; [apply Forall_nil_2|].
  cbn in Hl. destruct Hl as (_ & _ & Hx & Hl). destruct D as [|[o2 e2] D]; [apply Forall_nil_2|].
  apply Forall_cons_2; [|by eapply IH]. destruct Hx as [_ Hf]. intros E. unfold full in Hf. cbn in E.
  rewrite E in Hf. pose proof (room_pos cap Hc). cbn in Hf. lia.
Qed.

Lemma pending_from es sid cap off0 off P : Forall (fun p => off0 <= p.1) P ->
  pending_ok es sid cap off P -> pending_ok es sid cap off0 P.
Proof.
  induction 1 as [|[o e] P Ho _ IH]; [done|]. cbn.
  intros (? & ? & ? & _ & ? & ? & ?). split_and!; auto.
Qed.

Lemma blocks_sorted sid off es o1 e1 D : Forall entry_wf es -> blocks_of sid off es = (o1, e1) :: D ->
  Forall (fun p => o1 <= p.1) ((o1, e1) :: D).
Proof.
  intros Hw. revert off. induction Hw as [|e es He Hes IH]; intros off HD; [done|].
  cbn in HD. destruct (decide (e_sid e = sid)); [|by eapply IH].
  injection HD as -> -> <-. apply Forall_cons_2; [cbn; lia|]. apply list.Forall_forall.
  intros [o' e'] Hin. destruct (blocks_of_range _ _ _ _ _ Hes Hin) as (_ & _ & ? & _).
  destruct He as [Hc _ _ _]. unfold cap_ok, CB.control_block_size in Hc. cbn. lia.
Qed.

Lemma initBuffer_run cap r : cap_ok cap -> FSR.buffers r = BL.make ->
  exists l, FSR.initBuffer cap r = (Val tt, FSR.set_buffers l r) /\ list_ok cap [] l.
Proof.
  intros Hc Hb. pose proof Hc as Hc'. unfold cap_ok, CB.control_block_size in Hc'.
  exists (BL.mk cap [] (Some (MB.make cap, []))). split.
  - unfold FSR.initBuffer. erewrite bind_val by done. rewrite Hb. cbn [BL.bufsize BL.make Z.eqb].
    erewrite bind_val by done. rewrite u32_id by (unfold is_u32; lia). done.
  - split; [done|apply Forall_nil_2|]. eexists _, _. split_and!; [done|by apply make_spare|done].
Qed.

(** [createRead] for a stream that has blocks. *)
Lemma createRead_run es l sid n nc o1 e1 D :
  file_ok es -> all_scanned es l -> blocks_of sid 0 es = (o1, e1) :: D -> 0 < nc ->
  exists h' r, FH.createRead sid nc false (FH.mk n l [] [] 0 (FS.make (file_bytes es)) FH.Read true)
      = (Val tt, h')
    /\ holding es sid r [(sid, (o1, 0))] h' /\ reader_ok (e_cap e1) nc o1 true [] [] [] r.
Proof.
  intros Hes [Hl Hk] HD Hnc. pose proof (f_entries _ Hes) as Hw.
  destruct (blocks_of_range sid 0 es o1 e1 Hw) as (Hsid & Hin & Ho & _); [rewrite HD; left|].
  pose proof Hk as Hk'. rewrite list.Forall_forall in Hk'. specialize (Hk' _ Hin). rewrite Hsid in Hk'.
  rewrite list.Forall_forall in Hw. destruct (Hw _ Hin) as [Hc _ _ _].
  destruct (lookup_lt_is_Some_2 l sid Hk') as (s & Hs). destruct (Hl _ _ Hs) as [_ Hr Hf Hb].
  rewrite HD in Hf, Hb. cbn in Hf, Hb. set (h0 := FH.mk _ _ _ _ _ _ _ _).
  set (r0 := FSR.make (Z.of_nat sid) nc false).
  assert (FH.grow (S sid) l = l) as Hg.
  { unfold FH.grow. replace (S sid - length l)%nat with O by lia. apply app_nil_r. }
  unfold FH.createRead. erewrite (bind_val _ _ h0 tt h0) by (unfold modify, FH.set_streams, h0; cbn [FH.streams]; by rewrite Hg).
  erewrite bind_val by by apply stream_at_run. rewrite Hr. unfold FH.setReader.
  erewrite bind_val by by apply stream_at_run.
  erewrite bind_val by apply put_stream_run. set (h1 := FH.set_streams _ h0).
  assert (holding es sid r0 [] h1) as Hh1.
  { split; try done. eexists. split; [by apply insert_lookup|done]. }
  pose proof Hc as Hc'. unfold cap_ok, CB.control_block_size in Hc'.
  destruct (initBuffer_run (e_cap e1) r0 Hc eq_refl) as (lb & Ei & Hlb).
  destruct (on_reader_quiet _ _ _ _ _ _ _ _ Hh1 Ei) as (h2 & E2 & Hh2); [done|].
  rewrite Hb, (proj2 (Z.eqb_neq (e_cap e1) 0)) by lia. erewrite bind_val by exact E2.
  rewrite Hf, (proj2 (Z.eqb_neq o1 (-1))) by lia.
  set (r2 := FSR.set_loads [(o1, 0)] (FSR.set_requested (Some [o1])
    (FSR.set_range o1 CB.int64_max (FSR.set_buffers lb r0)))).
  assert (FSR.informOffset o1 (FSR.set_buffers lb r0) = (Val true, r2)) as Einf.
  { unfold FSR.informOffset. erewrite bind_val by done.
    erewrite bind_val by (apply dassert_true; cbn; rewrite (l_bufsize _ _ _ Hlb);
      by rewrite (proj2 (Z.eqb_neq _ _)) by lia).
    cbn [FSR.slice_indexed FSR.set_buffers r0 FSR.make FSR.start_offset Z.eqb Pos.eqb].
    erewrite bind_val by done. erewrite bind_val by by apply dassert_true.
    change (FSR.requested (FSR.set_buffers lb r0)) with (FSR.requested r0).
    assert (FSR.requested r0 = Some []) as Hrq
      by (subst r0; cbn; by rewrite (proj2 (Z.eqb_neq nc 0)) by lia).
    rewrite Hrq. erewrite bind_val by by apply dassert_true.
    erewrite bind_val; [|unfold FSR.push_requested; erewrite bind_val by done;
      cbn [FSR.requested FSR.set_range FSR.set_buffers]; rewrite Hrq; done].
    done. }
  destruct (on_reader_run _ _ _ _ _ _ _ _ Hh2 Einf) as (h3 & E3 & Hh3).
  exists h3, (FSR.set_loads [] r2). split_and!; [by erewrite bind_val by exact E3|exact Hh3|].
  by split.
Qed.

Lemma file_lengths es : Forall entry_wf es ->
  (length es <= length (file_bytes es))%nat
  /\ (length (data (e_version <$> es)) <= length (file_bytes es))%nat.
Proof.
  induction 1 as [|e es He _ [IH1 IH2]]; [done|]. rewrite file_bytes_cons, fmap_cons, data_cons.
  rewrite !length_app. cbn [length]. pose proof (entry_render_length e He) as Hl.
  destruct He as [Hc [Hv _ _] _ _]. unfold cap_ok, room, CB.control_block_size in *. lia.
Qed.

Lemma blocks_lengths sid off es :
  (length (blocks_of sid off es) <= length es)%nat
  /\ (length (data (versions (blocks_of sid off es))) <= length (data (e_version <$> es)))%nat.
Proof.
  revert off. induction es as [|e es IH]; intros off; [done|]. specialize (IH (off + e_cap e)) as [IH1 IH2].
  cbn [blocks_of]. rewrite versions_app, fmap_cons, data_cons. destruct (decide _); cbn [app].
  - change (versions [(off, e)]) with [e_version e]. cbn [app]. rewrite data_cons, length_app.
    cbn [length]. rewrite length_app. lia.
  - change (versions []) with (@nil Version). cbn [app length]. rewrite length_app. lia.
Qed.

Lemma kept_data first X : (length (data (kept first X)) <= length (data X))%nat.
Proof.
  revert first. induction X as [|v X IH]; intros first; [done|]. cbn [kept].
  destruct (first && _).
  - rewrite (data_cons v), length_app. specialize (IH true). lia.
  - rewrite !data_cons, !length_app. specialize (IH false).
    destruct first; cbn [as_loaded payload]; lia.
Qed.

Lemma read_of_length X : (length (read_of X) <= length (data X))%nat.
Proof.
  unfold read_of. pose proof (kept_data true X) as H. destruct (kept true X) as [|v R]; [cbn; lia|].
  rewrite data_cons, length_app in H. rewrite length_app, length_drop. lia.
Qed.

(** Opening, attaching a reader and reading to the end. *)
Definition read_file (fuel : nat) (bs : list Z) (n nc : Z) (sid : nat) : M FH.FileHandler (list Z) :=
  FH.open fuel (Some bs) FH.Read n ;;
  FH.createRead sid nc false ;;
  FH.runLoads fuel ;;
  FH.read_all fuel fuel sid.

Lemma read_file_run es sid fuel n nc :
  file_ok es -> blocks_of sid 0 es <> [] -> 0 < nc ->
  marked_inside (versions (blocks_of sid 0 es)) -> (length (file_bytes es) <= fuel)%nat ->
  exists h', read_file fuel (file_bytes es) n nc sid FH.make
    = (Val (read_of (versions (blocks_of sid 0 es))), h').
Proof.
  intros Hes HD Hnc Hm Hfuel. pose proof (f_entries _ Hes) as Hw.
  destruct (file_lengths es Hw) as [Hl1 Hl2]. destruct (blocks_lengths sid 0 es) as [Hl3 Hl4].
  pose proof (read_of_length (versions (blocks_of sid 0 es))) as Hl5.
  destruct (f_linked _ Hes sid) as (cap & Hlk).
  destruct (open_file_run es fuel n Hes ltac:(lia)) as (l & E1 & Hsc).
  unfold read_file. erewrite bind_val by exact E1.
  destruct (blocks_of sid 0 es) as [|[o1 e1] D] eqn:ED; [done|].
  destruct (createRead_run es l sid n nc o1 e1 D Hes Hsc ED Hnc) as (h2 & r & E2 & Hh2 & Hr).
  erewrite bind_val by exact E2.
  assert (e_cap e1 = cap) as Hcap by apply Hlk. rewrite Hcap in Hr.
  assert (cap_ok cap) as Hc.
  { destruct (blocks_of_range sid 0 es o1 e1 Hw) as (_ & Hin & _); [rewrite ED; left|].
    rewrite list.Forall_forall in Hw. rewrite <- Hcap. by apply Hw. }
  assert (pending_ok es sid cap o1 ((o1, e1) :: D)) as HP.
  { eapply pending_from; [by eapply blocks_sorted|]. by eapply (blocks_pending es sid cap es _ [] 0). }
  pose proof (linked_nonempty _ _ _ Hc Hlk) as Hne.
  destruct (runLoads_run es sid cap nc o1 _ fuel true [] r h2 Hes HP Hh2 Hr)
    as (h3 & r3 & first' & Q' & P' & E3 & Hh3 & Hr3 & HP' & Hle & Hk & Hor & [_ _ Hst Hsk]); [done|lia|].
  erewrite bind_val by exact E3. cbn [app] in Hk. unfold FH.read_all, read_of. unfold marked_inside in Hm.
  destruct Q' as [|v Q].
  - assert (P' = []) as -> by (destruct Hor as [?|?]; [done|cbn in *; lia]).
    assert (kept true (versions ((o1, e1) :: D)) = []) as -> by (rewrite <- Hk; by destruct first').
    assert (FSR.iterator r3 = (Val None, r3)) as Eit.
    { unfold FSR.iterator, FSR.current. by erewrite bind_val by (eapply currentBuffer_none; exact Hr3). }
    destruct (on_reader_quiet _ _ _ _ _ _ _ _ Hh3 Eit) as (h4 & E4 & Hh4); [apply Hr3|].
    exists h4. erewrite bind_val by exact E4. apply read_from_none.
  - assert (first' = false) as -> by (destruct first'; [by discriminate Hsk|done]).
    destruct (Hst eq_refl eq_refl) as (v' & X & [= <- <-] & Hp).
    unfold read_of in Hl5. rewrite <- Hk in Hm, Hl5 |- *. cbn [app] in Hm, Hl5 |- *.
    destruct (kept_true_solid _ _ _ Hne (eq_sym Hk)) as (Hsolid & _ & _).
    destruct (currentBuffer_run _ _ _ _ _ _ _ _ Hr3) as (b & Eb & [Hb _]).
    assert (FSR.iterator r3 = (Val (Some (mark v)), r3)) as Eit.
    { unfold FSR.iterator, FSR.current. erewrite bind_val by exact Eb. cbn. by rewrite (h_mark _ _ _ Hb). }
    destruct (on_reader_quiet _ _ _ _ _ _ _ _ Hh3 Eit) as (h4 & E4 & Hh4); [apply Hr3|].
    erewrite bind_val by exact E4. eapply read_from_run; [done| | |exact Hm|done|done| |lia].
    + exists r3, Q, P'. split_and!; [done|done|done|exact Hle|done].
    + rewrite <- Hp. by eapply holding_end_at.
    + lia.
Qed.
End Load.
