(* ===== verification/DdffRecord.v ===== *)
(** Recording files: whatever is written to the streams of a file, in any
    order, with any writes of blocks in between, a reader of the file gets. *)

From S2P Require Import Prelude.
From S2P Require Import Bytes.
From S2P Require Import Amorph.
From S2P Require Import DdffFile.
From S2P Require Import DdffStream.
From S2P Require Import DdffBlock.
From S2P Require Import DdffWrite.
From S2P Require Import DdffHandler.
From S2P Require Import DdffRead.
From S2P Require Import DdffLoad.
#[local] Open Scope Z_scope.

(** * What a stream was given *)

(** The bytes, and the place of the first mark. *)
Record Track := mkTrack { t_data : list Z; t_mark : option nat }.

Definition empty_track : Track := mkTrack [] None.
Definition track_write (l : list Z) (t : Track) : Track := mkTrack (t_data t ++ l) (t_mark t).
Definition track_mark (t : Track) : Track :=
  mkTrack (t_data t) (Some (default (length (t_data t)) (t_mark t))).
(** What is to be read: the data from the first mark on. *)
Definition track_read (t : Track) : list Z :=
  match t_mark t with None => [] | Some p => drop p (t_data t) end.

(** ** Tracks and blocks *)

Fixpoint mark_place (X : list Version) : option nat :=
  match X with
  | [] => None
  | v :: X => if mark v =? 0 then Nat.add (length (payload v)) <$> mark_place X
              else Some (Z.to_nat (mark v - 28))
  end.

Definition inner_mark (v : Version) : Prop := mark v = 0 \/ 28 <= mark v < v_fill v.
Definition open_mark (v : Version) : Prop := mark v = 0 \/ 28 <= mark v <= v_fill v.

(** The complete blocks [F] and the block [v] being filled hold [t]. *)
Record tracked (F : list Version) (v : Version) (t : Track) : Prop := {
  tk_data : data (F ++ [v]) = t_data t;
  tk_mark : mark_place (F ++ [v]) = t_mark t;
  tk_full : Forall inner_mark F;
  tk_cur : open_mark v
}.

Lemma data_app X Y : data (X ++ Y) = data X ++ data Y.
Proof. unfold data. by rewrite fmap_app, join_app. Qed.
Lemma data_one v : data [v] = payload v.
Proof. unfold data. cbn. apply app_nil_r. Qed.

Lemma mark_place_app X Y : mark_place (X ++ Y) =
  match mark_place X with
  | Some p => Some p
  | None => Nat.add (length (data X)) <$> mark_place Y
  end.
Proof.
  induction X as [|v X IH]; cbn [mark_place app]; [by destruct (mark_place Y)|].
  destruct (mark v =? 0); [|done]. rewrite IH, data_cons, length_app.
  destruct (mark_place X); [done|]. destruct (mark_place Y); cbn; [|done]. f_equal. lia.
Qed.

Lemma mark_place_none X : mark_place X = None -> Forall (fun v => mark v = 0) X.
Proof.
  induction X as [|v X IH]; cbn [mark_place]; [by constructor|].
  destruct (Z.eqb_spec (mark v) 0); [|done]. intros E. apply Forall_cons_2; [done|]. apply IH.
  by destruct (mark_place X).
Qed.

Lemma tracked_empty : tracked [] empty_version empty_track.
Proof. split; [done|done|apply Forall_nil_2|by left]. Qed.

Lemma tracked_put1 cap F v t c : tracked F v t ->
  let s := put1 cap (F, v) c in tracked s.1 s.2 (track_write [c] t).
Proof.
  intros [Hd Hm Hf Hc]. rewrite data_app, data_one in Hd.
  rewrite mark_place_app in Hm.
  assert (inner_mark (add_byte c v)) as Hi.
  { unfold inner_mark, open_mark, v_fill in *. cbn. rewrite length_app. cbn. lia. }
  assert (mark_place [add_byte c v] = mark_place [v]) as Hp
    by (cbn; by destruct (_ =? _)).
  unfold put1. cbn [fst snd]. destruct (decide _); cbn [fst snd]; split; cbn.
  - rewrite !data_app, !data_one. cbn. by rewrite app_nil_r, app_assoc, Hd.
  - rewrite !mark_place_app. rewrite Hp. destruct (mark_place F); [done|].
    rewrite <- Hm. by destruct (mark_place [v]).
  - apply Forall_app. split; [done|]. by apply list.Forall_singleton.
  - by left.
  - rewrite data_app, data_one. cbn. by rewrite app_assoc, Hd.
  - by rewrite mark_place_app, Hp.
  - done.
  - destruct Hi as [?|?]; [by left|right; lia].
Qed.

Lemma tracked_puts cap l : forall F v t, tracked F v t ->
  let s := puts cap (F, v) l in tracked s.1 s.2 (track_write l t).
Proof.
  induction l as [|c l IH]; intros F v t Ht; cbn.
  - unfold track_write. rewrite app_nil_r. by destruct t.
  - pose proof (tracked_put1 cap F v t c Ht) as H1. cbn in H1.
    destruct (put1 cap (F, v) c) as [F' v'] eqn:E. cbn in H1. specialize (IH _ _ _ H1). cbn in IH.
    unfold puts in IH. unfold track_write in *. cbn in IH. by rewrite <- app_assoc in IH.
Qed.

Lemma tracked_write l g t : tracked (g_full g) (g_cur g) t ->
  tracked (g_full (g_write l g)) (g_cur (g_write l g)) (track_write l t).
Proof.
  intros Ht. pose proof (tracked_puts (g_cap g) l _ _ _ Ht) as H. cbn in H.
  pose proof (puts_shift (g_cap g) (g_full g) ([], g_cur g) l) as E. cbn in E.
  rewrite app_nil_r in E. by rewrite E in H.
Qed.

Lemma tracked_mark g t : tracked (g_full g) (g_cur g) t ->
  tracked (g_full (g_mark g)) (g_cur (g_mark g)) (track_mark t).
Proof.
  intros [Hd Hm Hf Hc]. unfold g_mark. cbn [g_full g_cur].
  rewrite data_app, data_one in Hd. rewrite mark_place_app in Hm.
  assert (28 <= v_fill (g_cur g)) by (unfold v_fill, CB.control_block_size; lia).
  unfold set_mark. destruct (Z.eqb_spec (mark (g_cur g)) 0) as [Hz|Hz].
  - split; cbn; [by rewrite data_app, data_one| |done|right; cbn; unfold v_fill in *; cbn; lia].
    rewrite mark_place_app. cbn in Hm |- *. rewrite (proj2 (Z.eqb_eq _ _) Hz) in Hm.
    rewrite (proj2 (Z.eqb_neq (v_fill _) 0)) by lia. destruct (mark_place (g_full g)); cbn in *.
    + by rewrite <- Hm.
    + rewrite <- Hm, <- Hd, length_app. cbn. do 2 f_equal. unfold v_fill, CB.control_block_size. lia.
  - split; cbn; [by rewrite data_app, data_one| |done|done].
    rewrite mark_place_app, Hm. cbn in Hm. rewrite (proj2 (Z.eqb_neq _ _) Hz) in Hm.
    by destruct (mark_place (g_full g)); cbn in Hm; rewrite <- Hm.
Qed.

(** ** What a reader of the blocks gets *)

Lemma data_kept_false X : data (kept false X) = data X.
Proof. induction X as [|v X IH]; [done|]. cbn [kept andb]. by rewrite !data_cons, IH. Qed.

Lemma read_of_place X : Forall open_mark X ->
  read_of X = match mark_place X with None => [] | Some p => drop p (data X) end.
Proof.
  unfold read_of. induction 1 as [|v X Hv HX IH]; [done|]. cbn [kept andb mark_place].
  destruct (Z.eqb_spec (mark v) 0) as [Hz|Hz].
  - rewrite IH. destruct (mark_place X); [|done]. cbn [fmap option_fmap option_map].
    by rewrite data_cons, <- drop_drop, drop_app_length.
  - cbn [as_loaded]. rewrite data_kept_false, data_cons, drop_app_le; [done|].
    destruct Hv as [?|Hv]; [done|]. unfold v_fill, CB.control_block_size in Hv. lia.
Qed.

Lemma track_read_of F v t : tracked F v t -> read_of (F ++ [v]) = track_read t.
Proof.
  intros [Hd Hm Hf Hc]. rewrite read_of_place, Hd, Hm; [done|].
  apply Forall_app. split; [|by apply list.Forall_singleton].
  eapply list.Forall_impl; [exact Hf|]. intros w [?|?]; [by left|right; lia].
Qed.

Lemma tracked_inside F v t : tracked F v t ->
  (forall p, t_mark t = Some p -> (p < length (t_data t))%nat) -> marked_inside (F ++ [v]).
Proof.
  intros [Hd Hm Hf Hc]. rewrite <- Hd, <- Hm. clear Hd Hm t. unfold marked_inside.
  induction Hf as [|w F Hw Hf IH]; intros Hp.
  - cbn [app kept andb] in *. destruct (Z.eqb_spec (mark v) 0) as [Hz|Hz]; [done|].
    destruct Hc as [?|Hc]; [done|]. cbn [mark_place] in Hp. rewrite (proj2 (Z.eqb_neq _ _) Hz) in Hp.
    specialize (Hp _ eq_refl). rewrite data_one in Hp. unfold as_loaded, v_fill, CB.control_block_size in *. lia.
  - cbn [app kept andb mark_place] in *. destruct (Z.eqb_spec (mark w) 0) as [Hz|Hz].
    + apply IH. intros p E. rewrite E in Hp. specialize (Hp _ eq_refl).
      rewrite data_cons, length_app in Hp. lia.
    + destruct Hw as [?|Hw]; [done|]. exact Hw.
Qed.

(** * Recording *)

(** What is done with a file opened for writing. *)
Inductive Action :=
  | Create (bufsize : Z)
  | Write (sid : nat) (l : list Z)
  | MarkItem (sid : nat)
  | Process
  | Sync.

Definition action_ok (n : nat) (a : Action) : Prop :=
  match a with
  | Create bufsize => cap_ok bufsize /\ Z.of_nat n < 65536
  | Write sid l => (sid < n)%nat /\ bytes_ok l /\ Z.of_nat (length l) < 4294967296
  | MarkItem sid => (sid < n)%nat
  | Process | Sync => True
  end.

Definition track_action (a : Action) (ts : list Track) : list Track :=
  match a with
  | Create _ => ts ++ [empty_track]
  | Write sid l => alter (track_write l) sid ts
  | MarkItem sid => alter track_mark sid ts
  | Process | Sync => ts
  end.

Definition track_actions (l : list Action) (ts : list Track) : list Track :=
  foldl (fun ts a => track_action a ts) ts l.

Fixpoint actions_ok (n : nat) (l : list Action) : Prop :=
  match l with
  | [] => True
  | a :: l => action_ok n a /\ actions_ok (match a with Create _ => S n | _ => n end) l
  end.

Section Record.
Context {BC : BuildConfig} {NM : NewMemory} {CR : Crc}.

Definition perform (a : Action) : M FH.FileHandler unit :=
  match a with
  | Create bufsize => FH.createWrite bufsize ;; mret tt
  | Write sid l => FH.on_writer sid (FSW.write (length l) l)
  | MarkItem sid => FH.on_writer sid FSW.markItemStart ;; mret tt
  | Process => FH.processWrites ;; mret tt
  | Sync => FH.syncToFile true
  end.
Fixpoint performs (l : list Action) : M FH.FileHandler unit :=
  match l with
  | [] => mret tt
  | a :: l => perform a ;; performs l
  end.

(** A session: the file is opened, used and synced. *)
Definition record_file (existing : option (list Z)) (blocksize : Z) (l : list Action) (b : bool)
    : M FH.FileHandler unit :=
  FH.open 0 existing FH.Truncate blocksize ;;
  performs l ;;
  FH.syncToFile b.

Definition state_ok (h : FH.FileHandler) (ts : list Track) : Prop :=
  exists es gs, handler_ok h es gs /\ all_open gs
    /\ Forall2 (fun g t => tracked (g_full g) (g_cur g) t) gs ts.

Lemma tracked_alter (f : Ghost -> Ghost) (k : Track -> Track) gs ts sid g :
  Forall2 (fun g t => tracked (g_full g) (g_cur g) t) gs ts -> gs !! sid = Some g ->
  (forall t, tracked (g_full g) (g_cur g) t -> tracked (g_full (f g)) (g_cur (f g)) (k t)) ->
  Forall2 (fun g t => tracked (g_full g) (g_cur g) t) (<[sid:=f g]> gs) (alter k sid ts).
Proof.
  intros Hf Hg Hk. destruct (Forall2_lookup_l _ _ _ _ _ Hf Hg) as (t & Ht & Htr).
  assert (alter k sid ts = <[sid:=k t]> ts) as ->.
  { apply list_eq. intros i. destruct (decide (i = sid)) as [->|Hne].
    - rewrite list_lookup_alter_eq, list_lookup_insert_eq, Ht by by eapply lookup_lt_Some. done.
    - by rewrite list_lookup_alter_ne, list_lookup_insert_ne by done. }
  apply Forall2_insert; auto.
Qed.

Lemma all_open_insert sid g gs : all_open gs -> g_open g = true -> all_open (<[sid:=g]> gs).
Proof. intros Ho Hg. by apply Forall_insert. Qed.

Lemma perform_ok h ts a : state_ok h ts -> action_ok (length ts) a ->
  exists h', perform a h = (Val tt, h') /\ state_ok h' (track_action a ts).
Proof.
  intros (es & gs & Hh & Ho & Ht) Ha. pose proof (list.Forall2_length _ _ _ Ht) as Hlen.
  destruct a as [bufsize|sid l|sid| |]; cbn [perform track_action action_ok] in *.
  - destruct Ha as [Hc Hn]. pose proof Hc as Hc'. unfold cap_ok, CB.control_block_size in Hc'.
    pose proof (create_ok h es gs bufsize Hh) as Hcr.
    rewrite (proj2 (Z.eqb_neq bufsize 0)) in Hcr by lia.
    destruct Hcr as (h' & E & Hh' & _); [lia|done|].
    exists h'. split; [by erewrite bind_val by exact E|]. eexists _, _. split; [exact Hh'|]. split.
    + apply Forall_app. split; [done|]. by apply list.Forall_singleton.
    + apply Forall2_app; [done|]. apply Forall2_cons; [apply tracked_empty|done].
  - destruct Ha as (Hlt & Hb & Hl). destruct (lookup_lt_is_Some_2 gs sid) as (g & Hg); [lia|].
    assert (g_open g = true) as Hop by (unfold all_open in Ho; rewrite list.Forall_forall in Ho;
      apply Ho; by eapply list_elem_of_lookup_2).
    destruct (write_ok h es gs Hh sid g l (length l) Hg Hop Hb) as (h' & E & Hh' & _); [done|done|].
    exists h'. split; [done|]. eexists _, _. split; [exact Hh'|]. split; [by apply all_open_insert|].
    eapply (tracked_alter (g_write l)); [done|done|]. intros t. apply tracked_write.
  - destruct (lookup_lt_is_Some_2 gs sid) as (g & Hg); [lia|].
    assert (g_open g = true) as Hop by (unfold all_open in Ho; rewrite list.Forall_forall in Ho;
      apply Ho; by eapply list_elem_of_lookup_2).
    destruct (mark_ok h es gs Hh sid g Hg Hop) as (h' & E & Hh' & _).
    exists h'. split; [by erewrite bind_val by exact E|]. eexists _, _. split; [exact Hh'|].
    split; [by apply all_open_insert|].
    eapply (tracked_alter g_mark); [done|done|]. intros t. apply tracked_mark.
  - destruct (processWrites_run h es gs Hh) as (n & h' & es' & E & Hh' & _).
    exists h'. split; [by erewrite bind_val by exact E|]. eexists _, _. split; [exact Hh'|]. split.
    + apply Forall_fmap. eapply list.Forall_impl; [exact Ho|]. done.
    + rewrite <- (list_fmap_id ts). apply Forall2_fmap. eapply list.Forall2_impl; [exact Ht|]. done.
  - destruct (sync_ok h es gs true Hh Ho) as (h' & es' & E & Hh' & _).
    exists h'. split; [exact E|]. eexists _, _. split; [exact Hh'|]. split.
    + apply Forall_fmap. eapply list.Forall_impl; [exact Ho|]. done.
    + rewrite <- (list_fmap_id ts). apply Forall2_fmap. eapply list.Forall2_impl; [exact Ht|]. done.
Qed.

Lemma performs_ok l : forall h ts, state_ok h ts -> actions_ok (length ts) l ->
  exists h', performs l h = (Val tt, h') /\ state_ok h' (track_actions l ts).
Proof.
  induction l as [|a l IH]; intros h ts Hs Hl; cbn in *; [by exists h|]. destruct Hl as [Ha Hl].
  destruct (perform_ok h ts a Hs Ha) as (h1 & E1 & Hs1).
  destruct (IH h1 _ Hs1) as (h2 & E2 & Hs2).
  - by destruct a; cbn [track_action]; rewrite ?length_app, ?length_alter, ?Nat.add_1_r.
  - exists h2. split; [|done]. by erewrite bind_val by exact E1.
Qed.

Lemma open_truncate_ok existing n : exists h,
  FH.open 0 existing FH.Truncate n FH.make = (Val tt, h) /\ state_ok h [].
Proof.
  eexists. split; [unfold FH.open; erewrite bind_val by done; cbn [FH.blocksize FH.make Z.eqb negb];
    erewrite bind_val by done; destruct existing; erewrite bind_val by done; done|].
  exists [], []. split; [|split; [apply Forall_nil_2|done]]. split; cbn; try done; apply Forall_nil_2.
Qed.

(** ** The file that a sync leaves *)

Lemma synced_file h es gs b h' es' :
  handler_ok h' es' (g_synced b <$> gs) ->
  (forall sid g, gs !! sid = Some g -> versions (blocks_of sid 0 es') = g_full g ++ [g_cur g]) ->
  handler_ok h es gs -> Z.of_nat (length (FS.contents (FH.file h'))) < CB.int64_max -> file_ok es'.
Proof.
  intros Hh' Hv Hh Ht. pose proof (ho_entries _ _ _ Hh') as Hw. split; [done| |].
  - intros sid. destruct (decide (sid < length gs)%nat) as [Hlt|Hge].
    + destruct (lookup_lt_is_Some_2 gs sid Hlt) as (g & Hg).
      destruct (ghost_stream _ _ _ Hh' sid (g_synced b g)) as (s & Hs & Hso);
        [by rewrite list_lookup_fmap, Hg|]. eexists. exact (s_linked _ _ _ _ Hso).
    + exists 0. rewrite blocks_of_unknown; [done|].
      eapply list.Forall_impl; [exact (ho_known _ _ _ Hh')|]. cbn. intros e. rewrite length_fmap. lia.
  - rewrite (ho_contents _ _ _ Hh') in Ht. by rewrite (file_bytes_length _ Hw) in Ht.
Qed.

End Record.

(** ** A recording *)

(** A checksum and fresh memory for the examples. *)
Definition sum_crc : Crc.
Proof. refine {| crc16_ccitt := fun l => u16 (foldr Z.add 0 l) |}. intros l. apply u16_range. Defined.
Definition zero_memory : NewMemory.
Proof.
  refine {| new_char := fun n => replicate n 0 |}; intros n;
    [apply length_replicate|by apply Forall_replicate].
Defined.

Definition session : list Action :=
  [Create 32; Create 40; Write 0 [1;2;3]; MarkItem 0; Write 0 [4;5;6]; Process;
   MarkItem 1; Write 1 [10;20]; Sync; Write 0 [7;8]; Sync; Write 1 [30;40;50]; Write 0 [9]].

Definition recorded_session : list Z :=
  let _ := sum_crc in let _ := zero_memory in let _ := test_config in
  FS.contents (FH.file (snd (record_file None 32 session false FH.make))).

