(* ===== verification/DdffErrors.v ===== *)
(** Recording files: what arrives from a damaged file, and the ways of using a
    file that lose data. *)

From S2P Require Import Prelude.
From S2P Require Import Bytes.
From S2P Require Import Amorph.
From S2P Require Import DdffFile.
From S2P Require Import DdffStream.
From S2P Require Import DdffBlock.
From S2P Require Import DdffWrite.
From S2P Require Import DdffHandler.
From S2P Require Import DdffRead.
From S2P Require Import DdffLoad.
From S2P Require Import DdffRecord.
#[local] Open Scope Z_scope.

(** * Headers of any bytes *)

Definition field (i n : nat) (l : list Z) : list Z := take n (drop i l).

Lemma field_split i n l : drop i l = field i n l ++ drop (i + n) l.
Proof. unfold field. by rewrite <- (take_drop n (drop i l)) at 1; rewrite drop_drop. Qed.

(** The fields of a header, big endian. *)
Definition header_at (l : list Z) : CB.ControlBlockRead :=
  CB.mk (s64 (be_value (field 0 8 l))) (be_value (field 8 2 l)) (be_value (field 10 2 l))
    (be_value (field 12 4 l)) (be_value (field 16 4 l)) (be_value (field 20 4 l))
    (be_value (field 24 4 l)).

Lemma be_bytes_value n bs : length bs = n -> bytes_ok bs -> be_bytes n (be_value bs) = bs.
Proof.
  intros <- Hb. unfold be_bytes, be_value. rewrite <- (length_rev bs), le_bytes_value.
  - apply rev_involutive.
  - by apply Forall_rev.
Qed.

Lemma field_bytes i n l : bytes_ok l -> (i + n <= length l)%nat ->
  length (field i n l) = n /\ bytes_ok (field i n l) /\ be_bytes n (be_value (field i n l)) = field i n l.
Proof.
  intros Hb Hl. assert (length (field i n l) = n) as Hn
    by (unfold field; rewrite length_take, length_drop; lia).
  assert (bytes_ok (field i n l)) by (by apply Forall_take, Forall_drop).
  split_and!; [done|done|by apply be_bytes_value].
Qed.

Section Errors.
Context {BC : BuildConfig} {NM : NewMemory} {CR : Crc}.

Lemma of_header_run l : bytes_ok l -> (28 <= length l)%nat -> CB.of_header l = Val (header_at l).
Proof.
  intros Hb Hl. unfold CB.of_header. change (ARS.make l _) with (header_restore l 0).
  assert (forall i n, (i + n <= 28)%nat -> be_bytes n (be_value (field i n l)) = field i n l) as Hf.
  { intros i n Hi. apply field_bytes; [done|lia]. }
  assert (forall i, (i + 4 <= 28)%nat -> is_u32 (be_value (field i 4 l))) as H4.
  { intros i Hi. destruct (field_bytes i 4 l Hb) as (? & ? & _); [lia|]. by apply be_value_32. }
  assert (forall i, (i + 2 <= 28)%nat -> is_u16 (be_value (field i 2 l))) as H2.
  { intros i Hi. destruct (field_bytes i 2 l Hb) as (? & ? & _); [lia|]. by apply be_value_16. }
  erewrite (decode_fields (header_at l)); [done|]. eapply (unPackAll_encoded _ _ (drop 28 l)).
  - split; cbn; unfold CB.control_block_size; done || lia.
  - repeat first [apply Forall_nil_2|apply Forall_cons_2]; cbn;
      first [apply H4; lia|apply H2; lia|width].
  - cbn [header_restore ARS.index ARS.stor]. change (Z.to_nat 0) with O.
    unfold header_fields, header_at, encodings. cbn [mjoin list_join fmap list_fmap encoding width_of
      CB.next_offset CB.checksum CB.stream_id CB.block_size CB.block_fill CB.object_offset CB.block_num].
    unfold be_bytes at 1. rewrite le_bytes_s64. fold (be_bytes 8 (be_value (field 0 8 l))).
    rewrite !Hf by lia. rewrite app_nil_r, <- !app_assoc.
    rewrite (field_split 0 8 l), (field_split (0 + 8) 2 l), (field_split (0 + 8 + 2) 2 l),
      (field_split (0 + 8 + 2 + 2) 4 l), (field_split (0 + 8 + 2 + 2 + 4) 4 l),
      (field_split (0 + 8 + 2 + 2 + 4 + 4) 4 l), (field_split (0 + 8 + 2 + 2 + 4 + 4 + 4) 4 l).
    done.
  - done.
Qed.

(** The buffer with the fields of the header. *)
Definition with_header (b : MB.Buffer) : MB.Buffer :=
  let h := header_at (MB.buffer b) in
  MB.set_stream_id (CB.stream_id h)
    (MB.set_object_offset (CB.object_offset h) (MB.set_fill (CB.block_fill h) b)).

(** C23: reading a block of any bytes.  It is refused as too large for the buffer,
    or refused because its checksum is not that of all that follows the checksum,
    or its fields are those of the header; nothing is read outside the
    buffer.  The link to the next block, which is changed in the file after the
    block was written, is not covered by the checksum. *)
Theorem block_checked off b :
  Z.of_nat (length (MB.buffer b)) = MB.capacity b -> bytes_ok (MB.buffer b) ->
  CB.control_block_size <= MB.capacity b < 4294967296 ->
  let h := header_at (MB.buffer b) in
  CB.of_buffer off b =
    if MB.capacity b <? CB.block_size h then (Exn BufferTooSmall, b)
    else if CB.checksum h =? crc16_ccitt (drop 10 (MB.buffer b)) then (Val h, with_header b)
    else (Exn (BlockCrcError off (CB.block_fill h)), with_header b).
Proof.
  intros Hl Hb Hc h. unfold CB.control_block_size in Hc. unfold CB.of_buffer.
  rewrite of_header_run by (done || lia). fold h. destruct (_ <? _); [done|].
  cbn [MB.capacity MB.buffer MB.set_fill MB.set_object_offset MB.set_stream_id].
  unfold CB.block_crc. rewrite u64_id by (unfold is_u64; lia).
  rewrite read_at_some by lia. cbn [fmap option_fmap option_map]. change (Z.to_nat 10) with 10%nat.
  rewrite take_ge by (rewrite length_drop; lia). by destruct (_ =? _).
Qed.

(** ** A header without a block size *)

Definition zero_header : list Z := replicate 28 0.

(** The handler while it scans: it comes back to the same header. *)
Definition zero_scan (rest : list Z) (h : FH.FileHandler) : Prop :=
  FH.file h = FS.mk (zero_header ++ rest) 28 true
  /\ exists s, FH.streams h = [s] /\ FH.writer s = None /\ FH.reader s = None
       /\ (FH.firstblock_location s = -1 -> FH.block_size s = 0).

Lemma zero_header_run : CB.of_header zero_header = Val (CB.mk 0 0 0 0 0 0 0).
Proof.
  rewrite of_header_run; [done|by apply Forall_replicate|by unfold zero_header; rewrite length_replicate].
Qed.

Lemma zero_turn rest fuel h : zero_scan rest h -> exists h', zero_scan rest h'
  /\ FH.check_blocks (S fuel) 0 zero_header h = FH.check_blocks fuel 0 zero_header h'.
Proof.
  destruct h as [n l wj rj off f m ex]. intros (Hf & s & Hs & Hw & Hr & Hb). cbn in Hf, Hs. subst f l.
  destruct s as [w r la fi bs]. cbn in Hw, Hr, Hb. subst w r.
  cbn [FH.check_blocks]. erewrite bind_val by done. cbn [FH.file FS.good negb].
  rewrite zero_header_run. erewrite bind_val by done. destruct (Z.eqb_spec fi (-1)) as [->|Hfi].
  - rewrite Hb by done.
    exists (FH.mk n [FH.mkSet None None la 0 0] wj rj off (FS.mk (zero_header ++ rest) 28 true) m ex).
    split; [|done]. split; [done|]. by eexists.
  - exists (FH.mk n [FH.mkSet None None la fi bs] wj rj off (FS.mk (zero_header ++ rest) 28 true) m ex).
    split; [split; [done|]; by eexists|].
    assert (forall h, FH.streams h = [FH.mkSet None None la fi bs] ->
      FH.checkBlock 0 0 (CB.mk 0 0 0 0 0 0 0) h = (Val tt, h)) as Hcb.
    { intros h Hh. unfold FH.checkBlock, FH.stream_at, mbind, M_bind, get, mret, M_ret. rewrite Hh.
      cbn. rewrite (proj2 (Z.eqb_neq _ _)), Hh by done. done. }
    erewrite bind_val by by apply Hcb. done.
Qed.

Lemma zero_loops rest fuel : forall h, zero_scan rest h ->
  fst (FH.check_blocks fuel 0 zero_header h) = Stuck OutOfFuel.
Proof.
  induction fuel as [|fuel IH]; intros h Hh.
  - cbn [FH.check_blocks]. erewrite bind_val by done. by destruct Hh as [-> _].
  - destruct (zero_turn rest fuel h Hh) as (h' & Hh' & ->). by apply IH.
Qed.

(** [checkIndices] does not end on a file that starts with a header of zeros,
    such as a file that was given its size before its data: the block size of
    the header is added to the offset without a look at it, so the scan comes
    back to the same header for ever. *)
Theorem zero_size_never_ends rest fuel n mode :
  mode = FH.Read \/ mode = FH.Append \/ mode = FH.Any ->
  fst (FH.open fuel (Some (zero_header ++ rest)) mode n FH.make) = Stuck OutOfFuel.
Proof.
  intros Hm.
  set (h := FH.mk n [] [] [] 0 (FS.mk (zero_header ++ rest) 28 true) mode true).
  assert (FH.open fuel (Some (zero_header ++ rest)) mode n FH.make
    = (FH.check_blocks fuel 0 zero_header ;; FH.in_file FS.clear ;; FH.in_file (FS.seekg 0)) h) as ->
    by (destruct Hm as [->|[->| ->]]; done).
  assert (fst (FH.check_blocks fuel 0 zero_header h) = Stuck OutOfFuel) as Hl.
  { destruct fuel as [|fuel]; [done|].
    assert (FH.check_blocks (S fuel) 0 zero_header h = FH.check_blocks fuel 0 zero_header
      (FH.mk n [FH.mkSet None None (-1) 0 0] [] [] 0 (FS.mk (zero_header ++ rest) 28 true) mode true)) as ->.
    { cbn [FH.check_blocks]. erewrite bind_val by done. cbn [FH.file FS.good negb h].
      rewrite zero_header_run. done. }
    apply (zero_loops rest). split; [done|]. by eexists. }
  unfold mbind, M_bind. destruct (FH.check_blocks fuel 0 zero_header h) as [r h']. cbn in Hl. by subst r.
Qed.

(** ** Writing in any pieces *)

Lemma put_chars_app l1 l2 w : FSW.put_chars (l1 ++ l2) w = (FSW.put_chars l1 ;; FSW.put_chars l2) w.
Proof.
  revert w. induction l1 as [|c l1 IH]; intros w; [done|]. cbn [app FSW.put_chars].
  unfold mbind, M_bind in IH |- *. destruct (FSW.put_char c w) as [[[]|?|?] w']; [apply IH|done..].
Qed.

(** C22: the block-wise [write] of a stream does what the byte by byte iterator
    does, over any number of block ends, so that it does not matter in what
    pieces data are written. *)
Theorem write_bytewise cap sid q cur bn po pr rq w l1 l2 f f1 f2 :
  cap_ok cap -> writer_ok cap sid q cur true bn po pr rq w ->
  bytes_ok l1 -> bytes_ok l2 -> Z.of_nat (length l1 + length l2) < 4294967296 ->
  (length l1 + length l2 <= f)%nat -> (length l1 <= f1)%nat -> (length l2 <= f2)%nat ->
  FSW.write f (l1 ++ l2) w = FSW.put_chars (l1 ++ l2) w
  /\ (FSW.write f1 l1 ;; FSW.write f2 l2) w = FSW.put_chars (l1 ++ l2) w.
Proof.
  intros Hc Hw H1 H2 Hn Hf Hf1 Hf2. split.
  - eapply write_put_chars; [done|done| |by rewrite length_app|by rewrite length_app].
    by apply Forall_app.
  - rewrite put_chars_app. destruct (put_chars_run _ _ Hc l1 _ _ _ _ _ _ w Hw H1) as (w' & E & Hw').
    erewrite bind_val by (erewrite write_put_chars; [exact E|done|done|done|done|lia]).
    erewrite bind_val by exact E. eapply write_put_chars; [done|exact Hw'|done|done|lia].
Qed.
End Errors.

(** * Examples *)

Section Examples.
#[local] Existing Instance sum_crc.
#[local] Existing Instance zero_memory.
#[local] Existing Instance test_config.

Lemma block_checked_witness :
  let b := MB.set_buffer (replicate 28 0 ++ [1;2;3;4]) (MB.make 32) in
  CB.of_buffer 64 b = (Exn (BlockCrcError 64 0), with_header b).
Proof.
  intros b. rewrite (block_checked 64 b); [by vm_compute|done| |by split; vm_compute].
  apply Forall_app. split; [by apply Forall_replicate|]. repeat constructor; unfold is_u8; lia.
Defined.

Lemma zero_size_never_ends_witness :
  fst (FH.open 1000 (Some (zero_header ++ [1;2;3])) FH.Read 32 FH.make) = Stuck OutOfFuel.
Proof. apply (zero_size_never_ends [1;2;3] 1000 32 FH.Read). by left. Defined.

Lemma write_bytewise_witness : exists w, FSW.make 3 32 = Val w
  /\ FSW.write 6 [1;2;3;4;5;6] w = FSW.put_chars [1;2;3;4;5;6] w
  /\ (FSW.write 2 [1;2] ;; FSW.write 4 [3;4;5;6]) w = FSW.put_chars [1;2;3;4;5;6] w.
Proof.
  assert (cap_ok 32) as Hc by (unfold cap_ok, CB.control_block_size; lia).
  destruct (make_writer_run 32 3 Hc) as (w & E & Hw). exists w. split; [done|].
  apply (write_bytewise 32 3 [] empty_version 0 (-1) (-1) 0 w [1;2] [3;4;5;6] 6 2 4);
    try done; try (cbn; lia); repeat constructor; unfold is_u8; lia.
Defined.

(** A file of one stream, with the data [1..6] in a full and a partial block. *)
Definition two_blocks : list Z :=
  FS.contents (FH.file (snd (record_file None 32
    [Create 32; MarkItem 0; Write 0 [1;2;3;4;5;6]] false FH.make))).

(** Appending to its stream: [setWriter] reads the header of the last block and
    then a whole block from behind the header.  The read fails at the end of
    the file, and from then on nothing is written. *)
Example append_is_lost :
  let '(r, h) := (FH.open 100 (Some two_blocks) FH.Append 32 ;; FH.attachWrite 0 32 ;;
    FH.on_writer 0 (FSW.write 3 [7;8;9]) ;; FH.syncToFile false) FH.make in
  r = Val tt /\ FS.contents (FH.file h) = two_blocks /\ FS.good (FH.file h) = false.
Proof. vm_compute. done. Qed.

(** A new stream in an existing file: [offset] is still 0, so its first block
    takes the place of the first block of the file. *)
Example new_stream_overwrites :
  let '(r, h) := (FH.open 100 (Some two_blocks) FH.Append 32 ;; FH.createWrite 32 ;;
    FH.on_writer 1 (FSW.write 1 [7]) ;; FH.syncToFile false) FH.make in
  r = Val tt /\ take 32 (FS.contents (FH.file h)) <> take 32 two_blocks
  /\ length (FS.contents (FH.file h)) = length two_blocks.
Proof. vm_compute. done. Qed.

(** The link of the last block is the largest 64 bit number. *)
Example last_link : CB.next_offset (header_at (drop 32 two_blocks)) = CB.int64_max.
Proof. vm_compute. done. Qed.

(** Loading leaves the position at the start of the file; the next new block is
    written there. *)
Example write_after_load_overwrites :
  let '(r, h) := (FH.open 100 None FH.Truncate 32 ;; FH.createWrite 32 ;;
    FH.on_writer 0 (FSW.write 4 [1;2;3;4]) ;; FH.processWrites ;;
    FH.createRead 0 2 false ;; FH.runLoads 10 ;;
    FH.on_writer 0 (FSW.write 4 [5;6;7;8]) ;; FH.processWrites) FH.make in
  r = Val 1%nat /\ length (FS.contents (FH.file h)) = 32%nat
  /\ drop 28 (FS.contents (FH.file h)) = [5;6;7;8].
Proof. vm_compute. done. Qed.
End Examples.
